(* ===== verification/_CoqProject ===== *)
-Q . S2P
Prelude.v
ImHash.v
ImBits.v
ImMap.v
ImMapFacts.v
ImMapIter.v
ImMapSpec.v
BufInt.v
BufIntFacts.v
BufOps.v
BufOpsFacts.v
Base64.v
Base64Facts.v
BufText.v
BufTextFacts.v
ImSeq.v
ImSeqFacts.v
ImSeqSpec.v
ImIter.v
ImIterFacts.v
ImSet.v
ImStack.v
ImList.v
ImListFacts.v
ImListSpec.v
ImListIter.v
ImListOps.v
ImListProg.v
ImListHoles.v
ImOrdMap.v
ImOrdMapFacts.v
ImOrdMapSpec.v
Tick.v
JsObj.v
Events.v
EventsFacts.v
Memo.v
Transaction.v
Ruler.v
Entities.v
MdUtils.v
MdUtilsFacts.v
Punycode.v
PunycodeFacts.v
StrDecoder.v
StrDecoderFacts.v
FeeMarket.v
StateDB.v
StateDBFacts.v
StateDBJournal.v
StateDBSnap.v
StateDBCommit.v
EvmKeeper.v
StateDBSamples.v
TxData.v
Apply.v
ApplyFacts.v
Ante.v
AnteFacts.v
Estimate.v
ApplySamples.v
MdBase.v
MdUri.v
MdInline.v
MdRender.v
MdInlineFacts.v
MdHtml.v
MdBlock.v
MdBlockFacts.v
MdCore.v
MdCoreFacts.v
MdSpec.v
Json.v
JsonPatch.v
JsonPatchFacts.v
JsonPatchRfc.v
JsonPatchSpec.v
Redux.v
ReduxFacts.v
Promise.v
