(* ===== verification/Prelude.v ===== *)
(** * Verification of Ethermint

    Ethermint is a chain of the Cosmos SDK that runs the Ethereum virtual machine.
    This library models two parts of the repository: the core of the chain,
    written in Go, which takes a transaction from its admission to the state it
    leaves, and the libraries in the JavaScript bundle that the node serves as
    the documentation of its interface (Swagger UI).

    ** The chain

    A block moves the base fee (x/feemarket).  A transaction is a list of
    Ethereum messages; the handlers of app/ante admit it, collect the fees
    and count the nonces; the state transition of x/evm/keeper runs each message
    on a state database (x/evm/statedb), commits it to the store through the
    keeper, and pays back the gas that was not used.

    - [FeeMarket]: x/feemarket/types/params.go, x/feemarket/keeper/eip1559.go,
      abci.go and params.go.  [CalculateBaseFee], [BeginBlock] and [EndBlock] as
      functions of the state of the module.  [base_fee_bounds]: how far the fee
      moves, and in which direction; [block_cycle]: from a valid state, with a
      positive gas target, a block does not panic and leaves a valid state.
    - [StateDB]: x/evm/statedb.  The record [db] is what a revert restores,
      [StateDB] adds the journal, the dirty accounts and the snapshots; one
      function per method; [None] is a panic.  The class [Keeper] is the
      interface Keeper of interfaces.go.  [StateDBFacts] has the laws of the
      interface ([KeeperLaws]) and the lemmas on state objects, [StateDBJournal]
      the steps of the journal ([jstep]) and the order [shows], [StateDBSnap] the
      operations [op], their runs [exec], the states [reachable] by a
      transaction, and the theorems [snapshot_restored] and [revisions_exact].
      Native actions may create accounts, which a revert does not take out of the
      cache of objects: what is restored of accounts that did not exist holds where
      such actions spare them ([op_spares]).  [StateDBCommit] has
      [commit_writes], for every account but those that were created again over an
      existing one without becoming dirty, which the code does not write.
    - [EvmKeeper]: x/evm/keeper/statedb.go and keeper.go.  The store
      [multiStore] and the instance of [Keeper] on it, proved to keep the laws
      that the theorems on the database use; [delete_account_correct].
    - [TxData]: the types of transactions in x/evm/types, [txdata_roundtrip] with
      the transactions of go-ethereum, and [fees_agree] on prices and fees.
    - [Apply]: x/evm/keeper/state_transition.go and gas.go.
      [ApplyMessageWithConfig] over the state database and [ApplyTransaction]
      over the context of a transaction.  [ApplyFacts]: [apply_message_correct],
      what is committed, also of a message that fails, and what is charged;
      [transaction_settles], the store that is kept with and without hooks, and
      the refund.
    - [Ante]: app/ante/eth.go and x/evm/keeper/utils.go.  [AnteFacts]:
      [gas_consume_charges], [sender_nonces], [senders_verified], and
      [sender_pays_gas_used], which goes from the admission to the end of the
      transaction.
    - [Estimate]: [EstimateGas] of grpc_query.go with its binary search;
      [estimate_correct].
    - [StateDBSamples], [ApplySamples]: a small chain that keeps all of the laws,
      with transactions on it, and examples of what the code does otherwise
      than its comments say.

    Numbers of [big.Int] and [sdkmath.Int] are [Z]; machine integers are [Z] with
    their wrap-around where it can occur; decimals are integers of 10^-18.
    The account and bank keepers of the SDK ([Native], [FeeBank], [Chain]), the
    interpreter of go-ethereum ([Evm]), its hexadecimal notation ([Hex]) and its
    hash are parameters with laws; where codes are compared by their hashes, those
    that the store and the database have are assumed to have different ones
    ([collision_free]).

    ** The bundle

    src/client/docs/swagger-ui/swagger-ui-bundle.js is a bundle of numbered
    modules.  Strings are lists of UTF-16 code units, integers are [Z] with the
    conversions of the bitwise operators written out ([i32], [u32] below), a
    computation that can throw returns [js A].

    - [ImHash], [ImBits], [ImMap] with [ImMapFacts], [ImMapIter], [ImMapSpec]:
      module 7, Immutable.  Value equality and hashing, and the hash array mapped
      trie of Map.  [map_refines]: every program of updates behaves as on a
      finite map; [set_correct], [remove_correct], [merge_correct],
      [iterate_correct], [iterator_correct].
    - [ImList]: List, a vector trie with an origin and a tail.  [ImListFacts]:
      the digits of an index and the moves between tries of different levels;
      [ImListSpec], [ImListIter], [ImListOps]: what each operation does to the
      sequence a list stands for ([repr]).  [ImListProg]: [list_refines], every
      program of operations behaves as on a sequence, and [list_iteration];
      [ImListHoles]: when a removed value can return.
    - [ImOrdMap] with [ImOrdMapFacts]: OrderedMap and OrderedSet over Map and List.
      [ImOrdMapSpec]: [ordered_map_refines], [ordered_set_refines], and the
      programs on which the code departs from an ordered map.
    - [ImSeq], [ImIter] with [ImSeqFacts], [ImSeqSpec], [ImIterFacts]: its lazy
      sequences by what iterating over them does, and by their iterators;
      [ImSet] and [ImStack]: sets and stacks.
    - [BufInt], [BufOps], [BufText], [Base64] with their files of facts: module
      54, Node's buffer, and module 528.  Round trips of integers, of UTF-8 and
      of the other encodings; search.  [StrDecoder]: the decoder of streams;
      decoding in chunks is decoding the whole.
    - [Tick], [JsObj], [Events], [Memo], [Transaction], [Ruler]: the queue of
      process.nextTick as a state machine, the event emitter with its
      aliased arrays and a record of every function that is applied, where the
      functions of the page are programs that use the emitter, the memoized selectors of reselect, the transactions of
      React and the rule chains of the Markdown parser.
    - [Entities], [MdUtils], [Punycode]: the table of HTML entities, the escapes
      of the Markdown parser, and Punycode with its round trip.
    - [MdBase], [MdUri], [MdInline], [MdRender], [MdBlock], [MdCore]: Remarkable,
      the Markdown parser, modules 153, 235, 417 to 420 and 1001 to 1051, with a
      regular expression engine that backtracks ([MdBase.matcher]).  The two
      parsers are states passed through their rules; a rule gets the parser as a
      record of operations ([MdInline.parser], [MdBlock.bparser]), and the knot is
      tied by fuel.  [MdInlineFacts], [MdBlockFacts], [MdCoreFacts]: the contracts
      of the rules ([parser_ok], [bparser_ok]) and that every rule keeps them.
      [MdHtml]: the grammar of the fragments that are written.  [MdSpec]:
      [inline_parse_balanced] and [block_parse_balanced], the parsers end, and
      open and close tokens match, also in footnotes; [inline_links_safe],
      addresses are tested;
      [render_wellformed], rendering gives well-formed markup with nothing from
      the source left as markup; and the documents on which the code throws,
      loops or loses text.  Case conversion beyond ASCII and the Autolinker are
      parameters.
    - [Json], [JsonPatch]: fast-json-patch and deep-equal, modules 230, 390, 391 and
      910.  A document is a tree; an operation walks along its path and returns
      the document it leaves, with and without validation.  [JsonPatchFacts]:
      edits at one place and how the operations of a patch compose;
      [JsonPatchRfc]: the operations of RFC 6902 as a specification.
      [JsonPatchSpec]: [patch_roundtrip], applying the patch between two documents
      gives the second; [validated_rfc], validated operations refine RFC 6902;
      [deep_equal_correct]; and the inputs on which the code departs from it.
    - [Redux]: the store, modules 271, 275 and 560 to 562, with its shared arrays
      of listeners in a heap; reducers and listeners are programs that call the
      store in any way.  [ReduxFacts]: [store_refines], the store behaves as one
      that copies its listeners for each dispatch, also when it is called while
      it dispatches; [dispatch_returns]; [combine_correct].
    - [Promise]: the Promise of core-js, modules 337, 733 and the queue of 735, as a
      machine whose labels are what the page and the host do next, and whose trace
      has every call that the polyfill makes.  The life of
      one promise is a relation on what the machine holds about it ([life]), which
      every step follows for every promise.  [promise_settles_once], a pending
      promise has exactly one open pair of resolving functions and a settled one
      never changes; [promise_reactions], reactions call what they have to, once, in
      order, with the value, and all have when the microtasks are done.

    ** Fuel

    Loops that are not structural take fuel.  The search for an executable gas
    limit halves an interval of less than 2^64, so it has 64 rounds; the other
    bounds are the lengths of what a loop consumes, and are stated where they
    are chosen.  The rules of the Markdown parser call it for a part of the text:
    the depth of these calls is at most the length of the source in the inline
    parser and [maxNesting] in the block parser.  The theorems show that the fuel
    is enough, or take an amount that is enough as a hypothesis that a witness
    meets.

    ** Not modelled

    Of the chain: the application and its handlers apart from those above
    (signatures, EIP-712, authz, the mempool cache, the parallel executor), the
    JSON-RPC server and its backend, the indexer, keys and derivation paths, the
    command line, encoding, the precompiled contracts' bindings, the tracers, the
    other queries, genesis, migrations and messages of the two modules, and
    the code that protobuf generates.  These are input and output, or calls into
    the SDK and go-ethereum, which are not part of the repository.  Of the
    database: the tracing hooks and the methods for tests.  Of the bundle: React,
    the components of Swagger UI and the parser of YAML, whose behaviour
    is that of the document tree of a browser or of the schema types it is
    given; Immutable's records and ranges; the Autolinker; subclasses of Promise,
    and pages that replace the [then] of a promise or read [then] by a getter that
    calls into the polyfill.  The tests, scripts and configuration files are not part of the program. *)

From Stdlib Require Export ZArith Lia Bool.
From stdpp Require Export base numbers option list.
From stdpp Require Import options.
Export ListNotations.

(** ** Notations *)

Declare Scope js_scope.
Delimit Scope js_scope with js.

(** ** 32-bit integer operators of JavaScript

    A JavaScript number that holds an integer is a [Z].  The bitwise operators
    convert their operands with ToInt32 (or ToUint32 for [>>>]), so every
    result is written with the wrap-around the language prescribes. *)

Local Open Scope Z_scope.

Definition i32 (z : Z) : Z := (z + 2 ^ 31) mod 2 ^ 32 - 2 ^ 31.
Definition u32 (z : Z) : Z := z mod 2 ^ 32.

Definition js_or (a b : Z) : Z := Z.lor (i32 a) (i32 b).
Definition js_and (a b : Z) : Z := Z.land (i32 a) (i32 b).
Definition js_xor (a b : Z) : Z := Z.lxor (i32 a) (i32 b).
Definition js_shl (a n : Z) : Z := i32 (Z.shiftl (i32 a) (n mod 32)).
Definition js_shr (a n : Z) : Z := Z.shiftr (i32 a) (n mod 32).
Definition js_ushr (a n : Z) : Z := Z.shiftr (u32 a) (n mod 32).

Notation "a '.|' b" := (js_or a b) (at level 54, left associativity) : js_scope.
Notation "a '.&' b" := (js_and a b) (at level 52, left associativity) : js_scope.
Notation "a '.^' b" := (js_xor a b) (at level 53, left associativity) : js_scope.
Notation "a '<<.' n" := (js_shl a n) (at level 51, left associativity) : js_scope.
Notation "a '>>.' n" := (js_shr a n) (at level 51, left associativity) : js_scope.
Notation "a '>>>.' n" := (js_ushr a n) (at level 51, left associativity) : js_scope.

#[global] Arguments i32 : simpl never.
#[global] Arguments u32 : simpl never.
#[global] Arguments js_or : simpl never.
#[global] Arguments js_and : simpl never.
#[global] Arguments js_xor : simpl never.
#[global] Arguments js_shl : simpl never.
#[global] Arguments js_shr : simpl never.
#[global] Arguments js_ushr : simpl never.

(** [isInt32 z]: [z] is a value ToInt32 leaves alone; [isUint32] likewise. *)
Definition isInt32 (z : Z) : Prop := - 2 ^ 31 <= z < 2 ^ 31.
Definition isUint32 (z : Z) : Prop := 0 <= z < 2 ^ 32.

(** ** Exceptions

    Code that can throw returns [js A]. *)

Inductive error : Set :=
| TypeError
| RangeError
| URIError
| Error_.

#[global] Instance error_eq_dec : EqDecision error.
Proof. solve_decision. Defined.

Inductive js (A : Type) : Type :=
| Ok (a : A)
| Throw (e : error).
Arguments Ok {A} a.
Arguments Throw {A} e.

Definition js_bind {A B} (m : js A) (k : A -> js B) : js B :=
  match m with Ok a => k a | Throw e => Throw e end.

Notation "x '<-!' m ';;' k" := (js_bind m (fun x => k))
  (at level 199, m at level 60, right associativity) : js_scope.

Definition js_map {A B} (f : A -> B) (m : js A) : js B :=
  match m with Ok a => Ok (f a) | Throw e => Throw e end.

(** ** Arithmetic lemmas *)

Create HintDb jsint.

Lemma i32_range z : isInt32 (i32 z).
Proof. unfold isInt32, i32. pose proof (Z.mod_pos_bound (z + 2 ^ 31) (2 ^ 32)). lia. Qed.

Lemma u32_range z : isUint32 (u32 z).
Proof. unfold isUint32, u32. apply Z.mod_pos_bound. lia. Qed.

Lemma i32_id z : isInt32 z -> i32 z = z.
Proof. unfold isInt32, i32. intros. rewrite Z.mod_small; lia. Qed.

Lemma u32_id z : isUint32 z -> u32 z = z.
Proof. unfold isUint32, u32. intros. by rewrite Z.mod_small. Qed.

Lemma i32_small z : 0 <= z < 2 ^ 31 -> i32 z = z.
Proof. intros. apply i32_id. unfold isInt32. lia. Qed.

Lemma u32_i32 z : u32 (i32 z) = u32 z.
Proof.
  unfold u32, i32. rewrite Zminus_mod_idemp_l. f_equal. lia.
Qed.

Lemma i32_eqm z : exists k, i32 z = z + k * 2 ^ 32.
Proof.
  exists (- ((z + 2 ^ 31) / 2 ^ 32)). unfold i32.
  rewrite Z.mod_eq by lia. lia.
Qed.

Lemma u32_eqm z : exists k, u32 z = z + k * 2 ^ 32.
Proof. exists (- (z / 2 ^ 32)). unfold u32. rewrite Z.mod_eq by lia. lia. Qed.

Lemma testbit_add_pow32 z k i :
  0 <= i < 32 -> Z.testbit (z + k * 2 ^ 32) i = Z.testbit z i.
Proof.
  intros Hi. rewrite <- (Z.mod_pow2_bits_low (z + k * 2 ^ 32) 32) by lia.
  rewrite Z_mod_plus_full. by rewrite Z.mod_pow2_bits_low by lia.
Qed.

Lemma i32_testbit z i : 0 <= i < 32 -> Z.testbit (i32 z) i = Z.testbit z i.
Proof. intros. destruct (i32_eqm z) as [k ->]. by apply testbit_add_pow32. Qed.

Lemma u32_testbit z i :
  Z.testbit (u32 z) i = (i <? 32) && Z.testbit z i.
Proof.
  unfold u32. destruct (Z.ltb_spec i 32); simpl.
  - destruct (Z.leb_spec 0 i).
    + by rewrite Z.mod_pow2_bits_low by lia.
    + by rewrite !Z.testbit_neg_r by lia.
  - by rewrite Z.mod_pow2_bits_high by lia.
Qed.

(** A number below [2^n] has no bit from [n] on. *)
Lemma testbit_high x n i : 0 <= x < 2 ^ n -> n <= i -> Z.testbit x i = false.
Proof.
  intros Hx Hi. destruct (decide (0 <= n)).
  - rewrite <- (Z.mod_small x (2 ^ n)) by lia. by apply Z.mod_pow2_bits_high; lia.
  - rewrite Z.pow_neg_r in Hx by lia. lia.
Qed.

Lemma js_and_pos_r a m : 0 <= m < 2 ^ 31 -> js_and a m = Z.land (u32 a) m.
Proof.
  intros Hm. unfold js_and. rewrite (i32_small m) by done.
  apply Z.bits_inj'. intros i Hi. rewrite !Z.land_spec, u32_testbit.
  destruct (Z.ltb_spec i 32).
  - by rewrite i32_testbit by lia.
  - rewrite (testbit_high m 31) by lia. by rewrite !andb_false_r.
Qed.

Lemma js_and_ones a n : 0 <= n <= 31 -> js_and a (2 ^ n - 1) = a mod 2 ^ n.
Proof.
  intros Hn. assert (2 ^ n <= 2 ^ 31) by (apply Z.pow_le_mono_r; lia).
  assert (0 < 2 ^ n) by (apply Z.pow_pos_nonneg; lia).
  rewrite js_and_pos_r by lia.
  replace (2 ^ n - 1) with (Z.ones n) by (rewrite Z.ones_equiv; lia).
  rewrite Z.land_ones by lia. unfold u32.
  apply Z.mod_mod_divide. exists (2 ^ (32 - n)). rewrite <- Z.pow_add_r by lia. f_equal; lia.
Qed.

Lemma js_ushr_small a n : 0 <= n < 32 -> js_ushr a n = u32 a / 2 ^ n.
Proof. intros. unfold js_ushr. rewrite Z.mod_small, Z.shiftr_div_pow2 by lia. done. Qed.

#[export] Hint Resolve i32_range u32_range : jsint.

(** The bits of an int32 from bit 31 on are its sign. *)
Lemma int32_sign_bits x i : isInt32 x -> 31 <= i -> Z.testbit x i = (x <? 0).
Proof.
  unfold isInt32. intros Hx Hi. destruct (Z.ltb_spec x 0).
  - rewrite <- (negb_involutive (Z.testbit x i)), <- Z.lnot_spec by lia.
    rewrite (testbit_high (Z.lnot x) 31); [done| |done].
    pose proof (Z.add_lnot_diag x). lia.
  - by rewrite (testbit_high x 31) by lia.
Qed.

Lemma testbit_split y k n i :
  0 <= n -> 0 <= i -> 0 <= y < 2 ^ n ->
  Z.testbit (y + k * 2 ^ n) i = if i <? n then Z.testbit y i else Z.testbit k (i - n).
Proof.
  intros Hn Hi Hy. destruct (Z.ltb_spec i n).
  - rewrite <- (Z.mod_pow2_bits_low (y + k * 2 ^ n) n) by lia.
    rewrite Z_mod_plus_full. by rewrite Z.mod_pow2_bits_low by lia.
  - replace i with (i - n + n) at 1 by lia.
    rewrite <- Z.div_pow2_bits by lia.
    rewrite Z.div_add, Z.div_small by lia. done.
Qed.

Lemma u32_shiftr_testbit a n i :
  0 <= n -> 0 <= i -> Z.testbit (Z.shiftr (u32 a) n) i = (i + n <? 32) && Z.testbit a (i + n).
Proof. intros. by rewrite Z.shiftr_spec, u32_testbit by lia. Qed.

Lemma land_pow2_testbit x n i : 0 <= n -> Z.testbit (Z.land x (2 ^ n)) i = (i =? n) && Z.testbit x i.
Proof.
  intros. rewrite Z.land_spec. destruct (Z.eqb_spec i n) as [->|].
  - by rewrite Z.pow2_bits_true, andb_true_r by lia.
  - by rewrite Z.pow2_bits_false, andb_false_r by lia.
Qed.

Lemma isInt32_shiftr x : isInt32 x <-> Z.shiftr x 31 = 0 \/ Z.shiftr x 31 = -1.
Proof.
  unfold isInt32. rewrite Z.shiftr_div_pow2 by lia.
  pose proof (Z.div_mod x (2 ^ 31) ltac:(discriminate)).
  pose proof (Z.mod_pos_bound x (2 ^ 31) ltac:(reflexivity)).
  change (2 ^ 31) with 2147483648 in *. lia.
Qed.

Lemma js_or_int32 a b : isInt32 (js_or a b).
Proof.
  apply isInt32_shiftr. unfold js_or. rewrite Z.shiftr_lor.
  destruct (proj1 (isInt32_shiftr _) (i32_range a)) as [-> | ->],
    (proj1 (isInt32_shiftr _) (i32_range b)) as [-> | ->]; cbn; auto.
Qed.

Lemma js_and_int32 a b : isInt32 (js_and a b).
Proof.
  apply isInt32_shiftr. unfold js_and. rewrite Z.shiftr_land.
  destruct (proj1 (isInt32_shiftr _) (i32_range a)) as [-> | ->],
    (proj1 (isInt32_shiftr _) (i32_range b)) as [-> | ->]; cbn; auto.
Qed.

Lemma js_xor_int32 a b : isInt32 (js_xor a b).
Proof.
  apply isInt32_shiftr. unfold js_xor. rewrite Z.shiftr_lxor.
  destruct (proj1 (isInt32_shiftr _) (i32_range a)) as [-> | ->],
    (proj1 (isInt32_shiftr _) (i32_range b)) as [-> | ->]; cbn; auto.
Qed.

Lemma js_shl_int32 a n : isInt32 (js_shl a n).
Proof. apply i32_range. Qed.

#[export] Hint Resolve js_or_int32 js_and_int32 js_xor_int32 js_shl_int32 : jsint.

(** Bits of the operators, below bit 32. *)
Lemma js_or_testbit a b i :
  0 <= i < 32 -> Z.testbit (js_or a b) i = Z.testbit a i || Z.testbit b i.
Proof. intros. unfold js_or. by rewrite Z.lor_spec, !i32_testbit by lia. Qed.

Lemma js_and_testbit a b i :
  0 <= i < 32 -> Z.testbit (js_and a b) i = Z.testbit a i && Z.testbit b i.
Proof. intros. unfold js_and. by rewrite Z.land_spec, !i32_testbit by lia. Qed.

Lemma js_xor_testbit a b i :
  0 <= i < 32 -> Z.testbit (js_xor a b) i = xorb (Z.testbit a i) (Z.testbit b i).
Proof. intros. unfold js_xor. by rewrite Z.lxor_spec, !i32_testbit by lia. Qed.

Lemma js_ushr_testbit a n i :
  0 <= n < 32 -> 0 <= i -> Z.testbit (js_ushr a n) i = (i + n <? 32) && Z.testbit a (i + n).
Proof. intros. unfold js_ushr. by rewrite Z.mod_small, u32_shiftr_testbit by lia. Qed.

(** Two int32 values with the same 32 low bits are equal. *)
Lemma int32_ext x y :
  isInt32 x -> isInt32 y -> (forall i, 0 <= i < 32 -> Z.testbit x i = Z.testbit y i) -> x = y.
Proof.
  intros Hx Hy H. apply Z.bits_inj'. intros i Hi. destruct (decide (i < 32)); [apply H; lia|].
  rewrite !int32_sign_bits by (done || lia).
  rewrite <- (int32_sign_bits x 31), <- (int32_sign_bits y 31) by (done || lia).
  apply H. lia.
Qed.

Lemma i32_add_mul a k : i32 (a + k * 2 ^ 32) = i32 a.
Proof.
  unfold i32. replace (a + k * 2 ^ 32 + 2 ^ 31) with (a + 2 ^ 31 + k * 2 ^ 32) by lia.
  by rewrite Z_mod_plus_full.
Qed.

Lemma i32_eq a b : (exists k, a = b + k * 2 ^ 32) -> i32 a = i32 b.
Proof. intros [k ->]. apply i32_add_mul. Qed.

Lemma js_or_0_r a : js_or a 0 = i32 a.
Proof. unfold js_or. change (i32 0) with 0. apply Z.lor_0_r. Qed.

Lemma js_or_0_l a : js_or 0 a = i32 a.
Proof. unfold js_or. change (i32 0) with 0. apply Z.lor_0_l. Qed.

Lemma js_and_comm a b : js_and a b = js_and b a.
Proof. apply Z.land_comm. Qed.

Lemma js_shl_small a n : 0 <= n < 32 -> js_shl a n = i32 (a * 2 ^ n).
Proof.
  intros. unfold js_shl. rewrite Z.mod_small, Z.shiftl_mul_pow2 by lia.
  apply i32_eq. destruct (i32_eqm a) as [k ->]. exists (k * 2 ^ n). lia.
Qed.

(** A decidable fact about all bytes, by computation. *)
Lemma byte_forall (P : Z -> bool) :
  forallb P (map Z.of_nat (seq 0 256)) = true -> forall x, 0 <= x < 256 -> P x = true.
Proof.
  intros H x Hx. rewrite forallb_forall in H. apply H, in_map_iff.
  exists (Z.to_nat x). split; [lia|]. apply in_seq. lia.
Qed.

Lemma shiftr_range x n b : 0 <= n -> 0 <= x < b -> 0 <= Z.shiftr x n < b.
Proof.
  intros. rewrite Z.shiftr_div_pow2 by lia.
  assert (1 <= 2 ^ n) by (pose proof (Z.pow_pos_nonneg 2 n); lia).
  split; [apply Z.div_pos; lia|]. apply Z.div_lt_upper_bound; nia.
Qed.

(** ** Lists *)

Lemma Forall2_impl_r {A B} (P Q : A -> B -> Prop) (R : B -> Prop) l k :
  Forall2 P l k -> Forall R k -> (forall x y, P x y -> R y -> Q x y) -> Forall2 Q l k.
Proof. intros H HR Himp. induction H; inversion HR; subst; constructor; auto. Qed.

(** A loop over a list whose body can ask to stop, as the callbacks of
    [forEach]-like methods do by returning [false]. *)
Fixpoint each {A S} (f : A -> S -> S * bool) (l : list A) (s : S) : S * bool :=
  match l with
  | [] => (s, false)
  | x :: l' => let '(s', stop) := f x s in if stop then (s', true) else each f l' s'
  end.

Lemma each_app {A S} (f : A -> S -> S * bool) l l' s :
  each f (l ++ l') s = let '(s', stop) := each f l s in if stop then (s', true) else each f l' s'.
Proof.
  revert s. induction l as [|x l IH]; intros s; cbn; [done|].
  destruct (f x s) as [s' []]; [done|]. apply IH.
Qed.

Lemma each_ext {A S} (f g : A -> S -> S * bool) l s : (forall x s, f x s = g x s) -> each f l s = each g l s.
Proof.
  intros H. revert s. induction l as [|x l IH]; intros s; cbn; [done|].
  rewrite H. destruct (g x s) as [s' []]; [done|]. apply IH.
Qed.

(** Or of numbers with no bit in common is their sum. *)
Lemma js_or_disjoint x y n : 0 <= n < 32 -> 0 <= x < 2 ^ n -> js_or x (y * 2 ^ n) = i32 (x + y * 2 ^ n).
Proof.
  intros Hn Hx. apply int32_ext; [apply js_or_int32|apply i32_range|]. intros i Hi.
  rewrite js_or_testbit, i32_testbit, testbit_split by lia.
  replace (y * 2 ^ n) with (0 + y * 2 ^ n) by lia. rewrite testbit_split by lia.
  destruct (Z.ltb_spec i n); [by rewrite Z.bits_0, orb_false_r|].
  by rewrite (testbit_high x n i).
Qed.

Lemma js_or_i32_r x y : js_or x (i32 y) = js_or x y.
Proof. unfold js_or. rewrite (i32_id (i32 y)); [done|apply i32_range]. Qed.

Lemma js_or_comm x y : js_or x y = js_or y x.
Proof. unfold js_or. apply Z.lor_comm. Qed.

Lemma js_or_i32_l x y : js_or (i32 x) y = js_or x y.
Proof. by rewrite js_or_comm, js_or_i32_r, js_or_comm. Qed.

Lemma js_shr_small t n : 0 <= t < 2 ^ 31 -> 0 <= n < 32 -> js_shr t n = t / 2 ^ n.
Proof. intros Ht Hn. unfold js_shr. by rewrite i32_small, Z.mod_small, Z.shiftr_div_pow2 by lia. Qed.

Lemma js_or_assoc x y z : js_or (js_or x y) z = js_or x (js_or y z).
Proof.
  unfold js_or. rewrite (i32_id (Z.lor (i32 x) (i32 y))) by apply (js_or_int32 x y).
  rewrite (i32_id (Z.lor (i32 y) (i32 z))) by apply (js_or_int32 y z). by rewrite Z.lor_assoc.
Qed.

(** A shifted number with the bits below it. *)
Lemma shl_or a n x : 0 <= n < 31 -> 0 <= x < 2 ^ n -> 0 <= a -> a * 2 ^ n + x < 2 ^ 31 ->
  js_or (js_shl a n) x = a * 2 ^ n + x.
Proof.
  intros Hn Hx Ha Hlt. rewrite js_shl_small, js_or_comm, js_or_i32_r, js_or_disjoint by lia.
  rewrite i32_small by (pose proof (Z.pow_pos_nonneg 2 n); lia). lia.
Qed.
