(* ===== verification/ImHash.v ===== *)
(** * Immutable: value equality and hashing

    Models the functions [he] (Immutable.is), [Se] (smi), [Ce] (hash), [ke]
    (hashString), [xe] (imul) and [qn] (hashMerge) of module 7 of
    src/client/docs/swagger-ui/swagger-ui-bundle.js.

    Numbers are the binary64 values of the Standard Library's [spec_float],
    strings are lists of UTF-16 code units, objects are references (natural
    numbers) with no [valueOf], [equals] or [hashCode] of their own. *)

From Stdlib Require Import SpecFloat.
From stdpp Require Import gmap.
From S2P Require Import Prelude.
Local Open Scope Z_scope.

(** ** Values *)

Inductive value : Type :=
| Undefined
| Null
| Bool (b : bool)
| Num (f : spec_float)
| Str (s : list Z)
| Obj (r : nat).

(** ** Numbers *)

Definition number_of_Z (z : Z) : spec_float := binary_normalize 53 1024 z 0 false.
Definition js_mul : spec_float -> spec_float -> spec_float := SFmul 53 1024.
Definition js_div : spec_float -> spec_float -> spec_float := SFdiv 53 1024.

(** The integer part of a number; 0 for NaN and the infinities (ToInt32). *)
Definition trunc (f : spec_float) : Z :=
  match f with
  | S754_finite s m e =>
      let a := if 0 <=? e then Z.pos m * 2 ^ e else Z.pos m / 2 ^ (- e) in
      if s then - a else a
  | _ => 0
  end.

Definition isNaN (f : spec_float) : bool := negb (SFeqb f f).

(** ** Immutable.is *)

(** [a === b] *)
Definition strictEq (a b : value) : bool :=
  match a, b with
  | Undefined, Undefined => true
  | Null, Null => true
  | Bool x, Bool y => Bool.eqb x y
  | Num f, Num g => SFeqb f g
  | Str s, Str t => bool_decide (s = t)
  | Obj r, Obj q => Nat.eqb r q
  | _, _ => false
  end.

(** The negation of ToBoolean, [!a]. *)
Definition falsy (a : value) : bool :=
  match a with
  | Undefined | Null => true
  | Bool b => negb b
  | Num f => isNaN f || SFeqb f (S754_zero false)
  | Str s => bool_decide (s = [])
  | Obj _ => false
  end.

(** [a === b || a != a && b != b] *)
Definition sameValue (a b : value) : bool :=
  strictEq a b || (negb (strictEq a a) && negb (strictEq b b)).

(** [he]: the values modelled are their own [valueOf()], so the second test
    repeats the first; none of them has an [equals] method. *)
Definition he (e t : value) : bool :=
  if sameValue e t then true
  else if falsy e || falsy t then false
  else if sameValue e t then true
  else if falsy e || falsy t then false
  else false.

(** ** Hashing *)

(** [Se]: [e >>> 1 & 1073741824 | 3221225471 & e] *)
Definition Se (e : Z) : Z :=
  js_or (js_and (js_ushr e 1) 1073741824) (js_and 3221225471 e).

(** [ke]: the string hash, [t = 31 * t + e.charCodeAt(n) | 0]. *)
Definition ke (s : list Z) : Z :=
  Se (fold_left (fun t c => js_or (31 * t + c) 0) s 0).

(** The loop [for (; e > 4294967295;) n ^= e /= 4294967295]. *)
Fixpoint hash_number_loop (fuel : nat) (n : Z) (e : spec_float) : Z :=
  match fuel with
  | O => n
  | S fuel =>
      if SFltb (number_of_Z 4294967295) e then
        let e' := js_div e (number_of_Z 4294967295) in
        hash_number_loop fuel (js_xor n (trunc e')) e'
      else n
  end.

Definition hash_number_fuel : nat := 40.

(** The number case of [Ce]. *)
Definition hash_number (e : spec_float) : Z :=
  if isNaN e || SFeqb e (S754_infinity false) then 0
  else
    let n := js_or 0 (trunc e) in
    let n := if SFeqb (number_of_Z n) e then n
             else js_xor n (trunc (js_mul (number_of_Z 4294967295) e)) in
    Se (hash_number_loop hash_number_fuel n e).

(** The state [Ce] keeps: the string cache [De] with its counter [Re], and the
    identifiers given to objects, [Pe], with the counter [Me]. *)
Record hstate := HState {
  De : gmap (list Z) Z;
  Re : Z;
  Pe : gmap nat Z;
  Me : Z
}.

Definition hstate0 : hstate := HState ∅ 0 ∅ 0.

Definition je : Z := 16.
Definition Ne : Z := 255.

(** [De] is an object literal, so a lookup also finds what it inherits from
    Object.prototype; of those names only this one is longer than [je]:
    "propertyIsEnumerable". *)
Definition inherited_name : list Z :=
  [112; 114; 111; 112; 101; 114; 116; 121; 73; 115;
   69; 110; 117; 109; 101; 114; 97; 98; 108; 101].

(** The cached string hash of [Ce], for strings longer than [je].  [None] is
    the inherited function [De["propertyIsEnumerable"]], returned as the hash. *)
Definition cached_ke (st : hstate) (s : list Z) : option Z * hstate :=
  match De st !! s with
  | Some t => (Some t, st)
  | None =>
      if bool_decide (s = inherited_name) then (None, st)
      else
        let t := ke s in
        let '(re, de) := if Re st =? Ne then (0, ∅) else (Re st, De st) in
        (Some t, HState (<[s := t]> de) (re + 1) (Pe st) (Me st))
  end.

(** The object case of [Ce], in an engine with WeakMap ([Te] is true). *)
Definition hash_object (st : hstate) (r : nat) : Z * hstate :=
  match Pe st !! r with
  | Some t => (t, st)
  | None =>
      let t := Me st + 1 in
      let me := if js_and 1073741824 t =? 0 then t else 0 in
      (t, HState (De st) (Re st) (<[r := t]> (Pe st)) me)
  end.

(** [Ce]: the hash of a value. *)
Definition Ce (st : hstate) (e : value) : option Z * hstate :=
  match e with
  | Undefined | Null => (Some 0, st)
  | Bool b => (Some (if b then 1 else 0), st)
  | Num f => (Some (hash_number f), st)
  | Str s => if Z.of_nat (length s) >? je then cached_ke st s else (Some (ke s), st)
  | Obj r => let '(t, st') := hash_object st r in (Some t, st')
  end.

(** ** Hash mixing *)

(** [xe]: the 32-bit product for engines without Math.imul. *)
Definition xe (e t : Z) : Z :=
  let e := js_or e 0 in
  let t := js_or t 0 in
  let n := js_and 65535 e in
  let r := js_and 65535 t in
  js_or (n * r + js_ushr (js_shl (js_ushr e 16 * r + n * js_ushr t 16) 16) 0) 0.

(** [qn]: [e ^ t + 2654435769 + (e << 6) + (e >> 2) | 0] *)
Definition qn (e t : Z) : Z :=
  js_or (js_xor e (t + 2654435769 + js_shl e 6 + js_shr e 2)) 0.

(** ** Facts on [he] *)

Lemma SFeqb_true f g :
  SFeqb f g = true <->
  (f = g /\ f <> S754_nan) \/
  (exists s s', f = S754_zero s /\ g = S754_zero s').
Proof.
  destruct f as [s|s | |s m e], g as [s'|s' | |s' m' e']; unfold SFeqb, SFcompare;
    try solve [destruct s; naive_solver congruence];
    try solve [destruct s'; naive_solver congruence];
    try solve [destruct s, s'; naive_solver congruence];
    try solve [naive_solver congruence].
  destruct s, s'; try solve [naive_solver congruence].
  all: destruct (Z.compare_spec e e') as [->| |]; cbn;
    try solve [split; [done|intros [[[= ?] ?]|(? & ? & ? & ?)]; [lia|done]]].
  all: change (m ?= m')%positive with (Pos.compare_cont Eq m m').
  all: destruct (Pos.compare_cont Eq m m') eqn:E; cbn;
    change (Pos.compare m m' = Eq) in E || change (Pos.compare m m' = Lt) in E
      || change (Pos.compare m m' = Gt) in E.
  all: destruct (Pos.compare_spec m m') as [->| |]; try done.
  all: try solve [split; [done|intros [[[= ?] ?]|(? & ? & ? & ?)]; [lia|done]]].
  all: split; [by left|done].
Qed.

Lemma he_eq e t :
  he e t = sameValue e t.
Proof. unfold he. destruct (sameValue e t) eqn:E; repeat case_match; congruence. Qed.

Lemma sameValue_refl a : sameValue a a = true.
Proof. unfold sameValue. by destruct (strictEq a a). Qed.

Lemma strictEq_sym a b : strictEq a b = strictEq b a.
Proof.
  destruct a as [| |x|f|s|r], b as [| |y|g|t|q]; cbn; try done.
  - by destruct x, y.
  - apply eq_true_iff_eq. rewrite !SFeqb_true. naive_solver congruence.
  - apply bool_decide_ext. naive_solver.
  - apply Nat.eqb_sym.
Qed.

(** Strictly equal values are the same value, signed zeros apart. *)
Lemma strictEq_cases a b :
  strictEq a b = true ->
  a = b \/ (exists s s', a = Num (S754_zero s) /\ b = Num (S754_zero s')).
Proof.
  destruct a as [| |x|f|s|r], b as [| |y|g|t|q]; cbn; try done; auto.
  - intros ->%eqb_prop. auto.
  - rewrite SFeqb_true. naive_solver.
  - case_bool_decide; naive_solver.
  - intros ->%Nat.eqb_eq. auto.
Qed.

(** The values [he] identifies. *)
Lemma he_cases a b :
  he a b = true <->
  a = b \/ (exists s s', a = Num (S754_zero s) /\ b = Num (S754_zero s')).
Proof.
  rewrite he_eq. unfold sameValue. split.
  - intros [H|[Ha Hb]%andb_prop]%orb_prop; [by apply strictEq_cases|].
    left. destruct a as [| |x|f|s|r], b as [| |y|g|t|q]; cbn in *;
      rewrite ?eqb_reflx, ?Nat.eqb_refl, ?bool_decide_true in * by done; try done.
    f_equal. rewrite negb_true_iff, <- not_true_iff_false, SFeqb_true in Ha, Hb.
    destruct f, g; naive_solver.
  - intros [->|(s & s' & -> & ->)]; [apply sameValue_refl|done].
Qed.

(** ** Facts on the hash functions *)

(** [Se] keeps the low 30 bits and copies the sign into bit 30. *)
Lemma Se_spec e :
  Se e = i32 e mod 2 ^ 30 + (if i32 e <? 0 then -1 else 0) * 2 ^ 30.
Proof.
  pose proof (Z.mod_pos_bound (i32 e) (2 ^ 30) ltac:(lia)).
  apply int32_ext; [apply js_or_int32|unfold isInt32; case_match; lia|].
  intros i Hi. rewrite testbit_split by lia. unfold Se.
  rewrite js_or_testbit, !js_and_testbit, js_ushr_testbit by lia.
  rewrite <- (i32_testbit 3221225471) by lia.
  change 1073741824 with (2 ^ 30). change (i32 3221225471) with (Z.lnot (2 ^ 30)).
  rewrite Z.lnot_spec, !Z.pow2_bits_eqb by lia.
  rewrite <- (int32_sign_bits (i32 e) 31 (i32_range e)) by done.
  destruct (Z.ltb_spec i 30).
  - rewrite Z.mod_pow2_bits_low, i32_testbit by lia.
    destruct (Z.eqb_spec 30 i); [lia|]. by rewrite andb_false_r.
  - rewrite !i32_testbit by lia.
    assert (i = 30 \/ i = 31) as [->| ->] by lia.
    + change (30 + 1) with 31. by destruct (Z.testbit e 31), (Z.testbit e 30).
    + change (31 + 1) with 32. by destruct (Z.testbit e 31), (Z.testbit e 32).
Qed.


(** The 16-bit halves [xe] multiplies. *)
Lemma halves e :
  exists h l k, js_ushr (js_or e 0) 16 = h /\ js_and 65535 (js_or e 0) = l /\ e = h * 2 ^ 16 + l + k * 2 ^ 32.
Proof.
  exists (u32 e / 2 ^ 16), (u32 e mod 2 ^ 16), (e / 2 ^ 32).
  rewrite js_or_0_r, js_ushr_small, u32_i32, js_and_comm by lia.
  change 65535 with (2 ^ 16 - 1). rewrite js_and_ones by lia.
  split; [done|]. destruct (i32_eqm e) as [k Hk].
  pose proof (Z.div_mod (u32 e) (2 ^ 16) ltac:(discriminate)) as H1.
  pose proof (Z.div_mod e (2 ^ 32) ltac:(discriminate)) as H2. unfold u32 in *.
  split; [|lia]. rewrite Hk.
  rewrite Z.mod_mod_divide by (exists (2 ^ 16); done).
  replace (k * 2 ^ 32) with (k * 2 ^ 16 * 2 ^ 16) by lia. apply Z_mod_plus_full.
Qed.

(** [xe] is the 32-bit product. *)
Lemma xe_spec e t : xe e t = i32 (e * t).
Proof.
  unfold xe. destruct (halves e) as (eh & el & ek & -> & -> & He).
  destruct (halves t) as (th & tl & tk & -> & -> & Ht).
  rewrite js_or_0_r, js_shl_small, js_ushr_small by lia.
  rewrite u32_i32, Z.div_1_r. apply i32_eq.
  destruct (u32_eqm ((eh * tl + el * th) * 2 ^ 16)) as [k ->].
  exists (k - eh * th - ek * t - (e - ek * 2 ^ 32) * tk). subst t. subst e. lia.
Qed.

Lemma Se_range e : - 2 ^ 30 <= Se e < 2 ^ 30.
Proof.
  rewrite Se_spec. pose proof (Z.mod_pos_bound (i32 e) (2 ^ 30) ltac:(reflexivity)).
  case_match; lia.
Qed.

(** ** The state of [Ce] *)

(** The states [Ce] goes through, from the initial one. *)
Inductive hreach : hstate -> Prop :=
| hreach_init : hreach hstate0
| hreach_step st v : hreach st -> hreach (snd (Ce st v)).

Definition hash_all (st : hstate) (vs : list value) : hstate :=
  fold_left (fun st v => snd (Ce st v)) vs st.

(** Cached hashes are hashes, and the object counter stays below 2^30. *)
Record hinv (st : hstate) : Prop := {
  hinv_cache : forall s t, De st !! s = Some t -> t = ke s;
  hinv_inherited : De st !! inherited_name = None;
  hinv_ids : forall r t, Pe st !! r = Some t -> 1 <= t <= 2 ^ 30;
  hinv_next : 0 <= Me st < 2 ^ 30
}.

Lemma next_id_bit m : 0 <= m < 2 ^ 30 -> js_and 1073741824 (m + 1) = 0 -> m + 1 < 2 ^ 30.
Proof.
  intros Hm H. destruct (decide (m + 1 = 2 ^ 30)) as [E|]; [|lia].
  by rewrite E in H.
Qed.

Lemma Ce_inv st v : hinv st -> hinv (snd (Ce st v)).
Proof.
  intros Hi. destruct v as [| |b|f|s|r]; cbn; try done.
  - case_match; [|done]. unfold cached_ke. destruct (De st !! s) eqn:E; [done|].
    case_bool_decide; [done|]. destruct (Re st =? Ne); destruct Hi; split; cbn; try done.
    + intros s' t. rewrite lookup_insert. case_decide; naive_solver.
    + by rewrite lookup_insert_ne.
    + intros s' t. rewrite lookup_insert. case_decide; naive_solver.
    + by rewrite lookup_insert_ne.
  - unfold hash_object. destruct (Pe st !! r) eqn:E; [done|]. cbn.
    destruct Hi as [? ? Hids Hn]. split; cbn; try done.
    + intros r' t. rewrite lookup_insert. case_decide; [|by apply Hids].
      intros [= <-]. lia.
    + destruct (Z.eqb_spec (js_and 1073741824 (Me st + 1)) 0) as [Hb|]; [|lia].
      apply next_id_bit in Hb; lia.
Qed.

Lemma hreach_inv st : hreach st -> hinv st.
Proof.
  induction 1; [|by apply Ce_inv]. split; cbn; try done; lia.
Qed.

Lemma hash_all_inv st vs : hinv st -> hinv (hash_all st vs).
Proof. revert st. induction vs as [|v vs IH]; intros st H; [done|]. apply IH, Ce_inv, H. Qed.

(** Identifiers are never changed once given. *)
Lemma Ce_keeps_ids st v r t : Pe st !! r = Some t -> Pe (snd (Ce st v)) !! r = Some t.
Proof.
  intros H. destruct v; cbn; try done.
  - case_match; [|done]. unfold cached_ke. repeat case_match; done.
  - unfold hash_object. destruct (Pe st !! r0) eqn:E; cbn; [done|].
    rewrite lookup_insert_ne; [done|congruence].
Qed.

Lemma hash_all_keeps_ids st vs r t : Pe st !! r = Some t -> Pe (hash_all st vs) !! r = Some t.
Proof. revert st. induction vs as [|v vs IH]; intros st H; [done|]. apply IH, Ce_keeps_ids, H. Qed.

(** The hash of a string does not depend on the cache. *)
Lemma Ce_str st s h st' : hinv st -> Ce st (Str s) = (Some h, st') -> h = ke s.
Proof.
  intros Hi. cbn. case_match; [|congruence]. unfold cached_ke.
  destruct (De st !! s) eqn:E; [|repeat case_match; congruence].
  intros [= <- <-]. by apply (hinv_cache _ Hi).
Qed.

(** ** Properties *)

(** Immutable.is ([he]) is an equivalence relation on values, and two
    values it identifies have the same hash in every state of the hash
    function: what a hash table needs of its equality and its hash. *)
Theorem is_hash_compatible :
  (forall a, he a a = true) /\
  (forall a b, he a b = he b a) /\
  (forall a b c, he a b = true -> he b c = true -> he a c = true) /\
  (forall st a b, he a b = true -> Ce st a = Ce st b).
Proof.
  split_and!.
  - intros a. by apply he_cases; left.
  - intros a b. apply eq_true_iff_eq. rewrite !he_cases. naive_solver.
  - intros a b c. rewrite !he_cases. naive_solver.
  - intros st a b. rewrite he_cases. intros [->|([] & [] & -> & ->)]; done.
Qed.

(** The hash of a value is stable: whatever values are hashed after it,
    and whether or not the string cache was flushed in between, hashing the
    value again gives the number returned the first time. *)
Theorem hash_stable (st st' : hstate) (v : value) (h : Z) (vs : list value)
    (Hst : hreach st) (Hh : Ce st v = (Some h, st')) :
  fst (Ce (hash_all st' vs) v) = Some h.
Proof.
  apply hreach_inv in Hst. pose proof (Ce_inv st v Hst) as Hst'. rewrite Hh in Hst'. cbn in Hst'.
  pose proof (hash_all_inv st' vs Hst') as Hall.
  destruct v as [| |b|f|s|r]; cbn in *; try congruence.
  - destruct (Z.of_nat (length s) >? je) eqn:Hlen; [|cbn; congruence].
    assert (h = ke s) as -> by (apply (Ce_str st s h st'); cbn; by rewrite ?Hlen).
    unfold cached_ke in *. destruct (De (hash_all st' vs) !! s) eqn:E.
    + cbn. f_equal. by apply (hinv_cache _ Hall).
    + case_bool_decide; [|by repeat case_match]. subst.
      by rewrite (hinv_inherited _ Hst) in Hh.
  - unfold hash_object in *. destruct (Pe st !! r) eqn:E.
    + injection Hh as <- <-. by rewrite (hash_all_keeps_ids _ _ _ _ E).
    + injection Hh as <- <-. rewrite (hash_all_keeps_ids _ vs r (Me st + 1)); [done|].
      cbn. by rewrite lookup_insert_eq.
Qed.

Lemma hash_stable_witness :
  hreach hstate0 /\
  fst (Ce (hash_all (snd (Ce hstate0 (Obj 7))) [Obj 3; Str [97]; Obj 7]) (Obj 7)) = Some 1.
Proof.
  split; [constructor|].
  apply (hash_stable hstate0 _ (Obj 7) 1); [constructor|vm_compute; reflexivity].
Defined.

(** Every number the hash function returns is an int32, so the shifts and
    masks of the hash trie read it without loss; the hashes of strings and
    numbers moreover fit in 31 bits. *)
Theorem hash_bounds (st st' : hstate) (v : value) (h : Z)
    (Hst : hreach st) (Hh : Ce st v = (Some h, st')) :
  isInt32 h /\
  (match v with Obj _ => 1 <= h <= 2 ^ 30 | _ => - 2 ^ 30 <= h < 2 ^ 30 end).
Proof.
  apply hreach_inv in Hst. unfold isInt32.
  destruct v as [| |b|f|s|r].
  1-2: cbn in Hh; injection Hh as <- <-; lia.
  - cbn in Hh. destruct b; injection Hh as <- <-; lia.
  - cbn in Hh. injection Hh as <- <-. unfold hash_number. case_match; [lia|].
    pose proof (Se_range (hash_number_loop hash_number_fuel
      (if SFeqb (number_of_Z (js_or 0 (trunc f))) f then js_or 0 (trunc f)
       else js_xor (js_or 0 (trunc f)) (trunc (js_mul (number_of_Z 4294967295) f))) f)).
    lia.
  - apply Ce_str in Hh; [|done]. subst. pose proof (Se_range (fold_left (fun t c => js_or (31 * t + c) 0) s 0)).
    unfold ke. lia.
  - cbn in Hh. unfold hash_object in Hh. destruct (Pe st !! r) eqn:E; injection Hh as <- <-.
    + apply (hinv_ids _ Hst) in E. lia.
    + pose proof (hinv_next _ Hst). lia.
Qed.

Lemma hash_bounds_witness :
  isInt32 99162322 /\ - 2 ^ 30 <= 99162322 < 2 ^ 30.
Proof.
  apply (hash_bounds hstate0 hstate0 (Str [104; 101; 108; 108; 111]) 99162322 hreach_init).
  vm_compute. reflexivity.
Defined.

(** [xe], the product for engines without Math.imul, is the low 32 bits of
    the product of its operands, as a signed number. *)
Theorem imul_correct (e t : Z) : xe e t = i32 (e * t).
Proof. apply xe_spec. Qed.

(** The string "propertyIsEnumerable" is longer than the cache threshold
    and is found, unhashed, on the prototype of the cache object: for it, and
    for no other string, the hash function returns no number. *)
Theorem hash_inherited_name (st : hstate) (s : list Z) (Hst : hreach st) :
  fst (Ce st (Str s)) = None <-> s = inherited_name.
Proof.
  apply hreach_inv in Hst. cbn. split.
  - case_match; [|done]. unfold cached_ke. case_match; [done|]. case_bool_decide; [done|].
    by repeat case_match.
  - intros ->. cbn. unfold cached_ke. by rewrite (hinv_inherited _ Hst).
Qed.

Lemma hash_inherited_name_witness : fst (Ce hstate0 (Str inherited_name)) = None.
Proof. apply (hash_inherited_name hstate0 inherited_name hreach_init). reflexivity. Defined.
