(* ===== verification/ImBits.v ===== *)
(** * Immutable: the bit tricks of the hash trie

    [ut] (popCount) of module 7 of swagger-ui-bundle.js, the chunk of a hash
    that selects a child, and the relation between a bitmap and the list of
    children it indexes. *)

From S2P Require Import Prelude.
Local Open Scope Z_scope.

(** ** The code *)

(** [v], the number of hash bits read at each level; [m] is [1 << v], [g] is
    [m - 1]. *)
Definition v_ : Z := 5.
Definition m_ : Z := js_shl 1 v_.
Definition g_ : Z := m_ - 1.

(** [(0 === e ? t : t >>> e) & g] *)
Definition chunk (t e : Z) : Z := js_and (if e =? 0 then t else js_ushr t e) g_.

(** [ut]: the number of bits set in [e]. *)
Definition ut (e : Z) : Z :=
  let e := e - js_and (js_shr e 1) 1431655765 in
  let e := js_and 858993459 e + js_and (js_shr e 2) 858993459 in
  let e := js_and (e + js_shr e 4) 252645135 in
  let e := e + js_shr e 8 in
  let e := e + js_shr e 16 in
  js_and 127 e.

(** ** Bits of a bitmap *)

(** The positions below 32 of the bits of [x], in increasing order. *)
Definition bits_in (x : Z) (from len : nat) : list nat :=
  filter (fun i => Z.testbit x (Z.of_nat i) = true) (seq from len).

Definition bits (x : Z) : list nat := bits_in x 0 32.

#[global] Arguments bits_in : simpl never.
#[global] Arguments bits : simpl never.
#[global] Arguments ut : simpl never.
#[global] Arguments chunk : simpl never.

(** ** [chunk] *)

Lemma chunk_spec t e : 0 <= e < 32 -> chunk t e = (u32 t / 2 ^ e) mod 32.
Proof.
  intros He. unfold chunk. change g_ with (2 ^ 5 - 1). rewrite js_and_ones by lia.
  destruct (Z.eqb_spec e 0) as [->|].
  - rewrite Z.div_1_r. unfold u32. by rewrite Z.mod_mod_divide by (exists (2 ^ 27); done).
  - by rewrite js_ushr_small.
Qed.

Lemma chunk_range t e : 0 <= chunk t e < 32.
Proof.
  unfold chunk. change g_ with (2 ^ 5 - 1). rewrite js_and_ones by lia.
  apply Z.mod_pos_bound. done.
Qed.

(** Reading one more chunk extends the known low bits of the hash. *)
Lemma chunk_extend t e :
  0 <= e < 32 -> u32 t mod 2 ^ (e + 5) = u32 t mod 2 ^ e + chunk t e * 2 ^ e.
Proof.
  intros He. rewrite chunk_spec, Z.pow_add_r by lia.
  rewrite Z.rem_mul_r by (try apply Z.pow_nonzero; lia).
  change (2 ^ 5) with 32. lia.
Qed.

(** ** [ut] *)

Lemma byte_shift_land x E k m M :
  0 <= x < 256 -> 0 <= k < 8 -> 0 <= m < 2 ^ (8 - k) ->
  Z.land (Z.shiftr (x + E * 256) k) (m + M * 256) =
  Z.land (Z.shiftr x k) m + Z.land (Z.shiftr E k) M * 256.
Proof.
  intros Hx Hk Hm. change 256 with (2 ^ 8) in *.
  assert (2 ^ (8 - k) <= 2 ^ 8) by (apply Z.pow_le_mono_r; lia).
  assert (0 <= Z.land (Z.shiftr x k) m < 2 ^ 8) as Hl.
  { split; [apply Z.land_nonneg; lia|].
    destruct (Z.eq_dec (Z.land (Z.shiftr x k) m) 0) as [->|]; [lia|].
    apply Z.log2_lt_pow2; [pose proof (proj2 (Z.land_nonneg (Z.shiftr x k) m)); lia|].
    pose proof (Z.log2_land (Z.shiftr x k) m) as Hlog.
    assert (0 <= Z.shiftr x k) by (apply Z.shiftr_nonneg; lia).
    assert (Z.log2 m < 8).
    { destruct (Z.eq_dec m 0) as [->|]; [done|]. apply Z.log2_lt_pow2; lia. }
    lia. }
  apply Z.bits_inj'. intros i Hi. rewrite testbit_split by lia.
  rewrite Z.land_spec, Z.shiftr_spec, !testbit_split by lia.
  destruct (Z.ltb_spec i 8).
  - rewrite Z.land_spec, Z.shiftr_spec by lia. destruct (Z.ltb_spec (i + k) 8); [done|].
    by rewrite (testbit_high m (8 - k)), !andb_false_r by lia.
  - destruct (Z.ltb_spec (i + k) 8); [lia|].
    rewrite Z.land_spec, Z.shiftr_spec by lia. do 2 f_equal. lia.
Qed.

(** The first three steps of [ut] on one byte. *)
Definition ut1 (x : Z) : Z := x - Z.land (Z.shiftr x 1) 85.
Definition ut2 (x : Z) : Z := Z.land (Z.shiftr x 0) 51 + Z.land (Z.shiftr x 2) 51.
Definition ut3 (x : Z) : Z := (x + x / 16) mod 16.

Lemma ut_byte x : 0 <= x < 256 ->
  (0 <= ut1 x < 256) /\ (0 <= ut2 (ut1 x) <= 68) /\ (ut2 (ut1 x) mod 16 <= 4) /\
  ut3 (ut2 (ut1 x)) = Z.of_nat (length (bits_in x 0 8)) /\ (length (bits_in x 0 8) <= 8)%nat.
Proof.
  intros Hx.
  pose proof (byte_forall (fun x =>
    (0 <=? ut1 x) && (ut1 x <? 256) && (0 <=? ut2 (ut1 x)) && (ut2 (ut1 x) <=? 68) &&
    (ut2 (ut1 x) mod 16 <=? 4) &&
    (ut3 (ut2 (ut1 x)) =? Z.of_nat (length (bits_in x 0 8))) &&
    (length (bits_in x 0 8) <=? 8)%nat) ltac:(vm_compute; reflexivity) x Hx) as H.
  rewrite !andb_true_iff, !Z.leb_le, !Z.ltb_lt, Z.eqb_eq, Nat.leb_le in H. lia.
Qed.

(** Masks whose four bytes are [m]. *)
Definition mask4 (m : Z) : Z := m + (m + (m + m * 256) * 256) * 256.
Definition bytes4 (a b c d : Z) : Z := a + (b + (c + d * 256) * 256) * 256.

Lemma bytes4_shift_land a b c d k m :
  0 <= a < 256 -> 0 <= b < 256 -> 0 <= c < 256 -> 0 <= d < 256 ->
  0 <= k < 8 -> 0 <= m < 2 ^ (8 - k) ->
  Z.land (Z.shiftr (bytes4 a b c d) k) (mask4 m) =
  bytes4 (Z.land (Z.shiftr a k) m) (Z.land (Z.shiftr b k) m)
         (Z.land (Z.shiftr c k) m) (Z.land (Z.shiftr d k) m).
Proof. intros. unfold bytes4, mask4. by rewrite !byte_shift_land by lia. Qed.

(** [x + (x >> 4)], one byte at a time. *)
Lemma nibble_add y E : 0 <= y -> 0 <= E ->
  y + E * 256 + (y + E * 256) / 16 = (y + y / 16 + 16 * (E mod 16)) + (E + E / 16) * 256.
Proof. intros. Z.to_euclidean_division_equations. lia. Qed.

Lemma land15 x : Z.land x 15 = x mod 16.
Proof. change 15 with (Z.ones 4). by rewrite Z.land_ones. Qed.

Lemma nibble_step y E M :
  0 <= y <= 68 -> y mod 16 <= 4 -> 0 <= E -> E mod 16 <= 4 -> 0 <= M ->
  Z.land (y + E * 256 + (y + E * 256) / 16) (15 + M * 256) =
  ut3 y + Z.land (E + E / 16) M * 256.
Proof.
  intros. rewrite nibble_add by lia.
  assert (0 <= y + y / 16 + 16 * (E mod 16) < 256).
  { pose proof (Z.mod_pos_bound E 16 ltac:(lia)). Z.to_euclidean_division_equations; lia. }
  pose proof (byte_shift_land (y + y / 16 + 16 * (E mod 16)) (E + E / 16) 0 15 M) as Hl.
  rewrite !Z.shiftr_0_r in Hl. rewrite Hl by lia. f_equal.
  rewrite land15. unfold ut3. rewrite Z.add_comm, Z.mul_comm.
  rewrite Z.add_comm, Z_mod_plus_full. done.
Qed.

(** [js] operators on numbers that need no wrapping. *)
Lemma js_shr_pos a n : 0 <= a < 2 ^ 31 -> 0 <= n < 32 -> js_shr a n = Z.shiftr a n.
Proof. intros. unfold js_shr. by rewrite i32_small, Z.mod_small by lia. Qed.

Lemma js_and_pos a b : 0 <= a < 2 ^ 31 -> 0 <= b < 2 ^ 31 -> js_and a b = Z.land a b.
Proof. intros. unfold js_and. by rewrite !i32_small by lia. Qed.

Lemma bytes4_split e : 0 <= e < 2 ^ 31 ->
  exists a b c d, e = bytes4 a b c d /\ 0 <= a < 256 /\ 0 <= b < 256 /\ 0 <= c < 256 /\ 0 <= d < 128.
Proof.
  intros. exists (e mod 256), (e / 256 mod 256), (e / 65536 mod 256), (e / 16777216).
  unfold bytes4. Z.to_euclidean_division_equations. lia.
Qed.

Lemma ut_sum a b c d :
  0 <= a <= 8 -> 0 <= b <= 8 -> 0 <= c <= 8 -> 0 <= d <= 8 ->
  let e := bytes4 a b c d in
  let e := e + Z.shiftr e 8 in
  let e := e + Z.shiftr e 16 in e mod 128 = a + b + c + d.
Proof.
  intros. subst e e0 e1. unfold bytes4. rewrite !Z.shiftr_div_pow2 by lia.
  change (2 ^ 8) with 256. change (2 ^ 16) with 65536.
  Z.to_euclidean_division_equations. lia.
Qed.

Lemma bits_in_ext x y from len :
  (forall i, (from <= i < from + len)%nat -> Z.testbit x (Z.of_nat i) = Z.testbit y (Z.of_nat i)) ->
  bits_in x from len = bits_in y from len.
Proof.
  unfold bits_in. revert from. induction len as [|len IH]; intros from H; [done|].
  cbn [seq]. rewrite !filter_cons, (H from) by lia.
  rewrite IH by (intros; apply H; lia). done.
Qed.

Lemma bits_in_app x from n1 n2 :
  bits_in x from (n1 + n2) = bits_in x from n1 ++ bits_in x (from + n1) n2.
Proof. unfold bits_in. by rewrite seq_app, filter_app. Qed.

Lemma bits_in_shift x k from len :
  0 <= k -> length (bits_in x (Z.to_nat k + from) len) = length (bits_in (Z.shiftr x k) from len).
Proof.
  intros Hk. unfold bits_in. revert from. induction len as [|len IH]; intros from; [done|].
  cbn [seq]. rewrite !filter_cons. rewrite Z.shiftr_spec by lia.
  replace (Z.of_nat (Z.to_nat k + from)) with (Z.of_nat from + k) by lia.
  pose proof (IH (S from)) as IH'.
  replace (Z.to_nat k + S from)%nat with (S (Z.to_nat k + from)) in IH' by lia.
  case_decide; cbn [length]; by rewrite IH'.
Qed.

Lemma bits_in_byte x E n : 0 <= x < 256 ->
  length (bits_in (x + E * 256) 0 (8 + n)) = (length (bits_in x 0 8) + length (bits_in E 0 n))%nat.
Proof.
  intros Hx. rewrite bits_in_app, length_app. f_equal.
  - f_equal. apply bits_in_ext. intros i Hi. change 256 with (2 ^ 8).
    rewrite testbit_split by (try change (2 ^ 8) with 256; lia).
    by rewrite (proj2 (Z.ltb_lt _ _)) by lia.
  - change (0 + 8)%nat with (Z.to_nat 8 + 0)%nat. rewrite bits_in_shift by lia.
    do 2 f_equal. rewrite Z.shiftr_div_pow2 by lia. change (2 ^ 8) with 256.
    rewrite Z.div_add, Z.div_small by lia. lia.
Qed.

(** The three masking steps of [ut] on a number given by its bytes. *)
Lemma ut_step1 a b c d :
  0 <= a < 256 -> 0 <= b < 256 -> 0 <= c < 256 -> 0 <= d < 128 ->
  bytes4 a b c d - js_and (js_shr (bytes4 a b c d) 1) (mask4 85) =
  bytes4 (ut1 a) (ut1 b) (ut1 c) (ut1 d).
Proof.
  intros. assert (0 <= bytes4 a b c d < 2 ^ 31) by (unfold bytes4; lia).
  assert (0 <= Z.shiftr (bytes4 a b c d) 1 < 2 ^ 31) by (apply shiftr_range; lia).
  rewrite js_shr_pos, js_and_pos by (unfold mask4; lia).
  rewrite bytes4_shift_land by lia. unfold bytes4, ut1. lia.
Qed.

Lemma ut_step2 a b c d :
  0 <= a < 256 -> 0 <= b < 256 -> 0 <= c < 256 -> 0 <= d < 128 ->
  js_and (mask4 51) (bytes4 a b c d) + js_and (js_shr (bytes4 a b c d) 2) (mask4 51) =
  bytes4 (ut2 a) (ut2 b) (ut2 c) (ut2 d).
Proof.
  intros. assert (0 <= bytes4 a b c d < 2 ^ 31) by (unfold bytes4; lia).
  assert (0 <= Z.shiftr (bytes4 a b c d) 2 < 2 ^ 31) by (apply shiftr_range; lia).
  rewrite js_shr_pos, (js_and_comm (mask4 51)), !js_and_pos by (unfold mask4; lia).
  rewrite <- (Z.shiftr_0_r (bytes4 a b c d)) at 1.
  rewrite !bytes4_shift_land by lia. unfold bytes4, ut2. lia.
Qed.

Lemma ut_step3 a b c d :
  0 <= a <= 68 -> 0 <= b <= 68 -> 0 <= c <= 68 -> 0 <= d <= 68 ->
  a mod 16 <= 4 -> b mod 16 <= 4 -> c mod 16 <= 4 -> d mod 16 <= 4 ->
  js_and (bytes4 a b c d + js_shr (bytes4 a b c d) 4) (mask4 15) =
  bytes4 (ut3 a) (ut3 b) (ut3 c) (ut3 d).
Proof.
  intros. assert (0 <= bytes4 a b c d < 2 ^ 30 + 2 ^ 29) by (unfold bytes4; lia).
  assert (forall x y, (x + y * 256) mod 16 = x mod 16) as Hm.
  { intros. replace (y * 256) with (y * 16 * 16) by lia. apply Z_mod_plus_full. }
  rewrite js_shr_pos, Z.shiftr_div_pow2 by lia. change (2 ^ 4) with 16.
  assert (0 <= bytes4 a b c d + bytes4 a b c d / 16 < 2 ^ 31).
  { pose proof (Z.div_pos (bytes4 a b c d) 16). pose proof (Z.div_lt_upper_bound (bytes4 a b c d) 16 (2 ^ 28)). lia. }
  rewrite js_and_pos by (unfold mask4; lia).
  unfold bytes4, mask4.
  rewrite !nibble_step by (rewrite ?Hm; lia).
  do 6 f_equal. rewrite land15. done.
Qed.

(** [ut] counts the bits of its argument. *)
Lemma ut_spec e : 0 <= e < 2 ^ 31 -> ut e = Z.of_nat (length (bits e)).
Proof.
  intros He. destruct (bytes4_split e He) as (a & b & c & d & -> & Ha & Hb & Hc & Hd).
  destruct (ut_byte a Ha) as (A1 & A2 & A3 & A4 & A5).
  destruct (ut_byte b Hb) as (B1 & B2 & B3 & B4 & B5).
  destruct (ut_byte c Hc) as (C1 & C2 & C3 & C4 & C5).
  assert (0 <= d < 256) as Hd' by lia.
  destruct (ut_byte d Hd') as (D1 & D2 & D3 & D4 & D5).
  assert (0 <= ut1 d < 128) as D1'.
  { assert (0 <= Z.land (Z.shiftr d 1) 85) by (apply Z.land_nonneg; lia). unfold ut1 in *. lia. }
  unfold bits. change 32%nat with (8 + (8 + (8 + 8)))%nat. unfold bytes4 at 2.
  rewrite !bits_in_byte, !Nat2Z.inj_add by done.
  unfold ut. change 1431655765 with (mask4 85). change 858993459 with (mask4 51).
  change 252645135 with (mask4 15).
  rewrite ut_step1, ut_step2, ut_step3 by lia.
  rewrite A4, B4, C4, D4.
  set (x := bytes4 _ _ _ _). assert (0 <= x < 2 ^ 28) by (unfold x, bytes4; lia).
  rewrite (js_shr_pos x), Z.shiftr_div_pow2 by lia.
  assert (0 <= x + x / 2 ^ 8 < 2 ^ 29) by (change (2 ^ 8) with 256; Z.to_euclidean_division_equations; lia).
  rewrite js_shr_pos by lia. rewrite js_and_comm. change 127 with (2 ^ 7 - 1).
  rewrite js_and_ones by lia. rewrite <- (Z.shiftr_div_pow2 x) by lia.
  unfold x. rewrite ut_sum by lia. lia.
Qed.

(** ** Bitmaps *)

Lemma bits_in_zero from len : bits_in 0 from len = [].
Proof.
  unfold bits_in. revert from. induction len as [|len IH]; intros; [done|].
  cbn [seq]. rewrite filter_cons, Z.testbit_0_l, IH. by case_decide.
Qed.

Section Bitmap.
Context (l u : Z) (Hu : 0 <= u < 32).

Definition below : list nat := bits_in l 0 (Z.to_nat u).
Definition above : list nat := bits_in l (S (Z.to_nat u)) (31 - Z.to_nat u).

Lemma bits_around x :
  bits x = bits_in x 0 (Z.to_nat u) ++ (if Z.testbit x u then [Z.to_nat u] else []) ++
           bits_in x (S (Z.to_nat u)) (31 - Z.to_nat u).
Proof.
  unfold bits. replace 32%nat with (Z.to_nat u + (1 + (31 - Z.to_nat u)))%nat by lia.
  rewrite !bits_in_app, Nat.add_0_l, Nat.add_1_r. f_equal. f_equal.
  unfold bits_in. cbn [seq]. rewrite filter_cons, Z2Nat.id by lia.
  destruct (Z.testbit x u); by case_decide.
Qed.

Lemma bits_split : bits l = below ++ (if Z.testbit l u then [Z.to_nat u] else []) ++ above.
Proof. apply bits_around. Qed.

Lemma bit_testbit i : 0 <= i < 32 -> Z.testbit (js_shl 1 u) i = (i =? u).
Proof.
  intros. rewrite js_shl_small, Z.mul_1_l, i32_testbit, Z.pow2_bits_eqb by lia.
  apply Z.eqb_sym.
Qed.

Lemma has_bit : negb (js_and l (js_shl 1 u) =? 0) = Z.testbit l u.
Proof.
  destruct (Z.eqb_spec (js_and l (js_shl 1 u)) 0) as [E|E]; cbn.
  - apply (f_equal (fun z => Z.testbit z u)) in E. rewrite js_and_testbit, bit_testbit, Z.testbit_0_l in E by lia.
    by rewrite Z.eqb_refl, andb_true_r in E.
  - destruct (Z.testbit l u) eqn:B; [done|]. destruct E.
    apply int32_ext; [apply js_and_int32|done|]. intros i Hi.
    rewrite js_and_testbit, bit_testbit, Z.testbit_0_l by lia.
    destruct (Z.eqb_spec i u) as [->|]; [by rewrite B|apply andb_false_r].
Qed.

Lemma mask_below : js_and l (js_shl 1 u - 1) = u32 l mod 2 ^ u.
Proof.
  transitivity (js_and l (2 ^ u - 1)).
  - unfold js_and. f_equal. rewrite js_shl_small, Z.mul_1_l by lia.
    destruct (i32_eqm (2 ^ u)) as [k ->].
    apply i32_eq. exists k. lia.
  - rewrite js_and_ones by lia. unfold u32. symmetry. apply Z.mod_mod_divide.
    exists (2 ^ (32 - u)). rewrite <- Z.pow_add_r by lia. f_equal; lia.
Qed.

(** The index of a child: the number of bits below its own. *)
Lemma rank_spec : ut (js_and l (js_shl 1 u - 1)) = Z.of_nat (length below).
Proof.
  assert (2 ^ u <= 2 ^ 31) by (apply Z.pow_le_mono_r; lia).
  pose proof (Z.mod_pos_bound (u32 l) (2 ^ u) ltac:(apply Z.pow_pos_nonneg; lia)).
  rewrite mask_below, ut_spec by lia. f_equal. unfold bits, below.
  replace 32%nat with (Z.to_nat u + (32 - Z.to_nat u))%nat by lia.
  rewrite bits_in_app, length_app, (bits_in_ext (u32 l mod 2 ^ u) l 0 (Z.to_nat u)).
  - rewrite (bits_in_ext (u32 l mod 2 ^ u) 0), bits_in_zero; cbn [length]; [lia|].
    intros i Hi. rewrite Z.mod_pow2_bits_high, Z.testbit_0_l by lia. done.
  - intros i Hi. rewrite Z.mod_pow2_bits_low, u32_testbit by lia.
    by rewrite (proj2 (Z.ltb_lt _ _)) by lia.
Qed.

Lemma bits_or : bits (js_or l (js_shl 1 u)) = below ++ [Z.to_nat u] ++ above.
Proof.
  rewrite bits_around. rewrite js_or_testbit, bit_testbit, Z.eqb_refl, orb_true_r by lia.
  f_equal; [|f_equal]; apply bits_in_ext; intros i Hi;
    rewrite js_or_testbit, bit_testbit by lia;
    destruct (Z.eqb_spec (Z.of_nat i) u); try lia; apply orb_false_r.
Qed.

Lemma bits_xor :
  bits (js_xor l (js_shl 1 u)) = below ++ (if Z.testbit l u then [] else [Z.to_nat u]) ++ above.
Proof.
  rewrite bits_around. rewrite js_xor_testbit, bit_testbit, Z.eqb_refl by lia.
  f_equal; [|f_equal]; [..|].
  - apply bits_in_ext; intros i Hi; rewrite js_xor_testbit, bit_testbit by lia;
    destruct (Z.eqb_spec (Z.of_nat i) u); try lia; apply xorb_false_r.
  - by destruct (Z.testbit l u).
  - apply bits_in_ext; intros i Hi; rewrite js_xor_testbit, bit_testbit by lia;
    destruct (Z.eqb_spec (Z.of_nat i) u); try lia; apply xorb_false_r.
Qed.
End Bitmap.

Lemma elem_of_below l u i : i ∈ below l u -> (i < Z.to_nat u)%nat.
Proof. unfold below, bits_in. rewrite list_elem_of_filter, elem_of_seq. lia. Qed.

Lemma elem_of_above l u i : i ∈ above l u -> (Z.to_nat u < i)%nat.
Proof. unfold above, bits_in. rewrite list_elem_of_filter, elem_of_seq. lia. Qed.

(** A bitmap with one or two bits. *)
Lemma bits_two a u : 0 <= a < 32 -> 0 <= u < 32 ->
  bits (js_or (js_shl 1 a) (js_shl 1 u)) =
  if a =? u then [Z.to_nat a] else if a <? u then [Z.to_nat a; Z.to_nat u] else [Z.to_nat u; Z.to_nat a].
Proof.
  intros Ha Hu.
  assert (forallb (fun a => forallb (fun u => bool_decide (
    bits (js_or (js_shl 1 (Z.of_nat a)) (js_shl 1 (Z.of_nat u))) =
    if (Z.of_nat a =? Z.of_nat u) then [a] else if (Z.of_nat a <? Z.of_nat u) then [a; u] else [u; a]))
      (seq 0 32)) (seq 0 32) = true) as H by (vm_compute; reflexivity).
  rewrite forallb_forall in H. specialize (H (Z.to_nat a) ltac:(apply in_seq; lia)).
  rewrite forallb_forall in H. specialize (H (Z.to_nat u) ltac:(apply in_seq; lia)).
  apply bool_decide_eq_true in H. by rewrite !Z2Nat.id in H by lia.
Qed.
