(* ===== verification/ImMap.v ===== *)
(** * Immutable: the hash array mapped trie behind Map

    The node classes [Ve] (ArrayMapNode), [He] (BitmapIndexedNode), [We]
    (HashArrayMapNode), [Je] (HashCollisionNode) and [Ye] (ValueNode), the map
    object [Ue] with its [get], [set] and [remove], and the functions they are
    made of ([Qe], [et], [nt]), of module 7 of swagger-ui-bundle.js.

    An [ArrayMapNode] is only ever created as a root ([Qe] and [Ve.update]), so
    roots and inner nodes are two types here.  [undefined] is [None]; the
    marker [y] (NOT_SET) is [None] where a value is expected.  The model is
    that of a map without an owner: every update copies.  A method returns
    [this] ([Same]), another node ([New]) or [undefined] ([Gone]); the flags
    it sets through its last two arguments are returned beside that. *)

From S2P Require Import Prelude ImBits.
Local Open Scope Z_scope.

(** ** What a key type promises to the trie *)

Class HashKey (K : Type) : Type := {
  is_ : K -> K -> bool;
  hash : K -> Z;
  is_refl : forall k, is_ k k = true;
  is_sym : forall k k', is_ k k' = is_ k' k;
  is_trans : forall k k' k'', is_ k k' = true -> is_ k' k'' = true -> is_ k k'' = true;
  is_hash : forall k k', is_ k k' = true -> hash k = hash k';
  hash_int32 : forall k, isInt32 (hash k)
}.

(** Strict equality, [===], of the values of a map. *)
Class StrictEq (V : Type) : Type := {
  veq : V -> V -> bool;
  veq_sym : forall v w, veq v w = veq w v
}.

(** ** Results of updates *)

(** What an [update] method returns: [this], another node, [undefined]; [Stuck]
    stands for a call outside the modelled domain, which the invariant rules
    out. *)
Inductive ret (N : Type) : Type :=
| Same
| New (n : N)
| Gone
| Stuck.
Arguments Same {N}.
Arguments New {N} n.
Arguments Gone {N}.
Arguments Stuck {N}.

(** A result with the two flags: the map was altered, its size changed. *)
Record upd (N : Type) : Type := Upd { out : ret N; didAlter : bool; didChangeSize : bool }.
Arguments Upd {N}.
Arguments out {N}.
Arguments didAlter {N}.
Arguments didChangeSize {N}.

Definition same {N} : upd N := Upd Same false false.

Section Trie.
Context {K V : Type} `{HK : HashKey K} `{SV : StrictEq V}.

(** ** Nodes *)

Inductive tnode : Type :=
| He (bitmap : Z) (nodes : list tnode)
| We (count : Z) (nodes : list (option tnode))
| Je (keyHash : Z) (entries : list (K * V))
| Ye (keyHash : Z) (entry : K * V).

Inductive rootnode : Type :=
| Ve (entries : list (K * V))
| Trie (n : tnode).

(** [lt], [ct], [ft] *)
Definition lt_ : Z := m_ / 4.
Definition ct_ : Z := m_ / 2.
Definition ft_ : Z := m_ / 4.

(** ** Lookup *)

(** The loop of [Ve.get] and [Je.get]. *)
Fixpoint entries_get (o : list (K * V)) (n : K) (r : option V) : option V :=
  match o with
  | [] => r
  | e :: o' => if is_ n e.1 then Some e.2 else entries_get o' n r
  end.

(** The methods [get] of the inner nodes; [Throw TypeError] is the call of a
    method on [undefined]. *)
Fixpoint node_get (nd : tnode) (e : Z) (t : option Z) (n : K) (r : option V) : js (option V) :=
  match nd with
  | He i nodes =>
      let t := default (hash n) t in
      let o := js_shl 1 (chunk t e) in
      if js_and i o =? 0 then Ok r
      else (fix go (l : list tnode) (k : nat) : js (option V) :=
              match l, k with
              | c :: _, O => node_get c (e + v_) (Some t) n r
              | _ :: l', S k' => go l' k'
              | [], _ => Throw TypeError
              end) nodes (Z.to_nat (ut (js_and i (o - 1))))
  | We _ nodes =>
      let t := default (hash n) t in
      (fix go (l : list (option tnode)) (k : nat) : js (option V) :=
         match l, k with
         | Some c :: _, O => node_get c (e + v_) (Some t) n r
         | None :: _, O => Ok r
         | _ :: l', S k' => go l' k'
         | [], _ => Ok r
         end) nodes (Z.to_nat (chunk t e))
  | Je _ entries => Ok (entries_get entries n r)
  | Ye _ entry => Ok (if is_ n entry.1 then Some entry.2 else r)
  end.

Definition root_get (nd : rootnode) (e : Z) (t : option Z) (n : K) (r : option V) : js (option V) :=
  match nd with
  | Ve entries => Ok (entries_get entries n r)
  | Trie nd => node_get nd e t n r
  end.

(** ** Update *)

Definition notSet (o : option V) : bool := match o with None => true | Some _ => false end.

(** The position of a key: [for (l = 0; l < c && !he(r, s[l][0]); l++);] *)
Fixpoint entries_index (s : list (K * V)) (r : K) : nat :=
  match s with
  | [] => O
  | e :: s' => if is_ r e.1 then O else S (entries_index s' r)
  end.

(** [f ? u ? l === c - 1 ? d.pop() : d[l] = d.pop() : d[l] = [r, o] : d.push([r, o])] *)
Definition entries_put (d : list (K * V)) (l : nat) (r : K) (o : option V) : list (K * V) :=
  let c := length d in
  if (l <? c)%nat then
    match o with
    | None =>
        if (l =? c - 1)%nat then removelast d
        else match last d with
             | Some e => <[l := e]> (removelast d)
             | None => d
             end
    | Some w => <[l := (r, w)]> d
    end
  else match o with
       | Some w => d ++ [(r, w)]
       | None => d
       end.

(** [tt]: is the node a leaf? *)
Definition tt_ (e : tnode) : bool :=
  match e with Ye _ _ | Je _ _ => true | _ => false end.

Definition leaf_hash (e : tnode) : option Z :=
  match e with Ye h _ | Je h _ => Some h | _ => None end.

(** [nt]: join a leaf and a new entry.  The fuel bounds the number of levels:
    two different hashes part at one of the shifts 0, 5, ..., 30. *)
Fixpoint nt (fuel : nat) (e : tnode) (n r : Z) (o : K * V) : option tnode :=
  match fuel with
  | O => None
  | S fuel =>
      match leaf_hash e with
      | None => None
      | Some kh =>
          if kh =? r then
            match e with Ye _ entry => Some (Je r [entry; o]) | _ => None end
          else
            let a := chunk kh n in
            let u := chunk r n in
            let bm := js_or (js_shl 1 a) (js_shl 1 u) in
            if a =? u then
              match nt fuel e (n + v_) r o with
              | Some x => Some (He bm [x])
              | None => None
              end
            else
              let i := Ye r o in
              Some (He bm (if a <? u then [e; i] else [i; e]))
      end
  end.

Definition nt_fuel : nat := 8.

Definition join (e : tnode) (n r : Z) (o : K * V) : ret tnode :=
  match nt nt_fuel e n r o with Some x => New x | None => Stuck end.

(** [expandNodes]: the children of a bitmap node, by position.  The loop
    [for (u = 0; 0 !== n; u++, n >>>= 1) a[u] = 1 & n ? t[i++] : void 0] fills an
    array of [m_] places. *)
Fixpoint expand_loop (k : nat) (n : Z) (i : nat) (t : list tnode) : list (option tnode) * nat :=
  match k with
  | O => ([], i)
  | S k' =>
      if n =? 0 then (replicate k None, i)
      else if js_and 1 n =? 0 then
        let '(a, j) := expand_loop k' (js_ushr n 1) i t in (None :: a, j)
      else
        let '(a, j) := expand_loop k' (js_ushr n 1) (S i) t in (t !! i :: a, j)
  end.

Definition expand_nodes (t : list tnode) (n : Z) (r : Z) (o : tnode) : tnode :=
  let '(a, i) := expand_loop (Z.to_nat m_) n 0 t in
  We (Z.of_nat i + 1) (<[Z.to_nat r := Some o]> a).

(** [packNodes]: back to a bitmap node, without the child at [r]. *)
Fixpoint pack_loop (t : list (option tnode)) (u : nat) (s : Z) (r : nat) (o : Z) (a : list tnode) : tnode :=
  match t with
  | [] => He o a
  | c :: t' =>
      match c with
      | Some x =>
          if (u =? r)%nat then pack_loop t' (S u) (js_shl s 1) r o a
          else pack_loop t' (S u) (js_shl s 1) r (js_or o s) (a ++ [x])
      | None => pack_loop t' (S u) (js_shl s 1) r o a
      end
  end.

Definition pack_nodes (t : list (option tnode)) (r : nat) : tnode := pack_loop t 0 1 r 0 [].

(** [spliceOut] and [spliceIn] *)
Definition splice_out (e : list tnode) (t : nat) : list tnode :=
  take (length e - 1) (take t e ++ drop (S t) e).

Definition splice_in (e : list tnode) (t : nat) (n : tnode) : list tnode :=
  take t e ++ n :: drop t e.

(** [et] on [undefined]: a new leaf, unless there is nothing to set. *)
Definition et_undefined (r : Z) (k : K) (i : option V) : upd tnode :=
  match i with
  | None => same
  | Some w => Upd (New (Ye r (k, w))) true true
  end.

(** The rest of [He.update], once the child's own update is known. *)
Definition He_finish (l : Z) (p : list tnode) (u s : Z) (c : bool) (f : nat) (h : upd tnode) : upd tnode :=
  match out h with
  | Same => Upd Same (didAlter h) (didChangeSize h)
  | Stuck => Upd Stuck (didAlter h) (didChangeSize h)
  | New x =>
      if negb c && (ct_ <=? Z.of_nat (length p)) then
        Upd (New (expand_nodes p l u x)) (didAlter h) (didChangeSize h)
      else if c && (Z.of_nat (length p) =? 1) && tt_ x then
        Upd (New x) (didAlter h) (didChangeSize h)
      else
        let bm := if c then l else js_or l s in
        let w := if c then <[f := x]> p else splice_in p f x in
        Upd (New (He bm w)) (didAlter h) (didChangeSize h)
  | Gone =>
      let removed := Upd (New (He (js_xor l s) (splice_out p f))) (didAlter h) (didChangeSize h) in
      if negb c then Upd Stuck (didAlter h) (didChangeSize h)
      else if Z.of_nat (length p) =? 2 then
        match p !! Z.to_nat (js_xor 1 (Z.of_nat f)) with
        | Some x => if tt_ x then Upd (New x) (didAlter h) (didChangeSize h) else removed
        | None => Upd Stuck (didAlter h) (didChangeSize h)
        end
      else removed
  end.

(** The rest of [We.update]. *)
Definition We_finish (count : Z) (l : list (option tnode)) (u : nat) (c : bool) (f : upd tnode) : upd tnode :=
  match out f with
  | Same => Upd Same (didAlter f) (didChangeSize f)
  | Stuck => Upd Stuck (didAlter f) (didChangeSize f)
  | New x =>
      let p := if c then count else count + 1 in
      Upd (New (We p (<[u := Some x]> l))) (didAlter f) (didChangeSize f)
  | Gone =>
      let p := if c then count - 1 else count + 1 in
      if c && (p <? ft_) then Upd (New (pack_nodes l u)) (didAlter f) (didChangeSize f)
      else Upd (New (We p (<[u := None]> l))) (didAlter f) (didChangeSize f)
  end.

(** [Je.update] *)
Definition Je_update (keyHash : Z) (s : list (K * V)) (t n : Z) (r : K) (o : option V) : upd tnode :=
  if negb (n =? keyHash) then
    match o with
    | None => same
    | Some w => Upd (join (Je keyHash s) t n (r, w)) true true
    end
  else
    let c := length s in
    let l := entries_index s r in
    let f := (l <? c)%nat in
    if (match s !! l with
        | Some e => match o with Some w => veq e.2 w | None => false end
        | None => notSet o
        end) then same
    else
      let sized := notSet o || negb f in
      if notSet o && (c =? 2)%nat then
        match s !! Z.to_nat (js_xor 1 (Z.of_nat l)) with
        | Some e => Upd (New (Ye keyHash e)) true sized
        | None => Upd Stuck true sized
        end
      else Upd (New (Je keyHash (entries_put s l r o))) true sized.

(** [Ye.update] *)
Definition Ye_update (keyHash : Z) (entry : K * V) (t : Z) (r : K) (o : option V) : upd tnode :=
  let s := is_ r entry.1 in
  if (if s then match o with Some w => veq w entry.2 | None => false end else notSet o) then same
  else match o with
       | None => Upd Gone true true
       | Some w =>
           if s then Upd (New (Ye keyHash (r, w))) true false
           else Upd (join (Ye keyHash entry) t (hash r) (r, w)) true true
       end.

(** The methods [update] of the inner nodes. *)
Fixpoint node_update (nd : tnode) (t : Z) (n : option Z) (r : K) (o : option V) : upd tnode :=
  match nd with
  | He l p =>
      let n := default (hash r) n in
      let u := chunk n t in
      let s := js_shl 1 u in
      let c := negb (js_and l s =? 0) in
      if negb c && notSet o then same
      else
        let f := Z.to_nat (ut (js_and l (s - 1))) in
        let h :=
          if c then
            (fix go (q : list tnode) (k : nat) : upd tnode :=
               match q, k with
               | d :: _, O => node_update d (t + v_) (Some n) r o
               | _ :: q', S k' => go q' k'
               | [], _ => et_undefined n r o
               end) p f
          else et_undefined n r o in
        He_finish l p u s c f h
  | We count l =>
      let n := default (hash r) n in
      let u := Z.to_nat (chunk n t) in
      let c := match l !! u with Some (Some _) => true | _ => false end in
      if notSet o && negb c then same
      else
        let f :=
          (fix go (q : list (option tnode)) (k : nat) : upd tnode :=
             match q, k with
             | Some d :: _, O => node_update d (t + v_) (Some n) r o
             | None :: _, O => et_undefined n r o
             | _ :: q', S k' => go q' k'
             | [], _ => et_undefined n r o
             end) l u in
        We_finish count l u c f
  | Je keyHash s => Je_update keyHash s t (default (hash r) n) r o
  | Ye keyHash entry => Ye_update keyHash entry t r o
  end.

(** [createNodes]: the trie of more than [lt_] entries. *)
Definition create_nodes (t : list (K * V)) (n : K) (r : V) : ret tnode :=
  fold_left (fun o a =>
    match o with
    | New nd =>
        match out (node_update nd 0 None a.1 (Some a.2)) with
        | Same => New nd
        | x => x
        end
    | _ => Stuck
    end) t (New (Ye (hash n) (n, r))).

(** [Ve.update] *)
Definition Ve_update (s : list (K * V)) (r : K) (o : option V) : upd rootnode :=
  let u := notSet o in
  let c := length s in
  let l := entries_index s r in
  let f := (l <? c)%nat in
  if (match s !! l with
      | Some e => match o with Some w => veq e.2 w | None => false end
      | None => u
      end) then same
  else
    let sized := u || negb f in
    if negb u || negb (c =? 1)%nat then
      match o with
      | Some w =>
          if negb f && (lt_ <=? Z.of_nat c) then
            match create_nodes s r w with
            | New nd => Upd (New (Trie nd)) true sized
            | _ => Upd Stuck true sized
            end
          else Upd (New (Ve (entries_put s l r o))) true sized
      | None => Upd (New (Ve (entries_put s l r o))) true sized
      end
    else Upd Gone true sized.

Definition root_update (nd : rootnode) (t : Z) (n : option Z) (r : K) (o : option V) : upd rootnode :=
  match nd with
  | Ve s => Ve_update s r o
  | Trie nd =>
      let x := node_update nd t n r o in
      Upd (match out x with
           | Same => Same
           | New y => New (Trie y)
           | Gone => Gone
           | Stuck => Stuck
           end) (didAlter x) (didChangeSize x)
  end.

(** ** Maps *)

Record immap := Ze { size : Z; root : option rootnode }.

(** [Xe]: the empty map. *)
Definition Xe : immap := Ze 0 None.

(** [Qe]: set ([Some v]) or remove ([None]) a key.  [None] as a result is a
    [Stuck] update. *)
Definition Qe (e : immap) (t : K) (n : option V) : option immap :=
  match root e with
  | Some rt =>
      let x := root_update rt 0 None t n in
      if negb (didAlter x) then Some e
      else
        let o := size e + (if didChangeSize x then if notSet n then -1 else 1 else 0) in
        match out x with
        | New r => Some (Ze o (Some r))
        | Same => Some (Ze o (Some rt))
        | Gone => Some Xe
        | Stuck => None
        end
  | None =>
      match n with
      | None => Some e
      | Some w => Some (Ze 1 (Some (Ve [(t, w)])))
      end
  end.

(** [Ue.prototype.get], [set] and [remove] *)
Definition get (m : immap) (e : K) (t : option V) : js (option V) :=
  match root m with
  | Some rt => root_get rt 0 None e t
  | None => Ok t
  end.

Definition set (m : immap) (e : K) (t : V) : option immap := Qe m e (Some t).
Definition remove (m : immap) (e : K) : option immap := Qe m e None.

(** [has]: [this.get(e, y) !== y] *)
Definition has (m : immap) (e : K) : js bool := js_map (fun r => negb (notSet r)) (get m e None).

(** [update(k, notSetValue, f)], that is [updateIn([k], notSetValue, f)]: the
    value [f] returns is written unless it is the one it was given. *)
Definition update (m : immap) (k : K) (r : option V) (f : option V -> option V) : option immap :=
  match get m k None with
  | Throw _ => None
  | Ok c =>
      let u := match c with Some w => Some w | None => r end in
      let s := f u in
      let same_ := match s, u with Some x, Some y => veq x y | None, None => true | _, _ => false end in
      let res := if same_ then c else s in
      match res, c with
      | None, None => Some m
      | Some x, Some y => if veq x y then Some m else set m k x
      | None, Some _ => remove m k
      | Some x, None => set m k x
      end
  end.

(** ** Iteration *)

(** [node.iterate(fn, reverse)]: [fn] threads a state and tells whether it
    returned [false], which ends the iteration. *)
Section Iterate.
Context {S : Type} (fn : K * V -> S -> S * bool) (t : bool).

Fixpoint node_iterate (nd : tnode) (st : S) : S * bool :=
  match nd with
  | He _ nodes =>
      if t then
        (fix go (l : list tnode) (st : S) : S * bool :=
           match l with
           | [] => (st, false)
           | i :: l' => let '(st, stop) := go l' st in if stop then (st, true) else node_iterate i st
           end) nodes st
      else
        (fix go (l : list tnode) (st : S) : S * bool :=
           match l with
           | [] => (st, false)
           | i :: l' => let '(st, stop) := node_iterate i st in if stop then (st, true) else go l' st
           end) nodes st
  | We _ nodes =>
      if t then
        (fix go (l : list (option tnode)) (st : S) : S * bool :=
           match l with
           | [] => (st, false)
           | Some i :: l' => let '(st, stop) := go l' st in if stop then (st, true) else node_iterate i st
           | None :: l' => go l' st
           end) nodes st
      else
        (fix go (l : list (option tnode)) (st : S) : S * bool :=
           match l with
           | [] => (st, false)
           | Some i :: l' => let '(st, stop) := node_iterate i st in if stop then (st, true) else go l' st
           | None :: l' => go l' st
           end) nodes st
  | Je _ entries => each fn (if t then rev entries else entries) st
  | Ye _ entry => fn entry st
  end.

Definition root_iterate (nd : rootnode) (st : S) : S * bool :=
  match nd with
  | Ve entries => each fn (if t then rev entries else entries) st
  | Trie nd => node_iterate nd st
  end.
End Iterate.

(** [Ue.prototype.__iterate]: the callback with the number of calls made. *)
Definition __iterate {S} (m : immap) (e : V -> K -> S -> S * bool) (t : bool) (st : S) : S * Z :=
  match root m with
  | Some rt =>
      fst (root_iterate (fun en '(st, r) => let '(st', stop) := e en.2 en.1 st in ((st', r + 1), stop)) t rt (st, 0))
  | None => (st, 0)
  end.

(** [Ke], the iterator: a stack of nodes with the position reached in each.
    [Ke_turn] is one turn of the loop of [next]. *)
Inductive turn : Type :=
| Done
| Yield (e : K * V) (stack : list (rootnode * nat))
| More (stack : list (rootnode * nat)).

Definition Ke_turn (_reverse : bool) (stack : list (rootnode * nat)) : turn :=
  match stack with
  | [] => Done
  | (r, o) :: prev =>
      let same := (r, S o) :: prev in
      let pos n := if _reverse then (n - o)%nat else o in
      let entries_turn (es : list (K * V)) :=
        if (o <? length es)%nat then
          match es !! pos (length es - 1)%nat with Some e => Yield e same | None => More prev end
        else More prev in
      let child i :=
        match i with
        | Some (Ye _ entry) => Yield entry same
        | Some x => More ((Trie x, O) :: same)
        | None => More same
        end in
      match r with
      | Trie (Ye _ entry) => if (o =? 0)%nat then Yield entry same else More prev
      | Ve es | Trie (Je _ es) => entries_turn es
      | Trie (He _ nodes) =>
          if (o <? length nodes)%nat then child (nodes !! pos (length nodes - 1)%nat) else More prev
      | Trie (We _ nodes) =>
          if (o <? length nodes)%nat then child (default None (nodes !! pos (length nodes - 1)%nat)) else More prev
      end
  end.

Fixpoint Ke_next (fuel : nat) (_reverse : bool) (stack : list (rootnode * nat))
    : option (option (K * V) * list (rootnode * nat)) :=
  match fuel with
  | O => None
  | S fuel =>
      match Ke_turn _reverse stack with
      | Done => Some (None, [])
      | Yield e stack => Some (Some e, stack)
      | More stack => Ke_next fuel _reverse stack
      end
  end.

(** The entries an iterator gives until it is done. *)
Fixpoint Ke_collect (calls fuel : nat) (_reverse : bool) (stack : list (rootnode * nat)) : option (list (K * V)) :=
  match calls with
  | O => None
  | S calls =>
      match Ke_next fuel _reverse stack with
      | None => None
      | Some (None, _) => Some []
      | Some (Some e, stack) => option_map (cons e) (Ke_collect calls fuel _reverse stack)
      end
  end.

Definition Ke_new (m : immap) : list (rootnode * nat) :=
  match root m with Some rt => [(rt, O)] | None => [] end.

(** ** Merging *)

(** The write [at] does for one entry: [e.set(n, t)], or through the merger. *)
Definition at_put (t : option (V -> V -> K -> V)) (en : K * V) (e : option immap) : option immap :=
  match e with
  | None => None
  | Some e =>
      match t with
      | None => set e en.1 en.2
      | Some t => update e en.1 None (fun o => Some (match o with None => en.2 | Some w => t w en.2 en.1 end))
      end
  end.

(** [at]: mergeIntoCollectionWith, for a map without an owner and maps to merge. *)
Definition at_ (e : immap) (t : option (V -> V -> K -> V)) (n : list immap) : option immap :=
  let n := List.filter (fun e => negb (size e =? 0)) n in
  match n with
  | [] => Some e
  | n0 :: n' =>
      if negb (size e =? 0) || negb (Z.of_nat (length n) =? 1) then
        fold_left (fun e m => fst (__iterate m (fun v k e => (at_put t (k, v) e, false)) false e)) n (Some e)
      else Some n0
  end.

End Trie.

Arguments tnode : clear implicits.
Arguments rootnode : clear implicits.
Arguments immap : clear implicits.
