(* ===== verification/ImMapFacts.v ===== *)
(** * Immutable: correctness of the hash trie

    The invariant of the trie, that every update keeps it, and that lookup,
    update, size and iteration are those of a finite map. *)

From S2P Require Import Prelude ImBits ImMap.
Local Open Scope Z_scope.

Section TrieFacts.
Context {K V : Type} `{HK : HashKey K} `{SV : StrictEq V}.


(** ** Induction on nodes *)

Section Induction.
Context (P : tnode K V -> Prop).
Context (HHe : forall l p, Forall P p -> P (He l p)).
Context (HWe : forall c l, Forall (from_option P True) l -> P (We c l)).
Context (HJe : forall h s, P (Je h s)).
Context (HYe : forall h e, P (Ye h e)).

Fixpoint tnode_ind' (n : tnode K V) : P n :=
  match n with
  | He l p => HHe l p ((fix go q : Forall P q :=
      match q with [] => Forall_nil_2 P | x :: q' => Forall_cons_2 P x q' (tnode_ind' x) (go q') end) p)
  | We c l => HWe c l ((fix go q : Forall (from_option P True) q :=
      match q with
      | [] => Forall_nil_2 _
      | Some x :: q' => Forall_cons_2 (from_option P True) (Some x) q' (tnode_ind' x) (go q')
      | None :: q' => Forall_cons_2 (from_option P True) None q' I (go q')
      end) l)
  | Je h s => HJe h s
  | Ye h e => HYe h e
  end.
End Induction.

(** ** The entries of a node, in iteration order *)

Fixpoint node_entries (n : tnode K V) : list (K * V) :=
  match n with
  | He _ p => concat (map node_entries p)
  | We _ l => concat (map (fun o => match o with Some x => node_entries x | None => [] end) l)
  | Je _ s => s
  | Ye _ e => [e]
  end.

Definition opt_entries (o : option (tnode K V)) : list (K * V) :=
  match o with Some x => node_entries x | None => [] end.

Definition root_entries (r : rootnode K V) : list (K * V) :=
  match r with Ve s => s | Trie n => node_entries n end.

Definition entries (m : immap K V) : list (K * V) :=
  match root m with Some r => root_entries r | None => [] end.

(** ** Association lists *)

Definition fresh (k : K) (es : list (K * V)) : Prop := Forall (fun e => is_ k e.1 = false) es.

Fixpoint distinct (es : list (K * V)) : Prop :=
  match es with [] => True | e :: es' => fresh e.1 es' /\ distinct es' end.

Definition assoc (es : list (K * V)) (k : K) : option V := entries_get es k None.

Lemma entries_get_assoc es k r :
  entries_get es k r = match assoc es k with Some w => Some w | None => r end.
Proof.
  unfold assoc. induction es as [|e es IH]; cbn; [done|]. by destruct (is_ k e.1).
Qed.

Lemma assoc_fresh es k : fresh k es -> assoc es k = None.
Proof. unfold assoc. induction 1 as [|e es He _ IH]; cbn; [done|]. by rewrite He. Qed.

Lemma assoc_app es es' k :
  assoc (es ++ es') k = match assoc es k with Some w => Some w | None => assoc es' k end.
Proof. unfold assoc. induction es as [|e es IH]; cbn; [done|]. by destruct (is_ k e.1). Qed.

Lemma is_false_trans k k' k'' : is_ k k' = true -> is_ k' k'' = false -> is_ k k'' = false.
Proof.
  intros H1 H2. destruct (is_ k k'') eqn:E; [|done].
  rewrite is_sym in H1. rewrite (is_trans _ _ _ H1 E) in H2. done.
Qed.

Lemma fresh_is k k' es : is_ k k' = true -> fresh k' es -> fresh k es.
Proof. intros H Hf. eapply Forall_impl; [exact Hf|]. intros e. by apply is_false_trans. Qed.

Lemma fresh_app k es es' : fresh k (es ++ es') <-> fresh k es /\ fresh k es'.
Proof. apply Forall_app. Qed.

Lemma fresh_perm k es es' : es ≡ₚ es' -> fresh k es -> fresh k es'.
Proof. intros H. unfold fresh. by rewrite H. Qed.

Lemma distinct_perm es es' : es ≡ₚ es' -> distinct es -> distinct es'.
Proof.
  induction 1 as [|e es es' Hp IH|e e' es|]; cbn; try tauto.
  - intros [Hf Hd]. split; [by eapply fresh_perm|auto].
  - intros [Hf [Hf' Hd]]. inversion_clear Hf. repeat split; try done.
    constructor; [|done]. by rewrite is_sym.
Qed.

Lemma assoc_perm es es' k : distinct es -> es ≡ₚ es' -> assoc es k = assoc es' k.
Proof.
  intros Hd Hp. revert Hd. induction Hp as [|e es es' Hp IH|e e' es|es1 es2 es3 Hp1 IH1 Hp2 IH2]; cbn; intros Hd.
  - done.
  - unfold assoc in *. cbn. destruct (is_ k e.1); [done|]. apply IH, Hd.
  - unfold assoc. cbn. destruct (is_ k e.1) eqn:E1, (is_ k e'.1) eqn:E2; try done.
    destruct Hd as [Hf _]. inversion_clear Hf as [|? ? H _].
    rewrite is_sym in E1. by rewrite (is_false_trans _ _ _ E2 H) in E1 || (rewrite is_sym in H; by rewrite (is_trans _ _ _ E1 E2) in H).
  - rewrite IH1 by done. apply IH2. by eapply distinct_perm.
Qed.

Lemma distinct_app es es' :
  distinct (es ++ es') <-> distinct es /\ distinct es' /\ Forall (fun e => fresh e.1 es') es.
Proof.
  induction es as [|e es IH]; cbn; [naive_solver constructor|].
  rewrite fresh_app, IH, Forall_cons. naive_solver.
Qed.

(** ** The invariant *)

(** [wf s p n]: [n] is a good node at shift [s] below the hash prefix [p]. *)
Inductive wf : Z -> Z -> tnode K V -> Prop :=
| wf_He s p l nodes :
    0 <= s <= 30 -> 0 <= p < 2 ^ s -> isInt32 l -> nodes <> [] ->
    (forall c, nodes = [c] -> tt_ c = false) ->
    Forall2 (fun i c => wf (s + 5) (p + Z.of_nat i * 2 ^ s) c) (bits l) nodes ->
    wf s p (He l nodes)
| wf_We s p count nodes :
    0 <= s <= 30 -> 0 <= p < 2 ^ s ->
    count = Z.of_nat (length (omap id nodes)) -> 8 <= count ->
    Forall2 (fun i o => forall c, o = Some c -> wf (s + 5) (p + Z.of_nat i * 2 ^ s) c) (seq 0 32) nodes ->
    wf s p (We count nodes)
| wf_Je s p h es :
    Forall (fun e => hash e.1 = h) es -> (2 <= length es)%nat -> distinct es ->
    u32 h mod 2 ^ s = p -> wf s p (Je h es)
| wf_Ye s p h e :
    h = hash e.1 -> u32 h mod 2 ^ s = p -> wf s p (Ye h e).

Definition on_path (s p : Z) (es : list (K * V)) : Prop :=
  Forall (fun e => u32 (hash e.1) mod 2 ^ s = p) es.

Lemma prefix_shorten h s p i :
  0 <= s -> 0 <= p < 2 ^ s -> u32 h mod 2 ^ (s + 5) = p + i * 2 ^ s -> u32 h mod 2 ^ s = p.
Proof.
  intros Hs Hp H. assert (0 < 2 ^ s) by (apply Z.pow_pos_nonneg; lia).
  rewrite <- (Z.mod_mod_divide _ (2 ^ (s + 5))), H.
  - rewrite Z_mod_plus_full. by apply Z.mod_small.
  - exists 32. rewrite Z.pow_add_r by lia. lia.
Qed.

Lemma on_path_shorten s p i es :
  0 <= s -> 0 <= p < 2 ^ s -> on_path (s + 5) (p + i * 2 ^ s) es -> on_path s p es.
Proof. intros. eapply Forall_impl; [done|]. cbn. intros e. by apply prefix_shorten. Qed.

Lemma on_path_concat {C} (f : C -> list (K * V)) s p (ix : list nat) (cs : list C) :
  0 <= s -> 0 <= p < 2 ^ s ->
  Forall2 (fun i c => on_path (s + 5) (p + Z.of_nat i * 2 ^ s) (f c)) ix cs ->
  on_path s p (concat (map f cs)).
Proof.
  intros Hs Hp. induction 1; cbn; [constructor|]. apply Forall_app. split; [|done].
  by eapply on_path_shorten.
Qed.

Lemma wf_on_path n : forall s p, wf s p n -> on_path s p (node_entries n).
Proof.
  induction n as [l nodes IH|c nodes IH|h es|h e] using tnode_ind'; intros s p Hwf; inversion Hwf; subst; cbn.
  - eapply on_path_concat; [lia|done|].
    eapply Forall2_impl_r; [done|exact IH|]. cbn. auto.
  - apply (on_path_concat opt_entries s p (seq 0 32)); [lia|done|].
    eapply Forall2_impl_r; [done|exact IH|]. intros i [x|] Hx Hi; cbn in *; [auto|constructor].
  - eapply Forall_impl; [done|]. cbn. by intros e ->.
  - by constructor.
Qed.

(** Keys below different children are different. *)
Lemma on_path_fresh s p q k es :
  on_path s p es -> u32 (hash k) mod 2 ^ s = q -> p <> q -> fresh k es.
Proof.
  intros H Hk Hne. eapply Forall_impl; [exact H|]. cbn. intros e He.
  destruct (is_ k e.1) eqn:E; [|done]. apply is_hash in E. congruence.
Qed.

Lemma prefix_inj (s p : Z) (i j : nat) :
  0 <= s -> i <> j -> p + Z.of_nat i * 2 ^ s <> p + Z.of_nat j * 2 ^ s.
Proof. intros Hs Hij H. assert (0 < 2 ^ s) by (apply Z.pow_pos_nonneg; lia). nia. Qed.

Lemma concat_distinct {C} (f : C -> list (K * V)) s p (ix : list nat) (cs : list C) :
  0 <= s -> NoDup ix ->
  Forall2 (fun i c => on_path (s + 5) (p + Z.of_nat i * 2 ^ s) (f c) /\ distinct (f c)) ix cs ->
  distinct (concat (map f cs)).
Proof.
  intros Hs Hnd H. induction H as [|i c ix cs [Hp Hd] H IH]; cbn; [done|].
  inversion_clear Hnd as [|? ? Hi Hnd'].
  apply distinct_app. split_and!; [done|by apply IH|].
  eapply Forall_impl; [exact Hp|]. cbn. intros e He. clear IH Hd Hp Hnd'.
  induction H as [|j c' ix cs [Hp' _] H IH]; cbn; [constructor|].
  apply not_elem_of_cons in Hi as [Hij Hi]. apply fresh_app. split; [|by apply IH].
  eapply on_path_fresh; [exact Hp'|exact He|]. by apply prefix_inj.
Qed.

Lemma bits_NoDup l : NoDup (bits l).
Proof. unfold bits, bits_in. apply NoDup_filter, NoDup_seq. Qed.

Lemma wf_distinct n : forall s p, wf s p n -> distinct (node_entries n).
Proof.
  induction n as [l nodes IH|c nodes IH|h es|h e] using tnode_ind'; intros s p Hwf; inversion Hwf; subst; cbn.
  - eapply (concat_distinct _ s p); [lia|apply bits_NoDup|].
    eapply Forall2_impl_r; [done|exact IH|]. intros i c Hc Hi. split; [by apply wf_on_path|by eapply Hi, Hc].
  - apply (concat_distinct opt_entries s p (seq 0 32)); [lia|apply NoDup_seq|].
    eapply Forall2_impl_r; [done|exact IH|]. intros i [x|] Hx Hi; cbn in *; [|by repeat constructor].
    split; [by apply wf_on_path, Hx|by eapply Hi, Hx].
  - done.
  - by repeat constructor.
Qed.

(** ** Specification of an update *)

Definition entry_of (k : K) (o : option V) : list (K * V) :=
  match o with Some v => [(k, v)] | None => [] end.

(** The entries after setting or removing [k], up to order. *)
Definition updates (k : K) (o : option V) (es es' : list (K * V)) (sized : bool) : Prop :=
  exists old rest,
    es ≡ₚ old ++ rest /\ es' ≡ₚ entry_of k o ++ rest /\
    Forall (fun e => is_ k e.1 = true) old /\ (length old <= 1)%nat /\ fresh k rest /\
    sized = negb (length old =? length (entry_of k o))%nat.

(** There is nothing to do: the key is absent, or has the value already. *)
Definition unchanged (k : K) (o : option V) (es : list (K * V)) : Prop :=
  match o with
  | None => fresh k es
  | Some v => exists w, assoc es k = Some w /\ veq w v = true
  end.

Definition upd_ok (s p : Z) (n : tnode K V) (k : K) (o : option V) (x : upd (tnode K V)) : Prop :=
  match out x with
  | Same => didAlter x = false /\ didChangeSize x = false /\ unchanged k o (node_entries n)
  | New n' =>
      didAlter x = true /\ wf s p n' /\
      updates k o (node_entries n) (node_entries n') (didChangeSize x)
  | Gone =>
      didAlter x = true /\ tt_ n = true /\ o = None /\
      updates k o (node_entries n) [] (didChangeSize x)
  | Stuck => False
  end.

Lemma updates_frame k o es es' sz A B :
  fresh k A -> fresh k B -> updates k o es es' sz -> updates k o (A ++ es ++ B) (A ++ es' ++ B) sz.
Proof.
  intros HA HB (old & rest & He & He' & Ho & Hl & Hf & Hs).
  exists old, (A ++ rest ++ B). split_and!; try done.
  - rewrite He. solve_Permutation.
  - rewrite He'. solve_Permutation.
  - by rewrite !fresh_app.
Qed.

Lemma updates_perm k o es es' fs fs' sz :
  es ≡ₚ fs -> es' ≡ₚ fs' -> updates k o es es' sz -> updates k o fs fs' sz.
Proof.
  intros H1 H2 (old & rest & He & He' & Hr). exists old, rest.
  split; [by rewrite <- H1|]. split; [by rewrite <- H2|done].
Qed.

Lemma updates_new k v es : fresh k es -> updates k (Some v) es ((k, v) :: es) true.
Proof. intros. exists [], es. split_and!; [done..|cbn; lia|done|done]. Qed.

Lemma unchanged_frame k o es A B :
  fresh k A -> fresh k B -> unchanged k o es -> unchanged k o (A ++ es ++ B).
Proof.
  intros HA HB. unfold unchanged. destruct o.
  - intros (w & Hw & He). exists w. split; [|done]. by rewrite assoc_app, (assoc_fresh A), assoc_app, Hw.
  - intros. by rewrite !fresh_app.
Qed.

(** ** Leaves *)

Lemma u32_inj x y : isInt32 x -> isInt32 y -> u32 x = u32 y -> x = y.
Proof.
  intros Hx Hy H. rewrite <- (i32_id x), <- (i32_id y) by done.
  destruct (u32_eqm x) as [k Hk], (u32_eqm y) as [k' Hk'].
  apply i32_eq. exists (k' - k). lia.
Qed.

Lemma leaf_wf_extend s p e kh :
  leaf_hash e = Some kh -> 0 <= s < 32 -> wf s p e -> wf (s + 5) (p + chunk kh s * 2 ^ s) e.
Proof.
  intros Hl Hs Hwf. inversion Hwf; subst; cbn in Hl; try done; injection Hl as <-;
    constructor; try done; by apply chunk_extend.
Qed.

Lemma leaf_hash_int32 s p e kh : leaf_hash e = Some kh -> wf s p e -> isInt32 kh.
Proof.
  intros Hl Hwf. inversion Hwf as [| |? ? ? es He Hlen|]; subst; cbn in Hl; try done; injection Hl as <-.
  - destruct es as [|e es]; cbn in Hlen; [lia|]. inversion_clear He. subst. apply hash_int32.
  - apply hash_int32.
Qed.

Lemma leaf_prefix s p e kh : leaf_hash e = Some kh -> wf s p e -> u32 kh mod 2 ^ s = p.
Proof. intros Hl Hwf. inversion Hwf; subst; cbn in Hl; try done; by injection Hl as <-. Qed.

(** The new branch that separates a leaf from a new entry. *)
Lemma nt_spec fuel : forall e s p kh k v,
  leaf_hash e = Some kh -> wf s p e -> (exists d, s = 5 * d) -> 0 <= s <= 35 -> 0 <= p < 2 ^ s ->
  u32 (hash k) mod 2 ^ s = p -> 35 - s < 5 * Z.of_nat fuel ->
  (kh = hash k -> exists en, e = Ye kh en /\ is_ k en.1 = false) ->
  exists n', nt fuel e s (hash k) (k, v) = Some n' /\ wf s p n' /\
    node_entries n' ≡ₚ (k, v) :: node_entries e /\ (kh <> hash k -> tt_ n' = false).
Proof.
  induction fuel as [|fuel IH]; intros e s p kh k v Hl Hwf [d Hd] Hs Hp Hk Hfuel Hsame; [lia|].
  cbn [nt]. rewrite Hl. destruct (Z.eqb_spec kh (hash k)) as [E|E].
  - destruct (Hsame E) as (en & -> & Hen). eexists. split; [done|].
    inversion Hwf; subst. split; [|split; [cbn; solve_Permutation|done]].
    constructor; [by repeat constructor|cbn; lia| |done]. cbn. split; [|by repeat constructor].
    constructor; [|constructor]. cbn. by rewrite is_sym.
  - assert (s <> 35) as Hne.
    { intros ->. apply E, u32_inj; [by eapply leaf_hash_int32|apply hash_int32|].
      apply leaf_prefix with (s := 35) (p := p) in Hl; [|done].
      pose proof (u32_range kh). pose proof (u32_range (hash k)). unfold isUint32 in *.
      rewrite <- Hk in Hl. rewrite !Z.mod_small in Hl by lia. done. }
    assert (0 <= s <= 30) as Hs' by lia.
    pose proof (chunk_range kh s) as Ha. pose proof (chunk_range (hash k) s) as Hu.
    pose proof (leaf_wf_extend s p e kh Hl ltac:(lia) Hwf) as Hext.
    assert (wf (s + 5) (p + chunk (hash k) s * 2 ^ s) (Ye (hash k) (k, v))) as Hnew.
    { constructor; [done|]. rewrite <- Hk. apply chunk_extend. lia. }
    assert (0 < 2 ^ s) as Hpow by (apply Z.pow_pos_nonneg; lia).
    destruct (Z.eqb_spec (chunk kh s) (chunk (hash k) s)) as [Ec|Ec].
    + destruct (IH e (s + 5) (p + chunk kh s * 2 ^ s) kh k v) as (x & Hx & Hwx & Hex & Htx); try done.
      * exists (d + 1). lia.
      * lia.
      * rewrite Z.pow_add_r by lia. nia.
      * rewrite Ec, <- Hk. apply chunk_extend. lia.
      * lia.
      * change v_ with 5. rewrite Hx. eexists. split; [done|]. split_and!.
        -- constructor; try done; [apply js_or_int32|by intros c [= <-]; apply Htx|].
           rewrite bits_two by lia. rewrite (proj2 (Z.eqb_eq _ _) Ec).
           constructor; [|constructor]. by rewrite Z2Nat.id by lia.
        -- cbn. by rewrite app_nil_r.
        -- done.
    + eexists. split; [done|]. split_and!.
      * constructor; try done; [apply js_or_int32|by case_match|by case_match|].
        rewrite bits_two by lia. rewrite (proj2 (Z.eqb_neq _ _) Ec).
        case_match; (apply Forall2_cons_2; [|apply Forall2_cons_2; [|constructor]]);
          by rewrite Z2Nat.id by lia.
      * case_match; cbn; rewrite ?app_nil_r; solve_Permutation.
      * done.
Qed.

(** ** Entry lists *)

Lemma entries_index_cases es r :
  (fresh r es /\ entries_index es r = length es) \/
  (exists pre e post, es = pre ++ e :: post /\ entries_index es r = length pre /\
     is_ r e.1 = true /\ fresh r pre).
Proof.
  induction es as [|e es IH]; cbn; [left; by split; [constructor|]|].
  destruct (is_ r e.1) eqn:E.
  - right. exists [], e, es. split_and!; try done. constructor.
  - destruct IH as [[Hf ->]|(pre & e' & post & -> & -> & He & Hf)].
    + left. by split; [constructor|].
    + right. exists (e :: pre), e', post. split_and!; try done. by constructor.
Qed.

Lemma entries_put_perm pre e post r o :
  entries_put (pre ++ e :: post) (length pre) r o ≡ₚ entry_of r o ++ pre ++ post.
Proof.
  unfold entries_put. rewrite length_app. cbn [length].
  rewrite (proj2 (Nat.ltb_lt _ _)) by lia. destruct o as [w|]; cbn [entry_of app].
  - rewrite insert_app_r_alt, Nat.sub_diag by lia. cbn. solve_Permutation.
  - destruct post as [|x post _] using rev_ind.
    + rewrite (proj2 (Nat.eqb_eq _ _)) by (cbn; lia). by rewrite removelast_last, app_nil_r.
    + rewrite (proj2 (Nat.eqb_neq _ _)) by (rewrite length_app; cbn; lia).
      rewrite app_comm_cons, app_assoc, last_snoc, removelast_last.
      rewrite insert_app_r_alt, Nat.sub_diag by lia. cbn. solve_Permutation.
Qed.

Lemma distinct_around r pre e post :
  distinct (pre ++ e :: post) -> is_ r e.1 = true -> fresh r pre -> fresh r (pre ++ post).
Proof.
  intros Hd He Hf. apply fresh_app. split; [done|].
  apply distinct_app in Hd as (_ & [Hp _] & _). by eapply fresh_is.
Qed.

Definition sets_nothing (es : list (K * V)) (r : K) (o : option V) : bool :=
  match es !! entries_index es r with
  | Some e => match o with Some w => veq e.2 w | None => false end
  | None => notSet o
  end.

Lemma entries_put_ok es r o :
  distinct es ->
  if sets_nothing es r o then unchanged r o es
  else updates r o es (entries_put es (entries_index es r) r o)
         (notSet o || negb (entries_index es r <? length es)%nat).
Proof.
  intros Hd. unfold sets_nothing.
  destruct (entries_index_cases es r) as [[Hf ->]|(pre & e & post & -> & -> & He & Hf)].
  - rewrite lookup_ge_None_2 by lia. destruct o as [w|]; cbn [notSet unchanged]; [|done].
    unfold entries_put. rewrite Nat.ltb_irrefl.
    eapply updates_perm; [done| |by apply updates_new]. solve_Permutation.
  - rewrite list_lookup_middle by done.
    assert (assoc (pre ++ e :: post) r = Some e.2) as Ha.
    { rewrite assoc_app, (assoc_fresh pre) by done. unfold assoc. cbn. by rewrite He. }
    assert (updates r o (pre ++ e :: post) (entries_put (pre ++ e :: post) (length pre) r o)
       (notSet o || negb (length pre <? length (pre ++ e :: post))%nat)) as Hu.
    { exists [e], (pre ++ post). split_and!.
      - solve_Permutation.
      - apply entries_put_perm.
      - by repeat constructor.
      - cbn. lia.
      - by eapply distinct_around.
      - rewrite length_app. cbn [length]. rewrite (proj2 (Nat.ltb_lt _ _)) by lia.
        by destruct o. }
    destruct o as [w|]; [|done]. case_match; [|done]. cbn. eauto.
Qed.

Lemma updates_length k o es es' sz :
  updates k o es es' sz ->
  Z.of_nat (length es') = Z.of_nat (length es) + (if sz then if notSet o then -1 else 1 else 0).
Proof.
  intros (old & rest & -> & -> & _ & Hl & _ & ->). rewrite !length_app.
  destruct o; cbn [entry_of length notSet] in *;
    destruct old as [|? [|? ?]]; cbn in *; lia.
Qed.

Lemma updates_forall (P : K * V -> Prop) k o es es' sz :
  updates k o es es' sz -> Forall P es -> Forall P (entry_of k o) -> Forall P es'.
Proof.
  intros (old & rest & He & He' & _) HP Hk. rewrite He' . rewrite He in HP.
  apply Forall_app in HP as [_ HP]. by apply Forall_app.
Qed.

Lemma updates_distinct k o es es' sz : updates k o es es' sz -> distinct es -> distinct es'.
Proof.
  intros (old & rest & He & He' & _ & _ & Hf & _) Hd.
  eapply distinct_perm; [symmetry; exact He'|].
  eapply distinct_perm in Hd; [|exact He]. apply distinct_app in Hd as (_ & Hd & _).
  apply distinct_app. destruct o; cbn; repeat split; auto; by repeat constructor.
Qed.

(** Lookup after an update. *)
Lemma updates_assoc k o es es' sz k' :
  updates k o es es' sz -> distinct es ->
  assoc es' k' = if is_ k' k then o else assoc es k'.
Proof.
  intros Hu Hd. pose proof (updates_distinct _ _ _ _ _ Hu Hd) as Hd'.
  destruct Hu as (old & rest & He & He' & Ho & Hl & Hf & _).
  rewrite (assoc_perm es' _ k' Hd' He'), (assoc_perm es _ k' Hd He), !assoc_app.
  destruct (is_ k' k) eqn:E.
  - destruct o; cbn; unfold assoc; cbn; [by rewrite E|].
    change (assoc rest k' = None). apply assoc_fresh. by eapply fresh_is.
  - assert (assoc (entry_of k o) k' = None) as ->.
    { destruct o; unfold assoc; cbn; by rewrite ?E. }
    assert (assoc old k' = None) as ->; [|done]. apply assoc_fresh.
    eapply Forall_impl; [exact Ho|]. cbn. intros e Hke.
    destruct (is_ k' e.1) eqn:E'; [|done]. rewrite is_sym in Hke.
    by rewrite (is_trans _ _ _ E' Hke) in E.
Qed.

(** ** Updates of leaves *)

Lemma join_ok e s p kh k v :
  leaf_hash e = Some kh -> wf s p e -> (exists d, s = 5 * d) -> 0 <= s <= 35 -> 0 <= p < 2 ^ s ->
  u32 (hash k) mod 2 ^ s = p -> fresh k (node_entries e) ->
  (kh = hash k -> exists en, e = Ye kh en /\ is_ k en.1 = false) ->
  upd_ok s p e k (Some v) (Upd (join e s (hash k) (k, v)) true true).
Proof.
  intros Hl Hwf Hd Hs Hp Hk Hf Hsame. unfold join.
  destruct (nt_spec nt_fuel e s p kh k v) as (n' & -> & Hwf' & He & _); try done.
  - change (Z.of_nat nt_fuel) with 8. lia.
  - split_and!; [done..|]. cbn. eapply updates_perm; [done|symmetry; exact He|by apply updates_new].
Qed.

Lemma Ye_update_ok h e s p r o :
  wf s p (Ye h e) -> (exists d, s = 5 * d) -> 0 <= s <= 35 -> 0 <= p < 2 ^ s ->
  u32 (hash r) mod 2 ^ s = p ->
  upd_ok s p (Ye h e) r o (Ye_update h e s r o).
Proof.
  intros Hwf Hd Hs Hp Hr. inversion Hwf as [| | |? ? ? ? Hh Hpre]; subst h.
  unfold Ye_update. destruct (is_ r e.1) eqn:E.
  - assert (updates r o [e] (entry_of r o) (notSet o)) as Hu.
    { exists [e], []. split_and!; try done; [by rewrite app_nil_r|by repeat constructor|constructor|by destruct o]. }
    destruct o as [w|].
    + destruct (veq w e.2) eqn:Ew; cbn; [|by split_and!; [|constructor; [apply is_hash in E; cbn; congruence|]|]].
      split_and!; [done..|]. exists e.2. unfold assoc. cbn. by rewrite E, veq_sym.
    + cbn. by split_and!.
  - destruct o as [w|]; cbn [notSet].
    + apply join_ok with (hash e.1); try done; [by repeat constructor|eauto].
    + split_and!; [done..|]. by repeat constructor.
Qed.

Lemma Je_update_ok h es s p r o :
  wf s p (Je h es) -> (exists d, s = 5 * d) -> 0 <= s <= 35 -> 0 <= p < 2 ^ s ->
  u32 (hash r) mod 2 ^ s = p ->
  upd_ok s p (Je h es) r o (Je_update h es s (hash r) r o).
Proof.
  intros Hwf Hd Hs Hp Hr. inversion Hwf as [| |? ? ? ? Hh Hlen Hdis Hpre|]; subst.
  unfold Je_update. destruct (Z.eqb_spec (hash r) h) as [E|E]; cbn [negb].
  - pose proof (entries_put_ok es r o Hdis) as Hput.
    fold (sets_nothing es r o). destruct (sets_nothing es r o); [done|].
    assert (Forall (fun e => hash e.1 = h) (entry_of r o)) as Hro by (destruct o; by repeat constructor).
    destruct o as [w|]; cbn [notSet andb].
    + split_and!; [done| |done]. pose proof (updates_length _ _ _ _ _ Hput) as Hl.
      constructor; [by eapply updates_forall| |by eapply updates_distinct|done].
      cbn [notSet orb] in Hl. case_match; lia.
    + destruct (Nat.eqb_spec (length es) 2) as [E2|E2].
      * destruct es as [|a [|b [|? ?]]]; cbn in E2; try lia. clear E2.
        rewrite !Forall_cons in Hh. destruct Hh as (Ha & Hb & _).
        cbn [entries_index length] in *.
        destruct (is_ r a.1); [|destruct (is_ r b.1)].
        -- cbn. split_and!; [done|constructor; congruence|exact Hput].
        -- cbn. split_and!; [done|constructor; congruence|exact Hput].
        -- unfold entries_put in Hput. cbn in Hput. apply updates_length in Hput. cbn in Hput. lia.
      * split_and!; [done| |done]. pose proof (updates_length _ _ _ _ _ Hput) as Hl. cbn in Hl.
        constructor; [by eapply updates_forall| |by eapply updates_distinct|done]. lia.
  - assert (fresh r es) as Hf.
    { eapply Forall_impl; [exact Hh|]. cbn. intros e He. destruct (is_ r e.1) eqn:Ei; [|done].
      apply is_hash in Ei. congruence. }
    destruct o as [w|]; [|by split_and!]. by eapply join_ok.
Qed.

(** ** Children *)

Lemma leaf_wf_shorten s p i e :
  0 <= s -> 0 <= p < 2 ^ s -> tt_ e = true -> wf (s + 5) (p + i * 2 ^ s) e -> wf s p e.
Proof.
  intros Hs Hp Ht Hwf. inversion Hwf; subst; try done; constructor; try done; by eapply prefix_shorten.
Qed.

Definition child_at (s p : Z) (i : nat) (c : tnode K V) : Prop := wf (s + 5) (p + Z.of_nat i * 2 ^ s) c.
Definition slot_at (s p : Z) (i : nat) (o : option (tnode K V)) : Prop := forall c, o = Some c -> child_at s p i c.

Lemma siblings_fresh {C} (f : C -> list (K * V)) s p k (ix : list nat) (cs : list C) (u : nat) :
  0 <= s -> u32 (hash k) mod 2 ^ (s + 5) = p + Z.of_nat u * 2 ^ s ->
  Forall2 (fun i c => on_path (s + 5) (p + Z.of_nat i * 2 ^ s) (f c)) ix cs ->
  (forall i, i ∈ ix -> i <> u) -> fresh k (concat (map f cs)).
Proof.
  intros Hs Hk H. induction H as [|i c ix cs Hp H IH]; intros Hu; cbn; [constructor|].
  apply fresh_app. split.
  - eapply on_path_fresh; [exact Hp|exact Hk|]. apply prefix_inj; [done|]. apply Hu. by left.
  - apply IH. intros j Hj. apply Hu. by right.
Qed.

Lemma children_fresh s p k ix cs u :
  0 <= s -> u32 (hash k) mod 2 ^ (s + 5) = p + Z.of_nat u * 2 ^ s ->
  Forall2 (child_at s p) ix cs -> (forall i, i ∈ ix -> i <> u) ->
  fresh k (concat (map node_entries cs)).
Proof.
  intros Hs Hk H. eapply siblings_fresh; try done. eapply Forall2_impl; [exact H|].
  intros i c. apply wf_on_path.
Qed.

Lemma slots_fresh s p k ix cs u :
  0 <= s -> u32 (hash k) mod 2 ^ (s + 5) = p + Z.of_nat u * 2 ^ s ->
  Forall2 (slot_at s p) ix cs -> (forall i, i ∈ ix -> i <> u) ->
  fresh k (concat (map opt_entries cs)).
Proof.
  intros Hs Hk H. eapply siblings_fresh; try done. eapply Forall2_impl; [exact H|].
  intros i [c|] Hc; [by apply wf_on_path, Hc|constructor].
Qed.

Lemma concat_slots (l : list (option (tnode K V))) :
  concat (map opt_entries l) = concat (map node_entries (omap id l)).
Proof. induction l as [|[c|] l IH]; cbn; [done|by rewrite IH|done]. Qed.

(** ** Expanding and packing *)

Lemma bits_in_cons x from len :
  bits_in x from (S len) =
  if Z.testbit x (Z.of_nat from) then from :: bits_in x (S from) len else bits_in x (S from) len.
Proof.
  unfold bits_in. cbn [seq]. rewrite filter_cons.
  destruct (Z.testbit x (Z.of_nat from)) eqn:E; by case_decide.
Qed.

Lemma expand_loop_spec R k : forall base n N pre cs,
  (base + k = 32)%nat -> u32 n = Z.shiftr (u32 N) (Z.of_nat base) -> (n = 0 <-> u32 n = 0) ->
  Forall2 R (bits_in N base k) cs ->
  exists ex, expand_loop k n (length pre) (pre ++ cs) = (ex, (length pre + length cs)%nat) /\
    length ex = k /\ omap id ex = cs /\
    Forall2 (fun i o => forall c : tnode K V, o = Some c -> Z.testbit N (Z.of_nat i) = true /\ R i c) (seq base k) ex.
Proof.
  induction k as [|k IH]; intros base n N pre cs Hk Hn Hz HR.
  - cbn in HR. inversion HR; subst. exists []. cbn. rewrite Nat.add_0_r. repeat split. constructor.
  - assert (forall j, 0 <= j -> Z.testbit (u32 n) j = (j + Z.of_nat base <? 32) && Z.testbit N (j + Z.of_nat base)) as Hb.
    { intros j Hj. rewrite Hn, Z.shiftr_spec, u32_testbit by lia. done. }
    assert (Z.testbit n 0 = Z.testbit N (Z.of_nat base)) as Hb0.
    { specialize (Hb 0 ltac:(lia)). rewrite u32_testbit in Hb. cbn [Z.ltb andb] in Hb.
      rewrite (proj2 (Z.ltb_lt (0 + _) 32)) in Hb by lia. by rewrite Z.add_0_l in Hb. }
    cbn [expand_loop]. destruct (Z.eqb_spec n 0) as [E|E].
    + apply Hz in E. assert (bits_in N base (S k) = []) as Hnil.
      { rewrite (bits_in_ext N 0); [apply bits_in_zero|]. intros i Hi.
        specialize (Hb (Z.of_nat i - Z.of_nat base) ltac:(lia)). rewrite E, Z.testbit_0_l in Hb.
        replace (Z.of_nat i - Z.of_nat base + Z.of_nat base) with (Z.of_nat i) in Hb by lia.
        rewrite (proj2 (Z.ltb_lt _ _)) in Hb by lia. by rewrite Z.testbit_0_l. }
      rewrite Hnil in HR. inversion HR; subst. exists (replicate (S k) None).
      rewrite Nat.add_0_r. split_and!; [done|apply length_replicate| |].
      * clear. induction (S k); cbn; auto.
      * apply Forall2_same_length_lookup_2; [by rewrite length_replicate, length_seq|].
        intros i j o _ Ho c ->. by apply lookup_replicate in Ho as [[=] _].
    + assert (js_and 1 n = Z.b2z (Z.testbit n 0)) as Hand.
      { rewrite js_and_comm. change 1 with (2 ^ 1 - 1). rewrite js_and_ones by lia.
        rewrite Z.bit0_mod. done. }
      assert (u32 (js_ushr n 1) = Z.shiftr (u32 N) (Z.of_nat (S base)) /\
              (js_ushr n 1 = 0 <-> u32 (js_ushr n 1) = 0)) as [Hn' Hz'].
      { rewrite js_ushr_small by lia. pose proof (u32_range n) as Hr. unfold isUint32 in Hr.
        rewrite (u32_id (u32 n / 2 ^ 1)).
        - split; [|done]. rewrite Hn, <- Z.shiftr_div_pow2, Z.shiftr_shiftr by lia. f_equal. lia.
        - unfold isUint32. split; [apply Z.div_pos; lia|apply Z.div_lt_upper_bound; lia]. }
      rewrite bits_in_cons in HR. rewrite Hand, Hb0.
      destruct (Z.testbit N (Z.of_nat base)) eqn:B; cbn [Z.b2z Z.eqb].
      * inversion HR as [|i c ix cs' Hc HR']; subst.
        destruct (IH (S base) (js_ushr n 1) N (pre ++ [c]) cs') as (ex & Hex & Hlen & Hom & Hf); try done; [lia|].
        rewrite length_app, Nat.add_1_r, <- app_assoc in Hex. cbn in Hex. rewrite Hex.
        exists (Some c :: ex). rewrite list_lookup_middle by done. split_and!.
        -- f_equal. cbn. lia.
        -- cbn. by rewrite Hlen.
        -- cbn. by rewrite Hom.
        -- constructor; [by intros ? [= <-]|done].
      * destruct (IH (S base) (js_ushr n 1) N pre cs) as (ex & Hex & Hlen & Hom & Hf); try done; [lia|].
        rewrite Hex. exists (None :: ex). split_and!; [done|cbn; by rewrite Hlen|done|].
        constructor; [done|done].
Qed.

Lemma seq_around u : (u < 32)%nat -> seq 0 32 = seq 0 u ++ u :: seq (S u) (31 - u).
Proof.
  intros. replace 32%nat with (u + S (31 - u))%nat by lia. by rewrite seq_app.
Qed.

Lemma expand_nodes_ok s p l u nodes x :
  0 <= s <= 30 -> 0 <= p < 2 ^ s -> isInt32 l -> 0 <= u < 32 -> Z.testbit l u = false ->
  ct_ <= Z.of_nat (length nodes) ->
  Forall2 (child_at s p) (bits l) nodes -> child_at s p (Z.to_nat u) x ->
  wf s p (expand_nodes nodes l u x) /\
  exists A B, node_entries (expand_nodes nodes l u x) = A ++ node_entries x ++ B /\
    concat (map node_entries nodes) = A ++ B.
Proof.
  intros Hs Hp Hl Hu Hb Hct Hn Hx. unfold expand_nodes. change (Z.to_nat m_) with 32%nat.
  destruct (expand_loop_spec (child_at s p) 32 0 l l [] nodes) as (ex & Hex & Hlen & Hom & Hf); try done.
  { split; [by intros ->|]. intros E. apply u32_inj; done. }
  change (expand_loop 32 l 0 nodes = (ex, length nodes)) in Hex. rewrite Hex.
  rewrite (seq_around (Z.to_nat u)) in Hf by lia.
  apply Forall2_app_inv_l in Hf as (E1 & E2' & H1 & H2 & ->).
  inversion H2 as [|i o ix E2 Ho H2' Hi Heq]; subst i ix E2'. clear H2.
  assert (o = None) as ->.
  { destruct o as [c|]; [|done]. destruct (Ho c eq_refl) as [Ht _]. by rewrite Z2Nat.id, Hb in Ht by lia. }
  assert (length E1 = Z.to_nat u) as HE1 by (rewrite <- (Forall2_length _ _ _ H1); apply length_seq).
  rewrite <- HE1, insert_app_r_alt, Nat.sub_diag by done. cbn [list_insert insert].
  rewrite omap_app in Hom. cbn in Hom. split.
  - constructor; try done.
    + rewrite <- Hom, omap_app, !length_app. cbn. lia.
    + change ct_ with 16 in Hct. lia.
    + rewrite (seq_around (Z.to_nat u)) by lia. apply Forall2_app; [|constructor].
      * eapply Forall2_impl; [exact H1|]. intros i o Hio c Hc. by apply (Hio c Hc).
      * by intros c [= <-].
      * eapply Forall2_impl; [exact H2'|]. intros i o Hio c Hc. by apply (Hio c Hc).
  - exists (concat (map opt_entries E1)), (concat (map opt_entries E2)). split.
    + cbn. change (fun o : option (tnode K V) => match o with Some x => node_entries x | None => [] end) with opt_entries.
      by rewrite map_app, concat_app.
    + by rewrite <- Hom, map_app, concat_app, !concat_slots.
Qed.

Lemma shl_next u : (S u < 32)%nat -> js_shl (js_shl 1 (Z.of_nat u)) 1 = js_shl 1 (Z.of_nat (S u)).
Proof.
  intros Hu. rewrite !js_shl_small by lia. rewrite !Z.mul_1_l. apply i32_eq.
  destruct (i32_eqm (2 ^ Z.of_nat u)) as [k ->]. exists (2 * k).
  rewrite (Nat2Z.inj_succ u), Z.pow_succ_r by lia. lia.
Qed.

(** Setting a bit above all the others. *)
Lemma bits_or_above o u :
  (u < 32)%nat -> (forall i, i ∈ bits o -> (i < u)%nat) ->
  bits (js_or o (js_shl 1 (Z.of_nat u))) = bits o ++ [u].
Proof.
  intros Hu Hlow. rewrite bits_or, (bits_split o (Z.of_nat u)) by lia. rewrite Nat2Z.id.
  assert (Z.testbit o (Z.of_nat u) = false) as ->.
  { destruct (Z.testbit o (Z.of_nat u)) eqn:B; [|done].
    assert (u ∈ bits o) as Hin; [|apply Hlow in Hin; lia].
    unfold bits, bits_in. apply list_elem_of_filter. rewrite elem_of_seq. split; [done|lia]. }
  destruct (above o (Z.of_nat u)) as [|j ab] eqn:Hab; [by rewrite !app_nil_r|].
  assert (j ∈ above o (Z.of_nat u)) as Hj by (rewrite Hab; by left).
  pose proof (elem_of_above _ _ _ Hj).
  assert (j ∈ bits o) as Hin.
  { rewrite (bits_split o (Z.of_nat u)) by lia. rewrite !elem_of_app. by right; right. }
  apply Hlow in Hin. lia.
Qed.

(** The bitmap that [packNodes] builds, one position at a time. *)
Lemma pack_loop_spec R t : forall u r s o a,
  (u + length t = 32)%nat -> ((u < 32)%nat -> s = js_shl 1 (Z.of_nat u)) ->
  isInt32 o -> (forall i, i ∈ bits o -> (i < u)%nat) ->
  Forall2 (fun i x => forall c : tnode K V, x = Some c -> R i c) (seq u (length t)) t ->
  (forall i c, t !! i = Some (Some c) -> (u + i)%nat <> r) ->
  exists ix o', pack_loop t u s r o a = He o' (a ++ omap id t) /\
    isInt32 o' /\ bits o' = bits o ++ ix /\ Forall2 R ix (omap id t).
Proof.
  induction t as [|x t IH]; intros u r s o a Hlen Hs Ho Hlow HR Hr.
  - exists [], o. cbn. rewrite !app_nil_r. by split_and!.
  - cbn [length] in *. cbn [seq] in HR. inversion HR as [|? ? ? ? Hx HR']; subst.
    assert (forall i c, t !! i = Some (Some c) -> (S u + i)%nat <> r) as Hr'.
    { intros i c Hi. specialize (Hr (S i) c Hi). lia. }
    assert ((S u < 32)%nat -> js_shl s 1 = js_shl 1 (Z.of_nat (S u))) as Hs'.
    { intros Hu. rewrite Hs by lia. by apply shl_next. }
    cbn [pack_loop]. destruct x as [c|]; cbn [omap list_omap id].
    + rewrite (proj2 (Nat.eqb_neq u r)) by (rewrite <- (Nat.add_0_r u); by apply (Hr 0%nat c)).
      assert (s = js_shl 1 (Z.of_nat u)) as -> by (apply Hs; lia).
      assert (bits (js_or o (js_shl 1 (Z.of_nat u))) = bits o ++ [u]) as Hbits by (apply bits_or_above; [lia|done]).
      destruct (IH (S u) r (js_shl (js_shl 1 (Z.of_nat u)) 1) (js_or o (js_shl 1 (Z.of_nat u))) (a ++ [c]))
        as (ix & o' & He & Hi & Hb & Hf); try done.
      * lia.
      * apply js_or_int32.
      * intros i. rewrite Hbits, elem_of_app, list_elem_of_singleton. intros [Hi| ->]; [apply Hlow in Hi|]; lia.
      * exists (u :: ix), o'. rewrite He, Hb, Hbits, <- !app_assoc. split_and!; try done.
        constructor; [by apply Hx|done].
    + destruct (IH (S u) r (js_shl s 1) o a) as (ix & o' & He & Hi & Hb & Hf); try done; [lia| |by exists ix, o'].
      intros i Hi. apply Hlow in Hi. lia.
Qed.

(** ** Updates of bitmap nodes *)

Section HeUpdate.
Context (s p l : Z) (r : K) (o : option V).
Context (Hs : 0 <= s <= 30) (Hp : 0 <= p < 2 ^ s) (Hl : isInt32 l).
Context (Hr : u32 (hash r) mod 2 ^ s = p).
Context (u : Z) (Equ : u = chunk (hash r) s).

Local Lemma u_range : 0 <= u < 32.
Proof. rewrite Equ. apply chunk_range. Qed.

Local Lemma r_path : u32 (hash r) mod 2 ^ (s + 5) = p + Z.of_nat (Z.to_nat u) * 2 ^ s.
Proof. pose proof u_range. rewrite Z2Nat.id, Equ, <- Hr by lia. apply chunk_extend. lia. Qed.

Local Lemma below_fresh A : Forall2 (child_at s p) (below l u) A -> fresh r (concat (map node_entries A)).
Proof.
  intros H. eapply (children_fresh s p); [lia|apply r_path|exact H|].
  intros i Hi. apply elem_of_below in Hi. lia.
Qed.

Local Lemma above_fresh B : Forall2 (child_at s p) (above l u) B -> fresh r (concat (map node_entries B)).
Proof.
  intros H. eapply (children_fresh s p); [lia|apply r_path|exact H|].
  intros i Hi. apply elem_of_above in Hi. lia.
Qed.

Context (A B : list (tnode K V)).
Context (HA : Forall2 (child_at s p) (below l u) A) (HB : Forall2 (child_at s p) (above l u) B).

Lemma entries_He_app bm C D : node_entries (He bm (C ++ D)) =
  concat (map node_entries C) ++ concat (map node_entries D).
Proof. cbn. by rewrite map_app, concat_app. Qed.

(** The child at the key's position is replaced. *)
Lemma He_replace_ok x x' h :
  Z.testbit l u = true -> (forall c, A ++ x :: B = [c] -> tt_ c = false) ->
  upd_ok (s + 5) (p + Z.of_nat (Z.to_nat u) * 2 ^ s) x r o h -> out h = New x' ->
  upd_ok s p (He l (A ++ x :: B)) r o (He_finish l (A ++ x :: B) u (js_shl 1 u) true (length A) h).
Proof.
  intros Hbit Hone Hh Hout. unfold He_finish, upd_ok in *. rewrite Hout in *.
  destruct Hh as (Halt & Hwf & Hu). cbn [negb andb].
  apply (updates_frame _ _ _ _ _ (concat (map node_entries A)) (concat (map node_entries B))) in Hu;
    [|by apply below_fresh|by apply above_fresh].
  destruct ((Z.of_nat (length (A ++ x :: B)) =? 1) && tt_ x') eqn:E; cbn [out didAlter didChangeSize].
  - apply andb_prop in E as [E1%Z.eqb_eq E2]. rewrite length_app in E1. cbn [length] in E1.
    assert (A = [] /\ B = []) as [-> ->] by (destruct A, B; cbn in E1; (done || lia)).
    cbn in Hu |- *. rewrite !app_nil_r in *. split_and!; try done.
    eapply leaf_wf_shorten; try done; lia.
  - rewrite insert_app_r_alt, Nat.sub_diag by lia. cbn [list_insert insert].
    split_and!; [done| |by rewrite !entries_He_app].
    constructor; try done.
    + by destruct A.
    + intros c Hc. destruct A as [|? [|? ?]]; try done. injection Hc as <- ->.
      rewrite app_nil_l in E. cbn in E. done.
    + rewrite (bits_split l u u_range), Hbit. apply Forall2_app; [done|]. by constructor.
Qed.

(** The child at the key's position is removed. *)
Lemma He_remove_ok x h :
  Z.testbit l u = true -> (forall c, A ++ x :: B = [c] -> tt_ c = false) ->
  upd_ok (s + 5) (p + Z.of_nat (Z.to_nat u) * 2 ^ s) x r o h -> out h = Gone ->
  upd_ok s p (He l (A ++ x :: B)) r o (He_finish l (A ++ x :: B) u (js_shl 1 u) true (length A) h).
Proof.
  intros Hbit Hone Hh Hout. unfold He_finish, upd_ok in Hh |- *. rewrite Hout in *.
  destruct Hh as (Halt & Hleaf & Ho & Hu). cbn [negb].
  apply (updates_frame _ _ _ _ _ (concat (map node_entries A)) (concat (map node_entries B))) in Hu;
    [|by apply below_fresh|by apply above_fresh].
  assert (splice_out (A ++ x :: B) (length A) = A ++ B) as Hsplice.
  { unfold splice_out. rewrite take_app_length, drop_app_ge by lia.
    replace (S (length A) - length A)%nat with 1%nat by lia.
    change (drop 1 (x :: B)) with (drop 0 B). rewrite drop_0, take_ge; [done|].
    rewrite !length_app. cbn [length]. lia. }
  assert (A ++ B <> []) as Hne.
  { destruct A; [|done]. destruct B; [|done]. by rewrite (Hone x) in Hleaf. }
  assert ((forall c, A ++ B = [c] -> tt_ c = false) ->
    wf s p (He (js_xor l (js_shl 1 u)) (A ++ B)) /\
    updates r o (node_entries (He l (A ++ x :: B))) (node_entries (He (js_xor l (js_shl 1 u)) (A ++ B))) (didChangeSize h)) as Hrem.
  { intros Hsingle. split; [|by rewrite !entries_He_app].
    constructor; try done; [apply js_xor_int32|].
    rewrite (bits_xor l u u_range), Hbit. by apply Forall2_app. }
  rewrite Hsplice. destruct (Z.eqb_spec (Z.of_nat (length (A ++ x :: B))) 2) as [E|E].
  - rewrite length_app in E. cbn [length] in E.
    assert ((exists y, A = [] /\ B = [y]) \/ (exists y, A = [y] /\ B = [])) as Hy.
    { destruct A as [|? [|? ?]], B as [|? [|? ?]]; cbn in E; try lia; eauto. }
    assert (exists y, (A ++ x :: B) !! Z.to_nat (js_xor 1 (Z.of_nat (length A))) = Some y /\
      A ++ B = [y] /\ exists i, child_at s p i y) as (y & Hlook & Hy1 & i & Hy2).
    { destruct Hy as [(y & -> & ->)|(y & -> & ->)]; exists y; (split; [done|split; [done|]]);
        [inversion HB|inversion HA]; eauto. }
    rewrite Hlook. destruct (tt_ y) eqn:Ty; cbn [out didAlter didChangeSize].
    + split_and!; [done|eapply leaf_wf_shorten; try done; lia|].
      eapply updates_perm; [| |exact Hu].
      * by rewrite entries_He_app.
      * rewrite app_nil_l, <- concat_app, <- map_app, Hy1. cbn. by rewrite app_nil_r.
    + split; [done|]. apply Hrem. intros c Hc. rewrite Hy1 in Hc. by injection Hc as <-.
  - split; [done|]. apply Hrem. intros c Hc.
    apply (f_equal length) in Hc. rewrite length_app in *. cbn [length] in *. lia.
Qed.

(** A new child. *)
Lemma He_insert_ok v :
  Z.testbit l u = false -> o = Some v -> A ++ B <> [] ->
  upd_ok s p (He l (A ++ B)) r o (He_finish l (A ++ B) u (js_shl 1 u) false (length A) (et_undefined (hash r) r o)).
Proof.
  intros Hbit -> Hne. cbn [et_undefined]. unfold He_finish, upd_ok. cbn [out didAlter didChangeSize negb andb].
  assert (child_at s p (Z.to_nat u) (Ye (hash r) (r, v))) as Hnew by (constructor; [done|apply r_path]).
  assert (Forall2 (child_at s p) (bits l) (A ++ B)) as HAB.
  { rewrite (bits_split l u u_range), Hbit. by apply Forall2_app. }
  pose proof (below_fresh A HA) as HfA. pose proof (above_fresh B HB) as HfB.
  destruct (Z.leb_spec ct_ (Z.of_nat (length (A ++ B)))) as [E|E].
  - destruct (expand_nodes_ok s p l u (A ++ B) (Ye (hash r) (r, v))) as (Hwf & C & D & HCD & HAB'); try done.
    { apply u_range. }
    cbn [out]. split_and!; [done|done|]. rewrite HCD.
    change (node_entries (He l (A ++ B))) with (concat (map node_entries (A ++ B))).
    assert (fresh r (C ++ D)) as HfCD by (rewrite <- HAB', map_app, concat_app; by apply fresh_app).
    rewrite HAB'. eapply updates_perm; [done| |by apply updates_new]. cbn. solve_Permutation.
  - cbn [out]. unfold splice_in. rewrite take_app_length, drop_app_length. split_and!; [done| |].
    + constructor; try done.
      * apply js_or_int32.
      * by destruct A.
      * intros c Hc. destruct A as [|? [|? ?]]; [|done..]. cbn in Hc. by injection Hc as <- ->.
      * rewrite (bits_or l u u_range). apply Forall2_app; [done|]. by constructor.
    + rewrite !entries_He_app. cbn. eapply updates_perm; [done| |apply updates_new; by apply fresh_app].
      solve_Permutation.
Qed.
End HeUpdate.

(** ** Updates of array nodes *)

Lemma entries_We c C D : node_entries (We c (C ++ D)) =
  concat (map opt_entries C) ++ concat (map opt_entries D).
Proof. cbn. by rewrite map_app, concat_app. Qed.

Lemma pack_loop_skip E1 d E2 : forall u s o (a : list (tnode K V)),
  pack_loop (E1 ++ Some d :: E2) u s (u + length E1) o a =
  pack_loop (E1 ++ None :: E2) u s (u + length E1) o a.
Proof.
  induction E1 as [|[c|] E1 IH]; intros u s o a; cbn [app pack_loop length].
  - by rewrite Nat.add_0_r, Nat.eqb_refl.
  - replace (u + S (length E1))%nat with (S u + length E1)%nat by lia.
    case_match; apply IH.
  - replace (u + S (length E1))%nat with (S u + length E1)%nat by lia. apply IH.
Qed.

Section WeUpdate.
Context (s p : Z) (r : K) (o : option V).
Context (Hs : 0 <= s <= 30) (Hp : 0 <= p < 2 ^ s).
Context (Hr : u32 (hash r) mod 2 ^ s = p).
Context (u : nat) (Equ : Z.of_nat u = chunk (hash r) s).
Context (E1 E2 : list (option (tnode K V))).
Context (H1 : Forall2 (slot_at s p) (seq 0 u) E1) (H2 : Forall2 (slot_at s p) (seq (S u) (31 - u)) E2).

Local Lemma slot_range : (u < 32)%nat.
Proof. pose proof (chunk_range (hash r) s). lia. Qed.

Local Lemma slot_path : u32 (hash r) mod 2 ^ (s + 5) = p + Z.of_nat u * 2 ^ s.
Proof. rewrite Equ, <- Hr. apply chunk_extend. lia. Qed.

Local Lemma slots_fresh_around :
  fresh r (concat (map opt_entries E1)) /\ fresh r (concat (map opt_entries E2)).
Proof.
  split; eapply (slots_fresh s p); [lia|apply slot_path|exact H1| |lia|apply slot_path|exact H2|];
    intros i; rewrite elem_of_seq; lia.
Qed.

Local Lemma slots_length : length E1 = u.
Proof. rewrite <- (Forall2_length _ _ _ H1). apply length_seq. Qed.

Local Lemma slots_insert x x' : <[u := x']> (E1 ++ x :: E2) = E1 ++ x' :: E2.
Proof. rewrite <- slots_length, insert_app_r_alt, Nat.sub_diag by lia. done. Qed.

Local Lemma slots_join x : slot_at s p u x -> Forall2 (slot_at s p) (seq 0 32) (E1 ++ x :: E2).
Proof.
  intros Hx. rewrite (seq_around u slot_range). apply Forall2_app; [done|]. by constructor.
Qed.

Lemma We_put_ok count x x' f :
  count = Z.of_nat (length (omap id (E1 ++ x :: E2))) -> 8 <= count ->
  match x with
  | Some d => upd_ok (s + 5) (p + Z.of_nat u * 2 ^ s) d r o f
  | None => exists v, o = Some v /\ f = et_undefined (hash r) r o
  end -> out f = New x' ->
  upd_ok s p (We count (E1 ++ x :: E2)) r o
    (We_finish count (E1 ++ x :: E2) u (match x with Some _ => true | None => false end) f).
Proof.
  intros Hc H8 Hf Hout. destruct slots_fresh_around as [Hf1 Hf2].
  assert (didAlter f = true /\ wf (s + 5) (p + Z.of_nat u * 2 ^ s) x' /\
    updates r o (opt_entries x) (node_entries x') (didChangeSize f)) as (Halt & Hwf & Hu).
  { destruct x as [d|]; [unfold upd_ok in Hf; by rewrite Hout in Hf|].
    destruct Hf as (v & -> & ->). cbn in Hout. injection Hout as <-. split_and!; [done| |].
    - constructor; [done|apply slot_path].
    - apply updates_new. constructor. }
  unfold We_finish, upd_ok. rewrite Hout. cbn [out didAlter didChangeSize].
  rewrite slots_insert. split_and!; [done| |].
  - rewrite omap_app in Hc. rewrite length_app in Hc.
    constructor; try done.
    + rewrite omap_app, length_app. destruct x; cbn in *; lia.
    + destruct x; lia.
    + apply slots_join. by intros ? [= <-].
  - rewrite !entries_We. by apply updates_frame.
Qed.

Lemma We_remove_ok count d f :
  count = Z.of_nat (length (omap id (E1 ++ Some d :: E2))) -> 8 <= count ->
  upd_ok (s + 5) (p + Z.of_nat u * 2 ^ s) d r o f -> out f = Gone ->
  upd_ok s p (We count (E1 ++ Some d :: E2)) r o (We_finish count (E1 ++ Some d :: E2) u true f).
Proof.
  intros Hc H8 Hf Hout. destruct slots_fresh_around as [Hf1 Hf2].
  unfold upd_ok in Hf. rewrite Hout in Hf. destruct Hf as (Halt & _ & Ho & Hu).
  apply (updates_frame _ _ _ _ _ (concat (map opt_entries E1)) (concat (map opt_entries E2))) in Hu; [|done..].
  assert (Forall2 (slot_at s p) (seq 0 32) (E1 ++ None :: E2)) as Hslots by (by apply slots_join).
  assert (count - 1 = Z.of_nat (length (omap id (E1 ++ None :: E2)))) as Hc'.
  { rewrite omap_app, length_app in Hc |- *. cbn in *. lia. }
  unfold We_finish, upd_ok. rewrite Hout. cbn [andb]. change ft_ with 8.
  destruct (Z.ltb_spec (count - 1) 8); cbn [out didAlter didChangeSize].
  - unfold pack_nodes. rewrite <- slots_length.
    pose proof (pack_loop_skip E1 d E2 0 1 0 []) as Hskip. rewrite Nat.add_0_l in Hskip. rewrite Hskip.
    assert (length (E1 ++ None :: E2) = 32%nat) as Hlen by (by rewrite <- (Forall2_length _ _ _ Hslots)).
    destruct (pack_loop_spec (child_at s p) (E1 ++ None :: E2) 0 (length E1) 1 0 [])
      as (ix & bm & Hpack & Hbm & Hbits & HR); [done..| |by rewrite Hlen| |].
    + change (bits 0) with (@nil nat). by intros i Hi%elem_of_nil.
    + intros i c Hi. destruct (decide (i = length E1)) as [->|]; [|lia].
      by rewrite list_lookup_middle in Hi.
    + rewrite Hpack, app_nil_l. split_and!; [done| |].
      * constructor; try done.
        -- intros E. rewrite E in Hc'. cbn in Hc'. lia.
        -- intros c E. rewrite E in Hc'. cbn in Hc'. lia.
        -- change (bits 0) with (@nil nat) in Hbits. cbn in Hbits. by rewrite Hbits.
      * rewrite entries_We. cbn [node_entries]. rewrite <- concat_slots, map_app, concat_app. done.
  - rewrite slots_insert. split_and!; [done|constructor; try done; lia|by rewrite !entries_We].
Qed.
End WeUpdate.

(** ** Updates of any node *)

Lemma node_update_He l nodes t n r o :
  node_update (He l nodes) t n r o =
  (let n := default (hash r) n in
   let u := chunk n t in
   let s := js_shl 1 u in
   let c := negb (js_and l s =? 0) in
   if negb c && notSet o then same
   else
     let f := Z.to_nat (ut (js_and l (s - 1))) in
     He_finish l nodes u s c f
       (match (if c then nodes !! f else None) with
        | Some d => node_update d (t + v_) (Some n) r o
        | None => et_undefined n r o
        end)).
Proof.
  cbn [node_update]. cbv zeta. case_match; [done|]. f_equal. case_match; [|done].
  generalize (Z.to_nat (ut (js_and l (js_shl 1 (chunk (default (hash r) n) t) - 1)))) as f.
  induction nodes as [|d nodes IH]; intros [|f]; try done; apply IH.
Qed.

Lemma node_update_We count nodes t n r o :
  node_update (We count nodes) t n r o =
  (let n := default (hash r) n in
   let u := Z.to_nat (chunk n t) in
   let c := match nodes !! u with Some (Some _) => true | _ => false end in
   if notSet o && negb c then same
   else
     We_finish count nodes u c
       (match nodes !! u with
        | Some (Some d) => node_update d (t + v_) (Some n) r o
        | _ => et_undefined n r o
        end)).
Proof.
  cbn [node_update]. cbv zeta. case_match; [done|]. f_equal.
  generalize (Z.to_nat (chunk (default (hash r) n) t)) as f.
  clear. induction nodes as [|[d|] nodes IH]; intros [|f]; try done; apply IH.
Qed.

Lemma same_ok s p n r o : unchanged r o (node_entries n) -> upd_ok s p n r o same.
Proof. intros. by split_and!. Qed.

Lemma He_update_ok s p l nodes r o t :
  wf s p (He l nodes) -> u32 (hash r) mod 2 ^ s = p -> default (hash r) t = hash r ->
  Forall (fun d => forall i, child_at s p i d -> i = Z.to_nat (chunk (hash r) s) ->
    upd_ok (s + 5) (p + Z.of_nat i * 2 ^ s) d r o (node_update d (s + v_) (Some (hash r)) r o)) nodes ->
  upd_ok s p (He l nodes) r o (node_update (He l nodes) s t r o).
Proof.
  intros Hwf Hr Ht IH. inversion Hwf as [? ? ? ? Hs Hp Hl Hne Hone Hch| | |]; subst s0 p0 l0 nodes0.
  rewrite node_update_He, Ht. cbv zeta. pose proof (chunk_range (hash r) s) as Hu.
  rewrite has_bit, rank_spec, Nat2Z.id by done.
  pose proof Hch as Hch'. rewrite (bits_split l (chunk (hash r) s)) in Hch' by done.
  apply Forall2_app_inv_l in Hch' as (A & B' & HA & HB' & ->).
  rewrite (Forall2_length _ _ _ HA). destruct (Z.testbit l (chunk (hash r) s)) eqn:Hbit; cbn [negb andb].
  - inversion HB' as [|? x ? B Hx HB Hi Heq]. subst B'. cbn in HB. clear HB' Hch.
    rewrite list_lookup_middle by done.
    apply Forall_app in IH as [_ IH]. apply Forall_cons in IH as [IHx _].
    specialize (IHx _ Hx eq_refl). pose proof (He_replace_ok s p l r o Hs Hp Hl Hr _ eq_refl A B HA HB x) as Hrep.
    pose proof (He_remove_ok s p l r o Hs Hp Hr _ eq_refl A B HA HB x) as Hrem.
    destruct (out (node_update x (s + v_) (Some (hash r)) r o)) as [|x'| |] eqn:Hout; [|by eapply Hrep|by eapply Hrem|].
    + unfold upd_ok in IHx. rewrite Hout in IHx. destruct IHx as (Ha & Hz & Hun).
      unfold He_finish, upd_ok. rewrite Hout. cbn [out didAlter didChangeSize]. split_and!; [done..|].
      rewrite entries_He_app. cbn [map concat]. apply unchanged_frame; [| |done].
      * by eapply (below_fresh s p l r Hs Hr _ eq_refl).
      * by eapply (above_fresh s p l r Hs Hr _ eq_refl).
    + unfold upd_ok in IHx. by rewrite Hout in IHx.
  - cbn in HB'. destruct o as [v|]; cbn [notSet].
    + eapply (He_insert_ok s p l r (Some v) Hs Hp Hl Hr _ eq_refl A B' HA HB' v); try done.
    + apply same_ok. cbn [unchanged]. rewrite entries_He_app. apply fresh_app. split.
      * by eapply (below_fresh s p l r Hs Hr _ eq_refl).
      * by eapply (above_fresh s p l r Hs Hr _ eq_refl).
Qed.

Lemma We_update_ok s p count nodes r o t :
  wf s p (We count nodes) -> u32 (hash r) mod 2 ^ s = p -> default (hash r) t = hash r ->
  Forall (from_option (fun d => forall i, child_at s p i d -> i = Z.to_nat (chunk (hash r) s) ->
    upd_ok (s + 5) (p + Z.of_nat i * 2 ^ s) d r o (node_update d (s + v_) (Some (hash r)) r o)) True) nodes ->
  upd_ok s p (We count nodes) r o (node_update (We count nodes) s t r o).
Proof.
  intros Hwf Hr Ht IH. inversion Hwf as [|? ? ? ? Hs Hp Hc H8 Hch| |]; subst s0 p0 count0 nodes0.
  rewrite node_update_We, Ht. cbv zeta. pose proof (chunk_range (hash r) s) as Hu.
  set (u := Z.to_nat (chunk (hash r) s)) in *. assert (Z.of_nat u = chunk (hash r) s) as Equ by lia.
  rewrite (seq_around u) in Hch by lia.
  apply Forall2_app_inv_l in Hch as (E1 & E2' & H1 & H2' & ->).
  inversion H2' as [|? x ? E2 Hx H2 Hi Heq]. subst E2'. clear H2'.
  rewrite list_lookup_middle by (by rewrite (slots_length s p u E1 H1)).
  apply Forall_app in IH as [_ IH]. apply Forall_cons in IH as [IHx _].
  pose proof (We_put_ok s p r o Hs Hp Hr u Equ E1 E2 H1 H2 count x) as Hput.
  destruct (slots_fresh_around s p r Hs Hr u Equ E1 E2 H1 H2) as [Hf1 Hf2].
  destruct x as [d|]; cbn [from_option] in IHx.
  - rewrite andb_false_r. specialize (IHx u (Hx d eq_refl) eq_refl).
    destruct (out (node_update d (s + v_) (Some (hash r)) r o)) as [|x'| |] eqn:Hout.
    + unfold upd_ok in IHx. rewrite Hout in IHx. destruct IHx as (Ha & Hz & Hun).
      unfold We_finish, upd_ok. rewrite Hout. cbn [out didAlter didChangeSize]. split_and!; [done..|].
      rewrite entries_We. cbn [map concat opt_entries]. by apply unchanged_frame.
    + by eapply Hput.
    + by apply (We_remove_ok s p r o Hs Hp Hr u Equ E1 E2 H1 H2 count d).
    + unfold upd_ok in IHx. by rewrite Hout in IHx.
  - destruct o as [v|]; cbn [notSet negb andb].
    + eapply Hput; try done. by exists v.
    + apply same_ok. cbn [unchanged]. rewrite entries_We. by apply fresh_app.
Qed.

Lemma node_update_ok n : forall s p r o t,
  wf s p n -> (exists d, s = 5 * d) -> 0 <= s <= 35 -> 0 <= p < 2 ^ s ->
  u32 (hash r) mod 2 ^ s = p -> default (hash r) t = hash r ->
  upd_ok s p n r o (node_update n s t r o).
Proof.
  induction n as [l nodes IH|c nodes IH|h es|h e] using tnode_ind'; intros s p r o t Hwf [d Hd] Hs Hp Hr Ht.
  - inversion Hwf; subst s0 p0 l0 nodes0. apply He_update_ok; try done.
    eapply Forall_impl; [exact IH|]. cbn beta. intros x Hx i Hi ->. change v_ with 5. apply Hx; try done.
    + exists (d + 1). lia.
    + lia.
    + rewrite Z.pow_add_r by lia. pose proof (chunk_range (hash r) s). nia.
    + rewrite <- Hr, Z2Nat.id by apply chunk_range. apply chunk_extend. lia.
  - inversion Hwf; subst s0 p0 count nodes0. apply We_update_ok; try done.
    eapply Forall_impl; [exact IH|]. intros [x|] Hx; [|done]. cbn in *. intros i Hi ->. change v_ with 5. apply Hx; try done.
    + exists (d + 1). lia.
    + lia.
    + rewrite Z.pow_add_r by lia. pose proof (chunk_range (hash r) s). nia.
    + rewrite <- Hr, Z2Nat.id by apply chunk_range. apply chunk_extend. lia.
  - cbn [node_update]. rewrite Ht. apply Je_update_ok; eauto.
  - cbn [node_update]. apply Ye_update_ok; eauto.
Qed.

(** ** Lookup *)

Lemma node_get_He l (nodes : list (tnode K V)) e t n d :
  node_get (He l nodes) e t n d =
  (let t := default (hash n) t in
   let o := js_shl 1 (chunk t e) in
   if js_and l o =? 0 then Ok d
   else match nodes !! Z.to_nat (ut (js_and l (o - 1))) with
        | Some c => node_get c (e + v_) (Some t) n d
        | None => Throw TypeError
        end).
Proof.
  cbn [node_get]. cbv zeta. case_match; [done|].
  generalize (Z.to_nat (ut (js_and l (js_shl 1 (chunk (default (hash n) t) e) - 1)))) as f.
  induction nodes as [|c nodes IH]; intros [|f]; try done; apply IH.
Qed.

Lemma node_get_We count (nodes : list (option (tnode K V))) e t n d :
  node_get (We count nodes) e t n d =
  (let t := default (hash n) t in
   match nodes !! Z.to_nat (chunk t e) with
   | Some (Some c) => node_get c (e + v_) (Some t) n d
   | _ => Ok d
   end).
Proof.
  cbn [node_get]. cbv zeta. generalize (Z.to_nat (chunk (default (hash n) t) e)) as f.
  induction nodes as [|[c|] nodes IH]; intros [|f]; try done; apply IH.
Qed.

Lemma entries_get_frame A es B k d :
  fresh k A -> fresh k B -> entries_get (A ++ es ++ B) k d = entries_get es k d.
Proof.
  intros HA HB. rewrite !(entries_get_assoc _ _ d), !assoc_app, (assoc_fresh A), (assoc_fresh B) by done.
  by destruct (assoc es k).
Qed.

Lemma entries_get_fresh es k d : fresh k es -> entries_get es k d = d.
Proof. intros. by rewrite entries_get_assoc, assoc_fresh. Qed.

(** Looking a key up in the trie is looking it up in the list of entries. *)
Lemma node_get_ok n : forall s p k t d,
  wf s p n -> u32 (hash k) mod 2 ^ s = p -> default (hash k) t = hash k ->
  node_get n s t k d = Ok (entries_get (node_entries n) k d).
Proof.
  induction n as [l nodes IH|c nodes IH|h es|h e] using tnode_ind'; intros s p k t d Hwf Hk Ht; [| |done|].
  - inversion Hwf as [? ? ? ? Hs Hp Hl Hne Hone Hch| | |]; subst s0 p0 l0 nodes0.
    rewrite node_get_He, Ht. cbv zeta. pose proof (chunk_range (hash k) s) as Hu.
    rewrite <- (negb_involutive (_ =? 0)), has_bit, rank_spec, Nat2Z.id by done.
    rewrite (bits_split l (chunk (hash k) s)) in Hch by done.
    apply Forall2_app_inv_l in Hch as (A & B' & HA & HB' & ->).
    rewrite (Forall2_length _ _ _ HA). rewrite entries_He_app.
    pose proof (below_fresh s p l k Hs Hk _ eq_refl A HA) as HfA.
    destruct (Z.testbit l (chunk (hash k) s)) eqn:Hbit; cbn [negb].
    + inversion HB' as [|? x ? B Hx HB Hi Heq]. subst B'. clear HB'.
      pose proof (above_fresh s p l k Hs Hk _ eq_refl B HB) as HfB.
      rewrite list_lookup_middle by done. cbn [map concat]. rewrite entries_get_frame by done.
      apply Forall_app in IH as [_ IH]. apply Forall_cons in IH as [IHx _].
      eapply IHx; [exact Hx| |done].
      rewrite <- Hk, Z2Nat.id by apply chunk_range. apply chunk_extend. lia.
    + pose proof (above_fresh s p l k Hs Hk _ eq_refl B' HB') as HfB.
      rewrite entries_get_fresh; [done|]. by apply fresh_app.
  - inversion Hwf as [|? ? ? ? Hs Hp Hc H8 Hch| |]; subst s0 p0 count nodes0.
    rewrite node_get_We, Ht. cbv zeta. pose proof (chunk_range (hash k) s) as Hu.
    set (u := Z.to_nat (chunk (hash k) s)) in *. assert (Z.of_nat u = chunk (hash k) s) as Equ by lia.
    rewrite (seq_around u) in Hch by lia.
    apply Forall2_app_inv_l in Hch as (E1 & E2' & H1 & H2' & ->).
    inversion H2' as [|? x ? E2 Hx H2 Hi Heq]. subst E2'. clear H2'.
    rewrite list_lookup_middle by (by rewrite (slots_length s p u E1 H1)).
    destruct (slots_fresh_around s p k Hs Hk u Equ E1 E2 H1 H2) as [Hf1 Hf2].
    rewrite entries_We. cbn [map concat]. rewrite entries_get_frame by done.
    apply Forall_app in IH as [_ IH]. apply Forall_cons in IH as [IHx _].
    destruct x as [x|]; [|done]. eapply IHx; [by apply Hx| |done].
    rewrite Equ, <- Hk. apply chunk_extend. lia.
  - cbn. by destruct (is_ k e.1).
Qed.

(** ** Roots and maps *)

Definition wf_root (r : rootnode K V) : Prop :=
  match r with
  | Ve es => es <> [] /\ distinct es /\ Z.of_nat (length es) <= lt_
  | Trie n => wf 0 0 n
  end.

Definition wf_map (m : immap K V) : Prop :=
  size m = Z.of_nat (length (entries m)) /\
  match root m with Some r => wf_root r | None => True end.

Lemma u32_mod_1 h : u32 h mod 2 ^ 0 = 0.
Proof. apply Z.mod_1_r. Qed.

Lemma wf_root_distinct r : wf_root r -> distinct (root_entries r).
Proof. destruct r; cbn; [naive_solver|]. apply wf_distinct. Qed.

Lemma wf_map_distinct m : wf_map m -> distinct (entries m).
Proof. intros [_ H]. unfold entries. destruct (root m); [by apply wf_root_distinct|done]. Qed.

Lemma trie_update_ok n r o : wf 0 0 n -> upd_ok 0 0 n r o (node_update n 0 None r o).
Proof.
  intros Hwf. apply node_update_ok; first [done | apply u32_mod_1 | lia | exists 0; lia].
Qed.

Lemma create_nodes_ok es : forall (nd : tnode K V),
  wf 0 0 nd -> distinct (node_entries nd ++ es) ->
  exists nd', fold_left (fun o a =>
    match o with
    | New nd => match out (node_update nd 0 None a.1 (Some a.2)) with Same => New nd | x => x end
    | _ => Stuck
    end) es (New nd) = New nd' /\ wf 0 0 nd' /\ node_entries nd' ≡ₚ node_entries nd ++ es.
Proof.
  induction es as [|[k v] es IH]; intros nd Hwf Hd; cbn [fold_left].
  - exists nd. by rewrite app_nil_r.
  - pose proof (trie_update_ok nd k (Some v) Hwf) as Hok. cbn [fst snd].
    assert (fresh k (node_entries nd)) as Hf.
    { apply distinct_app in Hd as (_ & _ & Hd). eapply Forall_impl; [exact Hd|].
      cbn. intros e He. inversion_clear He. by rewrite is_sym. }
    unfold upd_ok in Hok. destruct (out (node_update nd 0 None k (Some v))) as [|nd1| |] eqn:Hout.
    + destruct Hok as (_ & _ & w & Hw & _). by rewrite assoc_fresh in Hw.
    + destruct Hok as (_ & Hwf1 & Hu).
      assert (node_entries nd1 ≡ₚ (k, v) :: node_entries nd) as Hp1.
      { destruct Hu as (old & rest & He & He' & Hold & _). rewrite He', He.
        destruct old as [|e old]; [done|]. eapply fresh_perm in Hf; [|exact He]. inversion_clear Hf. inversion_clear Hold. congruence. }
      destruct (IH nd1 Hwf1) as (nd' & -> & Hwf' & Hp').
      * eapply distinct_perm; [|exact Hd]. rewrite Hp1. solve_Permutation.
      * exists nd'. split_and!; [done..|]. rewrite Hp', Hp1. solve_Permutation.
    + by destruct Hok as (_ & _ & ? & _).
    + done.
Qed.

Definition root_ok (n : rootnode K V) (k : K) (o : option V) (x : upd (rootnode K V)) : Prop :=
  match out x with
  | Same => didAlter x = false /\ didChangeSize x = false /\ unchanged k o (root_entries n)
  | New n' =>
      didAlter x = true /\ wf_root n' /\
      updates k o (root_entries n) (root_entries n') (didChangeSize x)
  | Gone => didAlter x = true /\ updates k o (root_entries n) [] (didChangeSize x)
  | Stuck => False
  end.

Lemma sets_nothing_index es r o :
  sets_nothing es r o = false ->
  (entries_index es r < length es)%nat \/ (exists w, o = Some w) /\ fresh r es.
Proof.
  unfold sets_nothing. destruct (entries_index_cases es r) as [[Hf ->]|(pre & e & post & -> & -> & _)].
  - rewrite lookup_ge_None_2 by lia. destruct o; [eauto|done].
  - intros _. left. rewrite length_app. cbn. lia.
Qed.

Lemma Ve_update_ok es r o : wf_root (Ve es) -> root_ok (Ve es) r o (Ve_update es r o).
Proof.
  intros (Hne & Hd & Hlen). pose proof (entries_put_ok es r o Hd) as Hput.
  unfold Ve_update. fold (sets_nothing es r o).
  destruct (sets_nothing es r o) eqn:Hsn; [done|]. apply sets_nothing_index in Hsn.
  assert (forall sz, updates r o es (entries_put es (entries_index es r) r o) sz ->
    Z.of_nat (length (entries_put es (entries_index es r) r o)) <= lt_ ->
    entries_put es (entries_index es r) r o <> [] ->
    root_ok (Ve es) r o (Upd (New (Ve (entries_put es (entries_index es r) r o))) true sz)) as Hkeep.
  { intros sz Hu Hle Hnn. unfold root_ok. cbn. split_and!; try done. by eapply updates_distinct. }
  pose proof (updates_length _ _ _ _ _ Hput) as Hl. destruct o as [w|]; cbn [notSet orb negb] in *.
  - destruct (entries_index es r <? length es)%nat eqn:Hf; cbn [negb andb] in *.
    + apply Hkeep; try done; [lia|]. intros E. rewrite E in Hl. destruct es; cbn in *; [done|lia].
    + destruct Hsn as [Hsn|[_ Hfr]]; [apply Nat.ltb_ge in Hf; lia|].
      destruct (Z.leb_spec lt_ (Z.of_nat (length es))).
      * destruct (create_nodes_ok es (Ye (hash r) (r, w))) as (nd & Hnd & Hwf & Hp).
        -- constructor; [done|apply u32_mod_1].
        -- done.
        -- unfold create_nodes. rewrite Hnd. unfold root_ok. cbn. split_and!; [done..|].
           eapply updates_perm; [done|symmetry; exact Hp|]. by apply updates_new.
      * apply Hkeep; try done; [lia|]. intros E. rewrite E in Hl. cbn in Hl. lia.
  - destruct Hsn as [Hsn|[[? [=]] _]].
    destruct (Nat.eqb_spec (length es) 1) as [E1|E1]; cbn [negb].
    + unfold root_ok. cbn. split; [done|]. eapply updates_perm; [done| |exact Hput].
      destruct (entries_put es (entries_index es r) r None); [done|]. cbn in Hl. lia.
    + apply Hkeep; try done; [lia|]. intros E. rewrite E in Hl. destruct es as [|? [|? ?]]; cbn in *; try done; lia.
Qed.

Lemma root_update_ok n r o : wf_root n -> root_ok n r o (root_update n 0 None r o).
Proof.
  destruct n as [es|n]; [apply Ve_update_ok|]. intros Hwf. cbn in Hwf.
  pose proof (trie_update_ok n r o Hwf) as Hok. unfold root_ok, upd_ok in *. cbn [root_update out didAlter didChangeSize].
  destruct (out (node_update n 0 None r o)); cbn; naive_solver.
Qed.

Lemma root_get_ok n k d : wf_root n -> root_get n 0 None k d = Ok (entries_get (root_entries n) k d).
Proof.
  destruct n; [done|]. cbn. intros Hwf. by eapply node_get_ok; [|apply u32_mod_1|].
Qed.

(** Setting or removing a key, on maps. *)
Lemma Qe_ok m k o :
  wf_map m ->
  exists m', Qe m k o = Some m' /\ wf_map m' /\
    (m' = m /\ unchanged k o (entries m) \/ exists sz, updates k o (entries m) (entries m') sz).
Proof.
  intros Hm. pose proof Hm as [Hsz Hroot]. unfold Qe, entries in *.
  destruct (root m) as [rt|] eqn:Hrt; cbn [root_entries] in *.
  - pose proof (root_update_ok rt k o Hroot) as Hok. unfold root_ok in Hok.
    destruct (out (root_update rt 0 None k o)) as [|n'| |]; [..|done].
    + destruct Hok as (-> & _ & Hun). exists m. split; [done|]. split; [done|]. rewrite Hrt. by left.
    + destruct Hok as (-> & Hwf & Hu). eexists. split; [done|]. cbn [negb]. split; [|right; by eexists].
      split; [|done]. unfold entries. cbn. rewrite (updates_length _ _ _ _ _ Hu), Hsz. done.
    + destruct Hok as (-> & Hu). exists Xe. split; [done|]. split; [done|]. right. by eexists.
  - destruct o as [w|].
    + eexists. split; [done|]. split.
      * split; [done|]. cbn. split_and!; try done. by repeat constructor.
      * right. exists true. cbn. apply updates_new. constructor.
    + exists m. split; [done|]. split; [done|]. rewrite Hrt. left. split; [done|]. constructor.
Qed.

End TrieFacts.
