(* ===== verification/ImMapIter.v ===== *)
(** * Immutable: iteration over Map

    [__iterate] and the iterator [Ke] visit the entries of the trie, each once,
    in the order of [ImMapFacts.entries] or in the reverse order. *)

From S2P Require Import Prelude ImBits ImMap ImMapFacts.
Local Open Scope Z_scope.

Section Iteration.
Context {K V : Type}.
Implicit Types (n : tnode K V) (m : immap K V).

Definition ordered {A} (t : bool) (l : list A) : list A := if t then rev l else l.

Lemma ordered_length {A} (t : bool) (l : list A) : length (ordered t l) = length l.
Proof. destruct t; cbn; [apply length_rev|done]. Qed.

Lemma rev_reverse {A} (l : list A) : rev l = reverse l.
Proof. apply rev_alt. Qed.

Lemma ordered_lookup {A} (t : bool) (l : list A) (o : nat) :
  (o < length l)%nat ->
  l !! (if t then (length l - 1 - o)%nat else o) = ordered t l !! o.
Proof.
  intros Ho. destruct t; [|done]. cbn. rewrite rev_reverse.
  rewrite reverse_lookup by done. f_equal. lia.
Qed.

Lemma ordered_concat {A B} t (f : A -> list B) (l : list A) :
  ordered t (concat (map f l)) = concat (map (fun x => ordered t (f x)) (ordered t l)).
Proof.
  destruct t; cbn; [|done]. induction l as [|x l IH]; cbn; [done|].
  by rewrite rev_app_distr, IH, map_app, concat_app; cbn; rewrite app_nil_r.
Qed.

(** ** [__iterate] *)

Lemma node_iterate_each {S} (fn : K * V -> S -> S * bool) t n : forall st,
  node_iterate fn t n st = each fn (ordered t (node_entries n)) st.
Proof.
  induction n as [l p IH|c l IH|h s|h e] using tnode_ind'; intros st.
  - cbn. destruct t; cbn; revert st; induction IH as [|x p Hx IH' IHp]; intros st; cbn; try done.
    + rewrite rev_app_distr, each_app, <- IHp. case_match; case_match; [done|]. by rewrite Hx.
    + rewrite each_app, Hx. cbn. case_match; case_match; [done|]. apply IHp.
  - cbn. destruct t; cbn; revert st; induction IH as [|[x|] l Hx IH' IHp]; intros st; cbn; try done.
    + rewrite rev_app_distr, each_app, <- IHp. case_match; case_match; [done|]. by rewrite Hx.
    + rewrite each_app, Hx. cbn. case_match; case_match; [done|]. apply IHp.
  - by destruct t.
  - destruct t; cbn; by destruct (fn e st) as [? []].
Qed.

Lemma root_iterate_each {S} (fn : K * V -> S -> S * bool) t (r : rootnode K V) st :
  root_iterate fn t r st = each fn (ordered t (root_entries r)) st.
Proof. destruct r; [done|]. apply node_iterate_each. Qed.

(** ** The iterator *)

(** [Yields t st es st']: turning the loop of [next] from the stack [st] gives
    the entries [es] and reaches [st']. *)
Inductive Yields (t : bool) : list (rootnode K V * nat) -> list (K * V) -> list (rootnode K V * nat) -> Prop :=
| Yields_refl st : Yields t st [] st
| Yields_more st st' es st'' : Ke_turn t st = More st' -> Yields t st' es st'' -> Yields t st es st''
| Yields_yield st e st' es st'' : Ke_turn t st = Yield e st' -> Yields t st' es st'' -> Yields t st (e :: es) st''.

Lemma Yields_trans t a es b es' c : Yields t a es b -> Yields t b es' c -> Yields t a (es ++ es') c.
Proof. induction 1; cbn; eauto using Yields_more, Yields_yield. Qed.

(** Enough calls of [next], each with enough turns, give all the entries. *)
Lemma Yields_collect t st es : Yields t st es [] ->
  exists n0 : nat, forall fuel, (n0 <= fuel)%nat ->
    forall calls, (length es < calls)%nat -> Ke_collect calls fuel t st = Some es.
Proof.
  intros H. remember [] as fin eqn:Hfin.
  enough (exists n0 : nat, forall big, (n0 <= big)%nat -> forall calls, (length es < calls)%nat ->
    forall fuel, (n0 <= fuel)%nat ->
    match Ke_next fuel t st with
    | None => None
    | Some (None, _) => Some []
    | Some (Some e, stack) => option_map (cons e) (Ke_collect (Nat.pred calls) big t stack)
    end = Some es) as [n0 Hn0].
  { exists n0. intros fuel Hf [|calls] Hc; [lia|]. cbn. by apply (Hn0 fuel Hf (S calls)). }
  induction H as [st|st st' es st'' Ht Hy IH|st e st' es st'' Ht Hy IH]; subst.
  - exists 1%nat. intros big Hbig calls Hc [|fuel] Hf; [lia|done].
  - destruct (IH eq_refl) as [n0 Hn0]. exists (S n0). intros big Hbig calls Hc [|fuel] Hf; [lia|].
    cbn. rewrite Ht. apply Hn0; lia.
  - destruct (IH eq_refl) as [n0 Hn0]. exists (S n0). intros big Hbig calls Hc [|fuel] Hf; [lia|].
    cbn [Ke_next]. rewrite Ht. cbn in Hc. destruct calls as [|[|calls]]; [lia..|]. cbn [Nat.pred].
    cbn [Ke_collect]. pose proof (Hn0 big ltac:(lia) (S calls) ltac:(lia) big ltac:(lia)) as Hrest.
    cbn [Nat.pred] in Hrest. by rewrite Hrest.
Qed.

(** Reading the entries of a node from position [o] on, then leaving it. *)
Lemma Yields_entries t (r : rootnode K V) es st :
  (r = Ve es \/ exists h, r = Trie (Je h es)) ->
  forall o, (o <= length es)%nat -> Yields t ((r, o) :: st) (drop o (ordered t es)) st.
Proof.
  intros Hr o Ho. remember (length es - o)%nat as d eqn:Hd. revert o Ho Hd.
  induction d as [|d IH]; intros o Ho Hd.
  - rewrite drop_ge by (rewrite ordered_length; lia). eapply Yields_more; [|constructor].
    destruct Hr as [->|[h ->]]; cbv beta zeta iota delta [Ke_turn]; by rewrite (proj2 (Nat.ltb_ge _ _)) by lia.
  - destruct (lookup_lt_is_Some_2 (ordered t es) o) as [e He]; [rewrite ordered_length; lia|].
    rewrite (drop_S _ _ _ He). eapply Yields_yield; [|apply (IH (S o)); lia].
    rewrite <- ordered_lookup in He by lia.
    destruct Hr as [->|[h ->]]; cbv beta zeta iota delta [Ke_turn]; rewrite (proj2 (Nat.ltb_lt _ _)) by lia; by rewrite He.
Qed.

(** Visiting the children of a node from position [o] on.  [cs] are the
    children as the loop reads them. *)
Definition children (n : tnode K V) : list (option (tnode K V)) :=
  match n with He _ p => Some <$> p | We _ l => l | _ => [] end.

Definition inner (n : tnode K V) : Prop := match n with He _ _ | We _ _ => True | _ => False end.

Lemma inner_entries n : inner n -> node_entries n = concat (map opt_entries (children n)).
Proof. destruct n as [l p|c l|h s|h e]; cbn; try done. intros _. by rewrite map_map. Qed.

Lemma inner_turn t n o st : inner n -> (o <= length (children n))%nat ->
  Ke_turn t ((Trie n, o) :: st) =
  match ordered t (children n) !! o with
  | None => More st
  | Some (Some (Ye _ e)) => Yield e ((Trie n, S o) :: st)
  | Some (Some x) => More ((Trie x, O) :: (Trie n, S o) :: st)
  | Some None => More ((Trie n, S o) :: st)
  end.
Proof.
  intros Hi Ho. destruct (decide (o = length (children n))) as [->|Hne].
  - rewrite lookup_ge_None_2 by (rewrite ordered_length; lia).
    destruct n as [l p|c l|h s|h e]; try done; cbn [children]; cbv beta zeta iota delta [Ke_turn];
      by rewrite ?length_fmap, Nat.ltb_irrefl.
  - rewrite <- ordered_lookup by lia.
    destruct n as [l p|c l|h s|h e]; try done; cbn [children] in *; cbv beta zeta iota delta [Ke_turn];
      rewrite ?length_fmap in *;
      rewrite (proj2 (Nat.ltb_lt _ _)) by lia.
    + rewrite list_lookup_fmap. destruct (lookup_lt_is_Some_2 p (if t then (length p - 1 - o)%nat else o)) as [x Hx].
      { destruct t; lia. }
      by rewrite Hx.
    + destruct (lookup_lt_is_Some_2 l (if t then (length l - 1 - o)%nat else o)) as [x Hx].
      { destruct t; lia. }
      by rewrite Hx.
Qed.

Lemma Yields_children t n st : inner n ->
  Forall (from_option (fun x => forall st, Yields t ((Trie x, O) :: st) (ordered t (node_entries x)) st) True) (children n) ->
  Yields t ((Trie n, O) :: st) (ordered t (node_entries n)) st.
Proof.
  intros Hi HIH. rewrite inner_entries, ordered_concat by done.
  assert (Forall (from_option (fun x => forall st, Yields t ((Trie x, O) :: st) (ordered t (node_entries x)) st) True)
    (ordered t (children n))) as HIH'.
  { destruct t; cbn; [|done]. rewrite rev_reverse. by apply Forall_reverse. }
  clear HIH. enough (forall o, (o <= length (children n))%nat ->
    Yields t ((Trie n, o) :: st) (concat (map (fun x => ordered t (opt_entries x)) (drop o (ordered t (children n))))) st) as H.
  { apply (H O). lia. }
  intros o Ho. remember (length (children n) - o)%nat as d eqn:Hd. revert o Ho Hd.
  induction d as [|d IH]; intros o Ho Hd; pose proof (inner_turn t n o st Hi Ho) as Hturn.
  - rewrite drop_ge by (rewrite ordered_length; lia).
    rewrite lookup_ge_None_2 in Hturn by (rewrite ordered_length; lia). by eapply Yields_more; [|constructor].
  - destruct (lookup_lt_is_Some_2 (ordered t (children n)) o) as [x Hx]; [rewrite ordered_length; lia|].
    rewrite (drop_S _ _ _ Hx). rewrite Hx in Hturn. cbn [map concat].
    pose proof (Forall_lookup_1 _ _ _ _ HIH' Hx) as Hsub.
    specialize (IH (S o) ltac:(lia) ltac:(lia)).
    destruct x as [x|]; cbn in Hsub.
    + destruct x as [l p|c l|h s|h e];
        try (eapply Yields_more; [exact Hturn|]; by eapply Yields_trans).
      replace (ordered t (opt_entries (Some (Ye h e)))) with [e] by (by destruct t).
      cbn. by eapply Yields_yield.
    + eapply Yields_more; [exact Hturn|]. by destruct t.
Qed.

Lemma Yields_node t n : forall st, Yields t ((Trie n, O) :: st) (ordered t (node_entries n)) st.
Proof.
  induction n as [l p IH|c l IH|h s|h e] using tnode_ind'; intros st.
  - apply Yields_children; [done|]. cbn. by apply Forall_fmap.
  - apply Yields_children; [done|]. cbn. eapply Forall_impl; [exact IH|]. by intros [x|].
  - apply (Yields_entries t (Trie (Je h s)) s st); [right; by exists h|lia].
  - replace (ordered t (node_entries (Ye h e))) with [e] by (by destruct t).
    eapply Yields_yield; [done|]. eapply Yields_more; [done|]. constructor.
Qed.

Lemma Yields_map t m : Yields t (Ke_new m) (ordered t (entries m)) [].
Proof.
  unfold Ke_new, entries. destruct (root m) as [[s|n]|].
  - apply (Yields_entries t (Ve s) s []); [by left|lia].
  - apply Yields_node.
  - destruct t; constructor.
Qed.

(** [__iterate] runs its callback on the entries, and counts the calls. *)
Lemma iterate_each {S} m (e : V -> K -> S -> S * bool) t st :
  __iterate m e t st =
  fst (each (fun en '(st, r) => let '(st', stop) := e en.2 en.1 st in ((st', r + 1), stop))
         (ordered t (entries m)) (st, 0)).
Proof.
  unfold __iterate, entries. destruct (root m); [by rewrite root_iterate_each|by destruct t].
Qed.

End Iteration.
