(* ===== verification/ImMapSpec.v ===== *)
(** * Immutable: Map is a finite map

    The operations of [ImMap] against the lookup function of a map: what
    [get], [set], [remove], [merge], [__iterate] and the iterator do, for every
    map the operations can build.  [value_key] makes the values of [ImHash] a
    key type, with [Immutable.is] and the hash function of the library. *)

From Stdlib Require Import SpecFloat.
From stdpp Require Import gmap.
From S2P Require Import Prelude ImHash ImBits ImMap ImMapFacts ImMapIter.
Local Open Scope Z_scope.

Section Spec.
Context {K V : Type} `{HK : HashKey K} `{SV : StrictEq V}.
Implicit Types (m : immap K V) (es : list (K * V)).

(** The map as a function. *)
Definition lookup_in m (k : K) : option V := assoc (entries m) k.

(** [w] is what writing [o] leaves: [o] itself, or the value that was there if
    that was strictly equal to it. *)
Definition writes (o w : option V) : Prop :=
  match o, w with
  | Some v, Some w => w = v \/ veq w v = true
  | None, None => True
  | _, _ => False
  end.

(** How much a write changes the size. *)
Definition growth (old new : option V) : Z :=
  match old, new with None, Some _ => 1 | Some _, None => -1 | _, _ => 0 end.

Lemma get_lookup m k d :
  wf_map m -> get m k d = Ok (match lookup_in m k with Some w => Some w | None => d end).
Proof.
  intros [_ Hroot]. unfold get, lookup_in, entries.
  destruct (root m) as [rt|]; [|done]. by rewrite root_get_ok, entries_get_assoc.
Qed.

Lemma assoc_is es k k' : is_ k k' = true -> assoc es k = assoc es k'.
Proof.
  intros Hk. unfold assoc. induction es as [|e es IH]; cbn; [done|].
  assert (is_ k e.1 = is_ k' e.1) as ->; [|by rewrite IH].
  destruct (is_ k' e.1) eqn:E; [by eapply is_trans|by eapply is_false_trans].
Qed.

Lemma updates_growth k o es es' sz :
  updates k o es es' sz -> distinct es ->
  Z.of_nat (length es') = Z.of_nat (length es) + growth (assoc es k) o.
Proof.
  intros (old & rest & He & He' & Ho & Hl & Hf & _) Hd.
  rewrite (assoc_perm es _ k Hd He), assoc_app, (assoc_fresh rest k Hf).
  apply Permutation_length in He, He'. rewrite length_app in He, He'.
  destruct old as [|e [|? ?]]; [| |cbn in Hl; lia].
  - destruct o; cbn in *; lia.
  - apply Forall_cons in Ho as [Hke _]. unfold assoc. cbn. rewrite Hke. destruct o; cbn in *; lia.
Qed.

(** Setting ([Some v]) or removing ([None]) a key. *)
Lemma Qe_lookup m k o : wf_map m ->
  exists m', Qe m k o = Some m' /\ wf_map m' /\
    (forall k', if is_ k' k then writes o (lookup_in m' k') else lookup_in m' k' = lookup_in m k') /\
    size m' = size m + growth (lookup_in m k) o.
Proof.
  intros Hm. pose proof (wf_map_distinct m Hm) as Hd.
  destruct (Qe_ok m k o Hm) as (m' & Hq & Hm' & Hcase). exists m'. split; [done|]. split; [done|].
  unfold lookup_in. destruct Hcase as [[-> Hun]|[sz Hu]].
  - split.
    + intros k'. destruct (is_ k' k) eqn:E; [|done]. rewrite (assoc_is _ _ _ E).
      destruct o as [v|]; cbn in Hun.
      * destruct Hun as (w & -> & Hw). by right.
      * by rewrite (assoc_fresh _ _ Hun).
    + destruct o as [v|]; cbn in Hun.
      * destruct Hun as (w & -> & Hw). cbn. lia.
      * rewrite (assoc_fresh _ _ Hun). cbn. lia.
  - split.
    + intros k'. rewrite (updates_assoc _ _ _ _ _ k' Hu Hd). destruct (is_ k' k); [|done].
      destruct o; cbn; auto.
    + rewrite (proj1 Hm), (proj1 Hm'). by eapply updates_growth.
Qed.

(** ** Every map the operations build *)

(** A write: a key with a value to set, or [None] to remove it. *)
Definition op : Type := K * option V.

Definition step (m : option (immap K V)) (o : op) : option (immap K V) :=
  match m with None => None | Some m => Qe m o.1 o.2 end.

Definition run (ops : list op) : option (immap K V) := fold_left step ops (Some Xe).

(** The last write to a key decides. *)
Definition spec (ops : list op) (k : K) : option V :=
  fold_left (fun w (o : op) => if is_ k o.1 then o.2 else w) ops None.

Lemma run_snoc ops o : run (ops ++ [o]) = step (run ops) o.
Proof. unfold run. by rewrite fold_left_app. Qed.

Lemma run_ok ops : exists m, run ops = Some m /\ wf_map m /\ forall k, writes (spec ops k) (lookup_in m k).
Proof.
  induction ops as [|[k o] ops (m & Hrun & Hm & Hlook)] using rev_ind.
  - exists Xe. split; [done|]. split; [done|]. done.
  - rewrite run_snoc, Hrun. destruct (Qe_lookup m k o Hm) as (m' & Hq & Hm' & Hlook' & _).
    exists m'. split; [exact Hq|]. split; [done|]. intros k'. unfold spec. rewrite fold_left_app. cbn.
    specialize (Hlook' k'). destruct (is_ k' k); [done|]. rewrite Hlook'. apply Hlook.
Qed.

Lemma assoc_elem es k v : assoc es k = Some v -> exists k', (k', v) ∈ es /\ is_ k k' = true.
Proof.
  unfold assoc. induction es as [|[k' w] es IH]; cbn; [done|].
  destruct (is_ k k') eqn:E.
  - intros [= ->]. exists k'. split; [left|done].
  - intros (k'' & Hin & Hk)%IH. exists k''. split; [by right|done].
Qed.

Lemma elem_assoc es k k' v : distinct es -> (k', v) ∈ es -> is_ k k' = true -> assoc es k = Some v.
Proof.
  unfold assoc. induction es as [|[k0 w] es IH]; cbn; [by intros _ ?%not_elem_of_nil|].
  intros [Hfr Hd] Hin Hk. apply elem_of_cons in Hin as [[= -> ->]|Hin]; [by rewrite Hk|].
  assert (is_ k k0 = false) as ->; [|by apply IH].
  unfold fresh in Hfr. rewrite Forall_forall in Hfr. pose proof (Hfr _ Hin) as Hno. cbn in Hno.
  destruct (is_ k k0) eqn:E; [|done]. rewrite is_sym in E. by rewrite (is_trans _ _ _ E Hk) in Hno.
Qed.

(** ** Iteration with early exit *)

(** The elements of a list up to the first one that satisfies [p], included. *)
Fixpoint upto {A} (p : A -> bool) (l : list A) : list A :=
  match l with [] => [] | x :: l' => x :: if p x then [] else upto p l' end.

Lemma each_upto {A} (p : A -> bool) l : forall acc r,
  each (fun en '(st, r) => let '(st', stop) := (st ++ [en], p en) in ((st', r + 1), stop)) l (acc, r) =
  (acc ++ upto p l, r + Z.of_nat (length (upto p l)), existsb p l).
Proof.
  induction l as [|x l IH]; intros acc r; cbn [each upto existsb].
  - by rewrite app_nil_r, Z.add_0_r.
  - destruct (p x); [done|]. rewrite IH, <- app_assoc. cbn [length app orb].
    by replace (r + 1 + Z.of_nat (length (upto p l))) with (r + Z.of_nat (S (length (upto p l)))) by lia.
Qed.

(** ** Merging *)

Definition combine (t : option (V -> V -> K -> V)) (w : option V) (en : K * V) : V :=
  match t, w with Some t, Some w => t w en.2 en.1 | _, _ => en.2 end.

Definition merged (t : option (V -> V -> K -> V)) (w : option V) m (k : K) : option V :=
  match lookup_in m k with Some v => Some (combine t w (k, v)) | None => w end.

Lemma each_fold {A S} (f : A -> S -> S) l s : each (fun x s => (f x s, false)) l s = (fold_left (fun s x => f x s) l s, false).
Proof. revert s. induction l as [|x l IH]; intros s; cbn; [done|]. apply IH. Qed.

Lemma iterate_fold {S} m (f : K * V -> S -> S) s :
  fst (__iterate m (fun v k s => (f (k, v) s, false)) false s) = fold_left (fun s en => f en s) (entries m) s.
Proof.
  rewrite iterate_each. cbn [ordered]. generalize 0. revert s.
  induction (entries m) as [|[k v] es IH]; intros s z; cbn; [done|]. apply IH.
Qed.

Section Merge.
Context (Hid : forall v w : V, veq v w = true -> v = w).
Context (t : option (V -> V -> K -> V)).
Context (Ht : forall k k' w v, is_ k k' = true -> combine t (Some w) (k, v) = combine t (Some w) (k', v)).

Lemma writes_id o w : writes o w -> w = o.
Proof using Hid. destruct o, w; cbn; try done. intros [->|H%Hid]; congruence. Qed.

Lemma at_put_ok m k v : wf_map m ->
  exists m', at_put t (k, v) (Some m) = Some m' /\ wf_map m' /\
    forall k', lookup_in m' k' = if is_ k' k then Some (combine t (lookup_in m k) (k, v)) else lookup_in m k'.
Proof using Hid.
  clear Ht. intros Hm.
  assert (forall x, exists m', set m k x = Some m' /\ wf_map m' /\
    forall k', lookup_in m' k' = if is_ k' k then Some x else lookup_in m k') as Hset.
  { intros x. destruct (Qe_lookup m k (Some x) Hm) as (m' & Hq & Hm' & Hl & _).
    exists m'. split; [done|]. split; [done|]. intros k'. specialize (Hl k').
    destruct (is_ k' k); [by apply writes_id|done]. }
  unfold at_put, combine. destruct t as [t'|]; [|apply Hset].
  unfold update. cbn [fst snd]. rewrite (get_lookup m k None Hm). cbn.
  destruct (lookup_in m k) as [w|] eqn:Hw; [|apply Hset].
  assert (forall x, x = w -> exists m', Some m = Some m' /\ wf_map m' /\
    forall k', lookup_in m' k' = if is_ k' k then Some x else lookup_in m k') as Hkeep.
  { intros x ->. exists m. split; [done|]. split; [done|]. intros k'.
    destruct (is_ k' k) eqn:E; [|done]. rewrite <- Hw. unfold lookup_in. by apply assoc_is. }
  destruct (veq (t' w v k) w) eqn:E; cbn.
  - destruct (veq w w); [by apply Hkeep, Hid|]. rewrite (Hid _ _ E). apply Hset.
  - rewrite E. apply Hset.
Qed.

Lemma put_all_ok es : forall m, distinct es -> wf_map m ->
  exists m', fold_left (fun s en => at_put t en s) es (Some m) = Some m' /\ wf_map m' /\
    forall k, lookup_in m' k =
      match assoc es k with Some v => Some (combine t (lookup_in m k) (k, v)) | None => lookup_in m k end.
Proof using Hid Ht.
  induction es as [|[k v] es IH]; intros m Hd Hm.
  - by exists m.
  - destruct Hd as [Hfr Hd]. destruct (at_put_ok m k v Hm) as (m1 & Hput & Hm1 & Hl1).
    cbn [fold_left]. rewrite Hput. destruct (IH m1 Hd Hm1) as (m' & Hfold & Hm' & Hl').
    exists m'. split; [done|]. split; [done|]. intros k'. rewrite Hl', Hl1. unfold assoc at 2. cbn.
    destruct (is_ k' k) eqn:E; [|done].
    assert (assoc es k' = None) as ->. { apply assoc_fresh. by eapply fresh_is. }
    assert (lookup_in m k = lookup_in m k') as ->. { symmetry. by apply assoc_is. }
    destruct (lookup_in m k') as [w|]; [|by destruct t]. f_equal. apply Ht. by rewrite is_sym.
Qed.

Lemma merge_all_ok n : forall m, Forall wf_map n -> wf_map m ->
  exists m', fold_left (fun e m => fst (__iterate m (fun v k e => (at_put t (k, v) e, false)) false e)) n (Some m) = Some m' /\
    wf_map m' /\ forall k, lookup_in m' k = fold_left (fun w m => merged t w m k) n (lookup_in m k).
Proof using Hid Ht.
  induction n as [|m0 n IH]; intros m Hn Hm; cbn [fold_left]; [by exists m|].
  apply Forall_cons in Hn as [Hm0 Hn]. rewrite iterate_fold.
  destruct (put_all_ok (entries m0) m (wf_map_distinct m0 Hm0) Hm) as (m1 & Hfold & Hm1 & Hl1).
  rewrite Hfold. destruct (IH m1 Hn Hm1) as (m' & Hrest & Hm' & Hl').
  exists m'. split; [done|]. split; [done|]. intros k. rewrite Hl', Hl1. done.
Qed.

Lemma size_0_lookup m k : wf_map m -> size m = 0 -> lookup_in m k = None.
Proof. intros [Hsz _] H0. unfold lookup_in. destruct (entries m); [done|cbn in Hsz; lia]. Qed.

Lemma merged_filter n k : Forall wf_map n -> forall w,
  fold_left (fun w m => merged t w m k) n w =
  fold_left (fun w m => merged t w m k) (List.filter (fun e => negb (size e =? 0)) n) w.
Proof.
  induction 1 as [|m n Hm Hn IH]; intros w; cbn; [done|].
  destruct (Z.eqb_spec (size m) 0) as [E|E]; cbn; [|apply IH].
  rewrite <- IH. f_equal. unfold merged. by rewrite size_0_lookup.
Qed.

Lemma at_ok m n : wf_map m -> Forall wf_map n ->
  exists m', at_ m t n = Some m' /\ wf_map m' /\
    forall k, lookup_in m' k = fold_left (fun w m => merged t w m k) n (lookup_in m k).
Proof using Hid Ht.
  intros Hm Hn. unfold at_.
  assert (Forall wf_map (List.filter (fun e => negb (size e =? 0)) n)) as Hf.
  { apply List.Forall_forall. intros x [Hx _]%filter_In. rewrite List.Forall_forall in Hn. by apply Hn. }
  setoid_rewrite (fun k => merged_filter n k Hn).
  destruct (List.filter _ n) as [|n0 n']; [by exists m|]. case_match eqn:Hc; [by apply merge_all_ok|].
  apply orb_false_iff in Hc as [Hc1%negb_false_iff%Z.eqb_eq Hc2%negb_false_iff%Z.eqb_eq].
  destruct n' as [|? ?]; [|cbn in Hc2; lia]. apply Forall_cons in Hf as [Hn0 _].
  exists n0. split; [done|]. split; [done|]. intros k. cbn. rewrite (size_0_lookup m k Hm Hc1).
  unfold merged, combine. destruct (lookup_in n0 k); [by destruct t|done].
Qed.

End Merge.
End Spec.

(** ** The values of the library as keys *)

(** The hash of a value once objects have their identifiers, for every value
    for which [Ce] returns a number ([Ce_value_hash]).  For the string
    propertyIsEnumerable it returns a function ([ImHash.hash_inherited_name]):
    for keys among which that string is, this is not the hash of the code. *)
Definition value_hash (ids : nat -> Z) (v : value) : Z :=
  match v with
  | Undefined | Null => 0
  | Bool b => if b then 1 else 0
  | Num f => hash_number f
  | Str s => ke s
  | Obj r => i32 (ids r)
  end.

Lemma hash_number_int32 f : isInt32 (hash_number f).
Proof.
  unfold hash_number, isInt32. case_match; [lia|].
  match goal with |- _ <= Se ?e < _ => pose proof (Se_range e) end. lia.
Qed.

Lemma value_hash_int32 ids v : isInt32 (value_hash ids v).
Proof.
  destruct v as [| |[]|f|s|r]; cbn; try (unfold isInt32; lia); [apply hash_number_int32| |apply i32_range].
  unfold isInt32, ke. pose proof (Se_range (fold_left (fun t c => js_or (31 * t + c) 0) s 0)). lia.
Qed.

Lemma value_hash_is ids a b : he a b = true -> value_hash ids a = value_hash ids b.
Proof.
  intros [->|(s & s' & -> & ->)]%he_cases; [done|]. destruct s, s'; vm_compute; reflexivity.
Qed.

Lemma he_refl a : he a a = true.
Proof. rewrite he_eq. apply sameValue_refl. Qed.

Lemma he_sym a b : he a b = he b a.
Proof. apply eq_true_iff_eq. rewrite !he_cases. naive_solver. Qed.

Lemma he_trans a b c : he a b = true -> he b c = true -> he a c = true.
Proof. rewrite !he_cases. naive_solver. Qed.

Definition value_key (ids : nat -> Z) : HashKey value := {|
  is_ := he;
  hash := value_hash ids;
  is_refl := he_refl;
  is_sym := he_sym;
  is_trans := he_trans;
  is_hash := value_hash_is ids;
  hash_int32 := value_hash_int32 ids
|}.

(** Keys with the identifiers 1, 2, ... for the objects 0, 1, ... *)
#[local] Instance value_key_ids : HashKey value := value_key (fun r => Z.of_nat r + 1).

#[export] Instance value_strict : StrictEq value := {| veq := strictEq; veq_sym := strictEq_sym |}.

#[local] Instance Z_strict : StrictEq Z := {| veq := Z.eqb; veq_sym := Z.eqb_sym |}.

(** The hash function of the library gives the hash of the key type. *)
Lemma Ce_value_hash ids st st' v h :
  hreach st -> Ce st v = (Some h, st') -> (forall r, Pe st' !! r = Some (ids r) \/ v <> Obj r) ->
  value_hash ids v = h.
Proof.
  intros Hst%hreach_inv Hh Hids. pose proof (Ce_inv st v Hst) as Hst'. rewrite Hh in Hst'.
  destruct v as [| |b|f|s|r]; cbn in *; try congruence.
  - symmetry. by apply (Ce_str st s h st').
  - destruct (Hids r) as [Hr|Hr]; [|done]. pose proof (hinv_ids _ Hst' _ _ Hr).
    rewrite i32_id by (unfold isInt32; lia). unfold hash_object in Hh. destruct (Pe st !! r) eqn:E; simplify_eq.
    + congruence.
    + cbn in Hr. rewrite lookup_insert_eq in Hr. congruence.
Qed.

(** ** The properties *)

Section Claims.
Context {K V : Type} `{HK : HashKey K} `{SV : StrictEq V}.

(** C6: a map built from the empty map by any sequence of [set] and [remove]
    is never stuck or throws, reads at every key what the last write to an
    equal key left there, has as size the number of its entries, and no two
    of its entries have equal keys. *)
Theorem map_refines (ops : list (K * option V)) :
  exists m, run ops = Some m /\
    (forall k d, exists w, get m k d = Ok w /\
       match spec ops k with Some v => writes (Some v) w | None => w = d end) /\
    size m = Z.of_nat (length (entries m)) /\ distinct (entries m).
Proof.
  destruct (run_ok ops) as (m & Hrun & Hm & Hlook). exists m. split; [done|]. split.
  - intros k d. rewrite (get_lookup m k d Hm). eexists. split; [done|]. specialize (Hlook k).
    destruct (spec ops k); destruct (lookup_in m k); done.
  - split; [apply Hm|]. by apply wf_map_distinct.
Qed.

(** On a well-formed map [set] returns a well-formed map that reads the new
    value (or a strictly equal one already there) at every key equal to [k] and
    is unchanged elsewhere; it grows by one exactly when [k] was absent. *)
Theorem set_correct (m : immap K V) (k : K) (v : V) (Hm : wf_map m) :
  exists m', set m k v = Some m' /\ wf_map m' /\
    (forall k' d, exists w, get m' k' d = Ok w /\
       if is_ k' k then writes (Some v) w else get m k' d = Ok w) /\
    has m k = Ok (negb (size m' =? size m + 1)).
Proof.
  destruct (Qe_lookup m k (Some v) Hm) as (m' & Hq & Hm' & Hl & Hsz). exists m'.
  split; [done|]. split; [done|]. split.
  - intros k' d. rewrite !get_lookup by done. eexists. split; [done|]. specialize (Hl k').
    destruct (is_ k' k); [|by rewrite Hl]. by destruct (lookup_in m' k').
  - unfold has. rewrite get_lookup by done. rewrite Hsz. cbn.
    destruct (lookup_in m k); cbn; f_equal; symmetry;
      [apply negb_true_iff, Z.eqb_neq|apply negb_false_iff, Z.eqb_eq]; lia.
Qed.

(** On a well-formed map [remove] returns a well-formed map in which every
    key equal to [k] is absent and which is unchanged elsewhere; it shrinks by
    one exactly when [k] was present. *)
Theorem remove_correct (m : immap K V) (k : K) (Hm : wf_map m) :
  exists m', remove m k = Some m' /\ wf_map m' /\
    (forall k' d, get m' k' d = if is_ k' k then Ok d else get m k' d) /\
    has m k = Ok (size m' =? size m - 1).
Proof.
  destruct (Qe_lookup m k None Hm) as (m' & Hq & Hm' & Hl & Hsz). exists m'.
  split; [done|]. split; [done|]. split.
  - intros k' d. rewrite !get_lookup by done. specialize (Hl k').
    destruct (is_ k' k); [by destruct (lookup_in m' k')|by rewrite Hl].
  - unfold has. rewrite get_lookup by done. rewrite Hsz. cbn.
    destruct (lookup_in m k); cbn; f_equal; symmetry; [apply Z.eqb_eq|apply Z.eqb_neq]; lia.
Qed.

(** C21: [__iterate] calls its function on the entries in the order of the trie,
    or in the reverse order, stops after the first call that returns false and
    returns the number of calls; the entries are those [get] finds, and their
    number is the size of the map. *)
Theorem iterate_correct (m : immap K V) (Hm : wf_map m) (t : bool) (p : K * V -> bool) :
  __iterate m (fun v k acc => (acc ++ [(k, v)], p (k, v))) t [] =
    (upto p (ordered t (entries m)), Z.of_nat (length (upto p (ordered t (entries m))))) /\
  (forall k v, get m k None = Ok (Some v) <-> exists k', (k', v) ∈ entries m /\ is_ k k' = true) /\
  size m = Z.of_nat (length (entries m)).
Proof.
  split; [|split; [|apply Hm]].
  - rewrite iterate_each.
    rewrite (each_ext _ (fun en '(st, r) => let '(st', stop) := (st ++ [en], p en) in ((st', r + 1), stop))).
    { by rewrite each_upto. }
    by intros [k v] [st r].
  - intros k v. rewrite get_lookup by done. unfold lookup_in. split.
    + intros [= Hl]. apply assoc_elem. by destruct (assoc (entries m) k).
    + intros (k' & Hin & Hk). by rewrite (elem_assoc _ k k' v (wf_map_distinct m Hm) Hin Hk).
Qed.

(** C22: the iterator of a map terminates: with enough turns for each call of
    [next], it gives every entry once, in the order of [__iterate], and is then
    done. *)
Theorem iterator_correct (m : immap K V) (t : bool) :
  exists turns : nat, forall fuel, (turns <= fuel)%nat ->
    forall calls, (length (entries m) < calls)%nat ->
    Ke_collect calls fuel t (Ke_new m) = Some (ordered t (entries m)).
Proof.
  destruct (Yields_collect t _ _ (Yields_map t m)) as [n0 Hn0]. exists n0. intros fuel Hf calls Hc.
  apply Hn0; [done|]. by rewrite ordered_length.
Qed.

(** Merging well-formed maps, with or without a function that merges the
    values of a key present on both sides, gives a well-formed map; at every
    key it has the value of folding over the maps from left to right.  The
    values are such that strictly equal ones are the same, and the function
    does not tell equal keys apart. *)
Theorem merge_correct (m : immap K V) (t : option (V -> V -> K -> V)) (n : list (immap K V))
    (Hid : forall v w : V, veq v w = true -> v = w)
    (Ht : forall k k' w v, is_ k k' = true -> combine t (Some w) (k, v) = combine t (Some w) (k', v))
    (Hm : wf_map m) (Hn : Forall wf_map n) :
  exists m', at_ m t n = Some m' /\ wf_map m' /\
    forall k, get m' k None = Ok (fold_left (fun w m => merged t w m k) n (lookup_in m k)).
Proof.
  destruct (at_ok Hid t Ht m n Hm Hn) as (m' & Hat & Hm' & Hl). exists m'. split; [done|]. split; [done|].
  intros k. rewrite get_lookup, <- Hl by done. by destruct (lookup_in m' k).
Qed.

End Claims.

(** ** Witnesses *)

(** A map with 40 string keys, whose root is an [He] or [We] node. *)
Definition sample_ops : list (value * option Z) :=
  map (fun i => (Str [97; Z.of_nat i], Some (Z.of_nat i))) (seq 0 40).

Definition sample : immap value Z := default Xe (run sample_ops).

Lemma sample_wf : wf_map sample.
Proof. unfold sample. destruct (run_ok sample_ops) as (m & -> & Hm & _). exact Hm. Qed.

#[local] Opaque sample.

Lemma set_correct_witness :
  exists m', set sample (Str [97; 7]) 100 = Some m' /\ get m' (Str [97; 7]) None = Ok (Some 100).
Proof.
  destruct (set_correct sample (Str [97; 7]) 100 sample_wf) as (m' & Hset & _ & Hget & _).
  exists m'. split; [exact Hset|]. destruct (Hget (Str [97; 7]) None) as (w & -> & Hw). 
  replace (is_ (Str [97; 7]) (Str [97; 7])) with true in Hw by reflexivity.
  destruct w as [w|]; [|destruct Hw]. destruct Hw as [->|Hw]; [reflexivity|]. apply Z.eqb_eq in Hw. by subst.
Defined.

Lemma remove_correct_witness :
  exists m', remove sample (Str [97; 7]) = Some m' /\ get m' (Str [97; 7]) (Some 1) = Ok (Some 1).
Proof.
  destruct (remove_correct sample (Str [97; 7]) sample_wf) as (m' & Hrem & _ & Hget & _).
  exists m'. split; [exact Hrem|]. rewrite Hget. reflexivity.
Defined.

Lemma iterate_correct_witness : size sample = 40 /\ Z.of_nat (length (entries sample)) = 40.
Proof.
  pose proof (iterate_correct sample sample_wf true (fun _ => false)) as (_ & _ & Hsz).
  assert (size sample = 40) as Hs by (vm_compute; reflexivity). split; [exact Hs|]. by rewrite <- Hsz.
Defined.

Lemma merge_correct_witness :
  exists m', at_ sample (Some (fun a b _ => a + b)) [sample] = Some m' /\
    get m' (Str [97; 7]) None = Ok (Some 14).
Proof.
  destruct (merge_correct sample (Some (fun a b _ => a + b)) [sample]) as (m' & Hat & _ & Hget).
  - intros v w. apply Z.eqb_eq.
  - done.
  - exact sample_wf.
  - exact (Forall_cons_2 _ _ _ sample_wf (Forall_nil_2 _)).
  - exists m'. split; [exact Hat|]. rewrite Hget. vm_compute. reflexivity.
Defined.
