(* ===== verification/BufInt.v ===== *)
(** * Buffer: integers in a byte array

    The methods of module 54 of swagger-ui-bundle.js (the [buffer] package)
    that read and write integers.  A buffer is the list of its bytes.  Offsets,
    widths and values are integers; [None] is [undefined] or NaN, which a read
    outside the buffer gives when the check is switched off.  [ta] is
    [TYPED_ARRAY_SUPPORT]. *)

From S2P Require Import Prelude.
Local Open Scope Z_scope.
Local Open Scope js_scope.

Notation buffer := (list Z).

Definition len (b : buffer) : Z := Z.of_nat (length b).

Definition isByte (x : Z) : Prop := 0 <= x < 256.
Definition bytes (b : buffer) : Prop := Forall isByte b.

(** [b[i]] *)
Definition idx (b : buffer) (i : Z) : option Z := if i <? 0 then None else b !! Z.to_nat i.

(** [b[i]] as the operand of a bitwise operator. *)
Definition idx0 (b : buffer) (i : Z) : Z := default 0 (idx b i).

(** [b[i] = v]: a typed array keeps the low 8 bits, and ignores a write outside
    its bounds; an array of an old engine keeps the value. *)
Definition put (b : buffer) (i v : Z) : buffer :=
  if i <? 0 then b else <[Z.to_nat i := v mod 256]> b.
Definition put_raw (b : buffer) (i v : Z) : buffer :=
  if i <? 0 then b else <[Z.to_nat i := v]> b.

(** ** Checks *)

(** [M]: checkOffset *)
Definition M (e t n : Z) : js unit :=
  if e <? 0 then Throw RangeError
  else if e + t >? n then Throw RangeError
  else Ok tt.

(** [I]: checkInt *)
Definition I_ (e : buffer) (t n r o i : Z) : js unit :=
  if (t >? o) || (t <? i) then Throw RangeError
  else if n + r >? len e then Throw RangeError
  else Ok tt.

Definition unless (noAssert : bool) (check : js unit) : js unit := if noAssert then Ok tt else check.

(** ** Reading *)

Definition opt_add (a b : option Z) : option Z :=
  match a, b with Some x, Some y => Some (x + y) | _, _ => None end.
Definition opt_mul (a : option Z) (o : Z) : option Z := option_map (fun x => x * o) a.

(** [for (; ++i < t && (o *= 256);) r += this[e + i] * o], [k] turns to go. *)
Fixpoint readLE_loop (b : buffer) (e : Z) (k : nat) (i o : Z) (r : option Z) : option Z * Z :=
  match k with
  | O => (r, o)
  | S k => readLE_loop b e k (i + 1) (o * 256) (opt_add r (opt_mul (idx b (e + i)) (o * 256)))
  end.

(** [for (; t > 0 && (o *= 256);) r += this[e + --t] * o], where [t] is [k]. *)
Fixpoint readBE_loop (b : buffer) (e : Z) (k : nat) (o : Z) (r : option Z) : option Z * Z :=
  match k with
  | O => (r, o)
  | S k => readBE_loop b e k (o * 256) (opt_add r (opt_mul (idx b (e + Z.of_nat k)) (o * 256)))
  end.

Definition signed (t : Z) (r : option Z) (o : Z) : option Z :=
  option_map (fun r => if r >=? o * 128 then r - 2 ^ (8 * t) else r) r.

Definition readUIntLE (b : buffer) (e t : Z) (noAssert : bool) : js (option Z) :=
  let e := js_or e 0 in
  let t := js_or t 0 in
  _ <-! unless noAssert (M e t (len b)) ;;
  Ok (fst (readLE_loop b e (Z.to_nat (t - 1)) 1 1 (idx b e))).

Definition readUIntBE (b : buffer) (e t : Z) (noAssert : bool) : js (option Z) :=
  let e := js_or e 0 in
  let t := js_or t 0 in
  _ <-! unless noAssert (M e t (len b)) ;;
  let t := t - 1 in
  Ok (fst (readBE_loop b e (Z.to_nat t) 1 (idx b (e + t)))).

Definition readIntLE (b : buffer) (e t : Z) (noAssert : bool) : js (option Z) :=
  let e := js_or e 0 in
  let t := js_or t 0 in
  _ <-! unless noAssert (M e t (len b)) ;;
  let '(r, o) := readLE_loop b e (Z.to_nat (t - 1)) 1 1 (idx b e) in
  Ok (signed t r o).

Definition readIntBE (b : buffer) (e t : Z) (noAssert : bool) : js (option Z) :=
  let e := js_or e 0 in
  let t := js_or t 0 in
  _ <-! unless noAssert (M e t (len b)) ;;
  let r := t - 1 in
  let '(i, o) := readBE_loop b e (Z.to_nat r) 1 (idx b (e + r)) in
  Ok (signed t i o).

Section Reads.
Context (b : buffer) (e : Z) (noAssert : bool).

Definition readUInt8 : js (option Z) :=
  _ <-! unless noAssert (M e 1 (len b)) ;; Ok (idx b e).

Definition readUInt16LE : js (option Z) :=
  _ <-! unless noAssert (M e 2 (len b)) ;; Ok (Some (idx0 b e .| idx0 b (e + 1) <<. 8)).

Definition readUInt16BE : js (option Z) :=
  _ <-! unless noAssert (M e 2 (len b)) ;; Ok (Some (idx0 b e <<. 8 .| idx0 b (e + 1))).

Definition readUInt32LE : js (option Z) :=
  _ <-! unless noAssert (M e 4 (len b)) ;;
  Ok (opt_add (Some (idx0 b e .| idx0 b (e + 1) <<. 8 .| idx0 b (e + 2) <<. 16))
        (opt_mul (idx b (e + 3)) 16777216)).

Definition readUInt32BE : js (option Z) :=
  _ <-! unless noAssert (M e 4 (len b)) ;;
  Ok (opt_add (opt_mul (idx b e) 16777216)
        (Some (idx0 b (e + 1) <<. 16 .| idx0 b (e + 2) <<. 8 .| idx0 b (e + 3)))).

Definition readInt8 : js (option Z) :=
  _ <-! unless noAssert (M e 1 (len b)) ;;
  Ok (if 128 .& idx0 b e =? 0 then idx b e else option_map (fun x => -1 * (255 - x + 1)) (idx b e)).

Definition extend16 (n : Z) : Z := if 32768 .& n =? 0 then n else 4294901760 .| n.

Definition readInt16LE : js (option Z) :=
  _ <-! unless noAssert (M e 2 (len b)) ;; Ok (Some (extend16 (idx0 b e .| idx0 b (e + 1) <<. 8))).

Definition readInt16BE : js (option Z) :=
  _ <-! unless noAssert (M e 2 (len b)) ;; Ok (Some (extend16 (idx0 b (e + 1) .| idx0 b e <<. 8))).

Definition readInt32LE : js (option Z) :=
  _ <-! unless noAssert (M e 4 (len b)) ;;
  Ok (Some (idx0 b e .| idx0 b (e + 1) <<. 8 .| idx0 b (e + 2) <<. 16 .| idx0 b (e + 3) <<. 24)).

Definition readInt32BE : js (option Z) :=
  _ <-! unless noAssert (M e 4 (len b)) ;;
  Ok (Some (idx0 b e <<. 24 .| idx0 b (e + 1) <<. 16 .| idx0 b (e + 2) <<. 8 .| idx0 b (e + 3))).
End Reads.

(** ** Writing *)

(** [e / o & 255] *)
Definition byte_of (e o : Z) : Z := js_and (Z.quot e o) 255.

Fixpoint writeLE_loop (b : buffer) (e t : Z) (k : nat) (i o : Z) : buffer :=
  match k with
  | O => b
  | S k => writeLE_loop (put b (t + i) (byte_of e (o * 256))) e t k (i + 1) (o * 256)
  end.

(** [for (; --o >= 0 && (i *= 256);)], where [o] is [k]. *)
Fixpoint writeBE_loop (b : buffer) (e t : Z) (k : nat) (i : Z) : buffer :=
  match k with
  | O => b
  | S k => writeBE_loop (put b (t + Z.of_nat k) (byte_of e (i * 256))) e t k (i * 256)
  end.

Definition writeUIntLE (b : buffer) (e t n : Z) (noAssert : bool) : js (buffer * Z) :=
  let t := js_or t 0 in
  let n := js_or n 0 in
  _ <-! unless noAssert (I_ b e t n (2 ^ (8 * n) - 1) 0) ;;
  Ok (writeLE_loop (put b t (js_and 255 e)) e t (Z.to_nat (n - 1)) 1 1, t + n).

Definition writeUIntBE (b : buffer) (e t n : Z) (noAssert : bool) : js (buffer * Z) :=
  let t := js_or t 0 in
  let n := js_or n 0 in
  _ <-! unless noAssert (I_ b e t n (2 ^ (8 * n) - 1) 0) ;;
  let o := n - 1 in
  Ok (writeBE_loop (put b (t + o) (js_and 255 e)) e t (Z.to_nat o) 1, t + n).

(** The body of the loops of [writeIntLE] and [writeIntBE]: the borrow [u] is
    set by the first byte below that is not 0; then [(e / a >> 0) - u & 255]. *)
Definition borrow (e u : Z) (below : option Z) : Z :=
  if (e <? 0) && (u =? 0) && negb (bool_decide (below = Some 0)) then 1 else u.
Definition signed_byte (e a u : Z) : Z := js_and (js_shr (Z.quot e a) 0 - u) 255.

Fixpoint writeIntLE_loop (b : buffer) (e t : Z) (k : nat) (i a u : Z) : buffer :=
  match k with
  | O => b
  | S k =>
      let u := borrow e u (idx b (t + i - 1)) in
      writeIntLE_loop (put b (t + i) (signed_byte e (a * 256) u)) e t k (i + 1) (a * 256) u
  end.

Fixpoint writeIntBE_loop (b : buffer) (e t : Z) (k : nat) (a u : Z) : buffer :=
  match k with
  | O => b
  | S k =>
      let u := borrow e u (idx b (t + Z.of_nat k + 1)) in
      writeIntBE_loop (put b (t + Z.of_nat k) (signed_byte e (a * 256) u)) e t k (a * 256) u
  end.

Definition writeIntLE (b : buffer) (e t n : Z) (noAssert : bool) : js (buffer * Z) :=
  let t := js_or t 0 in
  _ <-! unless noAssert (let o := 2 ^ (8 * n - 1) in I_ b e t n (o - 1) (- o)) ;;
  Ok (writeIntLE_loop (put b t (js_and 255 e)) e t (Z.to_nat (n - 1)) 1 1 0, t + n).

Definition writeIntBE (b : buffer) (e t n : Z) (noAssert : bool) : js (buffer * Z) :=
  let t := js_or t 0 in
  _ <-! unless noAssert (let o := 2 ^ (8 * n - 1) in I_ b e t n (o - 1) (- o)) ;;
  let i := n - 1 in
  Ok (writeIntBE_loop (put b (t + i) (js_and 255 e)) e t (Z.to_nat i) 1 0, t + n).

(** [j] and [N]: objectWriteUInt16 and objectWriteUInt32, for engines without
    typed arrays; [o] is the position written, [k] the positions to go. *)
Fixpoint j_loop (e : buffer) (t n : Z) (r : bool) (k : nat) (o : Z) : buffer :=
  match k with
  | O => e
  | S k =>
      let s := 8 * (if r then o else 1 - o) in
      j_loop (put_raw e (n + o) (js_ushr (js_and t (js_shl 255 s)) s)) t n r k (o + 1)
  end.

Definition j (e : buffer) (t n : Z) (r : bool) : buffer :=
  let t := if t <? 0 then 65535 + t + 1 else t in
  j_loop e t n r (Z.to_nat (Z.min (len e - n) 2)) 0.

Fixpoint N_loop (e : buffer) (t n : Z) (r : bool) (k : nat) (o : Z) : buffer :=
  match k with
  | O => e
  | S k =>
      let s := 8 * (if r then o else 3 - o) in
      N_loop (put_raw e (n + o) (js_and (js_ushr t s) 255)) t n r k (o + 1)
  end.

Definition N_ (e : buffer) (t n : Z) (r : bool) : buffer :=
  let t := if t <? 0 then 4294967295 + t + 1 else t in
  N_loop e t n r (Z.to_nat (Z.min (len e - n) 4)) 0.

Section Writes.
Context (ta : bool) (b : buffer) (e t : Z) (noAssert : bool).

Definition writeUInt8 : js (buffer * Z) :=
  let t := t .| 0 in
  _ <-! unless noAssert (I_ b e t 1 255 0) ;; Ok (put b t (255 .& e), t + 1).

Definition writeUInt16LE : js (buffer * Z) :=
  let t := t .| 0 in
  _ <-! unless noAssert (I_ b e t 2 65535 0) ;;
  Ok (if ta then put (put b t (255 .& e)) (t + 1) (e >>>. 8) else j b e t true, t + 2).

Definition writeUInt16BE : js (buffer * Z) :=
  let t := t .| 0 in
  _ <-! unless noAssert (I_ b e t 2 65535 0) ;;
  Ok (if ta then put (put b t (e >>>. 8)) (t + 1) (255 .& e) else j b e t false, t + 2).

Definition writeUInt32LE : js (buffer * Z) :=
  let t := t .| 0 in
  _ <-! unless noAssert (I_ b e t 4 4294967295 0) ;;
  Ok (if ta then put (put (put (put b (t + 3) (e >>>. 24)) (t + 2) (e >>>. 16)) (t + 1) (e >>>. 8)) t (255 .& e)
      else N_ b e t true, t + 4).

Definition writeUInt32BE : js (buffer * Z) :=
  let t := t .| 0 in
  _ <-! unless noAssert (I_ b e t 4 4294967295 0) ;;
  Ok (if ta then put (put (put (put b t (e >>>. 24)) (t + 1) (e >>>. 16)) (t + 2) (e >>>. 8)) (t + 3) (255 .& e)
      else N_ b e t false, t + 4).

Definition writeInt8 : js (buffer * Z) :=
  let t := t .| 0 in
  _ <-! unless noAssert (I_ b e t 1 127 (-128)) ;;
  let e := if e <? 0 then 255 + e + 1 else e in
  Ok (put b t (255 .& e), t + 1).

Definition writeInt16LE : js (buffer * Z) :=
  let t := t .| 0 in
  _ <-! unless noAssert (I_ b e t 2 32767 (-32768)) ;;
  Ok (if ta then put (put b t (255 .& e)) (t + 1) (e >>>. 8) else j b e t true, t + 2).

Definition writeInt16BE : js (buffer * Z) :=
  let t := t .| 0 in
  _ <-! unless noAssert (I_ b e t 2 32767 (-32768)) ;;
  Ok (if ta then put (put b t (e >>>. 8)) (t + 1) (255 .& e) else j b e t false, t + 2).

Definition writeInt32LE : js (buffer * Z) :=
  let t := t .| 0 in
  _ <-! unless noAssert (I_ b e t 4 2147483647 (-2147483648)) ;;
  Ok (if ta then put (put (put (put b t (255 .& e)) (t + 1) (e >>>. 8)) (t + 2) (e >>>. 16)) (t + 3) (e >>>. 24)
      else N_ b e t true, t + 4).

Definition writeInt32BE : js (buffer * Z) :=
  let t := t .| 0 in
  _ <-! unless noAssert (I_ b e t 4 2147483647 (-2147483648)) ;;
  let e := if e <? 0 then 4294967295 + e + 1 else e in
  Ok (if ta then put (put (put (put b t (e >>>. 24)) (t + 1) (e >>>. 16)) (t + 2) (e >>>. 8)) (t + 3) (255 .& e)
      else N_ b e t false, t + 4).
End Writes.
