(* ===== verification/BufIntFacts.v ===== *)
(** * Buffer: what reading and writing integers means

    Reads give the little-endian value of the bytes (or of the reversed bytes),
    the methods for fixed widths agree with those for any width, and reading
    what was written gives the value back. *)

From S2P Require Import Prelude BufInt.
Local Open Scope Z_scope.
Local Open Scope js_scope.

(** The little-endian value of bytes. *)
Fixpoint le (l : list Z) : Z := match l with [] => 0 | x :: l' => x + 256 * le l' end.

(** The value read as a signed number of [8 * t] bits. *)
Definition sval (t v : Z) : Z := if v >=? 2 ^ (8 * t - 1) then v - 2 ^ (8 * t) else v.

(** ** Positions *)

Lemma len_app a b : len (a ++ b) = len a + len b.
Proof. unfold len. rewrite length_app. lia. Qed.

Lemma len_cons x b : len (x :: b) = len b + 1.
Proof. unfold len. cbn [length]. lia. Qed.

Lemma len_nonneg b : 0 <= len b.
Proof. unfold len. lia. Qed.

Lemma len_nil : len [] = 0.
Proof. done. Qed.

Lemma len_insert (b : buffer) (i : nat) v : len (<[i := v]> b) = len b.
Proof. unfold len. by rewrite length_insert. Qed.

(** Arithmetic on lengths. *)
Ltac len_lia :=
  rewrite ?len_insert, ?len_app, ?len_cons, ?len_nil in *;
  repeat match goal with
  | _ : context [len ?b] |- _ => lazymatch goal with _ : 0 <= len b |- _ => fail | _ => pose proof (len_nonneg b) end
  | |- context [len ?b] => lazymatch goal with _ : 0 <= len b |- _ => fail | _ => pose proof (len_nonneg b) end
  end; lia.

Lemma split_at b e t : 0 <= e -> 0 <= t -> e + t <= len b ->
  exists pre l post, b = pre ++ l ++ post /\ len pre = e /\ len l = t.
Proof.
  unfold len. intros He Ht Hb.
  exists (take (Z.to_nat e) b), (take (Z.to_nat t) (drop (Z.to_nat e) b)), (drop (Z.to_nat t) (drop (Z.to_nat e) b)).
  rewrite !take_drop, !length_take, !length_drop. split; [done|]. lia.
Qed.

Lemma idx_mid pre l post e i : len pre = e -> 0 <= i < len l ->
  idx (pre ++ l ++ post) (e + i) = l !! Z.to_nat i.
Proof.
  unfold len, idx. intros He Hi. rewrite (proj2 (Z.ltb_ge _ _)) by lia.
  rewrite lookup_app_r by lia. rewrite lookup_app_l by lia. f_equal. lia.
Qed.

Lemma put_mid pre l post e i v : len pre = e -> 0 <= i < len l ->
  put (pre ++ l ++ post) (e + i) v = pre ++ <[Z.to_nat i := v mod 256]> l ++ post.
Proof.
  unfold len, put. intros He Hi. rewrite (proj2 (Z.ltb_ge _ _)) by lia.
  rewrite insert_app_r_alt by lia. rewrite insert_app_l by lia. do 3 f_equal. lia.
Qed.

Lemma put_raw_mid pre l post e i v : len pre = e -> 0 <= i < len l -> isByte v ->
  put_raw (pre ++ l ++ post) (e + i) v = pre ++ <[Z.to_nat i := v mod 256]> l ++ post.
Proof.
  intros He Hi Hv. rewrite <- (put_mid _ _ _ e) by done. unfold put_raw, put. by rewrite (Z.mod_small v 256).
Qed.

(** ** Values *)

Lemma le_app l l' : le (l ++ l') = le l + 256 ^ len l * le l'.
Proof.
  induction l as [|x l IH]; cbn [le app]; [by rewrite Z.mul_1_l|].
  rewrite IH, len_cons, Z.pow_add_r by len_lia. lia.
Qed.

Lemma le_range l : bytes l -> 0 <= le l < 256 ^ len l.
Proof.
  induction 1 as [|x l Hx Hl IH]; [done|]. cbn [le].
  rewrite len_cons, Z.pow_add_r by len_lia. unfold isByte in Hx. lia.
Qed.

Lemma readLE_loop_le post l : forall P e i o r,
  len P = e + i ->
  readLE_loop (P ++ l ++ post) e (length l) i o (Some r) = (Some (r + o * 256 * le l), o * 256 ^ len l).
Proof.
  induction l as [|x l IH]; intros P e i o r HP; cbn [length readLE_loop le].
  - cbn [rev le]. change (256 ^ len []) with 1. f_equal; [f_equal|]; lia.
  - replace (idx (P ++ (x :: l) ++ post) (e + i)) with (Some x).
    2: { replace (e + i) with (e + i + 0) by lia. rewrite (idx_mid P (x :: l)) by len_lia. done. }
    cbn [opt_mul option_map opt_add]. replace (P ++ (x :: l) ++ post) with ((P ++ [x]) ++ l ++ post) by (by rewrite <- app_assoc).
    rewrite IH by len_lia.
    rewrite len_cons, Z.pow_add_r by len_lia. f_equal; [f_equal|]; lia.
Qed.

Lemma readBE_loop_le pre l : forall post e o r,
  len pre = e ->
  readBE_loop (pre ++ l ++ post) e (length l) o (Some r) = (Some (r + o * 256 * le (rev l)), o * 256 ^ len l).
Proof.
  induction l as [|x l IH] using rev_ind; intros post e o r HP; cbn [length readBE_loop le].
  - cbn [rev le]. change (256 ^ len []) with 1. f_equal; [f_equal|]; lia.
  - rewrite length_app, Nat.add_1_r. cbn [readBE_loop].
    rewrite (idx_mid pre (l ++ [x])) by (unfold len in *; rewrite ?length_app; cbn [length]; lia).
    rewrite Nat2Z.id, lookup_app_r, Nat.sub_diag by lia. cbn [lookup list_lookup opt_mul option_map opt_add].
    rewrite <- app_assoc, IH by done. rewrite rev_app_distr. cbn [rev app le].
    rewrite len_app, Z.pow_add_r by len_lia. change (256 ^ len [x]) with 256. f_equal; [f_equal|]; lia.
Qed.

Lemma signed_sval t v : 1 <= t -> signed t (Some v) (256 ^ (t - 1)) = Some (sval t v).
Proof.
  intros Ht. unfold signed, sval. cbn. replace (256 ^ (t - 1) * 128) with (2 ^ (8 * t - 1)); [done|].
  replace (8 * t - 1) with (8 * (t - 1) + 7) by lia. rewrite Z.pow_add_r, Z.pow_mul_r by lia. done.
Qed.

(** What all the checked reads come to: the check, then a function of the
    bytes at the offset. *)
Definition checked (b : buffer) (e t : Z) (f : list Z -> Z) : js (option Z) :=
  _ <-! M e t (len b) ;; Ok (Some (f (take (Z.to_nat t) (drop (Z.to_nat e) b)))).

Lemma sub_mid (pre l post : list Z) e t : len pre = e -> len l = t ->
  take (Z.to_nat t) (drop (Z.to_nat e) (pre ++ l ++ post)) = l.
Proof. unfold len. intros <- <-. by rewrite !Nat2Z.id, drop_app_length, take_app_length. Qed.

(** To prove a checked read: look only at offsets the check accepts. *)
Lemma checked_intro b e t f (r : js (option Z)) (g : option Z) :
  0 <= t ->
  r = (_ <-! M e t (len b) ;; Ok g) ->
  (forall pre l post, b = pre ++ l ++ post -> len pre = e -> len l = t -> g = Some (f l)) ->
  r = checked b e t f.
Proof.
  intros Ht -> Hg. unfold checked, M. destruct (Z.ltb_spec e 0); [done|].
  destruct (Z.gtb_spec (e + t) (len b)); [done|]. cbn.
  destruct (split_at b e t) as (pre & l & post & -> & Hpre & Hl); [lia..|].
  rewrite (Hg pre l post) by done. by rewrite sub_mid.
Qed.

Definition width (t : Z) : Prop := 1 <= t <= 6.

Lemma width_int32 t : width t -> isInt32 t.
Proof. unfold width, isInt32. lia. Qed.

Lemma checked_head b e (t : Z) pre l post : 1 <= t -> b = pre ++ l ++ post -> len pre = e -> len l = t ->
  exists x l', l = x :: l' /\ length l' = Z.to_nat (t - 1) /\ idx b e = Some x.
Proof.
  intros Ht -> He Hl. destruct l as [|x l']; [unfold len in *; cbn in *; lia|].
  exists x, l'. split; [done|]. rewrite len_cons in Hl. split; [unfold len in *; lia|].
  replace e with (e + 0) by lia. rewrite (idx_mid pre (x :: l')) by len_lia. done.
Qed.

Lemma readLE_all pre x l post e : len pre = e ->
  readLE_loop (pre ++ (x :: l) ++ post) e (length l) 1 1 (Some x) = (Some (le (x :: l)), 256 ^ len l).
Proof.
  intros He. replace (pre ++ (x :: l) ++ post) with ((pre ++ [x]) ++ l ++ post) by (by rewrite <- app_assoc).
  rewrite readLE_loop_le by len_lia. cbn [le]. f_equal; f_equal; lia.
Qed.

Lemma readUIntLE_checked b e t : isInt32 e -> width t -> readUIntLE b e t false = checked b e t le.
Proof.
  intros He Ht. pose proof (width_int32 t Ht) as Hi. unfold readUIntLE. rewrite !js_or_0_r, !i32_id by done.
  eapply checked_intro; [unfold width in *; lia|reflexivity|]. intros pre l post -> Hpre Hl.
  destruct (checked_head (pre ++ l ++ post) e t pre l post) as (x & l' & -> & Hlen & ->); [unfold width in *; lia|reflexivity|assumption..|].
  by rewrite <- Hlen, readLE_all.
Qed.

Lemma readIntLE_checked b e t : isInt32 e -> width t -> readIntLE b e t false = checked b e t (fun l => sval t (le l)).
Proof.
  intros He Ht. pose proof (width_int32 t Ht) as Hi. unfold readIntLE. rewrite !js_or_0_r, !i32_id by done. unfold width in Ht.
  eapply checked_intro; [lia| |].
  { cbn [unless]. destruct (M e t (len b)); cbn [js_bind]; [|done]. by rewrite (surjective_pairing (readLE_loop _ _ _ _ _ _)). }
  intros pre l post -> Hpre Hl.
  destruct (checked_head (pre ++ l ++ post) e t pre l post) as (x & l' & -> & Hlen & ->); [lia|reflexivity|assumption..|].
  rewrite <- Hlen, readLE_all by done. cbn [fst snd]. replace (len l') with (t - 1) by (unfold len; lia). apply signed_sval; lia.
Qed.

Lemma checked_last b e t pre l post : 1 <= t -> b = pre ++ l ++ post -> len pre = e -> len l = t ->
  exists x l', l = l' ++ [x] /\ length l' = Z.to_nat (t - 1) /\ idx b (e + (t - 1)) = Some x.
Proof.
  intros Ht -> He Hl. destruct (exists_last (l := l)) as (l' & x & ->).
  { intros ->. len_lia. }
  exists x, l'. unfold len in *. rewrite length_app in Hl. cbn [length] in Hl. split; [done|]. split; [lia|].
  rewrite (idx_mid pre (l' ++ [x])) by (unfold len in *; rewrite ?length_app; cbn [length]; lia).
  rewrite lookup_app_r by lia. by replace (Z.to_nat (t - 1) - length l')%nat with O by lia.
Qed.

Lemma readBE_all pre x l post e : len pre = e ->
  readBE_loop (pre ++ (l ++ [x]) ++ post) e (length l) 1 (Some x) = (Some (le (rev (l ++ [x]))), 256 ^ len l).
Proof.
  intros He. rewrite <- app_assoc, readBE_loop_le by done. rewrite rev_app_distr. cbn [rev app le]. f_equal; f_equal; lia.
Qed.

Lemma readUIntBE_checked b e t : isInt32 e -> width t -> readUIntBE b e t false = checked b e t (fun l => le (rev l)).
Proof.
  intros He Ht. pose proof (width_int32 t Ht) as Hi. unfold readUIntBE. rewrite !js_or_0_r, !i32_id by done. unfold width in Ht.
  eapply checked_intro; [lia|reflexivity|]. intros pre l post -> Hpre Hl.
  destruct (checked_last (pre ++ l ++ post) e t pre l post) as (x & l' & -> & Hlen & ->); [lia|reflexivity|assumption..|].
  by rewrite <- Hlen, readBE_all.
Qed.

Lemma readIntBE_checked b e t : isInt32 e -> width t -> readIntBE b e t false = checked b e t (fun l => sval t (le (rev l))).
Proof.
  intros He Ht. pose proof (width_int32 t Ht) as Hi. unfold readIntBE. rewrite !js_or_0_r, !i32_id by done. unfold width in Ht.
  eapply checked_intro; [lia| |].
  { cbn [unless]. destruct (M e t (len b)); cbn [js_bind]; [|done]. by rewrite (surjective_pairing (readBE_loop _ _ _ _ _)). }
  intros pre l post -> Hpre Hl.
  destruct (checked_last (pre ++ l ++ post) e t pre l post) as (x & l' & -> & Hlen & ->); [lia|reflexivity|assumption..|].
  rewrite <- Hlen, readBE_all by done. cbn [fst snd]. replace (len l') with (t - 1) by (unfold len; lia). apply signed_sval; lia.
Qed.

(** ** Fixed widths *)

Lemma or_shift x y n m : 0 <= n < 32 -> 0 <= x < 2 ^ n -> m = n -> js_or x (js_shl y m) = i32 (x + y * 2 ^ n).
Proof. intros Hn Hx ->. by rewrite js_shl_small, js_or_i32_r, js_or_disjoint by lia. Qed.

Lemma or16 x y : isByte x -> isByte y -> x .| y <<. 8 = x + 256 * y.
Proof. unfold isByte. intros Hx Hy. rewrite (or_shift x y 8) by lia. rewrite i32_small by lia. lia. Qed.

Lemma or24 x y z : isByte x -> isByte y -> isByte z -> x .| y <<. 8 .| z <<. 16 = x + 256 * (y + 256 * z).
Proof.
  unfold isByte. intros Hx Hy Hz. rewrite or16 by done. rewrite (or_shift _ z 16) by lia.
  rewrite i32_small by lia. lia.
Qed.

Lemma or32 x y z w : isByte x -> isByte y -> isByte z -> isByte w ->
  x .| y <<. 8 .| z <<. 16 .| w <<. 24 = i32 (x + 256 * (y + 256 * (z + 256 * w))).
Proof.
  unfold isByte. intros Hx Hy Hz Hw. rewrite or24 by done. rewrite (or_shift _ w 24) by lia. f_equal. lia.
Qed.

Lemma high_bit n k : 0 <= k < 31 -> 0 <= n < 2 ^ (k + 1) -> (2 ^ k .& n =? 0) = (n <? 2 ^ k).
Proof.
  intros Hk Hn. rewrite Z.pow_add_r in Hn by lia. rewrite js_and_comm, js_and_pos_r.
  2: { split; [lia|]. apply Z.pow_lt_mono_r; lia. }
  rewrite u32_id.
  2: { unfold isUint32. pose proof (Z.pow_lt_mono_r 2 k 31 ltac:(lia) ltac:(lia) ltac:(lia)). lia. }
  assert (forall b, Z.testbit n k = b -> (Z.land n (2 ^ k) =? 0) = negb b) as Hl.
  { intros b Hb. destruct b; cbn.
    - apply Z.eqb_neq. intros H0. apply (f_equal (fun z => Z.testbit z k)) in H0.
      rewrite land_pow2_testbit, Z.eqb_refl, Hb, Z.bits_0 in H0 by lia. done.
    - apply Z.eqb_eq. apply Z.bits_inj'. intros i Hi. rewrite land_pow2_testbit, Z.bits_0 by lia.
      destruct (Z.eqb_spec i k) as [->|]; [by rewrite Hb|done]. }
  destruct (Z.ltb_spec n (2 ^ k)) as [Hlt|Hge].
  - rewrite (Hl false); [done|]. apply (testbit_high n k k); lia.
  - rewrite (Hl true); [done|]. replace n with ((n - 2 ^ k) + 1 * 2 ^ k) by lia.
    rewrite testbit_split, Z.ltb_irrefl, Z.sub_diag by lia. done.
Qed.

Lemma extend16_sval n : 0 <= n < 65536 -> extend16 n = sval 2 n.
Proof.
  intros Hn. unfold extend16, sval. change 32768 with (2 ^ 15) at 1. rewrite (high_bit n 15) by lia.
  change (2 ^ (8 * 2 - 1)) with (2 ^ 15). change (2 ^ (8 * 2)) with 65536.
  destruct (Z.ltb_spec n (2 ^ 15)); destruct (Z.geb_spec n (2 ^ 15)); try lia.
  rewrite js_or_comm, <- js_or_i32_r. replace (i32 4294901760) with (-1 * 2 ^ 16) by reflexivity.
  rewrite js_or_disjoint by lia. rewrite i32_id by (unfold isInt32; lia). lia.
Qed.

Lemma i32_sval v : 0 <= v < 2 ^ 32 -> i32 v = sval 4 v.
Proof.
  intros Hv. unfold sval. change (2 ^ (8 * 4 - 1)) with (2 ^ 31). change (2 ^ (8 * 4)) with (2 ^ 32).
  destruct (Z.geb_spec v (2 ^ 31)); [|apply i32_id; unfold isInt32; lia].
  rewrite <- (i32_add_mul v (-1)), i32_id by (unfold isInt32; lia). lia.
Qed.

Lemma idx_mid0 pre l post e : len pre = e -> 0 < len l -> idx (pre ++ l ++ post) e = l !! O.
Proof. intros He Hl. rewrite <- (Z.add_0_r e), (idx_mid pre l post e 0) by lia. done. Qed.

Lemma len_1 l : len l = 1 -> exists x, l = [x].
Proof. destruct l as [|x [|? l]]; intros; try (exfalso; len_lia). by exists x. Qed.

Lemma len_2 l : len l = 2 -> exists x y, l = [x; y].
Proof. destruct l as [|x [|y [|? l]]]; intros; try (exfalso; len_lia). by exists x, y. Qed.

Lemma len_4 l : len l = 4 -> exists x y z w, l = [x; y; z; w].
Proof. destruct l as [|x [|y [|z [|w [|? l]]]]]; intros; try (exfalso; len_lia). by exists x, y, z, w. Qed.

(** Proves a fixed-width read: names the bytes at the offset and evaluates the
    accesses; leaves an equation between byte expressions. *)
Ltac fixed_read Hb :=
  eapply checked_intro; [lia|reflexivity|];
  intros pre l post -> Hpre Hl;
  apply Forall_app in Hb as [_ Hb]; apply Forall_app in Hb as [Hb _];
  first [destruct (len_1 l Hl) as (x & ->) | destruct (len_2 l Hl) as (x & y & ->)
        | destruct (len_4 l Hl) as (x & y & z & w & ->)];
  repeat match goal with H : Forall isByte (_ :: _) |- _ => apply Forall_cons in H as [? H] end;
  unfold idx0; rewrite ?(idx_mid pre _ post _ _ Hpre), ?(idx_mid0 pre _ post _ Hpre) by len_lia;
  change (Z.to_nat 1) with 1%nat; change (Z.to_nat 2) with 2%nat; change (Z.to_nat 3) with 3%nat;
  cbn -[Z.mul Z.add js_or js_shl js_and sval].

Lemma readUInt8_checked b e : bytes b -> readUInt8 b e false = checked b e 1 le.
Proof. intros Hb. unfold readUInt8. fixed_read Hb. f_equal. lia. Qed.

Lemma readUInt16LE_checked b e : bytes b -> readUInt16LE b e false = checked b e 2 le.
Proof. intros Hb. unfold readUInt16LE. fixed_read Hb. rewrite or16 by done. f_equal. lia. Qed.

Lemma readUInt16BE_checked b e : bytes b -> readUInt16BE b e false = checked b e 2 (fun l => le (rev l)).
Proof. intros Hb. unfold readUInt16BE. fixed_read Hb. rewrite js_or_comm, or16 by done. f_equal. lia. Qed.

Lemma readUInt32LE_checked b e : bytes b -> readUInt32LE b e false = checked b e 4 le.
Proof. intros Hb. unfold readUInt32LE. fixed_read Hb. rewrite or24 by done. f_equal. lia. Qed.

Lemma or24_be y z w : isByte y -> isByte z -> isByte w -> y <<. 16 .| z <<. 8 .| w = w + 256 * (z + 256 * y).
Proof. intros. by rewrite js_or_comm, (js_or_comm (y <<. 16)), <- js_or_assoc, or24. Qed.

Lemma readUInt32BE_checked b e : bytes b -> readUInt32BE b e false = checked b e 4 (fun l => le (rev l)).
Proof. intros Hb. unfold readUInt32BE. fixed_read Hb. rewrite or24_be by done. f_equal. lia. Qed.

Lemma readInt8_checked b e : bytes b -> readInt8 b e false = checked b e 1 (fun l => sval 1 (le l)).
Proof.
  intros Hb. unfold readInt8. fixed_read Hb. unfold isByte in *. change 128 with (2 ^ 7) at 1. rewrite (high_bit x 7) by lia.
  unfold sval. change (2 ^ (8 * 1 - 1)) with (2 ^ 7). change (2 ^ (8 * 1)) with 256.
  destruct (Z.ltb_spec x (2 ^ 7)); cbn [option_map]; f_equal; destruct (Z.geb_spec (x + 256 * 0) (2 ^ 7)); lia.
Qed.

Lemma readInt16LE_checked b e : bytes b -> readInt16LE b e false = checked b e 2 (fun l => sval 2 (le l)).
Proof.
  intros Hb. unfold readInt16LE. fixed_read Hb. rewrite or16 by done. unfold isByte in *.
  rewrite extend16_sval by lia. do 2 f_equal. lia.
Qed.

Lemma readInt16BE_checked b e : bytes b -> readInt16BE b e false = checked b e 2 (fun l => sval 2 (le (rev l))).
Proof.
  intros Hb. unfold readInt16BE. fixed_read Hb. rewrite or16 by done. unfold isByte in *.
  rewrite extend16_sval by lia. do 2 f_equal. lia.
Qed.

Lemma readInt32LE_checked b e : bytes b -> readInt32LE b e false = checked b e 4 (fun l => sval 4 (le l)).
Proof.
  intros Hb. unfold readInt32LE. fixed_read Hb. rewrite or32 by done. unfold isByte in *.
  rewrite i32_sval by lia. do 2 f_equal. lia.
Qed.

Lemma readInt32BE_checked b e : bytes b -> readInt32BE b e false = checked b e 4 (fun l => sval 4 (le (rev l))).
Proof.
  intros Hb. unfold readInt32BE. fixed_read Hb.
  rewrite js_or_comm, (js_or_comm (_ .| _)), (js_or_comm (x <<. 24)), <- !js_or_assoc, or32 by done.
  unfold isByte in *. rewrite i32_sval by lia. do 2 f_equal. lia.
Qed.

(** ** Writing *)

(** The little-endian bytes of a number, in two's complement. *)
Fixpoint le_bytes (n : nat) (v : Z) : list Z :=
  match n with O => [] | S n => v mod 256 :: le_bytes n (v / 256) end.

Lemma le_bytes_length n : forall v, length (le_bytes n v) = n.
Proof. induction n; intros v; cbn; [done|]. by rewrite IHn. Qed.

Lemma le_bytes_bytes n : forall v, bytes (le_bytes n v).
Proof. induction n; intros v; constructor; [|apply IHn]. unfold isByte. apply Z.mod_pos_bound. lia. Qed.

Lemma le_le_bytes n : forall v, le (le_bytes n v) = v mod 256 ^ Z.of_nat n.
Proof.
  induction n as [|n IH]; intros v; cbn [le le_bytes]; [by rewrite Z.mod_1_r|].
  rewrite IH, Nat2Z.inj_succ, Z.pow_succ_r by lia.
  rewrite Z.rem_mul_r by lia. lia.
Qed.

(** What all the checked writes come to at an offset that is not negative. *)
Definition written (b : buffer) (e t n hi lo : Z) (w : list Z) : js (buffer * Z) :=
  _ <-! I_ b e t n hi lo ;;
  Ok (take (Z.to_nat t) b ++ w ++ drop (Z.to_nat (t + n)) b, t + n).

Lemma written_intro b e t n hi lo w (r : js (buffer * Z)) x :
  0 <= t -> 0 <= n ->
  r = (_ <-! I_ b e t n hi lo ;; Ok (x, t + n)) ->
  (forall pre l post, b = pre ++ l ++ post -> len pre = t -> len l = n -> lo <= e <= hi -> x = pre ++ w ++ post) ->
  r = written b e t n hi lo w.
Proof.
  intros Ht Hn -> Hx. unfold written, I_.
  destruct (Z.gtb_spec e hi); [done|]. destruct (Z.ltb_spec e lo); [done|]. cbn [orb].
  destruct (Z.gtb_spec (t + n) (len b)); [done|]. cbn [js_bind].
  destruct (split_at b t n) as (pre & l & post & -> & Hpre & Hl); [lia..|].
  rewrite (Hx pre l post) by (done || lia). do 3 f_equal.
  - unfold len in Hpre. by rewrite take_app_length' by lia.
  - f_equal. rewrite app_assoc, drop_app_length' by (rewrite length_app; unfold len in *; lia). done.
Qed.

Lemma and255 e : js_and 255 e = e mod 256.
Proof. rewrite js_and_comm. change 255 with (2 ^ 8 - 1). by rewrite js_and_ones by lia. Qed.

Lemma byte_of_div e o : 0 <= e -> 0 < o -> byte_of e o = (e / o) mod 256.
Proof.
  intros He Ho. unfold byte_of. change 255 with (2 ^ 8 - 1). rewrite js_and_ones by lia.
  by rewrite Z.quot_div_nonneg.
Qed.

Lemma mod256_twice x : (x mod 256) mod 256 = x mod 256.
Proof. apply Z.mod_mod. lia. Qed.

(** A write in the middle, at the first byte or at the last byte of a segment. *)
Lemma put_first P x l post p v : len P = p -> put (P ++ (x :: l) ++ post) p v = (P ++ [v mod 256]) ++ l ++ post.
Proof.
  intros Hp. replace p with (p + 0) at 1 by lia. rewrite put_mid by len_lia. by rewrite <- app_assoc.
Qed.

Lemma put_last pre l x post p v : len pre + len l = p ->
  put (pre ++ (l ++ [x]) ++ post) p v = pre ++ l ++ (v mod 256) :: post.
Proof.
  intros Hp. replace p with (len pre + len l) by lia. rewrite put_mid by len_lia. unfold len. rewrite Nat2Z.id.
  rewrite insert_app_r_alt, Nat.sub_diag by lia. by rewrite <- app_assoc.
Qed.

Lemma writeLE_loop_spec e post l : forall P t i o, 0 <= e -> 0 < o -> len P = t + i ->
  writeLE_loop (P ++ l ++ post) e t (length l) i o = P ++ le_bytes (length l) (e / (o * 256)) ++ post.
Proof.
  induction l as [|x l IH]; intros P t i o He Ho HP; cbn [length writeLE_loop le_bytes]; [done|].
  rewrite put_first, byte_of_div, mod256_twice, IH by len_lia.
  by rewrite <- app_assoc, Z.div_div by lia.
Qed.

Lemma writeBE_loop_spec e pre l : forall post t i, 0 <= e -> 0 < i -> len pre = t ->
  writeBE_loop (pre ++ l ++ post) e t (length l) i = pre ++ rev (le_bytes (length l) (e / (i * 256))) ++ post.
Proof.
  induction l as [|x l IH] using rev_ind; intros post t i He Hi Ht; [done|].
  rewrite length_app, Nat.add_1_r. cbn [writeBE_loop le_bytes rev].
  rewrite put_last by (unfold len in *; lia). rewrite byte_of_div, mod256_twice, IH by lia.
  by rewrite <- app_assoc, Z.div_div by lia.
Qed.

(** The borrow makes the truncated quotient a floor. *)
Definition inexact (e a : Z) : Z := if (e <? 0) && negb (e mod a =? 0) then 1 else 0.

Lemma quot_floor e a : 0 < a -> Z.quot e a - inexact e a = e / a.
Proof.
  intros Ha. unfold inexact. destruct (Z.ltb_spec e 0); cbn [andb].
  - replace e with (- - e) at 1 by lia. rewrite Z.quot_opp_l, Z.quot_div_nonneg by lia.
    pose proof (Z.div_mod e a ltac:(lia)). destruct (Z.eqb_spec (e mod a) 0) as [E|E]; cbn [negb].
    + rewrite (Z.div_opp_l_z e) by lia. lia.
    + rewrite (Z.div_opp_l_nz e) by lia. lia.
  - rewrite Z.quot_div_nonneg by lia. lia.
Qed.

Lemma borrow_step e a : 0 < a -> borrow e (inexact e a) (Some ((e / a) mod 256)) = inexact e (a * 256).
Proof.
  intros Ha. unfold borrow, inexact. rewrite (Z.rem_mul_r e a 256) by lia.
  pose proof (Z.mod_pos_bound e a ltac:(lia)). pose proof (Z.mod_pos_bound (e / a) 256 ltac:(lia)).
  destruct (e <? 0); cbn [andb]; [|done].
  destruct (Z.eqb_spec (e mod a) 0) as [->|]; cbn [negb Z.eqb andb].
  - case_bool_decide as Hb; [injection Hb as ->; by rewrite Z.mul_0_r|]. cbn [negb].
    destruct (Z.eqb_spec (0 + a * ((e / a) mod 256)) 0) as [E|E]; [|done].
    exfalso. apply Hb. f_equal. nia.
  - destruct (Z.eqb_spec (e mod a + a * ((e / a) mod 256)) 0); [nia|done].
Qed.

Lemma signed_byte_div e a : 0 < a -> signed_byte e a (inexact e a) = (e / a) mod 256.
Proof.
  intros Ha. unfold signed_byte. change 255 with (2 ^ 8 - 1). rewrite js_and_ones by lia. change (2 ^ 8) with 256.
  assert (js_shr (Z.quot e a) 0 = i32 (Z.quot e a)) as ->. { unfold js_shr. by rewrite Z.shiftr_0_r. }
  destruct (i32_eqm (Z.quot e a)) as [k ->]. rewrite <- (quot_floor e a) by done.
  replace (Z.quot e a + k * 2 ^ 32 - inexact e a) with (Z.quot e a - inexact e a + (k * 2 ^ 24) * 256) by lia.
  by rewrite Z.mod_add by lia.
Qed.

Lemma writeIntLE_loop_spec e post l : forall P t i a, 0 < a -> len P + 1 = t + i ->
  writeIntLE_loop ((P ++ [(e / a) mod 256]) ++ l ++ post) e t (length l) i a (inexact e a) =
  (P ++ [(e / a) mod 256]) ++ le_bytes (length l) (e / (a * 256)) ++ post.
Proof.
  induction l as [|x l IH]; intros P t i a Ha HP; cbn [length writeIntLE_loop le_bytes]; [done|].
  replace (idx ((P ++ [(e / a) mod 256]) ++ (x :: l) ++ post) (t + i - 1)) with (Some ((e / a) mod 256)).
  2: { rewrite <- app_assoc. replace (t + i - 1) with (len P) by lia.
       change ([(e / a) mod 256] ++ (x :: l) ++ post) with ([(e / a) mod 256] ++ ((x :: l) ++ post)).
       rewrite idx_mid0 by len_lia. done. }
  rewrite borrow_step, signed_byte_div by lia. rewrite put_first, mod256_twice by len_lia.
  rewrite IH by len_lia. by rewrite <- !app_assoc, Z.div_div by lia.
Qed.

Lemma writeIntBE_loop_spec e pre l : forall post t a, 0 < a -> len pre = t ->
  writeIntBE_loop (pre ++ l ++ (e / a) mod 256 :: post) e t (length l) a (inexact e a) =
  pre ++ rev (le_bytes (length l) (e / (a * 256))) ++ (e / a) mod 256 :: post.
Proof.
  induction l as [|x l IH] using rev_ind; intros post t a Ha Ht; [done|].
  rewrite length_app, Nat.add_1_r. cbn [writeIntBE_loop le_bytes rev].
  replace (idx (pre ++ (l ++ [x]) ++ (e / a) mod 256 :: post) (t + Z.of_nat (length l) + 1)) with (Some ((e / a) mod 256)).
  2: { replace (pre ++ (l ++ [x]) ++ (e / a) mod 256 :: post)
         with ((pre ++ l ++ [x]) ++ [(e / a) mod 256] ++ post) by (by rewrite <- !app_assoc).
       rewrite idx_mid0 by (unfold len in *; rewrite ?length_app; cbn [length]; lia). done. }
  rewrite borrow_step, signed_byte_div by lia. rewrite put_last by (unfold len in *; lia).
  rewrite mod256_twice, IH by lia. by rewrite <- app_assoc, Z.div_div by lia.
Qed.

(** ** The write methods *)

Lemma seg_first l n : 1 <= n -> len l = n -> exists x l', l = x :: l' /\ length l' = Z.to_nat (n - 1).
Proof. destruct l as [|x l']; intros; [len_lia|]. exists x, l'. split; [done|]. unfold len in *. cbn [length] in *. lia. Qed.

Lemma seg_last l n : 1 <= n -> len l = n -> exists x l', l = l' ++ [x] /\ length l' = Z.to_nat (n - 1).
Proof.
  intros Hn Hl. destruct (exists_last (l := l)) as (l' & x & ->); [intros ->; len_lia|].
  exists x, l'. split; [done|]. unfold len in *. rewrite length_app in Hl. cbn [length] in *. lia.
Qed.

Lemma succ_pred n : 1 <= n -> Z.to_nat n = S (Z.to_nat (n - 1)).
Proof. lia. Qed.

Section Offset.
Context (b : buffer) (e t : Z) (Ht : 0 <= t) (Hi : isInt32 t).

Lemma writeUIntLE_written n : width n ->
  writeUIntLE b e t n false = written b e t n (2 ^ (8 * n) - 1) 0 (le_bytes (Z.to_nat n) e).
Proof using Ht Hi.
  intros Hn. pose proof (width_int32 n Hn). unfold writeUIntLE. rewrite !js_or_0_r, !i32_id by done. unfold width in Hn.
  eapply written_intro; [lia..|reflexivity|]. intros pre l post -> Hpre Hl He.
  destruct (seg_first l n) as (x & l' & -> & Hlen); [lia..|].
  rewrite put_first, and255, mod256_twice by done. rewrite <- Hlen, writeLE_loop_spec by len_lia.
  by rewrite <- app_assoc, (succ_pred n), <- Hlen by lia.
Qed.

Lemma writeUIntBE_written n : width n ->
  writeUIntBE b e t n false = written b e t n (2 ^ (8 * n) - 1) 0 (rev (le_bytes (Z.to_nat n) e)).
Proof using Ht Hi.
  intros Hn. pose proof (width_int32 n Hn). unfold writeUIntBE. rewrite !js_or_0_r, !i32_id by done. unfold width in Hn.
  eapply written_intro; [lia..|reflexivity|]. intros pre l post -> Hpre Hl He.
  destruct (seg_last l n) as (x & l' & -> & Hlen); [lia..|].
  rewrite put_last, and255, mod256_twice by (unfold len in *; lia). rewrite <- Hlen, writeBE_loop_spec by len_lia.
  rewrite (succ_pred n), <- Hlen by lia. cbn [le_bytes rev]. by rewrite <- app_assoc, Z.mul_1_l.
Qed.

Lemma writeIntLE_written n : width n ->
  writeIntLE b e t n false = written b e t n (2 ^ (8 * n - 1) - 1) (- 2 ^ (8 * n - 1)) (le_bytes (Z.to_nat n) e).
Proof using Ht Hi.
  intros Hn. unfold writeIntLE. rewrite !js_or_0_r, !i32_id by done. unfold width in Hn.
  eapply written_intro; [lia..|reflexivity|]. intros pre l post -> Hpre Hl He.
  destruct (seg_first l n) as (x & l' & -> & Hlen); [lia..|].
  rewrite put_first, and255, mod256_twice by done.
  pose proof (writeIntLE_loop_spec e post l' pre t 1 1 ltac:(lia) ltac:(lia)) as Hspec.
  rewrite Z.div_1_r in Hspec. replace (inexact e 1) with 0 in Hspec.
  2: { unfold inexact. rewrite Z.mod_1_r. by destruct (e <? 0). }
  rewrite <- Hlen, Hspec, (succ_pred n), <- Hlen by lia. cbn [le_bytes]. by rewrite <- app_assoc.
Qed.

Lemma writeIntBE_written n : width n ->
  writeIntBE b e t n false = written b e t n (2 ^ (8 * n - 1) - 1) (- 2 ^ (8 * n - 1)) (rev (le_bytes (Z.to_nat n) e)).
Proof using Ht Hi.
  intros Hn. unfold writeIntBE. rewrite !js_or_0_r, !i32_id by done. unfold width in Hn.
  eapply written_intro; [lia..|reflexivity|]. intros pre l post -> Hpre Hl He.
  destruct (seg_last l n) as (x & l' & -> & Hlen); [lia..|].
  rewrite put_last, and255, mod256_twice by (unfold len in *; lia).
  pose proof (writeIntBE_loop_spec e pre l' post t 1 ltac:(lia) ltac:(lia)) as Hspec.
  rewrite Z.div_1_r in Hspec. replace (inexact e 1) with 0 in Hspec.
  2: { unfold inexact. rewrite Z.mod_1_r. by destruct (e <? 0). }
  rewrite <- Hlen, Hspec, (succ_pred n), <- Hlen by lia. cbn [le_bytes rev]. by rewrite <- app_assoc.
Qed.

End Offset.

(** The bytes of the fixed widths. *)
Lemma ushr_byte x s : 0 <= s <= 24 -> js_ushr x s mod 256 = (x / 2 ^ s) mod 256.
Proof.
  intros Hs. rewrite js_ushr_small by lia. destruct (u32_eqm x) as [k ->].
  replace (k * 2 ^ 32) with ((k * 2 ^ (24 - s) * 256) * 2 ^ s).
  2: { rewrite <- !Z.mul_assoc, (Z.mul_comm 256), !Z.mul_assoc, <- (Z.mul_assoc k), <- Z.pow_add_r by lia.
       replace (24 - s + s) with 24 by lia. lia. }
  rewrite Z.div_add by (pose proof (Z.pow_pos_nonneg 2 s); lia). by rewrite Z.mod_add by lia.
Qed.

Lemma le_bytes_2 v : le_bytes 2 v = [v mod 256; (v / 2 ^ 8) mod 256].
Proof. done. Qed.

Lemma le_bytes_4 v : le_bytes 4 v = [v mod 256; (v / 2 ^ 8) mod 256; (v / 2 ^ 16) mod 256; (v / 2 ^ 24) mod 256].
Proof. cbn [le_bytes]. by rewrite !Z.div_div by lia. Qed.

Lemma le_bytes_wrap n k : forall v, le_bytes n (v + k * 256 ^ Z.of_nat n) = le_bytes n v.
Proof.
  induction n as [|n IH]; intros v; [done|]. cbn [le_bytes]. rewrite Nat2Z.inj_succ, Z.pow_succ_r by lia.
  replace (k * (256 * 256 ^ Z.of_nat n)) with ((k * 256 ^ Z.of_nat n) * 256) by lia.
  by rewrite Z.mod_add, Z.div_add, IH by lia.
Qed.

Lemma put_mid0 pre l post v p : len pre = p -> 0 < len l ->
  put (pre ++ l ++ post) p v = pre ++ <[O := v mod 256]> l ++ post.
Proof. intros Hp Hl. replace p with (p + 0) by lia. by rewrite (put_mid pre l post p 0) by lia. Qed.

Lemma j_byte x s : s = 0 \/ s = 8 -> js_ushr (js_and x (js_shl 255 s)) s = (x / 2 ^ s) mod 256.
Proof.
  intros Hs. apply Z.bits_inj'. intros i Hi0. rewrite js_ushr_testbit by lia.
  change 256 with (2 ^ 8). destruct (Z.ltb_spec i 8); [rewrite Z.mod_pow2_bits_low, Z.div_pow2_bits by lia|rewrite Z.mod_pow2_bits_high by lia].
  - rewrite (proj2 (Z.ltb_lt _ _)), js_and_testbit by lia. rewrite js_shl_small, i32_testbit, Z.mul_pow2_bits, Z.add_simpl_r by lia.
    replace (Z.testbit 255 i) with true; [by rewrite andb_true_r|].
    change 255 with (Z.ones 8). symmetry. apply Z.ones_spec_low. lia.
  - destruct (Z.ltb_spec (i + s) 32); [|done]. rewrite js_and_testbit by lia.
    rewrite js_shl_small, i32_testbit, Z.mul_pow2_bits, Z.add_simpl_r by lia. change 255 with (Z.ones 8).
    by rewrite Z.ones_spec_high, andb_false_r by lia.
Qed.

Lemma mod256_byte x : isByte (x mod 256).
Proof. unfold isByte. apply Z.mod_pos_bound. lia. Qed.

Lemma j_spec e t pre x y post r : len pre = t ->
  j (pre ++ [x; y] ++ post) e t r = pre ++ (if r then le_bytes 2 e else rev (le_bytes 2 e)) ++ post.
Proof.
  intros Hp. unfold j. set (v := if e <? 0 then 65535 + e + 1 else e).
  assert (le_bytes 2 e = le_bytes 2 v) as ->.
  { subst v. destruct (e <? 0); [|done]. rewrite <- (le_bytes_wrap 2 1 e). f_equal. cbn. lia. }
  replace (Z.to_nat (Z.min (len (pre ++ [x; y] ++ post) - t) 2)) with 2%nat by len_lia.
  cbn [j_loop]. rewrite le_bytes_2.
  destruct r; rewrite !j_byte by lia; rewrite !put_raw_mid by (len_lia || apply mod256_byte);
    rewrite !mod256_twice, ?Z.div_1_r; cbn -[Z.modulo Z.div Z.pow]; by rewrite ?Z.div_1_r.
Qed.

Lemma N_byte x s : 0 <= s <= 24 -> js_and (js_ushr x s) 255 = (x / 2 ^ s) mod 256.
Proof. intros Hs. rewrite js_and_comm, and255. by apply ushr_byte. Qed.

Lemma N_spec e t pre x y z w post r : len pre = t ->
  N_ (pre ++ [x; y; z; w] ++ post) e t r = pre ++ (if r then le_bytes 4 e else rev (le_bytes 4 e)) ++ post.
Proof.
  intros Hp. unfold N_. set (v := if e <? 0 then 4294967295 + e + 1 else e).
  assert (le_bytes 4 e = le_bytes 4 v) as ->.
  { subst v. destruct (e <? 0); [|done]. rewrite <- (le_bytes_wrap 4 1 e). f_equal. cbn. lia. }
  replace (Z.to_nat (Z.min (len (pre ++ [x; y; z; w] ++ post) - t) 4)) with 4%nat by len_lia.
  cbn [N_loop]. rewrite le_bytes_4.
  destruct r; rewrite !N_byte by lia; rewrite !put_raw_mid by (len_lia || apply mod256_byte);
    rewrite !mod256_twice, ?Z.div_1_r; cbn -[Z.modulo Z.div Z.pow]; by rewrite ?Z.div_1_r.
Qed.

Section Fixed.
Context (b : buffer) (e t : Z) (Ht : 0 <= t) (Hi : isInt32 t).

(** Proves a fixed-width write, whose bytes are [2] or [4]. *)
Ltac fixed_write :=
  rewrite !js_or_0_r, !i32_id by done; eapply written_intro; [lia..|reflexivity|];
  intros pre l post -> Hpre Hl He;
  first [destruct (len_1 l Hl) as (x & ->) | destruct (len_2 l Hl) as (x & y & ->)
        | destruct (len_4 l Hl) as (x & y & z & w & ->)];
  try match goal with |- context [if ?c then _ else _] => is_var c; destruct c; [|by rewrite ?j_spec, ?N_spec] end;
  rewrite ?le_bytes_4, ?le_bytes_2;
  repeat first [rewrite (put_mid0 pre) by len_lia | rewrite (put_mid pre _ _ t) by len_lia];
  rewrite ?and255, ?mod256_twice, ?ushr_byte by lia.

Context (ta : bool).

Lemma writeUInt8_written : writeUInt8 b e t false = written b e t 1 255 0 (le_bytes 1 e).
Proof using Ht Hi. unfold writeUInt8. fixed_write. done. Qed.

Lemma writeUInt16LE_written : writeUInt16LE ta b e t false = written b e t 2 65535 0 (le_bytes 2 e).
Proof using Ht Hi. unfold writeUInt16LE. fixed_write. done. Qed.

Lemma writeUInt16BE_written : writeUInt16BE ta b e t false = written b e t 2 65535 0 (rev (le_bytes 2 e)).
Proof using Ht Hi. unfold writeUInt16BE. fixed_write. done. Qed.

Lemma writeUInt32LE_written : writeUInt32LE ta b e t false = written b e t 4 4294967295 0 (le_bytes 4 e).
Proof using Ht Hi. unfold writeUInt32LE. fixed_write. done. Qed.

Lemma writeUInt32BE_written : writeUInt32BE ta b e t false = written b e t 4 4294967295 0 (rev (le_bytes 4 e)).
Proof using Ht Hi. unfold writeUInt32BE. fixed_write. done. Qed.

Lemma writeInt16LE_written : writeInt16LE ta b e t false = written b e t 2 32767 (-32768) (le_bytes 2 e).
Proof using Ht Hi. unfold writeInt16LE. fixed_write. done. Qed.

Lemma writeInt16BE_written : writeInt16BE ta b e t false = written b e t 2 32767 (-32768) (rev (le_bytes 2 e)).
Proof using Ht Hi. unfold writeInt16BE. fixed_write. done. Qed.

Lemma writeInt32LE_written : writeInt32LE ta b e t false = written b e t 4 2147483647 (-2147483648) (le_bytes 4 e).
Proof using Ht Hi. unfold writeInt32LE. fixed_write. done. Qed.

Lemma writeInt8_written : writeInt8 b e t false = written b e t 1 127 (-128) (le_bytes 1 e).
Proof using Ht Hi.
  unfold writeInt8. fixed_write. cbn [le_bytes]. destruct (e <? 0); [|done].
  replace (255 + e + 1) with (e + 1 * 256) by lia. rewrite Z.mod_add by lia. done.
Qed.

Lemma writeInt32BE_written :
  writeInt32BE ta b e t false = written b e t 4 2147483647 (-2147483648) (rev (le_bytes 4 e)).
Proof using Ht Hi.
  unfold writeInt32BE. set (v := if e <? 0 then 4294967295 + e + 1 else e).
  assert (le_bytes 4 e = le_bytes 4 v) as ->.
  { subst v. destruct (e <? 0); [|done]. rewrite <- (le_bytes_wrap 4 1 e). f_equal. cbn. lia. }
  fixed_write. done.
Qed.

End Fixed.

(** ** The properties *)

Lemma sval_id n e : 1 <= n -> - 2 ^ (8 * n - 1) <= e <= 2 ^ (8 * n - 1) - 1 -> sval n (e mod 256 ^ n) = e.
Proof.
  intros Hn He. unfold sval. replace (256 ^ n) with (2 ^ (8 * n)) by (by rewrite Z.pow_mul_r by lia).
  assert (2 ^ (8 * n) = 2 * 2 ^ (8 * n - 1)) as E by (rewrite <- Z.pow_succ_r by lia; f_equal; lia).
  destruct (Z.ltb_spec e 0).
  - replace (e mod 2 ^ (8 * n)) with (e + 2 ^ (8 * n)).
    2: { rewrite <- (Z.mod_add e 1) by lia. rewrite Z.mod_small by lia. lia. }
    destruct (Z.geb_spec (e + 2 ^ (8 * n)) (2 ^ (8 * n - 1))); lia.
  - rewrite Z.mod_small by lia. destruct (Z.geb_spec e (2 ^ (8 * n - 1))); lia.
Qed.

(** A checked read of what a checked write left. *)
Lemma checked_written b e t n hi lo w b' p f :
  0 <= t -> 0 <= n -> length w = Z.to_nat n -> written b e t n hi lo w = Ok (b', p) ->
  checked b' t n f = Ok (Some (f w)) /\ lo <= e <= hi.
Proof.
  intros Ht Hn Hw. unfold written, I_.
  destruct (Z.gtb_spec e hi); [done|]. destruct (Z.ltb_spec e lo); [done|]. cbn [orb].
  destruct (Z.gtb_spec (t + n) (len b)); [done|]. cbn [js_bind]. intros [= <- <-]. split; [|lia].
  assert (len (take (Z.to_nat t) b) = t) as Hlen by (unfold len in *; rewrite length_take; lia).
  unfold checked, M. rewrite (proj2 (Z.ltb_ge _ _)) by lia.
  match goal with |- context [?x >? ?y] => destruct (Z.gtb_spec x y) end.
  { exfalso. rewrite !len_app in *. unfold len in *. rewrite length_take, length_drop in *. lia. }
  cbn [js_bind]. rewrite sub_mid by (done || (unfold len; lia)). done.
Qed.

(** With an offset in int32 and a width from 1 to 6, the reading methods
    throw RangeError when the bytes are not all inside the buffer and otherwise
    give the value of the bytes: least significant first or last, unsigned or
    in two's complement. *)
Theorem read_value (b : buffer) (e t : Z) (He : isInt32 e) (Ht : width t) :
  readUIntLE b e t false = checked b e t le /\
  readUIntBE b e t false = checked b e t (fun l => le (rev l)) /\
  readIntLE b e t false = checked b e t (fun l => sval t (le l)) /\
  readIntBE b e t false = checked b e t (fun l => sval t (le (rev l))).
Proof.
  split_and!; auto using readUIntLE_checked, readUIntBE_checked, readIntLE_checked, readIntBE_checked.
Qed.

Lemma read_value_witness :
  readUIntLE [1; 2; 3; 255; 5] 1 3 false = Ok (Some (2 + 256 * (3 + 256 * 255))).
Proof.
  destruct (read_value [1; 2; 3; 255; 5] 1 3) as [-> _]; [unfold isInt32; lia|unfold width; lia|]. reflexivity.
Defined.

(** The reading methods of fixed width, which use bitwise operators, agree
    with the methods for any width, errors included. *)
Theorem fixed_reads_agree (b : buffer) (e : Z) (Hb : bytes b) (He : isInt32 e) :
  readUInt8 b e false = readUIntLE b e 1 false /\
  readUInt16LE b e false = readUIntLE b e 2 false /\
  readUInt16BE b e false = readUIntBE b e 2 false /\
  readUInt32LE b e false = readUIntLE b e 4 false /\
  readUInt32BE b e false = readUIntBE b e 4 false /\
  readInt8 b e false = readIntLE b e 1 false /\
  readInt16LE b e false = readIntLE b e 2 false /\
  readInt16BE b e false = readIntBE b e 2 false /\
  readInt32LE b e false = readIntLE b e 4 false /\
  readInt32BE b e false = readIntBE b e 4 false.
Proof.
  assert (width 1 /\ width 2 /\ width 4) as (H1 & H2 & H4) by (unfold width; lia).
  rewrite !readUIntLE_checked, !readUIntBE_checked, !readIntLE_checked, !readIntBE_checked by done.
  split_and!; auto using readUInt8_checked, readUInt16LE_checked, readUInt16BE_checked, readUInt32LE_checked,
    readUInt32BE_checked, readInt8_checked, readInt16LE_checked, readInt16BE_checked, readInt32LE_checked, readInt32BE_checked.
Qed.

Lemma fixed_reads_agree_witness : readInt32BE [255; 255; 255; 254] 0 false = Ok (Some (-2)).
Proof.
  destruct (fixed_reads_agree [255; 255; 255; 254] 0) as (_ & _ & _ & _ & _ & _ & _ & _ & _ & ->).
  - repeat constructor; unfold isByte; lia.
  - unfold isInt32; lia.
  - reflexivity.
Defined.

(** At an offset that is not negative, the writing methods throw RangeError
    when the value or the offset is out of range; otherwise they replace the
    bytes at the offset by the bytes of the value and return the offset after
    them.  The two ways of the fixed-width methods, for engines with and
    without typed arrays, write the same bytes. *)
Theorem write_value (ta : bool) (b : buffer) (e t n : Z) (Ht : 0 <= t) (Hi : isInt32 t) (Hn : width n) :
  writeUIntLE b e t n false = written b e t n (2 ^ (8 * n) - 1) 0 (le_bytes (Z.to_nat n) e) /\
  writeUIntBE b e t n false = written b e t n (2 ^ (8 * n) - 1) 0 (rev (le_bytes (Z.to_nat n) e)) /\
  writeIntLE b e t n false = written b e t n (2 ^ (8 * n - 1) - 1) (- 2 ^ (8 * n - 1)) (le_bytes (Z.to_nat n) e) /\
  writeIntBE b e t n false = written b e t n (2 ^ (8 * n - 1) - 1) (- 2 ^ (8 * n - 1)) (rev (le_bytes (Z.to_nat n) e)) /\
  writeUInt8 b e t false = writeUIntLE b e t 1 false /\
  writeUInt16LE ta b e t false = writeUIntLE b e t 2 false /\
  writeUInt16BE ta b e t false = writeUIntBE b e t 2 false /\
  writeUInt32LE ta b e t false = writeUIntLE b e t 4 false /\
  writeUInt32BE ta b e t false = writeUIntBE b e t 4 false /\
  writeInt8 b e t false = writeIntLE b e t 1 false /\
  writeInt16LE ta b e t false = writeIntLE b e t 2 false /\
  writeInt16BE ta b e t false = writeIntBE b e t 2 false /\
  writeInt32LE ta b e t false = writeIntLE b e t 4 false /\
  writeInt32BE ta b e t false = writeIntBE b e t 4 false.
Proof.
  assert (width 1 /\ width 2 /\ width 4) as (H1 & H2 & H4) by (unfold width; lia).
  rewrite !writeUIntLE_written, !writeUIntBE_written, !writeIntLE_written, !writeIntBE_written by done.
  split_and!; first [reflexivity|auto using writeUInt8_written, writeUInt16LE_written, writeUInt16BE_written,
    writeUInt32LE_written, writeUInt32BE_written, writeInt8_written, writeInt16LE_written, writeInt16BE_written,
    writeInt32LE_written, writeInt32BE_written].
Qed.

Lemma write_value_witness :
  writeInt32BE false [9; 9; 9; 9; 9; 9] (-2) 1 false = Ok ([9; 255; 255; 255; 254; 9], 5).
Proof.
  destruct (write_value false [9; 9; 9; 9; 9; 9] (-2) 1 4) as (_ & _ & _ & H & _ & _ & _ & _ & _ & _ & _ & _ & _ & ->).
  - lia.
  - unfold isInt32; lia.
  - unfold width; lia.
  - rewrite H. reflexivity.
Defined.

(** Reading back with the matching method, at the same offset and width,
    gives the value that was written, for every width from 1 to 6. *)
Theorem int_roundtrip (b b' : buffer) (e t n p : Z) (Ht : 0 <= t) (Hi : isInt32 t) (Hn : width n) :
  (writeUIntLE b e t n false = Ok (b', p) -> readUIntLE b' t n false = Ok (Some e)) /\
  (writeUIntBE b e t n false = Ok (b', p) -> readUIntBE b' t n false = Ok (Some e)) /\
  (writeIntLE b e t n false = Ok (b', p) -> readIntLE b' t n false = Ok (Some e)) /\
  (writeIntBE b e t n false = Ok (b', p) -> readIntBE b' t n false = Ok (Some e)).
Proof.
  rewrite readUIntLE_checked, readUIntBE_checked, readIntLE_checked, readIntBE_checked by done.
  rewrite writeUIntLE_written, writeUIntBE_written, writeIntLE_written, writeIntBE_written by done.
  unfold width in Hn.
  assert (256 ^ n = 2 ^ (8 * n)) as Hp by (by rewrite Z.pow_mul_r by lia).
  split_and!; intros H; eapply checked_written in H as [-> He]; try lia;
    try (rewrite ?length_rev; apply le_bytes_length); do 2 f_equal;
    rewrite ?rev_involutive, le_le_bytes, Z2Nat.id by lia; try (apply Z.mod_small; lia); apply sval_id; lia.
Qed.

Lemma int_roundtrip_witness :
  readIntLE [0; 236; 229; 102; 65; 227; 255] 1 6 false = Ok (Some (-123456789012)).
Proof.
  destruct (int_roundtrip [0; 0; 0; 0; 0; 0; 0] [0; 236; 229; 102; 65; 227; 255] (-123456789012) 1 6 7) as (_ & _ & H & _).
  - lia.
  - unfold isInt32; lia.
  - unfold width; lia.
  - apply H. vm_compute. reflexivity.
Defined.

(** The check of the writing methods does not look at the sign of the
    offset: a write before the buffer succeeds and changes nothing, where the
    matching read throws. *)
Theorem write_before_buffer (b : buffer) (e t : Z) (Ht : t < 0) (Hi : isInt32 t) (He : isByte e) :
  writeUInt8 b e t false = Ok (b, t + 1) /\ readUInt8 b t false = Throw RangeError.
Proof.
  unfold writeUInt8, readUInt8, unless, I_, M, put, isByte in *. rewrite js_or_0_r, i32_id by done.
  rewrite (proj2 (Z.ltb_lt t 0)) by lia. destruct (Z.gtb_spec e 255); [lia|]. destruct (Z.ltb_spec e 0); [lia|].
  destruct (Z.gtb_spec (t + 1) (len b)); [len_lia|done].
Qed.

Lemma write_before_buffer_witness : writeUInt8 [7] 5 (-1) false = Ok ([7], 0).
Proof. apply (write_before_buffer [7] 5 (-1)); unfold isInt32, isByte; lia. Defined.
