(* ===== verification/BufOps.v ===== *)
(** * Buffer: slices, copies, comparison and search

    The methods of module 54 of swagger-ui-bundle.js that move and compare
    bytes, in an engine with typed arrays.  [None] stands for an argument that
    is [undefined].  A slice is a view of the same memory in the program; the
    model gives the bytes it shows. *)

From S2P Require Import Prelude BufInt.
Local Open Scope Z_scope.
Local Open Scope js_scope.

(** ** Allocation *)

(** [a]: kMaxLength *)
Definition a_ : Z := 2147483647.

(** [u]: createBuffer; a typed array is filled with zeros. *)
Definition u_ (t : Z) : js buffer :=
  if a_ <? t then Throw RangeError
  else if t <? 0 then Throw RangeError
  else Ok (replicate (Z.to_nat t) 0).

(** [d]: checked *)
Definition d_ (e : Z) : js Z := if e >=? a_ then Throw RangeError else Ok (js_or e 0).

(** [c]: assertSize *)
Definition c_ (e : Z) : js unit := if e <? 0 then Throw RangeError else Ok tt.

(** [f]: allocUnsafe *)
Definition allocUnsafe (t : Z) : js buffer :=
  _ <-! c_ t ;;
  n <-! (if t <? 0 then Ok 0 else d_ t) ;;
  u_ n.

(** [p]: fromArrayLike *)
Definition fromArray (t : list Z) : js buffer :=
  n <-! d_ (len t) ;;
  e <-! u_ n ;;
  Ok (fold_left (fun e r => put e (Z.of_nat r) (js_and 255 (idx0 t (Z.of_nat r)))) (seq 0 (Z.to_nat n)) e).

(** ** Slices *)

Definition clamp (r x : Z) : Z :=
  if x <? 0 then (if x + r <? 0 then 0 else x + r) else if x >? r then r else x.

Definition slice (b : buffer) (e : Z) (t : option Z) : buffer :=
  let r := len b in
  let e := clamp r (i32 e) in
  let t := clamp r (match t with None => r | Some t => i32 t end) in
  let t := if t <? e then e else t in
  take (Z.to_nat (t - e)) (drop (Z.to_nat e) b).

(** ** Copies *)

(** [for (o = 0; o < i; ++o) e[o + t] = this[o + n]]; with [same] the source is
    the target itself, as it is being written. *)
Fixpoint copy_up (same : bool) (src e : buffer) (t n : Z) (k : nat) (o : Z) : buffer :=
  match k with
  | O => e
  | S k => copy_up same src (put e (o + t) (idx0 (if same then e else src) (o + n))) t n k (o + 1)
  end.

(** [for (o = i - 1; o >= 0; --o) e[o + t] = this[o + n]], for [this === e]. *)
Fixpoint copy_down (e : buffer) (t n : Z) (k : nat) : buffer :=
  match k with
  | O => e
  | S k => copy_down (put e (Z.of_nat k + t) (idx0 e (Z.of_nat k + n))) t n k
  end.

(** [Uint8Array.prototype.set] of the bytes [n .. n + i) of the source. *)
Definition set_bytes (e : buffer) (t : Z) (s : list Z) : buffer :=
  take (Z.to_nat t) e ++ s ++ drop (Z.to_nat t + length s) e.

Definition copy (same : bool) (this e : buffer) (t n r : option Z) : js (buffer * Z) :=
  let n := default 0 n in
  let r := default (len this) r in
  let t := default 0 t in
  let t := if t >=? len e then len e else t in
  let r := if (r >? 0) && (r <? n) then n else r in
  if r =? n then Ok (e, 0)
  else if (len e =? 0) || (len this =? 0) then Ok (e, 0)
  else if t <? 0 then Throw RangeError
  else if (n <? 0) || (n >=? len this) then Throw RangeError
  else if r <? 0 then Throw RangeError
  else
    let r := if r >? len this then len this else r in
    let r := if len e - t <? r - n then len e - t + n else r in
    let i := r - n in
    if same && (n <? t) && (t <? r) then Ok (copy_down e t n (Z.to_nat i), i)
    else if i <? 1000 then Ok (copy_up same this e t n (Z.to_nat i) 0, i)
    else Ok (set_bytes e t (take (Z.to_nat i) (drop (Z.to_nat n) this)), i).

(** [concat]; the list is an array of buffers. *)
Fixpoint concat_loop (e : list buffer) (r : buffer) (o : Z) : js buffer :=
  match e with
  | [] => Ok r
  | a :: e =>
      x <-! copy false a r (Some o) None None ;;
      concat_loop e (fst x) (o + len a)
  end.

Definition concat_ (e : list buffer) (t : option Z) : js buffer :=
  match e with
  | [] => u_ 0
  | _ =>
      let t := match t with Some t => t | None => fold_left (fun t b => t + len b) e 0 end in
      r <-! allocUnsafe t ;;
      concat_loop e r 0
  end.

(** ** Filling *)

(** [for (i = t; i < n; ++i) this[i] = e] *)
Fixpoint fill_num (b : buffer) (e i : Z) (k : nat) : buffer :=
  match k with O => b | S k => fill_num (put b i e) e (i + 1) k end.

(** [for (i = 0; i < n - t; ++i) this[i + t] = a[i % u]]; [a[NaN]] is
    undefined, stored as 0. *)
Fixpoint fill_buf (b a : buffer) (t i : Z) (k : nat) : buffer :=
  match k with
  | O => b
  | S k =>
      let x := if len a =? 0 then 0 else idx0 a (i mod len a) in
      fill_buf (put b (i + t) x) a t (i + 1) k
  end.

(** The check and the range of [fill]; [go] is the loop for the value. *)
Definition fill_range (b : buffer) (t n : option Z) (go : Z -> Z -> buffer) : js buffer :=
  if match t with Some t => (t <? 0) || (len b <? t) | None => false end
     || match n with Some n => len b <? n | None => false end then Throw RangeError
  else if match n, t with Some n, Some t => n <=? t | _, _ => false end then Ok b
  else
    let t := u32 (default 0 t) in
    let n := match n with None => len b | Some n => u32 n end in
    Ok (go t n).

Definition fill_number (b : buffer) (e : Z) (t n : option Z) : js buffer :=
  let e := js_and e 255 in
  fill_range b t n (fun t n => fill_num b e t (Z.to_nat (n - t))).

Definition fill_buffer (b a : buffer) (t n : option Z) : js buffer :=
  fill_range b t n (fun t n => fill_buf b a t 0 (Z.to_nat (n - t))).

(** ** Comparison *)

(** The loop finds the first difference; the lengths stand for the values when
    there is none. *)
Fixpoint compare_loop (e t : buffer) (k : nat) (n r : Z) : Z * Z :=
  match k, e, t with
  | S k, x :: e, y :: t => if negb (x =? y) then (x, y) else compare_loop e t k n r
  | _, _, _ => (n, r)
  end.

Definition three_way (x : Z * Z) : Z := if fst x <? snd x then -1 else if snd x <? fst x then 1 else 0.

Definition compare_ (e t : buffer) : Z :=
  three_way (compare_loop e t (Z.to_nat (Z.min (len e) (len t))) (len e) (len t)).

Definition equals_ (this e : buffer) : bool := compare_ this e =? 0.

(** [buf.compare(target, start, end, thisStart, thisEnd)]; [same] is
    [this === target]. *)
Definition compare_range (same : bool) (this e : buffer) (t n r o : option Z) : js Z :=
  let t := default 0 t in
  let n := default (len e) n in
  let r := default 0 r in
  let o := default (len this) o in
  if (t <? 0) || (n >? len e) || (r <? 0) || (o >? len this) then Throw RangeError
  else if (r >=? o) && (t >=? n) then Ok 0
  else if r >=? o then Ok (-1)
  else if t >=? n then Ok 1
  else
    let t := u32 t in let n := u32 n in let r := u32 r in let o := u32 o in
    if same then Ok 0 else
    let i := o - r in
    let a := n - t in
    Ok (three_way (compare_loop (slice this r (Some o)) (slice e t (Some n)) (Z.to_nat (Z.min i a)) i a)).

(** ** Search *)

(** [g], forwards, for the encodings with one byte per element: [c] is where
    the current match starts, -1 for none. *)
Fixpoint g_loop (fuel : nat) (e t : buffer) (i c : Z) : option Z :=
  match fuel with
  | O => None
  | S fuel =>
      if i <? len e then
        if bool_decide (idx e i = idx t (if c =? -1 then 0 else i - c)) then
          let c := if c =? -1 then i else c in
          if i - c + 1 =? len t then Some c else g_loop fuel e t (i + 1) c
        else
          let i := if c =? -1 then i else c in
          g_loop fuel e t (i + 1) (-1)
      else Some (-1)
  end.

(** Every position is the start of at most one attempt, of at most [len t]
    steps, and one more step ends the loop. *)
Definition g_fuel (e t : buffer) : nat := (length e + 1) * (length t + 2).

(** The inner loop of [g], backwards. *)
Fixpoint g_match (e t : buffer) (i : Z) (k : nat) (p : Z) : bool :=
  match k with
  | O => true
  | S k => if bool_decide (idx e (i + p) = idx t p) then g_match e t i k (p + 1) else false
  end.

Fixpoint g_back (e t : buffer) (k : nat) : Z :=
  match k with
  | O => -1
  | S k => if g_match e t (Z.of_nat k) (length t) 0 then Z.of_nat k else g_back e t k
  end.

Definition g (e t : buffer) (n : Z) (o : bool) : option Z :=
  if o then g_loop (g_fuel e t) e t n (-1)
  else
    let n := if n + len t >? len e then len e - len t else n in
    Some (g_back e t (Z.to_nat (n + 1))).

(** [m]: bidirectionalIndexOf with a buffer to look for; [None] as [n] is NaN,
    which [undefined] converts to. *)
Definition m_index (e t : buffer) (n : option Z) (o : bool) : option Z :=
  if len e =? 0 then Some (-1)
  else
    let n := option_map (fun n => if n >? 2147483647 then 2147483647 else if n <? -2147483648 then -2147483648 else n) n in
    let n := match n with None => if o then 0 else len e - 1 | Some n => n end in
    let n := if n <? 0 then len e + n else n in
    if n >=? len e then
      if o then Some (-1) else if len t =? 0 then Some (-1) else g e t (len e - 1) o
    else if n <? 0 then
      if negb o then Some (-1) else if len t =? 0 then Some (-1) else g e t 0 o
    else if len t =? 0 then Some (-1) else g e t n o.

Definition indexOf (this e : buffer) (t : option Z) : option Z := m_index this e t true.
Definition lastIndexOf (this e : buffer) (t : option Z) : option Z := m_index this e t false.
Definition includes (this e : buffer) (t : option Z) : option bool :=
  option_map (fun i => negb (i =? -1)) (indexOf this e t).

(** ** Swapping bytes *)

(** [v]: swap *)
Definition v_swap (e : buffer) (t n : Z) : buffer :=
  let r := idx0 e t in put (put e t (idx0 e n)) n r.

Fixpoint swap16_loop (b : buffer) (t : Z) (k : nat) : buffer :=
  match k with O => b | S k => swap16_loop (v_swap b t (t + 1)) (t + 2) k end.

Fixpoint swap32_loop (b : buffer) (t : Z) (k : nat) : buffer :=
  match k with O => b | S k => swap32_loop (v_swap (v_swap b t (t + 3)) (t + 1) (t + 2)) (t + 4) k end.

Fixpoint swap64_loop (b : buffer) (t : Z) (k : nat) : buffer :=
  match k with
  | O => b
  | S k =>
      swap64_loop (v_swap (v_swap (v_swap (v_swap b t (t + 7)) (t + 1) (t + 6)) (t + 2) (t + 5)) (t + 3) (t + 4)) (t + 8) k
  end.

Definition swap_with (size : Z) (loop : buffer -> Z -> nat -> buffer) (b : buffer) : js buffer :=
  if negb (len b mod size =? 0) then Throw RangeError
  else Ok (loop b 0 (Z.to_nat (len b / size))).

Definition swap16 : buffer -> js buffer := swap_with 2 swap16_loop.
Definition swap32 : buffer -> js buffer := swap_with 4 swap32_loop.
Definition swap64 : buffer -> js buffer := swap_with 8 swap64_loop.
