(* ===== verification/BufOpsFacts.v ===== *)
(** * Buffer: what slices, copies, comparison and search do *)

From S2P Require Import Prelude BufInt BufIntFacts BufOps.
Local Open Scope Z_scope.
Local Open Scope js_scope.

(** ** Comparison *)

(** The lexicographic order of byte strings. *)
Fixpoint lex (e t : buffer) : Z :=
  match e, t with
  | [], [] => 0
  | [], _ :: _ => -1
  | _ :: _, [] => 1
  | x :: e, y :: t => if x <? y then -1 else if y <? x then 1 else lex e t
  end.

Lemma compare_loop_lex e : forall t n r,
  n - r = len e - len t ->
  three_way (compare_loop e t (Z.to_nat (Z.min (len e) (len t))) n r) = lex e t.
Proof.
  induction e as [|x e IH]; intros t n r Hd.
  - replace (Z.to_nat _) with O by len_lia. cbn [compare_loop]. unfold three_way. cbn [fst snd].
    destruct t as [|y t]; cbn [lex]; destruct (Z.ltb_spec n r); destruct (Z.ltb_spec r n); try done; len_lia.
  - destruct t as [|y t].
    + replace (Z.to_nat _) with O by len_lia. cbn [compare_loop lex]. unfold three_way. cbn [fst snd].
      destruct (Z.ltb_spec n r); destruct (Z.ltb_spec r n); try done; len_lia.
    + replace (Z.to_nat (Z.min (len (x :: e)) (len (y :: t)))) with (S (Z.to_nat (Z.min (len e) (len t)))) by len_lia.
      cbn [compare_loop lex]. destruct (Z.eqb_spec x y) as [->|Hne]; cbn [negb].
      * rewrite Z.ltb_irrefl. apply IH. len_lia.
      * unfold three_way. cbn [fst snd]. destruct (Z.ltb_spec x y); [done|]. destruct (Z.ltb_spec y x); [done|lia].
Qed.

Lemma compare_lex e t : compare_ e t = lex e t.
Proof. by apply compare_loop_lex. Qed.

Lemma lex_0 e : forall t, lex e t = 0 <-> e = t.
Proof.
  induction e as [|x e IH]; intros [|y t]; cbn; try done.
  destruct (Z.ltb_spec x y); [split; [done|intros [=]; lia]|].
  destruct (Z.ltb_spec y x); [split; [done|intros [=]; lia]|].
  rewrite IH. split; [intros ->; f_equal; lia|by intros [=]].
Qed.

Lemma lex_opp e : forall t, lex t e = - lex e t.
Proof.
  induction e as [|x e IH]; intros [|y t]; cbn; try done.
  destruct (Z.ltb_spec x y); destruct (Z.ltb_spec y x); try done; try lia.
Qed.

Lemma lex_trans e : forall t u, lex e t <= 0 -> lex t u <= 0 -> lex e u <= 0.
Proof.
  induction e as [|x e IH]; intros [|y t] [|z u]; cbn; try lia.
  destruct (Z.ltb_spec x y), (Z.ltb_spec y x), (Z.ltb_spec y z), (Z.ltb_spec z y), (Z.ltb_spec x z), (Z.ltb_spec z x); try lia.
  apply IH.
Qed.

(** [Buffer.compare] is the lexicographic order of the bytes: a total
    order whose equality is equality of the bytes, so that [equals] decides it. *)
Theorem compare_order (a b c : buffer) :
  compare_ a b = lex a b /\
  (compare_ a b = 0 <-> a = b) /\ (equals_ a b = true <-> a = b) /\
  compare_ b a = - compare_ a b /\
  (compare_ a b <= 0 -> compare_ b c <= 0 -> compare_ a c <= 0).
Proof.
  unfold equals_. rewrite Z.eqb_eq, !compare_lex.
  split_and!; [done|apply lex_0..|apply lex_opp|apply lex_trans].
Qed.

(** ** Slices *)

Lemma slice_take b r o : 0 <= r <= o -> o <= len b -> isInt32 o ->
  slice b r (Some o) = take (Z.to_nat (o - r)) (drop (Z.to_nat r) b).
Proof.
  intros Hr Ho Hi. assert (isInt32 r) by (unfold isInt32 in *; lia).
  unfold slice, clamp. rewrite !i32_id by done.
  destruct (Z.ltb_spec r 0); [lia|]. destruct (Z.gtb_spec r (len b)); [lia|].
  destruct (Z.ltb_spec o 0); [lia|]. destruct (Z.gtb_spec o (len b)); [lia|].
  destruct (Z.ltb_spec o r); [lia|done].
Qed.

(** Comparing ranges of two distinct buffers compares the bytes of the
    ranges; out of range it throws RangeError.  When the two are the same
    buffer and the ranges are not empty the result is 0 whatever the ranges. *)
Theorem compare_range_spec (same : bool) (this e : buffer) (t n r o : Z)
    (Hthis : len this < 2 ^ 31) (He : len e < 2 ^ 31) :
  compare_range same this e (Some t) (Some n) (Some r) (Some o) =
  if (t <? 0) || (n >? len e) || (r <? 0) || (o >? len this) then Throw RangeError
  else if same && (r <? o) && (t <? n) then Ok 0
  else Ok (lex (take (Z.to_nat (o - r)) (drop (Z.to_nat r) this)) (take (Z.to_nat (n - t)) (drop (Z.to_nat t) e))).
Proof.
  unfold compare_range. cbn [default from_option id].
  destruct (Z.ltb_spec t 0); [done|]. destruct (Z.gtb_spec n (len e)); [done|].
  destruct (Z.ltb_spec r 0); [done|]. destruct (Z.gtb_spec o (len this)); [done|]. cbn [orb].
  destruct (Z.geb_spec r o) as [Hro|Hro]; destruct (Z.geb_spec t n) as [Htn|Htn]; cbn [andb];
    rewrite ?(proj2 (Z.ltb_ge r o)), ?(proj2 (Z.ltb_ge t n)), ?(proj2 (Z.ltb_lt r o)), ?(proj2 (Z.ltb_lt t n)), ?andb_false_r by lia.
  - replace (Z.to_nat (o - r)) with O by lia. by replace (Z.to_nat (n - t)) with O by lia.
  - replace (Z.to_nat (o - r)) with O by lia. cbn [andb].
    destruct (split_at e t (n - t)) as (pre & l & post & -> & Hp & Hl); [lia..|].
    rewrite sub_mid by lia. destruct l; [len_lia|done].
  - replace (Z.to_nat (n - t)) with O by lia.
    destruct (split_at this r (o - r)) as (pre & l & post & -> & Hp & Hl); [lia..|].
    rewrite sub_mid by lia. rewrite ?andb_true_r, ?andb_false_r. destruct l; [len_lia|done].
  - rewrite ?andb_true_r. rewrite !u32_id by (unfold isUint32; lia). destruct same; [done|]. f_equal.
    rewrite !slice_take by (unfold isInt32; lia).
    destruct (split_at e t (n - t)) as (pre & l & post & -> & Hp & Hl); [lia..|].
    destruct (split_at this r (o - r)) as (pre' & l' & post' & -> & Hp' & Hl'); [lia..|].
    rewrite !sub_mid by lia. rewrite <- Hl, <- Hl'. by apply compare_loop_lex.
Qed.

Lemma compare_range_spec_witness :
  compare_range true [1; 2] [1; 2] (Some 0) (Some 1) (Some 1) (Some 2) = Ok 0 /\
  compare_range false [1; 2] [1; 2] (Some 0) (Some 1) (Some 1) (Some 2) = Ok 1.
Proof. split; rewrite compare_range_spec by (vm_compute; reflexivity); reflexivity. Defined.

(** ** Search *)

(** [t] occurs in [e] at [i]. *)
Definition occurs (e t : buffer) (i : Z) : Prop :=
  0 <= i /\ i + len t <= len e /\ forall p, 0 <= p < len t -> idx e (i + p) = idx t p.

(** The state of the forward loop: nothing was found from [n] on before the
    current attempt, and the attempt has matched so far. *)
Record searching (e t : buffer) (n i c : Z) : Prop := {
  s_start : 0 <= n <= (if c =? -1 then i else c);
  s_none : forall p, n <= p < (if c =? -1 then i else c) -> ~ occurs e t p;
  s_match : c <> -1 -> 0 <= c < i /\ i - c < len t /\ forall p, 0 <= p < i - c -> idx e (c + p) = idx t p
}.

Definition g_measure (e t : buffer) (i c : Z) : Z :=
  if c =? -1 then (len e - i) * (len t + 1) + 1 else (len e - c) * (len t + 1) + 1 - (i - c).

(** The least position from [n] on where [t] occurs, or -1. *)
Definition first_from (e t : buffer) (n r : Z) : Prop :=
  r = -1 /\ (forall p, n <= p -> ~ occurs e t p) \/
  n <= r /\ occurs e t r /\ forall p, n <= p < r -> ~ occurs e t p.

Lemma occurs_ext e t i j : 0 <= i -> i < len e -> (forall p, 0 <= p < j -> idx e (i + p) = idx t p) ->
  j = len t -> i + j <= len e -> occurs e t i.
Proof. intros. subst. by split_and!. Qed.

Lemma idx_Some b i : 0 <= i < len b -> exists x, idx b i = Some x.
Proof.
  intros Hi. unfold idx, len in *. rewrite (proj2 (Z.ltb_ge i 0)) by lia.
  destruct (lookup_lt_is_Some_2 b (Z.to_nat i)) as [x Hx]; [lia|eauto].
Qed.

Lemma search_end e t n i c : 0 < len t -> len e <= i -> searching e t n i c -> first_from e t n (-1).
Proof.
  intros Ht Hi Hs. left. split; [done|]. intros p Hp Hocc. destruct (Z.ltb_spec p (if c =? -1 then i else c)).
  - by apply (s_none _ _ _ _ _ Hs p).
  - destruct Hocc as (_ & Hle & _). destruct (Z.eqb_spec c (-1)); [lia|].
    pose proof (s_match _ _ _ _ _ Hs ltac:(done)). lia.
Qed.

Lemma search_mismatch e t n i c : 0 < len t -> i < len e ->
  searching e t n i c -> idx e i <> idx t (if c =? -1 then 0 else i - c) ->
  searching e t n ((if c =? -1 then i else c) + 1) (-1).
Proof.
  intros Ht Hi Hs Hne. pose proof (s_start _ _ _ _ _ Hs). pose proof (s_match _ _ _ _ _ Hs) as Hm.
  split; cbn [Z.eqb Pos.eqb]; [lia| |done]. intros p Hp Hocc.
  destruct (decide (p < if c =? -1 then i else c)); [apply (s_none _ _ _ _ _ Hs p); [lia|done]|].
  assert (p = if c =? -1 then i else c) as -> by lia. destruct Hocc as (_ & _ & Hall).
  apply Hne. destruct (Z.eqb_spec c (-1)).
  - rewrite <- (Hall 0) by lia. f_equal. lia.
  - destruct (Hm ltac:(done)) as (? & ? & ?). rewrite <- (Hall (i - c)) by lia. f_equal. lia.
Qed.

Lemma search_match e t n i c : 0 < len t -> i < len e ->
  searching e t n i c -> idx e i = idx t (if c =? -1 then 0 else i - c) ->
  let c' := if c =? -1 then i else c in
  (i - c' + 1 = len t -> first_from e t n c') /\
  (i - c' + 1 <> len t -> searching e t n (i + 1) c').
Proof.
  intros Ht Hi Hs Heq c'. pose proof (s_start _ _ _ _ _ Hs) as Hst. pose proof (s_match _ _ _ _ _ Hs) as Hm.
  pose proof (s_none _ _ _ _ _ Hs) as Hnone. fold c' in Hst, Hnone.
  assert (0 <= c' <= i /\ i - c' < len t /\ forall p, 0 <= p < i - c' + 1 -> idx e (c' + p) = idx t p) as (Hc' & Hlt & Hall).
  { subst c'. destruct (Z.eqb_spec c (-1)).
    - split_and!; try lia. intros p Hp. assert (p = 0) as -> by lia. rewrite <- Heq. f_equal. lia.
    - destruct (Hm ltac:(done)) as (? & ? & Hall). split_and!; try lia. intros p Hp.
      destruct (decide (p = i - c)) as [->|]; [|apply Hall; lia]. rewrite <- Heq. f_equal. lia. }
  assert (c' <> -1) by lia. split; intros Hend.
  - right. split_and!; [lia| |done]. apply (occurs_ext _ _ _ (i - c' + 1)); try done; lia.
  - split; rewrite ?(proj2 (Z.eqb_neq c' (-1))) by done; try done; try lia. intros _. split_and!; try lia.
    intros p Hp. apply Hall. lia.
Qed.

Lemma g_loop_spec e t n : 0 < len t -> forall fuel i c,
  searching e t n i c -> 0 <= i -> g_measure e t i c <= Z.of_nat fuel -> i <= len e ->
  exists r, g_loop fuel e t i c = Some r /\ first_from e t n r.
Proof.
  intros Ht. induction fuel as [|fuel IH]; intros i c Hs Hi Hfuel Hle.
  - exfalso. unfold g_measure in Hfuel. pose proof (s_match _ _ _ _ _ Hs).
    destruct (Z.eqb_spec c (-1)); [nia|]. destruct H as (? & ? & ?); [done|]. nia.
  - cbn [g_loop]. destruct (Z.ltb_spec i (len e)) as [Hlt|]; [|exists (-1); split; [done|by eapply search_end]].
    pose proof (s_match _ _ _ _ _ Hs) as Hm. case_bool_decide as Heq.
    + destruct (search_match e t n i c Ht Hlt Hs Heq) as [Hdone Hmore].
      destruct (Z.eqb_spec (i - (if c =? -1 then i else c) + 1) (len t)) as [E|E].
      * eexists. split; [done|]. by apply Hdone.
      * apply IH; [by apply Hmore|lia| |lia]. unfold g_measure in *. destruct (Z.eqb_spec c (-1)).
        -- rewrite (proj2 (Z.eqb_neq i (-1))) by lia. lia.
        -- rewrite (proj2 (Z.eqb_neq c (-1))) by lia. lia.
    + apply IH; [by apply search_mismatch| | |].
      * destruct (Z.eqb_spec c (-1)); [lia|]. destruct (Hm ltac:(done)). lia.
      * unfold g_measure in *. cbn [Z.eqb Pos.eqb]. destruct (Z.eqb_spec c (-1)); [nia|]. destruct (Hm ltac:(done)) as (? & ? & _). nia.
      * destruct (Z.eqb_spec c (-1)); [lia|]. destruct (Hm ltac:(done)). lia.
Qed.

Lemma g_forward e t n : 0 < len t -> 0 <= n <= len e ->
  exists r, g e t n true = Some r /\ first_from e t n r.
Proof.
  intros Ht Hn. unfold g. apply g_loop_spec; try lia.
  - split; cbn; [lia|intros; lia|done].
  - unfold g_measure, g_fuel. cbn. unfold len in *. nia.
Qed.

(** The greatest position up to [n] where [t] occurs, or -1. *)
Definition last_upto (e t : buffer) (n r : Z) : Prop :=
  r = -1 /\ (forall p, p <= n -> ~ occurs e t p) \/
  r <= n /\ occurs e t r /\ forall p, r < p <= n -> ~ occurs e t p.

Lemma g_match_spec e t i : forall k p,
  g_match e t i k p = true <-> forall q, p <= q < p + Z.of_nat k -> idx e (i + q) = idx t q.
Proof.
  induction k as [|k IH]; intros p; cbn [g_match]; [split; [intros _ q Hq; lia|done]|].
  case_bool_decide as Hb.
  - rewrite IH. split; intros H q Hq; [|apply H; lia]. destruct (decide (q = p)) as [->|]; [done|]. apply H. lia.
  - split; [done|]. intros H. exfalso. apply Hb, H. lia.
Qed.

Lemma g_back_spec e t : forall k,
  Z.of_nat k + len t <= len e + 1 -> last_upto e t (Z.of_nat k - 1) (g_back e t k).
Proof.
  induction k as [|k IH]; intros Hk; cbn [g_back].
  - left. split; [done|]. intros p Hp [H _]. lia.
  - destruct (g_match e t (Z.of_nat k) (length t) 0) eqn:E.
    + right. split; [lia|]. split; [|intros; lia]. rewrite g_match_spec in E.
      split; [lia|]. split; [lia|]. intros p Hp. apply E. unfold len in Hp. lia.
    + assert (~ occurs e t (Z.of_nat k)) as Hno.
      { intros (_ & _ & Hall). apply eq_true_false_abs in E; [done|]. apply g_match_spec.
        intros q Hq. apply Hall. unfold len. lia. }
      destruct (IH ltac:(lia)) as [[-> Hn]|(Hr & Hocc & Hn)].
      * left. split; [done|]. intros p Hp. destruct (decide (p = Z.of_nat k)) as [->|]; [done|]. apply Hn. lia.
      * right. split; [lia|]. split; [done|]. intros p Hp. destruct (decide (p = Z.of_nat k)) as [->|]; [done|]. apply Hn. lia.
Qed.

Lemma occurs_len e t p : occurs e t p -> 0 <= p /\ p + len t <= len e.
Proof. by intros (? & ? & _). Qed.

Lemma g_backward e t n : 0 <= n < len e -> exists r, g e t n false = Some r /\ last_upto e t n r.
Proof.
  intros Hn. unfold g. eexists. split; [done|]. destruct (Z.gtb_spec (n + len t) (len e)) as [Hgt|Hle].
  - assert (forall p, len e - len t < p -> ~ occurs e t p) as Hhigh by (intros p Hp (_ & ? & _); lia).
    destruct (Z.leb_spec (len t) (len e)).
    + destruct (g_back_spec e t (Z.to_nat (len e - len t + 1)) ltac:(lia)) as [[-> Hn']|(Hr & Hocc & Hn')].
      * left. split; [done|]. intros p Hp. destruct (decide (p <= len e - len t)); [apply Hn'; lia|apply Hhigh; lia].
      * right. split; [lia|]. split; [done|]. intros p Hp.
        destruct (decide (p <= len e - len t)); [apply Hn'; lia|apply Hhigh; lia].
    + replace (Z.to_nat (len e - len t + 1)) with O by lia. left. split; [done|]. intros p Hp Ho. apply (Hhigh p); [apply occurs_len in Ho; lia|done].
  - pose proof (g_back_spec e t (Z.to_nat (n + 1)) ltac:(lia)) as H.
    by replace (Z.of_nat (Z.to_nat (n + 1)) - 1) with n in H by lia.
Qed.

(** The start of a search: a negative one counts from the end. *)
Definition from_end (e : buffer) (n : Z) : Z := if n <? 0 then len e + n else n.

Lemma none_from e t n : len e <= n -> 0 < len t -> first_from e t n (-1).
Proof. intros Hn Ht. left. split; [done|]. intros p Hp Ho%occurs_len. lia. Qed.

Lemma clip_id n : isInt32 n ->
  (if n >? 2147483647 then 2147483647 else if n <? -2147483648 then -2147483648 else n) = n.
Proof. unfold isInt32. intros Hn. destruct (Z.gtb_spec n 2147483647); [lia|]. destruct (Z.ltb_spec n (-2147483648)); lia. Qed.

(** [indexOf] of a non-empty buffer gives the first position from the start
    on where its bytes occur, and -1 when there is none; the search ends.  A
    negative start counts from the end. *)
Theorem indexOf_correct (e t : buffer) (n : Z) (Ht : 0 < len t) (Hn : isInt32 n) :
  exists r, indexOf e t (Some n) = Some r /\ first_from e t (Z.max 0 (from_end e n)) r.
Proof.
  unfold indexOf, m_index. cbn [option_map]. rewrite clip_id by done. fold (from_end e n).
  rewrite (proj2 (Z.eqb_neq (len t) 0)) by lia.
  destruct (Z.eqb_spec (len e) 0) as [E|E].
  { exists (-1). split; [done|]. apply none_from; [lia|done]. }
  destruct (Z.geb_spec (from_end e n) (len e)).
  { exists (-1). split; [done|]. apply none_from; [lia|done]. }
  pose proof (len_nonneg e).
  destruct (Z.ltb_spec (from_end e n) 0); cbn [negb].
  - rewrite Z.max_l by lia. apply g_forward; lia.
  - rewrite Z.max_r by lia. apply g_forward; lia.
Qed.

Lemma indexOf_correct_witness : exists r, indexOf [1; 1; 2; 1; 1; 3] [1; 1; 3] (Some (-5)) = Some r /\ r = 3.
Proof.
  destruct (indexOf_correct [1; 1; 2; 1; 1; 3] [1; 1; 3] (-5)) as (r & Hr & _); [vm_compute; done|unfold isInt32; lia|].
  exists r. split; [exact Hr|]. vm_compute in Hr. congruence.
Defined.

(** [lastIndexOf] of a non-empty buffer gives the last position up to the
    start where its bytes occur, and -1 when there is none. *)
Theorem lastIndexOf_correct (e t : buffer) (n : Z) (Ht : 0 < len t) (Hn : isInt32 n) :
  exists r, lastIndexOf e t (Some n) = Some r /\ last_upto e t (from_end e n) r.
Proof.
  unfold lastIndexOf, m_index. cbn [option_map]. rewrite clip_id by done. fold (from_end e n).
  rewrite (proj2 (Z.eqb_neq (len t) 0)) by lia. pose proof (len_nonneg e).
  destruct (Z.eqb_spec (len e) 0) as [E|E].
  { exists (-1). split; [done|]. left. split; [done|]. intros p _ Ho%occurs_len. lia. }
  destruct (Z.geb_spec (from_end e n) (len e)).
  - destruct (g_backward e t (len e - 1)) as (r & Hr & Hl); [lia|]. exists r. split; [done|].
    destruct Hl as [[-> Hl]|(Hr' & Hocc & Hl)].
    + left. split; [done|]. intros p Hp Ho. apply (Hl p); [|done]. apply occurs_len in Ho. lia.
    + right. split_and!; [lia|done|]. intros p Hp Ho. apply (Hl p); [|done]. apply occurs_len in Ho. lia.
  - destruct (Z.ltb_spec (from_end e n) 0); cbn [negb].
    + exists (-1). split; [done|]. left. split; [done|]. intros p Hp Ho%occurs_len. lia.
    + apply g_backward. lia.
Qed.

Lemma lastIndexOf_correct_witness : exists r, lastIndexOf [1; 1; 2; 1; 1; 3] [1; 1] (Some 2) = Some r /\ r = 0.
Proof.
  destruct (lastIndexOf_correct [1; 1; 2; 1; 1; 3] [1; 1] 2) as (r & Hr & _); [vm_compute; done|unfold isInt32; lia|].
  exists r. split; [exact Hr|]. vm_compute in Hr. congruence.
Defined.

(** ** Copies *)

Lemma len_put b i v : len (put b i v) = len b.
Proof. unfold put, len. destruct (i <? 0); [done|]. by rewrite length_insert. Qed.

Lemma idx_put b i v j : 0 <= i < len b -> idx (put b i v) j = if j =? i then Some (v mod 256) else idx b j.
Proof.
  intros Hi. unfold idx, put, len in *. rewrite (proj2 (Z.ltb_ge i 0)) by lia.
  destruct (Z.eqb_spec j i) as [->|Hne].
  - rewrite (proj2 (Z.ltb_ge i 0)) by lia. apply list_lookup_insert_eq. lia.
  - destruct (Z.ltb_spec j 0); [done|]. apply list_lookup_insert_ne. lia.
Qed.

Lemma idx_ext a b : len a = len b -> (forall j, 0 <= j < len a -> idx a j = idx b j) -> a = b.
Proof.
  unfold len. intros Hl H. apply list_eq. intros i. destruct (decide (i < length a)%nat).
  - specialize (H (Z.of_nat i) ltac:(lia)). unfold idx in H. rewrite (proj2 (Z.ltb_ge _ _)), Nat2Z.id in H by lia. done.
  - by rewrite !lookup_ge_None_2 by lia.
Qed.

Lemma bytes_idx b i x : bytes b -> idx b i = Some x -> isByte x.
Proof.
  unfold idx. destruct (i <? 0); [done|]. intros Hb Hx. by apply (Forall_lookup_1 _ _ _ _ Hb Hx).
Qed.

Section Copy.
Context (src e0 : buffer) (t n i : Z).
Context (Hsrc : bytes src) (Ht : 0 <= t) (Hti : t + i <= len e0) (Hn : 0 <= n) (Hni : n + i <= len src).

(** The target when the bytes from [lo] to [hi] have been copied. *)
Definition moved (lo hi : Z) (e : buffer) : Prop :=
  len e = len e0 /\
  forall j, idx e j = if (t + lo <=? j) && (j <? t + hi) then idx src (j - t + n) else idx e0 j.

Lemma moved_put lo hi lo' hi' o e x : moved lo hi e -> 0 <= o < i -> idx src (o + n) = Some x ->
  (forall j, (t + lo' <=? j) && (j <? t + hi') = (j =? o + t) || (t + lo <=? j) && (j <? t + hi)) ->
  moved lo' hi' (put e (o + t) x).
Proof using Hsrc Ht Hti.
  intros [Hlen Hidx] Ho Hx Hr. split; [by rewrite len_put|]. intros j. rewrite Hr, idx_put by lia.
  destruct (Z.eqb_spec j (o + t)) as [->|]; cbn [orb]; [|apply Hidx].
  replace (o + t - t + n) with (o + n) by lia. rewrite Hx, Z.mod_small; [done|].
  pose proof (bytes_idx _ _ _ Hsrc Hx). done.
Qed.

Lemma moved_read lo hi o e : moved lo hi e -> src = e0 -> (o + n < t + lo \/ t + hi <= o + n) -> idx e (o + n) = idx src (o + n).
Proof using Type.
  intros [_ Hidx] Heq Ho. rewrite Hidx.
  destruct (Z.leb_spec (t + lo) (o + n)), (Z.ltb_spec (o + n) (t + hi)); cbn [andb]; try (by rewrite Heq); lia.
Qed.

Lemma copy_up_moved same : (same = true -> src = e0 /\ (t <= n \/ n + i <= t)) ->
  forall k o e, o + Z.of_nat k = i -> 0 <= o -> moved 0 o e -> moved 0 i (copy_up same src e t n k o).
Proof using Hsrc Ht Hti Hn Hni.
  intros Hsame. induction k as [|k IH]; intros o e Hk Ho Hm; cbn [copy_up]; [by replace i with o by lia|].
  destruct (idx_Some src (o + n)) as [x Hx]; [lia|].
  assert (idx0 (if same then e else src) (o + n) = x) as ->.
  { unfold idx0. destruct same; [|by rewrite Hx]. destruct Hsame as [Heq Hov]; [done|].
    rewrite (moved_read 0 o o e Hm Heq) by lia. by rewrite Hx. }
  apply IH; [lia..|]. eapply moved_put; [done|lia|done|]. intros j.
  destruct (Z.leb_spec (t + 0) j), (Z.ltb_spec j (t + (o + 1))), (Z.eqb_spec j (o + t)), (Z.ltb_spec j (t + o)); cbn; try done; lia.
Qed.

Lemma copy_down_moved : src = e0 -> n < t ->
  forall k e, Z.of_nat k <= i -> moved (Z.of_nat k) i e -> moved 0 i (copy_down e t n k).
Proof using Hsrc Ht Hti Hn Hni.
  intros Heq Hlt. induction k as [|k IH]; intros e Hk Hm; cbn [copy_down]; [done|].
  destruct (idx_Some src (Z.of_nat k + n)) as [x Hx]; [lia|].
  assert (idx0 e (Z.of_nat k + n) = x) as ->.
  { unfold idx0. rewrite (moved_read _ _ (Z.of_nat k) e Hm Heq) by lia. by rewrite Hx. }
  apply IH; [lia|]. eapply moved_put; [done|lia|done|]. intros j.
  destruct (Z.leb_spec (t + Z.of_nat k) j), (Z.ltb_spec j (t + i)), (Z.eqb_spec j (Z.of_nat k + t)),
    (Z.leb_spec (t + Z.of_nat (S k)) j); cbn; try done; lia.
Qed.

Lemma set_bytes_moved : 0 <= i -> moved 0 i (set_bytes e0 t (take (Z.to_nat i) (drop (Z.to_nat n) src))).
Proof using Ht Hti Hn Hni.
  intros Hi. assert (length (take (Z.to_nat i) (drop (Z.to_nat n) src)) = Z.to_nat i) as Hl.
  { unfold len in *. rewrite length_take, length_drop. lia. }
  assert (length (take (Z.to_nat t) e0) = Z.to_nat t) as Hl'. { unfold len in *. rewrite length_take. lia. }
  unfold set_bytes. split.
  { unfold len in *. rewrite !length_app, Hl, Hl', length_drop. lia. }
  intros j. unfold idx. destruct (Z.ltb_spec j 0).
  { destruct (Z.leb_spec (t + 0) j); [lia|done]. }
  destruct (Z.leb_spec (t + 0) j); cbn [andb].
  - rewrite lookup_app_r, Hl' by lia. destruct (Z.ltb_spec j (t + i)).
    + rewrite lookup_app_l by lia. rewrite lookup_take_lt, lookup_drop by lia.
      rewrite (proj2 (Z.ltb_ge _ _)) by lia. f_equal. lia.
    + rewrite lookup_app_r, lookup_drop by lia. f_equal. lia.
  - rewrite lookup_app_l, lookup_take_lt by lia. done.
Qed.

Lemma moved_unique e e' : moved 0 i e -> moved 0 i e' -> e = e'.
Proof using Type.
  intros [Hl Hidx] [Hl' Hidx']. apply idx_ext; [by rewrite Hl, Hl'|]. intros j _. by rewrite Hidx, Hidx'.
Qed.

Lemma moved_nothing lo : moved lo lo e0.
Proof using Type.
  split; [done|]. intros j. destruct (Z.leb_spec (t + lo) j), (Z.ltb_spec j (t + lo)); try done; lia.
Qed.
End Copy.

Lemma set_bytes_nil e t : set_bytes e t [] = e.
Proof. unfold set_bytes. cbn. by rewrite Nat.add_0_r, take_drop. Qed.

(** How many bytes a copy moves. *)
Definition copied (this e : buffer) (t n r : Z) : Z := Z.min (Z.min r (len this) - n) (len e - Z.min t (len e)).

Lemma copy_spec same this e t n r :
  bytes this -> (same = true -> this = e) -> 0 <= t -> 0 <= n < len this -> n <= r ->
  copy same this e (Some t) (Some n) (Some r) =
  let i := copied this e t n r in
  Ok (set_bytes e (Z.min t (len e)) (take (Z.to_nat i) (drop (Z.to_nat n) this)), i).
Proof.
  intros Hb Hsame Ht Hn Hr. unfold copy, copied. cbn [default from_option id]. pose proof (len_nonneg e) as Hle.
  replace (if t >=? len e then len e else t) with (Z.min t (len e)) by (destruct (Z.geb_spec t (len e)); lia).
  set (t' := Z.min t (len e)).
  replace (if (r >? 0) && (r <? n) then n else r) with r.
  2: { destruct (Z.ltb_spec r n); [lia|by rewrite andb_false_r]. }
  set (i := Z.min (Z.min r (len this) - n) (len e - t')). cbv zeta.
  assert (i = 0 -> Ok (e, 0) = Ok (set_bytes e t' (take (Z.to_nat i) (drop (Z.to_nat n) this)), i)) as H0.
  { intros ->. by rewrite set_bytes_nil. }
  destruct (Z.eqb_spec r n); [apply H0; lia|].
  destruct (Z.eqb_spec (len e) 0); [apply H0; lia|]. destruct (Z.eqb_spec (len this) 0); [lia|]. cbn [orb].
  rewrite (proj2 (Z.ltb_ge t' 0)), (proj2 (Z.ltb_ge n 0)), (proj2 (Z.ltb_ge r 0)) by lia.
  destruct (Z.geb_spec n (len this)); [lia|]. cbn [orb].
  replace (if r >? len this then len this else r) with (Z.min r (len this)) by (destruct (Z.gtb_spec r (len this)); lia).
  replace (if len e - t' <? Z.min r (len this) - n then len e - t' + n else Z.min r (len this)) with (i + n).
  2: { destruct (Z.ltb_spec (len e - t') (Z.min r (len this) - n)); lia. }
  replace (i + n - n) with i by lia.
  destruct (same && (n <? t') && (t' <? i + n)) eqn:Hov.
  - apply andb_prop in Hov as [[-> Hnt%Z.ltb_lt]%andb_prop Htr%Z.ltb_lt]. specialize (Hsame eq_refl). subst this. do 2 f_equal.
    apply (moved_unique e e t' n i).
    + apply copy_down_moved; try lia; try done. rewrite Z2Nat.id by lia. apply moved_nothing.
    + apply set_bytes_moved; lia.
  - destruct (Z.ltb_spec i 1000); [|done]. do 2 f_equal. apply (moved_unique this e t' n i); [|apply set_bytes_moved; lia].
    apply copy_up_moved; try lia; try done; [|apply moved_nothing].
    intros ->. split; [by apply Hsame|]. cbn [andb] in Hov.
    destruct (Z.ltb_spec n t'), (Z.ltb_spec t' (i + n)); cbn in Hov; try done; lia.
Qed.

(** [copy] moves bytes as if through a temporary: also within one buffer,
    and however the ranges overlap, the target receives the bytes the source
    had before the call, as many as both ranges hold, and nothing else changes. *)
Theorem copy_correct (same : bool) (this e : buffer) (t n r : Z)
    (Hb : bytes this) (Hsame : same = true -> this = e) (Ht : 0 <= t) (Hn : 0 <= n < len this) (Hr : n <= r) :
  copy same this e (Some t) (Some n) (Some r) =
  let i := copied this e t n r in
  Ok (set_bytes e (Z.min t (len e)) (take (Z.to_nat i) (drop (Z.to_nat n) this)), i).
Proof. by apply copy_spec. Qed.

Lemma copy_correct_witness :
  copy true [1; 2; 3; 4; 5] [1; 2; 3; 4; 5] (Some 1) (Some 0) (Some 4) = Ok ([1; 1; 2; 3; 4], 4).
Proof.
  rewrite (copy_correct true [1; 2; 3; 4; 5] [1; 2; 3; 4; 5] 1 0 4).
  - vm_compute. reflexivity.
  - repeat constructor; unfold isByte; lia.
  - reflexivity.
  - lia.
  - vm_compute. split; [discriminate|reflexivity].
  - lia.
Defined.

(** ** Concatenation *)

Lemma idx_app a b j : 0 <= j -> idx (a ++ b) j = if j <? len a then idx a j else idx b (j - len a).
Proof.
  intros Hj. unfold idx, len. rewrite (proj2 (Z.ltb_ge j 0)) by lia. destruct (Z.ltb_spec j (Z.of_nat (length a))).
  - rewrite lookup_app_l by lia. done.
  - rewrite lookup_app_r by lia. rewrite (proj2 (Z.ltb_ge _ 0)) by lia. f_equal. lia.
Qed.

Lemma idx_take T a j : j < Z.of_nat T -> idx (take T a) j = idx a j.
Proof. intros Hj. unfold idx. destruct (Z.ltb_spec j 0); [done|]. rewrite lookup_take_lt by lia. done. Qed.

Lemma idx_replicate T x j : 0 <= j < Z.of_nat T -> idx (replicate T x) j = Some x.
Proof. intros Hj. unfold idx. rewrite (proj2 (Z.ltb_ge j 0)) by lia. apply lookup_replicate_2. lia. Qed.

Lemma idx_set_bytes e t s j : 0 <= t -> t + len s <= len e -> 0 <= j ->
  idx (set_bytes e t s) j = if (t <=? j) && (j <? t + len s) then idx s (j - t) else idx e j.
Proof.
  intros Ht Hts Hj. assert (len (take (Z.to_nat t) e) = t) as Hl. { unfold len in *. rewrite length_take. lia. }
  unfold set_bytes. rewrite idx_app, Hl by done. destruct (Z.ltb_spec j t), (Z.leb_spec t j); try lia; cbn [andb].
  - rewrite idx_take by lia. done.
  - rewrite idx_app by lia. destruct (Z.ltb_spec (j - t) (len s)), (Z.ltb_spec j (t + len s)); try lia; [done|].
    unfold idx. rewrite !(proj2 (Z.ltb_ge _ 0)) by lia. rewrite lookup_drop. f_equal. unfold len in *. lia.
Qed.

Lemma len_set_bytes e t s : 0 <= t -> t + len s <= len e -> len (set_bytes e t s) = len e.
Proof. intros Ht Hts. unfold set_bytes, len in *. rewrite !length_app, length_take, length_drop. lia. Qed.

(** The buffer of length [T] that starts with [D]. *)
Definition padded (T : nat) (D : buffer) : buffer := take T (D ++ replicate T 0).

Lemma len_padded T D : len (padded T D) = Z.of_nat T.
Proof. unfold padded, len. rewrite length_take, length_app, length_replicate. lia. Qed.

Lemma idx_padded T D j : 0 <= j < Z.of_nat T -> idx (padded T D) j = if j <? len D then idx D j else Some 0.
Proof.
  intros Hj. pose proof (len_nonneg D). unfold padded. rewrite idx_take, idx_app by lia.
  destruct (Z.ltb_spec j (len D)); [done|]. apply idx_replicate. lia.
Qed.

Lemma copy_padded T D a : bytes a ->
  exists i, copy false a (padded T D) (Some (len D)) None None = Ok (padded T (D ++ a), i).
Proof.
  intros Ha. pose proof (len_nonneg D) as HD. destruct a as [|x a'].
  { exists 0. unfold copy. cbn [default from_option id]. change (len []) with 0. by rewrite andb_false_l, Z.eqb_refl, app_nil_r. }
  set (a := x :: a') in *. assert (0 < len a) by (unfold a; len_lia).
  change (copy false a (padded T D) (Some (len D)) None None)
    with (copy false a (padded T D) (Some (len D)) (Some 0) (Some (len a))).
  rewrite copy_spec by (done || lia). cbv zeta. unfold copied. rewrite Z.min_id, Z.sub_0_r, drop_0, len_padded.
  eexists. do 2 f_equal. set (i := Z.min (len a) (Z.of_nat T - Z.min (len D) (Z.of_nat T))).
  assert (len (take (Z.to_nat i) a) = i) as Hi. { unfold len in *. rewrite length_take. lia. }
  apply idx_ext; rewrite len_set_bytes, ?len_padded by (rewrite ?len_padded; lia); [done|].
  intros j Hj. rewrite idx_set_bytes, Hi, !idx_padded, len_app by (rewrite ?len_padded; lia).
  destruct (Z.leb_spec (Z.min (len D) (Z.of_nat T)) j), (Z.ltb_spec j (Z.min (len D) (Z.of_nat T) + i)),
    (Z.ltb_spec j (len D)), (Z.ltb_spec j (len D + len a)); cbn [andb]; try lia; try done.
  - rewrite idx_take, idx_app by lia. rewrite (proj2 (Z.ltb_ge _ _)) by lia. f_equal. lia.
  - rewrite idx_app by lia. by rewrite (proj2 (Z.ltb_lt _ _)) by lia.
Qed.

Lemma concat_loop_spec l : Forall bytes l -> forall T D,
  concat_loop l (padded T D) (len D) = Ok (padded T (D ++ concat l)).
Proof.
  induction 1 as [|a l Ha Hl IH]; intros T D; cbn [concat_loop concat]; [by rewrite app_nil_r|].
  destruct (copy_padded T D a Ha) as [i ->]. cbn [js_bind fst].
  replace (len D + len a) with (len (D ++ a)) by len_lia. by rewrite IH, <- app_assoc.
Qed.

Lemma total_length l : forall z, fold_left (fun t b => t + len b) l z = z + len (concat l).
Proof. induction l as [|a l IH]; intros z; cbn [fold_left concat]; [len_lia|]. rewrite IH. len_lia. Qed.

(** [Buffer.concat] gives the bytes of the buffers one after the other; with
    a length, cut to it or filled up with zeros. *)
Theorem concat_correct (l : list buffer) (T : Z)
    (Hl : Forall bytes l) (Hne : l <> []) (Hlen : len (concat l) < a_) (HT : 0 <= T < a_) :
  concat_ l None = Ok (concat l) /\ concat_ l (Some T) = Ok (padded (Z.to_nat T) (concat l)).
Proof.
  assert (forall t, 0 <= t < a_ -> allocUnsafe t = Ok (padded (Z.to_nat t) [])) as Halloc.
  { intros t Ht. unfold allocUnsafe, c_, d_, u_, a_ in *. rewrite (proj2 (Z.ltb_ge t 0)) by lia.
    destruct (Z.geb_spec t 2147483647); [lia|]. cbn [js_bind]. rewrite js_or_0_r, i32_small by lia.
    rewrite !(proj2 (Z.ltb_ge _ _)) by lia. unfold padded. cbn [app].
    rewrite take_ge by (rewrite length_replicate; lia). done. }
  unfold concat_. destruct l as [|b l']; [done|]. set (l := b :: l') in *.
  rewrite total_length, Z.add_0_l, !Halloc by (pose proof (len_nonneg (concat l)); lia). cbn [js_bind].
  rewrite !(concat_loop_spec l Hl _ []). cbn [app]. split; [|done].
  f_equal. unfold padded, len. rewrite Nat2Z.id. by rewrite take_app_length.
Qed.

Lemma concat_correct_witness :
  concat_ [[1; 2]; [3]] None = Ok [1; 2; 3] /\ concat_ [[1; 2]; [3]] (Some 5) = Ok [1; 2; 3; 0; 0].
Proof.
  apply (concat_correct [[1; 2]; [3]] 5).
  - repeat constructor; unfold isByte; lia.
  - discriminate.
  - vm_compute. reflexivity.
  - unfold a_; lia.
Defined.

(** ** Filling *)

Lemma fill_num_spec e l : forall P post, fill_num (P ++ l ++ post) e (len P) (length l) = P ++ replicate (length l) (e mod 256) ++ post.
Proof.
  induction l as [|x l IH]; intros P post; cbn [length fill_num replicate]; [done|].
  rewrite put_first by done. replace (len P + 1) with (len (P ++ [e mod 256])) by len_lia.
  rewrite IH. by rewrite <- app_assoc.
Qed.

(** The bytes of [a] over and over, from position [i] on. *)
Definition cycle (a : buffer) (i : Z) (k : nat) : buffer :=
  map (fun p => idx0 a ((i + Z.of_nat p) mod len a)) (seq 0 k).

Lemma cycle_S a i k : cycle a i (S k) = idx0 a (i mod len a) :: cycle a (i + 1) k.
Proof.
  unfold cycle. cbn [seq map]. rewrite Z.add_0_r. f_equal. rewrite <- seq_shift, map_map.
  apply map_ext. intros p. do 2 f_equal. lia.
Qed.

Lemma idx0_byte a i : bytes a -> isByte (idx0 a i).
Proof.
  intros Ha. unfold idx0. destruct (idx a i) eqn:E; [by apply (bytes_idx a i)|]. unfold isByte. cbn. lia.
Qed.

Lemma fill_buf_spec a t l : bytes a -> 0 < len a -> forall P post i, len P = i + t ->
  fill_buf (P ++ l ++ post) a t i (length l) = P ++ cycle a i (length l) ++ post.
Proof.
  intros Ha Hlen. induction l as [|x l IH]; intros P post i HP; cbn [length fill_buf]; [done|].
  rewrite (proj2 (Z.eqb_neq (len a) 0)) by lia. rewrite put_first by done.
  rewrite Z.mod_small by (by apply idx0_byte). rewrite IH by len_lia. by rewrite cycle_S, <- app_assoc.
Qed.

(** [fill] of a range inside the buffer replaces the bytes of the range, by
    the low 8 bits of a number or by the bytes of a buffer over and over, and
    nothing else; outside the buffer it throws RangeError. *)
Theorem fill_correct (b a : buffer) (e t n : Z) (Ha : bytes a) (Ha0 : 0 < len a) (Hb : len b < 2 ^ 31) :
  let replaced s := Ok (take (Z.to_nat t) b ++ s ++ drop (Z.to_nat n) b) in
  if (t <? 0) || (len b <? t) || (len b <? n) then
    fill_number b e (Some t) (Some n) = Throw RangeError /\ fill_buffer b a (Some t) (Some n) = Throw RangeError
  else if n <=? t then
    fill_number b e (Some t) (Some n) = Ok b /\ fill_buffer b a (Some t) (Some n) = Ok b
  else
    fill_number b e (Some t) (Some n) = replaced (replicate (Z.to_nat (n - t)) (e mod 256)) /\
    fill_buffer b a (Some t) (Some n) = replaced (cycle a 0 (Z.to_nat (n - t))).
Proof.
  cbv zeta. unfold fill_number, fill_buffer, fill_range. cbn [default from_option id].
  destruct (Z.ltb_spec t 0); [done|]. destruct (Z.ltb_spec (len b) t); [done|]. destruct (Z.ltb_spec (len b) n); [done|].
  cbn [orb]. destruct (Z.leb_spec n t); [done|]. rewrite !u32_id by (unfold isUint32; lia).
  destruct (split_at b t (n - t)) as (pre & l & post & -> & Hp & Hl); [lia..|].
  assert (take (Z.to_nat t) (pre ++ l ++ post) = pre) as ->. { unfold len in Hp. by rewrite take_app_length' by lia. }
  assert (drop (Z.to_nat n) (pre ++ l ++ post) = post) as ->.
  { rewrite app_assoc, drop_app_length' by (rewrite length_app; unfold len in *; lia). done. }
  replace (Z.to_nat (n - t)) with (length l) by (unfold len in Hl; lia). rewrite <- Hp at 1. rewrite fill_num_spec.
  rewrite fill_buf_spec by (done || lia). split; [|done]. rewrite js_and_comm, and255, mod256_twice. done.
Qed.

Lemma fill_correct_witness : fill_buffer [0; 0; 0; 0; 0] [7; 8] (Some 1) (Some 4) = Ok [0; 7; 8; 7; 0].
Proof.
  apply (fill_correct [0; 0; 0; 0; 0] [7; 8] 0 1 4).
  - repeat constructor; unfold isByte; lia.
  - vm_compute. reflexivity.
  - vm_compute. reflexivity.
Defined.

(** ** Swapping *)

Fixpoint rev_chunks (size k : nat) (b : buffer) : buffer :=
  match k with O => b | S k => rev (take size b) ++ rev_chunks size k (drop size b) end.

(** Evaluates the swaps of a chunk of known length after [P]. *)
Ltac swap_chunk P :=
  unfold v_swap, idx0;
  repeat first
    [ rewrite (idx_mid P _ _ (len P)) by len_lia | rewrite (idx_mid0 P _ _ (len P)) by len_lia
    | rewrite (put_mid P _ _ (len P)) by len_lia | rewrite (put_mid0 P _ _ _ (len P)) by len_lia ];
  repeat match goal with |- context [Z.to_nat ?z] => let n := eval vm_compute in (Z.to_nat z) in change (Z.to_nat z) with n end;
  cbn -[Z.modulo len]; rewrite ?Z.mod_small by assumption.

Lemma byte_mod x : isByte x -> 0 <= x < 256.
Proof. done. Qed.

Lemma swap16_chunk P x y post : bytes [x; y] ->
  v_swap (P ++ [x; y] ++ post) (len P) (len P + 1) = P ++ [y; x] ++ post.
Proof.
  intros (Hx & (Hy & _)%Forall_cons)%Forall_cons. apply byte_mod in Hx, Hy. swap_chunk P. done.
Qed.

Lemma swap32_chunk P x y z w post : bytes [x; y; z; w] ->
  v_swap (v_swap (P ++ [x; y; z; w] ++ post) (len P) (len P + 3)) (len P + 1) (len P + 2) = P ++ [w; z; y; x] ++ post.
Proof.
  intros (Hx & (Hy & (Hz & (Hw & _)%Forall_cons)%Forall_cons)%Forall_cons)%Forall_cons.
  apply byte_mod in Hx, Hy, Hz, Hw. swap_chunk P. done.
Qed.

Lemma swap64_chunk P a b c d x y z w post : bytes [a; b; c; d; x; y; z; w] ->
  v_swap (v_swap (v_swap (v_swap (P ++ [a; b; c; d; x; y; z; w] ++ post) (len P) (len P + 7)) (len P + 1) (len P + 6))
    (len P + 2) (len P + 5)) (len P + 3) (len P + 4) = P ++ [w; z; y; x; d; c; b; a] ++ post.
Proof.
  intros (Ha & (Hb & (Hc & (Hd & H)%Forall_cons)%Forall_cons)%Forall_cons)%Forall_cons.
  apply Forall_cons in H as (Hx & (Hy & (Hz & (Hw & _)%Forall_cons)%Forall_cons)%Forall_cons).
  apply byte_mod in Ha, Hb, Hc, Hd, Hx, Hy, Hz, Hw. swap_chunk P. done.
Qed.

Lemma swap16_loop_spec k : forall P b, bytes b -> length b = (2 * k)%nat ->
  swap16_loop (P ++ b) (len P) k = P ++ rev_chunks 2 k b.
Proof.
  induction k as [|k IH]; intros P b Hb Hl; [done|].
  destruct b as [|x [|y b]]; cbn in Hl; try lia. change (x :: y :: b) with ([x; y] ++ b) in *.
  apply Forall_app in Hb as [Hc Hb]. cbn [swap16_loop rev_chunks]. rewrite swap16_chunk by done.
  rewrite app_assoc. replace (len P + 2) with (len (P ++ [y; x])) by len_lia. rewrite IH by (done || lia).
  by rewrite <- app_assoc.
Qed.

Lemma swap32_loop_spec k : forall P b, bytes b -> length b = (4 * k)%nat ->
  swap32_loop (P ++ b) (len P) k = P ++ rev_chunks 4 k b.
Proof.
  induction k as [|k IH]; intros P b Hb Hl; [done|].
  destruct b as [|x [|y [|z [|w b]]]]; cbn in Hl; try lia. change (x :: y :: z :: w :: b) with ([x; y; z; w] ++ b) in *.
  apply Forall_app in Hb as [Hc Hb]. cbn [swap32_loop rev_chunks]. rewrite swap32_chunk by done.
  rewrite app_assoc. replace (len P + 4) with (len (P ++ [w; z; y; x])) by len_lia. rewrite IH by (done || lia).
  by rewrite <- app_assoc.
Qed.

Lemma swap64_loop_spec k : forall P b, bytes b -> length b = (8 * k)%nat ->
  swap64_loop (P ++ b) (len P) k = P ++ rev_chunks 8 k b.
Proof.
  induction k as [|k IH]; intros P e Hb Hl; [done|].
  destruct e as [|a [|b [|c [|d [|x [|y [|z [|w e]]]]]]]]; cbn in Hl; try lia.
  change (a :: b :: c :: d :: x :: y :: z :: w :: e) with ([a; b; c; d; x; y; z; w] ++ e) in *.
  apply Forall_app in Hb as [Hc Hb]. cbn [swap64_loop rev_chunks]. rewrite swap64_chunk by done.
  rewrite app_assoc. replace (len P + 8) with (len (P ++ [w; z; y; x; d; c; b; a])) by len_lia. rewrite IH by (done || lia).
  by rewrite <- app_assoc.
Qed.

Lemma rev_chunks_length size k : forall b, (size * k <= length b)%nat -> length (rev_chunks size k b) = length b.
Proof.
  induction k as [|k IH]; intros b Hb; cbn [rev_chunks]; [done|].
  rewrite length_app, length_rev, length_take, IH, length_drop by (rewrite length_drop; lia). lia.
Qed.

Lemma rev_chunks_bytes size k : forall b, bytes b -> bytes (rev_chunks size k b).
Proof.
  induction k as [|k IH]; intros b Hb; cbn [rev_chunks]; [done|]. apply Forall_app. split.
  - apply Forall_rev. by apply Forall_take.
  - apply IH. by apply Forall_drop.
Qed.

Lemma rev_chunks_twice size k : forall b, (size * k <= length b)%nat -> rev_chunks size k (rev_chunks size k b) = b.
Proof.
  induction k as [|k IH]; intros b Hb; cbn [rev_chunks]; [done|].
  assert (length (rev (take size b)) = size) as Hl by (rewrite length_rev, length_take; lia).
  rewrite take_app_length', drop_app_length' by done. rewrite rev_involutive, IH by (rewrite length_drop; lia).
  apply take_drop.
Qed.

(** A swap method reverses the chunks, and is its own inverse. *)
Definition swaps (size : nat) (swap : buffer -> js buffer) (b : buffer) : Prop :=
  if (length b mod size =? 0)%nat then
    swap b = Ok (rev_chunks size (length b / size) b) /\
    swap (rev_chunks size (length b / size) b) = Ok b
  else swap b = Throw RangeError.

Lemma swap_with_spec size loop b :
  (0 < size)%nat -> bytes b ->
  (forall k P b, bytes b -> length b = (size * k)%nat -> loop (P ++ b) (len P) k = P ++ rev_chunks size k b) ->
  swaps size (swap_with (Z.of_nat size) loop) b.
Proof.
  intros Hs Hb Hloop. unfold swaps, swap_with. unfold len.
  destruct (Nat.eqb_spec (length b mod size) 0) as [E|E].
  - assert (length b = (size * (length b / size))%nat) as Hl.
    { rewrite (Nat.div_mod_eq (length b) size) at 1. lia. }
    assert (forall c, length c = length b -> bytes c ->
      (if negb (Z.of_nat (length c) mod Z.of_nat size =? 0) then Throw RangeError
       else Ok (loop c 0 (Z.to_nat (Z.of_nat (length c) / Z.of_nat size)))) = Ok (rev_chunks size (length b / size) c)) as H.
    { intros c Hc Hbc. rewrite Hc, <- Nat2Z.inj_mod, <- Nat2Z.inj_div, E, Nat2Z.id. cbn [Z.of_nat Z.eqb negb].
      f_equal. rewrite <- Hc in Hl. rewrite <- Hc. apply (Hloop _ [] c Hbc). done. }
    split; [by apply H|]. rewrite H.
    + by rewrite rev_chunks_twice by lia.
    + apply rev_chunks_length. lia.
    + by apply rev_chunks_bytes.
  - rewrite <- Nat2Z.inj_mod. destruct (Z.eqb_spec (Z.of_nat (length b mod size)) 0); [lia|done].
Qed.

(** [swap16], [swap32] and [swap64] reverse every group of 2, 4 or 8 bytes,
    so that doing it twice gives the buffer back; they throw RangeError when
    the length is not a multiple of the group. *)
Theorem swap_correct (b : buffer) (Hb : bytes b) : swaps 2 swap16 b /\ swaps 4 swap32 b /\ swaps 8 swap64 b.
Proof.
  split_and!; apply swap_with_spec; auto using swap16_loop_spec, swap32_loop_spec, swap64_loop_spec with lia.
Qed.

Lemma swap_correct_witness : swap32 [1; 2; 3; 4; 5; 6; 7; 8] = Ok [4; 3; 2; 1; 8; 7; 6; 5].
Proof.
  destruct (swap_correct [1; 2; 3; 4; 5; 6; 7; 8]) as (_ & [H _] & _).
  - repeat constructor; unfold isByte; lia.
  - exact H.
Defined.
