(* ===== verification/Base64.v ===== *)
(** * base64-js

    Module 528 of swagger-ui-bundle.js: [toByteArray] and [fromByteArray].
    Strings are lists of UTF-16 code units. *)

From S2P Require Import Prelude BufInt.
Local Open Scope Z_scope.
Local Open Scope js_scope.

(** [r]: the 64 characters, "A-Za-z0-9+/". *)
Definition r_table : list Z :=
  map (fun i => 65 + Z.of_nat i) (seq 0 26) ++ map (fun i => 97 + Z.of_nat i) (seq 0 26) ++
  map (fun i => 48 + Z.of_nat i) (seq 0 10) ++ [43; 47].

Definition r_ (i : Z) : Z := idx0 r_table i.

(** [o]: the value of a character, with the two of base64url; a character that
    is not in the table is [undefined], 0 for the operators. *)
Definition o_ (c : option Z) : Z :=
  match c with
  | None => 0
  | Some c =>
      if c =? 45 then 62 else if c =? 95 then 63
      else if (65 <=? c) && (c <=? 90) then c - 65
      else if (97 <=? c) && (c <=? 122) then c - 71
      else if (48 <=? c) && (c <=? 57) then c + 4
      else if c =? 43 then 62 else if c =? 47 then 63
      else 0
  end.

(** [e.indexOf("=")] *)
Fixpoint index_eq (e : list Z) (i : Z) : Z :=
  match e with [] => -1 | c :: e => if c =? 61 then i else index_eq e (i + 1) end.

(** [l]: getLens *)
Definition getLens (e : list Z) : js (Z * Z) :=
  let t := len e in
  if t mod 4 >? 0 then Throw Error_
  else
    let n := index_eq e 0 in
    let n := if n =? -1 then t else n in
    Ok (n, if n =? t then 0 else 4 - n mod 4).

(** One turn of the loop of [toByteArray]: four characters, three bytes. *)
Fixpoint decode_loop (e : list Z) (u : buffer) (s f : Z) (k : nat) : buffer * Z * Z :=
  match k with
  | O => (u, s, f)
  | S k =>
      let t := o_ (idx e f) <<. 18 .| o_ (idx e (f + 1)) <<. 12 .| o_ (idx e (f + 2)) <<. 6 .| o_ (idx e (f + 3)) in
      decode_loop e (put (put (put u s (t >>. 16 .& 255)) (s + 1) (t >>. 8 .& 255)) (s + 2) (255 .& t)) (s + 3) (f + 4) k
  end.

Definition toByteArray (e : list Z) : js buffer :=
  x <-! getLens e ;;
  let '(r, a) := x in
  let size := 3 * (r + a) / 4 - a in
  if size <? 0 then Throw RangeError
  else
    let c := if a >? 0 then r - 4 else r in
    let '(u, s, f) := decode_loop e (replicate (Z.to_nat size) 0) 0 0 (Z.to_nat ((c + 3) / 4)) in
    if a =? 2 then
      let t := o_ (idx e f) <<. 2 .| o_ (idx e (f + 1)) >>. 4 in
      Ok (put u s (255 .& t))
    else if a =? 1 then
      let t := o_ (idx e f) <<. 10 .| o_ (idx e (f + 1)) <<. 4 .| o_ (idx e (f + 2)) >>. 2 in
      Ok (put (put u s (t >>. 8 .& 255)) (s + 1) (255 .& t))
    else Ok u.

(** [c]: encodeChunk, from [u] on, [k] triples. *)
Fixpoint encodeChunk (e : buffer) (u : Z) (k : nat) : list Z :=
  match k with
  | O => []
  | S k =>
      let i := (idx0 e u <<. 16 .& 16711680) + (idx0 e (u + 1) <<. 8 .& 65280) + (255 .& idx0 e (u + 2)) in
      [r_ (i >>. 18 .& 63); r_ (i >>. 12 .& 63); r_ (i >>. 6 .& 63); r_ (63 .& i)] ++ encodeChunk e (u + 3) k
  end.

(** The number of triples from [t] to [n]. *)
Definition triples (t n : Z) : nat := Z.to_nat ((n - t + 2) / 3).

(** [for (a = 0; a < u; a += 16383) i.push(c(e, a, a + 16383 > u ? u : a + 16383))] *)
Fixpoint encode_chunks (e : buffer) (a u : Z) (k : nat) : list Z :=
  match k with
  | O => []
  | S k =>
      let n := if a + 16383 >? u then u else a + 16383 in
      encodeChunk e a (triples a n) ++ encode_chunks e (a + 16383) u k
  end.

Definition fromByteArray (e : buffer) : list Z :=
  let n := len e in
  let o := n mod 3 in
  let u := n - o in
  encode_chunks e 0 u (Z.to_nat ((u + 16382) / 16383)) ++
  (if o =? 1 then
     let t := idx0 e (n - 1) in
     [r_ (t >>. 2); r_ (t <<. 4 .& 63); 61; 61]
   else if o =? 2 then
     let t := (idx0 e (n - 2) <<. 8) + idx0 e (n - 1) in
     [r_ (t >>. 10); r_ (t >>. 4 .& 63); r_ (t <<. 2 .& 63); 61]
   else []).
