(* ===== verification/Base64Facts.v ===== *)
(** * base64-js: encoding and decoding are inverse *)

From S2P Require Import Prelude BufInt BufIntFacts Base64.
Local Open Scope Z_scope.
Local Open Scope js_scope.

(** ** Digits *)

Definition isDigit (d : Z) : Prop := 0 <= d < 64.

Lemma digit_forall (P : Z -> bool) :
  forallb P (map Z.of_nat (seq 0 64)) = true -> forall x, isDigit x -> P x = true.
Proof.
  rewrite forallb_forall. intros H x Hx. apply H, in_map_iff. exists (Z.to_nat x).
  unfold isDigit in Hx. split; [lia|]. apply in_seq. lia.
Qed.

Lemma o_r d : isDigit d -> o_ (Some (r_ d)) = d.
Proof.
  intros Hd. apply Z.eqb_eq. revert d Hd.
  apply (digit_forall (fun d => o_ (Some (r_ d)) =? d)). vm_compute. reflexivity.
Qed.

Lemma r_not_pad d : isDigit d -> r_ d <> 61.
Proof.
  intros Hd. apply Z.eqb_neq, negb_true_iff. revert d Hd.
  apply (digit_forall (fun d => negb (r_ d =? 61))). vm_compute. reflexivity.
Qed.

(** ** Reference encoding *)

(** The digits of three, two and one bytes. *)
Definition quad (x y z : Z) : list Z :=
  let i := x * 65536 + y * 256 + z in [i / 2 ^ 18; (i / 2 ^ 12) mod 64; (i / 2 ^ 6) mod 64; i mod 64].
Definition tail2 (x y : Z) : list Z := let t := x * 256 + y in [t / 2 ^ 10; (t / 2 ^ 4) mod 64; (t * 4) mod 64].
Definition tail1 (x : Z) : list Z := [x / 4; (x * 16) mod 64].

Fixpoint enc (b : buffer) : list Z :=
  match b with
  | x :: y :: z :: b => map r_ (quad x y z) ++ enc b
  | [x; y] => map r_ (tail2 x y) ++ [61]
  | [x] => map r_ (tail1 x) ++ [61; 61]
  | [] => []
  end.

Lemma quad_digits x y z : isByte x -> isByte y -> isByte z -> Forall isDigit (quad x y z).
Proof.
  unfold isByte, quad, isDigit. intros. repeat constructor; try (apply Z.mod_pos_bound; lia); try (apply Z.div_pos; lia).
  apply Z.div_lt_upper_bound; lia.
Qed.

Lemma tail2_digits x y : isByte x -> isByte y -> Forall isDigit (tail2 x y).
Proof.
  unfold isByte, tail2, isDigit. intros. repeat constructor; try (apply Z.mod_pos_bound; lia); try (apply Z.div_pos; lia).
  apply Z.div_lt_upper_bound; lia.
Qed.

Lemma tail1_digits x : isByte x -> Forall isDigit (tail1 x).
Proof.
  unfold isByte, tail1, isDigit. intros. repeat constructor; try (apply Z.mod_pos_bound; lia); try (apply Z.div_pos; lia).
  apply Z.div_lt_upper_bound; lia.
Qed.

Lemma list3_ind (P : buffer -> Prop) :
  P [] -> (forall x, P [x]) -> (forall x y, P [x; y]) -> (forall x y z b, P b -> P (x :: y :: z :: b)) -> forall b, P b.
Proof.
  intros H0 H1 H2 H3 b. enough (P b /\ (forall x, P (x :: b)) /\ forall x y, P (x :: y :: b)) as [H _] by done.
  induction b as [|z b (IH & IH1 & IH2)]; [auto|]. split; [apply IH1|]. split; [intros x; apply IH2|]. intros x y. apply H3, IH.
Qed.

Lemma enc_app k : forall a b, length a = (3 * k)%nat -> enc (a ++ b) = enc a ++ enc b.
Proof.
  induction k as [|k IH]; intros a b Ha.
  - destruct a; [done|cbn in Ha; lia].
  - destruct a as [|x [|y [|z a]]]; cbn [length] in Ha; try lia.
    cbn [app enc]. rewrite IH by lia. by rewrite <- app_assoc.
Qed.

Lemma enc_length k : forall a, length a = (3 * k)%nat -> length (enc a) = (4 * k)%nat.
Proof.
  induction k as [|k IH]; intros a Ha.
  - destruct a; [done|cbn in Ha; lia].
  - destruct a as [|x [|y [|z a]]]; cbn [length] in Ha; try lia.
    cbn [enc]. rewrite length_app, IH by lia. cbn. lia.
Qed.

Lemma enc_no_pad k : forall a, bytes a -> length a = (3 * k)%nat -> Forall (fun c => c <> 61) (enc a).
Proof.
  induction k as [|k IH]; intros a Hb Ha.
  - destruct a; [constructor|cbn in Ha; lia].
  - destruct a as [|x [|y [|z a]]]; cbn [length] in Ha; try lia.
    apply Forall_cons in Hb as (Hx & (Hy & (Hz & Hb)%Forall_cons)%Forall_cons).
    cbn [enc]. apply Forall_app. split; [|apply IH; [done|lia]].
    apply Forall_map. eapply Forall_impl; [by apply quad_digits|]. apply r_not_pad.
Qed.

(** ** Encoding *)

Lemma byte_fields x : isByte x ->
  x <<. 16 .& 16711680 = x * 65536 /\ x <<. 8 .& 65280 = x * 256 /\ 255 .& x = x /\
  x >>. 2 = x / 4 /\ x <<. 4 .& 63 = (x * 16) mod 64 /\ x <<. 8 = x * 256.
Proof.
  intros Hx. pose proof (byte_forall (fun x => (x <<. 16 .& 16711680 =? x * 65536) && (x <<. 8 .& 65280 =? x * 256) &&
    (255 .& x =? x) && (x >>. 2 =? x / 4) && (x <<. 4 .& 63 =? (x * 16) mod 64) && (x <<. 8 =? x * 256))
    ltac:(vm_compute; reflexivity) x Hx) as H. cbv beta in H.
  rewrite !andb_true_iff, !Z.eqb_eq in H. tauto.
Qed.

Lemma and63 e : e .& 63 = e mod 64.
Proof. change 63 with (2 ^ 6 - 1). by rewrite js_and_ones by lia. Qed.

Lemma encodeChunk_enc k : forall P l post, bytes l -> length l = (3 * k)%nat ->
  encodeChunk (P ++ l ++ post) (len P) k = enc l.
Proof.
  induction k as [|k IH]; intros P l post Hb Hl.
  - destruct l; [done|cbn in Hl; lia].
  - destruct l as [|x [|y [|z l]]]; cbn [length] in Hl; try lia.
    apply Forall_cons in Hb as (Hx & (Hy & (Hz & Hb)%Forall_cons)%Forall_cons).
    cbn [encodeChunk enc]. unfold idx0. rewrite !(idx_mid P _ _ (len P)), (idx_mid0 P _ _ (len P)) by len_lia.
    change (Z.to_nat 1) with 1%nat. change (Z.to_nat 2) with 2%nat. cbn [lookup list_lookup default from_option id].
    destruct (byte_fields x Hx) as (-> & _). destruct (byte_fields y Hy) as (_ & -> & _). destruct (byte_fields z Hz) as (_ & _ & -> & _).
    unfold quad. unfold isByte in *. rewrite !js_shr_small by lia. rewrite (js_and_comm 63), !and63. cbn [map].
    f_equal; [f_equal; rewrite Z.mod_small; [done|]|].
    + split; [apply Z.div_pos; lia|apply Z.div_lt_upper_bound; lia].
    + do 3 f_equal. replace (P ++ (x :: y :: z :: l) ++ post) with ((P ++ [x; y; z]) ++ l ++ post) by (by rewrite <- app_assoc).
      replace (len P + 3) with (len (P ++ [x; y; z])) by len_lia. apply IH; [done|lia].
Qed.

Lemma encode_chunks_enc K : forall P l post k, bytes l -> length l = (3 * k)%nat -> K = Z.to_nat ((len l + 16382) / 16383) ->
  encode_chunks (P ++ l ++ post) (len P) (len P + len l) K = enc l.
Proof.
  induction K as [|K IH]; intros P l post k Hb Hl HK.
  - assert (len l = 0).
    { pose proof (len_nonneg l). destruct (Z.eq_dec (len l) 0); [done|].
      pose proof (Z.div_le_lower_bound (len l + 16382) 16383 1 ltac:(lia) ltac:(lia)). lia. }
    destruct l; [done|len_lia].
  - cbn [encode_chunks]. set (m := Z.to_nat (Z.min (len l) 16383)).
    assert (length (take m l) = m) as Hm. { rewrite length_take. unfold m, len in *. lia. }
    assert (exists k1, m = (3 * k1)%nat /\ (k1 <= k)%nat) as (k1 & Hk1 & Hle).
    { unfold m, len. rewrite Hl. destruct (Z.min_spec (Z.of_nat (3 * k)) 16383) as [[? ->]|[? ->]].
      - exists k. lia.
      - exists (Z.to_nat 5461). lia. }
    assert (enc l = enc (take m l) ++ enc (drop m l)) as ->. { rewrite <- (enc_app k1) by lia. by rewrite take_drop. }
    assert (P ++ l ++ post = P ++ (take m l ++ drop m l) ++ post) as -> by (by rewrite take_drop). f_equal.
    + replace (triples _ _) with k1.
      * rewrite <- app_assoc. apply encodeChunk_enc; [by apply Forall_take|lia].
      * unfold triples. replace (_ - len P) with (Z.of_nat m).
        2: { unfold m. destruct (Z.gtb_spec (len P + 16383) (len P + len l)); len_lia. }
        rewrite Hk1. replace (Z.of_nat (3 * k1) + 2) with (2 + Z.of_nat k1 * 3) by lia. rewrite Z.div_add by lia.
        change (2 / 3) with 0. lia.
    + destruct (Z.leb_spec (len l) 16383) as [Hs|Hs].
      * assert (drop m l = []) as ->. { apply nil_length_inv. rewrite length_drop. unfold m. unfold len in *. lia. }
        assert (len l <> 0) as Hnz. { intros E. rewrite E in HK. change ((0 + 16382) / 16383) with 0 in HK. lia. }
        assert ((len l + 16382) / 16383 = 1) as E1.
        { symmetry. apply (Z.div_unique _ _ _ (len l - 1)); pose proof (len_nonneg l); lia. }
        rewrite E1 in HK. replace K with O by lia. done.
      * replace (P ++ (take m l ++ drop m l) ++ post) with ((P ++ take m l) ++ drop m l ++ post) by (by rewrite <- !app_assoc).
        assert (len (take m l) = 16383) as Hlt. { unfold len. rewrite Hm. unfold m. lia. }
        assert (len (drop m l) = len l - 16383) as Hld. { unfold len. rewrite length_drop. unfold m, len in *. lia. }
        replace (len P + 16383) with (len (P ++ take m l)) by len_lia.
        replace (len P + len l) with (len (P ++ take m l) + len (drop m l)) by len_lia.
        apply (IH _ _ _ (k - k1)%nat); [by apply Forall_drop|rewrite length_drop; lia|].
        rewrite Hld. replace (len l + 16382) with (len l - 16383 + 16382 + 1 * 16383) in HK by lia.
        rewrite Z.div_add in HK by lia. lia.
Qed.

(** ** Splitting a buffer in triples and a rest *)

Lemma triples_rest (b : buffer) : exists (k : nat) (a c : buffer), b = a ++ c /\ length a = (3 * k)%nat /\ (length c < 3)%nat.
Proof.
  induction b as [|x|x y|x y z b (k & a & c & -> & Ha & Hc)] using list3_ind.
  - exists O, [], []. cbn. split_and!; [done|lia..].
  - exists O, [], [x]. cbn. split_and!; [done|lia..].
  - exists O, [], [x; y]. cbn. split_and!; [done|lia..].
  - exists (S k), (x :: y :: z :: a), c. cbn [length app]. split_and!; [done|lia..].
Qed.

Lemma fromByteArray_enc b : bytes b -> fromByteArray b = enc b.
Proof.
  intros Hb. destruct (triples_rest b) as (k & a & c & -> & Ha & Hc).
  apply Forall_app in Hb as [Hba Hbc]. rewrite (enc_app k) by done. unfold fromByteArray.
  assert (len (a ++ c) mod 3 = len c) as Hmod.
  { rewrite len_app. unfold len. rewrite Ha. replace (Z.of_nat (3 * k) + Z.of_nat (length c)) with (Z.of_nat (length c) + Z.of_nat k * 3) by lia.
    rewrite Z.mod_add by lia. apply Z.mod_small. lia. }
  rewrite Hmod. replace (len (a ++ c) - len c) with (len a) by len_lia.
  replace (encode_chunks (a ++ c) 0 (len a) (Z.to_nat ((len a + 16382) / 16383))) with (enc a).
  2: { symmetry. apply (encode_chunks_enc _ [] a c k); done. }
  f_equal. destruct c as [|x [|y [|z c]]]; [done| | |cbn in Hc; lia].
  - change (len [x] =? 1) with true. cbv iota. apply Forall_cons in Hbc as [Hx _].
    unfold idx0. replace (len (a ++ [x]) - 1) with (len a + 0) by len_lia.
    rewrite <- (app_nil_r (a ++ [x])), <- app_assoc. rewrite (idx_mid a [x] []) by len_lia.
    change (Z.to_nat 0) with 0%nat. cbn [lookup list_lookup Z.to_nat default from_option id].
    destruct (byte_fields x Hx) as (_ & _ & _ & -> & -> & _). done.
  - change (len [x; y] =? 1) with false. change (len [x; y] =? 2) with true. cbv iota.
    apply Forall_cons in Hbc as (Hx & (Hy & _)%Forall_cons). unfold idx0.
    replace (len (a ++ [x; y]) - 2) with (len a + 0) by len_lia. replace (len (a ++ [x; y]) - 1) with (len a + 1) by len_lia.
    rewrite <- (app_nil_r (a ++ [x; y])), <- app_assoc. rewrite !(idx_mid a [x; y] []) by len_lia.
    change (Z.to_nat 0) with 0%nat. change (Z.to_nat 1) with 1%nat. cbn [lookup list_lookup default from_option id].
    destruct (byte_fields x Hx) as (_ & _ & _ & _ & _ & ->). unfold tail2, isByte in *. cbv zeta. cbn [enc map app].
    rewrite !js_shr_small, js_shl_small, i32_small, !and63 by lia. done.
Qed.

(** ** Decoding *)

Lemma quad_value x y z : isByte x -> isByte y -> isByte z ->
  let i := x * 65536 + y * 256 + z in
  i / 2 ^ 18 <<. 18 .| (i / 2 ^ 12) mod 64 <<. 12 .| (i / 2 ^ 6) mod 64 <<. 6 .| i mod 64 = i.
Proof.
  intros Hx Hy Hz i. unfold isByte in *. rewrite !js_or_assoc.
  assert (0 <= i < 2 ^ 24) as Hi by (unfold i; lia). clearbody i. clear -Hi.
  pose proof (Z.mod_pos_bound i 64 ltac:(lia)). pose proof (Z.mod_pos_bound (i / 2 ^ 6) 64 ltac:(lia)).
  pose proof (Z.mod_pos_bound (i / 2 ^ 12) 64 ltac:(lia)). pose proof (Z.div_pos i (2 ^ 18) ltac:(lia) ltac:(lia)).
  pose proof (Z.div_lt_upper_bound i (2 ^ 18) 64 ltac:(lia) ltac:(lia)).
  rewrite (shl_or ((i / 2 ^ 6) mod 64)) by lia. rewrite (shl_or ((i / 2 ^ 12) mod 64)) by lia.
  rewrite (shl_or (i / 2 ^ 18)) by lia.
  pose proof (Z.div_mod i 64 ltac:(lia)). pose proof (Z.div_mod (i / 2 ^ 6) 64 ltac:(lia)) as H6.
  pose proof (Z.div_mod (i / 2 ^ 12) 64 ltac:(lia)) as H12. rewrite Z.div_div in H6, H12 by lia.
  change (2 ^ 6 * 64) with (2 ^ 12) in H6. change (2 ^ 12 * 64) with (2 ^ 18) in H12. change (2 ^ 6) with 64 in *. lia.
Qed.

Lemma quad_bytes x y z : isByte x -> isByte y -> isByte z ->
  let i := x * 65536 + y * 256 + z in
  (i >>. 16 .& 255) mod 256 = x /\ (i >>. 8 .& 255) mod 256 = y /\ (255 .& i) mod 256 = z.
Proof.
  intros Hx Hy Hz i. unfold isByte in *. rewrite !(js_and_comm _ 255), !and255, !mod256_twice, !js_shr_small by lia. unfold i. split_and!.
  - replace (x * 65536 + y * 256 + z) with ((y * 256 + z) + x * 2 ^ 16) by lia. rewrite Z.div_add, Z.div_small by lia.
    apply Z.mod_small. lia.
  - replace (x * 65536 + y * 256 + z) with (z + (x * 256 + y) * 2 ^ 8) by lia. rewrite Z.div_add, (Z.div_small z) by lia.
    replace (0 + (x * 256 + y)) with (y + x * 256) by lia. rewrite Z.mod_add by lia. apply Z.mod_small. lia.
  - replace (x * 65536 + y * 256 + z) with (z + (x * 256 + y) * 256) by lia. rewrite Z.mod_add by lia. apply Z.mod_small. lia.
Qed.

Lemma decode_loop_enc k : forall E l rest U z post, bytes l -> length l = (3 * k)%nat -> length z = (3 * k)%nat ->
  decode_loop (E ++ enc l ++ rest) (U ++ z ++ post) (len U) (len E) k =
  (U ++ l ++ post, len U + 3 * Z.of_nat k, len E + 4 * Z.of_nat k).
Proof.
  induction k as [|k IH]; intros E l rest U z post Hb Hl Hz.
  - destruct l, z; cbn in Hl, Hz; try lia. cbn [decode_loop]. do 2 f_equal; lia.
  - destruct l as [|x [|y [|w l]]]; cbn [length] in Hl; try lia. destruct z as [|a [|b [|c z]]]; cbn [length] in Hz; try lia.
    apply Forall_cons in Hb as (Hx & (Hy & (Hw & Hb)%Forall_cons)%Forall_cons).
    pose proof (quad_digits x y w Hx Hy Hw) as Hq. cbn [decode_loop enc]. unfold quad in *. cbv zeta in Hq |- *. cbn [map] in *.
    set (i := x * 65536 + y * 256 + w) in *.
    apply Forall_cons in Hq as (H1 & (H2 & (H3 & (H4 & _)%Forall_cons)%Forall_cons)%Forall_cons).
    rewrite <- (app_assoc _ (enc l)). cbn [app].
    match goal with |- context [E ++ ?q :: ?r :: ?s :: ?t :: enc l ++ rest] =>
      replace (E ++ q :: r :: s :: t :: enc l ++ rest) with (E ++ [q; r; s; t] ++ (enc l ++ rest)) by done end.
    rewrite !(idx_mid E _ _ (len E)), (idx_mid0 E _ _ (len E)) by len_lia.
    change (Z.to_nat 1) with 1%nat. change (Z.to_nat 2) with 2%nat. change (Z.to_nat 3) with 3%nat. cbn [lookup list_lookup].
    rewrite !o_r by done.
    pose proof (quad_value x y w Hx Hy Hw) as Hv. cbv zeta in Hv. fold i in Hv. rewrite Hv.
    change (U ++ a :: b :: c :: z ++ post) with (U ++ [a; b; c] ++ z ++ post).
    rewrite (put_mid0 U _ _ _ (len U)), !(put_mid U _ _ (len U)) by len_lia.
    pose proof (quad_bytes x y w Hx Hy Hw) as Hby. cbv zeta in Hby. fold i in Hby. destruct Hby as (-> & -> & ->).
    change (Z.to_nat 1) with 1%nat. change (Z.to_nat 2) with 2%nat. cbn [insert list_insert].
    match goal with |- context [E ++ [?q; ?r; ?s; ?t] ++ enc l ++ rest] =>
      replace (E ++ [q; r; s; t] ++ enc l ++ rest) with ((E ++ [q; r; s; t]) ++ enc l ++ rest) by (by rewrite <- app_assoc) end.
    replace (U ++ [x; y; w] ++ z ++ post) with ((U ++ [x; y; w]) ++ z ++ post) by (by rewrite <- app_assoc).
    replace (len U + 3) with (len (U ++ [x; y; w])) by len_lia.
    match goal with |- context [(E ++ ?q) ++ enc l ++ rest] => replace (len E + 4) with (len (E ++ q)) by len_lia end.
    rewrite IH by (done || lia). rewrite <- app_assoc. f_equal; [f_equal|]; len_lia.
Qed.

Lemma index_eq_app a b : Forall (fun c => c <> 61) a -> forall i, index_eq (a ++ b) i = index_eq b (i + len a).
Proof.
  induction 1 as [|c a Hc Ha IH]; intros i; [by rewrite Z.add_0_r|].
  cbn [index_eq app]. rewrite (proj2 (Z.eqb_neq c 61)) by done. rewrite IH. f_equal. len_lia.
Qed.

Lemma digits_no_pad l : Forall isDigit l -> Forall (fun c => c <> 61) (map r_ l).
Proof. intros H. apply Forall_map. eapply Forall_impl; [exact H|]. apply r_not_pad. Qed.

(** [toByteArray] of the encoding of whole triples and a rest with [p] pads. *)
Lemma toByteArray_split k a ds p : bytes a -> length a = (3 * k)%nat -> Forall isDigit ds ->
  len ds + p = 4 -> 1 <= p <= 2 ->
  toByteArray (enc a ++ map r_ ds ++ replicate (Z.to_nat p) 61) =
  (let '(u, s, f) := (a ++ replicate (Z.to_nat (3 - p)) 0, len a, len (enc a)) in
   let e := enc a ++ map r_ ds ++ replicate (Z.to_nat p) 61 in
   if p =? 2 then
     let t := o_ (idx e f) <<. 2 .| o_ (idx e (f + 1)) >>. 4 in Ok (put u s (255 .& t))
   else
     let t := o_ (idx e f) <<. 10 .| o_ (idx e (f + 1)) <<. 4 .| o_ (idx e (f + 2)) >>. 2 in
     Ok (put (put u s (t >>. 8 .& 255)) (s + 1) (255 .& t))).
Proof.
  intros Ha Hl Hds Hp Hp12. pose proof (enc_length k a Hl) as Hel. pose proof (enc_no_pad k a Ha Hl) as Hnp.
  assert (len (map r_ ds) = len ds) as Hm by (unfold len; by rewrite length_map).
  assert (len (replicate (Z.to_nat p) 61) = p) as Hr by (unfold len; rewrite length_replicate; lia).
  assert (len (enc a) = 4 * Z.of_nat k) as He by (unfold len; lia).
  unfold toByteArray, getLens. rewrite !len_app, Hm, Hr, He.
  replace ((4 * Z.of_nat k + (len ds + p)) mod 4) with 0.
  2: { rewrite Hp. replace (4 * Z.of_nat k + 4) with ((Z.of_nat k + 1) * 4) by lia. by rewrite Z.mod_mul by lia. }
  rewrite !index_eq_app by (done || by apply digits_no_pad). rewrite Hm, He.
  assert (index_eq (replicate (Z.to_nat p) 61) (0 + 4 * Z.of_nat k + len ds) = 4 * Z.of_nat k + len ds) as ->.
  { assert (exists q, Z.to_nat p = S q) as [q ->] by (exists (Z.to_nat p - 1)%nat; lia). cbn [replicate index_eq Z.eqb Pos.eqb]. lia. }
  change (0 >? 0) with false. cbv iota. pose proof (len_nonneg ds).
  rewrite (proj2 (Z.eqb_neq (4 * Z.of_nat k + len ds) (-1))) by lia.
  rewrite (proj2 (Z.eqb_neq (4 * Z.of_nat k + len ds) _)) by lia. cbn [js_bind].
  replace (4 - (4 * Z.of_nat k + len ds) mod 4) with p.
  2: { replace (4 * Z.of_nat k + len ds) with (len ds + Z.of_nat k * 4) by lia. rewrite Z.mod_add, Z.mod_small by lia. lia. }
  replace (3 * (4 * Z.of_nat k + len ds + p) / 4) with (3 * Z.of_nat k + 3).
  2: { apply (Z.div_unique _ _ _ 0); lia. }
  rewrite (proj2 (Z.ltb_ge _ 0)) by lia. replace (p >? 0) with true by (symmetry; apply Z.gtb_lt; lia).
  replace (Z.to_nat ((4 * Z.of_nat k + len ds - 4 + 3) / 4)) with k.
  2: { rewrite <- (Z.div_unique (4 * Z.of_nat k + len ds - 4 + 3) 4 (Z.of_nat k) (len ds - 1)); lia. }
  replace (replicate (Z.to_nat (3 * Z.of_nat k + 3 - p)) 0) with ([] ++ replicate (3 * k) 0 ++ replicate (Z.to_nat (3 - p)) 0).
  2: { cbn [app]. rewrite <- replicate_add. f_equal. lia. }
  rewrite (decode_loop_enc k [] a (map r_ ds ++ replicate (Z.to_nat p) 61) []) by (done || by rewrite length_replicate).
  cbn [app]. change (len []) with 0. rewrite !Z.add_0_l. replace (3 * Z.of_nat k) with (len a) by (unfold len; lia).
  destruct (Z.eqb_spec p 2); [done|]. destruct (Z.eqb_spec p 1); [done|lia].
Qed.

Lemma tail1_value x : isByte x -> (255 .& (x / 4 <<. 2 .| (x * 16) mod 64 >>. 4)) mod 256 = x.
Proof.
  intros Hx. apply Z.eqb_eq. revert x Hx.
  apply (byte_forall (fun x => (255 .& (x / 4 <<. 2 .| (x * 16) mod 64 >>. 4)) mod 256 =? x)). vm_compute. reflexivity.
Qed.

Lemma tail2_value x y : isByte x -> isByte y ->
  let t := x * 256 + y in
  let v := t / 2 ^ 10 <<. 10 .| (t / 2 ^ 4) mod 64 <<. 4 .| (t * 4) mod 64 >>. 2 in
  (v >>. 8 .& 255) mod 256 = x /\ (255 .& v) mod 256 = y.
Proof.
  intros Hx Hy t v. assert (v = t) as ->.
  { unfold v. unfold isByte in *. assert (0 <= t < 2 ^ 16) as Ht by (unfold t; lia). clearbody t. clear -Ht.
    rewrite js_or_assoc. pose proof (Z.mod_pos_bound (t / 2 ^ 4) 64 ltac:(lia)).
    pose proof (Z.div_pos t (2 ^ 10) ltac:(lia) ltac:(lia)). pose proof (Z.div_lt_upper_bound t (2 ^ 10) 64 ltac:(lia) ltac:(lia)).
    replace ((t * 4) mod 64) with (t mod 16 * 4). 2: { change 64 with (16 * 4). by rewrite Z.mul_mod_distr_r by lia. }
    pose proof (Z.mod_pos_bound t 16 ltac:(lia)). rewrite js_shr_small by lia. change (2 ^ 2) with 4. rewrite Z.div_mul by lia.
    rewrite (shl_or ((t / 2 ^ 4) mod 64)) by lia. rewrite shl_or by lia.
    pose proof (Z.div_mod t 16 ltac:(lia)). pose proof (Z.div_mod (t / 2 ^ 4) 64 ltac:(lia)) as H4.
    rewrite Z.div_div in H4 by lia. change (2 ^ 4 * 64) with (2 ^ 10) in H4. change (2 ^ 4) with 16 in *. lia. }
  unfold isByte in *. rewrite !(js_and_comm _ 255), !and255, !mod256_twice, js_shr_small by lia. unfold t. split.
  - replace (x * 256 + y) with (y + x * 2 ^ 8) by lia. rewrite Z.div_add, Z.div_small by lia. apply Z.mod_small. lia.
  - replace (x * 256 + y) with (y + x * 256) by lia. rewrite Z.mod_add by lia. apply Z.mod_small. lia.
Qed.

(** Decoding undoes encoding. *)
Lemma toByteArray_enc b : bytes b -> toByteArray (enc b) = Ok b.
Proof.
  intros Hb. destruct (triples_rest b) as (k & a & c & -> & Ha & Hc).
  apply Forall_app in Hb as [Hba Hbc]. rewrite (enc_app k) by done.
  destruct c as [|x [|y [|z c]]]; [| | |cbn in Hc; lia].
  - cbn [enc]. rewrite !app_nil_r. pose proof (enc_length k a Ha) as Hel. pose proof (enc_no_pad k a Hba Ha) as Hnp.
    assert (len (enc a) = 4 * Z.of_nat k) as He by (unfold len; lia).
    unfold toByteArray, getLens. rewrite He. replace ((4 * Z.of_nat k) mod 4) with 0 by (by rewrite Z.mul_comm, Z.mod_mul).
    rewrite <- (app_nil_r (enc a)), index_eq_app by done. cbn [index_eq Z.gtb Z.compare Z.eqb Pos.eqb js_bind].
    rewrite Z.eqb_refl. cbn [Z.gtb Z.compare Z.eqb]. rewrite Z.add_0_r, Z.sub_0_r.
    replace (3 * (4 * Z.of_nat k) / 4) with (3 * Z.of_nat k) by (apply (Z.div_unique _ _ _ 0); lia).
    rewrite (proj2 (Z.ltb_ge _ 0)) by lia.
    replace (Z.to_nat ((4 * Z.of_nat k + 3) / 4)) with k by (rewrite <- (Z.div_unique (4 * Z.of_nat k + 3) 4 (Z.of_nat k) 3); lia).
    pose proof (decode_loop_enc k [] a [] [] (replicate (3 * k) 0) [] Hba Ha ltac:(by rewrite length_replicate)) as Hd.
    cbn [app] in Hd. change (len []) with 0 in Hd. rewrite !app_nil_r in *.
    replace (Z.to_nat (3 * Z.of_nat k)) with (3 * k)%nat by lia. rewrite Hd. done.
  - apply Forall_cons in Hbc as [Hx _]. pose proof (tail1_digits x Hx) as Hd. cbn [enc].
    change [61; 61] with (replicate (Z.to_nat 2) 61). rewrite (toByteArray_split k) by (done || len_lia).
    cbv zeta. cbn [Z.eqb Pos.eqb]. unfold tail1 in *. cbn [map].
    rewrite (idx_mid (enc a) _ _ (len (enc a))), (idx_mid0 (enc a) _ _ (len (enc a))) by len_lia.
    change (Z.to_nat 1) with 1%nat. cbn [lookup list_lookup].
    apply Forall_cons in Hd as (H1 & (H2 & _)%Forall_cons). rewrite !o_r by done.
    change (replicate (Z.to_nat (3 - 2)) 0) with ([0] ++ []). rewrite (put_mid0 a _ _ _ (len a)) by len_lia.
    rewrite tail1_value by done. done.
  - apply Forall_cons in Hbc as (Hx & (Hy & _)%Forall_cons). pose proof (tail2_digits x y Hx Hy) as Hd. cbn [enc].
    change [61] with (replicate (Z.to_nat 1) 61). rewrite (toByteArray_split k) by (done || len_lia).
    cbv zeta. cbn [Z.eqb Pos.eqb]. unfold tail2 in *. cbv zeta in *. cbn [map].
    rewrite !(idx_mid (enc a) _ _ (len (enc a))), (idx_mid0 (enc a) _ _ (len (enc a))) by len_lia.
    change (Z.to_nat 1) with 1%nat. change (Z.to_nat 2) with 2%nat. cbn [lookup list_lookup].
    apply Forall_cons in Hd as (H1 & (H2 & (H3 & _)%Forall_cons)%Forall_cons). rewrite !o_r by done.
    change (replicate (Z.to_nat (3 - 1)) 0) with ([0; 0] ++ []).
    rewrite (put_mid0 a _ _ _ (len a)), (put_mid a _ _ (len a)) by len_lia.
    pose proof (tail2_value x y Hx Hy) as Hv. cbv zeta in Hv. destruct Hv as [-> ->]. done.
Qed.
