(* ===== verification/BufText.v ===== *)
(** * Buffer: strings

    The methods of module 54 of swagger-ui-bundle.js that convert between
    strings and bytes: UTF-8 ([F], [C]), hexadecimal ([P], [y]), ASCII and
    latin1 ([A], [O], [_], [w]), UTF-16 ([x], [T]) and base64 ([S], [E], [z]),
    with [byteLength], [write], [toString] and [from].  Strings are lists of
    UTF-16 code units; the name of an encoding is a string of Rocq. *)

From Stdlib Require Import String Ascii.
From S2P Require Import Prelude BufInt BufOps Base64.
Local Open Scope list_scope.
Local Open Scope Z_scope.
Local Open Scope js_scope.

(** ** UTF-8 *)

(** The room left, [None] for Infinity. *)
Definition room : Type := option Z.
Definition take_room (t : room) (n : Z) : room := option_map (fun t => t - n) t.
Definition has_room (t : room) : bool := match t with None => true | Some t => t >? -1 end.
Definition no_room (t : room) : bool := match t with None => false | Some t => t <? 0 end.

(** [(t -= 3) > -1 && i.push(239, 191, 189)] *)
Definition replacement (t : room) (i : list Z) : room * list Z :=
  let t := take_room t 3 in (t, if has_room t then i ++ [239; 191; 189] else i).

(** The bytes of a code point; the last case of [F] throws. *)
Definition utf8_push (n : Z) : option (list Z) :=
  if n <? 128 then Some [n]
  else if n <? 2048 then Some [n >>. 6 .| 192; 63 .& n .| 128]
  else if n <? 65536 then Some [n >>. 12 .| 224; n >>. 6 .& 63 .| 128; 63 .& n .| 128]
  else if negb (n <? 1114112) then None
  else Some [n >>. 18 .| 240; n >>. 12 .& 63 .| 128; n >>. 6 .& 63 .| 128; 63 .& n .| 128].

(** The loop of [F]: [o] is the lead surrogate that waits for its trail. *)
Fixpoint F_loop (e : list Z) (o : option Z) (t : room) (i : list Z) : js (list Z) :=
  match e with
  | [] => Ok i
  | n :: e' =>
      let finish n t i :=
        match utf8_push n with
        | None => Throw Error_
        | Some bs =>
            let t := take_room t (len bs) in
            if no_room t then Ok i else F_loop e' None t (i ++ bs)
        end in
      if (n >? 55295) && (n <? 57344) then
        match o with
        | None =>
            if n >? 56319 then let '(t, i) := replacement t i in F_loop e' None t i
            else match e' with
                 | [] => let '(t, i) := replacement t i in F_loop e' None t i
                 | _ => F_loop e' (Some n) t i
                 end
        | Some o =>
            if n <? 56320 then let '(t, i) := replacement t i in F_loop e' (Some n) t i
            else finish (65536 + (o - 55296 <<. 10 .| (n - 56320))) t i
        end
      else
        match o with
        | None => finish n t i
        | Some _ => let '(t, i) := replacement t i in finish n t i
        end
  end.

(** [F]: utf8ToBytes; [t || Infinity]. *)
Definition F_ (e : list Z) (t : option Z) : js (list Z) :=
  F_loop e None (match t with Some 0 => None | _ => t end) [].

(** [C]: the code point at [o] and how many bytes it takes; [None] when the
    bytes are not well formed. *)
Definition C_step (e : buffer) (o n : Z) : option Z * Z :=
  let l := idx0 e o in
  let i := idx0 e (o + 1) in
  let a := idx0 e (o + 2) in
  let u := idx0 e (o + 3) in
  let f := if l >? 239 then 4 else if l >? 223 then 3 else if l >? 191 then 2 else 1 in
  let cont x := 192 .& x =? 128 in
  (if o + f <=? n then
     if f =? 1 then if l <? 128 then Some l else None
     else if f =? 2 then
       let s := (31 .& l) <<. 6 .| 63 .& i in
       if cont i && (s >? 127) then Some s else None
     else if f =? 3 then
       let s := (15 .& l) <<. 12 .| (63 .& i) <<. 6 .| 63 .& a in
       if cont i && cont a && (s >? 2047) && ((s <? 55296) || (s >? 57343)) then Some s else None
     else
       let s := (15 .& l) <<. 18 .| (63 .& i) <<. 12 .| (63 .& a) <<. 6 .| 63 .& u in
       if cont i && cont a && cont u && (s >? 65535) && (s <? 1114112) then Some s else None
   else None, f).

Definition C_push (c : Z) : list Z :=
  if c >? 65535 then
    let c := c - 65536 in [c >>>. 10 .& 1023 .| 55296; 56320 .| 1023 .& c]
  else [c].

Fixpoint C_loop (fuel : nat) (e : buffer) (o n : Z) : list Z :=
  match fuel with
  | O => []
  | S fuel =>
      if o <? n then
        match C_step e o n with
        | (None, _) => C_push 65533 ++ C_loop fuel e (o + 1) n
        | (Some c, f) => C_push c ++ C_loop fuel e (o + f) n
        end
      else []
  end.

(** [C]: utf8Slice.  Every turn advances, so the length is enough fuel. *)
Definition C_ (e : buffer) (t n : Z) : list Z :=
  let n := Z.min (len e) n in C_loop (length e) e t n.

(** ** One byte per character, and UTF-16 *)

Definition asciiToBytes (e : list Z) : list Z := map (fun c => 255 .& c) e.

(** The inner function of [x]: utf16leToBytes *)
Fixpoint utf16leToBytes (e : list Z) (t : Z) : list Z :=
  match e with
  | [] => []
  | n :: e => let t := t - 2 in if t <? 0 then [] else [n mod 256; n >>. 8] ++ utf16leToBytes e t
  end.

(** The bytes from [t] to [n] of the loops of [A], [O] and [P]. *)
Definition range (e : buffer) (t n : Z) : list Z := take (Z.to_nat (n - t)) (drop (Z.to_nat t) e).

Definition A_ (e : buffer) (t n : Z) : list Z := map (fun x => 127 .& x) (range e t (Z.min (len e) n)).
Definition O_ (e : buffer) (t n : Z) : list Z := range e t (Z.min (len e) n).

Fixpoint units (r : list Z) : list Z :=
  match r with
  | x :: y :: r => (x + 256 * y) :: units r
  | [x] => [0]
  | [] => []
  end.

Definition T_ (e : buffer) (t n : Z) : list Z := units (slice e t (Some n)).

(** ** Hexadecimal *)

Definition hex_digit (d : Z) : Z := if d <? 10 then 48 + d else 87 + d.

(** [q]: toHex *)
Definition q_ (e : Z) : list Z := [hex_digit (e / 16); hex_digit (e mod 16)].

Definition P_ (e : buffer) (t n : Z) : list Z :=
  let r := len e in
  let t := if t <? 0 then 0 else t in
  let n := if (n <? 0) || (n =? 0) || (n >? r) then r else n in
  concat (map q_ (range e t n)).

(** The value of a hexadecimal digit. *)
Definition hex_value (c : Z) : option Z :=
  if (48 <=? c) && (c <=? 57) then Some (c - 48)
  else if (97 <=? c) && (c <=? 102) then Some (c - 87)
  else if (65 <=? c) && (c <=? 70) then Some (c - 55)
  else None.

Fixpoint hex_digits (s : list Z) : list Z :=
  match s with
  | c :: s => match hex_value c with Some d => d :: hex_digits s | None => [] end
  | [] => []
  end.

(** The white space of [parseInt] and [trim]. *)
Definition isSpace (c : Z) : bool :=
  (9 <=? c) && (c <=? 13) || (c =? 32) || (c =? 160) || (c =? 5760) || (8192 <=? c) && (c <=? 8202)
  || (c =? 8232) || (c =? 8233) || (c =? 8239) || (c =? 8287) || (c =? 12288) || (c =? 65279).

Fixpoint trimStart (s : list Z) : list Z :=
  match s with c :: s' => if isSpace c then trimStart s' else s | [] => [] end.

Definition trim (s : list Z) : list Z := rev (trimStart (rev (trimStart s))).

(** [parseInt(s, 16)]; [None] is NaN. *)
Definition parseInt16 (s : list Z) : option Z :=
  let s := trimStart s in
  let '(sign, s) := match s with 45 :: s' => (-1, s') | 43 :: s' => (1, s') | _ => (1, s) end in
  let s := match s with 48 :: x :: s' => if (x =? 120) || (x =? 88) then s' else s | _ => s end in
  match hex_digits s with
  | [] => None
  | ds => Some (sign * fold_left (fun v d => 16 * v + d) ds 0)
  end.

(** The loop of [y]: [a] bytes written so far, [k] to go. *)
Fixpoint hex_loop (e : buffer) (t : list Z) (n : Z) (k : nat) (a : Z) : buffer * Z :=
  match k with
  | O => (e, a)
  | S k =>
      match parseInt16 (take 2 (drop (Z.to_nat (2 * a)) t)) with
      | None => (e, a)
      | Some u => hex_loop (put e (n + a) u) t n k (a + 1)
      end
  end.

(** [y]: hexWrite; [r] is 0 when the caller gives no length. *)
Definition y_ (e : buffer) (t : list Z) (n r : Z) : js (buffer * Z) :=
  let o := len e - n in
  let r := if r =? 0 then o else if r >? o then o else r in
  let i := len t in
  if negb (i mod 2 =? 0) then Throw TypeError
  else
    let r := if 2 * r >? i then i / 2 else r in
    Ok (hex_loop e t n (Z.to_nat r) 0).

(** ** Base64 *)

(** The characters [U] keeps: + / 0-9 A-Z a-z - _ *)
Definition base64_char (c : Z) : bool :=
  (c =? 43) || (c =? 47) || (48 <=? c) && (c <=? 57) || (65 <=? c) && (c <=? 90) || (97 <=? c) && (c <=? 122)
  || (c =? 45) || (c =? 95).

Definition base64clean (e : list Z) : list Z :=
  let e := List.filter base64_char (trim e) in
  if len e <? 2 then [] else e ++ replicate (Z.to_nat ((4 - len e mod 4) mod 4)) 61.

(** [z]: base64ToBytes *)
Definition z_ (e : list Z) : js buffer := toByteArray (base64clean e).

(** [S]: base64Slice *)
Definition S_ (e : buffer) (t n : Z) : list Z :=
  if (t =? 0) && (n =? len e) then fromByteArray e else fromByteArray (slice e t (Some n)).

(** ** Writing *)

(** [B]: blitBuffer *)
Fixpoint B_loop (e : list Z) (t : buffer) (n r : Z) (o : Z) : buffer * Z :=
  match e with
  | [] => (t, o)
  | x :: e => if (o <? r) && negb (o + n >=? len t) then B_loop e (put t (o + n) x) n r (o + 1) else (t, o)
  end.

Definition B_ (e : list Z) (t : buffer) (n r : Z) : buffer * Z := B_loop e t n r 0.

(** The encodings by name. *)
Inductive encoding : Type := Hex | Utf8 | Ascii_ | Latin1 | Base64_ | Ucs2.

Definition enc_exact (s : string) : option encoding :=
  if String.eqb s "hex" then Some Hex
  else if String.eqb s "utf8" || String.eqb s "utf-8" then Some Utf8
  else if String.eqb s "ascii" then Some Ascii_
  else if String.eqb s "latin1" || String.eqb s "binary" then Some Latin1
  else if String.eqb s "base64" then Some Base64_
  else if String.eqb s "ucs2" || String.eqb s "ucs-2" || String.eqb s "utf16le" || String.eqb s "utf-16le" then Some Ucs2
  else None.

Definition lower_ascii (c : ascii) : ascii :=
  let n := nat_of_ascii c in if (65 <=? n)%nat && (n <=? 90)%nat then ascii_of_nat (n + 32) else c.

Fixpoint toLowerCase (s : string) : string :=
  match s with EmptyString => EmptyString | String c s => String (lower_ascii c) (toLowerCase s) end.

Definition isEncoding (s : string) : bool :=
  match enc_exact (toLowerCase s) with Some _ => true | None => false end.

(** The loops over the [switch]: the name as it is, then in lower case. *)
Definition enc_of (s : string) : option encoding :=
  match enc_exact s with Some x => Some x | None => enc_exact (toLowerCase s) end.

(** [h]: byteLength of a string *)
Definition byteLength (e : list Z) (t : string) : js Z :=
  let n := len e in
  if n =? 0 then Ok 0
  else match enc_of t with
       | Some Ascii_ | Some Latin1 => Ok n
       | Some Utf8 | None => js_map len (F_ e None)
       | Some Ucs2 => Ok (2 * n)
       | Some Hex => Ok (n >>>. 1)
       | Some Base64_ => js_map len (z_ e)
       end.

(** [write(string, offset, length, encoding)]: the new bytes and how many were
    written. *)
Definition write (b : buffer) (e : list Z) (t : Z) (n : option Z) (r : string) : js (buffer * Z) :=
  let t := t .| 0 in
  let o := len b - t in
  let n := match n with None => o | Some n => let n := n .| 0 in if n >? o then o else n end in
  if (len e >? 0) && ((n <? 0) || (t <? 0)) || (t >? len b) then Throw RangeError
  else match enc_of (if String.eqb r "" then "utf8" else r) with
       | Some Hex => y_ b e t n
       | Some Utf8 => js_map (fun bs => B_ bs b t n) (F_ e (Some (len b - t)))
       | Some Ascii_ | Some Latin1 => Ok (B_ (asciiToBytes e) b t n)
       | Some Base64_ => js_map (fun bs => B_ bs b t n) (z_ e)
       | Some Ucs2 => Ok (B_ (utf16leToBytes e (len b - t)) b t n)
       | None => Throw TypeError
       end.

(** ** Reading *)

(** [toString(encoding, start, end)] *)
Definition toString (b : buffer) (e : string) (t n : option Z) : js (list Z) :=
  if len b =? 0 then Ok []
  else
    let t := match t with None => 0 | Some t => if t <? 0 then 0 else t end in
    if t >? len b then Ok []
    else
      let n := match n with None => len b | Some n => if n >? len b then len b else n end in
      if n <=? 0 then Ok []
      else
        let n := n >>>. 0 in
        let t := t >>>. 0 in
        if n <=? t then Ok []
        else match enc_of (if String.eqb e "" then "utf8" else e) with
             | Some Hex => Ok (P_ b t n)
             | Some Utf8 => Ok (C_ b t n)
             | Some Ascii_ => Ok (A_ b t n)
             | Some Latin1 => Ok (O_ b t n)
             | Some Base64_ => Ok (S_ b t n)
             | Some Ucs2 => Ok (T_ b t n)
             | None => Throw TypeError
             end.

(** [Buffer.from(string, encoding)] *)
Definition from (t : list Z) (n : string) : js buffer :=
  let n := if String.eqb n "" then "utf8"%string else n in
  if negb (isEncoding n) then Throw TypeError
  else
    r <-! byteLength t n ;;
    let r := 0 .| r in
    e <-! u_ r ;;
    x <-! write e t 0 (Some (len e)) n ;;
    let '(e, o) := x in
    Ok (if negb (o =? r) then slice e 0 (Some o) else e).
