(* ===== verification/BufTextFacts.v ===== *)
(** * Buffer: strings and bytes, there and back *)

From Stdlib Require Import String.
From S2P Require Import Prelude BufInt BufIntFacts BufOps BufOpsFacts Base64 Base64Facts BufText.
Local Open Scope list_scope.
Local Open Scope Z_scope.
Local Open Scope js_scope.

(** ** Code points *)

Definition isUnit (c : Z) : Prop := 0 <= c < 65536.
Definition isPoint (c : Z) : Prop := 0 <= c < 1114112.
Definition scalar (c : Z) : Prop := isPoint c /\ (c < 55296 \/ 57343 < c).

Definition utf16 (c : Z) : list Z :=
  if c >? 65535 then [55296 + (c - 65536) / 1024; 56320 + (c - 65536) mod 1024] else [c].

Definition utf8 (c : Z) : list Z :=
  if c <? 128 then [c]
  else if c <? 2048 then [192 + c / 64; 128 + c mod 64]
  else if c <? 65536 then [224 + c / 4096; 128 + (c / 64) mod 64; 128 + c mod 64]
  else [240 + c / 262144; 128 + (c / 4096) mod 64; 128 + (c / 64) mod 64; 128 + c mod 64].

Definition utf16s (cs : list Z) : list Z := concat (map utf16 cs).
Definition utf8s (cs : list Z) : list Z := concat (map utf8 cs).

Lemma or_high x k n : 0 <= n < 31 -> 0 <= x < 2 ^ n -> 0 <= k -> k * 2 ^ n + x < 2 ^ 31 -> x .| k * 2 ^ n = k * 2 ^ n + x.
Proof.
  intros Hn Hx Hk Hlt. rewrite js_or_disjoint by lia. rewrite i32_small by (pose proof (Z.pow_pos_nonneg 2 n); lia). lia.
Qed.

(** A byte with the high bits of a continuation byte. *)
Lemma cont_byte x : 0 <= x < 64 -> x .| 128 = 128 + x.
Proof. intros Hx. apply (or_high x 2 6); lia. Qed.

Lemma and_63 x : 63 .& x = x mod 64.
Proof. rewrite js_and_comm. apply and63. Qed.

Lemma mod64 x : 0 <= x mod 64 < 64.
Proof. apply Z.mod_pos_bound. lia. Qed.

Lemma lead_byte c n m k w h : isPoint c -> 0 <= n < 32 -> m = 2 ^ n -> 0 <= w < 30 -> c < m * 2 ^ w -> 0 <= k ->
  h = k * 2 ^ w -> h + 2 ^ w <= 256 -> c >>. n .| h = h + c / m.
Proof.
  unfold isPoint. intros Hc Hn -> Hw Hlt Hk -> Hb. rewrite js_shr_small by lia.
  pose proof (Z.pow_pos_nonneg 2 n ltac:(lia) ltac:(lia)).
  pose proof (Z.div_pos c (2 ^ n) ltac:(lia) ltac:(lia)). pose proof (Z.div_lt_upper_bound c (2 ^ n) (2 ^ w) ltac:(lia) ltac:(lia)).
  apply or_high; lia.
Qed.

Lemma mid_byte c n m : isPoint c -> 0 <= n < 32 -> m = 2 ^ n -> c >>. n .& 63 .| 128 = 128 + (c / m) mod 64.
Proof.
  unfold isPoint. intros Hc Hn ->. rewrite js_shr_small by lia. rewrite and63. apply cont_byte, mod64.
Qed.

Lemma utf8_push_utf8 c : isPoint c -> utf8_push c = Some (utf8 c).
Proof.
  intros Hc. unfold utf8_push, utf8. rewrite !and_63, cont_byte by apply mod64.
  destruct (Z.ltb_spec c 128); [done|]. destruct (Z.ltb_spec c 2048).
  { by rewrite (lead_byte c 6 64 3 6) by (done || lia). }
  rewrite !(mid_byte c 6 64) by (done || lia). destruct (Z.ltb_spec c 65536).
  { by rewrite (lead_byte c 12 4096 7 5) by (done || lia). }
  destruct (Z.ltb_spec c 1114112); [|unfold isPoint in Hc; lia]. cbn [negb].
  by rewrite (mid_byte c 12 4096), (lead_byte c 18 262144 15 4) by (done || lia).
Qed.

Lemma C_push_utf16 c : isPoint c -> C_push c = utf16 c.
Proof.
  unfold isPoint. intros Hc. unfold C_push, utf16. destruct (Z.gtb_spec c 65535); [|done].
  assert (forall x, x .& 1023 = x mod 1024) as H10. { intros x. change 1023 with (2 ^ 10 - 1). by rewrite js_and_ones by lia. }
  rewrite (js_and_comm 1023), !H10. rewrite js_ushr_small, u32_id by (unfold isUint32; lia).
  pose proof (Z.mod_pos_bound (c - 65536) 1024 ltac:(lia)). pose proof (Z.div_pos (c - 65536) (2 ^ 10) ltac:(lia) ltac:(lia)).
  pose proof (Z.div_lt_upper_bound (c - 65536) (2 ^ 10) 1024 ltac:(lia) ltac:(lia)).
  rewrite (Z.mod_small ((c - 65536) / 2 ^ 10)) by lia. rewrite (js_or_comm 56320), !(or_high _ 54 10), (or_high _ 55 10) by lia.
  done.
Qed.

(** ** Encoding *)

Lemma has_room_ge t : (match t with None => True | Some t => 0 <= t end) -> has_room t = true /\ no_room t = false.
Proof. destruct t as [t|]; [|done]. intros Ht. cbn. split; [apply Z.gtb_lt; lia|apply Z.ltb_ge; lia]. Qed.

(** Enough room for [n] bytes. *)
Definition room_for (t : room) (n : Z) : Prop := match t with None => True | Some t => n <= t end.

Lemma F_loop_utf8 cs : Forall scalar cs -> forall t i, room_for t (len (utf8s cs)) ->
  F_loop (utf16s cs) None t i = Ok (i ++ utf8s cs).
Proof.
  induction 1 as [|c cs [Hp Hs] Hcs IH]; intros t i Ht; [by rewrite app_nil_r|].
  unfold utf16s, utf8s in *. cbn [map concat] in *. rewrite len_app in Ht.
  assert (forall t, room_for t (len (utf8 c) + len (concat (map utf8 cs))) ->
    match utf8_push c with
    | Some bs => let t := take_room t (len bs) in
        if no_room t then Ok i else F_loop (concat (map utf16 cs)) None t (i ++ bs)
    | None => Throw Error_ end = Ok (i ++ utf8 c ++ concat (map utf8 cs))) as Hfin.
  { intros t' Ht'. rewrite utf8_push_utf8 by done. cbv zeta. pose proof (len_nonneg (concat (map utf8 cs))).
    assert (room_for (take_room t' (len (utf8 c))) (len (concat (map utf8 cs)))) as Hr by (destruct t'; cbn in *; lia).
    destruct (has_room_ge (take_room t' (len (utf8 c)))) as [_ ->]; [destruct t'; cbn in *; lia|].
    rewrite IH by done. by rewrite <- app_assoc. }
  unfold isPoint in Hp. unfold utf16. destruct (Z.gtb_spec c 65535) as [Hc|Hc].
  - set (h := (c - 65536) / 1024). set (l := (c - 65536) mod 1024).
    assert (0 <= h < 1024) as Hh. { unfold h. split; [apply Z.div_pos; lia|apply Z.div_lt_upper_bound; lia]. }
    assert (0 <= l < 1024) as Hl by (apply Z.mod_pos_bound; lia).
    cbn [app F_loop]. destruct (Z.gtb_spec (55296 + h) 55295), (Z.ltb_spec (55296 + h) 57344); try lia. cbn [andb].
    destruct (Z.gtb_spec (55296 + h) 56319); [lia|].
    destruct (Z.gtb_spec (56320 + l) 55295), (Z.ltb_spec (56320 + l) 57344); try lia. cbn [andb].
    destruct (Z.ltb_spec (56320 + l) 56320); [lia|].
    replace (65536 + (55296 + h - 55296 <<. 10 .| (56320 + l - 56320))) with c; [by apply Hfin|].
    replace (55296 + h - 55296) with h by lia. replace (56320 + l - 56320) with l by lia. rewrite shl_or by lia.
    unfold h, l. pose proof (Z.div_mod (c - 65536) 1024). change (2 ^ 10) with 1024. lia.
  - cbn [app F_loop]. replace ((c >? 55295) && (c <? 57344)) with false; [by apply Hfin|].
    destruct (Z.gtb_spec c 55295), (Z.ltb_spec c 57344); cbn; try done; lia.
Qed.

(** ** Decoding *)

Lemma cont_test x : 0 <= x < 64 -> (192 .& (128 + x) =? 128) = true /\ 63 .& (128 + x) = x.
Proof.
  intros Hx. pose proof (byte_forall (fun y => negb ((128 <=? y) && (y <? 192)) ||
    ((192 .& y =? 128) && (63 .& y =? y - 128))) ltac:(vm_compute; reflexivity) (128 + x) ltac:(lia)) as H. cbv beta in H.
  rewrite (proj2 (Z.leb_le 128 _)), (proj2 (Z.ltb_lt _ 192)) in H by lia. cbn [negb andb orb] in H.
  apply andb_prop in H as [H1 H2%Z.eqb_eq]. split; [done|]. rewrite H2. lia.
Qed.

Lemma lead_bits x : 0 <= x ->
  (x < 32 -> 31 .& (192 + x) = x) /\ (x < 16 -> 15 .& (224 + x) = x) /\ (x < 16 -> 15 .& (240 + x) = x).
Proof.
  intros H0. rewrite !(js_and_comm _ (_ + x)). change 31 with (2 ^ 5 - 1). change 15 with (2 ^ 4 - 1).
  rewrite !js_and_ones by lia. change (2 ^ 5) with 32. change (2 ^ 4) with 16. split_and!; intros.
  - replace (192 + x) with (x + 6 * 32) by lia. rewrite Z.mod_add by lia. apply Z.mod_small. lia.
  - replace (224 + x) with (x + 14 * 16) by lia. rewrite Z.mod_add by lia. apply Z.mod_small. lia.
  - replace (240 + x) with (x + 15 * 16) by lia. rewrite Z.mod_add by lia. apply Z.mod_small. lia.
Qed.

Lemma utf8_bytes c : isPoint c -> bytes (utf8 c).
Proof.
  unfold isPoint, utf8. intros Hc. pose proof (mod64 c). pose proof (mod64 (c / 64)). pose proof (mod64 (c / 4096)).
  destruct (Z.ltb_spec c 128); [repeat constructor; lia|]. unfold bytes, isByte.
  destruct (Z.ltb_spec c 2048); [|destruct (Z.ltb_spec c 65536)]; repeat constructor; try lia;
    try (apply Z.add_nonneg_nonneg; [lia|apply Z.div_pos; lia]).
  - pose proof (Z.div_lt_upper_bound c 64 32). lia.
  - pose proof (Z.div_lt_upper_bound c 4096 16). lia.
  - pose proof (Z.div_lt_upper_bound c 262144 16). lia.
Qed.

Lemma utf8s_bytes cs : Forall isPoint cs -> bytes (utf8s cs).
Proof.
  induction 1 as [|c cs Hc Hcs IH]; [constructor|]. unfold utf8s. cbn [map concat]. apply Forall_app. split; [by apply utf8_bytes|done].
Qed.

Lemma two_bytes x y : 0 <= x < 32 -> 0 <= y < 64 -> x <<. 6 .| y = x * 64 + y.
Proof. intros. by rewrite shl_or by lia. Qed.

Lemma three_bytes x y z : 0 <= x < 16 -> 0 <= y < 64 -> 0 <= z < 64 -> x <<. 12 .| y <<. 6 .| z = x * 4096 + y * 64 + z.
Proof. intros. rewrite js_or_assoc, (shl_or y), shl_or by lia. lia. Qed.

Lemma four_bytes x y z w : 0 <= x < 16 -> 0 <= y < 64 -> 0 <= z < 64 -> 0 <= w < 64 ->
  x <<. 18 .| y <<. 12 .| z <<. 6 .| w = x * 262144 + y * 4096 + z * 64 + w.
Proof. intros. rewrite !js_or_assoc, (shl_or z), (shl_or y), shl_or by lia. lia. Qed.

Lemma idx0_mid P l post k : 0 <= k < len l -> idx0 (P ++ l ++ post) (len P + k) = default 0 (l !! Z.to_nat k).
Proof. intros Hk. unfold idx0. by rewrite idx_mid. Qed.

Lemma idx0_first P x l post : idx0 (P ++ (x :: l) ++ post) (len P) = x.
Proof. unfold idx0. by rewrite idx_mid0 by len_lia. Qed.

Lemma digits64 c : 0 <= c -> c = c / 64 * 64 + c mod 64 /\ c = c / 4096 * 4096 + (c / 64) mod 64 * 64 + c mod 64 /\
  c = c / 262144 * 262144 + (c / 4096) mod 64 * 4096 + (c / 64) mod 64 * 64 + c mod 64.
Proof.
  intros Hc. pose proof (Z.div_mod c 64 ltac:(lia)). pose proof (Z.div_mod (c / 64) 64 ltac:(lia)) as H1.
  pose proof (Z.div_mod (c / 4096) 64 ltac:(lia)) as H2. rewrite Z.div_div in H1, H2 by lia. change (64 * 64) with 4096 in H1.
  change (4096 * 64) with 262144 in H2. lia.
Qed.

Lemma C_step_utf8 c P post n : scalar c -> len P + len (utf8 c) <= n ->
  C_step (P ++ utf8 c ++ post) (len P) n = (Some c, len (utf8 c)).
Proof.
  intros [Hp Hs] Hn. unfold isPoint in Hp. unfold C_step. revert Hn. unfold utf8.
  pose proof (digits64 c ltac:(lia)) as (E2 & E3 & E4). pose proof (mod64 c). pose proof (mod64 (c / 64)). pose proof (mod64 (c / 4096)).
  destruct (Z.ltb_spec c 128) as [Hc1|Hc1].
  { intros Hn. rewrite idx0_first. destruct (Z.gtb_spec c 239); [lia|]. destruct (Z.gtb_spec c 223); [lia|]. destruct (Z.gtb_spec c 191); [lia|].
    cbn [Z.eqb Pos.eqb]. rewrite (proj2 (Z.leb_le _ _)) by (change (len [c]) with 1 in Hn; lia).
    by rewrite (proj2 (Z.ltb_lt c 128)). }
  destruct (Z.ltb_spec c 2048) as [Hc2|Hc2]; [|destruct (Z.ltb_spec c 65536) as [Hc3|Hc3]].
  - intros Hn. assert (2 <= c / 64 < 32) as Hl. { split; [apply Z.div_le_lower_bound; lia|apply Z.div_lt_upper_bound; lia]. }
    rewrite idx0_first, (idx0_mid P _ _ 1) by len_lia. change (Z.to_nat 1) with 1%nat. cbn [lookup list_lookup default from_option id].
    destruct (Z.gtb_spec (192 + c / 64) 239); [lia|]. destruct (Z.gtb_spec (192 + c / 64) 223); [lia|].
    destruct (Z.gtb_spec (192 + c / 64) 191); [|lia]. cbn [Z.eqb Pos.eqb].
    change (len [192 + c / 64; 128 + c mod 64]) with 2 in *. rewrite (proj2 (Z.leb_le _ _)) by lia.
    destruct (cont_test (c mod 64)) as [-> ->]; [done|]. rewrite (proj1 (lead_bits (c / 64) ltac:(lia))) by lia.
    rewrite two_bytes, <- E2 by lia. destruct (Z.gtb_spec c 127); [done|lia].
  - intros Hn. assert (0 <= c / 4096 < 16) as Hl. { split; [apply Z.div_pos; lia|apply Z.div_lt_upper_bound; lia]. }
    rewrite idx0_first, (idx0_mid P _ _ 1), (idx0_mid P _ _ 2) by len_lia.
    change (Z.to_nat 1) with 1%nat. change (Z.to_nat 2) with 2%nat. cbn [lookup list_lookup default from_option id].
    destruct (Z.gtb_spec (224 + c / 4096) 239); [lia|]. destruct (Z.gtb_spec (224 + c / 4096) 223); [|lia]. cbn [Z.eqb Pos.eqb].
    change (len [224 + c / 4096; 128 + (c / 64) mod 64; 128 + c mod 64]) with 3 in *. rewrite (proj2 (Z.leb_le _ _)) by lia.
    destruct (cont_test (c mod 64)) as [-> ->]; [done|]. destruct (cont_test ((c / 64) mod 64)) as [-> ->]; [done|].
    rewrite (proj1 (proj2 (lead_bits (c / 4096) ltac:(lia)))) by lia.
    rewrite three_bytes, <- E3 by lia. cbn [andb]. destruct (Z.gtb_spec c 2047); [|lia]. cbn [andb].
    destruct (Z.ltb_spec c 55296), (Z.gtb_spec c 57343); cbn [orb]; try done; lia.
  - intros Hn. assert (0 <= c / 262144 < 16) as Hl. { split; [apply Z.div_pos; lia|apply Z.div_lt_upper_bound; lia]. }
    rewrite idx0_first, (idx0_mid P _ _ 1), (idx0_mid P _ _ 2), (idx0_mid P _ _ 3) by len_lia.
    change (Z.to_nat 1) with 1%nat. change (Z.to_nat 2) with 2%nat. change (Z.to_nat 3) with 3%nat. cbn [lookup list_lookup default from_option id].
    destruct (Z.gtb_spec (240 + c / 262144) 239); [|lia]. cbn [Z.eqb Pos.eqb].
    change (len [240 + c / 262144; 128 + (c / 4096) mod 64; 128 + (c / 64) mod 64; 128 + c mod 64]) with 4 in *.
    rewrite (proj2 (Z.leb_le _ _)) by lia.
    destruct (cont_test (c mod 64)) as [-> ->]; [done|]. destruct (cont_test ((c / 64) mod 64)) as [-> ->]; [done|].
    destruct (cont_test ((c / 4096) mod 64)) as [-> ->]; [done|]. rewrite (proj2 (proj2 (lead_bits (c / 262144) ltac:(lia)))) by lia.
    rewrite four_bytes, <- E4 by lia. cbn [andb]. destruct (Z.gtb_spec c 65535); [|lia]. destruct (Z.ltb_spec c 1114112); [done|lia].
Qed.

Lemma C_loop_utf8 cs : Forall scalar cs -> forall P fuel, len (utf8s cs) <= Z.of_nat fuel ->
  C_loop fuel (P ++ utf8s cs) (len P) (len (P ++ utf8s cs)) = utf16s cs.
Proof.
  induction 1 as [|c cs Hc Hcs IH]; intros P fuel Hf.
  - destruct fuel; [done|]. cbn [C_loop]. rewrite (proj2 (Z.ltb_ge _ _)) by (unfold utf8s; cbn [map concat]; len_lia). done.
  - unfold utf8s, utf16s in *. cbn [map concat] in *.
    assert (0 < len (utf8 c)) as Hpos. { unfold utf8. repeat case_match; len_lia. }
    destruct fuel as [|fuel]; [len_lia|]. cbn [C_loop]. rewrite (proj2 (Z.ltb_lt _ _)) by len_lia.
    rewrite C_step_utf8 by (done || len_lia). rewrite C_push_utf16 by apply Hc. f_equal.
    replace (len P + len (utf8 c)) with (len (P ++ utf8 c)) by len_lia. rewrite app_assoc. apply IH. len_lia.
Qed.

(** ** Every decoding is well formed *)

Lemma and_range m x : 0 <= m <= 31 -> 0 <= (2 ^ m - 1) .& x < 2 ^ m.
Proof. intros Hm. rewrite js_and_comm, js_and_ones by lia. apply Z.mod_pos_bound. apply Z.pow_pos_nonneg; lia. Qed.

Lemma C_step_scalar e o n c f : bytes e -> C_step e o n = (Some c, f) -> scalar c /\ 1 <= f.
Proof.
  intros He. unfold C_step. pose proof (idx0_byte e o He) as Hl. set (l := idx0 e o) in *. unfold isByte in Hl.
  pose proof (and_range 5 l ltac:(lia)) as H31. pose proof (and_range 4 l ltac:(lia)) as H15.
  pose proof (and_range 6 (idx0 e (o + 1)) ltac:(lia)) as Hi. pose proof (and_range 6 (idx0 e (o + 2)) ltac:(lia)) as Ha.
  pose proof (and_range 6 (idx0 e (o + 3)) ltac:(lia)) as Hu.
  change (2 ^ 5 - 1) with 31 in *. change (2 ^ 4 - 1) with 15 in *. change (2 ^ 6 - 1) with 63 in *.
  rewrite two_bytes, three_bytes, four_bytes by lia. unfold scalar, isPoint.
  destruct (Z.gtb_spec l 239); [|destruct (Z.gtb_spec l 223); [|destruct (Z.gtb_spec l 191)]]; cbn [Z.eqb Pos.eqb];
    (destruct (_ <=? n); [|done]); case_match eqn:Hc; intros [= <- <-]; rewrite ?andb_true_iff, ?orb_true_iff, ?Z.gtb_lt, ?Z.ltb_lt in Hc; lia.
Qed.

Lemma C_loop_scalar e n : bytes e -> forall fuel o, exists cs, Forall scalar cs /\ C_loop fuel e o n = utf16s cs.
Proof.
  intros He. induction fuel as [|fuel IH]; intros o; cbn [C_loop]; [by exists []|].
  destruct (o <? n); [|by exists []]. destruct (C_step e o n) as [[c|] f] eqn:Hst.
  - apply C_step_scalar in Hst as [Hs _]; [|done]. destruct (IH (o + f)) as (cs & Hcs & ->). exists (c :: cs).
    split; [by constructor|]. unfold utf16s. cbn [map concat]. by rewrite C_push_utf16 by apply Hs.
  - destruct (IH (o + 1)) as (cs & Hcs & ->). exists (65533 :: cs). split; [|done]. constructor; [|done].
    unfold scalar, isPoint. lia.
Qed.

(** ** Blitting *)

Lemma B_loop_spec e : bytes e -> forall P z post n r o, len P = o + n -> len z = len e -> o + len e <= r ->
  B_loop e (P ++ z ++ post) n r o = (P ++ e ++ post, o + len e).
Proof.
  induction 1 as [|x e Hx He IH]; intros P z post n r o HP Hz Hr.
  - destruct z; [|len_lia]. cbn [B_loop]. f_equal. len_lia.
  - destruct z as [|y z]; [len_lia|]. cbn [B_loop]. rewrite (proj2 (Z.ltb_lt o r)) by len_lia.
    destruct (Z.geb_spec (o + n) (len (P ++ (y :: z) ++ post))); [len_lia|]. cbn [andb negb].
    rewrite put_first by done. rewrite (Z.mod_small x 256) by apply Hx.
    rewrite IH by len_lia. rewrite <- app_assoc. f_equal. len_lia.
Qed.

(** Writing bytes that fill a new buffer. *)
Lemma B_fill e : bytes e -> B_ e (replicate (length e) 0) 0 (len e) = (e, len e).
Proof.
  intros He. unfold B_. pose proof (B_loop_spec e He [] (replicate (length e) 0) [] 0 (len e) 0) as H.
  cbn [app] in H. rewrite !app_nil_r in H. apply H; unfold len; rewrite ?length_replicate; cbn; lia.
Qed.

(** ** The three steps of [from] *)

Lemma enc_isEncoding s x : enc_of s = Some x -> isEncoding s = true.
Proof.
  unfold enc_of, isEncoding. destruct (enc_exact s) eqn:E; [|by intros ->]. intros [= ->].
  unfold enc_exact in E.
  repeat match type of E with
  | (if ?c then _ else _) = _ => destruct c eqn:?
  end; try done;
  repeat match goal with H : (_ || _) = true |- _ => apply orb_true_iff in H as [H|H] end;
  match goal with H : String.eqb _ _ = true |- _ => apply String.eqb_eq in H as ->; done end.
Qed.

Lemma enc_nonempty s x : enc_of s = Some x -> String.eqb s "" = false.
Proof. intros H. destruct (String.eqb_spec s "") as [->|]; done. Qed.

(** [from] when the string has length [len b] in the encoding and writing it to
    a new buffer of that length gives [b]. *)
Lemma from_intro t n x b :
  enc_of n = Some x -> len b < 2 ^ 31 ->
  byteLength t n = Ok (len b) ->
  write (replicate (length b) 0) t 0 (Some (len b)) n = Ok (b, len b) ->
  from t n = Ok b.
Proof.
  intros Hn Hlen Hbl Hw. unfold from. rewrite (enc_nonempty n x Hn), (enc_isEncoding n x Hn), Hbl. cbn [negb js_bind].
  pose proof (len_nonneg b). rewrite js_or_0_l, i32_small by lia. unfold u_, a_.
  rewrite (proj2 (Z.ltb_ge 2147483647 _)), (proj2 (Z.ltb_ge _ 0)) by lia. cbn [js_bind].
  replace (Z.to_nat (len b)) with (length b) by (unfold len; lia).
  replace (len (replicate (length b) 0)) with (len b) by (unfold len; by rewrite length_replicate).
  rewrite Hw. cbn [js_bind]. by rewrite Z.eqb_refl.
Qed.

(** The checks of [write] at the start of a buffer with enough room. *)
Lemma write_start b t n x L : enc_of n = Some x -> len b = L -> L < 2 ^ 31 ->
  write b t 0 (Some L) n =
  match x with
  | Hex => y_ b t 0 L
  | Utf8 => js_map (fun bs => B_ bs b 0 L) (F_ t (Some L))
  | Ascii_ | Latin1 => Ok (B_ (asciiToBytes t) b 0 L)
  | Base64_ => js_map (fun bs => B_ bs b 0 L) (z_ t)
  | Ucs2 => Ok (B_ (utf16leToBytes t L) b 0 L)
  end.
Proof.
  intros Hn <- Hlen. pose proof (len_nonneg b). unfold write.
  rewrite !js_or_0_r, (i32_small 0), i32_small, Z.sub_0_r by lia.
  destruct (Z.gtb_spec (len b) (len b)); [lia|]. rewrite (proj2 (Z.ltb_ge (len b) 0)) by lia.
  cbn [Z.ltb Z.compare orb]. rewrite andb_false_r. destruct (Z.gtb_spec 0 (len b)); [lia|]. cbn [orb].
  rewrite (enc_nonempty n x Hn), Hn. by destruct x.
Qed.

Lemma len_zeros b : len (replicate (length b) 0) = len b.
Proof. unfold len. by rewrite length_replicate. Qed.

(** The checks of [toString] on a whole buffer. *)
Lemma toString_whole b n x : enc_of n = Some x -> 0 < len b < 2 ^ 31 ->
  toString b n None None =
  Ok (match x with
      | Hex => P_ b 0 (len b) | Utf8 => C_ b 0 (len b) | Ascii_ => A_ b 0 (len b)
      | Latin1 => O_ b 0 (len b) | Base64_ => S_ b 0 (len b) | Ucs2 => T_ b 0 (len b)
      end).
Proof.
  intros Hn Hlen. unfold toString. rewrite (proj2 (Z.eqb_neq (len b) 0)) by lia.
  destruct (Z.gtb_spec 0 (len b)); [lia|]. rewrite (proj2 (Z.leb_gt (len b) 0)) by lia.
  rewrite !js_ushr_small, !u32_id, !Z.div_1_r by (unfold isUint32; lia).
  rewrite (proj2 (Z.leb_gt (len b) 0)) by lia. rewrite (enc_nonempty n x Hn), Hn. by destruct x.
Qed.

(** ** UTF-8 *)

Lemma from_utf8 cs n : Forall scalar cs -> enc_of n = Some Utf8 -> len (utf8s cs) < 2 ^ 31 ->
  from (utf16s cs) n = Ok (utf8s cs).
Proof.
  intros Hcs Hn Hlen. assert (bytes (utf8s cs)) as Hb.
  { apply utf8s_bytes. eapply Forall_impl; [exact Hcs|]. by intros c [? _]. }
  apply (from_intro _ _ Utf8); [done|done| |].
  - unfold byteLength. rewrite Hn. destruct (Z.eqb_spec (len (utf16s cs)) 0) as [E|E].
    + destruct cs as [|c cs]; [done|]. exfalso. unfold utf16s in E. cbn [map concat] in E.
      unfold utf16 at 1 in E. case_match; len_lia.
    + unfold F_. rewrite F_loop_utf8 by done. done.
  - rewrite (write_start _ _ _ Utf8) by (done || apply len_zeros).
    unfold F_. rewrite F_loop_utf8.
    + cbn [js_map app]. by rewrite B_fill.
    + done.
    + destruct (len (utf8s cs)) eqn:E; cbn; [done|lia|lia].
Qed.

Lemma toString_utf8 cs n : Forall scalar cs -> enc_of n = Some Utf8 -> len (utf8s cs) < 2 ^ 31 ->
  toString (utf8s cs) n None None = Ok (utf16s cs).
Proof.
  intros Hcs Hn Hlen. destruct cs as [|c cs]; [done|].
  assert (0 < len (utf8s (c :: cs))). { unfold utf8s. cbn [map concat]. unfold utf8 at 1. repeat case_match; len_lia. }
  rewrite (toString_whole _ _ Utf8) by done. f_equal. unfold C_. rewrite Z.min_id.
  apply (C_loop_utf8 (c :: cs) Hcs [] (length (utf8s (c :: cs)))). unfold len. lia.
Qed.

(** ** Latin1 *)

Lemma asciiToBytes_id b : bytes b -> asciiToBytes b = b.
Proof.
  induction 1 as [|x b Hx Hb IH]; [done|]. cbn. unfold asciiToBytes in IH. rewrite IH, and255, Z.mod_small by done. done.
Qed.

Lemma range_whole b : range b 0 (len b) = b.
Proof. unfold range, len. rewrite Z.sub_0_r, Nat2Z.id. change (Z.to_nat 0) with O. rewrite drop_0. by apply take_ge. Qed.

Lemma roundtrip_latin1 b n : bytes b -> 0 < len b < 2 ^ 31 -> enc_of n = Some Latin1 ->
  toString b n None None = Ok b /\ from b n = Ok b.
Proof.
  intros Hb Hlen Hn. split.
  - rewrite (toString_whole _ _ Latin1) by done. unfold O_. by rewrite Z.min_id, range_whole.
  - apply (from_intro _ _ Latin1); [done|lia| |].
    + unfold byteLength. rewrite Hn, (proj2 (Z.eqb_neq _ _)) by lia. done.
    + rewrite (write_start _ _ _ Latin1) by (done || lia || apply len_zeros).
      rewrite asciiToBytes_id by done. by rewrite B_fill.
Qed.

(** ** Hexadecimal *)

Lemma hex_concat_length b : length (concat (map q_ b)) = (2 * length b)%nat.
Proof. induction b as [|x b IH]; [done|]. cbn [map concat]. rewrite length_app, IH. cbn. lia. Qed.

Lemma parse_q x : isByte x -> parseInt16 (q_ x) = Some x.
Proof.
  intros Hx. pose proof (byte_forall (fun x => match parseInt16 (q_ x) with Some v => v =? x | None => false end)
    ltac:(vm_compute; reflexivity) x Hx) as H. cbv beta in H.
  destruct (parseInt16 (q_ x)); [|done]. apply Z.eqb_eq in H. by subst.
Qed.

Lemma hex_loop_spec b : bytes b -> forall done_ z post n,
  length z = length b -> len post = n ->
  hex_loop (post ++ done_ ++ z) (concat (map q_ done_) ++ concat (map q_ b)) n (length b) (len done_) =
  (post ++ done_ ++ b, len done_ + len b).
Proof.
  induction 1 as [|x b Hx Hb IH]; intros dn z post n Hz Hn.
  - destruct z; [|done]. cbn [hex_loop length]. f_equal. len_lia.
  - destruct z as [|y z]; [done|]. cbn [hex_loop length map concat].
    replace (take 2 (drop (Z.to_nat (2 * len dn)) (concat (map q_ dn) ++ q_ x ++ concat (map q_ b)))) with (q_ x).
    2: { rewrite drop_app_length' by (rewrite hex_concat_length; unfold len; lia). by rewrite take_app_length'. }
    rewrite parse_q by done. replace (post ++ dn ++ y :: z) with ((post ++ dn) ++ (y :: z) ++ []) by (by rewrite app_nil_r, <- app_assoc).
    rewrite put_first by len_lia. rewrite (Z.mod_small x) by apply Hx. rewrite app_nil_r.
    replace (((post ++ dn) ++ [x]) ++ z) with (post ++ (dn ++ [x]) ++ z) by (by rewrite <- !app_assoc).
    replace (len dn + 1) with (len (dn ++ [x])) by len_lia.
    replace (concat (map q_ dn) ++ q_ x ++ concat (map q_ b)) with (concat (map q_ (dn ++ [x])) ++ concat (map q_ b)).
    2: { rewrite map_app, concat_app. cbn [map concat]. by rewrite app_nil_r, <- app_assoc. }
    rewrite IH by (cbn in Hz; congruence). rewrite <- app_assoc. f_equal. len_lia.
Qed.

Lemma roundtrip_hex b n : bytes b -> 0 < len b < 2 ^ 30 -> enc_of n = Some Hex ->
  exists s, toString b n None None = Ok s /\ from s n = Ok b.
Proof.
  intros Hb Hlen Hn. exists (concat (map q_ b)).
  assert (len (concat (map q_ b)) = 2 * len b) as Hl by (unfold len; rewrite hex_concat_length; lia). split.
  - rewrite (toString_whole _ _ Hex) by (done || lia). unfold P_. rewrite (proj2 (Z.ltb_ge (len b) 0)), (proj2 (Z.eqb_neq (len b) 0)) by lia.
    destruct (Z.gtb_spec (len b) (len b)); [lia|]. cbn [orb]. cbn [Z.ltb Z.compare]. by rewrite range_whole.
  - apply (from_intro _ _ Hex); [done|lia| |].
    + unfold byteLength. rewrite Hn, Hl, (proj2 (Z.eqb_neq _ _)) by lia.
      rewrite js_ushr_small, u32_id by (unfold isUint32; lia). f_equal. rewrite Z.mul_comm, Z.div_mul by lia. done.
    + rewrite (write_start _ _ _ Hex) by (done || lia || apply len_zeros).
      unfold y_. rewrite len_zeros, Hl, Z.sub_0_r, (proj2 (Z.eqb_neq (len b) 0)) by lia.
      destruct (Z.gtb_spec (len b) (len b)); [lia|]. rewrite (Z.mul_comm 2), Z.mod_mul by lia. cbn [Z.eqb negb].
      destruct (Z.gtb_spec (len b * 2) (len b * 2)); [lia|]. f_equal.
      pose proof (hex_loop_spec b Hb [] (replicate (length b) 0) [] 0 ltac:(by rewrite length_replicate) eq_refl) as Hloop.
      cbn [app map concat] in Hloop. change (len []) with 0 in Hloop. rewrite Z.add_0_l in Hloop.
      replace (Z.to_nat (len b)) with (length b) by (unfold len; lia). exact Hloop.
Qed.

(** ** UTF-16 *)

Lemma utf16le_all e : forall t, 2 * len e <= t -> utf16leToBytes e t = concat (map (fun c => [c mod 256; c >>. 8]) e).
Proof.
  induction e as [|c e IH]; intros t Ht; [done|]. cbn [utf16leToBytes map concat].
  rewrite (proj2 (Z.ltb_ge _ 0)) by len_lia. rewrite IH by len_lia. done.
Qed.

Lemma units_bytes e : Forall isUnit e ->
  bytes (concat (map (fun c => [c mod 256; c >>. 8]) e)) /\
  units (concat (map (fun c => [c mod 256; c >>. 8]) e)) = e /\
  len (concat (map (fun c => [c mod 256; c >>. 8]) e)) = 2 * len e.
Proof.
  induction 1 as [|c e Hc He (IHb & IHu & IHl)]; [split_and!; [constructor|done..]|]. cbn [map concat app units]. unfold isUnit in Hc.
  rewrite js_shr_small by lia. change (2 ^ 8) with 256.
  pose proof (Z.mod_pos_bound c 256 ltac:(lia)). pose proof (Z.div_pos c 256 ltac:(lia) ltac:(lia)).
  pose proof (Z.div_lt_upper_bound c 256 256 ltac:(lia) ltac:(lia)). pose proof (Z.div_mod c 256 ltac:(lia)).
  split_and!.
  - repeat constructor; unfold isByte; try lia. done.
  - rewrite IHu. f_equal. lia.
  - len_lia.
Qed.

Lemma roundtrip_ucs2 s n : Forall isUnit s -> 0 < len s < 2 ^ 30 -> enc_of n = Some Ucs2 ->
  exists b, from s n = Ok b /\ toString b n None None = Ok s.
Proof.
  intros Hs Hlen Hn. destruct (units_bytes s Hs) as (Hb & Hu & Hl). set (b := concat _) in *. exists b. split.
  - apply (from_intro _ _ Ucs2); [done|lia| |].
    + unfold byteLength. rewrite Hn, (proj2 (Z.eqb_neq _ _)) by lia. by rewrite Hl.
    + rewrite (write_start _ _ _ Ucs2) by (done || lia || apply len_zeros). rewrite utf16le_all by lia. fold b. by rewrite B_fill.
  - rewrite (toString_whole _ _ Ucs2) by (done || lia). unfold T_. rewrite slice_take by (unfold isInt32; lia).
    change (Z.to_nat 0) with O. rewrite drop_0, Z.sub_0_r, take_ge by (unfold len; lia). by rewrite Hu.
Qed.

(** ** Base64 *)

Lemma r_clean d : isDigit d -> base64_char (r_ d) = true /\ isSpace (r_ d) = false.
Proof.
  intros Hd.
  pose proof (digit_forall (fun d => base64_char (r_ d) && negb (isSpace (r_ d))) ltac:(vm_compute; reflexivity) d Hd) as H.
  cbv beta in H. apply andb_prop in H as [-> ->%negb_true_iff]. done.
Qed.

Lemma trimStart_id s : Forall (fun c => isSpace c = false) s -> trimStart s = s.
Proof. destruct 1 as [|c s Hc Hs]; [done|]. cbn. by rewrite Hc. Qed.

Lemma trim_id s : Forall (fun c => isSpace c = false) s -> trim s = s.
Proof.
  intros Hs. unfold trim. rewrite (trimStart_id s) by done. rewrite trimStart_id by (by apply Forall_rev). apply rev_involutive.
Qed.

Lemma filter_all (p : Z -> bool) s : Forall (fun c => p c = true) s -> List.filter p s = s.
Proof. induction 1 as [|c s Hc Hs IH]; [done|]. cbn. by rewrite Hc, IH. Qed.

(** The digits of a buffer: its encoding without the pads. *)
Lemma enc_digits b : bytes b -> exists ds p, enc b = map r_ ds ++ replicate p 61 /\ Forall isDigit ds /\
  p = Z.to_nat ((4 - len (map r_ ds) mod 4) mod 4) /\ (b <> [] -> 2 <= len (map r_ ds)).
Proof.
  induction b as [|x|x y|x y z b IH] using list3_ind; intros Hb.
  - by exists [], O.
  - apply Forall_cons in Hb as [Hx _]. exists (tail1 x), 2%nat. split_and!; [done|by apply tail1_digits|done|done].
  - apply Forall_cons in Hb as (Hx & (Hy & _)%Forall_cons). exists (tail2 x y), 1%nat.
    split_and!; [done|by apply tail2_digits|done|done].
  - apply Forall_cons in Hb as (Hx & (Hy & (Hz & Hb)%Forall_cons)%Forall_cons).
    destruct (IH Hb) as (ds & p & E & Hds & Hp & _). exists (quad x y z ++ ds), p. split_and!.
    + cbn [enc]. by rewrite E, map_app, <- app_assoc.
    + apply Forall_app. split; [by apply quad_digits|done].
    + rewrite Hp, map_app, len_app. change (len (map r_ (quad x y z))) with 4. do 2 f_equal.
      replace (4 + len (map r_ ds)) with (len (map r_ ds) + 1 * 4) by lia. by rewrite Z.mod_add by lia.
    + intros _. rewrite map_app, len_app. change (len (map r_ (quad x y z))) with 4. len_lia.
Qed.

Lemma z_enc b : bytes b -> z_ (enc b) = Ok b.
Proof.
  intros Hb. unfold z_. replace (base64clean (enc b)) with (enc b); [by apply toByteArray_enc|].
  destruct (enc_digits b Hb) as (ds & p & E & Hds & Hp & Hne). unfold base64clean.
  assert (Forall (fun c => base64_char c = true /\ isSpace c = false) (map r_ ds)) as Hd.
  { apply Forall_map. eapply Forall_impl; [exact Hds|]. apply r_clean. }
  rewrite trim_id.
  2: { rewrite E. apply Forall_app. split; [eapply Forall_impl; [exact Hd|]; by intros c [_ ?]|by apply Forall_replicate]. }
  rewrite E, List.filter_app, filter_all by (eapply Forall_impl; [exact Hd|]; by intros c [? _]).
  assert (List.filter base64_char (replicate p 61) = []) as ->. { clear. induction p; [done|]. cbn. done. }
  rewrite app_nil_r. destruct b as [|x b']; [destruct ds, p; cbn in E; done|].
  rewrite (proj2 (Z.ltb_ge _ 2)) by (by apply Hne). by rewrite Hp.
Qed.

Lemma roundtrip_base64 b n : bytes b -> 0 < len b < 2 ^ 31 -> enc_of n = Some Base64_ ->
  exists s, toString b n None None = Ok s /\ from s n = Ok b.
Proof.
  intros Hb Hlen Hn. exists (enc b). split.
  - rewrite (toString_whole _ _ Base64_) by done. unfold S_. rewrite !Z.eqb_refl. cbn [andb]. by rewrite fromByteArray_enc.
  - apply (from_intro _ _ Base64_); [done|lia| |].
    + unfold byteLength. rewrite Hn, z_enc by done. rewrite (proj2 (Z.eqb_neq _ _)); [done|].
      destruct b as [|x [|y [|z b]]]; unfold enc; fold enc; unfold quad; cbn [map]; len_lia.
    + rewrite (write_start _ _ _ Base64_) by (done || lia || apply len_zeros). rewrite z_enc by done. cbn [js_map]. by rewrite B_fill.
Qed.

(** ** The properties *)

(** C38: a well-formed string converts to the UTF-8 bytes of its code points and
    back to itself, under every name of the encoding. *)
Theorem utf8_roundtrip (cs : list Z) (n : string) (Hcs : Forall scalar cs) (Hn : enc_of n = Some Utf8)
    (Hlen : len (utf8s cs) < 2 ^ 31) :
  from (utf16s cs) n = Ok (utf8s cs) /\ toString (utf8s cs) n None None = Ok (utf16s cs).
Proof. split; [by apply from_utf8|by apply toString_utf8]. Qed.

Lemma utf8_roundtrip_witness :
  from (utf16s [104; 233; 8364; 128512]) "UTF-8" = Ok [104; 195; 169; 226; 130; 172; 240; 159; 152; 128] /\
  toString [104; 195; 169; 226; 130; 172; 240; 159; 152; 128] "UTF-8" None None = Ok [104; 233; 8364; 55357; 56832].
Proof.
  apply (utf8_roundtrip [104; 233; 8364; 128512] "UTF-8").
  - repeat constructor; unfold isPoint; lia.
  - reflexivity.
  - vm_compute. reflexivity.
Defined.

(** Any bytes decode, without an error, to a well-formed string: what is not
    UTF-8 becomes the replacement character. *)
Theorem utf8_decode_wellformed (b : buffer) (t n : option Z) (Hb : bytes b) :
  exists cs, Forall scalar cs /\ toString b "utf8" t n = Ok (utf16s cs).
Proof.
  unfold toString. change (enc_of (if String.eqb "utf8" "" then "utf8" else "utf8")) with (Some Utf8).
  repeat case_match; try (by exists []); unfold C_;
    match goal with |- context [C_loop ?f b ?o ?m] => destruct (C_loop_scalar b m Hb f o) as (cs & Hcs & ->) end; by exists cs.
Qed.

Lemma utf8_decode_wellformed_witness :
  exists cs, Forall scalar cs /\ toString [237; 160; 128] "utf8" None None = Ok (utf16s cs).
Proof. apply (utf8_decode_wellformed [237; 160; 128] None None). repeat constructor; unfold isByte; lia. Defined.

(** Any non-empty bytes survive the conversion to a hexadecimal, latin1 or
    base64 string and back. *)
Theorem bytes_roundtrip (b : buffer) (n : string) (Hb : bytes b) (Hlen : 0 < len b < 2 ^ 30)
    (Hn : enc_of n = Some Hex \/ enc_of n = Some Latin1 \/ enc_of n = Some Base64_) :
  exists s, toString b n None None = Ok s /\ from s n = Ok b.
Proof.
  destruct Hn as [Hn|[Hn|Hn]].
  - by apply roundtrip_hex.
  - exists b. apply roundtrip_latin1; [done|lia|done].
  - apply roundtrip_base64; [done|lia|done].
Qed.

Lemma bytes_roundtrip_witness :
  exists s, toString [255; 0; 16; 128] "base64" None None = Ok s /\ from s "base64" = Ok [255; 0; 16; 128].
Proof.
  apply (bytes_roundtrip [255; 0; 16; 128] "base64").
  - repeat constructor; unfold isByte; lia.
  - vm_compute. split; reflexivity.
  - right. right. reflexivity.
Defined.

(** Any non-empty string, well formed or not, survives the conversion to
    UTF-16 bytes and back. *)
Theorem ucs2_roundtrip (s : list Z) (n : string) (Hs : Forall isUnit s) (Hlen : 0 < len s < 2 ^ 30) (Hn : enc_of n = Some Ucs2) :
  exists b, from s n = Ok b /\ toString b n None None = Ok s.
Proof. by apply roundtrip_ucs2. Qed.

Lemma ucs2_roundtrip_witness :
  exists b, from [55296; 97] "ucs2" = Ok b /\ toString b "ucs2" None None = Ok [55296; 97].
Proof.
  apply (ucs2_roundtrip [55296; 97] "ucs2").
  - repeat constructor; unfold isUnit; lia.
  - vm_compute. split; reflexivity.
  - reflexivity.
Defined.

(** A lead surrogate that ends the string right after another lead
    surrogate is lost: two lone surrogates give one replacement character. *)
Theorem utf8_lost_surrogate (o t : Z) (Ho : 55296 <= o < 56320) (Ht : 55296 <= t < 56320) :
  F_ [o; t] None = Ok [239; 191; 189] /\ F_ [t] None = Ok [239; 191; 189].
Proof.
  unfold F_. cbn [F_loop].
  destruct (Z.gtb_spec o 55295), (Z.ltb_spec o 57344), (Z.gtb_spec o 56319), (Z.gtb_spec t 55295), (Z.ltb_spec t 57344),
    (Z.ltb_spec t 56320), (Z.gtb_spec t 56319); cbn [andb]; try lia. done.
Qed.

Lemma utf8_lost_surrogate_witness : F_ [55296; 55297] None = Ok [239; 191; 189].
Proof. apply (utf8_lost_surrogate 55296 55297); lia. Defined.
