(* ===== verification/ImSeq.v ===== *)
(** * Immutable: lazy sequences

    The sequences of module 7 of swagger-ui-bundle.js by what they do when they
    are iterated over: arrays ([ee]), objects ([te]), [Repeat] ([me]), [Range]
    ([ye]) and cached results ([le]) as sources; the functions that make a
    sequence of another ([Ut], [qt], [Ft], [zt], [Bt], [Vt], [Ht], the classes
    [Nt], [Rt], [Dt], [Lt], [takeWhile], [interpose], [concat]); and the methods
    of [Iterable] that consume one.

    A sequence is its size, [None] for [undefined], and its method [__iterate]:
    [iterate q fn reverse s] calls [fn value key] on the entries, threading a
    state, until a call returns [false] (the boolean is [true] then), and gives
    the number of calls the program returns.  Functions passed by the caller
    are pure; a predicate gives a JavaScript value, of which [false], another
    falsy value and a truthy one are told apart. *)

From S2P Require Import Prelude.
Local Open Scope Z_scope.

Record iter (K V : Type) : Type := Iter {
  isize : option Z;
  iterate : forall S : Type, (V -> K -> S -> S * bool) -> bool -> S -> S * Z
}.
Arguments Iter {K V}.
Arguments isize {K V}.
Arguments iterate {K V} _ {S}.

(** What a predicate returns. *)
Inductive outcome : Type := False_ | Falsy | Truthy.
Definition truthy (o : outcome) : bool := match o with Truthy => true | _ => false end.
Definition is_false (o : outcome) : bool := match o with False_ => true | _ => false end.
Definition of_bool (b : bool) : outcome := if b then Truthy else False_.

(** ** Indices *)

(** [C]: ensureSize; [A] always returns [true]. *)
Definition C_size {K V} (e : iter K V) : Z :=
  match isize e with
  | Some n => n
  | None => snd (iterate e (fun _ _ s => (s, false)) false tt)
  end.

(** [k]: wrapIndex, of a number *)
Definition k_ {K V} (e : iter K V) (t : Z) : Z := if t <? 0 then C_size e + t else t.

(** [O]: wholeSlice *)
Definition O_whole (e t n : option Z) : bool :=
  match e with
  | None => false
  | Some e => (e =? 0) || match n with Some n => e <=? - n | None => false end
  end
  && match t with
     | None => true
     | Some t => match n with Some n => t >=? n | None => false end
     end.

(** A number that can be [undefined] or NaN. *)
Inductive num : Type := Num (z : Z) | Undef | NaN_.

(** [M]: resolveIndex *)
Definition M_resolve (e t n : option Z) : num :=
  match e with
  | None => match n with Some n => Num n | None => Undef end
  | Some e =>
      if e <? 0 then match t with Some t => Num (Z.max 0 (t + e)) | None => NaN_ end
      else match t with None => Num e | Some t => Num (Z.min t e) end
  end.

(** [P] and [T]: resolveBegin and resolveEnd *)
Definition P_begin (e t : option Z) : num := M_resolve e t (Some 0).
Definition T_end (e t : option Z) : num := M_resolve e t t.

(** ** Sources *)

(** The loop over an array, counting up in both directions. *)
Fixpoint arr_loop {V S} (f : V -> Z -> S -> S * bool) (n : list V) (o : Z) (s : S) : S * Z :=
  match n with
  | [] => (s, o)
  | x :: n => let '(s, stop) := f x o s in if stop then (s, o + 1) else arr_loop f n (o + 1) s
  end.

(** [ee]: ArraySeq *)
Definition ee {V} (array : list V) : iter Z V :=
  Iter (Some (Z.of_nat (length array)))
    (fun S f t s => arr_loop f (if t then rev array else array) 0 s).

(** [te]: ObjectSeq, of the own enumerable properties in the order of
    [Object.keys]. *)
Definition te {K V} (object : list (K * V)) : iter K V :=
  Iter (Some (Z.of_nat (length object)))
    (fun S f t s => arr_loop (fun u _ s => f u.2 u.1 s) (if t then rev object else object) 0 s).

(** [me]: Repeat, of finite size *)
Fixpoint repeat_loop {V S} (value : V) (f : V -> Z -> S -> S * bool) (k : nat) (n : Z) (s : S) : S * Z :=
  match k with
  | O => (s, n)
  | Datatypes.S k => let '(s, stop) := f value n s in if stop then (s, n + 1) else repeat_loop value f k (n + 1) s
  end.

Definition me {V} (value : V) (times : Z) : iter Z V :=
  let size := Z.max 0 times in
  Iter (Some size) (fun S f _ s => repeat_loop value f (Z.to_nat size) 0 s).

(** [ye]: Range, of integers.  The program shares one object between all empty
    ranges; only its entries are told apart here. *)
Record range := Range_ { _start : Z; _end : Z; _step : Z; rsize : Z }.

(** [Math.ceil(a / n)] *)
Definition ceil_div (a n : Z) : Z := - (- a / n).

Definition new_ye (e t : Z) (n : option Z) : js range :=
  if match n with Some n => n =? 0 | None => false end then Throw Error_
  else
    let n := match n with None => 1 | Some n => Z.abs n end in
    let n := if t <? e then - n else n in
    Ok (Range_ e t n (Z.max 0 (ceil_div (t - e) n))).

Fixpoint range_loop {S} (step : Z) (f : Z -> Z -> S -> S * bool) (k : nat) (o i : Z) (s : S) : S * Z :=
  match k with
  | O => (s, i)
  | Datatypes.S k =>
      let '(s, stop) := f o i s in
      if stop then (s, i + 1) else range_loop step f k (o + step) (i + 1) s
  end.

Definition ye (r : range) : iter Z Z :=
  Iter (Some (rsize r))
    (fun S f t s =>
       let n := rsize r - 1 in
       if t then range_loop (- _step r) f (Z.to_nat (n + 1)) (_start r + n * _step r) 0 s
       else range_loop (_step r) f (Z.to_nat (n + 1)) (_start r) 0 s).

Definition ye_has (r : range) (e : Z) : bool := let e := k_ (ye r) e in (e >=? 0) && (e <? rsize r).
Definition ye_get (r : range) (e t : Z) : Z := if ye_has r e then _start r + k_ (ye r) e * _step r else t.

(** [(e - start) / step] is an integer in [0, size). *)
Definition ye_includes (r : range) (e : Z) : bool :=
  let d := e - _start r in
  (d mod _step r =? 0) && (d / _step r >=? 0) && (d / _step r <? rsize r).

Definition ye_indexOf (r : range) (e : Z) : Z :=
  let t := e - _start r in
  if Z.rem t (_step r) =? 0 then
    let n := Z.quot t (_step r) in if (n >=? 0) && (n <? rsize r) then n else -1
  else -1.

Definition ye_slice (r : range) (e t : option Z) : js range :=
  if O_whole e t (Some (rsize r)) then Ok r
  else
    match P_begin e (Some (rsize r)), T_end t (Some (rsize r)) with
    | Num e, Num t => if t <=? e then new_ye 0 0 None else new_ye (ye_get r e (_end r)) (ye_get r t (_end r)) (Some (_step r))
    | _, _ => new_ye 0 0 None
    end.

(** [le]: iteration over a cached result; [key] is [r ? u[0] : a]. *)
Definition keyed {K} (k : K) (_ : Z) : K := k.
Definition indexed {K} (_ : K) (n : Z) : Z := n.

Definition le_ {K K' V} (key : K -> Z -> K') (cache : list (K * V)) : iter K' V :=
  Iter (Some (Z.of_nat (length cache)))
    (fun S f n s => arr_loop (fun u a s => f u.2 (key u.1 a) s) (if n then rev cache else cache) 0 s).

(** [entrySeq().toArray()], what [cacheResult] keeps. *)
Definition collect {K V} (q : iter K V) : list (K * V) :=
  fst (iterate q (fun v k acc => (acc ++ [(k, v)], false)) false []).

(** ** Sequences of sequences *)

(** [Ut]: flip *)
Definition Ut {K V} (e : iter K V) : iter V K :=
  Iter (isize e) (fun S f t s => iterate e (fun v k s => f k v s) t s).

(** [qt]: map *)
Definition qt {K V W} (e : iter K V) (t : V -> K -> W) : iter K W :=
  Iter (isize e) (fun S f o s => iterate e (fun v k s => f (t v k) k s) o s).

(** [Ft]: reverse *)
Definition Ft {K V} (e : iter K V) : iter K V :=
  Iter (isize e) (fun S f n s => iterate e f (negb n) s).

(** [zt]: filter; [key] is [r ? i : u - 1]. *)
Definition zt {K K' V} (key : K -> Z -> K') (e : iter K V) (t : V -> K -> outcome) : iter K' V :=
  Iter None
    (fun S o i s =>
       fst (iterate e
         (fun v k '(s, u) =>
            if truthy (t v k) then let '(s', stop) := o v (key k u) s in ((s', u + 1), stop) else ((s, u), false))
         i (s, 0))).

(** [Bt]: slice.  [u] is the number of entries wanted, [None] for all. *)
Definition Bt_iterate {K K' V S} (key : K -> Z -> K') (e : iter K V) (i : Z) (u : option Z)
    (t : V -> K' -> S -> S * bool) (s : S) : S * Z :=
  let '(st, _) :=
    iterate e
      (fun v k (x : S * Z * (Z * bool)) =>
         let '(st, l, (a, skipping)) := x in
         let '(a, skipping) := if skipping then (a + 1, a <? i) else (a, false) in
         if skipping then ((st, l, (a, skipping)), false)
         else
           let l := l + 1 in
           let '(st', stop) := t v (key k (l - 1)) st in
           ((st', l, (a, skipping)), stop || match u with Some u => l =? u | None => false end))
      false (s, 0, (0, true)) in fst st.

(** The sequence [Bt] makes for the range from [i] to [a], [None] for the end;
    backwards it goes over its cached result. *)
Definition Bt_range {K V} (key : K -> Z -> K) (e : iter K V) (i : Z) (a : option Z) : iter K V :=
  let u := option_map (fun a => Z.max 0 (a - i)) a in
  let forward S (f : V -> K -> S -> S * bool) (s : S) : S * Z :=
    match u with Some 0 => (s, 0) | _ => Bt_iterate key e i u f s end in
  Iter
    (match u with
     | Some 0 => Some 0
     | _ => match isize e with Some 0 | None => None | Some _ => u end
     end)
    (fun S f reverse s =>
       match u with
       | Some 0 => (s, 0)
       | _ =>
           if reverse then iterate (le_ key (fst (forward _ (fun v k acc => (acc ++ [(k, v)], false)) []))) f true s
           else forward S f s
       end).

Definition Bt_known {K V} (key : K -> Z -> K) (e : iter K V) (t n : option Z) : option (iter K V) :=
  let o := isize e in
  if O_whole t n o then Some e
  else
    match P_begin t o, T_end n o with
    | Num i, Num a => Some (Bt_range key e i (Some a))
    | Num i, Undef => Some (Bt_range key e i None)
    | _, _ => None
    end.

(** An index from the end of a sequence of unknown size is NaN: the sequence is
    cached first, which makes its size known. *)
Definition Bt {K V} (key : K -> Z -> K) (e : iter K V) (t n : option Z) : iter K V :=
  let t := option_map i32 t in
  let n := option_map i32 n in
  match Bt_known key e t n with
  | Some q => q
  | None => let e := le_ key (collect e) in default e (Bt_known key e t n)
  end.

(** [Vt]: skipWhile *)
Definition Vt_iterate {K K' V S} (key : K -> Z -> K') (e : iter K V) (t : V -> K -> outcome)
    (o : V -> K' -> S -> S * bool) (s : S) : S * Z :=
  let '(st, _) :=
    iterate e
      (fun v k (x : S * Z * bool) =>
         let '(st, n, skipping) := x in
         let skipping := skipping && truthy (t v k) in
         if skipping then ((st, n, skipping), false)
         else let '(st', stop) := o v (key k n) st in ((st', n + 1, skipping), stop))
      false (s, 0, true) in fst st.

Definition Vt {K V} (key : K -> Z -> K) (e : iter K V) (t : V -> K -> outcome) : iter K V :=
  Iter None
    (fun S f reverse s =>
       if reverse then
         iterate (le_ key (fst (Vt_iterate key e t (fun v k acc => (acc ++ [(k, v)], false)) []))) f true s
       else Vt_iterate key e t f s).

(** [takeWhile]: the callback returns [t(...) && ++a && r(...)], so a predicate
    that returns a falsy value other than [false] does not end the iteration. *)
Definition takeWhile_iterate {K V S} (e : iter K V) (t : V -> K -> outcome) (r : V -> K -> S -> S * bool) (s : S) : S * Z :=
  fst (iterate e
    (fun v k '(st, a) =>
       match t v k with
       | Truthy => let '(st', stop) := r v k st in ((st', a + 1), stop)
       | o => ((st, a), is_false o)
       end) false (s, 0)).

Definition takeWhile {K V} (key : K -> Z -> K) (e : iter K V) (t : V -> K -> outcome) : iter K V :=
  Iter None
    (fun S f reverse s =>
       if reverse then
         iterate (le_ key (fst (takeWhile_iterate e t (fun v k acc => (acc ++ [(k, v)], false)) []))) f true s
       else takeWhile_iterate e t f s).

(** [Ht]: flatten to depth one; [sub] tells the values that are iterable.  The
    number of calls is counted only where keys are numbered. *)
Definition Ht {L K K' V W} (useKeys : bool) (key : K -> Z -> K') (sub : V -> L -> iter K W + K * W) (e : iter L V) : iter K' W :=
  Iter None
    (fun S r o s =>
       let call w k (x : S * Z * bool) : (S * Z * bool) * bool :=
         let '(st, i, u) := x in
         let '(st', stop) := r w (key k i) st in
         let u := u || stop in
         ((st', if useKeys then i else i + 1, u), u) in
       fst (fst (iterate e
         (fun v l st =>
            match sub v l with
            | inl q => let st' := fst (iterate q call o st) in (st', snd st')
            | inr (k, w) => call w k st
            end)
         o (s, 0, false)))).

(** [concat] of two or more iterables that are not empty. *)
Definition concat_iters {K K' V} (useKeys : bool) (key : K -> Z -> K') (o : list (iter K V)) : iter K' V :=
  Iter
    (fold_left (fun e t => match e, isize t with Some e, Some n => Some (e + n) | _, _ => None end) o (Some 0))
    (fun S r t s => iterate (Ht useKeys key (fun q _ => inl q) (ee o)) r t s).

Definition concat_method {K K' V} (useKeys : bool) (key : K -> Z -> K') (same : iter K V -> iter K' V)
    (e : iter K V) (t : list (iter K V)) : iter K' V :=
  let o := List.filter (fun q => match isize q with Some 0 => false | _ => true end) (e :: t) in
  match o with
  | [] => same e
  | [i] => same i
  | _ => concat_iters useKeys key o
  end.

(** [Nt]: ToKeyedSequence; with [useKeys] the keys are kept, else numbered from
    the side the iteration starts at. *)
Definition Nt_keys {K V} (e : iter K V) : iter K V := Iter (isize e) (fun S f t s => iterate e f t s).

Definition Nt_numbered {K V} (e : iter K V) : iter Z V :=
  Iter (isize e)
    (fun S f t s =>
       let '((st, _), c) :=
         iterate e
           (fun v _ '(st, n) =>
              let key := if t then n - 1 else n in
              let '(st', stop) := f v key st in ((st', if t then n - 1 else n + 1), stop))
           t (s, if t then C_size e else 0) in (st, c)).

(** [Rt]: ToIndexedSequence, [Dt]: ToSetSequence *)
Definition Rt {K V} (e : iter K V) : iter Z V :=
  Iter (isize e)
    (fun S f t s =>
       let '((st, _), c) :=
         iterate e (fun v _ '(st, r) => let '(st', stop) := f v r st in ((st', r + 1), stop)) t (s, 0) in (st, c)).

Definition Dt {K V} (e : iter K V) : iter V V := Iter (isize e) (fun S f t s => iterate e (fun v _ s => f v v s) t s).

(** [Lt]: FromEntriesSequence; an entry that is falsy is passed over. *)
Definition Lt {K L V} (e : iter L (option (K * V))) : iter K V :=
  Iter (isize e)
    (fun S f t s => iterate e (fun v _ s => match v with Some u => f u.2 u.1 s | None => (s, false) end) t s).

(** [interpose] *)
Definition interpose {K V} (e : iter K V) (t : V) : iter Z V :=
  Iter (match isize e with Some 0 => Some 0 | Some n => Some (2 * n - 1) | None => None end)
    (fun S n r s =>
       fst (iterate e
         (fun v _ '(st, i) =>
            let '(st, i, stop) :=
              if i =? 0 then (st, i, false) else let '(st', stop) := n t i st in (st', i + 1, stop) in
            if stop then ((st, i), true)
            else let '(st', stop) := n v i st in ((st', i + 1), stop))
         r (s, 0))).

(** ** Consumers *)

Section Consumers.
Context {K V : Type}.
Implicit Type q : iter K V.

(** [forEach]: the calls made, until one returns [false] *)
Definition forEach {S} q (e : V -> K -> S -> S * bool) (s : S) : S * Z := iterate q e false s.

Definition every q (e : V -> K -> outcome) : bool :=
  fst (iterate q (fun v k n => if truthy (e v k) then (n, false) else (false, true)) false true).

(** [Nn]: not *)
Definition Nn (e : V -> K -> outcome) (v : V) (k : K) : outcome := of_bool (negb (truthy (e v k))).

Definition some_ q (e : V -> K -> outcome) : bool := negb (every q (Nn e)).

Definition findEntry q (e : V -> K -> outcome) : option (K * V) :=
  fst (iterate q (fun v k r => if truthy (e v k) then (Some (k, v), true) else (r, false)) false None).

Definition find_ q (e : V -> K -> outcome) (n : option V) : option V :=
  match findEntry q e with Some r => Some r.2 | None => n end.

Definition findKey q (e : V -> K -> outcome) : option K := option_map fst (findEntry q e).

Definition isEmpty q : bool :=
  match isize q with
  | Some n => n =? 0
  | None => negb (some_ q (fun _ _ => Truthy))
  end.

Definition first_keyed q : option V := find_ q (fun _ _ => Truthy) None.
Definition last_keyed q : option V := first_keyed (Ft q).

Definition findLastEntry q (e : V -> K -> outcome) : option (K * V) := findEntry (Ft (Nt_keys q)) e.

(** [reduce] with and without a first value *)
Definition reduce {A} q (e : A -> V -> K -> A) (t : A) : A :=
  fst (iterate q (fun v k r => (e r v k, false)) false t).

Definition reduce1 q (e : V -> V -> K -> V) : option V :=
  fst (iterate q (fun v k r => (match r with None => Some v | Some r => Some (e r v k) end, false)) false None).

Definition count_ q (e : option (V -> K -> outcome)) : Z :=
  match e with
  | Some e => C_size (zt (@keyed K) (Nt_keys q) e)
  | None => C_size q
  end.

(** [Yt] and [Jt]: max; [weird n] tells [undefined], [null] and NaN. *)
Definition Yt (weird : V -> bool) (same : V -> V -> bool) (e : V -> V -> Z) (t n : V) : bool :=
  let r := e n t in (r =? 0) && negb (same n t) && weird n || (r >? 0).

Definition Jt (weird : V -> bool) (same : V -> V -> bool) (e : V -> V -> Z) q : option V :=
  reduce1 q (fun e' n _ => if Yt weird same e e' n then n else e').

Definition max_ (weird : V -> bool) (same : V -> V -> bool) (e : V -> V -> Z) q : option V := Jt weird same e q.
Definition min_ (weird : V -> bool) (same : V -> V -> bool) (e : V -> V -> Z) q : option V :=
  Jt weird same (fun a b => - e a b) q.

(** [join] of strings, with its separator *)
Definition join (show : V -> list Z) q (e : list Z) : list Z :=
  fst (fst (iterate q
    (fun v _ x => let '(t, n) := x in ((t ++ (if n : bool then [] else e) ++ show v, false), false)) false ([], true))).

Context (is_eq : V -> V -> bool).

Definition includes_value q (e : V) : bool := some_ q (fun v _ => of_bool (is_eq v e)).
Definition keyOf q (e : V) : option K := findKey q (fun v _ => of_bool (is_eq v e)).
Definition lastKeyOf q (e : V) : option K := option_map fst (findLastEntry q (fun v _ => of_bool (is_eq v e))).
End Consumers.

Definition isSubset {K L V} (is_eq : V -> V -> bool) (q : iter K V) (e : iter L V) : bool :=
  every q (fun t _ => of_bool (includes_value is_eq e t)).

Definition isSuperset {K L V} (is_eq : V -> V -> bool) (q : iter K V) (e : iter L V) : bool := isSubset is_eq e q.

(** ** Indexed sequences *)

Section Indexed.
Context {V : Type}.
Implicit Type q : iter Z V.

Definition findIndex q (e : V -> Z -> outcome) : Z := match findEntry q e with Some r => r.1 | None => -1 end.

Definition indexOf_value (is_eq : V -> V -> bool) q (e : V) : Z :=
  match keyOf is_eq q e with Some t => t | None => -1 end.

Definition get_index q (e : Z) (t : option V) : option V :=
  let e := k_ q e in
  if (e <? 0) || match isize q with Some n => e >? n | None => false end then t
  else find_ q (fun _ n => of_bool (n =? e)) t.

(** [has]: where the size is not known the code looks for the index among the
    values; [num] is the value of a number. *)
Definition has_index (is_eq : V -> V -> bool) (num : Z -> V) q (e : Z) : bool :=
  let e := k_ q e in
  (e >=? 0) && match isize q with
               | Some n => e <? n
               | None => negb (indexOf_value is_eq q (num e) =? -1)
               end.

Definition first_indexed q : option V := get_index q 0 None.
Definition last_indexed q : option V := get_index q (-1) None.
End Indexed.
