(* ===== verification/ImSeqFacts.v ===== *)
(** * Immutable: lazy sequences are lists

    [repr q lf lb] says that iterating over [q] visits the entries [lf], and
    backwards [lb], stops when told and counts its calls.  Every source and
    every transformation represents the list it should; every consumer computes
    the function of the list it should. *)

From S2P Require Import Prelude ImSeq.
Local Open Scope Z_scope.

(** ** Iteration over a list *)

Fixpoint runs {K V S} (f : V -> K -> S -> S * bool) (l : list (K * V)) (s : S) : S * Z * bool :=
  match l with
  | [] => (s, 0, false)
  | (k, v) :: l =>
      let '(s', stop) := f v k s in
      if stop then (s', 1, true) else let '(s'', n, b) := runs f l s' in (s'', n + 1, b)
  end.

Definition run {K V S} (f : V -> K -> S -> S * bool) (l : list (K * V)) (s : S) : S * Z := fst (runs f l s).

Definition repr {K V} (q : iter K V) (lf lb : list (K * V)) : Prop :=
  forall S (f : V -> K -> S -> S * bool) (s : S),
    iterate q f false s = run f lf s /\ iterate q f true s = run f lb s.

(** The size is unknown or right. *)
Definition sized {K V} (q : iter K V) (l : list (K * V)) : Prop :=
  isize q = None \/ isize q = Some (Z.of_nat (length l)).

Lemma run_cons {K V S} (f : V -> K -> S -> S * bool) k v l s :
  run f ((k, v) :: l) s =
  let '(s', stop) := f v k s in if stop then (s', 1) else let '(s'', n) := run f l s' in (s'', n + 1).
Proof. unfold run. cbn. destruct (f v k s) as [s' []]; [done|]. by destruct (runs f l s') as [[? ?] ?]. Qed.

Lemma runs_app {K V S} (f : V -> K -> S -> S * bool) l l' : forall s,
  runs f (l ++ l') s =
  let '(s', n, b) := runs f l s in
  if b then (s', n, true) else let '(s'', n', b') := runs f l' s' in (s'', n + n', b').
Proof.
  induction l as [|[k v] l IH]; intros s; cbn [runs app].
  - destruct (runs f l' s) as [[? ?] ?]. by rewrite Z.add_0_l.
  - destruct (f v k s) as [s' []]; [done|]. rewrite IH. destruct (runs f l s') as [[s'' n] []]; [done|].
    destruct (runs f l' s'') as [[? ?] ?]. f_equal. f_equal. lia.
Qed.

Lemma runs_length {K V S} (f : V -> K -> S -> S * bool) l : forall s s' c, runs f l s = (s', c, false) -> c = Z.of_nat (length l).
Proof.
  induction l as [|[k v] l IH]; intros s s' c; cbn [runs]; [by intros [= _ <-]|].
  destruct (f v k s) as [s1 []]; [done|]. destruct (runs f l s1) as [[s2 n] b] eqn:E. intros [= -> <- ->].
  rewrite (IH _ _ _ E). cbn [length]. lia.
Qed.

(** A callback that never stops folds over the list. *)
Lemma run_fold {K V S} (f : V -> K -> S -> S) l : forall s,
  run (fun v k s => (f v k s, false)) l s = (fold_left (fun s e => f e.2 e.1 s) l s, Z.of_nat (length l)).
Proof.
  induction l as [|[k v] l IH]; intros s; [done|]. rewrite run_cons, IH. cbn [fold_left length fst snd]. f_equal. lia.
Qed.

Lemma run_ext {K V S} (f g : V -> K -> S -> S * bool) l s : (forall v k s, f v k s = g v k s) -> run f l s = run g l s.
Proof.
  intros H. revert s. induction l as [|[k v] l IH]; intros s; [done|]. rewrite !run_cons, H.
  destruct (g v k s) as [s' []]; [done|]. by rewrite IH.
Qed.

(** ** Entries with new keys *)

Fixpoint rekey {K K' V} (key : K -> Z -> K') (o : Z) (l : list (K * V)) : list (K' * V) :=
  match l with [] => [] | (k, v) :: l => (key k o, v) :: rekey key (o + 1) l end.

Definition number {V} (l : list V) : list (Z * V) := rekey indexed 0 (map (fun v => (tt, v)) l).

Lemma rekey_keyed {K V} (l : list (K * V)) : forall o, rekey keyed o l = l.
Proof. induction l as [|[k v] l IH]; intros o; cbn; [done|]. by rewrite IH. Qed.

Lemma rekey_length {K K' V} (key : K -> Z -> K') (l : list (K * V)) : forall o, length (rekey key o l) = length l.
Proof. induction l as [|[k v] l IH]; intros o; cbn; [done|]. by rewrite IH. Qed.

Lemma rekey_app {K K' V} (key : K -> Z -> K') (l l' : list (K * V)) : forall o,
  rekey key o (l ++ l') = rekey key o l ++ rekey key (o + Z.of_nat (length l)) l'.
Proof.
  induction l as [|[k v] l IH]; intros o; cbn [rekey app length]; [by rewrite Z.add_0_r|].
  rewrite IH. do 3 f_equal. lia.
Qed.

(** Numbering forgets the keys there were. *)
Lemma rekey_indexed {K V} (l : list (K * V)) : rekey indexed 0 l = number (map snd l).
Proof.
  unfold number. generalize 0. induction l as [|[k v] l IH]; intros o; cbn; [done|]. by rewrite IH.
Qed.

(** ** Sources *)

Lemma arr_loop_run {K K' V S} (key : K -> Z -> K') (f : V -> K' -> S -> S * bool) (l : list (K * V)) : forall o s,
  arr_loop (fun u a s => f u.2 (key u.1 a) s) l o s =
  let '(s', n) := run f (rekey key o l) s in (s', o + n).
Proof.
  induction l as [|[k v] l IH]; intros o s; cbn [arr_loop rekey fst snd].
  - cbn. by rewrite Z.add_0_r.
  - rewrite run_cons. destruct (f v (key k o) s) as [s' []]; [done|]. rewrite IH.
    destruct (run f (rekey key (o + 1) l) s') as [s'' n]. f_equal. lia.
Qed.

Lemma le_repr {K K' V} (key : K -> Z -> K') (l : list (K * V)) :
  repr (le_ key l) (rekey key 0 l) (rekey key 0 (rev l)) /\ sized (le_ key l) (rekey key 0 l).
Proof.
  split; [|right; cbn; by rewrite rekey_length].
  intros S f s. cbn. split; rewrite arr_loop_run; by destruct (run f _ s).
Qed.

Lemma arr_loop_map {V W S} (g : V -> W) (f : W -> Z -> S -> S * bool) (l : list V) : forall o s,
  arr_loop f (map g l) o s = arr_loop (fun v => f (g v)) l o s.
Proof.
  induction l as [|v l IH]; intros o s; cbn; [done|]. destruct (f (g v) o s) as [s' []]; [done|]. apply IH.
Qed.

Lemma ee_repr {V} (l : list V) : repr (ee l) (number l) (number (rev l)) /\ sized (ee l) (number l).
Proof.
  split.
  - intros S f s. cbn. unfold number.
    assert (forall l, arr_loop f l 0 s = run f (rekey indexed 0 (map (fun v => (tt, v)) l)) s) as H.
    { intros l'. pose proof (arr_loop_run indexed f (map (fun v => (tt, v)) l') 0 s) as H.
      rewrite arr_loop_map in H. refine (eq_trans _ (eq_trans H _)); [done|]. by destruct (run f _ s). }
    split; apply H.
  - right. cbn. unfold number. by rewrite rekey_length, length_map.
Qed.

Lemma te_repr {K V} (l : list (K * V)) : repr (te l) l (rev l) /\ sized (te l) l.
Proof.
  destruct (le_repr keyed l) as [H _]. rewrite !rekey_keyed in H. split; [exact H|by right].
Qed.

Lemma me_repr {V} (v : V) n :
  repr (me v n) (number (replicate (Z.to_nat n) v)) (number (replicate (Z.to_nat n) v)) /\
  sized (me v n) (number (replicate (Z.to_nat n) v)).
Proof.
  split.
  - intros S f s. cbn. assert (Z.to_nat (Z.max 0 n) = Z.to_nat n) as -> by lia. unfold number.
    assert (forall k o, forall s, repeat_loop v f k o s =
      let '(s', c) := run f (rekey indexed o (map (fun v => (tt, v)) (replicate k v))) s in (s', o + c)) as H.
    { induction k as [|k IH]; intros o s'; cbn [repeat_loop replicate map rekey].
      - cbn. by rewrite Z.add_0_r.
      - rewrite run_cons. change (indexed tt o) with o. destruct (f v o s') as [s'' []]; [done|]. rewrite IH.
        destruct (run f _ s'') as [? ?]. f_equal. lia. }
    split; rewrite H; by destruct (run f _ s).
  - right. cbn. unfold number. rewrite rekey_length, length_map, length_replicate. f_equal. lia.
Qed.

(** The numbers of a range, from [o] on. *)
Fixpoint stepping (step : Z) (k : nat) (o : Z) : list Z :=
  match k with O => [] | S k => o :: stepping step k (o + step) end.

Definition range_list (r : range) : list Z := stepping (_step r) (Z.to_nat (rsize r)) (_start r).

Lemma range_loop_run {S} step (f : Z -> Z -> S -> S * bool) k : forall o i s,
  range_loop step f k o i s =
  let '(s', c) := run f (rekey indexed i (map (fun v => (tt, v)) (stepping step k o))) s in (s', i + c).
Proof.
  induction k as [|k IH]; intros o i s; cbn [range_loop stepping map rekey].
  - cbn. by rewrite Z.add_0_r.
  - rewrite run_cons. change (indexed tt i) with i. destruct (f o i s) as [s' []]; [done|]. rewrite IH.
    destruct (run f _ s') as [? ?]. f_equal. lia.
Qed.

Lemma stepping_snoc step k : forall o, stepping step (S k) o = stepping step k o ++ [o + Z.of_nat k * step].
Proof.
  induction k as [|k IH]; intros o.
  - cbn. f_equal. lia.
  - change (stepping step (S (S k)) o) with (o :: stepping step (S k) (o + step)). rewrite IH. cbn [stepping app].
    do 3 f_equal. lia.
Qed.

Lemma stepping_rev step k : forall o, rev (stepping step k o) = stepping (- step) k (o + (Z.of_nat k - 1) * step).
Proof.
  induction k as [|k IH]; intros o; [done|]. rewrite stepping_snoc, rev_app_distr. cbn [rev app stepping].
  rewrite IH. f_equal; [lia|]. f_equal. lia.
Qed.

Lemma stepping_length step k : forall o, length (stepping step k o) = k.
Proof. induction k as [|k IH]; intros o; cbn; [done|]. by rewrite IH. Qed.

Lemma stepping_lookup step k : forall o i, stepping step k o !! i = if bool_decide (i < k)%nat then Some (o + Z.of_nat i * step) else None.
Proof.
  induction k as [|k IH]; intros o i; cbn [stepping]; [case_bool_decide; [lia|done]|].
  destruct i as [|i]; cbn [lookup list_lookup].
  - case_bool_decide; [|lia]. f_equal. lia.
  - rewrite IH. repeat case_bool_decide; try lia; [|done]. f_equal. lia.
Qed.

Lemma ye_repr r : 0 <= rsize r ->
  repr (ye r) (number (range_list r)) (number (rev (range_list r))) /\ sized (ye r) (number (range_list r)).
Proof.
  intros Hr. split.
  - intros S f s. cbn. unfold number, range_list. rewrite stepping_rev, !range_loop_run.
    replace (rsize r - 1 + 1) with (rsize r) by lia. rewrite Z2Nat.id by lia.
    split; by destruct (run f _ s).
  - right. cbn. unfold number, range_list. rewrite rekey_length, length_map, stepping_length. f_equal. lia.
Qed.

(** ** Transformations *)

Section Transform.
Context {K V : Type} (q : iter K V) (lf lb : list (K * V)).
Context (Hq : repr q lf lb) (Hs : sized q lf).

Lemma sized_same {K' V'} (q' : iter K' V') l : isize q' = isize q -> length l = length lf -> sized q' l.
Proof using Hs. unfold sized. intros -> ->. exact Hs. Qed.

(** A transformation that passes on a changed value and key. *)
Lemma run_map {K' V' S} (g : K * V -> K' * V') (f : V' -> K' -> S -> S * bool) (l : list (K * V)) : forall s,
  run (fun v k s => f (g (k, v)).2 (g (k, v)).1 s) l s = run f (map g l) s.
Proof.
  induction l as [|[k v] l IH]; intros s; [done|]. cbn [map]. rewrite run_cons. destruct (g (k, v)) as [k' v'] eqn:E.
  rewrite run_cons. cbn [fst snd]. destruct (f v' k' s) as [s' []]; [done|]. by rewrite IH.
Qed.

Definition swap_entry (e : K * V) : V * K := (e.2, e.1).

Lemma Ut_repr : repr (Ut q) (map swap_entry lf) (map swap_entry lb) /\ sized (Ut q) (map swap_entry lf).
Proof using Hq Hs.
  split; [|by apply sized_same; [|rewrite length_map]]. intros S f s. cbn. destruct (Hq S (fun v k s => f k v s) s) as [-> ->].
  split; by rewrite <- (run_map swap_entry).
Qed.

Lemma qt_repr {W} (t : V -> K -> W) :
  repr (qt q t) (map (fun e => (e.1, t e.2 e.1)) lf) (map (fun e => (e.1, t e.2 e.1)) lb) /\
  sized (qt q t) (map (fun e => (e.1, t e.2 e.1)) lf).
Proof using Hq Hs.
  split; [|by apply sized_same; [|rewrite length_map]]. intros S f s. cbn.
  destruct (Hq S (fun v k s => f (t v k) k s) s) as [-> ->].
  split; by rewrite <- (run_map (fun e => (e.1, t e.2 e.1))).
Qed.

Lemma Ft_repr : length lb = length lf -> repr (Ft q) lb lf /\ sized (Ft q) lb.
Proof using Hq Hs.
  intros Hl. split; [|by apply sized_same]. intros S f s. cbn. destruct (Hq S f s) as [-> ->]. done.
Qed.

(** The entries a predicate accepts. *)
Definition kept (t : V -> K -> outcome) (l : list (K * V)) : list (K * V) := List.filter (fun e => truthy (t e.2 e.1)) l.

Lemma run_filter {K' S} (key : K -> Z -> K') (t : V -> K -> outcome) (o : V -> K' -> S -> S * bool) l : forall s u,
  fst (run (fun v k '(s, u) =>
    if truthy (t v k) then let '(s', stop) := o v (key k u) s in ((s', u + 1), stop) else ((s, u), false)) l (s, u)) =
  let '(s', n) := run o (rekey key u (kept t l)) s in (s', u + n).
Proof.
  induction l as [|[k v] l IH]; intros s u; [cbn; by rewrite Z.add_0_r|].
  rewrite run_cons. cbn [kept List.filter fst snd]. destruct (truthy (t v k)).
  - cbn [rekey]. rewrite run_cons. destruct (o v (key k u) s) as [s' []]; [done|].
    specialize (IH s' (u + 1)). fold (kept t l). destruct (run _ l (s', u + 1)) as [x n]. cbn [fst] in *. rewrite IH.
    destruct (run o _ s') as [? ?]. f_equal. lia.
  - specialize (IH s u). fold (kept t l). by destruct (run _ l (s, u)) as [x n].
Qed.

Lemma zt_repr {K'} (key : K -> Z -> K') (t : V -> K -> outcome) :
  repr (zt key q t) (rekey key 0 (kept t lf)) (rekey key 0 (kept t lb)) /\ sized (zt key q t) (rekey key 0 (kept t lf)).
Proof using Hq.
  split; [|by left]. intros S f s. cbn. match goal with |- context [iterate q ?g false (s, 0)] => destruct (Hq _ g (s, 0)) as [-> ->] end.
  rewrite !(run_filter key t f). split; by destruct (run f _ s).
Qed.

(** ** Skipping and taking *)

Definition limit {A} (u : option Z) (l : list A) : list A := match u with None => l | Some u => take (Z.to_nat u) l end.

(** The state of [Bt_iterate]: [d] entries to skip still. *)
Lemma run_taking {K' S} (key : K -> Z -> K') (i : Z) (u : option Z) (t : V -> K' -> S -> S * bool) l :
  forall s n a, (match u with Some u => n < u | None => True end) -> 0 <= n ->
  fst (fst (run (fun v k (x : S * Z * (Z * bool)) =>
    let '(st, l, (a, skipping)) := x in
    let '(a, skipping) := if skipping then (a + 1, a <? i) else (a, false) in
    if skipping then ((st, l, (a, skipping)), false)
    else let l := l + 1 in
      let '(st', stop) := t v (key k (l - 1)) st in
      ((st', l, (a, skipping)), stop || match u with Some u => l =? u | None => false end)) l (s, n, (a, false)))) =
  let '(s', c) := run t (rekey key n (limit (option_map (fun u => u - n) u) l)) s in (s', n + c).
Proof.
  induction l as [|[k v] l IH]; intros s n a Hu Hn.
  - replace (limit _ []) with (@nil (K * V)) by (destruct u; cbn; [by rewrite take_nil|done]). cbn. by rewrite Z.add_0_r.
  - rewrite run_cons. cbv beta iota zeta. replace (n + 1 - 1) with n by lia.
    assert (limit (option_map (fun u => u - n) u) ((k, v) :: l) = (k, v) :: limit (option_map (fun u => u - (n + 1)) u) l) as ->.
    { destruct u as [u|]; [|done]. cbn. replace (Z.to_nat (u - n)) with (Datatypes.S (Z.to_nat (u - (n + 1)))) by lia. done. }
    cbn [rekey]. rewrite run_cons. destruct (t v (key k n) s) as [s' []]; [done|]. cbn [orb].
    destruct (match u with Some u => n + 1 =? u | None => false end) eqn:Hend.
    + destruct u as [u|]; [|done]. apply Z.eqb_eq in Hend. cbn [option_map limit].
      replace (Z.to_nat (u - (n + 1))) with O by lia. done.
    + specialize (IH s' (n + 1) a ltac:(destruct u; [apply Z.eqb_neq in Hend; lia|done]) ltac:(lia)).
      destruct (run _ l (s', n + 1, (a, false))) as [x c]. cbn [fst] in *. rewrite IH.
      destruct (run t _ s') as [? ?]. f_equal. lia.
Qed.

Lemma run_skipping {K' S} (key : K -> Z -> K') (i : Z) (u : option Z) (t : V -> K' -> S -> S * bool) l :
  forall s a, (match u with Some u => 0 < u | None => True end) -> 0 <= a <= i ->
  fst (fst (run (fun v k (x : S * Z * (Z * bool)) =>
    let '(st, l, (a, skipping)) := x in
    let '(a, skipping) := if skipping then (a + 1, a <? i) else (a, false) in
    if skipping then ((st, l, (a, skipping)), false)
    else let l := l + 1 in
      let '(st', stop) := t v (key k (l - 1)) st in
      ((st', l, (a, skipping)), stop || match u with Some u => l =? u | None => false end)) l (s, 0, (a, true)))) =
  run t (rekey key 0 (limit u (drop (Z.to_nat (i - a)) l))) s.
Proof.
  induction l as [|[k v] l IH]; intros s a Hu Ha.
  - rewrite drop_nil. replace (limit u []) with (@nil (K * V)) by (destruct u; cbn; [by rewrite take_nil|done]). done.
  - destruct (Z.ltb_spec a i) as [Hlt|Hge].
    + rewrite run_cons. rewrite (proj2 (Z.ltb_lt a i)) by done.
      replace (Z.to_nat (i - a)) with (Datatypes.S (Z.to_nat (i - (a + 1)))) by lia. cbn [drop].
      specialize (IH s (a + 1) Hu ltac:(lia)). destruct (run _ l (s, 0, (a + 1, true))) as [x c]. exact IH.
    + replace (Z.to_nat (i - a)) with O by lia. rewrite drop_0.
      pose proof (run_taking key i u t ((k, v) :: l) s 0 (a + 1) Hu ltac:(lia)) as H.
      rewrite run_cons in *. rewrite (proj2 (Z.ltb_ge a i)) by done. cbn [fst snd] in *.
      replace (option_map (fun u => u - 0) u) with u in H by (destruct u; cbn; [by rewrite Z.sub_0_r|done]).
      rewrite H. by destruct (run t _ s).
Qed.

Lemma Bt_iterate_run {K' S} (key : K -> Z -> K') i u (t : V -> K' -> S -> S * bool) s :
  0 <= i -> (match u with Some u => 0 < u | None => True end) ->
  Bt_iterate key q i u t s = run t (rekey key 0 (limit u (drop (Z.to_nat i) lf))) s.
Proof using Hq.
  intros Hi Hu. unfold Bt_iterate.
  match goal with |- context [iterate q ?g false ?x] => destruct (Hq _ g x) as [-> _] end.
  pose proof (run_skipping key i u t lf s 0 Hu ltac:(lia)) as H. rewrite Z.sub_0_r in H. rewrite <- H.
  by destruct (run _ lf (s, 0, (0, true))) as [x c].
Qed.

(** The entries from the first one a predicate does not accept. *)
Fixpoint skipped (t : V -> K -> outcome) (l : list (K * V)) : list (K * V) :=
  match l with [] => [] | e :: l' => if truthy (t e.2 e.1) then skipped t l' else l end.

Lemma Vt_iterate_run {K' S} (key : K -> Z -> K') t (o : V -> K' -> S -> S * bool) s :
  Vt_iterate key q t o s = run o (rekey key 0 (skipped t lf)) s.
Proof using Hq.
  unfold Vt_iterate. match goal with |- context [iterate q ?g false ?x] => destruct (Hq _ g x) as [-> _] end.
  match goal with |- context [run ?g lf _] => set (g' := g) end.
  assert (forall l s n, fst (fst (run g' l (s, n, false))) = let '(s', c) := run o (rekey key n l) s in (s', n + c)) as Hrest.
  { induction l as [|[k v] l IH]; intros s' n; [cbn; by rewrite Z.add_0_r|]. cbn [rekey]. rewrite !run_cons.
    unfold g' at 1. cbn [andb]. destruct (o v (key k n) s') as [s'' []]; [done|].
    specialize (IH s'' (n + 1)). destruct (run g' l _) as [x c]. cbn [fst] in *. rewrite IH.
    destruct (run o _ s'') as [? ?]. f_equal. lia. }
  assert (forall l, fst (fst (run g' l (s, 0, true))) = run o (rekey key 0 (skipped t l)) s) as H.
  { induction l as [|[k v] l IH]; [done|]. cbn [skipped fst snd]. destruct (truthy (t v k)) eqn:E.
    - rewrite run_cons. unfold g' at 1. rewrite E. cbn [andb]. rewrite <- IH. by destruct (run g' l _) as [x c].
    - transitivity (fst (fst (run g' ((k, v) :: l) (s, 0, false)))).
      + rewrite !run_cons. unfold g' at 1 3. rewrite E. cbn [andb]. done.
      + rewrite Hrest. by destruct (run o (rekey key 0 ((k, v) :: l)) s). }
  rewrite <- H. by destruct (run g' lf _) as [x c].
Qed.

(** What [takeWhile] takes: up to the first [false], without the entries for
    which the predicate returns another falsy value. *)
Fixpoint taken (t : V -> K -> outcome) (l : list (K * V)) : list (K * V) :=
  match l with
  | [] => []
  | e :: l => match t e.2 e.1 with Truthy => e :: taken t l | Falsy => taken t l | False_ => [] end
  end.

Lemma takeWhile_iterate_run {S} t (r : V -> K -> S -> S * bool) s :
  takeWhile_iterate q t r s = run r (taken t lf) s.
Proof using Hq.
  unfold takeWhile_iterate. match goal with |- context [iterate q ?g false ?x] => destruct (Hq _ g x) as [-> _] end.
  match goal with |- context [run ?g lf _] => set (g' := g) end.
  assert (forall l s n, fst (run g' l (s, n)) = let '(s', c) := run r (taken t l) s in (s', n + c)) as H.
  { induction l as [|[k v] l IH]; intros s' n; [cbn; by rewrite Z.add_0_r|]. cbn [taken fst snd]. rewrite run_cons. unfold g' at 1.
    destruct (t v k).
    - cbn. by rewrite Z.add_0_r.
    - specialize (IH s' n). by destruct (run g' l (s', n)) as [x c].
    - rewrite run_cons. destruct (r v k s') as [s'' []]; [done|]. specialize (IH s'' (n + 1)).
      destruct (run g' l (s'', n + 1)) as [x c]. cbn [fst] in *. rewrite IH. destruct (run r _ s''). f_equal. lia. }
  rewrite H. by destruct (run r _ s).
Qed.

End Transform.

(** ** Well-behaved sequences *)

(** A way to make keys that is stable: keeping them, or numbering. *)
Definition stable_key {K} (key : K -> Z -> K) : Prop := forall k o, key (key k o) o = key k o.

Lemma keyed_stable {K} : stable_key (@keyed K).
Proof. done. Qed.

Lemma indexed_stable : stable_key (@indexed Z).
Proof. done. Qed.

Lemma rekey_ext {K K' V} (key key' : K -> Z -> K') (l : list (K * V)) : (forall k o, key k o = key' k o) -> forall o, rekey key o l = rekey key' o l.
Proof. intros H. induction l as [|[k v] l IH]; intros o; cbn; [done|]. by rewrite H, IH. Qed.

Lemma rekey_idem {K V} (key : K -> Z -> K) (l : list (K * V)) : stable_key key -> forall o, rekey key o (rekey key o l) = rekey key o l.
Proof. intros Hk. induction l as [|[k v] l IH]; intros o; cbn; [done|]. by rewrite Hk, IH. Qed.

(** [q] is the sequence of the entries [l], whose keys are those [key] makes. *)
Record seq_of {K V} (key : K -> Z -> K) (q : iter K V) (l : list (K * V)) : Prop := {
  seq_repr : repr q l (rekey key 0 (rev l));
  seq_size : sized q l;
  seq_keys : rekey key 0 l = l
}.

Lemma run_collect {K V} (l : list (K * V)) : forall acc, run (fun v k acc => (acc ++ [(k, v)], false)) l acc = (acc ++ l, Z.of_nat (length l)).
Proof.
  intros acc. rewrite run_fold. f_equal. revert acc. induction l as [|[k v] l IH]; intros acc; cbn; [by rewrite app_nil_r|].
  by rewrite IH, <- app_assoc.
Qed.

Lemma collect_seq {K V} (key : K -> Z -> K) (q : iter K V) l : seq_of key q l -> collect q = l.
Proof. intros [Hr _ _]. unfold collect. destruct (Hr _ (fun v k acc => (acc ++ [(k, v)], false)) []) as [-> _]. by rewrite run_collect. Qed.

Lemma le_seq {K V} (key : K -> Z -> K) (l : list (K * V)) : rekey key 0 l = l -> seq_of key (le_ key l) l.
Proof. intros Hl. destruct (le_repr key l) as [Hr Hs]. rewrite Hl in Hr, Hs. by split. Qed.

(** Reversing the cached result of a forward iteration. *)
Lemma backwards_seq {K V} (key : K -> Z -> K) (q : iter K V) l :
  rekey key 0 l = l -> sized q l ->
  (forall S (f : V -> K -> S -> S * bool) s, iterate q f false s = run f l s) ->
  (forall S (f : V -> K -> S -> S * bool) s, iterate q f true s = iterate (le_ key l) f true s) ->
  seq_of key q l.
Proof.
  intros Hl Hs Hf Hb. split; [|done..]. intros S f s. split; [apply Hf|]. rewrite Hb.
  destruct (le_seq key l Hl) as [Hr _ _]. apply Hr.
Qed.

Lemma Bt_range_seq {K V} (key : K -> Z -> K) (q : iter K V) l i a :
  stable_key key -> seq_of key q l -> 0 <= i ->
  (isize q = None \/ (i <= Z.of_nat (length l) /\ match a with Some a => a <= Z.of_nat (length l) | None => True end)) ->
  seq_of key (Bt_range key q i a) (rekey key 0 (limit (option_map (fun a => Z.max 0 (a - i)) a) (drop (Z.to_nat i) l))).
Proof.
  intros Hk [Hr Hs Hl] Hi Hsz. set (u := option_map (fun a => Z.max 0 (a - i)) a).
  set (l' := rekey key 0 (limit u (drop (Z.to_nat i) l))).
  assert (rekey key 0 l' = l') as Hl' by (by apply rekey_idem).
  destruct (decide (u = Some 0)) as [Hu|Hu].
  - assert (l' = []) as Hnil by (unfold l'; by rewrite Hu). rewrite Hnil in *. apply backwards_seq; [done| | |].
    + right. unfold Bt_range. fold u. by rewrite Hu.
    + intros S f s. unfold Bt_range. fold u. by rewrite Hu.
    + intros S f s. unfold Bt_range. fold u. by rewrite Hu.
  - assert (match u with Some u => 0 < u | None => True end) as Hpos.
    { destruct u as [u'|] eqn:E; [|done]. unfold u in E. destruct a; cbn in E; [|done]. injection E as <-.
      assert (Z.max 0 (z - i) <> 0) by congruence. lia. }
    assert (forall S (f : V -> K -> S -> S * bool) s, match u with Some 0 => (s, 0) | _ => Bt_iterate key q i u f s end = run f l' s) as Hrun.
    { intros S f s. destruct u as [[|p|p]|]; try done; by rewrite (Bt_iterate_run q l (rekey key 0 (rev l)) Hr). }
    apply backwards_seq; [done| | |].
    + unfold sized, Bt_range. fold u. unfold l'. rewrite rekey_length. destruct u as [u'|] eqn:E.
      * cbn [isize]. destruct Hsz as [Hn|[Hi' Ha]].
        { left. rewrite Hn. by destruct u'. }
        destruct Hs as [Hn|Hn]; rewrite Hn; [left; by destruct u'|].
        destruct (Z.of_nat (length l)) eqn:El; [left; by destruct u'|right|lia].
        unfold u in E. destruct a as [a|]; [|done]. cbn in E. injection E as <-. cbn [limit].
        rewrite length_take, length_drop. destruct (Z.max 0 (a - i)) eqn:Em; [done| |lia]. f_equal. lia.
      * left. cbn [isize]. by destruct (isize q) as [[]|].
    + intros S f s. unfold Bt_range. fold u. cbn [iterate]. rewrite <- Hrun. by destruct u as [[]|].
    + intros S f s. unfold Bt_range. fold u. cbn [iterate].
      pose proof (Hrun _ (fun v k acc => (acc ++ [(k, v)], false)) []) as Hc. rewrite run_collect in Hc.
      destruct u as [[|p|p]|]; try done; by rewrite Hc.
Qed.

(** ** Slices *)

Definition slice_bound (d : Z) (e : option Z) (n : Z) : Z :=
  match e with None => d | Some e => if e <? 0 then Z.max 0 (n + e) else Z.min n e end.

(** The entries between two bounds, counted from the end when negative. *)
Definition slice_list {A} (t n : option Z) (l : list A) : list A :=
  let o := Z.of_nat (length l) in
  take (Z.to_nat (slice_bound o n o - slice_bound 0 t o)) (drop (Z.to_nat (slice_bound 0 t o)) l).

Lemma slice_whole {A} t n (l : list A) o : o = None \/ o = Some (Z.of_nat (length l)) -> O_whole t n o = true -> slice_list t n l = l.
Proof.
  intros Ho Hw. unfold O_whole in Hw. apply andb_true_iff in Hw as [Ht Hn]. unfold slice_list.
  assert (slice_bound 0 t (Z.of_nat (length l)) = 0) as ->.
  { destruct t as [e|]; cbn; [|done]. destruct Ho as [->| ->]; destruct (Z.ltb_spec e 0); lia. }
  rewrite drop_0. apply take_ge.
  enough (slice_bound (Z.of_nat (length l)) n (Z.of_nat (length l)) = Z.of_nat (length l)) as -> by lia.
  destruct n as [e|]; cbn; [|done]. destruct Ho as [->| ->]; destruct (Z.ltb_spec e 0); lia.
Qed.

Lemma take_drop_clip {A} (l : list A) i i' u u' :
  (i `min` length l = i' `min` length l)%nat -> (i < length l -> u `min` (length l - i) = u' `min` (length l - i'))%nat ->
  take u (drop i l) = take u' (drop i' l).
Proof.
  intros Hi Hu. destruct (decide (i < length l)%nat) as [Hlt|].
  - assert (i' = i) as -> by lia. specialize (Hu Hlt).
    destruct (decide (u < length l - i)%nat); [by replace u' with u by lia|]. by rewrite !take_ge by (rewrite length_drop; lia).
  - by rewrite !drop_ge, !take_nil by lia.
Qed.

Lemma Bt_known_seq {K V} (key : K -> Z -> K) (q q' : iter K V) l t n :
  stable_key key -> seq_of key q l -> Bt_known key q t n = Some q' -> seq_of key q' (rekey key 0 (slice_list t n l)).
Proof.
  intros Hk Hq. pose proof (seq_size _ _ _ Hq) as Hs. unfold Bt_known. destruct (O_whole t n (isize q)) eqn:Hw.
  { intros [= <-]. rewrite (slice_whole t n l (isize q)), (seq_keys _ _ _ Hq); done. }
  clear Hw.
  assert (forall i a, P_begin t (isize q) = Num i -> T_end n (isize q) = match a with Some a => Num a | None => Undef end ->
            seq_of key (Bt_range key q i a) (rekey key 0 (slice_list t n l))) as Hlim.
  { intros i a Hi Ha. replace (slice_list t n l) with (limit (option_map (fun a => Z.max 0 (a - i)) a) (drop (Z.to_nat i) l)).
    - apply Bt_range_seq; [done..| |]; unfold P_begin, T_end, M_resolve in Hi, Ha; clear Hq;
        destruct Hs as [Hs|Hs]; rewrite Hs in *.
      3: by left.
      3: right; destruct a as [a|]; (split; [|try done]).
      all: destruct t as [t|], n as [n|]; cbn in Hi, Ha; try destruct (Z.ltb_spec t 0); try destruct (Z.ltb_spec n 0);
           try destruct a; simplify_eq; lia.
    - clear Hq. unfold slice_list, slice_bound. unfold P_begin, T_end, M_resolve in Hi, Ha.
      destruct Hs as [Hs|Hs]; rewrite Hs in *; destruct t as [t|], n as [n|]; cbn in Hi, Ha |- *;
        try destruct (Z.ltb_spec t 0); try destruct (Z.ltb_spec n 0); try destruct a; simplify_eq; cbn;
        try (apply take_drop_clip; lia); rewrite <- (take_ge (drop _ l) (length l)) at 1 by (rewrite length_drop; lia);
        apply take_drop_clip; lia. }
  intros Hq'. destruct (P_begin t (isize q)) as [i| |] eqn:Hi; [|done..].
  destruct (T_end n (isize q)) as [a| |] eqn:Ha; [|..|done]; injection Hq' as <-.
  - by apply (Hlim i (Some a)).
  - by apply (Hlim i None).
Qed.

Lemma Bt_known_sized {K V} (key : K -> Z -> K) (q : iter K V) t n : isize q <> None -> Bt_known key q t n <> None.
Proof.
  unfold Bt_known, P_begin, T_end, M_resolve. destruct (isize q) as [o|]; [intros _|done].
  destruct (O_whole t n (Some o)); [done|]. destruct t as [t|], n as [n|]; repeat case_match; done.
Qed.

Lemma Bt_seq {K V} (key : K -> Z -> K) (q : iter K V) l t n :
  stable_key key -> seq_of key q l -> seq_of key (Bt key q t n) (rekey key 0 (slice_list (option_map i32 t) (option_map i32 n) l)).
Proof.
  intros Hk Hq. unfold Bt. destruct (Bt_known key q (option_map i32 t) (option_map i32 n)) as [q'|] eqn:E.
  { by apply (Bt_known_seq key q). }
  rewrite (collect_seq _ _ _ Hq). pose proof (le_seq key l (seq_keys _ _ _ Hq)) as Hl.
  destruct (Bt_known key (le_ key l) (option_map i32 t) (option_map i32 n)) as [q'|] eqn:E'; cbn [default].
  - by apply (Bt_known_seq key (le_ key l)).
  - by apply Bt_known_sized in E'.
Qed.

Lemma Vt_seq {K V} (key : K -> Z -> K) (q : iter K V) l t :
  stable_key key -> seq_of key q l -> seq_of key (Vt key q t) (rekey key 0 (skipped t l)).
Proof.
  intros Hk [Hr _ _].
  assert (forall S (f : V -> K -> S -> S * bool) s, Vt_iterate key q t f s = run f (rekey key 0 (skipped t l)) s) as Hrun.
  { intros. apply (Vt_iterate_run q l _ Hr). }
  apply backwards_seq; [by apply rekey_idem|by left|intros; apply Hrun|].
  intros S f s. unfold Vt at 1. cbn [iterate]. by rewrite Hrun, run_collect.
Qed.

Fixpoint leading {K V} (t : V -> K -> outcome) (l : list (K * V)) : list (K * V) :=
  match l with [] => [] | e :: l => if truthy (t e.2 e.1) then e :: leading t l else [] end.

Lemma leading_prefix {K V} (t : V -> K -> outcome) l : exists l', l = leading t l ++ l'.
Proof. induction l as [|e l [l' IH]]; [by exists []|]. cbn. destruct (truthy _); [exists l'; cbn; by f_equal|by eexists]. Qed.

Lemma rekey_prefix {K V} (key : K -> Z -> K) (l l' : list (K * V)) : rekey key 0 (l ++ l') = l ++ l' -> rekey key 0 l = l.
Proof. rewrite rekey_app. intros H. apply app_inj_1 in H; [by destruct H|]. apply rekey_length. Qed.

Lemma taken_leading {K V} (t : V -> K -> outcome) (l : list (K * V)) : (forall v k, t v k <> Falsy) -> taken t l = leading t l.
Proof. intros Ht. induction l as [|[k v] l IH]; cbn; [done|]. specialize (Ht v k). destruct (t v k); cbn; congruence. Qed.

Lemma takeWhile_seq {K V} (key : K -> Z -> K) (q : iter K V) l t :
  (forall v k, t v k <> Falsy) -> seq_of key q l -> seq_of key (takeWhile key q t) (leading t l).
Proof.
  intros Ht [Hr _ Hl].
  assert (forall S (f : V -> K -> S -> S * bool) s, takeWhile_iterate q t f s = run f (leading t l) s) as Hrun.
  { intros. rewrite <- taken_leading by done. apply (takeWhile_iterate_run q l _ Hr). }
  apply backwards_seq; [|by left|intros; apply Hrun|].
  - destruct (leading_prefix t l) as [l' E]. rewrite E in Hl at 1 2. by eapply rekey_prefix.
  - intros S f s. unfold takeWhile at 1. cbn [iterate]. by rewrite Hrun, run_collect.
Qed.

(** ** Flattening *)

Section Flatten.
Context {L K K' V W : Type} (useKeys : bool) (key : K -> Z -> K') (sub : V -> L -> iter K W + K * W).
Context (Hkey : useKeys = true -> forall k o o', key k o = key k o').
Context (parts : bool -> V -> L -> list (K * W)).
Context (ok : L * V -> Prop).
Context (Hsub : forall v l, ok (l, v) ->
                            match sub v l with
                            | inl q => repr q (parts false v l) (parts true v l)
                            | inr e => parts false v l = [e] /\ parts true v l = [e]
                            end).

(** The entries of a flattened sequence. *)
Definition flat (o : bool) (l : list (L * V)) : list (K * W) := concat (map (fun e => parts o e.2 e.1) l).

Lemma rekey_any (l : list (K * W)) : useKeys = true -> forall o o', rekey key o l = rekey key o' l.
Proof using Hkey. intros Hu. induction l as [|[k v] l IH]; intros o o'; cbn; [done|]. by rewrite (Hkey Hu k o o'), (IH (o + 1) (o' + 1)). Qed.

Lemma rekey_next (l : list (K * W)) i c : rekey key (if useKeys then i else i + c) l = rekey key (i + c) l.
Proof using Hkey. destruct (Bool.bool_dec useKeys true) as [E|E%not_true_is_false]; rewrite E; [by apply rekey_any|done]. Qed.

Definition Ht_call {S} (r : W -> K' -> S -> S * bool) (w : W) (k : K) (x : S * Z * bool) : (S * Z * bool) * bool :=
  let '(st, i, u) := x in
  let '(st', stop) := r w (key k i) st in
  let u := u || stop in
  ((st', if useKeys then i else i + 1, u), u).

Lemma Ht_call_runs {S} (r : W -> K' -> S -> S * bool) l : forall s i,
  runs (Ht_call r) l (s, i, false) =
    let '(s', c, stop) := runs r (rekey key i l) s in ((s', if useKeys then i else i + c, stop), c, stop).
Proof using Hkey.
  induction l as [|[k v] l IH]; intros s i; cbn [runs rekey].
  { destruct useKeys; cbn; [done|by rewrite Z.add_0_r]. }
  unfold Ht_call at 1. destruct (r v (key k i) s) as [s' []]; cbn [orb]; [done|]. rewrite IH.
  assert (rekey key (if useKeys then i else i + 1) l = rekey key (i + 1) l) as ->.
  { by apply rekey_next. }
  destruct (runs r (rekey key (i + 1) l) s') as [[s'' c] stop]. destruct useKeys; [done|].
  by replace (i + 1 + c) with (i + (c + 1)) by lia.
Qed.

Lemma Ht_runs {S} (r : W -> K' -> S -> S * bool) o (l : list (L * V)) : Forall ok l -> forall s i,
  let x := runs (fun v l st =>
            match sub v l with
            | inl q => let st' := fst (iterate q (Ht_call r) o st) in (st', snd st')
            | inr (k, w) => Ht_call r w k st
            end) l (s, i, false) in
  let '(s', c, stop) := runs r (rekey key i (flat o l)) s in
  x.1.1 = (s', if useKeys then i else i + c, stop) /\ x.2 = stop.
Proof using Hkey Hsub.
  induction 1 as [|[k v] l Hok _ IH]; intros s i; cbn [runs flat map concat rekey].
  { cbn. destruct useKeys; cbn; [done|by rewrite Z.add_0_r]. }
  cbv zeta. cbn [fst snd]. fold (flat o l).
  pose proof (Ht_call_runs r (parts o v k) s i) as Hc.
  assert (match sub v k with
          | inl q => (fst (iterate q (Ht_call r) o (s, i, false)), snd (fst (iterate q (Ht_call r) o (s, i, false))))
          | inr (k, w) => Ht_call r w k (s, i, false)
          end = (let '(x, _, stop) := runs (Ht_call r) (parts o v k) (s, i, false) in (x, stop))) as ->.
  { specialize (Hsub v k Hok). rewrite Hc. destruct (sub v k) as [q|[k' w]].
    - destruct (Hsub _ (Ht_call r) (s, i, false)) as [Hf Hb].
      assert (iterate q (Ht_call r) o (s, i, false) = run (Ht_call r) (parts o v k) (s, i, false)) as -> by (by destruct o).
      unfold run. rewrite Hc. by destruct (runs r _ s) as [[s' c] stop].
    - assert (parts o v k = [(k', w)]) as -> by (by destruct o, Hsub). cbn [rekey runs]. unfold Ht_call.
      destruct (r w (key k' i) s) as [s' []]; cbn; by destruct useKeys. }
  rewrite Hc, rekey_app, runs_app. destruct (runs r (rekey key i (parts o v k)) s) as [[s' c] stop] eqn:E.
  destruct stop; [done|]. cbv beta iota zeta.
  specialize (IH s' (if useKeys then i else i + c)). cbv zeta in IH. rewrite rekey_next in IH.
  pose proof (runs_length r _ _ _ _ E) as Hlen. rewrite rekey_length in Hlen. rewrite <- Hlen.
  destruct (runs r (rekey key (i + c) (flat o l)) s') as [[s'' c'] stop].
  match goal with |- context [runs ?g l ?x] => destruct (runs g l x) as [[y d] b] end.
  cbn [fst snd] in *. destruct IH as [-> ->]. split; [|done]. destruct useKeys; [done|]. by rewrite Z.add_assoc.
Qed.

(** Flattening goes over the entries of the parts; where keys are kept the
    number returned stays 0. *)
Lemma Ht_iterate (q : iter L V) lf lb S (r : W -> K' -> S -> S * bool) (o : bool) s :
  repr q lf lb -> Forall ok (if o then lb else lf) ->
  iterate (Ht useKeys key sub q) r o s =
  let '(s', c) := run r (rekey key 0 (flat o (if o then lb else lf))) s in (s', if useKeys then 0 else c).
Proof using Hkey Hsub.
  intros Hq. set (l := if o then lb else lf). intros Hok.
  change (iterate (Ht useKeys key sub q) r o s) with (fst (fst (iterate q (fun v l st =>
    match sub v l with
    | inl q => let st' := fst (iterate q (Ht_call r) o st) in (st', snd st')
    | inr (k, w) => Ht_call r w k st
    end) o (s, 0, false)))).
  match goal with |- context [iterate q ?g o ?x] =>
    assert (iterate q g o x = run g l x) as -> by (unfold l; destruct (Hq _ g x); by destruct o) end.
  unfold run. pose proof (Ht_runs r o l Hok s 0) as H. cbv zeta in H.
  destruct (runs r (rekey key 0 (flat o l)) s) as [[s' c] stop].
  match goal with |- context [runs ?g l ?x] => destruct (runs g l x) as [[y d] b] end.
  cbn [fst snd] in *. by destruct H as [-> _].
Qed.
End Flatten.

(** ** Concatenation *)

(** The entries a sequence gives, forwards or backwards. *)
Definition entries {K V} (o : bool) (q : iter K V) : list (K * V) :=
  fst (iterate q (fun v k acc => (acc ++ [(k, v)], false)) o []).

Lemma entries_repr {K V} (q : iter K V) lf lb : repr q lf lb -> entries false q = lf /\ entries true q = lb.
Proof. intros Hq. unfold entries. destruct (Hq _ (fun v k acc => (acc ++ [(k, v)], false)) []) as [-> ->]. by rewrite !run_collect. Qed.

Lemma number_values {V} (l : list V) : map snd (number l) = l.
Proof.
  unfold number. generalize 0. induction l as [|v l IH]; intros o; cbn; [done|]. by rewrite IH.
Qed.

Lemma Forall2_rev {A B} (P : A -> B -> Prop) l l' : Forall2 P l l' -> Forall2 P (rev l) (rev l').
Proof. rewrite !rev_alt. apply Forall2_reverse. Qed.

Lemma Forall2_entries {K V} (qs : list (iter K V)) ls o :
  Forall2 (fun q l => repr q l.1 l.2) qs ls -> map (entries o) qs = map (fun l => if o : bool then l.2 else l.1) ls.
Proof. induction 1 as [|q l qs ls Hq _ IH]; cbn; [done|]. destruct (entries_repr _ _ _ Hq). rewrite IH. f_equal. by destruct o. Qed.

Lemma concat_run {K K' V S} useKeys (key : K -> Z -> K') (qs : list (iter K V)) (ls : list (list (K * V) * list (K * V)))
    (r : V -> K' -> S -> S * bool) (o : bool) s :
  (useKeys = true -> forall k o o', key k o = key k o') ->
  Forall2 (fun q l => repr q l.1 l.2) qs ls ->
  iterate (concat_iters useKeys key qs) r o s =
  let '(s', c) := run r (rekey key 0 (if o then concat (map snd (rev ls)) else concat (map fst ls))) s in
  (s', if useKeys then 0 else c).
Proof.
  intros Hk Hls. unfold concat_iters. cbn [iterate].
  assert (forall qs ls, Forall2 (fun q l => repr q l.1 l.2) qs ls -> Forall (fun e : Z * iter K V => exists lf lb, repr e.2 lf lb) (number qs)) as Hok.
  { clear. intros qs ls H. unfold number. generalize 0. induction H as [|q l qs ls Hq _ IH]; intros o; cbn; constructor; eauto. }
  rewrite (Ht_iterate useKeys key (fun q _ => inl q) Hk (fun o q _ => entries o q) (fun e => exists lf lb, repr e.2 lf lb)
             ltac:(intros v l (lf & lb & Hv); cbn in Hv; destruct (entries_repr v lf lb Hv) as [-> ->]; done)
             (ee qs) (number qs) (number (rev qs))); [|apply ee_repr|].
  - assert (forall qs, flat (fun o (q : iter K V) (_ : Z) => entries o q) o (number qs) = concat (map (entries o) qs)) as Hflat.
    { clear. intros qs. unfold flat. rewrite <- (number_values qs) at 2. by rewrite map_map. }
    destruct o; rewrite Hflat.
    + by rewrite (Forall2_entries _ _ true (Forall2_rev _ _ _ Hls)).
    + by rewrite (Forall2_entries _ _ false Hls).
  - destruct o; [eapply Hok; by apply Forall2_rev|by eapply Hok].
Qed.

(** ** Sequences of other kinds *)

(** A callback that numbers the entries itself. *)
Lemma run_positions {K V W S} (f : V -> W -> S -> S * bool) (h : Z -> W) d n (l : list (K * V)) : forall o s,
  (let '((st, _), c) := run (fun v _ '(st, m) => let '(st', stop) := f v (h m) st in ((st', m + d), stop)) l (s, n + d * o) in (st, c))
  = run f (rekey (fun _ o => h (n + d * o)) o l) s.
Proof.
  induction l as [|[k v] l IH]; intros o s; [done|]. cbn [rekey]. rewrite !run_cons.
  destruct (f v (h (n + d * o)) s) as [s' []]; [done|].
  replace (n + d * o + d) with (n + d * (o + 1)) by lia. specialize (IH (o + 1) s').
  match goal with |- context [run ?g l ?x] => destruct (run g l x) as [[st m] c] end. by rewrite <- IH.
Qed.

Section Kinds.
Context {K V : Type} (q : iter K V) (lf lb : list (K * V)) (Hq : repr q lf lb) (Hs : sized q lf).

Lemma Rt_repr : repr (Rt q) (rekey indexed 0 lf) (rekey indexed 0 lb) /\ sized (Rt q) (rekey indexed 0 lf).
Proof using Hq Hs.
  split; [|destruct Hs as [H|H]; [by left|right; by rewrite rekey_length]].
  intros S f s. unfold Rt. cbn [iterate].
  match goal with |- context [iterate q ?g true ?x] => destruct (Hq _ g x) as [-> ->] end.
  pose proof (fun l : list (K * V) => run_positions f id 1 0 l 0 s) as H.
  split; [etransitivity; [exact (H lf)|]|etransitivity; [exact (H lb)|]]; f_equal; apply rekey_ext; intros k o; unfold id, indexed; lia.
Qed.

Lemma C_size_length : C_size q = Z.of_nat (length lf).
Proof using Hq Hs.
  unfold C_size. destruct Hs as [-> | ->]; [|done]. destruct (Hq _ (fun _ _ s => (s, false)) tt) as [-> _]. by rewrite run_fold.
Qed.

(** The numbers of [Nt] are the positions from the start, in both directions. *)
Lemma Nt_numbered_repr :
  repr (Nt_numbered q) (rekey indexed 0 lf) (rekey (fun _ o => Z.of_nat (length lf) - 1 - o) 0 lb)
  /\ sized (Nt_numbered q) (rekey indexed 0 lf).
Proof using Hq Hs.
  split; [|destruct Hs as [H|H]; [by left|right; by rewrite rekey_length]].
  intros S f s. unfold Nt_numbered. cbn [iterate]. rewrite C_size_length. split.
  - match goal with |- context [iterate q ?g false ?x] => destruct (Hq _ g x) as [-> _] end.
    pose proof (run_positions f id 1 0 lf 0 s) as H. etransitivity; [exact H|].
    f_equal; apply rekey_ext; intros k o; unfold id, indexed; lia.
  - match goal with |- context [iterate q ?g true ?x] => destruct (Hq _ g x) as [_ ->] end.
    pose proof (run_positions f (fun n => n - 1) (-1) (Z.of_nat (length lf)) lb 0 s) as H.
    rewrite Z.mul_0_r, Z.add_0_r in H. etransitivity; [exact H|].
    f_equal; apply rekey_ext; intros k o; lia.
Qed.

Lemma Nt_keys_repr : repr (Nt_keys q) lf lb /\ sized (Nt_keys q) lf.
Proof using Hq Hs. by split. Qed.

Lemma Dt_repr : repr (Dt q) (map (fun e => (e.2, e.2)) lf) (map (fun e => (e.2, e.2)) lb) /\ sized (Dt q) (map (fun e => (e.2, e.2)) lf).
Proof using Hq Hs.
  split; [|destruct Hs as [H|H]; [by left|right; by rewrite length_map]].
  intros S f s. unfold Dt. cbn [iterate]. match goal with |- context [iterate q ?g true ?x] => destruct (Hq _ g x) as [-> ->] end.
  by rewrite !(run_map (fun e : K * V => (e.2, e.2))).
Qed.

(** The separator before each entry but the first, all numbered. *)
Definition interposed (t : V) (l : list (K * V)) : list (Z * V) :=
  number (match map snd l with [] => [] | v :: l => v :: concat (map (fun v => [t; v]) l) end).

Lemma interpose_length (t : V) l : length (concat (map (fun v => [t; v]) l)) = (2 * length l)%nat.
Proof using. clear. induction l as [|v l IH]; cbn; [done|]. rewrite IH. lia. Qed.

Definition interpose_call {S} (t : V) (n : V -> Z -> S -> S * bool) (v : V) (_ : K) (x : S * Z) : (S * Z) * bool :=
  let '(st, i) := x in
  let '(st, i, stop) := if i =? 0 then (st, i, false) else let '(st', stop) := n t i st in (st', i + 1, stop) in
  if stop then ((st, i), true) else let '(st', stop) := n v i st in ((st', i + 1), stop).

Lemma interpose_tail {S} t (n : V -> Z -> S -> S * bool) (l : list (K * V)) : forall s i, 0 < i ->
  fst (run (interpose_call t n) l (s, i)) =
  let '(s', c) := run n (rekey indexed i (map (fun v => (tt, v)) (concat (map (fun v => [t; v]) (map snd l))))) s in (s', i + c).
Proof using.
  clear. induction l as [|[k v] l IH]; intros s i Hi; cbn [map concat app]; [cbn; by rewrite Z.add_0_r|].
  cbn [rekey snd]. rewrite !run_cons. unfold interpose_call at 1. destruct (Z.eqb_spec i 0); [lia|].
  change (indexed tt i) with i. destruct (n t i s) as [s1 []]; [done|]. rewrite run_cons. change (indexed tt (i + 1)) with (i + 1).
  destruct (n v (i + 1) s1) as [s2 []]; [cbn; f_equal; lia|].
  specialize (IH s2 (i + 1 + 1) ltac:(lia)).
  match goal with |- context [run ?g l ?x] => destruct (run g l x) as [[st m] c] end. cbn [fst] in *. rewrite IH.
  destruct (run n _ s2). f_equal. lia.
Qed.

Lemma interpose_run {S} t (n : V -> Z -> S -> S * bool) (l : list (K * V)) s :
  fst (run (interpose_call t n) l (s, 0)) = run n (interposed t l) s.
Proof using.
  clear. unfold interposed. destruct l as [|[k v] l]; [done|]. cbn [map snd]. unfold number. cbn [map rekey].
  rewrite !run_cons. unfold interpose_call at 1. cbn [Z.eqb]. unfold indexed at 1.
  destruct (n v 0 s) as [s' []]; [done|]. pose proof (interpose_tail t n l s' 1 ltac:(lia)) as H. change (0 + 1) with 1.
  destruct (run (interpose_call t n) l (s', 1)) as [x c]. cbn [fst] in *. rewrite H.
  destruct (run n _ s'). f_equal. lia.
Qed.

Lemma interpose_repr t : repr (interpose q t) (interposed t lf) (interposed t lb) /\ sized (interpose q t) (interposed t lf).
Proof using Hq Hs.
  split.
  - intros S f s. change (iterate (interpose q t) f) with (fun r s => fst (iterate q (interpose_call t f) r (s, 0))). cbv beta.
    destruct (Hq _ (interpose_call t f) (s, 0)) as [-> ->]. split; apply interpose_run.
  - destruct Hs as [H|H]; unfold sized, interpose; cbn [isize]; rewrite H; [by left|right]. unfold interposed, number.
    rewrite rekey_length, length_map. destruct lf as [|[k v] l]; [done|]. cbn [map length snd].
    rewrite interpose_length, length_map. destruct (Z.of_nat (S (length l))) eqn:E; [lia| |lia]. f_equal. lia.
Qed.
End Kinds.

Definition somes {L K V} (l : list (L * option (K * V))) : list (K * V) := omap snd l.

(** An entry that is falsy is counted and passed over. *)
Lemma Lt_iterate {L K V S} (q : iter L (option (K * V))) lf lb (f : V -> K -> S -> S * bool) s (o : bool) :
  repr q lf lb -> fst (iterate (Lt q) f o s) = fst (run f (somes (if o then lb else lf)) s).
Proof.
  intros Hq. cbn [Lt iterate].
  match goal with |- context [iterate q ?g o ?x] => assert (iterate q g o x = run g (if o then lb else lf) x) as ->
    by (destruct (Hq _ g x); by destruct o) end.
  generalize (if o then lb else lf). clear. intros l. revert s. induction l as [|[k [[k' v]|]] l IH]; intros s; [done|..].
  - cbn [somes omap list_omap snd]. rewrite !run_cons. cbn [fst snd]. destruct (f v k' s) as [s' []]; [done|]. specialize (IH s').
    fold (somes l). destruct (run f (somes l) s'). by match goal with |- context [run ?g l ?x] => destruct (run g l x) end.
  - rewrite run_cons. cbv beta iota zeta. specialize (IH s). change (somes ((k, None) :: l)) with (somes l). rewrite <- IH.
    by match goal with |- context [run ?g l ?x] => destruct (run g l x) end.
Qed.
