(* ===== verification/ImSeqSpec.v ===== *)
(** * Immutable: what lazy sequences compute

    The theorems on [ImSeq]: each transformation of a sequence is the list
    function it is named after, and each consumer computes that function of the
    entries of the sequence. *)

From S2P Require Import Prelude ImSeq ImSeqFacts.
Local Open Scope Z_scope.

(** ** Consumers *)

Section Consumers.
Context {K V : Type} (q : iter K V) (lf lb : list (K * V)) (Hq : repr q lf lb) (Hs : sized q lf).

Local Ltac forward := match goal with |- context [iterate q ?g false ?x] => destruct (Hq _ g x) as [-> _] end.

Lemma every_list e : every q e = forallb (fun x => truthy (e x.2 x.1)) lf.
Proof using Hq.
  unfold every. forward. clear Hq Hs. induction lf as [|[k v] l IH]; [done|]. rewrite run_cons. cbn [forallb fst snd].
  destruct (truthy (e v k)); [|done]. cbn [andb]. rewrite <- IH. by destruct (run _ l true).
Qed.

Lemma some_list e : some_ q e = existsb (fun x => truthy (e x.2 x.1)) lf.
Proof using Hq.
  unfold some_. rewrite every_list. unfold Nn. clear Hq Hs. induction lf as [|[k v] l IH]; [done|].
  cbn. destruct (truthy (e v k)); [done|]. by rewrite <- IH.
Qed.

Lemma findEntry_list e : findEntry q e = List.find (fun x => truthy (e x.2 x.1)) lf.
Proof using Hq.
  unfold findEntry. forward. clear Hq Hs. induction lf as [|[k v] l IH]; [done|]. rewrite run_cons. cbn [List.find fst snd].
  destruct (truthy (e v k)); [done|]. rewrite <- IH. by destruct (run _ l None).
Qed.

Lemma isEmpty_list : isEmpty q = match lf with [] => true | _ => false end.
Proof using Hq Hs.
  unfold isEmpty. destruct Hs as [-> | ->]; [|clear; destruct lf; cbn [length]; [done|apply Z.eqb_neq; lia]].
  rewrite some_list. by destruct lf.
Qed.

Lemma first_list : first_keyed q = option_map snd (head lf).
Proof using Hq. unfold first_keyed, find_. rewrite findEntry_list. clear Hq Hs. by destruct lf. Qed.

Lemma reduce_list {A} (e : A -> V -> K -> A) t : reduce q e t = fold_left (fun r x => e r x.2 x.1) lf t.
Proof using Hq. unfold reduce. forward. by rewrite (run_fold (fun v k r => e r v k)). Qed.

Lemma reduce1_list (e : V -> V -> K -> V) :
  reduce1 q e = match lf with [] => None | x :: l => Some (fold_left (fun r x => e r x.2 x.1) l x.2) end.
Proof using Hq.
  unfold reduce1. forward. clear Hq Hs. rewrite (run_fold (fun v k r => match r with None => Some v | Some r => Some (e r v k) end)).
  cbn [fst]. destruct lf as [|[k v] l]; [done|]. cbn [fold_left fst snd].
  generalize v. induction l as [|[k' v'] l IH]; intros w; [done|]. cbn [fold_left fst snd]. apply IH.
Qed.

Lemma count_list e : count_ q e = Z.of_nat (length (match e with None => lf | Some e => kept e lf end)).
Proof using Hq Hs.
  unfold count_. destruct e as [e|]; [|by apply (C_size_length q lf lb)].
  destruct (zt_repr (Nt_keys q) lf lb Hq (@keyed K) e) as [Hr Hz]. rewrite rekey_keyed in *.
  by apply (C_size_length _ _ _ Hr).
Qed.

Lemma join_list show e : join show q e = concat (match map (fun x => show x.2) lf with [] => [] | v :: l => v :: map (fun v => e ++ v) l end).
Proof using Hq.
  unfold join. forward. clear Hq Hs.
  rewrite (run_ext _ (fun v (_ : K) (x : list Z * bool) => (let '(t, n) := x in (t ++ (if n then [] else e) ++ show v, false), false)))
    by (by intros v k [t n]).
  rewrite (run_fold (fun v (_ : K) (x : list Z * bool) => let '(t, n) := x in (t ++ (if n then [] else e) ++ show v, false))).
  cbn [fst]. destruct lf as [|[k v] l]; [done|]. cbn [fold_left map concat fst snd app]. generalize (show v).
  induction l as [|[k' v'] l IH]; intros acc; cbn [fold_left map concat fst snd]; [by rewrite app_nil_r|].
  rewrite IH. by rewrite <- !app_assoc.
Qed.

Lemma includes_list is_eq e : includes_value is_eq q e = existsb (fun x => is_eq x.2 e) lf.
Proof using Hq.
  unfold includes_value. rewrite some_list. clear. induction lf as [|x l IH]; cbn; [done|].
  rewrite IH. by destruct (is_eq x.2 e).
Qed.

(** With a comparison that orders the values, [max] gives a greatest one. *)
Lemma max_list weird same (e : V -> V -> Z) :
  (forall a b, 0 <= e a b -> e b a <= 0) -> (forall a b c, e a b <= 0 -> e b c <= 0 -> e a c <= 0) ->
  match max_ weird same e q with
  | None => lf = []
  | Some m => In m (map snd lf) /\ forall v, In v (map snd lf) -> e v m <= 0
  end.
Proof using Hq.
  intros Htot Htr. unfold max_, Jt. rewrite reduce1_list. clear Hq Hs. destruct lf as [|[k v] l]; [done|]. cbn [map snd].
  assert (forall l seen m, In m seen -> (forall v, In v seen -> e v m <= 0) ->
            let r := fold_left (fun r (x : K * V) => if Yt weird same e r x.2 then x.2 else r) l m in
            In r (seen ++ map snd l) /\ forall v, In v (seen ++ map snd l) -> e v r <= 0) as H.
  { clear -Htot Htr. induction l as [|[k v] l IH]; intros seen m Hm Hle; cbn [fold_left map snd]; [by rewrite app_nil_r|].
    assert (seen ++ v :: map snd l = (seen ++ [v]) ++ map snd l) as -> by (by rewrite <- app_assoc). apply IH; unfold Yt.
    - rewrite in_app_iff. destruct (_ || _); [right; by left|by left].
    - intros w [Hw|[<-|[]]]%in_app_iff; destruct ((e v m =? 0) && _ && _ || (e v m >? 0)) eqn:E; auto.
      + apply (Htr w m v); [auto|]. apply Htot. lia.
      + destruct (Z.le_gt_cases 0 (e v v)) as [Hv|Hv]; [|lia]. auto.
      + lia. }
  specialize (H l [v] v (or_introl eq_refl)). apply H. intros w [<-|[]].
  destruct (Z.le_gt_cases 0 (e v v)) as [Hv|Hv]; [auto|lia].
Qed.
End Consumers.

Lemma min_list {K V} (q : iter K V) lf lb weird same (e : V -> V -> Z) : repr q lf lb ->
  (forall a b, 0 <= e a b <-> e b a <= 0) -> (forall a b c, e a b <= 0 -> e b c <= 0 -> e a c <= 0) ->
  match min_ weird same e q with
  | None => lf = []
  | Some m => In m (map snd lf) /\ forall v, In v (map snd lf) -> e m v <= 0
  end.
Proof.
  intros Hq Htot Htr. pose proof (max_list q lf lb Hq weird same (fun a b => - e a b)) as H. cbv beta in H.
  change (max_ weird same (fun a b => - e a b) q) with (min_ weird same e q) in H.
  destruct (min_ weird same e q) as [m|].
  - destruct H as [Hin H].
    + intros a b Hab. enough (0 <= e b a) by lia. apply Htot. lia.
    + intros a b c Hab Hbc. enough (e c a <= 0) by (enough (0 <= e a c) by lia; by apply Htot).
      apply (Htr c b a); apply Htot; lia.
    + split; [done|]. intros v Hv. specialize (H v Hv). apply Htot. lia.
  - apply H; [intros a b Hab; enough (0 <= e b a) by lia; apply Htot; lia|].
    intros a b c Hab Hbc. enough (e c a <= 0) by (enough (0 <= e a c) by lia; by apply Htot).
    apply (Htr c b a); apply Htot; lia.
Qed.

(** ** Indexed sequences *)

Section Indexed.
Context {V : Type} (q : iter Z V) (vs : list V) (lb : list (Z * V)) (Hq : repr q (number vs) lb) (Hs : sized q (number vs)).

Lemma number_find (vs' : list V) i : forall o, o <= i ->
  option_map snd (List.find (fun x : Z * V => truthy (of_bool (x.1 =? i))) (rekey indexed o (map (fun v => (tt, v)) vs'))) = vs' !! Z.to_nat (i - o).
Proof using.
  clear. induction vs' as [|v vs' IH]; intros o Ho; [done|]. cbn [map rekey List.find fst]. unfold indexed at 1.
  destruct (Z.eqb_spec o i) as [->|]; [by rewrite Z.sub_diag|]. cbn [truthy of_bool]. rewrite IH by lia.
  by replace (Z.to_nat (i - o)) with (Datatypes.S (Z.to_nat (i - (o + 1)))) by lia.
Qed.

Lemma number_length : length (number vs) = length vs.
Proof using. clear. unfold number. by rewrite rekey_length, length_map. Qed.

Lemma k_size i : k_ q i = if i <? 0 then Z.of_nat (length vs) + i else i.
Proof using Hq Hs. unfold k_. by rewrite (C_size_length q _ lb Hq Hs), number_length. Qed.

(** An index counts from the end when it is negative. *)
Lemma get_list i d :
  get_index q i d =
  let i := if i <? 0 then Z.of_nat (length vs) + i else i in
  match (if i <? 0 then None else vs !! Z.to_nat i) with Some v => Some v | None => d end.
Proof using Hq Hs.
  unfold get_index. rewrite k_size. cbv zeta. set (j := if i <? 0 then _ else _). destruct (Z.ltb_spec j 0) as [|Hj]; [done|]. cbn [orb].
  assert (find_ q (fun _ n => of_bool (n =? j)) d = match vs !! Z.to_nat j with Some v => Some v | None => d end) as Hfind.
  { unfold find_. rewrite (findEntry_list q _ lb Hq). pose proof (number_find vs j 0 Hj) as H. rewrite Z.sub_0_r in H.
    fold (number vs) in H. rewrite <- H. cbn [fst]. by destruct (List.find _ (number vs)). }
  rewrite Hfind. destruct Hs as [-> | ->]; [done|]. rewrite number_length. destruct (Z.gtb_spec j (Z.of_nat (length vs))); [|done].
  by rewrite lookup_ge_None_2 by lia.
Qed.

Lemma has_list is_eq num i : isize q <> None ->
  has_index is_eq num q i = bool_decide (- Z.of_nat (length vs) <= i < Z.of_nat (length vs)).
Proof using Hq Hs.
  intros Hn. unfold has_index. rewrite k_size. destruct Hs as [H|H]; [done|]. rewrite H, number_length.
  destruct (Z.ltb_spec i 0); case_bool_decide; lia.
Qed.

Lemma findIndex_list e : findIndex q e = match List.find (fun x => truthy (e x.2 x.1)) (number vs) with Some r => r.1 | None => -1 end.
Proof using Hq. unfold findIndex. by rewrite (findEntry_list q _ lb Hq). Qed.
End Indexed.

(** ** Ranges *)

Record range_wf (r : range) : Prop := {
  range_step : _step r <> 0;
  range_size : rsize r = Z.max 0 (ceil_div (_end r - _start r) (_step r));
  range_dir : 0 < _step r <-> _start r <= _end r
}.

Lemma new_ye_wf e t n r : new_ye e t n = Ok r -> range_wf r /\ _start r = e /\ _end r = t /\ Z.abs (_step r) = Z.abs (default 1 n).
Proof.
  unfold new_ye. destruct n as [n|]; [destruct (Z.eqb_spec n 0); [done|]|]; intros [= <-]; cbn;
    destruct (Z.ltb_spec t e); (split; [split; cbn; try done; lia|split; [done|split; [done|lia]]]).
Qed.

Lemma ceil_div_spec a n k : n <> 0 -> (k < ceil_div a n <-> (if 0 <? n then k * n < a else a < k * n)).
Proof.
  intros Hn. unfold ceil_div. pose proof (Z.div_mod (- a) n Hn) as Hd.
  destruct (Z.ltb_spec 0 n).
  - pose proof (Z.mod_pos_bound (- a) n ltac:(lia)). split; intros; nia.
  - pose proof (Z.mod_neg_bound (- a) n ltac:(lia)). split; intros; nia.
Qed.

Lemma range_lookup r i : range_list r !! i = if bool_decide (Z.of_nat i < rsize r) then Some (_start r + Z.of_nat i * _step r) else None.
Proof.
  unfold range_list. rewrite stepping_lookup. repeat case_bool_decide; try done; lia.
Qed.

Section Range.
Context (r : range) (Hr : range_wf r).

Lemma range_in v : In v (range_list r) <-> exists k, 0 <= k < rsize r /\ v = _start r + k * _step r.
Proof using.
  clear Hr. rewrite <- list_elem_of_In, list_elem_of_lookup. split.
  - intros [i Hi]. rewrite range_lookup in Hi. case_bool_decide; [|done]. injection Hi as <-. exists (Z.of_nat i). lia.
  - intros (k & Hk & ->). exists (Z.to_nat k). rewrite range_lookup, Z2Nat.id, bool_decide_true by lia. done.
Qed.

(** The values of a range: the steps from its start before its end. *)
Lemma range_values v :
  In v (range_list r) <->
  exists k, 0 <= k /\ v = _start r + k * _step r /\ (if 0 <? _step r then v < _end r else _end r < v).
Proof using Hr.
  rewrite range_in. destruct Hr as [Hn -> _]. split; intros (k & Hk).
  - destruct Hk as [Hk ->]. exists k. assert (k < ceil_div (_end r - _start r) (_step r)) as H by lia.
    rewrite ceil_div_spec in H by done. destruct (0 <? _step r); lia.
  - destruct Hk as (Hk & -> & H). exists k. assert (k < ceil_div (_end r - _start r) (_step r)); [|lia].
    rewrite ceil_div_spec by done. destruct (0 <? _step r); lia.
Qed.

Lemma ye_includes_in v : ye_includes r v = true <-> In v (range_list r).
Proof using Hr.
  rewrite range_in. destruct Hr as [Hn _ _]. unfold ye_includes. pose proof (Z.div_mod (v - _start r) (_step r) Hn) as Hd.
  split.
  - intros H. exists ((v - _start r) / _step r). lia.
  - intros (k & Hk & ->). replace (_start r + k * _step r - _start r) with (k * _step r) by lia.
    rewrite Z.mod_mul, Z.div_mul by done. lia.
Qed.

Lemma ye_indexOf_found v :
  if ye_includes r v then 0 <= ye_indexOf r v /\ range_list r !! Z.to_nat (ye_indexOf r v) = Some v else ye_indexOf r v = -1.
Proof using Hr.
  pose proof (ye_includes_in v) as Hi. rewrite range_in in Hi. destruct Hr as [Hn _ _]. unfold ye_indexOf.
  destruct (ye_includes r v).
  - destruct (proj1 Hi eq_refl) as (k & Hk & ->). replace (_start r + k * _step r - _start r) with (k * _step r) by lia.
    rewrite Z.rem_mul, Z.quot_mul by done. cbn. rewrite (proj2 (Z.ltb_lt k (rsize r))) by lia.
    destruct (Z.geb_spec k 0); [|lia]. cbn. split; [lia|]. by rewrite range_lookup, Z2Nat.id, bool_decide_true by lia.
  - destruct (Z.eqb_spec (Z.rem (v - _start r) (_step r)) 0) as [E|]; [|done].
    pose proof (Z.quot_rem (v - _start r) (_step r) Hn) as Hd. set (n := Z.quot _ _) in *.
    destruct ((n >=? 0) && (n <? rsize r)) eqn:Hb; [|done]. enough (false = true) by done. apply Hi. exists n. lia.
Qed.

Lemma ye_get_lookup i d : 0 <= i -> ye_get r i d = default d (range_list r !! Z.to_nat i).
Proof using.
  clear Hr. intros Hi. unfold ye_get, ye_has, k_. destruct (Z.ltb_spec i 0); [lia|]. destruct (Z.geb_spec i 0); [|lia]. cbn [andb].
  rewrite range_lookup, Z2Nat.id by done. destruct (Z.ltb_spec i (rsize r)); case_bool_decide; done || lia.
Qed.

Lemma range_length : length (range_list r) = Z.to_nat (rsize r).
Proof using. clear Hr. apply stepping_length. Qed.

Lemma range_sub a b r' : 0 <= a < b -> b <= rsize r ->
  new_ye (ye_get r a (_end r)) (ye_get r b (_end r)) (Some (_step r)) = Ok r' ->
  range_list r' = take (Z.to_nat (b - a)) (drop (Z.to_nat a) (range_list r)).
Proof using Hr.
  intros Ha Hb. destruct Hr as [Hn Hsz Hdir]. rewrite !ye_get_lookup, !range_lookup, !Z2Nat.id, (bool_decide_true (a < _)) by lia. cbn.
  set (y := default _ _). intros (Hw & Hst & Hen & Habs)%new_ye_wf. destruct Hw as [Hn' Hsz' Hdir']. cbn in Habs.
  assert (forall k, a <= k -> (k < b <-> if 0 <? _step r then _start r + k * _step r < y else y < _start r + k * _step r)) as Hy.
  { intros k Hk. unfold y. case_bool_decide as E; cbn; [destruct (Z.ltb_spec 0 (_step r)); nia|].
    replace b with (ceil_div (_end r - _start r) (_step r)) by lia. rewrite ceil_div_spec by done.
    destruct (0 <? _step r); lia. }
  assert (_step r' = _step r) as Hstep.
  { rewrite Hst, Hen in Hdir'. pose proof (proj1 (Hy a ltac:(lia)) ltac:(lia)). destruct (Z.ltb_spec 0 (_step r)); lia. }
  assert (rsize r' = b - a) as Hsize.
  { rewrite Hsz', Hst, Hen, Hstep. enough (ceil_div (y - (_start r + a * _step r)) (_step r) = b - a) by lia.
    set (c := ceil_div _ _). assert (forall k, 0 <= k -> (k < c <-> k < b - a)) as Hc.
    { intros k Hk. unfold c. rewrite ceil_div_spec by done. specialize (Hy (k + a) ltac:(lia)).
      destruct (0 <? _step r); lia. }
    destruct (Z.lt_trichotomy c (b - a)) as [Hlt|[|Hlt]]; [|done|].
    - pose proof (Hc (Z.max 0 c) ltac:(lia)). lia.
    - pose proof (Hc (b - a) ltac:(lia)). lia. }
  apply list_eq. intros i. rewrite range_lookup, Hsize, Hst, Hstep. case_bool_decide.
  - rewrite lookup_take_lt, lookup_drop, range_lookup, bool_decide_true by lia. f_equal. lia.
  - by rewrite lookup_take_ge by lia.
Qed.

Lemma ye_slice_list e t r' : ye_slice r e t = Ok r' -> range_list r' = slice_list e t (range_list r).
Proof using Hr.
  assert (0 <= rsize r) as Hpos by (destruct Hr; lia). unfold ye_slice.
  pose proof (slice_whole e t (range_list r) (Some (rsize r))) as Hwh. rewrite range_length, Z2Nat.id in Hwh by done.
  destruct (O_whole e t (Some (rsize r))); [intros [= <-]; symmetry; apply Hwh; auto|]. clear Hwh.
  assert (forall x d, 0 <= d <= rsize r -> M_resolve x (Some (rsize r)) (Some d) = Num (slice_bound d x (rsize r))
            /\ 0 <= slice_bound d x (rsize r) <= rsize r) as Hres.
  { intros [x|] d Hd; cbn; [destruct (Z.ltb_spec x 0); split; try done; lia|done]. }
  unfold P_begin, T_end. destruct (Hres e 0 ltac:(lia)) as [-> Hb]. destruct (Hres t (rsize r) ltac:(lia)) as [-> Hb'].
  unfold slice_list. rewrite range_length, Z2Nat.id by done. set (a := slice_bound 0 e _) in *. set (b := slice_bound _ t _) in *.
  destruct (Z.leb_spec b a).
  - intros [= <-]. by replace (Z.to_nat (b - a)) with 0%nat by lia.
  - apply range_sub; lia.
Qed.
End Range.

(** ** The theorems *)

(** C39: mapping, flipping, reversing, filtering, renumbering and interposing a
    sequence give a sequence that, iterated over in either direction with any
    callback and stopped at any call, makes the calls the list function makes
    on its entries, returns their number, and has its size if it claims one. *)
Theorem transforms_correct {K V W} (q : iter K V) lf lb (g : V -> K -> W) (t : V -> K -> outcome) (sep : V) :
  repr q lf lb -> sized q lf -> length lb = length lf ->
  (repr (qt q g) (map (fun e => (e.1, g e.2 e.1)) lf) (map (fun e => (e.1, g e.2 e.1)) lb)
   /\ sized (qt q g) (map (fun e => (e.1, g e.2 e.1)) lf))
  /\ (repr (Ut q) (map swap_entry lf) (map swap_entry lb) /\ sized (Ut q) (map swap_entry lf))
  /\ (repr (Ft q) lb lf /\ sized (Ft q) lb)
  /\ (repr (zt keyed q t) (kept t lf) (kept t lb) /\ sized (zt keyed q t) (kept t lf))
  /\ (repr (zt indexed q t) (rekey indexed 0 (kept t lf)) (rekey indexed 0 (kept t lb)) /\ sized (zt indexed q t) (rekey indexed 0 (kept t lf)))
  /\ (repr (Rt q) (rekey indexed 0 lf) (rekey indexed 0 lb) /\ sized (Rt q) (rekey indexed 0 lf))
  /\ (repr (Nt_numbered q) (rekey indexed 0 lf) (rekey (fun _ o => Z.of_nat (length lf) - 1 - o) 0 lb) /\ sized (Nt_numbered q) (rekey indexed 0 lf))
  /\ (repr (Dt q) (map (fun e => (e.2, e.2)) lf) (map (fun e => (e.2, e.2)) lb) /\ sized (Dt q) (map (fun e => (e.2, e.2)) lf))
  /\ (repr (interpose q sep) (interposed sep lf) (interposed sep lb) /\ sized (interpose q sep) (interposed sep lf)).
Proof.
  intros Hq Hs Hl. pose proof (zt_repr q lf lb Hq (@keyed K) t) as Hz. rewrite !rekey_keyed in Hz.
  repeat match goal with |- _ /\ _ => split end;
    first [apply (qt_repr q lf lb Hq Hs) | apply (Ut_repr q lf lb Hq Hs) | apply (Ft_repr q lf lb Hq Hs Hl) | apply Hz
          | apply (zt_repr q lf lb Hq) | apply (Rt_repr q lf lb Hq Hs) | apply (Nt_numbered_repr q lf lb Hq Hs)
          | apply (Dt_repr q lf lb Hq Hs) | apply (interpose_repr q lf lb Hq Hs)].
Qed.

Definition letters : list Z := [97; 98; 99; 100].

Lemma transforms_correct_witness : exists q : iter Z Z, fst (iterate (qt q Z.add) (fun v k acc => (acc ++ [(k, v)], false)) true []) = [(0, 100); (1, 100); (2, 100); (3, 100)].
Proof.
  exists (ee letters). destruct (ee_repr letters) as [Hr Hs].
  pose proof (transforms_correct (ee letters) _ _ Z.add (fun _ _ => Truthy) 0 Hr Hs eq_refl) as [[H _] _].
  destruct (H _ (fun v k acc => (acc ++ [(k, v)], false)) []) as [_ ->]. reflexivity.
Defined.

(** Slicing a sequence between two 32-bit bounds, skipping its leading
    entries and taking them give the entries the same operations give on the
    list, with the keys of a sequence of its kind, in either direction; bounds
    that are negative count from the end, also where the size is not known. *)
Theorem slice_correct {K V} (key : K -> Z -> K) (q : iter K V) l (from to : option Z) (t : V -> K -> outcome) :
  stable_key key -> seq_of key q l -> (forall v k, t v k <> Falsy) ->
  seq_of key (Bt key q from to) (rekey key 0 (slice_list (option_map i32 from) (option_map i32 to) l))
  /\ seq_of key (Vt key q t) (rekey key 0 (skipped t l))
  /\ seq_of key (takeWhile key q t) (leading t l).
Proof. intros Hk Hq Ht. split_and!; [by apply Bt_seq|by apply Vt_seq|by apply takeWhile_seq]. Qed.

Lemma slice_correct_witness : exists q : iter Z Z, isize q = None /\ collect (Bt indexed q (Some (-2)) None) = [(0, 99); (1, 100)].
Proof.
  exists (zt indexed (ee letters) (fun _ _ => Truthy)). split; [reflexivity|].
  assert (seq_of indexed (zt indexed (ee letters) (fun _ _ => Truthy)) (number letters)) as Hq.
  { destruct (ee_repr letters) as [Hr Hs]. destruct (zt_repr _ _ _ Hr indexed (fun _ _ => Truthy)) as [H H'].
    split; [exact H|exact H'|reflexivity]. }
  destruct (slice_correct indexed _ _ (Some (-2)) None (fun _ _ => Truthy) indexed_stable Hq ltac:(done)) as [H _].
  rewrite (collect_seq _ _ _ H). reflexivity.
Defined.

(** Iterating over a concatenation goes over the entries of its parts in
    order, and over the parts from the last one when it is reversed; indexed
    concatenations number the entries and return how many they are, keyed ones
    always return 0. *)
Theorem concat_sequence {K V} (qs : list (iter K V)) ls S (r : V -> K -> S -> S * bool) (r' : V -> Z -> S -> S * bool) (o : bool) s :
  Forall2 (fun q l => repr q l.1 l.2) qs ls ->
  let l := if o then concat (map snd (rev ls)) else concat (map fst ls) in
  iterate (concat_iters true keyed qs) r o s = (fst (run r l s), 0)
  /\ iterate (concat_iters false indexed qs) r' o s = run r' (rekey indexed 0 l) s.
Proof.
  intros H. cbv zeta. rewrite (concat_run true keyed qs ls r o s) by done. rewrite (concat_run false indexed qs ls r' o s) by done.
  rewrite rekey_keyed. split; by destruct (run _ _ s).
Qed.

Lemma concat_sequence_witness : iterate (concat_iters false indexed [ee letters; ee [1]]) (fun v k acc => (acc ++ [(k, v)], false)) false []
  = ([(0, 97); (1, 98); (2, 99); (3, 100); (4, 1)], 5).
Proof.
  edestruct (concat_sequence [ee letters; ee [1]] [(number letters, number (rev letters)); (number [1], number [1])]) as [_ H].
  - repeat constructor; apply ee_repr.
  - rewrite H. reflexivity.
  Unshelve. exact (fun v k acc => (acc, false)).
Defined.

(** The methods that consume a sequence compute the list function of their
    name on its entries; [max] gives a greatest value for any comparison that
    orders the values. *)
Theorem consumers_correct {K V A} (q : iter K V) lf lb (t : V -> K -> outcome) (e : A -> V -> K -> A) (a : A)
    (is_eq : V -> V -> bool) (x : V) weird same (cmp : V -> V -> Z) :
  repr q lf lb -> sized q lf ->
  (forall a b, 0 <= cmp a b -> cmp b a <= 0) -> (forall a b c, cmp a b <= 0 -> cmp b c <= 0 -> cmp a c <= 0) ->
  every q t = forallb (fun y => truthy (t y.2 y.1)) lf
  /\ some_ q t = existsb (fun y => truthy (t y.2 y.1)) lf
  /\ findEntry q t = List.find (fun y => truthy (t y.2 y.1)) lf
  /\ reduce q e a = fold_left (fun r y => e r y.2 y.1) lf a
  /\ count_ q None = Z.of_nat (length lf)
  /\ count_ q (Some t) = Z.of_nat (length (kept t lf))
  /\ first_keyed q = option_map snd (head lf)
  /\ isEmpty q = match lf with [] => true | _ => false end
  /\ includes_value is_eq q x = existsb (fun y => is_eq y.2 x) lf
  /\ match max_ weird same cmp q with
     | None => lf = []
     | Some m => In m (map snd lf) /\ forall v, In v (map snd lf) -> cmp v m <= 0
     end.
Proof.
  intros Hq Hs Htot Htr.
  split; [by apply (every_list q lf lb)|]. split; [by apply (some_list q lf lb)|]. split; [by apply (findEntry_list q lf lb)|].
  split; [by apply (reduce_list q lf lb)|]. split; [by apply (count_list q lf lb Hq Hs None)|].
  split; [by apply (count_list q lf lb Hq Hs (Some t))|]. split; [by apply (first_list q lf lb)|].
  split; [by apply (isEmpty_list q lf lb)|]. split; [by apply (includes_list q lf lb)|by apply (max_list q lf lb)].
Qed.

Lemma consumers_correct_witness : every (ee letters) (fun v _ => of_bool (v <? 101)) = true.
Proof.
  destruct (ee_repr letters) as [Hr Hs].
  rewrite (proj1 (consumers_correct (ee letters) _ _ (fun v _ => of_bool (v <? 101)) (fun (_ : unit) _ _ => tt) tt Z.eqb 0
    (fun _ => false) Z.eqb Z.sub Hr Hs ltac:(lia) ltac:(lia))). reflexivity.
Defined.

(** A range holds the values reached from its start by its step before its
    end; [includes] and [indexOf] find exactly these, and [slice] is the slice
    of their list. *)
Theorem range_correct e t n r v from to r' :
  new_ye e t n = Ok r -> ye_slice r from to = Ok r' ->
  (In v (range_list r) <-> exists k, 0 <= k /\ v = e + k * _step r /\ (if 0 <? _step r then v < t else t < v))
  /\ (ye_includes r v = true <-> In v (range_list r))
  /\ (if ye_includes r v then 0 <= ye_indexOf r v /\ range_list r !! Z.to_nat (ye_indexOf r v) = Some v else ye_indexOf r v = -1)
  /\ repr (ye r) (number (range_list r)) (number (rev (range_list r)))
  /\ range_list r' = slice_list from to (range_list r).
Proof.
  intros (Hw & <- & <- & _)%new_ye_wf Hsl.
  split_and!; [by apply range_values|by apply ye_includes_in|by apply ye_indexOf_found|..|by apply ye_slice_list].
  apply ye_repr. destruct Hw; lia.
Qed.

Lemma range_correct_witness : exists r r', new_ye 10 0 (Some 3) = Ok r /\ ye_slice r (Some 1) (Some (-1)) = Ok r' /\ range_list r' = [7; 4].
Proof.
  eexists _, _. split; [reflexivity|]. split; [reflexivity|].
  etransitivity; [apply (range_correct 10 0 (Some 3) (Range_ 10 0 (-3) 4) 0 (Some 1) (Some (-1))); reflexivity|]. reflexivity.
Defined.

(** ** What the code does not do *)

(** A keyed concatenation of unknown size counts itself as empty. *)
Lemma concat_count_zero {K V} (qs : list (iter K V)) ls :
  Forall2 (fun q l => repr q l.1 l.2) qs ls -> isize (concat_iters true keyed qs) = None -> count_ (concat_iters true keyed qs) None = 0.
Proof.
  intros H Hn. unfold count_, C_size. rewrite Hn, (concat_run true keyed qs ls) by done. by destruct (run _ _ tt).
Qed.

(** With a predicate that returns a falsy value other than [false], [takeWhile]
    goes on after the first entry it fails for. *)
Lemma takeWhile_goes_on :
  collect (takeWhile indexed (ee [1; 0; 2]) (fun v _ => if v =? 0 then Falsy else Truthy)) = [(0, 1); (2, 2)].
Proof. reflexivity. Qed.

(** Where the size is not known, [has] looks for the index among the values. *)
Lemma has_unsized : has_index Z.eqb id (zt indexed (ee [7; 8]) (fun _ _ => Truthy)) 0 = false.
Proof. reflexivity. Qed.
