(* ===== verification/ImIter.v ===== *)
(** * Immutable: iterators of lazy sequences

    The second way the program goes over a sequence, the method [__iterator] of
    the sources and transformations of [ImSeq].  An iterator is an object with a
    method [next]; here it is its state, the state it starts in, and what [next]
    does in a state: yield a value, report that it is done, throw, or need more
    fuel for its loop.  The type of an iterator ([I], [j] or [N]: keys, values,
    entries) is an argument, and the type of what it yields follows it. *)

From S2P Require Import Prelude ImSeq ImSeqFacts.
Local Open Scope Z_scope.

Inductive itype : Type := I | J | N.

Inductive step (E : Type) : Type := Yield (x : E) | Done | Thrown (x : error) | OutOfFuel.
Arguments Yield {E}.
Arguments Done {E}.
Arguments Thrown {E}.
Arguments OutOfFuel {E}.

Record iterator (E : Type) : Type := U {
  ist : Type;
  istart : ist;
  inext : nat -> ist -> step E * ist
}.
Arguments U {E}.
Arguments ist {E}.
Arguments istart {E}.
Arguments inext {E}.

Definition res (t : itype) (K V : Type) : Type := match t with I => K | J => V | N => K * V end.

(** [q]: iteratorValue *)
Definition q_value {K V} (t : itype) (k : K) (v : V) : res t K V := match t with I => k | J => v | N => (k, v) end.

(** [if (o.done) return o; ...] *)
Definition andThen {E E' S S'} (r : step E * S) (keep : S -> S') (k : E -> S -> step E' * S') : step E' * S' :=
  match r with
  | (Yield x, s) => k x s
  | (Done, s) => (Done, keep s)
  | (Thrown x, s) => (Thrown x, keep s)
  | (OutOfFuel, s) => (OutOfFuel, keep s)
  end.

Definition is_Some_bool {A} (x : option A) : bool := match x with Some _ => true | None => false end.

Definition itr (K V : Type) : Type := forall t : itype, bool -> iterator (res t K V).

(** ** Sources *)

(** The element [n[t ? r - o : o]] of an array of which [r] is the last index. *)
Definition at_dir {A} (n : list A) (t : bool) (o : Z) : option A :=
  let r := Z.of_nat (length n) - 1 in
  let i := if t then r - o else o in if i <? 0 then None else n !! Z.to_nat i.

Definition ee_iterator {V} (n : list V) : itr Z V := fun e t =>
  U Z 0 (fun _ o =>
    match at_dir n t o with
    | None => (Done, o)
    | Some x => (Yield (q_value e o x), o + 1)
    end).

Definition te_iterator {K V} (n : list (K * V)) : itr K V := fun e t =>
  U Z 0 (fun _ i =>
    match at_dir n t i with
    | None => (Done, i + 1)
    | Some a => (Yield (q_value e a.1 a.2), i + 1)
    end).

Definition me_iterator {V} (value : V) (size : Z) : itr Z V := fun e _ =>
  U Z 0 (fun _ r => if r <? size then (Yield (q_value e r value), r + 1) else (Done, r)).

Definition ye_iterator (g : range) : itr Z Z := fun e t =>
  let n := rsize g - 1 in
  let r := _step g in
  U (Z * Z) (if t then _start g + n * r else _start g, 0) (fun _ '(o, i) =>
    let o' := o + (if t then - r else r) in
    if i >? n then (Done, (o', i)) else (Yield (q_value e i o), (o', i + 1))).

(** [ce]: over a cached result *)
Definition ce {K V} (key : K -> Z -> K) (o : list (K * V)) : itr K V := fun t n =>
  U Z 0 (fun _ a =>
    match at_dir o n a with
    | None => (Done, a + 1)
    | Some e => (Yield (q_value t (key e.1 a) e.2), a + 1)
    end).

(** ** Transformations *)

(** The loop [for (;;)] over the results of an iterator, until [p] accepts one;
    each round uses one unit of fuel. *)
Fixpoint seek {E F} (p : E -> option F) (i : iterator E) (all fuel : nat) (s : ist i) : step F * ist i :=
  match fuel with
  | O => (OutOfFuel, s)
  | S fuel => andThen (inext i all s) id (fun a s => match p a with Some y => (Yield y, s) | None => seek p i all fuel s end)
  end.

Section Transformations.
Context {K V : Type} (e : itr K V).

Definition Ut_iterator : itr V K := fun t n =>
  match t with
  | N => let r := e N n in
         U (ist r) (istart r) (fun fuel s => andThen (inext r fuel s) id (fun x s => (Yield (x.2, x.1), s)))
  | J => e I n
  | I => e J n
  end.

Definition qt_iterator {W} (t : V -> K -> W) : itr K W := fun r o =>
  let i := e N o in
  U (ist i) (istart i) (fun fuel s => andThen (inext i fuel s) id (fun a s => (Yield (q_value r a.1 (t a.2 a.1)), s))).

Definition Ft_iterator : itr K V := fun t n => e t (negb n).

Definition zt_iterator (key : K -> Z -> K) (t : V -> K -> outcome) : itr K V := fun o i =>
  let a : iterator (K * V) := e N i in
  U (ist a * Z) (istart a, 0) (fun fuel '(s, u) =>
    andThen (seek (fun x => if truthy (t x.2 x.1) then Some x else None) a fuel fuel s) (fun s => (s, u)) (fun x s => (Yield (q_value o (key x.1 u) x.2), (s, u + 1)))).

(** The loop of [Bt] that passes over the entries before the slice. *)
Fixpoint Bt_skip {E} (o : iterator E) (fuel : nat) (n : nat) (s : ist o) : step unit * ist o :=
  match n with
  | O => (Yield tt, s)
  | S n =>
      match inext o fuel s with
      | (Yield _, s) | (Done, s) => Bt_skip o fuel n s
      | (Thrown x, s) => (Thrown x, s)
      | (OutOfFuel, s) => (OutOfFuel, s)
      end
  end.

(** What [Bt] returns of a result of the source: the result itself where keys
    are kept ([num] is [None]) or only values are wanted, else with the number
    as its key.  Reading [e.value[1]] of a result that is done throws. *)
Definition Bt_result (num : option (Z -> K)) (t : itype) (s : Z) : step (res t K V) -> step (res t K V) :=
  match num with
  | None => id
  | Some f =>
      match t with
      | J => id
      | I => fun x => match x with Yield _ => Yield (f (s - 1)) | x => x end
      | N => fun x => match x with Yield y => Yield (f (s - 1), y.2) | Done => Thrown TypeError | x => x end
      end
  end.

Definition Bt_forward (num : option (Z -> K)) (i : Z) (u : option Z) (t : itype) (o : iterator (res t K V)) : iterator (res t K V) :=
  U (ist o * (Z * Z)) (istart o, (0, 0)) (fun fuel '(st, (a, s)) =>
    let a' := Z.max a i + 1 in
    andThen (Bt_skip o fuel (Z.to_nat (i - a)) st) (fun st => (st, (a', s))) (fun _ st =>
      let s := s + 1 in
      if match u with Some u => s >? u | None => false end then (Done, (st, (a', s)))
      else let '(x, st) := inext o fuel st in (Bt_result num t s x, (st, (a', s))))).

(** [cache] is the result [cacheResult] keeps, for going backwards.  Of a slice
    of size 0 the source iterator is [false], which has no method [next]. *)
Definition Bt_iterator (key : K -> Z -> K) (num : option (Z -> K)) (i : Z) (u : option Z) (cache : list (K * V)) : itr K V := fun t n =>
  match u with
  | Some 0 =>
      U (Z * Z) (0, 0) (fun _ '(a, s) =>
        if a <? i then (Thrown TypeError, (a + 1, s)) else (Done, (a + 1, s + 1)))
  | _ => if n then ce key cache t n else Bt_forward num i u t (e t n)
  end.

(** The loop of [Vt], while the predicate holds. *)
Fixpoint Vt_loop (u : iterator (K * V)) (t : V -> K -> outcome) (all fuel : nat) (st : ist u) (s : bool) : step (K * V) * (ist u * bool) :=
  match fuel with
  | O => (OutOfFuel, (st, s))
  | S fuel =>
      andThen (inext u all st) (fun st => (st, s)) (fun f st =>
        let s := s && truthy (t f.2 f.1) in
        if s then Vt_loop u t all fuel st s else (Yield f, (st, s)))
  end.

Definition Vt_iterator (key : K -> Z -> K) (num : option (Z -> K)) (t : V -> K -> outcome) (cache : list (K * V)) : itr K V := fun o i =>
  if i then ce key cache o i
  else
    let u := e N i in
    U (ist u * bool) (istart u, true) (fun fuel '(st, s) =>
      match Vt_loop u t fuel fuel st s with
      | (Yield x, st) => (Yield (q_value o x.1 x.2), st)
      | (Done, st) => (match num, o with Some _, N => Thrown TypeError | _, _ => Done end, st)
      | (Thrown x, st) => (Thrown x, st)
      | (OutOfFuel, st) => (OutOfFuel, st)
      end).

Definition takeWhile_iterator (key : K -> Z -> K) (t : V -> K -> outcome) (cache : list (K * V)) : itr K V := fun r o =>
  if o then ce key cache r o
  else
    let a := e N o in
    U (ist a * bool) (istart a, true) (fun fuel '(st, u) =>
      if u then
        andThen (inext a fuel st) (fun st => (st, u)) (fun x st =>
          if truthy (t x.2 x.1) then (Yield (q_value r x.1 x.2), (st, u)) else (Done, (st, false)))
      else (Done, (st, u))).

(** ** Other kinds *)

Definition Nt_iterator (size : Z) : itr Z V := fun e' t =>
  let n := e J t in
  U (ist n * Z) (istart n, if t then size else 0) (fun fuel '(s, r) =>
    andThen (inext n fuel s) (fun s => (s, r)) (fun o s =>
      if t then (Yield (q_value e' (r - 1) o), (s, r - 1)) else (Yield (q_value e' r o), (s, r + 1)))).

Definition Rt_iterator : itr Z V := fun e' t =>
  let n := e J t in
  U (ist n * Z) (istart n, 0) (fun fuel '(s, r) =>
    andThen (inext n fuel s) (fun s => (s, r)) (fun o s => (Yield (q_value e' r o), (s, r + 1)))).

Definition Dt_iterator : itr V V := fun e' t =>
  let n := e J t in
  U (ist n) (istart n) (fun fuel s => andThen (inext n fuel s) id (fun o s => (Yield (q_value e' o o), s))).

(** [interpose]: [o] is the value last taken of the source. *)
Definition interpose_iterator (t : V) : itr Z V := fun n r =>
  let i := e J r in
  U (ist i * (Z * option V)) (istart i, (0, None)) (fun fuel '(s, (a, o)) =>
    let take := andThen (inext i fuel s) (fun s => (s, o)) (fun v s => (Yield v, (s, Some v))) in
    andThen (match o with None => take | Some v => if Z.odd a then take else (Yield v, (s, o)) end)
      (fun '(s, o) => (s, (a, o)))
      (fun v '(s, o) => (Yield (q_value n a (if Z.odd a then t else v)), (s, (a + 1, o))))).
End Transformations.

(** [Lt]: an entry that is falsy is passed over. *)
Definition Lt_iterator {L K V} (e : itr L (option (K * V))) : itr K V := fun e' t =>
  let n := e J t in
  U (ist n) (istart n) (fun fuel s => andThen (seek id n fuel fuel s) id (fun r s => (Yield (q_value e' r.1 r.2), s))).

(** [Kt]: zip.  The states of the zipped iterators, and a call of [next] on each;
    [None] for one that is done. *)
Fixpoint states {V} (i : list (iterator V)) : Type :=
  match i with [] => unit | e :: i => ist e * states i end.

Fixpoint starts {V} (i : list (iterator V)) : states i :=
  match i with [] => tt | e :: i => (istart e, starts i) end.

Fixpoint nexts {V} (fuel : nat) (i : list (iterator V)) : states i -> step (list (option V)) * states i :=
  match i with
  | [] => fun s => (Yield [], s)
  | e :: i => fun '(s, ss) =>
      match inext e fuel s with
      | (Thrown x, s) => (Thrown x, (s, ss))
      | (OutOfFuel, s) => (OutOfFuel, (s, ss))
      | (Yield x, s) => andThen (nexts fuel i ss) (fun ss => (s, ss)) (fun n ss => (Yield (Some x :: n), (s, ss)))
      | (Done, s) => andThen (nexts fuel i ss) (fun ss => (s, ss)) (fun n ss => (Yield (None :: n), (s, ss)))
      end
  end.

Definition Kt_iterator {V W} (t : list V -> W) (r : list (bool -> iterator V)) : itr Z W := fun e o =>
  let i := map (fun e => e o) r in
  U (states i * (Z * bool)) (starts i, (0, false)) (fun fuel '(s, (a, u)) =>
    if u then (Done, (s, (a, u)))
    else
      andThen (nexts fuel i s) (fun s => (s, (a, u))) (fun n s =>
        if forallb is_Some_bool n then (Yield (q_value e a (t (omap id n))), (s, (a + 1, false)))
        else (Done, (s, (a, true))))).

(** [Kt.__iterate] goes over its own iterator of values. *)
Fixpoint Kt_loop {W S} (r : iterator W) (f : W -> Z -> S -> S * bool) (all fuel : nat) (st : ist r) (o : Z) (s : S) : option (S * Z) :=
  match fuel with
  | O => None
  | Datatypes.S fuel =>
      match inext r all st with
      | (Yield v, st) => let '(s, stop) := f v o s in if stop then Some (s, o + 1) else Kt_loop r f all fuel st (o + 1) s
      | (Done, _) => Some (s, o)
      | _ => None
      end
  end.

(** ** Sequences over iterators *)

(** [ne]: a sequence over an object that makes iterators; it calls [next] until
    it is done or the callback stops. *)
Fixpoint ne_loop {V S} (n : iterator V) (e : V -> Z -> S -> S * bool) (all fuel : nat) (st : ist n) (r : Z) (s : S) : option (S * Z) :=
  match fuel with
  | O => None
  | Datatypes.S fuel =>
      match inext n all st with
      | (Yield v, st) => let '(s, stop) := e v r s in if stop then Some (s, r + 1) else ne_loop n e all fuel st (r + 1) s
      | (Done, _) => Some (s, r)
      | _ => None
      end
  end.

Definition ne_iterate {V S} (n : iterator V) (e : V -> Z -> S -> S * bool) (fuel : nat) (s : S) : option (S * Z) :=
  ne_loop n e fuel fuel (istart n) 0 s.

Definition ne_iterator {V} (n : iterator V) (e : itype) : iterator (res e Z V) :=
  U (ist n * Z) (istart n, 0) (fun fuel '(st, r) =>
    andThen (inext n fuel st) (fun st => (st, r)) (fun v st => (Yield (q_value e r v), (st, r + 1)))).

(** [re]: a sequence over one iterator, which keeps what it has read in
    [_iteratorCache]; its state is that of the iterator and the cache. *)
Section IteratorSeq.
Context {V : Type} (r : iterator V).

Definition re_state : Type := ist r * list V.

(** The loop over the cache: whether it was stopped, and the index. *)
Fixpoint re_cached {S} (e : V -> Z -> S -> S * bool) (o : list V) (i : Z) (s : S) : S * Z * bool :=
  match o with
  | [] => (s, i, false)
  | x :: o => let '(s, stop) := e x i s in if stop then (s, i + 1, true) else re_cached e o (i + 1) s
  end.

(** The loop that reads on. *)
Fixpoint re_fresh {S} (e : V -> Z -> S -> S * bool) (all fuel : nat) (x : re_state) (i : Z) (s : S) : option (S * Z * re_state) :=
  match fuel with
  | O => None
  | Datatypes.S fuel =>
      let '(st, o) := x in
      match inext r all st with
      | (Yield a, st) =>
          let o := o ++ [a] in
          let '(s, stop) := e a i s in
          if stop then Some (s, i + 1, (st, o)) else re_fresh e all fuel (st, o) (i + 1) s
      | (Done, st) => Some (s, i, (st, o))
      | _ => None
      end
  end.

Definition re_iterate {S} (e : V -> Z -> S -> S * bool) (fuel : nat) (x : re_state) (s : S) : option (S * Z * re_state) :=
  let '(s, i, stop) := re_cached e x.2 0 s in
  if stop then Some (s, i, x) else re_fresh e fuel fuel x i s.

(** A call of [next] of an iterator of the sequence, which is at index [o]. *)
Definition re_next (e : itype) (fuel : nat) (x : re_state) (o : Z) : step (res e Z V) * (re_state * Z) :=
  let '(st, cache) := x in
  match cache !! Z.to_nat o with
  | Some v => (Yield (q_value e o v), (x, o + 1))
  | None =>
      andThen (inext r fuel st) (fun st => ((st, cache), o)) (fun v st => (Yield (q_value e o v), ((st, cache ++ [v]), o + 1)))
  end.
End IteratorSeq.
