(* ===== verification/ImIterFacts.v ===== *)
(** * Immutable: iterators yield the entries of their sequences

    Each iterator of [ImIter] yields the entries of the sequence it belongs to,
    in the type asked for, and is done from then on: the two ways to go over a
    sequence agree.  The last section shows where they do not. *)

From S2P Require Import Prelude ImSeq ImSeqFacts ImIter.
Local Open Scope Z_scope.

(** Done, and done on every later call. *)
Definition exhausted {E} (i : iterator E) (n : nat) (s : ist i) : Prop :=
  exists P : ist i -> Prop, P s /\ forall s, P s -> exists s', inext i n s = (Done, s') /\ P s'.

Fixpoint gives {E} (i : iterator E) (n : nat) (l : list E) (s : ist i) : Prop :=
  match l with
  | [] => exhausted i n s
  | x :: l => exists s', inext i n s = (Yield x, s') /\ gives i n l s'
  end.

(** With enough fuel the iterator yields [l] and is done. *)
Definition yields {E} (i : iterator E) (l : list E) : Prop := exists m, forall n, (m <= n)%nat -> gives i n l (istart i).

Definition proj {K V} (t : itype) (e : K * V) : res t K V := q_value t e.1 e.2.

(** The iterators of a sequence, forwards and backwards, of every type. *)
Definition itr_of {K V} (e : itr K V) (lf lb : list (K * V)) : Prop :=
  forall t, yields (e t false) (map (proj t) lf) /\ yields (e t true) (map (proj t) lb).

Lemma exhausted_step {E} (i : iterator E) n s : exhausted i n s -> exists s', inext i n s = (Done, s') /\ exhausted i n s'.
Proof. intros (P & Hs & H). destruct (H s Hs) as (s' & E' & Hs'). exists s'. split; [done|]. by exists P. Qed.

(** An iterator that is done in a set of states [next] stays in. *)
Lemma exhausted_in {E} (i : iterator E) n (P : ist i -> Prop) s :
  P s -> (forall s, P s -> exists s', inext i n s = (Done, s') /\ P s') -> exhausted i n s.
Proof. intros. by exists P. Qed.

Lemma gives_same {E} (i : iterator E) n l s s' : inext i n s = inext i n s' -> gives i n l s' -> gives i n l s.
Proof.
  intros Hs. destruct l as [|x l]; cbn; [|by rewrite Hs]. intros (s1 & H1 & He)%exhausted_step.
  apply (exhausted_in i n (fun s0 => s0 = s \/ exhausted i n s0)); [by left|].
  intros s0 [->|H0]; [exists s1; rewrite Hs; auto|]. destruct (exhausted_step _ _ _ H0) as (s2 & ? & ?). eauto.
Qed.

(** ** Simulation *)

Fixpoint mapi {A B} (f : Z -> A -> B) (o : Z) (l : list A) : list B :=
  match l with [] => [] | x :: l => f o x :: mapi f (o + 1) l end.

Section Simulation.
Context {E E' : Type} (i : iterator E) (j : iterator E') (n : nat) (f : Z -> E -> E') (R : Z -> ist i -> ist j -> Prop).
Context (Hyield : forall o s s' x s1, R o s s' -> inext i n s = (Yield x, s1) -> exists s1', inext j n s' = (Yield (f o x), s1') /\ R (o + 1) s1 s1').
Context (Hdone : forall o s s' s1, R o s s' -> inext i n s = (Done, s1) -> exists s1', inext j n s' = (Done, s1') /\ R o s1 s1').

Lemma exhausted_sim o s s' : R o s s' -> exhausted i n s -> exhausted j n s'.
Proof using Hdone.
  intros HR Hs. apply (exhausted_in j n (fun s' => exists s, R o s s' /\ exhausted i n s)); [by exists s|].
  intros t' (t & Ht & He). destruct (exhausted_step _ _ _ He) as (t1 & Hn & He1).
  destruct (Hdone _ _ _ _ Ht Hn) as (t1' & Hn' & Ht1). eauto.
Qed.

Lemma gives_sim l : forall o s s', R o s s' -> gives i n l s -> gives j n (mapi f o l) s'.
Proof using Hyield Hdone.
  induction l as [|x l IH]; intros o s s' HR; cbn; [by apply (exhausted_sim o)|].
  intros (s1 & Hn & Hg). destruct (Hyield _ _ _ _ _ HR Hn) as (s1' & Hn' & HR'). eauto.
Qed.
End Simulation.

(** ** Sources *)

Lemma at_dir_spec {A} (n : list A) t o : 0 <= o -> at_dir n t o = (if t then rev n else n) !! Z.to_nat o.
Proof.
  intros Ho. unfold at_dir. destruct t.
  - destruct (Z.ltb_spec (Z.of_nat (length n) - 1 - o) 0).
    + rewrite lookup_ge_None_2; [done|]. rewrite length_rev. lia.
    + rewrite rev_alt. change (rev_append n []) with (reverse n). rewrite reverse_lookup by lia. f_equal. lia.
  - destruct (Z.ltb_spec o 0); [lia|done].
Qed.

(** An iterator over an array, whose state tells the number of calls made. *)
Section Array.
Context {A E : Type} (j : iterator E) (pos : ist j -> Z) (Inv : ist j -> Prop) (l : list A) (f : Z -> A -> E).
Context (Hyield : forall n s x, Inv s -> 0 <= pos s -> l !! Z.to_nat (pos s) = Some x ->
  exists s', inext j n s = (Yield (f (pos s) x), s') /\ pos s' = pos s + 1 /\ Inv s').
Context (Hdone : forall n s, Inv s -> 0 <= pos s -> l !! Z.to_nat (pos s) = None ->
  exists s', inext j n s = (Done, s') /\ pos s <= pos s' /\ Inv s').

Lemma array_gives n d : forall s, drop (Z.to_nat (pos s)) l = d -> Inv s -> 0 <= pos s -> gives j n (mapi f (pos s) d) s.
Proof using Hyield Hdone.
  induction d as [|x d IH]; intros s Heq Hi Hs; cbn.
  - apply (exhausted_in j n (fun s => Inv s /\ 0 <= pos s /\ l !! Z.to_nat (pos s) = None)).
    + split; [done|]. split; [done|]. apply lookup_ge_None. assert (length (drop (Z.to_nat (pos s)) l) = 0%nat) as H by (by rewrite Heq).
      rewrite length_drop in H. lia.
    + intros s1 (Hi1 & H1 & H2). destruct (Hdone n s1 Hi1 H1 H2) as (s' & E' & Hle & Hi'). exists s'. split; [done|]. split; [done|].
      split; [lia|]. apply lookup_ge_None. apply lookup_ge_None in H2. lia.
  - assert (l !! Z.to_nat (pos s) = Some x) as Hx.
    { rewrite <- (Nat.add_0_r (Z.to_nat (pos s))), <- lookup_drop, Heq. done. }
    destruct (Hyield n s x Hi Hs Hx) as (s' & E' & Hp & Hi'). exists s'. split; [done|]. rewrite <- Hp. apply IH; [|done|lia].
    rewrite Hp. replace (Z.to_nat (pos s + 1)) with (Z.to_nat (pos s) + 1)%nat by lia.
    by rewrite <- drop_drop, Heq.
Qed.

Lemma array_yields : Inv (istart j) -> pos (istart j) = 0 -> yields j (mapi f 0 l).
Proof using Hyield Hdone. intros Hi Hp. exists 0%nat. intros n _. rewrite <- Hp. apply array_gives; rewrite ?Hp; done. Qed.
End Array.

Lemma mapi_rekey {K K' V} (key : K -> Z -> K') t (l : list (K * V)) : forall o,
  mapi (fun o e => q_value t (key e.1 o) e.2) o l = map (proj t) (rekey key o l).
Proof. induction l as [|[k v] l IH]; intros o; cbn; [done|]. by rewrite IH. Qed.

Lemma mapi_number {V} t (l : list V) : mapi (fun o x => q_value t o x) 0 l = map (proj t) (number l).
Proof.
  unfold number. generalize 0. induction l as [|v l IH]; intros o; cbn; [done|]. by rewrite IH.
Qed.

Lemma mapi_const {A B} (f : A -> B) l : forall o, mapi (fun _ => f) o l = map f l.
Proof. induction l as [|x l IH]; intros o; cbn; [done|]. by rewrite IH. Qed.

(** An iterator that reads its array with [at_dir]. *)
Lemma at_dir_yields {A E} (l : list A) t (f : Z -> A -> E) (d : Z) :
  0 <= d -> yields (U Z 0 (fun _ o => match at_dir l t o with None => (Done, o + d) | Some x => (Yield (f o x), o + 1) end)) (mapi f 0 (if t then rev l else l)).
Proof.
  intros Hd. apply (array_yields (U Z 0 _) (fun o : Z => o) (fun _ => True)); [..|done|done]; cbn [inext].
  - intros _ o x _ Ho Hx. rewrite at_dir_spec, Hx by done. by eexists.
  - intros _ o _ Ho Hx. rewrite at_dir_spec, Hx by done. eexists. split; [done|lia].
Qed.

Lemma ee_itr {V} (l : list V) : itr_of (ee_iterator l) (number l) (number (rev l)).
Proof.
  intros t. rewrite <- !mapi_number.
  assert (forall b, yields (ee_iterator l t b) (mapi (fun o x => q_value t o x) 0 (if b : bool then rev l else l))) as H; [|split; apply (H false) || apply (H true)].
  intros b. apply (array_yields (ee_iterator l t b) (fun o : Z => o) (fun _ => True)); [..|done|done]; cbn [inext ee_iterator].
  - intros _ o x _ Ho Hx. rewrite at_dir_spec, Hx by done. by eexists.
  - intros _ o _ Ho Hx. rewrite at_dir_spec, Hx by done. eexists. split; [done|lia].
Qed.

Lemma te_itr {K V} (l : list (K * V)) : itr_of (te_iterator l) l (rev l).
Proof. intros t. rewrite <- !(mapi_const (proj t) _ 0). split; [apply (at_dir_yields l false _ 1)|apply (at_dir_yields l true _ 1)]; done. Qed.

Lemma ce_itr {K V} (key : K -> Z -> K) (l : list (K * V)) : itr_of (ce key l) (rekey key 0 l) (rekey key 0 (rev l)).
Proof.
  intros t. rewrite <- !mapi_rekey.
  split; [apply (at_dir_yields l false (fun o e => q_value t (key e.1 o) e.2) 1)|apply (at_dir_yields l true (fun o e => q_value t (key e.1 o) e.2) 1)]; done.
Qed.

Lemma me_itr {V} (v : V) size : itr_of (me_iterator v size) (number (replicate (Z.to_nat size) v)) (number (replicate (Z.to_nat size) v)).
Proof.
  intros t. rewrite <- !mapi_number.
  assert (yields (me_iterator v size t false) (mapi (fun o x => q_value t o x) 0 (replicate (Z.to_nat size) v))) as H; [|split; exact H].
  apply (array_yields (me_iterator v size t false) (fun o : Z => o) (fun _ => True)); [..|done|done]; cbn [inext me_iterator].
  - intros _ o x _ Ho [-> Hlt]%lookup_replicate. destruct (Z.ltb_spec o size); [by eexists|lia].
  - intros _ o _ Ho Hx%lookup_ge_None. rewrite length_replicate in Hx. destruct (Z.ltb_spec o size); [lia|]. eexists. split; [done|lia].
Qed.

Lemma ye_itr g : 0 <= rsize g -> itr_of (ye_iterator g) (number (range_list g)) (number (rev (range_list g))).
Proof.
  intros Hg t. unfold range_list. rewrite stepping_rev, <- !mapi_number.
  assert (forall b first step0, first = (if b : bool then _start g + (rsize g - 1) * _step g else _start g) -> step0 = (if b then - _step g else _step g) ->
    yields (ye_iterator g t b) (mapi (fun o x => q_value t o x) 0 (stepping step0 (Z.to_nat (rsize g)) first))) as H.
  2: { split; apply H; try done. rewrite Z2Nat.id by done. lia. }
  intros b first step0 Hf Hst.
  apply (array_yields (ye_iterator g t b) (fun s : Z * Z => s.2) (fun s : Z * Z => s.2 < rsize g -> s.1 = first + s.2 * step0));
    cbn [inext ye_iterator istart fst snd]; [| |subst first; lia|done].
  - intros _ [o i] x Hi Ho Hx. cbn [fst snd] in *. rewrite stepping_lookup in Hx. case_bool_decide; [|done]. injection Hx as <-.
    rewrite (Z.gtb_ltb i), (proj2 (Z.ltb_ge _ _)) by lia. rewrite Z2Nat.id, Hi by lia. eexists. split; [done|].
    cbn. split; [done|]. subst step0. destruct b; lia.
  - intros _ [o i] Hi Ho Hx. cbn [fst snd] in *. rewrite stepping_lookup in Hx. case_bool_decide; [done|].
    rewrite (Z.gtb_ltb i), (proj2 (Z.ltb_lt _ _)) by lia. eexists. split; [done|]. cbn. lia.
Qed.

(** ** Transformations *)

Lemma map_proj_J {K V} (l : list (K * V)) : map (proj J) l = map snd l.
Proof. done. Qed.

Lemma map_proj_N {K V} (l : list (K * V)) : map (proj N) l = l.
Proof. rewrite <- (map_id l) at 2. apply map_ext. by intros [k v]. Qed.

(** One result for each result of the source. *)
Lemma yields_sim {E E'} (i : iterator E) (j : iterator E') (f : Z -> E -> E') (R : Z -> ist i -> ist j -> Prop) l :
  R 0 (istart i) (istart j) ->
  (forall n o s s' x s1, R o s s' -> inext i n s = (Yield x, s1) -> exists s1', inext j n s' = (Yield (f o x), s1') /\ R (o + 1) s1 s1') ->
  (forall n o s s' s1, R o s s' -> inext i n s = (Done, s1) -> exists s1', inext j n s' = (Done, s1') /\ R o s1 s1') ->
  yields i l -> yields j (mapi f 0 l).
Proof. intros HR Hy Hd [m H]. exists m. intros n Hn. apply (gives_sim i j n f R (Hy n) (Hd n) l 0 (istart i)); auto. Qed.

(** One result for each result of the source that [p] accepts. *)
Section Seek.
Context {E F : Type} (p : E -> option F) (i : iterator E).

Lemma seek_gives n l : forall m s, (length l < m)%nat -> gives i n l s ->
  match omap p l with
  | [] => exists s', seek p i n m s = (Done, s') /\ exhausted i n s'
  | y :: r => exists s' l', seek p i n m s = (Yield y, s') /\ gives i n l' s' /\ omap p l' = r /\ (length l' < length l)%nat
  end.
Proof using.
  induction l as [|x l IH]; intros [|m] s Hm; cbn [length] in Hm; try lia; cbn [omap list_omap gives seek].
  - intros (s' & -> & He)%exhausted_step. by exists s'.
  - intros (s' & -> & Hg). cbn [andThen]. destruct (p x) as [y|].
    + exists s', l. cbn [length]. split_and!; [done..|lia].
    + specialize (IH m s' ltac:(lia) Hg). change (list_omap E F p l) with (omap p l). destruct (omap p l); [done|].
      destruct IH as (s1 & l' & H1 & H2 & H3 & H4). exists s1, l'. cbn [length]. split_and!; [done..|lia].
Qed.

Lemma yields_seek {G} (j : iterator G) (f : Z -> F -> G) (R : Z -> ist i -> ist j -> Prop) l :
  R 0 (istart i) (istart j) ->
  (forall n o s s' x s1, R o s s' -> seek p i n n s = (Yield x, s1) -> exists s1', inext j n s' = (Yield (f o x), s1') /\ R (o + 1) s1 s1') ->
  (forall n o s s' s1, R o s s' -> seek p i n n s = (Done, s1) -> exists s1', inext j n s' = (Done, s1') /\ R o s1 s1') ->
  yields i l -> yields j (mapi f 0 (omap p l)).
Proof using.
  intros HR Hy Hd [m H]. exists (max m (S (length l))). intros n Hn. specialize (H n ltac:(lia)).
  assert (length l < n)%nat as Hl by lia. clear m Hn. revert HR H.
  generalize 0 (istart i) (istart j). remember (length l) as k eqn:Hk. revert l Hk Hl.
  induction (lt_wf k) as [k _ IH]; intros l -> Hl o s s' HR H. pose proof (seek_gives n l n s Hl H) as Hs.
  destruct (omap p l) as [|y r] eqn:El; cbn [mapi gives].
  - destruct Hs as (s1 & Hs1 & He). apply (exhausted_in j n (fun s' => exists s, R o s s' /\ exists s1, seek p i n n s = (Done, s1) /\ exhausted i n s1)).
    { eauto 6. }
    intros t' (t & Ht & t1 & Ht1 & He1). destruct (Hd _ _ _ _ _ Ht Ht1) as (t1' & Hn & HR'). exists t1'. split; [done|].
    exists t1. split; [done|]. apply (seek_gives n [] n t1); [cbn; lia|done].
  - destruct Hs as (s1 & l' & Hs1 & Hg & <- & Hlt). destruct (Hy _ _ _ _ _ _ HR Hs1) as (s1' & Hn & HR'). exists s1'.
    split; [done|]. by apply (IH (length l') Hlt l' eq_refl ltac:(lia) (o + 1) s1).
Qed.
End Seek.

Section Transformations.
Context {K V : Type} (e : itr K V) (lf lb : list (K * V)) (He : itr_of e lf lb).

(** A transformation of the entries alone. *)
Lemma mapped_itr {K' V'} (e' : itr K' V') t' t (f : res t' K V -> res t K' V') (l : list (K * V)) (b : bool) :
  yields (e t' b) (map (proj t') l) ->
  e' t b = (let i := e t' b in U (ist i) (istart i) (fun fuel s => andThen (inext i fuel s) id (fun x s => (Yield (f x), s)))) ->
  yields (e' t b) (map f (map (proj t') l)).
Proof using.
  intros H ->. rewrite <- (mapi_const f _ 0). revert H. cbv zeta.
  apply (yields_sim (e t' b) (U _ _ _) (fun _ => f) (fun _ s s' => s = s')); [done|..]; cbn [inext ist].
  - intros n o s s' x s1 -> ->. by eexists.
  - intros n o s s' s1 -> ->. by eexists.
Qed.

Lemma Ut_itr : itr_of (Ut_iterator e) (map swap_entry lf) (map swap_entry lb).
Proof using He.
  assert (forall t b l, yields (e J b) (map (proj J) l) -> yields (e I b) (map (proj I) l) -> yields (e N b) (map (proj N) l) ->
    yields (Ut_iterator e t b) (map (proj t) (map swap_entry l))) as H.
  2: { intros t. split; apply H; apply He. }
  intros t b l Hj Hi Hn. rewrite map_map. destruct t; [exact Hj|exact Hi|].
  pose proof (mapped_itr (Ut_iterator e) N N (fun x => (x.2, x.1)) l b Hn eq_refl) as Hm. by rewrite map_map in Hm.
Qed.

Lemma qt_itr {W} (t : V -> K -> W) :
  itr_of (qt_iterator e t) (map (fun x => (x.1, t x.2 x.1)) lf) (map (fun x => (x.1, t x.2 x.1)) lb).
Proof using He.
  intros y. rewrite !map_map.
  pose proof (fun l b H => mapped_itr (qt_iterator e t) N y (fun a => q_value y a.1 (t a.2 a.1)) l b H eq_refl) as Hm.
  split; [specialize (Hm lf false)|specialize (Hm lb true)]; rewrite map_map in Hm; apply Hm, He.
Qed.

Lemma Ft_itr : itr_of (Ft_iterator e) lb lf.
Proof using He. intros t. split; apply He. Qed.

Lemma Dt_itr : itr_of (Dt_iterator e) (map (fun x => (x.2, x.2)) lf) (map (fun x => (x.2, x.2)) lb).
Proof using He.
  intros y. rewrite !map_map.
  pose proof (fun l b H => mapped_itr (Dt_iterator e) J y (fun a => q_value y a a) l b H eq_refl) as Hm.
  split; [specialize (Hm lf false)|specialize (Hm lb true)]; rewrite map_map in Hm; apply Hm, He.
Qed.

Lemma mapi_snd {K' W} (l : list (K' * V)) (f : Z -> V -> W) : forall o, mapi f o (map snd l) = mapi (fun o x => f o x.2) o l.
Proof using. clear. induction l as [|x l IH]; intros o; cbn; [done|]. by rewrite IH. Qed.

Lemma Rt_itr : itr_of (Rt_iterator e) (rekey indexed 0 lf) (rekey indexed 0 lb).
Proof using He.
  intros y. rewrite <- !mapi_rekey.
  assert (forall b l, yields (e J b) (map (proj J) l) -> yields (Rt_iterator e y b) (mapi (fun o x => q_value y (indexed x.1 o) x.2) 0 l)) as H;
    [|split; apply H, He].
  intros b l. rewrite map_proj_J. intros H. rewrite <- (mapi_snd l (fun o x => q_value y o x)). revert H.
  apply (yields_sim (e J b) (Rt_iterator e y b) _ (fun o s s' => s' = (s, o))); [done|..]; cbn [inext ist Rt_iterator].
  - intros n o s s' x s1 -> ->. by eexists.
  - intros n o s s' s1 -> ->. by eexists.
Qed.

Lemma Nt_itr : itr_of (Nt_iterator e (Z.of_nat (length lf))) (rekey indexed 0 lf) (rekey (fun _ o => Z.of_nat (length lf) - 1 - o) 0 lb).
Proof using He.
  intros y. rewrite <- !mapi_rekey. split.
  - destruct (He J) as [H _]. rewrite map_proj_J in H. rewrite <- (mapi_snd lf (fun o x => q_value y o x)). revert H.
    apply (yields_sim (e J false) (Nt_iterator e _ y false) _ (fun o s s' => s' = (s, o))); [done|..]; cbn [inext ist Nt_iterator].
    + intros n o s s' x s1 -> ->. by eexists.
    + intros n o s s' s1 -> ->. by eexists.
  - destruct (He J) as [_ H]. rewrite map_proj_J in H. rewrite <- (mapi_snd lb (fun o x => q_value y (Z.of_nat (length lf) - 1 - o) x)). revert H.
    apply (yields_sim (e J true) (Nt_iterator e _ y true) _ (fun o s s' => s' = (s, Z.of_nat (length lf) - o))); cbn [inext ist istart Nt_iterator].
    + by rewrite Z.sub_0_r.
    + intros n o s s' x s1 -> ->. cbn. replace (Z.of_nat (length lf) - o - 1) with (Z.of_nat (length lf) - 1 - o) by lia.
      eexists. split; [done|]. f_equal. lia.
    + intros n o s s' s1 -> ->. by eexists.
Qed.

Lemma kept_omap t (l : list (K * V)) : omap (fun x => if truthy (t x.2 x.1) then Some x else None) l = kept t l.
Proof using. clear. unfold kept. induction l as [|x l IH]; cbn; [done|]. destruct (truthy (t x.2 x.1)); by rewrite <- IH. Qed.

Lemma zt_itr key t : itr_of (zt_iterator e key t) (rekey key 0 (kept t lf)) (rekey key 0 (kept t lb)).
Proof using He.
  intros y. rewrite <- !mapi_rekey.
  assert (forall b l, yields (e N b) (map (proj N) l) -> yields (zt_iterator e key t y b) (mapi (fun o x => q_value y (key x.1 o) x.2) 0 (kept t l))) as H;
    [|split; apply H, He].
  intros b l. rewrite map_proj_N, <- kept_omap.
  apply (yields_seek (E := K * V) _ (e N b) (zt_iterator e key t y b) _ (fun o s s' => s' = (s, o))); [done|..].
  - intros n o s s' x s1 -> Hs. cbn [inext zt_iterator]. rewrite Hs. by eexists.
  - intros n o s s' s1 -> Hs. cbn [inext zt_iterator]. rewrite Hs. by eexists.
Qed.
End Transformations.

(** ** Prefixes and slices *)

Section Parts.
Context {K V : Type} (e : itr K V) (key : K -> Z -> K).
Local Notation src := (e N false : iterator (K * V)).

Lemma forward_only (e' : itr K V) lf cache :
  (forall t, yields (e' t false) (map (proj t) lf)) -> (forall t, e' t true = ce key cache t true) -> itr_of e' lf (rekey key 0 (rev cache)).
Proof using. intros H H' t. split; [done|]. rewrite H'. apply ce_itr. Qed.

Lemma takeWhile_next t y n cache s :
  inext (takeWhile_iterator e key t cache y false) n (s, true) =
  andThen (inext src n s) (fun st => (st, true)) (fun x st =>
    if truthy (t x.2 x.1) then (Yield (q_value y x.1 x.2), (st, true)) else (Done, (st, false))).
Proof using. done. Qed.

Lemma takeWhile_gives t y n (l : list (K * V)) cache : forall s,
  gives src n l s -> gives (takeWhile_iterator e key t cache y false) n (map (proj y) (leading t l)) (s, true).
Proof using.
  set (j := takeWhile_iterator e key t cache y false).
  assert (forall st, exists s', inext j n (st, false) = (Done, s') /\ s'.2 = false) as Hstop by (intros st; by eexists).
  induction l as [|x l IH]; intros s.
  - intros H. apply (exhausted_in j n (fun s => s.2 = true /\ exhausted src n s.1)); [done|].
    intros [st u] [Hu Hs]. cbn in Hu, Hs. subst u. destruct (exhausted_step _ _ _ Hs) as (s' & Hn & Hs'). exists (s', true).
    split; [|done]. unfold j. rewrite takeWhile_next. cbn -[inext truthy]. by rewrite Hn.
  - intros (s' & Hn & Hg). cbn [leading]. destruct (truthy (t x.2 x.1)) eqn:Et.
    + exists (s', true). split; [|by apply IH]. unfold j. rewrite takeWhile_next, Hn. cbn [andThen]. by rewrite Et.
    + apply (exhausted_in j n (fun s0 => s0 = (s, true) \/ s0.2 = false)); [by left|]. intros s0 [->|H0].
      * exists (s', false). split; [|by right]. unfold j. rewrite takeWhile_next, Hn. cbn [andThen]. by rewrite Et.
      * destruct s0 as [st u]. cbn in H0. subst u. destruct (Hstop st) as (s1 & H1 & H2). eauto.
Qed.

(** The iterator of [takeWhile] stops at the first entry that fails, whatever
    falsy value the predicate returns. *)
Lemma takeWhile_itr lf lb t : itr_of e lf lb ->
  itr_of (takeWhile_iterator e key t (leading t lf)) (leading t lf) (rekey key 0 (rev (leading t lf))).
Proof using.
  intros He. apply forward_only; [|done]. intros y. destruct (He N) as [[m H] _]. exists m. intros n Hn. apply takeWhile_gives.
  rewrite map_proj_N in H. by apply H.
Qed.

Lemma Vt_loop_gives t n (l : list (K * V)) : forall m s, (length l < m)%nat -> gives src n l s ->
  match skipped t l with
  | [] => exists s', Vt_loop src t n m s true = (Done, (s', true)) /\ exhausted src n s'
  | x :: r => exists s', Vt_loop src t n m s true = (Yield x, (s', false)) /\ gives src n r s'
  end.
Proof using.
  induction l as [|x l IH]; intros [|m] s Hm; cbn [length] in Hm; try lia; cbn [skipped gives Vt_loop].
  - intros (s' & Hs & He)%exhausted_step. rewrite Hs. by exists s'.
  - intros (s' & Hs & Hg). rewrite Hs. cbn [andThen andb]. destruct (truthy (t x.2 x.1)); [|by exists s'].
    apply IH; [lia|done].
Qed.

Lemma Vt_gives t y n (l : list (K * V)) cache s : (length l < n)%nat ->
  gives src n l s -> gives (Vt_iterator e key None t cache y false) n (map (proj y) (skipped t l)) (s, true).
Proof using.
  intros Hl Hg. set (j := Vt_iterator e key None t cache y false).
  assert (forall s b, inext j n (s, b) = match Vt_loop src t n n s b with
    | (Yield x, st) => (Yield (q_value y x.1 x.2), st) | (Done, st) => (Done, st) | (Thrown x, st) => (Thrown x, st) | (OutOfFuel, st) => (OutOfFuel, st) end) as Hj by done.
  assert (forall l s, gives src n l s -> gives j n (map (proj y) l) (s, false)) as Hrest.
  { assert (n <> 0%nat) as Hn0 by lia. clear Hl Hg l s.
    assert (forall s, inext j n (s, false) = andThen (inext src n s) (fun s => (s, false)) (fun f st => (Yield (q_value y f.1 f.2), (st, false)))) as Hj'.
    { intros s. rewrite Hj. destruct n as [|n']; [done|]. cbn [Vt_loop]. by destruct (inext src (S n') s) as [[]]. }
    clear Hj. induction l as [|x l IH]; intros s.
    - apply (exhausted_sim src j n (fun o s s' => s' = (s, false))) with (o := 0); [|done].
      intros _ s0 s' s1 -> Hd. rewrite Hj', Hd. by eexists.
    - intros (s' & Hn & Hg). exists (s', false). split; [|by apply IH]. by rewrite Hj', Hn. }
  pose proof (Vt_loop_gives t n l n s Hl Hg) as H. destruct (skipped t l) as [|x r].
  - destruct H as (s' & H & Hs'). apply (exhausted_in j n (fun s0 => s0 = (s, true) \/ s0.2 = true /\ exhausted src n s0.1)); [by left|].
    intros s0 [->|H0].
    + exists (s', true). rewrite Hj, H. auto.
    + destruct s0 as [st b]. cbn in H0. destruct H0 as [-> H0].
      destruct (Vt_loop_gives t n [] n st ltac:(cbn; lia) H0) as (s1 & H1 & H2). exists (s1, true). rewrite Hj, H1. auto.
  - destruct H as (s' & H & Hs'). exists (s', false). rewrite Hj, H. split; [done|by apply Hrest].
Qed.

Lemma Vt_itr lf lb t : itr_of e lf lb ->
  itr_of (Vt_iterator e key None t (skipped t lf)) (skipped t lf) (rekey key 0 (rev (skipped t lf))).
Proof using.
  intros He. apply forward_only; [|done]. intros y. destruct (He N) as [[m H] _]. exists (max m (S (length lf))). intros n Hn. apply Vt_gives; [lia|].
  rewrite map_proj_N in H. apply H. lia.
Qed.
End Parts.

Section Slice.
Context {K V : Type} (num : option (Z -> K)) (i : Z) (u : option Z) (t : itype) (o : iterator (res t K V)) (n : nat).

(** The key of an entry of the slice. *)
Definition num_key (k : K) (o : Z) : K := match num with None => k | Some f => f o end.

Local Notation j := (Bt_forward num i u t o).

Lemma Bt_skip_gives k (l : list (res t K V)) : forall st, gives o n l st ->
  exists st', Bt_skip o n k st = (Yield tt, st') /\ gives o n (drop k l) st'.
Proof using.
  revert l. induction k as [|k IH]; intros l st Hg; [by exists st|]. destruct l as [|x l]; cbn [Bt_skip drop].
  - destruct (exhausted_step _ _ _ Hg) as (st' & -> & He). destruct (IH [] st' He) as (s1 & H1 & H2). rewrite drop_nil in H2. eauto.
  - destruct Hg as (st' & -> & Hg). apply IH, Hg.
Qed.

(** Once [i] entries are passed over. *)
Lemma Bt_next st a s : i <= a ->
  inext j n (st, (a, s)) =
  (if match u with Some u => s + 1 >? u | None => false end then (Done, (st, (a + 1, s + 1)))
   else let '(x, st) := inext o n st in (Bt_result num t (s + 1) x, (st, (a + 1, s + 1)))).
Proof using.
  intros Ha. cbn [inext Bt_forward]. replace (Z.to_nat (i - a)) with 0%nat by lia. cbn [Bt_skip andThen]. by replace (Z.max a i) with a by lia.
Qed.

Lemma Bt_result_yield (x : K * V) s : Bt_result num t (s + 1) (Yield (proj t x)) = Yield (q_value t (num_key x.1 s) x.2).
Proof using. clear o. unfold Bt_result, num_key, proj. replace (s + 1 - 1) with s by lia. destruct num, t; done. Qed.

(** The end of the source is not reached, or reported as it is. *)
Definition ends_well (s : Z) (k : nat) : Prop := num = None \/ t <> N \/ exists u', u = Some u' /\ u' <= s + Z.of_nat k.

Lemma Bt_stops st a s u' : i <= a -> u = Some u' -> u' <= s -> exhausted j n (st, (a, s)).
Proof using.
  intros Ha Hu Hs. apply (exhausted_in j n (fun x => i <= x.2.1 /\ u' <= x.2.2)); [done|].
  intros [st1 [a1 s1]] [H1 H2]. cbn in H1, H2. rewrite Bt_next, Hu by done. rewrite (Z.gtb_ltb (s1 + 1)), (proj2 (Z.ltb_lt _ _)) by lia.
  eexists. split; [done|]. cbn. lia.
Qed.

Lemma Bt_gives (l : list (K * V)) : forall st a s, i <= a -> ends_well s (length l) -> gives o n (map (proj t) l) st ->
  gives j n (map (proj t) (rekey num_key s (limit (option_map (fun u => u - s) u) l))) (st, (a, s)).
Proof using.
  induction l as [|x l IH]; intros st a s Ha Hw Hg.
  - replace (limit _ []) with (@nil (K * V)) by (unfold limit; destruct (option_map _ u); by rewrite ?take_nil).
    assert ((forall s, Bt_result num t s Done = (Done : step (res t K V))) \/ exists u', u = Some u' /\ u' <= s) as [HD|(u' & Hu & Hle)].
    { clear -Hw. destruct Hw as [Hw|[Hw|(u' & Hu & Hle)]]; [left; intros; by rewrite Hw|left; intros; by destruct num, t|].
      right. exists u'. split; [done|]. cbn in Hle. lia. }
    2: by apply (Bt_stops _ _ _ u').
    apply (exhausted_in j n (fun x => i <= x.2.1 /\ exhausted o n x.1)); [done|].
    intros [st1 [a1 s1]] [H1 H2]. cbn in H1, H2. rewrite Bt_next by done. destruct (exhausted_step _ _ _ H2) as (st2 & Hn & H3).
    rewrite Hn. destruct (match u with Some u => s1 + 1 >? u | None => false end).
    + eexists. split; [done|]. cbn. split; [lia|done].
    + rewrite HD. eexists. split; [done|]. cbn. split; [lia|done].
  - assert ((exists u', u = Some u' /\ u' <= s) \/ ~ (exists u', u = Some u' /\ u' <= s)) as [(u' & Hu & Hle)|Hlt].
    { destruct u as [u'|]; [|by right; intros (? & ? & _)]. destruct (Z.le_gt_cases u' s); [left; eauto|right; intros (? & ? & ?); simplify_eq; lia]. }
    + assert (limit (option_map (fun u => u - s) u) (x :: l) = []) as ->.
      { rewrite Hu. cbn [option_map limit]. by replace (Z.to_nat (u' - s)) with 0%nat by lia. }
      by apply (Bt_stops _ _ _ u').
    + destruct Hg as (st' & Hn & Hg).
      assert (limit (option_map (fun u => u - s) u) (x :: l) = x :: limit (option_map (fun u => u - (s + 1)) u) l) as ->.
      { destruct u as [u'|]; [|done]. cbn [option_map limit]. assert (s < u') by (destruct (Z.le_gt_cases u' s); [destruct Hlt; eauto|lia]).
        by replace (Z.to_nat (u' - s)) with (S (Z.to_nat (u' - (s + 1)))) by lia. }
      destruct x as [k v]. cbn [rekey map gives]. exists (st', (a + 1, s + 1)). split.
      * rewrite Bt_next by done. rewrite Hn.
        replace (match u with Some u => s + 1 >? u | None => false end) with false; [by rewrite Bt_result_yield|].
        destruct u as [u'|]; [|done]. destruct (Z.gtb_spec (s + 1) u'); [|done]. destruct Hlt. exists u'. split; [done|lia].
      * apply IH; [lia| |done]. destruct Hw as [Hw|[Hw|(u' & Hu & Hle)]]; [by left|by right; left|right; right].
        exists u'. split; [done|]. cbn [length] in Hle. lia.
Qed.
End Slice.

(** The iterators of a slice that is not empty, where keys are kept, no entries
    are asked for, or the source has all the entries of the slice. *)
Lemma Bt_itr {K V} (e : itr K V) key num i u cache lf lb t :
  0 <= i -> u <> Some 0 -> itr_of e lf lb -> ends_well num u t 0 (length (drop (Z.to_nat i) lf)) ->
  yields (Bt_iterator e key num i u cache t false) (map (proj t) (rekey (num_key num) 0 (limit u (drop (Z.to_nat i) lf))))
  /\ yields (Bt_iterator e key num i u cache t true) (map (proj t) (rekey key 0 (rev cache))).
Proof.
  intros Hi Hu He Hw. unfold Bt_iterator. split.
  - assert (yields (Bt_forward num i u t (e t false)) (map (proj t) (rekey (num_key num) 0 (limit u (drop (Z.to_nat i) lf))))) as H.
    2: { destruct u as [[]|]; done. }
    destruct (He t) as [[m H] _]. exists m. intros n Hn. specialize (H n Hn).
    destruct (Bt_skip_gives t (e t false) n (Z.to_nat i) _ _ H) as (st & Hst & Hg). change (@map (K * V)) with (@fmap list _ (K * V)) in Hg. rewrite <- fmap_drop in Hg.
    pose proof (Bt_gives num i u t (e t false) n _ st i 0 ltac:(lia) Hw Hg) as Hd.
    replace (option_map (fun u => u - 0) u) with u in Hd by (destruct u; cbn; [f_equal; lia|done]).
    revert Hd. apply gives_same. rewrite Bt_next by lia. cbn [inext Bt_forward istart]. rewrite Z.sub_0_r, Hst. cbn [andThen].
    by replace (Z.max 0 i) with i by lia.
  - replace (match u with Some 0 => _ | _ => _ end) with (ce key cache t true) by (destruct u as [[]|]; done). apply ce_itr.
Qed.

(** ** Interposing, entries and zipping *)

Section Interpose.
Context {K V : Type} (e : itr K V) (t : V) (y : itype) (b : bool) (n : nat).
Local Notation src := (e J b : iterator V).
Local Notation j := (interpose_iterator e t y b).

Lemma interpose_next s a o :
  inext j n (s, (a, o)) =
  andThen (match o with
           | None => andThen (inext src n s) (fun s => (s, o)) (fun v s => (Yield v, (s, Some v)))
           | Some v => if Z.odd a then andThen (inext src n s) (fun s => (s, o)) (fun v s => (Yield v, (s, Some v))) else (Yield v, (s, o))
           end)
    (fun '(s, o) => (s, (a, o)))
    (fun v '(s, o) => (Yield (q_value y a (if Z.odd a then t else v)), (s, (a + 1, o)))).
Proof using. done. Qed.

Lemma interpose_exhausted s a o : o = None \/ Z.odd a = true -> exhausted src n s -> exhausted j n (s, (a, o)).
Proof using.
  intros Ho He. apply (exhausted_in j n (fun x => x.2 = (a, o) /\ exhausted src n x.1)); [done|].
  intros [s1 [a1 o1]] [[= -> ->] H1]. cbn in H1. destruct (exhausted_step _ _ _ H1) as (s2 & Hn & H2). exists (s2, (a, o)).
  rewrite interpose_next, Hn. destruct Ho as [->|Ho]; [done|]. rewrite Ho. by destruct o.
Qed.

Lemma interpose_rest (l : list V) : forall s a v, Z.odd a = true -> gives src n l s ->
  gives j n (map (proj y) (rekey indexed a (map (fun v => (tt, v)) (concat (map (fun v => [t; v]) l))))) (s, (a, Some v)).
Proof using.
  induction l as [|x l IH]; intros s a v Ha; [apply interpose_exhausted; by right|]. intros (s' & Hn & Hg).
  cbn [map concat app rekey gives].
  assert (Z.odd (a + 1) = false) as Ha' by (rewrite Z.odd_add, Ha; done).
  exists (s', (a + 1, Some x)). split; [rewrite interpose_next, Ha, Hn; done|].
  exists (s', (a + 1 + 1, Some x)). split; [rewrite interpose_next, Ha'; done|].
  apply IH; [rewrite Z.odd_add, Ha'; done|done].
Qed.

Lemma interpose_gives (l : list (K * V)) s : gives src n (map snd l) s -> gives j n (map (proj y) (interposed t l)) (s, (0, None)).
Proof using.
  unfold interposed, number. destruct (map snd l) as [|v vs]; [apply interpose_exhausted; by left|].
  intros (s' & Hn & Hg). cbn [map rekey gives]. exists (s', (1, Some v)). split; [rewrite interpose_next, Hn; done|].
  by apply interpose_rest.
Qed.
End Interpose.

Lemma interpose_itr {K V} (e : itr K V) lf lb t : itr_of e lf lb -> itr_of (interpose_iterator e t) (interposed t lf) (interposed t lb).
Proof.
  intros He y. destruct (He J) as [[m H] [m' H']]. rewrite map_proj_J in H, H'.
  split; [exists m|exists m']; intros n Hn; apply interpose_gives; auto.
Qed.

(** [None] marks an entry that is falsy. *)
Lemma Lt_itr {L K V} (e : itr L (option (K * V))) lf lb : itr_of e lf lb -> itr_of (Lt_iterator e) (somes lf) (somes lb).
Proof.
  intros He y.
  assert (forall b l, yields (e J b) (map (proj J) l) -> yields (Lt_iterator e y b) (map (proj y) (somes l))) as H; [|split; apply H, He].
  intros b l. rewrite map_proj_J, <- (mapi_const (proj y) _ 0).
  replace (somes l) with (omap (@id (option (K * V))) (map snd l)) by (unfold somes; clear; induction l as [|[k [x|]] l IH]; cbn; [done|by rewrite <- IH|done]).
  apply (yields_seek (E := option (K * V)) id (e J b) (Lt_iterator e y b) _ (fun o s s' => s' = s)); [done|..].
  - intros n o s s' x s1 -> Hs. cbn [inext Lt_iterator]. rewrite Hs. by eexists.
  - intros n o s s' s1 -> Hs. cbn [inext Lt_iterator]. rewrite Hs. by eexists.
Qed.

(** The rows of a zip, as long as every list has a head. *)
Fixpoint zip_rows {V} (n : nat) (ls : list (list V)) : list (list V) :=
  match n with
  | O => []
  | S n => if forallb (fun l => match l with [] => false | _ => true end) ls
           then omap head ls :: zip_rows n (map tail ls) else []
  end.

Section Zip.
Context {V : Type} (n : nat).

Fixpoint give_all (i : list (iterator V)) (ls : list (list V)) : states i -> Prop :=
  match i, ls with
  | [], [] => fun _ => True
  | e :: i, l :: ls => fun s => gives e n l s.1 /\ give_all i ls s.2
  | _, _ => fun _ => False
  end.

Lemma nexts_give i : forall ls s, give_all i ls s ->
  exists s', nexts n i s = (Yield (map head ls), s') /\ give_all i (map tail ls) s'.
Proof using.
  induction i as [|e i IH]; intros [|l ls] s Hs; try done; [by exists s|]. destruct s as [s ss]. destruct Hs as [Hl Hls]. cbn [fst snd] in *.
  destruct (IH ls ss Hls) as (ss' & Hn & Hs'). cbn [nexts]. destruct l as [|x l].
  - destruct (exhausted_step _ _ _ Hl) as (s1 & -> & He). rewrite Hn. by exists (s1, ss').
  - destruct Hl as (s1 & -> & Hg). rewrite Hn. by exists (s1, ss').
Qed.
End Zip.

Lemma heads_some {V} (ls : list (list V)) :
  forallb is_Some_bool (map head ls) = forallb (fun l => match l with [] => false | _ => true end) ls /\ omap id (map head ls) = omap head ls.
Proof. induction ls as [|[|x l] ls [IH IH']]; cbn in *; [done|done|]. by rewrite IH, IH'. Qed.

(** [k] rounds are enough when one of the zipped lists is shorter. *)
Lemma Kt_gives {V W} (t : list V -> W) (r : list (bool -> iterator V)) y b n k : forall (ls : list (list V)) s a,
  give_all n (map (fun e => e b) r) ls s -> Exists (fun l => length l < k)%nat ls ->
  gives (Kt_iterator t r y b) n (map (proj y) (rekey indexed a (map (fun v => (tt, t v)) (zip_rows k ls)))) (s, (a, false)).
Proof.
  set (i := map (fun e => e b) r). set (j := Kt_iterator t r y b).
  assert (forall s a, inext j n (s, (a, false)) = andThen (nexts n i s) (fun s => (s, (a, false))) (fun n s =>
        if forallb is_Some_bool n then (Yield (q_value y a (t (omap id n))), (s, (a + 1, false)))
        else (Done, (s, (a, true))))) as Hj by done.
  induction k as [|k IH]; intros ls s a Hg Hex.
  { exfalso. apply Exists_exists in Hex as (l & _ & Hl). lia. }
  destruct (nexts_give n i ls s Hg) as (s' & Hn & Hg'). destruct (heads_some ls) as [Hh Ho]. cbn [zip_rows].
  destruct (forallb _ ls) eqn:Ef; cbn [map rekey gives].
  - exists (s', (a + 1, false)). split; [rewrite Hj, Hn; cbn [andThen]; by rewrite Hh, Ho|]. apply IH; [done|].
    apply Exists_exists in Hex as (l & Hl & Hlen). apply Exists_exists. exists (tail l).
    split; [by apply list_elem_of_fmap_2|]. rewrite forallb_forall in Ef. specialize (Ef l (proj1 (list_elem_of_In _ _) Hl)).
    destruct l; [done|]. cbn in *. lia.
  - apply (exhausted_in j n (fun x => x = (s, (a, false)) \/ x.2.2 = true)); [by left|]. intros x [->|Hx].
    + eexists. split; [rewrite Hj, Hn; cbn [andThen]; rewrite Hh; done|]. by right.
    + destruct x as [s1 [a1 u1]]. cbn in Hx. subst u1. exists (s1, (a1, true)). split; [done|by right].
Qed.

(** ** Sequences over iterators *)

Lemma ne_iterate_run {V S} (n : iterator V) (f : V -> Z -> S -> S * bool) k (l : list V) s :
  gives n k l (istart n) -> (length l < k)%nat -> ne_iterate n f k s = Some (run f (number l) s).
Proof.
  unfold ne_iterate, number. intros Hg Hk.
  assert (forall l m st o s, gives n k l st -> (length l < m)%nat ->
    ne_loop n f k m st o s = Some (let '(s, c) := run f (rekey indexed o (map (fun v => (tt, v)) l)) s in (s, o + c))) as H.
  2: { rewrite (H l k (istart n) 0 s Hg Hk). by destruct (run f _ s). }
  clear. induction l as [|v l IH]; intros [|m] st o s Hg Hm; cbn [length] in Hm; try lia; cbn [ne_loop map rekey gives].
  - destruct (exhausted_step _ _ _ Hg) as (st' & -> & _). cbn. by rewrite Z.add_0_r.
  - destruct Hg as (st' & -> & Hg). rewrite run_cons. change (indexed tt o) with o. destruct (f v o s) as [s' []]; [done|].
    rewrite (IH m st' (o + 1) s' Hg ltac:(lia)). destruct (run f _ s'). do 2 f_equal. lia.
Qed.

Section IteratorSeq.
Context {V : Type} (r : iterator V) (k : nat) (all : list V).

(** What is cached, and what the iterator still yields, are the values. *)
Definition re_ok (x : re_state r) : Prop := exists l, all = x.2 ++ l /\ gives r k l x.1.

Lemma re_cached_run {S} (e : V -> Z -> S -> S * bool) (c l : list V) : forall o s,
  let '(s', i, stop) := re_cached e c o s in
  (stop = false -> i = o + Z.of_nat (length c)) /\
  run e (rekey indexed o (map (fun v => (tt, v)) (c ++ l))) s =
  (if stop then (s', i - o) else let '(s'', n) := run e (rekey indexed i (map (fun v => (tt, v)) l)) s' in (s'', i - o + n)).
Proof using.
  induction c as [|x c IH]; intros o s; cbn [re_cached app map rekey length].
  - split; [lia|]. destruct (run e _ s). f_equal. lia.
  - rewrite run_cons. change (indexed tt o) with o. destruct (e x o s) as [s' []]; [split; [done|f_equal; lia]|].
    specialize (IH (o + 1) s'). destruct (re_cached e c (o + 1) s') as [[s1 i] stop]. destruct IH as [Hi ->].
    split; [intros H; specialize (Hi H); lia|]. destruct stop; [f_equal; lia|]. destruct (run e _ s1). f_equal. lia.
Qed.

Lemma re_fresh_run {S} (e : V -> Z -> S -> S * bool) (l : list V) : forall m (x : re_state r) i s,
  all = x.2 ++ l -> gives r k l x.1 -> (length l < m)%nat ->
  exists x', re_fresh r e k m x i s = (let '(s', n) := run e (rekey indexed i (map (fun v => (tt, v)) l)) s in Some (s', i + n, x')) /\ re_ok x'.
Proof using.
  induction l as [|v l IH]; intros [|m] [st o] i s Ha Hg Hm; cbn [length] in Hm; try lia; cbn [fst snd re_fresh map rekey] in *.
  - destruct (exhausted_step _ _ _ Hg) as (st' & -> & He). exists (st', o). cbn. rewrite Z.add_0_r. split; [done|]. by exists [].
  - destruct Hg as (st' & -> & Hg). rewrite run_cons. change (indexed tt i) with i. destruct (e v i s) as [s' []].
    + exists (st', o ++ [v]). split; [done|]. exists l. cbn [fst snd]. by rewrite <- app_assoc.
    + destruct (IH m (st', o ++ [v]) (i + 1) s') as (x' & -> & Hx'); [cbn [snd]; by rewrite <- app_assoc|done|lia|].
      exists x'. split; [|done]. destruct (run e _ s'). do 3 f_equal. lia.
Qed.

Lemma re_iterate_run {S} (e : V -> Z -> S -> S * bool) (x : re_state r) s :
  re_ok x -> (length all < k)%nat ->
  exists x', re_iterate r e k x s = (let '(s', n) := run e (number all) s in Some (s', n, x')) /\ re_ok x'.
Proof using.
  intros (l & Ha & Hg) Hk. unfold re_iterate, number. pose proof (re_cached_run e x.2 l 0 s) as H. rewrite <- Ha in H.
  destruct (re_cached e x.2 0 s) as [[s' i] stop]. destruct H as [Hi H]. rewrite H. rewrite Z.sub_0_r. destruct stop; [exists x; split; [done|by exists l]|].
  destruct (re_fresh_run e l k x i s' Ha Hg) as (x' & Hf & Hx'); [rewrite Ha, length_app in Hk; lia|].
  exists x'. split; [|done]. rewrite Hf. by destruct (run e _ s').
Qed.

Lemma re_next_yields (e : itype) (x : re_state r) o :
  re_ok x -> 0 <= o <= Z.of_nat (length x.2) ->
  match all !! Z.to_nat o with
  | Some v => exists x', re_next r e k x o = (Yield (q_value e o v), (x', o + 1)) /\ re_ok x' /\ o + 1 <= Z.of_nat (length x'.2)
  | None => exists x', re_next r e k x o = (Done, (x', o)) /\ re_ok x' /\ x'.2 = x.2
  end.
Proof using.
  intros (l & Ha & Hg) Ho. destruct x as [st c]. cbn [fst snd] in *. unfold re_next. rewrite Ha.
  destruct (decide (o < Z.of_nat (length c))) as [Hlt|Hge].
  - rewrite lookup_app_l by lia. destruct (lookup_lt_is_Some_2 c (Z.to_nat o)) as [v Hv]; [lia|]. rewrite Hv.
    exists (st, c). split; [done|]. split; [by exists l|]. cbn. lia.
  - rewrite lookup_app_r, (lookup_ge_None_2 c) by lia. replace (Z.to_nat o - length c)%nat with 0%nat by lia.
    destruct l as [|v l].
    + destruct (exhausted_step _ _ _ Hg) as (st' & -> & He). exists (st', c). split; [done|]. split; [|done]. by exists [].
    + destruct Hg as (st' & -> & Hg). exists (st', c ++ [v]). split; [done|]. cbn [snd]. rewrite length_app. cbn [length].
      split; [|lia]. exists l. cbn. by rewrite <- app_assoc.
Qed.
End IteratorSeq.

(** ** The theorems *)

(** With enough fuel for its loops, the iterator of a transformed sequence
    yields, in every type and in both directions, the entries the iteration
    with callbacks goes over, and reports that it is done from then on. *)
Theorem iterators_agree {K V W} (e : itr K V) lf lb (g : V -> K -> W) (t : V -> K -> outcome) (key : K -> Z -> K) (sep : V) :
  itr_of e lf lb ->
  itr_of (qt_iterator e g) (map (fun x => (x.1, g x.2 x.1)) lf) (map (fun x => (x.1, g x.2 x.1)) lb)
  /\ itr_of (Ut_iterator e) (map swap_entry lf) (map swap_entry lb)
  /\ itr_of (Ft_iterator e) lb lf
  /\ itr_of (zt_iterator e key t) (rekey key 0 (kept t lf)) (rekey key 0 (kept t lb))
  /\ itr_of (Rt_iterator e) (rekey indexed 0 lf) (rekey indexed 0 lb)
  /\ itr_of (Nt_iterator e (Z.of_nat (length lf))) (rekey indexed 0 lf) (rekey (fun _ o => Z.of_nat (length lf) - 1 - o) 0 lb)
  /\ itr_of (Dt_iterator e) (map (fun x => (x.2, x.2)) lf) (map (fun x => (x.2, x.2)) lb)
  /\ itr_of (interpose_iterator e sep) (interposed sep lf) (interposed sep lb)
  /\ itr_of (takeWhile_iterator e key t (leading t lf)) (leading t lf) (rekey key 0 (rev (leading t lf)))
  /\ itr_of (Vt_iterator e key None t (skipped t lf)) (skipped t lf) (rekey key 0 (rev (skipped t lf))).
Proof.
  intros He. split; [by apply (qt_itr e lf lb)|]. split; [by apply (Ut_itr e lf lb)|]. split; [by apply (Ft_itr e lf lb)|].
  split; [by apply (zt_itr e lf lb)|]. split; [by apply (Rt_itr e lf lb)|]. split; [by apply (Nt_itr e lf lb)|].
  split; [by apply (Dt_itr e lf lb)|]. split; [by apply (interpose_itr e lf lb)|]. split; [by apply (takeWhile_itr e key lf lb)|].
  by apply (Vt_itr e key lf lb).
Qed.

Lemma iterators_agree_witness : exists e : itr Z Z, yields (zt_iterator e indexed (fun v _ => of_bool (5 <? v)) N true) [(0, 9); (1, 7)].
Proof.
  exists (ee_iterator [7; 3; 9]).
  destruct (iterators_agree (ee_iterator [7; 3; 9]) _ _ (fun v _ => v) (fun v _ => of_bool (5 <? v)) indexed 0 (ee_itr [7; 3; 9])) as (_ & _ & _ & H & _).
  exact (proj2 (H N)).
Defined.

(** The iterator of a slice that is not empty yields the entries between its
    bounds, and backwards those it has cached, provided that keys are kept, or
    no entries are asked for, or the source has every entry of the slice; a zip
    yields the rows of its lists until the shortest one ends. *)
Theorem slice_zip_iterators {K V W} (e : itr K V) key num i u cache lf lb t
    (z : list V -> W) (r : list (bool -> iterator V)) (ls : list (list V)) b n k :
  0 <= i -> u <> Some 0 -> itr_of e lf lb -> ends_well num u t 0 (length (drop (Z.to_nat i) lf)) ->
  give_all n (map (fun e => e b) r) ls (starts (map (fun e => e b) r)) -> Exists (fun l => length l < k)%nat ls ->
  yields (Bt_iterator e key num i u cache t false) (map (proj t) (rekey (num_key num) 0 (limit u (drop (Z.to_nat i) lf))))
  /\ yields (Bt_iterator e key num i u cache t true) (map (proj t) (rekey key 0 (rev cache)))
  /\ gives (Kt_iterator z r t b) n (map (proj t) (rekey indexed 0 (map (fun v => (tt, z v)) (zip_rows k ls)))) (istart (Kt_iterator z r t b)).
Proof.
  intros Hi Hu He Hw Hz Hk. destruct (Bt_itr e key num i u cache lf lb t Hi Hu He Hw) as [H H']. split; [done|]. split; [done|].
  by apply Kt_gives.
Qed.

Lemma slice_zip_iterators_witness :
  exists e : itr Z Z, yields (Bt_iterator e indexed (Some id) 1 (Some 2) [] N false) [(0, 8); (1, 9)].
Proof.
  exists (ee_iterator [7; 8; 9]).
  refine (proj1 (slice_zip_iterators (ee_iterator [7; 8; 9]) indexed (Some id) 1 (Some 2) [] _ _ N
    (fun _ => tt) [fun b => ee_iterator [5] J b] [[5]] false 0 2 ltac:(lia) ltac:(done) (ee_itr _) _ _ _)).
  - right; right. exists 2. split; [reflexivity|]. by vm_compute.
  - split; [|done]. exists 1. split; [reflexivity|].
    apply (exhausted_in (ee_iterator [5] J false) 0 (fun o => o = 1)); [done|]. intros s ->. exists 1. split; reflexivity.
  - repeat constructor.
Defined.

(** A sequence over a single iterator can be gone over again and again: with
    enough fuel, from any state reached so, an iteration makes the calls on all
    the values from the first one, wherever earlier ones were stopped, and an
    iterator of the sequence at index [o] yields the value with that index. *)
Theorem iterator_seq_correct {V S} (r : iterator V) k (all : list V) (x : re_state r) (f : V -> Z -> S -> S * bool) s e o :
  re_ok r k all x -> (length all < k)%nat -> 0 <= o <= Z.of_nat (length x.2) ->
  (exists x', re_iterate r f k x s = (let '(s', n) := run f (number all) s in Some (s', n, x')) /\ re_ok r k all x')
  /\ match all !! Z.to_nat o with
     | Some v => exists x', re_next r e k x o = (Yield (q_value e o v), (x', o + 1)) /\ re_ok r k all x' /\ o + 1 <= Z.of_nat (length x'.2)
     | None => exists x', re_next r e k x o = (Done, (x', o)) /\ re_ok r k all x' /\ x'.2 = x.2
     end.
Proof. intros Hx Hk Ho. split; [by apply re_iterate_run|by apply re_next_yields]. Qed.

Lemma iterator_seq_correct_witness :
  exists x', re_iterate (ee_iterator [7; 8] J false) (fun v _ acc => (acc ++ [v], true)) 5 (0, []) [] = Some ([7], 1, x').
Proof.
  destruct (iterator_seq_correct (ee_iterator [7; 8] J false) 5 [7; 8] (0, []) (fun v (_ : Z) acc => (acc ++ [v], true)) [] J 0) as [(x' & H & _) _].
  - exists [7; 8]. split; [reflexivity|]. exists 1. split; [reflexivity|]. exists 2. split; [reflexivity|].
    apply (exhausted_in (ee_iterator [7; 8] J false) 5 (fun o => o = 2)); [done|]. intros s ->. exists 2. split; reflexivity.
  - cbn. lia.
  - cbn. lia.
  - exists x'. rewrite H. reflexivity.
Defined.

(** ** Where the iterators fail *)

(** The iterator of a slice of size 0 that does not begin at 0 throws. *)
Lemma empty_slice_throws {K V} (e : itr K V) key num i cache t n : 0 < i ->
  fst (inext (Bt_iterator e key num i (Some 0) cache t false) n (0, 0)) = Thrown TypeError.
Proof. intros Hi. cbn [inext Bt_iterator]. by rewrite (proj2 (Z.ltb_lt 0 i)) by done. Qed.

(** The entries iterator of an indexed slice of a sequence of unknown size, and
    that of an indexed [skipWhile], throw at the end of the source. *)
Lemma indexed_entries_throw n :
  fst (inext (Bt_iterator (ee_iterator [7]) indexed (Some id) 0 None [] N false) n (1, (1, 1))) = Thrown TypeError
  /\ fst (inext (Vt_iterator (ee_iterator [7]) indexed (Some id) (fun _ _ => Truthy) [] N false) (2 + n) (0, true)) = Thrown TypeError.
Proof. done. Qed.
