(* ===== verification/ImSet.v ===== *)
(** * Immutable: sets and stacks

    [Set] of module 7 of swagger-ui-bundle.js over the maps of [ImMap], and
    [Stack].  A set that is not mutable is modelled: [withMutations] works on a
    copy nothing else sees, so it is the sequence of its updates.  The iterables
    passed to [union], [intersect] and [subtract] are sets or collections of
    values of known size. *)

From S2P Require Import Prelude ImHash ImBits ImMap ImMapFacts ImMapIter ImMapSpec.
Local Open Scope Z_scope.

#[global] Instance strict_bool : StrictEq bool := {| veq := Bool.eqb; veq_sym v w := ltac:(by destruct v, w) |}.

(** ** Set *)

Section Set_.
Context {K : Type} `{HK : HashKey K}.

Record imset : Type := ImSet { s_size : Z; s_map : immap K bool }.

(** [hn] and [vn]: makeSet, emptySet *)
Definition hn (e : immap K bool) : imset := ImSet (size e) e.
Definition vn : imset := hn Xe.

(** [dn]: updateSet; the set itself for a map that did not change. *)
Definition dn (t : immap K bool) : imset := if size t =? 0 then vn else hn t.

Definition s_has (s : imset) (e : K) : js bool := has (s_map s) e.
Definition s_add (s : imset) (e : K) : option imset := option_map dn (set (s_map s) e true).
Definition s_remove (s : imset) (e : K) : option imset := option_map dn (remove (s_map s) e).
Definition s_clear (s : imset) : imset := dn (if size (s_map s) =? 0 then s_map s else Xe).

(** [__iterate]: the values, as values and as keys *)
Definition s_iterate {S} (s : imset) (e : K -> K -> S -> S * bool) (t : bool) (st : S) : S * Z :=
  __iterate (s_map s) (fun _ r st => e r r st) t st.

(** A value passed to the operations: a set, or values in order. *)
Inductive iterable : Type := SetIter (s : imset) | Values (l : list K).

Definition it_size (i : iterable) : Z := match i with SetIter s => s_size s | Values l => Z.of_nat (length l) end.
Definition it_each {S} (i : iterable) (f : K -> S -> S) (st : S) : S :=
  match i with
  | SetIter s => fst (s_iterate s (fun v _ st => (f v st, false)) false st)
  | Values l => fold_left (fun st v => f v st) l st
  end.
Definition it_includes (i : iterable) (k : K) : js bool :=
  match i with SetIter s => s_has s k | Values l => Ok (existsb (fun v => is_ v k) l) end.

(** The mutable set of [withMutations] is its map. *)
Definition add_to (v : K) (m : option (immap K bool)) : option (immap K bool) := match m with Some m => set m v true | None => None end.
Definition remove_from (v : K) (m : option (immap K bool)) : option (immap K bool) := match m with Some m => remove m v | None => None end.

(** [sn]: the constructor *)
Definition sn (e : iterable) : option imset :=
  match e with
  | SetIter s => Some s
  | Values l => option_map hn (it_each e add_to (Some Xe))
  end.

Definition union (s : imset) (t : list iterable) : option imset :=
  let t := List.filter (fun e => negb (it_size e =? 0)) t in
  match t with
  | [] => Some s
  | t0 :: _ =>
      if negb (s_size s =? 0) || negb (Z.of_nat (length t) =? 1)
      then option_map hn (fold_left (fun e i => it_each i add_to e) t (Some (s_map s)))
      else sn t0
  end.

(** [every] and [some] of the iterables that include a value *)
Fixpoint all_include (t : list iterable) (n : K) : js bool :=
  match t with
  | [] => Ok true
  | e :: t => match it_includes e n with Ok true => all_include t n | r => r end
  end.

Fixpoint some_include (t : list iterable) (n : K) : js bool :=
  match t with
  | [] => Ok false
  | e :: t => match it_includes e n with Ok false => some_include t n | r => r end
  end.

Definition intersect (s : imset) (t : list iterable) : option imset :=
  match t with
  | [] => Some s
  | _ =>
      option_map hn (it_each (SetIter s) (fun n e =>
        match all_include t n with Ok true => e | Ok false => remove_from n e | Throw _ => None end) (Some (s_map s)))
  end.

Definition subtract (s : imset) (t : list iterable) : option imset :=
  match t with
  | [] => Some s
  | _ =>
      option_map hn (it_each (SetIter s) (fun n e =>
        match some_include t n with Ok true => remove_from n e | Ok false => e | Throw _ => None end) (Some (s_map s)))
  end.

(** ** Facts *)

Definition wf_set (s : imset) : Prop := wf_map (s_map s) /\ s_size s = size (s_map s).

(** Membership *)
Definition memb (m : immap K bool) (k : K) : bool := match lookup_in m k with Some _ => true | None => false end.
Definition mem (s : imset) (k : K) : bool := memb (s_map s) k.
Definition it_mem (i : iterable) (k : K) : bool := match i with SetIter s => mem s k | Values l => existsb (is_ k) l end.
Definition wf_iter (i : iterable) : Prop := match i with SetIter s => wf_set s | Values _ => True end.

Lemma has_memb m k : wf_map m -> has m k = Ok (memb m k).
Proof. intros Hm. unfold has, memb. rewrite get_lookup by done. cbn. by destruct (lookup_in m k). Qed.

Lemma set_memb m e : wf_map m ->
  exists m', set m e true = Some m' /\ wf_map m' /\ forall k, memb m' k = is_ k e || memb m k.
Proof.
  intros Hm. destruct (Qe_lookup m e (Some true) Hm) as (m' & Hq & Hm' & Hl & _). exists m'. split; [done|]. split; [done|].
  intros k. specialize (Hl k). unfold memb. destruct (is_ k e); [by destruct (lookup_in m' k)|]. by rewrite Hl.
Qed.

Lemma remove_memb m e : wf_map m ->
  exists m', remove m e = Some m' /\ wf_map m' /\ forall k, memb m' k = negb (is_ k e) && memb m k.
Proof.
  intros Hm. destruct (Qe_lookup m e None Hm) as (m' & Hq & Hm' & Hl & _). exists m'. split; [done|]. split; [done|].
  intros k. specialize (Hl k). unfold memb. destruct (is_ k e); [by destruct (lookup_in m' k)|]. by rewrite Hl.
Qed.

Lemma wf_Xe : wf_map (Xe : immap K bool).
Proof. done. Qed.

Lemma memb_empty k : memb Xe k = false.
Proof. done. Qed.

Lemma dn_wf m : wf_map m -> wf_set (dn m) /\ forall k, mem (dn m) k = memb m k.
Proof.
  intros Hm. unfold dn. destruct (Z.eqb_spec (size m) 0) as [H|]; [|done]. split; [done|]. intros k. unfold memb.
  by rewrite size_0_lookup.
Qed.

Lemma is_swap (k v : K) (l : list K) : existsb (fun v => is_ v k) l = existsb (is_ k) l.
Proof. induction l as [|x l IH]; cbn; [done|]. by rewrite IH, is_sym. Qed.

Lemma it_each_values {S} (i : iterable) (f : K -> S -> S) st :
  it_each i f st = fold_left (fun st v => f v st) (match i with SetIter s => map fst (entries (s_map s)) | Values l => l end) st.
Proof.
  destruct i as [s|l]; [|done]. cbn. unfold s_iterate. rewrite (iterate_fold (s_map s) (fun en st => f en.1 st)).
  generalize (entries (s_map s)). intros es. revert st. induction es as [|x es IH]; intros st; cbn; [done|]. apply IH.
Qed.

Lemma entries_memb m k : wf_map m -> existsb (is_ k) (map fst (entries m)) = memb m k.
Proof.
  intros Hm. unfold memb, lookup_in, assoc. induction (entries m) as [|e es IH]; cbn; [done|].
  by destruct (is_ k e.1).
Qed.

Lemma add_all l : forall m, wf_map m ->
  exists m', fold_left (fun e v => add_to v e) l (Some m) = Some m' /\ wf_map m' /\ forall k, memb m' k = memb m k || existsb (is_ k) l.
Proof.
  induction l as [|v l IH]; intros m Hm; cbn.
  - exists m. split; [done|]. split; [done|]. intros k. by rewrite orb_false_r.
  - destruct (set_memb m v Hm) as (m1 & -> & Hm1 & H1). destruct (IH m1 Hm1) as (m' & Hf & Hm' & H). exists m'. split; [done|].
    split; [done|]. intros k. rewrite H, H1. by destruct (is_ k v), (memb m k).
Qed.

Lemma it_values_mem i k : wf_iter i ->
  existsb (is_ k) (match i with SetIter s => map fst (entries (s_map s)) | Values l => l end) = it_mem i k.
Proof. intros Hi. destruct i as [s|l]; [|done]. by apply entries_memb, Hi. Qed.

Lemma add_iterables t : forall m, Forall wf_iter t -> wf_map m ->
  exists m', fold_left (fun e i => it_each i add_to e) t (Some m) = Some m' /\ wf_map m'
    /\ forall k, memb m' k = memb m k || existsb (fun i => it_mem i k) t.
Proof.
  induction t as [|i t IH]; intros m Ht Hm; cbn.
  - exists m. split; [done|]. split; [done|]. intros k. by rewrite orb_false_r.
  - apply Forall_cons in Ht as [Hi Ht]. rewrite it_each_values. destruct (add_all (match i with SetIter s => map fst (entries (s_map s)) | Values l => l end) m Hm) as (m1 & -> & Hm1 & H1).
    destruct (IH m1 Ht Hm1) as (m' & -> & Hm' & H). exists m'. split; [done|]. split; [done|]. intros k.
    by rewrite H, H1, it_values_mem, orb_assoc by done.
Qed.

Lemma it_empty i k : wf_iter i -> it_size i = 0 -> it_mem i k = false.
Proof.
  destruct i as [s|l]; cbn.
  - intros [Hm Hs] H. unfold mem, memb. by rewrite size_0_lookup by (done || lia).
  - intros _ H. destruct l; [done|]. cbn in H. lia.
Qed.

Lemma filter_mem t k : Forall wf_iter t ->
  existsb (fun i => it_mem i k) (List.filter (fun e => negb (it_size e =? 0)) t) = existsb (fun i => it_mem i k) t.
Proof.
  induction 1 as [|i t Hi Ht IH]; cbn; [done|]. destruct (Z.eqb_spec (it_size i) 0) as [H|]; cbn; rewrite IH; [|done].
  by rewrite (it_empty i k Hi H).
Qed.

Lemma sn_mem i : wf_iter i -> exists s, sn i = Some s /\ wf_set s /\ forall k, mem s k = it_mem i k.
Proof.
  destruct i as [s|l]; intros Hi; [by exists s|]. cbn. destruct (add_all l Xe wf_Xe) as (m & Hf & Hm & H). rewrite Hf.
  exists (hn m). split; [done|]. split; [done|]. intros k. exact (H k).
Qed.

Lemma union_mem s t : wf_set s -> Forall wf_iter t ->
  exists s', union s t = Some s' /\ wf_set s' /\ forall k, mem s' k = mem s k || existsb (fun i => it_mem i k) t.
Proof.
  intros [Hm Hs] Ht. unfold union. pose proof (fun k => filter_mem t k Ht) as Hk.
  assert (Forall wf_iter (List.filter (fun e => negb (it_size e =? 0)) t)) as Hf.
  { rewrite Forall_forall in *. intros i Hi. apply Ht, list_elem_of_In. apply list_elem_of_In, filter_In in Hi. apply Hi. }
  destruct (List.filter _ t) as [|t0 tl] eqn:E.
  { exists s. split; [done|]. split; [done|]. intros k. rewrite <- Hk. cbn. by rewrite orb_false_r. }
  destruct (negb (s_size s =? 0) || _) eqn:Ec.
  - destruct (add_iterables (t0 :: tl) (s_map s) Hf Hm) as (m' & -> & Hm' & H). exists (hn m'). split; [done|]. split; [done|].
    intros k. rewrite <- Hk. exact (H k).
  - apply orb_false_iff in Ec as [E1 E2]. apply negb_false_iff, Z.eqb_eq in E1, E2. cbn in E2. destruct tl; [|cbn in E2; lia].
    apply Forall_cons in Hf as [Hi _]. destruct (sn_mem t0 Hi) as (s' & Hs' & Hw & H). exists s'. split; [done|]. split; [done|].
    intros k. rewrite H, <- Hk. cbn. rewrite orb_false_r. unfold mem, memb. by rewrite (size_0_lookup (s_map s)) by (done || lia).
Qed.

Lemma includes_mem i k : wf_iter i -> it_includes i k = Ok (it_mem i k).
Proof. destruct i as [s|l]; intros Hi; cbn; [by apply has_memb, Hi|]. by rewrite (is_swap k k). Qed.

Lemma all_include_ok t k : Forall wf_iter t -> all_include t k = Ok (forallb (fun i => it_mem i k) t).
Proof. induction 1 as [|i t Hi _ IH]; cbn; [done|]. rewrite includes_mem by done. by destruct (it_mem i k). Qed.

Lemma some_include_ok t k : Forall wf_iter t -> some_include t k = Ok (existsb (fun i => it_mem i k) t).
Proof. induction 1 as [|i t Hi _ IH]; cbn; [done|]. rewrite includes_mem by done. by destruct (it_mem i k). Qed.

(** Removing the members a test selects. *)
Lemma remove_selected (p : K -> bool) l : forall m, wf_map m ->
  exists m', fold_left (fun e v => if p v then remove_from v e else e) l (Some m) = Some m' /\ wf_map m'
    /\ forall k, memb m' k = memb m k && negb (existsb (fun v => is_ k v && p v) l).
Proof.
  induction l as [|v l IH]; intros m Hm; cbn.
  - exists m. split; [done|]. split; [done|]. intros k. by rewrite andb_true_r.
  - destruct (p v).
    + destruct (remove_memb m v Hm) as (m1 & -> & Hm1 & H1). destruct (IH m1 Hm1) as (m' & -> & Hm' & H). exists m'. split; [done|].
      split; [done|]. intros k. rewrite H, H1. by destruct (is_ k v), (memb m k).
    + destruct (IH m Hm) as (m' & -> & Hm' & H). exists m'. split; [done|]. split; [done|]. intros k. rewrite H. by destruct (is_ k v).
Qed.

(** The test does not tell equal keys apart. *)
Lemma remove_members (p : K -> bool) m : wf_map m -> (forall k k', is_ k k' = true -> p k = p k') ->
  exists m', fold_left (fun e v => if p v then remove_from v e else e) (map fst (entries m)) (Some m) = Some m' /\ wf_map m'
    /\ forall k, memb m' k = memb m k && negb (p k).
Proof.
  intros Hm Hp. destruct (remove_selected p (map fst (entries m)) m Hm) as (m' & Hf & Hm' & H). exists m'. split; [done|].
  split; [done|]. intros k. rewrite H, <- (entries_memb m k Hm). generalize (map fst (entries m)) as l. clear -Hp.
  induction l as [|v l IH]; cbn; [done|]. destruct (is_ k v) eqn:E; cbn; [|done]. rewrite <- (Hp k v E). destruct (p k) eqn:Ep; [done|].
  cbn. clear IH. induction l as [|w l IH]; cbn; [done|]. destruct (is_ k w) eqn:Ew; cbn; [|done]. by rewrite <- (Hp k w Ew), Ep.
Qed.

Lemma it_mem_is i k k' : is_ k k' = true -> it_mem i k = it_mem i k'.
Proof.
  intros Hk. destruct i as [s|l]; cbn.
  - unfold mem, memb, lookup_in. by rewrite (assoc_is _ _ _ Hk).
  - induction l as [|v l IH]; cbn; [done|]. rewrite IH. f_equal.
    destruct (is_ k' v) eqn:E; [by eapply is_trans|by eapply is_false_trans].
Qed.

Lemma fold_same {A B} (f g : A -> B -> A) l : (forall a b, f a b = g a b) -> forall a, fold_left f l a = fold_left g l a.
Proof. intros H. induction l as [|b l IH]; intros a; cbn; [done|]. by rewrite H, IH. Qed.

Lemma intersect_mem s i t : wf_set s -> Forall wf_iter (i :: t) ->
  exists s', intersect s (i :: t) = Some s' /\ wf_set s' /\ forall k, mem s' k = mem s k && forallb (fun i => it_mem i k) (i :: t).
Proof.
  intros [Hm _] Ht. unfold intersect. rewrite it_each_values.
  destruct (remove_members (fun k => negb (forallb (fun i => it_mem i k) (i :: t))) (s_map s) Hm) as (m' & Hf & Hm' & Hk).
  { clear. intros k k' Hkk. f_equal. induction (i :: t) as [|j l IH]; cbn; [done|]. by rewrite (it_mem_is j k k' Hkk), IH. }
  rewrite (fold_same _ (fun e v => if negb (forallb (fun i => it_mem i v) (i :: t)) then remove_from v e else e)), Hf.
  - exists (hn m'). split; [done|]. split; [done|]. intros k. unfold mem at 1. cbn [s_map hn]. by rewrite Hk, negb_involutive.
  - intros x v. rewrite all_include_ok by done. by destruct (forallb _ _).
Qed.

Lemma subtract_mem s i t : wf_set s -> Forall wf_iter (i :: t) ->
  exists s', subtract s (i :: t) = Some s' /\ wf_set s' /\ forall k, mem s' k = mem s k && negb (existsb (fun i => it_mem i k) (i :: t)).
Proof.
  intros [Hm _] Ht. unfold subtract. rewrite it_each_values.
  destruct (remove_members (fun k => existsb (fun i => it_mem i k) (i :: t)) (s_map s) Hm) as (m' & Hf & Hm' & Hk).
  { clear. intros k k' Hkk. induction (i :: t) as [|j l IH]; cbn; [done|]. by rewrite (it_mem_is j k k' Hkk), IH. }
  rewrite (fold_same _ (fun e v => if existsb (fun i => it_mem i v) (i :: t) then remove_from v e else e)), Hf.
  - exists (hn m'). split; [done|]. split; [done|]. intros k. exact (Hk k).
  - intros x v. rewrite some_include_ok by done. by destruct (existsb _ _).
Qed.
End Set_.

(** ** The theorem *)

(** On well-formed sets every operation returns a well-formed set, and its
    members are those of the set operation it is named after: [add], [remove],
    [clear], [union] with any number of iterables, [intersect] and [subtract]
    with at least one; [has] decides membership, and the size is the number of
    the values, which are the distinct ones an iteration gives. *)
Theorem set_operations {K} `{HashKey K} (s : imset) (e : K) (i : iterable) (t : list iterable) :
  wf_set s -> Forall wf_iter (i :: t) ->
  (exists s', s_add s e = Some s' /\ wf_set s' /\ forall k, mem s' k = is_ k e || mem s k)
  /\ (exists s', s_remove s e = Some s' /\ wf_set s' /\ forall k, mem s' k = negb (is_ k e) && mem s k)
  /\ (exists s', union s (i :: t) = Some s' /\ wf_set s' /\ forall k, mem s' k = mem s k || existsb (fun i => it_mem i k) (i :: t))
  /\ (exists s', intersect s (i :: t) = Some s' /\ wf_set s' /\ forall k, mem s' k = mem s k && forallb (fun i => it_mem i k) (i :: t))
  /\ (exists s', subtract s (i :: t) = Some s' /\ wf_set s' /\ forall k, mem s' k = mem s k && negb (existsb (fun i => it_mem i k) (i :: t)))
  /\ (wf_set (s_clear s) /\ forall k, mem (s_clear s) k = false)
  /\ s_has s e = Ok (mem s e)
  /\ s_size s = Z.of_nat (length (entries (s_map s))) /\ distinct (entries (s_map s)).
Proof.
  intros Hs Ht. pose proof Hs as [Hm Hsz].
  split. { destruct (set_memb _ e Hm) as (m' & Hq & Hm' & Hk). exists (dn m'). unfold s_add. rewrite Hq. destruct (dn_wf m' Hm') as [Hw Hd].
    split; [done|]. split; [done|]. intros k. by rewrite Hd, Hk. }
  split. { destruct (remove_memb _ e Hm) as (m' & Hq & Hm' & Hk). exists (dn m'). unfold s_remove. rewrite Hq. destruct (dn_wf m' Hm') as [Hw Hd].
    split; [done|]. split; [done|]. intros k. by rewrite Hd, Hk. }
  split; [by apply union_mem|].
  split; [by apply intersect_mem|]. split; [by apply subtract_mem|].
  split. { unfold s_clear. destruct (Z.eqb_spec (size (s_map s)) 0) as [E|]; [|by split].
    destruct (dn_wf _ Hm) as [Hw Hd]. split; [done|]. intros k. rewrite Hd. unfold memb. by rewrite size_0_lookup. }
  split; [by apply has_memb|]. split; [|by apply wf_map_distinct]. rewrite Hsz. apply Hm.
Qed.

#[local] Instance value_keys : HashKey value := value_key (fun r => Z.of_nat r + 1).

Lemma set_operations_witness :
  exists s' : imset, union vn [Values [Str [97]; Str [98]; Str [97]]; SetIter vn] = Some s' /\ mem s' (Str [98]) = true.
Proof.
  destruct (set_operations (vn (K := value)) (Str [99]) (Values [Str [97]; Str [98]; Str [97]]) [SetIter vn])
    as (_ & _ & (s' & Hu & _ & Hk) & _); [done|repeat constructor|].
  exists s'. split; [exact Hu|]. rewrite Hk. reflexivity.
Defined.
