(* ===== verification/ImStack.v ===== *)
(** * Immutable: stacks

    [Stack] of module 7 of swagger-ui-bundle.js, a linked list with its length,
    as an immutable value.  The objects [{value, next}] linked from [_head] are
    a list. *)

From S2P Require Import Prelude ImSeq ImSeqFacts ImSeqSpec ImIter ImIterFacts.
Local Open Scope Z_scope.

Section Stack.
Context {V : Type}.

(** [An]: makeStack, [On]: emptyStack *)
Record stack : Type := An { k_size : Z; _head : list V }.
Definition On : stack := An 0 [].

(** [n && e--] goes down the list. *)
Fixpoint walk (n : list V) (e : Z) : list V :=
  match n with
  | [] => []
  | _ :: next => if e =? 0 then n else walk next (e - 1)
  end.

(** [__iterate] forwards *)
Fixpoint stack_loop {S} (e : V -> Z -> S -> S * bool) (r : list V) (n : Z) (s : S) : S * Z :=
  match r with
  | [] => (s, n)
  | v :: r => let '(s, stop) := e v n s in if stop then (s, n + 1) else stack_loop e r (n + 1) s
  end.

(** [pushAll]: the values of a sequence, its first one on top. *)
Definition pushAll (s : stack) (e : iter Z V) : stack :=
  match isize e with
  | Some 0 => s
  | _ =>
      let '((t, n), _) := iterate (Ft e) (fun v _ '(t, n) => ((t + 1, v :: n), false)) false (k_size s, _head s) in
      An t n
  end.

(** The stack as a sequence.  Backwards it is reversed first: [reverse()] makes
    a stack of [Ft(this)], whose own [reverse] is the stack itself. *)
Definition stack_reverse (s : stack) : stack :=
  match k_size s with
  | 0 => On
  | _ => let '((t, n), _) := stack_loop (fun v _ '(t, n) => ((t + 1, v :: n), false)) (_head s) 0 (0, []) in An t n
  end.

Definition stack_seq (s : stack) : iter Z V :=
  Iter (Some (k_size s)) (fun S e t st => stack_loop e (_head (if t then stack_reverse s else s)) 0 st).

Definition stack_iterator (s : stack) : itr Z V := fun e t =>
  U (list V * Z) (_head (if t then stack_reverse s else s), 0) (fun _ '(r, n) =>
    match r with v :: r => (Yield (q_value e n v), (r, n + 1)) | [] => (Done, (r, n)) end).

Definition stack_get (s : stack) (e : Z) (t : option V) : option V :=
  match walk (_head s) (k_ (stack_seq s) e) with v :: _ => Some v | [] => t end.

Definition peek (s : stack) : option V := match _head s with v :: _ => Some v | [] => None end.

Definition push (s : stack) (arguments : list V) : stack :=
  match arguments with
  | [] => s
  | _ => An (k_size s + Z.of_nat (length arguments)) (fold_right (fun v t => v :: t) (_head s) arguments)
  end.

(** [for (...; n--;) o = o.next] *)
Fixpoint next_times (n : nat) (o : list V) : list V :=
  match n with O => o | S n => next_times n (match o with _ :: o => o | [] => [] end) end.

(** [slice]: an end before the bottom is left to the slice of sequences. *)
Definition stack_slice (s : stack) (e t : option Z) : stack :=
  if O_whole e t (Some (k_size s)) then s
  else
    match P_begin e (Some (k_size s)), T_end t (Some (k_size s)) with
    | Num n, Num m =>
        if m =? k_size s then An (k_size s - n) (next_times (Z.to_nat n) (_head s))
        else pushAll On (Bt indexed (stack_seq s) e t)
    | _, _ => s
    end.

Definition pop (s : stack) : stack := stack_slice s (Some 1) None.
Definition stack_clear (s : stack) : stack := if k_size s =? 0 then s else On.

(** ** Facts *)

(** The stack that holds these values, the first one on top. *)
Definition of_list (l : list V) : stack := An (Z.of_nat (length l)) l.

Lemma walk_drop n : forall e, 0 <= e -> walk n e = drop (Z.to_nat e) n.
Proof.
  induction n as [|v n IH]; intros e He; cbn; [by rewrite drop_nil|]. destruct (Z.eqb_spec e 0) as [->|]; [done|].
  rewrite IH by lia. by replace (Z.to_nat e) with (S (Z.to_nat (e - 1))) by lia.
Qed.

Lemma walk_negative n : forall e, e < 0 -> walk n e = [].
Proof. induction n as [|v n IH]; intros e He; cbn; [done|]. destruct (Z.eqb_spec e 0); [lia|]. apply IH. lia. Qed.

Lemma stack_loop_run {S} (e : V -> Z -> S -> S * bool) r : forall n s,
  stack_loop e r n s = (let '(s', c) := run e (rekey indexed n (map (fun v => (tt, v)) r)) s in (s', n + c)).
Proof.
  induction r as [|v r IH]; intros n s; cbn [stack_loop map rekey]; [cbn; by rewrite Z.add_0_r|].
  rewrite run_cons. change (indexed tt n) with n. destruct (e v n s) as [s' []]; [done|]. rewrite IH.
  destruct (run e _ s'). f_equal. lia.
Qed.

Lemma push_loop (l : list V) : forall t n (c : Z),
  fst (run (fun v (_ : Z) '(t, n) => ((t + 1, v :: n), false)) (rekey indexed c (map (fun v => (tt, v)) l)) (t, n)) = (t + Z.of_nat (length l), rev l ++ n).
Proof.
  induction l as [|v l IH]; intros t n c; cbn [map rekey length rev]; [cbn; by rewrite Z.add_0_r|].
  rewrite run_cons. cbv beta iota. specialize (IH (t + 1) (v :: n) (c + 1)). destruct (run _ _ (t + 1, v :: n)) as [x d].
  cbn [fst] in *. rewrite IH, <- app_assoc. cbn [app]. f_equal. lia.
Qed.

Lemma stack_reverse_list l : stack_reverse (of_list l) = of_list (rev l).
Proof.
  unfold stack_reverse. cbn [k_size of_list _head]. destruct l as [|v l]; [done|].
  rewrite stack_loop_run. pose proof (push_loop (v :: l) 0 [] 0) as H. destruct (run _ _ (0, [])) as [[t n] c]. cbn [fst] in H.
  injection H as -> ->. cbn [Z.of_nat length]. unfold of_list. rewrite app_nil_r, length_rev. done.
Qed.

Lemma stack_repr l : repr (stack_seq (of_list l)) (number l) (number (rev l)) /\ sized (stack_seq (of_list l)) (number l).
Proof.
  split.
  - intros S f s. unfold stack_seq. cbn [iterate]. rewrite stack_reverse_list. rewrite !stack_loop_run. unfold number.
    cbn [_head of_list]. split; by destruct (run f _ s).
  - right. cbn. unfold number. by rewrite rekey_length, length_map.
Qed.

Lemma stack_seq_of l : seq_of indexed (stack_seq (of_list l)) (number l).
Proof.
  destruct (stack_repr l) as [Hr Hs]. split; [|done|by rewrite rekey_indexed, number_values].
  by rewrite rekey_indexed, map_rev, number_values.
Qed.

Lemma stack_itr l : itr_of (stack_iterator (of_list l)) (number l) (number (rev l)).
Proof.
  intros t. rewrite <- !mapi_number.
  assert (forall b r, (_head (if b : bool then stack_reverse (of_list l) else of_list l)) = r ->
    yields (stack_iterator (of_list l) t b) (mapi (fun o x => q_value t o x) 0 r)) as H.
  2: { split; apply H; [done|by rewrite stack_reverse_list]. }
  intros b r Hr. apply (array_yields (stack_iterator (of_list l) t b) (fun s => s.2) (fun s => 0 <= s.2 -> s.1 = drop (Z.to_nat s.2) r)); [..|done]; cbn [inext stack_iterator istart fst snd].
  - intros _ [d o] x Hd Ho Hx. cbn [fst snd] in *. specialize (Hd Ho). rewrite Hd, (drop_S _ _ _ Hx). eexists. split; [done|].
    cbn. split; [done|]. intros _. by replace (Z.to_nat (o + 1)) with (S (Z.to_nat o)) by lia.
  - intros _ [d o] Hd Ho Hx. cbn [fst snd] in *. rewrite (Hd Ho). apply lookup_ge_None in Hx. rewrite drop_ge by done. eexists.
    split; [done|]. cbn. rewrite drop_ge by done. split; [lia|done].
  - intros _. by rewrite drop_0.
Qed.

Lemma pushAll_list l e vs : seq_of indexed e (number vs) -> pushAll (of_list l) e = of_list (vs ++ l).
Proof.
  intros He. destruct He as [Hr Hs Hk]. unfold pushAll.
  assert (length (number vs) = length vs) as Hlen by apply number_length.
  assert ((let '((t, n), _) := iterate (Ft e) (fun v _ '(t, n) => ((t + 1, v :: n), false)) false (k_size (of_list l), _head (of_list l)) in An t n)
          = of_list (vs ++ l)) as H.
  { unfold Ft. cbn [iterate negb].
    match goal with |- context [iterate e ?g true ?x] => destruct (Hr _ g x) as [_ ->] end.
    rewrite rekey_indexed, map_rev, number_values. pose proof (push_loop (rev vs) (k_size (of_list l)) (_head (of_list l)) 0) as H.
    fold (number (rev vs)) in H. destruct (run _ (number (rev vs)) _) as [[t n] c]. cbn [fst] in H. injection H as -> ->.
    unfold of_list. cbn [k_size _head]. rewrite rev_involutive, length_rev, length_app. f_equal. lia. }
  destruct Hs as [Hs|Hs]; rewrite Hs, ?Hlen; [done|]. destruct vs as [|v vs]; [done|]. exact H.
Qed.

Lemma next_times_drop n : forall o, next_times n o = drop n o.
Proof. induction n as [|n IH]; intros [|v o]; cbn; try done; by rewrite IH, ?drop_nil. Qed.

Lemma slice_number e t (l : list V) : map snd (slice_list e t (number l)) = slice_list e t l.
Proof.
  unfold slice_list. rewrite number_length. change (map snd) with (fmap (M := list) (snd (A := Z) (B := V))).
  rewrite fmap_take, fmap_drop. change (fmap snd (number l)) with (map snd (number l)). by rewrite number_values.
Qed.

Lemma stack_slice_list l e t : (forall x, e = Some x \/ t = Some x -> isInt32 x) ->
  stack_slice (of_list l) e t = of_list (slice_list e t l).
Proof.
  intros Hi. unfold stack_slice. cbn [k_size of_list]. set (o := Z.of_nat (length l)).
  destruct (O_whole e t (Some o)) eqn:Hw; [by rewrite (slice_whole e t l (Some o)) by (by right || done)|].
  assert (forall x d, M_resolve x (Some o) (Some d) = Num (slice_bound d x o)) as Hres.
  { intros [x|] d; cbn; [by destruct (x <? 0)|done]. }
  unfold P_begin, T_end. rewrite !Hres. destruct (Z.eqb_spec (slice_bound o t o) o) as [Hend|].
  - unfold of_list, slice_list. fold o. rewrite Hend, next_times_drop. cbn [_head].
    assert (0 <= slice_bound 0 e o <= o) by (destruct e as [x|]; cbn; [destruct (Z.ltb_spec x 0)|]; lia).
    rewrite take_ge by (rewrite length_drop; lia). f_equal. rewrite length_drop. lia.
  - change (Z.of_nat (length l)) with (k_size (of_list l)). fold o.
    assert (option_map i32 e = e /\ option_map i32 t = t) as [He Ht].
    { destruct e as [x|], t as [y|]; cbn; rewrite ?i32_id by auto; done. }
    pose proof (Bt_seq indexed _ _ e t indexed_stable (stack_seq_of l)) as Hb. rewrite He, Ht, rekey_indexed, slice_number in Hb.
    change On with (of_list []). rewrite (pushAll_list [] _ _ Hb). by rewrite app_nil_r.
Qed.
End Stack.
Arguments stack : clear implicits.

(** A stack is a list whose first value is on top: [get], with indices from
    either end, [peek], [push], [pushAll] of a sequence, [pop], [slice] and
    [clear] are the operations of the list, and both ways to go over it, in both
    directions, give the values of the list. *)
Theorem stack_correct {V} (l args vs : list V) (i : Z) (d : option V) (e : iter Z V) (from to : option Z) :
  seq_of indexed e (number vs) -> (forall x, from = Some x \/ to = Some x -> isInt32 x) ->
  stack_get (of_list l) i d = (let i := if i <? 0 then Z.of_nat (length l) + i else i in
                               match (if i <? 0 then None else l !! Z.to_nat i) with Some v => Some v | None => d end)
  /\ peek (of_list l) = head l
  /\ push (of_list l) args = of_list (args ++ l)
  /\ pushAll (of_list l) e = of_list (vs ++ l)
  /\ pop (of_list l) = of_list (tail l)
  /\ stack_slice (of_list l) from to = of_list (slice_list from to l)
  /\ stack_clear (of_list l) = of_list []
  /\ repr (stack_seq (of_list l)) (number l) (number (rev l))
  /\ itr_of (stack_iterator (of_list l)) (number l) (number (rev l)).
Proof.
  intros He Hi. split. { unfold stack_get, k_, C_size. cbn [isize stack_seq k_size of_list _head].
    set (j := if i <? 0 then _ else _). cbv zeta. destruct (Z.ltb_spec j 0); [by rewrite walk_negative|]. rewrite walk_drop by done.
    rewrite <- (Nat.add_0_r (Z.to_nat j)), <- lookup_drop, Nat.add_0_r. by destruct (drop (Z.to_nat j) l). }
  split; [by destruct l|]. split. { unfold push. destruct args as [|a args]; [done|]. unfold of_list. cbn [k_size _head].
    rewrite length_app. replace (fold_right _ _ _) with ((a :: args) ++ l) by (clear; induction (a :: args) as [|x r IH]; cbn; [done|by rewrite <- IH]).
    f_equal. lia. }
  split; [by apply pushAll_list|]. split.
  { unfold pop. rewrite stack_slice_list by (intros x [[= <-]|?]; [by apply i32_range with (z := 1)|done]).
    f_equal. unfold slice_list, slice_bound. destruct l as [|v l]; [done|]. cbn [length tail].
    destruct (Z.ltb_spec 1 0); [lia|]. replace (Z.min _ 1) with 1 by lia. change (Z.to_nat 1) with 1%nat. cbn [drop].
    apply take_ge. lia. }
  split; [by apply stack_slice_list|]. split; [by destruct l|]. split; [apply stack_repr|apply stack_itr].
Qed.

Lemma stack_correct_witness : stack_slice (of_list [5; 6; 7]) (Some (-2)) None = of_list [6; 7].
Proof.
  destruct (stack_correct [5; 6; 7] [] [] 0 None (ee []) (Some (-2)) None) as (_ & _ & _ & _ & _ & H & _).
  - destruct (ee_repr (@nil Z)) as [Hr Hs]. split; [exact Hr|exact Hs|reflexivity].
  - intros x [[= <-]|?]; [unfold isInt32; lia|done].
  - rewrite H. reflexivity.
Defined.
