(* ===== verification/ImList.v ===== *)
(** * Immutable: lists

    [List] of module 7 of swagger-ui-bundle.js: a vector in a tree of nodes with
    32 children, with a tail node, between two absolute positions, [_origin] and
    [_capacity].  A cell of an array is undefined, a value, or a node; a node is
    its array; a root, tail or child that is null or undefined is [None], and
    reading through it gives [Undef].  Functions that may return the node they were
    called on return [None] then ([c === l] of the program compares references).
    Lists are values here: the methods that call [withMutations] only grow the copy
    it makes and set elements of it, so no node they edit in place is shared. *)

From stdpp Require Import list.
From S2P Require Import Prelude ImSeq.
Local Open Scope Z_scope.
Local Open Scope js_scope.

Inductive cell (V : Type) : Type := Undef | Val (v : V) | Nd (array : list (cell V)).
Arguments Undef {V}.
Arguments Val {V} v.
Arguments Nd {V} array.

(** [v], [m] and [g]: SHIFT, SIZE and MASK *)
Definition SHIFT : Z := 5.
Definition SIZE : Z := 32.
Definition MASK : Z := 31.

Section List.
Context {V : Type} (strict : V -> V -> bool).

Notation node := (list (cell V)).

(** The elements of an array: reading outside gives undefined, writing there makes
    the array longer. *)
Definition get_at (a : node) (i : Z) : cell V := if i <? 0 then Undef else default Undef (a !! Z.to_nat i).
Definition set_at (a : node) (i : Z) (x : cell V) : node := <[Z.to_nat i := x]> (a ++ replicate (S (Z.to_nat i) - length a) Undef).
Definition len (a : node) : Z := Z.of_nat (length a).

(** [c && c.array] *)
Definition as_node (c : cell V) : option node := match c with Nd a => Some a | _ => None end.
Definition child (a : option node) (i : Z) : option node := match a with Some a => as_node (get_at a i) | None => None end.
Definition of_node (a : option node) : cell V := match a with Some a => Nd a | None => Undef end.

Record ilist : Type := IList { size : Z; _origin : Z; _capacity : Z; _level : Z; _root : option node; _tail : option node }.

(** [wt]: makeList *)
Definition makeList (origin capacity level : Z) (root tail : option node) : ilist := IList (capacity - origin) origin capacity level root tail.

(** [Et]: emptyList *)
Definition emptyList : ilist := makeList 0 0 SHIFT None None.

Definition clear (l : ilist) : ilist := if size l =? 0 then l else emptyList.

(** [Ot]: getTailOffset *)
Definition getTailOffset (size : Z) : Z := if size <? SIZE then 0 else ((size - 1) >>>. SHIFT) <<. SHIFT.

(** The digit of [index] at a level *)
Definition digit (index level : Z) : Z := (index >>>. level) .& MASK.

(** [Ct]: listNodeFor *)
Fixpoint node_for_loop (fuel : nat) (n : option node) (level index : Z) : option node :=
  match fuel, n with
  | S fuel, Some _ => if 0 <? level then node_for_loop fuel (child n (digit index level)) (level - SHIFT) index else n
  | _, _ => n
  end.
Definition listNodeFor (l : ilist) (index : Z) : option node :=
  if getTailOffset (_capacity l) <=? index then _tail l
  else if index <? (1 <<. (_level l + SHIFT)) then node_for_loop (Z.to_nat (_level l)) (_root l) (_level l) index
  else None.

(** [k]: wrapIndex, of a number *)
Definition wrapIndex (l : ilist) (index : Z) : Z := if index <? 0 then size l + index else index.

(** [pt.prototype.get], of an index that is a number *)
Definition get (l : ilist) (index : Z) (notSetValue : cell V) : cell V :=
  let index := wrapIndex l index in
  if (0 <=? index) && (index <? size l) then
    let index := index + _origin l in
    match listNodeFor l index with Some a => get_at a (index .& MASK) | None => Undef end
  else notSetValue.

(** [===] on cells that hold values *)
Definition same (x y : cell V) : bool := match x, y with Undef, Undef => true | Val v, Val w => strict v w | _, _ => false end.

(** [xt]: updateVNode; a value that is not undefined is set by [Val] *)
Fixpoint updateVNode (fuel : nat) (n : option node) (level index : Z) (value : cell V) : option node :=
  match fuel with
  | O => None
  | S fuel =>
      let idx := digit index level in
      let nodeHas := match n with Some a => idx <? len a | None => false end in
      if negb nodeHas && match value with Undef => true | _ => false end then None
      else if 0 <? level then
        match updateVNode fuel (child n idx) (level - SHIFT) index value with
        | None => None
        | Some newLowerNode => Some (set_at (default [] n) idx (Nd newLowerNode))
        end
      else if nodeHas && same (get_at (default [] n) idx) value then None
      else
        let a := default [] n in
        match value with
        | Undef => if idx =? len a - 1 then Some (take (length a - 1) a) else Some (set_at a idx Undef)
        | _ => Some (set_at a idx value)
        end
  end.

(** [mt.prototype.removeBefore] *)
Fixpoint removeBefore (fuel : nat) (a : node) (level index : Z) : option node :=
  match fuel with
  | O => None
  | S fuel =>
      if (if index =? level then negb ((1 <<. level) =? 0) else len a =? 0) then None
      else
        let originIndex := digit index level in
        if len a <=? originIndex then Some []
        else
          let removingFirst := originIndex =? 0 in
          let oldChild := if 0 <? level then child (Some a) originIndex else None in
          let newChild := match oldChild with Some c => removeBefore fuel c (level - SHIFT) index | None => None end in
          if (0 <? level) && match newChild with None => true | Some _ => false end && removingFirst then None
          else
            let newChild := match newChild with Some c => Some c | None => oldChild end in
            if removingFirst && match newChild with None => true | Some _ => false end then None
            else
              let a := if removingFirst then a else replicate (Z.to_nat originIndex) Undef ++ drop (Z.to_nat originIndex) a in
              Some (match newChild with Some c => set_at a originIndex (Nd c) | None => a end)
  end.

(** [mt.prototype.removeAfter] *)
Fixpoint removeAfter (fuel : nat) (a : node) (level index : Z) : option node :=
  match fuel with
  | O => None
  | S fuel =>
      if (index =? (if level =? 0 then 0 else 1 <<. level)) || (len a =? 0) then None
      else
        let sizeIndex := digit (index - 1) level in
        if len a <=? sizeIndex then None
        else
          let oldChild := if 0 <? level then child (Some a) sizeIndex else None in
          let newChild := match oldChild with Some c => removeAfter fuel c (level - SHIFT) index | None => None end in
          if (0 <? level) && match newChild with None => true | Some _ => false end && (sizeIndex =? len a - 1) then None
          else
            let newChild := match newChild with Some c => Some c | None => oldChild end in
            let a := take (S (Z.to_nat sizeIndex)) a in
            Some (match newChild with Some c => set_at a sizeIndex (Nd c) | None => a end)
  end.

(** ** [kt]: setListBounds *)

(** The fuel of a walk down from a level *)
Definition depth (level : Z) : nat := S (Z.to_nat level).

Definition no_array (l : option node) : bool := match l with Some a => len a =? 0 | None => true end.

(** New roots while the origin is negative; [None] is fuel that ran out *)
Fixpoint grow_before (fuel : nat) (newOrigin level offsetShift : Z) (root : option node) : option (Z * Z * option node) :=
  if negb (newOrigin + offsetShift <? 0) then Some (level, offsetShift, root)
  else match fuel with
  | O => None
  | S fuel =>
      let root := Some (if no_array root then [] else [Undef; of_node root]) in
      let level := level + SHIFT in
      grow_before fuel newOrigin level (offsetShift + (1 <<. level)) root
  end.

(** New roots while the tail is beyond the tree *)
Fixpoint grow_after (fuel : nat) (newTailOffset level : Z) (root : option node) : option (Z * option node) :=
  if negb ((1 <<. (level + SHIFT)) <=? newTailOffset) then Some (level, root)
  else match fuel with
  | O => None
  | S fuel => grow_after fuel newTailOffset (level + SHIFT) (Some (if no_array root then [] else [of_node root]))
  end.

(** The old tail becomes a leaf of the tree. *)
Fixpoint insert_leaf (fuel : nat) (n : option node) (level index : Z) (leaf : node) : node :=
  let a := default [] n in
  match fuel with
  | O => a
  | S fuel =>
      if SHIFT <? level then set_at a (digit index level) (Nd (insert_leaf fuel (child n (digit index level)) (level - SHIFT) index leaf))
      else set_at a (digit index SHIFT) (Nd leaf)
  end.

(** The root of the subtree that has all of the elements *)
Fixpoint new_root (fuel : nat) (newOrigin newTailOffset level offsetShift : Z) (root : option node) : Z * Z * option node :=
  match fuel, root with
  | S fuel, Some a =>
      let beginIndex := digit newOrigin level in
      if negb (beginIndex =? digit newTailOffset level) then (level, offsetShift, root)
      else new_root fuel newOrigin newTailOffset (level - SHIFT) (if beginIndex =? 0 then offsetShift else offsetShift + (1 <<. level) * beginIndex)
             (child root beginIndex)
  | _, _ => (level, offsetShift, root)
  end.

(** A method of a node, or the node itself *)
Definition or_same (f : node -> option node) (a : node) : node := default a (f a).

(** The rest of the function, with the new bounds; 7 rounds are enough to grow a
    tree to any level below 2^32. *)
Definition moveBounds (l : ilist) (newOrigin newCapacity : Z) : option ilist :=
  let oldOrigin := _origin l in
  let oldCapacity := _capacity l in
  if (newOrigin =? oldOrigin) && (newCapacity =? oldCapacity) then Some l
  else if newCapacity <=? newOrigin then Some (clear l)
  else
    match grow_before 7 newOrigin (_level l) 0 (_root l) with
    | None => None
    | Some (newLevel, offsetShift, newRoot) =>
        let newOrigin := newOrigin + offsetShift in
        let oldOrigin := oldOrigin + offsetShift in
        let newCapacity := newCapacity + offsetShift in
        let oldCapacity := oldCapacity + offsetShift in
        let oldTailOffset := getTailOffset oldCapacity in
        let newTailOffset := getTailOffset newCapacity in
        match grow_after 7 newTailOffset newLevel newRoot with
        | None => None
        | Some (newLevel, newRoot) =>
            let oldTail := _tail l in
            let newTail := if newTailOffset <? oldTailOffset then listNodeFor l (newCapacity - 1)
                           else if oldTailOffset <? newTailOffset then Some [] else oldTail in
            let newRoot := match oldTail with
              | Some d =>
                  if (oldTailOffset <? newTailOffset) && (newOrigin <? oldCapacity) && negb (len d =? 0)
                  then Some (insert_leaf (depth newLevel) newRoot newLevel oldTailOffset d) else newRoot
              | None => newRoot
              end in
            let newTail := if newCapacity <? oldCapacity then option_map (or_same (fun a => removeAfter 1 a 0 newCapacity)) newTail else newTail in
            if newTailOffset <=? newOrigin then
              let newOrigin := newOrigin - newTailOffset in
              let newCapacity := newCapacity - newTailOffset in
              Some (makeList newOrigin newCapacity SHIFT None (option_map (or_same (fun a => removeBefore 1 a 0 newOrigin)) newTail))
            else if (oldOrigin <? newOrigin) || (newTailOffset <? oldTailOffset) then
              let '(newLevel, offsetShift, newRoot) := new_root (depth newLevel) newOrigin newTailOffset newLevel 0 newRoot in
              let newRoot := if oldOrigin <? newOrigin then option_map (or_same (fun a => removeBefore (depth newLevel) a newLevel (newOrigin - offsetShift))) newRoot else newRoot in
              let newRoot := if newTailOffset <? oldTailOffset then option_map (or_same (fun a => removeAfter (depth newLevel) a newLevel (newTailOffset - offsetShift))) newRoot else newRoot in
              Some (makeList (newOrigin - offsetShift) (newCapacity - offsetShift) newLevel newRoot newTail)
            else Some (makeList newOrigin newCapacity newLevel newRoot newTail)
        end
    end.

Definition setListBounds (l : ilist) (begin : Z) (end_ : option Z) : option ilist :=
  let begin := begin .| 0 in
  let end_ := option_map (fun n => n .| 0) end_ in
  moveBounds l (_origin l + begin) (match end_ with None => _capacity l | Some n => if n <? 0 then _capacity l + n else _origin l + n end).

(** ** The methods *)

(** [updateList] within the bounds *)
Definition set_inside (l : ilist) (index : Z) (value : cell V) : ilist :=
  let index := index + _origin l in
  let inTail := getTailOffset (_capacity l) <=? index in
  let n := if inTail then updateVNode 1 (_tail l) 0 index value else updateVNode (depth (_level l)) (_root l) (_level l) index value in
  match n with
  | None => l
  | Some n => if inTail then makeList (_origin l) (_capacity l) (_level l) (_root l) (Some n)
              else makeList (_origin l) (_capacity l) (_level l) (Some n) (_tail l)
  end.

(** [pt.prototype.set], of an index that is a number *)
Definition set (l : ilist) (index : Z) (value : cell V) : option ilist :=
  let index := wrapIndex l index in
  if (size l <=? index) || (index <? 0) then
    if index <? 0 then option_map (fun l => set_inside l 0 value) (setListBounds l index None)
    else option_map (fun l => set_inside l index value) (setListBounds l 0 (Some (index + 1)))
  else Some (set_inside l index value).

(** The loop of [push] and [unshift] *)
Fixpoint set_from (l : ilist) (index : Z) (values : list (cell V)) : option ilist :=
  match values with
  | [] => Some l
  | x :: values => match set l index x with None => None | Some l => set_from l (index + 1) values end
  end.

Definition push (l : ilist) (values : list (cell V)) : option ilist :=
  match setListBounds l 0 (Some (size l + len values)) with None => None | Some l' => set_from l' (size l) values end.
Definition pop (l : ilist) : option ilist := setListBounds l 0 (Some (-1)).
Definition unshift (l : ilist) (values : list (cell V)) : option ilist :=
  match setListBounds l (- len values) None with None => None | Some l' => set_from l' 0 values end.
Definition shift (l : ilist) : option ilist := setListBounds l 1 None.
Definition setSize (l : ilist) (n : Z) : option ilist := setListBounds l 0 (Some n).

(** [slice], of bounds that are numbers or undefined *)
Definition slice (l : ilist) (begin end_ : option Z) : option ilist :=
  let n := Some (size l) in
  if O_whole begin end_ n then Some l
  else match P_begin begin n, T_end end_ n with Num b, Num e => setListBounds l b (Some e) | _, _ => None end.
End List.
