(* ===== verification/ImListFacts.v ===== *)
(** * Immutable: lists hold their elements

    What the tree and the tail hold at a position, and that setting an element and
    moving the bounds keep the elements where they are. *)

From stdpp Require Import list.
From S2P Require Import Prelude ImSeq ImList.
Local Open Scope Z_scope.
Local Open Scope js_scope.

(** ** Digits to base 32 *)

Definition B (k : nat) : Z := 32 ^ Z.of_nat k.
Definition dig (k : nat) (i : Z) : Z := i / B k mod 32.

Lemma B_0 : B 0 = 1.
Proof. done. Qed.

Lemma B_S k : B (S k) = 32 * B k.
Proof. unfold B. rewrite Nat2Z.inj_succ, Z.pow_succ_r by lia. done. Qed.

Lemma B_pos k : 0 < B k.
Proof. unfold B. apply Z.pow_pos_nonneg; lia. Qed.

Lemma B_pow2 k : B k = 2 ^ (5 * Z.of_nat k).
Proof. unfold B. rewrite Z.pow_mul_r by lia. done. Qed.

Lemma B_mono k k' : (k <= k')%nat -> B k <= B k'.
Proof. intros H. unfold B. apply Z.pow_le_mono_r; lia. Qed.

Lemma B_divide k k' : (k <= k')%nat -> (B k | B k').
Proof. intros H. exists (B (k' - k)). unfold B. rewrite <- Z.pow_add_r by lia. f_equal. lia. Qed.

Lemma dig_range k i : 0 <= dig k i < 32.
Proof. apply Z.mod_pos_bound. lia. Qed.

Lemma mod_B_S k i : i mod B (S k) = dig k i * B k + i mod B k.
Proof.
  pose proof (B_pos k). rewrite B_S. unfold dig. rewrite (Z.mul_comm 32), Z.rem_mul_r by lia. lia.
Qed.

(** Two indices agree on the digits below [k + 1] *)
Lemma mod_B_S_eq k i j : i mod B (S k) = j mod B (S k) <-> dig k i = dig k j /\ i mod B k = j mod B k.
Proof.
  rewrite !mod_B_S. pose proof (Z.mod_pos_bound i (B k) (B_pos k)). pose proof (Z.mod_pos_bound j (B k) (B_pos k)).
  pose proof (dig_range k i). pose proof (dig_range k j). split; [|intros [-> ->]; done]. intros E.
  assert (dig k i = dig k j) as E1 by nia. rewrite E1 in E. split; [done|lia].
Qed.

Lemma mod_B_S_lt k i j : i mod B (S k) < j mod B (S k) <-> dig k i < dig k j \/ dig k i = dig k j /\ i mod B k < j mod B k.
Proof.
  rewrite !mod_B_S. pose proof (Z.mod_pos_bound i (B k) (B_pos k)). pose proof (Z.mod_pos_bound j (B k) (B_pos k)).
  pose proof (dig_range k i). pose proof (dig_range k j). split; [|nia]. intros E. destruct (Z.lt_total (dig k i) (dig k j)) as [|[E1|]]; [by left| |nia].
  right. rewrite E1 in E. split; [done|lia].
Qed.

Lemma mod_B_S_le k i j : i mod B (S k) <= j mod B (S k) <-> dig k i < dig k j \/ dig k i = dig k j /\ i mod B k <= j mod B k.
Proof. rewrite Z.le_lteq, mod_B_S_lt, mod_B_S_eq. lia. Qed.

Lemma dig_add k i d : (B (S k) | d) -> dig k (i + d) = dig k i.
Proof.
  intros [q ->]. unfold dig. rewrite B_S. replace (i + q * (32 * B k)) with (i + (q * 32) * B k) by lia. pose proof (B_pos k).
  rewrite Z.div_add by lia. by rewrite Z_mod_plus_full.
Qed.

Lemma digit_eq k i : 0 <= i < 2 ^ 32 -> (k <= 6)%nat -> digit i (5 * Z.of_nat k) = dig k i.
Proof.
  intros Hi Hk. unfold digit, dig, MASK. rewrite js_ushr_small by lia. rewrite u32_id by done. change 31 with (2 ^ 5 - 1). rewrite js_and_ones by lia.
  by rewrite B_pow2.
Qed.

Lemma mask_eq i : i .& MASK = i mod 32.
Proof. unfold MASK. change 31 with (2 ^ 5 - 1). by rewrite js_and_ones by lia. Qed.

Lemma shl_one n : 0 <= n <= 30 -> 1 <<. n = 2 ^ n.
Proof.
  intros Hn. unfold js_shl. rewrite (Z.mod_small n) by lia. change (i32 1) with 1. rewrite Z.shiftl_1_l. apply i32_small.
  split; [apply Z.pow_nonneg; lia|]. apply Z.pow_lt_mono_r; lia.
Qed.

(** Levels are multiples of 5 *)
Lemma shl_level k : (k <= 6)%nat -> 1 <<. (5 * Z.of_nat k) = B k.
Proof. intros Hk. rewrite shl_one by lia. by rewrite B_pow2. Qed.

Lemma B_6 : B 6 = 2 ^ 30.
Proof. reflexivity. Qed.

Lemma tail_offset n : 0 <= n <= 2 ^ 30 -> getTailOffset n = if n =? 0 then 0 else 32 * ((n - 1) / 32).
Proof.
  intros Hn. unfold getTailOffset, SIZE, SHIFT. destruct (Z.ltb_spec n 32).
  - destruct (Z.eqb_spec n 0); [done|]. rewrite Z.div_small by lia. done.
  - destruct (Z.eqb_spec n 0); [lia|]. rewrite js_ushr_small, u32_id by (unfold isUint32; lia). unfold js_shl. change (5 mod 32) with 5.
    assert (0 <= (n - 1) / 2 ^ 5 < 2 ^ 25) by (split; [apply Z.div_pos; lia|apply Z.div_lt_upper_bound; lia]).
    rewrite (i32_small ((n - 1) / 2 ^ 5)), Z.shiftl_mul_pow2, i32_small by lia. change (2 ^ 5) with 32. lia.
Qed.

Lemma tail_offset_spec n : 0 < n <= 2 ^ 30 -> getTailOffset n mod 32 = 0 /\ 0 <= getTailOffset n < n /\ n <= getTailOffset n + 32.
Proof.
  intros Hn. rewrite tail_offset by lia. destruct (Z.eqb_spec n 0); [lia|]. rewrite Z.mul_comm, Z_mod_mult.
  pose proof (Z.div_mod (n - 1) 32 ltac:(lia)). pose proof (Z.mod_pos_bound (n - 1) 32 ltac:(lia)). lia.
Qed.

Section Facts.
Context {V : Type} (strict : V -> V -> bool).
Notation node := (list (cell V)).
Implicit Types (a : node) (n : option node) (l : ilist (V := V)) (c : cell V).

(** ** Arrays *)

Lemma get_set_at a i j c : 0 <= i -> 0 <= j -> get_at (set_at a i c) j = if i =? j then c else get_at a j.
Proof.
  intros Hi Hj. unfold get_at, set_at. destruct (Z.ltb_spec j 0); [lia|]. set (a' := a ++ _).
  assert (Z.to_nat i < length a')%nat by (unfold a'; rewrite length_app, length_replicate; lia).
  destruct (Z.eqb_spec i j) as [->|Hne]; [by rewrite list_lookup_insert_eq|]. rewrite list_lookup_insert_ne by lia. unfold a'.
  destruct (decide (Z.to_nat j < length a)%nat) as [Hl|Hl]; [by rewrite lookup_app_l|]. rewrite lookup_app_r, (lookup_ge_None_2 a) by lia.
  destruct (replicate _ _ !! _) as [x|] eqn:E; [|done]. by apply lookup_replicate in E as [-> _].
Qed.

Lemma get_at_nil i : get_at ([] : node) i = Undef.
Proof. unfold get_at. by destruct (i <? 0). Qed.

Lemma get_at_beyond a i : len a <= i -> get_at a i = Undef.
Proof. unfold len, get_at. intros H. destruct (i <? 0); [done|]. by rewrite lookup_ge_None_2 by lia. Qed.

Lemma child_set_at n i j a : 0 <= i -> 0 <= j -> child (Some (set_at (default [] n) i (Nd a))) j = if i =? j then Some a else child n j.
Proof.
  intros Hi Hj. cbn. rewrite get_set_at by done. destruct (i =? j); [done|]. destruct n; [done|]. cbn. by rewrite get_at_nil.
Qed.

(** ** What a tree holds *)

(** The leaf of [k] levels down that has the position [i] *)
Fixpoint leaf_of (k : nat) n (i : Z) : option node :=
  match k with O => n | S k' => leaf_of k' (child n (dig k i)) i end.

Definition in_leaf n (i : Z) : cell V := match n with Some a => get_at a (i mod 32) | None => Undef end.
Definition tget (k : nat) n (i : Z) : cell V := in_leaf (leaf_of k n i) i.

Lemma tget_S k n i : tget (S k) n i = tget k (child n (dig (S k) i)) i.
Proof. done. Qed.

Lemma leaf_of_none k i : leaf_of k None i = None.
Proof. induction k as [|k IH]; cbn; [done|]. apply IH. Qed.

Lemma tget_none k i : tget k None i = Undef.
Proof. unfold tget. by rewrite leaf_of_none. Qed.

Lemma tget_empty k n i : no_array n = true -> tget k n i = Undef.
Proof.
  destruct n as [a|]; [|intros _; apply tget_none]. cbn. intros Ha%Z.eqb_eq. destruct a; [|by cbn in Ha].
  destruct k; cbn; [by rewrite get_at_nil|]. unfold tget. cbn. rewrite get_at_nil. cbn. by rewrite leaf_of_none.
Qed.

(** Positions that agree on the digits below *)
Lemma leaf_of_same k n i j : i / 32 mod B k = j / 32 mod B k -> leaf_of k n i = leaf_of k n j.
Proof.
  revert n. induction k as [|k IH]; intros n; [done|]. intros E. apply mod_B_S_eq in E as [Ed Em]. cbn. rewrite (IH _ Em).
  assert (forall x, dig k (x / 32) = dig (S k) x) as Hd by (intros x; unfold dig; rewrite B_S, <- Z.div_div by (pose proof (B_pos k); lia); done).
  by rewrite <- !Hd, Ed.
Qed.

Lemma div_mod_B k i j : i mod B (S k) = j mod B (S k) -> i / 32 mod B k = j / 32 mod B k.
Proof.
  rewrite B_S. pose proof (B_pos k). rewrite !(Z.rem_mul_r _ 32) by lia. pose proof (Z.mod_pos_bound i 32 ltac:(lia)).
  pose proof (Z.mod_pos_bound j 32 ltac:(lia)). lia.
Qed.

Lemma mod_B_mod32 k i j : i mod B (S k) = j mod B (S k) -> i mod 32 = j mod 32.
Proof.
  rewrite B_S. pose proof (B_pos k). rewrite !(Z.rem_mul_r _ 32) by lia. pose proof (Z.mod_pos_bound i 32 ltac:(lia)).
  pose proof (Z.mod_pos_bound j 32 ltac:(lia)). lia.
Qed.

Lemma tget_same k n i j : i mod B (S k) = j mod B (S k) -> tget k n i = tget k n j.
Proof. intros E. unfold tget, in_leaf. by rewrite (leaf_of_same k n i j (div_mod_B _ _ _ E)), (mod_B_mod32 _ _ _ E). Qed.

Lemma tget_add k n i d : (B (S k) | d) -> tget k n (i + d) = tget k n i.
Proof. intros [q ->]. apply tget_same. by rewrite Z_mod_plus_full. Qed.

Lemma node_for_loop_spec fuel k n i : (k <= fuel)%nat -> (k <= 6)%nat -> 0 <= i < 2 ^ 32 ->
  node_for_loop fuel n (5 * Z.of_nat k) i = leaf_of k n i.
Proof.
  revert k n. induction fuel as [|fuel IH]; intros k n Hf Hk Hi.
  - replace k with O by lia. done.
  - cbn [node_for_loop]. destruct n as [a|]; [|by rewrite leaf_of_none]. destruct k as [|k]; [done|].
    destruct (Z.ltb_spec 0 (5 * Z.of_nat (S k))); [|lia]. rewrite digit_eq by lia. unfold SHIFT.
    replace (5 * Z.of_nat (S k) - 5) with (5 * Z.of_nat k) by lia. by rewrite IH by lia.
Qed.

(** ** Setting an element *)

Lemma updateVNode_spec fuel k n i v : (k < fuel)%nat -> (k <= 6)%nat -> 0 <= i < 2 ^ 32 ->
  match updateVNode strict fuel n (5 * Z.of_nat k) i (Val v) with
  | None => exists w, tget k n i = Val w /\ strict w v = true
  | Some n' => forall j, tget k (Some n') j = if j mod B (S k) =? i mod B (S k) then Val v else tget k n j
  end.
Proof.
  revert fuel n. induction k as [|k IH]; intros fuel n Hf Hk Hi; (destruct fuel as [|fuel]; [lia|]); cbn [updateVNode]; rewrite digit_eq by lia; rewrite andb_false_r;
    pose proof (dig_range 0 i) as Hd0.
  - change (0 <? 5 * Z.of_nat 0) with false. cbn iota. unfold dig in *. rewrite B_0, Z.div_1_r in *.
    assert (forall j, tget 0 (Some (set_at (default [] n) (i mod 32) (Val v))) j = if j mod B 1 =? i mod B 1 then Val v else tget 0 n j) as Hset.
    { intros j. change (B 1) with 32. unfold tget, leaf_of, in_leaf. rewrite get_set_at by (apply Z.mod_pos_bound; lia). rewrite Z.eqb_sym. destruct (_ =? _); [done|].
      destruct n; [done|]. cbn. by rewrite get_at_nil. }
    destruct n as [a|]; [|exact Hset]. cbn [default from_option id] in *. unfold id in *. destruct (i mod 32 <? len a); cbn [andb]; [|exact Hset].
    destruct (same strict (get_at a (i mod 32)) (Val v)) eqn:Hs; [|exact Hset]. unfold tget, leaf_of, in_leaf. destruct (get_at a (i mod 32)) as [|w|]; [done| |done].
    by exists w.
  - destruct (Z.ltb_spec 0 (5 * Z.of_nat (S k))); [|lia]. unfold SHIFT. replace (5 * Z.of_nat (S k) - 5) with (5 * Z.of_nat k) by lia.
    specialize (IH fuel (child n (dig (S k) i)) ltac:(lia) ltac:(lia) Hi). destruct (updateVNode _ _ _ _ _ _) as [a'|]; [|exact IH].
    intros j. rewrite tget_S, child_set_at by apply dig_range. rewrite (Z.eqb_sym (j mod _)). destruct (Z.eqb_spec (dig (S k) i) (dig (S k) j)) as [E|E].
    + rewrite IH. rewrite tget_S, <- E. rewrite Z.eqb_sym. destruct (Z.eqb_spec (i mod B (S k)) (j mod B (S k))) as [E2|E2].
      * destruct (Z.eqb_spec (i mod B (S (S k))) (j mod B (S (S k)))) as [|E3]; [done|]. by destruct E3; apply mod_B_S_eq.
      * destruct (Z.eqb_spec (i mod B (S (S k))) (j mod B (S (S k)))) as [E3|]; [|done]. by apply mod_B_S_eq in E3 as [_ ?].
    + destruct (Z.eqb_spec (i mod B (S (S k))) (j mod B (S (S k)))) as [E3|]; [|done]. by apply mod_B_S_eq in E3 as [? _].
Qed.

(** ** Removing what is outside of the bounds *)

Lemma get_at_cut a r i : 0 <= r -> r <= i -> r < len a -> get_at (replicate (Z.to_nat r) Undef ++ drop (Z.to_nat r) a) i = get_at a i.
Proof.
  intros H0 Hi Hr. unfold get_at, len in *. destruct (Z.ltb_spec i 0); [lia|]. rewrite lookup_app_r; rewrite length_replicate; [|lia].
  rewrite lookup_drop. do 2 f_equal. lia.
Qed.

Lemma get_at_take a r i : 0 <= i <= r -> get_at (take (S (Z.to_nat r)) a) i = get_at a i.
Proof. intros Hi. unfold get_at. destruct (Z.ltb_spec i 0); [lia|]. by rewrite lookup_take_lt by lia. Qed.

Lemma removeBefore_spec fuel k a i j : (k < fuel)%nat -> (k <= 6)%nat -> 0 <= i < 2 ^ 32 -> i mod B (S k) <= j mod B (S k) ->
  tget k (Some (or_same (fun a => removeBefore fuel a (5 * Z.of_nat k) i) a)) j = tget k (Some a) j.
Proof.
  revert fuel a. induction k as [|k IH]; intros fuel a Hf Hk Hi Hj; (destruct fuel as [|fuel]; [lia|]); unfold or_same; cbn [removeBefore];
    (destruct (if i =? _ then _ else _); [done|]); rewrite digit_eq by lia.
  - change (0 <? 5 * Z.of_nat 0) with false. cbn [andb]. unfold dig. rewrite B_0, Z.div_1_r. change (B 1) with 32 in Hj. pose proof (Z.mod_pos_bound i 32 ltac:(lia)).
    destruct (Z.leb_spec (len a) (i mod 32)); [cbn; unfold tget, leaf_of, in_leaf; by rewrite get_at_nil, get_at_beyond by lia|].
    rewrite andb_true_r. destruct (i mod 32 =? 0); [done|]. cbn. unfold tget, leaf_of, in_leaf. apply get_at_cut; lia.
  - destruct (Z.ltb_spec 0 (5 * Z.of_nat (S k))); [|lia]. cbn [andb]. unfold SHIFT. replace (5 * Z.of_nat (S k) - 5) with (5 * Z.of_nat k) by lia.
    apply mod_B_S_le in Hj. pose proof (dig_range (S k) i). pose proof (dig_range (S k) j). set (r := dig (S k) i) in *.
    destruct (Z.leb_spec (len a) r); [cbn; rewrite !tget_S; cbn; rewrite get_at_nil, get_at_beyond by lia; done|].
    set (cut := if r =? 0 then a else _).
    assert (forall x, r <= x -> child (Some cut) x = child (Some a) x) as Hcut.
    { intros x Hx. unfold cut. destruct (r =? 0); [done|]. cbn. by rewrite get_at_cut by lia. }
    destruct (child (Some a) r) as [o|] eqn:Ho.
    + specialize (IH fuel o ltac:(lia) ltac:(lia) Hi). unfold or_same in IH. destruct (removeBefore fuel o _ i) as [o'|]; cbn [default from_option id] in *; unfold id in *.
      * rewrite andb_false_l, andb_false_r. cbn [default from_option]. rewrite !tget_S. change (set_at cut r (Nd o')) with (set_at (default [] (Some cut)) r (Nd o')).
        rewrite child_set_at by lia. destruct (Z.eqb_spec r (dig (S k) j)) as [E|]; [|by rewrite Hcut by lia]. rewrite <- E, Ho. apply IH. lia.
      * rewrite andb_true_l, andb_false_r. destruct (r =? 0) eqn:E0; [done|]. cbn [default from_option]. rewrite !tget_S. change (set_at cut r (Nd o)) with (set_at (default [] (Some cut)) r (Nd o)).
        rewrite child_set_at by lia. destruct (Z.eqb_spec r (dig (S k) j)) as [E|]; [|by rewrite Hcut by lia]. by rewrite <- E, Ho.
    + rewrite andb_true_l, andb_true_r. destruct (r =? 0) eqn:E0; [done|]. cbn [default from_option]. rewrite !tget_S. by rewrite Hcut by lia.
Qed.

Lemma removeAfter_spec fuel k a i j : (k < fuel)%nat -> (k <= 6)%nat -> 0 < i < 2 ^ 32 -> j mod B (S k) <= (i - 1) mod B (S k) ->
  tget k (Some (or_same (fun a => removeAfter fuel a (5 * Z.of_nat k) i) a)) j = tget k (Some a) j.
Proof.
  revert fuel a. induction k as [|k IH]; intros fuel a Hf Hk Hi Hj; (destruct fuel as [|fuel]; [lia|]); unfold or_same; cbn [removeAfter];
    (destruct (_ || _); [done|]); rewrite digit_eq by lia.
  - change (0 <? 5 * Z.of_nat 0) with false. cbn [andb]. unfold dig. rewrite B_0, Z.div_1_r. change (B 1) with 32 in Hj. pose proof (Z.mod_pos_bound j 32 ltac:(lia)).
    destruct (_ <=? _); [done|]. cbn. unfold tget, leaf_of, in_leaf. apply get_at_take; lia.
  - destruct (Z.ltb_spec 0 (5 * Z.of_nat (S k))); [|lia]. cbn [andb]. unfold SHIFT. replace (5 * Z.of_nat (S k) - 5) with (5 * Z.of_nat k) by lia.
    apply mod_B_S_le in Hj. pose proof (dig_range (S k) (i - 1)). pose proof (dig_range (S k) j). set (r := dig (S k) (i - 1)) in *.
    destruct (Z.leb_spec (len a) r); [done|]. set (cut := take _ a).
    assert (forall x, 0 <= x <= r -> child (Some cut) x = child (Some a) x) as Hcut by (intros x Hx; unfold cut; cbn; by rewrite get_at_take by lia).
    destruct (child (Some a) r) as [o|] eqn:Ho.
    + specialize (IH fuel o ltac:(lia) ltac:(lia) Hi). unfold or_same in IH. destruct (removeAfter fuel o _ i) as [o'|]; cbn [default from_option id] in *; unfold id in *.
      * rewrite andb_false_l. cbn [default from_option]. rewrite !tget_S. change (set_at cut r (Nd o')) with (set_at (default [] (Some cut)) r (Nd o')).
        rewrite child_set_at by lia. destruct (Z.eqb_spec r (dig (S k) j)) as [E|]; [|by rewrite Hcut by lia]. rewrite <- E, Ho. apply IH. lia.
      * rewrite andb_true_l. destruct (_ =? _) eqn:E0; [done|]. cbn [default from_option]. rewrite !tget_S. change (set_at cut r (Nd o)) with (set_at (default [] (Some cut)) r (Nd o)).
        rewrite child_set_at by lia. destruct (Z.eqb_spec r (dig (S k) j)) as [E|]; [|by rewrite Hcut by lia]. by rewrite <- E, Ho.
    + rewrite andb_true_l. destruct (_ =? _) eqn:E0; [done|]. cbn [default from_option]. rewrite !tget_S. by rewrite Hcut by lia.
Qed.

(** ** New roots and leaves *)

Lemma dig_small k i : 0 <= i < B k -> dig k i = 0.
Proof. intros Hi. unfold dig. by rewrite Z.div_small. Qed.

(** A root below a new one, in the first or the second place *)
Lemma tget_root0 k n i : 0 <= i < B (S k) -> tget (S k) (Some (if no_array n then [] else [of_node n])) i = tget k n i.
Proof.
  intros Hi. rewrite tget_S, dig_small by done. destruct (no_array n) eqn:E; [by rewrite tget_none, tget_empty|]. by destruct n.
Qed.

Lemma tget_root1 k n i : 0 <= i < B (S k) -> tget (S k) (Some (if no_array n then [] else [Undef; of_node n])) (i + B (S k)) = tget k n i.
Proof.
  intros Hi. assert (dig (S k) (i + B (S k)) = 1) as E1.
  { unfold dig. replace (i + B (S k)) with (i + 1 * B (S k)) by lia. pose proof (B_pos (S k)). rewrite Z.div_add, Z.div_small by lia. done. }
  rewrite tget_S, E1, tget_add by done. destruct (no_array n) eqn:E; [by rewrite tget_none, tget_empty|]. by destruct n.
Qed.

Lemma grow_before_none fuel newOrigin level (off : Z) n : 0 <= newOrigin + off -> grow_before fuel newOrigin level off n = Some (level, off, n).
Proof. intros H. destruct fuel; cbn; by destruct (Z.ltb_spec (newOrigin + off) 0); [lia|]. Qed.

Lemma grow_before_one newOrigin k n : newOrigin < 0 -> - newOrigin <= B (S k) -> (k <= 4)%nat ->
  grow_before 7 newOrigin (5 * Z.of_nat k) 0 n = Some (5 * Z.of_nat (S k), B (S k), Some (if no_array n then [] else [Undef; of_node n])).
Proof.
  intros H0 H1 Hk. cbn [grow_before]. destruct (Z.ltb_spec (newOrigin + 0) 0); [|lia]. cbn [negb]. unfold SHIFT.
  replace (5 * Z.of_nat k + 5) with (5 * Z.of_nat (S k)) by lia. rewrite shl_level, Z.add_0_l by lia. apply (grow_before_none 6). lia.
Qed.

Lemma grow_after_spec fuel k n p : (1 <= k)%nat -> (k <= 5)%nat -> (6 <= fuel + k)%nat -> 0 <= p < 2 ^ 30 ->
  exists k' n', grow_after fuel p (5 * Z.of_nat k) n = Some (5 * Z.of_nat k', n') /\ (k <= k' <= 5)%nat /\ p < B (S k')
    /\ (forall i, 0 <= i < B (S k) -> tget k' n' i = tget k n i) /\ (p < B (S k) -> k' = k /\ n' = n).
Proof.
  revert k n. induction fuel as [|fuel IH]; intros k n H1 H5 Hf Hp; [lia|]. cbn [grow_after]. unfold SHIFT.
  replace (5 * Z.of_nat k + 5) with (5 * Z.of_nat (S k)) by lia. rewrite shl_level by lia. destruct (Z.leb_spec (B (S k)) p) as [Hle|Hlt]; cbn [negb].
  - assert (k <= 4)%nat as Hk4. { destruct (decide (k <= 4)%nat); [done|]. replace k with 5%nat in Hle by lia. rewrite B_6 in Hle. lia. }
    destruct (IH (S k) (Some (if no_array n then [] else [of_node n])) ltac:(lia) ltac:(lia) ltac:(lia) Hp) as (k' & n' & -> & Hk' & Hp' & Hg & _).
    exists k', n'. split; [done|]. split; [lia|]. split; [done|]. split; [|lia]. intros i Hi. rewrite Hg, tget_root0; [done|done|]. rewrite (B_S (S k)). lia.
  - exists k, n. split; [done|]. split; [lia|]. done.
Qed.

Lemma insert_leaf_spec fuel k n i a j : (k < fuel)%nat -> (1 <= k <= 6)%nat -> 0 <= i < 2 ^ 32 ->
  tget k (Some (insert_leaf fuel n (5 * Z.of_nat k) i a)) j = if j / 32 mod B k =? i / 32 mod B k then in_leaf (Some a) j else tget k n j.
Proof.
  revert fuel n. induction k as [|k IH]; intros fuel n Hf Hk Hi; [lia|]. destruct fuel as [|fuel]; [lia|]. cbn [insert_leaf].
  assert (forall x, dig k (x / 32) = dig (S k) x) as Hd by (intros x; unfold dig; rewrite B_S, <- Z.div_div by (pose proof (B_pos k); lia); done).
  pose proof (dig_range (S k) i). pose proof (dig_range (S k) j). unfold SHIFT. destruct (Z.ltb_spec 5 (5 * Z.of_nat (S k))).
  - replace (5 * Z.of_nat (S k) - 5) with (5 * Z.of_nat k) by lia. rewrite !digit_eq, tget_S, child_set_at by lia.
    destruct (Z.eqb_spec (dig (S k) i) (dig (S k) j)) as [E|E].
    + rewrite IH by lia. rewrite E, <- tget_S. destruct (Z.eqb_spec (j / 32 mod B k) (i / 32 mod B k)), (Z.eqb_spec (j / 32 mod B (S k)) (i / 32 mod B (S k))) as [E3|E3]; try done.
      * destruct E3. apply mod_B_S_eq. rewrite !Hd. done.
      * by apply mod_B_S_eq in E3 as [_ ?].
    + destruct (Z.eqb_spec (j / 32 mod B (S k)) (i / 32 mod B (S k))) as [E3|]; [|done]. apply mod_B_S_eq in E3 as [E3 _]. by rewrite !Hd in E3.
  - replace k with O in * by lia. change 5 with (5 * Z.of_nat 1) at 1. rewrite digit_eq, tget_S, child_set_at by lia. rewrite (Z.eqb_sym (j / 32 mod _)).
    change (j / 32 mod B 1) with (dig 1 j). change (i / 32 mod B 1) with (dig 1 i). by destruct (dig 1 i =? dig 1 j).
Qed.

(** The subtree between [a] and [p]: [c] is what its positions are moved by. *)
Lemma new_root_spec fuel k n (a p off : Z) : (k < fuel)%nat -> (1 <= k <= 5)%nat -> 0 <= a < 2 ^ 30 -> 0 <= p < 2 ^ 30 -> p mod 32 = 0 -> a mod B (S k) < p mod B (S k) ->
  exists k' (c : Z) n', new_root fuel a p (5 * Z.of_nat k) off n = (5 * Z.of_nat k', off + c, n') /\ (1 <= k' <= k)%nat /\ (B (S k') | c)
    /\ 0 <= c <= a mod B (S k) /\ p mod B (S k) < c + B (S k')
    /\ forall j, c <= j mod B (S k) < c + B (S k') -> tget k' n' j = tget k n j.
Proof.
  revert fuel n off. induction k as [|k IH]; intros fuel n off Hf Hk Ha Hp H32 Hlt; [lia|]. destruct fuel as [|fuel]; [lia|]. cbn [new_root].
  pose proof (Z.mod_pos_bound a (B (S (S k))) (B_pos _)) as Ham. pose proof (Z.mod_pos_bound p (B (S (S k))) (B_pos _)) as Hpm.
  assert (exists k' (c : Z) n', (5 * Z.of_nat (S k), off, n) = (5 * Z.of_nat k', off + c, n') /\ (1 <= k' <= S k)%nat /\ (B (S k') | c)
    /\ 0 <= c <= a mod B (S (S k)) /\ p mod B (S (S k)) < c + B (S k') /\ forall j, c <= j mod B (S (S k)) < c + B (S k') -> tget k' n' j = tget (S k) n j) as Hstop.
  { exists (S k), 0, n. split; [f_equal; f_equal; lia|]. split; [lia|]. split; [apply Z.divide_0_r|]. split; [lia|]. split; [lia|done]. }
  destruct n as [m|]; [|exact Hstop]. rewrite !digit_eq by lia. destruct (Z.eqb_spec (dig (S k) a) (dig (S k) p)) as [E|E]; [|exact Hstop]. cbn [negb].
  apply mod_B_S_lt in Hlt as Hlt'. destruct Hlt' as [|[_ Hlt']]; [lia|]. destruct k as [|k].
  { change (B 1) with 32 in Hlt'. rewrite H32 in Hlt'. pose proof (Z.mod_pos_bound a 32 ltac:(lia)). lia. }
  unfold SHIFT. replace (5 * Z.of_nat (S (S k)) - 5) with (5 * Z.of_nat (S k)) by lia.
  set (d := dig (S (S k)) a) in *. pose proof (dig_range (S (S k)) a) as Hd. fold d in Hd.
  replace (if d =? 0 then off else off + (1 <<. (5 * Z.of_nat (S (S k)))) * d) with (off + d * B (S (S k))) by (rewrite shl_level by lia; destruct (Z.eqb_spec d 0) as [->|]; lia).
  destruct (IH fuel (child (Some m) d) (off + d * B (S (S k))) ltac:(lia) ltac:(lia) Ha Hp H32 Hlt') as (k' & c & n' & -> & Hk' & Hdiv & Hc & Hpc & Hg).
  exists k', (d * B (S (S k)) + c), n'. split; [f_equal; f_equal; lia|]. split; [lia|]. split.
  { apply Z.divide_add_r; [|done]. apply Z.divide_mul_r. apply B_divide. lia. }
  rewrite !(mod_B_S (S (S k))). fold d. rewrite <- E. assert (0 <= d * B (S (S k))) by (apply Z.mul_nonneg_nonneg; [lia|pose proof (B_pos (S (S k))); lia]). split; [lia|]. split; [lia|]. intros j Hj. rewrite (mod_B_S (S (S k))) in Hj.
  pose proof (Z.mod_pos_bound j (B (S (S k))) (B_pos _)). assert (B (S k') <= B (S (S k))) by (apply B_mono; lia).
  pose proof (Z.mod_pos_bound a (B (S (S k))) (B_pos _)). destruct Hdiv as [q ->].
  assert (q * B (S k') + B (S k') <= B (S (S k))) as Hq.
  { destruct (B_divide (S k') (S (S k)) ltac:(lia)) as [q' Hq']. pose proof (B_pos (S k')) as Hb. assert (q < q') as Hqq by (apply (Z.mul_lt_mono_pos_r (B (S k'))); lia). rewrite Hq'. nia. }
  assert (dig (S (S k)) j = d) as Ej by nia. rewrite Hg by nia. rewrite (tget_S (S k)), Ej. done.
Qed.

(** ** Lists *)

Definition levels l : nat := Z.to_nat (_level l / 5).

(** The element at an absolute position *)
Definition at_pos l (i : Z) : cell V := if getTailOffset (_capacity l) <=? i then in_leaf (_tail l) i else tget (levels l) (_root l) i.

Record wf l : Prop := {
  wf_size : size l = _capacity l - _origin l;
  wf_level : _level l = 5 * Z.of_nat (levels l);
  wf_levels : (1 <= levels l <= 5)%nat;
  wf_bounds : 0 <= _origin l /\ _capacity l <= 2 ^ 30;
  wf_tail : getTailOffset (_capacity l) < B (S (levels l));
  wf_nonempty : _origin l < _capacity l \/ l = emptyList
}.

Lemma emptyList_wf : wf emptyList.
Proof. constructor; [done|done|change (levels emptyList) with 1%nat; lia|cbn; lia|done|by right]. Qed.

Lemma levels_mul k o u r t : levels (makeList o u (5 * Z.of_nat k) r t) = k.
Proof. unfold levels. cbn [_level makeList]. rewrite Z.mul_comm, Z.div_mul by lia. lia. Qed.

Lemma makeList_wf o u k r t : 0 <= o < u -> u <= 2 ^ 30 -> (1 <= k <= 5)%nat -> getTailOffset u < B (S k) -> wf (makeList o u (5 * Z.of_nat k) r t).
Proof. intros Ho Hc Hk Ht. constructor; rewrite ?levels_mul; try done; cbn; lia. Qed.

Lemma wf_inside l i : wf l -> _origin l <= i < _capacity l -> 0 <= i < 2 ^ 30 /\ 0 < _capacity l <= 2 ^ 30 /\ (i < getTailOffset (_capacity l) -> i < B (S (levels l))).
Proof. intros [_ _ _ [H0 Hc] Ht _] Hi. lia. Qed.

Lemma listNodeFor_spec l i : wf l -> _origin l <= i < _capacity l -> in_leaf (listNodeFor l i) i = at_pos l i.
Proof.
  intros Hw Hi. destruct (wf_inside l i Hw Hi) as (Hr & _ & Hlt). pose proof (wf_levels _ Hw) as Hk. unfold listNodeFor, at_pos.
  destruct (Z.leb_spec (getTailOffset (_capacity l)) i); [done|]. rewrite (wf_level _ Hw). unfold SHIFT.
  replace (5 * Z.of_nat (levels l) + 5) with (5 * Z.of_nat (S (levels l))) by lia. rewrite shl_level by lia.
  destruct (Z.ltb_spec i (B (S (levels l)))); [|lia]. by rewrite node_for_loop_spec by lia.
Qed.

Lemma get_spec l i d : wf l -> 0 <= i < size l -> get l i d = at_pos l (_origin l + i).
Proof.
  intros Hw Hi. pose proof (wf_size _ Hw). unfold get, wrapIndex. destruct (Z.ltb_spec i 0); [lia|]. destruct (Z.leb_spec 0 i), (Z.ltb_spec i (size l)); try lia. cbn [andb].
  rewrite (Z.add_comm i), <- listNodeFor_spec by (done || lia). unfold in_leaf. by rewrite mask_eq.
Qed.

Lemma get_negative l i d : - size l <= i < 0 -> get l i d = get l (size l + i) d.
Proof. intros Hi. unfold get, wrapIndex. destruct (Z.ltb_spec i 0), (Z.ltb_spec (size l + i) 0); (done || lia). Qed.

Lemma get_outside l i d : size l <= i \/ i < - size l -> 0 <= size l -> get l i d = d.
Proof.
  intros Hi Hs. unfold get, wrapIndex. destruct (Z.ltb_spec i 0); [destruct (Z.leb_spec 0 (size l + i)); [lia|done]|].
  destruct (Z.ltb_spec i (size l)); [lia|]. by rewrite andb_false_r.
Qed.

Context (Hstrict : forall v w, strict v w = true -> v = w).

Lemma same_block i j k : 0 <= i < B (S k) -> 0 <= j < B (S k) -> (j mod B (S k) =? i mod B (S k)) = (j =? i).
Proof. intros Hi Hj. by rewrite !Z.mod_small by lia. Qed.

Lemma set_inside_spec l i v : wf l -> 0 <= i < size l -> let l' := set_inside strict l i (Val v) in
  wf l' /\ _origin l' = _origin l /\ _capacity l' = _capacity l
  /\ forall j, _origin l <= j < _capacity l -> at_pos l' j = if j =? _origin l + i then Val v else at_pos l j.
Proof.
  intros Hw Hi. pose proof (wf_size _ Hw) as Hsz. pose proof (wf_levels _ Hw) as Hk. destruct (wf_inside l (i + _origin l) Hw ltac:(lia)) as (Hr & Hc & Hlt).
  pose proof (wf_bounds _ Hw) as Hb. unfold set_inside. cbn zeta. rewrite (Z.add_comm (_origin l) i). destruct (Z.leb_spec (getTailOffset (_capacity l)) (i + _origin l)) as [Ht|Ht].
  - pose proof (updateVNode_spec 1 0 (_tail l) (i + _origin l) v ltac:(lia) ltac:(lia) ltac:(lia)) as Hu. change (5 * Z.of_nat 0) with 0 in Hu. change (B 1) with 32 in Hu.
    destruct (tail_offset_spec (_capacity l) Hc) as (T1 & T2 & T3).
    destruct (updateVNode strict 1 (_tail l) 0 _ _) as [a|].
    + rewrite (wf_level _ Hw). split; [by apply makeList_wf; try lia; apply wf_tail|]. split; [done|]. split; [done|]. intros j Hj. unfold at_pos. cbn [makeList _capacity _tail _root].
      rewrite levels_mul. destruct (Z.leb_spec (getTailOffset (_capacity l)) j); [|destruct (Z.eqb_spec j (i + _origin l)); [lia|done]].
      specialize (Hu j). unfold tget, leaf_of in Hu. rewrite Hu. destruct (Z.eqb_spec (j mod 32) ((i + _origin l) mod 32)) as [E|E], (Z.eqb_spec j (i + _origin l)) as [|E2]; try done; [|congruence].
      destruct E2. pose proof (Z.div_mod j 32 ltac:(lia)). pose proof (Z.div_mod (i + _origin l) 32 ltac:(lia)).
      pose proof (Z.div_mod (getTailOffset (_capacity l)) 32 ltac:(lia)). pose proof (Z.mod_pos_bound j 32 ltac:(lia)). lia.
    + split; [done|]. split; [done|]. split; [done|]. intros j Hj. destruct (Z.eqb_spec j (i + _origin l)) as [->|]; [|done]. unfold at_pos.
      destruct (Z.leb_spec (getTailOffset (_capacity l)) (i + _origin l)); [|lia]. destruct Hu as (w & Hw1 & ->%Hstrict). exact Hw1.
  - pose proof (updateVNode_spec (depth (_level l)) (levels l) (_root l) (i + _origin l) v) as Hu. rewrite (wf_level _ Hw) in *. unfold depth in Hu |- *.
    specialize (Hu ltac:(lia) ltac:(lia) ltac:(lia)). destruct (updateVNode strict _ (_root l) _ _ _) as [a|].
    + split; [by apply makeList_wf; try lia; apply wf_tail|]. split; [done|]. split; [done|]. intros j Hj. unfold at_pos. cbn [makeList _capacity _tail _root]. rewrite levels_mul.
      destruct (Z.leb_spec (getTailOffset (_capacity l)) j); [destruct (Z.eqb_spec j (i + _origin l)); [lia|done]|].
      pose proof (wf_tail _ Hw). rewrite Hu, same_block by lia. done.
    + split; [done|]. split; [done|]. split; [done|]. intros j Hj. destruct (Z.eqb_spec j (i + _origin l)) as [->|]; [|done]. unfold at_pos.
      destruct (Z.leb_spec (getTailOffset (_capacity l)) (i + _origin l)); [lia|]. destruct Hu as (w & Hw1 & ->%Hstrict). exact Hw1.
Qed.

(** ** Moving the bounds *)

Lemma tail_offset_sub u d : 0 < u <= 2 ^ 30 -> d <= getTailOffset u -> u - d <= 2 ^ 30 -> (32 | d) -> getTailOffset (u - d) = getTailOffset u - d.
Proof.
  intros Hu Hd Hud [q ->]. pose proof (tail_offset_spec u Hu) as (_ & H2 & _). rewrite !tail_offset in * by lia. destruct (Z.eqb_spec u 0), (Z.eqb_spec (u - q * 32) 0); try lia.
  replace (u - q * 32 - 1) with (u - 1 + (- q) * 32) by lia. rewrite Z.div_add by lia. lia.
Qed.

Lemma in_leaf_mod n i j : i mod 32 = j mod 32 -> in_leaf n i = in_leaf n j.
Proof. unfold in_leaf. by intros ->. Qed.

Lemma in_leaf_after n u j : 0 < u < 2 ^ 32 -> j mod 32 <= (u - 1) mod 32 -> in_leaf (option_map (or_same (fun a => removeAfter 1 a 0 u)) n) j = in_leaf n j.
Proof.
  intros Hu Hj. destruct n as [a|]; [|done]. pose proof (removeAfter_spec 1 0 a u j ltac:(lia) ltac:(lia) Hu Hj) as H. exact H.
Qed.

Lemma in_leaf_before n i j : 0 <= i < 2 ^ 32 -> i mod 32 <= j mod 32 -> in_leaf (option_map (or_same (fun a => removeBefore 1 a 0 i)) n) j = in_leaf n j.
Proof.
  intros Hu Hj. destruct n as [a|]; [|done]. pose proof (removeBefore_spec 1 0 a i j ltac:(lia) ltac:(lia) Hu Hj) as H. exact H.
Qed.

(** The positions of a leaf *)
Lemma block_mod p u j : p mod 32 = 0 -> p <= j < u -> u <= p + 32 -> j mod 32 = j - p.
Proof. intros Hp Hj Hu. pose proof (Z.div_mod p 32 ltac:(lia)). symmetry. apply (Z.mod_unique _ _ (p / 32)); lia. Qed.

(** The node that becomes the tail has the elements of the last block. *)
Lemma new_tail l u j : wf l -> _origin l < u <= _capacity l -> getTailOffset u <= j < u -> _origin l <= j ->
  in_leaf (if getTailOffset u <? getTailOffset (_capacity l) then listNodeFor l (u - 1) else _tail l) j = at_pos l j.
Proof.
  intros Hw Hu Hj Ho. destruct (wf_inside l j Hw ltac:(lia)) as (Hr & Hc & _). pose proof (wf_bounds _ Hw).
  destruct (tail_offset_spec u ltac:(lia)) as (P1 & P2 & P3). destruct (tail_offset_spec (_capacity l) Hc) as (F1 & F2 & F3).
  destruct (Z.ltb_spec (getTailOffset u) (getTailOffset (_capacity l))) as [Hlt|Hge].
  - assert (u <= getTailOffset (_capacity l)) as Huf.
    { pose proof (Z.div_mod (getTailOffset u) 32 ltac:(lia)). pose proof (Z.div_mod (getTailOffset (_capacity l)) 32 ltac:(lia)). lia. }
    assert (j / 32 = (u - 1) / 32) as E.
    { pose proof (block_mod _ _ j P1 Hj P3). pose proof (block_mod (getTailOffset u) u (u - 1) P1 ltac:(lia) P3). pose proof (Z.div_mod j 32 ltac:(lia)). pose proof (Z.div_mod (u - 1) 32 ltac:(lia)). lia. }
    rewrite <- listNodeFor_spec by (done || lia). unfold listNodeFor. destruct (Z.leb_spec (getTailOffset (_capacity l)) (u - 1)), (Z.leb_spec (getTailOffset (_capacity l)) j); try lia.
    pose proof (wf_tail _ Hw). rewrite (wf_level _ Hw). unfold SHIFT. pose proof (wf_levels _ Hw).
    replace (5 * Z.of_nat (levels l) + 5) with (5 * Z.of_nat (S (levels l))) by lia. rewrite shl_level by lia.
    destruct (Z.ltb_spec (u - 1) (B (S (levels l)))), (Z.ltb_spec j (B (S (levels l)))); try lia. rewrite !node_for_loop_spec by lia.
    by rewrite (leaf_of_same _ _ (u - 1) j) by (by rewrite E).
  - assert (getTailOffset u = getTailOffset (_capacity l)) as E.
    { pose proof (Z.div_mod (getTailOffset u) 32 ltac:(lia)). pose proof (Z.div_mod (getTailOffset (_capacity l)) 32 ltac:(lia)). lia. }
    unfold at_pos. destruct (Z.leb_spec (getTailOffset (_capacity l)) j); [done|lia].
Qed.

(** [l'] has [n] elements, and at the positions [Q] those of [l] from [a] on; its
    origin is no further to the right. *)
Definition moved (Q : Z -> Prop) l l' (a n : Z) : Prop :=
  wf l' /\ (size l' = n /\ (0 <= a -> _origin l' <= a)) /\ forall x, 0 <= x < n -> Q (a + x) -> at_pos l' (_origin l' + x) = at_pos l (a + x).

(** All elements are in the tail. *)
Lemma only_tail (Q : Z -> Prop) l (a u p : Z) n : p mod 32 = 0 -> 0 <= p <= a -> a < u <= p + 32 -> u <= 2 ^ 30 -> (forall j, a <= j < u -> Q j -> in_leaf n j = at_pos l j) ->
  moved Q l (makeList (a - p) (u - p) SHIFT None (option_map (or_same (fun m => removeBefore 1 m 0 (a - p))) n)) a (u - a).
Proof.
  intros H32 Hp Hu H30 Hn. split; [|split; [cbn; lia|]].
  - change SHIFT with (5 * Z.of_nat 1). apply makeList_wf; try lia. rewrite tail_offset by lia. destruct (_ =? _); [done|]. change (B 2) with 1024.
    rewrite Z.div_small by lia. lia.
  - intros x Hx HQ. unfold at_pos at 1. cbn [makeList _capacity _origin _tail]. rewrite tail_offset by lia. destruct (Z.eqb_spec (u - p) 0); [lia|]. rewrite Z.div_small by lia.
    destruct (Z.leb_spec (32 * 0) (a - p + x)); [|lia]. rewrite in_leaf_before by (rewrite ?Z.mod_small by lia; lia). rewrite <- Hn by (done || lia). apply in_leaf_mod.
    rewrite (block_mod p u (a + x)) by lia. rewrite Z.mod_small; lia.
Qed.

(** The elements are in the tree, at [d] less, and in the tail. *)
Lemma tree_and_tail (Q : Z -> Prop) l (a u p d : Z) k r t : getTailOffset u = p -> 0 <= a - d -> (0 <= a -> 0 <= d) -> (32 | d) -> a < p -> u <= 2 ^ 30 -> u - d <= 2 ^ 30 -> (1 <= k <= 5)%nat -> p - d < B (S k) -> 0 < u ->
  (forall j, a <= j < p -> Q j -> tget k r (j - d) = at_pos l j) -> (forall j, p <= j < u -> Q j -> in_leaf t j = at_pos l j) ->
  moved Q l (makeList (a - d) (u - d) (5 * Z.of_nat k) r t) a (u - a).
Proof.
  intros <- Hd Hda H32 Ha Hu Hud Hk Hp H0 Hr Ht. pose proof (tail_offset_spec u ltac:(lia)) as (T1 & T2 & T3).
  assert (getTailOffset (u - d) = getTailOffset u - d) as Eo by (apply tail_offset_sub; [lia|lia|done|done]).
  split; [|split; [cbn; lia|]].
  - apply makeList_wf; try lia.
  - intros x Hx HQ. unfold at_pos at 1. rewrite levels_mul. cbn [makeList _capacity _origin _tail _root]. rewrite Eo.
    destruct (Z.leb_spec (getTailOffset u - d) (a - d + x)).
    + rewrite <- Ht by (done || lia). apply in_leaf_mod. destruct H32 as [q ->]. replace (a - q * 32 + x) with (a + x + (- q) * 32) by lia. by rewrite Z_mod_plus_full.
    + rewrite <- Hr by (done || lia). f_equal. lia.
Qed.

(** The bounds move inwards. *)
Lemma move_shrink l (a u : Z) : wf l -> _origin l <= a < u -> u <= _capacity l -> exists l', moveBounds l a u = Some l' /\ moved (fun _ => True) l l' a (u - a).
Proof.
  intros Hw Ha Hu. pose proof (wf_bounds _ Hw) as Hb. pose proof (wf_levels _ Hw) as Hk. pose proof (wf_size _ Hw) as Hsz.
  unfold moveBounds. destruct ((a =? _origin l) && (u =? _capacity l)) eqn:E0.
  { apply andb_true_iff in E0 as [->%Z.eqb_eq ->%Z.eqb_eq]. exists l. split; [done|]. split; [done|]. split; [lia|]. done. }
  clear E0. destruct (Z.leb_spec u a); [lia|]. rewrite grow_before_none by lia. rewrite !Z.add_0_r.
  destruct (tail_offset_spec u ltac:(lia)) as (P1 & P2 & P3). destruct (tail_offset_spec (_capacity l) ltac:(lia)) as (F1 & F2 & F3).
  pose proof (wf_tail _ Hw) as Htl. set (p := getTailOffset u) in *. set (f := getTailOffset (_capacity l)) in *.
  assert (p <= f) as Hpf. { pose proof (Z.div_mod p 32 ltac:(lia)). pose proof (Z.div_mod f 32 ltac:(lia)). lia. }
  rewrite (wf_level _ Hw). destruct (grow_after_spec 7 (levels l) (_root l) p ltac:(lia) ltac:(lia) ltac:(lia) ltac:(lia)) as (k' & n' & -> & _ & _ & _ & Hsame).
  destruct Hsame as [-> ->]; [lia|]. destruct (Z.ltb_spec f p); [lia|]. cbn [andb].
  replace (match _tail l with Some _ => _root l | None => _root l end) with (_root l) by (by destruct (_tail l)).
  set (t := if u <? _capacity l then _ else _).
  assert (forall j, p <= j < u -> _origin l <= j -> in_leaf t j = at_pos l j) as Ht.
  { intros j Hj Ho. rewrite <- (new_tail l u j) by (done || lia). fold p f. unfold t. destruct (u <? _capacity l); [|done]. apply in_leaf_after; [lia|].
    rewrite (block_mod p u j), (block_mod p u (u - 1)) by lia. lia. }
  destruct (Z.leb_spec p a).
  { eexists. split; [done|]. apply only_tail; try lia. intros j Hj _. apply Ht; lia. }
  assert (forall j, a <= j < p -> tget (levels l) (_root l) j = at_pos l j) as Htree.
  { intros j Hj. unfold at_pos. fold f. destruct (Z.leb_spec f j); [lia|done]. }
  destruct ((_origin l <? a) || (p <? f)).
  - destruct (new_root_spec (depth (5 * Z.of_nat (levels l))) (levels l) (_root l) a p 0) as (k' & d & n' & -> & Hk' & Hd & Hda & Hdp & Hg); try (unfold depth; lia).
    { rewrite !Z.mod_small by lia. lia. }
    rewrite Z.add_0_l. rewrite !Z.mod_small in * by lia. pose proof (B_pos k') as HB.
    eexists. split; [done|]. apply (tree_and_tail _ l a u p d); try done; try lia; [apply (Z.divide_trans _ (B (S k'))); [exists (B k'); rewrite B_S; lia|exact Hd]| |intros j Hj _; apply Ht; lia].
    intros j Hj _.
    assert (forall m, tget k' (if _origin l <? a then option_map (or_same (fun a0 => removeBefore (depth (5 * Z.of_nat k')) a0 (5 * Z.of_nat k') (a - d))) m else m) (j - d) = tget k' m (j - d)) as Hbef.
    { intros m. destruct (_origin l <? a); [|done]. destruct m as [m|]; [|done]. apply removeBefore_spec; try (unfold depth; lia). rewrite !Z.mod_small by lia. lia. }
    assert (forall m, tget k' (if p <? f then option_map (or_same (fun a0 => removeAfter (depth (5 * Z.of_nat k')) a0 (5 * Z.of_nat k') (p - d))) m else m) (j - d) = tget k' m (j - d)) as Haft.
    { intros m. destruct (p <? f); [|done]. destruct m as [m|]; [|done]. apply removeAfter_spec; try (unfold depth; lia). rewrite !Z.mod_small by lia. lia. }
    rewrite Haft, Hbef. rewrite <- Htree by lia. rewrite <- Hg by (rewrite Z.mod_small; lia). replace (j - d) with (j + - d) by lia. apply tget_add. by apply Z.divide_opp_r.
  - eexists. split; [done|]. replace (makeList a u) with (makeList (V := V) (a - 0) (u - 0)) by (by rewrite !Z.sub_0_r).
    apply (tree_and_tail _ l a u p 0); try done; try lia; [apply Z.divide_0_r| |intros j Hj _; apply Ht; lia]. intros j Hj _. rewrite Z.sub_0_r. by apply Htree.
Qed.

Lemma div32_block f u j : f mod 32 = 0 -> f <= j < u -> u <= f + 32 -> j / 32 = f / 32.
Proof. intros Hf Hj Hu. pose proof (block_mod f u j Hf Hj Hu). pose proof (Z.div_mod j 32 ltac:(lia)). pose proof (Z.div_mod f 32 ltac:(lia)). lia. Qed.

(** The capacity grows; the last element must not be undefined, or the tail may be
    lost. *)
Lemma move_grow l (u : Z) : wf l -> _origin l < _capacity l < u -> u <= 2 ^ 30 -> at_pos l (_capacity l - 1) <> Undef ->
  exists l', moveBounds l (_origin l) u = Some l' /\ moved (fun j => j < _capacity l) l l' (_origin l) (u - _origin l).
Proof.
  intros Hw Hu H30 Hlast. pose proof (wf_bounds _ Hw) as Hb. pose proof (wf_levels _ Hw) as Hk. pose proof (wf_tail _ Hw) as Htl.
  destruct (tail_offset_spec u ltac:(lia)) as (P1 & P2 & P3). destruct (tail_offset_spec (_capacity l) ltac:(lia)) as (F1 & F2 & F3).
  unfold moveBounds. rewrite Z.eqb_refl. destruct (Z.eqb_spec u (_capacity l)); [lia|]. cbn [andb]. destruct (Z.leb_spec u (_origin l)); [lia|].
  rewrite grow_before_none by lia. rewrite !Z.add_0_r. set (p := getTailOffset u) in *. set (f := getTailOffset (_capacity l)) in *.
  assert (f <= p) as Hfp. { pose proof (Z.div_mod p 32 ltac:(lia)). pose proof (Z.div_mod f 32 ltac:(lia)). lia. }
  rewrite (wf_level _ Hw). destruct (grow_after_spec 7 (levels l) (_root l) p ltac:(lia) ltac:(lia) ltac:(lia) ltac:(lia)) as (k' & n' & -> & Hk' & Hp' & Hg & Hsame).
  destruct (Z.ltb_spec p f); [lia|]. destruct (Z.ltb_spec u (_capacity l)); [lia|]. rewrite Z.ltb_irrefl. cbn [orb].
  destruct (Z.ltb_spec f p) as [Hlt|Hge].
  - assert (f + 32 <= p) as Hfp32. { pose proof (Z.div_mod p 32 ltac:(lia)). pose proof (Z.div_mod f 32 ltac:(lia)). lia. }
    unfold at_pos in Hlast. fold f in Hlast. destruct (Z.leb_spec f (_capacity l - 1)); [|lia]. destruct (_tail l) as [d|] eqn:Htail; [|done].
    destruct (Z.ltb_spec (_origin l) (_capacity l)); [|lia]. destruct (Z.eqb_spec (len d) 0) as [E|E]; [destruct d; [unfold in_leaf in Hlast; by rewrite get_at_nil in Hlast|by cbn in E]|]. cbn [andb negb].
    destruct (Z.leb_spec p (_origin l)); [lia|]. eexists. split; [done|].
    replace (makeList (_origin l) u) with (makeList (V := V) (_origin l - 0) (u - 0)) by (by rewrite !Z.sub_0_r).
    apply (tree_and_tail _ l _ u p 0); try done; try lia; [apply Z.divide_0_r|]. intros j Hj HQ. rewrite Z.sub_0_r, insert_leaf_spec by (unfold depth; lia).
    assert (forall x, 0 <= x < B (S k') -> x / 32 mod B k' = x / 32) as Hsm.
    { intros x Hx. rewrite B_S in Hx. apply Z.mod_small. split; [apply Z.div_pos; lia|apply Z.div_lt_upper_bound; lia]. }
    rewrite !Hsm by lia. unfold at_pos. fold f. rewrite Htail. destruct (Z.leb_spec f j).
    + rewrite (div32_block f (_capacity l) j), Z.eqb_refl by lia. done.
    + destruct (Z.eqb_spec (j / 32) (f / 32)) as [E2|]; [|apply Hg; lia].
      pose proof (Z.div_mod j 32 ltac:(lia)). pose proof (Z.div_mod f 32 ltac:(lia)). pose proof (Z.mod_pos_bound j 32 ltac:(lia)). lia.
  - destruct Hsame as [-> ->]; [lia|]. assert (getTailOffset u = f) as Epf by (fold p; lia). replace p with f in * by lia. cbn [andb].
    replace (match _tail l with Some _ => _root l | None => _root l end) with (_root l) by (by destruct (_tail l)).
    assert (forall j, f <= j -> in_leaf (_tail l) j = at_pos l j) as Ht by (intros j Hj; unfold at_pos; fold f; destruct (Z.leb_spec f j); [done|lia]).
    destruct (Z.leb_spec f (_origin l)).
    + eexists. split; [done|]. apply only_tail; try lia. intros j Hj _. apply Ht. lia.
    + eexists. split; [done|]. replace (makeList (_origin l) u) with (makeList (V := V) (_origin l - 0) (u - 0)) by (by rewrite !Z.sub_0_r).
      apply (tree_and_tail _ l _ u f 0); try done; try lia; [apply Z.divide_0_r| |intros j Hj _; apply Ht; lia]. intros j Hj _. rewrite Z.sub_0_r. unfold at_pos. fold f.
      destruct (Z.leb_spec f j); [lia|done].
Qed.

(** An empty list gets bounds. *)
Lemma move_grow_empty (u : Z) : 0 < u <= 2 ^ 30 -> exists l', moveBounds emptyList 0 u = Some l' /\ moved (fun _ => False) emptyList l' 0 (u - 0).
Proof.
  intros Hu. destruct (tail_offset_spec u Hu) as (P1 & P2 & P3). unfold moveBounds. cbn [_origin _capacity _level _root _tail emptyList makeList]. rewrite Z.eqb_refl.
  destruct (Z.eqb_spec u 0); [lia|]. cbn [andb]. destruct (Z.leb_spec u 0); [lia|]. rewrite grow_before_none by lia. change (0 + 0) with 0. rewrite !Z.add_0_r.
  change (getTailOffset 0) with 0. set (p := getTailOffset u) in *. unfold SHIFT. change 5 with (5 * Z.of_nat 1).
  destruct (grow_after_spec 7 1 (None : option node) p ltac:(lia) ltac:(lia) ltac:(lia) ltac:(lia)) as (k' & n' & -> & Hk' & Hp' & _ & _).
  destruct (Z.ltb_spec u 0); [lia|]. destruct (Z.ltb_spec p 0); [lia|]. cbn [Z.ltb Z.compare orb]. destruct (Z.leb_spec p 0).
  - eexists. split; [done|]. pose proof (only_tail (fun _ => False) emptyList 0 u p (if 0 <? p then Some [] else None)) as Hm.
    apply Hm; try lia.
  - eexists. split; [done|]. replace (makeList 0 u) with (makeList (V := V) (0 - 0) (u - 0)) by (by rewrite !Z.sub_0_r).
    apply (tree_and_tail (fun _ => False) emptyList 0 u p 0); try done; try lia. apply Z.divide_0_r.
Qed.

(** Room for [n] elements before the first *)
Definition room_before l (n : Z) : bool :=
  (n <=? _origin l) || ((levels l <=? 4)%nat && (n - _origin l <=? B (S (levels l))) && (_capacity l + B (S (levels l)) <=? 2 ^ 30)).

(** The origin moves to the left. *)
Lemma move_before l (a : Z) : wf l -> a < _origin l -> room_before l (_origin l - a) = true ->
  exists l', moveBounds l a (_capacity l) = Some l' /\ moved (fun j => _origin l <= j) l l' a (_capacity l - a).
Proof.
  intros Hw Ha Hroom. pose proof (wf_bounds _ Hw) as Hb. pose proof (wf_levels _ Hw) as Hk. pose proof (wf_tail _ Hw) as Htl.
  assert (_origin l <= _capacity l) as Hoc by (destruct (wf_nonempty _ Hw) as [|E]; [lia|rewrite E; cbn; lia]).
  unfold moveBounds. destruct (Z.eqb_spec a (_origin l)); [lia|]. cbn [andb]. destruct (Z.leb_spec (_capacity l) a); [lia|].
  assert (forall j, getTailOffset (_capacity l) <= j -> in_leaf (_tail l) j = at_pos l j) as Ht by (intros j Hj; unfold at_pos; destruct (Z.leb_spec (getTailOffset (_capacity l)) j); [done|lia]).
  destruct (Z.le_gt_cases 0 a) as [H0|H0].
  - destruct (tail_offset_spec (_capacity l) ltac:(lia)) as (F1 & F2 & F3). set (f := getTailOffset (_capacity l)) in *.
    rewrite grow_before_none by lia. rewrite !Z.add_0_r. fold f. rewrite (wf_level _ Hw).
    destruct (grow_after_spec 7 (levels l) (_root l) f ltac:(lia) ltac:(lia) ltac:(lia) ltac:(lia)) as (k' & n' & -> & _ & _ & _ & Hsame). destruct Hsame as [-> ->]; [lia|].
    rewrite !Z.ltb_irrefl. cbn [andb]. replace (match _tail l with Some _ => _root l | None => _root l end) with (_root l) by (by destruct (_tail l)).
    destruct (Z.ltb_spec (_origin l) a); [lia|]. cbn [orb]. destruct (Z.leb_spec f a).
    + eexists. split; [done|]. apply only_tail; try lia. intros j Hj _. apply Ht. lia.
    + eexists. split; [done|]. replace (makeList a (_capacity l)) with (makeList (V := V) (a - 0) (_capacity l - 0)) by (by rewrite !Z.sub_0_r).
      apply (tree_and_tail _ l a (_capacity l) f 0); try done; try lia; [apply Z.divide_0_r| |intros j Hj _; apply Ht; lia]. intros j Hj _. rewrite Z.sub_0_r. unfold at_pos. fold f.
      destruct (Z.leb_spec f j); [lia|done].
  - unfold room_before in Hroom. rewrite orb_true_iff, !andb_true_iff in Hroom. destruct Hroom as [Hroom|[[Hr1 Hr2] Hr3]]; [lia|]. apply Nat.leb_le in Hr1. apply Z.leb_le in Hr2, Hr3.
    rewrite (wf_level _ Hw), grow_before_one by lia. set (c := B (S (levels l))) in *. set (root' := Some (if no_array (_root l) then _ else _)).
    assert (1024 <= c) as Hc by (unfold c; change 1024 with (B 2); apply B_mono; lia). assert (32 | c) as H32 by (exists (B (levels l)); unfold c; rewrite B_S; lia).
    assert (B (S (S (levels l))) = 32 * c) as HB by (unfold c; by rewrite B_S).
    destruct (tail_offset_spec (_capacity l + c) ltac:(lia)) as (P1 & P2 & P3).
    destruct (grow_after_spec 7 (S (levels l)) root' (getTailOffset (_capacity l + c)) ltac:(lia) ltac:(lia) ltac:(lia) ltac:(lia)) as (k' & n' & -> & _ & _ & _ & Hsame).
    assert (_capacity l <= getTailOffset (_capacity l) + 32) as Hcf by (destruct (decide (_capacity l = 0)) as [->|]; [change (getTailOffset 0) with 0; lia|apply tail_offset_spec; lia]).
    destruct Hsame as [-> ->]; [lia|]. rewrite !Z.ltb_irrefl. cbn [andb]. replace (match _tail l with Some _ => root' | None => root' end) with root' by (by destruct (_tail l)).
    destruct (Z.ltb_spec (_origin l + c) (a + c)); [lia|]. cbn [orb]. destruct (wf_nonempty _ Hw) as [Hne|He].
    + assert (getTailOffset (_capacity l + c) = getTailOffset (_capacity l) + c) as Eo.
      { replace (_capacity l + c) with (_capacity l - - c) by lia. rewrite tail_offset_sub; [lia|lia| |lia|by apply Z.divide_opp_r].
        destruct (tail_offset_spec (_capacity l) ltac:(lia)). lia. }
      destruct (tail_offset_spec (_capacity l) ltac:(lia)) as (F1 & F2 & F3). rewrite Eo. destruct (Z.leb_spec (getTailOffset (_capacity l) + c) (a + c)); [lia|]. eexists. split; [done|].
      replace (makeList (a + c) (_capacity l + c)) with (makeList (V := V) (a - - c) (_capacity l - - c)) by (f_equal; lia).
      apply (tree_and_tail _ l a (_capacity l) (getTailOffset (_capacity l)) (- c)); try done; try lia; [by apply Z.divide_opp_r| |intros j Hj _; apply Ht; lia].
      intros j Hj HQ. replace (j - - c) with (j + B (S (levels l))) by (fold c; lia). unfold root'. rewrite tget_root1 by (fold c; lia). unfold at_pos.
      destruct (Z.leb_spec (getTailOffset (_capacity l)) j); [lia|done].
    + assert (forall l', moved (fun _ => False) emptyList l' (a + c) (_capacity l + c - (a + c)) -> moved (fun j => _origin l <= j) l l' a (_capacity l - a)) as Hmv.
      { intros l' (M1 & M2 & _). split; [done|]. split; [lia|]. intros x Hx HQ. rewrite He in Hx, HQ. cbn in *. lia. }
      rewrite He in *. cbn [_capacity _origin emptyList makeList] in *. destruct (Z.leb_spec (getTailOffset (0 + c)) (a + c)).
      * eexists. split; [done|]. apply Hmv. apply only_tail; try lia.
      * eexists. split; [done|]. apply Hmv. replace (makeList (a + c) (0 + c)) with (makeList (V := V) (a + c - 0) (0 + c - 0)) by (f_equal; lia).
        apply (tree_and_tail _ emptyList (a + c) (0 + c) (getTailOffset (0 + c)) 0); try done; try lia. apply Z.divide_0_r.
Qed.
End Facts.
