(* ===== verification/ImListSpec.v ===== *)
(** * Immutable: what the methods of List do

    The methods of [ImList] against lists of Rocq, for lists that have no undefined
    element. *)

From stdpp Require Import list.
From S2P Require Import Prelude ImSeq ImList ImListFacts.
Local Open Scope Z_scope.
Local Open Scope js_scope.

Section Spec.
Context {V : Type} (strict : V -> V -> bool) (Hstrict : forall v w, strict v w = true -> v = w).
Implicit Types (l : ilist (V := V)) (xs vs : list V).

(** The elements of a list *)
Record repr l xs : Prop := {
  rep_wf : wf l;
  rep_size : size l = Z.of_nat (length xs);
  rep_at i v : xs !! i = Some v -> at_pos l (_origin l + Z.of_nat i) = Val v
}.

Lemma repr_empty : repr emptyList [].
Proof. constructor; [apply emptyList_wf|done|done]. Qed.

Lemma repr_nil l : repr l [] -> l = emptyList.
Proof. intros [Hw Hs _]. destruct (wf_nonempty _ Hw) as [Hlt|]; [|done]. rewrite (wf_size _ Hw) in Hs. cbn in Hs. lia. Qed.

Lemma repr_nonempty l xs : repr l xs -> xs <> [] -> _origin l < _capacity l.
Proof. intros [Hw Hs _] Hne. pose proof (wf_size _ Hw). destruct xs; [done|]. cbn in Hs. lia. Qed.

(** ** Reading *)

Definition spec_get xs (i : Z) (d : cell V) : cell V :=
  let i := if i <? 0 then Z.of_nat (length xs) + i else i in
  if i <? 0 then d else match xs !! Z.to_nat i with Some v => Val v | None => d end.

Lemma repr_get l xs i d : repr l xs -> get l i d = spec_get xs i d.
Proof.
  intros [Hw Hs Ha]. assert (forall j, 0 <= j -> get l j d = match xs !! Z.to_nat j with Some v => Val v | None => d end) as Hpos.
  { intros j Hj. destruct (xs !! Z.to_nat j) as [v|] eqn:E.
    - pose proof (lookup_lt_Some _ _ _ E). rewrite get_spec by (done || lia). rewrite <- (Ha _ _ E). do 2 f_equal. lia.
    - apply lookup_ge_None in E. rewrite get_outside by lia. done. }
  unfold spec_get. destruct (Z.ltb_spec i 0); [|destruct (Z.ltb_spec i 0); [lia|by apply Hpos]]. destruct (Z.ltb_spec (Z.of_nat (length xs) + i) 0).
  - by rewrite get_outside by lia.
  - rewrite get_negative, Hs by lia. by apply Hpos.
Qed.

(** ** Setting elements *)

Lemma set_inside_repr l xs i v : repr l xs -> 0 <= i < size l -> repr (set_inside strict l i (Val v)) (<[Z.to_nat i := v]> xs).
Proof.
  intros [Hw Hs Ha] Hi. destruct (set_inside_spec strict Hstrict l i v Hw Hi) as (Hw' & Ho & Hc & Hat). pose proof (wf_size _ Hw). pose proof (wf_size _ Hw').
  constructor; [done|rewrite length_insert; lia|]. intros j w Hj. pose proof (lookup_lt_Some _ _ _ Hj) as Hl. rewrite length_insert in Hl. rewrite Ho, Hat by lia.
  destruct (Z.eqb_spec (_origin l + Z.of_nat j) (_origin l + i)) as [E|E].
  - replace (Z.to_nat i) with j in Hj by lia. rewrite list_lookup_insert_eq in Hj by lia. congruence.
  - rewrite list_lookup_insert_ne in Hj by lia. by apply Ha.
Qed.

Lemma set_in_range l i x : 0 <= i < size l -> set strict l i x = Some (set_inside strict l i x).
Proof.
  intros Hi. unfold set, wrapIndex. destruct (Z.ltb_spec i 0) as [|H0]; [lia|]. cbn zeta. destruct (Z.leb_spec (size l) i); [lia|].
  by destruct (Z.ltb_spec i 0); [lia|].
Qed.

Lemma set_from_spec l i vs : wf l -> 0 <= i -> i + Z.of_nat (length vs) <= size l -> exists l', set_from strict l i (Val <$> vs) = Some l'
  /\ wf l' /\ _origin l' = _origin l /\ size l' = size l
  /\ forall x, 0 <= x < size l -> at_pos l' (_origin l + x) = match (if x <? i then None else vs !! Z.to_nat (x - i)) with Some v => Val v | None => at_pos l (_origin l + x) end.
Proof.
  intros Hw. revert l i Hw. induction vs as [|v vs IH]; intros l i Hw Hi Hlen.
  - exists l. split; [done|]. do 3 (split; [done|]). intros x Hx. by destruct (x <? i).
  - rewrite fmap_cons. cbn [set_from length] in *. rewrite set_in_range by lia.
    destruct (set_inside_spec strict Hstrict l i v Hw ltac:(lia)) as (Hw1 & Ho1 & Hc1 & Hat1). set (l1 := set_inside strict l i (Val v)) in *.
    pose proof (wf_size _ Hw). pose proof (wf_size _ Hw1).
        destruct (IH l1 (i + 1) Hw1 ltac:(lia) ltac:(lia)) as (l' & -> & Hw' & Ho' & Hs' & Hat'). exists l'. split; [done|]. split; [done|]. split; [lia|]. split; [lia|].
    intros x Hx. rewrite <- Ho1 at 1. rewrite Hat' by lia. rewrite Ho1, Hat1 by lia. destruct (Z.ltb_spec x (i + 1)), (Z.ltb_spec x i); try lia.
    + destruct (Z.eqb_spec (_origin l + x) (_origin l + i)); [lia|done].
    + replace x with i by lia. rewrite Z.eqb_refl, Z.sub_diag. done.
    + replace (Z.to_nat (x - i)) with (S (Z.to_nat (x - (i + 1)))) by lia. cbn. destruct (vs !! _); [done|]. destruct (Z.eqb_spec (_origin l + x) (_origin l + i)); [lia|done].
Qed.

(** ** Moving the bounds *)

Lemma or_zero z : - 2 ^ 31 <= z < 2 ^ 31 -> z .| 0 = z.
Proof. intros Hz. unfold js_or. change (i32 0) with 0. rewrite Z.lor_0_r. by apply i32_id. Qed.

Lemma shrink_repr l xs a u : repr l xs -> (a < u <= length xs)%nat ->
  exists l', moveBounds l (_origin l + Z.of_nat a) (_origin l + Z.of_nat u) = Some l' /\ repr l' (take (u - a) (drop a xs)).
Proof.
  intros [Hw Hs Ha] Hu. pose proof (wf_size _ Hw). destruct (move_shrink l (_origin l + Z.of_nat a) (_origin l + Z.of_nat u) Hw) as (l' & -> & Hw' & Hs' & Hat); [lia|lia|].
  exists l'. split; [done|]. constructor; [done|rewrite length_take, length_drop; lia|]. intros i v Hi. apply lookup_take_Some in Hi as [Hi Hlt]. rewrite lookup_drop in Hi.
  rewrite Hat by (done || lia). rewrite <- (Ha _ _ Hi). f_equal. lia.
Qed.

Lemma clear_repr l xs : repr l xs -> repr (clear l) [].
Proof.
  intros H. unfold clear. destruct (Z.eqb_spec (size l) 0) as [E|]; [|apply repr_empty]. pose proof (rep_size _ _ H). destruct xs; [done|]. cbn in *. lia.
Qed.

(** Bounds that leave nothing *)
Lemma nothing_repr l xs a u : repr l xs -> u <= a -> _origin l <= a -> u <= _capacity l -> exists l', moveBounds l a u = Some l' /\ repr l' [].
Proof.
  intros H Hle Ha Hu. pose proof (wf_size _ (rep_wf _ _ H)). unfold moveBounds. destruct ((a =? _origin l) && (u =? _capacity l)) eqn:E.
  - apply andb_true_iff in E as [->%Z.eqb_eq ->%Z.eqb_eq]. exists l. split; [done|]. pose proof (rep_size _ _ H) as Hs. destruct xs; [done|]. cbn in Hs. lia.
  - destruct (Z.leb_spec u a); [|lia]. exists (clear l). split; [done|]. by eapply clear_repr.
Qed.

Lemma last_defined l xs : repr l xs -> xs <> [] -> at_pos l (_capacity l - 1) <> Undef.
Proof.
  intros [Hw Hs Ha] Hne. pose proof (wf_size _ Hw). destruct (last xs) as [v|] eqn:E; [|by apply last_None in E].
  rewrite last_lookup in E. assert (0 < length xs)%nat by (destruct xs; [done|cbn; lia]).
  replace (_capacity l - 1) with (_origin l + Z.of_nat (Nat.pred (length xs))) by lia. by rewrite (Ha _ _ E).
Qed.

(** The part of a sequence between two indices *)
Definition spec_range xs (b e : Z) : list V := take (Z.to_nat (e - b)) (drop (Z.to_nat b) xs).

Lemma range_repr l xs b e : repr l xs -> 0 <= b -> e <= Z.of_nat (length xs) ->
  exists l', moveBounds l (_origin l + b) (_origin l + e) = Some l' /\ repr l' (spec_range xs b e).
Proof.
  intros H Hb He. pose proof (wf_size _ (rep_wf _ _ H)). pose proof (rep_size _ _ H). unfold spec_range. destruct (Z.le_gt_cases e b).
  - replace (Z.to_nat (e - b)) with O by lia. cbn. by apply (nothing_repr l xs); [|lia..].
  - destruct (shrink_repr l xs (Z.to_nat b) (Z.to_nat e) H ltac:(lia)) as (l' & Hm & Hr). exists l'. rewrite !Z2Nat.id in Hm by lia. split; [done|].
    by replace (Z.to_nat (e - b)) with (Z.to_nat e - Z.to_nat b)%nat by lia.
Qed.

(** Elements are added at the end. *)
Lemma grow_end l xs n : repr l xs -> 0 < n -> _capacity l + n <= 2 ^ 30 -> exists l', moveBounds l (_origin l) (_capacity l + n) = Some l'
  /\ wf l' /\ (size l' = size l + n /\ _origin l' <= _origin l) /\ forall i v, xs !! i = Some v -> at_pos l' (_origin l' + Z.of_nat i) = Val v.
Proof.
  intros H Hn Hc. pose proof (wf_size _ (rep_wf _ _ H)) as Hsz. pose proof (rep_size _ _ H) as Hs. destruct (decide (xs = [])) as [->|Hne].
  - pose proof (repr_nil _ H) as ->. change (_origin emptyList) with 0. change (_capacity emptyList) with 0 in *. rewrite Z.add_0_l in *. cbn [length] in Hs. destruct (move_grow_empty (V := V) n ltac:(lia)) as (l' & -> & Hw & Hs' & _). exists l'. split; [done|]. split; [done|]. split; [lia|done].
  - pose proof (repr_nonempty _ _ H Hne). destruct (move_grow l (_capacity l + n) (rep_wf _ _ H)) as (l' & -> & Hw & Hs' & Hat); [lia|lia|by eapply last_defined|]. pose proof (wf_bounds _ (rep_wf _ _ H)).
    exists l'. split; [done|]. split; [done|]. split; [lia|]. intros i v Hi. pose proof (lookup_lt_Some _ _ _ Hi). rewrite Hat by lia. by apply H.
Qed.

Lemma push_repr l xs vs : repr l xs -> _capacity l + Z.of_nat (length vs) <= 2 ^ 30 -> exists l', push strict l (Val <$> vs) = Some l' /\ repr l' (xs ++ vs) /\ _origin l' <= _origin l.
Proof.
  intros H Hc. pose proof (wf_size _ (rep_wf _ _ H)) as Hsz. pose proof (rep_size _ _ H) as Hs. pose proof (wf_bounds _ (rep_wf _ _ H)).
  unfold push, setListBounds, len. rewrite length_fmap. cbn [option_map]. rewrite !or_zero by lia. destruct (Z.ltb_spec (size l + Z.of_nat (length vs)) 0); [lia|]. rewrite Z.add_0_r.
  replace (_origin l + (size l + Z.of_nat (length vs))) with (_capacity l + Z.of_nat (length vs)) by lia. destruct vs as [|v vs].
  - cbn [length]. rewrite Z.add_0_r. unfold moveBounds. rewrite !Z.eqb_refl. cbn. exists l. split; [done|]. by rewrite app_nil_r.
  - destruct (grow_end l xs (Z.of_nat (length (v :: vs))) H) as (l1 & -> & Hw1 & Hs1 & Hat1); [cbn; lia|done|].
    destruct (set_from_spec l1 (size l) (v :: vs) Hw1 ltac:(lia) ltac:(lia)) as (l' & -> & Hw' & Ho' & Hs' & Hat'). exists l'. split; [done|]. split; [|lia].
    constructor; [done|rewrite length_app; lia|]. intros i w Hi. pose proof (lookup_lt_Some _ _ _ Hi) as Hlt. rewrite length_app in Hlt. rewrite Ho', Hat' by lia.
    destruct (Z.ltb_spec (Z.of_nat i) (size l)).
    + apply Hat1. by rewrite lookup_app_l in Hi by lia.
    + rewrite lookup_app_r in Hi by lia. replace (Z.to_nat (Z.of_nat i - size l)) with (i - length xs)%nat by lia. by rewrite Hi.
Qed.

(** Elements are added at the front. *)
Lemma grow_front l xs n : repr l xs -> 0 < n -> room_before l n = true -> exists l', moveBounds l (_origin l - n) (_capacity l) = Some l'
  /\ wf l' /\ size l' = size l + n /\ forall i v, xs !! i = Some v -> at_pos l' (_origin l' + (n + Z.of_nat i)) = Val v.
Proof.
  intros H Hn Hr. pose proof (wf_size _ (rep_wf _ _ H)) as Hsz. pose proof (rep_size _ _ H) as Hs.
  destruct (move_before l (_origin l - n) (rep_wf _ _ H)) as (l' & -> & Hw & Hs' & Hat); [lia|by replace (_origin l - (_origin l - n)) with n by lia|].
  exists l'. split; [done|]. split; [done|]. split; [lia|]. intros i v Hi. pose proof (lookup_lt_Some _ _ _ Hi). rewrite Hat by lia. rewrite <- (rep_at _ _ H i v Hi). f_equal. lia.
Qed.

Lemma unshift_repr l xs vs : repr l xs -> room_before l (Z.of_nat (length vs)) = true -> Z.of_nat (length vs) < 2 ^ 31 -> exists l', unshift strict l (Val <$> vs) = Some l' /\ repr l' (vs ++ xs).
Proof.
  intros H Hr Hlen. pose proof (wf_size _ (rep_wf _ _ H)) as Hsz. pose proof (rep_size _ _ H) as Hs.
  unfold unshift, setListBounds, len. rewrite length_fmap. cbn [option_map]. rewrite or_zero by lia. replace (_origin l + - Z.of_nat (length vs)) with (_origin l - Z.of_nat (length vs)) by lia.
  destruct vs as [|v vs].
  - cbn [length]. rewrite Z.sub_0_r. unfold moveBounds. rewrite !Z.eqb_refl. cbn. by exists l.
  - destruct (grow_front l xs (Z.of_nat (length (v :: vs))) H) as (l1 & -> & Hw1 & Hs1 & Hat1); [cbn; lia|done|].
    destruct (set_from_spec l1 0 (v :: vs) Hw1 ltac:(lia) ltac:(lia)) as (l' & -> & Hw' & Ho' & Hs' & Hat'). exists l'. split; [done|].
    constructor; [done|rewrite length_app; lia|]. intros i w Hi. pose proof (lookup_lt_Some _ _ _ Hi) as Hlt. rewrite length_app in Hlt. rewrite Ho', Hat' by lia.
    destruct (Z.ltb_spec (Z.of_nat i) 0); [lia|]. rewrite Z.sub_0_r, Nat2Z.id. destruct (decide (i < length (v :: vs))%nat) as [Hi'|Hi'].
    + rewrite lookup_app_l in Hi by done. by rewrite Hi.
    + rewrite lookup_app_r in Hi by lia. rewrite (lookup_ge_None_2 (v :: vs)) by lia. rewrite <- (Hat1 _ _ Hi). do 2 f_equal. lia.
Qed.

Lemma bounds_range l xs b e : repr l xs -> 0 <= b < 2 ^ 31 -> - 2 ^ 31 <= e < 2 ^ 31 -> (if e <? 0 then Z.of_nat (length xs) + e else e) <= Z.of_nat (length xs) ->
  exists l', setListBounds l b (Some e) = Some l' /\ repr l' (spec_range xs b (if e <? 0 then Z.of_nat (length xs) + e else e)).
Proof.
  intros H Hb He Hle. pose proof (wf_size _ (rep_wf _ _ H)). pose proof (rep_size _ _ H). unfold setListBounds. cbn [option_map]. rewrite !or_zero by lia.
  replace (if e <? 0 then _capacity l + e else _origin l + e) with (_origin l + (if e <? 0 then Z.of_nat (length xs) + e else e)) by (destruct (e <? 0); lia).
  apply range_repr; [done|lia|done].
Qed.

(** ** Slices *)

Definition wrap xs (i : Z) : Z := if i <? 0 then Z.of_nat (length xs) + i else i.
Definition resolve xs (i : option Z) (d : Z) : Z :=
  match i with None => d | Some i => if i <? 0 then Z.max 0 (Z.of_nat (length xs) + i) else Z.min (Z.of_nat (length xs)) i end.

Lemma slice_repr l xs b e : repr l xs -> exists l', slice l b e = Some l' /\ repr l' (spec_range xs (resolve xs b 0) (resolve xs e (Z.of_nat (length xs)))).
Proof.
  intros H. pose proof (rep_size _ _ H) as Hs. pose proof (wf_size _ (rep_wf _ _ H)) as Hsz. pose proof (wf_bounds _ (rep_wf _ _ H)) as Hb.
  unfold slice. rewrite Hs. cbn zeta. set (n := Z.of_nat (length xs)) in *. unfold P_begin, T_end, M_resolve, O_whole. fold n.
  assert (forall i d, 0 <= d <= n -> 0 <= resolve xs i d <= n) as Hres by (intros [i|] d Hi; cbn; fold n; [destruct (Z.ltb_spec i 0); lia|lia]).
  assert (exists l', setListBounds l (resolve xs b 0) (Some (resolve xs e n)) = Some l' /\ repr l' (spec_range xs (resolve xs b 0) (resolve xs e n))) as (l' & E & Hr).
  { pose proof (Hres b 0 ltac:(lia)) as Hb0. pose proof (Hres e n ltac:(lia)) as He0. destruct (bounds_range l xs (resolve xs b 0) (resolve xs e n) H) as (l' & E & Hr); [lia|lia| |].
    - fold n. destruct (Z.ltb_spec (resolve xs e n) 0); lia.
    - exists l'. split; [done|]. destruct (Z.ltb_spec (resolve xs e n) 0); [lia|done]. }
  match goal with |- context [if ?c then Some l else _] => destruct c eqn:Ew end.
  + exists l. split; [done|]. replace (resolve xs b 0) with 0; [replace (resolve xs e n) with n|].
    * unfold spec_range. change (drop (Z.to_nat 0) xs) with xs. rewrite take_ge; [done|]. lia.
    * apply andb_true_iff in Ew as [_ Ew]. destruct e as [e|]; [|done]. apply Z.geb_le in Ew. cbn. fold n. destruct (Z.ltb_spec e 0); lia.
    * apply andb_true_iff in Ew as [Ew _]. destruct b as [b|]; [|done]. apply orb_true_iff in Ew as [->%Z.eqb_eq|Ew]; [cbn; fold n; lia|]. apply Z.leb_le in Ew. cbn. fold n.
      destruct (Z.ltb_spec b 0); lia.
  + exists l'. split; [|done]. rewrite <- E. unfold resolve. fold n. by destruct b as [b|], e as [e|]; repeat destruct (_ <? 0).
Qed.

Lemma pop_repr l xs : repr l xs -> exists l', pop l = Some l' /\ repr l' (take (length xs - 1) xs).
Proof.
  intros H. destruct (bounds_range l xs 0 (-1) H) as (l' & E & Hr); [lia|lia|cbn; lia|]. exists l'. split; [exact E|]. unfold spec_range in Hr. cbn in Hr.
  by replace (length xs - 1)%nat with (Z.to_nat (Z.of_nat (length xs) + -1 - 0)) by lia.
Qed.

Lemma shift_repr l xs : repr l xs -> exists l', shift l = Some l' /\ repr l' (drop 1 xs).
Proof.
  intros H. pose proof (rep_size _ _ H) as Hs. pose proof (wf_size _ (rep_wf _ _ H)) as Hsz. unfold shift, setListBounds. cbn [option_map]. rewrite or_zero by lia.
  replace (_capacity l) with (_origin l + Z.of_nat (length xs)) by lia. destruct (range_repr l xs 1 (Z.of_nat (length xs)) H) as (l' & E & Hr); [lia|lia|]. exists l'. split; [exact E|].
  unfold spec_range in Hr. rewrite take_ge in Hr; [done|]. rewrite length_drop. lia.
Qed.

(** Setting the element after the last *)
Lemma set_end l xs v : repr l xs -> _capacity l + 1 <= 2 ^ 30 -> exists l', set strict l (Z.of_nat (length xs)) (Val v) = Some l' /\ repr l' (xs ++ [v]) /\ _origin l' <= _origin l.
Proof.
  intros H Hc. pose proof (rep_size _ _ H) as Hs. pose proof (wf_size _ (rep_wf _ _ H)). pose proof (wf_bounds _ (rep_wf _ _ H)). rewrite <- Hs. unfold set, wrapIndex.
  destruct (Z.ltb_spec (size l) 0); [lia|]. rewrite Z.leb_refl. cbn zeta. cbn [orb]. destruct (Z.ltb_spec (size l) 0); [lia|].
  destruct (push_repr l xs [v] H) as (l' & Hu & Hr); [cbn; lia|]. exists l'. split; [|exact Hr].
  unfold push in Hu. change (len (Val <$> [v])) with 1 in Hu. destruct (setListBounds l 0 (Some (size l + 1))) as [l1|] eqn:E1; [|done]. cbn in Hu. cbn [option_map].
  rewrite set_in_range in Hu; [done|]. unfold setListBounds in E1. cbn [option_map] in E1. rewrite !or_zero in E1 by lia.
  destruct (Z.ltb_spec (size l + 1) 0); [lia|]. destruct (grow_end l xs 1 H ltac:(lia) ltac:(lia)) as (l2 & E2 & _ & Hs2 & _).
  replace (_origin l + 0) with (_origin l) in E1 by lia. replace (_origin l + (size l + 1)) with (_capacity l + 1) in E1 by lia. rewrite E1 in E2. injection E2 as <-. lia.
Qed.
End Spec.
