(* ===== verification/ImListIter.v ===== *)
(** * Immutable: iterating over a list

    [iterateList] of module 7 of swagger-ui-bundle.js makes a function that gives
    the elements of a list one by one, from either end: a stack of functions, one
    for every level of the tree, each with its bounds.  The methods [__iterate] and
    [__iterator] of [List] go on from it, so that a list is a source of the
    sequences of [ImSeq] and [ImIter]; the theorem shows that it gives exactly the
    elements between the bounds, in order. *)

From stdpp Require Import list.
From S2P Require Import Prelude ImSeq ImSeqFacts ImIter ImIterFacts ImList ImListFacts ImListSpec.
Local Open Scope Z_scope.
Local Open Scope js_scope.

Section Iter.
Context {V : Type}.
Notation node := (list (cell V)).

(** The functions [a] returns: of a leaf, with the indices [s] and [l] between
    which it has elements to give, and of an inner node, with the function of
    the child it is at. *)
Inductive iter_fn : Type :=
| Leaf (u : option node) (s l : Z)
| Inner (u : option iter_fn) (s : option node) (o i l c : Z).

Section Walk.
Context (n r o : Z) (i : option node) (t : bool).

(** [u && u[e]] *)
Definition element (u : option node) (e : Z) : cell V := match u with Some u => get_at u e | None => ImList.Undef end.

(** [a] *)
Definition iterateNodeOrLeaf (e : option node) (u s : Z) : iter_fn :=
  if u =? 0 then
    Leaf (if s =? o then i else e) (if n <? s then 0 else n - s) (if SIZE <? r - s then SIZE else r - s)
  else
    let c := 1 + ((r - s) >>. u) in
    Inner None e u s (if n <? s then 0 else (n - s) >>. u) (if SIZE <? c then SIZE else c).

Fixpoint call (fuel : nat) (f : iter_fn) : ImIter.step (cell V) * iter_fn :=
  match f with
  | Leaf u s l =>
      if s =? l then (Done, f)
      else if t then (Yield (element u (l - 1)), Leaf u s (l - 1)) else (Yield (element u s), Leaf u (s + 1) l)
  | Inner u s o i l c =>
      match fuel with
      | O => (OutOfFuel, f)
      | S fuel =>
          match u with
          | Some u =>
              match call fuel u with
              | (Done, _) => call fuel (Inner None s o i l c)
              | (e, u) => (e, Inner (Some u) s o i l c)
              end
          | None =>
              if l =? c then (Done, f)
              else
                let n := if t then c - 1 else l in
                call fuel (Inner (Some (iterateNodeOrLeaf (child s n) (o - SHIFT) (i + (n <<. o)))) s o i (if t then l else l + 1) (if t then c - 1 else c))
          end
      end
  end.
End Walk.

(** [_t]: iterateList *)
Definition iterateList (e : ilist (V := V)) (t : bool) : iterator (cell V) :=
  let n := _origin e in
  let r := _capacity e in
  let o := getTailOffset r in
  let i := _tail e in
  U iter_fn (iterateNodeOrLeaf n r o i (_root e) (_level e) 0) (call n r o i t).

(** [__iterator] and [__iterate], which are those of a sequence over an object
    that makes iterators *)
Definition list_iterator (l : ilist (V := V)) : itr Z (cell V) := fun e t => ne_iterator (iterateList l t) e.
Definition list_iterate {S} (l : ilist (V := V)) (e : cell V -> Z -> S -> S * bool) (t : bool) (fuel : nat) (s : S) : option (S * Z) :=
  ne_iterate (iterateList l t) e fuel s.

(** The list as a source; the fuel is enough for the depth and the size. *)
Definition list_fuel (l : ilist (V := V)) : nat := Z.to_nat (size l) + 500.
Definition list_seq (l : ilist (V := V)) : iter Z (cell V) :=
  Iter (Some (size l)) (fun S e t s => default (s, 0) (list_iterate l e t (list_fuel l) s)).

(** ** What is left to give *)

Definition turn {A} (t : bool) (l : list A) : list A := if t then reverse l else l.

Lemma turn_split {A} t (x y z : list A) : z = x ++ y -> turn t z = if t then turn t y ++ turn t x else turn t x ++ turn t y.
Proof. intros ->. destruct t; cbn; [apply reverse_app|done]. Qed.

Definition span (a b : Z) : list Z := seqZ a (b - a).

Lemma span_app a m b : a <= m <= b -> span a b = span a m ++ span m b.
Proof. intros H. unfold span. replace (b - a) with ((m - a) + (b - m)) by lia. rewrite seqZ_app by lia. do 2 f_equal; lia. Qed.

Lemma span_nil a b : b <= a -> span a b = [].
Proof. intros H. unfold span. apply seqZ_nil. lia. Qed.

Lemma elem_span a b p : p ∈ span a b <-> a <= p < b.
Proof. unfold span. rewrite elem_of_seqZ. lia. Qed.

Lemma fmap_span {A} (f g : Z -> A) a b d : (forall p, a <= p < b -> f p = g (p - d)) -> f <$> span a b = g <$> span (a - d) (b - d).
Proof.
  intros H. unfold span. replace (b - d - (a - d)) with (b - a) by lia. replace (seqZ (a - d) (b - a)) with (Z.add (- d) <$> seqZ a (b - a)).
  - rewrite <- list_fmap_compose. apply list_fmap_ext. intros j p Hp%list_elem_of_lookup_2. cbn. rewrite H by (by apply elem_span). f_equal. lia.
  - rewrite fmap_add_seqZ. f_equal. lia.
Qed.

(** Clamped spans that are next to each other *)
Lemma span_clamp n r x y z : x <= y <= z -> span (Z.max n x) (Z.min r z) = span (Z.max n x) (Z.min r y) ++ span (Z.max n y) (Z.min r z).
Proof.
  intros H. destruct (Z.le_gt_cases y n); [|destruct (Z.le_gt_cases r y)].
  - rewrite (span_nil (Z.max n x) (Z.min r y)) by lia. cbn. f_equal. lia.
  - rewrite (span_nil (Z.max n y)) by lia. rewrite app_nil_r. f_equal. lia.
  - rewrite (Z.min_r r y), (Z.max_r n y) by lia. destruct (Z.le_gt_cases y (Z.min r z)); [|lia]. apply span_app. lia.
Qed.

Lemma dig_in k d p off : (B (S (S k)) | off) -> 0 <= d < 32 -> off + d * B (S k) <= p < off + (d + 1) * B (S k) -> dig (S k) p = d.
Proof.
  intros Ho Hd Hp. replace p with (p - off + off) by lia. rewrite dig_add by done. unfold dig. pose proof (B_pos (S k)).
  replace ((p - off) / B (S k)) with d; [by apply Z.mod_small|]. apply (Z.div_unique _ _ d (p - off - d * B (S k))); lia.
Qed.

Lemma shr_level x k : 0 <= x < 2 ^ 31 -> (k <= 5)%nat -> x >>. (5 * Z.of_nat k) = x / B k.
Proof. intros Hx Hk. unfold js_shr. rewrite i32_small, Z.mod_small, Z.shiftr_div_pow2 by lia. by rewrite B_pow2. Qed.

Lemma shl_digit d k : 0 <= d < 32 -> (k <= 5)%nat -> d <<. (5 * Z.of_nat k) = d * B k.
Proof.
  intros Hd Hk. unfold js_shl. rewrite (i32_small d), (Z.mod_small (_ * _)), Z.shiftl_mul_pow2 by lia. rewrite <- B_pow2. pose proof (B_mono k 5 Hk). change (B 5) with (2 ^ 25) in *.
  pose proof (B_pos k). apply i32_small. nia.
Qed.

Section Walks.
Context (n r : Z) (i : option node) (t : bool) (Hbounds : 0 <= n <= r) (Hr : r <= 2 ^ 30).
Notation o := (getTailOffset r).
Notation fresh := (iterateNodeOrLeaf n r o i).

(** The element at [p], from a subtree of [k] levels *)
Definition val (k : nat) (e : option node) (p : Z) : cell V := if o <=? p then in_leaf i p else tget k e p.
Definition held (k : nat) (e : option node) (x y : Z) : list (cell V) := turn t (val k e <$> span (Z.max n x) (Z.min r y)).

(** A subtree that is not before the origin and not after the capacity *)
Definition inside (k : nat) (off : Z) : Prop := (B (S k) | off) /\ 0 <= off <= r /\ n < off + B (S k).

Definition frame (k : nat) (level off l c : Z) : Prop :=
  level = 5 * Z.of_nat (S k) /\ (B (S (S k)) | off) /\ 0 <= l <= c /\ c <= 32 /\ (S k <= 5)%nat /\ forall d, l <= d < c -> inside k (off + d * B (S k)).

(** What a function has left to give *)
Fixpoint holds (k : nat) (f : iter_fn) (xs : list (cell V)) : Prop :=
  match k, f with
  | O, Leaf u s l => 0 <= s <= l /\ xs = turn t (element u <$> span s l)
  | S k', Inner u a level off l c => frame k' level off l c /\
      exists ys, match u with None => ys = [] | Some f => holds k' f ys end /\ xs = ys ++ held k a (off + l * B k) (off + c * B k)
  | _, _ => False
  end.

Lemma held_child k a off d : (B (S (S k)) | off) -> 0 <= d < 32 ->
  held (S k) a (off + d * B (S k)) (off + (d + 1) * B (S k)) = held k (child a d) (off + d * B (S k)) (off + d * B (S k) + B (S k)).
Proof.
  intros Ho Hd. unfold held. replace (off + d * B (S k) + B (S k)) with (off + (d + 1) * B (S k)) by lia. f_equal. apply list_fmap_ext. intros j p Hp%list_elem_of_lookup_2.
  apply elem_span in Hp. unfold val. destruct (o <=? p); [done|]. by rewrite tget_S, (dig_in k d p off) by (done || lia).
Qed.

(** The next child, in either direction *)
Lemma held_step k a off l c : (B (S (S k)) | off) -> 0 <= l < c -> c <= 32 -> let d := if t then c - 1 else l in
  held (S k) a (off + l * B (S k)) (off + c * B (S k)) = held k (child a d) (off + d * B (S k)) (off + d * B (S k) + B (S k))
    ++ held (S k) a (off + (if t then l else l + 1) * B (S k)) (off + (if t then c - 1 else c) * B (S k)).
Proof.
  intros Ho Hl Hc d. pose proof (B_pos (S k)). rewrite <- held_child by (done || (unfold d; destruct t; lia)). unfold d, held.
  assert (forall m, l <= m <= c -> span (Z.max n (off + l * B (S k))) (Z.min r (off + c * B (S k))) =
    span (Z.max n (off + l * B (S k))) (Z.min r (off + m * B (S k))) ++ span (Z.max n (off + m * B (S k))) (Z.min r (off + c * B (S k)))) as Hm.
  { intros m Hm. apply span_clamp. nia. }
  destruct t.
  - rewrite (Hm (c - 1)), fmap_app by lia. cbn [turn]. rewrite reverse_app. do 4 f_equal. lia.
  - by rewrite (Hm (l + 1)), fmap_app by lia.
Qed.

Lemma fresh_leaf e off : inside 0 off -> holds 0 (fresh e 0 off) (held 0 e off (off + B 1)).
Proof.
  intros ([q Hq] & Hoff & Hn). change (B 1) with 32 in *. unfold iterateNodeOrLeaf, SIZE. cbn [Z.eqb].
  set (s := if n <? off then 0 else n - off). set (l := if 32 <? r - off then 32 else r - off).
  assert (s = Z.max n off - off) as Hs by (unfold s; destruct (Z.ltb_spec n off); lia). assert (l = Z.min r (off + 32) - off) as Hl by (unfold l; destruct (Z.ltb_spec 32 (r - off)); lia).
  replace (held 0 e off (off + 32)) with (turn t (element (if off =? o then i else e) <$> span s l)); [split; [lia|done]|]. unfold held. f_equal. rewrite Hs, Hl. symmetry.
  apply fmap_span. intros p Hp. unfold val, element, tget. cbn [leaf_of]. pose proof (tail_offset_spec r ltac:(lia)) as (Hto & Ht1 & Ht2).
  assert (p mod 32 = p - off) as Hm by (symmetry; apply (Z.mod_unique p 32 q); lia). apply Z.mod_divide in Hto as [q' Hq']; [|lia].
  unfold in_leaf. rewrite Hm. destruct (Z.eqb_spec off o) as [->|Hne]; [by destruct (Z.leb_spec o p); [|lia]|]. destruct (Z.leb_spec o p); [|done]. lia.
Qed.

Lemma fresh_holds k e off : (k <= 5)%nat -> inside k off -> holds k (fresh e (5 * Z.of_nat k) off) (held k e off (off + B (S k))).
Proof.
  destruct k as [|k]; intros Hk (Hd & Hoff & Hn); [by apply fresh_leaf|]. unfold iterateNodeOrLeaf, SIZE. destruct (Z.eqb_spec (5 * Z.of_nat (S k)) 0); [lia|]. cbn zeta.
  rewrite !B_S in Hn. set (b := B (S k)) in *. assert (0 < b) by apply B_pos. rewrite <- B_S in Hn. fold b in Hn.
  set (c := if 32 <? _ then 32 else _). set (l := if n <? off then 0 else _).
  assert (0 <= l < 32 /\ off + l * b <= Z.max n off /\ n < off + (l + 1) * b) as (Hl & Hl1 & Hl2).
  { unfold l. destruct (Z.ltb_spec n off); [lia|]. rewrite shr_level by lia. fold b. pose proof (Z.div_mod (n - off) b ltac:(lia)). pose proof (Z.mod_pos_bound (n - off) b ltac:(lia)).
    split; [|nia]. split; [apply Z.div_pos; lia|]. apply Z.div_lt_upper_bound; lia. }
  assert (1 <= c <= 32 /\ off + (c - 1) * b <= r /\ (c = 32 \/ r < off + c * b)) as (Hc & Hc1 & Hc2).
  { unfold c. rewrite shr_level by lia. fold b. pose proof (Z.div_mod (r - off) b ltac:(lia)). pose proof (Z.mod_pos_bound (r - off) b ltac:(lia)).
    assert (0 <= (r - off) / b) by (apply Z.div_pos; lia). destruct (Z.ltb_spec 32 (1 + (r - off) / b)); nia. }
  split; [|exists []; split; [done|]].
  - split; [done|]. split; [done|]. split; [nia|]. split; [lia|]. split; [done|]. intros d Hdl. fold b. split; [|fold b; nia]. apply Z.divide_add_r; [|by exists d].
    apply (Z.divide_trans _ (B (S (S k)))); [|done]. apply B_divide. lia.
  - cbn. unfold held. rewrite (B_S (S k)). fold b. do 2 f_equal. f_equal; [destruct (Z.ltb_spec n off); unfold l in *; [destruct (Z.ltb_spec n off); lia|nia]|nia].
Qed.

(** What a call does to what is left *)
Definition gave (k : nat) (xs : list (cell V)) (y : ImIter.step (cell V) * iter_fn) : Prop :=
  match xs with [] => exists f, y = (Done, f) /\ holds k f [] | x :: xs => exists f, y = (Yield x, f) /\ holds k f xs end.

Lemma span_cons a b : a < b -> span a b = a :: span (a + 1) b.
Proof. intros H. rewrite (span_app a (a + 1) b) by lia. unfold span at 1. replace (a + 1 - a) with 1 by lia. done. Qed.

Lemma span_snoc a b : a < b -> span a b = span a (b - 1) ++ [b - 1].
Proof. intros H. rewrite (span_app a (b - 1) b) by lia. f_equal. unfold span. by replace (b - (b - 1)) with 1 by lia. Qed.

Lemma call_leaf fuel f xs : holds 0 f xs -> gave 0 xs (call n r o i t fuel f).
Proof.
  destruct f as [u s l|]; [|done]. intros [Hs ->].
  assert (call n r o i t fuel (Leaf u s l) = call n r o i t 0 (Leaf u s l)) as -> by (by destruct fuel). cbn [call]. destruct (Z.eqb_spec s l) as [->|Hne].
  - assert (turn t (element u <$> span l l) = []) as E by (rewrite span_nil by lia; by destruct t). rewrite E. exists (Leaf u l l). split; [done|]. by split; [lia|].
  - destruct t eqn:Et; cbn [turn].
    + rewrite span_snoc, fmap_app, reverse_app by lia. eexists. split; [done|]. split; [lia|]. by rewrite Et.
    + rewrite span_cons by lia. eexists. split; [done|]. split; [lia|]. by rewrite Et.
Qed.

(** Fuel that is enough for a call *)
Definition need (k : nat) (f : iter_fn) : nat :=
  match f with Leaf _ _ _ => 0 | Inner u _ _ _ l c => 70 * k + 2 * Z.to_nat (c - l) + match u with Some _ => 2 | None => 1 end end.

Lemma need_bound k f xs : holds k f xs -> (need k f <= 70 * k + 66)%nat.
Proof. destruct k, f as [|u]; try done; cbn [holds need]; [lia|]. intros [(? & ? & ? & ? & ?) _]. destruct u; lia. Qed.

Lemma gave_inner k xs u a level off l c ys y : frame k level off l c -> gave k ys (y, u) -> y <> Done -> xs = ys ++ held (S k) a (off + l * B (S k)) (off + c * B (S k)) ->
  gave (S k) xs (y, Inner (Some u) a level off l c).
Proof.
  intros Hf Hg Hy ->. destruct ys as [|x ys]; destruct Hg as (f & [= -> ->] & Hg); [done|]. cbn. eexists. split; [done|]. split; [done|]. by exists ys.
Qed.

Lemma call_inner k (IH : forall fuel f xs, holds k f xs -> (need k f <= fuel)%nat -> gave k xs (call n r o i t fuel f)) m : forall fuel f xs,
  holds (S k) f xs -> (need (S k) f <= fuel)%nat -> match f with Inner _ _ _ _ l c => Z.to_nat (c - l) = m | _ => True end -> gave (S k) xs (call n r o i t fuel f).
Proof.
  induction m as [m IHm] using lt_wf_ind. intros fuel f xs. destruct f as [|u a level off l c]; [done|].
  assert (forall fuel, frame k level off l c -> (70 * S k + 2 * Z.to_nat (c - l) + 1 <= fuel)%nat -> Z.to_nat (c - l) = m ->
    gave (S k) (held (S k) a (off + l * B (S k)) (off + c * B (S k))) (call n r o i t fuel (Inner None a level off l c))) as Hnone.
  { clear fuel. intros [|fuel] Hf Hfuel Hm; [lia|]. cbn [call]. pose proof Hf as (-> & Hdiv & Hl & Hc & Hk & Hin). destruct (Z.eqb_spec l c) as [->|Hne].
    - assert (held (S k) a (off + c * B (S k)) (off + c * B (S k)) = []) as E by (unfold held; rewrite span_nil by lia; by destruct t). rewrite E.
      eexists. split; [done|]. split; [done|]. exists []. split; [done|]. by rewrite E.
    - set (d := if t then c - 1 else l). assert (l <= d < c) by (unfold d; destruct t; lia). rewrite (held_step k a off l c) by (done || lia). fold d.
      rewrite shl_digit by (done || lia). replace (5 * Z.of_nat (S k) - SHIFT) with (5 * Z.of_nat k) by (unfold SHIFT; lia).
      apply (IHm (m - 1)%nat); [lia| | |].
      + split; [|exists (held k (child a d) (off + d * B (S k)) (off + d * B (S k) + B (S k)))].
        * split; [done|]. split; [done|]. split; [destruct t; lia|]. split; [destruct t; lia|]. split; [done|]. intros d' Hd'. apply Hin. destruct t; lia.
        * split; [|done]. apply fresh_holds; [lia|]. by apply Hin.
      + cbn [need]. destruct t; lia.
      + destruct t; lia. }
  cbn [holds]. intros [Hf (ys & Hu & ->)] Hfuel Hm. cbn [need] in Hfuel. destruct u as [u|]; [|subst ys; by apply Hnone].
  destruct fuel as [|fuel]; [lia|]. cbn [call]. pose proof (IH fuel u ys Hu) as Hg. pose proof (need_bound _ _ _ Hu). specialize (Hg ltac:(lia)).
  destruct (call n r o i t fuel u) as [y u'] eqn:E. destruct ys as [|x ys].
  - destruct Hg as (f & [= -> ->] & _). apply Hnone; [done|lia|done].
  - destruct Hg as (f & [= -> ->] & Hg). apply (gave_inner _ _ _ _ _ _ _ _ (x :: ys)); [done|by exists f|done|done].
Qed.

Lemma call_spec k : forall fuel f xs, holds k f xs -> (need k f <= fuel)%nat -> gave k xs (call n r o i t fuel f).
Proof.
  induction k as [|k IH]; intros fuel f xs H Hfuel; [by apply call_leaf|]. apply (call_inner k IH (match f with Inner _ _ _ _ l c => Z.to_nat (c - l) | _ => O end)); [done|done|].
  by destruct f.
Qed.

Lemma holds_gives k m f0 xs : forall f, (70 * k + 66 <= m)%nat -> holds k f xs -> gives (U iter_fn f0 (call n r o i t)) m xs f.
Proof.
  induction xs as [|x xs IH]; intros f Hm H; pose proof (need_bound _ _ _ H).
  - apply (exhausted_in (U iter_fn f0 (call n r o i t)) m (fun f => holds k f [])); [done|]. intros f' H'. pose proof (need_bound _ _ _ H').
    destruct (call_spec k m f' [] H' ltac:(lia)) as (f1 & Hc & Hf1). by exists f1.
  - destruct (call_spec k m f (x :: xs) H ltac:(lia)) as (f1 & Hc & Hf1). exists f1. split; [done|]. by apply IH.
Qed.
End Walks.

(** ** The elements of a list, in order *)

Implicit Types (l : ilist (V := V)).
Definition elements l : list (cell V) := at_pos l <$> span (_origin l) (_capacity l).

Lemma elements_length l : wf l -> Z.of_nat (length (elements l)) = size l.
Proof. intros Hw. unfold elements, span. rewrite length_fmap, length_seqZ, (wf_size _ Hw). destruct (wf_nonempty _ Hw) as [?| ->]; [lia|done]. Qed.

Lemma elements_repr l (xs : list V) : ImListSpec.repr l xs -> elements l = Val <$> xs.
Proof.
  intros [Hw Hs Ha]. pose proof (elements_length l Hw). apply list_eq. intros j. unfold elements, span in *. rewrite !list_lookup_fmap. rewrite length_fmap in *.
  destruct (xs !! j) as [v|] eqn:E.
  - pose proof (lookup_lt_Some _ _ _ E). rewrite lookup_seqZ_lt by (pose proof (wf_size _ Hw); lia). cbn. by rewrite (Ha _ _ E).
  - apply lookup_ge_None in E. rewrite lookup_ge_None_2 by lia. done.
Qed.

Lemma iterateList_gives l t m : wf l -> (416 <= m)%nat -> gives (iterateList l t) m (turn t (elements l)) (istart (iterateList l t)).
Proof.
  intros Hw Hm. unfold iterateList. cbn [istart]. pose proof (wf_level _ Hw) as Hlv. pose proof (wf_levels _ Hw). pose proof (wf_bounds _ Hw) as [H0 Hc]. pose proof (wf_tail _ Hw) as Ht.
  assert (_origin l <= _capacity l) as Hoc by (destruct (wf_nonempty _ Hw) as [?| ->]; [lia|done]). rewrite Hlv.
  assert (_capacity l <= B (S (levels l))) as Hcb.
  { destruct (Z.eq_dec (_capacity l) 0) as [->|]; [pose proof (B_pos (S (levels l))); lia|]. destruct (tail_offset_spec (_capacity l) ltac:(lia)) as (T1 & T2 & T3).
    destruct (B_divide 1 (S (levels l)) ltac:(lia)) as [q Hq]. change (B 1) with 32 in Hq. apply Z.mod_divide in T1 as [q' Hq']; lia. }
  assert (turn t (elements l) = held (_origin l) (_capacity l) (_tail l) t (levels l) (_root l) 0 (0 + B (S (levels l)))) as ->.
  { unfold held, elements. rewrite Z.add_0_l, Z.max_l, Z.min_l by lia. done. }
  apply (holds_gives (_origin l) (_capacity l) (_tail l) t (conj H0 Hoc) Hc (levels l)); [lia|]. apply fresh_holds; [done|done|lia|]. split; [apply Z.divide_0_r|]. split; [lia|]. destruct (wf_nonempty _ Hw) as [?| ->]; [lia|]. done.
Qed.

Lemma turn_length {A} t (xs : list A) : length (turn t xs) = length xs.
Proof. destruct t; [apply length_reverse|done]. Qed.

Lemma list_iterate_run {S} l (f : cell V -> Z -> S -> S * bool) t m s : wf l -> (list_fuel l <= m)%nat -> list_iterate l f t m s = Some (run f (number (turn t (elements l))) s).
Proof.
  intros Hw Hm. unfold list_fuel in Hm. pose proof (elements_length l Hw). apply ne_iterate_run; [apply iterateList_gives; [done|lia]|]. rewrite turn_length. lia.
Qed.

Lemma turn_rev {A} (xs : list A) : turn true xs = rev xs.
Proof. cbn. by rewrite rev_alt. Qed.

Lemma list_seq_of l : wf l -> seq_of indexed (list_seq l) (number (elements l)).
Proof.
  intros Hw. split; [|right; cbn; unfold number; rewrite rekey_length, length_map, elements_length; done|by rewrite rekey_indexed, number_values].
  rewrite rekey_indexed, map_rev, number_values, <- turn_rev. intros S f s. cbn [iterate list_seq]. by rewrite !list_iterate_run.
Qed.

Lemma list_itr l : wf l -> itr_of (list_iterator l) (number (elements l)) (number (rev (elements l))).
Proof.
  intros Hw t. rewrite <- turn_rev, <- !mapi_number. assert (forall b, yields (list_iterator l t b) (mapi (fun o x => q_value t o x) 0 (turn b (elements l)))) as H.
  2: { split; apply H. }
  intros b. exists 416%nat. intros m Hm. refine (gives_sim (iterateList l b) (list_iterator l t b) m (fun o x => q_value t o x) (fun o s s' => s' = (s, o)) _ _ _ _ (istart (iterateList l b)) _ _ _).
  - intros o s s' x s1 -> Hn. cbn [inext list_iterator ne_iterator]. rewrite Hn. by eexists.
  - intros o s s' s1 -> Hn. cbn [inext list_iterator ne_iterator]. rewrite Hn. by eexists.
  - done.
  - by apply iterateList_gives.
Qed.
End Iter.
