(* ===== verification/ImListOps.v ===== *)
(** * Immutable: lists from sequences, and splicing

    The constructor [List] of module 7 of swagger-ui-bundle.js, which makes a list
    of any iterable, and the methods that go through it: [concat], [splice],
    [remove], [insert], [filter], [map] and [reverse] of [List] make a sequence
    ([ImSeq]) and a list of it ([reify]). *)

From stdpp Require Import list.
From S2P Require Import Prelude ImSeq ImSeqFacts ImList ImListFacts ImListSpec ImListIter.
Local Open Scope Z_scope.
Local Open Scope js_scope.

Section Ops.
Context {V : Type} (strict : V -> V -> bool).
Notation node := (list (cell V)).
Notation ilist := (ilist (V := V)).
Implicit Types (l : ilist) (xs ys vs : list V).

(** [toArray] *)
Definition toArray (q : iter Z (cell V)) : node :=
  fst (iterate (Rt q) (fun v n e => (set_at e n v, false)) false (replicate (Z.to_nat (default 0 (isize q))) ImList.Undef)).

(** [pt], of an iterable that is not a list and not infinite *)
Definition set_each (q : iter Z (cell V)) (e : option ilist) : option ilist :=
  fst (forEach q (fun v n e => (match e with Some e => set strict e n v | None => None end, false)) e).
Definition List_of (q : iter Z (cell V)) : option ilist :=
  match isize q with
  | Some r =>
      if r =? 0 then Some emptyList
      else if (0 <? r) && (r <? SIZE) then Some (makeList 0 r SHIFT None (Some (toArray q)))
      else set_each q (setSize emptyList r)
  | None => set_each q (Some emptyList)
  end.

(** An argument of [concat], and [List] of it *)
Inductive source : Type := FromList (l : ilist) | FromSeq (q : iter Z (cell V)).
Definition source_seq (s : source) : iter Z (cell V) := match s with FromList l => list_seq l | FromSeq q => q end.
Definition List_from (s : source) : option ilist := match s with FromList l => Some l | FromSeq q => List_of q end.

(** [concat], of arguments that are indexed *)
Definition concat (l : ilist) (t : list source) : option ilist :=
  match List.filter (fun s => match isize (source_seq s) with Some 0 => false | _ => true end) (FromList l :: t) with
  | [] => Some l
  | [i] => List_from i
  | o => List_of (concat_iters false indexed (map source_seq o))
  end.

(** [splice] of two arguments or more *)
Definition splice (l : ilist) (e t : Z) (values : list (cell V)) : option ilist :=
  let t := Z.max (0 .| t) 0 in
  if match values with [] => t =? 0 | _ => false end then Some l
  else
    match P_begin (Some e) (Some (size l)) with
    | Num e =>
        match slice l (Some 0) (Some e), slice l (Some (e + t)) None with
        | Some r, Some rest => concat r [FromSeq (ee values); FromList rest]
        | _, _ => None
        end
    | _ => None
    end.

Definition has (l : ilist) (e : Z) : bool := let e := wrapIndex l e in (0 <=? e) && (e <? size l).
Definition remove (l : ilist) (e : Z) : option ilist :=
  if has l e then if e =? 0 then shift l else if e =? size l - 1 then pop l else splice l e 1 [] else Some l.
Definition insert (l : ilist) (e : Z) (v : cell V) : option ilist := splice l e 0 [v].

Definition filter (l : ilist) (e : cell V -> Z -> outcome) : option ilist := List_of (zt indexed (list_seq l) e).
Definition map_ (l : ilist) (e : cell V -> Z -> cell V) : option ilist := List_of (qt (list_seq l) e).
Definition reverse_ (l : ilist) : option ilist := List_of (Ft (list_seq l)).

(** ** Making lists *)

Context (Hstrict : forall v w, strict v w = true -> v = w).
Notation repr := ImListSpec.repr.

(** A sequence that goes over [vs] *)
Definition forward (q : iter Z (cell V)) (vs : list V) : Prop :=
  (forall S (f : cell V -> Z -> S -> S * bool) s, iterate q f false s = run f (number (Val <$> vs)) s) /\ (isize q = None \/ isize q = Some (Z.of_nat (length vs))).

Lemma number_len {A} (xs : list A) : length (number xs) = length xs.
Proof. unfold number. by rewrite rekey_length, length_map. Qed.

Lemma seq_forward q vs : seq_of indexed q (number (Val <$> vs)) -> forward q vs.
Proof. intros [Hr Hs _]. split; [intros S f s; apply Hr|]. destruct Hs as [|Hs]; [by left|right]. by rewrite Hs, number_len, length_fmap. Qed.

Lemma set_each_run q vs e : forward q vs -> set_each q e = match e with Some l => set_from strict l 0 (Val <$> vs) | None => None end.
Proof.
  intros [Hq _]. unfold set_each, forEach. rewrite Hq, run_fold. cbn [fst]. unfold number. generalize 0 as o. generalize (Val <$> vs) as cs. clear. intros cs. revert e.
  induction cs as [|c cs IH]; intros [l|] o; cbn; try done; by rewrite IH.
Qed.

(** Filling an array *)
Lemma set_at_next (done_ : node) k c : set_at (done_ ++ replicate (S k) ImList.Undef) (Z.of_nat (length done_)) c = (done_ ++ [c]) ++ replicate k ImList.Undef.
Proof.
  unfold set_at. rewrite Nat2Z.id, length_app, length_replicate. replace (S (length done_) - (length done_ + S k))%nat with 0%nat by lia. cbn [replicate]. rewrite app_nil_r.
  rewrite insert_app_r_alt by lia. rewrite Nat.sub_diag. cbn. by rewrite <- app_assoc.
Qed.

Lemma fill_array (cs : node) : forall (done_ : node) o, o = Z.of_nat (length done_) ->
  fold_left (fun e x => set_at e x.1 x.2) (rekey indexed o (map (fun v => (tt, v)) cs)) (done_ ++ replicate (length cs) ImList.Undef) = done_ ++ cs.
Proof.
  induction cs as [|c cs IH]; intros d o ->; [done|]. cbn [map rekey fold_left length]. change (indexed tt (Z.of_nat (length d))) with (Z.of_nat (length d)). cbn [fst snd].
  rewrite set_at_next, (IH (d ++ [c])) by (rewrite length_app; cbn; lia). by rewrite <- app_assoc.
Qed.

Lemma toArray_forward q vs : forward q vs -> isize q = Some (Z.of_nat (length vs)) -> toArray q = Val <$> vs.
Proof.
  intros [Hq _] Hs. unfold toArray. rewrite Hs. cbn [default]. unfold id. rewrite Nat2Z.id.
  assert (forall S (f : cell V -> Z -> S -> S * bool) s, fst (iterate (Rt q) f false s) = fst (run f (number (Val <$> vs)) s)) as HR.
  { intros S f s. unfold Rt. cbn [iterate]. rewrite Hq. pose proof (run_positions f id 1 0 (number (Val <$> vs)) 0 s) as H. f_equal. etransitivity; [exact H|]. f_equal.
    transitivity (rekey indexed 0 (number (Val <$> vs))); [apply rekey_ext; intros k o; unfold id, indexed; lia|]. by rewrite rekey_indexed, number_values. }
  rewrite HR, run_fold. cbn [fst]. rewrite <- (length_fmap Val vs). apply (fill_array _ [] 0). done.
Qed.

Lemma set_from_end l xs vs : repr l xs -> _capacity l + Z.of_nat (length vs) <= 2 ^ 30 -> exists l', set_from strict l (Z.of_nat (length xs)) (Val <$> vs) = Some l' /\ repr l' (xs ++ vs).
Proof using Hstrict.
  revert l xs. induction vs as [|v vs IH]; intros l xs H Hc; cbn [length] in Hc.
  - exists l. by rewrite app_nil_r.
  - rewrite fmap_cons. cbn [set_from]. destruct (set_end strict Hstrict l xs v H ltac:(lia)) as (l1 & -> & H1 & Ho). pose proof (rep_size _ _ H) as S0. pose proof (rep_size _ _ H1) as S1.
    rewrite length_app in S1. cbn [length] in S1. pose proof (wf_size _ (rep_wf _ _ H)). pose proof (wf_size _ (rep_wf _ _ H1)).
    destruct (IH l1 (xs ++ [v]) H1 ltac:(lia)) as (l' & E & Hr). exists l'. rewrite <- app_assoc in Hr. split; [|done]. rewrite <- E. f_equal. rewrite length_app. cbn. lia.
Qed.

Lemma small_repr vs : (0 < length vs < 32)%nat -> repr (makeList 0 (Z.of_nat (length vs)) SHIFT None (Some (Val <$> vs))) vs.
Proof.
  intros Hl. assert (getTailOffset (Z.of_nat (length vs)) = 0) as Ht by (unfold getTailOffset, SIZE; destruct (Z.ltb_spec (Z.of_nat (length vs)) 32); lia). constructor.
  - change SHIFT with (5 * Z.of_nat 1). apply makeList_wf; try lia. rewrite Ht. done.
  - cbn. lia.
  - intros i v Hi. pose proof (lookup_lt_Some _ _ _ Hi). unfold at_pos. cbn [_capacity _origin _tail makeList]. rewrite Ht. destruct (Z.leb_spec 0 (0 + Z.of_nat i)); [|lia]. cbn [in_leaf].
    rewrite Z.add_0_l, Z.mod_small by lia. unfold get_at. destruct (Z.ltb_spec (Z.of_nat i) 0); [lia|]. by rewrite Nat2Z.id, list_lookup_fmap, Hi.
Qed.

Lemma List_of_repr q vs : forward q vs -> Z.of_nat (length vs) <= 2 ^ 30 -> exists l, List_of q = Some l /\ repr l vs.
Proof using Hstrict.
  intros Hq Hl. pose proof Hq as [_ Hs]. unfold List_of. destruct Hs as [Hs|Hs]; rewrite Hs.
  - rewrite (set_each_run q vs _ Hq). apply (set_from_end emptyList [] vs (repr_empty) ltac:(cbn; lia)).
  - destruct (Z.eqb_spec (Z.of_nat (length vs)) 0); [exists emptyList; split; [done|]; destruct vs; [apply repr_empty|by cbn in *]|].
    destruct (Z.ltb_spec 0 (Z.of_nat (length vs))); [|lia]. unfold SIZE. destruct (Z.ltb_spec (Z.of_nat (length vs)) 32); cbn [andb].
    + rewrite (toArray_forward q vs Hq Hs). eexists. split; [done|]. apply small_repr. lia.
    + rewrite (set_each_run q vs _ Hq). destruct (push_repr strict Hstrict emptyList [] vs repr_empty ltac:(cbn; lia)) as (l & E & Hr & _). exists l. split; [|done]. rewrite <- E.
      unfold push, setSize, len. rewrite length_fmap. done.
Qed.

(** ** Lists from lists *)

Lemma list_seq_repr l xs : repr l xs -> seq_of indexed (list_seq l) (number (Val <$> xs)).
Proof. intros H. rewrite <- (elements_repr l xs H). apply list_seq_of, H. Qed.

Lemma map_repr l xs (f : cell V -> Z -> cell V) (g : V -> V) : repr l xs -> (forall v i, f (Val v) i = Val (g v)) -> exists l', map_ l f = Some l' /\ repr l' (g <$> xs).
Proof using Hstrict.
  intros H Hf. pose proof (list_seq_repr l xs H) as [Hr Hs _]. pose proof (rep_size _ _ H). pose proof (wf_size _ (rep_wf _ _ H)). pose proof (wf_bounds _ (rep_wf _ _ H)).
  apply List_of_repr; [|rewrite length_fmap; lia]. destruct (qt_repr (list_seq l) _ _ Hr Hs f) as [Hr' Hs']. split.
  - intros S e s. destruct (Hr' S e s) as [-> _]. f_equal. unfold number. generalize 0 as o. clear -Hf. induction xs as [|x xs IH]; intros o; [done|]. cbn. by rewrite Hf, IH.
  - destruct Hs' as [|Hs']; [by left|right]. rewrite Hs', length_map, number_len, !length_fmap. done.
Qed.

Lemma reverse_repr l xs : repr l xs -> exists l', reverse_ l = Some l' /\ repr l' (rev xs).
Proof using Hstrict.
  intros H. pose proof (list_seq_repr l xs H) as [Hr Hs _]. pose proof (rep_size _ _ H). pose proof (wf_size _ (rep_wf _ _ H)). pose proof (wf_bounds _ (rep_wf _ _ H)).
  rewrite rekey_indexed, map_rev, number_values in Hr. apply List_of_repr; [|rewrite length_rev; lia].
  destruct (Ft_repr (list_seq l) _ _ Hr Hs) as [Hr' Hs']; [by rewrite !number_len, length_rev|]. assert (rev (Val <$> xs) = Val <$> rev xs) as E by (symmetry; apply map_rev). rewrite E in *. split.
  - intros S e s. apply Hr'.
  - destruct Hs' as [|Hs']; [by left|right]. by rewrite Hs', number_len, length_fmap.
Qed.

Lemma filter_repr l xs (f : cell V -> Z -> outcome) : repr l xs ->
  exists l', filter l f = Some l' /\ repr l' (map snd (kept (fun v i => f (Val v) i) (number xs))).
Proof using Hstrict.
  intros H. pose proof (list_seq_repr l xs H) as [Hr Hs _]. pose proof (rep_size _ _ H). pose proof (wf_size _ (rep_wf _ _ H)). pose proof (wf_bounds _ (rep_wf _ _ H)).
  apply List_of_repr.
  - destruct (zt_repr (list_seq l) _ _ Hr indexed f) as [Hr' _]. split; [|by left]. intros S e s. destruct (Hr' S e s) as [-> _]. f_equal. rewrite rekey_indexed. f_equal.
    unfold number, kept. generalize 0 as o. clear. induction xs as [|x xs IH]; intros o; [done|]. rewrite fmap_cons. cbn [map rekey List.filter fst snd]. specialize (IH (o + 1)).
    destruct (truthy _); cbn [map snd]; rewrite ?fmap_cons; by rewrite IH.
  - rewrite length_map. unfold kept. etransitivity; [apply Nat2Z.inj_le, List.filter_length_le|]. rewrite number_len. lia.
Qed.

(** What an argument of [concat] stands for *)
Definition stands (s : source) ys : Prop := match s with FromList l => repr l ys | FromSeq q => seq_of indexed q (number (Val <$> ys)) end.

Lemma stands_seq s ys : stands s ys -> seq_of indexed (source_seq s) (number (Val <$> ys)).
Proof. destruct s as [l|q]; [apply list_seq_repr|done]. Qed.

Lemma List_from_repr s ys : stands s ys -> Z.of_nat (length ys) <= 2 ^ 30 -> exists l, List_from s = Some l /\ repr l ys.
Proof using Hstrict. intros H Hl. destruct s as [l|q]; [by exists l|]. by apply List_of_repr; [apply seq_forward|]. Qed.

Lemma mjoin_cons {A} (y : list A) yss : mjoin (y :: yss) = y ++ mjoin yss.
Proof. done. Qed.

(** Sources without elements can be left out. *)
Lemma stands_filter o yss : Forall2 stands o yss ->
  exists yss', Forall2 stands (List.filter (fun s => match isize (source_seq s) with Some 0 => false | _ => true end) o) yss' /\ mjoin yss' = mjoin yss.
Proof.
  induction 1 as [|s ys o yss Hs _ (yss' & IH & E)]; [by exists []|]. cbn [List.filter]. destruct (match isize (source_seq s) with Some 0 => false | _ => true end) eqn:Ez.
  - exists (ys :: yss'). split; [by constructor|]. by rewrite !mjoin_cons, E.
  - exists yss'. split; [done|]. rewrite mjoin_cons. destruct (stands_seq _ _ Hs) as [_ Hsz _]. destruct Hsz as [Hsz|Hsz]; rewrite Hsz in Ez; [done|]. rewrite number_len, length_fmap in Ez.
    destruct ys; [done|]. by cbn in Ez.
Qed.

Lemma number_join (yss : list (list V)) : rekey indexed 0 (List.concat (map (fun ys => number (Val <$> ys)) yss)) = number (Val <$> mjoin yss).
Proof.
  rewrite rekey_indexed. f_equal. induction yss as [|ys yss IH]; [done|]. cbn [map List.concat]. by rewrite map_app, number_values, mjoin_cons, IH, fmap_app.
Qed.

Lemma concat_iters_forward o yss : Forall2 stands o yss -> forward (concat_iters false indexed (map source_seq o)) (mjoin yss).
Proof.
  intros H. split.
  - intros S f s. rewrite (concat_run false indexed _ (map (fun ys => (number (Val <$> ys), number (rev (Val <$> ys)))) yss)); [|done|].
    + rewrite map_map. cbn [fst]. rewrite number_join. by destruct (run f _ s).
    + induction H as [|s0 ys o yss Hs _ IH]; cbn; constructor; [|done]. destruct (stands_seq _ _ Hs) as [Hr _ _]. cbn. by rewrite rekey_indexed, map_rev, number_values in Hr.
  - cbn [isize concat_iters]. assert (forall n, fold_left (fun e t => match e, isize t with Some e, Some n => Some (e + n) | _, _ => None end) (map source_seq o) n = None
      \/ exists m, n = Some m /\ fold_left (fun e t => match e, isize t with Some e, Some n => Some (e + n) | _, _ => None end) (map source_seq o) n = Some (m + Z.of_nat (length (mjoin yss)))) as Hf.
    { induction H as [|s0 ys o yss Hs _ IH]; intros [m|]; cbn [map fold_left]; try (by left).
      - right. exists m. split; [done|]. cbn. f_equal. lia.
      - destruct (stands_seq _ _ Hs) as [_ Hsz _]. destruct Hsz as [-> | ->].
        + destruct (IH None) as [->|(? & ? & ?)]; [by left|done].
        + destruct (IH (Some (m + Z.of_nat (length (number (Val <$> ys)))))) as [->|(m' & [= <-] & ->)]; [by left|right]. exists m. split; [done|]. rewrite mjoin_cons.
          rewrite number_len, length_fmap, length_app. f_equal. lia.
      - destruct (IH None) as [->|(? & ? & ?)]; [by left|done]. }
    destruct (Hf (Some 0)) as [->|(m & [= <-] & ->)]; [by left|by right].
Qed.

Lemma concat_repr l xs t yss : repr l xs -> Forall2 stands t yss -> Z.of_nat (length (xs ++ mjoin yss)) <= 2 ^ 30 ->
  exists l', concat l t = Some l' /\ repr l' (xs ++ mjoin yss).
Proof using Hstrict.
  intros H Ht Hl. unfold concat. destruct (stands_filter (FromList l :: t) (xs :: yss)) as (yss' & Ho & E); [by constructor|]. rewrite mjoin_cons in E. rewrite <- E in Hl |- *.
  destruct Ho as [|s ys o yss'' Hs Ho].
  - exists l. split; [done|]. symmetry in E. apply app_nil in E as [-> _]. done.
  - destruct Ho as [|s' ys' o yss'' Hs' Ho].
    + rewrite mjoin_cons in Hl |- *. change (mjoin []) with ([] : list V) in *. rewrite app_nil_r in Hl |- *. by apply List_from_repr.
    + apply List_of_repr; [|done]. apply concat_iters_forward. constructor; [done|by constructor].
Qed.

(** ** Splicing *)

Definition spliced xs (e t : Z) vs : list V :=
  let e := Z.to_nat (resolve xs (Some e) 0) in take e xs ++ vs ++ drop (e + Z.to_nat t) xs.

Lemma splice_repr l xs e t vs : repr l xs -> - 2 ^ 31 <= t < 2 ^ 31 -> Z.of_nat (length xs + length vs) <= 2 ^ 30 ->
  exists l', splice l e t (Val <$> vs) = Some l' /\ repr l' (spliced xs e t vs).
Proof using Hstrict.
  intros H Ht Hl. pose proof (rep_size _ _ H) as Hs. unfold splice. rewrite js_or_comm, or_zero by done. unfold spliced.
  set (e' := resolve xs (Some e) 0). assert (0 <= e' <= Z.of_nat (length xs)) as He' by (unfold e', resolve; destruct (Z.ltb_spec e 0); lia).
  destruct (match (Val <$> vs : list (cell V)) with [] => Z.max t 0 =? 0 | _ => false end) eqn:E0.
  { exists l. split; [done|]. destruct vs; [|done]. cbn in E0. apply Z.eqb_eq in E0. replace (Z.to_nat t) with 0%nat by lia. rewrite Nat.add_0_r. cbn [app]. by rewrite take_drop. }
  assert (P_begin (Some e) (Some (size l)) = Num e') as -> by (unfold P_begin, M_resolve, e', resolve; rewrite Hs; by destruct (e <? 0)).
  destruct (slice_repr l xs (Some 0) (Some e') H) as (r & -> & Hr). destruct (slice_repr l xs (Some (e' + Z.max t 0)) None H) as (rest & -> & Hrest).
  unfold spec_range in Hr, Hrest. assert (take (Z.to_nat e') xs = take (Z.to_nat (resolve xs (Some e') (Z.of_nat (length xs)) - resolve xs (Some 0) 0)) (drop (Z.to_nat (resolve xs (Some 0) 0)) xs)) as Er.
  { unfold resolve. destruct (Z.ltb_spec e' 0); [lia|]. cbn [Z.ltb Z.compare]. rewrite (Z.min_r _ 0), Z.sub_0_r, Z.min_r by lia. done. }
  assert (drop (Z.to_nat e' + Z.to_nat t) xs = take (Z.to_nat (resolve xs None (Z.of_nat (length xs)) - resolve xs (Some (e' + Z.max t 0)) 0)) (drop (Z.to_nat (resolve xs (Some (e' + Z.max t 0)) 0)) xs)) as Eo.
  { unfold resolve. destruct (Z.ltb_spec (e' + Z.max t 0) 0); [lia|]. rewrite take_ge by (rewrite length_drop; lia). destruct (Z.le_gt_cases (e' + Z.max t 0) (Z.of_nat (length xs))).
    - f_equal. lia.
    - rewrite !drop_ge by lia. done. }
  rewrite <- Er in Hr. rewrite <- Eo in Hrest. replace (vs ++ drop (Z.to_nat e' + Z.to_nat t) xs) with (mjoin [vs; drop (Z.to_nat e' + Z.to_nat t) xs]) by (cbn; by rewrite app_nil_r).
  apply concat_repr; [done| |].
  - constructor; [|constructor; [exact Hrest|constructor]]. cbn [stands]. destruct (ee_repr (Val <$> vs : list (cell V))) as [Hee Hse]. split; [|done|by rewrite rekey_indexed, number_values].
    by rewrite rekey_indexed, map_rev, number_values.
  - cbn. rewrite app_nil_r, !length_app, length_take, length_drop. lia.
Qed.

Definition removed xs (e : Z) : list V :=
  let i := wrap xs e in if (0 <=? i) && (i <? Z.of_nat (length xs)) then take (Z.to_nat i) xs ++ drop (S (Z.to_nat i)) xs else xs.

Lemma remove_repr l xs e : repr l xs -> exists l', remove l e = Some l' /\ repr l' (removed xs e).
Proof using Hstrict.
  intros H. pose proof (rep_size _ _ H) as Hs. pose proof (wf_size _ (rep_wf _ _ H)). pose proof (wf_bounds _ (rep_wf _ _ H)). unfold remove, has, removed, wrapIndex, wrap. rewrite Hs.
  set (i := if e <? 0 then _ else _). destruct (Z.leb_spec 0 i); [|by exists l]. destruct (Z.ltb_spec i (Z.of_nat (length xs))); [|by exists l]. cbn [andb].
  destruct (Z.eqb_spec e 0) as [->|].
  - replace i with 0 by done. by apply shift_repr.
  - destruct (Z.eqb_spec e (Z.of_nat (length xs) - 1)) as [->|].
    + assert (i = Z.of_nat (length xs) - 1) as -> by (unfold i; destruct (Z.ltb_spec (Z.of_nat (length xs) - 1) 0); lia).
      rewrite (drop_ge xs) by lia. rewrite app_nil_r. replace (Z.to_nat (Z.of_nat (length xs) - 1)) with (length xs - 1)%nat by lia. by apply pop_repr.
    + destruct (splice_repr l xs e 1 [] H) as (l' & E & Hr); [lia|cbn; lia|]. exists l'. split; [done|]. unfold spliced in Hr.
      replace (resolve xs (Some e) 0) with i in Hr by (unfold i, resolve; unfold i in *; destruct (Z.ltb_spec e 0); lia). by rewrite Nat.add_comm in Hr.
Qed.
End Ops.
