(* ===== verification/ImListProg.v ===== *)
(** * Immutable: List is a sequence

    Programs of updates on lists, against the same programs on sequences: as long
    as no element is undefined a list has the elements the sequence has, at every
    index, and iterating over it in either direction gives them in order.  The last
    section shows what happens with elements that are undefined or were never set:
    values that had been removed come back. *)

From stdpp Require Import list.
From S2P Require Import Prelude ImSeq ImSeqFacts ImIter ImIterFacts ImList ImListFacts ImListSpec ImListIter ImListOps.
Local Open Scope Z_scope.
Local Open Scope js_scope.

Section Programs.
Context {V : Type} (strict : V -> V -> bool) (Hstrict : forall v w, strict v w = true -> v = w).
Implicit Types (l : ilist (V := V)) (xs vs : list V).
Notation repr := ImListSpec.repr.
Notation set := ImList.set.

Inductive list_op : Type :=
| LSet (i : Z) (v : V) | LPush (vs : list V) | LPop | LUnshift (vs : list V) | LShift | LSlice (b e : option Z) | LSetSize (n : Z) | LClear
| LSplice (e t : Z) (vs : list V) | LRemove (e : Z) | LInsert (e : Z) (v : V) | LFilter (p : V -> Z -> bool) | LReverse.

Definition run_op (o : list_op) l : option ilist :=
  match o with
  | LSet i v => set strict l i (Val v)
  | LPush vs => push strict l (Val <$> vs)
  | LPop => pop l
  | LUnshift vs => unshift strict l (Val <$> vs)
  | LShift => shift l
  | LSlice b e => slice l b e
  | LSetSize n => setSize l n
  | LClear => Some (clear l)
  | LSplice e t vs => splice strict l e t (Val <$> vs)
  | LRemove e => remove strict l e
  | LInsert e v => insert strict l e (Val v)
  | LFilter p => filter strict l (fun c i => match c with Val v => of_bool (p v i) | _ => Falsy end)
  | LReverse => reverse_ strict l
  end.

Definition spec_op (o : list_op) xs : list V :=
  let n := Z.of_nat (length xs) in
  match o with
  | LSet i v => let i := wrap xs i in if i <? 0 then v :: xs else if i <? n then <[Z.to_nat i := v]> xs else xs ++ [v]
  | LPush vs => xs ++ vs
  | LPop => take (length xs - 1) xs
  | LUnshift vs => vs ++ xs
  | LShift => drop 1 xs
  | LSlice b e => spec_range xs (resolve xs b 0) (resolve xs e n)
  | LSetSize m => take (Z.to_nat (if m <? 0 then n + m else m)) xs
  | LClear => []
  | LSplice e t vs => spliced xs e t vs
  | LRemove e => removed xs e
  | LInsert e v => spliced xs e 0 [v]
  | LFilter p => map snd (List.filter (fun x => p x.2 x.1) (number xs))
  | LReverse => rev xs
  end.

(** No operation makes an element that is undefined. *)
Definition defined (o : list_op) xs : bool :=
  match o with
  | LSet i _ => (-1 <=? wrap xs i) && (wrap xs i <=? Z.of_nat (length xs))
  | LSetSize m => m <=? Z.of_nat (length xs)
  | _ => true
  end.

(** There is room: positions stay below 2^30. *)
Definition fits (o : list_op) l : bool :=
  match o with
  | LSet i _ => (_capacity l + 1 <=? 2 ^ 30) && room_before l 1
  | LPush vs => _capacity l + Z.of_nat (length vs) <=? 2 ^ 30
  | LUnshift vs => room_before l (Z.of_nat (length vs)) && (Z.of_nat (length vs) <? 2 ^ 31)
  | LSetSize m => (- 2 ^ 31 <=? m) && (m <? 2 ^ 31)
  | LSplice e t vs => (- 2 ^ 31 <=? t) && (t <? 2 ^ 31) && (size l + Z.of_nat (length vs) <=? 2 ^ 30)
  | LInsert e v => size l + 1 <=? 2 ^ 30
  | _ => true
  end.

Lemma set_repr l xs i v : repr l xs -> defined (LSet i v) xs = true -> fits (LSet i v) l = true -> exists l', set strict l i (Val v) = Some l' /\ repr l' (spec_op (LSet i v) xs).
Proof.
  intros H Hd Hf. pose proof (rep_size _ _ H) as Hs. pose proof (wf_size _ (rep_wf _ _ H)). cbn [defined fits spec_op] in *. rewrite andb_true_iff, !Z.leb_le in *.
  assert (wrapIndex l i = wrap xs i) as Ew by (unfold wrapIndex, wrap; by rewrite Hs). unfold set. rewrite Ew, Hs. cbn zeta. set (w := wrap xs i) in *. clearbody w.
  destruct (Z.ltb_spec w 0) as [Hneg|Hpos]; [|destruct (Z.ltb_spec w (Z.of_nat (length xs))) as [Hin|Hout]].
  - rewrite orb_true_r. replace w with (-1) by lia. destruct (unshift_repr strict Hstrict l xs [v] H) as (l' & Hu & Hr); [apply Hf|cbn; lia|]. exists l'. split; [|exact Hr].
    unfold unshift in Hu. change (- len (Val <$> [v])) with (-1) in Hu. destruct (setListBounds l (-1) None) as [l1|] eqn:E1; [|done]. cbn in Hu. cbn [option_map].
    rewrite set_in_range in Hu; [done|]. unfold setListBounds in E1. cbn [option_map] in E1. rewrite or_zero in E1 by lia.
    destruct (grow_front l xs 1 H ltac:(lia) (proj2 Hf)) as (l2 & E2 & _ & Hs2 & _). replace (_origin l - 1) with (_origin l + -1) in E2 by lia. rewrite E1 in E2. injection E2 as <-. lia.
  - destruct (Z.leb_spec (Z.of_nat (length xs)) w); [lia|]. cbn [orb]. eexists. split; [done|]. apply (set_inside_repr strict Hstrict); [done|lia].
  - replace w with (Z.of_nat (length xs)) in * by lia. destruct (set_end strict Hstrict l xs v H) as (l' & Hu & Hr & _); [lia|]. exists l'. split; [|done]. unfold set, wrapIndex in Hu.
    assert ((Z.of_nat (length xs) <? 0) = false) as Hz by lia. rewrite Hs, Hz in Hu. cbn zeta in Hu. rewrite Hz in Hu. exact Hu.
Qed.

Lemma run_op_repr o l xs : repr l xs -> defined o xs = true -> fits o l = true -> exists l', run_op o l = Some l' /\ repr l' (spec_op o xs).
Proof.
  intros H Hd Hf. pose proof (rep_size _ _ H) as Hs. pose proof (wf_size _ (rep_wf _ _ H)) as Hsz. pose proof (wf_bounds _ (rep_wf _ _ H)) as Hb.
  assert (Z.of_nat (length xs) <= 2 ^ 30) as Hlen by lia. destruct o as [i v|vs| |vs| |b e|m| |e t vs|e|e v|p|]; cbn [run_op].
  - by apply set_repr.
  - destruct (push_repr strict Hstrict l xs vs H) as (l' & E & Hr & _); [cbn in Hf; lia|]. by exists l'.
  - by apply pop_repr.
  - cbn in Hf. apply (unshift_repr strict Hstrict); [done|by apply andb_true_iff in Hf as [? _]|lia].
  - by apply shift_repr.
  - by apply slice_repr.
  - cbn [defined fits spec_op] in *. unfold setSize. destruct (bounds_range l xs 0 m H) as (l' & E & Hr); [lia|lia|destruct (Z.ltb_spec m 0); lia|]. exists l'. split; [exact E|].
    unfold spec_range in Hr. by rewrite Z.sub_0_r in Hr.
  - exists (clear l). split; [done|]. by eapply clear_repr.
  - cbn in Hf. rewrite !andb_true_iff, !Z.leb_le, Z.ltb_lt in Hf. apply (splice_repr strict Hstrict); [done|lia|lia].
  - by apply (remove_repr strict Hstrict).
  - cbn in Hf. apply Z.leb_le in Hf. apply (splice_repr strict Hstrict l xs e 0 [v]); [done|lia|cbn; lia].
  - destruct (filter_repr strict Hstrict l xs (fun c i => match c with Val v => of_bool (p v i) | _ => Falsy end) H) as (l' & E & Hr). exists l'. split; [done|].
    cbn [spec_op]. unfold kept in Hr. erewrite List.filter_ext; [exact Hr|]. intros [i v]. cbn. by destruct (p v i).
  - by apply (reverse_repr strict Hstrict).
Qed.

Fixpoint run_ops (os : list list_op) l : option ilist := match os with [] => Some l | o :: os => match run_op o l with None => None | Some l => run_ops os l end end.
Fixpoint spec_ops (os : list list_op) xs : list V := match os with [] => xs | o :: os => spec_ops os (spec_op o xs) end.
Fixpoint all_defined (os : list list_op) xs : bool := match os with [] => true | o :: os => defined o xs && all_defined os (spec_op o xs) end.
Fixpoint all_fit (os : list list_op) l : bool :=
  match os with [] => true | o :: os => fits o l && match run_op o l with Some l => all_fit os l | None => true end end.

Lemma run_ops_repr os l xs : repr l xs -> all_defined os xs = true -> all_fit os l = true -> exists l', run_ops os l = Some l' /\ repr l' (spec_ops os xs).
Proof.
  revert l xs. induction os as [|o os IH]; intros l xs H Hd Hf; cbn in *; [by exists l|]. apply andb_true_iff in Hd as [Hd1 Hd2], Hf as [Hf1 Hf2].
  destruct (run_op_repr o l xs H Hd1 Hf1) as (l1 & E & H1). rewrite E in *. by apply IH.
Qed.

(** C7: List implements a sequence.  Any program of updates (set, push, pop,
    unshift, shift, slice, setSize, clear, splice, remove, insert, filter,
    reverse) from the empty list, as long as it makes no undefined element and
    its positions stay below 2^30, ends in a list that has the size and, at
    every index from either end, the elements that the same program gives on a
    sequence. *)
Theorem list_refines os : all_defined os [] = true -> all_fit os emptyList = true ->
  exists l, run_ops os emptyList = Some l /\ size l = Z.of_nat (length (spec_ops os [])) /\ forall i d, get l i d = spec_get (spec_ops os []) i d.
Proof.
  intros Hd Hf. destruct (run_ops_repr os emptyList [] repr_empty Hd Hf) as (l & E & H). exists l. split; [done|]. split; [apply H|]. intros i d. by apply repr_get.
Qed.

(** C8: iterating over a list.  After any such program, [__iterate] calls its
    callback with the elements of the sequence and their numbers, from the first
    or from the last, until the callback returns false, and returns how often it
    was called; the iterators of all three types yield the same entries and are
    done from then on. *)
Theorem list_iteration os : all_defined os [] = true -> all_fit os emptyList = true ->
  exists l, run_ops os emptyList = Some l
  /\ (forall S (f : cell V -> Z -> S -> S * bool) t n s, (list_fuel l <= n)%nat -> list_iterate l f t n s = Some (run f (number (turn t (Val <$> spec_ops os []))) s))
  /\ itr_of (list_iterator l) (number (Val <$> spec_ops os [])) (number (rev (Val <$> spec_ops os []))).
Proof using Hstrict.
  intros Hd Hf. destruct (run_ops_repr os emptyList [] repr_empty Hd Hf) as (l & E & H). exists l. split; [done|]. rewrite <- (elements_repr l _ H). split; [|by apply list_itr, H].
  intros S f t n s Hn. by apply list_iterate_run; [apply H|].
Qed.
End Programs.

(** ** Samples *)

Definition upto (n : nat) : list Z := Z.of_nat <$> seq 0 n.
Lemma eqb_sound v w : (v =? w) = true -> v = w.
Proof. apply Z.eqb_eq. Qed.

Definition sample_program : list (list_op (V := Z)) :=
  [LPush (upto 70); LUnshift [-2; -1]; LShift; LSlice (Some 5) (Some (-1)); LSet (-1) 100; LRemove 40; LInsert 2 7; LSplice (-30) 4 [8; 9]; LSetSize 50; LPop; LFilter (fun v _ => Z.even v); LReverse].

Lemma list_refines_witness : exists l, run_ops Z.eqb sample_program emptyList = Some l /\ size l = 24 /\ get l 0 ImList.Undef = Val 54 /\ get l (-2) ImList.Undef = Val 6.
Proof.
  destruct (list_refines Z.eqb eqb_sound sample_program) as (l & E & Hs & Hg); [vm_compute; reflexivity..|]. exists l. rewrite !Hg, Hs. split; [exact E|]. split; [|split]; vm_compute; reflexivity.
Defined.

Lemma list_iteration_witness : exists l, run_ops Z.eqb sample_program emptyList = Some l
  /\ list_iterate l (fun c i acc => (acc ++ [(i, c)], i =? 1)) true (list_fuel l) [] = Some ([(0, Val 4); (1, Val 6)], 2).
Proof.
  destruct (list_iteration Z.eqb eqb_sound sample_program) as (l & E & Hi & _); [vm_compute; reflexivity..|]. exists l. split; [exact E|]. rewrite Hi by lia. vm_compute. reflexivity.
Defined.

(** ** Values that come back *)

Definition shown (l : option (ilist (V := Z))) (i : Z) : cell Z := match l with Some l => get l i ImList.Undef | None => ImList.Undef end.
Definition and_then (l : option (ilist (V := Z))) (o : list_op (V := Z)) : option ilist := match l with Some l => run_op Z.eqb o l | None => None end.
Definition listed (n : nat) : option ilist := push Z.eqb emptyList (Val <$> upto n).

(** [removeAfter] keeps a node whose last position is a power of 32 to its level:
    a list of 100 made 64 long and 100 long again has an element it had lost. *)
Lemma stale_after_setSize : shown (and_then (and_then (listed 100) (LSetSize 64)) (LSetSize 100)) 70 = Val 70.
Proof. by vm_compute. Qed.

(** An element that reads as undefined gets a value when the list grows. *)
Lemma stale_undefined :
  let l := and_then (and_then (listed 100) (LSetSize 64)) (LSetSize 65) in shown l 64 = ImList.Undef /\ shown (and_then l (LSetSize 100)) 64 = Val 64.
Proof. by vm_compute. Qed.

(** [removeBefore] compares with the level before it shifts: slicing off the first
    five elements leaves them in place when the new origin is 5, and a list that
    grows to the left shows them again. *)
Lemma stale_before_slice : let l := and_then (and_then (listed 40) (LSlice (Some 5) None)) (LSet (-38) 7) in
  [shown l 0; shown l 1; shown l 2; shown l 3] = [Val 7; Val 3; Val 4; Val 5].
Proof. by vm_compute. Qed.
