(* ===== verification/ImListHoles.v ===== *)
(** * Immutable: lists with holes

    An [OrderedMap] keeps its entries in a list and sets those that were removed to
    undefined, so that its lists have holes.  Here a list is described with its
    holes, for the updates an ordered map makes: appending, setting an element or a
    hole, dropping the last element.  The description includes that the tree holds
    nothing beyond the elements; dropping the last element keeps this unless the
    tail then starts at a power of 32 ([drops_clean]). *)

From stdpp Require Import list.
From S2P Require Import Prelude ImSeq ImSeqFacts ImList ImListFacts ImListSpec ImListIter ImListOps.
Local Open Scope Z_scope.
Local Open Scope js_scope.

Section Holes.
Context {V : Type} (strict : V -> V -> bool) (Hstrict : forall v w, strict v w = true -> v = w).
Notation node := (list (cell V)).
Notation Undef := ImList.Undef.
Implicit Types (l : ilist (V := V)) (xs : list (option V)) (a : node) (n : option node).

Definition cell_of (o : option V) : cell V := match o with Some v => Val v | None => Undef end.

(** Nothing in the tree from the tail on *)
Definition clean l : Prop := forall j, getTailOffset (_capacity l) <= j < B (S (levels l)) -> tget (levels l) (_root l) j = Undef.

Record exact l xs : Prop := {
  ex_wf : wf l;
  ex_origin : _origin l = 0;
  ex_size : size l = Z.of_nat (length xs);
  ex_at i o : xs !! i = Some o -> at_pos l (Z.of_nat i) = cell_of o;
  ex_clean : clean l
}.

Lemma exact_empty : exact emptyList [].
Proof. constructor; [apply emptyList_wf|done|done|done|]. intros j _. apply tget_none. Qed.

Lemma exact_nil l : exact l [] -> l = emptyList.
Proof. intros [Hw Ho Hs _ _]. destruct (wf_nonempty _ Hw) as [Hlt|]; [|done]. rewrite (wf_size _ Hw) in Hs. cbn in Hs. lia. Qed.

(** ** Setting *)

(** What [updateVNode] returns when it sets [c] *)
Definition updated (k : nat) n (i : Z) (c : cell V) (r : option node) : Prop :=
  match r with None => tget k n i = c | Some n' => forall j, tget k (Some n') j = if j mod B (S k) =? i mod B (S k) then c else tget k n j end.

Lemma get_at_drop_last a j : 0 <= j -> get_at (take (length a - 1) a) j = if j =? len a - 1 then Undef else get_at a j.
Proof.
  intros Hj. unfold get_at, len. destruct (Z.ltb_spec j 0); [lia|]. destruct (Z.eqb_spec j (Z.of_nat (length a) - 1)) as [->|].
  - by rewrite lookup_take_ge by lia.
  - destruct (decide (Z.to_nat j < length a - 1)%nat); [by rewrite lookup_take_lt|]. rewrite lookup_take_ge by lia. by rewrite lookup_ge_None_2 by lia.
Qed.

Lemma update_hole fuel k n i : (k < fuel)%nat -> (k <= 6)%nat -> 0 <= i < 2 ^ 32 -> updated k n i Undef (updateVNode strict fuel n (5 * Z.of_nat k) i Undef).
Proof.
  revert fuel n. induction k as [|k IH]; intros fuel n Hf Hk Hi; (destruct fuel as [|fuel]; [lia|]); cbn [updateVNode]; rewrite digit_eq by lia; rewrite andb_true_r.
  - pose proof (Z.mod_pos_bound i 32 ltac:(lia)). change (0 <? 5 * Z.of_nat 0) with false. unfold dig. rewrite B_0, Z.div_1_r.
    destruct n as [a|]; cbn [default from_option id negb]; [|exact (tget_none 0 i)]. unfold id. destruct (Z.ltb_spec (i mod 32) (len a)); cbn [negb andb].
    + assert (forall r, (forall j, 0 <= j -> get_at r j = if j =? i mod 32 then Undef else get_at a j) -> updated 0 (Some a) i Undef (Some r)) as Hset.
      { intros r Hr j. unfold tget, leaf_of, in_leaf. change (B 1) with 32. apply Hr. apply Z.mod_pos_bound. lia. }
      destruct (same strict (get_at a (i mod 32)) Undef) eqn:Es; [unfold updated, tget, leaf_of, in_leaf; by destruct (get_at a (i mod 32))|]. destruct (Z.eqb_spec (i mod 32) (len a - 1)) as [E|E]; apply Hset; intros j Hj.
      * rewrite get_at_drop_last by done. by rewrite E.
      * rewrite get_set_at by lia. by rewrite Z.eqb_sym.
    + unfold updated, tget, leaf_of, in_leaf. by apply get_at_beyond.
  - destruct (Z.ltb_spec 0 (5 * Z.of_nat (S k))); [|lia]. unfold SHIFT. replace (5 * Z.of_nat (S k) - 5) with (5 * Z.of_nat k) by lia. pose proof (dig_range (S k) i).
    destruct (match n with Some a => dig (S k) i <? len a | None => false end) eqn:Eh; cbn [negb].
    + specialize (IH fuel (child n (dig (S k) i)) ltac:(lia) ltac:(lia) Hi). destruct (updateVNode _ _ _ _ _ _) as [a'|]; [|exact IH].
      intros j. rewrite tget_S, child_set_at by apply dig_range. rewrite (Z.eqb_sym (j mod _)). destruct (Z.eqb_spec (dig (S k) i) (dig (S k) j)) as [E|E].
      * cbn in IH. rewrite IH. rewrite tget_S, <- E, Z.eqb_sym. destruct (Z.eqb_spec (i mod B (S k)) (j mod B (S k))) as [E2|E2], (Z.eqb_spec (i mod B (S (S k))) (j mod B (S (S k)))) as [E3|E3]; try done.
        -- by destruct E3; apply mod_B_S_eq.
        -- by apply mod_B_S_eq in E3 as [_ ?].
      * destruct (Z.eqb_spec (i mod B (S (S k))) (j mod B (S (S k)))) as [E3|]; [|done]. by apply mod_B_S_eq in E3 as [? _].
    + unfold updated. rewrite tget_S. destruct n as [a|]; [|apply tget_none]. apply Z.ltb_ge in Eh. cbn. rewrite get_at_beyond by done. apply tget_none.
Qed.

Lemma update_cell fuel k n i (o : option V) : (k < fuel)%nat -> (k <= 6)%nat -> 0 <= i < 2 ^ 32 -> updated k n i (cell_of o) (updateVNode strict fuel n (5 * Z.of_nat k) i (cell_of o)).
Proof using Hstrict.
  intros Hf Hk Hi. destruct o as [v|]; [|by apply update_hole]. pose proof (updateVNode_spec strict fuel k n i v Hf Hk Hi) as H. cbn [cell_of].
  destruct (updateVNode _ _ _ _ _ _); [exact H|]. destruct H as (w & Hw & ->%Hstrict). exact Hw.
Qed.

(** [l'] is [l] with [o] at the position [i]. *)
Definition with_cell l l' (i : Z) (o : option V) : Prop :=
  wf l' /\ _origin l' = 0 /\ _capacity l' = _capacity l /\ (forall j, 0 <= j < _capacity l -> at_pos l' j = if j =? i then cell_of o else at_pos l j) /\ clean l'.

Lemma set_inside_holes l i o : wf l -> _origin l = 0 -> clean l -> 0 <= i < size l -> with_cell l (set_inside strict l i (cell_of o)) i o.
Proof using Hstrict.
  intros Hw Ho Hcl Hi. pose proof (wf_size _ Hw) as Hsz. pose proof (wf_levels _ Hw) as Hk. destruct (wf_inside l i Hw ltac:(lia)) as (Hr & Hc & Hlt). pose proof (wf_bounds _ Hw) as Hb.
  pose proof (wf_tail _ Hw) as Htl. unfold set_inside. cbn zeta. rewrite Ho, Z.add_0_r.
  destruct (Z.leb_spec (getTailOffset (_capacity l)) i) as [Ht|Ht].
  - pose proof (update_cell 1 0 (_tail l) i o ltac:(lia) ltac:(lia) ltac:(lia)) as Hu. change (5 * Z.of_nat 0) with 0 in Hu. destruct (tail_offset_spec (_capacity l) Hc) as (T1 & T2 & T3).
    destruct (updateVNode strict 1 (_tail l) 0 _ _) as [a|]; (split; [|split; [|split; [|split]]]); try done.
    + rewrite (wf_level _ Hw). by apply makeList_wf; try lia.
    + intros j Hj. unfold at_pos. rewrite (wf_level _ Hw), levels_mul. cbn [makeList _capacity _tail _root]. destruct (Z.leb_spec (getTailOffset (_capacity l)) j); [|by destruct (Z.eqb_spec j i); [lia|]].
      specialize (Hu j). unfold tget, leaf_of in Hu. rewrite Hu. change (B 1) with 32. rewrite (block_mod _ (_capacity l) j T1), (block_mod _ (_capacity l) i T1) by lia.
      destruct (Z.eqb_spec (j - getTailOffset (_capacity l)) (i - getTailOffset (_capacity l))), (Z.eqb_spec j i); (done || lia).
    + intros j Hj. destruct (Z.eqb_spec j i) as [->|]; [|done]. unfold at_pos. destruct (Z.leb_spec (getTailOffset (_capacity l)) i); [|lia]. exact Hu.
  - pose proof (update_cell (depth (_level l)) (levels l) (_root l) i o) as Hu. rewrite (wf_level _ Hw) in *. unfold depth in Hu |- *.
    specialize (Hu ltac:(lia) ltac:(lia) ltac:(lia)). destruct (updateVNode strict _ (_root l) _ _ _) as [a|]; (split; [|split; [|split; [|split]]]); try done.
    + by apply makeList_wf; try lia.
    + intros j Hj. unfold at_pos. cbn [makeList _capacity _tail _root]. rewrite levels_mul. destruct (Z.leb_spec (getTailOffset (_capacity l)) j); [by destruct (Z.eqb_spec j i); [lia|]|].
      cbn in Hu. rewrite Hu, same_block by lia. done.
    + unfold clean. rewrite levels_mul. cbn [makeList _capacity _root]. intros j Hj. cbn in Hu. rewrite Hu, same_block by lia. destruct (Z.eqb_spec j i); [lia|]. by apply Hcl.
    + intros j Hj. destruct (Z.eqb_spec j i) as [->|]; [|done]. unfold at_pos. destruct (Z.leb_spec (getTailOffset (_capacity l)) i); [lia|]. exact Hu.
Qed.


Lemma with_cell_exact l l' xs i o : with_cell l l' i o -> size l = Z.of_nat (length xs) -> _origin l = 0 -> wf l -> 0 <= i < size l ->
  (forall j x, Z.of_nat j <> i -> xs !! j = Some x -> at_pos l (Z.of_nat j) = cell_of x) -> exact l' (<[Z.to_nat i := o]> xs).
Proof.
  intros (W' & O' & C' & A' & Cl') Hs Ho Hw Hi Ha. pose proof (wf_size _ Hw). constructor; [done|done|rewrite length_insert, (wf_size _ W'); lia| |done]. intros j x Hj. pose proof (lookup_lt_Some _ _ _ Hj) as Hl.
  rewrite length_insert in Hl. rewrite A' by lia. destruct (Z.eqb_spec (Z.of_nat j) i) as [E|E].
  - replace (Z.to_nat i) with j in Hj by lia. rewrite list_lookup_insert_eq in Hj by lia. congruence.
  - rewrite list_lookup_insert_ne in Hj by lia. by apply Ha.
Qed.

Lemma set_inside_exact l xs i o : exact l xs -> 0 <= i < size l -> exact (set_inside strict l i (cell_of o)) (<[Z.to_nat i := o]> xs).
Proof using Hstrict.
  intros [Hw Ho Hs Ha Hcl] Hi. apply (with_cell_exact l); [by apply set_inside_holes|done..|]. intros j x _. apply Ha.
Qed.

(** ** Appending *)

Lemma tget_root0_beyond k n j : B (S k) <= j < B (S (S k)) -> tget (S k) (Some (if no_array n then [] else [of_node n])) j = Undef.
Proof.
  intros Hj. rewrite tget_S. pose proof (B_pos (S k)). rewrite (B_S (S k)) in Hj.
  assert (0 < dig (S k) j) as Hd.
  { unfold dig. assert (1 <= j / B (S k) < 32) by (split; [apply Z.div_le_lower_bound|apply Z.div_lt_upper_bound]; lia). rewrite Z.mod_small; lia. }
  assert (child (Some (if no_array n then [] else [of_node n])) (dig (S k) j) = None) as ->; [|apply tget_none]. cbn. destruct (no_array n); [by rewrite get_at_nil|]. rewrite get_at_beyond; [done|]. change (len [of_node n]) with 1. lia.
Qed.

Lemma grow_after_beyond fuel k n p : (1 <= k)%nat -> (k <= 5)%nat -> (6 <= fuel + k)%nat -> 0 <= p < 2 ^ 30 ->
  exists k' n', grow_after fuel p (5 * Z.of_nat k) n = Some (5 * Z.of_nat k', n') /\ forall j, B (S k) <= j < B (S k') -> tget k' n' j = Undef.
Proof.
  revert k n. induction fuel as [|fuel IH]; intros k n H1 H5 Hf Hp; [lia|]. cbn [grow_after]. unfold SHIFT.
  replace (5 * Z.of_nat k + 5) with (5 * Z.of_nat (S k)) by lia. rewrite shl_level by lia. destruct (Z.leb_spec (B (S k)) p) as [Hle|Hlt]; cbn [negb].
  - assert (k <= 4)%nat as Hk4. { destruct (decide (k <= 4)%nat); [done|]. replace k with 5%nat in Hle by lia. rewrite B_6 in Hle. lia. }
    set (n1 := Some (if no_array n then [] else [of_node n])).
    destruct (IH (S k) n1 ltac:(lia) ltac:(lia) ltac:(lia) Hp) as (k' & n' & E & Hb).
    destruct (grow_after_spec fuel (S k) n1 p ltac:(lia) ltac:(lia) ltac:(lia) Hp) as (k2 & n2 & E2 & _ & _ & Hg & _). rewrite E in E2. injection E2 as E3 <-. replace k2 with k' in * by lia.
    exists k', n'. split; [done|]. intros j Hj. destruct (Z.lt_ge_cases j (B (S (S k)))); [|apply Hb; lia]. rewrite Hg by (pose proof (B_pos (S k)); lia). apply tget_root0_beyond. lia.
  - exists k, n. split; [done|]. lia.
Qed.

(** The tail is empty, or it becomes a leaf. *)
Lemma tail_moves k' n' (tail : option node) (f cap : Z) j : (1 <= k' <= 5)%nat -> 0 <= f -> f mod 32 = 0 -> f + 32 <= B (S k') -> 0 <= j < B (S k') -> cap = f + 32 ->
  (forall i, f <= i < B (S k') -> tget k' n' i = Undef) ->
  tget k' (match tail with Some d => if negb (len d =? 0) then Some (insert_leaf (depth (5 * Z.of_nat k')) n' (5 * Z.of_nat k') f d) else n' | None => n' end) j
  = if j <? f then tget k' n' j else if j <? cap then in_leaf tail j else Undef.
Proof.
  intros Hk Hf0 Hf Hb Hj -> Hcl. pose proof (B_mono (S k') 6 ltac:(lia)) as HB. rewrite B_6 in HB.
  assert (forall x, 0 <= x < B (S k') -> x / 32 mod B k' = x / 32) as Hsm.
  { intros x Hx. rewrite B_S in Hx. apply Z.mod_small. split; [apply Z.div_pos; lia|apply Z.div_lt_upper_bound; lia]. }
  assert (forall r, (forall i, in_leaf tail i = Undef) -> r = tget k' n' j -> r = if j <? f then tget k' n' j else if j <? f + 32 then in_leaf tail j else Undef) as Hno.
  { intros r Ht ->. destruct (Z.ltb_spec j f); [done|]. rewrite Ht, Hcl by lia. by destruct (_ <? _). }
  destruct tail as [d|]; [|by apply Hno]. destruct (Z.eqb_spec (len d) 0) as [E|E]; cbn [negb].
  - apply Hno; [|done]. intros i. destruct d; [apply get_at_nil|by cbn in E].
  - rewrite insert_leaf_spec by (unfold depth; lia). rewrite !Hsm by lia. pose proof (Z.div_mod j 32 ltac:(lia)). pose proof (Z.div_mod f 32 ltac:(lia)). pose proof (Z.mod_pos_bound j 32 ltac:(lia)).
    destruct (Z.eqb_spec (j / 32) (f / 32)), (Z.ltb_spec j f), (Z.ltb_spec j (f + 32)); try lia; try done. apply Hcl. lia.
Qed.

Lemma append_spec l : wf l -> _origin l = 0 -> clean l -> 0 < _capacity l -> _capacity l + 1 <= 2 ^ 30 -> exists l', moveBounds l 0 (_capacity l + 1) = Some l'
  /\ wf l' /\ _origin l' = 0 /\ _capacity l' = _capacity l + 1 /\ (forall j, 0 <= j < _capacity l -> at_pos l' j = at_pos l j) /\ clean l'.
Proof.
  intros Hw Ho Hcl H0 H30. pose proof (wf_levels _ Hw) as Hk. pose proof (wf_tail _ Hw) as Htl. set (u := _capacity l + 1) in *.
  destruct (tail_offset_spec u ltac:(lia)) as (P1 & P2 & P3). destruct (tail_offset_spec (_capacity l) ltac:(lia)) as (F1 & F2 & F3).
  unfold moveBounds. rewrite Ho. destruct (Z.eqb_spec u (_capacity l)); [lia|]. cbn [Z.eqb andb]. destruct (Z.leb_spec u 0); [lia|].
  rewrite grow_before_none by lia. rewrite !Z.add_0_r. unfold clean in Hcl. set (p := getTailOffset u) in *. set (f := getTailOffset (_capacity l)) in *.
  assert (p = f \/ p = f + 32 /\ _capacity l = f + 32) as Hpf. { pose proof (Z.div_mod p 32 ltac:(lia)). pose proof (Z.div_mod f 32 ltac:(lia)). lia. }
  rewrite (wf_level _ Hw). destruct (grow_after_spec 7 (levels l) (_root l) p ltac:(lia) ltac:(lia) ltac:(lia) ltac:(lia)) as (k' & n' & E & Hk' & Hp' & Hg & Hsame).
  destruct (grow_after_beyond 7 (levels l) (_root l) p ltac:(lia) ltac:(lia) ltac:(lia) ltac:(lia)) as (k2 & n2 & E2 & Hby). rewrite E in E2. injection E2 as E3 <-. replace k2 with k' in * by lia. clear k2 E3. rewrite E.
  destruct (Z.ltb_spec p f); [lia|]. destruct (Z.ltb_spec u (_capacity l)); [lia|]. cbn [Z.ltb Z.compare orb]. destruct Hpf as [Hpf|[Hpf Hcap]].
  - destruct Hsame as [-> ->]; [lia|]. destruct (Z.ltb_spec f p); [lia|]. cbn [andb]. replace (match _tail l with Some _ => _root l | None => _root l end) with (_root l) by (by destruct (_tail l)).
    destruct (Z.leb_spec p 0) as [Hp0|Hp0].
    + eexists. split; [done|]. destruct (only_tail (fun j => j < _capacity l) l 0 u p (_tail l)) as (W & _ & A); try lia.
      { intros j Hj HQ. unfold at_pos. fold f. destruct (Z.leb_spec f j); [done|lia]. }
      split; [done|]. split; [cbn; lia|]. split; [cbn; lia|]. split; [|intros j _; apply tget_none].
      intros j Hj. specialize (A j ltac:(lia) ltac:(lia)). rewrite Z.add_0_l in A. rewrite <- A. f_equal. cbn. lia.
    + eexists. split; [done|]. split; [by apply makeList_wf; try lia|]. split; [done|]. split; [done|]. unfold clean, at_pos. rewrite levels_mul. cbn [makeList _capacity _tail _root]. fold p f. rewrite Hpf. done.
  - destruct (Z.ltb_spec f p); [|lia]. destruct (Z.ltb_spec 0 (_capacity l)); [|lia]. cbn [andb]. destruct (Z.leb_spec p 0); [lia|]. eexists. split; [done|]. split; [by apply makeList_wf; try lia|]. split; [done|]. split; [done|].
    pose proof (fun j Hj => tail_moves k' n' (_tail l) f (_capacity l) j ltac:(lia) ltac:(lia) F1 ltac:(lia) Hj Hcap) as Htm.
    assert (forall i, f <= i < B (S k') -> tget k' n' i = Undef) as Hcl'.
    { intros i Hi. destruct (Z.lt_ge_cases i (B (S (levels l)))); [rewrite Hg by lia; apply Hcl; lia|apply Hby; lia]. }
    unfold clean, at_pos. rewrite levels_mul. cbn [makeList _capacity _tail _root]. fold p f. split.
    + intros j Hj. destruct (Z.leb_spec p j); [lia|]. rewrite Htm by (done || lia). destruct (Z.ltb_spec j f), (Z.leb_spec f j), (Z.ltb_spec j (_capacity l)); try lia; [|done]. apply Hg. lia.
    + intros j Hj. rewrite Htm by (done || lia). destruct (Z.ltb_spec j f), (Z.ltb_spec j (_capacity l)); (lia || done).
Qed.

(** Setting the element after the last *)
Lemma append_set l xs v : exact l xs -> Z.of_nat (length xs) + 1 <= 2 ^ 30 -> exists l', set strict l (Z.of_nat (length xs)) (Val v) = Some l' /\ exact l' (xs ++ [Some v]).
Proof using Hstrict.
  intros H Hl. pose proof H as [Hw Ho Hs Ha Hcl]. pose proof (wf_size _ Hw) as Hsz. rewrite <- Hs. unfold set, wrapIndex. destruct (Z.ltb_spec (size l) 0) as [|Hn]; [lia|]. rewrite Z.leb_refl. cbn zeta. cbn [orb].
  destruct (Z.ltb_spec (size l) 0); [lia|]. unfold setListBounds. rewrite !or_zero by lia. cbn [option_map]. rewrite or_zero by lia. destruct (Z.ltb_spec (size l + 1) 0); [lia|]. rewrite Ho, !Z.add_0_l.
  assert (exists l', moveBounds l 0 (size l + 1) = Some l' /\ wf l' /\ _origin l' = 0 /\ _capacity l' = size l + 1 /\ (forall j, 0 <= j < size l -> at_pos l' j = at_pos l j) /\ clean l')
    as (l1 & -> & W1 & O1 & C1 & A1 & Cl1).
  { destruct (Z.eq_dec (size l) 0) as [E|E].
    - assert (l = emptyList) as -> by (destruct (wf_nonempty _ Hw); [lia|done]). exists (makeList 0 1 SHIFT None None). split; [done|].
      split; [change SHIFT with (5 * Z.of_nat 1); apply makeList_wf; done || lia|]. split; [done|]. split; [done|]. split; [lia|]. intros j _. apply tget_none.
    - destruct (append_spec l Hw Ho Hcl ltac:(lia) ltac:(lia)) as (l1 & E1 & R). exists l1. replace (size l) with (_capacity l) by lia. by split. }
  cbn [option_map]. eexists. split; [done|].
  pose proof (wf_size _ W1) as S1. replace (xs ++ [Some v]) with (<[Z.to_nat (size l) := Some v]> (xs ++ [None])).
  - apply (with_cell_exact l1); [apply (set_inside_holes l1 (size l) (Some v)); (done || lia)|rewrite length_app; cbn; lia|done|done|lia|]. intros j x Hj Hx.
    pose proof (lookup_lt_Some _ _ _ Hx) as Hlt. rewrite length_app in Hlt. cbn in Hlt. rewrite lookup_app_l in Hx by lia. rewrite A1 by lia. by apply Ha.
  - rewrite Hs, Nat2Z.id. by rewrite insert_app_r_alt, Nat.sub_diag by lia.
Qed.

(** ** Dropping the last element *)

(** The tail does not start at a power of 32 after the element is dropped. *)
Definition drops_clean (size : Z) : bool :=
  let p := getTailOffset (size - 1) in negb ((p <? getTailOffset size) && existsb (Z.eqb p) [32; 1024; 32768; 1048576; 33554432]).

Lemma get_at_take_beyond a r i : 0 <= r < i -> get_at (take (S (Z.to_nat r)) a) i = Undef.
Proof. intros Hi. unfold get_at. destruct (Z.ltb_spec i 0); [lia|]. by rewrite lookup_take_ge by lia. Qed.

Lemma removeAfter_clean fuel k a i j : (k < fuel)%nat -> (k <= 6)%nat -> 0 < i < 2 ^ 32 -> (k = 0%nat \/ B k < i) -> (i - 1) mod B (S k) < j mod B (S k) ->
  tget k (Some (or_same (fun a => removeAfter fuel a (5 * Z.of_nat k) i) a)) j = Undef.
Proof.
  revert fuel a. induction k as [|k IH]; intros fuel a Hf Hk Hi Hik Hj; (destruct fuel as [|fuel]; [lia|]); unfold or_same; cbn [removeAfter];
    (destruct (Z.eqb_spec (len a) 0) as [E0|E0]; [rewrite orb_true_r; cbn [default from_option]; unfold id; apply tget_empty; cbn; by rewrite E0|rewrite orb_false_r]).
  - rewrite digit_eq by lia. change (5 * Z.of_nat 0 =? 0) with true. change (0 <? 5 * Z.of_nat 0) with false. cbn iota. destruct (Z.eqb_spec i 0); [lia|]. cbn [andb].
    unfold dig. rewrite B_0, Z.div_1_r. change (B 1) with 32 in Hj. pose proof (Z.mod_pos_bound (i - 1) 32 ltac:(lia)).
    destruct (Z.leb_spec (len a) ((i - 1) mod 32)); cbn [default from_option]; unfold id, tget, leaf_of, in_leaf; [apply get_at_beyond; lia|apply get_at_take_beyond; lia].
  - destruct (Z.eqb_spec (5 * Z.of_nat (S k)) 0); [lia|]. rewrite shl_level by lia. destruct (Z.eqb_spec i (B (S k))); [lia|]. rewrite digit_eq by lia.
    destruct (Z.ltb_spec 0 (5 * Z.of_nat (S k))); [|lia]. cbn [andb]. unfold SHIFT. replace (5 * Z.of_nat (S k) - 5) with (5 * Z.of_nat k) by lia.
    apply mod_B_S_lt in Hj. pose proof (dig_range (S k) (i - 1)). pose proof (dig_range (S k) j). set (r := dig (S k) (i - 1)) in *.
    assert (k = 0%nat \/ B k < i) as Hik'. { right. pose proof (B_mono k (S k) ltac:(lia)). lia. }
    assert (forall (m : node) x, len m <= r + 1 -> r < x -> child (Some m) x = None) as Hout by (intros m x Hm Hx; cbn; by rewrite get_at_beyond by lia).
    destruct (Z.leb_spec (len a) r); [cbn [default from_option]; unfold id; rewrite tget_S; cbn; rewrite get_at_beyond by lia; apply tget_none|]. set (cut := take _ a).
    assert (len cut = r + 1) as Hcl by (unfold cut, len in *; rewrite length_take; lia).
    assert (forall o, len (set_at cut r o) <= r + 1) as Hset.
    { intros o. unfold set_at, len in *. rewrite length_insert, length_app, length_replicate. lia. }
    destruct (child (Some a) r) as [o|] eqn:Ho.
    + specialize (IH fuel o ltac:(lia) ltac:(lia) Hi Hik'). unfold or_same in IH. destruct (removeAfter fuel o _ i) as [o'|]; cbn [default from_option id] in *; unfold id in *.
      * rewrite andb_false_l. cbn [default from_option]. rewrite tget_S. destruct (Z.eqb_spec r (dig (S k) j)) as [E|]; [|rewrite Hout by (apply Hset || lia); apply tget_none].
        change (set_at cut r (Nd o')) with (set_at (default [] (Some cut)) r (Nd o')). rewrite child_set_at by lia. rewrite E, Z.eqb_refl. apply IH. lia.
      * rewrite andb_true_l. destruct (Z.eqb_spec r (len a - 1)) as [E2|E2]; cbn [default from_option]; rewrite tget_S.
        -- destruct (Z.eqb_spec r (dig (S k) j)) as [E|]; [rewrite <- E, Ho; apply IH; lia|]. rewrite Hout by lia. apply tget_none.
        -- destruct (Z.eqb_spec r (dig (S k) j)) as [E|]; [|rewrite Hout by (apply Hset || lia); apply tget_none].
           change (set_at cut r (Nd o)) with (set_at (default [] (Some cut)) r (Nd o)). rewrite child_set_at by lia. rewrite E, Z.eqb_refl. apply IH. lia.
    + rewrite andb_true_l. destruct (Z.eqb_spec r (len a - 1)) as [E2|E2]; cbn [default from_option]; rewrite tget_S.
      * destruct (Z.eqb_spec r (dig (S k) j)) as [E|]; [unfold id; rewrite <- E, Ho; apply tget_none|]. unfold id. rewrite Hout by lia. apply tget_none.
      * unfold id. fold cut. destruct (Z.eqb_spec r (dig (S k) j)) as [E|]; [|rewrite (Hout cut) by lia; apply tget_none]. assert (child (Some cut) (dig (S k) j) = None) as ->; [|apply tget_none].
        rewrite <- E, <- Ho. cbn. unfold cut. by rewrite get_at_take by lia.
Qed.

(** The new root when the origin is 0 *)
Lemma new_root_zero fuel k n p : (k < fuel)%nat -> (1 <= k <= 5)%nat -> 0 < p < B (S k) -> p mod 32 = 0 ->
  exists k' n', new_root fuel 0 p (5 * Z.of_nat k) 0 n = (5 * Z.of_nat k', 0, n') /\ (1 <= k' <= k)%nat /\ p < B (S k') /\ (n' = None \/ B k' <= p)
    /\ forall j, 0 <= j < B (S k') -> tget k' n' j = tget k n j.
Proof.
  revert fuel n. induction k as [|k IH]; intros fuel n Hf Hk Hp H32; [lia|]. destruct fuel as [|fuel]; [lia|]. cbn [new_root].
  destruct n as [m|]; [|exists (S k), None; split; [done|]; split; [lia|]; split; [lia|]; split; [by left|done]].
  pose proof (B_mono (S (S k)) 6 ltac:(lia)) as HB. rewrite B_6 in HB. rewrite !digit_eq by lia. assert (dig (S k) 0 = 0) as -> by (apply dig_small; pose proof (B_pos (S k)); lia).
  destruct (Z.eqb_spec 0 (dig (S k) p)) as [E|E]; cbn [negb].
  - assert (p < B (S k)) as Hlt.
    { pose proof (mod_B_S (S k) p) as Hm. rewrite <- E, Z.mod_small in Hm by lia. pose proof (Z.mod_pos_bound p (B (S k)) (B_pos _)). lia. }
    destruct k as [|k]; [change (B 1) with 32 in Hlt; rewrite Z.mod_small in H32; lia|]. unfold SHIFT. rewrite Z.eqb_refl. replace (5 * Z.of_nat (S (S k)) - 5) with (5 * Z.of_nat (S k)) by lia.
    destruct (IH fuel (child (Some m) 0) ltac:(lia) ltac:(lia) ltac:(lia) H32) as (k' & n' & -> & Hk' & Hpk & Hor & Hg). exists k', n'. split; [done|]. split; [lia|]. split; [done|]. split; [done|].
    intros j Hj. rewrite Hg by done. rewrite (tget_S (S k)), dig_small; [done|]. pose proof (B_mono (S k') (S (S k)) ltac:(lia)). lia.
  - exists (S k), (Some m). split; [done|]. split; [lia|]. split; [lia|]. split; [|done]. right. destruct (Z.le_gt_cases (B (S k)) p); [done|]. destruct E. symmetry. apply dig_small. lia.
Qed.

Lemma bad_power k p : (1 <= k <= 5)%nat -> existsb (Z.eqb p) [32; 1024; 32768; 1048576; 33554432] = false -> p <> B k.
Proof.
  intros Hk Hb ->. assert (existsb (Z.eqb (B k)) [32; 1024; 32768; 1048576; 33554432] = true); [|congruence].
  destruct k as [|[|[|[|[|[|]]]]]]; (lia || done).
Qed.

Lemma drop_last_clean l l' : wf l -> _origin l = 0 -> clean l -> 1 < _capacity l -> drops_clean (_capacity l) = true -> moveBounds l 0 (_capacity l - 1) = Some l' -> clean l'.
Proof.
  intros Hw Ho Hcl Hc Hd. pose proof (wf_levels _ Hw) as Hk. pose proof (wf_tail _ Hw) as Htl. pose proof (wf_bounds _ Hw) as Hb. set (u := _capacity l - 1) in *.
  destruct (tail_offset_spec u ltac:(lia)) as (P1 & P2 & P3). destruct (tail_offset_spec (_capacity l) ltac:(lia)) as (F1 & F2 & F3). unfold drops_clean in Hd. cbn zeta in Hd. fold u in Hd.
  unfold moveBounds. rewrite Ho. destruct (Z.eqb_spec u (_capacity l)); [lia|]. cbn [Z.eqb andb]. destruct (Z.leb_spec u 0); [lia|].
  rewrite grow_before_none by lia. rewrite !Z.add_0_r. unfold clean in Hcl. set (p := getTailOffset u) in *. set (f := getTailOffset (_capacity l)) in *.
  assert (p <= f) as Hpf. { pose proof (Z.div_mod p 32 ltac:(lia)). pose proof (Z.div_mod f 32 ltac:(lia)). lia. }
  rewrite (wf_level _ Hw). destruct (grow_after_spec 7 (levels l) (_root l) p ltac:(lia) ltac:(lia) ltac:(lia) ltac:(lia)) as (k' & n' & -> & _ & _ & _ & Hsame).
  destruct Hsame as [-> ->]; [lia|]. destruct (Z.ltb_spec f p); [lia|]. cbn [andb].
  replace (match _tail l with Some _ => _root l | None => _root l end) with (_root l) by (by destruct (_tail l)).
  destruct (Z.leb_spec p 0); [intros <-%Some_inj j _; apply tget_none|]. cbn [Z.ltb Z.compare orb]. destruct (Z.ltb_spec p f) as [Hlt|Hge].
  - destruct (new_root_zero (depth (5 * Z.of_nat (levels l))) (levels l) (_root l) p) as (k' & n' & -> & Hk' & Hpk & Hor & Hg); try (unfold depth; lia).
    rewrite !Z.sub_0_r. cbn [andb negb] in Hd. intros <-%Some_inj. unfold clean. rewrite levels_mul. cbn [makeList _capacity _root]. fold p. intros j Hj.
    destruct n' as [m|]; [|apply tget_none]. destruct Hor as [|Hor]; [done|]. cbn [option_map]. pose proof (B_mono (S k') 6 ltac:(lia)) as HB. rewrite B_6 in HB.
    apply removeAfter_clean; try (unfold depth; lia).
    + right. apply negb_true_iff in Hd. pose proof (bad_power k' p ltac:(lia) Hd). lia.
    + rewrite !Z.mod_small by lia. lia.
  - intros <-%Some_inj. unfold clean. rewrite levels_mul. cbn [makeList _capacity _root]. fold p. replace p with f by lia. exact Hcl.
Qed.

Lemma pop_exact l xs : exact l xs -> drops_clean (size l) = true -> exists l', pop l = Some l' /\ exact l' (take (length xs - 1) xs).
Proof.
  intros H Hd. pose proof H as [Hw Ho Hs Ha Hcl]. pose proof (wf_size _ Hw) as Hsz. pose proof (wf_bounds _ Hw) as Hb. unfold pop, setListBounds. rewrite or_zero by lia. cbn [option_map]. rewrite or_zero by lia. cbn [Z.ltb Z.compare].
  rewrite Ho, Z.add_0_r. replace (_capacity l + -1) with (_capacity l - 1) by lia. destruct (Z.le_gt_cases (_capacity l) 1) as [Hc|Hc].
  - exists emptyList. replace (length xs - 1)%nat with 0%nat by lia. rewrite take_0. split; [|apply exact_empty]. unfold moveBounds. rewrite Ho. destruct (Z.eqb_spec (_capacity l - 1) (_capacity l)); [lia|]. cbn [Z.eqb andb].
    destruct (Z.leb_spec (_capacity l - 1) 0); [|lia]. unfold clear. destruct (Z.eqb_spec (size l) 0); [|done]. destruct (wf_nonempty _ Hw) as [|E]; [lia|by rewrite E].
  - destruct (move_shrink l 0 (_capacity l - 1) Hw ltac:(lia) ltac:(lia)) as (l' & E & W & (S' & O') & A). exists l'. split; [done|]. pose proof (wf_bounds _ W) as Hb'. constructor; [done|lia|rewrite length_take; lia| |].
    + intros i o Hi. apply lookup_take_Some in Hi as [Hi Hlt]. specialize (A (Z.of_nat i) ltac:(lia) I). rewrite Z.add_0_l in A. rewrite <- (Ha i o Hi), <- A. f_equal. lia.
    + rewrite Hsz, Ho, Z.sub_0_r in Hd. by apply (drop_last_clean l).
Qed.
End Holes.
