(* ===== verification/ImOrdMapFacts.v ===== *)
(** * Immutable: ordered maps are lists of entries

    The updates of [ImOrdMap] against a list of entries with distinct keys. *)

From stdpp Require Import list.
From S2P Require Import Prelude ImHash ImBits ImMap ImMapFacts ImMapIter ImMapSpec.
From S2P Require Import ImSeq ImSeqFacts ImIter ImIterFacts ImList ImListFacts ImListSpec ImListIter ImListOps ImListHoles ImOrdMap.
Local Open Scope Z_scope.

Section Facts.
Context {K V : Type} `{HK : HashKey K} `{SV : StrictEq V}.
Notation entry := (K * V)%type.
Implicit Types (xs : list (option entry)) (es : list entry) (k : K).
#[local] Existing Instance index_strict.

(** ** Holes and places *)

Definition live xs : list entry := omap id xs.

Lemma live_app xs xs' : live (xs ++ xs') = live xs ++ live xs'.
Proof. unfold live. apply omap_app. Qed.

Lemma live_some x xs : live (Some x :: xs) = x :: live xs.
Proof. done. Qed.

Lemma live_none xs : live (None :: xs) = live xs.
Proof. done. Qed.

Lemma live_all es : live (Some <$> es) = es.
Proof. induction es as [|x es IH]; [done|]. rewrite fmap_cons, live_some. by rewrite IH. Qed.

(** The place of a key *)
Fixpoint place (o : Z) xs k : option Z :=
  match xs with
  | [] => None
  | None :: xs => place (o + 1) xs k
  | Some x :: xs => if is_ k x.1 then Some o else place (o + 1) xs k
  end.

Lemma place_app xs xs' k : forall o, place o (xs ++ xs') k = match place o xs k with Some j => Some j | None => place (o + Z.of_nat (length xs)) xs' k end.
Proof.
  induction xs as [|x xs IH]; intros o; cbn [place app length]; [by rewrite Z.add_0_r|]. destruct x as [x|]; [destruct (is_ k x.1); [done|]|]; rewrite IH;
    (destruct (place (o + 1) xs k); [done|]); f_equal; lia.
Qed.

Lemma place_fresh xs k : fresh k (live xs) -> forall o, place o xs k = None.
Proof.
  induction xs as [|[x|] xs IH]; intros Hf o; cbn [place]; [done| |by apply IH]. rewrite live_some in Hf. apply Forall_cons in Hf as [Hx Hf]. rewrite Hx. by apply IH.
Qed.

Lemma place_none xs k o : place o xs k = None -> fresh k (live xs).
Proof.
  revert o. induction xs as [|[x|] xs IH]; intros o; cbn [place]; [constructor| |by apply IH]. destruct (is_ k x.1) eqn:E; [done|]. intros H. rewrite live_some. constructor; [done|by eapply IH].
Qed.

Lemma place_some xs k : forall o j, place o xs k = Some j -> exists l1 x l2, xs = l1 ++ Some x :: l2 /\ j = o + Z.of_nat (length l1) /\ is_ k x.1 = true /\ fresh k (live l1).
Proof.
  induction xs as [|[x|] xs IH]; intros o j; cbn [place]; [done| |].
  - destruct (is_ k x.1) eqn:E.
    + intros [= <-]. exists [], x, xs. split; [done|]. split; [cbn; lia|]. split; [done|constructor].
    + intros (l1 & y & l2 & -> & -> & Hy & Hf)%IH. exists (Some x :: l1), y, l2. split; [done|]. split; [cbn; lia|]. split; [done|]. rewrite live_some. by constructor.
  - intros (l1 & y & l2 & -> & -> & Hy & Hf)%IH. exists (None :: l1), y, l2. split; [done|]. split; [cbn; lia|]. done.
Qed.

Lemma distinct_app_fresh l1 x l2 k : distinct (live (l1 ++ Some x :: l2)) -> is_ k x.1 = true -> fresh k (live l1) /\ fresh k (live l2).
Proof.
  rewrite live_app, live_some. intros Hd Hk. assert (distinct (x :: live l1 ++ live l2)) as [Hf _] by (eapply distinct_perm; [|exact Hd]; by rewrite Permutation_middle).
  apply (fresh_is k x.1) in Hf; [|done]. by apply fresh_app.
Qed.

(** Replacing an entry, and making it a hole *)
Lemma place_replace l1 x y l2 k k' o : is_ k x.1 = true -> is_ k y.1 = true -> place o (l1 ++ Some y :: l2) k' = place o (l1 ++ Some x :: l2) k'.
Proof.
  intros Hx Hy. rewrite !place_app. destruct (place o l1 k'); [done|]. cbn [place]. assert (is_ k' x.1 = is_ k' y.1) as ->; [|done].
  assert (is_ x.1 y.1 = true) as Hxy by (rewrite is_sym in Hx; by apply (is_trans x.1 k y.1)). destruct (is_ k' x.1) eqn:E.
  - symmetry. by apply (is_trans k' x.1 y.1).
  - symmetry. rewrite is_sym. rewrite is_sym in Hxy. rewrite is_sym in E. by apply (is_false_trans y.1 x.1 k').
Qed.

Lemma place_hole l1 x l2 k k' o : distinct (live (l1 ++ Some x :: l2)) -> is_ k x.1 = true ->
  place o (l1 ++ None :: l2) k' = if is_ k' k then None else place o (l1 ++ Some x :: l2) k'.
Proof.
  intros Hd Hk. destruct (distinct_app_fresh l1 x l2 k Hd Hk) as [H1 H2]. destruct (is_ k' k) eqn:E.
  - apply place_fresh. rewrite live_app, live_none. apply fresh_app. by split; apply (fresh_is k' k).
  - rewrite !place_app. destruct (place o l1 k'); [done|]. cbn [place]. assert (is_ k' x.1 = false) as ->; [|done].
    destruct (is_ k' x.1) eqn:E2; [|done]. rewrite is_sym in Hk. by rewrite (is_trans k' x.1 k E2 Hk) in E.
Qed.

(** ** The list of entries *)

Fixpoint put es k (v : V) : list entry :=
  match es with
  | [] => [(k, v)]
  | x :: es => if is_ k x.1 then (if veq v x.2 then x else (k, v)) :: es else x :: put es k v
  end.
Definition del es k : list entry := List.filter (fun x => negb (is_ k x.1)) es.

Lemma put_new es k v : fresh k es -> put es k v = es ++ [(k, v)].
Proof. induction 1 as [|x es Hx _ IH]; cbn; [done|]. by rewrite Hx, IH. Qed.

Lemma put_old l1 x l2 k v : fresh k l1 -> is_ k x.1 = true -> put (l1 ++ x :: l2) k v = l1 ++ (if veq v x.2 then x else (k, v)) :: l2.
Proof. intros Hf Hk. induction Hf as [|y l1 Hy _ IH]; cbn; [by rewrite Hk|]. by rewrite Hy, IH. Qed.

Lemma del_fresh es k : fresh k es -> del es k = es.
Proof. unfold del. induction 1 as [|x es Hx _ IH]; cbn; [done|]. by rewrite Hx, IH. Qed.

Lemma del_old l1 x l2 k : distinct (live (l1 ++ Some x :: l2)) -> is_ k x.1 = true -> del (live (l1 ++ Some x :: l2)) k = live (l1 ++ None :: l2).
Proof.
  intros Hd Hk. destruct (distinct_app_fresh l1 x l2 k Hd Hk) as [H1 H2]. rewrite !live_app, live_some, live_none. unfold del. rewrite List.filter_app. cbn [List.filter].
  rewrite Hk. cbn [negb]. f_equal; by apply del_fresh.
Qed.

Lemma distinct_hole l1 x l2 : distinct (live (l1 ++ Some x :: l2)) -> distinct (live (l1 ++ None :: l2)).
Proof.
  rewrite !live_app, live_some, live_none. intros Hd. assert (distinct (x :: live l1 ++ live l2)) as [_ H] by (eapply distinct_perm; [|exact Hd]; by rewrite Permutation_middle). done.
Qed.

Lemma distinct_new es k v : fresh k es -> distinct es -> distinct (es ++ [(k, v)]).
Proof.
  intros Hf Hd. eapply (distinct_perm ((k, v) :: es)); [by rewrite Permutation_cons_append|]. by split.
Qed.

Lemma distinct_replace l1 x y l2 k : distinct (live (l1 ++ Some x :: l2)) -> is_ k x.1 = true -> is_ k y.1 = true -> distinct (live (l1 ++ Some y :: l2)).
Proof.
  intros Hd Hx Hy. destruct (distinct_app_fresh l1 x l2 k Hd Hx) as [H1 H2]. rewrite live_app, live_some in *. eapply (distinct_perm (y :: live l1 ++ live l2)); [by rewrite Permutation_middle|].
  assert (distinct (x :: live l1 ++ live l2)) as [_ H] by (eapply distinct_perm; [|exact Hd]; by rewrite Permutation_middle). split; [|done].
  apply (fresh_is y.1 k); [by rewrite is_sym|]. by apply fresh_app.
Qed.

(** ** What an ordered map holds *)

Record keeps (m : ordmap) xs : Prop := {
  kp_list : exact (_list m) xs;
  kp_map : wf_map (_map m);
  kp_place k : lookup_in (_map m) k = place 0 xs k;
  kp_count : ImMap.size (_map m) = Z.of_nat (length (live xs));
  kp_size : o_size m = ImMap.size (_map m);
  kp_distinct : distinct (live xs)
}.

Lemma keeps_empty : keeps emptyOrderedMap [].
Proof. constructor; [apply exact_empty|done|done|done|done|done]. Qed.

Lemma same_entry_sound (x y : entry) : same_entry x y = true -> x = y.
Proof. done. Qed.

Lemma exact_get l xs i (d : cell entry) : exact l xs -> (i < length xs)%nat -> ImList.get l (Z.of_nat i) d = cell_of (default None (xs !! i)).
Proof.
  intros [Hw Ho Hs Ha _] Hi. rewrite get_spec by (done || lia). rewrite Ho, Z.add_0_l. destruct (xs !! i) as [o|] eqn:E; [by rewrite (Ha i o E)|]. apply lookup_ge_None in E. lia.
Qed.

Lemma exact_elements l xs : exact l xs -> elements l = cell_of <$> xs.
Proof.
  intros [Hw Ho Hs Ha _]. pose proof (elements_length l Hw) as Hl. apply list_eq. intros j. unfold elements, span in *. rewrite !list_lookup_fmap. rewrite length_fmap in *. rewrite Ho in *.
  destruct (xs !! j) as [o|] eqn:E.
  - pose proof (lookup_lt_Some _ _ _ E). rewrite lookup_seqZ_lt by (pose proof (wf_size _ Hw); lia). rewrite Z.add_0_l. cbn [fmap option_fmap option_map]. by rewrite (Ha _ _ E).
  - apply lookup_ge_None in E. rewrite lookup_ge_None_2 by lia. done.
Qed.

Lemma insert_middle {A} (l1 : list A) x y l2 : <[length l1 := y]> (l1 ++ x :: l2) = l1 ++ y :: l2.
Proof. rewrite insert_app_r_alt by lia. by rewrite Nat.sub_diag. Qed.

Lemma lookup_middle {A} (l1 : list A) x l2 : (l1 ++ x :: l2) !! length l1 = Some x.
Proof. by rewrite list_lookup_middle. Qed.

Lemma get_place m xs k : keeps m xs -> ImMap.get (_map m) k None = Ok (place 0 xs k).
Proof. intros H. rewrite get_lookup by apply H. rewrite (kp_place _ _ H). by destruct (place 0 xs k). Qed.

(** Writing an index *)
Lemma index_writes (m m' : immap K Z) k (o : option Z) : (forall k', if is_ k' k then writes o (lookup_in m' k') else lookup_in m' k' = lookup_in m k') ->
  forall k', lookup_in m' k' = if is_ k' k then o else lookup_in m k'.
Proof.
  intros H k'. specialize (H k'). destruct (is_ k' k); [|done]. destruct o as [v|], (lookup_in m' k') as [w|]; cbn in H; try done. destruct H as [->|H%Z.eqb_eq]; by subst.
Qed.

Lemma o_get_keeps m xs k d : keeps m xs -> o_get m k d = Ok (match assoc (live xs) k with Some v => Some v | None => d end).
Proof.
  intros H. unfold o_get. rewrite (get_place m xs k H). destruct (place 0 xs k) as [j|] eqn:E.
  - apply place_some in E as (l1 & x & l2 & -> & -> & Hk & Hf). rewrite Z.add_0_l, (exact_get _ _ _ _ (kp_list _ _ H)) by (rewrite length_app; cbn; lia). rewrite lookup_middle. change (cell_of (default None (Some (Some x)))) with (Val x). cbn iota beta.
    rewrite live_app, assoc_app, (assoc_fresh _ _ Hf), live_some. unfold assoc. cbn. by rewrite Hk.
  - apply place_none in E. by rewrite (assoc_fresh _ _ E).
Qed.

(** A key that is new *)
Lemma set_new m xs k v : keeps m xs -> place 0 xs k = None -> Z.of_nat (length xs) + 1 <= 2 ^ 30 -> exists m', o_set m k v = Some (Ok m') /\ keeps m' (xs ++ [Some (k, v)]).
Proof.
  intros H Hp Hl. pose proof (kp_list _ _ H) as Hx. unfold o_set, updateOrderedMap. rewrite (get_place m xs k H), Hp. pose proof (place_none _ _ _ Hp) as Hf.
  destruct (Qe_lookup (_map m) k (Some (size (_list m))) (kp_map _ _ H)) as (r & Hr & Wr & Lr & Sr). unfold ImMap.set. rewrite Hr.
  destruct (append_set same_entry same_entry_sound (_list m) xs (k, v) Hx Hl) as (l' & El & Hl'). rewrite (ex_size _ _ Hx), El. eexists. split; [done|].
  pose proof (index_writes _ _ _ _ Lr) as L. rewrite (kp_place _ _ H), Hp in Sr. constructor; cbn [_list _map o_size makeOrderedMap]; try done.
  - intros k'. rewrite L, place_app, (kp_place _ _ H), (ex_size _ _ Hx), Z.add_0_l. destruct (is_ k' k) eqn:E.
    + rewrite (place_fresh xs k') by (by apply (fresh_is k' k)). cbn. by rewrite E.
    + destruct (place 0 xs k'); [done|]. cbn. by rewrite E.
  - rewrite live_app, length_app. rewrite (kp_count _ _ H) in Sr. cbn in *. lia.
  - rewrite live_app. apply distinct_new; [done|apply H].
Qed.

(** A key that is there *)
Lemma set_old m xs k v j : keeps m xs -> place 0 xs k = Some j -> exists m' xs', o_set m k v = Some (Ok m') /\ keeps m' xs' /\ live xs' = put (live xs) k v /\ length xs' = length xs.
Proof.
  intros H Hp. pose proof (kp_list _ _ H) as Hx. unfold o_set, updateOrderedMap. rewrite (get_place m xs k H), Hp. pose proof (kp_distinct _ _ H) as Hd.
  apply place_some in Hp as (l1 & x & l2 & -> & -> & Hk & Hf). rewrite Z.add_0_l, (exact_get _ _ _ _ Hx) by (rewrite length_app; cbn; lia). rewrite lookup_middle. change (cell_of (default None (Some (Some x)))) with (Val x). cbn iota beta.
  rewrite live_app, live_some, put_old by done. destruct (veq v x.2) eqn:Ev; [exists m, (l1 ++ Some x :: l2); split; [done|]; split; [exact H|]; split; [by rewrite live_app, live_some|done]|].
  assert (0 <= Z.of_nat (length l1) < size (_list m)) as Hr by (rewrite (ex_size _ _ Hx), length_app; cbn; lia). rewrite set_in_range by done. cbn [option_map].
  eexists _, (l1 ++ Some (k, v) :: l2). split; [done|]. split; [|split; [by rewrite live_app, live_some|by rewrite !length_app]].
  pose proof (set_inside_exact same_entry same_entry_sound _ _ _ (Some (k, v)) Hx Hr) as Hx'. rewrite Nat2Z.id, insert_middle in Hx'.
  constructor; cbn [_list _map o_size makeOrderedMap]; try done; try apply H.
  - intros k'. rewrite (kp_place _ _ H). symmetry. apply (place_replace l1 x (k, v) l2 k); [done|apply is_refl].
  - rewrite (kp_count _ _ H). by rewrite !live_app, !live_some, !length_app.
  - apply (distinct_replace l1 x (k, v) l2 k); [done|done|apply is_refl].
Qed.

(** ** Removing *)

(** The removed key is gone from the map, and a hole or nothing is in its place. *)
Lemma keeps_removed m l1 x l2 k r (l' : ilist) xs' : keeps m (l1 ++ Some x :: l2) -> is_ k x.1 = true -> wf_map r ->
  (forall k', lookup_in r k' = if is_ k' k then None else lookup_in (_map m) k') -> ImMap.size r = ImMap.size (_map m) - 1 ->
  exact l' xs' -> (xs' = l1 ++ None :: l2 \/ l2 = [] /\ xs' = l1) -> keeps (makeOrderedMap r l') xs'.
Proof.
  intros H Hk Wr L Sr Hx Hxs. assert (live xs' = live (l1 ++ None :: l2)) as El by (destruct Hxs as [->|[-> ->]]; [done|by rewrite live_app, live_none, app_nil_r]).
  assert (forall k', place 0 xs' k' = place 0 (l1 ++ None :: l2) k') as Ep.
  { intros k'. destruct Hxs as [->|[-> ->]]; [done|]. rewrite place_app. cbn. by destruct (place 0 l1 k'). }
  pose proof (kp_distinct _ _ H) as Hd. constructor; cbn [_list _map o_size makeOrderedMap]; try done.
  - intros k'. rewrite L, Ep, (kp_place _ _ H). symmetry. by apply place_hole.
  - rewrite Sr, (kp_count _ _ H), El, !live_app, live_some, live_none, !length_app. cbn [length]. lia.
  - rewrite El. by apply (distinct_hole l1 x l2).
Qed.

Lemma set_hole (l : ilist (V := entry)) xs i : exact l xs -> 0 <= i < size l -> exists l', set same_entry l i ImList.Undef = Some l' /\ exact l' (<[Z.to_nat i := None]> xs).
Proof.
  intros H Hi. rewrite set_in_range by done. eexists. split; [done|]. exact (set_inside_exact same_entry same_entry_sound l xs i None H Hi).
Qed.

(** Fresh lists *)
Lemma set_from_exact (es : list entry) : forall l xs, exact l xs -> Z.of_nat (length xs + length es) <= 2 ^ 30 ->
  exists l', set_from same_entry l (Z.of_nat (length xs)) (Val <$> es) = Some l' /\ exact l' (xs ++ (Some <$> es)).
Proof.
  induction es as [|x es IH]; intros l xs H Hl; [exists l; by rewrite app_nil_r|]. rewrite !fmap_cons. cbn [set_from length] in *.
  destruct (append_set same_entry same_entry_sound l xs x H ltac:(lia)) as (l1 & -> & H1). destruct (IH l1 (xs ++ [Some x]) H1) as (l' & E & H'); [rewrite length_app; cbn; lia|].
  exists l'. rewrite <- app_assoc in H'. split; [|exact H']. rewrite <- E. f_equal. rewrite length_app. cbn. lia.
Qed.

Lemma List_of_exact q (es : list entry) : forward q es -> isize q = None -> Z.of_nat (length es) <= 2 ^ 30 -> exists l, List_of same_entry q = Some l /\ exact l (Some <$> es).
Proof.
  intros Hq Hn Hl. unfold List_of. rewrite Hn, (set_each_run same_entry q es _ Hq). apply (set_from_exact es emptyList [] exact_empty). cbn. lia.
Qed.

(** The filter of [updateOrderedMap] *)
Definition keep_filter (u : Z) (c : cell entry) (t : Z) : outcome := of_bool (match c with ImList.Undef => false | _ => true end && negb (u =? t)).

Lemma kept_live u xs : forall o, u < o \/ o + Z.of_nat (length xs) <= u ->
  map snd (kept (keep_filter u) (rekey indexed o (map (fun v => (tt, v)) (cell_of <$> xs)))) = Val <$> live xs.
Proof.
  unfold kept. induction xs as [|x xs IH]; intros o Ho; [done|]. rewrite fmap_cons. cbn [map rekey List.filter fst snd length] in *. specialize (IH (o + 1) ltac:(lia)).
  change (indexed tt o) with o. unfold keep_filter at 1. destruct (Z.eqb_spec u o); [lia|]. destruct x as [x|]; cbn [cell_of andb negb of_bool truthy map snd]; [|by rewrite live_none].
  rewrite IH, live_some, fmap_cons. done.
Qed.

Lemma filter_hole (l : ilist (V := entry)) l1 x l2 : exact l (l1 ++ Some x :: l2) ->
  exists l', ImListOps.filter same_entry l (keep_filter (Z.of_nat (length l1))) = Some l' /\ exact l' (Some <$> live (l1 ++ None :: l2)).
Proof.
  intros H. pose proof (list_seq_of l (ex_wf _ _ H)) as [Hr Hs _]. rewrite (exact_elements _ _ H) in Hr, Hs. pose proof (ex_size _ _ H) as Hsz. pose proof (wf_size _ (ex_wf _ _ H)). pose proof (wf_bounds _ (ex_wf _ _ H)).
  apply List_of_exact; [|done|].
  - destruct (zt_repr (list_seq l) _ _ Hr indexed (keep_filter (Z.of_nat (length l1)))) as [Hr' _]. split; [|by left]. intros S f s. destruct (Hr' S f s) as [-> _]. f_equal. rewrite rekey_indexed. f_equal.
    unfold number. rewrite fmap_app, fmap_cons, map_app. cbn [map]. rewrite rekey_app. unfold kept. rewrite List.filter_app, map_app. cbn [rekey List.filter].
    rewrite length_map, length_fmap, Z.add_0_l. cbn [fst snd]. change (indexed tt (Z.of_nat (length l1))) with (Z.of_nat (length l1)). unfold keep_filter at 2. rewrite Z.eqb_refl, andb_false_r. cbn [of_bool truthy].
    rewrite live_app, live_none, fmap_app. f_equal; apply kept_live; lia.
  - assert (forall ys : list (option entry), (length (live ys) <= length ys)%nat) as Hle.
    { intros ys. induction ys as [|[y|] ys IH]; [done|rewrite live_some; cbn; lia|rewrite live_none; cbn; lia]. }
    specialize (Hle (l1 ++ None :: l2)). rewrite length_app in *. cbn [length] in *. lia.
Qed.

(** The places of fresh lists *)
Lemma put_index_all es : distinct es -> exists r, fold_left (fun m x => put_index x.1 (Some x.2.1) m) (number es) (Some (Ok Xe)) = Some (Ok r)
  /\ wf_map r /\ (forall k, lookup_in r k = place 0 (Some <$> es) k) /\ ImMap.size r = Z.of_nat (length es).
Proof.
  intros Hd. assert (forall rest done_ m, distinct (done_ ++ rest) -> wf_map m -> (forall k, lookup_in m k = place 0 (Some <$> done_) k) -> ImMap.size m = Z.of_nat (length done_) ->
    exists r, fold_left (fun m x => put_index x.1 (Some x.2.1) m) (rekey indexed (Z.of_nat (length done_)) (map (fun v => (tt, v)) rest)) (Some (Ok m)) = Some (Ok r)
    /\ wf_map r /\ (forall k, lookup_in r k = place 0 (Some <$> (done_ ++ rest)) k) /\ ImMap.size r = Z.of_nat (length (done_ ++ rest))) as H.
  2: { by apply (H es [] Xe). }
  clear es Hd. induction rest as [|x rest IH]; intros d m Hd Wm Lm Sm; [exists m; by rewrite app_nil_r|]. cbn [map rekey fold_left fst snd]. change (indexed tt (Z.of_nat (length d))) with (Z.of_nat (length d)).
  destruct (Qe_lookup m x.1 (Some (Z.of_nat (length d))) Wm) as (r & Hr & Wr & Lr & Sr). cbn [put_index]. unfold ImMap.set. rewrite Hr. cbn [option_map].
  pose proof (index_writes _ _ _ _ Lr) as L. assert (fresh x.1 d) as Hf.
  { assert (distinct (x :: d ++ rest)) as [Hx _] by (eapply distinct_perm; [|exact Hd]; by rewrite Permutation_middle). by apply fresh_app in Hx as [? _]. }
  assert (lookup_in m x.1 = None) as Hn by (rewrite Lm; apply place_fresh; by rewrite live_all).
  replace (Z.of_nat (length d) + 1) with (Z.of_nat (length (d ++ [x]))) by (rewrite length_app; cbn; lia). rewrite (app_assoc d [x] rest : d ++ x :: rest = _) in *.
  apply IH; [done|done| |rewrite Sr, Hn, length_app; cbn; lia]. intros k. rewrite L, fmap_app, place_app, <- Lm, length_fmap, Z.add_0_l. destruct (is_ k x.1) eqn:E.
  - assert (lookup_in m k = None) as -> by (rewrite Lm; apply place_fresh; rewrite live_all; by apply (fresh_is k x.1)). cbn. by rewrite E.
  - destruct (lookup_in m k); [done|]. cbn. by rewrite E.
Qed.

Lemma fold_map {A B S} (f : S -> B -> S) (g : A -> B) l : forall s, fold_left f (map g l) s = fold_left (fun s x => f s (g x)) l s.
Proof. induction l as [|x l IH]; intros s; cbn; [done|]. apply IH. Qed.

Lemma index_map_exact (l : ilist (V := entry)) es : exact l (Some <$> es) -> distinct es -> exists r, index_map l = Some (Ok r)
  /\ wf_map r /\ (forall k, lookup_in r k = place 0 (Some <$> es) k) /\ ImMap.size r = Z.of_nat (length es).
Proof.
  intros H Hd. destruct (put_index_all es Hd) as (r & E & R). exists r. split; [|exact R]. rewrite <- E. unfold index_map.
  pose proof (list_seq_of l (ex_wf _ _ H)) as [Hr Hs _]. rewrite (exact_elements _ _ H) in Hr, Hs. rewrite <- list_fmap_compose in Hr, Hs.
  destruct (Nt_numbered_repr (list_seq l) _ _ Hr Hs) as [Hr1 Hs1]. destruct (qt_repr _ _ _ Hr1 Hs1 (fun c _ => entry_key c)) as [Hr2 Hs2]. destruct (Ut_repr _ _ _ Hr2 Hs2) as [Hr3 _].
  destruct (Hr3 _ (fun i (k : option K) m => (put_index i k m, false)) (Some (Ok Xe))) as [-> _]. rewrite run_fold. cbn [fst]. rewrite rekey_indexed, number_values, !fold_map. cbn [fst snd swap_entry].
  unfold number. generalize 0 as o. generalize (Some (Ok Xe) : option (js (immap K Z))) as s. clear. induction es as [|x es IH]; intros s o; [done|]. rewrite fmap_cons. cbn [map rekey fold_left fst snd]. apply IH.
Qed.

(** Whether removing a key drops the last element, and where *)
Definition drops_fine (m : ordmap (K := K) (V := V)) k : bool :=
  match ImMap.get (_map m) k None with
  | Ok (Some u) => (SIZE <=? size (_list m)) && (2 * ImMap.size (_map m) <=? size (_list m)) || negb (u =? size (_list m) - 1) || drops_clean (size (_list m))
  | _ => true
  end.

Lemma remove_keeps m xs k : keeps m xs -> drops_fine m k = true ->
  exists m' xs', o_remove m k = Some (Ok m') /\ keeps m' xs' /\ live xs' = del (live xs) k /\ (length xs' <= length xs)%nat.
Proof.
  intros H Hdr. pose proof (kp_list _ _ H) as Hx. unfold drops_fine in Hdr. unfold o_remove, updateOrderedMap. rewrite (get_place m xs k H) in *. destruct (place 0 xs k) as [u|] eqn:Hp.
  2: { exists m, xs. split; [done|]. split; [done|]. split; [|done]. symmetry. apply del_fresh. by eapply place_none. }
  pose proof (kp_distinct _ _ H) as Hd. apply place_some in Hp as (l1 & x & l2 & -> & -> & Hk & Hf). rewrite Z.add_0_l in *. rewrite (del_old l1 x l2 k Hd Hk). cbn iota.
  destruct (_ && _); cbn [orb] in Hdr.
  - destruct (filter_hole (_list m) l1 x l2 Hx) as (o & Eo & Ho). unfold keep_filter in Eo. rewrite Eo. pose proof (distinct_hole _ _ _ Hd) as Hd'.
    destruct (index_map_exact o _ Ho Hd') as (r & -> & Wr & Lr & Sr). eexists _, (Some <$> live (l1 ++ None :: l2)). split; [done|]. split; [|split; [apply live_all|]].
    + constructor; cbn [_list _map o_size makeOrderedMap]; rewrite ?live_all; done.
    + rewrite length_fmap, live_app, live_none. assert (forall ys : list (option entry), (length (live ys) <= length ys)%nat) as Hle.
      { intros ys. induction ys as [|[y|] ys IH]; [done|rewrite live_some; cbn; lia|rewrite live_none; cbn; lia]. }
      rewrite !length_app. pose proof (Hle l1). pose proof (Hle l2). cbn. lia.
  - destruct (Qe_lookup (_map m) k None (kp_map _ _ H)) as (r & Hr & Wr & Lr & Sr). unfold ImMap.remove. rewrite Hr. pose proof (index_writes _ _ _ _ Lr) as L.
    assert (ImMap.size r = ImMap.size (_map m) - 1) as Sr'.
    { rewrite Sr, (kp_place _ _ H), place_app, (place_fresh l1) by done. cbn [place]. rewrite Hk. cbn. lia. }
    pose proof (ex_size _ _ Hx) as Hs. rewrite length_app in Hs. cbn [length] in Hs. destruct (Z.eqb_spec (Z.of_nat (length l1)) (size (_list m) - 1)) as [E|E].
    + destruct l2; [|cbn in Hs; lia]. destruct (pop_exact _ _ Hx Hdr) as (l' & -> & Hl'). eexists _, l1. split; [done|]. split; [|split; [by rewrite live_app, live_none, app_nil_r|rewrite length_app; lia]].
      rewrite length_app, Nat.add_sub, take_app_length in Hl'. apply (keeps_removed m l1 x [] k); try done. by right.
    + destruct (set_hole _ _ (Z.of_nat (length l1)) Hx ltac:(lia)) as (l' & -> & Hl'). rewrite Nat2Z.id, insert_middle in Hl'. eexists _, (l1 ++ None :: l2). split; [done|]. split; [|split; [done|by rewrite !length_app]].
      apply (keeps_removed m l1 x l2 k); try done. by left.
Qed.

(** ** Iterating *)

Lemma run_live {S} (f : V -> K -> S -> S * bool) xs : forall s o,
  fst (run (fun (c : cell entry) (_ : Z) s => match c with Val x => f x.2 x.1 s | _ => (s, false) end) (rekey indexed o (map (fun v => (tt, v)) (cell_of <$> xs))) s) = fst (run f (live xs) s).
Proof.
  induction xs as [|[[k v]|] xs IH]; intros s o; [done| |]; rewrite fmap_cons; cbn [map rekey cell_of]; rewrite run_cons.
  - rewrite live_some, run_cons. cbn [fst snd]. destruct (f v k s) as [s' []]; [done|]. specialize (IH s' (o + 1)). destruct (run _ (rekey _ _ _) s'), (run f _ s'). exact IH.
  - rewrite live_none. specialize (IH s (o + 1)). destruct (run _ (rekey _ _ _) s). exact IH.
Qed.

Lemma turn_fmap {A B} t (f : A -> B) l : turn t (f <$> l) = f <$> turn t l.
Proof. destruct t; [|done]. cbn. by rewrite fmap_reverse. Qed.

Lemma live_turn t xs : live (turn t xs) = turn t (live xs).
Proof.
  destruct t; [|done]. cbn [turn]. induction xs as [|[x|] xs IH]; [done| |]; rewrite reverse_cons, live_app, IH; [by rewrite (live_some x xs), reverse_cons|by rewrite app_nil_r].
Qed.

Lemma o_iterate_keeps {S} m xs (f : V -> K -> S -> S * bool) t s : keeps m xs -> fst (o_iterate m f t s) = fst (run f (turn t (live xs)) s).
Proof.
  intros H. unfold o_iterate. cbn [iterate list_seq]. rewrite list_iterate_run by (apply (kp_list _ _ H) || done). cbn [default].
  rewrite (exact_elements _ _ (kp_list _ _ H)), turn_fmap. rewrite <- live_turn. apply run_live.
Qed.

Lemma somes_live xs : forall o, somes (map (fun x : Z * cell entry => (x.1, entry_of x.2)) (rekey indexed o (map (fun v => (tt, v)) (cell_of <$> xs)))) = live xs.
Proof.
  unfold somes. induction xs as [|[x|] xs IH]; intros o; [done| |]; rewrite fmap_cons; cbn [map rekey cell_of entry_of fst snd omap list_omap]; [rewrite live_some; f_equal; apply IH|apply IH].
Qed.

Lemma o_iterator_keeps m xs : keeps m xs -> itr_of (o_iterator m) (live xs) (rev (live xs)).
Proof.
  intros H. pose proof (list_itr (_list m) (ex_wf _ _ (kp_list _ _ H))) as Hi. rewrite (exact_elements _ _ (kp_list _ _ H)) in Hi.
  pose proof (Lt_itr _ _ _ (qt_itr _ _ _ Hi (fun c _ => entry_of c))) as Hl. unfold number in Hl. rewrite somes_live in Hl.
  assert (rev (cell_of <$> xs) = cell_of <$> rev xs) as E by (symmetry; apply map_rev). rewrite E, somes_live in Hl.
  replace (rev (live xs)) with (live (rev xs)); [exact Hl|]. rewrite <- !(turn_rev (A := _)). apply (live_turn true).
Qed.
End Facts.
