(* ===== verification/ImOrdMapSpec.v ===== *)
(** * Immutable: programs on ordered maps and ordered sets

    Programs of updates on [OrderedMap] and [OrderedSet] of module 7 of
    swagger-ui-bundle.js against lists of entries and of values, and the program
    on which an ordered map goes wrong. *)

From stdpp Require Import list.
From S2P Require Import Prelude ImHash ImBits ImMap ImMapFacts ImMapIter ImMapSpec.
From S2P Require Import ImSeq ImSeqFacts ImIter ImIterFacts ImList ImListFacts ImListSpec ImListIter ImListOps ImListHoles ImSet ImOrdMap ImOrdMapFacts.
Local Open Scope Z_scope.

Section Programs.
Context {K V : Type} `{HK : HashKey K} `{SV : StrictEq V}.
Implicit Types (m : ordmap (K := K) (V := V)) (es : list (K * V)).

Inductive o_op : Type := OSet (k : K) (v : V) | ORemove (k : K) | OClear.

Definition o_step (o : o_op) m : option (js ordmap) :=
  match o with OSet k v => o_set m k v | ORemove k => o_remove m k | OClear => Some (Ok (o_clear m)) end.
Fixpoint o_run (os : list o_op) m : option (js ordmap) :=
  match os with
  | [] => Some (Ok m)
  | o :: os => match o_step o m with Some (Ok m) => o_run os m | r => r end
  end.

Definition spec_step (o : o_op) es : list (K * V) := match o with OSet k v => put es k v | ORemove k => del es k | OClear => [] end.
Definition spec_run (os : list o_op) es : list (K * V) := fold_left (fun es o => spec_step o es) os es.

(** No removal drops the element after a power of 32. *)
Fixpoint all_fine (os : list o_op) m : bool :=
  match os with
  | [] => true
  | o :: os => match o with ORemove k => drops_fine m k | _ => true end && match o_step o m with Some (Ok m) => all_fine os m | _ => true end
  end.

Lemma o_step_keeps o m xs : keeps m xs -> Z.of_nat (length xs) + 1 <= 2 ^ 30 -> match o with ORemove k => drops_fine m k | _ => true end = true ->
  exists m' xs', o_step o m = Some (Ok m') /\ keeps m' xs' /\ live xs' = spec_step o (live xs) /\ (length xs' <= S (length xs))%nat.
Proof.
  intros H Hl Hf. destruct o as [k v|k|]; cbn [o_step spec_step].
  - destruct (place 0 xs k) as [j|] eqn:Hp.
    + destruct (set_old m xs k v j H Hp) as (m' & xs' & E & H' & Hv & Hn). exists m', xs'. split; [done|]. split; [done|]. split; [done|lia].
    + destruct (set_new m xs k v H Hp Hl) as (m' & E & H'). exists m', (xs ++ [Some (k, v)]). split; [done|]. split; [done|]. split; [|rewrite length_app; cbn; lia].
      rewrite live_app, put_new; [done|]. by eapply place_none.
  - destruct (remove_keeps m xs k H Hf) as (m' & xs' & E & H' & Hv & Hn). exists m', xs'. split; [done|]. split; [done|]. split; [done|lia].
  - unfold o_clear. destruct (Z.eqb_spec (o_size m) 0) as [E|].
    + exists m, xs. split; [done|]. split; [done|]. split; [|lia]. rewrite (kp_size _ _ H), (kp_count _ _ H) in E. by destruct (live xs).
    + exists emptyOrderedMap, []. split; [done|]. split; [apply keeps_empty|]. split; [done|cbn; lia].
Qed.

Lemma o_run_keeps os : forall m xs, keeps m xs -> Z.of_nat (length xs + length os) <= 2 ^ 30 -> all_fine os m = true ->
  exists m' xs', o_run os m = Some (Ok m') /\ keeps m' xs' /\ live xs' = spec_run os (live xs).
Proof.
  induction os as [|o os IH]; intros m xs H Hl Hf; [by exists m, xs|]. cbn [o_run all_fine length] in *. apply andb_true_iff in Hf as [Hf1 Hf2].
  destruct (o_step_keeps o m xs H ltac:(lia) Hf1) as (m1 & xs1 & E & H1 & Hv & Hn). rewrite E in *. destruct (IH m1 xs1 H1 ltac:(lia) Hf2) as (m' & xs' & E' & H' & Hv').
  exists m', xs'. split; [done|]. split; [done|]. rewrite Hv', Hv. done.
Qed.

(** C9: an OrderedMap is a list of entries.  A program of [set], [remove] and
    [clear] from the empty map, in which no removal drops the element after a power
    of 32, gives a map with the size and the lookups of the list of entries the
    program makes: a new key goes to the end, a known one keeps its place.  Both
    ways of iterating, in both directions, give the entries in that order. *)
Theorem ordered_map_refines os : Z.of_nat (length os) <= 2 ^ 30 -> all_fine os emptyOrderedMap = true ->
  exists m, o_run os emptyOrderedMap = Some (Ok m) /\ let es := spec_run os [] in
  o_size m = Z.of_nat (length es)
  /\ (forall k d, o_get m k d = Ok (match assoc es k with Some v => Some v | None => d end))
  /\ (forall S (f : V -> K -> S -> S * bool) t s, fst (o_iterate m f t s) = fst (run f (turn t es) s))
  /\ itr_of (o_iterator m) es (rev es).
Proof.
  intros Hl Hf. destruct (o_run_keeps os emptyOrderedMap [] keeps_empty Hl Hf) as (m & xs & E & H & Hv). exists m. split; [done|]. cbn zeta. change (live []) with ([] : list (K * V)) in Hv. rewrite <- Hv.
  split; [by rewrite (kp_size _ _ H), (kp_count _ _ H)|]. split; [intros k d; by apply o_get_keeps|]. split; [intros S f t s; by apply o_iterate_keeps|by apply o_iterator_keeps].
Qed.
End Programs.

(** ** Ordered sets *)

Section OrderedSet.
Context {K : Type} `{HK : HashKey K}.
Implicit Types (vs : list K).

Record ordset : Type := OrdSet { os_size : Z; os_map : ordmap (K := K) (V := bool) }.

(** [_n] and [wn]: makeOrderedSet, emptyOrderedSet; [updateSet] calls them as
    [__make] and [__empty]. *)
Definition makeOrderedSet (map : ordmap) : ordset := OrdSet (o_size map) map.
Definition emptyOrderedSet : ordset := makeOrderedSet emptyOrderedMap.
Definition updateOrderedSet (t : ordmap) : ordset := if o_size t =? 0 then emptyOrderedSet else makeOrderedSet t.

Definition os_has (s : ordset) (e : K) : js bool := js_map (fun r => match r with Some _ => true | None => false end) (o_get (os_map s) e None).
Definition os_add (s : ordset) (e : K) : option (js ordset) := option_map (js_map updateOrderedSet) (o_set (os_map s) e true).
Definition os_remove (s : ordset) (e : K) : option (js ordset) := option_map (js_map updateOrderedSet) (o_remove (os_map s) e).
Definition os_clear (s : ordset) : ordset := updateOrderedSet (o_clear (os_map s)).
Definition os_iterate {S} (s : ordset) (e : K -> K -> S -> S * bool) (t : bool) (st : S) : S * Z := o_iterate (os_map s) (fun _ r st => e r r st) t st.

Inductive os_op : Type := SAdd (k : K) | SRemove (k : K) | SClear.
Definition os_step (o : os_op) (s : ordset) : option (js ordset) :=
  match o with SAdd k => os_add s k | SRemove k => os_remove s k | SClear => Some (Ok (os_clear s)) end.
Fixpoint os_run (os : list os_op) (s : ordset) : option (js ordset) :=
  match os with
  | [] => Some (Ok s)
  | o :: os => match os_step o s with Some (Ok s) => os_run os s | r => r end
  end.
Fixpoint os_fine (os : list os_op) (s : ordset) : bool :=
  match os with
  | [] => true
  | o :: os => match o with SRemove k => drops_fine (os_map s) k | _ => true end && match os_step o s with Some (Ok s) => os_fine os s | _ => true end
  end.

Definition set_step (o : os_op) vs : list K :=
  match o with
  | SAdd k => if existsb (is_ k) vs then vs else vs ++ [k]
  | SRemove k => List.filter (fun v => negb (is_ k v)) vs
  | SClear => []
  end.

Definition marked vs : list (K * bool) := map (fun v => (v, true)) vs.
Definition to_map (o : os_op) : o_op (K := K) (V := bool) := match o with SAdd k => OSet k true | SRemove k => ORemove k | SClear => OClear end.

Lemma marked_step o vs : spec_step (to_map o) (marked vs) = marked (set_step o vs).
Proof.
  unfold marked. destruct o as [k|k|]; cbn [to_map spec_step set_step]; [| |done].
  - induction vs as [|v vs IH]; [done|]. cbn. destruct (is_ k v); [done|]. rewrite IH. by destruct (existsb (is_ k) vs).
  - unfold del. induction vs as [|v vs IH]; [done|]. cbn. destruct (is_ k v); cbn; [done|]. by rewrite IH.
Qed.

(** A set and the values of its map *)
Definition keeps_set (s : ordset) (xs : list (option (K * bool))) vs : Prop := keeps (os_map s) xs /\ os_size s = o_size (os_map s) /\ live xs = marked vs.

Lemma update_keeps t xs vs : keeps t xs -> live xs = marked vs -> exists xs', keeps_set (updateOrderedSet t) xs' vs /\ (length xs' <= length xs)%nat.
Proof.
  intros H Hv. unfold updateOrderedSet. destruct (Z.eqb_spec (o_size t) 0) as [E|]; [|exists xs; done]. exists []. split; [|cbn; lia]. split; [apply keeps_empty|]. split; [done|].
  rewrite (kp_size _ _ H), (kp_count _ _ H), Hv in E. by destruct vs.
Qed.

Lemma os_step_keeps o s xs vs : keeps_set s xs vs -> Z.of_nat (length xs) + 1 <= 2 ^ 30 -> match o with SRemove k => drops_fine (os_map s) k | _ => true end = true ->
  exists s' xs', os_step o s = Some (Ok s') /\ keeps_set s' xs' (set_step o vs) /\ (length xs' <= S (length xs))%nat.
Proof.
  intros (H & Hs & Hv) Hl Hf. destruct (o_step_keeps (to_map o) (os_map s) xs H Hl) as (m & xs1 & E & H1 & Hv1 & Hn); [by destruct o|]. rewrite Hv, marked_step in Hv1.
  destruct (update_keeps m xs1 _ H1 Hv1) as (xs' & H' & Hn'). exists (updateOrderedSet m), xs'. split; [|split; [done|lia]]. destruct o as [k|k|]; cbn [to_map o_step os_step] in *.
  - unfold os_add. by rewrite E.
  - unfold os_remove. by rewrite E.
  - unfold os_clear. by injection E as ->.
Qed.

Lemma os_run_keeps os : forall s xs vs, keeps_set s xs vs -> Z.of_nat (length xs + length os) <= 2 ^ 30 -> os_fine os s = true ->
  exists s' xs', os_run os s = Some (Ok s') /\ keeps_set s' xs' (fold_left (fun vs o => set_step o vs) os vs).
Proof.
  induction os as [|o os IH]; intros s xs vs H Hl Hf; [by exists s, xs|]. cbn [os_run os_fine length fold_left] in *. apply andb_true_iff in Hf as [Hf1 Hf2].
  destruct (os_step_keeps o s xs vs H ltac:(lia) Hf1) as (s1 & xs1 & E & H1 & Hn). rewrite E in *. by apply (IH s1 xs1 _ H1 ltac:(lia)).
Qed.

Lemma assoc_marked vs k : assoc (marked vs) k = if existsb (is_ k) vs then Some true else None.
Proof. unfold assoc, marked. induction vs as [|v vs IH]; [done|]. cbn. by destruct (is_ k v). Qed.

Lemma run_marked {S} (f : K -> K -> S -> S * bool) vs : forall s, fst (ImSeqFacts.run (fun (_ : bool) r st => f r r st) (marked vs) s) = fst (ImSeqFacts.run f (map (fun v => (v, v)) vs) s).
Proof.
  unfold marked. induction vs as [|v vs IH]; intros s; [done|]. cbn [map]. rewrite !run_cons. destruct (f v v s) as [s' []]; [done|]. specialize (IH s').
  destruct (ImSeqFacts.run _ (map (fun v => (v, true)) vs) s'), (ImSeqFacts.run f _ s'). exact IH.
Qed.

Lemma marked_turn t vs : turn t (marked vs) = marked (turn t vs).
Proof. apply (turn_fmap t (fun v => (v, true)) vs). Qed.

(** C10: an OrderedSet is a list of values without duplicates, in the order in
    which they were first added: the size, [has] and iterating in both directions
    are those of the list, after any program of [add], [remove] and [clear] in
    which no removal drops the element after a power of 32. *)
Theorem ordered_set_refines os : Z.of_nat (length os) <= 2 ^ 30 -> os_fine os emptyOrderedSet = true ->
  exists s, os_run os emptyOrderedSet = Some (Ok s) /\ let vs := fold_left (fun vs o => set_step o vs) os [] in
  os_size s = Z.of_nat (length vs)
  /\ (forall k, os_has s k = Ok (existsb (is_ k) vs))
  /\ (forall S (f : K -> K -> S -> S * bool) t st, fst (os_iterate s f t st) = fst (ImSeqFacts.run f (map (fun v => (v, v)) (turn t vs)) st)).
Proof.
  intros Hl Hf. destruct (os_run_keeps os emptyOrderedSet [] []) as (s & xs & E & H & Hs & Hv); [by split; [apply keeps_empty|]|done|done|]. exists s. split; [done|]. cbn zeta.
  split; [rewrite Hs, (kp_size _ _ H), (kp_count _ _ H), Hv; unfold marked; by rewrite length_map|]. split.
  - intros k. unfold os_has. rewrite (o_get_keeps _ _ _ _ H), Hv, assoc_marked. by destruct (existsb _ _).
  - intros S f t st. unfold os_iterate. rewrite (o_iterate_keeps _ _ _ _ _ H), Hv, marked_turn. apply run_marked.
Qed.
End OrderedSet.

(** ** Samples *)

#[local] Instance sample_key : HashKey value := value_key (fun r => Z.of_nat r + 1).
Definition key (n : nat) : value := Str [107; Z.of_nat n].
Definition set_keys (ns : list nat) : list (o_op (K := value) (V := value)) := map (fun n => OSet (key n) (key n)) ns.
Definition remove_keys (ns : list nat) : list (o_op (K := value) (V := value)) := map (fun n => ORemove (key n)) ns.
Definition sizes (r : option (js (ordmap (K := value) (V := value)))) : option (Z * Z) :=
  match r with Some (Ok m) => Some (o_size m, fst (o_iterate m (fun _ _ n => (n + 1, false)) false 0)) | _ => None end.

(** Setting, removing and a list made anew *)
Definition sample_os : list (o_op (K := value) (V := value)) := set_keys (seq 0 40) ++ remove_keys (seq 3 30) ++ [OSet (key 50) (key 1); OSet (key 1) (key 2); ORemove (key 39)].

Lemma ordered_map_refines_witness : exists m, o_run sample_os emptyOrderedMap = Some (Ok m) /\ o_size m = 10 /\ o_get m (key 1) None = Ok (Some (key 2)) /\ o_get m (key 5) None = Ok None.
Proof.
  destruct (ordered_map_refines sample_os) as (m & E & Hs & Hg & _); [vm_compute; discriminate|vm_compute; reflexivity|]. exists m. rewrite !Hg, Hs. split; [exact E|].
  split; [|split]; vm_compute; reflexivity.
Defined.

Definition sample_set_os : list (os_op (K := value)) := map SAdd (map key (seq 0 5)) ++ [SRemove (key 1); SAdd (key 0); SRemove (key 4); SAdd (key 1)].
Lemma ordered_set_refines_witness : exists s, os_run sample_set_os emptyOrderedSet = Some (Ok s)
  /\ fst (os_iterate s (fun v _ acc => (acc ++ [v], false)) true []) = [key 1; key 3; key 2; key 0].
Proof.
  destruct (ordered_set_refines sample_set_os) as (s & E & _ & _ & Hi); [vm_compute; discriminate|vm_compute; reflexivity|]. exists s. split; [exact E|]. rewrite Hi. vm_compute. reflexivity.
Defined.

(** ** Removed entries that come back *)

(** 65 keys; 63 and 64 are removed, which drops the element after 64, then 62 down
    to 32; one more key is set.  The map has 33 entries and goes over 64. *)
Definition returning : list (o_op (K := value) (V := value)) := set_keys (seq 0 65) ++ remove_keys ([63; 64]%nat ++ rev (seq 32 31)) ++ set_keys [65%nat].

Lemma removed_entries_return : all_fine returning emptyOrderedMap = false /\ sizes (o_run returning emptyOrderedMap) = Some (33, 64).
Proof. by vm_compute. Qed.

(** The list is made anew with them, and a removed key has a value again. *)
Lemma removed_key_returns : match o_run (returning ++ remove_keys [0%nat]) emptyOrderedMap with Some (Ok m) => o_get m (key 40) None | _ => Ok None end = Ok None
  /\ match o_run (returning ++ remove_keys (seq 0 2)) emptyOrderedMap with Some (Ok m) => o_get m (key 40) None | _ => Ok None end = Ok (Some (key 40)).
Proof. by vm_compute. Qed.

(** Holes are counted by [forEach]. *)
Lemma holes_counted : match o_run (set_keys (seq 0 3) ++ remove_keys [0%nat]) emptyOrderedMap with
  | Some (Ok m) => (o_size m, snd (o_iterate m (fun _ _ n => (n, false)) false tt)) | _ => (0, 0) end = (2, 3).
Proof. by vm_compute. Qed.
