(* ===== verification/Tick.v ===== *)
(** * process.nextTick

    The task queue of the [process] shim (module 29 of swagger-ui-bundle.js):
    [nextTick] queues a function and, for the first one, a timer that drains
    the queue.  A function that throws ends the draining, and the timer set at
    its start resumes it after the function that threw.

    The state is the variables of the module, the timers that are set, and two
    lists that only record what happened: the functions queued and the
    functions run so far.  What a function does is a parameter, [behave]: the
    functions it queues, and whether it throws then. *)

From S2P Require Import Prelude.
Local Open Scope Z_scope.

(** A timer runs [d] (drainQueue) or [p] (cleanUpNextTick). *)
Inductive timer : Type := Drain | CleanUp.

#[global] Instance timer_eq_dec : EqDecision timer.
Proof. solve_decision. Defined.

Section Tick.
Context {T : Type} (behave : T -> list T * bool).

(** [l], [s], [c], [f] of the module *)
Record proc : Type := Proc {
  queue : list T;
  currentQueue : option (list T);
  draining : bool;
  queueIndex : Z;
  timers : list (nat * timer);
  nextId : nat;
  asked : list T;
  ran : list T
}.

Definition init : proc := Proc [] None false (-1) [] 0 [] [].

(** [u]: runTimeout *)
Definition setTimer (k : timer) (x : proc) : proc * nat :=
  (Proc (queue x) (currentQueue x) (draining x) (queueIndex x) (timers x ++ [(nextId x, k)]) (S (nextId x)) (asked x) (ran x), nextId x).

Definition clearTimer (i : nat) (x : proc) : proc :=
  Proc (queue x) (currentQueue x) (draining x) (queueIndex x) (List.filter (fun t => negb (t.1 =? i)%nat) (timers x)) (nextId x) (asked x) (ran x).

Definition with_queue (l : list T) (x : proc) : proc :=
  Proc l (currentQueue x) (draining x) (queueIndex x) (timers x) (nextId x) (asked x) (ran x).
Definition with_current (s : option (list T)) (x : proc) : proc :=
  Proc (queue x) s (draining x) (queueIndex x) (timers x) (nextId x) (asked x) (ran x).
Definition with_draining (c : bool) (x : proc) : proc :=
  Proc (queue x) (currentQueue x) c (queueIndex x) (timers x) (nextId x) (asked x) (ran x).
Definition with_index (f : Z) (x : proc) : proc :=
  Proc (queue x) (currentQueue x) (draining x) f (timers x) (nextId x) (asked x) (ran x).
Definition asking (e : T) (x : proc) : proc :=
  Proc (queue x) (currentQueue x) (draining x) (queueIndex x) (timers x) (nextId x) (asked x ++ [e]) (ran x).
Definition running (e : T) (x : proc) : proc :=
  Proc (queue x) (currentQueue x) (draining x) (queueIndex x) (timers x) (nextId x) (asked x) (ran x ++ [e]).

(** [nextTick] *)
Definition nextTick (e : T) (x : proc) : proc :=
  let x := asking e (with_queue (queue x ++ [e]) x) in
  if negb (Z.of_nat (length (queue x)) =? 1) || draining x then x else fst (setTimer Drain x).

(** [h.prototype.run]: the function is called; it queues others and may throw. *)
Definition run_item (e : T) (x : proc) : proc * bool :=
  let '(children, throws) := behave e in
  (fold_left (fun x e => nextTick e x) children (running e x), throws).

(** How [d] ends. *)
Inductive outcome : Type := Finished (x : proc) | Threw (x : proc) | OutOfFuel.

(** The inner loop [++f < t]; each call of a function uses one unit of fuel, as
    does each round of the outer loop. *)
Fixpoint inner (fuel : nat) (t : Z) (x : proc) : outcome * nat :=
  match fuel with
  | O => (OutOfFuel, O)
  | S fuel =>
      let x := with_index (queueIndex x + 1) x in
      if queueIndex x <? t then
        match currentQueue x ≫= (fun s => s !! Z.to_nat (queueIndex x)) with
        | Some e => let '(x, throws) := run_item e x in if throws then (Threw x, fuel) else inner fuel t x
        | None => (Threw x, fuel)
        end
      else (Finished x, fuel)
  end.

Fixpoint outer (rounds fuel : nat) (x : proc) : outcome :=
  match rounds with
  | O => OutOfFuel
  | S rounds =>
      let t := Z.of_nat (length (queue x)) in
      if t =? 0 then Finished x
      else
        match inner fuel t (with_queue [] (with_current (Some (queue x)) x)) with
        | (Finished x, fuel) => outer rounds fuel (with_index (-1) x)
        | (o, _) => o
        end
  end.

(** [d]: drainQueue.  A function that throws leaves it. *)
Definition d (fuel : nat) (x : proc) : outcome :=
  if draining x then Finished x
  else
    let '(x, e) := setTimer CleanUp x in
    match outer fuel fuel (with_draining true x) with
    | Finished x => Finished (clearTimer e (with_draining false (with_current None x)))
    | o => o
    end.

(** [p]: cleanUpNextTick *)
Definition p (fuel : nat) (x : proc) : outcome :=
  match draining x, currentQueue x with
  | true, Some s =>
      let x := with_draining false x in
      let x := match s with [] => with_index (-1) x | _ => with_queue (s ++ queue x) x end in
      match queue x with [] => Finished x | _ => d fuel x end
  | _, _ => Finished x
  end.

(** What happens to the program: a function is queued by other code, or a timer
    goes off. *)
Inductive event : Type := Ask (e : T) | Fire (i : nat).

Definition fire (fuel : nat) (t : nat * timer) (x : proc) : outcome :=
  let x := clearTimer t.1 x in
  match t.2 with Drain => d fuel x | CleanUp => p fuel x end.

Definition happens (fuel : nat) (e : event) (x : proc) : option proc :=
  match e with
  | Ask e => Some (nextTick e x)
  | Fire i =>
      match List.find (fun t => (t.1 =? i)%nat) (timers x) with
      | None => Some x
      | Some t => match fire fuel t x with Finished x | Threw x => Some x | OutOfFuel => None end
      end
  end.

(** ** Invariants *)

(** The functions queued and not yet called, in the order they will be. *)
Definition pending (x : proc) : list T :=
  (if draining x then drop (Z.to_nat (queueIndex x + 1)) (default [] (currentQueue x)) else []) ++ queue x.

Definition ids_ok (x : proc) : Prop := NoDup (map fst (timers x)) /\ Forall (fun t => t.1 < nextId x)%nat (timers x).

(** Between two events: the record is complete, and a timer is set for what is
    pending. *)
Record ok (x : proc) : Prop := {
  ok_order : asked x = ran x ++ pending x;
  ok_ids : ids_ok x;
  ok_timer :
    if draining x then
      (exists s, currentQueue x = Some s /\ 0 <= queueIndex x < Z.of_nat (length s)) /\ exists i, In (i, CleanUp) (timers x)
    else queueIndex x = -1 /\ (queue x <> [] -> exists i, In (i, Drain) (timers x))
}.

(** While [d] goes over the current queue [s]. *)
Record mid (s : list T) (x : proc) : Prop := {
  mid_draining : draining x = true;
  mid_current : currentQueue x = Some s;
  mid_index : -1 <= queueIndex x;
  mid_order : asked x = ran x ++ drop (Z.to_nat (queueIndex x + 1)) s ++ queue x
}.

Definition same_timers (x x' : proc) : Prop := timers x' = timers x /\ nextId x' = nextId x.

Lemma nextTick_draining e x : draining x = true -> nextTick e x = asking e (with_queue (queue x ++ [e]) x).
Proof using. intros H. unfold nextTick. cbn. rewrite H. by rewrite orb_true_r. Qed.

Lemma children_draining l : forall x, draining x = true ->
  fold_left (fun x e => nextTick e x) l x =
  Proc (queue x ++ l) (currentQueue x) (draining x) (queueIndex x) (timers x) (nextId x) (asked x ++ l) (ran x).
Proof using.
  induction l as [|e l IH]; intros x Hd; cbn [fold_left].
  - rewrite !app_nil_r. by destruct x.
  - rewrite nextTick_draining by done. rewrite IH by done. cbn. by rewrite <- !app_assoc.
Qed.

(** The call of the function at the index. *)
Lemma run_item_mid s e x x' throws : mid s x -> s !! Z.to_nat (queueIndex x + 1) = Some e ->
  run_item e (with_index (queueIndex x + 1) x) = (x', throws) ->
  mid s x' /\ same_timers x x' /\ queueIndex x' = queueIndex x + 1 /\ queue x' = queue x ++ (behave e).1 /\ ran x' = ran x ++ [e].
Proof using.
  intros [Hd Hc Hi Ho] He. unfold run_item. destruct (behave e) as [ch th]. intros [= <- <-].
  rewrite children_draining by done. cbn. split; [|by split_and!]. split; cbn; [done|done|lia|].
  rewrite Ho, (drop_S _ _ _ He). replace (Z.to_nat (queueIndex x + 1 + 1)) with (S (Z.to_nat (queueIndex x + 1))) by lia.
  by rewrite <- !app_assoc.
Qed.

Lemma same_timers_trans x y z : same_timers x y -> same_timers y z -> same_timers x z.
Proof using. unfold same_timers. intros [-> ->] [-> ->]. done. Qed.

Lemma inner_mid s fuel : forall x o fuel', mid s x -> inner fuel (Z.of_nat (length s)) x = (o, fuel') ->
  match o with
  | Finished x' => mid s x' /\ same_timers x x' /\ asked x' = ran x' ++ queue x'
  | Threw x' => mid s x' /\ same_timers x x' /\ queueIndex x' < Z.of_nat (length s) /\ 0 <= queueIndex x'
  | OutOfFuel => True
  end.
Proof using.
  induction fuel as [|fuel IH]; intros x o fuel' Hm; cbn [inner]; [by intros [= <- <-]|].
  pose proof Hm as [Hd Hc Hi Ho]. cbn [queueIndex with_index currentQueue]. rewrite Hc. cbn [mbind option_bind].
  destruct (Z.ltb_spec (queueIndex x + 1) (Z.of_nat (length s))) as [Hlt|Hge].
  - destruct (lookup_lt_is_Some_2 s (Z.to_nat (queueIndex x + 1))) as [e He]; [lia|]. rewrite He.
    destruct (run_item e (with_index (queueIndex x + 1) x)) as [x1 th] eqn:E.
    destruct (run_item_mid s e x x1 th Hm He E) as (Hm1 & Ht1 & Hx1 & _). destruct th.
    + intros [= <- <-]. split; [done|]. split; [done|]. lia.
    + intros H. specialize (IH x1 o fuel' Hm1 H). destruct o; [| |done]; destruct IH as (? & ? & ?); split; try done; split; try done;
        by eapply same_timers_trans.
  - intros [= <- <-]. rewrite drop_ge in Ho by lia. split; [|done]. split; cbn; [done|done|lia|]. by rewrite drop_ge by lia.
Qed.

(** The start of a round: what is pending is in the queue. *)
Record ready (x : proc) : Prop := {
  ready_draining : draining x = true;
  ready_index : -1 <= queueIndex x;
  ready_empty : queue x = [] -> queueIndex x = -1;
  ready_order : asked x = ran x ++ drop (Z.to_nat (queueIndex x + 1)) (queue x)
}.

Lemma outer_ready rounds : forall fuel x, ready x ->
  match outer rounds fuel x with
  | Finished x' => draining x' = true /\ queueIndex x' = -1 /\ queue x' = [] /\ asked x' = ran x' /\ same_timers x x'
  | Threw x' => same_timers x x' /\ exists s, mid s x' /\ 0 <= queueIndex x' < Z.of_nat (length s)
  | OutOfFuel => True
  end.
Proof using.
  induction rounds as [|rounds IH]; intros fuel x Hx; cbn [outer]; [done|]. destruct Hx as [Hd Hi He Ho].
  destruct (Z.eqb_spec (Z.of_nat (length (queue x))) 0) as [Hz|Hz].
  { assert (queue x = []) as Hq by (destruct (queue x); [done|cbn in Hz; lia]). rewrite Hq, drop_nil, app_nil_r in Ho.
    split_and!; try done. by apply He. }
  set (s := queue x). set (x0 := with_queue [] (with_current (Some s) x)).
  assert (mid s x0) as Hm by (split; cbn; [done|done|done|by rewrite app_nil_r]).
  destruct (inner fuel (Z.of_nat (length s)) x0) as [o fuel'] eqn:E. pose proof (inner_mid s fuel x0 o fuel' Hm E) as H.
  destruct o as [x1|x1|]; [| |done].
  - destruct H as (Hm1 & Ht & Ha). specialize (IH fuel' (with_index (-1) x1)).
    assert (ready (with_index (-1) x1)) as Hr by (split; cbn; [apply Hm1|lia|done|done]).
    specialize (IH Hr). destruct (outer rounds fuel' (with_index (-1) x1)) as [x2|x2|]; [| |done].
    + destruct IH as (? & ? & ? & ? & ?). split_and!; try done; by eapply same_timers_trans.
    + destruct IH as (? & ?). split; [by eapply same_timers_trans|done].
  - destruct H as (Hm1 & Ht & Hlt & Hge). split; [done|]. exists s. split; [done|]. lia.
Qed.

(** ** Timers *)

Lemma ids_set k x : ids_ok x -> ids_ok (fst (setTimer k x)) /\ In (nextId x, k) (timers (fst (setTimer k x))).
Proof using.
  intros [Hn Hf]. cbn. split; [|apply in_or_app; right; by left]. split; cbn.
  - rewrite map_app. apply NoDup_app. split; [done|]. split; [|apply NoDup_singleton]. cbn. intros i Hi Hi'.
    apply list_elem_of_singleton in Hi'. subst i. apply list_elem_of_fmap in Hi as (t & Ht & Hin).
    rewrite Forall_forall in Hf. specialize (Hf t Hin). lia.
  - apply Forall_app. split; [|apply Forall_singleton; cbn; lia]. eapply Forall_impl; [exact Hf|]. cbn. lia.
Qed.

Lemma clear_sub {A} (f : A -> bool) (g : A -> nat) l : NoDup (map g l) -> NoDup (map g (List.filter f l)).
Proof using.
  clear. induction l as [|a l IH]; cbn; [done|]. intros [Hn Hd]%NoDup_cons. destruct (f a); [|by apply IH]. cbn. constructor; [|by apply IH].
  intros Hin. apply Hn. apply list_elem_of_fmap in Hin as (b & -> & Hb). apply list_elem_of_In, filter_In in Hb as [Hb _].
  apply list_elem_of_fmap. exists b. split; [done|]. by apply list_elem_of_In.
Qed.

Lemma ids_clear i x : ids_ok x -> ids_ok (clearTimer i x).
Proof using.
  intros [Hn Hf]. split; cbn; [by apply clear_sub|]. rewrite Forall_forall in *. intros t Ht.
  apply list_elem_of_In, filter_In in Ht as [Ht _]. by apply Hf, list_elem_of_In.
Qed.

Lemma clear_keeps i x j k : In (j, k) (timers x) -> j <> i -> In (j, k) (timers (clearTimer i x)).
Proof using. intros Hin Hne. cbn. apply filter_In. split; [done|]. cbn. by apply negb_true_iff, Nat.eqb_neq. Qed.

Lemma timer_unique x j k k' : ids_ok x -> In (j, k) (timers x) -> In (j, k') (timers x) -> k = k'.
Proof using.
  intros [Hn _]. induction (timers x) as [|t l IH]; [done|]. cbn in Hn. apply NoDup_cons in Hn as [Hn Hl].
  assert (forall k, In (j, k) l -> j ∈ map fst l) as Hin.
  { intros k0 H0. apply list_elem_of_fmap. exists (j, k0). split; [done|]. by apply list_elem_of_In. }
  intros [->|H1] [H2|H2]; [by injection H2|exfalso; apply Hn; by eapply Hin|subst t; exfalso; apply Hn; by eapply Hin|by apply IH].
Qed.

(** ** Events keep the invariant *)

Lemma d_ok fuel x : draining x = false -> -1 <= queueIndex x -> (queue x = [] -> queueIndex x = -1) ->
  asked x = ran x ++ drop (Z.to_nat (queueIndex x + 1)) (queue x) -> ids_ok x ->
  match d fuel x with Finished x' | Threw x' => ok x' | OutOfFuel => True end.
Proof using.
  intros Hd Hi He Ho Hids. unfold d. rewrite Hd. destruct (ids_set CleanUp x Hids) as [Hids' Hin].
  destruct (setTimer CleanUp x) as [x1 e] eqn:E. cbn [fst] in *. unfold setTimer in E. injection E as <- <-.
  set (x1 := Proc _ _ _ _ _ _ _ _) in *.
  assert (ready (with_draining true x1)) as Hr by (split; cbn; done).
  pose proof (outer_ready fuel fuel _ Hr) as H. destruct (outer fuel fuel (with_draining true x1)) as [x2|x2|]; [| |done].
  - destruct H as (H1 & H2 & H3 & H4 & [Ht Hn]). split; cbn; [by rewrite H3, H4, app_nil_r|apply ids_clear; by split; cbn; rewrite Ht, ?Hn; apply Hids'|].
    split; [done|]. by rewrite H3.
  - destruct H as ([Ht Hn] & s & [Hm1 Hm2 Hm3 Hm4] & Hidx). split.
    + unfold pending. rewrite Hm1, Hm2. cbn. by rewrite Hm4.
    + split; rewrite Ht, ?Hn; apply Hids'.
    + rewrite Hm1. split; [by exists s|]. exists (nextId x). by rewrite Ht.
Qed.

Lemma nextTick_ok e x : ok x -> ok (nextTick e x).
Proof using.
  intros [Ho Hids Ht]. destruct (draining x) eqn:Hd.
  - rewrite nextTick_draining by done. split; cbn.
    + unfold pending in *. cbn. rewrite Hd in *. by rewrite Ho, <- !app_assoc.
    + done.
    + by rewrite Hd.
  - destruct Ht as [Hi Ht]. unfold nextTick. cbn. rewrite Hd, orb_false_r, length_app. cbn [length].
    assert (asked x ++ [e] = ran x ++ queue x ++ [e]) as Ho'.
    { unfold pending in Ho. rewrite Hd in Ho. cbn in Ho. by rewrite Ho, <- app_assoc. }
    destruct (Z.eqb_spec (Z.of_nat (length (queue x) + 1)) 1) as [Hz|Hz]; cbn [negb].
    + destruct (ids_set Drain (asking e (with_queue (queue x ++ [e]) x)) Hids) as [H1 H2].
      split; [unfold pending; cbn; by rewrite ?Hd|done|]. cbn. rewrite ?Hd. split; [done|]. intros _. by exists (nextId x).
    + split; [unfold pending; cbn; by rewrite ?Hd|done|]. cbn. rewrite ?Hd. split; [done|]. intros _. apply Ht.
      intros Hq. rewrite Hq in Hz. done.
Qed.

(** A timer that goes off, whatever the other timers are. *)
Lemma fire_ok fuel t x : ok x -> In t (timers x) -> match fire fuel t x with Finished x' | Threw x' => ok x' | OutOfFuel => True end.
Proof using.
  intros [Ho Hids Ht] Hin. unfold fire. destruct t as [i k]. cbn [fst snd]. pose proof (ids_clear i x Hids) as Hids'.
  assert (forall j k', In (j, k') (timers x) -> k <> k' -> In (j, k') (timers (clearTimer i x))) as Hkeep.
  { intros j k' Hj Hne. apply clear_keeps; [done|]. intros ->. apply Hne. by apply (timer_unique x i). }
  unfold pending in Ho. destruct (draining x) eqn:Hd; destruct k.
  - unfold d. cbn [draining clearTimer]. rewrite Hd. destruct Ht as [Hc [j Hj]]. split; [unfold pending; cbn; by rewrite Hd|done|].
    cbn. rewrite Hd. split; [done|]. exists j. by apply Hkeep.
  - unfold p. cbn [draining clearTimer currentQueue]. rewrite Hd. destruct Ht as [(s & Hc & Hidx) _]. rewrite Hc in *.
    destruct s as [|e s]; [cbn in Hidx; lia|]. cbn [queue with_draining with_queue clearTimer app]. cbn [default] in Ho.
    apply d_ok; cbn [draining queueIndex queue asked ran timers with_queue with_draining clearTimer app]; [done|lia|done| |done].
    rewrite Ho, (app_comm_cons s), drop_app_le by (cbn [length] in *; lia). done.
  - cbn [app] in Ho. destruct Ht as [Hi _]. apply d_ok; cbn; [done|lia|done| |done]. by rewrite Hi.
  - unfold p. cbn [draining clearTimer]. rewrite Hd. destruct Ht as [Hi Ht]. split; [unfold pending; cbn; by rewrite Hd|done|].
    cbn. rewrite Hd. split; [done|]. intros Hq. destruct (Ht Hq) as [j Hj]. exists j. by apply Hkeep.
Qed.

Lemma find_timer i (l : list (nat * timer)) t : List.find (fun t => (t.1 =? i)%nat) l = Some t -> In t l /\ t.1 = i.
Proof using. clear. intros [Hin Hi]%find_some. split; [done|]. by apply Nat.eqb_eq. Qed.

Lemma happens_ok fuel e x x' : ok x -> happens fuel e x = Some x' -> ok x'.
Proof using.
  intros Hx. destruct e as [e|i]; cbn.
  - intros [= <-]. by apply nextTick_ok.
  - destruct (List.find _ (timers x)) as [t|] eqn:E; [|by intros [= <-]]. apply find_timer in E as [Hin _].
    pose proof (fire_ok fuel t x Hx Hin) as H. destruct (fire fuel t x); intros [= <-]; done.
Qed.

Definition happen (fuel : nat) (es : list event) (x : proc) : option proc :=
  fold_left (fun x e => x ≫= happens fuel e) es (Some x).

Lemma happen_none fuel es : fold_left (fun x e => x ≫= happens fuel e) es None = None.
Proof using. induction es as [|e es IH]; [done|]. apply IH. Qed.

Lemma happen_ok fuel es : forall x x', ok x -> happen fuel es x = Some x' -> ok x'.
Proof using.
  induction es as [|e es IH]; intros x x' Hx; [by intros [= <-]|]. unfold happen. cbn [fold_left mbind option_bind].
  destruct (happens fuel e x) as [x1|] eqn:E; [|by rewrite happen_none]. apply IH. by eapply happens_ok.
Qed.

Lemma init_ok : ok init.
Proof using. split; [done|split; constructor|]. cbn. done. Qed.

(** ** Termination *)

(** The functions queue finitely many others: each weighs more than those it
    queues. *)
Context (w : T -> nat) (Hw : forall e, (sum_list (map w (behave e).1) < w e)%nat).

Definition weight (l : list T) : nat := sum_list (map w l).

Lemma weight_app l l' : weight (l ++ l') = (weight l + weight l')%nat.
Proof using. unfold weight. induction l as [|e l IH]; cbn in *; lia. Qed.

Lemma weight_pos e l : (0 < weight (e :: l))%nat.
Proof using Hw. specialize (Hw e). cbn. lia. Qed.

Lemma weight_nil l : weight l = 0%nat -> l = [].
Proof using Hw. destruct l as [|e l]; [done|]. pose proof (weight_pos e l). lia. Qed.

Definition left_of (s : list T) (x : proc) : list T := drop (Z.to_nat (queueIndex x + 1)) s ++ queue x.

Lemma inner_fuel s fuel : forall x, mid s x -> (2 * weight (left_of s x) + 1 <= fuel)%nat ->
  match inner fuel (Z.of_nat (length s)) x with
  | (Finished x', fuel') => exists k, (fuel' + k + 1 = fuel)%nat /\ (weight (queue x') + k <= weight (left_of s x))%nat
                                      /\ (queueIndex x + 1 < Z.of_nat (length s) -> (1 <= k)%nat)
  | (Threw x', _) => (weight (left_of s x') < weight (left_of s x))%nat
  | (OutOfFuel, _) => False
  end.
Proof using Hw.
  induction fuel as [|fuel IH]; intros x Hm Hf; [lia|]. cbn [inner]. pose proof Hm as [Hd Hc Hi Ho].
  cbn [queueIndex with_index currentQueue]. rewrite Hc. cbn [mbind option_bind].
  destruct (Z.ltb_spec (queueIndex x + 1) (Z.of_nat (length s))) as [Hlt|Hge].
  - destruct (lookup_lt_is_Some_2 s (Z.to_nat (queueIndex x + 1))) as [e He]; [lia|]. rewrite He.
    destruct (run_item e (with_index (queueIndex x + 1) x)) as [x1 th] eqn:E.
    destruct (run_item_mid s e x x1 th Hm He E) as (Hm1 & _ & Hx1 & Hq1 & _).
    assert (weight (left_of s x1) < weight (left_of s x))%nat as Hdec.
    { unfold left_of. rewrite Hx1, Hq1, (drop_S _ _ _ He). replace (Z.to_nat (queueIndex x + 1 + 1)) with (S (Z.to_nat (queueIndex x + 1))) by lia.
      rewrite !weight_app. specialize (Hw e). unfold weight in *. cbn. lia. }
    destruct th; [done|]. specialize (IH x1 Hm1 ltac:(lia)). revert IH.
    destruct (inner fuel (Z.of_nat (length s)) x1) as [[x2|x2|] fuel']; intros IH; [|lia|done].
    destruct IH as (k & H1 & H2 & H3). exists (S k). lia.
  - exists 0%nat. split; [lia|]. split; [|lia]. unfold left_of. rewrite weight_app. cbn [queue with_index]. lia.
Qed.

Lemma outer_fuel rounds : forall fuel x, ready x ->
  let W := weight (drop (Z.to_nat (queueIndex x + 1)) (queue x)) in
  (W + 2 <= rounds)%nat -> (2 * W + 2 <= fuel)%nat ->
  match outer rounds fuel x with
  | Finished x' => True
  | Threw x' => exists s, mid s x' /\ (weight (left_of s x') < W)%nat
  | OutOfFuel => False
  end.
Proof using Hw.
  induction rounds as [|rounds IH]; intros fuel x Hx W Hr Hf; [lia|]. cbn [outer]. destruct Hx as [Hd Hi He Ho].
  destruct (Z.eqb_spec (Z.of_nat (length (queue x))) 0) as [Hz|Hz]; [done|].
  set (s := queue x) in *. set (x0 := with_queue [] (with_current (Some s) x)).
  assert (mid s x0) as Hm by (split; cbn; [done|done|done|by rewrite app_nil_r]).
  assert (weight (left_of s x0) = W) as HW by (unfold left_of; cbn; by rewrite app_nil_r).
  pose proof (inner_fuel s fuel x0 Hm ltac:(lia)) as H. pose proof (inner_mid s fuel x0) as H'.
  destruct (inner fuel (Z.of_nat (length s)) x0) as [o fuel']. specialize (H' o fuel' Hm eq_refl). rewrite HW in H.
  destruct o as [x1|x1|]; [| |done].
  - destruct H as (k & H1 & H2 & H3). destruct H' as (Hm1 & _ & Ha).
    assert (ready (with_index (-1) x1)) as Hready by (split; cbn; [apply Hm1|lia|done|done]).
    destruct (decide (queueIndex x + 1 < Z.of_nat (length s))) as [Hlt|Hge].
    + specialize (H3 Hlt). specialize (IH fuel' _ Hready). cbv zeta in IH. cbn [queueIndex with_index queue] in IH.
      change (Z.to_nat (-1 + 1)) with 0%nat in IH.
      assert (weight (queue x1) + 2 <= rounds)%nat by lia. assert (2 * weight (queue x1) + 2 <= fuel')%nat by lia.
      specialize (IH ltac:(done) ltac:(done)). revert IH.
      destruct (outer rounds fuel' (with_index (-1) x1)); [done| |done]. intros (s' & Hs' & Hlt'). exists s'. split; [done|]. rewrite drop_0 in Hlt'. lia.
    + assert (W = 0%nat) as HW0 by (unfold W; rewrite drop_ge by lia; done).
      assert (queue x1 = []) as Hq by (apply weight_nil; lia). destruct rounds as [|rounds]; [lia|]. cbn [outer queue with_index]. by rewrite Hq.
  - destruct H' as (Hm1 & _). by exists s.
Qed.

Lemma d_fuel fuel x : draining x = false -> -1 <= queueIndex x -> (queue x = [] -> queueIndex x = -1) ->
  asked x = ran x ++ drop (Z.to_nat (queueIndex x + 1)) (queue x) ->
  let W := weight (drop (Z.to_nat (queueIndex x + 1)) (queue x)) in
  (2 * W + 2 <= fuel)%nat ->
  match d fuel x with
  | Finished x' => pending x' = []
  | Threw x' => (weight (pending x') < W)%nat
  | OutOfFuel => False
  end.
Proof using Hw.
  intros Hd Hi He Ho W Hf. unfold d. rewrite Hd. cbn [setTimer]. set (x1 := Proc _ _ _ _ _ _ _ _).
  assert (ready (with_draining true x1)) as Hr by (split; cbn; done).
  pose proof (outer_ready fuel fuel _ Hr) as H. pose proof (outer_fuel fuel fuel _ Hr ltac:(cbn; lia) ltac:(cbn; lia)) as H'. cbn in H'.
  destruct (outer fuel fuel (with_draining true x1)) as [x2|x2|]; [| |done].
  - destruct H as (_ & _ & H3 & _). unfold pending. by cbn.
  - destruct H' as (s & [Hm1 Hm2 _ _] & Hlt). unfold pending. rewrite Hm1, Hm2. exact Hlt.
Qed.

Lemma find_fires fuel i k x : ids_ok x -> In (i, k) (timers x) ->
  happens fuel (Fire i) x = match fire fuel (i, k) x with Finished x | Threw x => Some x | OutOfFuel => None end.
Proof using.
  clear w Hw. intros Hids Hin. cbn. destruct (List.find _ (timers x)) as [[j k']|] eqn:E.
  - apply find_timer in E as [Hin' Hj]. cbn in Hj. subst j. by rewrite (timer_unique x i k' k Hids Hin' Hin).
  - exfalso. apply (find_none _ _ E) in Hin. cbn in Hin. by rewrite Nat.eqb_refl in Hin.
Qed.

(** A timer that is set for what is pending makes progress when it goes off. *)
Lemma progress fuel x : ok x -> pending x <> [] -> (2 * weight (pending x) + 2 <= fuel)%nat ->
  exists i x', happens fuel (Fire i) x = Some x' /\ (weight (pending x') < weight (pending x))%nat.
Proof using Hw.
  intros [Ho Hids Ht] Hp Hf.
  assert (0 < weight (pending x))%nat as Hpos by (destruct (pending x); [done|apply weight_pos]).
  unfold pending in *. destruct (draining x) eqn:Hd.
  - destruct Ht as [(s & Hc & Hidx) [i Hin]]. rewrite Hc in *. cbn [default] in *. exists i. rewrite (find_fires fuel i CleanUp x Hids Hin).
    unfold fire, p. cbn [fst snd draining clearTimer currentQueue]. rewrite Hd, Hc.
    destruct s as [|e s]; [cbn in Hidx; lia|]. cbn [queue with_draining with_queue clearTimer app].
    set (x0 := with_queue _ _).
    assert (drop (Z.to_nat (queueIndex x0 + 1)) (queue x0) = drop (Z.to_nat (queueIndex x + 1)) (e :: s) ++ queue x) as Hdr.
    { unfold x0. cbn [queueIndex queue with_queue with_draining clearTimer]. by rewrite (app_comm_cons s), drop_app_le by (cbn [length] in *; lia). }
    pose proof (d_fuel fuel x0) as H. rewrite Hdr in H. specialize (H eq_refl ltac:(cbn; lia) ltac:(done) Ho Hf).
    fold x0. destruct (d fuel x0) as [x'|x'|]; [| |done]; exists x'; (split; [done|]); [|exact H]. unfold pending in H. rewrite H. exact Hpos.
  - destruct Ht as [Hi Ht]. cbn [app] in *. destruct (Ht Hp) as [i Hin]. exists i. rewrite (find_fires fuel i Drain x Hids Hin).
    unfold fire. cbn [fst snd]. pose proof (d_fuel fuel (clearTimer i x)) as H. cbn [draining queueIndex queue asked ran clearTimer] in H.
    rewrite Hi in H. change (Z.to_nat (-1 + 1)) with 0%nat in H. rewrite drop_0 in H. specialize (H Hd ltac:(lia) ltac:(done) Ho Hf).
    destruct (d fuel (clearTimer i x)) as [x'|x'|]; [| |done]; exists x'; (split; [done|]); [|exact H]. unfold pending in H. rewrite H. exact Hpos.
Qed.

Lemma drains n : forall fuel x, ok x -> (weight (pending x) <= n)%nat -> (2 * n + 2 <= fuel)%nat ->
  exists fires x', happen fuel (map Fire fires) x = Some x' /\ pending x' = [].
Proof using Hw.
  induction n as [|n IH]; intros fuel x Hx Hn Hf.
  { exists [], x. split; [done|]. apply weight_nil. lia. }
  assert (pending x = [] \/ pending x <> []) as [Hp|Hp] by (destruct (pending x); [by left|by right]); [by exists [], x|].
  destruct (progress fuel x Hx Hp ltac:(lia)) as (i & x1 & Hf1 & Hlt).
  destruct (IH fuel x1 (happens_ok fuel _ _ _ Hx Hf1) ltac:(lia) ltac:(lia)) as (fires & x' & Hrun & Hp').
  exists (i :: fires), x'. split; [|done]. unfold happen in *. cbn [map fold_left mbind option_bind]. by rewrite Hf1.
Qed.
End Tick.
Arguments proc : clear implicits.
Arguments outcome : clear implicits.
Arguments event : clear implicits.

(** C24: whatever is queued, by other code or by the functions themselves, and
    whenever the timers go off, the functions run so far are exactly the first
    ones queued, in order, each once, even when some of them throw. *)
Theorem ticks_in_order {T} (behave : T -> list T * bool) (fuel : nat) (es : list (event T)) (x : proc T) :
  happen behave fuel es init = Some x -> asked x = ran x ++ pending x.
Proof. intros H. apply (happen_ok behave fuel es init x init_ok H). Qed.

(** C25: no queued function is lost, if the functions queue finitely many others
    in all: each has a weight, which is above the sum of the weights of those it
    queues.  Then from any state the program reaches, with fuel for twice the
    weight of what is pending, some timers that are set go off one after the
    other, without running out of fuel, until every function that was queued has
    been run. *)
Theorem ticks_all_run {T} (behave : T -> list T * bool) (w : T -> nat) (fuel : nat) (es : list (event T)) (x : proc T) :
  (forall e, (sum_list (map w (behave e).1) < w e)%nat) ->
  happen behave fuel es init = Some x -> (2 * weight w (pending x) + 2 <= fuel)%nat ->
  exists fires x', happen behave fuel (map Fire fires) x = Some x' /\ ran x' = asked x'.
Proof.
  intros Hw H Hf. pose proof (happen_ok behave fuel es init x init_ok H) as Hx.
  destruct (drains behave w Hw _ fuel x Hx (Nat.le_refl _) Hf) as (fires & x' & Hrun & Hp). exists fires, x'. split; [done|].
  pose proof (ok_order _ (happen_ok behave fuel _ _ _ Hx Hrun)) as Ho. by rewrite Hp, app_nil_r in Ho.
Qed.

(** A function with a number above 0 queues its predecessor; 5 throws. *)
Definition countdown (n : nat) : list nat * bool := (match n with O => [] | S m => [m] end, (n =? 5)%nat).

(** The state after 5 has thrown. *)
Definition stopped : proc nat :=
  Eval vm_compute in default init (happen countdown 50 [Ask 5; Ask 1; Fire 0]%nat init).

Lemma stopped_reached : happen countdown 50 [Ask 5; Ask 1; Fire 0]%nat init = Some stopped.
Proof. vm_compute. reflexivity. Qed.

Lemma ticks_in_order_witness : ran stopped = [5]%nat /\ asked stopped = ran stopped ++ pending stopped.
Proof. split; [reflexivity|]. exact (ticks_in_order countdown 50 [Ask 5; Ask 1; Fire 0]%nat stopped stopped_reached). Defined.

Lemma ticks_all_run_witness :
  exists fires x', happen countdown 50 (map Fire fires) stopped = Some x' /\ ran x' = asked x'.
Proof.
  apply (ticks_all_run countdown S 50 [Ask 5; Ask 1; Fire 0]%nat stopped); [|exact stopped_reached|].
  - intros [|n]; cbn; lia.
  - apply Nat.leb_le. vm_compute. reflexivity.
Defined.
