(* ===== verification/JsObj.v ===== *)
(** * Objects used as maps

    A JavaScript object whose own properties are used as a map: an association
    list in the order of the keys, which is the order in which they were first
    set.  (The language puts keys that are array indices first; objects with
    such keys are not modelled by this file.) *)

From S2P Require Import Prelude.

Section Obj.
Context {K V : Type} `{!EqDecision K}.
Implicit Types (o : list (K * V)) (k : K) (v : V).

(** [o[k]] *)
Fixpoint obj_get o k : option V :=
  match o with
  | [] => None
  | (k', v) :: o => if decide (k = k') then Some v else obj_get o k
  end.

(** [o[k] = v] *)
Fixpoint obj_set o k v : list (K * V) :=
  match o with
  | [] => [(k, v)]
  | (k', v') :: o => if decide (k = k') then (k', v) :: o else (k', v') :: obj_set o k v
  end.

(** [delete o[k]] *)
Fixpoint obj_delete o k : list (K * V) :=
  match o with
  | [] => []
  | (k', v') :: o => if decide (k = k') then obj_delete o k else (k', v') :: obj_delete o k
  end.

(** [Object.keys(o)] *)
Definition obj_keys o : list K := map fst o.

Definition obj_wf o : Prop := NoDup (obj_keys o).

Lemma obj_get_set o k v k' : obj_get (obj_set o k v) k' = if decide (k' = k) then Some v else obj_get o k'.
Proof.
  induction o as [|[j w] o IH]; cbn; [done|]. destruct (decide (k = j)) as [->|Hj]; cbn; [by destruct (decide (k' = j))|].
  rewrite IH. destruct (decide (k' = j)) as [->|]; [|done]. by rewrite decide_False.
Qed.

Lemma obj_get_delete o k k' : obj_get (obj_delete o k) k' = if decide (k' = k) then None else obj_get o k'.
Proof.
  induction o as [|[j w] o IH]; cbn; [by destruct (decide _)|]. destruct (decide (k = j)) as [->|Hj]; cbn.
  - rewrite IH. by destruct (decide (k' = j)).
  - rewrite IH. destruct (decide (k' = j)) as [->|]; [|done]. by rewrite decide_False.
Qed.

Lemma obj_get_In o k : obj_get o k <> None <-> In k (obj_keys o).
Proof.
  induction o as [|[j w] o IH]; cbn; [done|]. destruct (decide (k = j)) as [->|Hj].
  - split; [by left|done].
  - rewrite IH. split; [by right|]. intros [->|]; done.
Qed.

Lemma obj_get_elem o k v : obj_wf o -> In (k, v) o -> obj_get o k = Some v.
Proof.
  unfold obj_wf. induction o as [|[j w] o IH]; cbn; [done|]. rewrite NoDup_cons, list_elem_of_In. intros [Hj Ho] [[= -> ->]|Hin].
  - by rewrite decide_True.
  - rewrite decide_False; [by apply IH|]. intros ->. apply Hj. by apply (in_map fst) in Hin.
Qed.

Lemma obj_get_Some o k v : obj_get o k = Some v -> In (k, v) o.
Proof.
  induction o as [|[j w] o IH]; cbn; [done|]. destruct (decide (k = j)) as [->|]; [intros [= ->]; by left|]. intros H. right. by apply IH.
Qed.

Lemma obj_keys_set o k v : obj_keys (obj_set o k v) = if obj_get o k then obj_keys o else obj_keys o ++ [k].
Proof.
  unfold obj_keys. induction o as [|[j w] o IH]; cbn; [done|]. destruct (decide (k = j)) as [->|Hj]; cbn; [done|].
  rewrite IH. by destruct (obj_get o k).
Qed.

Lemma obj_keys_delete o k : obj_keys (obj_delete o k) = List.filter (fun j => bool_decide (k <> j)) (obj_keys o).
Proof.
  unfold obj_keys. induction o as [|[j w] o IH]; cbn; [done|]. destruct (decide (k = j)) as [->|Hj].
  - by rewrite bool_decide_false by tauto.
  - rewrite bool_decide_true by done. cbn. by rewrite IH.
Qed.

Lemma obj_set_wf o k v : obj_wf o -> obj_wf (obj_set o k v).
Proof.
  unfold obj_wf. rewrite obj_keys_set. intros H. destruct (obj_get o k) eqn:E; [done|].
  apply NoDup_app. split; [done|]. split; [|apply NoDup_singleton]. intros j Hj ->%list_elem_of_singleton.
  apply list_elem_of_In, obj_get_In in Hj. done.
Qed.

Lemma obj_delete_wf o k : obj_wf o -> obj_wf (obj_delete o k).
Proof.
  unfold obj_wf. rewrite obj_keys_delete. intros H. apply NoDup_ListNoDup. apply NoDup_ListNoDup in H. by apply List.NoDup_filter.
Qed.

Lemma obj_set_same o k v : obj_get o k = Some v -> obj_set o k v = o.
Proof.
  induction o as [|[j w] o IH]; cbn; [done|]. destruct (decide (k = j)) as [->|]; [by intros [= ->]|]. intros H. by rewrite IH.
Qed.

Lemma obj_set_set o k v w : obj_set (obj_set o k v) k w = obj_set o k w.
Proof.
  induction o as [|[j x] o IH]; cbn; [by rewrite decide_True|]. destruct (decide (k = j)) as [->|Hj]; cbn; [by rewrite decide_True|].
  rewrite decide_False by done. by rewrite IH.
Qed.

(** Two objects read alike. *)
Definition obj_equiv (o o' : list (K * V)) : Prop := forall k, obj_get o k = obj_get o' k.

#[global] Instance obj_equiv_equivalence : Equivalence obj_equiv.
Proof. split; [done|by intros o o' H k|]. intros o o' o'' H H' k. by rewrite H. Qed.

#[global] Instance obj_set_proper : Proper (obj_equiv ==> eq ==> eq ==> obj_equiv) obj_set.
Proof. intros o o' H k ? <- v ? <- j. rewrite !obj_get_set. by destruct (decide (j = k)). Qed.

#[global] Instance obj_delete_proper : Proper (obj_equiv ==> eq ==> obj_equiv) obj_delete.
Proof. intros o o' H k ? <- j. rewrite !obj_get_delete. by destruct (decide (j = k)). Qed.

Lemma obj_delete_absent o k : obj_get o k = None -> obj_equiv (obj_delete o k) o.
Proof. intros H j. rewrite obj_get_delete. by destruct (decide (j = k)) as [->|]. Qed.
End Obj.
