(* ===== verification/Events.v ===== *)
(** * EventEmitter

    Node's event emitter (module 63 of swagger-ui-bundle.js).  The handlers of
    an event are a function or an array of functions; arrays are objects that
    are changed in place, so they are kept in a store and named by reference.
    The functions [once] makes are modelled: each has an identity, the function
    it wraps and its flag.  The functions of other code are programs over the
    methods of the emitter ([prog]), which may also call any function, throw and
    catch; which program a function runs for its arguments is a parameter,
    [body].  The state records every application of a function, and the function
    of [once] that made it, if one did. *)

From stdpp Require Import strings.
From S2P Require Import Prelude JsObj.
Local Open Scope Z_scope.

Definition name : Type := string.

(** A function: one of other code, or one that [once(e, t)] made. *)
Inductive fn : Type := Plain (n : nat) | OnceFn (id : nat) (e : name) (t : fn).

#[global] Instance fn_eq_dec : EqDecision fn.
Proof. solve_decision. Defined.

(** The property [listener] of a function. *)
Definition listener_of (f : fn) : option fn := match f with Plain _ => None | OnceFn _ _ t => Some t end.

(** An argument passed to listeners. *)
Inductive arg : Type := AName (e : name) | AFn (f : fn) | AVal (n : nat).

(** [this._events[e]]: a function, or a reference to an array. *)
Inductive handler : Type := Single (f : fn) | Many (r : nat).

Record array : Type := Array { items : list fn; warned : bool }.

(** An application: who applied it, for a function that [once] made, which
    function, and to what. *)
Record application : Type := App { by_ : option fn; applied : fn; args : list arg }.

(** The emitter, with the flags [n] of the functions of [once] that are set, and
    what was applied so far *)
Record emitter : Type := Emitter {
  _events : list (name * handler);
  _maxListeners : option Z;
  heap : list array;
  fired : list nat;
  nextFn : nat;
  calls : list application
}.

Definition new_emitter : emitter := Emitter [] None [] [] 0 [].

Definition with_events (o : list (name * handler)) (x : emitter) : emitter := Emitter o (_maxListeners x) (heap x) (fired x) (nextFn x) (calls x).
Definition with_heap (h : list array) (x : emitter) : emitter := Emitter (_events x) (_maxListeners x) h (fired x) (nextFn x) (calls x).
Definition set_flag (id : nat) (x : emitter) : emitter := Emitter (_events x) (_maxListeners x) (heap x) (id :: fired x) (nextFn x) (calls x).
Definition record (a : application) (x : emitter) : emitter := Emitter (_events x) (_maxListeners x) (heap x) (fired x) (nextFn x) (calls x ++ [a]).

(** The array of a reference. *)
Definition deref (x : emitter) (r : nat) : array := default (Array [] false) (heap x !! r).
Definition assign (r : nat) (a : array) (x : emitter) : emitter := with_heap (<[r := a]> (heap x)) x.

(** How a call ends; a run that is cut off has got to some state. *)
Inductive result (A : Type) : Type := Ret (a : A) (x : emitter) | Thrown (x : emitter) | OutOfFuel (x : emitter).
Arguments Ret {A}.
Arguments Thrown {A}.
Arguments OutOfFuel {A}.

Definition bind {A B} (r : result A) (k : A -> emitter -> result B) : result B :=
  match r with Ret a x => k a x | Thrown x => Thrown x | OutOfFuel x => OutOfFuel x end.

Definition setMaxListeners (e : Z) (x : emitter) : result unit :=
  if e <? 0 then Thrown x else Ret tt (Emitter (_events x) (Some e) (heap x) (fired x) (nextFn x) (calls x)).

(** [listeners] and [listenerCount] *)
Definition listeners (e : name) (x : emitter) : list fn :=
  match obj_get (_events x) e with
  | None => []
  | Some (Single f) => [f]
  | Some (Many r) => items (deref x r)
  end.

Definition listenerCount (e : name) (x : emitter) : Z :=
  match obj_get (_events x) e with
  | None => 0
  | Some (Single _) => 1
  | Some (Many r) => Z.of_nat (length (items (deref x r)))
  end.

Definition has_event (e : name) (x : emitter) : bool := if obj_get (_events x) e then true else false.

(** ** Changes of the lists *)

(** A second function: the two are put into a new array. *)
Definition pair_up (x : emitter) (e : name) (f t : fn) : emitter :=
  with_events (obj_set (_events x) e (Many (length (heap x)))) (with_heap (heap x ++ [Array [f; t] false]) x).

(** [this._events[e]] with one more function *)
Definition insert_fn (e : name) (t : fn) (x : emitter) : emitter :=
  match obj_get (_events x) e with
  | None => with_events (obj_set (_events x) e (Single t)) x
  | Some (Many r) => let a := deref x r in assign r (Array (items a ++ [t]) (warned a)) x
  | Some (Single f) => pair_up x e f t
  end.

(** [n === t || n.listener && n.listener === t] *)
Definition matches (t n : fn) : bool := bool_decide (n = t) || bool_decide (listener_of n = Some t).

(** The last index at which it matches, [u] from the end. *)
Fixpoint last_match (n : list fn) (t : fn) (u : nat) : option nat :=
  match u with
  | O => None
  | S u => match n !! u with
           | Some f => if matches t f then Some u else last_match n t u
           | None => last_match n t u
           end
  end.

(** The removal before it is announced, and whether it is. *)
Definition remove_core (e : name) (t : fn) (x : emitter) : emitter * bool :=
  match obj_get (_events x) e with
  | None => (x, false)
  | Some (Single n) => if matches t n then (with_events (obj_delete (_events x) e) x, true) else (x, false)
  | Some (Many r) =>
      let n := items (deref x r) in
      match last_match n t (length n) with
      | None => (x, false)
      | Some i =>
          (if (length n =? 1)%nat
           then with_events (obj_delete (_events x) e) (assign r (Array [] (warned (deref x r))) x)
           else assign r (Array (delete i n) (warned (deref x r))) x, true)
      end
  end.

(** ** Operations

    The methods call [emit], which calls functions, which may be those [once]
    made, which call [removeListener]: [emit] is an argument here, and the knot
    is tied below. *)

Section Methods.
Context (emit : name -> list arg -> emitter -> result bool).

Definition defaultMaxListeners : Z := 10.

Definition addListener (e : name) (t : fn) (x : emitter) : result unit :=
  bind (if has_event "newListener" x then emit "newListener" [AName e; AFn (default t (listener_of t))] x else Ret true x) (fun _ x =>
  let x := insert_fn e t x in
  match obj_get (_events x) e with
  | Some (Many r) =>
      let a := deref x r in
      let m := default defaultMaxListeners (_maxListeners x) in
      if negb (warned a) && (m >? 0) && (Z.of_nat (length (items a)) >? m)
      then Ret tt (assign r (Array (items a) true) x) else Ret tt x
  | _ => Ret tt x
  end).

Definition once (e : name) (t : fn) (x : emitter) : result unit :=
  let o := OnceFn (nextFn x) e t in
  addListener e o (Emitter (_events x) (_maxListeners x) (heap x) (fired x) (S (nextFn x)) (calls x)).

Definition announce (e : name) (t : fn) (x : emitter) : result unit :=
  if has_event "removeListener" x then bind (emit "removeListener" [AName e; AFn t] x) (fun _ x => Ret tt x) else Ret tt x.

Definition removeListener (e : name) (t : fn) (x : emitter) : result unit :=
  let '(x, found) := remove_core e t x in if found then announce e t x else Ret tt x.

(** The loop [for (; n.length;) this.removeListener(e, n[n.length - 1])] over
    the array [r]. *)
Fixpoint remove_each (fuel : nat) (e : name) (r : nat) (x : emitter) : result unit :=
  match last (items (deref x r)) with
  | None => Ret tt x
  | Some f =>
      match fuel with
      | O => OutOfFuel x
      | S fuel => bind (removeListener e f x) (fun _ x => remove_each fuel e r x)
      end
  end.

(** [removeAllListeners(e)] *)
Definition removeAllFor (fuel : nat) (e : name) (x : emitter) : result unit :=
  if negb (has_event "removeListener" x) then
    Ret tt (if has_event e x then with_events (obj_delete (_events x) e) x else x)
  else
    bind (match obj_get (_events x) e with
          | Some (Single f) => removeListener e f x
          | Some (Many r) => remove_each fuel e r x
          | None => Ret tt x
          end) (fun _ x => Ret tt (with_events (obj_delete (_events x) e) x)).

(** [for (t in this._events)]: a key removed before its turn is passed over. *)
Fixpoint remove_keys (fuel : nat) (ts : list name) (x : emitter) : result unit :=
  match ts with
  | [] => Ret tt x
  | t :: ts =>
      bind (if has_event t x && negb (bool_decide (t = "removeListener"%string)) then removeAllFor fuel t x else Ret tt x)
        (fun _ x => remove_keys fuel ts x)
  end.

(** [removeAllListeners()] *)
Definition removeAllListeners (fuel : nat) (x : emitter) : result unit :=
  if negb (has_event "removeListener" x) then Ret tt (with_events [] x)
  else
    bind (remove_keys fuel (obj_keys (_events x)) x) (fun _ x =>
    bind (removeAllFor fuel "removeListener" x) (fun _ x => Ret tt (with_events [] x))).
End Methods.

(** ** Calling listeners *)

(** The listeners of a snapshot, one after the other. *)
Fixpoint call_all (call : fn -> list arg -> emitter -> result unit) (l : list fn) (u : list arg) (x : emitter) : result unit :=
  match l with
  | [] => Ret tt x
  | f :: l => bind (call f u x) (fun _ x => call_all call l u x)
  end.

Definition emit_with (call : fn -> list arg -> emitter -> result unit) (e : name) (u : list arg) (x : emitter) : result bool :=
  if bool_decide (e = "error"%string) && match obj_get (_events x) e with
                          | None => true
                          | Some (Single _) => false
                          | Some (Many r) => (length (items (deref x r)) =? 0)%nat
                          end then Thrown x
  else
    match obj_get (_events x) e with
    | None => Ret false x
    | Some (Single n) => bind (call n u x) (fun _ x => Ret true x)
    | Some (Many r) => bind (call_all call (items (deref x r)) u x) (fun _ x => Ret true x)
    end.

(** ** Functions of other code *)

(** What such a function does: methods of the emitter, calls of functions, and a
    [try], which goes on knowing whether its body threw *)
Inductive prog : Type :=
| PReturn
| PThrow
| POn (e : name) (t : fn) (k : prog)
| POnce (e : name) (t : fn) (k : prog)
| PRemove (e : name) (t : fn) (k : prog)
| PRemoveAll (e : option name) (k : prog)
| PSetMax (n : Z) (k : prog)
| PEmit (e : name) (u : list arg) (k : bool -> prog)
| PListeners (e : name) (k : list fn -> prog)
| PCount (e : name) (k : Z -> prog)
| PCall (f : fn) (u : list arg) (k : prog)
| PTry (p : prog) (k : bool -> prog).

Fixpoint obey (call : fn -> list arg -> emitter -> result unit) (fuel : nat) (p : prog) (x : emitter) : result unit :=
  match p with
  | PReturn => Ret tt x
  | PThrow => Thrown x
  | POn e t k => bind (addListener (emit_with call) e t x) (fun _ x => obey call fuel k x)
  | POnce e t k => bind (once (emit_with call) e t x) (fun _ x => obey call fuel k x)
  | PRemove e t k => bind (removeListener (emit_with call) e t x) (fun _ x => obey call fuel k x)
  | PRemoveAll e k =>
      bind (match e with Some e => removeAllFor (emit_with call) fuel e x | None => removeAllListeners (emit_with call) fuel x end)
        (fun _ x => obey call fuel k x)
  | PSetMax n k => bind (setMaxListeners n x) (fun _ x => obey call fuel k x)
  | PEmit e u k => bind (emit_with call e u x) (fun b x => obey call fuel (k b) x)
  | PListeners e k => obey call fuel (k (listeners e x)) x
  | PCount e k => obey call fuel (k (listenerCount e x)) x
  | PCall f u k => bind (call f u x) (fun _ x => obey call fuel k x)
  | PTry p k =>
      match obey call fuel p x with
      | Ret _ x => obey call fuel (k false) x
      | Thrown x => obey call fuel (k true) x
      | OutOfFuel x => OutOfFuel x
      end
  end.

Section Run.
Context (body : nat -> list arg -> prog).

(** A call: the function [once] made removes itself, and applies [t] if its flag
    is not set, after it has set it. *)
Fixpoint call (fuel : nat) (who : option fn) (f : fn) (u : list arg) (x : emitter) : result unit :=
  match fuel with
  | O => OutOfFuel x
  | S fuel =>
      let x := record (App who f u) x in
      match f with
      | Plain n => obey (call fuel None) fuel (body n u) x
      | OnceFn id e t =>
          bind (removeListener (emit_with (call fuel None)) e f x) (fun _ x =>
          if bool_decide (id ∈ fired x) then Ret tt x else call fuel (Some f) t u (set_flag id x))
      end
  end.

Definition emit (fuel : nat) : name -> list arg -> emitter -> result bool := emit_with (call fuel None).

(** A program of the page *)
Definition page (fuel : nat) (p : prog) (x : emitter) : result unit := obey (call fuel None) fuel p x.
End Run.
