(* ===== verification/EventsFacts.v ===== *)
(** * EventEmitter: what the methods do

    The emitter as a function from events to the lists of their listeners: the
    invariant of its representation, the effect of each method on the lists, and
    the order of the calls. *)

From stdpp Require Import strings.
From S2P Require Import Prelude JsObj Events.
Local Open Scope Z_scope.

(** ** The invariant *)

(** The functions of [once] that made the applications of a list *)
Definition maker (a : application) : option nat := match by_ a with Some (OnceFn id _ _) => Some id | _ => None end.
Definition makers (l : list application) : list nat := omap maker l.

(** No function of [once] made two of the applications, those that made one have
    set their flag, and each applied what it wraps. *)
Record calls_ok (flags : list nat) (l : list application) : Prop := {
  ok_once : NoDup (makers l);
  ok_flags : forall id, id ∈ makers l -> id ∈ flags;
  ok_wraps : forall a f, a ∈ l -> by_ a = Some f -> listener_of f = Some (applied a)
}.

(** Arrays are not shared between events and not empty, and the applications are
    in order. *)
Record inv (x : emitter) : Prop := {
  inv_ref : forall e r, obj_get (_events x) e = Some (Many r) -> (r < length (heap x))%nat /\ items (deref x r) <> [];
  inv_alias : forall e e' r, obj_get (_events x) e = Some (Many r) -> obj_get (_events x) e' = Some (Many r) -> e = e';
  inv_once : calls_ok (fired x) (calls x)
}.

Definition post {A} (P : emitter -> Prop) (r : result A) : Prop :=
  match r with Ret _ x | Thrown x | OutOfFuel x => P x end.

Lemma post_bind {A B} P (r : result A) (k : A -> emitter -> result B) :
  post P r -> (forall a x, r = Ret a x -> P x -> post P (k a x)) -> post P (bind r k).
Proof. destruct r as [a x|x|]; cbn; auto. Qed.

Lemma new_emitter_inv : inv new_emitter.
Proof. split; [done|done|]. split; [apply NoDup_nil_2|by intros id ?%elem_of_nil|by intros a f ?%elem_of_nil]. Qed.

(** ** Changing the representation *)

Lemma deref_assign x r a r' : (r < length (heap x))%nat -> deref (assign r a x) r' = if decide (r' = r) then a else deref x r'.
Proof.
  intros Hr. unfold deref, assign. cbn. destruct (decide (r' = r)) as [->|Hne]; [by rewrite list_lookup_insert_eq|].
  by rewrite list_lookup_insert_ne.
Qed.

Lemma listeners_assign x e r a : inv x -> obj_get (_events x) e = Some (Many r) ->
  forall e', listeners e' (assign r a x) = if decide (e' = e) then items a else listeners e' x.
Proof.
  intros Hx He e'. destruct (inv_ref x Hx e r He) as [Hr _]. unfold listeners. cbn [_events assign with_heap].
  destruct (decide (e' = e)) as [->|Hne]; [rewrite He, deref_assign by done; by rewrite decide_True|].
  destruct (obj_get (_events x) e') as [[f|r']|] eqn:E'; [done| |done]. rewrite deref_assign by done. rewrite decide_False; [done|].
  intros ->. apply Hne. by apply (inv_alias x Hx e' e r).
Qed.

Lemma assign_inv x e r a : inv x -> obj_get (_events x) e = Some (Many r) -> items a <> [] -> inv (assign r a x).
Proof.
  intros Hx He Ha. destruct (inv_ref x Hx e r He) as [Hr _]. split; cbn.
  - intros e' r' He'. rewrite length_insert. destruct (inv_ref x Hx e' r' He') as [Hr' Hi]. split; [done|]. rewrite deref_assign by done.
    by destruct (decide (r' = r)).
  - apply (inv_alias x Hx).
  - apply (inv_once x Hx).
Qed.

Lemma delete_inv x e : inv x -> inv (with_events (obj_delete (_events x) e) x).
Proof.
  intros Hx. split; cbn.
  - intros e' r. rewrite obj_get_delete. destruct (decide (e' = e)); [done|]. apply (inv_ref x Hx).
  - intros e1 e2 r. rewrite !obj_get_delete. destruct (decide (e1 = e)), (decide (e2 = e)); try done. apply (inv_alias x Hx).
  - apply (inv_once x Hx).
Qed.

Lemma listeners_delete x e e' : listeners e' (with_events (obj_delete (_events x) e) x) = if decide (e' = e) then [] else listeners e' x.
Proof. unfold listeners. cbn. rewrite obj_get_delete. by destruct (decide (e' = e)). Qed.

(** The array whose last function goes is emptied and its event deleted. *)
Lemma drop_array x e r a : inv x -> obj_get (_events x) e = Some (Many r) ->
  inv (with_events (obj_delete (_events x) e) (assign r a x)) /\
  forall e', listeners e' (with_events (obj_delete (_events x) e) (assign r a x)) = if decide (e' = e) then [] else listeners e' x.
Proof.
  intros Hx He. destruct (inv_ref x Hx e r He) as [Hr _]. split.
  - split; cbn.
    + intros e' r'. rewrite obj_get_delete. destruct (decide (e' = e)) as [|Hne]; [done|]. intros He'. rewrite length_insert.
      destruct (inv_ref x Hx e' r' He') as [Hr' Hi]. split; [done|]. change (deref (with_events _ (assign r a x)) r') with (deref (assign r a x) r').
      rewrite deref_assign by done. rewrite decide_False; [done|]. intros ->. apply Hne. by apply (inv_alias x Hx e' e r).
    + intros e1 e2 r'. rewrite !obj_get_delete. destruct (decide (e1 = e)), (decide (e2 = e)); try done. apply (inv_alias x Hx).
    + apply (inv_once x Hx).
  - intros e'. pose proof (listeners_delete (assign r a x) e e') as H. cbn [_events assign with_heap] in H. rewrite H.
    destruct (decide (e' = e)) as [|Hne]; [done|]. rewrite (listeners_assign x e r a Hx He). by rewrite decide_False.
Qed.

Lemma single_inv x e t : inv x -> obj_get (_events x) e = None -> inv (with_events (obj_set (_events x) e (Single t)) x).
Proof.
  intros Hx He. split; cbn.
  - intros e' r. rewrite obj_get_set. destruct (decide (e' = e)); [done|]. apply (inv_ref x Hx).
  - intros e1 e2 r. rewrite !obj_get_set. destruct (decide (e1 = e)), (decide (e2 = e)); try done. apply (inv_alias x Hx).
  - apply (inv_once x Hx).
Qed.

Lemma deref_snoc x o a r : deref (with_events o (with_heap (heap x ++ [a]) x)) r = if decide (r = length (heap x)) then a else deref x r.
Proof.
  unfold deref. cbn. destruct (decide (r = length (heap x))) as [->|Hne].
  - by rewrite lookup_app_r, Nat.sub_diag by lia.
  - destruct (decide (r < length (heap x))%nat); [by rewrite lookup_app_l by lia|].
    rewrite lookup_app_r by lia. rewrite (lookup_ge_None_2 (heap x)) by lia. destruct (r - length (heap x))%nat eqn:E; [lia|done].
Qed.

Lemma pair_up_spec x e f t : inv x -> obj_get (_events x) e = Some (Single f) ->
  inv (pair_up x e f t) /\ forall e', listeners e' (pair_up x e f t) = if decide (e' = e) then [f; t] else listeners e' x.
Proof.
  intros Hx He. unfold pair_up. split.
  - split; cbn [_events with_events heap with_heap fired].
    + intros e' r. rewrite obj_get_set, deref_snoc, length_app. destruct (decide (e' = e)) as [->|].
      * intros [= <-]. rewrite decide_True by done. cbn. split; [lia|done].
      * intros H. destruct (inv_ref x Hx e' r H). rewrite decide_False by lia. split; [lia|done].
    + intros e1 e2 r. rewrite !obj_get_set. destruct (decide (e1 = e)) as [->|], (decide (e2 = e)) as [->|]; try done.
      * intros [= <-] H. destruct (inv_ref x Hx e2 _ H). lia.
      * intros H [= <-]. destruct (inv_ref x Hx e1 _ H). lia.
      * apply (inv_alias x Hx).
    + apply (inv_once x Hx).
  - intros e'. unfold listeners. cbn [_events with_events with_heap]. rewrite obj_get_set. destruct (decide (e' = e)) as [->|].
    + by rewrite deref_snoc, decide_True.
    + destruct (obj_get (_events x) e') as [[|r]|] eqn:E'; [done| |done]. rewrite deref_snoc.
      destruct (inv_ref x Hx e' r E'). by rewrite decide_False by lia.
Qed.

(** ** Adding *)

(** The list of each event after a function was added for [e]. *)
Definition added (e : name) (t : fn) (x x' : emitter) : Prop :=
  inv x' /\ (fired x' = fired x /\ calls x' = calls x) /\ forall e', listeners e' x' = listeners e' x ++ (if decide (e' = e) then [t] else []).

Lemma push_spec x e r t : inv x -> obj_get (_events x) e = Some (Many r) ->
  let x' := assign r (Array (items (deref x r) ++ [t]) (warned (deref x r))) x in added e t x x'.
Proof.
  intros Hx He x'. split; [apply (assign_inv x e); [done|done|]; cbn; by destruct (items (deref x r))|]. split; [done|].
  intros e'. unfold x'. rewrite (listeners_assign x e) by done. destruct (decide (e' = e)) as [->|]; [|by rewrite app_nil_r].
  unfold listeners. by rewrite He.
Qed.

Lemma warn_spec x e r : inv x -> obj_get (_events x) e = Some (Many r) ->
  let x' := assign r (Array (items (deref x r)) true) x in
  inv x' /\ (fired x' = fired x /\ calls x' = calls x) /\ forall e', listeners e' x' = listeners e' x.
Proof.
  intros Hx He x'. destruct (inv_ref x Hx e r He) as [_ Hi]. split; [by apply (assign_inv x e)|]. split; [done|].
  intros e'. unfold x'. rewrite (listeners_assign x e) by done. destruct (decide (e' = e)) as [->|]; [|done]. unfold listeners. by rewrite He.
Qed.

Lemma insert_fn_spec e t x : inv x -> added e t x (insert_fn e t x).
Proof.
  intros Hx. unfold insert_fn. destruct (obj_get (_events x) e) as [[f|r]|] eqn:He.
  - destruct (pair_up_spec x e f t Hx He) as [H1 H2]. split; [done|]. split; [done|]. intros e'. rewrite H2.
    destruct (decide (e' = e)) as [->|]; [|by rewrite app_nil_r]. unfold listeners. by rewrite He.
  - by apply push_spec.
  - split; [by apply single_inv|]. split; [done|]. intros e'. unfold listeners. cbn. rewrite obj_get_set.
    destruct (decide (e' = e)) as [->|]; [by rewrite He|]. by rewrite app_nil_r.
Qed.

(** [addListener] announces the function and then adds it at the end. *)
Lemma addListener_spec emit e t x b x1 :
  (if has_event "newListener" x then emit "newListener"%string [AName e; AFn (default t (listener_of t))] x else Ret true x) = Ret b x1 ->
  inv x1 -> exists x', addListener emit e t x = Ret tt x' /\ added e t x1 x'.
Proof.
  intros Hemit Hx. unfold addListener. rewrite Hemit. cbn [bind]. cbv zeta.
  pose proof (insert_fn_spec e t x1 Hx) as (Hi & [Hf Hc] & Hl). set (x2 := insert_fn e t x1) in *.
  destruct (obj_get (_events x2) e) as [[f|r]|] eqn:He; try (eexists; split; [done|]; by split_and!).
  destruct (_ && _ && _); [|eexists; split; [done|]; by split_and!].
  destruct (warn_spec x2 e r Hi He) as (H1 & H2 & H3). eexists. split; [done|]. split; [done|]. split; [by destruct H2 as [-> ->]|].
  intros e'. by rewrite H3.
Qed.

(** ** Removing *)

(** The list without its last function that matches. *)
Definition remove_last (t : fn) (l : list fn) : list fn :=
  match last_match l t (length l) with Some i => delete i l | None => l end.

Lemma last_match_spec l t u : (u <= length l)%nat ->
  match last_match l t u with
  | Some i => (i < u)%nat /\ (exists f, l !! i = Some f /\ matches t f = true) /\
              forall j f, (i < j < u)%nat -> l !! j = Some f -> matches t f = false
  | None => forall j f, (j < u)%nat -> l !! j = Some f -> matches t f = false
  end.
Proof.
  induction u as [|u IH]; intros Hu; cbn [last_match]; [lia|].
  destruct (lookup_lt_is_Some_2 l u) as [f Hf]; [lia|]. rewrite Hf. destruct (matches t f) eqn:E.
  - split; [lia|]. split; [eauto|lia].
  - specialize (IH ltac:(lia)). destruct (last_match l t u) as [i|].
    + destruct IH as (H1 & H2 & H3). split; [lia|]. split; [done|]. intros j g Hj Hg.
      destruct (decide (j = u)) as [->|]; [by simplify_eq|]. apply (H3 j); [lia|done].
    + intros j g Hj Hg. destruct (decide (j = u)) as [->|]; [by simplify_eq|]. apply (IH j); [lia|done].
Qed.

(** The lists after a function was removed for [e]. *)
Definition removed (e : name) (t : fn) (x x' : emitter) : Prop :=
  inv x' /\ (fired x' = fired x /\ calls x' = calls x) /\ forall e', listeners e' x' = if decide (e' = e) then remove_last t (listeners e x) else listeners e' x.

Lemma removed_nothing e t x : inv x -> remove_last t (listeners e x) = listeners e x -> removed e t x x.
Proof. intros Hx H. split; [done|]. split; [done|]. intros e'. destruct (decide (e' = e)) as [->|]; [by rewrite H|done]. Qed.

Lemma remove_core_spec e t x : inv x -> removed e t x (fst (remove_core e t x)).
Proof.
  intros Hx. unfold remove_core. destruct (obj_get (_events x) e) as [[f|r]|] eqn:He.
  - assert (listeners e x = [f]) as Hl by (unfold listeners; by rewrite He).
    destruct (matches t f) eqn:Em; cbn [fst].
    + split; [by apply delete_inv|]. split; [done|]. intros e'. rewrite listeners_delete, Hl. destruct (decide (e' = e)); [|done].
      unfold remove_last. cbn. by rewrite Em.
    + apply removed_nothing; [done|]. rewrite Hl. unfold remove_last. cbn. by rewrite Em.
  - assert (listeners e x = items (deref x r)) as Hl by (unfold listeners; by rewrite He).
    set (n := items (deref x r)) in *. pose proof (last_match_spec n t (length n) (Nat.le_refl _)) as Hm. cbv zeta.
    destruct (last_match n t (length n)) as [i|] eqn:Ei; cbn [fst]; [|apply removed_nothing; [done|]; rewrite Hl; unfold remove_last; by rewrite Ei].
    destruct Hm as (Hi & _). assert (remove_last t n = delete i n) as Hr by (unfold remove_last; by rewrite Ei).
    destruct (Nat.eqb_spec (length n) 1) as [H1|H1].
    + destruct (drop_array x e r (Array [] (warned (deref x r))) Hx He) as [Ha Hb]. split; [done|]. split; [done|].
      intros e'. rewrite Hb, Hl, Hr. destruct (decide (e' = e)); [|done]. destruct n as [|g [|]]; try (cbn in H1; lia).
      by assert (i = 0%nat) as -> by (cbn in Hi; lia).
    + split; [apply (assign_inv x e); [done|done|]|split; [done|]].
      * cbn. intros Hd. assert (length (delete i n) = 0%nat) as Hz by (by rewrite Hd). rewrite length_delete in Hz by (by apply lookup_lt_is_Some_2). lia.
      * intros e'. rewrite (listeners_assign x e) by done. rewrite Hl, Hr. by destruct (decide (e' = e)).
  - assert (listeners e x = []) as Hl by (unfold listeners; by rewrite He). cbn [fst]. apply removed_nothing; [done|]. by rewrite Hl.
Qed.

(** Something is announced exactly when a function matches. *)
Lemma remove_core_flag e t x : inv x -> snd (remove_core e t x) = existsb (matches t) (listeners e x).
Proof.
  intros Hx. unfold remove_core, listeners. destruct (obj_get (_events x) e) as [[f|r]|]; [| |done].
  - cbn. destruct (matches t f); done.
  - set (n := items (deref x r)). pose proof (last_match_spec n t (length n) (Nat.le_refl _)) as Hm. cbv zeta.
    destruct (last_match n t (length n)) as [i|]; cbn [snd]; symmetry.
    + destruct Hm as (_ & (f & Hf & Hmf) & _). apply existsb_exists. exists f. split; [|done]. apply list_elem_of_In. by eapply list_elem_of_lookup_2.
    + apply not_true_is_false. intros (f & Hf & Hmf)%existsb_exists. apply list_elem_of_In, list_elem_of_lookup in Hf as [j Hj].
      rewrite (Hm j f) in Hmf; [done| |done]. by eapply lookup_lt_Some.
Qed.

(** ** The methods keep the invariant *)

Section Preserved.
Context (emit : name -> list arg -> emitter -> result bool) (Hemit : forall e u x, inv x -> post inv (emit e u x)).

Lemma addListener_inv e t x : inv x -> post inv (addListener emit e t x).
Proof using Hemit.
  intros Hx. assert (post inv (if has_event "newListener" x then emit "newListener"%string [AName e; AFn (default t (listener_of t))] x else Ret true x)) as Hp
    by (destruct (has_event "newListener" x); [by apply Hemit|done]).
  destruct (if has_event "newListener" x then _ else _) as [b x1|x1|] eqn:E; cbn in Hp.
  - destruct (addListener_spec emit e t x b x1 E Hp) as (x' & -> & H & _). done.
  - unfold addListener. by rewrite E.
  - unfold addListener. by rewrite E.
Qed.

Lemma announce_inv e t x : inv x -> post inv (announce emit e t x).
Proof using Hemit.
  intros Hx. unfold announce. destruct (has_event _ x); [|done]. apply post_bind; [by apply Hemit|]. done.
Qed.

Lemma removeListener_inv e t x : inv x -> post inv (removeListener emit e t x).
Proof using Hemit.
  intros Hx. unfold removeListener. destruct (remove_core_spec e t x Hx) as [H _].
  destruct (remove_core e t x) as [x' []]; cbn [fst] in H; [by apply announce_inv|done].
Qed.

Lemma once_inv e t x : inv x -> post inv (once emit e t x).
Proof using Hemit. intros [H1 H2 H3]. apply addListener_inv. by split. Qed.

Lemma remove_each_inv fuel e r : forall x, inv x -> post inv (remove_each emit fuel e r x).
Proof using Hemit.
  induction fuel as [|fuel IH]; intros x Hx; cbn [remove_each]; destruct (last (items (deref x r))); try done.
  apply post_bind; [by apply removeListener_inv|]. intros _ x' _ Hx'. by apply IH.
Qed.

Lemma removeAllFor_inv fuel e x : inv x -> post inv (removeAllFor emit fuel e x).
Proof using Hemit.
  intros Hx. unfold removeAllFor. destruct (negb _); [destruct (has_event e x); [by apply delete_inv|done]|].
  apply post_bind; [|intros _ x' _ Hx'; by apply delete_inv].
  destruct (obj_get (_events x) e) as [[f|r]|]; [by apply removeListener_inv|by apply remove_each_inv|done].
Qed.

Lemma remove_keys_inv fuel ts : forall x, inv x -> post inv (remove_keys emit fuel ts x).
Proof using Hemit.
  induction ts as [|t ts IH]; intros x Hx; cbn [remove_keys]; [done|].
  apply post_bind; [destruct (_ && _); [by apply removeAllFor_inv|done]|]. intros _ x' _ Hx'. by apply IH.
Qed.

Lemma no_events_inv x : inv x -> inv (with_events [] x).
Proof using. clear. intros [_ _ H]. by split. Qed.

Lemma removeAllListeners_inv fuel x : inv x -> post inv (removeAllListeners emit fuel x).
Proof using Hemit.
  intros Hx. unfold removeAllListeners. destruct (negb _); [by apply no_events_inv|].
  apply post_bind; [by apply remove_keys_inv|]. intros _ x1 _ Hx1. apply post_bind; [by apply removeAllFor_inv|].
  intros _ x2 _ Hx2. by apply no_events_inv.
Qed.
End Preserved.

(** ** Calls *)

Lemma call_all_inv call l u : (forall f u x, inv x -> post inv (call f u x)) -> forall x, inv x -> post inv (call_all call l u x).
Proof.
  intros Hc. induction l as [|f l IH]; intros x Hx; cbn [call_all]; [done|].
  apply post_bind; [by apply Hc|]. intros _ x' _ Hx'. by apply IH.
Qed.

Lemma emit_with_inv call : (forall f u x, inv x -> post inv (call f u x)) -> forall e u x, inv x -> post inv (emit_with call e u x).
Proof.
  intros Hc e u x Hx. unfold emit_with. destruct (_ && _); [done|]. destruct (obj_get (_events x) e) as [[f|r]|]; [| |done].
  - apply post_bind; [by apply Hc|done].
  - apply post_bind; [by apply call_all_inv|done].
Qed.

Lemma setMax_inv n x : inv x -> post inv (setMaxListeners n x).
Proof. intros [H1 H2 H3]. unfold setMaxListeners. destruct (n <? 0); by split. Qed.

(** A program only uses the methods. *)
Lemma obey_inv call fuel : (forall f u x, inv x -> post inv (call f u x)) -> forall p x, inv x -> post inv (obey call fuel p x).
Proof.
  intros Hc. pose proof (emit_with_inv call Hc) as He.
  induction p as [| |e t k IH|e t k IH|e t k IH|e k IH|n k IH|e u k IH|e k IH|e k IH|f u k IH|p IHp k IH]; intros x Hx; cbn [obey];
    try (apply post_bind; [by eauto using addListener_inv, once_inv, removeListener_inv, setMax_inv|by auto]); auto.
  - apply post_bind; [|by auto]. destruct e; [by apply removeAllFor_inv|by apply removeAllListeners_inv].
  - specialize (IHp x Hx). destruct (obey call fuel p x) as [[] x'|x'|x']; cbn in IHp; auto.
Qed.

(** An application is recorded: by nobody, or by a function of [once] that has just
    set its flag. *)
Definition may_apply (who : option fn) (f : fn) (x : emitter) : Prop :=
  match who with
  | None => True
  | Some (OnceFn id e t) => f = t /\ id ∈ fired x /\ id ∉ makers (calls x)
  | Some (Plain _) => False
  end.

Lemma record_inv who f u x : inv x -> may_apply who f x -> inv (record (App who f u) x).
Proof.
  intros [H1 H2 [H3 H4 H5]] Hw. split; [done|done|]. cbn [fired record calls].
  assert (makers (calls x ++ [App who f u]) = makers (calls x) ++ match who with Some (OnceFn id _ _) => [id] | _ => [] end) as Hm
    by (unfold makers; rewrite omap_app; by destruct who as [[]|]).
  split.
  - rewrite Hm. destruct who as [[|id e t]|]; [by rewrite app_nil_r| |by rewrite app_nil_r]. destruct Hw as (_ & _ & Hw). apply NoDup_app.
    split; [done|]. split; [|apply NoDup_singleton]. by intros id' Hid ->%list_elem_of_singleton.
  - intros id. rewrite Hm, elem_of_app. intros [Hid|Hid]; [by apply H4|]. destruct who as [[|id' e t]|]; [by apply elem_of_nil in Hid| |by apply elem_of_nil in Hid].
    apply list_elem_of_singleton in Hid as ->. apply Hw.
  - intros a g [Ha| ->%list_elem_of_singleton]%elem_of_app; [by apply H5|]. cbn. intros ->. destruct g; [done|]. cbn. by destruct Hw as [-> _].
Qed.

Lemma flag_inv x id : inv x -> inv (set_flag id x).
Proof. intros [H1 H2 [H3 H4 H5]]. split; [done|done|]. split; [done| |done]. intros id' H%H4. by right. Qed.

Section Calls.
Context (body : nat -> list arg -> prog).

Lemma call_inv fuel : forall who f u x, inv x -> may_apply who f x -> post inv (call body fuel who f u x).
Proof.
  induction fuel as [|fuel IH]; intros who f u x Hx Hw; cbn [call]; [done|]. pose proof (record_inv who f u x Hx Hw) as Hr.
  assert (forall f u x, inv x -> post inv (call body fuel None f u x)) as Hc by (intros; by apply IH).
  destruct f as [n|id e t]; [by apply obey_inv|].
  apply post_bind; [apply removeListener_inv; [by apply emit_with_inv|done]|]. intros _ x' _ Hx'.
  case_bool_decide as Hid; [done|]. apply IH; [by apply flag_inv|]. split; [done|]. split; [by left|].
  intros Hin. apply Hid. by apply (ok_flags _ _ (inv_once _ Hx')).
Qed.

Lemma page_inv fuel p x : inv x -> post inv (page body fuel p x).
Proof. apply obey_inv. intros. by apply call_inv. Qed.
End Calls.

(** ** The theorems *)

(** How often a function of [once] applied the one it wraps *)
Definition times (id : nat) (l : list application) : nat := length (filter (fun a => maker a = Some id) l).

Lemma times_cons id a l : times id (a :: l) = ((if decide (maker a = Some id) then 1 else 0) + times id l)%nat.
Proof. unfold times. rewrite filter_cons. by destruct (decide (maker a = Some id)). Qed.

Lemma times_none id l : id ∉ makers l -> times id l = 0%nat.
Proof.
  induction l as [|a l IH]; [done|]. rewrite times_cons. unfold makers. cbn. destruct (maker a) as [id'|].
  - intros [Hne Hn]%not_elem_of_cons. rewrite decide_False by congruence. by rewrite IH.
  - rewrite decide_False by done. intros Hn. by rewrite IH.
Qed.

Lemma times_once id l : NoDup (makers l) -> (times id l <= 1)%nat.
Proof.
  induction l as [|a l IH]; [cbn; lia|]. rewrite times_cons. unfold makers. cbn. destruct (maker a) as [id'|].
  - intros [Hn Hnd]%NoDup_cons. specialize (IH Hnd). destruct (decide (Some id' = Some id)) as [[= ->]|]; [by rewrite (times_none id l Hn)|lia].
  - intros Hnd. specialize (IH Hnd). rewrite decide_False by done. lia.
Qed.

(** C26: whatever the functions of the page are and a program of the page does with
    a new emitter, at the end, when it throws, and wherever it may be cut off: no
    two events share an array, no array is empty, each function that [once] made
    has applied a function at most once, and it was the one it wraps, however
    listeners and emissions nest. *)
Theorem emitter_invariant (body : nat -> list arg -> prog) fuel p :
  post (fun x =>
    (forall e e' r, obj_get (_events x) e = Some (Many r) -> obj_get (_events x) e' = Some (Many r) -> e = e')
    /\ (forall e r, obj_get (_events x) e = Some (Many r) -> exists a, heap x !! r = Some a /\ items a <> [])
    /\ (forall id, (times id (calls x) <= 1)%nat)
    /\ (forall a f, a ∈ calls x -> by_ a = Some f -> listener_of f = Some (applied a)))
    (page body fuel p new_emitter).
Proof.
  pose proof (page_inv body fuel p new_emitter new_emitter_inv) as H.
  destruct (page body fuel p new_emitter) as [[] x|x|x]; cbn in *; destruct H as [H1 H2 [H3 _ H5]];
    (split; [done|]; split; [|split; [intros id; by apply times_once|done]]; intros e r He; destruct (H1 e r He) as [Hr Hi];
     unfold deref in Hi; destruct (lookup_lt_is_Some_2 _ _ Hr) as [a Ha]; rewrite Ha in Hi; by exists a).
Qed.

(** What the listeners of an event and their number are. *)
Lemma listenerCount_length e x : listenerCount e x = Z.of_nat (length (listeners e x)).
Proof. unfold listenerCount, listeners. by destruct (obj_get (_events x) e) as [[]|]. Qed.

Lemma has_event_listeners e x : inv x -> has_event e x = match listeners e x with [] => false | _ => true end.
Proof.
  intros Hx. unfold has_event, listeners. destruct (obj_get (_events x) e) as [[f|r]|] eqn:He; [done| |done].
  destruct (inv_ref x Hx e r He) as [_ Hi]. by destruct (items (deref x r)).
Qed.

(** The functions of a list are applied one after the other, until one of them does
    not return. *)
Inductive in_turn (apply : fn -> emitter -> result unit) : list fn -> emitter -> result unit -> Prop :=
| turn_end x : in_turn apply [] x (Ret tt x)
| turn_next f l x x1 r : apply f x = Ret tt x1 -> in_turn apply l x1 r -> in_turn apply (f :: l) x r
| turn_throw f l x x1 : apply f x = Thrown x1 -> in_turn apply (f :: l) x (Thrown x1)
| turn_cut f l x x1 : apply f x = OutOfFuel x1 -> in_turn apply (f :: l) x (OutOfFuel x1).

Lemma call_all_turn call l u x : in_turn (fun f x => call f u x) l x (call_all call l u x).
Proof.
  revert x. induction l as [|f l IH]; intros x; cbn [call_all]; [constructor|]. destruct (call f u x) as [[] x1|x1|x1] eqn:E; cbn [bind].
  - by eapply turn_next.
  - by apply turn_throw.
  - by apply turn_cut.
Qed.

(** How [emit] ends when its listeners have ended so *)
Definition emitted (r : result unit) : result bool := bind r (fun _ x => Ret true x).

Lemma emit_turn body fuel e u x : inv x ->
  match listeners e x with
  | [] => emit body fuel e u x = if bool_decide (e = "error"%string) then Thrown x else Ret false x
  | l => exists r, in_turn (fun f x => call body fuel None f u x) l x r /\ emit body fuel e u x = emitted r
  end.
Proof.
  intros Hx. unfold emit, emit_with, listeners. destruct (obj_get (_events x) e) as [[f|r]|] eqn:He.
  - rewrite andb_false_r. exists (call body fuel None f u x). split; [|done].
    destruct (call body fuel None f u x) as [[] x1|x1|x1] eqn:E; [eapply turn_next; [done|constructor]|by apply turn_throw|by apply turn_cut].
  - destruct (inv_ref x Hx e r He) as [_ Hi]. pose proof (call_all_turn (call body fuel None) (items (deref x r)) u x) as Ht.
    destruct (items (deref x r)) as [|f l] eqn:El; [done|]. rewrite andb_false_r. eauto.
  - rewrite andb_true_r. by destruct (bool_decide _).
Qed.

(** An event that is emitted only to those who listen *)
Definition told body fuel (e : name) (u : list arg) (x : emitter) : result bool :=
  match listeners e x with [] => Ret true x | _ => emit body fuel e u x end.

Lemma addListener_told body fuel e t x : inv x ->
  match told body fuel "newListener" [AName e; AFn (default t (listener_of t))] x with
  | Ret _ x1 => exists x', addListener (emit body fuel) e t x = Ret tt x' /\ calls x' = calls x1
                  /\ forall e', listeners e' x' = listeners e' x1 ++ (if decide (e' = e) then [t] else [])
  | Thrown x1 => addListener (emit body fuel) e t x = Thrown x1
  | OutOfFuel x1 => addListener (emit body fuel) e t x = OutOfFuel x1
  end.
Proof.
  intros Hx. assert (forall e u x, inv x -> post inv (emit body fuel e u x)) as Hemit by (apply emit_with_inv; intros; by apply call_inv).
  set (u := [AName e; AFn _]). set (a := if has_event "newListener" x then emit body fuel "newListener" u x else Ret true x).
  assert (told body fuel "newListener" u x = a) as -> by (unfold told, a; rewrite has_event_listeners by done; by destruct (listeners "newListener" x)).
  assert (post inv a) as Hp by (unfold a; destruct (has_event "newListener" x); [by apply Hemit|done]).
  destruct a as [b x1|x1|x1] eqn:E; [|unfold addListener; fold u a; by rewrite E..].
  destruct (addListener_spec (emit body fuel) e t x b x1 E Hp) as (x' & -> & _ & [_ Hc] & Hl). by exists x'.
Qed.

(** The last function that is [t] or wraps it *)
Definition is_match (t f : fn) : Prop := f = t \/ listener_of f = Some t.

Lemma matches_spec t f : matches t f = true <-> is_match t f.
Proof. unfold matches, is_match. by rewrite orb_true_iff, !bool_decide_eq_true. Qed.

Lemma remove_last_spec t l : existsb (matches t) l = true ->
  exists pre f rest, l = pre ++ f :: rest /\ is_match t f /\ (forall g, g ∈ rest -> ~ is_match t g) /\ remove_last t l = pre ++ rest.
Proof.
  intros He. unfold remove_last. pose proof (last_match_spec l t (length l) (Nat.le_refl _)) as Hm. destruct (last_match l t (length l)) as [i|].
  - destruct Hm as (Hi & (f & Hf & Hmf) & Hlast). exists (take i l), f, (drop (S i) l). split; [by rewrite take_drop_middle|]. split; [by apply matches_spec|].
    split; [|apply delete_take_drop]. intros g [j Hj]%list_elem_of_lookup Hg%matches_spec. rewrite lookup_drop in Hj.
    rewrite (Hlast (S i + j)%nat g) in Hg; [done| |done]. apply lookup_lt_Some in Hj. lia.
  - apply existsb_exists in He as (f & Hf & Hmf). apply list_elem_of_In, list_elem_of_lookup in Hf as [j Hj]. rewrite (Hm j f) in Hmf; [done| |done].
    by eapply lookup_lt_Some.
Qed.

(** [removeListener]: nothing matches, or the last match is taken out and told. *)
Lemma removeListener_told body fuel e t x : inv x ->
  ((forall f, f ∈ listeners e x -> ~ is_match t f) /\ removeListener (emit body fuel) e t x = Ret tt x)
  \/ exists pre f rest x1, listeners e x = pre ++ f :: rest /\ is_match t f /\ (forall g, g ∈ rest -> ~ is_match t g)
      /\ (forall e', listeners e' x1 = if decide (e' = e) then pre ++ rest else listeners e' x) /\ (fired x1 = fired x /\ calls x1 = calls x)
      /\ removeListener (emit body fuel) e t x = bind (told body fuel "removeListener" [AName e; AFn t] x1) (fun _ x => Ret tt x).
Proof.
  intros Hx. pose proof (remove_core_spec e t x Hx) as (Hi & Hc & Hl). pose proof (remove_core_flag e t x Hx) as Hf. unfold removeListener.
  destruct (remove_core e t x) as [x1 found] eqn:E. cbn [fst snd] in *. subst found. destruct (existsb (matches t) (listeners e x)) eqn:Hex.
  - right. destruct (remove_last_spec t _ Hex) as (pre & f & rest & H1 & H2 & H3 & H4). exists pre, f, rest, x1. do 3 (split; [done|]).
    split; [intros e'; rewrite Hl, H4; by destruct (decide (e' = e))|]. split; [done|]. unfold announce, told. rewrite has_event_listeners by done.
    by destruct (listeners "removeListener" x1).
  - left. assert (forall f, f ∈ listeners e x -> ~ is_match t f) as Hno.
    { intros f Hin Hm%matches_spec. apply not_true_iff_false in Hex. apply Hex, existsb_exists. exists f. split; [by apply list_elem_of_In|done]. }
    split; [done|]. f_equal. revert E. unfold remove_core. unfold listeners in Hno.
    destruct (obj_get (_events x) e) as [[f|r]|]; [| |by intros [= <-]].
    + destruct (matches t f); [done|]. by intros [= <-].
    + cbv zeta. destruct (last_match _ _ _); [done|]. by intros [= <-].
Qed.

(** ** Functions that do nothing *)

(** The applications that follow from one of [f] by [who]: a function of [once]
    applies the one it wraps. *)
Fixpoint uses (who : option fn) (f : fn) (u : list arg) : list application :=
  App who f u :: match f with Plain _ => [] | OnceFn _ _ t => uses (Some f) t u end.

Fixpoint once_ids (f : fn) : list nat := match f with Plain _ => [] | OnceFn id _ t => id :: once_ids t end.
Fixpoint depth (f : fn) : nat := match f with Plain _ => 1 | OnceFn _ _ t => S (depth t) end.

(** What is left when such functions have run *)
Definition used_up (ids : list nat) (l : list application) (x x' : emitter) : Prop :=
  inv x' /\ listeners "removeListener" x' = [] /\ calls x' = calls x ++ l /\ forall id, id ∈ fired x' -> id ∈ fired x \/ id ∈ ids.

Section Inert.
Context (body : nat -> list arg -> prog) (Hbody : forall n u, body n u = PReturn).

Lemma remove_silent fuel e t x : inv x -> listeners "removeListener" x = [] ->
  exists x', removeListener (emit body fuel) e t x = Ret tt x' /\ inv x' /\ listeners "removeListener" x' = [] /\ fired x' = fired x /\ calls x' = calls x.
Proof.
  intros Hx Hr. assert (post inv (removeListener (emit body fuel) e t x)) as Hp by (apply removeListener_inv; [apply emit_with_inv; intros; by apply call_inv|done]).
  destruct (removeListener_told body fuel e t x Hx) as [[_ E]|(pre & f & rest & x1 & H1 & _ & _ & H4 & [H5 H6] & E)]; rewrite E in *; [by exists x|].
  assert (listeners "removeListener" x1 = []) as Hr1.
  { rewrite H4. destruct (decide _) as [<-|]; [|done]. rewrite Hr in H1. by destruct pre. }
  unfold told in *. rewrite Hr1 in *. by exists x1.
Qed.

Lemma call_inert f : forall fuel who u x, inv x -> listeners "removeListener" x = [] -> may_apply who f x ->
  (depth f <= fuel)%nat -> NoDup (once_ids f) -> (forall id, id ∈ once_ids f -> id ∉ fired x) ->
  exists x', call body fuel who f u x = Ret tt x' /\ used_up (once_ids f) (uses who f u) x x'.
Proof using Hbody.
  induction f as [n|id e t IH]; intros [|fuel] who u x Hx Hr Hw Hd Hnd Hf; cbn in Hd; try lia; cbn [call].
  - rewrite Hbody. exists (record (App who (Plain n) u) x). split; [done|]. split; [by apply record_inv|]. split; [done|]. split; [done|]. by left.
  - pose proof (record_inv who _ u x Hx Hw) as Hx0.
    destruct (remove_silent fuel e (OnceFn id e t) _ Hx0 Hr) as (x1 & E & Hx1 & Hr1 & Hf1 & Hc1). unfold emit in E. rewrite E. cbn [bind].
    cbn [fired record calls] in Hf1, Hc1. cbn [once_ids] in Hnd, Hf. apply NoDup_cons in Hnd as [Hid Hnd].
    assert (id ∉ fired x1) as Hn by (rewrite Hf1; apply Hf; left). rewrite bool_decide_eq_false_2 by done.
    destruct (IH fuel (Some (OnceFn id e t)) u (set_flag id x1)) as (x2 & E2 & Hx2 & Hr2 & Hc2 & Hf2); [by apply flag_inv|done| |lia|done| |].
    + split; [done|]. split; [by left|]. intros Hin. apply Hn. by apply (ok_flags _ _ (inv_once _ Hx1)).
    + intros id' Hin. cbn. rewrite Hf1. apply not_elem_of_cons. split; [by intros ->|]. apply Hf. by right.
    + exists x2. split; [exact E2|]. split; [done|]. split; [done|]. cbn [uses]. split; [by rewrite Hc2; cbn [calls set_flag]; rewrite Hc1, <- app_assoc|].
      intros id' [[->|Hin]%elem_of_cons|Hin]%Hf2; [right; by left|left; by rewrite <- Hf1|right; by right].
Qed.

Lemma call_all_inert fuel u l : forall x, inv x -> listeners "removeListener" x = [] -> (forall f, f ∈ l -> (depth f <= fuel)%nat) ->
  NoDup (concat (map once_ids l)) -> (forall id, id ∈ concat (map once_ids l) -> id ∉ fired x) ->
  exists x', call_all (call body fuel None) l u x = Ret tt x' /\ used_up (concat (map once_ids l)) (concat (map (fun f => uses None f u) l)) x x'.
Proof using Hbody.
  induction l as [|f l IH]; intros x Hx Hr Hd Hnd Hf; cbn [call_all map concat].
  - exists x. split; [done|]. split; [done|]. split; [done|]. split; [by rewrite app_nil_r|]. by left.
  - cbn [map concat] in Hnd, Hf. apply NoDup_app in Hnd as (Hn1 & Hn2 & Hn3).
    destruct (call_inert f fuel None u x Hx Hr I) as (x1 & -> & Hx1 & Hr1 & Hc1 & Hf1); [apply Hd; by left|done|intros id Hin; apply Hf, elem_of_app; by left|].
    cbn [bind]. destruct (IH x1 Hx1 Hr1) as (x2 & -> & Hx2 & Hr2 & Hc2 & Hf2); [intros g Hg; apply Hd; by right|done| |].
    + intros id Hin [Hin'|Hin']%Hf1; [by apply (Hf id); [apply elem_of_app; by right|]|by apply (Hn2 id)].
    + exists x2. split; [done|]. split; [done|]. split; [done|]. split; [by rewrite Hc2, Hc1, <- app_assoc|].
      intros id [[Hin|Hin]%Hf1|Hin]%Hf2; [by left|right; apply elem_of_app; by left|right; apply elem_of_app; by right].
Qed.

Lemma emit_inert fuel e u x : inv x -> listeners "removeListener" x = [] -> listeners e x <> [] ->
  (forall f, f ∈ listeners e x -> (depth f <= fuel)%nat) ->
  NoDup (concat (map once_ids (listeners e x))) -> (forall id, id ∈ concat (map once_ids (listeners e x)) -> id ∉ fired x) ->
  exists x', emit body fuel e u x = Ret true x' /\ calls x' = calls x ++ concat (map (fun f => uses None f u) (listeners e x)).
Proof using Hbody.
  intros Hx Hr Hne Hd Hnd Hf. destruct (call_all_inert fuel u (listeners e x) x Hx Hr Hd Hnd Hf) as (x' & E & _ & _ & Hc & _).
  exists x'. split; [|done]. unfold emit, emit_with. unfold listeners in *. destruct (obj_get (_events x) e) as [[f|r]|]; [| |done].
  - rewrite andb_false_r. cbn [call_all] in E. destruct (call body fuel None f u x) as [[] x1|x1|x1]; [|done..]. cbn in *. by simplify_eq.
  - destruct (items (deref x r)) as [|f l]; [done|]. rewrite andb_false_r. by rewrite E.
Qed.
End Inert.

(** The states that a program of the page reaches *)
Definition reached body (x : emitter) : Prop := exists fuel p, page body fuel p new_emitter = Ret tt x \/ page body fuel p new_emitter = Thrown x.

Lemma reached_inv body x : reached body x -> inv x.
Proof. intros (fuel & p & H). pose proof (page_inv body fuel p new_emitter new_emitter_inv) as Hp. by destruct H as [H|H]; rewrite H in Hp. Qed.


(** A page that listens to [a] with the function 0, and once with 1 *)
Definition setup : prog := POn "a" (Plain 0) (POnce "a" (Plain 1) PReturn).
Definition inert (_ : nat) (_ : list arg) : prog := PReturn.
Definition listening : emitter := Eval vm_compute in match page inert 5 setup new_emitter with Ret _ x | Thrown x | OutOfFuel x => x end.

Lemma listening_reached : reached inert listening.
Proof. exists 5%nat, setup. left. reflexivity. Qed.


(** A function that emits its own event before it returns: its wrapper, called in
    between as its identity was kept, does not apply it again. *)
Definition nested (n : nat) (u : list arg) : prog := if (n =? 0)%nat then PListeners "b" (fun _ => PEmit "a" u (fun _ => PReturn)) else PReturn.
Definition nesting : prog :=
  POnce "a" (Plain 0) (PListeners "a" (fun l => POn "a" (Plain 1) (PEmit "a" [] (fun _ => match l with f :: _ => PCall f [] PReturn | [] => PReturn end)))).

Lemma nested_once : exists x, page nested 20 nesting new_emitter = Ret tt x /\ times 0 (calls x) = 1%nat /\ length (calls x) = 5%nat.
Proof. eexists. vm_compute. split; [reflexivity|]. split; reflexivity. Qed.
