(* ===== verification/Memo.v ===== *)
(** * reselect

    Memoized selectors (module 31 of swagger-ui-bundle.js): [defaultMemoize],
    [createSelectorCreator], [createSelector] and [createStructuredSelector].
    A memoized function is a state, the arguments and the result of its last
    call that returned, and what a call does to it.  The memoized function and
    the input selectors are pure, and may throw. *)

From S2P Require Import Prelude JsObj.
Local Open Scope Z_scope.

(** ** defaultMemoize *)

Section Memoize.
Context {A R : Type} (func : list A -> js R) (eqb : A -> A -> bool).

(** The variables [n] and [o]. *)
Record memo : Type := Memo { lastArgs : option (list A); lastResult : option R }.
Definition memo0 : memo := Memo None None.

(** [n.length === i.length && i.every((e, r) => t(e, n[r]))] *)
Fixpoint every_eq (i n : list A) : bool :=
  match i, n with
  | [], _ => true
  | e :: i, x :: n => eqb e x && every_eq i n
  | _ :: _, [] => false
  end.

Definition same_args (i : list A) (m : memo) : bool :=
  match lastArgs m with
  | None => false
  | Some n => (length n =? length i)%nat && every_eq i n
  end.

(** A call: its result, the state after it, and whether [func] was called. *)
Definition call_memo (i : list A) (m : memo) : js (option R) * memo * bool :=
  if same_args i m then (Ok (lastResult m), Memo (Some i) (lastResult m), false)
  else
    match func i with
    | Ok r => (Ok (Some r), Memo (Some i) (Some r), true)
    | Throw e => (Throw e, m, true)
    end.
End Memoize.
Arguments memo : clear implicits.

(** ** Selectors *)

(** The function [createSelectorCreator] memoizes counts its calls. *)
Section Selector.
Context {S A R : Type} (eqb : A -> A -> bool).

Record selector : Type := Selector {
  dependencies : list (S -> js A);
  resultFunc : list A -> js R;
  cache : memo A R;
  recomputations : Z
}.

(** The check of the input selectors; [None] is a value that is no function. *)
Fixpoint all_functions (u : list (option (S -> js A))) : option (list (S -> js A)) :=
  match u with
  | [] => Some []
  | Some f :: u => option_map (cons f) (all_functions u)
  | None :: _ => None
  end.

Definition createSelector (r : list (option (S -> js A))) (a : list A -> js R) : js selector :=
  match all_functions r with
  | None => Throw Error_
  | Some u => Ok (Selector u a memo0 0)
  end.

(** [u.map(n => n(e, t, ...))] *)
Fixpoint map_inputs (u : list (S -> js A)) (e : S) : js (list A) :=
  match u with
  | [] => Ok []
  | n :: u => match n e with
              | Throw x => Throw x
              | Ok v => js_map (cons v) (map_inputs u e)
              end
  end.

(** The selector [l]. *)
Definition select (l : selector) (e : S) : js (option R) * selector :=
  match map_inputs (dependencies l) e with
  | Throw x => (Throw x, l)
  | Ok i =>
      let '(r, m, called) := call_memo (resultFunc l) eqb i (cache l) in
      (r, Selector (dependencies l) (resultFunc l) m (if called then recomputations l + 1 else recomputations l))
  end.

Definition resetRecomputations (l : selector) : selector := Selector (dependencies l) (resultFunc l) (cache l) 0.
End Selector.
Arguments selector : clear implicits.

(** [createStructuredSelector]: an object of selectors to a selector of objects. *)
Section Structured.
Context {K S A : Type} `{!EqDecision K}.

(** [t.reduce((e, t, r) => (e[n[r]] = t, e), {})] *)
Fixpoint build_object (n : list K) (t : list A) (e : list (K * A)) : list (K * A) :=
  match t, n with
  | v :: t, k :: n => build_object n t (obj_set e k v)
  | _, _ => e
  end.

Definition createStructuredSelector (e : list (K * option (S -> js A))) : js (selector S A (list (K * A))) :=
  let n := obj_keys e in
  createSelector (map (fun t => match obj_get e t with Some f => f | None => None end) n) (fun t => Ok (build_object n t [])).
End Structured.

(** ** Correctness of the cache *)

Section MemoizeFacts.
Context {A R : Type} (func : list A -> js R) (eqb : A -> A -> bool).

(** Arguments the comparison does not tell apart give the same result. *)
Definition respects : Prop := forall i n, length i = length n -> every_eq eqb i n = true -> func i = func n.

(** What is cached is the result for the cached arguments. *)
Definition memo_ok (m : memo A R) : Prop :=
  match lastArgs m with None => True | Some n => exists r, lastResult m = Some r /\ func n = Ok r end.

Lemma call_memo_ok i m : respects -> memo_ok m ->
  let '(r, m', called) := call_memo func eqb i m in
  r = js_map Some (func i) /\ memo_ok m' /\ called = negb (same_args eqb i m)
  /\ (forall v, func i = Ok v -> lastArgs m' = Some i) /\ (forall x, func i = Throw x -> m' = m).
Proof.
  intros Hr Hm. unfold call_memo. destruct (same_args eqb i m) eqn:E.
  - unfold same_args in E. unfold memo_ok in Hm. destruct (lastArgs m) as [n|] eqn:En; [|done].
    destruct Hm as (r & Hl & Hf). apply andb_prop in E as [El Ee]. apply Nat.eqb_eq in El.
    assert (func i = Ok r) as Hfi by (rewrite (Hr i n); [done|done|done]). rewrite Hl, Hfi.
    split; [done|]. split; [by exists r|]. done.
  - destruct (func i) as [r|x] eqn:Ef; (split; [done|]).
    + split; [by exists r|]. done.
    + split; [done|]. split; [done|]. split; [done|]. done.
Qed.
End MemoizeFacts.

(** ** The theorems *)

Section SelectorFacts.
Context {S A R : Type} (eqb : A -> A -> bool).

(** The function a selector stands for. *)
Definition meaning (u : list (S -> js A)) (a : list A -> js R) (e : S) : js (option R) :=
  match map_inputs u e with Throw x => Throw x | Ok i => js_map Some (a i) end.

(** The calls of a selector with these arguments, in order. *)
Fixpoint selects (l : selector S A R) (es : list S) : list (js (option R)) * selector S A R :=
  match es with
  | [] => ([], l)
  | e :: es => let '(r, l) := select eqb l e in let '(rs, l) := selects l es in (r :: rs, l)
  end.

(** The calls whose inputs differ from those of the last call that returned. *)
Fixpoint changes (u : list (S -> js A)) (a : list A -> js R) (last : option (list A)) (es : list S) : Z :=
  match es with
  | [] => 0
  | e :: es =>
      match map_inputs u e with
      | Throw _ => changes u a last es
      | Ok i =>
          (if same_args eqb i (Memo last (None : option R)) then 0 else 1)
          + changes u a (match a i with Ok _ => Some i | Throw _ => last end) es
      end
  end.

Lemma selects_ok u a es : respects a eqb -> forall l, dependencies l = u -> resultFunc l = a -> memo_ok a (cache l) ->
  fst (selects l es) = map (meaning u a) es
  /\ recomputations (snd (selects l es)) = recomputations l + changes u a (lastArgs (cache l)) es.
Proof.
  intros Hr. induction es as [|e es IH]; intros l Hu Ha Hm; cbn [selects map changes fst snd]; [split; [done|lia]|].
  unfold select, meaning. rewrite Hu. destruct (map_inputs u e) as [i|x].
  - pose proof (call_memo_ok a eqb i (cache l) Hr Hm) as Hc. rewrite Ha. destruct (call_memo a eqb i (cache l)) as [[r m'] called].
    destruct Hc as (-> & Hm' & -> & Hok & Hthrow). set (l' := Selector _ _ _ _).
    specialize (IH l' eq_refl eq_refl Hm'). destruct (selects l' es) as [rs l'']. cbn [fst snd] in *. destruct IH as [-> ->]. split; [done|].
    cbn [recomputations cache l']. unfold l'. cbn [recomputations cache].
    assert (lastArgs m' = match a i with Ok _ => Some i | Throw _ => lastArgs (cache l) end) as ->.
    { destruct (a i) as [v|x] eqn:E; [by apply (Hok v)|by rewrite (Hthrow x)]. }
    change (same_args eqb i (Memo (lastArgs (cache l)) None)) with (same_args eqb i (cache l)).
    destruct (same_args eqb i (cache l)); cbn [negb]; lia.
  - specialize (IH l Hu Ha Hm). destruct (selects l es) as [rs l'']. cbn [fst snd] in *. destruct IH as [-> ->]. done.
Qed.
End SelectorFacts.

(** A selector, called any number of times with any states, always gives
    what its result function gives for its input selectors, exceptions
    included, as long as the result function does not tell apart arguments the
    comparison takes for equal; it calls the result function exactly for the
    calls whose inputs differ from those of the last call that returned. *)
Theorem selector_correct {S A R} (eqb : A -> A -> bool) (u : list (S -> js A)) (a : list A -> js R) l (es : list S) :
  respects a eqb -> createSelector (map Some u) a = Ok l ->
  fst (selects eqb l es) = map (meaning u a) es
  /\ recomputations (snd (selects eqb l es)) = changes eqb u a None es.
Proof.
  intros Hr Hl. unfold createSelector in Hl.
  assert (all_functions (map Some u) = Some u) as Hu by (clear; induction u as [|f u IH]; cbn; [done|by rewrite IH]).
  rewrite Hu in Hl. injection Hl as <-. by apply (selects_ok eqb u a es Hr).
Qed.

Lemma selector_correct_witness :
  exists l, createSelector (map Some [fun s : Z => Ok (s / 10)]) (fun i => Ok (length i)) = Ok l /\
    recomputations (snd (selects Z.eqb l [31; 35; 42])) = 2.
Proof.
  eexists. split; [reflexivity|].
  rewrite (proj2 (selector_correct Z.eqb [fun s : Z => Ok (s / 10)] (fun i => Ok (length i)) _ [31; 35; 42] ltac:(intros i n H _; by rewrite H) eq_refl)).
  reflexivity.
Defined.

(** The object of a structured selector has the value of each selector under
    its key, in the order of the keys. *)
Lemma build_object_map {K A} `{!EqDecision K} (f : K -> A) (n : list K) : NoDup n -> forall e,
  (forall k, In k n -> obj_get e k = None) -> build_object n (map f n) e = e ++ map (fun k => (k, f k)) n.
Proof.
  induction 1 as [|k n Hk _ IH]; intros e He; cbn; [by rewrite app_nil_r|].
  assert (obj_set e k (f k) = e ++ [(k, f k)]) as ->.
  { assert (obj_get e k = None) as Hn by (apply He; by left). clear -Hn.
    induction e as [|[j w] e IH]; cbn in *; [done|]. destruct (decide (k = j)); [done|]. by rewrite IH. }
  rewrite IH, <- app_assoc; [done|]. intros j Hj. specialize (He j (or_intror Hj)).
  assert (j <> k) as Hne by (intros ->; by apply Hk, list_elem_of_In). clear -He Hne.
  induction e as [|[i w] e IH]; cbn in *; [by rewrite decide_False|]. destruct (decide (j = i)); [done|]. by apply IH.
Qed.
