(* ===== verification/Transaction.v ===== *)
(** * React transactions

    The transaction mixin of React (module 43 of swagger-ui-bundle.js), which
    wraps a method in pairs of functions: every wrapper is initialized before
    the method and closed after it, whatever throws on the way.  Wrappers and
    method are parameters that change a state and may throw. *)

From S2P Require Import Prelude.
Local Open Scope Z_scope.

Section Transaction.
Context {E D R : Type}.

Record wrapper : Type := Wrapper {
  initialize : option (E -> js D * E);
  close : option (option D -> E -> js unit * E)
}.

(** What [wrapperInitData] holds: the mark [o] for an initializer that has not
    returned, its value, or [null] if there is none. *)
Inductive datum : Type := Observed | Data (d : option D).

Record transaction : Type := Transaction {
  transactionWrappers : list wrapper;
  wrapperInitData : list datum;
  _isInTransaction : bool
}.

Definition reinitializeTransaction (wrappers : list wrapper) : transaction := Transaction wrappers [] false.

Definition isInTransaction (x : transaction) : bool := _isInTransaction x.

(** [initializeAll(n)], with the wrappers from [n] on and the data before; the
    [finally] goes on with the next wrapper when one throws. *)
Fixpoint initializeAll (t : list wrapper) (data : list datum) (s : E) : js unit * list datum * E :=
  match t with
  | [] => (Ok tt, data, s)
  | r :: t =>
      match initialize r with
      | None => initializeAll t (data ++ [Data None]) s
      | Some f =>
          match f s with
          | (Ok v, s) => initializeAll t (data ++ [Data (Some v)]) s
          | (Throw x, s) => let '(_, data, s) := initializeAll t (data ++ [Observed]) s in (Throw x, data, s)
          end
      end
  end.

(** [closeAll(n)], with the wrappers and the data from [n] on. *)
Fixpoint closeAll (t : list wrapper) (data : list datum) (s : E) : js unit * E :=
  match t with
  | [] => (Ok tt, s)
  | a :: t =>
      let u := match data with u :: _ => u | [] => Data None end in
      let data := match data with _ :: data => data | [] => [] end in
      match u, close a with
      | Data d, Some f =>
          match f d s with
          | (Ok _, s) => closeAll t data s
          | (Throw x, s) => (Throw x, snd (closeAll t data s))
          end
      | _, _ => closeAll t data s
      end
  end.

(** [perform]: the method between [initializeAll] and [closeAll]. *)
Definition perform (x : transaction) (method : E -> js R * E) (s : E) : js R * transaction * E :=
  if isInTransaction x then (Throw Error_, x, s)
  else
    let t := transactionWrappers x in
    let '(ini, data, s) := initializeAll t [] s in
    let '(c, s) := match ini with Throw y => (Throw y, s) | Ok _ => method s end in
    let '(cl, s) := closeAll t data s in
    (match c, cl with
     | Throw y, _ => Throw y
     | Ok v, Ok _ => Ok v
     | Ok _, Throw y => Throw y
     end, Transaction t [] false, s).

(** ** What a performance does *)

(** One initializer, and one closing function that gets its value. *)
Definition init_one (r : wrapper) (s : E) : js (option D) * E :=
  match initialize r with
  | None => (Ok None, s)
  | Some f => match f s with (Ok v, s) => (Ok (Some v), s) | (Throw x, s) => (Throw x, s) end
  end.

Definition close_one (r : wrapper) (u : js (option D)) (s : E) : js unit * E :=
  match u, close r with Ok d, Some f => f d s | _, _ => (Ok tt, s) end.

(** All the initializers in order, and all the closing functions. *)
Fixpoint init_all (t : list wrapper) (s : E) : list (js (option D)) * E :=
  match t with
  | [] => ([], s)
  | r :: t => let '(u, s) := init_one r s in let '(us, s) := init_all t s in (u :: us, s)
  end.

Fixpoint close_all (t : list (wrapper * js (option D))) (s : E) : list (js unit) * E :=
  match t with
  | [] => ([], s)
  | (r, u) :: t => let '(c, s) := close_one r u s in let '(cs, s) := close_all t s in (c :: cs, s)
  end.

Fixpoint first_throw {A} (l : list (js A)) : js unit :=
  match l with [] => Ok tt | Ok _ :: l => first_throw l | Throw x :: _ => Throw x end.

Definition kept (u : js (option D)) : datum := match u with Ok d => Data d | Throw _ => Observed end.

Lemma initializeAll_all t : forall data s,
  initializeAll t data s = let '(us, s') := init_all t s in (first_throw us, data ++ (kept <$> us), s').
Proof.
  induction t as [|r t IH]; intros data s; cbn [initializeAll init_all]; [by rewrite app_nil_r|].
  unfold init_one. destruct (initialize r) as [f|]; [destruct (f s) as [[v|x] s1]|];
    rewrite IH; destruct (init_all t _) as [us s']; cbn [first_throw fmap list_fmap]; by rewrite <- app_assoc.
Qed.

Lemma init_all_length t : forall s, length (fst (init_all t s)) = length t.
Proof.
  induction t as [|r t IH]; intros s; [done|]. cbn [init_all]. destruct (init_one r s) as [u s1].
  specialize (IH s1). destruct (init_all t s1) as [us s2]. cbn [fst length] in *. by rewrite IH.
Qed.

Lemma closeAll_all t : forall us s, length us = length t ->
  closeAll t (kept <$> us) s = let '(cs, s') := close_all (zip t us) s in (first_throw cs, s').
Proof.
  induction t as [|r t IH]; intros [|u us] s Hl; try done. injection Hl as Hl.
  cbn [closeAll zip zip_with close_all fmap list_fmap]. unfold close_one.
  destruct u as [d|y]; cbn [kept]; [destruct (close r) as [f|]; [destruct (f d s) as [[[]|x] s1]|]|];
    rewrite IH by done; by destruct (close_all (zip t us) _).
Qed.
End Transaction.
Arguments wrapper : clear implicits.
Arguments transaction : clear implicits.

(** C40: a method performed outside a transaction is run if and only if all the
    initializers returned; every initializer is called once and in order, and
    afterwards every closing function whose initializer returned is called
    once, in order and with its value, also when others throw.  The caller gets
    the first exception of an initializer, else the method's, else the first
    of a closing function, else the method's result, and the transaction is
    over and its data cleared in every case. *)
Theorem perform_correct {E D R} (x : transaction E D) (method : E -> js R * E) (s : E) :
  _isInTransaction x = false ->
  perform x method s =
    let t := transactionWrappers x in
    let '(us, s) := init_all t s in
    let '(c, s) := match first_throw us with Throw y => (Throw y, s) | Ok _ => method s end in
    let '(cs, s) := close_all (zip t us) s in
    (match c, first_throw cs with Ok _, Throw y => Throw y | _, _ => c end, Transaction t [] false, s).
Proof.
  intros Hx. unfold perform, isInTransaction. rewrite Hx, initializeAll_all. cbn zeta.
  pose proof (init_all_length (transactionWrappers x) s) as Hl. destruct (init_all _ s) as [us s1]. cbn [fst app] in *.
  destruct (first_throw us) as [[]|y]; [destruct (method s1) as [c s2]|]; rewrite closeAll_all by done;
    destruct (close_all _ _) as [cs s3]; [|by destruct (first_throw cs)].
  destruct c as [v|y]; by destruct (first_throw cs) as [[]|y'].
Qed.

(** Two wrappers that log their calls, the first of which throws when it is
    closed, and a method that logs too. *)
Definition logging (n : Z) (bad : bool) : wrapper (list Z) Z :=
  Wrapper (Some (fun s => (Ok n, s ++ [n]))) (Some (fun d s => (if bad then Throw TypeError else Ok tt, s ++ [default 0 d + 10]))).

Lemma perform_correct_witness :
  perform (reinitializeTransaction [logging 1 true; logging 2 false]) (fun s => (Ok true, s ++ [5])) []
    = (Throw TypeError, Transaction [logging 1 true; logging 2 false] [] false, [1; 2; 5; 11; 12]).
Proof. exact (perform_correct (reinitializeTransaction [logging 1 true; logging 2 false]) (fun s => (Ok true, s ++ [5])) [] eq_refl). Defined.
