(* ===== verification/Ruler.v ===== *)
(** * Rule chains of the Markdown parser

    The [Ruler] of remarkable (module 47 of swagger-ui-bundle.js): an ordered
    list of named rules that can be replaced, inserted, enabled and disabled,
    and a cache of the chains of enabled rules, compiled when a chain is asked
    for.  The names of chains are own properties of the cache: names that
    [Object.prototype] has are not modelled. *)

From stdpp Require Import strings sets.
From S2P Require Import Prelude JsObj.
Local Open Scope Z_scope.

Section Ruler.
Context {F : Type}.

Record rule : Type := Rule { name : string; enabled : bool; fn : F; alt : list string }.

Record ruler : Type := MkRuler {
  __rules__ : list rule;
  __cache__ : option (list (string * list F))
}.

Definition new_ruler : ruler := MkRuler [] None.

Fixpoint find_loop (l : list rule) (n : Z) (e : string) : Z :=
  match l with [] => -1 | r :: l => if decide (name r = e) then n else find_loop l (n + 1) e end.

(** [__find__] *)
Definition __find__ (r : ruler) (e : string) : Z := find_loop (__rules__ r) 0 e.

(** The names of the chains, as [__compile__] collects them. *)
Definition chain_names (rules : list rule) : list string :=
  fold_left (fun t e =>
    if enabled e then fold_left (fun t e => if bool_decide (e ∈ t) then t else t ++ [e]) (alt e) t else t) rules [""%string].

(** [__compile__]: [push] on the array of each chain. *)
Definition __compile__ (r : ruler) : ruler :=
  MkRuler (__rules__ r) (Some (fold_left (fun cache t =>
    obj_set cache t (fold_left (fun l n =>
      if enabled n then if negb (bool_decide (t = ""%string)) && negb (bool_decide (t ∈ alt n)) then l else l ++ [fn n]
      else l) (__rules__ r) [])) (chain_names (__rules__ r)) [])).

Definition change_rule (rules : list rule) (i : Z) (f : rule -> rule) : list rule := alter f (Z.to_nat i) rules.

Definition splice (rules : list rule) (i : Z) (r : rule) : list rule := take (Z.to_nat i) rules ++ r :: drop (Z.to_nat i) rules.

(** [at]; the options are their [alt], an empty array if absent. *)
Definition at_rule (r : ruler) (e : string) (t : F) (n : list string) : js unit * ruler :=
  let i := __find__ r e in
  if i =? -1 then (Throw Error_, r)
  else (Ok tt, MkRuler (change_rule (__rules__ r) i (fun x => Rule (name x) (enabled x) t n)) None).

Definition before (r : ruler) (e t : string) (n : F) (a : list string) : js unit * ruler :=
  let o := __find__ r e in
  if o =? -1 then (Throw Error_, r) else (Ok tt, MkRuler (splice (__rules__ r) o (Rule t true n a)) None).

Definition after (r : ruler) (e t : string) (n : F) (a : list string) : js unit * ruler :=
  let o := __find__ r e in
  if o =? -1 then (Throw Error_, r) else (Ok tt, MkRuler (splice (__rules__ r) (o + 1) (Rule t true n a)) None).

Definition push_rule (r : ruler) (e : string) (t : F) (n : list string) : ruler :=
  MkRuler (__rules__ r ++ [Rule e true t n]) None.

Definition set_enabled (b : bool) (x : rule) : rule := Rule (name x) b (fn x) (alt x).

(** The loop of [enable] and [disable], which stops at a name it does not find. *)
Fixpoint set_each (b : bool) (names : list string) (r : ruler) : js unit * ruler :=
  match names with
  | [] => (Ok tt, r)
  | e :: names =>
      let t := __find__ r e in
      if t <? 0 then (Throw Error_, r)
      else set_each b names (MkRuler (change_rule (__rules__ r) t (set_enabled b)) (__cache__ r))
  end.

Definition enable (r : ruler) (e : list string) (t : bool) : js unit * ruler :=
  let r := if t then MkRuler (set_enabled false <$> __rules__ r) (__cache__ r) else r in
  match set_each true e r with
  | (Ok _, r) => (Ok tt, MkRuler (__rules__ r) None)
  | (Throw x, r) => (Throw x, r)
  end.

Definition disable (r : ruler) (e : list string) : js unit * ruler :=
  match set_each false e r with
  | (Ok _, r) => (Ok tt, MkRuler (__rules__ r) None)
  | (Throw x, r) => (Throw x, r)
  end.

Definition getRules (r : ruler) (e : string) : list F * ruler :=
  let r := match __cache__ r with None => __compile__ r | Some _ => r end in
  (default [] (obj_get (default [] (__cache__ r)) e), r).

(** ** The chains *)

(** The functions of the enabled rules of a chain, in the order of the rules. *)
Definition in_chain (e : string) (x : rule) : bool := enabled x && (bool_decide (e = ""%string) || bool_decide (e ∈ alt x)).

Definition chain (rules : list rule) (e : string) : list F := fn <$> List.filter (in_chain e) rules.

Definition coherent (r : ruler) : Prop :=
  match __cache__ r with None => True | Some c => forall e, default [] (obj_get c e) = chain (__rules__ r) e end.

Lemma compile_chain rules t : forall l,
  fold_left (fun l n =>
      if enabled n then if negb (bool_decide (t = ""%string)) && negb (bool_decide (t ∈ alt n)) then l else l ++ [fn n]
      else l) rules l = l ++ chain rules t.
Proof.
  unfold chain. induction rules as [|x rules IH]; intros l; cbn [fold_left List.filter fmap list_fmap]; [by rewrite app_nil_r|].
  rewrite IH. unfold in_chain at 2. destruct (enabled x); cbn [andb]; [|done].
  rewrite <- negb_orb. destruct (bool_decide _ || _); cbn [negb fmap list_fmap]; by rewrite <- ?app_assoc.
Qed.

Lemma add_names_elem (l : list string) : forall (t : list string) e,
  e ∈ fold_left (fun t e => if bool_decide (e ∈ t) then t else t ++ [e]) l t <-> e ∈ t \/ e ∈ l.
Proof.
  induction l as [|x l IH]; intros t e; cbn [fold_left]; [set_solver|]. rewrite IH. case_bool_decide; set_solver.
Qed.

Lemma chain_names_elem rules e :
  e ∈ chain_names rules <-> e = ""%string \/ exists x, x ∈ rules /\ enabled x = true /\ e ∈ alt x.
Proof.
  unfold chain_names. enough (forall t, e ∈ fold_left (fun t e =>
    if enabled e then fold_left (fun t e => if bool_decide (e ∈ t) then t else t ++ [e]) (alt e) t else t) rules t
      <-> e ∈ t \/ exists x, x ∈ rules /\ enabled x = true /\ e ∈ alt x) as -> by set_solver.
  induction rules as [|x rules IH]; intros t; cbn [fold_left]; [set_solver|]. rewrite IH.
  assert ((exists y, y ∈ x :: rules /\ enabled y = true /\ e ∈ alt y)
    <-> (enabled x = true /\ e ∈ alt x) \/ exists y, y ∈ rules /\ enabled y = true /\ e ∈ alt y) as ->.
  { split; [intros (y & [->|]%elem_of_cons & ?); eauto|]. intros [|(y & ? & ?)]; [exists x|exists y]; by rewrite elem_of_cons; auto. }
  destruct (enabled x) eqn:Hx; [rewrite add_names_elem|]; intuition congruence.
Qed.

Lemma compile_cache {A} (f : string -> A) names : forall c e,
  obj_get (fold_left (fun c t => obj_set c t (f t)) names c) e = if decide (e ∈ names) then Some (f e) else obj_get c e.
Proof.
  induction names as [|t names IH]; intros c e; cbn [fold_left]; [done|]. rewrite IH, obj_get_set.
  destruct (decide (e ∈ names)), (decide (e = t)) as [->|Ht]; try (rewrite decide_True by set_solver; done).
  by rewrite decide_False by set_solver.
Qed.

Lemma compile_coherent r : coherent (__compile__ r).
Proof.
  unfold coherent, __compile__. cbn [__cache__ __rules__]. intros e.
  rewrite (compile_cache (fun t => _)), compile_chain. cbn [app obj_get].
  destruct (decide _) as [He|He]; [done|]. rewrite chain_names_elem in He. cbn [default].
  unfold chain. destruct (List.filter (in_chain e) (__rules__ r)) as [|x l] eqn:Hf; [done|]. exfalso.
  assert (In x (List.filter (in_chain e) (__rules__ r))) as Hx by (rewrite Hf; by left). apply filter_In in Hx as [Hx Hc].
  unfold in_chain in Hc. apply andb_true_iff in Hc as [Hen Hc]. rewrite orb_true_iff, !bool_decide_eq_true in Hc.
  apply He. destruct Hc as [->|Hc]; [by left|right]. exists x. by rewrite list_elem_of_In.
Qed.

Lemma getRules_chain r e : coherent r -> fst (getRules r e) = chain (__rules__ r) e /\ coherent (snd (getRules r e)) /\ __rules__ (snd (getRules r e)) = __rules__ r.
Proof.
  intros Hr. unfold getRules. destruct (__cache__ r) as [c|] eqn:Hc; cbn [fst snd].
  - rewrite Hc. unfold coherent in Hr. rewrite Hc in Hr. cbn [default]. split; [apply Hr|]. unfold coherent. by rewrite Hc.
  - pose proof (compile_coherent r) as H. split; [apply H|]. by split.
Qed.

(** ** The operations on the list of rules *)

(** The first rule of a name, with the rules around it. *)
Lemma find_loop_spec e l : forall n,
  (find_loop l n e = -1 /\ Forall (fun x => name x <> e) l)
  \/ exists a x b, l = a ++ x :: b /\ find_loop l n e = n + Z.of_nat (length a) /\ name x = e /\ Forall (fun x => name x <> e) a.
Proof.
  induction l as [|x l IH]; intros n; cbn [find_loop]; [by left|]. destruct (decide (name x = e)) as [Hx|Hx].
  - right. exists [], x, l. cbn [length app]. split; [done|]. split; [lia|]. done.
  - destruct (IH (n + 1)) as [[-> ?]|(a & y & b & -> & -> & Hy & Ha)]; [by left; auto|].
    right. exists (x :: a), y, b. cbn [length app]. split; [done|]. split; [lia|]. by auto.
Qed.

(** [first e l a x b]: [x] is the first rule of name [e] in [l], after [a]. *)
Definition first_rule (e : string) (l a : list rule) (x : rule) (b : list rule) : Prop :=
  l = a ++ x :: b /\ name x = e /\ Forall (fun x => name x <> e) a.

Lemma __find___spec r e :
  (__find__ r e = -1 /\ Forall (fun x => name x <> e) (__rules__ r))
  \/ exists a x b, first_rule e (__rules__ r) a x b /\ __find__ r e = Z.of_nat (length a).
Proof.
  destruct (find_loop_spec e (__rules__ r) 0) as [H|(a & x & b & Hl & Hf & Hx & Ha)]; [by left|right].
  by exists a, x, b.
Qed.

Lemma change_rule_at a x b f : change_rule (a ++ x :: b) (Z.of_nat (length a)) f = a ++ f x :: b.
Proof. unfold change_rule. rewrite Nat2Z.id. by induction a as [|y a IH]; cbn [app length]; [|rewrite <- IH]. Qed.

Lemma splice_at a b r : splice (a ++ b) (Z.of_nat (length a)) r = a ++ r :: b.
Proof. unfold splice. by rewrite Nat2Z.id, take_app_length, drop_app_length. Qed.

Lemma splice_after a x b r : splice (a ++ x :: b) (Z.of_nat (length a) + 1) r = a ++ x :: r :: b.
Proof.
  change (a ++ x :: b) with (a ++ [x] ++ b). rewrite app_assoc.
  replace (Z.of_nat (length a) + 1) with (Z.of_nat (length (a ++ [x]))) by (rewrite length_app; cbn; lia).
  by rewrite splice_at, <- app_assoc.
Qed.

(** What an operation on the first rule of a name does. *)
Definition edits (e : string) (r : ruler) (res : js unit * ruler) (f : list rule -> rule -> list rule -> list rule) : Prop :=
  match fst res with
  | Throw _ => snd res = r /\ Forall (fun x => name x <> e) (__rules__ r)
  | Ok _ => exists a x b, first_rule e (__rules__ r) a x b /\ snd res = MkRuler (f a x b) None
  end.

Lemma at_edits r e t n : edits e r (at_rule r e t n) (fun a x b => a ++ Rule e (enabled x) t n :: b).
Proof.
  unfold edits, at_rule. destruct (__find___spec r e) as [[-> H]|(a & x & b & Hl & ->)]; [done|].
  destruct (Z.eqb_spec (Z.of_nat (length a)) (-1)); [lia|]. cbn [fst snd]. exists a, x, b. split; [done|].
  destruct Hl as (-> & <- & _). by rewrite change_rule_at.
Qed.

Lemma before_edits r e t n l : edits e r (before r e t n l) (fun a x b => a ++ Rule t true n l :: x :: b).
Proof.
  unfold edits, before. destruct (__find___spec r e) as [[-> H]|(a & x & b & Hl & ->)]; [done|].
  destruct (Z.eqb_spec (Z.of_nat (length a)) (-1)); [lia|]. cbn [fst snd]. exists a, x, b. split; [done|].
  destruct Hl as (-> & <- & _). by rewrite splice_at.
Qed.

Lemma after_edits r e t n l : edits e r (after r e t n l) (fun a x b => a ++ x :: Rule t true n l :: b).
Proof.
  unfold edits, after. destruct (__find___spec r e) as [[-> H]|(a & x & b & Hl & ->)]; [done|].
  destruct (Z.eqb_spec (Z.of_nat (length a)) (-1)); [lia|]. cbn [fst snd]. exists a, x, b. split; [done|].
  destruct Hl as (-> & <- & _). by rewrite splice_after.
Qed.

Lemma edits_coherent e r res f : coherent r -> edits e r res f -> coherent (snd res).
Proof. unfold edits. destruct (fst res); [intros _ (? & ? & ? & _ & ->)|intros ? [-> _]]; done. Qed.

(** ** Enabling and disabling *)

Definition switched (b : bool) (names : list string) (x : rule) : rule :=
  if decide (name x ∈ names) then set_enabled b x else x.

Lemma set_each_names b names : forall r,
  (forall x, x ∈ names -> x ∈ (name <$> __rules__ r)) -> NoDup (name <$> __rules__ r) ->
  set_each b names r = (Ok tt, MkRuler (switched b names <$> __rules__ r) (__cache__ r)).
Proof.
  induction names as [|e names IH]; intros [rules c] Hin Hnd; cbn [set_each __rules__ __cache__] in *.
  { f_equal. f_equal. symmetry. rewrite <- (list_fmap_id rules) at 2. apply list_fmap_ext. intros i x _. done. }
  destruct (__find___spec (MkRuler rules c) e) as [[-> H]|(a & x & y & Hl & ->)].
  { exfalso. specialize (Hin e ltac:(set_solver)). apply list_elem_of_fmap in Hin as (x & -> & Hx).
    by rewrite Forall_forall in H; apply (H x). }
  destruct (Z.ltb_spec (Z.of_nat (length a)) 0); [lia|]. destruct Hl as (Hl & Hx & Ha). cbn [__rules__] in Hl. subst rules.
  rewrite change_rule_at. cbn [__cache__]. rewrite IH; cbn [__rules__ __cache__].
  - f_equal. f_equal. rewrite !fmap_app, !fmap_cons in *. apply NoDup_app in Hnd as (_ & Hd & [Hn _]%NoDup_cons).
    assert (forall z, name z <> e -> switched b names z = switched b (e :: names) z) as Hz.
    { intros z Hz. unfold switched. destruct (decide (name z ∈ names)); [rewrite decide_True by set_solver; done|].
      by rewrite decide_False by set_solver. }
    f_equal; [|f_equal].
    + apply list_fmap_ext. intros i z Hi. apply Hz. rewrite Forall_forall in Ha. apply Ha. by apply list_elem_of_lookup_2 in Hi.
    + unfold switched. cbn [name]. rewrite (decide_True (P := name x ∈ e :: names)) by set_solver. by destruct (decide _).
    + apply list_fmap_ext. intros i z Hi. apply Hz. intros Hz'. apply Hn. rewrite Hx, <- Hz'. apply list_elem_of_fmap_2.
      by apply list_elem_of_lookup_2 in Hi.
  - intros z Hz. specialize (Hin z ltac:(set_solver)). by rewrite fmap_app, fmap_cons in *.
  - by rewrite fmap_app, fmap_cons in *.
Qed.

Lemma set_each_missing b names : forall r,
  (exists x, x ∈ names /\ x ∉ (name <$> __rules__ r)) -> exists r', set_each b names r = (Throw Error_, r').
Proof.
  induction names as [|e names IH]; intros r (x & Hx & Hn); [set_solver|]. cbn [set_each].
  destruct (__find___spec r e) as [[-> H]|(a & y & z & Hl & ->)]; [by eexists|].
  destruct (Z.ltb_spec (Z.of_nat (length a)) 0); [lia|]. destruct Hl as (Hl & Hy & _). rewrite Hl in *.
  apply IH. exists x. cbn [__rules__]. rewrite change_rule_at, fmap_app, fmap_cons in *. cbn [name set_enabled]. split; [set_solver|done].
Qed.
End Ruler.
Arguments rule : clear implicits.
Arguments ruler : clear implicits.

Section Enable.
Context {F : Type}.
Implicit Types (r : ruler F).

Lemma enable_names r names only :
  NoDup (name <$> __rules__ r) ->
  enable r names only =
    (if decide (Forall (fun e => e ∈ (name <$> __rules__ r)) names)
     then (Ok tt, MkRuler ((fun x => if decide (name x ∈ names) then set_enabled true x
                                    else if only then set_enabled false x else x) <$> __rules__ r) None)
     else (Throw Error_, snd (enable r names only))).
Proof.
  intros Hnd. unfold enable. set (r1 := if only then _ else r).
  assert (name <$> __rules__ r1 = name <$> __rules__ r) as Hr1.
  { unfold r1. destruct only; [|done]. cbn [__rules__]. by rewrite <- list_fmap_compose. }
  destruct (decide _) as [Hin|Hin].
  - rewrite Forall_forall in Hin. rewrite set_each_names by (by rewrite Hr1). cbn [__rules__ __cache__].
    do 2 f_equal. unfold r1. destruct only; [|done]. cbn [__rules__]. rewrite <- list_fmap_compose. apply list_fmap_ext. intros i x _.
    unfold switched. cbn [compose name set_enabled]. by destruct (decide _).
  - destruct (set_each_missing true names r1) as [r' ->]; [|done]. apply not_Forall_Exists in Hin; [|apply _].
    apply Exists_exists in Hin as (e & He & Hn). exists e. by rewrite Hr1.
Qed.

Lemma disable_names r names :
  NoDup (name <$> __rules__ r) ->
  disable r names =
    (if decide (Forall (fun e => e ∈ (name <$> __rules__ r)) names)
     then (Ok tt, MkRuler (switched false names <$> __rules__ r) None)
     else (Throw Error_, snd (disable r names))).
Proof.
  intros Hnd. unfold disable. destruct (decide _) as [Hin|Hin].
  - rewrite Forall_forall in Hin. by rewrite set_each_names.
  - destruct (set_each_missing false names r) as [r' ->]; [|done]. apply not_Forall_Exists in Hin; [|apply _].
    apply Exists_exists in Hin as (e & He & Hn). by exists e.
Qed.
End Enable.

(** While the cache of a ruler is coherent, [getRules] of a chain gives the
    functions of the enabled rules of the chain, all of them for the chain of
    the empty name, in the order of the rules, and the ruler stays coherent;
    [at], [before] and [after] replace or insert at the first rule of a name,
    or throw and change nothing if there is none; and every operation that
    returns leaves a coherent ruler. *)
Theorem ruler_correct {F} (r : ruler F) (e t : string) (n : F) (l : list string) :
  coherent r ->
  (fst (getRules r e) = fn <$> List.filter (in_chain e) (__rules__ r)
   /\ __rules__ (snd (getRules r e)) = __rules__ r /\ coherent (snd (getRules r e)))
  /\ edits e r (at_rule r e n l) (fun a x b => a ++ Rule e (enabled x) n l :: b)
  /\ edits e r (before r e t n l) (fun a x b => a ++ Rule t true n l :: x :: b)
  /\ edits e r (after r e t n l) (fun a x b => a ++ x :: Rule t true n l :: b)
  /\ coherent (snd (at_rule r e n l)) /\ coherent (snd (before r e t n l)) /\ coherent (snd (after r e t n l))
  /\ coherent (push_rule r e n l)
  /\ (forall names only, fst (enable r names only) = Ok tt -> coherent (snd (enable r names only)))
  /\ (forall names, fst (disable r names) = Ok tt -> coherent (snd (disable r names))).
Proof.
  intros Hr. pose proof (getRules_chain r e Hr) as (Hg & Hc & Hs).
  pose proof (at_edits r e n l) as Ha. pose proof (before_edits r e t n l) as Hb. pose proof (after_edits r e t n l) as Haf.
  split; [done|]. do 3 (split; [done|]). do 3 (split; [eapply (edits_coherent e r); eassumption|]). split; [done|].
  split; intros names; [intros only|]; unfold enable, disable; by destruct (set_each _ _ _) as [[]].
Qed.

Local Open Scope string_scope.

Definition sample_ruler : ruler Z := MkRuler [Rule "code" true 1 []; Rule "fences" true 2 ["paragraph"]; Rule "list" false 3 ["paragraph"]] None.

Lemma ruler_correct_witness : coherent sample_ruler /\ fst (getRules sample_ruler "paragraph") = [2].
Proof.
  split; [done|]. destruct (ruler_correct sample_ruler "paragraph" "x" 5 [] ltac:(done)) as [[-> _] _]. vm_compute. reflexivity.
Defined.

(** With distinct names, [enable] and [disable] switch exactly the rules
    named, [enable] with its flag also disables all others; they throw exactly
    if a name is not the name of a rule. *)
Theorem ruler_switches {F} (r : ruler F) (names : list string) :
  NoDup (name <$> __rules__ r) ->
  (forall only, enable r names only =
    (if decide (Forall (fun e => e ∈ (name <$> __rules__ r)) names)
     then (Ok tt, MkRuler ((fun x => if decide (name x ∈ names) then set_enabled true x
                                    else if only then set_enabled false x else x) <$> __rules__ r) None)
     else (Throw Error_, snd (enable r names only))))
  /\ disable r names =
    (if decide (Forall (fun e => e ∈ (name <$> __rules__ r)) names)
     then (Ok tt, MkRuler ((fun x => if decide (name x ∈ names) then set_enabled false x else x) <$> __rules__ r) None)
     else (Throw Error_, snd (disable r names))).
Proof. intros Hnd. split; [intros only; by apply enable_names|by apply disable_names]. Qed.

Lemma ruler_switches_witness :
  enable sample_ruler ["list"] true = (Ok tt, MkRuler [Rule "code" false 1 []; Rule "fences" false 2 ["paragraph"]; Rule "list" true 3 ["paragraph"]] None).
Proof.
  assert (NoDup (name <$> __rules__ sample_ruler)) as H by (apply (bool_decide_unpack _); vm_compute; exact I).
  rewrite (proj1 (ruler_switches sample_ruler ["list"] H) true). vm_compute. reflexivity.
Defined.

(** A call that throws leaves the cache as it was, and the rules it enabled
    before are not in the chains it holds. *)
Lemma enable_throw_stale :
  let r := snd (getRules sample_ruler "") in
  let '(res, r') := enable r ["list"; "nowhere"] false in
  res = Throw Error_ /\ fst (getRules r' "") = [1; 2] /\ chain (__rules__ r') "" = [1; 2; 3].
Proof. vm_compute. done. Qed.
