(* ===== verification/MdUtils.v ===== *)
(** * Escapes and entities of the Markdown parser

    The string utilities of remarkable (module 27 of swagger-ui-bundle.js):
    [escapeHtml], [replaceEntities] with the named entities and the numeric
    ones, and [unescapeMd].  Strings are lists of UTF-16 code units; the regular
    expressions are written out as the functions that match them. *)

From stdpp Require Import strings.
From S2P Require Import Prelude JsObj BufText BufTextFacts Entities.
Local Open Scope Z_scope.
Local Open Scope js_scope.

(** ** Characters *)

Definition is_digit (c : Z) : bool := (48 <=? c) && (c <=? 57).
Definition is_alpha (c : Z) : bool := (65 <=? c) && (c <=? 90) || (97 <=? c) && (c <=? 122).
Definition is_alnum (c : Z) : bool := is_alpha c || is_digit c.

(** The class of the expression [i]: the punctuation of ASCII. *)
Definition is_punct (c : Z) : bool :=
  (33 <=? c) && (c <=? 47) || (58 <=? c) && (c <=? 64) || (91 <=? c) && (c <=? 96) || (123 <=? c) && (c <=? 126).

(** [e.replace] with [i]: a backslash before punctuation goes. *)
Fixpoint replace_escapes (s : list Z) : list Z :=
  match s with
  | 92 :: t =>
      match t with
      | x :: t' => if is_punct x then x :: replace_escapes t' else 92 :: replace_escapes t
      | [] => [92]
      end
  | c :: t => c :: replace_escapes t
  | [] => []
  end.

Definition unescapeMd (e : list Z) : list Z := if existsb (Z.eqb 92) e then replace_escapes e else e.

(** ** Entities *)

(** [a]; [None] is NaN, every comparison with which is false. *)
Definition isValidEntityCode (e : option Z) : bool :=
  match e with
  | None => true
  | Some e =>
      negb ((e >=? 55296) && (e <=? 57343))
      && (negb ((e >=? 64976) && (e <=? 65007))
      && (negb (65535 =? (65535 .& e)) && negb (65534 =? (65535 .& e))
      && (negb ((e >=? 0) && (e <=? 8))
      && (negb (11 =? e)
      && (negb ((e >=? 14) && (e <=? 31))
      && (negb ((e >=? 127) && (e <=? 159)) && negb (e >? 1114111)))))))
  end.

(** [u]: [String.fromCharCode] of the code or of its surrogates. *)
Definition fromCodePoint (e : option Z) : list Z :=
  match e with
  | None => [0]
  | Some e =>
      if e >? 65535 then let e := e - 65536 in [55296 + (e >>. 10); 56320 + (1023 .& e)]
      else [e]
  end.

(** The longest prefix of letters and digits, of at most [n] characters. *)
Fixpoint alnum_prefix (n : nat) (s : list Z) : list Z :=
  match n, s with
  | S n, c :: s => if is_alnum c then c :: alnum_prefix n s else []
  | _, _ => []
  end.

(** [/&([a-z#][a-z0-9]{1,31});/gi] after the ampersand: the group, if it
    matches.  A semicolon is not in the class, so the repetition matches all
    it can or the expression fails. *)
Definition entity_at (s : list Z) : option (list Z) :=
  match s with
  | c :: s =>
      if is_alpha c || (c =? 35) then
        let w := alnum_prefix 31 s in
        match w, drop (length w) s with
        | _ :: _, y :: _ => if y =? 59 then Some (c :: w) else None
        | _, _ => None
        end
      else None
  | [] => None
  end.

Definition is_x (c : Z) : bool := (c =? 120) || (c =? 88).

(** [/^#((?:x[a-f0-9]{1,8}|[0-9]{1,8}))/i], which does not ask for the end. *)
Definition numeric_test (t : list Z) : bool :=
  match t with
  | 35 :: c :: r =>
      is_digit c || is_x c && match r with d :: _ => match hex_value d with Some _ => true | None => false end | [] => false end
  | _ => false
  end.

(** [parseInt(s, 10)] of a string without white space and signs. *)
Fixpoint dec_digits (s : list Z) : list Z :=
  match s with c :: s => if is_digit c then c - 48 :: dec_digits s else [] | [] => [] end.

Definition parseInt10 (s : list Z) : option Z :=
  match dec_digits s with [] => None | ds => Some (fold_left (fun v d => 10 * v + d) ds 0) end.

(** [f]: the replacement of a match [e] with group [t]. *)
Definition replaceEntityPattern (e t : list Z) : list Z :=
  match obj_get entities t with
  | Some v => v
  | None =>
      if numeric_test t then
        let n := match t with
                 | _ :: c :: _ => if is_x c then parseInt16 (drop 2 t) else parseInt10 (drop 1 t)
                 | _ => None
                 end in
        if isValidEntityCode n then fromCodePoint n else e
      else e
  end.

(** [e.replace(s, f)]: [skip] characters of a match are still to be passed. *)
Fixpoint replace_entities (s : list Z) (skip : nat) : list Z :=
  match s with
  | [] => []
  | c :: s =>
      match skip with
      | S k => replace_entities s k
      | O =>
          match (if c =? 38 then entity_at s else None) with
          | Some t => replaceEntityPattern (38 :: t ++ [59]) t ++ replace_entities s (length t + 1)
          | None => c :: replace_entities s 0
          end
      end
  end.

Definition replaceEntities (e : list Z) : list Z := if existsb (Z.eqb 38) e then replace_entities e 0 else e.

(** ** Escaping *)

(** [h] and [v] *)
Definition html_replacement (c : Z) : option (list Z) :=
  if c =? 38 then Some (ascii_units "&amp;"%string)
  else if c =? 60 then Some (ascii_units "&lt;"%string)
  else if c =? 62 then Some (ascii_units "&gt;"%string)
  else if c =? 34 then Some (ascii_units "&quot;"%string)
  else None.

Definition is_html (c : Z) : bool := match html_replacement c with Some _ => true | None => false end.

Definition escapeHtml (e : list Z) : list Z :=
  if existsb is_html e then concat (map (fun c => default [c] (html_replacement c)) e) else e.

(** ** Facts *)

Lemma replace_entities_skip a : forall s, replace_entities (a ++ s) (length a) = replace_entities s 0.
Proof. induction a as [|x a IH]; intros s; [done|]. cbn [app length replace_entities]. apply IH. Qed.

Lemma no_char_id (c : Z) f s :
  (forall c' s, c' <> c -> f (c' :: s) = c' :: f s) -> f [] = [] -> existsb (Z.eqb c) s = false -> f s = s.
Proof.
  intros Hf Hn. induction s as [|x s IH]; cbn [existsb]; [done|]. intros [Hx Hs]%orb_false_iff.
  apply Z.eqb_neq in Hx. rewrite Hf by congruence. f_equal. by apply IH.
Qed.

Lemma replaceEntities_all s : replaceEntities s = replace_entities s 0.
Proof.
  unfold replaceEntities. destruct (existsb _ s) eqn:Hs; [done|]. symmetry.
  apply (no_char_id 38 (fun s => replace_entities s 0)); [|done..]. intros c t Hc. cbn [replace_entities]. by apply Z.eqb_neq in Hc as ->.
Qed.

Lemma escapeHtml_all s : escapeHtml s = concat (map (fun c => default [c] (html_replacement c)) s).
Proof.
  unfold escapeHtml. destruct (existsb is_html s) eqn:Hs; [done|]. induction s as [|x s IH]; [done|].
  cbn [existsb map concat] in *. apply orb_false_iff in Hs as [Hx Hs]. unfold is_html in Hx. destruct (html_replacement x); [done|].
  cbn [default app]. f_equal. by apply IH.
Qed.

Lemma alnum_prefix_app n w s :
  forallb is_alnum w = true -> (length w <= n)%nat -> (match s with c :: _ => is_alnum c = false | [] => True end) ->
  alnum_prefix n (w ++ s) = w.
Proof.
  revert n. induction w as [|c w IH]; intros n Hw Hn Hs.
  - cbn [app]. destruct n, s as [|c s]; try done. cbn [alnum_prefix]. by rewrite Hs.
  - cbn [forallb] in Hw. apply andb_true_iff in Hw as [Hc Hw]. destruct n as [|n]; [cbn in Hn; lia|].
    cbn [app alnum_prefix]. rewrite Hc. f_equal. apply IH; [done|cbn in Hn; lia|done].
Qed.

(** The names the expression matches. *)
Definition entity_name (t : list Z) : bool :=
  match t with
  | c :: w => (is_alpha c || (c =? 35)) && forallb is_alnum w && (1 <=? length w)%nat && (length w <=? 31)%nat
  | [] => false
  end.

Lemma entity_at_name t s : entity_name t = true -> entity_at (t ++ 59 :: s) = Some t.
Proof.
  destruct t as [|c w]; [done|]. cbn [entity_name app entity_at]. rewrite !andb_true_iff, !Nat.leb_le.
  intros [[[Hc Hw] H1] H2]. rewrite Hc, alnum_prefix_app by done. cbn zeta.
  destruct w as [|x w]; [cbn in H1; lia|]. by rewrite drop_app_length.
Qed.

Lemma alnum_prefix_spec n s : let w := alnum_prefix n s in
  s = w ++ drop (length w) s /\ forallb is_alnum w = true /\ (length w <= n)%nat.
Proof.
  revert s. induction n as [|n IH]; intros s; [cbn; repeat split; lia|]. destruct s as [|c s]; [cbn; repeat split; lia|].
  cbn [alnum_prefix]. destruct (is_alnum c) eqn:Hc; [|cbn; repeat split; lia]. destruct (IH s) as (Hs & Hw & Hl).
  cbn [app length drop forallb]. rewrite Hc. split; [by f_equal|]. split; [done|lia].
Qed.

Lemma entity_at_inv s t : entity_at s = Some t -> entity_name t = true /\ exists s', s = t ++ 59 :: s'.
Proof.
  destruct s as [|c s]; [done|]. cbn [entity_at]. destruct (is_alpha c || (c =? 35)) eqn:Hc; [|done].
  destruct (alnum_prefix_spec 31 s) as (Hs & Hw & Hl). destruct (alnum_prefix 31 s) as [|x w] eqn:Ew; [done|].
  destruct (drop (length (x :: w)) s) as [|y s'] eqn:Ed; [done|].
  destruct (Z.eqb_spec y 59) as [->|Hy]; [|done].
  intros [= <-]. split; [|exists s'; cbn [app] in *; by rewrite Hs].
  cbn [entity_name]. rewrite Hc, Hw. by rewrite (proj2 (Nat.leb_le _ _) Hl).
Qed.

Lemma replace_entities_match t s : entity_name t = true ->
  replace_entities (38 :: t ++ 59 :: s) 0 = replaceEntityPattern (38 :: t ++ [59]) t ++ replace_entities s 0.
Proof.
  intros Ht. cbn [replace_entities]. rewrite Z.eqb_refl, entity_at_name by done. f_equal.
  replace (length t + 1)%nat with (length (t ++ [59])) by (rewrite length_app; done).
  change (t ++ 59 :: s) with (t ++ [59] ++ s). rewrite app_assoc. apply replace_entities_skip.
Qed.

Lemma replace_entities_plain a s : existsb (Z.eqb 38) a = false -> replace_entities (a ++ s) 0 = a ++ replace_entities s 0.
Proof.
  induction a as [|c a IH]; [done|]. cbn [existsb app replace_entities]. intros [Hc Ha]%orb_false_iff.
  rewrite (Z.eqb_sym c), Hc. f_equal. by apply IH.
Qed.
