(* ===== verification/MdUtilsFacts.v ===== *)
(** * Escapes and entities: theorems *)

From stdpp Require Import strings sorting.
From S2P Require Import Prelude JsObj BufText BufTextFacts Entities MdUtils.
Local Open Scope Z_scope.
Local Open Scope js_scope.

(** ** The table *)

(** A name as a number, to sort the names. *)
Definition name_number (s : list Z) : Z := fold_left (fun v c => 256 * v + c) s 1.

Definition strictly_sorted (l : list Z) : bool :=
  match l with [] => true | x :: l => fst (fold_left (fun '(b, x) y => (b && (x <? y), y)) l (true, x)) end.

Lemma strictly_sorted_NoDup l : strictly_sorted l = true -> NoDup l.
Proof.
  destruct l as [|x l]; cbn [strictly_sorted]; [constructor|].
  assert (forall l b x, fst (fold_left (fun '(b, x) y => (b && (x <? y), y)) l (b, x)) = true ->
            b = true /\ Forall (fun y => x < y) l /\ NoDup l) as H.
  { clear. induction l as [|y l IH]; intros b x; cbn [fold_left fst]; [by repeat constructor|].
    intros (Hb & Hl & Hn)%IH. apply andb_true_iff in Hb as [-> Hx]. apply Z.ltb_lt in Hx. split; [done|]. split.
    - constructor; [done|]. eapply Forall_impl; [done|]. cbn. lia.
    - constructor; [|done]. intros Hy. rewrite Forall_forall in Hl. specialize (Hl y Hy). lia. }
  intros (_ & Hl & Hn)%H. constructor; [|done]. intros Hx. rewrite Forall_forall in Hl. specialize (Hl x Hx). lia.
Qed.

Definition sorted_numbers (o : list (list Z * list Z)) : list Z := merge_sort Z.le (map (fun e => name_number (fst e)) o).

Lemma sorted_numbers_wf o : strictly_sorted (sorted_numbers o) = true -> obj_wf o.
Proof.
  intros H%strictly_sorted_NoDup. unfold sorted_numbers in H. rewrite merge_sort_Permutation in H. unfold obj_wf, obj_keys.
  apply (NoDup_fmap_1 name_number). by rewrite <- list_fmap_compose.
Qed.

Lemma entities_wf : obj_wf entities.
Proof. apply sorted_numbers_wf. vm_compute. reflexivity. Qed.

(** Well-formed UTF-16. *)
Definition wellformed (s : list Z) : Prop := exists cs, Forall scalar cs /\ s = utf16s cs.

Definition is_scalar (c : Z) : bool := (0 <=? c) && (c <? 1114112) && ((c <? 55296) || (57343 <? c)).

(** The code points of a string, as far as it is well formed. *)
Fixpoint points (s : list Z) : list Z :=
  match s with
  | [] => []
  | a :: s =>
      if (55296 <=? a) && (a <=? 56319) then
        match s with b :: s => 65536 + (a - 55296) * 1024 + (b - 56320) :: points s | [] => [-1] end
      else a :: points s
  end.

Definition wellformedb (s : list Z) : bool := forallb is_scalar (points s) && bool_decide (utf16s (points s) = s).

Lemma is_scalar_spec c : is_scalar c = true <-> scalar c.
Proof. unfold is_scalar, scalar, isPoint. rewrite !andb_true_iff, orb_true_iff, !Z.ltb_lt, Z.leb_le. tauto. Qed.

Lemma wellformedb_sound s : wellformedb s = true -> wellformed s.
Proof.
  unfold wellformedb. rewrite andb_true_iff, bool_decide_eq_true. intros [Hc Hs]. exists (points s). split; [|done].
  rewrite Forall_forall. intros c Hin. apply is_scalar_spec. rewrite forallb_forall in Hc. apply Hc. by apply list_elem_of_In.
Qed.

(** Every name is one the expression matches and does not begin with a number
    sign; every value is well formed. *)
Definition entry_ok (e : list Z * list Z) : bool :=
  entity_name (fst e) && match fst e with c :: _ => is_alpha c | [] => false end && wellformedb (snd e).

Lemma entities_ok e : In e entities -> entry_ok e = true.
Proof. revert e. apply forallb_forall. vm_compute. reflexivity. Qed.

Lemma entities_hash t : obj_get entities (35 :: t) = None.
Proof.
  destruct (obj_get entities (35 :: t)) as [v|] eqn:H; [|done]. apply obj_get_Some, entities_ok in H.
  unfold entry_ok in H. cbn [fst] in H. by rewrite andb_false_r in H.
Qed.

Lemma entities_get k v : In (k, v) entities -> obj_get entities k = Some v.
Proof. apply obj_get_elem, entities_wf. Qed.

(** ** Numeric entities *)

Lemma fromCodePoint_utf16 n : isPoint n -> fromCodePoint (Some n) = utf16 n.
Proof.
  unfold isPoint. intros Hn. cbn [fromCodePoint]. unfold utf16. destruct (Z.gtb_spec n 65535); [|done]. cbn zeta.
  rewrite js_and_comm. change 1023 with (2 ^ 10 - 1). rewrite js_and_ones by lia. unfold js_shr. rewrite i32_small by lia.
  rewrite Z.shiftr_div_pow2 by done. done.
Qed.

Lemma valid_scalar n : 0 <= n -> isValidEntityCode (Some n) = true -> scalar n.
Proof.
  intros Hn. cbn [isValidEntityCode]. rewrite !andb_true_iff, !negb_true_iff.
  intros (Hs & _ & _ & _ & _ & _ & _ & Hm). apply Z.gtb_ltb in Hm || rewrite Z.gtb_ltb, Z.ltb_ge in Hm.
  rewrite andb_false_iff, Z.geb_leb, !Z.leb_gt in Hs. unfold scalar, isPoint. lia.
Qed.

Lemma fold_digits_nonneg b ds : 0 <= b -> Forall (fun d => 0 <= d) ds -> forall v, 0 <= v -> 0 <= fold_left (fun v d => b * v + d) ds v.
Proof. intros Hb. induction 1 as [|d ds Hd _ IH]; intros v Hv; [done|]. apply IH. nia. Qed.

Lemma dec_digits_nonneg s : Forall (fun d => 0 <= d) (dec_digits s).
Proof.
  induction s as [|c s IH]; cbn [dec_digits]; [done|]. destruct (is_digit c) eqn:Hc; [|done]. constructor; [|done].
  unfold is_digit in Hc. apply andb_true_iff in Hc as [Hc%Z.leb_le _]. lia.
Qed.

Lemma hex_digits_nonneg s : Forall (fun d => 0 <= d) (hex_digits s).
Proof.
  induction s as [|c s IH]; cbn [hex_digits]; [done|]. destruct (hex_value c) as [d|] eqn:Hc; [|done]. constructor; [|done].
  unfold hex_value in Hc. repeat case_match; simplify_eq; rewrite ?andb_true_iff, ?Z.leb_le in *; lia.
Qed.

Lemma parseInt10_nonneg s n : parseInt10 s = Some n -> 0 <= n.
Proof.
  unfold parseInt10. destruct (dec_digits s) as [|d ds] eqn:Hd; [done|]. intros [= <-].
  apply (fold_digits_nonneg 10 (d :: ds)); [lia| |lia]. rewrite <- Hd. apply dec_digits_nonneg.
Qed.

Lemma alnum_range c : is_alnum c = true -> 48 <= c <= 122.
Proof.
  unfold is_alnum, is_alpha, is_digit. rewrite !orb_true_iff, !andb_true_iff, !Z.leb_le. lia.
Qed.

Lemma trimStart_alnum s : forallb is_alnum s = true -> trimStart s = s.
Proof.
  destruct s as [|c s]; [done|]. cbn [forallb trimStart]. intros [Hc%alnum_range _]%andb_true_iff.
  enough (isSpace c = false) as -> by done. unfold isSpace. rewrite !orb_false_iff, !andb_false_iff, !Z.eqb_neq, !Z.leb_gt. lia.
Qed.

Definition strip_0x (s : list Z) : list Z := match s with 48 :: x :: s' => if is_x x then s' else s | _ => s end.

(** [parseInt(s, 16)] of letters and digits: no sign and no white space. *)
Lemma parseInt16_alnum s : forallb is_alnum s = true ->
  parseInt16 s =
    match hex_digits (strip_0x s) with
    | [] => None
    | ds => Some (fold_left (fun v d => 16 * v + d) ds 0)
    end.
Proof.
  intros Hs. unfold parseInt16. rewrite trimStart_alnum by done.
  replace (match s with 45 :: s' => (-1, s') | 43 :: s' => (1, s') | _ => (1, s) end) with (1, s).
  2:{ destruct s as [|c s]; [done|]. cbn [forallb] in Hs. apply andb_true_iff in Hs as [Hc%alnum_range _].
      destruct c as [|c|c]; try lia. do 6 (destruct c as [c|c|]; try lia; try done). }
  unfold strip_0x, is_x. destruct (hex_digits _) as [|d ds]; [done|]. by rewrite Z.mul_1_l.
Qed.

Lemma parseInt16_nonneg s n : forallb is_alnum s = true -> parseInt16 s = Some n -> 0 <= n.
Proof.
  intros Hs. rewrite parseInt16_alnum by done. destruct (hex_digits _) as [|d ds] eqn:Hd; [done|]. intros [= <-].
  apply (fold_digits_nonneg 16 (d :: ds)); [lia| |lia]. rewrite <- Hd. apply hex_digits_nonneg.
Qed.

(** ** Well-formed strings *)

Lemma wellformed_app a b : wellformed a -> wellformed b -> wellformed (a ++ b).
Proof.
  intros (ca & Ha & ->) (cb & Hb & ->). exists (ca ++ cb). split; [by apply Forall_app|].
  unfold utf16s. by rewrite map_app, concat_app.
Qed.

Lemma wellformed_point n : scalar n -> wellformed (utf16 n).
Proof. intros Hn. exists [n]. split; [by constructor|]. unfold utf16s. cbn. by rewrite app_nil_r. Qed.

Lemma wellformed_nil : wellformed [].
Proof. by exists []. Qed.

Lemma wellformed_ascii s : Forall (fun c => 0 <= c < 128) s -> wellformed s.
Proof.
  induction 1 as [|c s Hc _ IH]; [apply wellformed_nil|]. apply (wellformed_app [c]); [|done].
  replace [c] with (utf16 c); [apply wellformed_point; unfold scalar, isPoint; lia|].
  unfold utf16. destruct (Z.gtb_spec c 65535); [lia|done].
Qed.

Lemma wellformed_cons s : wellformed s -> s = [] \/ exists c s', scalar c /\ s = utf16 c ++ s' /\ wellformed s'.
Proof.
  intros ([|c cs] & Hcs & ->); [by left|right]. apply Forall_cons in Hcs as [Hc Hcs].
  exists c, (utf16s cs). split; [done|]. split; [done|]. by exists cs.
Qed.

Lemma utf16_head c c' s s' : scalar c -> 0 <= c' < 128 -> utf16 c ++ s = c' :: s' -> c = c' /\ s = s'.
Proof.
  unfold scalar, isPoint. intros Hc Hc'. unfold utf16. destruct (Z.gtb_spec c 65535); cbn [app]; intros [= H1 H2]; [|done].
  pose proof (Z.div_pos (c - 65536) 1024). lia.
Qed.

Lemma wellformed_after a s : Forall (fun c => 0 <= c < 128) a -> wellformed (a ++ s) -> wellformed s.
Proof.
  induction 1 as [|c a Hc _ IH]; [done|]. intros H. apply IH. apply wellformed_cons in H as [H|(c' & s' & Hc' & Hs & Hw)]; [done|].
  symmetry in Hs. apply utf16_head in Hs as [_ ->]; done.
Qed.

Lemma entity_name_ascii t : entity_name t = true -> Forall (fun c => 0 <= c < 128) t.
Proof.
  destruct t as [|c w]; [done|]. cbn [entity_name]. rewrite !andb_true_iff. intros [[[Hc Hw] _] _]. constructor.
  - apply orb_true_iff in Hc as [Hc|Hc%Z.eqb_eq]; [|lia]. pose proof (alnum_range c) as H. unfold is_alnum in H. rewrite Hc in H.
    specialize (H eq_refl). lia.
  - rewrite Forall_forall. intros x Hx. apply list_elem_of_In in Hx. rewrite forallb_forall in Hw. apply Hw, alnum_range in Hx. lia.
Qed.

Lemma entity_name_alnum t : entity_name t = true -> forallb is_alnum (drop 1 t) = true.
Proof. destruct t as [|c w]; [done|]. cbn [entity_name drop]. rewrite !andb_true_iff. tauto. Qed.

Lemma forallb_drop {A} (f : A -> bool) n s : forallb f s = true -> forallb f (drop n s) = true.
Proof. rewrite <- (take_drop n s) at 1. rewrite forallb_app, andb_true_iff. tauto. Qed.

Lemma code_wellformed n : (forall x, n = Some x -> 0 <= x) -> isValidEntityCode n = true -> wellformed (fromCodePoint n).
Proof.
  intros Hn Hv. destruct n as [n|]; [|by apply wellformed_ascii; repeat constructor].
  specialize (Hn n eq_refl). pose proof (valid_scalar n Hn Hv) as Hs. rewrite fromCodePoint_utf16 by apply Hs. by apply wellformed_point.
Qed.

Lemma pattern_wellformed t : entity_name t = true -> wellformed (replaceEntityPattern (38 :: t ++ [59]) t).
Proof.
  intros Ht. unfold replaceEntityPattern. destruct (obj_get entities t) as [v|] eqn:Hv.
  { apply obj_get_Some, entities_ok in Hv. unfold entry_ok in Hv. apply andb_true_iff in Hv as [_ Hv]. by apply wellformedb_sound. }
  assert (wellformed (38 :: t ++ [59])) as He.
  { apply wellformed_ascii. constructor; [lia|]. apply Forall_app. split; [by apply entity_name_ascii|]. by repeat constructor. }
  destruct (numeric_test t); [|done]. set (n := match t with _ :: c :: _ => _ | _ => _ end).
  destruct (isValidEntityCode n) eqn:Hv'; [|done]. apply code_wellformed; [|done]. intros x. unfold n.
  destruct t as [|? [|c t]]; [done..|]. destruct (is_x c); [apply parseInt16_nonneg|apply parseInt10_nonneg].
  cbn [drop]. apply entity_name_alnum in Ht. by apply (forallb_drop _ 1) in Ht.
Qed.

Lemma replace_entities_wellformed n : forall s, (length s <= n)%nat -> wellformed s -> wellformed (replace_entities s 0).
Proof.
  induction n as [|n IH]; intros s Hn Hs; [by destruct s; [|cbn in Hn; lia]|].
  destruct (wellformed_cons s Hs) as [->|(c & s' & Hc & -> & Hw)]; [done|]. destruct (Z.eq_dec c 38) as [->|Hc38].
  - change (utf16 38) with [38] in *. cbn [app] in *. destruct (entity_at s') as [t|] eqn:He.
    + apply entity_at_inv in He as [Ht [r ->]]. rewrite replace_entities_match by done.
      apply wellformed_app; [by apply pattern_wellformed|]. apply IH; [cbn in Hn; rewrite length_app in Hn; cbn in Hn; lia|].
      change (t ++ 59 :: r) with (t ++ [59] ++ r) in Hw. rewrite app_assoc in Hw. eapply wellformed_after, Hw.
      apply Forall_app. split; [by apply entity_name_ascii|by repeat constructor].
    + cbn [replace_entities]. rewrite Z.eqb_refl, He. apply (wellformed_app [38]); [by apply wellformed_ascii; repeat constructor|].
      apply IH; [cbn in Hn; lia|done].
  - rewrite replace_entities_plain.
    + apply wellformed_app; [by apply wellformed_point|]. apply IH; [|done]. rewrite length_app in Hn.
      assert (1 <= length (utf16 c))%nat by (unfold utf16; case_match; cbn; lia). lia.
    + unfold utf16. destruct Hc as [Hp Hs']. unfold isPoint in Hp. destruct (Z.gtb_spec c 65535); cbn [existsb]; rewrite !orb_false_iff, !Z.eqb_neq; [|by auto].
      pose proof (Z.div_pos (c - 65536) 1024). pose proof (Z.mod_pos_bound (c - 65536) 1024). lia.
Qed.

(** ** Numeric entities of digits *)

Definition number (base : Z) (ds : list Z) : Z := fold_left (fun v d => base * v + d) ds 0.

Lemma dec_digits_chars ds : Forall (fun d => 0 <= d < 10) ds -> dec_digits (map (Z.add 48) ds) = ds.
Proof.
  induction 1 as [|d ds Hd _ IH]; [done|]. cbn [map dec_digits]. unfold is_digit.
  destruct (Z.leb_spec 48 (48 + d)), (Z.leb_spec (48 + d) 57); try lia. cbn [andb]. rewrite IH. f_equal. lia.
Qed.

Lemma hex_digit_ok d : 0 <= d < 16 ->
  hex_value (hex_digit d) = Some d /\ is_alnum (hex_digit d) = true /\ is_x (hex_digit d) = false.
Proof.
  intros Hd. assert (Forall (fun d => hex_value (hex_digit d) = Some d /\ is_alnum (hex_digit d) = true /\ is_x (hex_digit d) = false) (seqZ 0 16)) as H
    by (by repeat constructor).
  rewrite Forall_forall in H. apply H. apply elem_of_seqZ. lia.
Qed.

Lemma hex_digits_chars ds : Forall (fun d => 0 <= d < 16) ds -> hex_digits (map hex_digit ds) = ds.
Proof. induction 1 as [|d ds Hd _ IH]; [done|]. cbn [map hex_digits]. destruct (hex_digit_ok d Hd) as [-> _]. by rewrite IH. Qed.

Lemma replace_decimal ds : Forall (fun d => 0 <= d < 10) ds -> (1 <= length ds <= 31)%nat ->
  let t := 35 :: map (Z.add 48) ds in
  entity_name t = true
  /\ replaceEntityPattern (38 :: t ++ [59]) t = if isValidEntityCode (Some (number 10 ds)) then fromCodePoint (Some (number 10 ds)) else 38 :: t ++ [59].
Proof.
  intros Hd Hl t. split.
  - unfold t. cbn [entity_name]. rewrite length_map, !andb_true_iff, !Nat.leb_le. split; [split; [split; [done|]|lia]|lia].
    rewrite forallb_forall. intros c. rewrite in_map_iff. intros (d & <- & Hin). rewrite Forall_forall in Hd. apply list_elem_of_In, Hd in Hin.
    unfold is_alnum, is_digit. rewrite orb_true_iff, andb_true_iff, !Z.leb_le. lia.
  - unfold replaceEntityPattern. set (e := 38 :: t ++ [59]). subst t. clearbody e. rewrite entities_hash. destruct ds as [|d ds]; [cbn in Hl; lia|].
    assert (is_digit (48 + d) = true /\ is_x (48 + d) = false) as [Hdig Hx].
    { apply Forall_cons in Hd as [Hd _]. unfold is_digit, is_x. rewrite andb_true_iff, !Z.leb_le, orb_false_iff, !Z.eqb_neq. lia. }
    cbn [map numeric_test]. rewrite Hdig, Hx. cbn [orb drop]. unfold parseInt10.
    change (48 + d :: map (Z.add 48) ds) with (map (Z.add 48) (d :: ds)). by rewrite dec_digits_chars.
Qed.

Lemma strip_0x_hex ds : Forall (fun d => 0 <= d < 16) ds -> strip_0x (map hex_digit ds) = map hex_digit ds.
Proof.
  intros Hd. destruct ds as [|d [|d' ds]]; cbn [map strip_0x]; [done|by repeat case_match|].
  assert (is_x (hex_digit d') = false) as -> by (apply hex_digit_ok; by apply Forall_cons in Hd as [_ [Hd _]%Forall_cons]).
  by repeat case_match.
Qed.

Lemma replace_hex ds x : Forall (fun d => 0 <= d < 16) ds -> (1 <= length ds <= 30)%nat -> is_x x = true ->
  let t := 35 :: x :: map hex_digit ds in
  entity_name t = true
  /\ replaceEntityPattern (38 :: t ++ [59]) t = if isValidEntityCode (Some (number 16 ds)) then fromCodePoint (Some (number 16 ds)) else 38 :: t ++ [59].
Proof.
  intros Hd Hl Hx t.
  assert (is_alnum x = true /\ is_digit x = false) as [Hxa Hxd] by (unfold is_x in Hx; apply orb_true_iff in Hx as [->%Z.eqb_eq| ->%Z.eqb_eq]; done).
  assert (forallb is_alnum (map hex_digit ds) = true) as Ha.
  { rewrite forallb_forall. intros c. rewrite in_map_iff. intros (d & <- & Hin). rewrite Forall_forall in Hd. apply list_elem_of_In, Hd in Hin.
    by apply hex_digit_ok. }
  split.
  - unfold t. cbn [entity_name forallb length]. rewrite length_map, Hxa, Ha, !andb_true_iff, !Nat.leb_le. repeat split; lia.
  - unfold replaceEntityPattern. set (e := 38 :: t ++ [59]). subst t. clearbody e. rewrite entities_hash. cbn [numeric_test]. rewrite Hxd, Hx. cbn [orb andb].
    destruct ds as [|d ds]; [cbn in Hl; lia|]. cbn [drop]. rewrite parseInt16_alnum by done.
    assert (0 <= d < 16) as Hd0 by (by apply Forall_cons in Hd as [Hd _]). cbn [map]. rewrite (proj1 (hex_digit_ok d Hd0)).
    change (hex_digit d :: map hex_digit ds) with (map hex_digit (d :: ds)). rewrite drop_0. by rewrite strip_0x_hex, hex_digits_chars by done.
Qed.

(** ** Theorems *)

(** Backslashes before the punctuation of a string. *)
Definition escapeMd (s : list Z) : list Z := concat (map (fun c => if is_punct c then [92; c] else [c]) s).

Lemma unescapeMd_all s : unescapeMd s = replace_escapes s.
Proof.
  unfold unescapeMd. destruct (existsb _ s) eqn:Hs; [done|]. symmetry.
  apply (no_char_id 92 replace_escapes); [|done..]. intros c t Hc. cbn [replace_escapes].
  destruct c as [|c|c]; try done. do 7 (destruct c as [c|c|]; try done).
Qed.

Lemma replace_escapes_escapeMd s : replace_escapes (escapeMd s) = s.
Proof.
  induction s as [|c s IH]; [done|]. unfold escapeMd. cbn [map concat]. destruct (is_punct c) eqn:Hc.
  - cbn [app replace_escapes]. rewrite Hc. by f_equal.
  - cbn [app]. assert (c <> 92) as Hn by (by intros ->). rewrite <- IH at 2.
    destruct c as [|c|c]; try done. do 7 (destruct c as [c|c|]; try done).
Qed.

Lemma replace_escaped c s : replace_entities (default [c] (html_replacement c) ++ s) 0 = c :: replace_entities s 0.
Proof.
  unfold html_replacement. destruct (Z.eqb_spec c 38) as [->|H38].
  { exact (replace_entities_match (ascii_units "amp"%string) s eq_refl). }
  destruct (Z.eqb_spec c 60) as [->|H60]; [exact (replace_entities_match (ascii_units "lt"%string) s eq_refl)|].
  destruct (Z.eqb_spec c 62) as [->|H62]; [exact (replace_entities_match (ascii_units "gt"%string) s eq_refl)|].
  destruct (Z.eqb_spec c 34) as [->|H34]; [exact (replace_entities_match (ascii_units "quot"%string) s eq_refl)|].
  cbn [default app replace_entities]. by apply Z.eqb_neq in H38 as ->.
Qed.

Lemma escapeHtml_chars c : Forall (fun x => x <> 60 /\ x <> 62 /\ x <> 34) (default [c] (html_replacement c)).
Proof.
  unfold html_replacement. repeat (case_match; [by repeat constructor|]). cbn [default].
  rewrite !Z.eqb_neq in *. by repeat constructor.
Qed.

(** Escaping a string for HTML leaves no angle bracket or quote, and
    replacing the entities of the result gives the string back; and
    [unescapeMd] undoes backslashes before all the punctuation. *)
Theorem escape_roundtrip (s : list Z) :
  replaceEntities (escapeHtml s) = s
  /\ Forall (fun c => c <> 60 /\ c <> 62 /\ c <> 34) (escapeHtml s)
  /\ unescapeMd (escapeMd s) = s.
Proof.
  rewrite replaceEntities_all, escapeHtml_all, unescapeMd_all. split; [|split; [|apply replace_escapes_escapeMd]].
  - induction s as [|c s IH]; [done|]. cbn [map concat]. by rewrite replace_escaped, IH.
  - induction s as [|c s IH]; [done|]. cbn [map concat]. apply Forall_app. split; [apply escapeHtml_chars|done].
Qed.

(** In a string, the first ampersand that begins the name of an entity of
    the table is replaced with the entity's value, and one that begins a
    decimal or hexadecimal number with the code units of its code point if the
    code is valid, and with nothing else changed if it is not; what follows is
    treated the same way. *)
Theorem entities_decoded (pre post : list Z) :
  existsb (Z.eqb 38) pre = false ->
  (forall k v, In (k, v) entities -> replaceEntities (pre ++ 38 :: k ++ 59 :: post) = pre ++ v ++ replaceEntities post)
  /\ (forall ds, Forall (fun d => 0 <= d < 10) ds -> (1 <= length ds <= 31)%nat ->
       replaceEntities (pre ++ 38 :: 35 :: map (Z.add 48) ds ++ 59 :: post) =
         pre ++ (if isValidEntityCode (Some (number 10 ds)) then utf16 (number 10 ds) else 38 :: 35 :: map (Z.add 48) ds ++ [59])
         ++ replaceEntities post)
  /\ (forall ds, Forall (fun d => 0 <= d < 16) ds -> (1 <= length ds <= 30)%nat ->
       replaceEntities (pre ++ 38 :: 35 :: 120 :: map hex_digit ds ++ 59 :: post) =
         pre ++ (if isValidEntityCode (Some (number 16 ds)) then utf16 (number 16 ds) else 38 :: 35 :: 120 :: map hex_digit ds ++ [59])
         ++ replaceEntities post).
Proof.
  intros Hpre. rewrite !replaceEntities_all.
  assert (forall b ds, 0 <= b -> Forall (fun d => 0 <= d < b) ds -> isValidEntityCode (Some (number b ds)) = true ->
            fromCodePoint (Some (number b ds)) = utf16 (number b ds)) as Hcode.
  { intros b ds Hb Hd Hv. apply fromCodePoint_utf16, valid_scalar; [|done]. apply fold_digits_nonneg; [done| |done].
    eapply Forall_impl; [done|]. cbn. lia. }
  split; [|split].
  - intros k v Hin. rewrite !replaceEntities_all, replace_entities_plain by done. f_equal.
    pose proof (entities_ok _ Hin) as Hok. unfold entry_ok in Hok. rewrite !andb_true_iff in Hok. destruct Hok as [[Hk _] _]. cbn [fst] in Hk.
    rewrite replace_entities_match by done. unfold replaceEntityPattern. by rewrite (entities_get k v Hin).
  - intros ds Hd Hl. rewrite !replaceEntities_all, replace_entities_plain by done. f_equal. destruct (replace_decimal ds Hd Hl) as [Hn Hr].
    pose proof (replace_entities_match _ post Hn) as Hm. cbn [app] in Hm, Hr. rewrite Hm, Hr. f_equal.
    destruct (isValidEntityCode _) eqn:Hv; [|done]. by apply Hcode.
  - intros ds Hd Hl. rewrite !replaceEntities_all, replace_entities_plain by done. f_equal. destruct (replace_hex ds 120 Hd Hl eq_refl) as [Hn Hr].
    pose proof (replace_entities_match _ post Hn) as Hm. cbn [app] in Hm, Hr. rewrite Hm, Hr. f_equal.
    destruct (isValidEntityCode _) eqn:Hv; [|done]. by apply Hcode.
Qed.

Lemma entities_decoded_witness :
  replaceEntities (ascii_units "a&lt;b &#x1F600; &amp c"%string) = ascii_units "a<b "%string ++ [55357; 56832] ++ ascii_units " &amp c"%string.
Proof.
  pose proof (proj1 (entities_decoded (ascii_units "a"%string) (ascii_units "b &#x1F600; &amp c"%string) eq_refl)
    (ascii_units "lt"%string) [60]) as H.
  assert (In (ascii_units "lt"%string, [60]) entities) as Hin by (apply obj_get_Some; vm_compute; reflexivity).
  specialize (H Hin). exact H.
Defined.

(** Replacing the entities of well-formed UTF-16 gives well-formed UTF-16:
    no entity, named or numeric, makes a lone surrogate. *)
Theorem entities_wellformed (s : list Z) : wellformed s -> wellformed (replaceEntities s).
Proof. rewrite replaceEntities_all. by apply (replace_entities_wellformed (length s)). Qed.

Lemma entities_wellformed_witness : wellformed (replaceEntities (ascii_units "&#55357; &zscr; &bad;"%string)).
Proof. apply entities_wellformed. apply wellformedb_sound. vm_compute. reflexivity. Defined.

(** The numeric expression does not ask for the end of the name: letters after
    the digits are lost, and a second [x] makes NaN and the character 0. *)
Lemma numeric_garbage :
  replaceEntities (ascii_units "&#65bc;"%string) = ascii_units "A"%string
  /\ replaceEntities (ascii_units "&#x0xz;"%string) = [0].
Proof. vm_compute. done. Qed.
