(* ===== verification/Punycode.v ===== *)
(** * Punycode

    The punycode library (module 756 of swagger-ui-bundle.js), which encodes
    the labels of domain names in ASCII.  Strings are lists of UTF-16 code
    units.  All quantities are below [2 ^ 53], where the numbers of the language
    are exact; [Math.floor] of a quotient is [Z.div] and [%] is [Z.rem]. *)

From stdpp Require Import strings.
From S2P Require Import Prelude Entities.
Local Open Scope Z_scope.
Local Open Scope js_scope.

Definition maxInt : Z := 2147483647.
Definition base : Z := 36.
Definition tMin : Z := 1.
Definition tMax : Z := 26.
Definition skew : Z := 38.
Definition damp : Z := 700.
Definition initialBias : Z := 72.
Definition initialN : Z := 128.
Definition delimiter : Z := 45.
Definition baseMinusTMin : Z := base - tMin.

(** [String.fromCharCode] *)
Definition fromCharCode (c : Z) : Z := c mod 65536.

(** [A]: ucs2decode *)
Fixpoint ucs2decode (e : list Z) : list Z :=
  match e with
  | [] => []
  | t :: e' =>
      if (t >=? 55296) && (t <=? 56319) then
        match e' with
        | n :: e'' =>
            if 56320 =? (64512 .& n) then ((1023 .& t) <<. 10) + (1023 .& n) + 65536 :: ucs2decode e''
            else t :: ucs2decode e'
        | [] => [t]
        end
      else t :: ucs2decode e'
  end.

(** [O]: ucs2encode *)
Definition ucs2char (e : Z) : list Z :=
  if e >? 65535 then
    let e := e - 65536 in [fromCharCode (e >>>. 10 .& 1023 .| 55296); fromCharCode (56320 .| 1023 .& e)]
  else [fromCharCode e].

Definition ucs2encode (e : list Z) : list Z := concat (map ucs2char e).

(** [P]: digitToBasic *)
Definition digitToBasic (e t : Z) : Z := e + 22 + 75 * (if e <? 26 then 1 else 0) - ((if t =? 0 then 0 else 1) <<. 5).

(** [T]: adapt.  The loop divides, so the logarithm bounds it.  For [e = -38],
    which only the decoding of illegal characters reaches, the language gives
    minus infinity and this definition 0: neither is at least a multiple of
    36, and both are at least 26 below one. *)
Fixpoint adapt_loop (fuel : nat) (e r : Z) : Z * Z :=
  match fuel with
  | O => (e, r)
  | S fuel => if e >? ((baseMinusTMin * tMax) >>. 1) then adapt_loop fuel (e / baseMinusTMin) (r + base) else (e, r)
  end.

Definition adapt (e t : Z) (n : bool) : Z :=
  let e := if n then e / damp else e >>. 1 in
  let e := e + e / t in
  let '(e, r) := adapt_loop (Z.to_nat (Z.log2 e)) e 0 in
  r + (baseMinusTMin + 1) * e / (e + skew).

(** The threshold of the digit at [u] under the bias [i]. *)
Definition threshold (u i : Z) : Z := if u <=? i then tMin else if u >=? i + tMax then tMax else u - i.

(** ** Decoding *)

(** The digit of a character, as [M] computes it inline. *)
Definition basicToDigit (y : Z) : Z :=
  if y - 48 <? 10 then y - 22 else if y - 65 <? 26 then y - 65 else if y - 97 <? 26 then y - 97 else base.

(** The inner loop of [M]: one integer, added to [w]. *)
Fixpoint read_integer (e : list Z) (w a u bias : Z) : js (Z * list Z) :=
  match e with
  | [] => Throw RangeError
  | y :: e =>
      let p := basicToDigit y in
      if (p >=? base) || (p >? (maxInt - w) / a) then Throw RangeError
      else
        let w := w + p * a in
        let d := threshold u bias in
        if p <? d then Ok (w, e)
        else
          let g := base - d in
          if a >? maxInt / g then Throw RangeError else read_integer e w (a * g) (u + base) bias
  end.

(** [b.splice(w, 0, x)] *)
Definition splice_one (b : list Z) (w x : Z) : list Z :=
  let n := Z.of_nat (length b) in
  let i := Z.to_nat (if w <? 0 then Z.max (n + w) 0 else Z.min w n) in
  take i b ++ x :: drop i b.

(** The outer loop of [M]; every round reads a character. *)
Fixpoint decode_loop (fuel : nat) (e : list Z) (w x bias : Z) (b : list Z) : js (list Z) :=
  match e, fuel with
  | [], _ => Ok b
  | _, O => Throw Error_
  | _, S fuel =>
      let i := w in
      r <-! read_integer e w 1 base bias ;;
      let '(w, e) := r in
      let t := Z.of_nat (length b) + 1 in
      let bias := adapt (w - i) t (0 =? i) in
      if w / t >? maxInt - x then Throw RangeError
      else
        let x := x + w / t in
        let w := Z.rem w t in
        decode_loop fuel e (w + 1) x bias (splice_one b w x)
  end.

(** The position of the last delimiter, 0 if there is none. *)
Fixpoint last_delimiter (e : list Z) (o n : Z) : Z :=
  match e with [] => n | c :: e => last_delimiter e (o + 1) (if c =? delimiter then o else n) end.

(** [M]: decode *)
Definition decode (e : list Z) : js (list Z) :=
  let n := last_delimiter e 0 0 in
  let basic := take (Z.to_nat n) e in
  if existsb (fun c => c >=? 128) basic then Throw RangeError
  else
    let rest := drop (Z.to_nat (if n >? 0 then n + 1 else 0)) e in
    js_map ucs2encode (decode_loop (length rest) rest 0 initialN initialBias basic).

(** ** Encoding *)

(** The digits of an integer. *)
Fixpoint write_integer (fuel : nat) (p d i : Z) : list Z :=
  let g := threshold d i in
  match fuel with
  | O => [fromCharCode (digitToBasic p 0)]
  | S fuel =>
      if p <? g then [fromCharCode (digitToBasic p 0)]
      else fromCharCode (digitToBasic (g + (p - g) mod (base - g)) 0) :: write_integer fuel ((p - g) / (base - g)) (d + base) i
  end.

(** [n], [i], [r], and [k] *)
Record enc : Type := Enc { delta : Z; bias : Z; handled : Z; output : list Z }.

(** The loop over the characters for the code point [t]; [h1] is [_] and [o] the
    number of basic characters. *)
Fixpoint encode_scan (e : list Z) (t h1 o : Z) (st : enc) : js enc :=
  match e with
  | [] => Ok st
  | y :: e =>
      let n := if y <? t then delta st + 1 else delta st in
      if (y <? t) && (n >? maxInt) then Throw RangeError
      else if y =? t then
        let k := output st ++ write_integer (Z.to_nat (Z.log2 n + 1)) n base (bias st) in
        encode_scan e t h1 o (Enc 0 (adapt n h1 (handled st =? o)) (handled st + 1) k)
      else encode_scan e t h1 o (Enc n (bias st) (handled st) (output st))
  end.

(** The least code point that is at least [t]. *)
Definition next_code (e : list Z) (t : Z) : Z := fold_left (fun u y => if (y >=? t) && (y <? u) then y else u) e maxInt.

(** The loop of [I]: every round handles a character. *)
Fixpoint encode_loop (fuel : nat) (e : list Z) (t o : Z) (st : enc) : js (list Z) :=
  if handled st <? Z.of_nat (length e) then
    match fuel with
    | O => Throw Error_
    | S fuel =>
        let u := next_code e t in
        let h1 := handled st + 1 in
        if u - t >? (maxInt - delta st) / h1 then Throw RangeError
        else
          st <-! encode_scan e u h1 o (Enc (delta st + (u - t) * h1) (bias st) (handled st) (output st)) ;;
          encode_loop fuel e (u + 1) o (Enc (delta st + 1) (bias st) (handled st) (output st))
    end
  else Ok (output st).

(** [I]: encode *)
Definition encode (e : list Z) : js (list Z) :=
  let e := ucs2decode e in
  let k := List.filter (fun y => y <? 128) e in
  let o := Z.of_nat (length k) in
  encode_loop (length e) e initialN o (Enc 0 initialBias o (if o =? 0 then k else k ++ [delimiter])).

(** ** Domains *)

(** [s.split(c)] *)
Fixpoint split_on (c : Z) (s : list Z) : list (list Z) :=
  match s with
  | [] => [[]]
  | x :: s =>
      match split_on c s with
      | w :: ws => if x =? c then [] :: w :: ws else (x :: w) :: ws
      | [] => [[]]
      end
  end.

(** [l.join(c)] *)
Fixpoint join_labels (c : list Z) (l : list (list Z)) : list Z :=
  match l with
  | [] => []
  | [w] => w
  | w :: l => w ++ c ++ join_labels c l
  end.

(** [b]: the characters that separate labels. *)
Definition is_separator (c : Z) : bool := (c =? 46) || (c =? 12290) || (c =? 65294) || (c =? 65377).

(** [C], from the last element to the first. *)
Fixpoint map_labels (t : list Z -> js (list Z)) (l : list (list Z)) : js (list (list Z)) :=
  match l with
  | [] => Ok []
  | w :: l => ws <-! map_labels t l ;; v <-! t w ;; Ok (v :: ws)
  end.

(** [k]: mapDomain *)
Definition mapDomain (e : list Z) (t : list Z -> js (list Z)) : js (list Z) :=
  let n := split_on 64 e in
  let '(r, e) := match n with a :: b :: _ => (a ++ [64], b) | _ => ([], e) end in
  l <-! map_labels t (split_on 46 (map (fun c => if is_separator c then 46 else c) e)) ;;
  Ok (r ++ join_labels [46] l).

(** [y]: a character that is not printable ASCII. *)
Definition nonASCII (e : list Z) : bool := existsb (fun c => negb ((32 <=? c) && (c <=? 126))) e.

Definition xn : list Z := ascii_units "xn--"%string.

Definition toASCII (e : list Z) : js (list Z) :=
  mapDomain e (fun e => if nonASCII e then js_map (app xn) (encode e) else Ok e).

Definition toUnicode (toLowerCase : list Z -> list Z) (e : list Z) : js (list Z) :=
  mapDomain e (fun e => if bool_decide (take 4 e = xn) then decode (toLowerCase (drop 4 e)) else Ok e).
