(* ===== verification/PunycodeFacts.v ===== *)
(** * Punycode: encoding and decoding are inverse *)

From stdpp Require Import strings.
From S2P Require Import Prelude BufText BufTextFacts Entities Punycode.
Local Open Scope Z_scope.
Local Open Scope js_scope.

(** ** Code points *)

Lemma ucs2char_utf16 c : isPoint c -> ucs2char c = utf16 c.
Proof.
  intros Hc. rewrite <- C_push_utf16 by done. pose proof (C_push_utf16 c Hc) as Hu. unfold ucs2char, C_push in *. unfold utf16, isPoint, fromCharCode in *.
  destruct (Z.gtb_spec c 65535); [|by rewrite Z.mod_small by lia]. cbn zeta in *. injection Hu as -> ->.
  pose proof (Z.div_pos (c - 65536) 1024). pose proof (Z.div_lt_upper_bound (c - 65536) 1024 1024). pose proof (Z.mod_pos_bound (c - 65536) 1024).
  by rewrite !Z.mod_small by lia.
Qed.

Lemma ucs2encode_utf16s cs : Forall scalar cs -> ucs2encode cs = utf16s cs.
Proof.
  unfold ucs2encode, utf16s. induction 1 as [|c cs Hc _ IH]; [done|]. cbn [map concat]. by rewrite ucs2char_utf16, IH by apply Hc.
Qed.

Lemma and_surrogate n : 56320 <= n < 57344 -> 64512 .& n = 56320.
Proof.
  intros Hn. assert (forallb (fun n => (64512 .& n) =? 56320) (seqZ 56320 1024) = true) as H by (vm_compute; reflexivity).
  rewrite forallb_forall in H. apply Z.eqb_eq, H, list_elem_of_In, elem_of_seqZ. lia.
Qed.

Lemma ucs2decode_utf16s cs : Forall scalar cs -> ucs2decode (utf16s cs) = cs.
Proof.
  induction 1 as [|c cs [Hp Hs] _ IH]; [done|]. unfold utf16s in *. cbn [map concat]. unfold isPoint in Hp. unfold utf16 at 1.
  destruct (Z.gtb_spec c 65535) as [Hc|Hc].
  - cbn [app ucs2decode]. pose proof (Z.div_pos (c - 65536) 1024). pose proof (Z.div_lt_upper_bound (c - 65536) 1024 1024).
    pose proof (Z.mod_pos_bound (c - 65536) 1024). pose proof (Z.div_mod (c - 65536) 1024).
    rewrite (proj2 (Z.geb_le _ _)), (proj2 (Z.leb_le _ _)) by lia. cbn [andb]. rewrite and_surrogate by lia. cbn [Z.eqb]. rewrite IH. f_equal.
    rewrite !(js_and_comm 1023). change 1023 with (2 ^ 10 - 1). rewrite !js_and_ones by lia. change (2 ^ 10) with 1024.
    replace (55296 + (c - 65536) / 1024) with ((c - 65536) / 1024 + 54 * 1024) by lia.
    replace (56320 + (c - 65536) mod 1024) with ((c - 65536) mod 1024 + 55 * 1024) by lia.
    rewrite !Z.mod_add, Z.mod_mod, (Z.mod_small ((c - 65536) / 1024)) by lia.
    unfold js_shl. rewrite (i32_small ((c - 65536) / 1024)) by lia. rewrite Z.shiftl_mul_pow2 by done. change (2 ^ (10 mod 32)) with 1024.
    rewrite i32_small by lia. lia.
  - cbn [app ucs2decode]. replace ((c >=? 55296) && (c <=? 56319)) with false by (symmetry; rewrite andb_false_iff, Z.geb_leb, !Z.leb_gt; lia).
    by f_equal.
Qed.

(** ** Integers *)

Lemma threshold_range u i : 1 <= threshold u i <= 26.
Proof. unfold threshold, tMin, tMax. destruct (Z.leb_spec u i), (Z.geb_spec u (i + 26)); lia. Qed.

(** A digit or a lower case letter. *)
Definition basic_digit (c : Z) : Prop := 48 <= c <= 57 \/ 97 <= c <= 122.

Lemma basicToDigit_inv p : 0 <= p < 36 -> basicToDigit (fromCharCode (digitToBasic p 0)) = p /\ basic_digit (fromCharCode (digitToBasic p 0)).
Proof.
  intros Hp. assert (Forall (fun p => basicToDigit (fromCharCode (digitToBasic p 0)) = p /\ basic_digit (fromCharCode (digitToBasic p 0))) (seqZ 0 36)) as H.
  { unfold seqZ. repeat (constructor; [split; [done|]; unfold basic_digit; vm_compute; intuition congruence|]). constructor. }
  rewrite Forall_forall in H. apply H, elem_of_seqZ. lia.
Qed.

(** Below the last threshold all digits before had weight 35. *)
Definition weight_ok (u i a : Z) : Prop := threshold u i < 26 -> exists k, 0 <= k /\ a = 35 ^ k.

Lemma weight_next u i a : weight_ok u i a -> weight_ok (u + base) i (a * (base - threshold u i)).
Proof.
  unfold weight_ok, base. intros H Ht.
  assert (threshold u i = 1) as Hu.
  { revert Ht. unfold threshold, tMin, tMax. destruct (Z.leb_spec (u + 36) i), (Z.geb_spec (u + 36) (i + 26)), (Z.leb_spec u i); lia. }
  rewrite Hu in *. destruct H as (k & Hk & ->); [lia|]. exists (k + 1). split; [lia|]. by rewrite Z.pow_add_r by lia.
Qed.

Lemma weight_bound u i a p : 0 < a -> weight_ok u i a -> threshold u i <= p -> p * a < 35 ^ 6 -> a * (base - threshold u i) <= maxInt.
Proof.
  intros Ha Hw Hp Hb. pose proof (threshold_range u i) as Ht. change (35 ^ 6) with 1838265625 in Hb. unfold base, maxInt.
  destruct (Z.eq_dec (threshold u i) 26) as [He|He]; [rewrite He in *; nia|]. destruct Hw as (k & Hk & ->); [lia|].
  assert (k <= 5) as Hk5.
  { destruct (Z.le_gt_cases k 5); [done|]. assert (35 ^ 6 <= 35 ^ k) by (apply Z.pow_le_mono_r; lia). nia. }
  assert (35 ^ k <= 35 ^ 5) by (apply Z.pow_le_mono_r; lia). change (35 ^ 5) with 52521875 in *. nia.
Qed.

Lemma read_write fuel : forall p u a w i rest,
  0 <= p < 2 ^ Z.of_nat fuel -> 0 < a -> w + p * a <= maxInt -> p * a < 35 ^ 6 -> weight_ok u i a ->
  read_integer (write_integer fuel p u i ++ rest) w a u i = Ok (w + p * a, rest).
Proof.
  assert (forall p u a w i rest, 0 <= p < threshold u i -> 0 < a -> w + p * a <= maxInt ->
    read_integer ([fromCharCode (digitToBasic p 0)] ++ rest) w a u i = Ok (w + p * a, rest)) as Hlast.
  { intros p u a w i rest Hp Ha Hw. pose proof (threshold_range u i). cbn [app read_integer]. destruct (basicToDigit_inv p) as [-> _]; [lia|].
    assert (p <= (maxInt - w) / a) by (apply Z.div_le_lower_bound; nia). unfold base.
    destruct (Z.geb_spec p 36), (Z.gtb_spec p ((maxInt - w) / a)); try lia. cbn [orb]. by destruct (Z.ltb_spec p (threshold u i)); [|lia]. }
  induction fuel as [|fuel IH]; intros p u a w i rest Hp Ha Hw Hb Hwt; cbn [write_integer].
  { apply Hlast; [|done..]. pose proof (threshold_range u i). change (2 ^ Z.of_nat 0) with 1 in Hp. lia. }
  destruct (Z.ltb_spec p (threshold u i)) as [Hlt|Hge]; [apply Hlast; [lia|done..]|].
  pose proof (threshold_range u i) as Ht. pose proof (weight_bound u i a p Ha Hwt Hge Hb) as Hwb. pose proof (weight_next u i a Hwt) as Hwn.
  unfold base in *. set (g := threshold u i) in *. set (q := g + (p - g) mod (36 - g)). set (p' := (p - g) / (36 - g)).
  pose proof (Z.mod_pos_bound (p - g) (36 - g) ltac:(lia)). pose proof (Z.div_mod (p - g) (36 - g) ltac:(lia)) as Hdm. fold p' in Hdm.
  assert (0 <= p') by (apply Z.div_pos; lia). assert (p = q + (36 - g) * p') as Hpq by lia. assert (q <= p) by nia.
  cbn [app read_integer]. destruct (basicToDigit_inv q) as [-> _]; [lia|]. unfold base. fold g.
  assert (q <= (maxInt - w) / a) by (apply Z.div_le_lower_bound; nia).
  assert (a <= maxInt / (36 - g)) by (apply Z.div_le_lower_bound; nia).
  destruct (Z.geb_spec q 36), (Z.gtb_spec q ((maxInt - w) / a)), (Z.ltb_spec q g), (Z.gtb_spec a (maxInt / (36 - g))); try lia. cbn [orb].
  rewrite IH; [f_equal; f_equal; nia| |nia|nia|nia|done].
  split; [done|]. rewrite Nat2Z.inj_succ, Z.pow_succ_r in Hp by lia. assert (10 * p' <= p) by nia. nia.
Qed.

(** The characters of an integer. *)
Lemma write_integer_chars fuel : forall p u i, 0 <= p < 2 ^ Z.of_nat fuel ->
  Forall basic_digit (write_integer fuel p u i) /\ write_integer fuel p u i <> [].
Proof.
  induction fuel as [|fuel IH]; intros p u i Hp; cbn [write_integer].
  { change (2 ^ Z.of_nat 0) with 1 in Hp. split; [|done]. constructor; [apply basicToDigit_inv; lia|done]. }
  pose proof (threshold_range u i) as Ht. destruct (Z.ltb_spec p (threshold u i)).
  { split; [|done]. constructor; [apply basicToDigit_inv; lia|done]. }
  unfold base. set (g := threshold u i) in *. pose proof (Z.mod_pos_bound (p - g) (36 - g) ltac:(lia)).
  split; [|done]. constructor; [apply basicToDigit_inv; lia|]. apply IH. split; [apply Z.div_pos; lia|].
  rewrite Nat2Z.inj_succ, Z.pow_succ_r in Hp by lia. apply Z.div_lt_upper_bound; [lia|]. nia.
Qed.

Lemma fuel_enough n : 0 <= n -> 0 <= n < 2 ^ Z.of_nat (Z.to_nat (Z.log2 n + 1)).
Proof.
  intros Hn. rewrite Z2Nat.id by (pose proof (Z.log2_nonneg n); lia). split; [done|]. destruct (Z.eq_dec n 0) as [->|]; [done|].
  pose proof (Z.log2_spec n ltac:(lia)). rewrite Z.add_1_r. lia.
Qed.

(** Two counts above the difference give the same bias. *)
Lemma adapt_small n t1 t2 : 0 <= n < 2 ^ 31 -> n < t1 -> n < t2 -> adapt n t1 false = adapt n t2 false.
Proof.
  intros Hn H1 H2. unfold adapt, js_shr. rewrite i32_small by done. change (1 mod 32) with 1. rewrite Z.shiftr_div_pow2 by done. change (2 ^ 1) with 2.
  pose proof (Z.div_pos n 2). pose proof (Z.div_le_upper_bound n 2 n). rewrite !(Z.div_small (n / 2)) by lia. done.
Qed.

(** The loop of [adapt] ends. *)
Lemma adapt_loop_done fuel : forall e r, e < 2 ^ (Z.of_nat fuel + 8) -> fst (adapt_loop fuel e r) <= 455.
Proof.
  change ((baseMinusTMin * tMax) >>. 1) with 455. induction fuel as [|fuel IH]; intros e r He; cbn [adapt_loop fst].
  { change (2 ^ (Z.of_nat 0 + 8)) with 256 in He. lia. }
  change ((baseMinusTMin * tMax) >>. 1) with 455. destruct (Z.gtb_spec e 455); [|done]. apply IH. change baseMinusTMin with 35.
  apply Z.div_lt_upper_bound; [lia|]. rewrite Nat2Z.inj_succ in He.
  replace (Z.succ (Z.of_nat fuel) + 8) with (Z.succ (Z.of_nat fuel + 8)) in He by lia. rewrite Z.pow_succ_r in He by lia. lia.
Qed.

(** ** The loops of the decoder *)

Lemma read_integer_shorter e : forall w a u i w' e', read_integer e w a u i = Ok (w', e') -> (length e' < length e)%nat.
Proof.
  induction e as [|y e IH]; intros w a u i w' e'; cbn [read_integer length]; [done|]. repeat case_match; try done.
  - intros [= <- <-]. lia.
  - intros Hr%IH. lia.
Qed.

Lemma decode_loop_fuel f : forall f' e w x i b,
  (length e <= f)%nat -> (length e <= f')%nat -> decode_loop f e w x i b = decode_loop f' e w x i b.
Proof.
  induction f as [|f IH]; intros f' e w x i b Hf Hf'; (destruct e as [|y e]; [by destruct f'|]); [cbn in Hf; lia|].
  destruct f' as [|f']; [cbn in Hf'; lia|]. cbn [decode_loop]. destruct (read_integer (y :: e) w 1 base i) as [[w' e']|] eqn:Hr; [|done].
  cbn [js_bind]. apply read_integer_shorter in Hr. case_match; [done|]. apply IH; cbn in *; lia.
Qed.

(** The decoder on the characters [e]. *)
Definition decodes (e : list Z) (w x i : Z) (b : list Z) : js (list Z) := decode_loop (length e) e w x i b.

Lemma decodes_step e w x i b w' e' :
  read_integer e w 1 base i = Ok (w', e') ->
  decodes e w x i b =
    let t := Z.of_nat (length b) + 1 in
    if w' / t >? maxInt - x then Throw RangeError
    else decodes e' (Z.rem w' t + 1) (x + w' / t) (adapt (w' - w) t (0 =? w)) (splice_one b (Z.rem w' t) (x + w' / t)).
Proof.
  intros Hr. pose proof (read_integer_shorter _ _ _ _ _ _ _ Hr) as Hl. unfold decodes. destruct e as [|y e]; [done|].
  cbn [length decode_loop]. rewrite Hr. cbn [js_bind]. case_match; [done|]. apply decode_loop_fuel; cbn in *; lia.
Qed.

Lemma decodes_nil w x i b : decodes [] w x i b = Ok b.
Proof. done. Qed.

(** ** The simulation

    While the encoder looks at the characters for the code point [t], with [pre]
    behind it and [post] before it, the decoder has the characters below [t]
    and those equal to [t] in [pre]. *)

Definition below (t : Z) (l : list Z) : list Z := List.filter (fun y => y <? t) l.
Definition upto (t : Z) (l : list Z) : list Z := List.filter (fun y => y <=? t) l.
Definition zlen {A} (l : list A) : Z := Z.of_nat (length l).

(** The states of both sides: [n] is how far the encoder is ahead. *)
Record sim (t o : Z) (pre post : list Z) (st : enc) (w x : Z) : Prop := {
  sim_handled : handled st = zlen (upto t pre ++ below t post);
  sim_delta : x * (handled st + 1) + w + delta st = t * (handled st + 1) + zlen (upto t pre);
  sim_nonneg : 0 <= delta st;
  sim_w : 0 <= w;
  sim_x : 0 <= x <= t;
  sim_first : (handled st =? o) = (0 =? w);
  sim_basic : o <= handled st
}.

(** What the encoder caches: the number of handled characters before the scan. *)
Definition cached (t : Z) (pre post : list Z) (st : enc) (w h1 : Z) : Prop :=
  h1 = zlen (below t pre ++ below t post) + 1
  /\ (h1 = handled st + 1 \/ (delta st <= zlen (below t pre) /\ 0 < w)).

Lemma zlen_app {A} (a b : list A) : zlen (a ++ b) = zlen a + zlen b.
Proof. unfold zlen. rewrite length_app. lia. Qed.

Lemma zlen_nonneg {A} (a : list A) : 0 <= zlen a.
Proof. unfold zlen. lia. Qed.

Lemma filter_zlen (f : Z -> bool) l : zlen (List.filter f l) <= zlen l.
Proof. unfold zlen. pose proof (filter_length_le f l). lia. Qed.

Lemma filter_le_zlen (f g : Z -> bool) l : (forall y, f y = true -> g y = true) -> zlen (List.filter f l) <= zlen (List.filter g l).
Proof.
  intros H. induction l as [|y l IH]; [done|]. cbn [List.filter]. unfold zlen in *. specialize (H y).
  destruct (f y); [rewrite H by done; cbn [length]; lia|]. destruct (g y); cbn [length]; lia.
Qed.

Lemma splice_one_app a b x : splice_one (a ++ b) (zlen a) x = a ++ x :: b.
Proof.
  unfold splice_one, zlen. rewrite length_app. destruct (Z.ltb_spec (Z.of_nat (length a)) 0); [lia|].
  rewrite Z.min_l, Nat2Z.id by lia. by rewrite take_app_length, drop_app_length.
Qed.

Section Bounded.
Context (cs : list Z).
Context (Hpoints : Forall (fun c => 0 <= c < 1114112) cs).
Context (Hshort : zlen cs <= 1649).

(** What is written for a character makes the decoder insert it. *)
Lemma sim_emit t o pre post st w x h1 rest :
  cs = pre ++ t :: post -> sim t o pre (t :: post) st w x -> cached t pre (t :: post) st w h1 ->
  let n := delta st in
  let ds := write_integer (Z.to_nat (Z.log2 n + 1)) n base (bias st) in
  decodes (ds ++ rest) w x (bias st) (upto t pre ++ below t post)
    = decodes rest (zlen (upto t pre) + 1) t (adapt n h1 (handled st =? o)) (upto t pre ++ t :: below t post)
  /\ Forall basic_digit ds
  /\ forall i k, sim t o (pre ++ [t]) post (Enc 0 i (handled st + 1) k) (zlen (upto t pre) + 1) t.
Proof using Hpoints Hshort.
  intros HS [Hh Hd Hn Hw Hx Hf Ho] [Hc1 Hc2] n ds.
  assert (below t (t :: post) = below t post) as Hb by (unfold below; cbn [List.filter]; by rewrite Z.ltb_irrefl).
  rewrite Hb in *. rewrite zlen_app in Hh. assert (0 <= t < 1114112) as Ht.
  { rewrite Forall_forall in Hpoints. apply Hpoints. rewrite HS. apply list_elem_of_In, in_app_iff. right. by left. }
  pose proof (zlen_nonneg (upto t pre)) as Hu0. pose proof (zlen_nonneg (below t post)) as Hb0.
  assert (handled st + 1 <= 1649) as Hh1.
  { rewrite HS, zlen_app in Hshort. pose proof (filter_zlen (fun y => y <=? t) pre). pose proof (filter_zlen (fun y => y <? t) post).
    unfold upto, below in *. unfold zlen in *. cbn [length] in *. lia. }
  assert (0 <= n < 35 ^ 6 /\ w + n < 35 ^ 6) as [Hn6 Hwn]. { unfold n. change (35 ^ 6) with 1838265625. split; [split|]; nia. }
  destruct (write_integer_chars (Z.to_nat (Z.log2 n + 1)) n base (bias st) (fuel_enough n Hn)) as [Hchars _]. fold ds in Hchars.
  assert (read_integer (ds ++ rest) w 1 base (bias st) = Ok (w + n, rest)) as Hr.
  { unfold ds. rewrite read_write; [by rewrite Z.mul_1_r|by apply fuel_enough|lia| | |].
    - change (35 ^ 6) with 1838265625 in *. unfold maxInt. lia.
    - lia.
    - intros _. by exists 0. }
  split; [|split; [done|]].
  - rewrite (decodes_step _ _ _ _ _ _ _ Hr). cbn zeta. fold (zlen (upto t pre ++ below t post)). rewrite zlen_app, <- Hh.
    assert (w + n = (t - x) * (handled st + 1) + zlen (upto t pre)) as Hwn' by (unfold n; lia).
    assert ((w + n) / (handled st + 1) = t - x) as Hq.
    { symmetry. apply (Z.div_unique_pos _ _ _ (zlen (upto t pre))); lia. }
    assert ((w + n) mod (handled st + 1) = zlen (upto t pre)) as Hr'.
    { symmetry. apply (Z.mod_unique_pos _ _ (t - x)); lia. }
    rewrite Z.rem_mod_nonneg, Hq, Hr' by lia. replace (x + (t - x)) with t by lia.
    destruct (Z.gtb_spec (t - x) (maxInt - x)); [unfold maxInt in *; lia|]. rewrite splice_one_app. f_equal.
    replace (w + n - w) with n by lia. rewrite <- Hf.
    destruct Hc2 as [->|[Hc2 Hw0]]; [done|]. rewrite Hf. destruct (Z.eqb_spec 0 w); [lia|].
    assert (zlen (below t pre) <= zlen (upto t pre)) by (apply filter_le_zlen; intros y; rewrite Z.ltb_lt, Z.leb_le; lia).
    rewrite zlen_app in Hc1. apply adapt_small; [change (2 ^ 31) with 2147483648; change (35 ^ 6) with 1838265625 in *; lia|unfold n; lia..].
  - intros i k. assert (upto t (pre ++ [t]) = upto t pre ++ [t]) as Hup.
    { unfold upto. rewrite List.filter_app. cbn [List.filter]. by rewrite Z.leb_refl. }
    assert (zlen [t] = 1) as H1 by done. constructor; cbn [handled delta]; rewrite ?Hup, ?zlen_app; try lia.
Qed.

(** A character that is not [t] is skipped, and counted if it is below. *)
Lemma sim_skip t o h1 pre y post st w x :
  cs = pre ++ y :: post -> y <> t -> sim t o pre (y :: post) st w x -> cached t pre (y :: post) st w h1 -> 0 <= t < 1114112 ->
  let n := if y <? t then delta st + 1 else delta st in
  let st' := Enc n (bias st) (handled st) (output st) in
  n <= maxInt /\ sim t o (pre ++ [y]) post st' w x /\ cached t (pre ++ [y]) post st' w h1
  /\ upto t pre ++ below t (y :: post) = upto t (pre ++ [y]) ++ below t post.
Proof using Hshort.
  clear Hpoints. intros Hcs Hyt [Hh Hd Hn Hw Hx Hf Ho] [Hc1 Hc2] Ht n st'.
  assert (upto t (pre ++ [y]) = upto t pre ++ (if y <? t then [y] else [])) as Hup.
  { unfold upto. rewrite List.filter_app. cbn [List.filter]. f_equal. destruct (Z.ltb_spec y t), (Z.leb_spec y t); done || lia. }
  assert (below t (pre ++ [y]) = below t pre ++ (if y <? t then [y] else [])) as Hbp.
  { unfold below. rewrite List.filter_app. cbn [List.filter]. done. }
  assert (below t (y :: post) = (if y <? t then [y] else []) ++ below t post) as Hb.
  { unfold below. cbn [List.filter]. by destruct (y <? t). }
  assert (zlen (if y <? t then [y] else []) = n - delta st) as Hone by (unfold n; destruct (y <? t); unfold zlen; cbn; lia).
  assert (handled st <= 1649) as Hh1.
  { rewrite Hcs, zlen_app in Hshort. rewrite zlen_app in Hh. pose proof (filter_zlen (fun y => y <=? t) pre).
    pose proof (filter_zlen (fun y => y <? t) (y :: post)). unfold upto, below in *. lia. }
  split; [|split; [|split]].
  - pose proof (zlen_nonneg (below t (y :: post))). rewrite zlen_app in Hh. unfold n, maxInt. destruct (y <? t); nia.
  - constructor; cbn [handled delta st']; rewrite ?Hup, ?zlen_app in *; try done.
    + rewrite Hh, Hb, zlen_app. lia.
    + rewrite Hone. lia.
    + unfold n. destruct (y <? t); lia.
  - split; [rewrite Hc1, Hb, Hbp, !zlen_app; lia|]. cbn [delta handled st'].
    destruct Hc2 as [?|[? ?]]; [by left|right]. rewrite Hbp, zlen_app, Hone. split; [lia|done].
  - by rewrite Hup, Hb, <- app_assoc.
Qed.

(** One scan of the encoder. *)
Lemma scan_decodes t o h1 post : forall pre st w x,
  cs = pre ++ post -> sim t o pre post st w x -> cached t pre post st w h1 -> 0 <= t < 1114112 ->
  exists st' ds w' x', encode_scan post t h1 o st = Ok st' /\ output st' = output st ++ ds
    /\ Forall basic_digit ds /\ sim t o cs [] st' w' x'
    /\ forall rest, decodes (ds ++ rest) w x (bias st) (upto t pre ++ below t post) = decodes rest w' x' (bias st') (upto t cs).
Proof using Hpoints Hshort.
  induction post as [|y post IH]; intros pre st w x Hcs Hsim Hc Ht.
  { exists st, [], w, x. rewrite app_nil_r in Hcs. subst pre. cbn [encode_scan]. rewrite app_nil_r.
    split; [done|]. split; [done|]. split; [done|]. split; [done|]. intros rest. cbn [app]. unfold below. cbn [List.filter]. by rewrite app_nil_r. }
  assert (cs = (pre ++ [y]) ++ post) as Hcs' by (by rewrite <- app_assoc). cbn [encode_scan].
  destruct (Z.eqb_spec y t) as [->|Hyt].
  - rewrite Z.ltb_irrefl. cbn [andb]. destruct (sim_emit t o pre post st w x h1 [] Hcs Hsim Hc) as (_ & Hds & Hnext).
    pose proof (fun rest => proj1 (sim_emit t o pre post st w x h1 rest Hcs Hsim Hc)) as Hdec. cbn zeta in Hds, Hdec.
    set (ds := write_integer _ _ _ _) in *. set (st1 := Enc 0 _ _ _).
    destruct (IH (pre ++ [t]) st1 (zlen (upto t pre) + 1) t Hcs' (Hnext _ _)) as (st' & ds' & w' & x' & He & Ho & Hds' & Hs & Hd').
    + destruct Hc as [Hc _]. split; [|right; cbn [delta st1]; split; [apply zlen_nonneg|pose proof (zlen_nonneg (upto t pre)); lia]].
      rewrite Hc. unfold below. rewrite List.filter_app. cbn [List.filter]. by rewrite Z.ltb_irrefl, app_nil_r.
    + done.
    + exists st', (ds ++ ds'), w', x'. split; [done|]. rewrite Ho. cbn [output st1]. rewrite <- app_assoc. split; [done|].
      split; [by apply Forall_app|]. split; [done|]. intros rest. rewrite <- app_assoc.
      replace (below t (t :: post)) with (below t post) by (unfold below; cbn [List.filter]; by rewrite Z.ltb_irrefl).
      rewrite Hdec, <- Hd'. cbn [bias st1]. f_equal. unfold upto. rewrite List.filter_app. cbn [List.filter]. rewrite Z.leb_refl. by rewrite <- app_assoc.
  - destruct (sim_skip t o h1 pre y post st w x Hcs Hyt Hsim Hc Ht) as (Hmax & Hsim' & Hc' & Hlist). cbn zeta in *.
    set (n := if y <? t then delta st + 1 else delta st) in *. destruct (Z.gtb_spec n maxInt); [lia|]. rewrite andb_false_r.
    destruct (IH (pre ++ [y]) _ w x Hcs' Hsim' Hc' Ht) as (st' & ds & w' & x' & He & Hout & Hds & Hs & Hdec).
    exists st', ds, w', x'. split; [done|]. split; [done|]. split; [done|]. split; [done|]. intros rest. rewrite <- Hdec, Hlist. done.
Qed.

Lemma next_code_spec t : (exists y, y ∈ cs /\ t <= y) ->
  next_code cs t ∈ cs /\ t <= next_code cs t /\ forall y, y ∈ cs -> t <= y -> next_code cs t <= y.
Proof using Hpoints.
  clear Hshort. unfold next_code.
  enough (forall l u, (forall y, y ∈ l -> 0 <= y < maxInt) ->
    let r := fold_left (fun u y => if (y >=? t) && (y <? u) then y else u) l u in
    (r = u \/ (r ∈ l /\ t <= r)) /\ r <= u /\ forall y, y ∈ l -> t <= y -> r <= y) as H.
  { intros (y & Hy & Hty). destruct (H cs maxInt) as (Hr & Hru & Hmin).
    { intros z Hz. rewrite Forall_forall in Hpoints. apply Hpoints in Hz. unfold maxInt. lia. }
    destruct Hr as [Hr|[Hr Htr]]; [|done]. specialize (Hmin y Hy Hty). rewrite Hr in Hmin.
    rewrite Forall_forall in Hpoints. apply Hpoints in Hy. unfold maxInt in Hmin. lia. }
  clear. induction l as [|y l IH]; intros u Hl; cbn [fold_left]; [split; [by left|split; [done|by intros ? ?%not_elem_of_nil]]|].
  destruct (IH (if (y >=? t) && (y <? u) then y else u)) as (Hr & Hru & Hmin); [intros z Hz; apply Hl; by right|].
  set (r := fold_left _ l _) in *. destruct (Z.geb_spec y t), (Z.ltb_spec y u); cbn [andb] in *.
  all: split; [destruct Hr as [Hr|[Hr ?]]; [first [left; lia|right; rewrite Hr; split; [by left|lia]]|right; split; [by right|done]]|].
  all: (split; [lia|]); intros z [->|Hz]%elem_of_cons Htz; [lia|by apply Hmin].
Qed.

Lemma below_all t : zlen cs <= zlen (below t cs) -> below t cs = cs.
Proof using.
  clear Hshort Hpoints. unfold below, zlen. induction cs as [|y l IH]; [done|]. cbn [List.filter length]. pose proof (filter_length_le (fun y => y <? t) l).
  destruct (y <? t); cbn [length]; intros; [f_equal; apply IH; lia|lia].
Qed.

Lemma below_next t u : t <= u -> (forall y, y ∈ cs -> t <= y -> u <= y) -> below u cs = below t cs.
Proof using.
  clear Hshort Hpoints. intros Htu. unfold below. induction cs as [|y l IH]; [done|]. intros H. cbn [List.filter].
  rewrite IH by (intros z Hz; apply H; by right). specialize (H y ltac:(by left)). destruct (Z.ltb_spec y u), (Z.ltb_spec y t); done || lia.
Qed.

Lemma upto_more u : u ∈ cs -> zlen (below u cs) < zlen (upto u cs).
Proof using.
  clear Hshort Hpoints. unfold below, upto. induction cs as [|y l IH]; [by intros ?%not_elem_of_nil|]. cbn [List.filter]. intros Hu.
  assert (zlen (List.filter (fun y => y <? u) l) <= zlen (List.filter (fun y => y <=? u) l)) by (apply filter_le_zlen; intros z; rewrite Z.ltb_lt, Z.leb_le; lia).
  apply elem_of_cons in Hu as [->|Hu]; [rewrite Z.ltb_irrefl, Z.leb_refl; unfold zlen in *; cbn [length]; lia|].
  specialize (IH Hu). destruct (Z.ltb_spec y u), (Z.leb_spec y u); unfold zlen in *; cbn [length]; lia.
Qed.

Lemma above_exists t : zlen (below t cs) < zlen cs -> exists y, y ∈ cs /\ t <= y.
Proof using.
  clear Hshort Hpoints. unfold below. induction cs as [|y l IH]; [done|]. cbn [List.filter]. destruct (Z.ltb_spec y t) as [Hy|Hy].
  - intros Hl. destruct IH as (z & Hz & Htz); [unfold zlen in *; cbn [length] in *; lia|]. exists z. split; [by right|done].
  - intros _. exists y. split; [by left|done].
Qed.

(** The rounds of the encoder. *)
Lemma loop_decodes fuel : forall t o st w x,
  sim t o [] cs st w x -> zlen cs - handled st <= Z.of_nat fuel ->
  exists ds, encode_loop fuel cs t o st = Ok (output st ++ ds) /\ Forall basic_digit ds
    /\ decodes ds w x (bias st) (below t cs) = Ok cs.
Proof using Hpoints Hshort.
  induction fuel as [|fuel IH]; intros t o st w x Hsim Hfuel; pose proof (sim_handled _ _ _ _ _ _ _ Hsim) as Hh;
    change (upto t [] ++ below t cs) with (below t cs) in Hh; cbn [encode_loop]; fold (zlen cs).
  - destruct (Z.ltb_spec (handled st) (zlen cs)); [lia|]. exists []. rewrite app_nil_r. split; [done|]. split; [done|].
    rewrite decodes_nil. f_equal. apply below_all. lia.
  - destruct (Z.ltb_spec (handled st) (zlen cs)) as [Hlt|Hge].
    2: { exists []. rewrite app_nil_r. split; [done|]. split; [done|]. rewrite decodes_nil. f_equal. apply below_all. lia. }
    destruct (next_code_spec t) as (Hu & Htu & Hmin).
    { apply above_exists. lia. }
    set (u := next_code cs t) in *. assert (0 <= u < 1114112) as Hu' by (rewrite Forall_forall in Hpoints; by apply Hpoints).
    pose proof (below_next t u Htu Hmin) as Hb. destruct Hsim as [_ Hd Hn Hw Hx Hf Ho]. change (zlen (upto t [])) with 0 in Hd.
    pose proof (zlen_nonneg (below t cs)). assert (u - t <= (maxInt - delta st) / (handled st + 1)) as Hov.
    { apply Z.div_le_lower_bound; [lia|]. unfold maxInt. nia. }
    destruct (Z.gtb_spec (u - t) ((maxInt - delta st) / (handled st + 1))); [lia|]. set (st0 := Enc _ (bias st) (handled st) (output st)).
    destruct (scan_decodes u o (handled st + 1) cs [] st0 w x eq_refl) as (st' & ds & w' & x' & He & Hout & Hds & Hs & Hdec).
    { constructor; cbn [handled delta st0]; change (upto u [] ++ below u cs) with (below u cs); change (zlen (upto u [])) with 0;
        rewrite ?Hb; try done; [nia|nia|lia]. }
    { split; [change (below u [] ++ below u cs) with (below u cs); rewrite Hb; lia|by left]. }
    { done. }
    rewrite He. cbn [js_bind]. pose proof (sim_handled _ _ _ _ _ _ _ Hs) as Hh'. rewrite app_nil_r in Hh'.
    assert (upto u cs = below (u + 1) cs) as Hup by (apply List.filter_ext; intros y; destruct (Z.leb_spec y u), (Z.ltb_spec y (u + 1)); done || lia).
    set (st1 := Enc _ (bias st') _ _). destruct (IH (u + 1) o st1 w' x') as (ds' & He' & Hds' & Hdec').
    + destruct Hs as [_ Hd' Hn' Hw' Hx' Hf' Ho']. constructor; cbn [handled delta st1]; try done; try lia.
      * by rewrite Hh', Hup.
      * change (zlen (upto (u + 1) [])) with 0. lia.
    + cbn [handled st1]. pose proof (upto_more u Hu) as Hmore. rewrite Hb in Hmore. lia.
    + exists (ds ++ ds'). rewrite He'. cbn [output st1]. rewrite Hout. cbn [output st0]. rewrite <- app_assoc. split; [done|].
      split; [by apply Forall_app|]. rewrite <- Hb. change (below u cs) with (upto u [] ++ below u cs). change (bias st) with (bias st0). rewrite Hdec.
      by rewrite Hup.
Qed.
End Bounded.

(** ** Strings *)

Lemma last_delimiter_none ds : Forall (fun c => c <> delimiter) ds -> forall o n, last_delimiter ds o n = n.
Proof. induction 1 as [|c ds Hc _ IH]; intros o n; [done|]. cbn [last_delimiter]. apply Z.eqb_neq in Hc as ->. apply IH. Qed.

Lemma last_delimiter_app a ds : Forall (fun c => c <> delimiter) ds -> forall o n, last_delimiter (a ++ delimiter :: ds) o n = o + zlen a.
Proof.
  intros Hds. induction a as [|c a IH]; intros o n.
  - cbn [app last_delimiter]. rewrite Z.eqb_refl, last_delimiter_none by done. unfold zlen. cbn. lia.
  - cbn [app last_delimiter]. rewrite IH. unfold zlen. cbn [length]. lia.
Qed.

Lemma basic_digit_no_delimiter ds : Forall basic_digit ds -> Forall (fun c => c <> delimiter) ds.
Proof. intros H. eapply Forall_impl; [exact H|]. unfold basic_digit, delimiter. lia. Qed.

Lemma filter_Forall {A} (P : A -> Prop) (f : A -> bool) l : Forall P l -> Forall (fun x => P x /\ f x = true) (List.filter f l).
Proof. intros H. rewrite Forall_forall in *. intros x Hx. apply list_elem_of_In, filter_In in Hx as [Hx ?]. split; [by apply H, list_elem_of_In|done]. Qed.

(** What [encode] gives: the basic characters, and digits that decode. *)
Lemma encode_decode cs : Forall scalar cs -> zlen cs <= 1649 ->
  exists ds, Forall basic_digit ds
    /\ encode (utf16s cs) = Ok (below 128 cs ++ (if decide (below 128 cs = []) then [] else [delimiter]) ++ ds)
    /\ decode (below 128 cs ++ (if decide (below 128 cs = []) then [] else [delimiter]) ++ ds) = Ok (utf16s cs).
Proof.
  intros Hcs Hlen. assert (Forall (fun c => 0 <= c < 1114112) cs) as Hp by (eapply Forall_impl; [done|]; by intros c [? _]).
  set (o := zlen (below 128 cs)). set (st := Enc 0 initialBias o (if o =? 0 then below 128 cs else below 128 cs ++ [delimiter])).
  destruct (loop_decodes cs Hp Hlen (length cs) initialN o st 0 initialN) as (ds & He & Hds & Hdec).
  { constructor; cbn [handled delta st]; try done; try lia. change (zlen (upto initialN [])) with 0. lia. }
  { cbn [handled st]. pose proof (zlen_nonneg (below 128 cs)). unfold zlen in *. lia. }
  pose proof (basic_digit_no_delimiter ds Hds) as Hnd. exists ds. split; [done|].
  assert (existsb (fun c => c >=? 128) (below 128 cs) = false) as Hbas.
  { apply not_true_iff_false. rewrite existsb_exists. intros (c & Hc & H128%Z.geb_le). apply filter_In in Hc as [_ Hc%Z.ltb_lt]. lia. }
  split.
  - unfold encode. rewrite ucs2decode_utf16s by done. change (List.filter (fun y => y <? 128) cs) with (below 128 cs). fold (zlen (below 128 cs)). fold o.
    fold st. rewrite He. cbn [output st]. f_equal. rewrite app_assoc. f_equal. unfold o, zlen.
    destruct (below 128 cs) as [|c l]; [done|]. by destruct (decide _).
  - unfold decode. destruct (decide (below 128 cs = [])) as [Hb|Hb].
    + rewrite Hb. cbn [app]. rewrite last_delimiter_none by done. 
      change (js_map ucs2encode (decodes ds 0 initialN initialBias []) = Ok (utf16s cs)).
      cbn [bias st] in Hdec. change (below initialN cs) with (below 128 cs) in Hdec. rewrite Hb in Hdec. rewrite Hdec. cbn [js_map]. by rewrite ucs2encode_utf16s.
    + cbn [app]. rewrite last_delimiter_app by done. rewrite Z.add_0_l. cbn zeta.
      replace (take (Z.to_nat (zlen (below 128 cs))) (below 128 cs ++ delimiter :: ds)) with (below 128 cs) by (unfold zlen; by rewrite Nat2Z.id, take_app_length).
      rewrite Hbas.
      assert (0 < zlen (below 128 cs)) by (unfold zlen; destruct (below 128 cs); [done|cbn; lia]).
      destruct (Z.gtb_spec (zlen (below 128 cs)) 0); [|lia]. replace (Z.to_nat (zlen (below 128 cs) + 1)) with (length (below 128 cs ++ [delimiter])).
      2: { rewrite length_app. unfold zlen. cbn. lia. }
      change (below 128 cs ++ delimiter :: ds) with (below 128 cs ++ [delimiter] ++ ds). rewrite app_assoc, drop_app_length.
      change (js_map ucs2encode (decodes ds 0 initialN initialBias (below 128 cs)) = Ok (utf16s cs)). cbn [bias st] in Hdec. change (below initialN cs) with (below 128 cs) in Hdec. rewrite Hdec.
      cbn [js_map]. by rewrite ucs2encode_utf16s.
Qed.

(** C28: a well-formed string of at most 1649 code points always encodes, to
    ASCII, without overflow, and decodes to itself; every loop ends. *)
Theorem punycode_roundtrip (cs : list Z) :
  Forall scalar cs -> Z.of_nat (length cs) <= 1649 ->
  exists e, encode (utf16s cs) = Ok e /\ Forall (fun c => 0 <= c < 128) e /\ decode e = Ok (utf16s cs).
Proof.
  intros Hcs Hlen. destruct (encode_decode cs Hcs Hlen) as (ds & Hds & He & Hd). eexists. split; [exact He|]. split; [|exact Hd].
  assert (Forall (fun c => 0 <= c < 128) (below 128 cs)).
  { eapply Forall_impl; [apply (filter_Forall _ _ _ Hcs)|]. intros c [[Hc _] H128%Z.ltb_lt]. unfold isPoint in Hc. lia. }
  rewrite !Forall_app. split; [done|]. split; [destruct (decide _); [done|]; constructor; [unfold delimiter; lia|done]|].
  eapply Forall_impl; [done|]. unfold basic_digit. lia.
Qed.

Lemma punycode_roundtrip_witness :
  encode (utf16s [109; 97; 241; 97; 9731; 128512; 241]) = Ok (ascii_units "maa-8mab3508ch080c"%string)
  /\ exists e, encode (utf16s [109; 97; 241; 97; 9731; 128512; 241]) = Ok e /\ Forall (fun c => 0 <= c < 128) e
       /\ decode e = Ok (utf16s [109; 97; 241; 97; 9731; 128512; 241]).
Proof.
  split; [vm_compute; reflexivity|]. apply punycode_roundtrip; [|vm_compute; intuition congruence].
  repeat constructor; unfold isPoint; lia.
Defined.

(** ** Domains *)

(** The characters of labels: no separators, no at sign, no upper case. *)
Definition label_char (c : Z) : Prop := is_separator c = false /\ c <> 64 /\ ~ (65 <= c <= 90).

Lemma split_none c s : Forall (fun x => x <> c) s -> split_on c s = [s].
Proof. induction 1 as [|x s Hx _ IH]; [done|]. cbn [split_on]. rewrite IH. by apply Z.eqb_neq in Hx as ->. Qed.

Lemma split_app c w s : Forall (fun x => x <> c) w -> split_on c (w ++ c :: s) = w :: split_on c s.
Proof.
  induction 1 as [|x w Hx _ IH]; cbn [app split_on].
  - rewrite Z.eqb_refl. destruct (split_on c s) eqn:E; [|done]. by destruct s as [|y s]; cbn in E; repeat case_match.
  - rewrite IH. by apply Z.eqb_neq in Hx as ->.
Qed.

Lemma split_join c ls : ls <> [] -> Forall (Forall (fun x => x <> c)) ls -> split_on c (join_labels [c] ls) = ls.
Proof.
  intros Hne H. induction H as [|w ls Hw Hls IH]; [done|]. destruct ls as [|w' ls]; [by apply split_none|].
  change (join_labels [c] (w :: w' :: ls)) with (w ++ [c] ++ join_labels [c] (w' :: ls)). cbn [app]. rewrite split_app by done. f_equal. by apply IH.
Qed.

Lemma Forall_join (P : Z -> Prop) c ls : P c -> Forall (Forall P) ls -> Forall P (join_labels [c] ls).
Proof.
  intros Hc. induction 1 as [|w ls Hw _ IH]; [done|]. destruct ls as [|w' ls]; [done|].
  change (join_labels [c] (w :: w' :: ls)) with (w ++ [c] ++ join_labels [c] (w' :: ls)). rewrite !Forall_app. split; [done|]. split; [by constructor|done].
Qed.

Lemma map_labels_ok t ls vs : Forall2 (fun w v => t w = Ok v) ls vs -> map_labels t ls = Ok vs.
Proof. induction 1 as [|w v ls vs Hw _ IH]; [done|]. cbn [map_labels]. rewrite IH. cbn [js_bind]. by rewrite Hw. Qed.

Lemma mapDomain_labels t ls vs : ls <> [] -> Forall (Forall label_char) ls -> Forall2 (fun w v => t w = Ok v) ls vs ->
  mapDomain (join_labels [46] ls) t = Ok (join_labels [46] vs).
Proof.
  intros Hne Hls Hvs. unfold mapDomain. rewrite split_none.
  2: { apply Forall_join; [done|]. eapply Forall_impl; [done|]. intros w Hw. eapply Forall_impl; [done|]. by intros c (_ & Hc & _). }
  replace (map _ (join_labels [46] ls)) with (join_labels [46] ls).
  2: { assert (Forall (fun c => (if is_separator c then 46 else c) = c) (join_labels [46] ls)) as H.
       { apply Forall_join; [done|]. eapply Forall_impl; [done|]. intros w Hw. eapply Forall_impl; [done|]. by intros c (-> & _). }
       induction H as [|c s Hc _ IH]; [done|]. cbn [map]. by rewrite Hc, <- IH. }
  rewrite split_join; [|done|]. 2: { eapply Forall_impl; [done|]. intros w Hw. eapply Forall_impl; [done|]. by intros c (Hc & _) ->. }
  by rewrite (map_labels_ok _ _ _ Hvs).
Qed.

Lemma Forall_utf16s (P : Z -> Prop) cs : (forall c, 55296 <= c < 57344 -> P c) -> Forall scalar cs -> Forall P cs -> Forall P (utf16s cs).
Proof.
  intros HP Hs H. induction H as [|c cs Hc H IH]; [done|]. apply Forall_cons in Hs as [[Hp _] Hs]. unfold utf16s. cbn [map concat].
  apply Forall_app. split; [|by apply IH]. unfold utf16. unfold isPoint in Hp. destruct (Z.gtb_spec c 65535); [|by constructor].
  pose proof (Z.div_pos (c - 65536) 1024). pose proof (Z.div_lt_upper_bound (c - 65536) 1024 1024). pose proof (Z.mod_pos_bound (c - 65536) 1024).
  repeat constructor; apply HP; lia.
Qed.

Lemma surrogate_label c : 55296 <= c < 57344 -> label_char c.
Proof.
  intros Hc. unfold label_char, is_separator. repeat split; lia.
Qed.

Lemma digit_label c : basic_digit c \/ c = delimiter -> label_char c.
Proof.
  unfold basic_digit, delimiter. intros Hc. unfold label_char, is_separator. repeat split; lia.
Qed.

Section Domain.
Context (toLowerCase : list Z -> list Z).
Context (lower_same : forall s, Forall (fun c => 0 <= c < 128 /\ ~ (65 <= c <= 90)) s -> toLowerCase s = s).

(** A label: short, well formed, and not one that is encoded already. *)
Definition label (cs : list Z) : Prop :=
  Forall scalar cs /\ Z.of_nat (length cs) <= 1649 /\ Forall label_char cs /\ take 4 (utf16s cs) <> xn.

Lemma label_there_and_back cs : label cs -> exists v,
  (if nonASCII (utf16s cs) then js_map (app xn) (encode (utf16s cs)) else Ok (utf16s cs)) = Ok v
  /\ Forall label_char v
  /\ (if bool_decide (take 4 v = xn) then decode (toLowerCase (drop 4 v)) else Ok v) = Ok (utf16s cs).
Proof using lower_same.
  intros (Hs & Hl & Hc & Hx). destruct (nonASCII (utf16s cs)).
  - destruct (encode_decode cs Hs Hl) as (ds & Hds & He & Hd). rewrite He. cbn [js_map]. eexists. split; [done|].
    set (k := below 128 cs ++ _ ++ ds) in *.
    assert (Forall (fun c => label_char c /\ 0 <= c < 128) k) as Hk.
    { unfold k. rewrite !Forall_app. split; [|split].
      - unfold below. apply (Forall_impl (fun c => (scalar c /\ label_char c) /\ (c <? 128) = true)).
        + apply filter_Forall. by apply Forall_and.
        + intros c [[[Hp _] ?] H128%Z.ltb_lt]. unfold isPoint in Hp. split; [done|lia].
      - destruct (decide _); [done|]. constructor; [|done]. split; [by apply digit_label; right|done].
      - eapply Forall_impl; [done|]. intros c Hbd. split; [by apply digit_label; left|unfold basic_digit in Hbd; lia]. }
    split.
    + rewrite Forall_app. split; [|eapply Forall_impl; [exact Hk|]; by intros c [? _]].
      do 4 (apply Forall_cons_2; [split; [done|split; [done|]]; cbn; lia|]). apply Forall_nil_2.
    + rewrite bool_decide_true by done. change (drop 4 (xn ++ k)) with k. rewrite lower_same; [done|].
      eapply Forall_impl; [exact Hk|]. intros c [(_ & _ & Hup) ?]. done.
  - exists (utf16s cs). split; [done|]. split; [by apply Forall_utf16s; [apply surrogate_label|..]|]. by rewrite bool_decide_false.
Qed.
End Domain.

(** A domain name whose labels are well formed, short, in lower case and not
    encoded already survives [toASCII] and [toUnicode]; case mapping is assumed
    to keep ASCII without upper case. *)
Theorem domain_roundtrip (toLowerCase : list Z -> list Z) (ls : list (list Z)) :
  (forall s, Forall (fun c => 0 <= c < 128 /\ ~ (65 <= c <= 90)) s -> toLowerCase s = s) ->
  ls <> [] -> Forall label ls ->
  exists a, toASCII (join_labels [46] (map utf16s ls)) = Ok a /\ toUnicode toLowerCase a = Ok (join_labels [46] (map utf16s ls)).
Proof.
  intros Hlow Hne Hls.
  assert (exists vs,
    Forall2 (fun w v => (if nonASCII w then js_map (app xn) (encode w) else Ok w) = Ok v) (map utf16s ls) vs
    /\ Forall (Forall label_char) vs
    /\ Forall2 (fun v w => (if bool_decide (take 4 v = xn) then decode (toLowerCase (drop 4 v)) else Ok v) = Ok w) vs (map utf16s ls)) as (vs & H1 & Hv & H2).
  { clear Hne. induction Hls as [|cs ls Hcs _ (vs & H1 & Hv & H2)]; [by exists []|].
    destruct (label_there_and_back toLowerCase Hlow cs Hcs) as (v & Hv1 & Hv2 & Hv3). exists (v :: vs). cbn [map]. by repeat constructor. }
  exists (join_labels [46] vs). split.
  - apply mapDomain_labels; [by destruct ls| |done]. clear H1 H2. apply Forall_map. eapply Forall_impl; [exact Hls|].
    intros cs (Hs & _ & Hc & _). apply Forall_utf16s; [apply surrogate_label|done..].
  - apply mapDomain_labels; [|done..]. destruct ls; [done|]. by destruct vs; [inversion H1|].
Qed.

Lemma domain_roundtrip_witness :
  exists a, toASCII (join_labels [46] (map utf16s [[109; 97; 241]; [99; 111; 109]])) = Ok a
    /\ toUnicode (map (fun c => if (65 <=? c) && (c <=? 90) then c + 32 else c)) a = Ok (join_labels [46] (map utf16s [[109; 97; 241]; [99; 111; 109]])).
Proof.
  apply domain_roundtrip; [|done|].
  - induction 1 as [|c s Hc _ IH]; [done|]. cbn [map]. rewrite IH. f_equal.
    destruct (Z.leb_spec 65 c), (Z.leb_spec c 90); cbn [andb]; try done. lia.
  - repeat constructor; unfold isPoint; cbn; try lia; try done.
Defined.

(** A character that is no digit is taken for a negative one: decoding gives a
    string instead of an error. *)
Lemma illegal_digit : decode (ascii_units "a-:"%string) = Ok (ascii_units "|a"%string).
Proof. vm_compute. done. Qed.
