(* ===== verification/StrDecoder.v ===== *)
(** * string_decoder

    The decoder of streams (module 147 of swagger-ui-bundle.js), which decodes
    bytes that arrive in chunks and keeps the bytes of a character that is not
    complete.  A method returns its string and the decoder after it; the
    methods [toString] and [copy] of buffers are those of the files BufText and
    BufOps. *)

From stdpp Require Import strings.
From S2P Require Import Prelude BufInt BufOps BufText.
Local Open Scope Z_scope.
Local Open Scope js_scope.

Record decoder : Type := Decoder {
  enc : encoding;
  lastNeed : Z;
  lastTotal : Z;
  lastChar : buffer
}.

(** The names [normalizeEncoding] returns. *)
Definition enc_name (e : encoding) : string :=
  match e with Utf8 => "utf8"%string | Ucs2 => "utf16le"%string | Latin1 => "latin1"%string | Base64_ => "base64"%string | Ascii_ => "ascii"%string | Hex => "hex"%string end.

Definition normalizeEncoding (e : string) : option encoding := if String.eqb e ""%string then Some Utf8 else enc_of e.

(** [i]: StringDecoder *)
Definition new_decoder (e : string) : js decoder :=
  match normalizeEncoding e with
  | None => Throw Error_
  | Some x =>
      match x with
      | Ucs2 | Utf8 => js_map (Decoder x 0 0) (allocUnsafe 4)
      | Base64_ => js_map (Decoder x 0 0) (allocUnsafe 3)
      | _ => Ok (Decoder x 0 0 [])
      end
  end.

Definition need (n : Z) (d : decoder) : decoder := Decoder (enc d) n (lastTotal d) (lastChar d).
Definition total (n : Z) (d : decoder) : decoder := Decoder (enc d) (lastNeed d) n (lastChar d).
Definition keep (b : buffer) (d : decoder) : decoder := Decoder (enc d) (lastNeed d) (lastTotal d) b.

(** The replacement character. *)
Definition replacement_char : list Z := [65533].

(** ** UTF-8 *)

(** [a]: utf8CheckByte *)
Definition utf8CheckByte (e : Z) : Z :=
  if e <=? 127 then 0
  else if e >>. 5 =? 6 then 2
  else if e >>. 4 =? 14 then 3
  else if e >>. 3 =? 30 then 4
  else if e >>. 6 =? 2 then -1 else -2.

(** The checks in [u]: utf8CheckExtraBytes *)
Definition utf8CheckExtraBytes (d : decoder) (t : buffer) : option (list Z) * decoder :=
  let bad i := negb (128 =? (192 .& idx0 t i)) in
  if bad 0 then (Some replacement_char, need 0 d)
  else if (lastNeed d >? 1) && (len t >? 1) then
    if bad 1 then (Some replacement_char, need 1 d)
    else if (lastNeed d >? 2) && (len t >? 2) && bad 2 then (Some replacement_char, need 2 d)
    else (None, d)
  else (None, d).

(** The common end of the two functions [fillLast]. *)
Definition fill_bytes (d : decoder) (e : buffer) (t : Z) : js (option (list Z) * decoder) :=
  if lastNeed d <=? len e then
    x <-! copy false e (lastChar d) (Some t) (Some 0) (Some (lastNeed d)) ;;
    let d := keep (fst x) d in
    s <-! toString (lastChar d) (enc_name (enc d)) (Some 0) (Some (lastTotal d)) ;;
    Ok (Some s, d)
  else
    x <-! copy false e (lastChar d) (Some t) (Some 0) (Some (len e)) ;;
    Ok (None, need (lastNeed d - len e) (keep (fst x) d)).

(** [fillLast]: [u] for UTF-8 *)
Definition fillLast (d : decoder) (e : buffer) : js (option (list Z) * decoder) :=
  let t := lastTotal d - lastNeed d in
  match enc d with
  | Utf8 =>
      match utf8CheckExtraBytes d e with
      | (Some n, d) => Ok (Some n, d)
      | (None, d) => fill_bytes d e t
      end
  | _ => fill_bytes d e t
  end.

(** The count in [text]: utf8CheckIncomplete *)
Definition utf8CheckIncomplete (d : decoder) (t : buffer) (n : Z) : Z * decoder :=
  let r := len t - 1 in
  if r <? n then (0, d)
  else
    let o := utf8CheckByte (idx0 t r) in
    if o >=? 0 then (o, if o >? 0 then need (o - 1) d else d)
    else
      let r := r - 1 in
      if (r <? n) || (o =? -2) then (0, d)
      else
        let o := utf8CheckByte (idx0 t r) in
        if o >=? 0 then (o, if o >? 0 then need (o - 2) d else d)
        else
          let r := r - 1 in
          if (r <? n) || (o =? -2) then (0, d)
          else
            let o := utf8CheckByte (idx0 t r) in
            if o >=? 0 then if o >? 0 then if o =? 2 then (0, d) else (o, need (o - 3) d) else (o, d)
            else (0, d).

Definition utf8Text (d : decoder) (e : buffer) (t : Z) : js (list Z * decoder) :=
  let '(n, d) := utf8CheckIncomplete d e t in
  if lastNeed d =? 0 then s <-! toString e "utf8"%string (Some t) None ;; Ok (s, d)
  else
    let d := total n d in
    let r := len e - (n - lastNeed d) in
    x <-! copy false e (lastChar d) (Some 0) (Some r) None ;;
    s <-! toString e "utf8"%string (Some t) (Some r) ;;
    Ok (s, keep (fst x) d).

(** ** UTF-16 *)

(** [s]: utf16Text *)
Definition utf16Text (d : decoder) (e : buffer) (t : Z) : js (list Z * decoder) :=
  if (len e - t) mod 2 =? 0 then
    n <-! toString e "utf16le"%string (Some t) None ;;
    match last n with
    | Some r =>
        if (r >=? 55296) && (r <=? 56319) then
          Ok (removelast n, keep (put (put (lastChar d) 0 (idx0 e (len e - 2))) 1 (idx0 e (len e - 1))) (total 4 (need 2 d)))
        else Ok (n, d)
    | None => Ok (n, d)
    end
  else
    s <-! toString e "utf16le"%string (Some t) (Some (len e - 1)) ;;
    Ok (s, keep (put (lastChar d) 0 (idx0 e (len e - 1))) (total 2 (need 1 d))).

(** ** Base64 *)

(** [c]: base64Text *)
Definition base64Text (d : decoder) (e : buffer) (t : Z) : js (list Z * decoder) :=
  let n := (len e - t) mod 3 in
  if n =? 0 then s <-! toString e "base64"%string (Some t) None ;; Ok (s, d)
  else
    let d := total 3 (need (3 - n) d) in
    let d := keep (if n =? 1 then put (lastChar d) 0 (idx0 e (len e - 1))
                   else put (put (lastChar d) 0 (idx0 e (len e - 2))) 1 (idx0 e (len e - 1))) d in
    s <-! toString e "base64"%string (Some t) (Some (len e - n)) ;;
    Ok (s, d).

(** ** The methods *)

Definition text (d : decoder) (e : buffer) (t : Z) : js (list Z * decoder) :=
  match enc d with Ucs2 => utf16Text d e t | Base64_ => base64Text d e t | _ => utf8Text d e t end.

(** [write]; [p] for the encodings of single bytes *)
Definition write_chunk (d : decoder) (e : buffer) : js (list Z * decoder) :=
  match enc d with
  | Utf8 | Ucs2 | Base64_ =>
      if len e =? 0 then Ok ([], d)
      else
        f <-! (if lastNeed d =? 0 then Ok (None, d, 0, false)
               else x <-! fillLast d e ;;
                    match x with
                    | (None, d) => Ok (None, d, 0, true)
                    | (Some t, d) => Ok (Some t, need 0 d, lastNeed d, false)
                    end) ;;
        let '(t, d, n, ended) := f in
        if ended : bool then Ok ([], d)
        else if n <? len e then
          x <-! text d e n ;;
          Ok (default [] t ++ fst x, snd x)
        else Ok (default [] t, d)
  | _ => s <-! toString e (enc_name (enc d)) None None ;; Ok (s, d)
  end.

(** [end]; [l] for UTF-16, [f] for base64 and [d] for the others *)
Definition end_chunk (d : decoder) (e : buffer) : js (list Z * decoder) :=
  x <-! (if len e =? 0 then Ok ([], d) else write_chunk d e) ;;
  let '(t, d) := x in
  if lastNeed d =? 0 then Ok (t, d)
  else
    match enc d with
    | Ucs2 => s <-! toString (lastChar d) "utf16le"%string (Some 0) (Some (lastTotal d - lastNeed d)) ;; Ok (t ++ s, d)
    | Base64_ => s <-! toString (lastChar d) "base64"%string (Some 0) (Some (3 - lastNeed d)) ;; Ok (t ++ s, d)
    | _ => Ok (t ++ replacement_char, d)
    end.

(** Writing the chunks of a stream. *)
Fixpoint write_all (d : decoder) (l : list buffer) : js (list Z * decoder) :=
  match l with
  | [] => Ok ([], d)
  | e :: l =>
      x <-! write_chunk d e ;;
      y <-! write_all (snd x) l ;;
      Ok (fst x ++ fst y, snd y)
  end.
