(* ===== verification/StrDecoderFacts.v ===== *)
(** * string_decoder: chunks decode as the whole stream does *)

From stdpp Require Import strings.
From S2P Require Import Prelude BufInt BufIntFacts BufOps BufOpsFacts BufText BufTextFacts StrDecoder.
Local Open Scope Z_scope.
Local Open Scope js_scope.

(** ** Bytes of UTF-8 *)

Definition cont_byte (b : Z) : Prop := isByte b /\ utf8CheckByte b = -1 /\ 192 .& b = 128.

(** A lead byte [l] with [ks] after it. *)
Definition lead_byte_of (l n : Z) : Prop := isByte l /\ utf8CheckByte l = if n =? 1 then 0 else n.

Lemma range_check (f : Z -> bool) a k b : forallb f (seqZ a k) = true -> a <= b < a + k -> f b = true.
Proof. intros Hf Hb. rewrite forallb_forall in Hf. apply Hf, list_elem_of_In, elem_of_seqZ. lia. Qed.

Lemma byte_classes b :
  (0 <= b < 128 -> lead_byte_of b 1) /\ (128 <= b < 192 -> cont_byte b) /\ (192 <= b < 224 -> lead_byte_of b 2)
  /\ (224 <= b < 240 -> lead_byte_of b 3) /\ (240 <= b < 248 -> lead_byte_of b 4).
Proof.
  unfold lead_byte_of, cont_byte, isByte.
  split; [|split; [|split; [|split]]]; intros Hb; (split; [lia|]).
  - apply Z.eqb_eq, (range_check (fun b => utf8CheckByte b =? 0) 0 128); [vm_compute; done|lia].
  - split; apply Z.eqb_eq; [apply (range_check (fun b => utf8CheckByte b =? -1) 128 64)|apply (range_check (fun b => (192 .& b) =? 128) 128 64)];
      (vm_compute; done) || lia.
  - apply Z.eqb_eq, (range_check (fun b => utf8CheckByte b =? 2) 192 32); [vm_compute; done|lia].
  - apply Z.eqb_eq, (range_check (fun b => utf8CheckByte b =? 3) 224 16); [vm_compute; done|lia].
  - apply Z.eqb_eq, (range_check (fun b => utf8CheckByte b =? 4) 240 8); [vm_compute; done|lia].
Qed.

(** Every character is a lead byte and at most three continuation bytes. *)
Lemma utf8_shape c : scalar c -> exists l ks, utf8 c = l :: ks /\ lead_byte_of l (len (l :: ks)) /\ Forall cont_byte ks /\ (length ks <= 3)%nat.
Proof.
  intros [Hp _]. unfold isPoint in Hp. unfold utf8.
  assert (forall x, cont_byte (128 + x mod 64)) as Hcont by (intros x; apply byte_classes; pose proof (Z.mod_pos_bound x 64); lia).
  destruct (Z.ltb_spec c 128); [|destruct (Z.ltb_spec c 2048); [|destruct (Z.ltb_spec c 65536)]].
  - exists c, []. split; [done|]. split; [apply byte_classes; lia|]. split; [done|cbn; lia].
  - exists (192 + c / 64), [128 + c mod 64]. split; [done|]. split; [|split; [by repeat constructor; apply Hcont|cbn; lia]].
    apply byte_classes. pose proof (Z.div_pos c 64). pose proof (Z.div_lt_upper_bound c 64 32). lia.
  - eexists _, [_; _]. split; [done|]. split; [|split; [|cbn; lia]].
    + apply byte_classes. pose proof (Z.div_pos c 4096). pose proof (Z.div_lt_upper_bound c 4096 16). lia.
    + repeat apply Forall_cons_2; try apply Hcont. done.
  - eexists _, [_; _; _]. split; [done|]. split; [|split; [|cbn; lia]].
    + apply byte_classes. pose proof (Z.div_pos c 262144). pose proof (Z.div_lt_upper_bound c 262144 8). lia.
    + repeat apply Forall_cons_2; try apply Hcont. done.
Qed.

Lemma scalar_bytes c : scalar c -> bytes (utf8 c).
Proof. intros [Hc _]. by apply utf8_bytes. Qed.

Lemma scalars_bytes cs : Forall scalar cs -> bytes (utf8s cs).
Proof. intros Hcs. apply utf8s_bytes. eapply Forall_impl; [exact Hcs|]. by intros c [? _]. Qed.

(** ** Ranges of a buffer *)

Lemma C_loop_middle cs : Forall scalar cs -> forall P Q fuel, len (utf8s cs) <= Z.of_nat fuel ->
  C_loop fuel (P ++ utf8s cs ++ Q) (len P) (len P + len (utf8s cs)) = utf16s cs.
Proof.
  induction 1 as [|c cs Hc Hcs IH]; intros P Q fuel Hf.
  - destruct fuel; [done|]. cbn [C_loop]. rewrite (proj2 (Z.ltb_ge _ _)) by (unfold utf8s; cbn [map concat]; len_lia). done.
  - unfold utf8s, utf16s in *. cbn [map concat] in *.
    assert (0 < len (utf8 c)) as Hpos. { unfold utf8. repeat case_match; len_lia. }
    destruct fuel as [|fuel]; [len_lia|]. cbn [C_loop]. rewrite (proj2 (Z.ltb_lt _ _)) by len_lia.
    rewrite <- app_assoc. rewrite C_step_utf8 by (done || len_lia). rewrite C_push_utf16 by apply Hc. f_equal.
    replace (len P + len (utf8 c)) with (len (P ++ utf8 c)) by len_lia.
    replace (len P + len (utf8 c ++ concat (map utf8 cs))) with (len (P ++ utf8 c) + len (concat (map utf8 cs))) by len_lia.
    rewrite app_assoc. apply IH. len_lia.
Qed.

Lemma toString_middle P cs Q n : Forall scalar cs -> len (P ++ utf8s cs ++ Q) < 2 ^ 31 -> n = Some (len P + len (utf8s cs)) \/ (n = None /\ Q = []) ->
  toString (P ++ utf8s cs ++ Q) "utf8" (Some (len P)) n = Ok (utf16s cs).
Proof.
  intros Hcs Hlen Hn. set (b := P ++ utf8s cs ++ Q) in *. set (r := len P + len (utf8s cs)) in *.
  assert (len b = r + len Q) as Hb by (unfold b, r; len_lia). pose proof (len_nonneg P). pose proof (len_nonneg Q). pose proof (len_nonneg (utf8s cs)).
  assert (len (utf8s cs) = 0 -> utf16s cs = []) as Hnil.
  { destruct Hcs as [|c cs Hc _]; [done|]. unfold utf8s. cbn [map concat]. assert (0 < len (utf8 c)) by (unfold utf8; repeat case_match; len_lia). len_lia. }
  unfold toString. destruct (Z.eqb_spec (len b) 0); [rewrite Hnil by lia; done|].
  destruct (Z.ltb_spec (len P) 0); [lia|]. destruct (Z.gtb_spec (len P) (len b)); [lia|].
  replace (match n with Some n => if n >? len b then len b else n | None => len b end) with r.
  2: { destruct Hn as [->|[-> ->]]; [destruct (Z.gtb_spec r (len b)); lia|]. change (len []) with 0 in Hb. lia. }
  destruct (Z.leb_spec r 0); [rewrite Hnil by lia; done|].
  rewrite !js_ushr_small, !u32_id, !Z.div_1_r by (unfold isUint32; lia).
  destruct (Z.leb_spec r (len P)); [rewrite Hnil by lia; done|]. cbn [String.eqb enc_of enc_exact]. change (enc_of "utf8") with (Some Utf8). cbn iota.
  f_equal. unfold C_. rewrite Z.min_r by lia. unfold b, r. apply C_loop_middle; [done|]. fold b. unfold len in *. lia.
Qed.

(** ** Looking for an incomplete character *)

Lemma idx0_at P x i : 0 <= i -> idx0 (P ++ x) (len P + i) = default 0 (x !! Z.to_nat i).
Proof.
  intros Hi. unfold idx0, idx. destruct (Z.ltb_spec (len P + i) 0); [unfold len in *; lia|].
  rewrite lookup_app_r by (unfold len; lia). do 2 f_equal. unfold len. lia.
Qed.

Lemma idx0_at_0 P a x : idx0 (P ++ a :: x) (len P + 0) = a.
Proof. by rewrite idx0_at. Qed.
Lemma idx0_at_1 P a b x : idx0 (P ++ a :: b :: x) (len P + 1) = b.
Proof. by rewrite idx0_at. Qed.
Lemma idx0_at_2 P a b c x : idx0 (P ++ a :: b :: c :: x) (len P + 2) = c.
Proof. by rewrite idx0_at. Qed.
Lemma idx0_at_3 P a b c d x : idx0 (P ++ a :: b :: c :: d :: x) (len P + 3) = d.
Proof. by rewrite idx0_at. Qed.

(** The last character of [e], of which [l :: ks] is there; [k] is its length. *)
Lemma check_block d P l ks k n :
  lead_byte_of l k -> Forall cont_byte ks -> len (l :: ks) <= k <= 4 -> 0 <= n <= len P -> lastNeed d = 0 ->
  exists m, utf8CheckIncomplete d (P ++ l :: ks) n = (m, need (k - len (l :: ks)) d) /\ (len (l :: ks) < k -> m = k).
Proof.
  intros [_ Hl] Hks Hk Hn Hd. assert (need 0 d = d) as Hd0 by (destruct d; cbn in *; by subst).
  assert (forall i, 0 <= i -> (len P + i <? n) = false) as Hlt by (intros; apply Z.ltb_ge; lia).
  unfold utf8CheckIncomplete. rewrite len_app.
  destruct Hks as [|k1 ks1 (_ & H1 & _) [|k2 ks2 (_ & H2 & _) [|k3 ks3 (_ & H3 & _) Hks]]].
  - change (len [l]) with 1 in *. replace (len P + 1 - 1) with (len P + 0) by lia. rewrite Hlt by lia. cbn [orb]. rewrite idx0_at_0, Hl. destruct (Z.eqb_spec k 1) as [->|Hk1]; [exists 0; split; [|lia]; change (1 - 1) with 0; by rewrite Hd0|].
    destruct (Z.geb_spec k 0), (Z.gtb_spec k 0); try lia. by exists k.
  - change (len [l; k1]) with 2 in *. replace (len P + 2 - 1) with (len P + 1) by lia. rewrite Hlt by lia. cbn [orb]. rewrite idx0_at_1, H1. cbn [Z.geb Z.compare Z.eqb orb].
    replace (len P + 1 - 1) with (len P + 0) by lia. rewrite Hlt by lia. cbn [orb]. rewrite idx0_at_0, Hl.
    destruct (Z.eqb_spec k 1); [lia|]. destruct (Z.geb_spec k 0), (Z.gtb_spec k 0); try lia. by exists k.
  - change (len [l; k1; k2]) with 3 in *. replace (len P + 3 - 1) with (len P + 2) by lia. rewrite Hlt by lia. cbn [orb]. rewrite idx0_at_2, H2. cbn [Z.geb Z.compare Z.eqb orb].
    replace (len P + 2 - 1) with (len P + 1) by lia. rewrite Hlt by lia. cbn [orb]. rewrite idx0_at_1, H1. cbn [Z.geb Z.compare Z.eqb orb].
    replace (len P + 1 - 1) with (len P + 0) by lia. rewrite Hlt by lia. cbn [orb]. rewrite idx0_at_0, Hl.
    destruct (Z.eqb_spec k 1); [lia|]. destruct (Z.geb_spec k 0), (Z.gtb_spec k 0), (Z.eqb_spec k 2); try lia. by exists k.
  - pose proof (len_nonneg ks3) as H0. replace (len (l :: k1 :: k2 :: k3 :: ks3)) with (4 + len ks3) in * by (rewrite !len_cons; lia).
    assert (len ks3 = 0) as Hks3 by lia. destruct ks3; [|rewrite len_cons in Hks3; pose proof (len_nonneg ks3); lia]. change (4 + len []) with 4 in *.
    replace (len P + 4 - 1) with (len P + 3) by lia. rewrite Hlt by lia. cbn [orb]. rewrite idx0_at_3, H3. cbn [Z.geb Z.compare Z.eqb orb].
    replace (len P + 3 - 1) with (len P + 2) by lia. rewrite Hlt by lia. cbn [orb]. rewrite idx0_at_2, H2. cbn [Z.geb Z.compare Z.eqb orb].
    replace (len P + 2 - 1) with (len P + 1) by lia. rewrite Hlt by lia. cbn [orb]. rewrite idx0_at_1, H1. cbn [Z.geb Z.compare Z.eqb orb].
    exists 0. assert (k = 4) as -> by lia. change (4 - 4) with 0. rewrite Hd0. split; [done|lia].
Qed.

(** ** The state between chunks *)

(** [pend] is a part of the next character of [cs]. *)
Definition partial (pend : buffer) (cs : list Z) : Prop :=
  exists c cs' suf, cs = c :: cs' /\ utf8 c = pend ++ suf /\ pend <> [] /\ suf <> [].

(** The decoder keeps the bytes [pend]. *)
Record pending (d : decoder) (pend : buffer) (cs : list Z) : Prop := {
  pending_enc : enc d = Utf8;
  pending_char : len (lastChar d) = 4;
  pending_bytes : (pend = [] /\ lastNeed d = 0)
    \/ exists c cs' suf, cs = c :: cs' /\ utf8 c = pend ++ suf /\ pend <> [] /\ suf <> []
         /\ lastNeed d = len suf /\ lastTotal d = len (utf8 c) /\ take (length pend) (lastChar d) = pend
}.

Lemma utf8s_cons c cs : utf8s (c :: cs) = utf8 c ++ utf8s cs.
Proof. done. Qed.

Lemma utf8s_app a b : utf8s (a ++ b) = utf8s a ++ utf8s b.
Proof. unfold utf8s. by rewrite map_app, concat_app. Qed.

(** What has arrived of a stream: whole characters and a part of the next. *)
Lemma utf8_split cs : forall X Y, X ++ Y = utf8s cs -> exists cs1 cs2 pend,
  cs = cs1 ++ cs2 /\ X = utf8s cs1 ++ pend /\ pend ++ Y = utf8s cs2 /\ (pend = [] \/ partial pend cs2).
Proof.
  induction cs as [|c cs IH]; intros X Y HXY.
  - apply app_nil in HXY as [-> ->]. by exists [], [], []; auto.
  - rewrite utf8s_cons in HXY. apply app_eq_inv in HXY as [(k & HX & Hr)|(k & Hc & HY)].
    + destruct (IH k Y (eq_sym Hr)) as (cs1 & cs2 & pend & -> & -> & Hp & Hpart). exists (c :: cs1), cs2, pend.
      split; [done|]. split; [by rewrite HX, utf8s_cons, app_assoc|]. by auto.
    + destruct X as [|x X]; [exists [], (c :: cs), []; cbn [app] in *; rewrite HY, utf8s_cons, Hc; by auto|].
      destruct k as [|b k].
      * rewrite app_nil_r in Hc. exists [c], cs, []. rewrite app_nil_r. cbn [app] in *. split; [done|]. split; [|by auto].
        rewrite utf8s_cons, Hc. unfold utf8s. cbn. by rewrite app_nil_r.
      * exists [], (c :: cs), (x :: X). split; [done|]. split; [done|]. split; [by rewrite HY, app_assoc, <- Hc|]. right. by exists c, cs, (b :: k).
Qed.

Lemma set_bytes_middle A M Q s : length M = length s -> set_bytes (A ++ M ++ Q) (len A) s = A ++ s ++ Q.
Proof.
  intros Hl. unfold set_bytes, len. rewrite Nat2Z.id, take_app_length. f_equal. f_equal.
  rewrite app_assoc. rewrite drop_app_length'; [done|]. rewrite length_app. lia.
Qed.

(** A copy of [s] into the middle of a buffer. *)
Lemma copy_middle P s post A M Q : bytes (P ++ s ++ post) -> s <> [] -> length M = length s ->
  copy false (P ++ s ++ post) (A ++ M ++ Q) (Some (len A)) (Some (len P)) (Some (len P + len s)) = Ok (A ++ s ++ Q, len s).
Proof.
  intros Hb Hs Hl. assert (0 < len s) by (destruct s; [done|rewrite len_cons; pose proof (len_nonneg s); lia]).
  assert (len M = len s) by (unfold len; lia). pose proof (len_nonneg P). pose proof (len_nonneg A). pose proof (len_nonneg post). pose proof (len_nonneg Q).
  rewrite copy_spec; [|done|done|len_lia..]. cbv zeta. unfold copied.
  replace (Z.min (Z.min (len P + len s) (len (P ++ s ++ post)) - len P) (len (A ++ M ++ Q) - Z.min (len A) (len (A ++ M ++ Q)))) with (len s) by len_lia.
  replace (Z.min (len A) (len (A ++ M ++ Q))) with (len A) by len_lia. f_equal. f_equal.
  unfold len at 2 3. rewrite !Nat2Z.id, drop_app_length, take_app_length. by apply set_bytes_middle.
Qed.

(** ** [text] *)

Lemma partial_shape pend cs : partial pend cs -> Forall scalar cs ->
  exists c cs' l ks suf, cs = c :: cs' /\ pend = l :: ks /\ utf8 c = (l :: ks) ++ suf /\ suf <> []
    /\ lead_byte_of l (len (utf8 c)) /\ Forall cont_byte ks /\ Forall cont_byte suf /\ len (utf8 c) <= 4.
Proof.
  intros (c & cs' & suf & -> & Hc & Hp & Hs) Hcs. apply Forall_cons in Hcs as [Hc0 _].
  destruct (utf8_shape c Hc0) as (l & ks & Heq & Hl & Hks & Hlen). destruct pend as [|x pend]; [done|].
  rewrite Heq in Hc. injection Hc as <- ->. apply Forall_app in Hks as [Hk1 Hk2].
  exists c, cs', l, pend, suf. rewrite Heq. cbn [app]. repeat (split; [done|]). rewrite len_cons. unfold len in *. lia.
Qed.

Lemma text_whole d P cs : enc d = Utf8 -> len (lastChar d) = 4 -> lastNeed d = 0 -> Forall scalar cs -> cs <> [] -> len (P ++ utf8s cs) < 2 ^ 31 ->
  utf8Text d (P ++ utf8s cs) (len P) = Ok (utf16s cs, d).
Proof.
  intros Henc Hlc Hneed Hcs Hne Hlen. destruct (exists_last Hne) as (cs0 & c & Heq). pose proof Hcs as Hcs'. rewrite Heq in Hcs'.
  apply Forall_app in Hcs' as [_ [Hc _]%Forall_cons]. destruct (utf8_shape c Hc) as (l & ks & Hu & Hl & Hks & Hl3).
  destruct (check_block d (P ++ utf8s cs0) l ks (len (l :: ks)) (len P)) as (m & Hm & _); try done.
  { unfold len. cbn [length]. lia. }
  { pose proof (len_nonneg P). pose proof (len_nonneg (utf8s cs0)). len_lia. }
  unfold utf8Text. replace (P ++ utf8s cs) with ((P ++ utf8s cs0) ++ l :: ks).
  2: { rewrite Heq, utf8s_app, <- app_assoc, <- Hu. unfold utf8s at 2. cbn. by rewrite app_nil_r. }
  rewrite Hm, Z.sub_diag. cbn [lastNeed need]. rewrite Z.eqb_refl.
  replace ((P ++ utf8s cs0) ++ l :: ks) with (P ++ utf8s cs ++ []).
  2: { rewrite app_nil_r, Heq, utf8s_app, <- app_assoc, <- Hu. unfold utf8s at 2. cbn. by rewrite app_nil_r. }
  rewrite toString_middle; [|done|by rewrite app_nil_r|by right]. cbn [js_bind]. do 2 f_equal. destruct d; cbn in *. by subst.
Qed.

Lemma text_part d P cs1 pend cs2 : enc d = Utf8 -> len (lastChar d) = 4 -> lastNeed d = 0 -> Forall scalar cs1 -> Forall scalar cs2 ->
  partial pend cs2 -> bytes P -> len (P ++ utf8s cs1 ++ pend) < 2 ^ 31 ->
  exists d', utf8Text d (P ++ utf8s cs1 ++ pend) (len P) = Ok (utf16s cs1, d') /\ pending d' pend cs2.
Proof.
  intros Henc Hlc Hneed H1 H2 Hpart HP Hlen.
  destruct (partial_shape pend cs2 Hpart H2) as (c & cs' & l & ks & suf & -> & -> & Hu & Hs & Hl & Hks & _ & H4).
  assert (0 < len suf) by (destruct suf; [done|rewrite len_cons; pose proof (len_nonneg suf); lia]).
  pose proof (len_nonneg P). pose proof (len_nonneg (utf8s cs1)). pose proof (len_nonneg ks).
  assert (len (utf8 c) = len (l :: ks) + len suf) as Hlu by (rewrite Hu; len_lia).
  destruct (check_block d (P ++ utf8s cs1) l ks (len (utf8 c)) (len P)) as (m & Hm & Hmk); try done; [lia|len_lia|].
  rewrite app_assoc. unfold utf8Text. rewrite Hm, Hmk by lia. cbn [lastNeed need]. destruct (Z.eqb_spec (len (utf8 c) - len (l :: ks)) 0); [lia|].
  replace (len ((P ++ utf8s cs1) ++ l :: ks) - (len (utf8 c) - lastNeed (total (len (utf8 c)) (need (len (utf8 c) - len (l :: ks)) d))))
    with (len (P ++ utf8s cs1)) by (cbn [lastNeed total need]; len_lia).
  cbn [lastChar total need].
  set (M := take (length (l :: ks)) (lastChar d)). set (Q := drop (length (l :: ks)) (lastChar d)).
  assert (length M = length (l :: ks)) as HM by (unfold M; rewrite length_take; unfold len in *; cbn [length] in *; lia).
  pose proof (copy_middle (P ++ utf8s cs1) (l :: ks) [] [] M Q) as Hcopy. rewrite !app_nil_r in Hcopy. cbn [app] in Hcopy.
  assert (M ++ Q = lastChar d) as HMQ by apply take_drop. rewrite HMQ in Hcopy. change (len []) with 0 in Hcopy.
  change (copy false ((P ++ utf8s cs1) ++ l :: ks) (lastChar d) (Some 0) (Some (len (P ++ utf8s cs1))) None)
    with (copy false ((P ++ utf8s cs1) ++ l :: ks) (lastChar d) (Some 0) (Some (len (P ++ utf8s cs1))) (Some (len ((P ++ utf8s cs1) ++ l :: ks)))).
  rewrite (len_app (P ++ utf8s cs1)), Hcopy; [|..|done].
  2: { unfold bytes. rewrite !Forall_app. split; [split; [done|by apply scalars_bytes]|]. constructor; [apply Hl|]. eapply Forall_impl; [exact Hks|]. by intros b [? _]. }
  2: done.
  cbn [js_bind fst]. rewrite <- app_assoc. rewrite len_app. rewrite toString_middle; [|done|done|by left]. cbn [js_bind].
  eexists. split; [done|]. constructor; cbn [enc lastChar keep total need lastNeed lastTotal]; [done| |].
  - rewrite len_cons, len_app. unfold Q, len in *. rewrite length_drop. cbn [length] in *. lia.
  - right. exists c, cs', suf. repeat (split; [done|]). split; [lia|]. split; [done|].
    cbn [length take]. f_equal. apply take_app_length.
Qed.

Lemma text_utf8 d P cs1 pend cs2 : enc d = Utf8 -> len (lastChar d) = 4 -> lastNeed d = 0 -> Forall scalar (cs1 ++ cs2) ->
  pend = [] \/ partial pend cs2 -> utf8s cs1 ++ pend <> [] -> bytes P -> len (P ++ utf8s cs1 ++ pend) < 2 ^ 31 ->
  exists d', text d (P ++ utf8s cs1 ++ pend) (len P) = Ok (utf16s cs1, d') /\ pending d' pend cs2.
Proof.
  intros Henc Hlc Hneed Hcs Hpend Hne HP Hlen. apply Forall_app in Hcs as [H1 H2]. unfold text. rewrite Henc.
  destruct Hpend as [->|Hpend]; [|by apply text_part]. rewrite app_nil_r in *. exists d.
  rewrite text_whole; [|done..|by destruct cs1|done]. split; [done|]. constructor; by auto.
Qed.

(** ** [fillLast] *)

Lemma check_extra d e : 0 < lastNeed d -> 0 < len e -> (forall i, 0 <= i < lastNeed d -> i < len e -> 192 .& idx0 e i = 128) ->
  utf8CheckExtraBytes d e = (None, d).
Proof.
  intros Hn He H. unfold utf8CheckExtraBytes. rewrite (H 0) by lia. cbn [Z.eqb Pos.eqb negb].
  destruct (Z.gtb_spec (lastNeed d) 1); [|done]. destruct (Z.gtb_spec (len e) 1); [|done]. cbn [andb]. rewrite (H 1) by lia. cbn [Z.eqb Pos.eqb negb].
  destruct (Z.gtb_spec (lastNeed d) 2); [|done]. destruct (Z.gtb_spec (len e) 2); [|done]. cbn [andb]. by rewrite (H 2) by lia.
Qed.

Lemma cont_idx0 ks e i : Forall cont_byte ks -> 0 <= i < len ks -> 192 .& idx0 (ks ++ e) i = 128.
Proof.
  intros Hks Hi. unfold idx0, idx. destruct (Z.ltb_spec i 0); [lia|]. rewrite lookup_app_l by (unfold len in Hi; lia).
  destruct (lookup_lt_is_Some_2 ks (Z.to_nat i)) as [b Hb]; [unfold len in Hi; lia|]. rewrite Hb. cbn [default from_option id].
  rewrite Forall_forall in Hks. apply list_elem_of_lookup_2, Hks in Hb. apply Hb.
Qed.

Lemma len_pos (b : buffer) : b <> [] -> 0 < len b.
Proof. destruct b; [done|]. rewrite len_cons. pose proof (len_nonneg b). lia. Qed.

(** The kept bytes and the room after them. *)
Lemma kept_split (lc pend : buffer) n : take (length pend) lc = pend -> (length pend + n <= length lc)%nat ->
  exists M Q, lc = pend ++ M ++ Q /\ length M = n.
Proof.
  intros Ht Hl. exists (take n (drop (length pend) lc)), (drop n (drop (length pend) lc)).
  rewrite take_drop, <- Ht at 1. rewrite take_drop. split; [done|]. rewrite length_take, length_drop. lia.
Qed.

Section Fill.
Context (d : decoder) (pend : buffer) (c : Z) (cs : list Z) (suf : buffer).
Context (Henc : enc d = Utf8) (Hlc : len (lastChar d) = 4) (Hc : scalar c) (Hu : utf8 c = pend ++ suf) (Hp : pend <> []) (Hs : suf <> []).
Context (Hneed : lastNeed d = len suf) (Htotal : lastTotal d = len (utf8 c)) (Hkept : take (length pend) (lastChar d) = pend).

Lemma suf_cont : Forall cont_byte suf /\ len pend + len suf <= 4.
Proof using Hc Hu Hp Hs.
  clear -Hc Hu Hp Hs. destruct (partial_shape pend [c]) as (c' & cs' & l & ks & suf' & [= <- <-] & -> & Hu' & _ & _ & _ & Hcont & Hl).
  - by exists c, [], suf.
  - by constructor.
  - rewrite Hu in Hu'. apply app_inv_head in Hu' as ->. split; [done|]. rewrite <- len_app, <- Hu. done.
Qed.

Lemma fill_more e k : suf = e ++ k -> e <> [] -> k <> [] ->
  exists d', fillLast d e = Ok (None, d') /\ pending d' (pend ++ e) (c :: cs).
Proof using All.
  intros Hk He Hkn. destruct suf_cont as [Hcont H4]. pose proof (len_pos e He). pose proof (len_pos k Hkn). rewrite Hk in Hcont, H4, Hneed. rewrite len_app in *.
  unfold fillLast. rewrite Henc. rewrite check_extra; [|lia|lia|].
  2: { intros i Hi Hie. apply Forall_app in Hcont as [Hcont _]. rewrite <- (app_nil_r e). apply cont_idx0; [done|lia]. }
  unfold fill_bytes. destruct (Z.leb_spec (lastNeed d) (len e)); [lia|].
  destruct (kept_split (lastChar d) pend (length e) Hkept) as (M & Q & Hsplit & HM); [unfold len in *; lia|].
  replace (lastTotal d - lastNeed d) with (len pend) by (rewrite Htotal, Hu, Hk, !len_app; lia).
  assert (bytes e) as Hb by (apply Forall_app in Hcont as [Hcont _]; eapply Forall_impl; [exact Hcont|]; by intros b [? _]).
  pose proof (copy_middle [] e [] pend M Q) as Hcopy. rewrite app_nil_r in Hcopy. cbn [app] in Hcopy. change (len []) with 0 in Hcopy.
  rewrite Z.add_0_l in Hcopy. rewrite Hsplit, Hcopy by done. cbn [js_bind fst]. eexists. split; [done|].
  constructor; cbn [enc lastChar keep need lastNeed lastTotal]; [done| |].
  - rewrite Hsplit, !len_app in Hlc. rewrite !len_app. unfold len in *. lia.
  - right. exists c, cs, k. split; [done|]. split; [by rewrite Hu, Hk, app_assoc|]. split; [by destruct pend|]. split; [done|]. split; [lia|]. split; [done|].
    rewrite app_assoc. apply take_app_length.
Qed.

Lemma fill_done e : bytes (suf ++ e) ->
  exists d', fillLast d (suf ++ e) = Ok (Some (utf16 c), d') /\ enc d' = Utf8 /\ len (lastChar d') = 4 /\ lastNeed d' = len suf.
Proof using All.
  intros Hb. destruct suf_cont as [Hcont H4]. pose proof (len_pos suf Hs). pose proof (len_nonneg e).
  unfold fillLast. rewrite Henc. rewrite check_extra; [|lia|len_lia|].
  2: { intros i Hi _. apply cont_idx0; [done|lia]. }
  unfold fill_bytes. destruct (Z.leb_spec (lastNeed d) (len (suf ++ e))); [|len_lia].
  destruct (kept_split (lastChar d) pend (length suf) Hkept) as (M & Q & Hsplit & HM); [unfold len in *; lia|].
  replace (lastTotal d - lastNeed d) with (len pend) by (rewrite Htotal, Hu, len_app; lia).
  pose proof (copy_middle [] suf e pend M Q Hb Hs HM) as Hcopy. cbn [app] in Hcopy. change (len []) with 0 in Hcopy.
  rewrite Z.add_0_l, <- Hneed in Hcopy. rewrite Hsplit, Hcopy. cbn [js_bind fst lastChar keep enc lastTotal]. rewrite Henc.
  change (enc_name Utf8) with "utf8"%string. pose proof (toString_middle [] [c] Q (Some (lastTotal d))) as Hts. cbn [app] in Hts. change (len []) with 0 in Hts.
  replace (utf8s [c]) with (pend ++ suf) in Hts by (rewrite <- Hu; unfold utf8s; cbn; by rewrite app_nil_r).
  rewrite <- app_assoc in Hts. rewrite Hts; [|by constructor| |left; f_equal; rewrite Htotal, Hu; lia].
  - cbn [js_bind]. eexists. split; [unfold utf16s; cbn [map concat]; by rewrite app_nil_r|]. cbn [enc lastChar keep lastNeed]. split; [done|].
    split; [|done]. rewrite Hsplit, !len_app in Hlc. rewrite !len_app. unfold len in *. lia.
  - rewrite Hsplit, !len_app in Hlc. rewrite !len_app. unfold len in *. lia.
Qed.
End Fill.

(** ** [write] *)

Lemma write_fresh d cs e Y : Forall scalar cs -> enc d = Utf8 -> len (lastChar d) = 4 -> lastNeed d = 0 -> e <> [] -> e ++ Y = utf8s cs -> len e < 2 ^ 31 ->
  exists cs1 cs2 pend d', cs = cs1 ++ cs2 /\ e = utf8s cs1 ++ pend /\ pend ++ Y = utf8s cs2
    /\ write_chunk d e = Ok (utf16s cs1, d') /\ pending d' pend cs2.
Proof.
  intros Hcs Henc Hlc Hneed He Hstream Hlen. destruct (utf8_split cs e Y Hstream) as (cs1 & cs2 & pend & -> & -> & Hrest & Hpend).
  destruct (text_utf8 d [] cs1 pend cs2) as (d' & Ht & Hd'); try done; [constructor|].
  exists cs1, cs2, pend, d'. repeat (split; [done|]). split; [|done]. unfold write_chunk. rewrite Henc.
  pose proof (len_pos _ He). destruct (Z.eqb_spec (len (utf8s cs1 ++ pend)) 0); [lia|]. rewrite Hneed. cbn [Z.eqb js_bind].
  destruct (Z.ltb_spec 0 (len (utf8s cs1 ++ pend))); [|lia]. cbn [app] in Ht. change (len []) with 0 in Ht. rewrite Ht. done.
Qed.

Lemma write_filled d pend c cs suf e Y : Forall scalar (c :: cs) -> pending d pend (c :: cs) -> utf8 c = pend ++ suf -> pend <> [] -> suf <> [] ->
  e ++ Y = utf8s cs -> len (suf ++ e) < 2 ^ 31 ->
  exists cs1 cs2 pend' d', cs = cs1 ++ cs2 /\ e = utf8s cs1 ++ pend' /\ pend' ++ Y = utf8s cs2
    /\ write_chunk d (suf ++ e) = Ok (utf16s (c :: cs1), d') /\ pending d' pend' cs2.
Proof.
  intros Hcs [Henc Hlc Hpend] Hu Hp Hs Hstream Hlen. destruct Hpend as [[? _]|(? & ? & suf' & [= <- <-] & Hu' & _ & _ & Hneed & Htotal & Hkept)]; [done|].
  assert (suf' = suf) as -> by (rewrite Hu in Hu'; by apply app_inv_head in Hu'). apply Forall_cons in Hcs as [Hc Hcs].
  assert (bytes suf) as Hsb by (pose proof (scalar_bytes c Hc) as H; rewrite Hu in H; unfold bytes in H; by apply Forall_app in H as [_ H]).
  assert (bytes e) as Heb by (pose proof (scalars_bytes cs Hcs) as H; rewrite <- Hstream in H; unfold bytes in H; by apply Forall_app in H as [H _]).
  destruct (fill_done d pend c cs suf Henc Hlc Hc Hu Hp Hs Hneed Htotal Hkept e) as (d1 & Hf & He1 & Hl1 & Hn1); [by apply Forall_app|].
  pose proof (len_pos suf Hs) as Hs0. pose proof (len_nonneg e) as He0.
  assert (forall t d2, (if len suf <? len (suf ++ e) then x <-! text (need 0 d1) (suf ++ e) (len suf) ;; Ok (utf16 c ++ fst x, snd x) else Ok (utf16 c, need 0 d1)) = Ok (t, d2)
    -> write_chunk d (suf ++ e) = Ok (t, d2)) as Hw.
  { intros t d2 Heq. unfold write_chunk. rewrite Henc. destruct (Z.eqb_spec (len (suf ++ e)) 0); [len_lia|]. rewrite Hneed.
    destruct (Z.eqb_spec (len suf) 0); [lia|]. rewrite Hf. cbn [js_bind]. rewrite Hn1. exact Heq. }
  destruct e as [|b e].
  - exists [], cs, [], (need 0 d1). cbn [app] in *. repeat (split; [done|]). split.
    + apply Hw. rewrite app_nil_r, Z.ltb_irrefl. unfold utf16s. cbn [map concat]. by rewrite app_nil_r.
    + constructor; [done|done|by left].
  - destruct (utf8_split cs (b :: e) Y Hstream) as (cs1 & cs2 & pend' & -> & Heq & Hrest & Hpend').
    destruct (text_utf8 (need 0 d1) suf cs1 pend' cs2) as (d' & Ht & Hd'); try done; [by rewrite <- Heq|by rewrite <- Heq|].
    exists cs1, cs2, pend', d'. repeat (split; [done|]). split; [|done]. apply Hw. rewrite Heq, Ht. cbn [js_bind fst snd].
    destruct (Z.ltb_spec (len suf) (len (suf ++ utf8s cs1 ++ pend'))); [done|]. rewrite <- Heq in *. len_lia.
Qed.

Lemma write_step d pend cs e Y : Forall scalar cs -> pending d pend cs -> pend ++ e ++ Y = utf8s cs -> len e < 2 ^ 31 ->
  exists cs1 cs2 pend' d', cs = cs1 ++ cs2 /\ pend ++ e = utf8s cs1 ++ pend' /\ pend' ++ Y = utf8s cs2
    /\ write_chunk d e = Ok (utf16s cs1, d') /\ pending d' pend' cs2.
Proof.
  intros Hcs Hd Hstream Hlen. destruct e as [|b e].
  { exists [], cs, pend, d. rewrite app_nil_r. repeat (split; [done|]). split; [|done]. unfold write_chunk. by rewrite (pending_enc _ _ _ Hd). }
  pose proof Hd as [Henc Hlc [[-> Hneed]|(c & cs' & suf & -> & Hu & Hp & Hs & Hneed & Htotal & Hkept)]]; [by apply write_fresh|].
  rewrite utf8s_cons, Hu, <- app_assoc in Hstream. apply app_inv_head in Hstream.
  assert (forall k, b :: e = suf ++ k -> k ++ Y = utf8s cs' ->
    exists cs1 cs2 pend' d', c :: cs' = cs1 ++ cs2 /\ pend ++ b :: e = utf8s cs1 ++ pend' /\ pend' ++ Y = utf8s cs2
      /\ write_chunk d (b :: e) = Ok (utf16s cs1, d') /\ pending d' pend' cs2) as Hfill.
  { intros k Hk HkY. destruct (write_filled d pend c cs' suf k Y) as (cs1 & cs2 & pend' & d' & -> & -> & Hrest & Hw & Hd'); try done; [by rewrite <- Hk|].
    exists (c :: cs1), cs2, pend', d'. rewrite Hk. split; [done|]. split; [by rewrite utf8s_cons, Hu, <- !app_assoc|done]. }
  apply app_eq_inv in Hstream as [(k & Hk & HkY)|(k & Hk & HkY)]; [by apply (Hfill k)|].
  destruct k as [|x k]; [rewrite app_nil_r in Hk; apply (Hfill []); [by rewrite app_nil_r|done]|].
  apply Forall_cons in Hcs as [Hc Hcs].
  destruct (fill_more d pend c cs' suf Henc Hlc Hc Hu Hp Hs Hneed Htotal Hkept (b :: e) (x :: k) Hk) as (d' & Hf & Hd'); [done..|].
  exists [], (c :: cs'), (pend ++ b :: e), d'. split; [done|]. split; [done|].
  split; [rewrite <- app_assoc, HkY, utf8s_cons, Hu, Hk, <- !app_assoc; done|]. split; [|done]. unfold write_chunk. rewrite Henc.
  pose proof (len_pos (b :: e)) as Hb. destruct (Z.eqb_spec (len (b :: e)) 0); [rewrite len_cons in *; pose proof (len_nonneg e); lia|].
  pose proof (len_pos suf Hs). rewrite Hneed. destruct (Z.eqb_spec (len suf) 0); [lia|]. by rewrite Hf.
Qed.

Lemma write_all_step l : forall d pend cs Y, Forall scalar cs -> pending d pend cs -> pend ++ concat l ++ Y = utf8s cs -> Forall (fun e => len e < 2 ^ 31) l ->
  exists cs1 cs2 pend' d', cs = cs1 ++ cs2 /\ pend ++ concat l = utf8s cs1 ++ pend' /\ write_all d l = Ok (utf16s cs1, d') /\ pending d' pend' cs2.
Proof.
  induction l as [|e l IH]; intros d pend cs Y Hcs Hd Hstream Hl.
  { exists [], cs, pend, d. cbn [concat]. rewrite app_nil_r. done. }
  apply Forall_cons in Hl as [He Hl]. cbn [concat] in *. rewrite <- app_assoc in Hstream.
  destruct (write_step d pend cs e (concat l ++ Y) Hcs Hd Hstream He) as (cs1 & cs2 & pend1 & d1 & -> & Hp1 & Hrest & Hw1 & Hd1).
  apply Forall_app in Hcs as [Hcs1 Hcs2].
  destruct (IH d1 pend1 cs2 Y Hcs2 Hd1 Hrest Hl) as (cs3 & cs4 & pend2 & d2 & -> & Hp2 & Hw2 & Hd2).
  exists (cs1 ++ cs3), cs4, pend2, d2. split; [by rewrite app_assoc|].
  split; [by rewrite app_assoc, Hp1, <- app_assoc, Hp2, utf8s_app, app_assoc|]. split; [|done].
  cbn [write_all]. rewrite Hw1. cbn [js_bind fst snd]. rewrite Hw2. cbn [js_bind fst snd]. unfold utf16s. by rewrite map_app, concat_app.
Qed.

(** C29: however the UTF-8 bytes of a stream are cut into chunks, also within
    characters, writing the chunks gives the characters that have arrived
    completely, and [end] adds a replacement character exactly if a character
    is cut off there. *)
Theorem decoder_utf8 (cs : list Z) (l : list buffer) (Y : buffer) (n : string) :
  Forall scalar cs -> concat l ++ Y = utf8s cs -> Forall (fun e => len e < 2 ^ 31) l -> normalizeEncoding n = Some Utf8 ->
  exists d0 d cs1 pend, new_decoder n = Ok d0 /\ concat l = utf8s cs1 ++ pend /\ (exists cs2, cs = cs1 ++ cs2)
    /\ write_all d0 l = Ok (utf16s cs1, d)
    /\ end_chunk d [] = Ok (if decide (pend = []) then [] else [65533], d)
    /\ (Y = [] -> cs1 = cs /\ pend = []).
Proof.
  intros Hcs Hstream Hl Hn. assert (new_decoder n = Ok (Decoder Utf8 0 0 [0; 0; 0; 0])) as Hnew by (unfold new_decoder; by rewrite Hn).
  set (d0 := Decoder Utf8 0 0 [0; 0; 0; 0]) in *. assert (pending d0 [] cs) as Hd0 by (constructor; [done|done|by left]).
  destruct (write_all_step l d0 [] cs Y Hcs Hd0 Hstream Hl) as (cs1 & cs2 & pend & d & Hcs12 & Hp & Hw & Hd). cbn [app] in Hp.
  exists d0, d, cs1, pend. split; [done|]. split; [done|]. split; [by exists cs2|]. split; [done|]. split.
  - unfold end_chunk. change (len [] =? 0) with true. cbn [js_bind]. destruct Hd as [Henc _ [[-> ->]|(c & cs' & suf & _ & _ & Hp' & Hs & Hneed & _)]]; [done|].
    pose proof (len_pos suf Hs). rewrite Hneed, Henc. destruct (Z.eqb_spec (len suf) 0); [lia|]. by rewrite decide_False.
  - intros ->. rewrite app_nil_r in Hstream. rewrite Hstream, Hcs12, utf8s_app in Hp. apply app_inv_head in Hp.
    destruct Hd as [_ _ [[-> _]|(c & cs' & suf & -> & Hu & _ & Hs & _)]].
    + destruct cs2 as [|c cs2]; [by rewrite app_nil_r in Hcs12|]. rewrite utf8s_cons in Hp. exfalso. subst cs. apply Forall_app in Hcs as [_ [Hc _]%Forall_cons].
      destruct (utf8_shape c Hc) as (b & ks & Hb & _). by rewrite Hb in Hp.
    + exfalso. rewrite utf8s_cons, Hu, <- app_assoc in Hp. rewrite <- (app_nil_r pend) in Hp at 2. apply app_inv_head in Hp. by destruct suf.
Qed.

Lemma decoder_utf8_witness :
  exists d, write_all (Decoder Utf8 0 0 [0; 0; 0; 0]) [[104; 195]; [169; 240; 159]; [152; 128]] = Ok ([104; 233; 55357; 56832], d).
Proof.
  destruct (decoder_utf8 [104; 233; 128512] [[104; 195]; [169; 240; 159]; [152; 128]] [] "UTF-8") as (d0 & d & cs1 & pend & Hd0 & Hc & _ & Hw & _ & Hall).
  - repeat constructor; unfold isPoint; lia.
  - vm_compute. reflexivity.
  - repeat constructor; vm_compute; reflexivity.
  - vm_compute. reflexivity.
  - exists d. destruct (Hall eq_refl) as [-> ->]. vm_compute in Hd0. injection Hd0 as <-. exact Hw.
Defined.
