(* ===== verification/FeeMarket.v ===== *)
(** * The fee market

    The base fee of x/feemarket: its parameters and their validation
    (x/feemarket/types/params.go), the computation of the base fee from the gas
    of the parent block (x/feemarket/keeper/eip1559.go) and what the module
    does at the beginning and the end of a block (x/feemarket/keeper/abci.go).

    A [big.Int] or [sdkmath.Int] is a [Z]; a decimal is its integer of
    [10 ^ -18] units, which is what [sdkmath.LegacyDec] holds.  Machine integers
    are a [Z] in their range.  Telemetry and events are not modelled. *)

From S2P Require Import Prelude.
Local Open Scope Z_scope.

(** A function of Go that may panic. *)
Inductive go (A : Type) : Type := Done (x : A) | Panic.
Arguments Done {A} x.
Arguments Panic {A}.

Definition maxUint64 : Z := 2 ^ 64 - 1.
Definition maxInt64 : Z := 2 ^ 63 - 1.
Definition oneDec : Z := 10 ^ 18.

(** [LegacyDec.TruncateInt] and [LegacyDec.Mul] of a whole number *)
Definition truncateInt (d : Z) : Z := Z.quot d oneDec.
Definition newDec (n : Z) : Z := n * oneDec.

(** ** Parameters *)

Record params : Type := Params {
  NoBaseFee : bool;
  BaseFeeChangeDenominator : Z;
  ElasticityMultiplier : Z;
  BaseFee : Z;
  EnableHeight : Z;
  MinGasPrice : Z;
  MinGasMultiplier : Z
}.

Definition validateMinGasPrice (v : Z) : bool := negb (v <? 0).

Definition validateMinGasMultiplier (v : Z) : bool := if v <? 0 then false else negb (v >? oneDec).

(** [Params.Validate]; [true] is a nil error. *)
Definition Validate (p : params) : bool :=
  if BaseFeeChangeDenominator p =? 0 then false
  else if BaseFee p <? 0 then false
  else if EnableHeight p <? 0 then false
  else if negb (validateMinGasMultiplier (MinGasMultiplier p)) then false
  else if ElasticityMultiplier p =? 0 then false
  else validateMinGasPrice (MinGasPrice p).

Definition IsBaseFeeEnabled (p : params) (height : Z) : bool := negb (NoBaseFee p) && (height >=? EnableHeight p).

(** ** The base fee *)

(** [big.Int.Div]: Euclidean division, which is [Z.div] by a positive number. *)
Definition bigDiv (x y : Z) : go Z := if y =? 0 then Panic else Done (x / y).

Definition bind_go {A B} (m : go A) (k : A -> go B) : go B := match m with Done x => k x | Panic => Panic end.

(** [CalculateBaseFee]; [None] is nil, and [maxGas] the consensus parameter. *)
Definition CalculateBaseFee (p : params) (height : Z) (maxGas : option Z) (parentGasUsed : Z) : go (option Z) :=
  if negb (IsBaseFeeEnabled p height) then Done None
  else if height =? EnableHeight p then Done (Some (BaseFee p))
  else
    let parentBaseFee := BaseFee p in
    let gasLimit := match maxGas with Some m => if m >? -1 then m else maxUint64 | None => maxUint64 end in
    bind_go (bigDiv gasLimit (ElasticityMultiplier p)) (fun parentGasTarget =>
    if negb ((0 <=? parentGasTarget) && (parentGasTarget <=? maxUint64)) then Done None
    else
      let baseFeeChangeDenominator := BaseFeeChangeDenominator p in
      if parentGasUsed =? parentGasTarget then Done (Some parentBaseFee)
      else if parentGasUsed >? parentGasTarget then
        let x := parentBaseFee * (parentGasUsed - parentGasTarget) in
        bind_go (bigDiv x parentGasTarget) (fun y =>
        bind_go (bigDiv y baseFeeChangeDenominator) (fun d =>
        let baseFeeDelta := Z.max d 1 in
        Done (Some (parentBaseFee + baseFeeDelta))))
      else
        let x := parentBaseFee * (parentGasTarget - parentGasUsed) in
        bind_go (bigDiv x parentGasTarget) (fun y =>
        bind_go (bigDiv y baseFeeChangeDenominator) (fun baseFeeDelta =>
        let minGasPrice := truncateInt (MinGasPrice p) in
        Done (Some (Z.max (parentBaseFee - baseFeeDelta) minGasPrice))))).

(** ** Blocks *)

(** [types.SaturatedNewInt], with [sdkmath.MaxBitLen] *)
Definition maxBitLen : Z := 256.
Definition MaxInt256 : Z := 2 ^ maxBitLen - 1.
Definition IsValidInt256 (i : Z) : bool := Z.abs i <? 2 ^ maxBitLen.
Definition SaturatedNewInt (i : Z) : Z := if negb (IsValidInt256 i) then MaxInt256 else i.

(** What the module stores. *)
Record market : Type := Market { stored : params; blockGasWanted : Z }.

Definition SetParams (s : market) (p : params) : market := if Validate p then Market p (blockGasWanted s) else s.

Definition SetBaseFee (s : market) (baseFee : Z) : market :=
  let p := stored s in
  SetParams s (Params (NoBaseFee p) (BaseFeeChangeDenominator p) (ElasticityMultiplier p) (SaturatedNewInt baseFee)
    (EnableHeight p) (MinGasPrice p) (MinGasMultiplier p)).

Definition BeginBlock (s : market) (height : Z) (maxGas : option Z) : go market :=
  bind_go (CalculateBaseFee (stored s) height maxGas (blockGasWanted s)) (fun baseFee =>
  match baseFee with None => Done s | Some f => Done (SetBaseFee s f) end).

(** [EndBlock]; [None] is its error.  The product of a whole number and a decimal
    is exact. *)
Definition EndBlock (s : market) (gasWanted gasUsed : Z) : option market :=
  if gasWanted >? maxInt64 then None
  else if gasUsed >? maxInt64 then None
  else
    let minGasMultiplier := MinGasMultiplier (stored s) in
    let limitedGasWanted := gasWanted * minGasMultiplier in
    let gasWanted := truncateInt (Z.max limitedGasWanted (newDec gasUsed)) in
    Some (Market (stored s) gasWanted).

(** ** Theorems *)

Lemma Validate_spec p : Validate p = true <->
  BaseFeeChangeDenominator p <> 0 /\ 0 <= BaseFee p /\ 0 <= EnableHeight p /\ 0 <= MinGasMultiplier p <= oneDec
  /\ ElasticityMultiplier p <> 0 /\ 0 <= MinGasPrice p.
Proof.
  unfold Validate, validateMinGasPrice, validateMinGasMultiplier.
  destruct (Z.eqb_spec (BaseFeeChangeDenominator p) 0), (Z.ltb_spec (BaseFee p) 0), (Z.ltb_spec (EnableHeight p) 0); try (split; [done|lia]).
  destruct (Z.ltb_spec (MinGasMultiplier p) 0), (Z.gtb_spec (MinGasMultiplier p) oneDec); cbn [negb]; try (split; [done|lia]).
  destruct (Z.eqb_spec (ElasticityMultiplier p) 0), (Z.ltb_spec (MinGasPrice p) 0); cbn [negb]; split; done || lia.
Qed.

(** The types of the parameters: 32-bit multipliers. *)
Definition typed (p : params) : Prop := 0 <= BaseFeeChangeDenominator p < 2 ^ 32 /\ 0 <= ElasticityMultiplier p < 2 ^ 32.

Definition limit_of (maxGas : option Z) : Z := match maxGas with Some m => if m >? -1 then m else maxUint64 | None => maxUint64 end.

Definition target (p : params) (maxGas : option Z) : Z := limit_of maxGas / ElasticityMultiplier p.

Definition limit_ok (maxGas : option Z) : Prop := match maxGas with Some m => m <= maxInt64 | None => True end.

(** The fee when the parent used [used] of the gas target [t]. *)
Definition next_fee (p : params) (t used : Z) : Z :=
  let b := BaseFee p in
  let d := BaseFeeChangeDenominator p in
  if used =? t then b
  else if used >? t then b + Z.max (b * (used - t) / t / d) 1
  else Z.max (b - b * (t - used) / t / d) (truncateInt (MinGasPrice p)).

Lemma limit_range maxGas : limit_ok maxGas -> 0 <= limit_of maxGas <= maxUint64.
Proof. unfold limit_of, limit_ok, maxUint64, maxInt64. destruct maxGas as [m|]; [destruct (Z.gtb_spec m (-1)); lia|lia]. Qed.

Lemma CalculateBaseFee_next p height maxGas used :
  Validate p = true -> typed p -> limit_ok maxGas -> IsBaseFeeEnabled p height = true -> height <> EnableHeight p -> 0 < target p maxGas ->
  CalculateBaseFee p height maxGas used = Done (Some (next_fee p (target p maxGas) used)).
Proof.
  intros (Hd & Hb & _ & _ & He & _)%Validate_spec [Hd32 He32] Hm Hen Hh Ht. unfold CalculateBaseFee. rewrite Hen. cbn [negb].
  destruct (Z.eqb_spec height (EnableHeight p)); [done|]. fold (limit_of maxGas). unfold bigDiv at 1.
  destruct (Z.eqb_spec (ElasticityMultiplier p) 0); [done|]. cbn [bind_go]. fold (target p maxGas).
  pose proof (limit_range maxGas Hm) as Hl.
  assert (target p maxGas <= maxUint64) as Htm by (unfold target; apply Z.div_le_upper_bound; [lia|]; unfold maxUint64 in *; nia).
  destruct (Z.leb_spec 0 (target p maxGas)), (Z.leb_spec (target p maxGas) maxUint64); try lia. cbn [andb negb].
  unfold next_fee, bigDiv. destruct (used =? target p maxGas); [done|].
  destruct (Z.eqb_spec (target p maxGas) 0); [lia|]. destruct (Z.eqb_spec (BaseFeeChangeDenominator p) 0); [done|]. cbn [bind_go].
  by destruct (used >? target p maxGas).
Qed.

Lemma share_le b g t d : 0 <= b -> 0 < t -> 0 < d -> 0 <= g -> 0 <= b * g / t / d /\ (forall k, g <= k * t -> b * g / t / d <= b * k / d).
Proof.
  intros Hb Ht Hd Hg. split; [apply Z.div_pos; [apply Z.div_pos; nia|done]|]. intros k Hk. apply Z.div_le_mono; [done|].
  apply Z.div_le_upper_bound; nia.
Qed.

Lemma share_mono b g g' t d : 0 <= b -> 0 < t -> 0 < d -> g <= g' -> b * g / t / d <= b * g' / t / d.
Proof. intros. apply Z.div_le_mono; [done|]. apply Z.div_le_mono; [done|]. nia. Qed.

Lemma next_fee_bounds p t used :
  0 <= BaseFee p -> 0 < BaseFeeChangeDenominator p -> 0 < t -> 0 <= used ->
  0 <= next_fee p t used
  /\ (used = t -> next_fee p t used = BaseFee p)
  /\ (forall e, t < used <= e * t ->
        BaseFee p < next_fee p t used <= BaseFee p + Z.max (BaseFee p * (e - 1) / BaseFeeChangeDenominator p) 1)
  /\ (used < t ->
        truncateInt (MinGasPrice p) <= next_fee p t used /\ BaseFee p - BaseFee p / BaseFeeChangeDenominator p <= next_fee p t used
        /\ (truncateInt (MinGasPrice p) <= BaseFee p -> next_fee p t used <= BaseFee p))
  /\ (forall used', used <= used' -> truncateInt (MinGasPrice p) <= BaseFee p -> next_fee p t used <= next_fee p t used').
Proof.
  intros Hb Hd Ht Hu. unfold next_fee. set (b := BaseFee p) in *. set (d := BaseFeeChangeDenominator p) in *.
  assert (forall g, 0 <= g -> 0 <= b * g / t / d) as Hpos by (intros g Hg; apply share_le; lia).
  assert (used < t -> b * (t - used) / t / d <= b / d) as Hdown.
  { intros Hlt. destruct (share_le b (t - used) t d) as [_ Hs]; try lia. specialize (Hs 1 ltac:(lia)). by rewrite Z.mul_1_r in Hs. }
  assert (0 <= b / d <= b) as Hself by (split; [apply Z.div_pos; lia|apply Z.div_le_upper_bound; nia]).
  pose proof (Hpos (used - t)) as Hp1. pose proof (Hpos (t - used)) as Hp2.
  split; [|split; [|split; [|split]]].
  - destruct (Z.eqb_spec used t), (Z.gtb_spec used t); lia.
  - intros ->. by rewrite Z.eqb_refl.
  - intros e He. destruct (share_le b (used - t) t d) as [_ Hs]; try lia. specialize (Hs (e - 1) ltac:(lia)).
    destruct (Z.eqb_spec used t), (Z.gtb_spec used t); lia.
  - intros Hlt. destruct (Z.eqb_spec used t), (Z.gtb_spec used t); lia.
  - intros used' Hu' Hmin. pose proof (Hpos (used' - t)).
    pose proof (share_mono b (used - t) (used' - t) t d). pose proof (share_mono b (t - used') (t - used) t d).
    destruct (Z.eqb_spec used t), (Z.eqb_spec used' t), (Z.gtb_spec used t), (Z.gtb_spec used' t); lia.
Qed.

(** C35: the base fee where it is enabled, not at the enable height itself, with
    valid parameters (32-bit multipliers), a limit of the block below 2^63 if
    there is one, and a positive gas target.  If the parent block used more gas
    than the target it rises, by at least 1 and at most the share [(e - 1) / d]
    of it (or 1) when the parent used at most [e] times the target; at the
    target it does not change; if the parent used less it is at least the
    minimal gas price and at least [1 - 1 / d] of what it was, and, unless it
    was below the minimal gas price, it does not rise.  Unless it was below that
    price, it is monotone in the gas of the parent. *)
Theorem base_fee_bounds (p : params) (height : Z) (maxGas : option Z) (used : Z) :
  Validate p = true -> typed p -> limit_ok maxGas -> IsBaseFeeEnabled p height = true -> height <> EnableHeight p ->
  0 < target p maxGas -> 0 <= used ->
  exists fee, CalculateBaseFee p height maxGas used = Done (Some fee) /\ 0 <= fee
    /\ (used = target p maxGas -> fee = BaseFee p)
    /\ (forall e, target p maxGas < used <= e * target p maxGas ->
          BaseFee p < fee <= BaseFee p + Z.max (BaseFee p * (e - 1) / BaseFeeChangeDenominator p) 1)
    /\ (used < target p maxGas ->
          truncateInt (MinGasPrice p) <= fee /\ BaseFee p - BaseFee p / BaseFeeChangeDenominator p <= fee
          /\ (truncateInt (MinGasPrice p) <= BaseFee p -> fee <= BaseFee p))
    /\ (forall used', used <= used' -> truncateInt (MinGasPrice p) <= BaseFee p ->
          exists fee', CalculateBaseFee p height maxGas used' = Done (Some fee') /\ fee <= fee').
Proof.
  intros Hv Hty Hm Hen Hh Ht Hu. pose proof Hv as (Hd & Hb & _ & _ & He & _)%Validate_spec. pose proof Hty as [Hd32 _].
  destruct (next_fee_bounds p (target p maxGas) used) as (H0 & Heq & Hup & Hdown & Hmono); try lia.
  exists (next_fee p (target p maxGas) used). split; [by apply CalculateBaseFee_next|]. repeat (split; [done|]).
  intros used' Hu' Hmin. eexists. split; [by apply CalculateBaseFee_next|]. by apply Hmono.
Qed.

Definition sample_params : params := Params false 8 2 1000000000 0 0 (oneDec / 2).

Lemma base_fee_bounds_witness :
  exists fee, CalculateBaseFee sample_params 5 (Some 30000000) 22500000 = Done (Some fee) /\ 1000000000 < fee <= 1125000000.
Proof.
  destruct (base_fee_bounds sample_params 5 (Some 30000000) 22500000) as (fee & Hf & _ & _ & Hup & _).
  - vm_compute. reflexivity.
  - split; vm_compute; intuition congruence.
  - vm_compute. congruence.
  - vm_compute. reflexivity.
  - vm_compute. congruence.
  - vm_compute. reflexivity.
  - vm_compute. congruence.
  - exists fee. split; [exact Hf|]. apply (Hup 2). vm_compute. intuition congruence.
Defined.

(** ** Sequences of blocks *)

(** A block: its height, and the gas its transactions wanted and used. *)
Record block : Type := Block { height : Z; wanted : Z; usedGas : Z }.

Definition run_block (maxGas : option Z) (s : market) (b : block) : go (option market) :=
  bind_go (BeginBlock s (height b) maxGas) (fun s => Done (EndBlock s (wanted b) (usedGas b))).

(** What holds of the stored state between blocks. *)
Definition market_ok (s : market) : Prop :=
  Validate (stored s) = true /\ typed (stored s) /\ BaseFee (stored s) <= MaxInt256 /\ 0 <= blockGasWanted s <= maxInt64.

Lemma saturated_range f : 0 <= f -> 0 <= SaturatedNewInt f <= MaxInt256.
Proof.
  intros Hf. unfold SaturatedNewInt, IsValidInt256, MaxInt256, maxBitLen. rewrite Z.abs_eq by done.
  destruct (Z.ltb_spec f (2 ^ 256)); cbn [negb]; lia.
Qed.

Lemma SetBaseFee_ok s f : market_ok s -> 0 <= f ->
  market_ok (SetBaseFee s f) /\ BaseFee (stored (SetBaseFee s f)) = SaturatedNewInt f /\ blockGasWanted (SetBaseFee s f) = blockGasWanted s
  /\ (forall m, target (stored (SetBaseFee s f)) m = target (stored s) m) /\ MinGasMultiplier (stored (SetBaseFee s f)) = MinGasMultiplier (stored s).
Proof.
  intros (Hv & Hty & Hb & Hg) Hf. pose proof (saturated_range f Hf) as Hs. unfold SetBaseFee, SetParams. set (p' := Params _ _ _ _ _ _ _).
  assert (Validate p' = true) as Hv' by (apply Validate_spec; apply Validate_spec in Hv; unfold p'; cbn; intuition lia).
  rewrite Hv'. cbn [stored blockGasWanted]. split; [|done]. split; [done|]. split; [done|]. split; [cbn; lia|done].
Qed.

(** The limit on what a block that wants more than it uses can count. *)
Lemma EndBlock_gas s w u : market_ok s -> 0 <= u <= w -> w <= maxInt64 ->
  exists s', EndBlock s w u = Some s' /\ stored s' = stored s /\ u <= blockGasWanted s' <= w
    /\ blockGasWanted s' = Z.max (w * MinGasMultiplier (stored s) / oneDec) u.
Proof.
  intros (Hv & _) Hu Hw. apply Validate_spec in Hv as (_ & _ & _ & Hm & _). unfold EndBlock.
  destruct (Z.gtb_spec w maxInt64); [lia|]. destruct (Z.gtb_spec u maxInt64); [lia|]. eexists. split; [done|]. cbn [stored blockGasWanted].
  assert (0 < oneDec) as H1 by done. unfold truncateInt, newDec. set (m := MinGasMultiplier (stored s)) in *.
  assert (0 <= w * m <= w * oneDec) as Hwm by nia.
  rewrite Z.quot_div_nonneg by nia.
  assert (Z.max (w * m) (u * oneDec) / oneDec = Z.max (w * m / oneDec) u) as Heq.
  { destruct (Z.max_spec (w * m) (u * oneDec)) as [[Hmax ->]|[Hmax ->]].
    - rewrite Z.div_mul by lia. rewrite Z.max_r; [done|]. apply Z.div_le_upper_bound; lia.
    - rewrite Z.max_l; [done|]. apply Z.div_le_lower_bound; lia. }
  rewrite Heq. assert (w * m / oneDec <= w) by (apply Z.div_le_upper_bound; lia). repeat split; lia.
Qed.

Lemma saturated_id f : 0 <= f <= MaxInt256 -> SaturatedNewInt f = f.
Proof.
  intros Hf. unfold SaturatedNewInt, IsValidInt256. rewrite Z.abs_eq by lia. unfold MaxInt256 in Hf. destruct (Z.ltb_spec f (2 ^ maxBitLen)); [done|lia].
Qed.

(** Whether the base fee moves in a block *)
Definition active (s : market) (height : Z) : Prop := IsBaseFeeEnabled (stored s) height = true /\ height <> EnableHeight (stored s).

(** The new base fee, before it is cut at 256 bits, and the state *)
Lemma BeginBlock_spec maxGas s height : market_ok s -> limit_ok maxGas -> (active s height -> 0 < target (stored s) maxGas) ->
  exists s1 fee, BeginBlock s height maxGas = Done s1 /\ market_ok s1 /\ BaseFee (stored s1) = SaturatedNewInt fee
    /\ (forall m, target (stored s1) m = target (stored s) m) /\ MinGasMultiplier (stored s1) = MinGasMultiplier (stored s)
    /\ (fee = BaseFee (stored s) \/ active s height /\ fee = next_fee (stored s) (target (stored s) maxGas) (blockGasWanted s))
    /\ (~ active s height -> s1 = s).
Proof.
  intros Hok Hm Ht. pose proof Hok as (Hv & Hty & Hbm & Hg). pose proof Hv as (Hd & Hb & _)%Validate_spec. pose proof Hty as [Hd32 _]. unfold BeginBlock.
  pose proof (saturated_id (BaseFee (stored s)) ltac:(lia)) as Hid.
  destruct (IsBaseFeeEnabled (stored s) height) eqn:Hen.
  - destruct (Z.eq_dec height (EnableHeight (stored s))) as [Hh|Hh].
    + unfold CalculateBaseFee. rewrite Hen. cbn [negb]. rewrite (proj2 (Z.eqb_eq _ _) Hh). cbn [bind_go].
      exists (SetBaseFee s (BaseFee (stored s))), (BaseFee (stored s)). assert (SetBaseFee s (BaseFee (stored s)) = s) as ->.
      { unfold SetBaseFee, SetParams. rewrite Hid. destruct s as [[]]. cbn in *. by rewrite Hv. }
      split; [done|]. split; [done|]. split; [done|]. split; [done|]. split; [done|]. split; [by left|done].
    + specialize (Ht (conj Hen Hh)). rewrite CalculateBaseFee_next by done. cbn [bind_go].
      destruct (next_fee_bounds (stored s) (target (stored s) maxGas) (blockGasWanted s)) as (H0 & _); try lia.
      destruct (SetBaseFee_ok s _ Hok H0) as (Hok1 & Hfee & _ & Htar & Hmul). do 2 eexists. split; [done|]. do 4 (split; [done|]).
      split; [right; by split|]. by intros [].
  - unfold CalculateBaseFee. rewrite Hen. cbn [negb bind_go]. exists s, (BaseFee (stored s)). do 3 (split; [done|]). do 2 (split; [done|]). split; [by left|done].
Qed.

(** The bounds of a fee that is kept or moves *)
Lemma fee_bounds s fee t (act : Prop) : market_ok s -> (act -> 0 < t) ->
  (fee = BaseFee (stored s) \/ act /\ fee = next_fee (stored s) t (blockGasWanted s)) ->
  let b := BaseFee (stored s) in let d := BaseFeeChangeDenominator (stored s) in
  0 <= fee /\ b - b / d <= fee
  /\ (truncateInt (MinGasPrice (stored s)) <= b -> forall e, 1 <= e -> blockGasWanted s <= e * t -> truncateInt (MinGasPrice (stored s)) <= fee <= b + Z.max (b * (e - 1) / d) 1).
Proof.
  intros (Hv & Hty & Hbm & Hg) Ht Hfee b d. pose proof Hv as (Hd & Hb & _)%Validate_spec. pose proof Hty as [Hd32 _]. fold b d in Hd, Hb, Hd32.
  assert (0 <= b / d) as H0 by (apply Z.div_pos; lia).
  assert (forall e, 1 <= e -> 0 <= b * (e - 1) / d) as He0 by (intros e He; apply Z.div_pos; nia).
  destruct Hfee as [->|[Hact ->]]; [split; [done|]; split; [lia|]; intros Hmin e He _; specialize (He0 e He); lia|]. specialize (Ht Hact).
  destruct (next_fee_bounds (stored s) t (blockGasWanted s)) as (Hpos & Heq & Hup & Hdown & _); try lia. fold b d in Heq, Hup, Hdown. split; [done|].
  destruct (Z.lt_trichotomy (blockGasWanted s) t) as [Hlt|[Hqq|Hgt]].
  - destruct (Hdown Hlt) as (H1 & H2 & H3). split; [done|]. intros Hmin e He _. specialize (He0 e He). specialize (H3 Hmin). lia.
  - rewrite (Heq Hqq). split; [lia|]. intros Hmin e He _. specialize (He0 e He). lia.
  - split; [destruct (Hup (blockGasWanted s)); nia|]. intros Hmin e He Hcount. specialize (Hup e ltac:(lia)). lia.
Qed.

(** C36: from a valid state (valid parameters with 32-bit multipliers, a base
    fee below 2^256, counted gas below 2^63), with a limit of the block below
    2^63 if there is one, and a positive gas target if the base fee moves in the
    block, a block that used at most what it wanted, which is below 2^63,
    neither panics nor fails, and leaves a valid state.  The gas it counts is
    the greater of what it used and its share of what it wanted.  While the base
    fee is not enabled, and at the height that enables it, the parameters are
    unchanged.  The base fee never falls by more than [1 / d] of itself; if it
    was not below the minimal gas price it stays so, and rises by at most the
    share [(e - 1) / d] (or 1) if the parent counted at most [e] times the
    target. *)
Theorem block_cycle (maxGas : option Z) (s : market) (b : block) :
  market_ok s -> limit_ok maxGas -> (active s (height b) -> 0 < target (stored s) maxGas) ->
  0 <= usedGas b <= wanted b -> wanted b <= maxInt64 ->
  exists s', run_block maxGas s b = Done (Some s') /\ market_ok s'
    /\ usedGas b <= blockGasWanted s' <= wanted b
    /\ blockGasWanted s' = Z.max (wanted b * MinGasMultiplier (stored s) / oneDec) (usedGas b)
    /\ target (stored s') maxGas = target (stored s) maxGas
    /\ (~ active s (height b) -> stored s' = stored s)
    /\ BaseFee (stored s) - BaseFee (stored s) / BaseFeeChangeDenominator (stored s) <= BaseFee (stored s')
    /\ (truncateInt (MinGasPrice (stored s)) <= BaseFee (stored s) ->
          forall e, 1 <= e -> blockGasWanted s <= e * target (stored s) maxGas ->
          truncateInt (MinGasPrice (stored s)) <= BaseFee (stored s')
            <= BaseFee (stored s) + Z.max (BaseFee (stored s) * (e - 1) / BaseFeeChangeDenominator (stored s)) 1).
Proof.
  intros Hok Hm Ht Hu Hw. pose proof Hok as (Hv & _ & Hbm & _). pose proof Hv as (Hd & Hb & _)%Validate_spec.
  destruct (BeginBlock_spec maxGas s (height b) Hok Hm Ht) as (s1 & fee & Hbegin & Hok1 & Hsat & Htar & Hmul & Hfee & Hsame).
  destruct (EndBlock_gas s1 (wanted b) (usedGas b) Hok1 Hu Hw) as (s2 & He & Hst & Hrange & Hgas).
  destruct (fee_bounds s fee (target (stored s) maxGas) _ Hok Ht Hfee) as (H0 & Hlow & Hup).
  exists s2. split; [unfold run_block; rewrite Hbegin; cbn [bind_go]; by rewrite He|].
  split; [destruct Hok1 as (Hv1 & Hty1 & Hb1 & _); unfold market_ok; rewrite Hst; repeat (split; [done|]); lia|].
  split; [done|]. split; [by rewrite Hgas, Hmul|]. split; [by rewrite Hst, Htar|]. split; [intros Hn; by rewrite Hst, (Hsame Hn)|]. rewrite Hst, Hsat.
  assert (SaturatedNewInt fee = Z.min fee MaxInt256) as ->.
  { destruct (Z.le_gt_cases fee MaxInt256); [rewrite saturated_id; lia|]. unfold SaturatedNewInt, IsValidInt256. rewrite Z.abs_eq by done. unfold MaxInt256 in *.
    destruct (Z.ltb_spec fee (2 ^ maxBitLen)); cbn [negb]; lia. }
  assert (0 <= BaseFee (stored s) / BaseFeeChangeDenominator (stored s)) by (destruct Hok as (_ & [? _] & _); apply Z.div_pos; lia).
  split; [lia|]. intros Hmin e He1 Hcount. specialize (Hup Hmin e He1 Hcount). lia.
Qed.

Lemma block_cycle_witness :
  exists s', run_block (Some 30000000) (Market sample_params 30000000) (Block 7 20000000 12000000) = Done (Some s')
    /\ BaseFee (stored s') <= 1000000000 + 125000000.
Proof.
  assert (market_ok (Market sample_params 30000000)) as Hok.
  { split; [vm_compute; reflexivity|]. split; [split; cbn; lia|]. split; [vm_compute; congruence|]. cbn. unfold maxInt64. lia. }
  destruct (block_cycle (Some 30000000) (Market sample_params 30000000) (Block 7 20000000 12000000) Hok) as (s' & Hs & _ & _ & _ & _ & _ & _ & Hup).
  - cbn. unfold maxInt64. lia.
  - intros _. vm_compute. reflexivity.
  - cbn. lia.
  - cbn. unfold maxInt64. lia.
  - exists s'. split; [exact Hs|]. refine (proj2 (Hup _ 2 _ _)); vm_compute; congruence.
Defined.

(** The computation divides by the gas target, which is zero when the gas limit
    of the chain is below the elasticity. *)
Lemma zero_target_panics : CalculateBaseFee sample_params 5 (Some 1) 10 = Panic.
Proof. done. Qed.

(** The minimal gas price bounds the base fee only when it falls: at the target a
    fee below the price stays below it. *)
Lemma floor_not_applied :
  let p := Params false 8 2 1000 0 (5000 * oneDec) 0 in
  CalculateBaseFee p 5 (Some 100) 50 = Done (Some 1000) /\ CalculateBaseFee p 5 (Some 100) 49 = Done (Some 5000).
Proof. done. Qed.
