(* ===== verification/StateDB.v ===== *)
(** * The state database of the EVM

    x/evm/statedb: the objects of accounts and contracts that a transaction
    reads and writes ([stateObject], state_object.go), the access list
    (access_list.go), transient storage (transient_storage.go), native actions
    on the store of the chain (native.go), the journal of changes (journal.go)
    and the database with its snapshots (statedb.go).

    Addresses and hashes are the numbers of their bytes, a hash of zeros is 0.
    Objects are found by their address: an object that another one has
    replaced is only held by the journal, so it is a value here.  A function
    that may panic has an option as result.  Tracers, which only observe, are
    not modelled. *)

From stdpp Require Import gmap sets sorting.
From S2P Require Import Prelude.
Local Open Scope Z_scope.

Notation address := Z (only parsing).
Notation hash := Z (only parsing).

(** [Account] *)
Record account : Type := Account { Nonce : Z; CodeHash : hash }.

Notation Storage := (gmap Z Z) (only parsing).

(** ** The keeper

    What the database asks of the keeper, on a store that is passed around; the
    store is the one of [s.ctx].  An action gives the new store and its events,
    or an error, after which the store is discarded. *)
Class Keeper (MS Ev : Type) : Type := {
  k_GetAccount : MS -> address -> option account;
  k_GetState : MS -> address -> hash -> hash;
  k_GetCode : MS -> hash -> option (list Z);
  k_GetBalance : MS -> address -> Z;
  k_Transfer : address -> address -> Z -> MS -> option (MS * list Ev);
  k_AddBalance : address -> Z -> MS -> option (MS * list Ev);
  k_SubBalance : address -> Z -> MS -> option (MS * list Ev);
  k_SetBalance : address -> Z -> MS -> option (MS * list Ev);
  k_SetAccount : address -> account -> MS -> option MS;
  k_SetState : address -> hash -> hash -> MS -> MS;
  k_SetCode : hash -> list Z -> MS -> MS;
  k_DeleteAccount : address -> MS -> option MS;
  keccak : list Z -> hash
}.

Section Objects.
Context {MS Ev : Type} `{!Keeper MS Ev}.

Definition EmptyCodeHash : hash := keccak [].
Definition NewEmptyAccount : account := Account 0 EmptyCodeHash.

(** ** Objects *)

Record stateObject : Type := StateObject {
  originalAccount : option account;
  acct : account;
  code : option (list Z);
  originStorage : Storage;
  dirtyStorage : Storage;
  overrideStorage : option Storage;
  selfDestructed : bool;
  newContract : bool
}.

Definition newObject (a : option account) : stateObject :=
  StateObject a (default NewEmptyAccount a) None ∅ ∅ None false false.

Definition setCode (h : hash) (c : option (list Z)) (o : stateObject) : stateObject :=
  StateObject (originalAccount o) (Account (Nonce (acct o)) h) c (originStorage o) (dirtyStorage o) (overrideStorage o) (selfDestructed o) (newContract o).
Definition setNonce (n : Z) (o : stateObject) : stateObject :=
  StateObject (originalAccount o) (Account n (CodeHash (acct o))) (code o) (originStorage o) (dirtyStorage o) (overrideStorage o) (selfDestructed o) (newContract o).
Definition setState (k v : hash) (o : stateObject) : stateObject :=
  StateObject (originalAccount o) (acct o) (code o) (originStorage o) (<[k := v]> (dirtyStorage o)) (overrideStorage o) (selfDestructed o) (newContract o).
Definition markDestructed (b : bool) (o : stateObject) : stateObject :=
  StateObject (originalAccount o) (acct o) (code o) (originStorage o) (dirtyStorage o) (overrideStorage o) b (newContract o).
Definition markContract (b : bool) (o : stateObject) : stateObject :=
  StateObject (originalAccount o) (acct o) (code o) (originStorage o) (dirtyStorage o) (overrideStorage o) (selfDestructed o) b.

(** [codeDirty], [nonceDirty] and [empty] *)
Definition codeDirty (o : stateObject) : bool :=
  match originalAccount o with None => true | Some x => negb (CodeHash (acct o) =? CodeHash x) end.
Definition nonceDirty (o : stateObject) : bool :=
  match originalAccount o with None => true | Some x => negb (Nonce (acct o) =? Nonce x) end.
Definition obj_empty (o : stateObject) : bool := (Nonce (acct o) =? 0) && (CodeHash (acct o) =? EmptyCodeHash).

(** [Code]: the code, and the object that keeps it *)
Definition Code (ms : MS) (o : stateObject) : option (list Z) * stateObject :=
  match code o with
  | Some c => (Some c, o)
  | None =>
      if CodeHash (acct o) =? EmptyCodeHash then (None, o)
      else let c := k_GetCode ms (CodeHash (acct o)) in (c, setCode (CodeHash (acct o)) c o)
  end.

(** [GetCommittedState] and [GetState] *)
Definition GetCommittedState_obj (ms : MS) (a : address) (k : hash) (o : stateObject) : hash * stateObject :=
  match overrideStorage o with
  | Some m => (default 0 (m !! k), o)
  | None =>
      match originStorage o !! k with
      | Some v => (v, o)
      | None =>
          let v := k_GetState ms a k in
          (v, StateObject (originalAccount o) (acct o) (code o) (<[k := v]> (originStorage o)) (dirtyStorage o) (overrideStorage o)
                (selfDestructed o) (newContract o))
      end
  end.

Definition GetState_obj (ms : MS) (a : address) (k : hash) (o : stateObject) : hash * stateObject :=
  match dirtyStorage o !! k with Some v => (v, o) | None => GetCommittedState_obj ms a k o end.
End Objects.

(** ** The access list *)

Record accessList : Type := AccessList { addresses : gmap address Z; slots : list (gset hash) }.

Definition newAccessList : accessList := AccessList ∅ [].

Definition ContainsAddress (al : accessList) (a : address) : bool := bool_decide (is_Some (addresses al !! a)).

Definition Contains (al : accessList) (a : address) (slot : hash) : bool * bool :=
  match addresses al !! a with
  | None => (false, false)
  | Some idx => if idx =? -1 then (true, false) else (true, bool_decide (slot ∈ default ∅ (slots al !! Z.to_nat idx)))
  end.

Definition AddAddress (al : accessList) (a : address) : accessList * bool :=
  match addresses al !! a with
  | Some _ => (al, false)
  | None => (AccessList (<[a := -1]> (addresses al)) (slots al), true)
  end.

(** Whether the address and whether the slot were added. *)
Definition AddSlot (al : accessList) (a : address) (slot : hash) : accessList * bool * bool :=
  let present := addresses al !! a in
  let idx := default (-1) present in
  if idx =? -1 then
    (AccessList (<[a := Z.of_nat (length (slots al))]> (addresses al)) (slots al ++ [{[slot]}]),
     match present with None => true | Some _ => false end, true)
  else
    let slotmap := default ∅ (slots al !! Z.to_nat idx) in
    if decide (slot ∈ slotmap) then (al, false, false)
    else (AccessList (addresses al) (<[Z.to_nat idx := slotmap ∪ {[slot]}]> (slots al)), false, true).

Definition DeleteSlot (al : accessList) (a : address) (slot : hash) : option accessList :=
  match addresses al !! a with
  | None => None
  | Some idx =>
      match (if idx <? 0 then None else slots al !! Z.to_nat idx) with
      | None => None
      | Some slotmap =>
          let slotmap := slotmap ∖ {[slot]} in
          if decide (slotmap = ∅) then Some (AccessList (<[a := -1]> (addresses al)) (take (Z.to_nat idx) (slots al)))
          else Some (AccessList (addresses al) (<[Z.to_nat idx := slotmap]> (slots al)))
      end
  end.

Definition DeleteAddress (al : accessList) (a : address) : accessList := AccessList (delete a (addresses al)) (slots al).

(** ** Transient storage *)

(** The map of a database that is not prepared is nil, which reads as empty and
    cannot be written. *)
Notation transientStorage := (option (gmap Z (gmap Z Z))) (only parsing).

Definition transient_set (t : transientStorage) (a : address) (k v : hash) : option (gmap address Storage) :=
  match t with None => None | Some t => Some (<[a := <[k := v]> (default ∅ (t !! a))]> t) end.

Definition transient_get (t : transientStorage) (a : address) (k : hash) : hash :=
  match t with None => 0 | Some t => match t !! a with None => 0 | Some m => default 0 (m !! k) end end.

(** ** The journal *)

Section Database.
Context {MS Ev L : Type} `{!Keeper MS Ev}.

(** [JournalEntry]: the types of changes *)
Inductive entry : Type :=
| createObjectChange (a : address)
| createContractChange (a : address)
| resetObjectChange (a : address) (prev : stateObject)
| selfDestructChange (a : address) (prev : bool)
| nonceChange (a : address) (prev : Z)
| storageChange (a : address) (key prevalue : hash)
| codeChange (a : address) (prevcode : option (list Z)) (prevhash : hash)
| refundChange (prev : Z)
| addLogChange
| accessListAddAccountChange (a : address)
| accessListAddSlotChange (a : address) (slot : hash)
| transientStorageChange (a : address) (key prevalue : hash)
| nativeChange (snapshot : MS) (events : nat).

Definition Dirtied (e : entry) : option address :=
  match e with
  | createObjectChange a | selfDestructChange a _ | nonceChange a _ | codeChange a _ _ | storageChange a _ _ => Some a
  | _ => None
  end.

(** A log: the contract it comes from, its topics and data, and the indices that
    [AddLog] gives it. *)
Record log : Type := Log { Address : address; payload : L; TxIndex : Z; Index : Z }.

(** What the changes of the journal revert: the part of [StateDB] without its
    journal and revisions. *)
Record db : Type := Db {
  cacheMS : MS;
  stateObjects : gmap address stateObject;
  refund : Z;
  logs : list log;
  access : accessList;
  transient : transientStorage;
  nativeEvents : list Ev
}.

Definition set_ms (ms : MS) (c : db) : db := Db ms (stateObjects c) (refund c) (logs c) (access c) (transient c) (nativeEvents c).
Definition set_objects (m : gmap address stateObject) (c : db) : db := Db (cacheMS c) m (refund c) (logs c) (access c) (transient c) (nativeEvents c).
Definition set_refund (r : Z) (c : db) : db := Db (cacheMS c) (stateObjects c) r (logs c) (access c) (transient c) (nativeEvents c).
Definition set_logs (l : list log) (c : db) : db := Db (cacheMS c) (stateObjects c) (refund c) l (access c) (transient c) (nativeEvents c).
Definition set_access (al : accessList) (c : db) : db := Db (cacheMS c) (stateObjects c) (refund c) (logs c) al (transient c) (nativeEvents c).
Definition set_transient (t : transientStorage) (c : db) : db := Db (cacheMS c) (stateObjects c) (refund c) (logs c) (access c) t (nativeEvents c).
Definition set_events (l : list Ev) (c : db) : db := Db (cacheMS c) (stateObjects c) (refund c) (logs c) (access c) (transient c) l.

Definition setStateObject (a : address) (o : stateObject) (c : db) : db := set_objects (<[a := o]> (stateObjects c)) c.

Definition getStateObject (a : address) (c : db) : option stateObject * db :=
  match stateObjects c !! a with
  | Some o => (Some o, c)
  | None =>
      match k_GetAccount (cacheMS c) a with
      | None => (None, c)
      | Some x => let o := newObject (Some x) in (Some o, setStateObject a o c)
      end
  end.

(** A change of the object at [a], which must be there. *)
Definition change_object (a : address) (f : stateObject -> stateObject) (c : db) : option db :=
  match getStateObject a c with (Some o, c) => Some (setStateObject a (f o) c) | (None, _) => None end.

(** [Revert] of each change *)
Definition Revert_entry (e : entry) (c : db) : option db :=
  match e with
  | createObjectChange a => Some (set_objects (delete a (stateObjects c)) c)
  | createContractChange a => change_object a (markContract false) c
  | resetObjectChange a prev => Some (setStateObject a prev c)
  | selfDestructChange a prev =>
      match getStateObject a c with (Some o, c) => Some (setStateObject a (markDestructed prev o) c) | (None, c) => Some c end
  | nonceChange a prev => change_object a (setNonce prev) c
  | codeChange a prevcode prevhash => change_object a (setCode prevhash prevcode) c
  | storageChange a key prevalue => change_object a (setState key prevalue) c
  | transientStorageChange a key prevalue =>
      match transient_set (transient c) a key prevalue with None => None | Some t => Some (set_transient (Some t) c) end
  | refundChange prev => Some (set_refund prev c)
  | addLogChange => match logs c with [] => None | _ => Some (set_logs (removelast (logs c)) c) end
  | accessListAddAccountChange a => Some (set_access (DeleteAddress (access c) a) c)
  | accessListAddSlotChange a slot => match DeleteSlot (access c) a slot with Some al => Some (set_access al c) | None => None end
  | nativeChange snapshot events =>
      if (length (nativeEvents c) <? events)%nat then None
      else Some (set_events (take (length (nativeEvents c) - events) (nativeEvents c)) (set_ms snapshot c))
  end.

(** ** The database *)

Record StateDB : Type := MkStateDB {
  core : db;
  entries : list entry;
  dirties : gmap address Z;
  validRevisions : list (Z * nat);
  nextRevisionID : Z;
  failed : bool;
  txIndex : Z;
  logIndex : Z
}.

(** [New] *)
Definition New (ms : MS) (tx logi : Z) : StateDB := MkStateDB (Db ms ∅ 0 [] newAccessList None []) [] ∅ [] 0 false tx logi.

Definition with_core (c : db) (s : StateDB) : StateDB :=
  MkStateDB c (entries s) (dirties s) (validRevisions s) (nextRevisionID s) (failed s) (txIndex s) (logIndex s).
Definition with_failed (s : StateDB) : StateDB :=
  MkStateDB (core s) (entries s) (dirties s) (validRevisions s) (nextRevisionID s) true (txIndex s) (logIndex s).

(** [journal.append] *)
Definition dirty_add (a : address) (d : gmap address Z) : gmap address Z := <[a := default 0 (d !! a) + 1]> d.
Definition append (e : entry) (s : StateDB) : StateDB :=
  MkStateDB (core s) (entries s ++ [e]) (match Dirtied e with Some a => dirty_add a (dirties s) | None => dirties s end)
    (validRevisions s) (nextRevisionID s) (failed s) (txIndex s) (logIndex s).

(** [journal.Revert], the changes from the last to the one at [snapshot] *)
Definition dirty_sub (a : address) (d : gmap address Z) : gmap address Z :=
  let n := default 0 (d !! a) - 1 in if n =? 0 then delete a d else <[a := n]> d.

Fixpoint Revert_loop (es : list entry) (c : db) (d : gmap address Z) : option (db * gmap address Z) :=
  match es with
  | [] => Some (c, d)
  | e :: es =>
      match Revert_entry e c with
      | None => None
      | Some c => Revert_loop es c (match Dirtied e with Some a => dirty_sub a d | None => d end)
      end
  end.

Definition Revert (snapshot : nat) (s : StateDB) : option StateDB :=
  match Revert_loop (rev (drop snapshot (entries s))) (core s) (dirties s) with
  | None => None
  | Some (c, d) => Some (MkStateDB c (take snapshot (entries s)) d (validRevisions s) (nextRevisionID s) (failed s) (txIndex s) (logIndex s))
  end.

Definition Snapshot (s : StateDB) : Z * StateDB :=
  (nextRevisionID s,
   MkStateDB (core s) (entries s) (dirties s) (validRevisions s ++ [(nextRevisionID s, length (entries s))]) (nextRevisionID s + 1)
     (failed s) (txIndex s) (logIndex s)).

(** [sort.Search]: the least index at which [f] holds, by bisection *)
Fixpoint search_loop (fuel : nat) (f : nat -> bool) (i j : nat) : nat :=
  match fuel with
  | O => i
  | S fuel => if (i <? j)%nat then let h := ((i + j) / 2)%nat in if f h then search_loop fuel f i h else search_loop fuel f (S h) j else i
  end.
Definition search (n : nat) (f : nat -> bool) : nat := search_loop n f 0 n.

Definition RevertToSnapshot (revid : Z) (s : StateDB) : option StateDB :=
  let id i := match validRevisions s !! i with Some (id, _) => id | None => 0 end in
  let idx := search (length (validRevisions s)) (fun i => id i >=? revid) in
  match validRevisions s !! idx with
  | None => None
  | Some (x, snapshot) =>
      if negb (x =? revid) then None
      else match Revert snapshot s with
           | None => None
           | Some s => Some (MkStateDB (core s) (entries s) (dirties s) (take idx (validRevisions s)) (nextRevisionID s) (failed s) (txIndex s) (logIndex s))
           end
  end.

(** ** Reading *)

Definition GetNonce (a : address) (s : StateDB) : Z * StateDB :=
  match getStateObject a (core s) with (Some o, c) => (Nonce (acct o), with_core c s) | (None, c) => (0, with_core c s) end.

Definition GetCode (a : address) (s : StateDB) : option (list Z) * StateDB :=
  match getStateObject a (core s) with
  | (Some o, c) => let '(x, o) := Code (cacheMS c) o in (x, with_core (setStateObject a o c) s)
  | (None, c) => (None, with_core c s)
  end.

Definition GetState (a : address) (k : hash) (s : StateDB) : hash * StateDB :=
  match getStateObject a (core s) with
  | (Some o, c) => let '(v, o) := GetState_obj (cacheMS c) a k o in (v, with_core (setStateObject a o c) s)
  | (None, c) => (0, with_core c s)
  end.

Definition GetCommittedState (a : address) (k : hash) (s : StateDB) : hash * StateDB :=
  match getStateObject a (core s) with
  | (Some o, c) => let '(v, o) := GetCommittedState_obj (cacheMS c) a k o in (v, with_core (setStateObject a o c) s)
  | (None, c) => (0, with_core c s)
  end.

Definition Exist (a : address) (s : StateDB) : bool * StateDB :=
  match getStateObject a (core s) with (Some _, c) => (true, with_core c s) | (None, c) => (false, with_core c s) end.

Definition GetCodeHash (a : address) (s : StateDB) : hash * StateDB :=
  match getStateObject a (core s) with (Some o, c) => (CodeHash (acct o), with_core c s) | (None, c) => (0, with_core c s) end.

Definition GetCodeSize (a : address) (s : StateDB) : Z * StateDB :=
  let '(x, s) := GetCode a s in (match x with Some x => Z.of_nat (length x) | None => 0 end, s).

Definition HasSelfDestructed (a : address) (s : StateDB) : bool * StateDB :=
  match getStateObject a (core s) with (Some o, c) => (selfDestructed o, with_core c s) | (None, c) => (false, with_core c s) end.

(** [uint256.MustFromBig], which panics for a number of more than 256 bits *)
Definition MustFromBig (x : Z) : option Z := if 2 ^ 256 <=? Z.abs x then None else Some (x mod 2 ^ 256).

Definition GetBalance (a : address) (s : StateDB) : option Z := MustFromBig (k_GetBalance (cacheMS (core s)) a).

(** [Empty]; the balance is only read for an object without nonce and code *)
Definition Empty (a : address) (s : StateDB) : option bool * StateDB :=
  match getStateObject a (core s) with
  | (Some o, c) =>
      (if obj_empty o then match GetBalance a (with_core c s) with Some b => Some (b =? 0) | None => None end else Some false, with_core c s)
  | (None, c) => (Some true, with_core c s)
  end.

(** ** Writing *)

Definition AddLog (a : address) (l : L) (s : StateDB) : StateDB :=
  let s := append addLogChange s in
  with_core (set_logs (logs (core s) ++ [Log a l (txIndex s) (logIndex s + Z.of_nat (length (logs (core s))))]) (core s)) s.

Definition AddRefund (gas : Z) (s : StateDB) : StateDB :=
  let s := append (refundChange (refund (core s))) s in
  with_core (set_refund ((refund (core s) + gas) mod 2 ^ 64) (core s)) s.

Definition SubRefund (gas : Z) (s : StateDB) : option StateDB :=
  let s := append (refundChange (refund (core s))) s in
  if gas >? refund (core s) then None else Some (with_core (set_refund (refund (core s) - gas) (core s)) s).

Definition createObject (a : address) (s : StateDB) : StateDB :=
  let '(prev, c) := getStateObject a (core s) in
  let s := append (match prev with None => createObjectChange a | Some prev => resetObjectChange a prev end) (with_core c s) in
  with_core (setStateObject a (newObject None) (core s)) s.

(** [getOrNewStateObject]: the object, which is in the database after it *)
Definition getOrNewStateObject (a : address) (s : StateDB) : stateObject * StateDB :=
  match getStateObject a (core s) with
  | (Some o, c) => (o, with_core c s)
  | (None, c) => (newObject None, createObject a (with_core c s))
  end.

Definition CreateContract (a : address) (s : StateDB) : option StateDB :=
  match getStateObject a (core s) with
  | (None, _) => None
  | (Some o, c) =>
      let s := with_core c s in
      Some (if newContract o then s else append (createContractChange a) (with_core (setStateObject a (markContract true o) c) s))
  end.

(** [emitNativeEvents]; the converter gives the log of an event, if it has one,
    and the contract is its address *)
Fixpoint emitNativeEvents (contract : address) (converter : Ev -> option L) (events : list Ev) (s : StateDB) : StateDB :=
  match events with
  | [] => s
  | e :: events => emitNativeEvents contract converter events (match converter e with Some l => AddLog contract l s | None => s end)
  end.

(** [ExecuteNativeAction]: [true] if the action fails *)
Definition ExecuteNativeAction (contract : address) (converter : option (Ev -> option L)) (action : MS -> option (MS * list Ev)) (s : StateDB) : bool * StateDB :=
  let snapshot := cacheMS (core s) in
  match action (cacheMS (core s)) with
  | None => (true, with_core (set_ms snapshot (core s)) s)
  | Some (ms, events) =>
      let s := with_core (set_ms ms (core s)) s in
      let s := match converter with Some f => emitNativeEvents contract f events s | None => s end in
      let s := with_core (set_events (nativeEvents (core s) ++ events) (core s)) s in
      (false, append (nativeChange snapshot (length events)) s)
  end.

Definition native (action : MS -> option (MS * list Ev)) (s : StateDB) : StateDB :=
  let '(err, s) := ExecuteNativeAction 0 None action s in if err : bool then with_failed s else s.

Definition Transfer (sender recipient : address) (amount : Z) (s : StateDB) : option StateDB :=
  if amount =? 0 then Some s else if amount <? 0 then None else Some (native (k_Transfer sender recipient amount) s).

(** [uint256.Int.Sign], which reads a number as two's complement *)
Definition sign256 (x : Z) : Z := if x =? 0 then 0 else if x <? 2 ^ 255 then 1 else -1.

Definition AddBalance (a : address) (amount : Z) (s : StateDB) : option StateDB :=
  if sign256 amount =? 0 then Some s else if sign256 amount <? 0 then None else Some (native (k_AddBalance a amount) s).

Definition SubBalance (a : address) (amount : Z) (s : StateDB) : option StateDB :=
  if sign256 amount =? 0 then Some s else if sign256 amount <? 0 then None else Some (native (k_SubBalance a amount) s).

Definition SetBalance (a : address) (amount : Z) (s : StateDB) : StateDB := native (k_SetBalance a amount) s.

Definition SetNonce (a : address) (n : Z) (s : StateDB) : StateDB :=
  let '(o, s) := getOrNewStateObject a s in
  let s := append (nonceChange a (Nonce (acct o))) s in
  with_core (setStateObject a (setNonce n o) (core s)) s.

(** [SetCode]; [None] is a nil slice *)
Definition SetCode (a : address) (c : option (list Z)) (s : StateDB) : StateDB :=
  let '(o, s) := getOrNewStateObject a s in
  let '(prevcode, o) := Code (cacheMS (core s)) o in
  let s := append (codeChange a prevcode (CodeHash (acct o))) s in
  with_core (setStateObject a (setCode (keccak (default [] c)) c o) (core s)) s.

Definition SetState (a : address) (k v : hash) (s : StateDB) : StateDB :=
  let '(o, s) := getOrNewStateObject a s in
  let '(prev, o) := GetState_obj (cacheMS (core s)) a k o in
  if prev =? v then with_core (setStateObject a o (core s)) s
  else
    let s := append (storageChange a k prev) s in
    with_core (setStateObject a (setState k v o) (core s)) s.

Definition SelfDestruct (a : address) (s : StateDB) : option StateDB :=
  match getStateObject a (core s) with
  | (None, c) => Some (with_core c s)
  | (Some o, c) =>
      let s := append (selfDestructChange a (selfDestructed o)) (with_core c s) in
      let s := with_core (setStateObject a (markDestructed true o) (core s)) s in
      match GetBalance a s with
      | None => None
      | Some balance => if sign256 balance >? 0 then SubBalance a balance s else Some s
      end
  end.

Definition Selfdestruct6780 (a : address) (s : StateDB) : option StateDB :=
  match getStateObject a (core s) with
  | (None, c) => Some (with_core c s)
  | (Some o, c) => if newContract o then SelfDestruct a (with_core c s) else Some (with_core c s)
  end.

Definition SetTransientState (a : address) (k v : hash) (s : StateDB) : option StateDB :=
  let prev := transient_get (transient (core s)) a k in
  if prev =? v then Some s
  else
    let s := append (transientStorageChange a k prev) s in
    match transient_set (transient (core s)) a k v with
    | None => None
    | Some t => Some (with_core (set_transient (Some t) (core s)) s)
    end.

(** [SetStorage], which is not journaled *)
Definition SetStorage (a : address) (m : Storage) (s : StateDB) : StateDB :=
  let '(o, s) := getOrNewStateObject a s in
  with_core (setStateObject a (StateObject (originalAccount o) (acct o) (code o) ∅ ∅ (Some m) (selfDestructed o) (newContract o)) (core s)) s.

(** [Prepare], before a transition *)
Definition prepare_access (sender coinbase : address) (dst : option address) (precompiles : list address)
    (l : list (address * list hash)) (shanghai : bool) : accessList :=
  let add al a := fst (AddAddress al a) in
  let al := add newAccessList sender in
  let al := match dst with Some d => add al d | None => al end in
  let al := foldl add al precompiles in
  let al := foldl (fun al '(a, keys) => foldl (fun al k => fst (fst (AddSlot al a k))) (add al a) keys) al l in
  if shanghai then add al coinbase else al.
Definition Prepare (berlin shanghai : bool) (sender coinbase : address) (dst : option address) (precompiles : list address)
    (l : list (address * list hash)) (s : StateDB) : StateDB :=
  let c := core s in
  let c := if berlin then set_access (prepare_access sender coinbase dst precompiles l shanghai) c else c in
  with_core (set_transient (Some ∅) c) s.

Definition AddAddressToAccessList (a : address) (s : StateDB) : StateDB :=
  let '(al, changed) := AddAddress (access (core s)) a in
  let s := with_core (set_access al (core s)) s in
  if changed : bool then append (accessListAddAccountChange a) s else s.

Definition AddSlotToAccessList (a : address) (slot : hash) (s : StateDB) : StateDB :=
  let '(al, addrMod, slotMod) := AddSlot (access (core s)) a slot in
  let s := with_core (set_access al (core s)) s in
  let s := if addrMod : bool then append (accessListAddAccountChange a) s else s in
  if slotMod : bool then append (accessListAddSlotChange a slot) s else s.

(** ** Committing *)

(** [SortedKeys] and [sortedDirties]: fixed numbers of bytes are ordered as
    numbers *)
Definition sorted_keys {A} (m : gmap Z A) : list Z := merge_sort Z.le (map fst (map_to_list m)).

(** The writes of one object *)
Definition commit_key (a : address) (o : stateObject) (ms : MS) (k : hash) : MS :=
  let value := default 0 (dirtyStorage o !! k) in
  if value =? default 0 (originStorage o !! k) then ms else k_SetState a k value ms.
Definition commit_storage (a : address) (o : stateObject) (ms : MS) : MS := foldl (commit_key a o) ms (sorted_keys (dirtyStorage o)).

(** The store after the writes, and whether one of them failed, which ends them. *)
Definition commit_object (a : address) (o : stateObject) (ms : MS) : MS * bool :=
  if selfDestructed o then match k_DeleteAccount a ms with Some ms => (ms, false) | None => (ms, true) end
  else
    let ms := match code o with Some x => if codeDirty o then k_SetCode (CodeHash (acct o)) x ms else ms | None => ms end in
    match (if codeDirty o || nonceDirty o then k_SetAccount a (acct o) ms else Some ms) with
    | None => (ms, true)
    | Some ms => (commit_storage a o ms, false)
    end.

(** How a commit ends: with the store of the caller and the events emitted, in the
    error of an earlier action, before anything is written; in an error of the
    keeper, which leaves what was written until then; or in a nil pointer. *)
Inductive committed : Type :=
| Committed (ms : MS) (events : list Ev) | CommitAborted | CommitError (ms : MS) (events : list Ev) | CommitPanic.

Fixpoint commit_loop (l : list address) (m : gmap address stateObject) (ms : MS) (events : list Ev) : committed :=
  match l with
  | [] => Committed ms events
  | a :: l =>
      match m !! a with
      | None => CommitPanic
      | Some o => match commit_object a o ms with (ms, true) => CommitError ms events | (ms, false) => commit_loop l m ms events end
      end
  end.

Definition Commit (s : StateDB) : committed :=
  if failed s then CommitAborted
  else commit_loop (sorted_keys (dirties s)) (stateObjects (core s)) (cacheMS (core s)) (nativeEvents (core s)).
End Database.
Arguments committed : clear implicits.
Arguments entry : clear implicits.
Arguments log : clear implicits.
Arguments db : clear implicits.
Arguments StateDB : clear implicits.
