(* ===== verification/StateDBFacts.v ===== *)
(** * The state database: snapshots are restored *)

From stdpp Require Import gmap sets.
From S2P Require Import Prelude StateDB.
Local Open Scope Z_scope.

(** ** What the keeper promises *)

Section Laws.
Context {MS Ev : Type} `{!Keeper MS Ev}.

(** Two stores with the same contracts; an account without nonce and code may be
    there in one of them only. *)
Definition agree (m1 m2 : MS) : Prop :=
  (forall a k, k_GetState m1 a k = k_GetState m2 a k)
  /\ (forall h, k_GetCode m1 h = k_GetCode m2 h)
  /\ (forall a, default NewEmptyAccount (k_GetAccount m1 a) = default NewEmptyAccount (k_GetAccount m2 a)).

#[export] Instance agree_equivalence : Equivalence agree.
Proof.
  split.
  - intros m. by repeat split.
  - intros m1 m2 (H1 & H2 & H3). by repeat split; intros; rewrite ?H1, ?H2, ?H3.
  - intros m1 m2 m3 (H1 & H2 & H3) (H1' & H2' & H3'). repeat split; intros; [rewrite H1|rewrite H2|rewrite H3]; auto.
Qed.

(** An action that does not touch what the database keeps itself, except that it
    may create empty accounts, as a transfer to a new address does. *)
Definition quiet (action : MS -> option (MS * list Ev)) : Prop :=
  forall ms ms' evs, action ms = Some (ms', evs) -> agree ms' ms /\ (forall a, k_GetAccount ms' a = None -> k_GetAccount ms a = None).

(** The code with a hash; there is none with the hash of the empty code. *)
Definition store_code (ms : MS) (h : hash) : option (list Z) := if h =? EmptyCodeHash then None else k_GetCode ms h.

(** A store has no storage without its account, and the code of each account. *)
Definition store_ok (ms : MS) : Prop :=
  (forall a k, k_GetAccount ms a = None -> k_GetState ms a k = 0)
  /\ (forall a x, k_GetAccount ms a = Some x -> keccak (default [] (store_code ms (CodeHash x))) = CodeHash x).

Lemma store_code_agree m1 m2 h : agree m1 m2 -> store_code m1 h = store_code m2 h.
Proof. intros (_ & H & _). unfold store_code. by rewrite H. Qed.

Lemma store_ok_default ms a : store_ok ms ->
  keccak (default [] (store_code ms (CodeHash (default NewEmptyAccount (k_GetAccount ms a))))) = CodeHash (default NewEmptyAccount (k_GetAccount ms a)).
Proof.
  intros [_ H]. specialize (H a). destruct (k_GetAccount ms a); [by apply H|]. cbn. unfold store_code. by rewrite Z.eqb_refl.
Qed.

Lemma quiet_store action ms ms' evs : quiet action -> action ms = Some (ms', evs) -> store_ok ms -> store_ok ms'.
Proof.
  intros Hq Ha Hs. destruct (Hq _ _ _ Ha) as [Hag H2]. pose proof Hag as (H1 & _ & H3). split.
  - intros a k Hk. rewrite H1. apply Hs. by apply H2.
  - intros a x Hx. rewrite (store_code_agree _ _ _ Hag). pose proof (store_ok_default ms a Hs) as H. by rewrite <- H3, Hx in H.
Qed.
End Laws.

Class KeeperLaws (MS Ev : Type) `{!Keeper MS Ev} : Prop := {
  transfer_quiet a b n : quiet (k_Transfer a b n);
  add_quiet a n : quiet (k_AddBalance a n);
  sub_quiet a n : quiet (k_SubBalance a n);
  set_quiet a n : quiet (k_SetBalance a n)
}.

(** ** Objects up to what they cache *)

Section Views.
Context {MS Ev L : Type} `{!Keeper MS Ev}.
Implicit Types (c : db MS Ev L) (o : stateObject) (ms : MS).

(** What [Code], [GetCommittedState] and [GetState] return. *)
Definition o_code ms o : option (list Z) := fst (Code ms o).
Definition o_committed ms a o k : hash := fst (GetCommittedState_obj ms a k o).
Definition o_state ms a o k : hash := fst (GetState_obj ms a k o).

Record obj_equiv ms (a : address) o1 o2 : Prop := {
  eq_acct : acct o1 = acct o2;
  eq_code : o_code ms o1 = o_code ms o2;
  eq_committed k : o_committed ms a o1 k = o_committed ms a o2 k;
  eq_state k : o_state ms a o1 k = o_state ms a o2 k;
  eq_destructed : selfDestructed o1 = selfDestructed o2;
  eq_contract : newContract o1 = newContract o2
}.

#[export] Instance obj_equivalence ms a : Equivalence (obj_equiv ms a).
Proof.
  split.
  - by intros o.
  - intros o1 o2 []. by constructor.
  - intros o1 o2 o3 [] []. constructor; intros; etrans; eauto.
Qed.

Lemma o_state_eq ms a o k : o_state ms a o k = default (o_committed ms a o k) (dirtyStorage o !! k).
Proof. unfold o_state, GetState_obj. by destruct (dirtyStorage o !! k). Qed.

Lemma o_committed_eq ms a o k :
  o_committed ms a o k = match overrideStorage o with Some m => default 0 (m !! k) | None => default (k_GetState ms a k) (originStorage o !! k) end.
Proof. unfold o_committed, GetCommittedState_obj. destruct (overrideStorage o); [done|]. by destruct (originStorage o !! k). Qed.

Lemma o_code_eq ms o : o_code ms o = match code o with Some x => Some x | None => store_code ms (CodeHash (acct o)) end.
Proof. unfold o_code, Code, store_code. destruct (code o); [done|]. by destruct (_ =? _). Qed.

(** The setters change what they set. *)
Lemma o_committed_same ms a o1 o2 k : overrideStorage o1 = overrideStorage o2 -> originStorage o1 = originStorage o2 -> o_committed ms a o1 k = o_committed ms a o2 k.
Proof. intros H1 H2. by rewrite !o_committed_eq, H1, H2. Qed.

Lemma o_state_same ms a o1 o2 k : dirtyStorage o1 = dirtyStorage o2 -> overrideStorage o1 = overrideStorage o2 -> originStorage o1 = originStorage o2 ->
  o_state ms a o1 k = o_state ms a o2 k.
Proof. intros H1 H2 H3. rewrite !o_state_eq, H1. by rewrite (o_committed_same ms a o1 o2) by done. Qed.

Lemma same_storage ms a o1 o2 :
  dirtyStorage o1 = dirtyStorage o2 -> overrideStorage o1 = overrideStorage o2 -> originStorage o1 = originStorage o2 ->
  acct o1 = acct o2 -> o_code ms o1 = o_code ms o2 -> selfDestructed o1 = selfDestructed o2 -> newContract o1 = newContract o2 ->
  obj_equiv ms a o1 o2.
Proof. intros. constructor; try done; intros; [by apply o_committed_same|by apply o_state_same]. Qed.

(** Stores that agree show the same of an object. *)
Lemma obj_equiv_agree m1 m2 a o1 o2 : agree m1 m2 -> obj_equiv m1 a o1 o2 -> obj_equiv m2 a o1 o2.
Proof.
  intros Hag [H1 H2 H3 H4 H5 H6]. pose proof Hag as (Hs & _ & _).
  assert (forall o k, o_committed m2 a o k = o_committed m1 a o k) as Hcom by (intros; rewrite !o_committed_eq; repeat case_match; by rewrite ?Hs).
  assert (forall o, o_code m2 o = o_code m1 o) as Hcode by (intros; rewrite !o_code_eq; repeat case_match; by rewrite ?(store_code_agree _ _ _ Hag)).
  constructor; try done; [by rewrite !Hcode|intros; by rewrite !Hcom|].
  intros k. specialize (H4 k). rewrite !o_state_eq in *. by rewrite !Hcom.
Qed.

(** What is cached does not show. *)
Lemma cached_code ms a o : obj_equiv ms a (snd (Code ms o)) o.
Proof.
  unfold Code. destruct (code o) eqn:Hc; [done|]. destruct (CodeHash (acct o) =? EmptyCodeHash) eqn:He; [done|].
  cbn [snd]. constructor; intros; try done; [cbn; by destruct (acct o)| |by apply o_committed_same|by apply o_state_same].
  rewrite !o_code_eq. cbn [code setCode acct CodeHash]. rewrite Hc. unfold store_code. rewrite He. by destruct (k_GetCode ms _).
Qed.

Lemma cached_committed ms a k o : obj_equiv ms a (snd (GetCommittedState_obj ms a k o)) o.
Proof.
  unfold GetCommittedState_obj. destruct (overrideStorage o) eqn:Hov; [done|]. destruct (originStorage o !! k) eqn:Hk; [done|]. cbn [snd].
  set (o' := StateObject _ _ _ _ _ _ _ _). assert (forall k', o_committed ms a o' k' = o_committed ms a o k') as Hcom.
  { intros k'. rewrite !o_committed_eq. unfold o'. cbn [overrideStorage originStorage]. rewrite Hov. destruct (decide (k = k')) as [->|Hne].
    - by rewrite lookup_insert_eq, Hk.
    - by rewrite lookup_insert_ne. }
  constructor; try done; [by rewrite !o_code_eq|]. intros k'. rewrite !o_state_eq, Hcom. done.
Qed.

Lemma cached_state ms a k o : obj_equiv ms a (snd (GetState_obj ms a k o)) o.
Proof. unfold GetState_obj. destruct (dirtyStorage o !! k); [done|]. apply cached_committed. Qed.

(** The setters respect the equivalence. *)
Lemma set_equiv ms a (f : stateObject -> stateObject) o1 o2 :
  (forall o, originStorage (f o) = originStorage o /\ overrideStorage (f o) = overrideStorage o /\ dirtyStorage (f o) = dirtyStorage o) ->
  obj_equiv ms a o1 o2 -> acct (f o1) = acct (f o2) -> o_code ms (f o1) = o_code ms (f o2) ->
  selfDestructed (f o1) = selfDestructed (f o2) -> newContract (f o1) = newContract (f o2) -> obj_equiv ms a (f o1) (f o2).
Proof.
  intros Hf [_ _ H3 H4 _ _] Ha Hc Hd Hn. destruct (Hf o1) as (Ho1 & Hv1 & Hd1), (Hf o2) as (Ho2 & Hv2 & Hd2).
  constructor; try done; intros k.
  - by rewrite (o_committed_same ms a (f o1) o1), (o_committed_same ms a (f o2) o2).
  - by rewrite (o_state_same ms a (f o1) o1), (o_state_same ms a (f o2) o2).
Qed.

Lemma setNonce_equiv ms a n o1 o2 : obj_equiv ms a o1 o2 -> obj_equiv ms a (setNonce n o1) (setNonce n o2).
Proof.
  intros H. pose proof H as [H1 H2 _ _ H5 H6]. apply set_equiv; try done; [cbn; by rewrite H1|]. rewrite !o_code_eq in *. exact H2.
Qed.

Lemma setCode_equiv ms a h x o1 o2 : obj_equiv ms a o1 o2 -> obj_equiv ms a (setCode h x o1) (setCode h x o2).
Proof. intros H. pose proof H as [H1 H2 _ _ H5 H6]. apply set_equiv; try done; [cbn; by rewrite H1|]. by rewrite !o_code_eq. Qed.

Lemma markDestructed_equiv ms a b o1 o2 : obj_equiv ms a o1 o2 -> obj_equiv ms a (markDestructed b o1) (markDestructed b o2).
Proof. intros H. pose proof H as [H1 H2 _ _ H5 H6]. apply set_equiv; try done. rewrite !o_code_eq in *. exact H2. Qed.

Lemma markContract_equiv ms a b o1 o2 : obj_equiv ms a o1 o2 -> obj_equiv ms a (markContract b o1) (markContract b o2).
Proof. intros H. pose proof H as [H1 H2 _ _ H5 H6]. apply set_equiv; try done. rewrite !o_code_eq in *. exact H2. Qed.

Lemma o_state_set ms a k v o k' : o_state ms a (setState k v o) k' = if decide (k = k') then v else o_state ms a o k'.
Proof.
  rewrite !o_state_eq. cbn [dirtyStorage setState]. rewrite (o_committed_same ms a (setState k v o) o) by done.
  destruct (decide (k = k')) as [->|]; [by rewrite lookup_insert_eq|by rewrite lookup_insert_ne].
Qed.

Lemma setState_equiv ms a k v o1 o2 : obj_equiv ms a o1 o2 -> obj_equiv ms a (setState k v o1) (setState k v o2).
Proof.
  intros [H1 H2 H3 H4 H5 H6]. constructor; try done; [rewrite !o_code_eq in *; exact H2|intros j; rewrite (o_committed_same ms a (setState k v o1) o1), (o_committed_same ms a (setState k v o2) o2) by done; apply H3|].
  intros k'. rewrite !o_state_set. by destruct (decide (k = k')).
Qed.

(** Setting a value back *)
Lemma setNonce_back ms a n o : obj_equiv ms a (setNonce (Nonce (acct o)) (setNonce n o)) o.
Proof. apply same_storage; try done; [cbn; by destruct (acct o)|by rewrite !o_code_eq]. Qed.

Lemma setCode_back ms a h x o o' : snd (Code ms o) = o' -> obj_equiv ms a (setCode (CodeHash (acct o')) (fst (Code ms o)) (setCode h x o')) o.
Proof.
  intros <-. assert (obj_equiv ms a (snd (Code ms o)) o) as H by apply cached_code. etrans; [|exact H].
  pose proof (eq_code _ _ _ _ H) as Hc. unfold o_code in Hc at 2. rewrite <- Hc.
  set (o' := snd (Code ms o)). apply same_storage; try done; [cbn; by destruct (acct o')|].
  rewrite o_code_eq. cbn [code setCode acct CodeHash]. rewrite o_code_eq. by repeat case_match.
Qed.

Lemma setState_back ms a k v o : obj_equiv ms a (setState k (o_state ms a o k) (setState k v o)) o.
Proof.
  constructor; try done; [by rewrite !o_code_eq|intros j; by apply o_committed_same|]. intros j. rewrite !o_state_set. by destruct (decide (k = j)) as [->|].
Qed.

Lemma newObject_agree ms a m1 m2 : agree m1 m2 -> obj_equiv ms a (newObject (k_GetAccount m1 a)) (newObject (k_GetAccount m2 a)).
Proof. intros (_ & _ & H). apply same_storage; try done; [by cbn; rewrite H|]. rewrite !o_code_eq. cbn. by rewrite H. Qed.

(** ** What holds of the objects of a database *)

Definition code_matches ms (x : option (list Z)) (h : hash) : Prop := keccak (default [] (match x with Some x => Some x | None => store_code ms h end)) = h.

(** An object knows the account and the storage it was loaded from; every dirty
    slot has its committed value; its code has the hash of its account. *)
Record obj_ok ms (a : address) o : Prop := {
  ok_original x : originalAccount o = Some x -> x = default NewEmptyAccount (k_GetAccount ms a);
  ok_override : overrideStorage o = None;
  ok_origin k v : originStorage o !! k = Some v -> v = k_GetState ms a k;
  ok_dirty k : is_Some (dirtyStorage o !! k) -> is_Some (originStorage o !! k);
  ok_code : code_matches ms (code o) (CodeHash (acct o))
}.

Lemma code_matches_agree m1 m2 x h : agree m1 m2 -> code_matches m1 x h -> code_matches m2 x h.
Proof. intros Hag. unfold code_matches. by rewrite (store_code_agree _ _ _ Hag). Qed.

Lemma obj_ok_agree m1 m2 a o : agree m1 m2 -> obj_ok m1 a o -> obj_ok m2 a o.
Proof.
  intros Hag [H1 H2 H3 H4 H5]. pose proof Hag as (Hs & _ & Ha). constructor; try done.
  - intros x Hx. by rewrite <- Ha, <- (H1 x).
  - intros k v Hk. by rewrite <- Hs, <- (H3 k v).
  - by eapply code_matches_agree.
Qed.

Lemma empty_code_matches ms : code_matches ms None EmptyCodeHash.
Proof. unfold code_matches, store_code. by rewrite Z.eqb_refl. Qed.

Lemma newObject_ok ms a : obj_ok ms a (newObject None).
Proof. constructor; try done. apply empty_code_matches. Qed.

Lemma loaded_ok ms a x : store_ok ms -> k_GetAccount ms a = Some x -> obj_ok ms a (newObject (Some x)).
Proof.
  intros [_ Hst] Hk. constructor; try done; cbn; [intros y [= <-]; by rewrite Hk|].
  by apply (Hst a).
Qed.

Lemma setCode_ok ms a h x o : code_matches ms x h -> obj_ok ms a o -> obj_ok ms a (setCode h x o).
Proof. intros Hm []. by constructor. Qed.

Lemma cached_code_ok ms a o : obj_ok ms a o -> obj_ok ms a (snd (Code ms o)).
Proof.
  intros Ho. unfold Code. destruct (code o) eqn:Hc; [done|]. destruct (CodeHash (acct o) =? EmptyCodeHash) eqn:He; [done|]. apply setCode_ok; [|done].
  destruct Ho as [_ _ _ _ Hm]. unfold code_matches, store_code in *. rewrite Hc, He in *. by destruct (k_GetCode ms _).
Qed.

(** The object after a read of [k] *)
Lemma cached_committed_ok ms a k o : obj_ok ms a o ->
  obj_ok ms a (snd (GetCommittedState_obj ms a k o)) /\ is_Some (originStorage (snd (GetCommittedState_obj ms a k o)) !! k)
  /\ forall j, is_Some (originStorage o !! j) -> is_Some (originStorage (snd (GetCommittedState_obj ms a k o)) !! j).
Proof.
  intros [H1 H2 H3 H4 H5]. unfold GetCommittedState_obj. rewrite H2. destruct (originStorage o !! k) eqn:Hk; [by cbn; rewrite Hk|].
  cbn [snd originStorage]. split; [|split; [by rewrite lookup_insert_eq|intros j ?; rewrite lookup_insert_is_Some'; by right]].
  constructor; try done; cbn.
  - intros j v [[<- <-]|[_ Hj]]%lookup_insert_Some; [done|by apply H3].
  - intros j Hj. rewrite lookup_insert_is_Some'. right. by apply H4.
Qed.

Lemma cached_state_ok ms a k o : obj_ok ms a o ->
  obj_ok ms a (snd (GetState_obj ms a k o)) /\ is_Some (originStorage (snd (GetState_obj ms a k o)) !! k)
  /\ forall j, is_Some (originStorage o !! j) -> is_Some (originStorage (snd (GetState_obj ms a k o)) !! j).
Proof.
  intros Ho. unfold GetState_obj. destruct (dirtyStorage o !! k) eqn:Hk; [|by apply cached_committed_ok].
  split; [done|]. split; [|done]. apply (ok_dirty _ _ _ Ho). by rewrite Hk.
Qed.

Lemma setState_ok ms a k v o : is_Some (originStorage o !! k) -> obj_ok ms a o -> obj_ok ms a (setState k v o).
Proof. intros Hk [H1 H2 H3 H4 H5]. constructor; try done. cbn. intros j [->|[_ Hj]]%lookup_insert_is_Some; [done|by apply H4]. Qed.

Lemma setNonce_ok ms a n o : obj_ok ms a o -> obj_ok ms a (setNonce n o).
Proof. intros []. by constructor. Qed.
Lemma markDestructed_ok ms a b o : obj_ok ms a o -> obj_ok ms a (markDestructed b o).
Proof. intros []. by constructor. Qed.
Lemma markContract_ok ms a b o : obj_ok ms a o -> obj_ok ms a (markContract b o).
Proof. intros []. by constructor. Qed.
End Views.
