(* ===== verification/StateDBJournal.v ===== *)
(** * The state database: the journal

    What a change of the journal undoes.  Every operation of the database is a
    sequence of steps ([jstep]) that either only cache, or add one change whose
    [Revert] leads back. *)

From stdpp Require Import gmap sets relations.
From S2P Require Import Prelude StateDB StateDBFacts.
Local Open Scope Z_scope.

(** ** The access list *)

Definition al_ok (al : accessList) : Prop :=
  (forall a i, addresses al !! a = Some i -> i = -1 \/ 0 <= i < Z.of_nat (length (slots al))) /\ Forall (fun m => m <> ∅) (slots al).

Lemma DeleteAddress_undo al a : addresses al !! a = None -> DeleteAddress (AccessList (<[a := -1]> (addresses al)) (slots al)) a = al.
Proof. intros H. unfold DeleteAddress. cbn. rewrite delete_insert_id by done. by destruct al. Qed.

Lemma DeleteSlot_fresh al a slot :
  DeleteSlot (AccessList (<[a := Z.of_nat (length (slots al))]> (addresses al)) (slots al ++ [{[slot]}])) a slot
  = Some (AccessList (<[a := -1]> (addresses al)) (slots al)).
Proof.
  unfold DeleteSlot. cbn [addresses slots]. rewrite lookup_insert_eq. destruct (Z.ltb_spec (Z.of_nat (length (slots al))) 0); [lia|].
  rewrite Nat2Z.id, list_lookup_middle by done. rewrite decide_True by set_solver. by rewrite take_app_length, insert_insert_eq.
Qed.

Lemma DeleteSlot_first al a slot : addresses al !! a = Some (-1) ->
  DeleteSlot (AccessList (<[a := Z.of_nat (length (slots al))]> (addresses al)) (slots al ++ [{[slot]}])) a slot = Some al.
Proof. intros H. rewrite DeleteSlot_fresh, insert_id by done. by destruct al. Qed.

Lemma DeleteSlot_more al a i m slot : addresses al !! a = Some i -> 0 <= i -> slots al !! Z.to_nat i = Some m -> m <> ∅ -> slot ∉ m ->
  DeleteSlot (AccessList (addresses al) (<[Z.to_nat i := m ∪ {[slot]}]> (slots al))) a slot = Some al.
Proof.
  intros Ha Hi Hm Hne Hs. unfold DeleteSlot. cbn [addresses slots]. rewrite Ha. destruct (Z.ltb_spec i 0); [lia|].
  rewrite list_lookup_insert_eq by (by eapply lookup_lt_Some). replace ((m ∪ {[slot]}) ∖ {[slot]}) with m by set_solver.
  rewrite decide_False by done. rewrite list_insert_insert_eq, list_insert_id by done. by destruct al.
Qed.

Lemma al_ok_address al a : al_ok al -> addresses al !! a = None -> al_ok (AccessList (<[a := -1]> (addresses al)) (slots al)).
Proof. intros [H1 H2] Ha. split; [|done]. cbn. intros b i [[<- <-]|[_ Hb]]%lookup_insert_Some; [by left|by apply (H1 b)]. Qed.

Lemma al_ok_first al a slot : al_ok al -> al_ok (AccessList (<[a := Z.of_nat (length (slots al))]> (addresses al)) (slots al ++ [{[slot]}])).
Proof.
  intros [H1 H2]. split; cbn [addresses slots].
  - intros b i [[<- <-]|[_ Hb]]%lookup_insert_Some; rewrite length_app; cbn; [lia|]. specialize (H1 _ _ Hb). lia.
  - apply Forall_app_2; [done|]. apply Forall_singleton. set_solver.
Qed.

Lemma al_ok_more al n m slot : al_ok al -> al_ok (AccessList (addresses al) (<[n := m ∪ {[slot]}]> (slots al))).
Proof.
  intros [H1 H2]. split; cbn [addresses slots]; [by rewrite length_insert|]. apply Forall_insert; [done|]. set_solver.
Qed.

Lemma AddSlot_cases al a slot : al_ok al ->
  (addresses al !! a = None /\ AddSlot al a slot = (AccessList (<[a := Z.of_nat (length (slots al))]> (addresses al)) (slots al ++ [{[slot]}]), true, true))
  \/ (addresses al !! a = Some (-1) /\ AddSlot al a slot = (AccessList (<[a := Z.of_nat (length (slots al))]> (addresses al)) (slots al ++ [{[slot]}]), false, true))
  \/ (exists i m, addresses al !! a = Some i /\ 0 <= i /\ slots al !! Z.to_nat i = Some m /\ m <> ∅
       /\ AddSlot al a slot = if decide (slot ∈ m) then (al, false, false) else (AccessList (addresses al) (<[Z.to_nat i := m ∪ {[slot]}]> (slots al)), false, true)).
Proof.
  intros [H1 H2]. unfold AddSlot. destruct (addresses al !! a) as [i|] eqn:Ha; cbn [default]; [|by left].
  right. destruct (H1 _ _ Ha) as [->|Hi]; [by left|]. right.
  destruct (lookup_lt_is_Some_2 (slots al) (Z.to_nat i)) as [m Hm]; [lia|]. exists i, m.
  split; [done|]. split; [lia|]. split; [done|]. split; [by apply (Forall_lookup_1 _ _ _ _ H2 Hm)|]. cbn. destruct (Z.eqb_spec i (-1)); [lia|].
  rewrite Hm. cbn. by destruct (decide (slot ∈ m)).
Qed.

Section Journal.
Context {MS Ev L : Type} `{!Keeper MS Ev}.
Implicit Types (c : db MS Ev L) (o : stateObject) (s : StateDB MS Ev L) (e : entry MS).

(** ** What a database shows *)

Definition obj_of c a : stateObject := default (newObject (k_GetAccount (cacheMS c) a)) (stateObjects c !! a).

(** [c1] shows what [c2] shows, and may have cached more. *)
Record shows c1 c2 : Prop := {
  sh_ms : cacheMS c1 = cacheMS c2;
  sh_refund : refund c1 = refund c2;
  sh_logs : logs c1 = logs c2;
  sh_access : access c1 = access c2;
  sh_events : nativeEvents c1 = nativeEvents c2;
  sh_prepared : is_Some (transient c1) <-> is_Some (transient c2);
  sh_transient a k : transient_get (transient c1) a k = transient_get (transient c2) a k;
  sh_obj a : obj_equiv (cacheMS c2) a (obj_of c1 a) (obj_of c2 a);
  sh_cache a o2 : stateObjects c2 !! a = Some o2 ->
    exists o1, stateObjects c1 !! a = Some o1 /\ forall k, is_Some (originStorage o2 !! k) -> is_Some (originStorage o1 !! k)
}.

Lemma sh_dom c1 c2 a : shows c1 c2 -> is_Some (stateObjects c2 !! a) -> is_Some (stateObjects c1 !! a).
Proof. intros Hs [o2 Ho]. destruct (sh_cache _ _ Hs a o2 Ho) as (o1 & ? & _). by eexists. Qed.

#[export] Instance shows_preorder : PreOrder shows.
Proof.
  split; [intros c; constructor; try done; by eauto|]. intros c1 c2 c3 [M1 R1 L1 A1 E1 P1 T1 O1 D1] [M2 R2 L2 A2 E2 P2 T2 O2 D2].
  constructor; try congruence; [by rewrite P1|intros a|].
  - rewrite M2 in O1. etrans; [apply O1|apply O2].
  - intros a o3 H3. destruct (D2 a o3 H3) as (o2 & H2 & K2), (D1 a o2 H2) as (o1 & H1 & K1). eauto.
Qed.

Lemma obj_of_present c a o : stateObjects c !! a = Some o -> obj_of c a = o.
Proof. intros H. unfold obj_of. by rewrite H. Qed.

Lemma obj_of_set c a o b : obj_of (setStateObject a o c) b = if decide (a = b) then o else obj_of c b.
Proof.
  unfold obj_of. cbn. destruct (decide (a = b)) as [->|]; [by rewrite lookup_insert_eq|by rewrite lookup_insert_ne].
Qed.

Lemma shows_set c1 c2 a o1 o2 : shows c1 c2 -> obj_equiv (cacheMS c2) a o1 o2 -> (forall k, is_Some (originStorage o2 !! k) -> is_Some (originStorage o1 !! k)) ->
  shows (setStateObject a o1 c1) (setStateObject a o2 c2).
Proof.
  intros [] Ho Hk. constructor; try done.
  - intros b. rewrite !obj_of_set. cbn. by destruct (decide (a = b)) as [<-|].
  - intros b o. cbn. destruct (decide (a = b)) as [<-|]; [rewrite !lookup_insert_eq; intros [= <-]; by eauto|]. rewrite !lookup_insert_ne by done. auto.
Qed.

(** Caching an object that shows what was there before *)
Lemma shows_cache c a o : obj_equiv (cacheMS c) a o (obj_of c a) -> (forall k, is_Some (originStorage (obj_of c a) !! k) -> is_Some (originStorage o !! k)) ->
  shows (setStateObject a o c) c.
Proof.
  intros Ho Hk. constructor; try done.
  - intros b. rewrite obj_of_set. by destruct (decide (a = b)) as [<-|].
  - intros b o2 H2. cbn. destruct (decide (a = b)) as [<-|]; [|rewrite lookup_insert_ne by done; by eauto].
    exists o. rewrite lookup_insert_eq. split; [done|]. unfold obj_of in Hk. by rewrite H2 in Hk.
Qed.

Lemma shows_getStateObject a c : shows (snd (getStateObject a c)) c.
Proof.
  unfold getStateObject. destruct (stateObjects c !! a) eqn:Ho; [done|]. destruct (k_GetAccount (cacheMS c) a) eqn:Hk; [|done].
  apply shows_cache; unfold obj_of; by rewrite Ho, Hk.
Qed.

Lemma getStateObject_Some a c o c' : getStateObject a c = (Some o, c') ->
  shows c' c /\ stateObjects c' !! a = Some o /\ cacheMS c' = cacheMS c.
Proof.
  intros H. pose proof (shows_getStateObject a c) as Hs. rewrite H in Hs. cbn in Hs. split; [done|]. unfold getStateObject in H.
  destruct (stateObjects c !! a) eqn:Ho; [by simplify_eq|]. destruct (k_GetAccount (cacheMS c) a); simplify_eq. cbn. by rewrite lookup_insert_eq.
Qed.

Lemma getStateObject_None a c c' : getStateObject a c = (None, c') -> c' = c /\ stateObjects c !! a = None /\ k_GetAccount (cacheMS c) a = None.
Proof.
  unfold getStateObject. destruct (stateObjects c !! a) eqn:Ho; [done|]. destruct (k_GetAccount (cacheMS c) a); intros; by simplify_eq.
Qed.

Lemma getStateObject_present a c o : stateObjects c !! a = Some o -> getStateObject a c = (Some o, c).
Proof. intros H. unfold getStateObject. by rewrite H. Qed.

(** What holds of a database beside its journal *)
Definition core_ok c : Prop := (al_ok (access c) /\ 0 <= refund c) /\ store_ok (cacheMS c).

Definition objs_ok c : Prop := forall a o, stateObjects c !! a = Some o -> obj_ok (cacheMS c) a o.

Lemma objs_ok_set c a o : objs_ok c -> obj_ok (cacheMS c) a o -> objs_ok (setStateObject a o c).
Proof. intros Hc Ho b o'. cbn. intros [[<- <-]|[_ Hb]]%lookup_insert_Some; [done|by apply Hc]. Qed.

Lemma getStateObject_ok a c : store_ok (cacheMS c) -> objs_ok c -> objs_ok (snd (getStateObject a c)).
Proof.
  intros Hst Hc. unfold getStateObject. destruct (stateObjects c !! a); [done|]. destruct (k_GetAccount (cacheMS c) a) eqn:Hk; [|done].
  apply objs_ok_set; [done|]. by apply loaded_ok.
Qed.

(** ** Reverting a change *)

Definition entry_ok e c : Prop :=
  match e with
  | createObjectChange a | createContractChange a | selfDestructChange a _ | nonceChange a _ => is_Some (stateObjects c !! a)
  | storageChange a key _ => exists o, stateObjects c !! a = Some o /\ is_Some (originStorage o !! key)
  | codeChange a prevcode prevhash => is_Some (stateObjects c !! a) /\ code_matches (cacheMS c) prevcode prevhash
  | resetObjectChange a prev => is_Some (stateObjects c !! a) /\ obj_ok (cacheMS c) a prev
  | nativeChange snapshot _ => agree snapshot (cacheMS c)
  | _ => True
  end.

Lemma entry_ok_mono e c1 c2 : shows c1 c2 -> entry_ok e c2 -> entry_ok e c1.
Proof.
  intros Hs. pose proof (sh_ms _ _ Hs) as Hms. destruct e; cbn; rewrite ?Hms; try done; try (by apply sh_dom).
  - intros [? ?]. split; [by eapply sh_dom|done].
  - intros (o & Ho & Hk). destruct (sh_cache _ _ Hs _ _ Ho) as (o1 & ? & ?). eauto.
  - intros [? ?]. split; [by eapply sh_dom|done].
Qed.

Lemma entry_ok_dirtied e c a : entry_ok e c -> Dirtied e = Some a -> is_Some (stateObjects c !! a).
Proof. destruct e; cbn; intros; simplify_eq; try done; destruct_and?; naive_solver. Qed.

Lemma change_object_present a f c o : stateObjects c !! a = Some o -> change_object a f c = Some (setStateObject a (f o) c).
Proof. intros H. unfold change_object. by rewrite (getStateObject_present _ _ _ H). Qed.

Lemma change_object_mono a f c1 c2 c2' :
  (forall ms o1 o2, obj_equiv ms a o1 o2 -> obj_equiv ms a (f o1) (f o2)) -> (forall o, originStorage (f o) = originStorage o) ->
  shows c1 c2 -> is_Some (stateObjects c2 !! a) -> change_object a f c2 = Some c2' -> exists c1', change_object a f c1 = Some c1' /\ shows c1' c2'.
Proof.
  intros Hf Hor Hs [o2 H2] Hc. destruct (sh_cache _ _ Hs a o2 H2) as (o1 & H1 & Hk).
  rewrite (change_object_present _ _ _ _ H2) in Hc. simplify_eq. eexists. split; [by apply change_object_present|].
  apply shows_set; [done| |intros k; rewrite !Hor; apply Hk]. apply Hf. pose proof (sh_obj _ _ Hs a) as Ho. by rewrite (obj_of_present _ _ _ H1), (obj_of_present _ _ _ H2) in Ho.
Qed.

Lemma transient_set_get t a k v t' b j : transient_set t a k v = Some t' ->
  transient_get (Some t') b j = if decide (a = b /\ k = j) then v else transient_get t b j.
Proof.
  unfold transient_set. destruct t as [t|]; [|done]. intros [= <-]. cbn.
  destruct (decide (a = b)) as [->|Hab].
  - rewrite lookup_insert_eq. destruct (decide (k = j)) as [->|Hk].
    + by rewrite lookup_insert_eq, decide_True.
    + rewrite lookup_insert_ne, decide_False by naive_solver. by destruct (t !! b).
  - by rewrite lookup_insert_ne, decide_False by naive_solver.
Qed.

Lemma transient_set_Some t a k v : is_Some t -> exists t', transient_set t a k v = Some t'.
Proof. intros [t' ->]. by eexists. Qed.

Lemma shows_transient c1 c2 t1 t2 : shows c1 c2 -> (forall a k, transient_get (Some t1) a k = transient_get (Some t2) a k) ->
  shows (set_transient (Some t1) c1) (set_transient (Some t2) c2).
Proof. intros [] Ht. by constructor. Qed.

(** A native change brings back a store that agrees, so the cached objects show
    the same with it. *)
Lemma shows_native c1 c2 ms evs : shows c1 c2 -> agree ms (cacheMS c2) -> shows (set_events evs (set_ms ms c1)) (set_events evs (set_ms ms c2)).
Proof.
  intros [] Hag. constructor; try done. cbn [cacheMS set_events set_ms]. intros a. specialize (sh_obj0 a).
  apply (obj_equiv_agree _ ms) in sh_obj0; [|by symmetry]. unfold obj_of in *. cbn. rewrite sh_ms0 in sh_obj0.
  pose proof (newObject_agree ms a ms (cacheMS c2) Hag) as Hn.
  destruct (stateObjects c1 !! a), (stateObjects c2 !! a); cbn in *; [done| |by rewrite Hn|done]. etrans; [exact sh_obj0|]. by symmetry.
Qed.

Lemma shows_delete c1 c2 a : shows c1 c2 -> shows (set_objects (delete a (stateObjects c1)) c1) (set_objects (delete a (stateObjects c2)) c2).
Proof.
  intros []. constructor; try done.
  - intros b. specialize (sh_obj0 b). unfold obj_of in *. cbn. destruct (decide (a = b)) as [->|].
    + by rewrite !lookup_delete_eq, sh_ms0.
    + by rewrite !lookup_delete_ne.
  - intros b o2. cbn. rewrite !lookup_delete_Some. intros [? Hb]. destruct (sh_cache0 b o2 Hb) as (o1 & ? & ?). exists o1. by rewrite lookup_delete_Some.
Qed.

Lemma Revert_mono e c1 c2 c2' : shows c1 c2 -> entry_ok e c2 -> Revert_entry e c2 = Some c2' -> exists c1', Revert_entry e c1 = Some c1' /\ shows c1' c2'.
Proof.
  intros Hs Hok. pose proof Hs as []. destruct e; cbn [Revert_entry entry_ok] in *;
    try (apply change_object_mono; [intros; by auto using markContract_equiv, setNonce_equiv, setState_equiv, setCode_equiv|done|done|];
      first [exact Hok|exact (proj1 Hok)|by destruct Hok as (? & ? & _); eexists]).
  - intros [= <-]. eexists. split; [done|]. by apply shows_delete.
  - intros [= <-]. eexists. split; [done|]. by apply shows_set.
  - intros Hr. destruct Hok as [o2 H2]. destruct (sh_cache0 a o2 H2) as (o1 & H1 & Hk).
    rewrite (getStateObject_present _ _ _ H2) in Hr. simplify_eq. rewrite (getStateObject_present _ _ _ H1). eexists. split; [done|].
    apply shows_set; [done| |done]. apply markDestructed_equiv. specialize (sh_obj0 a). by rewrite (obj_of_present _ _ _ H1), (obj_of_present _ _ _ H2) in sh_obj0.
  - intros [= <-]. eexists. split; [done|]. by constructor.
  - rewrite sh_logs0. destruct (logs c2); [done|]. intros [= <-]. eexists. split; [done|]. by constructor.
  - intros [= <-]. eexists. split; [done|]. rewrite sh_access0. by constructor.
  - rewrite sh_access0. destruct (DeleteSlot _ _ _); [|done]. intros [= <-]. eexists. split; [done|]. by constructor.
  - destruct (transient_set (transient c2) _ _ _) as [t2|] eqn:H2; [|done]. intros [= <-].
    destruct (transient_set_Some (transient c1) a key prevalue) as [t1 H1]; [apply sh_prepared0; by destruct (transient c2)|].
    rewrite H1. eexists. split; [done|]. apply shows_transient; [done|]. intros b j.
    rewrite (transient_set_get _ _ _ _ _ b j H1), (transient_set_get _ _ _ _ _ b j H2). by case_decide.
  - rewrite sh_events0. destruct (_ <? _)%nat; [done|]. intros [= <-]. eexists. split; [done|]. by apply shows_native.
Qed.

(** ** Steps *)

Definition good c : Prop := core_ok c /\ objs_ok c.

(** An object is new only where the store has its account, or when it is created. *)
Definition grounded (c0 c : db MS Ev L) (e : option (entry MS)) : Prop :=
  forall a, is_Some (stateObjects c !! a) ->
    is_Some (stateObjects c0 !! a) \/ is_Some (k_GetAccount (cacheMS c0) a) \/ e = Some (createObjectChange a).

(** The addresses for which no native action creates an account *)
Context (A : address -> Prop).

Definition spared (m1 m2 : MS) : Prop := forall a, A a -> k_GetAccount m1 a = None -> k_GetAccount m2 a = None.

Definition spares (action : MS -> option (MS * list Ev)) : Prop := forall ms ms' evs, action ms = Some (ms', evs) -> spared ms ms'.

Lemma spared_refl m : spared m m.
Proof. by intros a. Qed.

Inductive jstep s : StateDB MS Ev L -> Prop :=
| js_core c : shows c (core s) -> grounded (core s) c None -> good c -> jstep s (with_core c s)
| js_failed : good (core s) -> jstep s (with_failed s)
| js_append e c c' :
    entry_ok e c -> Revert_entry e c = Some c' -> shows c' (core s) ->
    (forall a, is_Some (stateObjects (core s) !! a) -> is_Some (stateObjects c !! a)) ->
    grounded (core s) c (Some e) -> spared (cacheMS (core s)) (cacheMS c) -> good c ->
    jstep s (with_core c (append e s)).

Notation jsteps := (rtc jstep).

Lemma js_one s s' : jstep s s' -> jsteps s s'.
Proof. apply rtc_once. Qed.

Lemma jsteps_good s s' : jsteps s s' -> good (core s) -> good (core s').
Proof. induction 1 as [|s s1 s2 Hj _ IH]; [done|]. intros _. apply IH. by destruct Hj. Qed.

Lemma jsteps_then s s1 s2 : jsteps s s1 -> good (core s) -> (good (core s1) -> jsteps s1 s2) -> jsteps s s2.
Proof. intros Hj Hg Hk. etrans; [exact Hj|]. apply Hk. by eapply jsteps_good. Qed.

Lemma with_core_id s : with_core (core s) s = s.
Proof. by destruct s. Qed.

Lemma good_set c a o : good c -> obj_ok (cacheMS c) a o -> good (setStateObject a o c).
Proof. intros [Hc Ho] H. split; [done|]. by apply objs_ok_set. Qed.

Lemma good_get c a o : good c -> stateObjects c !! a = Some o -> obj_ok (cacheMS c) a o.
Proof. intros [_ Ho]. apply Ho. Qed.

Lemma grounded_same c0 c x : stateObjects c = stateObjects c0 -> grounded c0 c x.
Proof. intros H a. rewrite H. auto. Qed.

Lemma grounded_set c0 c a o x :
  grounded c0 c x -> (is_Some (stateObjects c0 !! a) \/ is_Some (k_GetAccount (cacheMS c0) a) \/ x = Some (createObjectChange a)) ->
  grounded c0 (setStateObject a o c) x.
Proof. intros Hc Ha b. cbn. rewrite lookup_insert_is_Some'. intros [<-|Hb]; [done|by apply Hc]. Qed.

Lemma grounded_get a c : grounded c (snd (getStateObject a c)) None.
Proof.
  unfold getStateObject. destruct (stateObjects c !! a) eqn:Ho; [by apply grounded_same|]. destruct (k_GetAccount (cacheMS c) a) eqn:Hk; [|by apply grounded_same].
  apply grounded_set; [by apply grounded_same|]. rewrite Hk. eauto.
Qed.

Lemma grounded_found a c o c' : getStateObject a c = (Some o, c') -> is_Some (stateObjects c !! a) \/ is_Some (k_GetAccount (cacheMS c) a).
Proof.
  unfold getStateObject. destruct (stateObjects c !! a); [by eauto|]. destruct (k_GetAccount (cacheMS c) a); [by eauto|done].
Qed.

(** Steps that add a change to the object at [a], which is there *)
Lemma js_change s e a f o o' :
  good (core s) -> stateObjects (core s) !! a = Some o -> entry_ok e (setStateObject a o' (core s)) ->
  Revert_entry e (setStateObject a o' (core s)) = Some (setStateObject a (f o') (setStateObject a o' (core s))) ->
  obj_equiv (cacheMS (core s)) a (f o') o -> (forall k, is_Some (originStorage o !! k) -> is_Some (originStorage (f o') !! k)) ->
  obj_ok (cacheMS (core s)) a o' ->
  jstep s (with_core (setStateObject a o' (core s)) (append e s)).
Proof.
  intros Hg Ho Hok Hr Heq Hk Hobj. eapply js_append; [done|exact Hr| | |apply grounded_set; [by apply grounded_same|eauto]|apply spared_refl|by apply good_set].
  - constructor; try done.
    + intros b. rewrite !obj_of_set. destruct (decide (a = b)) as [<-|]; [|done]. by rewrite (obj_of_present _ _ _ Ho).
    + intros b o2 H2. cbn. destruct (decide (a = b)) as [<-|]; [rewrite !lookup_insert_eq; simplify_eq; by eauto|]. rewrite !lookup_insert_ne by done. eauto.
  - intros b Hb. cbn. rewrite lookup_insert_is_Some'. auto.
Qed.

Lemma revert_change s a f (o' : stateObject) : change_object a f (setStateObject a o' (core s)) = Some (setStateObject a (f o') (setStateObject a o' (core s))).
Proof. apply change_object_present. cbn. by rewrite lookup_insert_eq. Qed.

Lemma set_present a (o' : stateObject) c : is_Some (stateObjects (setStateObject a o' c) !! a).
Proof. cbn. rewrite lookup_insert_eq. by eexists. Qed.

(** ** Reading *)

Lemma js_getStateObject a s x c : good (core s) -> getStateObject a (core s) = (x, c) -> jsteps s (with_core c s).
Proof.
  intros [Hc Ho] H. apply js_one. replace c with (snd (getStateObject a (core s))) by (by rewrite H). apply js_core; [apply shows_getStateObject|apply grounded_get|].
  split; [|apply getStateObject_ok; [apply Hc|done]]. destruct Hc. unfold getStateObject. repeat case_match; by split.
Qed.

Lemma js_cached a s o c o' : good (core s) -> getStateObject a (core s) = (Some o, c) -> obj_equiv (cacheMS (core s)) a o' o ->
  (forall k, is_Some (originStorage o !! k) -> is_Some (originStorage o' !! k)) -> obj_ok (cacheMS (core s)) a o' ->
  jsteps s (with_core (setStateObject a o' c) s).
Proof.
  intros Hg H Heq Hk Hok. pose proof (jsteps_good _ _ (js_getStateObject a s _ _ Hg H) Hg) as Hgc. cbn in Hgc.
  pose proof (grounded_get a (core s)) as Hgr. pose proof (grounded_found _ _ _ _ H) as Hf. rewrite H in Hgr.
  apply getStateObject_Some in H as (Hs & Ho & Hms).
  apply js_one, js_core; [|apply grounded_set; [done|tauto]|apply good_set; [done|by rewrite Hms]]. etrans; [|exact Hs].
  apply shows_cache; by rewrite (obj_of_present _ _ _ Ho), ?Hms.
Qed.

(** The object that is found *)
Lemma found_ok a s o c : good (core s) -> getStateObject a (core s) = (Some o, c) -> cacheMS c = cacheMS (core s) /\ stateObjects c !! a = Some o /\ obj_ok (cacheMS (core s)) a o.
Proof.
  intros Hg H. pose proof (jsteps_good _ _ (js_getStateObject a s _ _ Hg H) Hg) as Hgc. cbn in Hgc.
  apply getStateObject_Some in H as (_ & Ho & Hms). split; [done|]. split; [done|]. rewrite <- Hms. by apply good_get.
Qed.

Ltac reads H := match goal with |- context [getStateObject ?a (core ?s)] => destruct (getStateObject a (core s)) as [[o|] c] eqn:H end; cbn; by eapply js_getStateObject.

Lemma js_GetNonce a s : good (core s) -> jsteps s (snd (GetNonce a s)).
Proof. intros Hg. unfold GetNonce. reads H. Qed.

Lemma js_Exist a s : good (core s) -> jsteps s (snd (Exist a s)).
Proof. intros Hg. unfold Exist. reads H. Qed.

Lemma js_GetCodeHash a s : good (core s) -> jsteps s (snd (GetCodeHash a s)).
Proof. intros Hg. unfold GetCodeHash. reads H. Qed.

Lemma js_HasSelfDestructed a s : good (core s) -> jsteps s (snd (HasSelfDestructed a s)).
Proof. intros Hg. unfold HasSelfDestructed. reads H. Qed.

Lemma js_Empty a s : good (core s) -> jsteps s (snd (Empty a s)).
Proof. intros Hg. unfold Empty. reads H. Qed.

Lemma Code_origin ms o : originStorage (snd (Code ms o)) = originStorage o.
Proof. unfold Code. by repeat case_match. Qed.

Lemma js_GetCode a s : good (core s) -> jsteps s (snd (GetCode a s)).
Proof.
  intros Hg. unfold GetCode. destruct (getStateObject a (core s)) as [[o|] c] eqn:H; [|by eapply js_getStateObject].
  destruct (found_ok _ _ _ _ Hg H) as (-> & _ & Hok). pose proof (cached_code (cacheMS (core s)) a o) as Hc. pose proof (Code_origin (cacheMS (core s)) o) as Hor.
  apply cached_code_ok in Hok. destruct (Code (cacheMS (core s)) o) as [x o']. cbn in *. eapply js_cached; [done|exact H|done| |done]. by rewrite Hor.
Qed.

Lemma js_GetCodeSize a s : good (core s) -> jsteps s (snd (GetCodeSize a s)).
Proof. intros Hg. pose proof (js_GetCode a s Hg) as H. unfold GetCodeSize. by destruct (GetCode a s). Qed.

Lemma js_GetState a k s : good (core s) -> jsteps s (snd (GetState a k s)).
Proof.
  intros Hg. unfold GetState. destruct (getStateObject a (core s)) as [[o|] c] eqn:H; [|by eapply js_getStateObject].
  destruct (found_ok _ _ _ _ Hg H) as (-> & _ & Hok). pose proof (cached_state (cacheMS (core s)) a k o) as Hc.
  apply (cached_state_ok _ _ k) in Hok as (Hok & _ & Hk). destruct (GetState_obj (cacheMS (core s)) a k o) as [x o']. cbn in *. by eapply js_cached.
Qed.

Lemma js_GetCommittedState a k s : good (core s) -> jsteps s (snd (GetCommittedState a k s)).
Proof.
  intros Hg. unfold GetCommittedState. destruct (getStateObject a (core s)) as [[o|] c] eqn:H; [|by eapply js_getStateObject].
  destruct (found_ok _ _ _ _ Hg H) as (-> & _ & Hok). pose proof (cached_committed (cacheMS (core s)) a k o) as Hc.
  apply (cached_committed_ok _ _ k) in Hok as (Hok & _ & Hk). destruct (GetCommittedState_obj (cacheMS (core s)) a k o) as [x o']. cbn in *. by eapply js_cached.
Qed.

(** ** Writing *)

(** A step that leaves the objects alone *)
Lemma js_simple s e c c' : good (core s) -> Revert_entry e c = Some c' -> entry_ok e c -> stateObjects c = stateObjects (core s) -> cacheMS c = cacheMS (core s) ->
  al_ok (access c) /\ 0 <= refund c -> shows c' (core s) -> jstep s (with_core c (append e s)).
Proof.
  intros [[Hal Hst] Ho] Hr Hok Hobj Hms Hal' Hs. eapply js_append; [done|exact Hr|done|by rewrite Hobj|by apply grounded_same|rewrite Hms; apply spared_refl|]. split; [split; [done|by rewrite Hms]|].
  intros a o. rewrite Hobj, Hms. apply Ho.
Qed.

Lemma shows_same c1 c2 : cacheMS c1 = cacheMS c2 -> stateObjects c1 = stateObjects c2 -> refund c1 = refund c2 -> logs c1 = logs c2 -> access c1 = access c2 ->
  transient c1 = transient c2 -> nativeEvents c1 = nativeEvents c2 -> shows c1 c2.
Proof. destruct c1, c2. cbn. intros. by subst. Qed.

Lemma js_AddLog a l s : good (core s) -> jsteps s (AddLog a l s).
Proof.
  intros Hg. apply js_one. unfold AddLog. eapply (js_simple s); [done| |done|done|done|apply Hg|].
  - cbn. destruct (logs (core s) ++ _) eqn:H; [by destruct (logs (core s))|]. rewrite <- H. by rewrite removelast_last.
  - by apply shows_same.
Qed.

Lemma js_AddRefund g s : good (core s) -> jsteps s (AddRefund g s).
Proof.
  intros Hg. apply js_one. eapply (js_simple s); [done|done|done|done|done|split; [apply Hg|]|by apply shows_same]. cbn. apply Z.mod_pos_bound. lia.
Qed.

Lemma js_SubRefund g s s' : good (core s) -> SubRefund g s = Some s' -> jsteps s s'.
Proof.
  intros Hg. unfold SubRefund. cbn. destruct (Z.gtb_spec g (refund (core s))); [done|]. intros [= <-]. apply js_one.
  eapply (js_simple s); [done|done|done|done|done|split; [apply Hg|cbn; lia]|by apply shows_same].
Qed.

Lemma js_createObject a s : good (core s) -> jsteps s (createObject a s).
Proof.
  intros Hg. unfold createObject. destruct (getStateObject a (core s)) as [[o|] c] eqn:H.
  - eapply jsteps_then; [by eapply js_getStateObject|done|]. intros Hgc. destruct (found_ok _ _ _ _ Hg H) as (Hms & Ho & Hok).
    apply js_one. apply (js_change (with_core c s) _ a (fun _ => o) o); try done; cbn; rewrite ?Hms; try done; [split; [apply set_present|done]|]. apply newObject_ok.
  - apply getStateObject_None in H as (-> & Ho & Hk). rewrite with_core_id. apply js_one.
    eapply (js_append s); [apply set_present|done| | |apply grounded_set; [by apply grounded_same|by auto]|apply spared_refl|apply good_set; [done|apply newObject_ok]].
    + constructor; try done.
      * intros b. unfold obj_of. cbn. destruct (decide (a = b)) as [<-|]; [by rewrite lookup_delete_eq, Ho|].
        by rewrite lookup_delete_ne, lookup_insert_ne.
      * intros b o2 Hb. cbn. rewrite delete_insert_id by done. eauto.
    + intros b Hb. cbn. rewrite lookup_insert_is_Some'. auto.
Qed.

Lemma js_getOrNew a s o s' : good (core s) -> getOrNewStateObject a s = (o, s') -> jsteps s s' /\ stateObjects (core s') !! a = Some o /\ good (core s').
Proof.
  intros Hg He. assert (jsteps s s' /\ stateObjects (core s') !! a = Some o) as [Hj Ho]; [|split; [done|split; [done|by eapply jsteps_good]]].
  revert He. unfold getOrNewStateObject. destruct (getStateObject a (core s)) as [[o1|] c] eqn:H; intros [= <- <-].
  - split; [by eapply js_getStateObject|]. by apply getStateObject_Some in H as (_ & ? & _).
  - apply getStateObject_None in H as (-> & _). rewrite with_core_id. split; [by apply js_createObject|]. unfold createObject.
    destruct (getStateObject a _) as [? c']. cbn. by rewrite lookup_insert_eq.
Qed.

Lemma js_CreateContract a s s' : good (core s) -> CreateContract a s = Some s' -> jsteps s s'.
Proof.
  intros Hg. unfold CreateContract. destruct (getStateObject a (core s)) as [[o|] c] eqn:H; [|done]. intros [= <-].
  pose proof (js_getStateObject _ _ _ _ Hg H) as Hj. destruct (newContract o) eqn:Hn; [done|]. eapply jsteps_then; [exact Hj|done|]. intros Hgc.
  destruct (found_ok _ _ _ _ Hg H) as (Hms & Ho & Hok). apply js_one.
  apply (js_change (with_core c s) _ a (markContract false) o); [done|done|apply set_present|apply (revert_change (with_core c s))| |done|].
  - apply same_storage; try done. by rewrite !o_code_eq.
  - cbn. rewrite Hms. by apply markContract_ok.
Qed.

Lemma js_SetNonce a n s : good (core s) -> jsteps s (SetNonce a n s).
Proof.
  intros Hg. unfold SetNonce. destruct (getOrNewStateObject a s) as [o s'] eqn:H. apply js_getOrNew in H as (Hj & Ho & Hg'); [|done]. etrans; [exact Hj|].
  apply js_one. apply (js_change s' _ a (setNonce (Nonce (acct o))) o); [done|done|apply set_present|apply revert_change|apply setNonce_back|done|].
  by apply setNonce_ok, good_get.
Qed.

Lemma js_SetCode a x s : good (core s) -> jsteps s (SetCode a x s).
Proof.
  intros Hg. unfold SetCode. destruct (getOrNewStateObject a s) as [o s'] eqn:H. apply js_getOrNew in H as (Hj & Ho & Hg'); [|done]. etrans; [exact Hj|].
  set (ms := cacheMS (core s')). pose proof (setCode_back ms a (keccak (default [] x)) x o) as Hb. pose proof (Code_origin ms o) as Hor.
  pose proof (cached_code_ok ms a o (good_get _ _ _ Hg' Ho)) as Hok. assert (code_matches ms (fst (Code ms o)) (CodeHash (acct (snd (Code ms o))))) as Hm.
  { destruct Hok as [_ _ _ _ Hm]. revert Hm. unfold Code, code_matches. destruct (code o) eqn:Hc; [by cbn; rewrite Hc|]. destruct (_ =? _); [by cbn; rewrite Hc|done]. }
  destruct (Code ms o) as [prev o']. cbn in *. apply js_one.
  apply (js_change s' _ a (setCode (CodeHash (acct o')) prev) o); [done|done|split; [apply set_present|done]|apply revert_change|by apply Hb|by cbn; rewrite Hor|].
  apply setCode_ok; [|done]. unfold code_matches. destruct x; [done|]. cbn. unfold store_code, EmptyCodeHash. by rewrite Z.eqb_refl.
Qed.

Lemma js_SetState a k v s : good (core s) -> jsteps s (SetState a k v s).
Proof.
  intros Hg. unfold SetState. destruct (getOrNewStateObject a s) as [o s'] eqn:H. apply js_getOrNew in H as (Hj & Ho & Hg'); [|done]. etrans; [exact Hj|].
  set (ms := cacheMS (core s')). pose proof (cached_state ms a k o) as Hc. pose proof (eq_refl (o_state ms a o k)) as Hv. unfold o_state in Hv at 1.
  destruct (cached_state_ok ms a k o (good_get _ _ _ Hg' Ho)) as (Hok & Hor & Hk).
  destruct (GetState_obj ms a k o) as [prev o']. cbn in *. destruct (prev =? v).
  - apply js_one, js_core; [|apply grounded_set; [by apply grounded_same|eauto]|by apply good_set]. apply shows_cache; by rewrite (obj_of_present _ _ _ Ho).
  - apply js_one. apply (js_change s' _ a (setState k prev) o); [done|done| |apply revert_change| |done|by apply setState_ok].
    + exists (setState k v o'). split; [cbn; by rewrite lookup_insert_eq|done].
    + etrans; [|exact Hc]. rewrite Hv, <- (eq_state _ _ _ _ Hc). apply setState_back.
Qed.

Lemma js_SetTransientState a k v s s' : good (core s) -> SetTransientState a k v s = Some s' -> jsteps s s'.
Proof.
  intros Hg. unfold SetTransientState. destruct (_ =? v); [by intros [= <-]|]. destruct (transient_set _ a k v) as [t|] eqn:Ht; [|done]. intros [= <-]. cbn in Ht.
  apply js_one. destruct (transient_set_Some (Some t) a k (transient_get (transient (core s)) a k)) as [t' Ht']; [by eexists|].
  apply (js_simple s _ _ (set_transient (Some t') (set_transient (Some t) (core s)))); [done| |done|done|done|apply Hg|];
    [by cbn [Revert_entry transient set_transient]; rewrite Ht'|].
  constructor; try done; cbn [transient set_transient].
  - destruct (transient (core s)); [|done]. split; intros; by eexists.
  - intros b j. rewrite (transient_set_get _ _ _ _ _ b j Ht'), (transient_set_get _ _ _ _ _ b j Ht). by case_decide as Hd; [destruct Hd as [-> ->]|].
  - eauto.
Qed.

(** A step on the access list *)
Lemma js_access s e al al' :
  good (core s) ->
  Revert_entry e (set_access al (core s)) = Some (set_access al' (set_access al (core s))) -> al' = access (core s) -> entry_ok e (set_access al (core s)) ->
  al_ok al -> jstep s (with_core (set_access al (core s)) (append e s)).
Proof. intros Hg Hr -> Hok Hal. eapply js_simple; [done|exact Hr|done|done|done|split; [done|apply Hg]|by apply shows_same]. Qed.

Lemma js_unchanged s : good (core s) -> jsteps s (with_core (set_access (access (core s)) (core s)) s).
Proof. intros [[Hal Hst] Ho]. apply js_one, js_core; [by apply shows_same|by apply grounded_same|]. by split. Qed.

Lemma js_AddAddress a s : good (core s) -> jsteps s (AddAddressToAccessList a s).
Proof.
  intros Hg. unfold AddAddressToAccessList, AddAddress. destruct (addresses (access (core s)) !! a) eqn:Ha; [by apply js_unchanged|].
  apply js_one. eapply (js_access s); [done|done|by apply DeleteAddress_undo|done|]. apply al_ok_address; [apply Hg|done].
Qed.

Lemma js_slot s a al slot : good (core s) -> DeleteSlot al a slot = Some (access (core s)) -> al_ok al ->
  jstep s (with_core (set_access al (core s)) (append (accessListAddSlotChange a slot) s)).
Proof. intros Hg Hd Hal. eapply js_access; [done|cbn; by rewrite Hd|done|done|done]. Qed.

Lemma js_AddSlot a slot s : good (core s) -> jsteps s (AddSlotToAccessList a slot s).
Proof.
  intros Hg. assert (al_ok (access (core s))) as Hal by apply Hg. unfold AddSlotToAccessList.
  destruct (AddSlot_cases _ a slot Hal) as [[Ha ->]|[[Ha ->]|(i & m & Ha & Hi & Hm & Hne & ->)]].
  - pose proof (js_access s (accessListAddAccountChange a) (AccessList (<[a := -1]> (addresses (access (core s)))) (slots (access (core s)))) _
      Hg eq_refl (DeleteAddress_undo _ _ Ha) I (al_ok_address _ _ Hal Ha)) as Hj.
    match type of Hj with jstep _ ?x => set (s1 := x) in * end. eapply jsteps_then; [by apply js_one|done|]. intros Hg1. apply js_one.
    apply (js_slot s1 a (AccessList (<[a := Z.of_nat (length (slots (access (core s))))]> (addresses (access (core s)))) (slots (access (core s)) ++ [{[slot]}])));
      [done|apply DeleteSlot_fresh|]. by apply al_ok_first.
  - apply js_one, (js_slot s); [done|by apply DeleteSlot_first|]. by apply al_ok_first.
  - destruct (decide (slot ∈ m)); [by apply js_unchanged|]. apply js_one, (js_slot s); [done|by apply DeleteSlot_more|]. by apply al_ok_more.
Qed.

(** ** Native actions *)

Lemma js_emit a f evs s : good (core s) -> jsteps s (emitNativeEvents a f evs s).
Proof.
  revert s. induction evs as [|e evs IH]; intros s Hg; [done|]. cbn. destruct (f e); [|by apply IH].
  eapply jsteps_then; [by apply js_AddLog|done|]. apply IH.
Qed.

Lemma emit_ms a f evs ms s :
  emitNativeEvents a f evs (with_core (set_ms ms (core s)) s)
  = with_core (set_ms ms (core (emitNativeEvents a f evs s))) (emitNativeEvents a f evs s) /\ cacheMS (core (emitNativeEvents a f evs s)) = cacheMS (core s).
Proof. revert s. induction evs as [|e evs IH]; intros s; [done|]. cbn. destruct (f e); [|apply IH]. destruct (IH (AddLog a l s)) as [<- ->]. done. Qed.

Lemma js_native_change s ms evs : good (core s) -> agree ms (cacheMS (core s)) -> store_ok ms -> spared (cacheMS (core s)) ms ->
  jstep s (with_core (set_events (nativeEvents (core s) ++ evs) (set_ms ms (core s))) (append (nativeChange (cacheMS (core s)) (length evs)) s)).
Proof.
  intros [[Hal _] Ho] Hag Hst Hsp. eapply js_append; [cbn; by symmetry| | |done|by apply grounded_same|done|split; [done|]].
  - cbn [Revert_entry nativeEvents set_events]. rewrite length_app. destruct (Nat.ltb_spec (length (nativeEvents (core s)) + length evs) (length evs)); [lia|].
    rewrite Nat.add_sub, take_app_length. reflexivity.
  - by apply shows_same.
  - intros a o Ha. cbn. eapply obj_ok_agree; [by symmetry|]. by apply Ho.
Qed.

Lemma js_Execute a conv action s : good (core s) -> quiet action -> spares action -> jsteps s (snd (ExecuteNativeAction a conv action s)).
Proof.
  intros Hg Hq Hsp. unfold ExecuteNativeAction. destruct (action (cacheMS (core s))) as [[ms evs]|] eqn:Ha.
  2: { destruct Hg as [[Hal Hst] Ho]. apply js_one, js_core; [by apply shows_same|by apply grounded_same|]. by split. }
  pose proof (quiet_store _ _ _ _ Hq Ha (proj2 (proj1 Hg))) as Hst. destruct (Hq _ _ _ Ha) as [Hag _]. pose proof (Hsp _ _ _ Ha) as Hs1.
  destruct conv as [f|]; [|by apply js_one, (js_native_change s ms evs)].
  destruct (emit_ms a f evs ms s) as [-> Hms]. eapply jsteps_then; [by apply (js_emit a f evs)|done|]. intros Hg1.
  set (s1 := emitNativeEvents a f evs s) in *. rewrite <- Hms in *. by apply js_one, (js_native_change s1 ms evs).
Qed.

Lemma js_native action s : good (core s) -> quiet action -> spares action -> jsteps s (native action s).
Proof.
  intros Hg Hq Hsp. pose proof (js_Execute 0 None action s Hg Hq Hsp) as H. unfold native. destruct (ExecuteNativeAction 0 None action s) as [[] s']; [|done].
  eapply jsteps_then; [exact H|done|]. intros. by apply js_one, js_failed.
Qed.

Context `{!KeeperLaws MS Ev}.

Lemma js_Transfer a b n s s' : good (core s) -> spares (k_Transfer a b n) -> Transfer a b n s = Some s' -> jsteps s s'.
Proof. intros Hg Hsp. unfold Transfer. repeat case_match; try done; intros [= <-]; [done|]. apply js_native; [done|apply transfer_quiet|done]. Qed.

Lemma js_AddBalance a n s s' : good (core s) -> spares (k_AddBalance a n) -> AddBalance a n s = Some s' -> jsteps s s'.
Proof. intros Hg Hsp. unfold AddBalance. repeat case_match; try done; intros [= <-]; [done|]. apply js_native; [done|apply add_quiet|done]. Qed.

Lemma js_SubBalance a n s s' : good (core s) -> spares (k_SubBalance a n) -> SubBalance a n s = Some s' -> jsteps s s'.
Proof. intros Hg Hsp. unfold SubBalance. repeat case_match; try done; intros [= <-]; [done|]. apply js_native; [done|apply sub_quiet|done]. Qed.

Lemma js_SetBalance a n s : good (core s) -> spares (k_SetBalance a n) -> jsteps s (SetBalance a n s).
Proof. intros Hg Hsp. apply js_native; [done|apply set_quiet|done]. Qed.

Lemma js_SelfDestruct a s s' : good (core s) -> (forall n, spares (k_SubBalance a n)) -> SelfDestruct a s = Some s' -> jsteps s s'.
Proof.
  intros Hg Hsp. unfold SelfDestruct. destruct (getStateObject a (core s)) as [[o|] c] eqn:H; [|intros [= <-]; by eapply js_getStateObject].
  pose proof (js_getStateObject _ _ _ _ Hg H) as Hj. destruct (found_ok _ _ _ _ Hg H) as (Hms & Ho & Hok).
  set (s1 := with_core _ (append _ _)). assert (jsteps s s1) as Hj1.
  { eapply jsteps_then; [exact Hj|done|]. intros Hgc. apply js_one.
    apply (js_change (with_core c s) _ a (markDestructed (selfDestructed o)) o); [done|done|apply set_present| | |done|].
    - cbn. unfold getStateObject. cbn. by rewrite lookup_insert_eq.
    - apply same_storage; try done. by rewrite !o_code_eq.
    - cbn. rewrite Hms. by apply markDestructed_ok. }
  destruct (GetBalance a s1); [|done]. case_match; [|by intros [= <-]]. intros Hsub. eapply jsteps_then; [exact Hj1|done|]. intros. by eapply js_SubBalance.
Qed.

Lemma js_Selfdestruct6780 a s s' : good (core s) -> (forall n, spares (k_SubBalance a n)) -> Selfdestruct6780 a s = Some s' -> jsteps s s'.
Proof.
  intros Hg Hsp. unfold Selfdestruct6780. destruct (getStateObject a (core s)) as [[o|] c] eqn:H; pose proof (js_getStateObject _ _ _ _ Hg H) as Hj; [|by intros [= <-]].
  case_match; [|by intros [= <-]]. intros Hd. eapply jsteps_then; [exact Hj|done|]. intros. by apply (js_SelfDestruct a).
Qed.
End Journal.
