(* ===== verification/StateDBSnap.v ===== *)
(** * The state database: snapshots

    Reverting to a snapshot restores what the database showed when it was taken,
    whatever was done since, with the journal, the counts of its dirty accounts
    and the revisions. *)

From stdpp Require Import gmap sets relations sorting.
From S2P Require Import Prelude StateDB StateDBFacts StateDBJournal.
Local Open Scope Z_scope.

(** ** [sort.Search] *)

Lemma search_loop_spec fuel f i j n :
  (j - i <= fuel)%nat -> (i <= j <= n)%nat -> (forall x y, (x <= y < n)%nat -> f x = true -> f y = true) ->
  (forall x, (x < i)%nat -> f x = false) -> (j < n -> f j = true)%nat ->
  let r := search_loop fuel f i j in (r <= n)%nat /\ (forall x, (x < r)%nat -> f x = false) /\ (r < n -> f r = true)%nat.
Proof.
  revert i j. induction fuel as [|fuel IH]; intros i j Hf Hij Hm Hlow Hhigh; cbn [search_loop].
  - replace j with i in * by lia. split; [lia|done].
  - destruct (Nat.ltb_spec i j); [|replace j with i in * by lia; split; [lia|done]].
    assert (i <= (i + j) / 2 < j)%nat as Hh by (split; [apply Nat.div_le_lower_bound; lia|apply Nat.Div0.div_lt_upper_bound; lia]).
    destruct (f ((i + j) / 2)%nat) eqn:Hfh; apply IH; try lia; try done.
    intros x Hx. destruct (f x) eqn:Hfx; [|done]. by rewrite (Hm x ((i + j) / 2)%nat) in Hfh by (done || lia).
Qed.

Lemma search_spec n f : (forall x y, (x <= y < n)%nat -> f x = true -> f y = true) ->
  (search n f <= n)%nat /\ (forall x, (x < search n f)%nat -> f x = false) /\ (search n f < n -> f (search n f) = true)%nat.
Proof. intros Hm. apply search_loop_spec; (done || lia). Qed.

(** ** Dirty accounts *)

Section Snapshots.
Context {MS Ev L : Type} `{!Keeper MS Ev}.
Implicit Types (c : db MS Ev L) (o : stateObject) (s : StateDB MS Ev L) (e : entry MS).

Definition add_dirty (d : gmap address Z) e : gmap address Z := match Dirtied e with Some a => dirty_add a d | None => d end.
Definition sub_dirty (d : gmap address Z) e : gmap address Z := match Dirtied e with Some a => dirty_sub a d | None => d end.
Definition dirty_of (es : list (entry MS)) : gmap address Z := foldl add_dirty ∅ es.

Lemma dirty_of_snoc es e : dirty_of (es ++ [e]) = add_dirty (dirty_of es) e.
Proof. apply foldl_snoc. Qed.

Lemma dirty_of_pos es a n : dirty_of es !! a = Some n -> 0 < n.
Proof.
  revert n. induction es as [|e es IH] using rev_ind; intros n; [done|]. rewrite dirty_of_snoc. unfold add_dirty, dirty_add.
  destruct (Dirtied e) as [b|]; [|apply IH]. intros [[<- <-]|[_ H]]%lookup_insert_Some; [|by apply IH].
  destruct (dirty_of es !! b) as [m|]; cbn; [specialize (IH _ eq_refl)|]; lia.
Qed.

Lemma dirty_of_elem es a : is_Some (dirty_of es !! a) -> exists e, e ∈ es /\ Dirtied e = Some a.
Proof.
  induction es as [|e es IH] using rev_ind; [by intros []|]. rewrite dirty_of_snoc. unfold add_dirty, dirty_add.
  assert (is_Some (dirty_of es !! a) -> exists e0, e0 ∈ es ++ [e] /\ Dirtied e0 = Some a) as Hold by (intros (e0 & ? & ?)%IH; exists e0; split; [set_solver|done]).
  destruct (Dirtied e) as [b|] eqn:He; [|done]. rewrite lookup_insert_is_Some'. intros [<-|]; [|auto]. exists e. split; [set_solver|done].
Qed.

Lemma sub_add_dirty es e : sub_dirty (add_dirty (dirty_of es) e) e = dirty_of es.
Proof.
  unfold sub_dirty, add_dirty, dirty_sub, dirty_add. destruct (Dirtied e) as [a|]; [|done]. rewrite lookup_insert_eq. cbn.
  pose proof (dirty_of_pos es a) as Hp. destruct (dirty_of es !! a) as [n|] eqn:Ha; cbn.
  - specialize (Hp _ eq_refl). destruct (Z.eqb_spec (n + 1 - 1) 0); [lia|]. rewrite insert_insert_eq. apply insert_id. rewrite Ha. f_equal. lia.
  - by rewrite delete_insert_id.
Qed.

Lemma dirty_of_undo es1 es : foldl sub_dirty (dirty_of (es ++ rev es1)) es1 = dirty_of es.
Proof.
  induction es1 as [|e es1 IH]; cbn; [by rewrite app_nil_r|]. rewrite app_assoc, dirty_of_snoc, sub_add_dirty. apply IH.
Qed.

(** ** Journals that lead back *)

Definition covered (es : list (entry MS)) c : Prop := forall e a, e ∈ es -> Dirtied e = Some a -> is_Some (stateObjects c !! a).

(** The changes, the last one first, can be reverted from [c]; the accounts they
    dirtied are there. *)
Fixpoint journal_ok (es : list (entry MS)) c : Prop :=
  covered es c /\ core_ok c
  /\ match es with [] => True | e :: es => entry_ok e c /\ exists c', Revert_entry e c = Some c' /\ journal_ok es c' end.

(** The changes lead from [c] back to what [c0] shows. *)
Fixpoint unwinds (es : list (entry MS)) c (c0 : db MS Ev L) : Prop :=
  match es with
  | [] => shows c c0
  | e :: es => entry_ok e c /\ exists c', Revert_entry e c = Some c' /\ unwinds es c' c0
  end.

Lemma core_ok_mono c1 c2 : shows c1 c2 -> core_ok c2 -> core_ok c1.
Proof. intros Hs [Ha Hst]. split; [by rewrite (sh_access _ _ Hs), (sh_refund _ _ Hs)|by rewrite (sh_ms _ _ Hs)]. Qed.

Lemma covered_mono es c1 c2 : shows c1 c2 -> covered es c2 -> covered es c1.
Proof. intros Hs Hc e a He Hd. apply (sh_dom _ _ a Hs). by apply (Hc e). Qed.

Lemma journal_ok_mono es c1 c2 : shows c1 c2 -> journal_ok es c2 -> journal_ok es c1.
Proof.
  revert c1 c2. induction es as [|e es IH]; intros c1 c2 Hs; cbn; intros (Hc & Ha & H);
    (split; [by eapply covered_mono|split; [by eapply core_ok_mono|]]); [done|].
  destruct H as (Hok & c' & Hr & Hj). split; [by eapply entry_ok_mono|]. destruct (Revert_mono _ _ _ _ Hs Hok Hr) as (c1' & Hr1 & Hs').
  exists c1'. split; [done|]. by eapply IH.
Qed.

Lemma unwinds_mono es c1 c2 c0 : shows c1 c2 -> unwinds es c2 c0 -> unwinds es c1 c0.
Proof.
  revert c1 c2. induction es as [|e es IH]; intros c1 c2 Hs; cbn; [by etrans|]. intros (Hok & c' & Hr & Hj).
  split; [by eapply entry_ok_mono|]. destruct (Revert_mono _ _ _ _ Hs Hok Hr) as (c1' & Hr1 & Hs'). exists c1'. split; [done|]. by eapply IH.
Qed.

Lemma journal_ok_covered es c : journal_ok es c -> covered es c.
Proof. by destruct es; intros []. Qed.
Lemma journal_ok_core es c : journal_ok es c -> core_ok c.
Proof. by destruct es; intros (_ & ? & _). Qed.

Lemma Revert_objs e c c' : entry_ok e c -> objs_ok c -> Revert_entry e c = Some c' -> objs_ok c'.
Proof.
  assert (forall a f o, stateObjects c !! a = Some o -> objs_ok c -> obj_ok (cacheMS c) a (f o) -> change_object a f c = Some c' -> objs_ok c') as Hchange.
  { intros a f o Ho Hc Hf. rewrite (change_object_present _ _ _ _ Ho). intros [= <-]. by apply objs_ok_set. }
  intros Hok Hc. destruct e; cbn [Revert_entry entry_ok] in *.
  - intros [= <-] b o. cbn. rewrite lookup_delete_Some. intros [_ ?]. by apply Hc.
  - destruct Hok as [o Ho]. apply (Hchange a _ o); [done|done|]. by apply markContract_ok, Hc.
  - intros [= <-]. by apply objs_ok_set; [|apply Hok].
  - destruct Hok as [o Ho]. rewrite (getStateObject_present _ _ _ Ho). intros [= <-]. apply objs_ok_set; [done|]. by apply markDestructed_ok, Hc.
  - destruct Hok as [o Ho]. apply (Hchange a _ o); [done|done|]. by apply setNonce_ok, Hc.
  - destruct Hok as (o & Ho & Hk). apply (Hchange a _ o); [done|done|]. by apply setState_ok, Hc.
  - destruct Hok as [[o Ho] Hm]. apply (Hchange a _ o); [done|done|]. by apply setCode_ok, Hc.
  - by intros [= <-].
  - destruct (logs c); [done|]. by intros [= <-].
  - by intros [= <-].
  - destruct (DeleteSlot _ _ _); [|done]. by intros [= <-].
  - destruct (transient_set _ _ _ _); [|done]. by intros [= <-].
  - destruct (_ <? _)%nat; [done|]. intros [= <-] b o Hb. cbn. eapply obj_ok_agree; [by symmetry|]. by apply Hc.
Qed.

(** With the changes [es] since a snapshot, at which the account of [a] was absent:
    it has an object only if one of them creates it. *)
Record lean a (es : list (entry MS)) c : Prop := {
  l_store : k_GetAccount (cacheMS c) a = None;
  l_native m k : nativeChange m k ∈ es -> k_GetAccount m a = None;
  l_created : is_Some (stateObjects c !! a) -> createObjectChange a ∈ es
}.

Lemma Revert_present e c c' a : entry_ok e c -> Revert_entry e c = Some c' -> is_Some (stateObjects c' !! a) -> is_Some (stateObjects c !! a) /\ e <> createObjectChange a.
Proof.
  assert (forall b f, is_Some (stateObjects c !! b) -> change_object b f c = Some c' -> is_Some (stateObjects c' !! a) -> is_Some (stateObjects c !! a)) as Hch.
  { intros b f [o Ho]. rewrite (change_object_present _ _ _ _ Ho). intros [= <-]. cbn. rewrite lookup_insert_is_Some'. intros [->|]; [by eexists|done]. }
  destruct e; cbn [Revert_entry entry_ok]; intros Hok Hr Hp.
  1: { simplify_eq. cbn in Hp. apply lookup_delete_is_Some in Hp as [Hne ?]. split; [done|]. by intros [= ->]. }
  all: split; [|done]; revert Hr Hp.
  - by apply Hch.
  - intros [= <-]. cbn. rewrite lookup_insert_is_Some'. intros [->|?]; [apply Hok|done].
  - destruct Hok as [o Ho]. rewrite (getStateObject_present _ _ _ Ho). intros [= <-]. cbn. rewrite lookup_insert_is_Some'. intros [->|?]; [by eexists|done].
  - by apply Hch.
  - apply Hch. destruct Hok as (? & ? & _). by eexists.
  - apply Hch, Hok.
  - by intros [= <-].
  - destruct (logs c); [done|]. by intros [= <-].
  - by intros [= <-].
  - destruct (DeleteSlot _ _ _); [|done]. by intros [= <-].
  - destruct (transient_set _ _ _ _); [|done]. by intros [= <-].
  - destruct (_ <? _)%nat; [done|]. by intros [= <-].
Qed.

Lemma Revert_ms e c c' : Revert_entry e c = Some c' -> cacheMS c' = match e with nativeChange m _ => m | _ => cacheMS c end.
Proof.
  assert (forall a x d, getStateObject a c = (x, d) -> cacheMS d = cacheMS c) as Hget by (intros a x d; unfold getStateObject; repeat case_match; intros; by simplify_eq).
  destruct e; cbn [Revert_entry]; unfold change_object; repeat case_match; intros; simplify_eq; cbn; eauto.
Qed.

Lemma Revert_lean a e es c c' : entry_ok e c -> Revert_entry e c = Some c' -> lean a (e :: es) c -> lean a es c'.
Proof.
  intros Hok Hr [Hs Hn Hc]. constructor.
  - rewrite (Revert_ms _ _ _ Hr). destruct e; try done. eapply Hn. left.
  - intros m k Hin. eapply Hn. by right.
  - intros Hp. destruct (Revert_present e c c' a Hok Hr Hp) as [Hp' Hne]. apply Hc in Hp'. by apply elem_of_cons in Hp' as [<-|].
Qed.

Lemma Revert_loop_ok es1 es2 c d : journal_ok (es1 ++ es2) c -> objs_ok c ->
  exists c', Revert_loop es1 c d = Some (c', foldl sub_dirty d es1) /\ journal_ok es2 c' /\ objs_ok c'
    /\ (forall es3 c0, unwinds (es1 ++ es3) c c0 -> unwinds es3 c' c0) /\ (forall a es3, lean a (es1 ++ es3) c -> lean a es3 c').
Proof.
  revert c d. induction es1 as [|e es1 IH]; intros c d; [by exists c|]. intros (_ & _ & Hok & c1 & Hr & Hj) Hobjs.
  destruct (IH c1 (sub_dirty d e) Hj (Revert_objs _ _ _ Hok Hobjs Hr)) as (c' & Hl & Hj' & Ho' & Hu & Hle). exists c'. cbn. rewrite Hr.
  split; [done|]. split; [done|]. split; [done|].
  split; [intros es3 c0 (_ & c1' & Hr' & Hu'); apply Hu; by simplify_eq|]. intros a es3 Hlean. apply Hle. by eapply Revert_lean.
Qed.

(** ** The invariant *)

Record inv s : Prop := {
  i_dirties : dirties s = dirty_of (entries s);
  i_journal : journal_ok (rev (entries s)) (core s);
  i_objs : objs_ok (core s);
  i_start : exists c0, stateObjects c0 = ∅ /\ unwinds (rev (entries s)) (core s) c0;
  i_sorted i j x y : validRevisions s !! i = Some x -> validRevisions s !! j = Some y -> (i < j)%nat -> x.1 < y.1 /\ (x.2 <= y.2)%nat;
  i_bound i x : validRevisions s !! i = Some x -> x.1 < nextRevisionID s /\ (x.2 <= length (entries s))%nat
}.

Lemma inv_good s : inv s -> good (core s).
Proof. intros []. split; [by eapply journal_ok_core|done]. Qed.

(** What is known of a state that comes from [s0] after a snapshot, as long as the
    snapshot is valid. *)
Definition since (s0 s : StateDB MS Ev L) : Prop :=
  nextRevisionID s0 < nextRevisionID s
  /\ forall i n, validRevisions s !! i = Some (nextRevisionID s0, n) ->
       n = length (entries s0) /\ take i (validRevisions s) = validRevisions s0 /\ take n (entries s) = entries s0
       /\ unwinds (rev (drop n (entries s))) (core s) (core s0).

Lemma jstep_inv A s s' : jstep A s s' -> inv s -> inv s'.
Proof.
  intros Hj [Hd Hjo Ho (c0 & Hc0 & Hu) Hs Hb]. destruct Hj as [c Hsh _ [Hgc Hgo]| |e c c' Hok Hr Hsh Hdom _ _ [Hgc Hgo]]; constructor; try done.
  - by eapply journal_ok_mono.
  - exists c0. split; [done|]. by eapply unwinds_mono.
  - by exists c0.
  - cbn [dirties append with_core entries]. rewrite dirty_of_snoc, Hd. done.
  - cbn [entries append with_core core]. rewrite rev_unit. split; [|split; [done|]].
    + intros e0 a [->|He]%elem_of_cons Hda; [by eapply entry_ok_dirtied|]. apply Hdom. by apply (journal_ok_covered _ _ Hjo e0).
    + split; [done|]. exists c'. split; [done|]. by eapply journal_ok_mono.
  - exists c0. split; [done|]. cbn [entries append with_core core]. rewrite rev_unit. split; [done|]. exists c'. split; [done|]. by eapply unwinds_mono.
  - intros i x Hx. cbn in *. rewrite length_app. specialize (Hb i x Hx). lia.
Qed.

Lemma jstep_since A s0 s s' : jstep A s s' -> inv s -> since s0 s -> since s0 s'.
Proof.
  intros Hj Hi [Hn Hs]. destruct Hj as [c Hsh _ _| |e c c' Hok Hr Hsh Hdom _ _ _]; (split; [done|]); intros i n Hx; cbn in Hx; destruct (Hs i n Hx) as (H1 & H2 & H3 & H4).
  - repeat (split; [done|]). by eapply unwinds_mono.
  - done.
  - pose proof (i_bound _ Hi _ _ Hx) as [_ Hle]. cbn in Hle. cbn [entries append with_core core validRevisions].
    split; [done|]. split; [done|]. rewrite take_app_le, drop_app_le by done. split; [done|]. rewrite rev_unit. split; [done|].
    exists c'. split; [done|]. by eapply unwinds_mono.
Qed.

(** ** Accounts that are absent *)

Definition lean_since a (s0 s : StateDB MS Ev L) : Prop := forall i n, validRevisions s !! i = Some (nextRevisionID s0, n) -> lean a (rev (drop n (entries s))) (core s).

Lemma jstep_lean A a s0 s s' : jstep A s s' -> A a -> inv s -> lean_since a s0 s -> lean_since a s0 s'.
Proof.
  intros Hj HA Hi Hl i n Hx. destruct Hj as [c Hsh Hgr _| |e c c' Hok Hr Hsh Hdom Hgr Hsp _]; cbn in Hx; destruct (Hl i n Hx) as [Hs Hn Hc]; [|by constructor|].
  - constructor; cbn [core with_core entries]; [by rewrite (sh_ms _ _ Hsh)|done|]. intros [Hp|[[x Hp]|Hp]]%Hgr; [auto|congruence|done].
  - pose proof (i_bound _ Hi _ _ Hx) as [_ Hle]. cbn in Hle. constructor; cbn [core with_core entries append]; rewrite ?drop_app_le, ?rev_unit by done.
    + by apply Hsp.
    + intros m k [<-|Hin]%elem_of_cons; [|by eapply Hn]. by rewrite <- (sh_ms _ _ Hsh), (Revert_ms _ _ _ Hr) in Hs.
    + intros [Hp|[[x Hp]|[= ->]]]%Hgr; [right; auto|congruence|left].
Qed.

Lemma jsteps_keep A s s' : rtc (jstep A) s s' -> inv s ->
  inv s' /\ (forall s0, since s0 s -> since s0 s') /\ (forall a s0, A a -> lean_since a s0 s -> lean_since a s0 s').
Proof.
  induction 1 as [|s s1 s2 Hj _ IH]; [done|]. intros Hi. destruct (IH (jstep_inv _ _ _ Hj Hi)) as (Hi2 & Hs2 & Hl2). split; [done|].
  split; [intros s0 H0; apply Hs2; by eapply jstep_since|]. intros a s0 Ha H0. apply Hl2; [done|]. by eapply jstep_lean.
Qed.

(** ** Snapshots *)

Lemma Snapshot_inv s : inv s -> inv (snd (Snapshot s)).
Proof.
  intros [Hd Hj Ho Hst Hs Hb]. constructor; try done; cbn.
  - intros i j x y Hx Hy Hij. apply lookup_snoc_Some in Hx as [[Hi Hx]|[-> <-]], Hy as [[Hj' Hy]|[-> <-]]; try lia; [by eapply Hs|].
    by destruct (Hb _ _ Hx).
  - intros i x [[_ Hx]|[_ <-]]%lookup_snoc_Some; [destruct (Hb _ _ Hx)|cbn]; lia.
Qed.

Lemma Snapshot_since s : inv s -> since s (snd (Snapshot s)).
Proof.
  intros Hi. split; [cbn; lia|]. cbn. intros i n [[_ Hx]|[-> [= <-]]]%lookup_snoc_Some; [destruct (i_bound _ Hi _ _ Hx); cbn in *; lia|].
  split; [done|]. split; [by rewrite take_app_length|]. rewrite firstn_all, drop_all. split; [done|]. cbn. reflexivity.
Qed.

Lemma Snapshot_keeps s0 s : inv s -> since s0 s -> since s0 (snd (Snapshot s)).
Proof.
  intros Hi [Hn Hs]. split; [cbn; lia|]. cbn. intros i n [[Hlt Hx]|[-> [= ? <-]]]%lookup_snoc_Some; [|lia].
  destruct (Hs i n Hx) as (H1 & H2 & H3). split; [done|]. by rewrite take_app_le by lia.
Qed.

(** The search finds a valid revision. *)
Lemma search_revision s i id n : inv s -> validRevisions s !! i = Some (id, n) ->
  search (length (validRevisions s)) (fun j => match validRevisions s !! j with Some (x, _) => x | None => 0 end >=? id) = i.
Proof.
  intros Hi Hx. set (f := fun j : nat => _). pose proof (lookup_lt_Some _ _ _ Hx) as Hlt.
  assert (forall j x m, validRevisions s !! j = Some (x, m) -> f j = (x >=? id)) as Hf by (intros j x m Hj; unfold f; by rewrite Hj).
  assert (forall j, (j < length (validRevisions s))%nat -> exists x m, validRevisions s !! j = Some (x, m)) as Hget.
  { intros j Hj. destruct (lookup_lt_is_Some_2 _ _ Hj) as [[x m] ?]. by eauto. }
  destruct (search_spec (length (validRevisions s)) f) as (H1 & H2 & H3).
  - intros x y Hxy. destruct (Hget x) as (x1 & n1 & E1); [lia|]. destruct (Hget y) as (x2 & n2 & E2); [lia|]. rewrite (Hf _ _ _ E1), (Hf _ _ _ E2).
    destruct (decide (x = y)) as [->|]; [by simplify_eq|]. destruct (i_sorted _ Hi _ _ _ _ E1 E2) as [? _]; [lia|]. cbn in *. lia.
  - set (r := search _ f) in *. destruct (lt_eq_lt_dec r i) as [[Hr| ->]|Hr]; [|done|].
    + destruct (Hget r) as (x1 & n1 & E1); [lia|]. destruct (i_sorted _ Hi _ _ _ _ E1 Hx Hr) as [? _]. specialize (H3 ltac:(lia)).
      rewrite (Hf _ _ _ E1) in H3. cbn in *. lia.
    + specialize (H2 i Hr). rewrite (Hf _ _ _ Hx) in H2. lia.
Qed.

Lemma RevertToSnapshot_ok s i id n : inv s -> validRevisions s !! i = Some (id, n) ->
  exists s', RevertToSnapshot id s = Some s' /\ inv s' /\ entries s' = take n (entries s) /\ validRevisions s' = take i (validRevisions s)
    /\ nextRevisionID s' = nextRevisionID s
    /\ forall m, (m <= n)%nat ->
        (forall c0, unwinds (rev (drop m (entries s))) (core s) c0 -> unwinds (rev (drop m (entries s'))) (core s') c0)
        /\ (forall a, lean a (rev (drop m (entries s))) (core s) -> lean a (rev (drop m (entries s'))) (core s')).
Proof.
  intros Hi Hx. pose proof Hi as [Hd Hj Ho (c0 & Hc0 & Hst) Hs Hb]. destruct (Hb _ _ Hx) as [_ Hn]. cbn in Hn.
  unfold RevertToSnapshot. rewrite (search_revision s i id n Hi Hx), Hx, Z.eqb_refl. cbn [negb]. unfold Revert.
  rewrite <- (take_drop n (entries s)), rev_app_distr in Hj, Hst.
  destruct (Revert_loop_ok _ _ _ (dirties s) Hj Ho) as (c' & -> & Hj' & Ho' & Hu & Hle). eexists. split; [done|]. cbn [core entries validRevisions nextRevisionID].
  split; [|split; [done|split; [done|split; [done|]]]].
  - constructor; cbn [core entries validRevisions nextRevisionID dirties]; [|done|done|exists c0; split; [done|by apply Hu]| |].
    + rewrite Hd. rewrite <- (dirty_of_undo (rev (drop n (entries s))) (take n (entries s))), rev_involutive. by rewrite take_drop.
    + intros j k x y [Hx' _]%lookup_take_Some [Hy' _]%lookup_take_Some. by apply Hs.
    + intros j x [Hx' Hji]%lookup_take_Some. split; [by apply (Hb j)|]. rewrite length_take. destruct (Hs _ _ _ _ Hx' Hx Hji) as [_ ?]. cbn in *. lia.
  - intros m Hm. assert (rev (drop m (entries s)) = rev (drop n (entries s)) ++ rev (drop m (take n (entries s)))) as ->.
    { rewrite <- (take_drop n (entries s)) at 1. rewrite drop_app_le by (rewrite length_take; lia). apply rev_app_distr. }
    split; [intros c1; apply Hu|intros a; apply Hle].
Qed.

Lemma Revert_lean_since a s0 s i id n s' : inv s -> lean_since a s0 s -> validRevisions s !! i = Some (id, n) -> RevertToSnapshot id s = Some s' -> lean_since a s0 s'.
Proof.
  intros Hi Hl Hx Hr. destruct (RevertToSnapshot_ok s i id n Hi Hx) as (s'' & Hr' & _ & He & Hv & _ & Hu). simplify_eq.
  intros j m. rewrite Hv. intros [Hj Hji]%lookup_take_Some. destruct (i_sorted _ Hi _ _ _ _ Hj Hx Hji) as [_ Hle]. cbn in Hle.
  apply (Hu m Hle). by eapply Hl.
Qed.

Lemma Revert_since s0 s i id n s' : inv s -> since s0 s -> validRevisions s !! i = Some (id, n) -> RevertToSnapshot id s = Some s' -> since s0 s'.
Proof.
  intros Hi [Hn Hs] Hx Hr. destruct (RevertToSnapshot_ok s i id n Hi Hx) as (s'' & Hr' & Hi' & He & Hv & Hnext & Hu). simplify_eq.
  split; [by rewrite Hnext|]. rewrite Hv. intros j m [Hj Hji]%lookup_take_Some. destruct (Hs j m Hj) as (H1 & H2 & H3 & H4).
  destruct (i_sorted _ Hi _ _ _ _ Hj Hx Hji) as [_ Hle]. cbn in Hle. split; [done|]. split; [rewrite take_take; by rewrite Nat.min_l by lia|].
  split; [rewrite He, take_take; by rewrite Nat.min_l by lia|]. by apply (Hu m Hle).
Qed.

Lemma RevertToSnapshot_valid s id s' : inv s -> RevertToSnapshot id s = Some s' -> exists i n, validRevisions s !! i = Some (id, n).
Proof.
  intros Hi. unfold RevertToSnapshot. set (idx := search _ _). destruct (validRevisions s !! idx) as [[x n]|] eqn:Hx; [|done].
  destruct (Z.eqb_spec x id) as [->|]; [|done]. by eauto.
Qed.

(** ** What the methods return *)

Lemma getStateObject_view a c : 
  (exists o c', getStateObject a c = (Some o, c') /\ obj_of c a = o /\ cacheMS c' = cacheMS c)
  \/ (getStateObject a c = (None, c) /\ obj_of c a = newObject None /\ k_GetAccount (cacheMS c) a = None /\ stateObjects c !! a = None).
Proof.
  unfold getStateObject, obj_of. destruct (stateObjects c !! a) as [o|] eqn:Ho; [left; by eauto 10|].
  destruct (k_GetAccount (cacheMS c) a) eqn:Hk; [left; by eauto 10|by right].
Qed.

Lemma GetNonce_view a s : fst (GetNonce a s) = Nonce (acct (obj_of (core s) a)).
Proof. unfold GetNonce. by destruct (getStateObject_view a (core s)) as [(o & c' & -> & -> & _)|(-> & -> & _)]. Qed.

Lemma HasSelfDestructed_view a s : fst (HasSelfDestructed a s) = selfDestructed (obj_of (core s) a).
Proof. unfold HasSelfDestructed. by destruct (getStateObject_view a (core s)) as [(o & c' & -> & -> & _)|(-> & -> & _)]. Qed.

Lemma GetCode_view a s : fst (GetCode a s) = o_code (cacheMS (core s)) (obj_of (core s) a).
Proof.
  unfold GetCode. destruct (getStateObject_view a (core s)) as [(o & c' & -> & -> & ->)|(-> & -> & _)].
  - unfold o_code. by destruct (Code _ o).
  - rewrite o_code_eq. cbn. unfold store_code. by rewrite Z.eqb_refl.
Qed.

Context `{!KeeperLaws MS Ev}.

Lemma GetCommittedState_view a k s : store_ok (cacheMS (core s)) -> fst (GetCommittedState a k s) = o_committed (cacheMS (core s)) a (obj_of (core s) a) k.
Proof.
  intros Hst. unfold GetCommittedState. destruct (getStateObject_view a (core s)) as [(o & c' & -> & -> & ->)|(-> & -> & Hk & _)].
  - unfold o_committed. by destruct (GetCommittedState_obj _ _ _ o).
  - rewrite o_committed_eq. cbn. by rewrite (proj1 Hst).
Qed.

Lemma GetState_view a k s : store_ok (cacheMS (core s)) -> fst (GetState a k s) = o_state (cacheMS (core s)) a (obj_of (core s) a) k.
Proof.
  intros Hst. unfold GetState. destruct (getStateObject_view a (core s)) as [(o & c' & -> & -> & ->)|(-> & -> & Hk & _)].
  - unfold o_state. by destruct (GetState_obj _ _ _ o).
  - rewrite o_state_eq, o_committed_eq. cbn. by rewrite (proj1 Hst).
Qed.

(** What the transaction sees of [s1] and of [s2] is the same; an account that
    exists in [s2] exists in [s1]. *)
Record same_view (s1 s2 : StateDB MS Ev L) : Prop := {
  v_nonce a : fst (GetNonce a s1) = fst (GetNonce a s2);
  v_code a : fst (GetCode a s1) = fst (GetCode a s2);
  v_destructed a : fst (HasSelfDestructed a s1) = fst (HasSelfDestructed a s2);
  v_balance a : GetBalance a s1 = GetBalance a s2;
  v_state a k : fst (GetState a k s1) = fst (GetState a k s2);
  v_committed a k : fst (GetCommittedState a k s1) = fst (GetCommittedState a k s2);
  v_transient a k : transient_get (transient (core s1)) a k = transient_get (transient (core s2)) a k;
  v_refund : refund (core s1) = refund (core s2);
  v_logs : logs (core s1) = logs (core s2);
  v_access : access (core s1) = access (core s2);
  v_events : nativeEvents (core s1) = nativeEvents (core s2);
  v_store : cacheMS (core s1) = cacheMS (core s2);
  v_exists a : fst (Exist a s2) = true ->
    fst (Exist a s1) = true /\ fst (GetCodeHash a s1) = fst (GetCodeHash a s2) /\ fst (Empty a s1) = fst (Empty a s2)
}.

Lemma shows_exists a s1 s2 : shows (core s1) (core s2) -> fst (Exist a s2) = true ->
  fst (Exist a s1) = true /\ fst (GetCodeHash a s1) = fst (GetCodeHash a s2) /\ fst (Empty a s1) = fst (Empty a s2).
Proof.
  intros Hs. unfold Exist, GetCodeHash, Empty, GetBalance. destruct (getStateObject_view a (core s2)) as [(o2 & c2 & E2 & H2 & M2)|(-> & _)]; [|done].
  destruct (getStateObject_view a (core s1)) as [(o1 & c1 & -> & H1 & M1)|(_ & _ & Hk & Ho)].
  - rewrite E2. intros _. cbn. pose proof (eq_acct _ _ _ _ (sh_obj _ _ Hs a)) as Ha. rewrite H1, H2 in Ha. unfold obj_empty.
    by rewrite Ha, M1, M2, (sh_ms _ _ Hs).
  - exfalso. rewrite (sh_ms _ _ Hs) in Hk. unfold getStateObject in E2. rewrite Hk in E2. destruct (stateObjects (core s2) !! a) eqn:Hx; [|done].
    destruct (sh_dom _ _ a Hs) as [? Hc]; [by eexists|]. by rewrite Ho in Hc.
Qed.

Lemma shows_view s1 s2 : store_ok (cacheMS (core s2)) -> shows (core s1) (core s2) -> same_view s1 s2.
Proof.
  intros Hst Hs. pose proof Hs as [Hms _ _ _ _ _ Htr Hob _]. constructor; try apply Hs; intros a.
  - rewrite !GetNonce_view. by rewrite (eq_acct _ _ _ _ (Hob a)).
  - rewrite !GetCode_view, Hms. apply (eq_code _ _ _ _ (Hob a)).
  - rewrite !HasSelfDestructed_view. apply (eq_destructed _ _ _ _ (Hob a)).
  - unfold GetBalance. by rewrite Hms.
  - intros k. rewrite !GetState_view by (by rewrite ?Hms); rewrite Hms. apply (eq_state _ _ _ _ (Hob a)).
  - intros k. rewrite !GetCommittedState_view by (by rewrite ?Hms); rewrite Hms. apply (eq_committed _ _ _ _ (Hob a)).
  - by apply shows_exists.
Qed.

(** ** Sequences of operations *)

Inductive op : Type :=
| op_GetNonce (a : address) | op_GetCode (a : address) | op_GetCodeHash (a : address) | op_GetCodeSize (a : address)
| op_Exist (a : address) | op_Empty (a : address) | op_HasSelfDestructed (a : address)
| op_GetState (a : address) (k : hash) | op_GetCommittedState (a : address) (k : hash)
| op_AddLog (a : address) (l : L) | op_AddRefund (gas : Z) | op_SubRefund (gas : Z)
| op_CreateAccount (a : address) | op_CreateContract (a : address)
| op_Transfer (sender recipient : address) (amount : Z) | op_AddBalance (a : address) (amount : Z)
| op_SubBalance (a : address) (amount : Z) | op_SetBalance (a : address) (amount : Z)
| op_SetNonce (a : address) (n : Z) | op_SetCode (a : address) (x : option (list Z)) | op_SetState (a : address) (k v : hash)
| op_SelfDestruct (a : address) | op_Selfdestruct6780 (a : address)
| op_SetTransientState (a : address) (k v : hash)
| op_AddAddress (a : address) | op_AddSlot (a : address) (slot : hash)
| op_Native (contract : address) (converter : option (Ev -> option L)) (action : MS -> option (MS * list Ev))
| op_Snapshot | op_Revert (id : Z).

Definition run (x : op) s : option (StateDB MS Ev L) :=
  match x with
  | op_GetNonce a => Some (snd (GetNonce a s))
  | op_GetCode a => Some (snd (GetCode a s))
  | op_GetCodeHash a => Some (snd (GetCodeHash a s))
  | op_GetCodeSize a => Some (snd (GetCodeSize a s))
  | op_Exist a => Some (snd (Exist a s))
  | op_Empty a => match Empty a s with (Some _, s) => Some s | (None, _) => None end
  | op_HasSelfDestructed a => Some (snd (HasSelfDestructed a s))
  | op_GetState a k => Some (snd (GetState a k s))
  | op_GetCommittedState a k => Some (snd (GetCommittedState a k s))
  | op_AddLog a l => Some (AddLog a l s)
  | op_AddRefund gas => Some (AddRefund gas s)
  | op_SubRefund gas => SubRefund gas s
  | op_CreateAccount a => Some (createObject a s)
  | op_CreateContract a => CreateContract a s
  | op_Transfer a b n => Transfer a b n s
  | op_AddBalance a n => AddBalance a n s
  | op_SubBalance a n => SubBalance a n s
  | op_SetBalance a n => Some (SetBalance a n s)
  | op_SetNonce a n => Some (SetNonce a n s)
  | op_SetCode a x => Some (SetCode a x s)
  | op_SetState a k v => Some (SetState a k v s)
  | op_SelfDestruct a => SelfDestruct a s
  | op_Selfdestruct6780 a => Selfdestruct6780 a s
  | op_SetTransientState a k v => SetTransientState a k v s
  | op_AddAddress a => Some (AddAddressToAccessList a s)
  | op_AddSlot a slot => Some (AddSlotToAccessList a slot s)
  | op_Native contract converter action => Some (snd (ExecuteNativeAction contract converter action s))
  | op_Snapshot => Some (snd (Snapshot s))
  | op_Revert id => RevertToSnapshot id s
  end.

Fixpoint exec (xs : list op) s : option (StateDB MS Ev L) :=
  match xs with [] => Some s | x :: xs => match run x s with None => None | Some s => exec xs s end end.

(** Native actions leave the nonces, codes and storage to the database. *)
Definition op_ok (x : op) : Prop := match x with op_Native _ _ action => quiet action | _ => True end.

(** The operation does not create the account of one of the addresses [A] by a
    native action. *)
Definition op_spares (A : address -> Prop) (x : op) : Prop :=
  match x with
  | op_Transfer a b n => spares A (k_Transfer a b n)
  | op_AddBalance a n => spares A (k_AddBalance a n)
  | op_SubBalance a n => spares A (k_SubBalance a n)
  | op_SetBalance a n => spares A (k_SetBalance a n)
  | op_SelfDestruct a | op_Selfdestruct6780 a => forall n, spares A (k_SubBalance a n)
  | op_Native _ _ action => spares A action
  | _ => True
  end.

Lemma run_jsteps A x s s' : op_ok x -> op_spares A x -> good (core s) -> run x s = Some s' ->
  rtc (jstep A) s s' \/ s' = snd (Snapshot s) \/ exists id, RevertToSnapshot id s = Some s'.
Proof.
  intros Hok Hsp Hal Hr. destruct x; cbn in Hr, Hsp; simplify_eq; try (left;
    eauto using js_GetNonce, js_GetCode, js_GetCodeHash, js_GetCodeSize, js_Exist, js_HasSelfDestructed, js_GetState, js_GetCommittedState; fail);
  try (left; eauto using js_AddLog, js_AddRefund, js_SubRefund, js_createObject, js_CreateContract, js_Transfer, js_AddBalance, js_SubBalance, js_SetBalance; fail);
  try (left; eauto using js_SetNonce, js_SetCode, js_SetState, js_SelfDestruct, js_Selfdestruct6780, js_SetTransientState, js_AddAddress, js_AddSlot, js_Execute; fail); eauto.
  left. pose proof (js_Empty A a s Hal) as He. destruct (Empty a s) as [[]]; by simplify_eq.
Qed.

Lemma run_keeps A x s s' : op_ok x -> op_spares A x -> inv s -> run x s = Some s' ->
  inv s' /\ (forall s0, since s0 s -> since s0 s') /\ (forall a s0, A a -> since s0 s -> lean_since a s0 s -> lean_since a s0 s').
Proof.
  intros Hok Hsp Hi Hr. destruct (run_jsteps A x s s' Hok Hsp (inv_good _ Hi) Hr) as [Hj|[->|[id Hv]]].
  - destruct (jsteps_keep _ _ _ Hj Hi) as (? & ? & ?). auto.
  - split; [by apply Snapshot_inv|]. split; [intros s0; by apply Snapshot_keeps|]. intros a s0 _ [Hn _] Hl i n. cbn.
    intros [[_ Hx]|[_ [= Heq _]]]%lookup_snoc_Some; [by eapply Hl|lia].
  - destruct (RevertToSnapshot_valid _ _ _ Hi Hv) as (i & n & Hx). split; [|split; intros; by eauto using Revert_since, Revert_lean_since].
    destruct (RevertToSnapshot_ok _ _ _ _ Hi Hx) as (s'' & Hr' & ? & _). by simplify_eq.
Qed.

Lemma spares_none action : spares (fun _ => False) action.
Proof. intros ms ms' evs _ a []. Qed.

Lemma op_spares_none x : op_spares (fun _ => False) x.
Proof. destruct x; cbn; intros; first [done|apply spares_none]. Qed.

Lemma exec_keeps_lean A xs s s' : Forall op_ok xs -> Forall (op_spares A) xs -> inv s -> exec xs s = Some s' ->
  inv s' /\ (forall s0, since s0 s -> since s0 s') /\ (forall a s0, A a -> since s0 s -> lean_since a s0 s -> lean_since a s0 s').
Proof.
  intros Hok Hsp. revert s. induction Hok as [|x xs Hx _ IH]; intros s Hi; cbn; [by intros [= <-]|]. destruct (run x s) as [s1|] eqn:Hr; [|done].
  apply Forall_cons in Hsp as [Hspx Hsp]. intros He. destruct (run_keeps A x s s1 Hx Hspx Hi Hr) as (Hi1 & Hs1 & Hl1).
  destruct (IH Hsp s1 Hi1 He) as (Hi' & Hs' & Hl'). split; [done|]. split; [by auto|]. intros a s0 HA H0 Hl0. apply Hl'; auto.
Qed.

Lemma exec_keeps xs s s' : Forall op_ok xs -> inv s -> exec xs s = Some s' -> inv s' /\ forall s0, since s0 s -> since s0 s'.
Proof.
  intros Hok Hi He. destruct (exec_keeps_lean (fun _ => False) xs s s' Hok) as (? & ? & _); [|done|done|done].
  apply Forall_forall. intros x _. apply op_spares_none.
Qed.

(** An account that no native action creates is as absent as before. *)
Lemma absent_restored a xs s s' s'' n :
  Forall op_ok xs -> Forall (op_spares (eq a)) xs -> inv s -> exec xs (snd (Snapshot s)) = Some s' ->
  (nextRevisionID s, n) ∈ validRevisions s' -> RevertToSnapshot (nextRevisionID s) s' = Some s'' ->
  getStateObject a (core s) = (None, core s) -> getStateObject a (core s'') = (None, core s'').
Proof.
  intros Hok Hsp Hi He [i Hx]%list_elem_of_lookup Hr Hg. apply getStateObject_None in Hg as (_ & Ho & Hk).
  destruct (exec_keeps_lean (eq a) xs _ _ Hok Hsp (Snapshot_inv s Hi) He) as (Hi' & Hs & Hl).
  assert (lean_since a s (snd (Snapshot s))) as H0.
  { intros j m. cbn. intros [[_ Hj]|[_ [= <-]]]%lookup_snoc_Some; [apply (i_bound _ Hi) in Hj as [Hj _]; cbn in Hj; lia|].
    rewrite drop_all. constructor; [done|by intros m k ?%elem_of_nil|]. rewrite Ho. by intros []. }
  specialize (Hl a s eq_refl (Snapshot_since s Hi) H0 i n Hx). destruct (Hs s (Snapshot_since s Hi)) as [_ Hn]. destruct (Hn i n Hx) as (-> & _ & Hen & _).
  destruct (RevertToSnapshot_ok s' i _ _ Hi' Hx) as (s3 & Hr' & _ & He' & _ & _ & Hu). simplify_eq. apply (Hu _ (Nat.le_refl _)) in Hl.
  rewrite He', Hen, drop_all in Hl. destruct Hl as [H1 _ H3]. unfold getStateObject. rewrite H1. destruct (stateObjects (core s'') !! a) eqn:Hp; [|done].
  by destruct (not_elem_of_nil (createObjectChange a) (H3 (ex_intro _ _ eq_refl))).
Qed.

(** ** Transactions *)

(** The states of a transaction: [New], [Prepare], and any operations. *)
Inductive reachable s : Prop :=
| Reachable ms tx logi berlin shanghai sender coinbase dst precompiles l xs :
    store_ok ms -> Forall op_ok xs ->
    exec xs (Prepare berlin shanghai sender coinbase dst precompiles l (New ms tx logi)) = Some s -> reachable s.

Lemma AddAddress_ok al a : al_ok al -> al_ok (fst (AddAddress al a)).
Proof. intros H. unfold AddAddress. destruct (addresses al !! a) eqn:Ha; [done|]. by apply al_ok_address. Qed.

Lemma AddSlot_ok al a k : al_ok al -> al_ok (fst (fst (AddSlot al a k))).
Proof.
  intros H. destruct (AddSlot_cases al a k H) as [[_ ->]|[[_ ->]|(i & m & _ & _ & _ & _ & ->)]]; cbn; [by apply al_ok_first|by apply al_ok_first|].
  destruct (decide (k ∈ m)); [done|]. by apply al_ok_more.
Qed.

Lemma foldl_ok {A} (f : accessList -> A -> accessList) xs al : (forall al x, al_ok al -> al_ok (f al x)) -> al_ok al -> al_ok (foldl f al xs).
Proof. intros Hf. revert al. induction xs as [|x xs IH]; intros al H; [done|]. apply IH. by apply Hf. Qed.

Lemma newAccessList_ok : al_ok newAccessList.
Proof. split; [|constructor]. intros a i. change (addresses newAccessList) with (∅ : gmap Z Z). by rewrite lookup_empty. Qed.

Lemma prepare_ok sender coinbase dst precompiles l shanghai : al_ok (prepare_access sender coinbase dst precompiles l shanghai).
Proof.
  pose proof newAccessList_ok as H0.
  unfold prepare_access. set (al := foldl _ (foldl _ _ _) l). assert (al_ok al) as Hal; [|destruct shanghai; [by apply AddAddress_ok|done]].
  apply foldl_ok; [intros al' [a ks] H; apply foldl_ok; [intros; by apply AddSlot_ok|by apply AddAddress_ok]|].
  apply foldl_ok; [intros; by apply AddAddress_ok|]. destruct dst; by repeat apply AddAddress_ok.
Qed.

Lemma start_inv ms tx logi berlin shanghai sender coinbase dst precompiles l :
  store_ok ms -> inv (Prepare berlin shanghai sender coinbase dst precompiles l (New ms tx logi) : StateDB MS Ev L).
Proof.
  intros Hst. constructor; try done; [|by intros a o; destruct berlin; cbn; rewrite lookup_empty|eexists; split; [|apply (reflexivity (R := shows))]; by destruct berlin].
  split; [by intros e a ?%elem_of_nil|]. split; [|done]. destruct berlin; (split; [|done]); (split; [|done]); [apply prepare_ok|apply newAccessList_ok].
Qed.

Lemma reachable_inv s : reachable s -> inv s.
Proof. intros [* Hst Hok He]. eapply exec_keeps; [exact Hok|by apply start_inv|exact He]. Qed.

(** C1: reverting to a snapshot restores the state.  In a transaction ([New] on a
    store that is in order, [Prepare], and operations whose native actions leave
    nonces, codes and storage to the database), after any more such operations,
    snapshots and reverts among them, as long as the snapshot is valid,
    [RevertToSnapshot] does not panic.  Nonces, codes, storage, balances, logs,
    refund, access list, transient storage and native store are then what they
    were when the snapshot was taken, and so are the journal, the dirty accounts
    and the valid revisions.  An account that existed exists again with its code
    hash, as empty or not as before; an account that did not exist does not exist,
    unless a native action after the snapshot may have created it. *)
Theorem snapshot_restored s xs s' :
  reachable s -> Forall op_ok xs -> exec xs (snd (Snapshot s)) = Some s' -> fst (Snapshot s) ∈ (validRevisions s').*1 ->
  exists s'', RevertToSnapshot (fst (Snapshot s)) s' = Some s'' /\ same_view s'' s
    /\ (forall a, Forall (op_spares (eq a)) xs ->
          fst (Exist a s'') = fst (Exist a s) /\ fst (GetCodeHash a s'') = fst (GetCodeHash a s) /\ fst (Empty a s'') = fst (Empty a s))
    /\ entries s'' = entries s /\ dirties s'' = dirties s /\ validRevisions s'' = validRevisions s.
Proof.
  intros Hr Hok He ([id n] & Hid & Hin)%list_elem_of_fmap. cbn in Hid. subst id. pose proof Hin as Hin'. apply list_elem_of_lookup in Hin as [i Hi].
  pose proof (reachable_inv s Hr) as Hinv. destruct (exec_keeps xs _ s' Hok (Snapshot_inv s Hinv) He) as [Hinv' Hsince].
  destruct (Hsince s (Snapshot_since s Hinv)) as [_ Hs]. destruct (Hs i n Hi) as (-> & Hv & Hen & Hu).
  destruct (RevertToSnapshot_ok s' i _ _ Hinv' Hi) as (s'' & Hrev & Hinv'' & He'' & Hv'' & _ & Hun). exists s''. split; [exact Hrev|].
  rewrite Hen in He''. apply (Hun _ (Nat.le_refl _)) in Hu. rewrite He'', drop_all in Hu.
  assert (same_view s'' s) as Hview by (apply shows_view; [by eapply journal_ok_core, i_journal|exact Hu]). split; [exact Hview|].
  split; [|split; [done|split; [by rewrite (i_dirties _ Hinv''), (i_dirties _ Hinv), He''|by rewrite Hv'']]].
  intros a Hsp. destruct (fst (Exist a s)) eqn:Hx; [by apply (v_exists _ _ Hview)|]. revert Hx. unfold Exist, GetCodeHash, Empty.
  destruct (getStateObject_view a (core s)) as [(o & c & -> & _)|(Hg & _)]; [done|].
  by rewrite Hg, (absent_restored a xs s s' s'' _ Hok Hsp Hinv He Hin' Hrev Hg).
Qed.

(** C34: the revisions of a transaction: [RevertToSnapshot] panics exactly for the
    identifiers that are not valid, and a new snapshot has a new identifier. *)
Theorem revisions_exact s id : reachable s ->
  (RevertToSnapshot id s = None <-> id ∉ (validRevisions s).*1) /\ fst (Snapshot s) ∉ (validRevisions s).*1.
Proof.
  intros Hr%reachable_inv. split.
  - split.
    + intros Hn ([id' n] & -> & [i Hi]%list_elem_of_lookup)%list_elem_of_fmap. destruct (RevertToSnapshot_ok s i id' n Hr Hi) as (s' & Hs & _). cbn in Hn. congruence.
    + intros Hin. destruct (RevertToSnapshot id s) as [s'|] eqn:Hs; [|done]. destruct (RevertToSnapshot_valid s id s' Hr Hs) as (i & n & Hi). exfalso.
      apply Hin, list_elem_of_fmap. exists (id, n). split; [done|]. by eapply list_elem_of_lookup_2.
  - intros ([id' n] & Heq & [i Hi]%list_elem_of_lookup)%list_elem_of_fmap. destruct (i_bound _ Hr _ _ Hi) as [? _]. cbn in *. lia.
Qed.

Lemma commit_loop_panic (l : list address) m ms (evs : list Ev) : (forall a, a ∈ l -> is_Some (m !! a)) -> commit_loop l m ms evs <> CommitPanic.
Proof.
  revert ms. induction l as [|a l IH]; intros ms Hm; cbn; [done|]. destruct (Hm a) as [o ->]; [set_solver|].
  destruct (commit_object a o ms) as [ms1 []]; [done|]. apply IH. set_solver.
Qed.

Lemma sorted_keys_elem {A} (m : gmap Z A) a : a ∈ sorted_keys m <-> is_Some (m !! a).
Proof.
  unfold sorted_keys. rewrite (merge_sort_Permutation Z.le). split.
  - intros ([k v] & -> & Hin)%list_elem_of_fmap. apply elem_of_map_to_list in Hin. cbn. by eexists.
  - intros [v Hv]. apply list_elem_of_fmap. exists (a, v). split; [done|]. by apply elem_of_map_to_list.
Qed.

Lemma dirty_present s a : inv s -> is_Some (dirties s !! a) -> is_Some (stateObjects (core s) !! a).
Proof.
  intros Hi Ha. rewrite (i_dirties _ Hi) in Ha. destruct (dirty_of_elem _ _ Ha) as (e & He & Hd).
  apply (journal_ok_covered _ _ (i_journal _ Hi) e); [|done]. by apply list_elem_of_In, in_rev; rewrite rev_involutive; apply list_elem_of_In.
Qed.

(** [Commit] finds the object of every dirty account: it does not dereference
    a nil pointer. *)
Theorem commit_no_panic s : reachable s -> Commit s <> CommitPanic.
Proof.
  intros Hr%reachable_inv. unfold Commit. destruct (failed s); [done|]. apply commit_loop_panic. intros a Ha%sorted_keys_elem.
  by apply dirty_present.
Qed.
End Snapshots.
