(* ===== verification/StateDBCommit.v ===== *)
(** * The state database: committing

    [Commit] writes to the store what the database shows. *)

From stdpp Require Import gmap sets relations sorting.
From S2P Require Import Prelude StateDB StateDBFacts StateDBJournal StateDBSnap.
Local Open Scope Z_scope.

(** ** What the keeper promises of its writes

    Not every account can hold a code hash: [can_hold] tells the addresses whose
    account can be set and deleted. *)
Class KeeperWrites (MS Ev : Type) `{!Keeper MS Ev} : Type := {
  can_hold : MS -> address -> Prop;
  set_state_spec a k v ms :
    (forall b j, k_GetState (k_SetState a k v ms) b j = if decide (a = b /\ k = j) then v else k_GetState ms b j)
    /\ (forall b, k_GetAccount (k_SetState a k v ms) b = k_GetAccount ms b)
    /\ (forall h, k_GetCode (k_SetState a k v ms) h = k_GetCode ms h)
    /\ (forall b, can_hold ms b -> can_hold (k_SetState a k v ms) b);
  set_code_spec h x ms :
    (forall b j, k_GetState (k_SetCode h x ms) b j = k_GetState ms b j)
    /\ (forall b, k_GetAccount (k_SetCode h x ms) b = k_GetAccount ms b)
    /\ (forall h', h <> h' -> k_GetCode (k_SetCode h x ms) h' = k_GetCode ms h')
    /\ (x <> [] -> k_GetCode (k_SetCode h x ms) h = Some x)
    /\ (forall b, can_hold ms b -> can_hold (k_SetCode h x ms) b);
  set_account_spec a x ms : can_hold ms a -> exists ms', k_SetAccount a x ms = Some ms'
    /\ (forall b j, k_GetState ms' b j = k_GetState ms b j)
    /\ (forall b, k_GetAccount ms' b = if decide (a = b) then Some x else k_GetAccount ms b)
    /\ (forall h, k_GetCode ms' h = k_GetCode ms h)
    /\ (forall b, can_hold ms b -> can_hold ms' b);
  delete_account_spec a ms : can_hold ms a -> (k_GetAccount ms a = None -> forall j, k_GetState ms a j = 0) ->
    exists ms', k_DeleteAccount a ms = Some ms'
    /\ (forall b j, k_GetState ms' b j = if decide (a = b) then 0 else k_GetState ms b j)
    /\ (forall b, k_GetAccount ms' b = if decide (a = b) then None else k_GetAccount ms b)
    /\ (forall h, k_GetCode ms' h = k_GetCode ms h)
    /\ (forall b, can_hold ms b -> can_hold ms' b)
}.

Section Commit.
Context {MS Ev L : Type} `{!Keeper MS Ev, !KeeperWrites MS Ev}.
Implicit Types (c : db MS Ev L) (o : stateObject) (ms : MS) (s : StateDB MS Ev L) (e : entry MS).

(** ** Codes in the store *)

Definition has_code ms (h : hash) : Prop := code_matches ms None h.

(** The codes that are written *)
Context (K : list Z -> Prop).

Definition codes_step ms ms' : Prop :=
  forall h, h = EmptyCodeHash \/ k_GetCode ms' h = k_GetCode ms h \/ exists x, k_GetCode ms' h = Some x /\ keccak x = h /\ K x.

#[export] Instance codes_step_preorder : PreOrder codes_step.
Proof.
  split; [by intros ms h; right; left|]. intros m1 m2 m3 H1 H2 h. destruct (H2 h) as [?|[E2|?]]; [by left| |by right; right].
  destruct (H1 h) as [?|[E1|(x & E1 & ?)]]; [by left|right; left; congruence|]. right. right. exists x. by rewrite E2.
Qed.

Lemma has_code_step ms ms' h : codes_step ms ms' -> has_code ms h -> has_code ms' h.
Proof.
  intros Hs. unfold has_code, code_matches, store_code. destruct (Z.eqb_spec h EmptyCodeHash); [done|].
  destruct (Hs h) as [?|[->|(x & -> & ? & _)]]; done.
Qed.

Lemma codes_step_same ms ms' : (forall h, k_GetCode ms' h = k_GetCode ms h) -> codes_step ms ms'.
Proof. intros H h. right. by left. Qed.

(** ** One object *)

Definition same_at a ms ms' : Prop := k_GetAccount ms' a = k_GetAccount ms a /\ forall j, k_GetState ms' a j = k_GetState ms a j.

(** The keys that are written, of those in a list *)
Lemma commit_keys_spec a o ms0 l ms :
  obj_ok ms0 a o -> (forall k, k ∈ l -> is_Some (dirtyStorage o !! k)) -> (forall j, k_GetState ms a j = k_GetState ms0 a j \/ k_GetState ms a j = o_state ms0 a o j) ->
  let ms' := foldl (commit_key a o) ms l in
  (forall j, k_GetState ms' a j = if decide (j ∈ l) then o_state ms0 a o j else k_GetState ms a j)
  /\ (forall b, b <> a -> same_at b ms ms') /\ k_GetAccount ms' a = k_GetAccount ms a /\ codes_step ms ms' /\ (forall b, can_hold ms b -> can_hold ms' b).
Proof.
  intros Hok. revert ms. induction l as [|k l IH]; intros ms Hl Hms; [repeat split; intros; done || (by rewrite decide_False by apply not_elem_of_nil) || reflexivity|].
  cbn zeta. cbn [foldl]. destruct (Hl k) as [v Hv]; [by left|]. set (ms1 := commit_key a o ms k).
  assert ((forall j, k_GetState ms1 a j = if decide (j = k) then o_state ms0 a o j else k_GetState ms a j)
    /\ (forall b, b <> a -> same_at b ms ms1) /\ k_GetAccount ms1 a = k_GetAccount ms a /\ codes_step ms ms1 /\ (forall b, can_hold ms b -> can_hold ms1 b)) as (Hs1 & Ho1 & Ha1 & Hc1 & Hh1).
  { destruct (ok_dirty _ _ _ Hok k) as [w Hw]; [by eexists|]. pose proof (ok_origin _ _ _ Hok k w Hw) as ->.
    assert (o_state ms0 a o k = v) as Hos by (by rewrite o_state_eq, Hv). unfold ms1, commit_key. rewrite Hv, Hw. cbn.
    destruct (Z.eqb_spec v (k_GetState ms0 a k)) as [Heq|Hne].
    - split; [|done]. intros j. destruct (decide (j = k)) as [->|]; [|done]. destruct (Hms k); congruence.
    - destruct (set_state_spec a k v ms) as (S1 & S2 & S3 & S4). split; [|split; [|split; [apply S2|split; [by apply codes_step_same|done]]]].
      + intros j. rewrite S1. destruct (decide (j = k)) as [->|]; [by rewrite decide_True|by rewrite decide_False by naive_solver].
      + intros b Hb. split; [apply S2|]. intros j. rewrite S1. by rewrite decide_False by naive_solver. }
  destruct (IH ms1) as (Hs & Ho & Ha & Hc & Hh); [intros k' Hk'; apply Hl; by right|intros j; rewrite Hs1; destruct (decide (j = k)); auto|].
  split; [|split; [|split; [by rewrite Ha|split; [by etrans|auto]]]].
  - intros j. rewrite Hs, Hs1. destruct (decide (j ∈ l)); [rewrite decide_True by (by right); done|].
    destruct (decide (j = k)) as [->|]; [by rewrite decide_True by left|]. rewrite decide_False; [done|]. by intros [?|?]%elem_of_cons.
  - intros b Hb. destruct (Ho b Hb) as [E1 E2], (Ho1 b Hb) as [F1 F2]. split; [congruence|]. intros j. by rewrite E2, F2.
Qed.

Lemma commit_storage_spec a o ms0 ms : obj_ok ms0 a o -> (forall j, k_GetState ms a j = k_GetState ms0 a j) ->
  let ms' := commit_storage a o ms in
  (forall j, k_GetState ms' a j = o_state ms0 a o j)
  /\ (forall b, b <> a -> same_at b ms ms') /\ k_GetAccount ms' a = k_GetAccount ms a /\ codes_step ms ms' /\ (forall b, can_hold ms b -> can_hold ms' b).
Proof.
  intros Hok Hms. destruct (commit_keys_spec a o ms0 (sorted_keys (dirtyStorage o)) ms Hok) as (Hs & H); [intros k; by rewrite sorted_keys_elem|by left|].
  split; [|exact H]. intros j. unfold commit_storage. rewrite Hs. destruct (decide _) as [|Hn]; [done|]. rewrite Hms.
  rewrite sorted_keys_elem, <- eq_None_not_Some in Hn. rewrite o_state_eq, Hn, o_committed_eq, (ok_override _ _ _ Hok). cbn.
  destruct (originStorage o !! j) as [w|] eqn:Hw; [|done]. by rewrite (ok_origin _ _ _ Hok j w Hw).
Qed.

(** What the store has of an object that was written *)
Definition written ms0 a o ms : Prop :=
  if selfDestructed o then k_GetAccount ms a = None /\ forall j, k_GetState ms a j = 0
  else default NewEmptyAccount (k_GetAccount ms a) = acct o /\ (forall j, k_GetState ms a j = o_state ms0 a o j) /\ has_code ms (CodeHash (acct o)).

Lemma written_step ms0 a o ms ms' : same_at a ms ms' -> codes_step ms ms' -> written ms0 a o ms -> written ms0 a o ms'.
Proof.
  intros [Ha Hs] Hc. unfold written. destruct (selfDestructed o).
  - intros [H1 H2]. split; [congruence|]. intros j. by rewrite Hs.
  - intros (H1 & H2 & H3). split; [congruence|]. split; [intros j; by rewrite Hs|]. by eapply has_code_step.
Qed.

(** The code and the account of an object that was not destructed *)
Lemma commit_account_spec a o ms0 ms : store_ok ms0 -> obj_ok ms0 a o -> same_at a ms0 ms -> codes_step ms0 ms -> can_hold ms a -> (forall x, code o = Some x -> K x) ->
  let ms1 := match code o with Some x => if codeDirty o then k_SetCode (CodeHash (acct o)) x ms else ms | None => ms end in
  exists ms2, (if codeDirty o || nonceDirty o then k_SetAccount a (acct o) ms1 else Some ms1) = Some ms2
    /\ default NewEmptyAccount (k_GetAccount ms2 a) = acct o /\ has_code ms2 (CodeHash (acct o)) /\ (forall j, k_GetState ms2 a j = k_GetState ms0 a j)
    /\ (forall b, b <> a -> same_at b ms ms2) /\ codes_step ms ms2 /\ (forall b, can_hold ms b -> can_hold ms2 b).
Proof.
  intros Hst Hok [Hacc Hsta] Hcs Hh HK ms1.
  assert ((forall b, same_at b ms ms1) /\ codes_step ms ms1 /\ (forall b, can_hold ms b -> can_hold ms1 b) /\ has_code ms1 (CodeHash (acct o))) as (H1 & H2 & H3 & H4).
  { pose proof (ok_code _ _ _ Hok) as Hm. subst ms1. destruct (code o) as [x|] eqn:Hc; [|split; [done|split; [done|split; [done|by eapply has_code_step]]]].
    destruct (codeDirty o) eqn:Hd.
    - destruct (set_code_spec (CodeHash (acct o)) x ms) as (S1 & S2 & S3 & S4 & S5). unfold code_matches in Hm. cbn in Hm.
      split; [done|]. split; [|split; [done|]].
      + intros h. destruct (decide (CodeHash (acct o) = h)) as [<-|]; [|right; left; by apply S3].
        destruct x as [|y x]; [by left|]. right. right. exists (y :: x). rewrite S4 by done. auto.
      + unfold has_code, code_matches, store_code. destruct (Z.eqb_spec (CodeHash (acct o)) EmptyCodeHash) as [->|Hne]; [done|].
        destruct x as [|y x]; [by rewrite <- Hm in Hne|]. by rewrite S4.
    - split; [done|]. split; [done|]. split; [done|]. apply (has_code_step ms0); [done|]. unfold codeDirty in Hd.
      destruct (originalAccount o) as [y|] eqn:Ho; [|done]. apply negb_false_iff, Z.eqb_eq in Hd. rewrite Hd.
      rewrite (ok_original _ _ _ Hok y Ho). by apply store_ok_default. }
  destruct (H1 a) as [A1 A2]. destruct (codeDirty o || nonceDirty o) eqn:Hd.
  - destruct (set_account_spec a (acct o) ms1 (H3 _ Hh)) as (ms2 & E & S1 & S2 & S3 & S4). exists ms2. split; [done|].
    split; [by rewrite S2, decide_True|]. split; [eapply has_code_step; [by apply codes_step_same|done]|].
    split; [intros j; by rewrite S1, A2, Hsta|]. split; [|split; [etrans; [exact H2|by apply codes_step_same]|auto]].
    intros b Hb. destruct (H1 b) as [B1 B2]. split; [by rewrite S2, decide_False|]. intros j. by rewrite S1, B2.
  - exists ms1. split; [done|]. split; [|split; [done|split; [intros j; by rewrite A2, Hsta|auto]]].
    rewrite A1, Hacc. apply orb_false_iff in Hd as [D1 D2]. unfold codeDirty, nonceDirty in D1, D2. destruct (originalAccount o) as [x|] eqn:Ho; [|done].
    apply negb_false_iff, Z.eqb_eq in D1, D2. rewrite <- (ok_original _ _ _ Hok x Ho). destruct x, (acct o); cbn in *; congruence.
Qed.

Lemma commit_object_spec a o ms0 ms : store_ok ms0 -> obj_ok ms0 a o -> same_at a ms0 ms -> codes_step ms0 ms -> can_hold ms a -> (forall x, code o = Some x -> K x) ->
  exists ms', commit_object a o ms = (ms', false) /\ written ms0 a o ms' /\ (forall b, b <> a -> same_at b ms ms') /\ codes_step ms ms' /\ (forall b, can_hold ms b -> can_hold ms' b).
Proof.
  intros Hst Hok Hsame Hcs Hh HK. unfold commit_object, written. destruct (selfDestructed o) eqn:Hd.
  - destruct (delete_account_spec a ms Hh) as (ms' & E & S1 & S2 & S3 & S4).
    { destruct Hsame as [-> Hs]. intros Hn j. rewrite Hs. by apply Hst. }
    rewrite E. exists ms'. split; [done|]. split; [split; [by rewrite S2, decide_True|intros j; by rewrite S1, decide_True]|].
    split; [|split; [by apply codes_step_same|done]]. intros b Hb. split; [by rewrite S2, decide_False|]. intros j. by rewrite S1, decide_False.
  - destruct (commit_account_spec a o ms0 ms Hst Hok Hsame Hcs Hh HK) as (ms2 & -> & A1 & A2 & A3 & A4 & A5 & A6).
    destruct (commit_storage_spec a o ms0 ms2 Hok A3) as (S1 & S2 & S3 & S4 & S5). eexists. split; [done|].
    split; [split; [by rewrite S3|split; [done|by eapply has_code_step]]|].
    split; [|split; [by etrans|auto]]. intros b Hb. destruct (A4 b Hb) as [B1 B2], (S2 b Hb) as [C1 C2]. split; [congruence|]. intros j. by rewrite C2.
Qed.

(** ** All dirty objects *)

Lemma commit_loop_spec ms0 l (m : gmap address stateObject) ms (evs : list Ev) :
  store_ok ms0 -> NoDup l -> (forall a, a ∈ l -> exists o, m !! a = Some o /\ obj_ok ms0 a o /\ same_at a ms0 ms /\ can_hold ms a /\ (forall x, code o = Some x -> K x)) -> codes_step ms0 ms ->
  exists ms', commit_loop l m ms evs = Committed ms' evs /\ codes_step ms ms' /\ (forall b, b ∉ l -> same_at b ms ms')
    /\ forall a o, a ∈ l -> m !! a = Some o -> written ms0 a o ms'.
Proof.
  intros Hst Hnd. revert ms. induction Hnd as [|a l Hal Hnd IH]; intros ms Hl Hcs; [exists ms; repeat split; try done; by intros ? ? ?%elem_of_nil|].
  destruct (Hl a) as (o & Ho & Hok & Hsame & Hh & HK); [by left|]. cbn [commit_loop]. rewrite Ho.
  destruct (commit_object_spec a o ms0 ms Hst Hok Hsame Hcs Hh HK) as (ms1 & -> & Hw & Hf & Hc1 & Hh1).
  destruct (IH ms1) as (ms' & E & Hc & Hb & Hws); [|by etrans|].
  { intros b Hb. destruct (Hl b) as (o' & Ho' & Hok' & [S1 S2] & Hh' & HK'); [by right|]. exists o'. assert (b <> a) as Hne by (by intros ->).
    destruct (Hf b Hne) as [F1 F2]. split; [done|]. split; [done|]. split; [split; [congruence|intros j; by rewrite F2]|auto]. }
  exists ms'. split; [done|]. split; [by etrans|]. split.
  - intros b [Hne Hnl]%not_elem_of_cons. destruct (Hf b Hne) as [F1 F2], (Hb b Hnl) as [G1 G2]. split; [congruence|]. intros j. by rewrite G2.
  - intros b o' [->|Hin]%elem_of_cons Hm; [simplify_eq; eapply written_step; [by apply Hb|done|done]|by apply Hws].
Qed.

End Commit.

Section Committed.
Context {MS Ev L : Type} `{!Keeper MS Ev, !KeeperWrites MS Ev}.
Implicit Types (c : db MS Ev L) (o : stateObject) (ms : MS) (s : StateDB MS Ev L) (e : entry MS).

(** ** Accounts that no change touched *)

(** [c] and [c'] show the same of the account [a], but for its flag of a new
    contract. *)
Definition same_account a c (c' : db MS Ev L) : Prop :=
  agree (cacheMS c) (cacheMS c') /\ obj_equiv (cacheMS c') a (markContract false (obj_of c a)) (markContract false (obj_of c' a)).

Lemma same_account_trans a c1 c2 c3 : same_account a c1 c2 -> same_account a c2 c3 -> same_account a c1 c3.
Proof. intros [A1 E1] [A2 E2]. split; [by etrans|]. etrans; [|exact E2]. by eapply obj_equiv_agree. Qed.

Lemma same_account_obj a c c' : cacheMS c' = cacheMS c -> stateObjects c' = stateObjects c -> same_account a c c'.
Proof. intros Hms Ho. split; [by rewrite Hms|]. unfold obj_of. by rewrite Hms, Ho. Qed.

Lemma same_account_set a b o c : b <> a -> same_account a c (setStateObject b o c).
Proof. intros Hne. split; [done|]. by rewrite obj_of_set, decide_False. Qed.

Lemma change_same a b f c c' : b <> a -> is_Some (stateObjects c !! b) -> change_object b f c = Some c' -> same_account a c c'.
Proof. intros Hne [o Ho]. rewrite (change_object_present _ _ _ _ Ho). intros [= <-]. by apply same_account_set. Qed.

Definition untouched a e : Prop := Dirtied e <> Some a /\ forall prev, e <> resetObjectChange a prev.

Lemma Revert_same a e c c' : untouched a e -> entry_ok e c -> Revert_entry e c = Some c' -> same_account a c c'.
Proof.
  intros [Hd Hre] Hok. destruct e as [b|b|b prev|b prev|b prev|b key prev|b pc ph|prev| |b|b slot|b key prev|snap evs]; cbn [Revert_entry entry_ok Dirtied] in *.
  - intros [= <-]. split; [done|]. unfold obj_of. cbn. by rewrite lookup_delete_ne by congruence.
  - destruct (decide (b = a)) as [->|]; [|by apply change_same]. destruct Hok as [o Ho]. rewrite (change_object_present _ _ _ _ Ho). intros [= <-].
    split; [done|]. rewrite obj_of_set, decide_True by done. by rewrite (obj_of_present _ _ _ Ho).
  - intros [= <-]. apply same_account_set. intros ->. by apply (Hre prev).
  - destruct Hok as [o Ho]. rewrite (getStateObject_present _ _ _ Ho). intros [= <-]. apply same_account_set. congruence.
  - apply change_same; [congruence|done].
  - destruct Hok as (o & Ho & _). apply change_same; [congruence|by eexists].
  - apply change_same; [congruence|apply Hok].
  - intros [= <-]. by apply same_account_obj.
  - destruct (logs c); [done|]. intros [= <-]. by apply same_account_obj.
  - intros [= <-]. by apply same_account_obj.
  - destruct (DeleteSlot _ _ _); [|done]. intros [= <-]. by apply same_account_obj.
  - destruct (transient_set _ _ _ _); [|done]. intros [= <-]. by apply same_account_obj.
  - destruct (_ <? _)%nat; [done|]. intros [= <-]. split; [by symmetry|]. apply markContract_equiv. unfold obj_of. cbn.
    destruct (stateObjects c !! a); [done|]. cbn. apply newObject_agree. by symmetry.
Qed.

Lemma shows_same_account a c c' : shows c c' -> same_account a c c'.
Proof. intros Hs. split; [by rewrite (sh_ms _ _ Hs)|]. apply markContract_equiv, (sh_obj _ _ Hs). Qed.

Lemma unwinds_same a es c c0 : Forall (untouched a) es -> unwinds es c c0 -> same_account a c c0.
Proof.
  intros He. revert c. induction He as [|e es Hu _ IH]; intros c; cbn; [apply shows_same_account|].
  intros (Hok & c' & Hr & H). eapply same_account_trans; [by eapply Revert_same|by apply IH].
Qed.

(** Such an account is as in the store. *)
Lemma untouched_view a s : inv s -> Forall (untouched a) (entries s) -> let ms := cacheMS (core s) in
  selfDestructed (obj_of (core s) a) = false /\ acct (obj_of (core s) a) = default NewEmptyAccount (k_GetAccount ms a)
  /\ (forall k, o_state ms a (obj_of (core s) a) k = k_GetState ms a k).
Proof.
  intros Hi Hu. destruct (i_start _ Hi) as (c0 & Hc0 & Hun). apply (unwinds_same a) in Hun as [Hag Heq]; [|by apply Forall_rev].
  apply (obj_equiv_agree _ (cacheMS (core s))) in Heq; [|by symmetry]. destruct Heq as [E1 _ _ E4 E5 _].
  assert (obj_of c0 a = newObject (k_GetAccount (cacheMS c0) a)) as Hob by (unfold obj_of; by rewrite Hc0, lookup_empty).
  rewrite Hob in *. cbn in E1, E5. split; [done|]. split; [rewrite E1; symmetry; apply Hag|]. intros k. specialize (E4 k).
  rewrite (o_state_same _ _ (markContract false (obj_of (core s) a)) (obj_of (core s) a)) in E4 by done. rewrite E4, o_state_eq, o_committed_eq. done.
Qed.

(** ** Dirty accounts *)

Lemma sorted_keys_NoDup {A} (m : gmap Z A) : NoDup (sorted_keys m).
Proof. unfold sorted_keys. rewrite (merge_sort_Permutation Z.le). apply NoDup_fst_map_to_list. Qed.

Lemma dirty_of_some (es : list (entry MS)) e a : e ∈ es -> Dirtied e = Some a -> is_Some (dirty_of es !! a).
Proof.
  intros He Hd. induction es as [|e0 es IH] using rev_ind; [by apply elem_of_nil in He|]. rewrite dirty_of_snoc. unfold add_dirty, dirty_add.
  apply elem_of_app in He as [He|He%list_elem_of_singleton].
  - specialize (IH He). destruct (Dirtied e0); [|done]. rewrite lookup_insert_is_Some'. by right.
  - subst e0. rewrite Hd, lookup_insert_is_Some'. by left.
Qed.

Lemma not_dirty_untouched a s : inv s -> ~ is_Some (dirties s !! a) -> Forall (fun e => forall prev, e <> resetObjectChange a prev) (entries s) ->
  Forall (untouched a) (entries s).
Proof.
  intros Hi Hd Hre. rewrite (i_dirties _ Hi) in Hd. rewrite !Forall_forall in *. intros e He. split; [|by apply Hre].
  intros Hda. apply Hd. by eapply dirty_of_some.
Qed.

(** ** Theorem *)

Context `{!KeeperLaws MS Ev}.

(** What the store [ms] has of an account that [s] shows: nothing of one that was
    destructed, else the nonce, the hash and the bytes of the code, and every
    slot. *)
Definition stored_as ms a s : Prop :=
  (fst (HasSelfDestructed a s) = true -> k_GetAccount ms a = None /\ forall k, k_GetState ms a k = 0)
  /\ (fst (HasSelfDestructed a s) = false -> let x := default NewEmptyAccount (k_GetAccount ms a) in
    Nonce x = fst (GetNonce a s) /\ CodeHash x = CodeHash (acct (obj_of (core s) a))
    /\ default [] (store_code ms (CodeHash x)) = default [] (fst (GetCode a s))
    /\ forall k, k_GetState ms a k = fst (GetState a k s)).

Lemma obj_code_matches s a : inv s -> keccak (default [] (o_code (cacheMS (core s)) (obj_of (core s) a))) = CodeHash (acct (obj_of (core s) a)).
Proof.
  intros Hi. pose proof (inv_good _ Hi) as [[_ Hst] Ho]. rewrite o_code_eq. unfold obj_of. destruct (stateObjects (core s) !! a) as [o|] eqn:Ha; cbn.
  - exact (ok_code _ _ _ (Ho a o Ha)).
  - by apply store_ok_default.
Qed.

(** The codes of a database: those of its store and of its objects.  No two of
    them have the same hash. *)
Definition known s (x : list Z) : Prop :=
  x = [] \/ (exists h, k_GetCode (cacheMS (core s)) h = Some x) \/ (exists a o, stateObjects (core s) !! a = Some o /\ code o = Some x).

Definition collision_free s : Prop := forall x y, known s x -> known s y -> keccak x = keccak y -> x = y.

Lemma known_obj s a : known s (default [] (o_code (cacheMS (core s)) (obj_of (core s) a))).
Proof.
  assert (forall h, known s (default [] (store_code (cacheMS (core s)) h))) as Hst.
  { intros h. unfold store_code. destruct (_ =? _); [by left|]. destruct (k_GetCode _ h) eqn:Hc; [|by left]. right. left. by eexists. }
  rewrite o_code_eq. unfold obj_of. destruct (stateObjects (core s) !! a) as [o|] eqn:Ho; cbn; [|apply Hst].
  destruct (code o) eqn:Hc; [|apply Hst]. right. right. by exists a, o.
Qed.

Lemma known_stored s ms h : codes_step (known s) (cacheMS (core s)) ms -> known s (default [] (store_code ms h)).
Proof.
  intros Hc. unfold store_code. destruct (Z.eqb_spec h EmptyCodeHash); [by left|]. destruct (Hc h) as [?|[->|(x & -> & _ & Hx)]]; [done| |done].
  destruct (k_GetCode _ h) eqn:Hk; [|by left]. right. left. by eexists.
Qed.

(** From the invariant of a transaction *)
Lemma Commit_spec s :
  inv s -> failed s = false -> collision_free s -> (forall a, is_Some (dirties s !! a) -> can_hold (cacheMS (core s)) a) ->
  exists ms, Commit s = Committed ms (nativeEvents (core s))
    /\ (forall a, is_Some (dirties s !! a) \/ Forall (fun e => forall prev, e <> resetObjectChange a prev) (entries s) -> stored_as ms a s)
    /\ (forall a, ~ is_Some (dirties s !! a) -> same_at a (cacheMS (core s)) ms).
Proof.
  intros Hi Hf Hinj Hh. pose proof (inv_good _ Hi) as [[_ Hst] Hobjs].
  set (ms0 := cacheMS (core s)) in *. unfold Commit. rewrite Hf.
  destruct (commit_loop_spec (known s) ms0 (sorted_keys (dirties s)) (stateObjects (core s)) ms0 (nativeEvents (core s))) as (ms & E & Hc & Hb & Hw); [done|apply sorted_keys_NoDup| |done|].
  { intros a Ha%sorted_keys_elem. destruct (dirty_present s a Hi Ha) as [o Ho]. exists o. split; [done|]. split; [by apply Hobjs|]. split; [done|].
    split; [by apply Hh|]. intros x Hx. right. right. by exists a, o. }
  exists ms. split; [done|]. split; [|intros a Ha; apply Hb; by rewrite sorted_keys_elem].
  intros a Ha. unfold stored_as. rewrite HasSelfDestructed_view, GetNonce_view, GetCode_view.
  assert (forall o, has_code ms (CodeHash (acct o)) -> o = obj_of (core s) a ->
    default [] (store_code ms (CodeHash (acct o))) = default [] (o_code ms0 (obj_of (core s) a))) as Hcode.
  { intros o Hhc ->. apply Hinj; [by apply known_stored|apply known_obj|]. etrans; [exact Hhc|]. symmetry. by apply obj_code_matches. }
  destruct (decide (is_Some (dirties s !! a))) as [Hd|Hd].
  - destruct (dirty_present s a Hi Hd) as [o Ho]. rewrite (obj_of_present _ _ _ Ho) in *. specialize (Hw a o (proj2 (sorted_keys_elem _ _) Hd) Ho).
    unfold written in Hw. destruct (selfDestructed o); [done|]. split; [done|]. intros _. destruct Hw as (W1 & W2 & W3). cbn. rewrite W1. split; [done|]. split; [done|].
    split; [by apply Hcode|]. intros k. rewrite GetState_view, (obj_of_present _ _ _ Ho) by done. apply W2.
  - destruct Ha as [?|Ha]; [done|]. destruct (untouched_view a s Hi) as (U1 & U2 & U3); [by apply not_dirty_untouched|]. fold ms0 in U2, U3.
    destruct (Hb a) as [S1 S2]; [by rewrite sorted_keys_elem|]. rewrite U1. split; [done|]. intros _. cbn. rewrite S1, U2. split; [done|]. split; [done|]. split.
    + rewrite <- U2. apply Hcode; [|done]. rewrite U2. eapply has_code_step; [exact Hc|]. by apply store_ok_default.
    + intros k. by rewrite S2, GetState_view, U3.
Qed.

(** C2: [Commit] writes what the database shows.  In a transaction
    ([New] on a store that is in order, [Prepare], and operations whose native
    actions leave nonces, codes and storage to the database), when no action
    failed, no two codes that the store or the database has share their hash, and
    the dirty accounts can hold a code hash, it succeeds and emits the native
    events.  The store then has, of every account that is dirty or was not
    created again over an existing one, what the methods of the database returned:
    accounts that self-destructed are gone with their storage, the others have
    their nonce, code and slots.  Of an account that is not dirty, it has what the
    native store had. *)
Theorem commit_writes s :
  reachable s -> failed s = false -> collision_free s -> (forall a, is_Some (dirties s !! a) -> can_hold (cacheMS (core s)) a) ->
  exists ms, Commit s = Committed ms (nativeEvents (core s))
    /\ (forall a, is_Some (dirties s !! a) \/ Forall (fun e => forall prev, e <> resetObjectChange a prev) (entries s) -> stored_as ms a s)
    /\ (forall a, ~ is_Some (dirties s !! a) -> same_at a (cacheMS (core s)) ms).
Proof. intros Hr%reachable_inv. by apply Commit_spec. Qed.
End Committed.
