(* ===== verification/EvmKeeper.v ===== *)
(** * The keeper of the EVM module

    The store that the state database works on (x/evm/keeper/statedb.go and
    keeper.go): storage and code of contracts in the module's own store, accounts
    and balances through the account and bank keepers of the Cosmos SDK, which
    are parameters.  The keeper keeps what the database asks of it
    ([keeper_laws], [keeper_writes]), so that the theorems on snapshots and commits
    hold with it. *)

From stdpp Require Import gmap sets sorting.
From S2P Require Import Prelude StateDB StateDBFacts StateDBJournal StateDBSnap StateDBCommit.
Local Open Scope Z_scope.

(** [sdk.AccountI]: an account of Ethermint, which has a code hash
    ([EthAccountI]), or another one *)
Inductive authAccount : Type := EthAccount (sequence : Z) (codeHash : hash) | OtherAccount (sequence : Z).

Definition GetSequence (x : authAccount) : Z := match x with EthAccount n _ | OtherAccount n => n end.
Definition SetSequence (n : Z) (x : authAccount) : authAccount := match x with EthAccount _ h => EthAccount n h | OtherAccount _ => OtherAccount n end.
Definition SetCodeHash (h : hash) (x : authAccount) : authAccount := match x with EthAccount n _ => EthAccount n h | OtherAccount n => OtherAccount n end.

(** ** The keepers of the SDK

    [auth_NextNumber] takes an account number, which the database does not see.
    An action gives the events it emits, or an error. *)
Class Native (N Ev : Type) : Type := {
  auth_GetAccount : N -> address -> option authAccount;
  auth_SetAccount : address -> authAccount -> N -> N;
  auth_RemoveAccount : address -> N -> N;
  auth_NextNumber : N -> N;
  bank_GetBalance : N -> address -> Z;
  bank_SendCoins : address -> address -> Z -> N -> option (N * list Ev);
  bank_MintCoins : Z -> N -> option (N * list Ev);
  bank_BurnCoins : Z -> N -> option (N * list Ev);
  bank_SendFromModule : address -> Z -> N -> option (N * list Ev);
  bank_SendToModule : address -> Z -> N -> option (N * list Ev);
  Keccak256 : list Z -> hash
}.

Section Keeper.
Context {N Ev : Type} `{!Native N Ev}.

(** The store of the context: the storage of each address and the codes, in
    prefix stores of the module, and the state of the SDK. *)
Record multiStore : Type := MultiStore { storage : gmap address (gmap hash hash); codes : gmap hash (list Z); native_state : N }.

Definition emptyCodeHash : hash := Keccak256 [].

(** [ProtoAccount] *)
Definition ProtoAccount : authAccount := EthAccount 0 emptyCodeHash.

Definition with_native (n : N) (ms : multiStore) : multiStore := MultiStore (storage ms) (codes ms) n.

(** [prefix.NewStore] of [AddressStoragePrefix] *)
Definition storage_at (ms : multiStore) (a : address) : gmap hash hash := default ∅ (storage ms !! a).

(** [GetState], [GetCode] *)
Definition keeper_GetState (ms : multiStore) (a : address) (k : hash) : hash := default 0 (storage_at ms a !! k).
Definition keeper_GetCode (ms : multiStore) (h : hash) : option (list Z) := codes ms !! h.

(** [ForEachStorage], in the order of the keys; the callback works on a state *)
Fixpoint for_each {A} (cb : hash -> hash -> A -> bool * A) (l : list hash) (m : gmap hash hash) (x : A) : A :=
  match l with
  | [] => x
  | k :: l => let '(continue, x) := cb k (default 0 (m !! k)) x in if continue : bool then for_each cb l m x else x
  end.
Definition ForEachStorage {A} (ms : multiStore) (a : address) (cb : hash -> hash -> A -> bool * A) (x : A) : A :=
  for_each cb (sorted_keys (storage_at ms a)) (storage_at ms a) x.

(** [GetAccountStorage] *)
Definition GetAccountStorage (ms : multiStore) (a : address) : list (hash * hash) :=
  ForEachStorage ms a (fun k v l => (true, l ++ [(k, v)])) [].

(** [SetState]; [None] is an empty value, other values have 32 bytes *)
Definition keeper_SetState (a : address) (k : hash) (value : option hash) (ms : multiStore) : multiStore :=
  let m := match value with None => delete k (storage_at ms a) | Some v => <[k := v]> (storage_at ms a) end in
  MultiStore (<[a := m]> (storage ms)) (codes ms) (native_state ms).

(** [SetCode] *)
Definition keeper_SetCode (h : hash) (x : list Z) (ms : multiStore) : multiStore :=
  MultiStore (storage ms) (match x with [] => delete h (codes ms) | _ => <[h := x]> (codes ms) end) (native_state ms).

(** [GetAccount], [GetAccountOrEmpty], [GetNonce] and [GetBalance] *)
Definition keeper_GetAccount (ms : multiStore) (a : address) : option account :=
  match auth_GetAccount (native_state ms) a with
  | None => None
  | Some x => Some (Account (GetSequence x) (match x with EthAccount _ h => h | OtherAccount _ => emptyCodeHash end))
  end.
Definition GetAccountOrEmpty (ms : multiStore) (a : address) : account := default (Account 0 emptyCodeHash) (keeper_GetAccount ms a).
Definition keeper_GetNonce (ms : multiStore) (a : address) : Z :=
  match auth_GetAccount (native_state ms) a with None => 0 | Some x => GetSequence x end.
Definition keeper_GetBalance (ms : multiStore) (a : address) : Z := bank_GetBalance (native_state ms) a.

(** [SetAccount] *)
Definition keeper_SetAccount (a : address) (x : account) (ms : multiStore) : option multiStore :=
  let '(acct, n) := match auth_GetAccount (native_state ms) a with Some acct => (acct, native_state ms) | None => (ProtoAccount, auth_NextNumber (native_state ms)) end in
  let acct := SetCodeHash (CodeHash x) (SetSequence (Nonce x) acct) in
  Some (with_native (auth_SetAccount a acct n) ms).

(** [DeleteAccount] *)
Definition keeper_DeleteAccount (a : address) (ms : multiStore) : option multiStore :=
  match auth_GetAccount (native_state ms) a with
  | None => Some ms
  | Some (OtherAccount _) => None
  | Some (EthAccount _ _) =>
      let ms := ForEachStorage ms a (fun k _ ms => (true, keeper_SetState a k None ms)) ms in
      Some (with_native (auth_RemoveAccount a (native_state ms)) ms)
  end.

(** [Transfer], [AddBalance], [SubBalance] and [SetBalance] *)
Definition on_native (f : N -> option (N * list Ev)) (ms : multiStore) : option (multiStore * list Ev) :=
  match f (native_state ms) with None => None | Some (n, evs) => Some (with_native n ms, evs) end.
Definition both (f g : N -> option (N * list Ev)) (n : N) : option (N * list Ev) :=
  match f n with None => None | Some (n, evs) => match g n with None => None | Some (n, evs') => Some (n, evs ++ evs') end end.

Definition keeper_Transfer (sender recipient : address) (amount : Z) : multiStore -> option (multiStore * list Ev) :=
  on_native (bank_SendCoins sender recipient amount).
Definition keeper_AddBalance (a : address) (amount : Z) : multiStore -> option (multiStore * list Ev) :=
  on_native (both (bank_MintCoins amount) (bank_SendFromModule a amount)).
Definition keeper_SubBalance (a : address) (amount : Z) : multiStore -> option (multiStore * list Ev) :=
  on_native (both (bank_SendToModule a amount) (bank_BurnCoins amount)).
Definition keeper_SetBalance (a : address) (amount : Z) (ms : multiStore) : option (multiStore * list Ev) :=
  let delta := amount - keeper_GetBalance ms a in
  if delta >? 0 then keeper_AddBalance a delta ms
  else if delta <? 0 then keeper_SubBalance a (Z.abs delta) ms
  else Some (ms, []).

#[export] Instance evm_keeper : Keeper multiStore Ev := {
  k_GetAccount := keeper_GetAccount;
  k_GetState := keeper_GetState;
  k_GetCode := keeper_GetCode;
  k_GetBalance := keeper_GetBalance;
  k_Transfer := keeper_Transfer;
  k_AddBalance := keeper_AddBalance;
  k_SubBalance := keeper_SubBalance;
  k_SetBalance := keeper_SetBalance;
  k_SetAccount := keeper_SetAccount;
  k_SetState a k v := keeper_SetState a k (Some v);
  k_SetCode := keeper_SetCode;
  k_DeleteAccount := keeper_DeleteAccount;
  keccak := Keccak256
}.

(** ** What the keepers of the SDK do

    The account keeper is a map and leaves the balances alone.  The bank touches accounts only to create the
    one of a new recipient, or of a module, which has no sequence and no code. *)

Definition fresh (x : authAccount) : Prop := GetSequence x = 0 /\ match x with EthAccount _ h => h = emptyCodeHash | OtherAccount _ => True end.

Definition grows (n n' : N) : Prop :=
  forall a, auth_GetAccount n' a = auth_GetAccount n a \/ (auth_GetAccount n a = None /\ exists x, auth_GetAccount n' a = Some x /\ fresh x).

Definition tame (f : N -> option (N * list Ev)) : Prop := forall n n' evs, f n = Some (n', evs) -> grows n n'.
End Keeper.
Arguments multiStore : clear implicits.

Class NativeLaws (N Ev : Type) `{!Native N Ev} : Prop := {
  auth_get_set a x n b : auth_GetAccount (auth_SetAccount a x n) b = if decide (a = b) then Some x else auth_GetAccount n b;
  auth_get_remove a n b : auth_GetAccount (auth_RemoveAccount a n) b = if decide (a = b) then None else auth_GetAccount n b;
  auth_get_number n b : auth_GetAccount (auth_NextNumber n) b = auth_GetAccount n b;
  bank_remove a n b : bank_GetBalance (auth_RemoveAccount a n) b = bank_GetBalance n b;
  send_tame a b x : tame (bank_SendCoins a b x);
  mint_tame x : tame (bank_MintCoins x);
  burn_tame x : tame (bank_BurnCoins x);
  from_module_tame a x : tame (bank_SendFromModule a x);
  to_module_tame a x : tame (bank_SendToModule a x)
}.

Section KeeperFacts.
Context {N Ev : Type} `{!Native N Ev}.
Implicit Types ms : multiStore N.

#[export] Instance grows_preorder : PreOrder (@grows N Ev _).
Proof.
  split; [by intros n a; left|]. intros n1 n2 n3 H1 H2 a. destruct (H1 a) as [E1|(E1 & x & F1 & Hx)], (H2 a) as [E2|(E2 & y & F2 & Hy)].
  - left. congruence.
  - right. split; [congruence|by eauto].
  - right. split; [done|]. exists x. split; [congruence|done].
  - congruence.
Qed.

Lemma both_tame f g : tame f -> tame g -> tame (both f g).
Proof.
  intros Hf Hg n n' evs. unfold both. destruct (f n) as [[n1 e1]|] eqn:E1; [|done]. destruct (g n1) as [[n2 e2]|] eqn:E2; [|done].
  intros [= <- _]. etrans; [by eapply Hf|by eapply Hg].
Qed.

Lemma grows_quiet ms n : grows (native_state ms) n ->
  agree (with_native n ms) ms /\ (forall a, k_GetAccount (with_native n ms) a = None -> k_GetAccount ms a = None).
Proof.
  intros Hg. split; [split; [done|split; [done|]]|]; intros a; unfold k_GetAccount, evm_keeper, keeper_GetAccount; cbn;
    destruct (Hg a) as [->|(-> & x & -> & Hs & Hx)]; try done.
  unfold NewEmptyAccount, EmptyCodeHash. cbn. rewrite Hs. by destruct x; [rewrite Hx|].
Qed.

Lemma on_native_quiet f : tame f -> quiet (on_native f).
Proof.
  intros Hf ms ms' evs. unfold on_native. destruct (f (native_state ms)) as [[n e]|] eqn:E; [|done]. intros [= <- _].
  apply grows_quiet. by eapply Hf.
Qed.

Context `{!NativeLaws N Ev}.

Lemma add_balance_quiet a x : quiet (keeper_AddBalance a x).
Proof. apply on_native_quiet, both_tame; [apply mint_tame|apply from_module_tame]. Qed.

Lemma sub_balance_quiet a x : quiet (keeper_SubBalance a x).
Proof. apply on_native_quiet, both_tame; [apply to_module_tame|apply burn_tame]. Qed.

(** The keeper keeps what the database asks of it. *)
#[export] Instance keeper_laws : KeeperLaws (multiStore N) Ev.
Proof.
  constructor; intros; cbn.
  - apply on_native_quiet, send_tame.
  - apply add_balance_quiet.
  - apply sub_balance_quiet.
  - intros ms ms' evs. unfold keeper_SetBalance. cbn. case_match; [apply add_balance_quiet|]. case_match; [apply sub_balance_quiet|].
    intros [= <- _]. split; [done|auto].
Qed.

(** ** Reading what was written *)

Lemma storage_at_insert m (cs : gmap hash (list Z)) (n : N) a b (x : gmap hash hash) :
  storage_at (MultiStore (<[a := x]> m) cs n) b = if decide (a = b) then x else default ∅ (m !! b).
Proof.
  unfold storage_at. cbn. destruct (decide (a = b)) as [->|]; [by rewrite lookup_insert_eq|by rewrite lookup_insert_ne].
Qed.

Lemma SetState_at a k v ms b j : storage_at (keeper_SetState a k v ms) b !! j = if decide (a = b /\ k = j) then v else storage_at ms b !! j.
Proof.
  unfold keeper_SetState. rewrite storage_at_insert. fold (storage_at ms b). destruct (decide (a = b)) as [->|].
  - destruct v; (destruct (decide (k = j)) as [->|]; [rewrite decide_True by done|rewrite decide_False by naive_solver]).
    + by rewrite lookup_insert_eq.
    + by rewrite lookup_insert_ne.
    + by rewrite lookup_delete_eq.
    + by rewrite lookup_delete_ne.
  - by rewrite decide_False by naive_solver.
Qed.

(** Clearing the slots in a list *)
Lemma clear_spec a l m ms : let ms' := for_each (fun k _ ms => (true, keeper_SetState a k None ms)) l m ms in
  (forall b j, storage_at ms' b !! j = if decide (a = b /\ j ∈ l) then None else storage_at ms b !! j)
  /\ codes ms' = codes ms /\ native_state ms' = native_state ms.
Proof.
  revert ms. induction l as [|k l IH]; intros ms; [split; [|done]; intros b j; by rewrite decide_False by (by intros [_ ?%elem_of_nil])|].
  cbn. destruct (IH (keeper_SetState a k None ms)) as (H1 & H2 & H3). split; [|done]. intros b j. rewrite H1, SetState_at.
  destruct (decide (a = b /\ j ∈ l)) as [[-> Hj]|Hn]; [by rewrite decide_True by (split; [done|by right])|].
  destruct (decide (a = b /\ k = j)) as [[-> ->]|Hk]; [by rewrite decide_True by (split; [done|by left])|].
  rewrite decide_False; [done|]. intros [-> [->|?]%elem_of_cons]; naive_solver.
Qed.

Lemma DeleteAccount_spec a ms : match auth_GetAccount (native_state ms) a with
  | Some (OtherAccount _) => keeper_DeleteAccount a ms = None
  | None => keeper_DeleteAccount a ms = Some ms
  | Some (EthAccount _ _) => exists ms', keeper_DeleteAccount a ms = Some ms'
      /\ (forall b, storage_at ms' b = if decide (a = b) then ∅ else storage_at ms b)
      /\ codes ms' = codes ms /\ native_state ms' = auth_RemoveAccount a (native_state ms)
  end.
Proof.
  unfold keeper_DeleteAccount. destruct (auth_GetAccount (native_state ms) a) as [[n h|n]|]; [|done|done]. eexists. split; [done|].
  destruct (clear_spec a (sorted_keys (storage_at ms a)) (storage_at ms a) ms) as (H1 & H2 & H3). unfold ForEachStorage. split; [|split; [done|by cbn; rewrite H3]].
  intros b. apply map_eq. intros j. etrans; [exact (H1 b j)|]. destruct (decide (a = b)) as [<-|]; [|by rewrite decide_False by naive_solver].
  rewrite lookup_empty. destruct (decide (a = a /\ _)) as [|Hn]; [done|]. apply eq_None_not_Some. rewrite <- sorted_keys_elem. naive_solver.
Qed.

Definition eth_or_absent ms a : Prop := match auth_GetAccount (native_state ms) a with Some (OtherAccount _) => False | _ => True end.

(** The keeper writes what it is asked to. *)
#[export] Instance keeper_writes : KeeperWrites (multiStore N) Ev.
Proof.
  refine {| can_hold := eth_or_absent |}.
  - intros a k v ms. split; [|done]. intros b j. cbn. unfold keeper_GetState. rewrite SetState_at. by destruct (decide (a = b /\ k = j)).
  - intros h x ms. split; [done|]. split; [done|]. cbn. unfold keeper_GetCode, keeper_SetCode. cbn. split; [|split; [|done]].
    + intros h' Hne. destruct x; [by rewrite lookup_delete_ne|by rewrite lookup_insert_ne].
    + intros Hx. destruct x; [done|]. by rewrite lookup_insert_eq.
  - intros a x ms Hh. cbn. unfold keeper_SetAccount, eth_or_absent, keeper_GetAccount in *.
    destruct (auth_GetAccount (native_state ms) a) as [[n h|n]|] eqn:Ha; [|done|]; (eexists; split; [done|]; split; [done|]; cbn; split; [|split; [done|]]);
      intros b; rewrite auth_get_set, ?auth_get_number; destruct (decide (a = b)) as [<-|]; try done; by destruct x.
  - intros a ms Hh Hz. cbn in *. pose proof (DeleteAccount_spec a ms) as Hd. unfold eth_or_absent, keeper_GetAccount, keeper_GetCode in *.
    destruct (auth_GetAccount (native_state ms) a) as [[n h|n]|] eqn:Ha; [|done|].
    + destruct Hd as (ms' & -> & H1 & H2 & H3). exists ms'. rewrite H2, H3. split; [done|]. split; [intros b j; unfold keeper_GetState; rewrite H1; by destruct (decide (a = b))|].
      split; [intros b; rewrite auth_get_remove; by destruct (decide (a = b))|]. split; [done|]. intros b. rewrite auth_get_remove. by destruct (decide (a = b)).
    + exists ms. split; [done|]. split; [intros b j; destruct (decide (a = b)) as [<-|]; [by apply Hz|done]|].
      split; [intros b; destruct (decide (a = b)) as [<-|]; by rewrite ?Ha|done].
Defined.

Lemma can_hold_eq ms a : can_hold ms a = eth_or_absent ms a.
Proof. reflexivity. Qed.


Lemma for_each_list (l : list hash) (m : gmap hash hash) acc :
  for_each (fun k v l => (true, l ++ [(k, v)])) l m acc = acc ++ map (fun k => (k, default 0 (m !! k))) l.
Proof. revert acc. induction l as [|k l IH]; intros acc; cbn; [by rewrite app_nil_r|]. by rewrite IH, <- app_assoc. Qed.

(** [GetAccountStorage], which a genesis export uses, has every slot of the
    account once, in the order of the keys. *)
Theorem account_storage_complete ms a :
  (forall k v, (k, v) ∈ GetAccountStorage ms a <-> storage_at ms a !! k = Some v)
  /\ NoDup (GetAccountStorage ms a).*1 /\ Sorted Z.le (GetAccountStorage ms a).*1.
Proof.
  unfold GetAccountStorage, ForEachStorage. rewrite for_each_list. cbn [app]. split; [|].
  - intros k v. rewrite list_elem_of_fmap. split.
    + intros (k' & [= -> ->] & [v' Hk]%sorted_keys_elem). by rewrite Hk.
    + intros Hk. exists k. rewrite Hk. split; [done|]. apply sorted_keys_elem. by eexists.
  - rewrite <- list_fmap_compose, (list_fmap_ext _ id), list_fmap_id by done. split; [apply sorted_keys_NoDup|].
    apply Sorted_merge_sort. intros x y. lia.
Qed.

(** A slot that is set to zero stays in the store: the value that [Commit] passes
    has always 32 bytes, so it is never the empty one that is deleted. *)
Lemma zero_slot_kept a k ms : storage_at (k_SetState a k 0 ms) a !! k = Some 0.
Proof. cbn. rewrite SetState_at. by rewrite decide_True. Qed.

(** An account that is not one of Ethermint keeps no code hash. *)
Lemma other_account_no_code a x n ms ms' : auth_GetAccount (native_state ms) a = Some (OtherAccount n) -> keeper_SetAccount a x ms = Some ms' ->
  keeper_GetAccount ms' a = Some (Account (Nonce x) emptyCodeHash).
Proof. unfold keeper_SetAccount, keeper_GetAccount. intros ->. intros [= <-]. cbn. by rewrite auth_get_set, decide_True. Qed.
End KeeperFacts.
