(* ===== verification/StateDBSamples.v ===== *)
(** * The state database on a sample chain

    A small account keeper and bank that keep the laws of the SDK, a store with a
    user and a contract, and a transaction on it: the hypotheses of the theorems
    on the state database hold there. *)

From stdpp Require Import gmap sets sorting countable.
From S2P Require Import Prelude StateDB StateDBFacts StateDBJournal StateDBSnap StateDBCommit EvmKeeper.
Local Open Scope Z_scope.

(** ** The sample keepers

    Accounts, coins, and the pool of the fees collected *)

Record sdk : Type := Sdk { accts : gmap Z authAccount; coins : gmap Z Z; pool : Z }.

Definition sample_hash (l : list Z) : Z := Zpos (encode l).
Definition module_address : Z := 999.

Definition touch (a : Z) (n : sdk) : sdk :=
  match accts n !! a with None => Sdk (<[a := EthAccount 0 (sample_hash [])]> (accts n)) (coins n) (pool n) | Some _ => n end.
Definition credit (a x : Z) (n : sdk) : sdk := Sdk (accts n) (<[a := default 0 (coins n !! a) + x]> (coins n)) (pool n).
Definition send (a b x : Z) (n : sdk) : option (sdk * list Z) :=
  if default 0 (coins n !! a) <? x then None else Some (touch b (credit b x (credit a (- x) n)), [x]).

#[export] Instance sample_native : Native sdk Z := {
  auth_GetAccount n a := accts n !! a;
  auth_SetAccount a x n := Sdk (<[a := x]> (accts n)) (coins n) (pool n);
  auth_RemoveAccount a n := Sdk (delete a (accts n)) (coins n) (pool n);
  auth_NextNumber n := n;
  bank_GetBalance n a := default 0 (coins n !! a);
  bank_SendCoins := send;
  bank_MintCoins x n := Some (credit module_address x n, []);
  bank_BurnCoins x n := Some (credit module_address (- x) n, []);
  bank_SendFromModule a x := send module_address a x;
  bank_SendToModule a x := send a module_address x;
  Keccak256 := sample_hash
}.

Lemma send_sample a b x : tame (send a b x).
Proof.
  intros n n' evs. unfold send, touch. destruct (_ <? x); [done|]. intros [= <- _] c. cbn. destruct (accts n !! b) eqn:Hb; [by left|]. cbn.
  destruct (decide (b = c)) as [<-|]; [|left; by rewrite lookup_insert_ne]. right. split; [done|]. rewrite lookup_insert_eq. by eexists.
Qed.

#[export] Instance sample_laws : NativeLaws sdk Z.
Proof.
  constructor; intros; cbn; try apply send_sample; try (intros ? ? ? [= <- _] c; by left); try done.
  - destruct (decide (a = b)) as [->|]; [by rewrite lookup_insert_eq|by rewrite lookup_insert_ne].
  - destruct (decide (a = b)) as [->|]; [by rewrite lookup_delete_eq|by rewrite lookup_delete_ne].
Qed.

Lemma sample_hash_inj x y : sample_hash x = sample_hash y -> x = y.
Proof. intros [= H]. by apply (inj encode). Qed.

(** ** The sample store: the user 7 and the contract 9 *)

Definition sample_code : list Z := [96; 0].
Definition sample_store : multiStore sdk :=
  MultiStore (<[9 := {[5 := 42]}]> ∅) (<[sample_hash sample_code := sample_code]> ∅)
    (Sdk (<[7 := EthAccount 3 (sample_hash [])]> (<[9 := EthAccount 1 (sample_hash sample_code)]> ∅)) (<[7 := 100]> ∅) 0).

Lemma sample_store_ok : store_ok sample_store.
Proof.
  split.
  - intros a k Hk. cbn [k_GetAccount evm_keeper] in Hk. destruct (decide (a = 9)) as [->|Ha]; [by vm_compute in Hk|].
    cbn. unfold keeper_GetState, storage_at. cbn [storage sample_store]. by rewrite lookup_insert_ne, lookup_empty.
  - intros a x Hx. cbn in Hx. unfold keeper_GetAccount in Hx. cbn [native_state sample_store auth_GetAccount sample_native accts] in Hx.
    destruct (decide (a = 7)) as [->|H7]; [vm_compute in Hx; injection Hx as <-; by vm_compute|].
    destruct (decide (a = 9)) as [->|H9]; [vm_compute in Hx; injection Hx as <-; by vm_compute|].
    by rewrite !lookup_insert_ne, lookup_empty in Hx.
Qed.

(** The start of a transaction of 7 to 9. *)
Definition sample_start : StateDB (multiStore sdk) Z Z := Prepare true true 7 8 (Some 9) [1; 2] [(9, [5])] (New sample_store 0 0).

Definition the_state (x : option (StateDB (multiStore sdk) Z Z)) : StateDB (multiStore sdk) Z Z := default sample_start x.

Definition before_ops : list (op (MS := multiStore sdk) (Ev := Z) (L := Z)) := [op_SetNonce 7 4; op_Transfer 7 9 10; op_AddSlot 9 6].
Definition sample_state : StateDB (multiStore sdk) Z Z := the_state (exec before_ops sample_start).

(** The transaction goes on: the contract writes, pays a new account, makes a
    contract and self-destructs; an inner snapshot is reverted. *)
Definition after_ops : list (op (MS := multiStore sdk) (Ev := Z) (L := Z)) :=
  [op_SetState 9 5 77; op_Transfer 9 10 4; op_GetNonce 10; op_Snapshot; op_CreateAccount 11; op_CreateContract 11; op_SetNonce 11 1;
   op_SetCode 11 (Some [1; 2; 3]); op_AddSlot 11 3; op_AddLog 9 55; op_Revert 1; op_SetTransientState 9 1 2; op_AddRefund 100; op_SelfDestruct 9].

Lemma sample_reachable : reachable sample_state.
Proof.
  apply (Reachable sample_state sample_store 0 0 true true 7 8 (Some 9) [1; 2] [(9, [5])] before_ops); [apply sample_store_ok|by repeat constructor|].
  vm_compute. reflexivity.
Qed.

(** A payment creates no account but the one that is paid. *)
Lemma send_spares a b x n n' evs c : send a b x n = Some (n', evs) -> b <> c -> accts n !! c = None -> accts n' !! c = None.
Proof.
  unfold send, touch. destruct (_ <? x); [done|]. intros [= <- _] Hne Hc. cbn. destruct (accts n !! b); [done|]. cbn. by rewrite lookup_insert_ne.
Qed.

Lemma account_absent (ms : multiStore sdk) c : keeper_GetAccount ms c = None <-> accts (native_state ms) !! c = None.
Proof. unfold keeper_GetAccount. cbn. by destruct (accts (native_state ms) !! c). Qed.

Lemma on_native_spares (f : sdk -> option (sdk * list Z)) c :
  (forall n n' evs, f n = Some (n', evs) -> accts n !! c = None -> accts n' !! c = None) -> spares (MS := multiStore sdk) (eq c) (on_native f).
Proof.
  intros Hf ms ms' evs. unfold on_native. destruct (f (native_state ms)) as [[n' evs']|] eqn:Hn; [|done]. intros [= <- <-] a <-. cbn. rewrite !account_absent. by eapply Hf.
Qed.

Lemma after_ops_spare : Forall (op_spares (eq 11)) after_ops.
Proof.
  repeat constructor; cbn -[module_address]; try done.
  - apply on_native_spares. intros n n' evs Hs. by eapply send_spares.
  - intros x. apply on_native_spares. intros n n' evs. unfold both. cbn [bank_SendToModule bank_BurnCoins sample_native].
    destruct (send 9 module_address x n) as [[n1 e1]|] eqn:Hs; [|done]. intros [= <- _]. cbn. by eapply send_spares.
Qed.

(** ** Witnesses *)

Lemma snapshot_restored_witness :
  exists s', exec after_ops (snd (Snapshot sample_state)) = Some s'
    /\ fst (HasSelfDestructed 9 s') = true /\ fst (GetState 9 5 s') = 77
    /\ exists s'', RevertToSnapshot 0 s' = Some s'' /\ same_view s'' sample_state /\ fst (GetState 9 5 sample_state) = 42
         /\ fst (Exist 11 s'') = false.
Proof.
  exists (the_state (exec after_ops (snd (Snapshot sample_state)))).
  assert (exec after_ops (snd (Snapshot sample_state)) = Some (the_state (exec after_ops (snd (Snapshot sample_state))))) as He by (vm_compute; reflexivity).
  split; [exact He|]. split; [vm_compute; reflexivity|]. split; [vm_compute; reflexivity|].
  destruct (snapshot_restored sample_state after_ops (the_state (exec after_ops (snd (Snapshot sample_state)))) sample_reachable) as (s'' & Hr & Hv & Hx & _).
  - by repeat constructor.
  - exact He.
  - vm_compute. left.
  - exists s''. split; [exact Hr|]. split; [exact Hv|]. split; [vm_compute; reflexivity|].
    destruct (Hx 11 after_ops_spare) as [-> _]. vm_compute. reflexivity.
Defined.

Lemma revisions_exact_witness :
  RevertToSnapshot 0 sample_state = None /\ RevertToSnapshot 0 (snd (Snapshot sample_state)) <> None.
Proof.
  split; [|vm_compute; discriminate].
  apply (proj1 (revisions_exact sample_state 0 sample_reachable)). vm_compute. apply not_elem_of_nil.
Defined.

Lemma commit_no_panic_witness : Commit sample_state <> CommitPanic.
Proof. exact (commit_no_panic sample_state sample_reachable). Defined.

(** The nonce of 7 and the slot of 9 are written, 9 keeps its code. *)
Definition committing_ops : list (op (MS := multiStore sdk) (Ev := Z) (L := Z)) := before_ops ++ [op_SetState 9 5 0; op_SetState 9 6 8; op_CreateAccount 11; op_SetCode 11 (Some [1; 2]); op_SelfDestruct 7].
Definition committing_state : StateDB (multiStore sdk) Z Z := the_state (exec committing_ops sample_start).

Lemma dirty_keys : sorted_keys (dirties committing_state) = [7; 9; 11].
Proof. vm_compute. reflexivity. Qed.

Lemma committing_reachable : reachable committing_state.
Proof.
  apply (Reachable committing_state sample_store 0 0 true true 7 8 (Some 9) [1; 2] [(9, [5])] committing_ops); [apply sample_store_ok|by repeat constructor|].
  vm_compute. reflexivity.
Qed.

Lemma committing_can_hold a : is_Some (dirties committing_state !! a) -> can_hold (cacheMS (core committing_state)) a.
Proof.
  intros Ha. apply sorted_keys_elem in Ha. rewrite dirty_keys in Ha. rewrite can_hold_eq.
  assert (Forall (eth_or_absent (cacheMS (core committing_state))) [7; 9; 11]) as H by (vm_compute; by repeat constructor).
  rewrite Forall_forall in H. by apply H.
Qed.

Lemma commit_writes_witness :
  exists ms, Commit committing_state = Committed ms (nativeEvents (core committing_state))
    /\ keeper_GetState ms 9 6 = 8 /\ keeper_GetAccount ms 7 = None.
Proof.
  destruct (commit_writes committing_state committing_reachable) as (ms & Hc & Hs & _).
  - vm_compute. reflexivity.
  - intros x y _ _. apply sample_hash_inj.
  - exact committing_can_hold.
  - exists ms. split; [exact Hc|].
    assert (forall a, a ∈ [7; 9; 11] -> stored_as ms a committing_state) as H by (intros a Ha; apply Hs; left; apply sorted_keys_elem; by rewrite dirty_keys).
    split.
    + assert (fst (HasSelfDestructed 9 committing_state) = false /\ fst (GetState 9 6 committing_state) = 8) as [Hd Hv] by (vm_compute; split; reflexivity).
      destruct (H 9) as [_ H9]; [by right; left|]. destruct (H9 Hd) as (_ & _ & _ & Hk). etrans; [exact (Hk 6)|exact Hv].
    + assert (fst (HasSelfDestructed 7 committing_state) = true) as Hd by (vm_compute; reflexivity).
      destruct (H 7) as [H7 _]; [by left|]. exact (proj1 (H7 Hd)).
Defined.


(** An account that a native action created and that was then looked up stays
    cached when the action is reverted: it exists in the database though the store
    has it no more. *)
Lemma stale_account :
  let s := the_state (exec [op_Snapshot; op_Transfer 7 10 5; op_Exist 10; op_Revert 0] sample_start) in
  fst (Exist 10 sample_start) = false /\ fst (Exist 10 s) = true /\ k_GetAccount (cacheMS (core s)) 10 = None.
Proof. vm_compute. done. Qed.

(** An account that is created again over an existing one has no nonce in the
    database, but the change does not make it dirty: the store keeps the old
    nonce. *)
Lemma reset_not_written :
  let s := the_state (exec [op_CreateAccount 7] sample_start) in
  fst (GetNonce 7 s) = 0 /\ Commit s = Committed sample_store [] /\ keeper_GetAccount sample_store 7 = Some (Account 3 (sample_hash [])).
Proof. vm_compute. done. Qed.

(** The code of a deleted account stays in the store. *)
Lemma deleted_code_stays : (codes (default sample_store (keeper_DeleteAccount 9 sample_store))) !! sample_hash sample_code = Some sample_code.
Proof. vm_compute. done. Qed.
