(* ===== verification/TxData.v ===== *)
(** * Transactions and their fees

    The transaction data of x/evm/types: the three types of transactions
    (legacy_tx.go, access_list_tx.go, dynamic_fee_tx.go, tx_data.go), the
    conversion from and to the transactions of go-ethereum (access_list.go), and
    the fee, cost and effective price that the message uses (msg.go, utils.go,
    tx.go).

    A pointer to a number is an option.  A transaction of go-ethereum is the
    record of its fields; the hexadecimal notation of addresses and hashes, which
    is the one of go-ethereum, is a parameter.  A nil slice is the empty list. *)

From Stdlib Require Import Ascii.
From stdpp Require Import strings list.
From S2P Require Import Prelude FeeMarket.
Local Open Scope Z_scope.

(** The notation of addresses and hashes in go-ethereum *)
Class Hex : Type := {
  address_Hex : Z -> string;
  HexToAddress : string -> Z;
  hash_String : Z -> string;
  HexToHash : string -> Z;
  IsHexAddress : string -> bool
}.

Class HexLaws `{!Hex} : Prop := {
  address_back a : HexToAddress (address_Hex a) = a;
  hash_back h : HexToHash (hash_String h) = h;
  address_written a : IsHexAddress (address_Hex a) = true;
  address_nonempty a : address_Hex a <> ""%string
}.

(** ** Numbers as bytes *)

(** [big.Int.SetBytes] and [big.Int.Bytes] *)
Definition SetBytes (l : list Z) : Z := foldl (fun x b => x * 256 + b) 0 l.

Fixpoint bytes_loop (fuel : nat) (x : Z) (acc : list Z) : list Z :=
  match fuel with
  | O => acc
  | S fuel => if x =? 0 then acc else bytes_loop fuel (x / 256) (x mod 256 :: acc)
  end.
Definition Bytes (x : Z) : list Z := bytes_loop (S (Z.to_nat (Z.log2 x))) x [].

(** ** Transactions of go-ethereum *)

Definition ethAccessList : Type := list (Z * list Z).

Inductive ethTx : Type :=
| EthLegacyTx (nonce gasPrice gas : Z) (to : option Z) (value : Z) (data : list Z) (v r s : Z)
| EthAccessListTx (chainID nonce gasPrice gas : Z) (to : option Z) (value : Z) (data : list Z) (accesses : ethAccessList) (v r s : Z)
| EthDynamicFeeTx (chainID nonce gasTipCap gasFeeCap gas : Z) (to : option Z) (value : Z) (data : list Z) (accesses : ethAccessList) (v r s : Z).

Definition eth_Gas (t : ethTx) : Z :=
  match t with EthLegacyTx _ _ g _ _ _ _ _ _ | EthAccessListTx _ _ _ g _ _ _ _ _ _ _ | EthDynamicFeeTx _ _ _ _ g _ _ _ _ _ _ _ => g end.
Definition eth_Value (t : ethTx) : Z :=
  match t with EthLegacyTx _ _ _ _ x _ _ _ _ | EthAccessListTx _ _ _ _ _ x _ _ _ _ _ | EthDynamicFeeTx _ _ _ _ _ _ x _ _ _ _ _ => x end.
Definition eth_Nonce (t : ethTx) : Z :=
  match t with EthLegacyTx n _ _ _ _ _ _ _ _ | EthAccessListTx _ n _ _ _ _ _ _ _ _ _ | EthDynamicFeeTx _ n _ _ _ _ _ _ _ _ _ _ => n end.
Definition eth_GasFeeCap (t : ethTx) : Z :=
  match t with EthLegacyTx _ p _ _ _ _ _ _ _ | EthAccessListTx _ _ p _ _ _ _ _ _ _ _ | EthDynamicFeeTx _ _ _ p _ _ _ _ _ _ _ _ => p end.
Definition eth_GasTipCap (t : ethTx) : Z :=
  match t with EthLegacyTx _ p _ _ _ _ _ _ _ | EthAccessListTx _ _ p _ _ _ _ _ _ _ _ | EthDynamicFeeTx _ _ p _ _ _ _ _ _ _ _ _ => p end.
Definition eth_To (t : ethTx) : option Z :=
  match t with EthLegacyTx _ _ _ x _ _ _ _ _ | EthAccessListTx _ _ _ _ x _ _ _ _ _ _ | EthDynamicFeeTx _ _ _ _ _ x _ _ _ _ _ _ => x end.
Definition eth_Data (t : ethTx) : list Z :=
  match t with EthLegacyTx _ _ _ _ _ x _ _ _ | EthAccessListTx _ _ _ _ _ _ x _ _ _ _ | EthDynamicFeeTx _ _ _ _ _ _ _ x _ _ _ _ => x end.
Definition eth_AccessList (t : ethTx) : ethAccessList :=
  match t with EthLegacyTx _ _ _ _ _ _ _ _ _ => [] | EthAccessListTx _ _ _ _ _ _ _ x _ _ _ | EthDynamicFeeTx _ _ _ _ _ _ _ _ x _ _ _ => x end.
(** The price of a dynamic transaction is its fee cap. *)
Definition eth_GasPrice (t : ethTx) : Z := eth_GasFeeCap t.
Definition eth_Cost (t : ethTx) : Z := eth_GasPrice t * eth_Gas t + eth_Value t.

(** [EthereumTx.Validate]; [true] is a nil error *)
Definition EthereumTx_Validate (t : ethTx) : bool :=
  if eth_Gas t =? 0 then false
  else if negb (IsValidInt256 (eth_GasPrice t)) then false
  else if negb (IsValidInt256 (eth_GasFeeCap t)) then false
  else if negb (IsValidInt256 (eth_GasTipCap t)) then false
  else IsValidInt256 (eth_Cost t).

(** ** Transaction data *)

Definition AccessList : Type := list (string * list string).

Inductive TxData : Type :=
| LegacyTx (Nonce : Z) (GasPrice : option Z) (GasLimit : Z) (To : string) (Amount : option Z) (Data V R S : list Z)
| AccessListTx (ChainID : option Z) (Nonce : Z) (GasPrice : option Z) (GasLimit : Z) (To : string) (Amount : option Z) (Data : list Z)
    (Accesses : AccessList) (V R S : list Z)
| DynamicFeeTx (ChainID : option Z) (Nonce : Z) (GasTipCap GasFeeCap : option Z) (GasLimit : Z) (To : string) (Amount : option Z)
    (Data : list Z) (Accesses : AccessList) (V R S : list Z).

Inductive txError : Type := ErrInvalidGasPrice | ErrInvalidGasFee | ErrInvalidGasCap | ErrInvalidAmount | ErrInvalidAddress | ErrInvalidChainID.

Section Data.
Context {HX : Hex}.

Definition NewAccessList (l : ethAccessList) : AccessList := map (fun '(a, keys) => (address_Hex a, map hash_String keys)) l.
Definition ToEthAccessList (l : AccessList) : ethAccessList := map (fun '(a, keys) => (HexToAddress a, map HexToHash keys)) l.

(** [SafeNewIntFromBigInt] *)
Definition SafeNewIntFromBigInt (x : Z) : option Z := if IsValidInt256 x then Some x else None.

Definition to_Hex (to : option Z) : string := match to with Some a => address_Hex a | None => ""%string end.

Definition newLegacyTx (nonce gasPrice gas : Z) (to : option Z) (value : Z) (data : list Z) (v r s : Z) : option TxData :=
  match SafeNewIntFromBigInt value, SafeNewIntFromBigInt gasPrice with
  | Some amount, Some price => Some (LegacyTx nonce (Some price) gas (to_Hex to) (Some amount) data (Bytes v) (Bytes r) (Bytes s))
  | _, _ => None
  end.

Definition newAccessListTx (chainID nonce gasPrice gas : Z) (to : option Z) (value : Z) (data : list Z) (accesses : ethAccessList) (v r s : Z) : option TxData :=
  match SafeNewIntFromBigInt value, SafeNewIntFromBigInt gasPrice with
  | Some amount, Some price =>
      Some (AccessListTx (Some chainID) nonce (Some price) gas (to_Hex to) (Some amount) data (NewAccessList accesses) (Bytes v) (Bytes r) (Bytes s))
  | _, _ => None
  end.

Definition newDynamicFeeTx (chainID nonce tip cap gas : Z) (to : option Z) (value : Z) (data : list Z) (accesses : ethAccessList) (v r s : Z) : option TxData :=
  match SafeNewIntFromBigInt value, SafeNewIntFromBigInt cap, SafeNewIntFromBigInt tip with
  | Some amount, Some cap, Some tip =>
      Some (DynamicFeeTx (Some chainID) nonce (Some tip) (Some cap) gas (to_Hex to) (Some amount) data (NewAccessList accesses) (Bytes v) (Bytes r) (Bytes s))
  | _, _, _ => None
  end.

Definition NewTxDataFromTx (t : ethTx) : option TxData :=
  match t with
  | EthDynamicFeeTx chainID nonce tip cap gas to value data accesses v r s => newDynamicFeeTx chainID nonce tip cap gas to value data accesses v r s
  | EthAccessListTx chainID nonce gasPrice gas to value data accesses v r s => newAccessListTx chainID nonce gasPrice gas to value data accesses v r s
  | EthLegacyTx nonce gasPrice gas to value data v r s => newLegacyTx nonce gasPrice gas to value data v r s
  end.

(** [rawSignatureValues] and [DeriveChainID] *)
Definition rawSignatureValue (l : list Z) : option Z := match l with [] => None | _ => Some (SetBytes l) end.

Definition DeriveChainID (v : option Z) : option Z :=
  match v with
  | None => None
  | Some v =>
      if v <? 1 then None
      else if v <? 2 ^ 64 then
        if (v =? 27) || (v =? 28) then Some 0 else if v <? 35 then None else Some ((v - 35) / 2)
      else Some ((v - 35) / 2)
  end.

(** The getters of the three types *)
Definition GetChainID (d : TxData) : option Z :=
  match d with
  | LegacyTx _ _ _ _ _ _ V _ _ => DeriveChainID (rawSignatureValue V)
  | AccessListTx c _ _ _ _ _ _ _ _ _ _ | DynamicFeeTx c _ _ _ _ _ _ _ _ _ _ _ => c
  end.
Definition GetGas (d : TxData) : Z :=
  match d with LegacyTx _ _ g _ _ _ _ _ _ | AccessListTx _ _ _ g _ _ _ _ _ _ _ | DynamicFeeTx _ _ _ _ g _ _ _ _ _ _ _ => g end.
Definition GetGasFeeCap (d : TxData) : option Z :=
  match d with LegacyTx _ p _ _ _ _ _ _ _ | AccessListTx _ _ p _ _ _ _ _ _ _ _ | DynamicFeeTx _ _ _ p _ _ _ _ _ _ _ _ => p end.
Definition GetGasTipCap (d : TxData) : option Z :=
  match d with LegacyTx _ p _ _ _ _ _ _ _ | AccessListTx _ _ p _ _ _ _ _ _ _ _ | DynamicFeeTx _ _ p _ _ _ _ _ _ _ _ _ => p end.
Definition GetGasPrice (d : TxData) : option Z := GetGasFeeCap d.
Definition GetValue (d : TxData) : option Z :=
  match d with LegacyTx _ _ _ _ x _ _ _ _ | AccessListTx _ _ _ _ _ x _ _ _ _ _ | DynamicFeeTx _ _ _ _ _ _ x _ _ _ _ _ => x end.
Definition GetToString (d : TxData) : string :=
  match d with LegacyTx _ _ _ x _ _ _ _ _ | AccessListTx _ _ _ _ x _ _ _ _ _ _ | DynamicFeeTx _ _ _ _ _ x _ _ _ _ _ _ => x end.
Definition GetTo (d : TxData) : option Z := if String.eqb (GetToString d) "" then None else Some (HexToAddress (GetToString d)).

(** [AsEthereumData], made a transaction by [NewTx], which reads nil as 0 *)
Definition AsEthereumData (d : TxData) : ethTx :=
  let n := default 0 in
  match d with
  | LegacyTx nonce price gas _ value data v r s =>
      EthLegacyTx nonce (n price) gas (GetTo d) (n value) data (n (rawSignatureValue v)) (n (rawSignatureValue r)) (n (rawSignatureValue s))
  | AccessListTx c nonce price gas _ value data accesses v r s =>
      EthAccessListTx (n c) nonce (n price) gas (GetTo d) (n value) data (ToEthAccessList accesses)
        (n (rawSignatureValue v)) (n (rawSignatureValue r)) (n (rawSignatureValue s))
  | DynamicFeeTx c nonce tip cap gas _ value data accesses v r s =>
      EthDynamicFeeTx (n c) nonce (n tip) (n cap) gas (GetTo d) (n value) data (ToEthAccessList accesses)
        (n (rawSignatureValue v)) (n (rawSignatureValue r)) (n (rawSignatureValue s))
  end.

(** [fee] and [cost]; a nil price panics *)
Definition fee (gasPrice : option Z) (gas : Z) : option Z := match gasPrice with Some p => Some (p * gas) | None => None end.
Definition cost (f : option Z) (value : option Z) : option Z :=
  match f with None => None | Some f => match value with Some x => Some (f + x) | None => Some f end end.
Definition Fee (d : TxData) : option Z := fee (GetGasFeeCap d) (GetGas d).
Definition Cost (d : TxData) : option Z := cost (Fee d) (GetValue d).

(** [EffectiveGasPrice] of utils.go, and of the data *)
Definition EffectiveGasPrice (baseFee feeCap tipCap : Z) : Z := Z.min (tipCap + baseFee) feeCap.
Definition EffectiveGasPrice_tx (d : TxData) (baseFee : Z) : option Z :=
  match d with
  | DynamicFeeTx _ _ (Some tip) (Some cap) _ _ _ _ _ _ _ _ => Some (EffectiveGasPrice baseFee cap tip)
  | DynamicFeeTx _ _ _ _ _ _ _ _ _ _ _ _ => None
  | _ => GetGasPrice d
  end.
Definition EffectiveFee (d : TxData) (baseFee : Z) : option Z := fee (EffectiveGasPrice_tx d baseFee) (GetGas d).
Definition EffectiveCost (d : TxData) (baseFee : Z) : option Z := cost (EffectiveFee d baseFee) (GetValue d).

(** [Validate]; [None] is a nil error *)
Definition valid256 (x : option Z) : bool := match x with None => true | Some x => IsValidInt256 x end.
Definition negative (x : option Z) : bool := match x with None => false | Some x => x <? 0 end.

Definition validate_to (to : string) (rest : option txError) : option txError :=
  if String.eqb to "" then rest else if negb (IsHexAddress to) then Some ErrInvalidAddress else rest.

Definition LegacyTx_Validate (gasPrice : option Z) (gas : Z) (to : string) (amount : option Z) : option txError :=
  if negb (bool_decide (is_Some gasPrice)) then Some ErrInvalidGasPrice
  else if negative gasPrice then Some ErrInvalidGasPrice
  else if negb (valid256 gasPrice) then Some ErrInvalidGasPrice
  else if negb (valid256 (fee gasPrice gas)) then Some ErrInvalidGasFee
  else if negative amount then Some ErrInvalidAmount
  else if negb (valid256 amount) then Some ErrInvalidAmount
  else validate_to to None.

Definition AccessListTx_Validate (chainID gasPrice : option Z) (gas : Z) (to : string) (amount : option Z) : option txError :=
  if negb (bool_decide (is_Some gasPrice)) then Some ErrInvalidGasPrice
  else if negb (valid256 gasPrice) then Some ErrInvalidGasPrice
  else if negative gasPrice then Some ErrInvalidGasPrice
  else if negative amount then Some ErrInvalidAmount
  else if negb (valid256 amount) then Some ErrInvalidAmount
  else if negb (valid256 (fee gasPrice gas)) then Some ErrInvalidGasFee
  else validate_to to (if bool_decide (is_Some chainID) then None else Some ErrInvalidChainID).

Definition DynamicFeeTx_Validate (chainID tip cap : option Z) (gas : Z) (to : string) (amount : option Z) : option txError :=
  match tip, cap with
  | None, _ => Some ErrInvalidGasCap
  | _, None => Some ErrInvalidGasCap
  | Some t, Some c =>
      if t <? 0 then Some ErrInvalidGasCap
      else if c <? 0 then Some ErrInvalidGasCap
      else if negb (IsValidInt256 t) then Some ErrInvalidGasCap
      else if negb (IsValidInt256 c) then Some ErrInvalidGasCap
      else if c <? t then Some ErrInvalidGasCap
      else if negb (valid256 (fee cap gas)) then Some ErrInvalidGasFee
      else if negative amount then Some ErrInvalidAmount
      else if negb (valid256 amount) then Some ErrInvalidAmount
      else validate_to to (if bool_decide (is_Some chainID) then None else Some ErrInvalidChainID)
  end.

Definition Validate_tx (d : TxData) : option txError :=
  match d with
  | LegacyTx _ gasPrice gas to amount _ _ _ _ => LegacyTx_Validate gasPrice gas to amount
  | AccessListTx chainID _ gasPrice gas to amount _ _ _ _ _ => AccessListTx_Validate chainID gasPrice gas to amount
  | DynamicFeeTx chainID _ tip cap gas to amount _ _ _ _ _ => DynamicFeeTx_Validate chainID tip cap gas to amount
  end.
End Data.

(** ** The message *)

(** [GetEffectiveGasPrice], [GetEffectiveFee] and the price of [AsMessage] *)
Definition GetEffectiveGasPrice (t : ethTx) (baseFee : option Z) : Z :=
  match baseFee with None => eth_GasPrice t | Some b => Z.min (eth_GasTipCap t + b) (eth_GasFeeCap t) end.
Definition GetEffectiveFee (t : ethTx) (baseFee : option Z) : Z := GetEffectiveGasPrice t baseFee * eth_Gas t.

Definition message_GasPrice (t : ethTx) (baseFee : option Z) : Z :=
  match baseFee with None => eth_GasPrice t | Some b => Z.min (eth_GasTipCap t + b) (eth_GasFeeCap t) end.

(** [GetTxPriority], by the power reduction of the SDK *)
Definition is_int64 (x : Z) : bool := (- 2 ^ 63 <=? x) && (x <? 2 ^ 63).
Definition GetTxPriority (reduction : Z) (t : ethTx) (baseFee : option Z) : Z :=
  let tipPrice := match baseFee with None => GetEffectiveGasPrice t baseFee | Some b => GetEffectiveGasPrice t baseFee - b end in
  let p := Z.quot tipPrice reduction in
  if is_int64 p then p else maxInt64.

(** ** Theorems *)

Lemma SetBytes_snoc l b : SetBytes (l ++ [b]) = SetBytes l * 256 + b.
Proof. unfold SetBytes. by rewrite foldl_app. Qed.

Lemma bytes_loop_app fuel x acc : bytes_loop fuel x acc = bytes_loop fuel x [] ++ acc.
Proof.
  revert x acc. induction fuel as [|fuel IH]; intros x acc; cbn; [done|]. destruct (x =? 0); [done|].
  rewrite IH. rewrite (IH _ [_]). by rewrite <- app_assoc.
Qed.

Lemma bytes_loop_value fuel x : 0 <= x < 2 ^ Z.of_nat fuel -> SetBytes (bytes_loop fuel x []) = x.
Proof.
  revert x. induction fuel as [|fuel IH]; intros x Hx; cbn [bytes_loop]; [cbn in *; lia|]. destruct (Z.eqb_spec x 0) as [->|Hne]; [done|].
  rewrite bytes_loop_app, SetBytes_snoc, IH; [pose proof (Z.div_mod x 256); lia|].
  split; [apply Z.div_pos; lia|]. apply Z.div_lt_upper_bound; [lia|]. rewrite Nat2Z.inj_succ, Z.pow_succ_r in Hx by lia. lia.
Qed.

Lemma Bytes_value x : 0 <= x -> SetBytes (Bytes x) = x.
Proof.
  intros Hx. apply bytes_loop_value. split; [done|]. pose proof (Z.log2_nonneg x). rewrite Nat2Z.inj_succ, Z2Nat.id by done.
  destruct (Z.eq_dec x 0) as [->|]; [cbn; lia|]. apply Z.log2_spec. lia.
Qed.

(** Reading back the bytes of a number; no bytes are nil, which [NewTx] reads as 0 *)
Lemma raw_back x : 0 <= x -> default 0 (rawSignatureValue (Bytes x)) = x.
Proof. intros Hx. pose proof (Bytes_value x Hx) as H. unfold rawSignatureValue. destruct (Bytes x) eqn:E; [done|]. cbn [default]. by rewrite <- E in *. Qed.

Definition eth_in_range (t : ethTx) : bool := IsValidInt256 (eth_Value t) && IsValidInt256 (eth_GasFeeCap t) && IsValidInt256 (eth_GasTipCap t).

Definition eth_signature (t : ethTx) : Z * Z * Z :=
  match t with EthLegacyTx _ _ _ _ _ _ v r s | EthAccessListTx _ _ _ _ _ _ _ _ v r s | EthDynamicFeeTx _ _ _ _ _ _ _ _ _ v r s => (v, r, s) end.

Section Theorems.
Context {HX : Hex} {HL : HexLaws}.

Lemma access_back l : ToEthAccessList (NewAccessList l) = l.
Proof.
  unfold ToEthAccessList, NewAccessList. rewrite map_map. rewrite <- (map_id l) at 2. apply map_ext. intros [a keys]. rewrite address_back, map_map.
  f_equal. rewrite <- (map_id keys) at 2. apply map_ext. apply hash_back.
Qed.

Lemma to_back to : (if String.eqb (to_Hex to) "" then None else Some (HexToAddress (to_Hex to))) = to.
Proof.
  destruct to as [a|]; cbn; [|done]. destruct (String.eqb_spec (address_Hex a) ""%string) as [E|]; [by apply address_nonempty in E|]. by rewrite address_back.
Qed.

(** [NewTxDataFromTx] fails exactly when the value or a price of the
    transaction has more than 256 bits; otherwise [AsEthereumData] gives the
    transaction back, field by field, signature and access list included. *)
Theorem txdata_roundtrip (t : ethTx) :
  (forall v r s, eth_signature t = (v, r, s) -> 0 <= v /\ 0 <= r /\ 0 <= s) ->
  (NewTxDataFromTx t = None <-> eth_in_range t = false)
  /\ forall d, NewTxDataFromTx t = Some d -> AsEthereumData d = t.
Proof.
  intros Hsig. unfold eth_in_range, NewTxDataFromTx, newLegacyTx, newAccessListTx, newDynamicFeeTx, SafeNewIntFromBigInt.
  destruct t as [nonce price gas to value data v r s|c nonce price gas to value data al v r s|c nonce tip cap gas to value data al v r s];
    cbn [eth_Value eth_GasFeeCap eth_GasTipCap]; destruct (Hsig v r s eq_refl) as (Hv & Hr & Hs).
  all: destruct (IsValidInt256 value); cbn [andb].
  all: try (split; [done|done]).
  1, 2: destruct (IsValidInt256 price); cbn [andb]; (split; [done|]); [|done]; intros d [= <-]; cbn [AsEthereumData default]; unfold GetTo; cbn [GetToString];
    by rewrite to_back, ?access_back, !raw_back.
  destruct (IsValidInt256 cap), (IsValidInt256 tip); cbn [andb]; (split; [done|]); try done. intros d [= <-]. cbn [AsEthereumData default]. unfold GetTo.
  cbn [GetToString]. by rewrite to_back, access_back, !raw_back.
Qed.

(** The chain of a transaction that is signed for it (EIP-155) *)
Lemma DeriveChainID_signed c k : 0 <= c -> 0 <= k <= 1 -> DeriveChainID (Some (k + c * 2 + 35)) = Some c.
Proof.
  intros Hc Hk. unfold DeriveChainID. destruct (Z.ltb_spec (k + c * 2 + 35) 1); [lia|].
  assert ((k + c * 2 + 35 - 35) / 2 = c) as -> by (symmetry; apply (Z.div_unique _ _ _ k); lia).
  destruct (_ <? 2 ^ 64); [|done]. destruct (Z.eqb_spec (k + c * 2 + 35) 27), (Z.eqb_spec (k + c * 2 + 35) 28); try lia. cbn [orb].
  destruct (Z.ltb_spec (k + c * 2 + 35) 35); [lia|done].
Qed.

(** ** Fees *)

Lemma valid256_range x : IsValidInt256 x = true -> 0 <= x -> x < 2 ^ 256.
Proof. unfold IsValidInt256, maxBitLen. intros H Hx. apply Z.ltb_lt in H. lia. Qed.

(** What a transaction that validates promises *)
Lemma Validate_tx_spec d : Validate_tx d = None -> exists cap tip,
  GetGasFeeCap d = Some cap /\ GetGasTipCap d = Some tip /\ 0 <= tip <= cap /\ cap < 2 ^ 256
  /\ IsValidInt256 (cap * GetGas d) = true /\ 0 <= default 0 (GetValue d) < 2 ^ 256
  /\ (GetToString d = ""%string \/ IsHexAddress (GetToString d) = true).
Proof.
  assert (forall to rest, validate_to to rest = None -> to = ""%string \/ IsHexAddress to = true) as Hto.
  { intros to rest. unfold validate_to. destruct (String.eqb_spec to ""); [by left|]. destruct (IsHexAddress to); [by right|done]. }
  assert (forall x, negative x = false -> negb (valid256 x) = false -> 0 <= default 0 x < 2 ^ 256) as Hval.
  { intros [x|]; cbn; [|done]. intros Hn Hv. split; [lia|]. apply valid256_range; [by destruct (IsValidInt256 x)|lia]. }
  destruct d as [n p g to x data v r s|c n p g to x data al v r s|c n tip cap g to x data al v r s]; cbn [Validate_tx];
    unfold LegacyTx_Validate, AccessListTx_Validate, DynamicFeeTx_Validate.
  1, 2: destruct p as [p|]; [|done]; cbn [bool_decide negb is_Some negative valid256 Fee fee GetGasFeeCap GetGas]; repeat case_match; try done; intros Hend;
    exists p, p; cbn; (split; [done|]); (split; [done|]); split_and!; try lia; try (by apply Hval); try (by eapply Hto);
    try (by destruct (IsValidInt256 (p * g))); (apply valid256_range; [by destruct (IsValidInt256 p)|lia]).
  destruct tip as [t|], cap as [cap|]; try done. cbn [Fee fee GetGasFeeCap GetGas valid256]. repeat case_match; try done; intros Hend;
    exists cap, t; cbn; (split; [done|]); (split; [done|]); split_and!; try lia; try (by apply Hval); try (by eapply Hto);
    try (by destruct (IsValidInt256 (cap * g))); (apply valid256_range; [by destruct (IsValidInt256 cap)|lia]).
Qed.

(** C33: for a transaction that validates, the fee and the effective fee are
    numbers of 256 bits and the effective fee is not more than the fee; the
    effective price is at most the fee cap, at least the base fee if the cap is,
    and pays the tip up to the cap.  The message and the data agree on it. *)
Theorem fees_agree (d : TxData) (b : Z) : Validate_tx d = None -> 0 <= GetGas d -> 0 <= b ->
  exists cap tip price, GetGasFeeCap d = Some cap /\ GetGasTipCap d = Some tip /\ EffectiveGasPrice_tx d b = Some price
    /\ 0 <= price <= cap /\ (b <= cap -> b <= price /\ price - b <= cap - b) /\ price = Z.min (tip + b) cap
    /\ Fee d = Some (cap * GetGas d) /\ EffectiveFee d b = Some (price * GetGas d)
    /\ 0 <= price * GetGas d <= cap * GetGas d /\ cap * GetGas d < 2 ^ 256
    /\ EffectiveCost d b = Some (price * GetGas d + default 0 (GetValue d)) /\ Cost d = Some (cap * GetGas d + default 0 (GetValue d))
    /\ GetEffectiveGasPrice (AsEthereumData d) (Some b) = price /\ message_GasPrice (AsEthereumData d) (Some b) = price
    /\ GetEffectiveFee (AsEthereumData d) (Some b) = price * GetGas d.
Proof.
  intros Hv Hg Hb. destruct (Validate_tx_spec d Hv) as (cap & tip & Hcap & Htip & Hr & Hc & Hf & Hx & _).
  assert (EffectiveGasPrice_tx d b = Some (Z.min (tip + b) cap)) as Hp.
  { destruct d as [n p g to x data v r s|c n p g to x data al v r s|c n t p g to x data al v r s]; cbn in *; simplify_eq; [|..|done];
      cbn; unfold GetGasPrice; cbn; f_equal; lia. }
  assert (eth_GasTipCap (AsEthereumData d) = tip /\ eth_GasFeeCap (AsEthereumData d) = cap /\ eth_Gas (AsEthereumData d) = GetGas d) as (Et & Ec & Eg).
  { destruct d; cbn in *; by simplify_eq. }
  exists cap, tip, (Z.min (tip + b) cap). unfold EffectiveCost, Cost, EffectiveFee, Fee, GetEffectiveFee, GetEffectiveGasPrice, message_GasPrice.
  rewrite Hp, Hcap, Et, Ec, Eg. cbn [fee cost]. pose proof (valid256_range _ Hf ltac:(nia)).
  split_and!; try done; try lia; try nia; by destruct (GetValue d); cbn; rewrite ?Z.add_0_r.
Qed.
End Theorems.

(** ** A notation that keeps the laws: the sign and the binary digits *)

Fixpoint digits (p : positive) : string :=
  match p with xH => ""%string | xO p => String "0"%char (digits p) | xI p => String "1"%char (digits p) end.
Fixpoint undigits (s : string) : positive :=
  match s with EmptyString => xH | String c s => if Ascii.eqb c "0"%char then xO (undigits s) else xI (undigits s) end.
Definition write_number (x : Z) : string :=
  match x with Z0 => "z"%string | Zpos p => String "+"%char (digits p) | Zneg p => String "-"%char (digits p) end.
Definition read_number (s : string) : Z :=
  match s with String "+"%char s => Zpos (undigits s) | String "-"%char s => Zneg (undigits s) | _ => 0 end.

Lemma undigits_digits p : undigits (digits p) = p.
Proof. induction p as [p IH|p IH|]; cbn; by rewrite ?IH. Qed.
Lemma read_written x : read_number (write_number x) = x.
Proof. destruct x; cbn; by rewrite ?undigits_digits. Qed.

Definition sample_hex : Hex := {| address_Hex := write_number; HexToAddress := read_number; hash_String := write_number; HexToHash := read_number;
  IsHexAddress := fun s => negb (String.eqb s "") |}.

Lemma sample_hex_laws : @HexLaws sample_hex.
Proof. constructor; intros; cbn; try apply read_written; by destruct a || destruct h. Qed.

Definition sample_tx : ethTx := EthDynamicFeeTx 9000 7 2 100 21000 (Some 51) 5 [1; 2] [(51, [3; 4])] 0 123456789 987654321.

Lemma txdata_roundtrip_witness :
  exists d, @NewTxDataFromTx sample_hex sample_tx = Some d /\ @AsEthereumData sample_hex d = sample_tx.
Proof.
  eexists. split; [vm_compute; reflexivity|].
  apply (proj2 (@txdata_roundtrip sample_hex sample_hex_laws sample_tx ltac:(intros v r s [= <- <- <-]; lia))). vm_compute. reflexivity.
Defined.

Definition sample_data : TxData := DynamicFeeTx (Some 9000) 7 (Some 2) (Some 100) 21000 "" (Some 5) [] [] [] [] [].

Lemma fees_agree_witness :
  exists price, @EffectiveGasPrice_tx sample_data 90 = Some price /\ 90 <= price <= 100 /\ @GetEffectiveFee (@AsEthereumData sample_hex sample_data) (Some 90) = price * 21000.
Proof.
  destruct (@fees_agree sample_hex sample_data 90) as (cap & tip & price & Hcap & _ & Hp & Hr & Hb & _ & _ & _ & _ & _ & _ & _ & _ & _ & He);
    [vm_compute; reflexivity|cbn; lia|lia|].
  exists price. split; [exact Hp|]. injection Hcap as <-. split; [|exact He]. destruct Hb as [Hb _]; lia.
Defined.
