(* ===== verification/Apply.v ===== *)
(** * Applying messages

    x/evm/keeper/state_transition.go and gas.go: a message runs on a state
    database over the store of the chain, is charged its gas, and is committed
    or discarded.  The interpreter of go-ethereum is a parameter that works on
    the state database through its methods.  Tracers and the state overrides of
    eth_call are not modelled. *)

From stdpp Require Import gmap sets relations sorting.
From S2P Require Import Prelude FeeMarket StateDB StateDBFacts StateDBJournal StateDBSnap StateDBCommit.
Local Open Scope Z_scope.

(** [params.Rules], as far as they are used *)
Record rules : Type := Rules { IsHomestead : bool; IsIstanbul : bool; IsBerlin : bool; IsLondon : bool; IsShanghai : bool }.

(** [core.Message] *)
Record message : Type := Message {
  m_From : address; m_To : option address; m_Nonce : Z; m_Value : Z; m_GasLimit : Z; m_GasPrice : Z; m_Data : list Z; m_AccessList : list (address * list hash)
}.

(** [EVMConfig]: what the transition reads of it *)
Record evmConfig : Type := EvmConfig { EnableCreate : bool; EnableCall : bool; cfg_Rules : rules; CoinBase : address; TxIndex : Z; LogIndex : Z; cfg_MinGasMultiplier : option Z }.

(** Errors of an execution: those of go-ethereum that are told apart, and the one
    of the hooks *)
Inductive vmError : Type := ErrOutOfGas | ErrExecutionReverted | ErrOtherVm | ErrPostTxProcessing.

Section Apply.
Context {MS Ev L : Type} `{!Keeper MS Ev}.

(** ** The interpreter

    [Create] and [Call] return the bytes, the gas that is left, the error if
    there was one, and the state database; they may panic as its methods do. *)
Class Evm : Type := {
  IntrinsicGas : list Z -> list (address * list hash) -> bool -> rules -> option Z;
  ActivePrecompiles : rules -> list address;
  evm_Create : evmConfig -> message -> Z -> StateDB MS Ev L -> option (list Z * Z * option vmError * StateDB MS Ev L);
  evm_Call : evmConfig -> message -> Z -> StateDB MS Ev L -> option (list Z * Z * option vmError * StateDB MS Ev L)
}.

Class EvmLaws `{!Evm} : Prop := {
  create_ops cfg msg gas s ret rest err s' : evm_Create cfg msg gas s = Some (ret, rest, err, s') ->
    0 <= rest <= gas /\ exists xs, Forall op_ok xs /\ exec xs s = Some s';
  call_ops cfg msg gas s ret rest err s' : evm_Call cfg msg gas s = Some (ret, rest, err, s') ->
    0 <= rest <= gas /\ exists xs, Forall op_ok xs /\ exec xs s = Some s';
  intrinsic_nonneg data al creation r g : IntrinsicGas data al creation r = Some g -> 0 <= g
}.

(** ** Gas *)

Definition uint64 (x : Z) : Z := x mod 2 ^ 64.
Definition int64 (x : Z) : Z := let y := x mod 2 ^ 64 in if y <? 2 ^ 63 then y else y - 2 ^ 64.

(** [GasToRefund] *)
Definition GasToRefund (availableRefund gasConsumed refundQuotient : Z) : Z :=
  let refund := gasConsumed / refundQuotient in
  if refund >? availableRefund then availableRefund else refund.

(** [params.RefundQuotient] and [RefundQuotientEIP3529] *)
Definition quotient_of (r : rules) : Z := if IsLondon r then 5 else 2.

Definition MaxInitCodeSize : Z := 2 * 24576.

(** ** [ApplyMessageWithConfig] *)

Inductive applyError : Type := ErrCreateDisabled | ErrCallDisabled | ErrGasUintOverflow | ErrIntrinsicGas | ErrMaxInitCodeSizeExceeded | ErrGasOverflow | ErrCommit.

Record response : Type := Response { GasUsed : Z; VmError : option vmError; Ret : list Z; Logs : list (log L) }.

(** [Failed] *)
Definition Failed (r : response) : bool := match VmError r with Some _ => true | None => false end.

(** The response, the store and the events; or an error, with the store as it is
    left; or a panic *)
Inductive applied : Type := Applied (r : response) (ms : MS) (events : list Ev) | ApplyError (e : applyError) (ms : MS) | ApplyPanic.

Context `{!Evm}.

(** The run of the interpreter, with the nonces of a creation *)
Definition execute (cfg : evmConfig) (msg : message) (gas : Z) (s : StateDB MS Ev L) : option (list Z * Z * option vmError * StateDB MS Ev L) :=
  if negb ((0 <=? m_Value msg) && (m_Value msg <? 2 ^ 256)) then None
  else match m_To msg with
  | None =>
      match evm_Create cfg msg gas (SetNonce (m_From msg) (m_Nonce msg) s) with
      | None => None
      | Some (ret, rest, err, s) => Some (ret, rest, err, SetNonce (m_From msg) (uint64 (m_Nonce msg + 1)) s)
      end
  | Some _ => evm_Call cfg msg gas s
  end.

(** [sdkmath.Int.Uint64], which panics out of range *)
Definition gas_used (msg : message) (mult temporaryGasUsed : Z) : option Z :=
  let minimumGasUsed := int64 (m_GasLimit msg) * mult in
  let x := truncateInt (Z.max minimumGasUsed (newDec (int64 temporaryGasUsed))) in
  if (0 <=? x) && (x <? 2 ^ 64) then Some x else None.

Definition ApplyMessageWithConfig (cfg : evmConfig) (msg : message) (commit : bool) (ms : MS) : applied :=
  let contractCreation := bool_decide (m_To msg = None) in
  if negb (EnableCreate cfg) && contractCreation then ApplyError ErrCreateDisabled ms
  else if negb (EnableCall cfg) && negb contractCreation then ApplyError ErrCallDisabled ms
  else
    let s := New ms (TxIndex cfg) (LogIndex cfg) in
    let leftoverGas := m_GasLimit msg in
    let r := cfg_Rules cfg in
    match IntrinsicGas (m_Data msg) (m_AccessList msg) contractCreation r with
    | None => ApplyError ErrGasUintOverflow ms
    | Some intrinsicGas =>
        if leftoverGas <? intrinsicGas then ApplyError ErrIntrinsicGas ms
        else
          let leftoverGas := leftoverGas - intrinsicGas in
          if IsShanghai r && contractCreation && (Z.of_nat (length (m_Data msg)) >? MaxInitCodeSize) then ApplyError ErrMaxInitCodeSizeExceeded ms
          else
            let s := Prepare (IsBerlin r) (IsShanghai r) (m_From msg) (CoinBase cfg) (m_To msg) (ActivePrecompiles r) (m_AccessList msg) s in
            match execute cfg msg leftoverGas s with
            | None => ApplyPanic
            | Some (ret, leftoverGas, vmErr, s) =>
                if m_GasLimit msg <? leftoverGas then ApplyError ErrGasOverflow ms
                else
                  let temporaryGasUsed := m_GasLimit msg - leftoverGas in
                  let leftoverGas := uint64 (leftoverGas + GasToRefund (refund (core s)) temporaryGasUsed (quotient_of r)) in
                  let finish ms events :=
                    if m_GasLimit msg <? leftoverGas then ApplyError ErrGasOverflow ms
                    else match gas_used msg (default 0 (cfg_MinGasMultiplier cfg)) temporaryGasUsed with
                         | None => ApplyPanic
                         | Some gasUsed => Applied (Response gasUsed vmErr ret (logs (core s))) ms events
                         end in
                  if commit then
                    match Commit s with
                    | CommitPanic => ApplyPanic
                    | CommitAborted => ApplyError ErrCommit ms
                    | CommitError ms _ => ApplyError ErrCommit ms
                    | Committed ms events => finish ms events
                    end
                  else finish ms []
            end
    end.

(** ** [ApplyTransaction]

    The context of a Cosmos transaction: the store, and of the object store the
    bloom of this message and the gas used so far by the messages of the
    transaction; the gas meter is shared by the contexts made from it. *)
Record txContext : Type := TxContext { ctx_store : MS; ctx_bloom : option Z; gasUsedKey : option Z; meter_consumed : Z }.

Definition with_store (ms : MS) (ctx : txContext) : txContext := TxContext ms (ctx_bloom ctx) (gasUsedKey ctx) (meter_consumed ctx).

(** The bank, the bloom of go-ethereum and the hooks of other modules *)
Class Chain : Type := {
  LogsBloom : list (log L) -> Z;
  SendCoinsFromModuleToAccountVirtual : address -> Z -> MS -> option MS;
  hooks : option (message -> response -> MS -> option (MS * list (log L)))
}.
Context `{!Chain}.

(** [RefundGas] *)
Definition RefundGas (msg : message) (leftoverGas : Z) (ctx : txContext) : option txContext :=
  let remaining := leftoverGas * m_GasPrice msg in
  if remaining <? 0 then None
  else if 0 <? remaining then
    match SendCoinsFromModuleToAccountVirtual (m_From msg) remaining (ctx_store ctx) with None => None | Some ms => Some (with_store ms ctx) end
  else Some ctx.

(** [GetTransientGasUsed] and [AddTransientGasUsed] *)
Definition GetTransientGasUsed (ctx : txContext) : Z := default 0 (gasUsedKey ctx).
Definition AddTransientGasUsed (gasUsed : Z) (ctx : txContext) : option (Z * txContext) :=
  let result := uint64 (GetTransientGasUsed ctx + gasUsed) in
  if result <? gasUsed then None
  else Some (result, TxContext (ctx_store ctx) (ctx_bloom ctx) (Some result) (meter_consumed ctx)).

(** The meter of types/gasmeter.go; [None] is a panic *)
Definition meter_RefundGas (amount consumed : Z) : option Z := if consumed <? amount then None else Some (consumed - amount).
Definition meter_ConsumeGas (amount consumed : Z) : option Z := if 2 ^ 64 - 1 - consumed <? amount then None else Some (consumed + amount).
Definition ResetGasMeterAndConsumeGas (gasUsed : Z) (ctx : txContext) : option txContext :=
  match meter_RefundGas (meter_consumed ctx) (meter_consumed ctx) with
  | None => None
  | Some consumed =>
      match meter_ConsumeGas gasUsed consumed with
      | None => None
      | Some consumed => Some (TxContext (ctx_store ctx) (ctx_bloom ctx) (gasUsedKey ctx) consumed)
      end
  end.

(** [SetTxBloom] *)
Definition SetTxBloom (bloom : Z) (ctx : txContext) : txContext := TxContext (ctx_store ctx) (Some bloom) (gasUsedKey ctx) (meter_consumed ctx).

(** The hooks and the commit of the cached context: the context that goes on and
    the response *)
Definition post_process (msg : message) (res : response) (tmp ctx : txContext) : txContext * response :=
  match hooks with
  | None => (tmp, res)
  | Some h =>
      if Failed res then (ctx, res)
      else match h msg res (ctx_store tmp) with
           | None => (ctx, Response (GasUsed res) (Some ErrPostTxProcessing) (Ret res) [])
           | Some (ms, logs) => (with_store ms tmp, Response (GasUsed res) (VmError res) (Ret res) logs)
           end
  end.

Inductive txResult : Type := TxOk (res : response) (ctx : txContext) | TxError | TxPanic.

Definition ApplyTransaction (cfg : evmConfig) (msg : message) (ctx : txContext) : txResult :=
  match ApplyMessageWithConfig cfg msg true (ctx_store ctx) with
  | ApplyPanic => TxPanic
  | ApplyError _ _ => TxError
  | Applied res ms _ =>
      let tmp := with_store ms ctx in
      let tmp := match Logs res with [] => tmp | logs => SetTxBloom (LogsBloom logs) tmp end in
      let '(ctx, res) := post_process msg res tmp ctx in
      match RefundGas msg (uint64 (m_GasLimit msg - GasUsed res)) ctx with
      | None => TxError
      | Some ctx =>
          match AddTransientGasUsed (GasUsed res) ctx with
          | None => TxError
          | Some (totalGasUsed, ctx) =>
              match ResetGasMeterAndConsumeGas totalGasUsed ctx with None => TxPanic | Some ctx => TxOk res ctx end
          end
      end
  end.
End Apply.
Arguments Evm : clear implicits.
Arguments EvmLaws MS Ev L {_ _}.
Arguments response : clear implicits.
Arguments applied : clear implicits.
Arguments txContext : clear implicits.
Arguments Chain : clear implicits.
Arguments txResult : clear implicits.
