(* ===== verification/ApplyFacts.v ===== *)
(** * Applying messages: what is committed and what is charged *)

From stdpp Require Import gmap sets relations sorting.
From S2P Require Import Prelude FeeMarket StateDB StateDBFacts StateDBJournal StateDBSnap StateDBCommit Apply.
Local Open Scope Z_scope.

Lemma int64_small x : 0 <= x < 2 ^ 63 -> int64 x = x.
Proof. intros H. unfold int64. rewrite Z.mod_small by lia. destruct (Z.ltb_spec x (2 ^ 63)); lia. Qed.

Lemma uint64_small x : 0 <= x < 2 ^ 64 -> uint64 x = x.
Proof. apply Z.mod_small. Qed.

Lemma quotient_ge r : 2 <= quotient_of r.
Proof. unfold quotient_of. destruct (IsLondon r); lia. Qed.

Lemma GasToRefund_range available used q : 0 <= available -> 0 <= used -> 2 <= q -> 0 <= GasToRefund available used q <= used.
Proof.
  intros Ha Hu Hq. assert (0 <= used / q <= used) by (split; [apply Z.div_pos; lia|apply Z.div_le_upper_bound; nia]).
  unfold GasToRefund. destruct (Z.gtb_spec (used / q) available); lia.
Qed.

(** The charge: what was used, and no less than the share of the limit *)
Definition charge (mult limit used : Z) : Z := Z.max (limit * mult / oneDec) used.

Lemma charge_range mult limit used : 0 <= mult <= oneDec -> 0 <= used <= limit -> used <= charge mult limit used <= limit.
Proof.
  intros Hm Hu. unfold charge. assert (limit * mult / oneDec <= limit); [|lia].
  apply Z.div_le_upper_bound; [done|]. nia.
Qed.

Lemma gas_used_charge msg mult used : 0 <= mult <= oneDec -> 0 <= used <= m_GasLimit msg -> m_GasLimit msg < 2 ^ 63 ->
  gas_used msg mult used = Some (charge mult (m_GasLimit msg) used).
Proof.
  intros Hm Hu Hl. unfold gas_used. rewrite !int64_small by lia. pose proof (charge_range _ _ _ Hm Hu).
  assert (truncateInt (Z.max (m_GasLimit msg * mult) (newDec used)) = charge mult (m_GasLimit msg) used) as ->.
  { unfold truncateInt, charge, newDec. rewrite Z.quot_div_nonneg by (done || nia).
    destruct (Z.max_spec (m_GasLimit msg * mult) (used * oneDec)) as [[H1 ->]|[H1 ->]].
    - rewrite Z.div_mul by done. rewrite Z.max_r; [done|]. apply Z.div_le_upper_bound; [done|lia].
    - rewrite Z.max_l; [done|]. apply Z.div_le_lower_bound; [done|lia]. }
  destruct (Z.leb_spec 0 (charge mult (m_GasLimit msg) used)), (Z.ltb_spec (charge mult (m_GasLimit msg) used) (2 ^ 64)); (done || lia).
Qed.

Section Facts.
Context {MS Ev L : Type} `{!Keeper MS Ev, !KeeperLaws MS Ev, !KeeperWrites MS Ev, !Evm MS Ev L, !EvmLaws MS Ev L}.
Implicit Types (s : StateDB MS Ev L) (msg : message) (cfg : evmConfig) (ms : MS).

Lemma SetNonce_inv a n s : inv s -> inv (SetNonce a n s).
Proof. intros Hi. by apply (run_keeps (fun _ => False) (op_SetNonce a n) s). Qed.

Lemma SetNonce_nonce a n s : fst (GetNonce a (SetNonce a n s)) = n.
Proof.
  rewrite GetNonce_view. unfold SetNonce. destruct (getOrNewStateObject a s) as [o s']. cbn [with_core core].
  erewrite obj_of_present; [|cbn; by rewrite lookup_insert_eq]. done.
Qed.

Lemma SetNonce_dirty a n s : is_Some (dirties (SetNonce a n s) !! a).
Proof. unfold SetNonce. destruct (getOrNewStateObject a s) as [o s']. cbn. unfold dirty_add. rewrite lookup_insert_eq. by eexists. Qed.

Lemma execute_spec cfg msg gas s ret rest err s' : inv s -> execute cfg msg gas s = Some (ret, rest, err, s') ->
  inv s' /\ 0 <= rest <= gas
  /\ (m_To msg = None -> fst (GetNonce (m_From msg) s') = uint64 (m_Nonce msg + 1) /\ is_Some (dirties s' !! m_From msg)).
Proof.
  intros Hi. unfold execute. destruct (negb _); [done|]. destruct (m_To msg) as [to|].
  - intros He. destruct (call_ops _ _ _ _ _ _ _ _ He) as [Hg (xs & Hok & Hx)]. split; [by eapply exec_keeps|done].
  - destruct (evm_Create _ _ _ _) as [[[[ret1 rest1] err1] s1]|] eqn:He; [|done]. intros [= <- <- <- <-].
    destruct (create_ops _ _ _ _ _ _ _ _ He) as [Hg (xs & Hok & Hx)]. split; [|split; [done|]].
    + apply SetNonce_inv. eapply exec_keeps; [exact Hok| |exact Hx]. by apply SetNonce_inv.
    + intros _. split; [apply SetNonce_nonce|apply SetNonce_dirty].
Qed.

(** What lets a message run: the kind of message is enabled, and the gas covers
    the intrinsic gas. *)
Definition creation msg : bool := bool_decide (m_To msg = None).
Definition runnable cfg msg (ig : Z) : bool :=
  (if creation msg then EnableCreate cfg else EnableCall cfg)
  && bool_decide (IntrinsicGas (m_Data msg) (m_AccessList msg) (creation msg) (cfg_Rules cfg) = Some ig)
  && (ig <=? m_GasLimit msg)
  && negb (IsShanghai (cfg_Rules cfg) && creation msg && (Z.of_nat (length (m_Data msg)) >? MaxInitCodeSize)).

Definition prepared cfg msg ms : StateDB MS Ev L :=
  Prepare (IsBerlin (cfg_Rules cfg)) (IsShanghai (cfg_Rules cfg)) (m_From msg) (CoinBase cfg) (m_To msg)
    (ActivePrecompiles (cfg_Rules cfg)) (m_AccessList msg) (New ms (TxIndex cfg) (LogIndex cfg)).

Definition multiplier cfg : Z := default 0 (cfg_MinGasMultiplier cfg).

(** A message that is runnable ends with what the interpreter did. *)
Lemma ApplyMessage_ran cfg msg commit ms ig ret rest err s :
  runnable cfg msg ig = true -> 0 <= ig -> m_GasLimit msg < 2 ^ 63 -> 0 <= multiplier cfg <= oneDec ->
  execute cfg msg (m_GasLimit msg - ig) (prepared cfg msg ms) = Some (ret, rest, err, s) -> 0 <= rest <= m_GasLimit msg - ig -> 0 <= refund (core s) ->
  ApplyMessageWithConfig cfg msg commit ms =
    let res := Response (charge (multiplier cfg) (m_GasLimit msg) (m_GasLimit msg - rest)) err ret (logs (core s)) in
    if commit then match Commit s with
                   | CommitPanic => ApplyPanic | CommitAborted => ApplyError ErrCommit ms | CommitError ms _ => ApplyError ErrCommit ms
                   | Committed ms events => Applied res ms events
                   end
    else Applied res ms [].
Proof.
  intros Ha Hig Hl Hm He Hr Hf. unfold runnable in Ha. rewrite !andb_true_iff in Ha. destruct Ha as [[[Hen Hi] Hle] Hsz].
  apply bool_decide_eq_true in Hi. apply Z.leb_le in Hle. unfold ApplyMessageWithConfig. fold (creation msg).
  assert (negb (EnableCreate cfg) && creation msg = false /\ negb (EnableCall cfg) && negb (creation msg) = false) as [-> ->]
    by (destruct (creation msg), (EnableCreate cfg), (EnableCall cfg); done).
  rewrite Hi. destruct (Z.ltb_spec (m_GasLimit msg) ig); [lia|]. apply negb_true_iff in Hsz. rewrite Hsz.
  fold (prepared cfg msg ms). rewrite He. destruct (Z.ltb_spec (m_GasLimit msg) rest); [lia|].
  pose proof (GasToRefund_range (refund (core s)) (m_GasLimit msg - rest) (quotient_of (cfg_Rules cfg)) Hf ltac:(lia) (quotient_ge _)).
  rewrite uint64_small by lia. fold (multiplier cfg). rewrite gas_used_charge by lia.
  destruct (Z.ltb_spec (m_GasLimit msg) (rest + GasToRefund (refund (core s)) (m_GasLimit msg - rest) (quotient_of (cfg_Rules cfg)))); [lia|]. done.
Qed.

(** The gas of a message that was applied is within its limit. *)
Lemma execute_rest cfg msg gas s ret rest err s' : execute cfg msg gas s = Some (ret, rest, err, s') -> 0 <= rest <= gas.
Proof.
  unfold execute. destruct (negb _); [done|]. destruct (m_To msg); [by intros [? _]%call_ops|].
  destruct (evm_Create _ _ _ _) as [[[[ret1 rest1] err1] s1]|] eqn:He; [|done]. intros [= <- <- <- <-]. by apply create_ops in He as [? _].
Qed.

Lemma applied_gas cfg msg commit ms r ms' evs : m_GasLimit msg < 2 ^ 63 -> 0 <= multiplier cfg <= oneDec ->
  ApplyMessageWithConfig cfg msg commit ms = Applied r ms' evs -> 0 <= GasUsed r <= m_GasLimit msg.
Proof.
  intros Hl Hm. unfold ApplyMessageWithConfig. repeat (case_match; try done); fold (multiplier cfg) in *; intros [= <- _ _]; cbn [GasUsed];
  match goal with He : execute _ _ _ _ = Some _, Hi : IntrinsicGas _ _ _ _ = Some _ |- _ => apply execute_rest in He; apply intrinsic_nonneg in Hi end;
  match goal with Hg : gas_used _ _ ?u = Some _ |- _ => rewrite gas_used_charge in Hg by lia; pose proof (charge_range (multiplier cfg) (m_GasLimit msg) u Hm ltac:(lia)) end;
  simplify_eq; lia.
Qed.


(** ** Transactions *)

Context `{!Chain MS L}.

(** What the bank promises of the virtual fee collector: it pays what it has
    collected. *)
Class CollectorLaws (collected : MS -> Z) : Prop := {
  pays a x ms : 0 < x <= collected ms -> exists ms', SendCoinsFromModuleToAccountVirtual a x ms = Some ms'
    /\ collected ms' = collected ms - x /\ k_GetBalance ms' a = k_GetBalance ms a + x
}.

Context (collected : MS -> Z) `{!CollectorLaws collected}.

(** What is paid back leaves the store [ms'] of [ms]: one payment, if it is
    positive. *)
Definition paid_back (a : address) (x : Z) (ms ms' : MS) : Prop :=
  if 0 <? x then SendCoinsFromModuleToAccountVirtual a x ms = Some ms' else ms' = ms.

Lemma RefundGas_spec msg n (ctx : txContext MS) : 0 <= n -> 0 <= m_GasPrice msg -> n * m_GasPrice msg <= collected (ctx_store ctx) ->
  exists ms, RefundGas msg n ctx = Some (with_store ms ctx) /\ paid_back (m_From msg) (n * m_GasPrice msg) (ctx_store ctx) ms
    /\ collected ms = collected (ctx_store ctx) - n * m_GasPrice msg
    /\ k_GetBalance ms (m_From msg) = k_GetBalance (ctx_store ctx) (m_From msg) + n * m_GasPrice msg.
Proof.
  intros Hn Hp Hc. unfold RefundGas, paid_back. destruct (Z.ltb_spec (n * m_GasPrice msg) 0); [nia|]. destruct (Z.ltb_spec 0 (n * m_GasPrice msg)).
  - destruct (pays (m_From msg) (n * m_GasPrice msg) (ctx_store ctx)) as (ms & -> & H1 & H2); [lia|]. by exists ms.
  - exists (ctx_store ctx). split; [by destruct ctx|]. split; [done|lia].
Qed.

Lemma meter_reset n (ctx : txContext MS) : 0 <= n < 2 ^ 64 ->
  ResetGasMeterAndConsumeGas n ctx = Some (TxContext (ctx_store ctx) (ctx_bloom ctx) (gasUsedKey ctx) n).
Proof.
  intros Hn. unfold ResetGasMeterAndConsumeGas, meter_RefundGas, meter_ConsumeGas. rewrite Z.ltb_irrefl, Z.sub_diag.
  destruct (Z.ltb_spec (2 ^ 64 - 1 - 0) n); [lia|done].
Qed.

(** The store that a transaction keeps, before the refund *)
Definition kept msg (r : response L) ms (ctx : txContext MS) : MS :=
  match hooks with
  | None => ms
  | Some h => if Failed r then ctx_store ctx else match h msg r ms with None => ctx_store ctx | Some (ms', _) => ms' end
  end.

(** The bloom of the logs, if there are any *)
Definition bloom_of (r : response L) (ctx : txContext MS) : option Z := match Logs r with [] => ctx_bloom ctx | l => Some (LogsBloom l) end.

(** What becomes of the response: kept without hooks and after a failure, failed
    by a hook that fails, with the logs of the hooks otherwise *)
Definition outcome msg (r : response L) ms (ctx : txContext MS) (res : response L) (bloom : option Z) : Prop :=
  match hooks with
  | None => res = r /\ bloom = bloom_of r ctx
  | Some h =>
      if Failed r then res = r /\ bloom = ctx_bloom ctx
      else match h msg r ms with
           | None => res = Response (GasUsed r) (Some ErrPostTxProcessing) (Ret r) [] /\ bloom = ctx_bloom ctx
           | Some (_, logs) => res = Response (GasUsed r) None (Ret r) logs /\ bloom = bloom_of r ctx
           end
  end.

Lemma post_process_spec msg r ms (tmp ctx : txContext MS) : ctx_store tmp = ms -> ctx_bloom tmp = bloom_of r ctx -> gasUsedKey tmp = gasUsedKey ctx ->
  exists ctx' res, post_process msg r tmp ctx = (ctx', res) /\ ctx_store ctx' = kept msg r ms ctx /\ gasUsedKey ctx' = gasUsedKey ctx
    /\ GasUsed res = GasUsed r /\ outcome msg r ms ctx res (ctx_bloom ctx').
Proof.
  intros Hms Hb Hg. unfold post_process, kept, outcome. rewrite Hms. destruct hooks as [h|]; [|by exists tmp, r].
  destruct (Failed r) eqn:Hv; [by exists ctx, r|]. destruct (h msg r ms) as [[ms' logs]|] eqn:Hh; [|by do 2 eexists].
  exists (with_store ms' tmp). unfold Failed in Hv. destruct (VmError r); [done|]. by eexists.
Qed.

Lemma ApplyTransaction_spec cfg msg (ctx : txContext MS) r ms evs :
  ApplyMessageWithConfig cfg msg true (ctx_store ctx) = Applied r ms evs ->
  m_GasLimit msg < 2 ^ 63 -> 0 <= multiplier cfg <= oneDec -> 0 <= m_GasPrice msg ->
  0 <= GetTransientGasUsed ctx -> GetTransientGasUsed ctx + GasUsed r < 2 ^ 64 ->
  (m_GasLimit msg - GasUsed r) * m_GasPrice msg <= collected (kept msg r ms ctx) ->
  exists res ctx', let unused := (m_GasLimit msg - GasUsed r) * m_GasPrice msg in
    ApplyTransaction cfg msg ctx = TxOk res ctx' /\ GasUsed res = GasUsed r /\ outcome msg r ms ctx res (ctx_bloom ctx')
    /\ paid_back (m_From msg) unused (kept msg r ms ctx) (ctx_store ctx')
    /\ 0 <= unused /\ collected (ctx_store ctx') = collected (kept msg r ms ctx) - unused
    /\ k_GetBalance (ctx_store ctx') (m_From msg) = k_GetBalance (kept msg r ms ctx) (m_From msg) + unused
    /\ gasUsedKey ctx' = Some (GetTransientGasUsed ctx + GasUsed r) /\ meter_consumed ctx' = GetTransientGasUsed ctx + GasUsed r.
Proof.
  intros Ha Hl Hmul Hp Ht Hs Hc. pose proof (applied_gas _ _ _ _ _ _ _ Hl Hmul Ha) as Hu. unfold ApplyTransaction. rewrite Ha.
  set (tmp := match Logs r with [] => _ | _ => _ end).
  assert (ctx_store tmp = ms /\ ctx_bloom tmp = bloom_of r ctx /\ gasUsedKey tmp = gasUsedKey ctx) as (Hm & Hb & Hk) by (unfold tmp, bloom_of; by destruct (Logs r)).
  destruct (post_process_spec msg r ms tmp ctx Hm Hb Hk) as (ctx1 & res & -> & Hst & Hg1 & HU & Ho). rewrite HU, uint64_small by lia.
  destruct (RefundGas_spec msg (m_GasLimit msg - GasUsed r) ctx1) as (ms2 & -> & Hpb & Hcol & Hbal); [lia|done|by rewrite Hst|]. rewrite Hst in Hpb, Hcol, Hbal.
  assert (GetTransientGasUsed (with_store ms2 ctx1) = GetTransientGasUsed ctx) as HT by (unfold GetTransientGasUsed; cbn; by rewrite Hg1).
  unfold AddTransientGasUsed. rewrite HT, uint64_small by lia. destruct (Z.ltb_spec (GetTransientGasUsed ctx + GasUsed r) (GasUsed r)); [lia|].
  rewrite meter_reset by lia. do 2 eexists. cbn. do 4 (split; [done|]). split; [nia|]. done.
Qed.

End Facts.
