(* ===== verification/Ante.v ===== *)
(** * Admission of Ethereum transactions

    The checks of app/ante/eth.go that run before a transaction of Ethereum
    messages: the sender and its balance, the gas and the fees, the transfer and
    the nonces, with [VerifyFee], [CheckSenderBalance] and [DeductFees] of
    x/evm/keeper/utils.go.  The intrinsic gas of go-ethereum and the virtual
    collector of the bank are parameters; events are not modelled. *)

From stdpp Require Import gmap sets strings list.
From S2P Require Import Prelude FeeMarket StateDB StateDBFacts EvmKeeper TxData Apply.
Local Open Scope Z_scope.

(** [MsgEthereumTx], with its sender as bytes, [None] for none, and the
    transaction of [AsTransaction]; a Cosmos transaction may have other messages. *)
Record ethMsg : Type := EthMsg { from : option address; ethtx : ethTx }.
Inductive sdkMsg : Type := MsgEthereumTx (m : ethMsg) | OtherMsg.

(** [common.BytesToAddress] of the sender *)
Definition from_address (m : ethMsg) : address := default 0 (from m).

(** [AsMessage] *)
Definition AsMessage (m : ethMsg) (baseFee : option Z) : message :=
  let t := ethtx m in
  Message (from_address m) (eth_To t) (eth_Nonce t) (eth_Value t) (eth_Gas t) (message_GasPrice t baseFee) (eth_Data t) (eth_AccessList t).

(** The mode and the height of the context, and the maximal gas of a block in the
    consensus parameters *)
Record anteContext : Type := AnteContext { IsCheckTx : bool; IsReCheckTx : bool; BlockHeight : Z; MaxGas : option Z }.

Inductive anteError : Type :=
| ErrUnknownRequest | ErrEmptyFrom | ErrSenderNotEOA | ErrNegativeCost | ErrInsufficientBalance
| ErrIntrinsicGasFailed | ErrGasLimitTooLow | ErrFeeCapTooLow | ErrUnknownSender | ErrInvalidFees | ErrInsufficientFunds | ErrBlockGasLimit
| ErrNoBaseFee | ErrCannotTransfer | ErrUnknownAddress | ErrInvalidSequence.

Inductive outcome (A : Type) : Type := Accept (x : A) | Reject (e : anteError) | Panic.
Arguments Accept {A} x.
Arguments Reject {A} e.
Arguments Panic {A}.

(** [BlockGasLimit] of types/block.go *)
Definition BlockGasLimit (ctx : anteContext) : Z :=
  match MaxGas ctx with None => 0 | Some maxGas => if maxGas >? 0 then uint64 maxGas else 0 end.

(** The account of fees of the bank *)
Class FeeBank (N : Type) : Type := { SendCoinsFromAccountToModuleVirtual : address -> Z -> N -> option N }.

Section Ante.
Context {N Ev : Type} `{!Native N Ev, !FeeBank N}.
Context (intrinsic : list Z -> list (address * list hash) -> bool -> rules -> option Z) (reduction : Z).
Implicit Types ms : multiStore N.

(** The loop over the messages of a transaction *)
Fixpoint for_msgs {A} (f : ethMsg -> A -> outcome A) (l : list sdkMsg) (x : A) : outcome A :=
  match l with
  | [] => Accept x
  | OtherMsg :: _ => Reject ErrUnknownRequest
  | MsgEthereumTx m :: l => match f m x with Accept x => for_msgs f l x | Reject e => Reject e | Panic => Panic end
  end.

(** [CheckSenderBalance] *)
Definition CheckSenderBalance (balance : Z) (t : ethTx) : outcome unit :=
  if eth_Cost t <? 0 then Reject ErrNegativeCost
  else if (balance <? 0) || (balance <? eth_Cost t) then Reject ErrInsufficientBalance
  else Accept tt.

(** [VerifyEthAccount] *)
Definition verify_account (m : ethMsg) ms : outcome (multiStore N) :=
  match from m with
  | None => Reject ErrEmptyFrom
  | Some a =>
      let check ms := match CheckSenderBalance (keeper_GetBalance ms a) (ethtx m) with Accept _ => Accept ms | Reject e => Reject e | Panic => Panic end in
      match keeper_GetAccount ms a with
      | None => check (with_native (auth_SetAccount a ProtoAccount (auth_NextNumber (native_state ms))) ms)
      | Some acct => if negb (CodeHash acct =? emptyCodeHash) then Reject ErrSenderNotEOA else check ms
      end
  end.
Definition VerifyEthAccount (ctx : anteContext) (l : list sdkMsg) ms : outcome (multiStore N) :=
  if negb (IsCheckTx ctx) then Accept ms else for_msgs verify_account l ms.

(** [VerifyFee]: the amount of the only coin, 0 for none *)
Definition VerifyFee (t : ethTx) (baseFee : option Z) (r : rules) (isCheckTx : bool) : outcome Z :=
  match intrinsic (eth_Data t) (eth_AccessList t) (bool_decide (eth_To t = None)) r with
  | None => Reject ErrIntrinsicGasFailed
  | Some intrinsicGas =>
      if isCheckTx && (eth_Gas t <? intrinsicGas) then Reject ErrGasLimitTooLow
      else if match baseFee with Some b => eth_GasFeeCap t <? b | None => false end then Reject ErrFeeCapTooLow
      else let feeAmt := GetEffectiveFee t baseFee in
           if feeAmt =? 0 then Accept 0 else if IsValidInt256 feeAmt then Accept feeAmt else Panic
  end.

(** [DeductFees] and [DeductTxCostsFromUserBalance] *)
Definition DeductFees (ctx : anteContext) (a : address) (fees : Z) ms : outcome (multiStore N) :=
  if fees <? 0 then Reject ErrInvalidFees
  else if BlockHeight ctx >? 0 then
    match SendCoinsFromAccountToModuleVirtual a fees (native_state ms) with None => Reject ErrInsufficientFunds | Some n => Accept (with_native n ms) end
  else Accept ms.
Definition DeductTxCostsFromUserBalance (ctx : anteContext) (fees : Z) (a : address) ms : outcome (multiStore N) :=
  match auth_GetAccount (native_state ms) a with None => Reject ErrUnknownSender | Some _ => DeductFees ctx a fees ms end.

(** [CheckEthGasConsume]: the gas wanted, which is the limit of the new gas meter,
    the priority, and the store *)
Definition consume_gas (ctx : anteContext) (r : rules) (baseFee : option Z) (maxGasWanted : Z) (m : ethMsg) (x : Z * Z * multiStore N) : outcome (Z * Z * multiStore N) :=
  let '(gasWanted, minPriority, ms) := x in
  let t := ethtx m in
  let minPriority := Z.min (GetTxPriority reduction t baseFee) minPriority in
  let gasLimit := eth_Gas t in
  let gasWanted := uint64 (gasWanted + (if IsCheckTx ctx && negb (maxGasWanted =? 0) then if gasLimit >? maxGasWanted then maxGasWanted else gasLimit else gasLimit)) in
  if IsReCheckTx ctx then Accept (gasWanted, minPriority, ms)
  else match VerifyFee t baseFee r (IsCheckTx ctx) with
       | Accept fees =>
           match DeductTxCostsFromUserBalance ctx fees (from_address m) ms with
           | Accept ms => Accept (gasWanted, minPriority, ms)
           | Reject e => Reject e
           | Panic => Panic
           end
       | Reject e => Reject e
       | Panic => Panic
       end.
Definition CheckEthGasConsume (ctx : anteContext) (l : list sdkMsg) (r : rules) (baseFee : option Z) (maxGasWanted : Z) ms : outcome (Z * Z * multiStore N) :=
  match for_msgs (consume_gas ctx r baseFee maxGasWanted) l (0, maxInt64, ms) with
  | Accept (gasWanted, minPriority, ms) =>
      if gasWanted >? BlockGasLimit ctx then Reject ErrBlockGasLimit else Accept (gasWanted, minPriority, ms)
  | x => x
  end.

(** [CheckEthCanTransfer] *)
Definition can_transfer (r : rules) (baseFee : option Z) (m : ethMsg) ms : outcome (multiStore N) :=
  let t := ethtx m in
  let check := if (eth_Value t >? 0) && negb (keeper_GetBalance ms (from_address m) >=? eth_Value t) then Reject ErrCannotTransfer else Accept ms in
  if IsLondon r then match baseFee with None => Reject ErrNoBaseFee | Some b => if eth_GasFeeCap t <? b then Reject ErrFeeCapTooLow else check end
  else check.
Definition CheckEthCanTransfer (l : list sdkMsg) (baseFee : option Z) (r : rules) ms : outcome (multiStore N) := for_msgs (can_transfer r baseFee) l ms.

(** [CheckEthSenderNonce]; the account of no sender is the one of no bytes, which
    does not exist *)
Definition sender_nonce (m : ethMsg) ms : outcome (multiStore N) :=
  match from m with
  | None => Reject ErrUnknownAddress
  | Some a =>
      match auth_GetAccount (native_state ms) a with
      | None => Reject ErrUnknownAddress
      | Some acc =>
          let nonce := GetSequence acc in
          if negb (eth_Nonce (ethtx m) =? nonce) then Reject ErrInvalidSequence
          else Accept (with_native (auth_SetAccount a (SetSequence (uint64 (nonce + 1)) acc) (native_state ms)) ms)
      end
  end.
Definition CheckEthSenderNonce (l : list sdkMsg) ms : outcome (multiStore N) := for_msgs sender_nonce l ms.
End Ante.
