(* ===== verification/AnteFacts.v ===== *)
(** * Admission of Ethereum transactions: fees and nonces *)

From stdpp Require Import gmap sets strings list.
From S2P Require Import Prelude FeeMarket StateDB StateDBFacts EvmKeeper TxData Apply ApplyFacts Ante.
Local Open Scope Z_scope.

(** The sum over the Ethereum messages of a transaction *)
Fixpoint total (f : ethMsg -> Z) (l : list sdkMsg) : Z :=
  match l with [] => 0 | MsgEthereumTx m :: l => f m + total f l | OtherMsg :: l => total f l end.

Lemma total_nonneg f l : (forall m, 0 <= f m) -> 0 <= total f l.
Proof. intros Hf. induction l as [|[m|] l IH]; cbn; [done| |done]. specialize (Hf m). lia. Qed.

(** Of the messages of one sender *)
Definition of_sender (a : address) (f : ethMsg -> Z) (m : ethMsg) : Z := if decide (from_address m = a) then f m else 0.

Definition fee_of (baseFee : option Z) (m : ethMsg) : Z := GetEffectiveFee (ethtx m) baseFee.

(** What the bank promises of fees *)
Class FeeBankLaws (N Ev : Type) `{!Native N Ev, !FeeBank N} (collected : N -> Z) : Prop := {
  collect_enough a x n : 0 <= x <= bank_GetBalance n a -> is_Some (SendCoinsFromAccountToModuleVirtual a x n);
  collect_effect a x n n' : SendCoinsFromAccountToModuleVirtual a x n = Some n' ->
    collected n' = collected n + x
    /\ (forall b, bank_GetBalance n' b = bank_GetBalance n b - (if decide (a = b) then x else 0))
    /\ forall b, auth_GetAccount n' b = auth_GetAccount n b;
  set_balance a x n b : bank_GetBalance (auth_SetAccount a x n) b = bank_GetBalance n b;
  set_collected a x n : collected (auth_SetAccount a x n) = collected n;
  number_balance n b : bank_GetBalance (auth_NextNumber n) b = bank_GetBalance n b
}.

Section Facts.
Context {N Ev : Type} `{!Native N Ev, !NativeLaws N Ev, !FeeBank N} (collected : N -> Z) `{!FeeBankLaws N Ev collected}.
Context (intrinsic : list Z -> list (address * list hash) -> bool -> rules -> option Z) (reduction : Z).
Implicit Types ms : multiStore N.

(** ** Fees *)

Lemma VerifyFee_accept t baseFee r c x : VerifyFee intrinsic t baseFee r c = Accept x ->
  x = GetEffectiveFee t baseFee /\ (forall b, baseFee = Some b -> b <= eth_GasFeeCap t)
  /\ exists g, intrinsic (eth_Data t) (eth_AccessList t) (bool_decide (eth_To t = None)) r = Some g /\ (c = true -> g <= eth_Gas t).
Proof.
  unfold VerifyFee. destruct (intrinsic _ _ _ _) as [g|]; [|done]. destruct (c && (eth_Gas t <? g)) eqn:Hg; [done|].
  assert (c = true -> g <= eth_Gas t) as Hi by (intros ->; cbn in Hg; apply Z.ltb_ge in Hg; lia).
  destruct (match baseFee with Some b => _ | None => _ end) eqn:Hb; [done|].
  assert (forall b, baseFee = Some b -> b <= eth_GasFeeCap t) as Hcap by (intros b ->; apply Z.ltb_ge in Hb; lia).
  destruct (Z.eqb_spec (GetEffectiveFee t baseFee) 0) as [E|]; [intros [= <-]; rewrite E; by eauto|].
  destruct (IsValidInt256 _); [|done]. intros [= <-]. by eauto.
Qed.

(** Fees are taken after genesis, and not in a recheck. *)
Definition taken (ctx : anteContext) (baseFee : option Z) (m : ethMsg) : Z :=
  if negb (IsReCheckTx ctx) && (BlockHeight ctx >? 0) then fee_of baseFee m else 0.

(** The gas that a message wants: a check does not trust its limit. *)
Definition wanted (ctx : anteContext) (mx : Z) (m : ethMsg) : Z :=
  if IsCheckTx ctx && negb (mx =? 0) then Z.min (eth_Gas (ethtx m)) mx else eth_Gas (ethtx m).

Lemma Deduct_accept ctx x a ms ms' : DeductTxCostsFromUserBalance ctx x a ms = Accept ms' -> let y := if BlockHeight ctx >? 0 then x else 0 in
  0 <= x /\ collected (native_state ms') = collected (native_state ms) + y
  /\ (forall b, keeper_GetBalance ms' b = keeper_GetBalance ms b - (if decide (a = b) then y else 0))
  /\ (forall b, keeper_GetAccount ms' b = keeper_GetAccount ms b) /\ is_Some (keeper_GetAccount ms a).
Proof.
  unfold DeductTxCostsFromUserBalance, DeductFees. destruct (auth_GetAccount _ a) eqn:Ha; [|done].
  assert (is_Some (keeper_GetAccount ms a)) as Hk by (unfold keeper_GetAccount; rewrite Ha; by eexists).
  destruct (Z.ltb_spec x 0); [done|]. destruct (Z.gtb_spec (BlockHeight ctx) 0); cbn zeta.
  - destruct (SendCoinsFromAccountToModuleVirtual _ _ _) as [n|] eqn:Hs; [|done]. intros [= <-]. destruct (collect_effect _ _ _ _ Hs) as (Hc & Hb & Hx).
    do 3 (split; [done|]). split; [|done]. intros b. unfold keeper_GetAccount. cbn. by rewrite Hx.
  - intros [= <-]. split; [done|]. split; [lia|]. split; [|done]. intros b. destruct (decide (a = b)); lia.
Qed.

(** The message is charged. *)
Lemma consume_gas_accept ctx r baseFee mx m g p ms g' p' ms' :
  consume_gas intrinsic reduction ctx r baseFee mx m (g, p, ms) = Accept (g', p', ms') ->
  collected (native_state ms') = collected (native_state ms) + taken ctx baseFee m
  /\ (forall a, keeper_GetBalance ms' a = keeper_GetBalance ms a - of_sender a (taken ctx baseFee) m)
  /\ (forall a, keeper_GetAccount ms' a = keeper_GetAccount ms a)
  /\ p' = Z.min (GetTxPriority reduction (ethtx m) baseFee) p /\ g' = uint64 (g + wanted ctx mx m)
  /\ (if IsReCheckTx ctx then ms' = ms else 0 <= fee_of baseFee m /\ forall b, baseFee = Some b -> b <= eth_GasFeeCap (ethtx m)).
Proof.
  unfold consume_gas, taken, of_sender. set (w := if IsCheckTx ctx && _ then _ else _).
  assert (w = wanted ctx mx m) as -> by (unfold w, wanted; destruct (_ && _); [destruct (Z.gtb_spec (eth_Gas (ethtx m)) mx)|]; lia).
  destruct (IsReCheckTx ctx); cbn [negb andb].
  - intros [= <- <- <-]. split; [lia|]. split; [|done]. intros a. destruct (decide _); lia.
  - destruct (VerifyFee _ _ _ _ _) as [x| |] eqn:Hv; [|done|done].
    apply VerifyFee_accept in Hv as (-> & Hcap & _). destruct (DeductTxCostsFromUserBalance _ _ _ _) as [ms1| |] eqn:Hd; [|done|done].
    intros [= <- <- <-]. by destruct (Deduct_accept _ _ _ _ _ Hd) as (H1 & H2 & H3 & H4 & _).
Qed.

(** [p] is the least of the priorities and [p0]. *)
Definition least (baseFee : option Z) (l : list sdkMsg) (p0 p : Z) : Prop :=
  (forall m, MsgEthereumTx m ∈ l -> p <= GetTxPriority reduction (ethtx m) baseFee) /\ p <= p0
  /\ (p = p0 \/ exists m, MsgEthereumTx m ∈ l /\ p = GetTxPriority reduction (ethtx m) baseFee).

Lemma least_cons baseFee m l p0 p : least baseFee l (Z.min (GetTxPriority reduction (ethtx m) baseFee) p0) p -> least baseFee (MsgEthereumTx m :: l) p0 p.
Proof.
  intros (H1 & H2 & H3). split; [|split; [lia|]].
  - intros m' [[= ->]|Hm]%elem_of_cons; [lia|by apply H1].
  - destruct H3 as [->|(m' & Hm & ->)]; [|right; exists m'; split; [by right|done]].
    destruct (Z.min_spec (GetTxPriority reduction (ethtx m) baseFee) p0) as [[_ ->]|[_ ->]]; [right; exists m; split; [left|done]|by left].
Qed.

Lemma consume_loop ctx r baseFee mx l g p ms g' p' ms' :
  for_msgs (consume_gas intrinsic reduction ctx r baseFee mx) l (g, p, ms) = Accept (g', p', ms') ->
  collected (native_state ms') = collected (native_state ms) + total (taken ctx baseFee) l
  /\ (forall a, keeper_GetBalance ms' a = keeper_GetBalance ms a - total (of_sender a (taken ctx baseFee)) l)
  /\ (forall a, keeper_GetAccount ms' a = keeper_GetAccount ms a)
  /\ least baseFee l p p' /\ (0 <= g < 2 ^ 64 -> g' = uint64 (g + total (wanted ctx mx) l))
  /\ (if IsReCheckTx ctx then ms' = ms
      else forall m, MsgEthereumTx m ∈ l -> 0 <= fee_of baseFee m /\ forall b, baseFee = Some b -> b <= eth_GasFeeCap (ethtx m)).
Proof.
  revert g p ms. induction l as [|[m|] l IH]; intros g p ms; cbn [for_msgs total]; [| |done].
  - intros [= <- <- <-]. split; [lia|]. split; [intros; lia|]. split; [done|]. split; [split; [by intros m ?%elem_of_nil|split; [lia|by left]]|].
    split; [intros Hg; rewrite Z.add_0_r; by rewrite uint64_small|]. destruct (IsReCheckTx ctx); [done|]. by intros m ?%elem_of_nil.
  - destruct (consume_gas _ _ _ _ _ _ m _) as [[[g1 p1] ms1]| |] eqn:Hc; [|done|done]. intros Hl.
    destruct (consume_gas_accept _ _ _ _ _ _ _ _ _ _ _ Hc) as (C1 & C2 & C3 & -> & C5 & C6). destruct (IH _ _ _ Hl) as (L1 & L2 & L3 & L4 & L5 & L6).
    split; [lia|]. split; [intros a; rewrite L2, C2; lia|]. split; [intros a; by rewrite L3|]. split; [by apply least_cons|].
    split; [intros Hg; rewrite L5, C5 by (rewrite C5; apply Z.mod_pos_bound; lia); unfold uint64; rewrite Zplus_mod_idemp_l; f_equal; lia|].
    destruct (IsReCheckTx ctx); [congruence|]. intros m' [[= ->]|Hm]%elem_of_cons; [done|by apply L6].
Qed.


(** ** Nonces *)

Lemma sender_nonce_accept m ms ms' : sender_nonce m ms = Accept ms' ->
  exists a acc, from m = Some a /\ auth_GetAccount (native_state ms) a = Some acc /\ eth_Nonce (ethtx m) = GetSequence acc
    /\ forall b, keeper_GetNonce ms' b = if decide (a = b) then uint64 (GetSequence acc + 1) else keeper_GetNonce ms b.
Proof.
  unfold sender_nonce. destruct (from m) as [a|]; [|done]. destruct (auth_GetAccount _ a) as [acc|] eqn:Ha; [|done].
  destruct (Z.eqb_spec (eth_Nonce (ethtx m)) (GetSequence acc)); [|done]. intros [= <-]. exists a, acc. do 3 (split; [done|]). intros b.
  unfold keeper_GetNonce. cbn. rewrite auth_get_set. destruct (decide (a = b)); [|done]. by destruct acc.
Qed.

Definition count (a : address) : list sdkMsg -> Z := total (of_sender a (fun _ => 1)).

Lemma count_nonneg a l : 0 <= count a l.
Proof. apply total_nonneg. intros m. unfold of_sender. by destruct (decide _). Qed.

Lemma count_sender a m l : from m = Some a -> 1 <= count a (MsgEthereumTx m :: l).
Proof.
  intros Hf. unfold count. cbn [total]. fold (count a l). unfold of_sender at 1, from_address. rewrite Hf. cbn. rewrite decide_True by done.
  pose proof (count_nonneg a l). lia.
Qed.

Lemma nonce_step m ms ms' : sender_nonce m ms = Accept ms' -> (forall a, 0 <= keeper_GetNonce ms a < 2 ^ 64) ->
  eth_Nonce (ethtx m) = keeper_GetNonce ms (from_address m)
  /\ forall b, keeper_GetNonce ms' b = uint64 (keeper_GetNonce ms b + of_sender b (fun _ => 1) m).
Proof.
  intros (a & acc & Hf & Ha & Hn & Hb)%sender_nonce_accept Hr. unfold of_sender, from_address. rewrite Hf. cbn [default from_option id].
  assert (keeper_GetNonce ms a = GetSequence acc) as Ea by (unfold keeper_GetNonce; by rewrite Ha). split; [by rewrite Ea|].
  intros b. rewrite Hb. destruct (decide (a = b)) as [<-|]; [by rewrite Ea|]. by rewrite Z.add_0_r, uint64_small.
Qed.

Lemma uint64_add x y : uint64 (uint64 x + y) = uint64 (x + y).
Proof. apply Zplus_mod_idemp_l. Qed.

Lemma nonce_loop l ms ms' : CheckEthSenderNonce l ms = Accept ms' -> (forall a, 0 <= keeper_GetNonce ms a < 2 ^ 64) ->
  (forall a, keeper_GetNonce ms' a = uint64 (keeper_GetNonce ms a + count a l))
  /\ (forall l1 m l2, l = l1 ++ MsgEthereumTx m :: l2 -> eth_Nonce (ethtx m) = uint64 (keeper_GetNonce ms (from_address m) + count (from_address m) l1)).
Proof.
  revert ms. induction l as [|[m|] l IH]; intros ms; cbn [CheckEthSenderNonce for_msgs]; [| |done].
  - intros [= <-] H0. split; [intros a; cbn; by rewrite Z.add_0_r, uint64_small|]. by intros [] ? ?.
  - destruct (sender_nonce m ms) as [ms1| |] eqn:Hm; [|done|done]. intros Hl H0. destruct (nonce_step _ _ _ Hm H0) as [Hn Hb].
    destruct (IH ms1 Hl) as [L1 L2]; [intros a; rewrite Hb; apply Z.mod_pos_bound; lia|].
    split; [intros a; rewrite L1, Hb, uint64_add; cbn; fold (count a l); f_equal; lia|].
    intros [|x l1] m' l2; cbn; [intros [= -> _]; cbn; by rewrite Hn, Z.add_0_r, uint64_small|].
    intros [= <- Hr]. rewrite (L2 _ _ _ Hr), Hb, uint64_add. fold (count (from_address m') l1). f_equal. lia.
Qed.

Lemma count_length a l : count a l <= Z.of_nat (length l).
Proof.
  unfold count. induction l as [|[m|] l IH]; cbn [total length]; [done| |lia]. unfold of_sender at 1. destruct (decide _); lia.
Qed.

Lemma nonce_accounts l ms ms' a : CheckEthSenderNonce l ms = Accept ms' -> is_Some (auth_GetAccount (native_state ms) a) -> is_Some (auth_GetAccount (native_state ms') a).
Proof.
  revert ms. induction l as [|[m|] l IH]; intros ms; cbn; [by intros [= <-]| |done]. destruct (sender_nonce m ms) as [ms1| |] eqn:Hm; [|done|done].
  intros Hl Ha. apply (IH ms1 Hl). revert Hm. unfold sender_nonce. destruct (from m) as [b|]; [|done]. destruct (auth_GetAccount _ b) as [acc|]; [|done].
  destruct (_ =? _); [|done]. intros [= <-]. cbn. rewrite auth_get_set. destruct (decide (b = a)); by eauto.
Qed.


Lemma nonce_money l ms ms' : CheckEthSenderNonce l ms = Accept ms' ->
  collected (native_state ms') = collected (native_state ms) /\ forall a, keeper_GetBalance ms' a = keeper_GetBalance ms a.
Proof.
  revert ms. induction l as [|[m|] l IH]; intros ms; cbn; [by intros [= <-]| |done]. destruct (sender_nonce m ms) as [ms1| |] eqn:Hm; [|done|done].
  intros Hl. destruct (IH ms1 Hl) as [-> Hb]. revert Hm Hb. unfold sender_nonce. destruct (from m) as [b|]; [|done]. destruct (auth_GetAccount _ b) as [acc|]; [|done].
  destruct (_ =? _); [|done]. intros [= <-] Hb. cbn. rewrite set_collected. split; [done|]. intros a. rewrite Hb. unfold keeper_GetBalance. cbn. by rewrite set_balance.
Qed.

(** ** Senders *)

Lemma verify_account_accept m ms ms' : verify_account m ms = Accept ms' -> exists a acct, from m = Some a
  /\ keeper_GetAccount ms' a = Some acct /\ CodeHash acct = emptyCodeHash /\ 0 <= eth_Cost (ethtx m) <= keeper_GetBalance ms' a
  /\ (forall b, keeper_GetBalance ms' b = keeper_GetBalance ms b)
  /\ forall b, keeper_GetAccount ms b = None /\ b = a \/ keeper_GetAccount ms' b = keeper_GetAccount ms b.
Proof.
  unfold verify_account. destruct (from m) as [a|]; [|done]. cbn zeta beta. unfold CheckSenderBalance.
  assert (forall ms1, match (if eth_Cost (ethtx m) <? 0 then Reject ErrNegativeCost
     else if (keeper_GetBalance ms1 a <? 0) || (keeper_GetBalance ms1 a <? eth_Cost (ethtx m)) then Reject ErrInsufficientBalance else Accept tt)
     with Accept _ => Accept ms1 | Reject e => Reject e | Panic => Panic end = Accept ms' -> ms1 = ms' /\ 0 <= eth_Cost (ethtx m) <= keeper_GetBalance ms1 a) as Hc.
  { intros ms1. destruct (Z.ltb_spec (eth_Cost (ethtx m)) 0); [done|]. destruct (Z.ltb_spec (keeper_GetBalance ms1 a) 0), (Z.ltb_spec (keeper_GetBalance ms1 a) (eth_Cost (ethtx m)));
      cbn; try done. intros [= <-]. split; [done|lia]. }
  destruct (keeper_GetAccount ms a) as [acct|] eqn:Ha.
  - destruct (Z.eqb_spec (CodeHash acct) emptyCodeHash); [|done]. intros [<- Hb]%Hc. exists a, acct. do 5 (split; [done|]). by right.
  - intros [<- Hb]%Hc. exists a. eexists. split; [done|]. split; [|split; [|split; [exact Hb|split]]].
    + unfold keeper_GetAccount. cbn. rewrite auth_get_set, decide_True by done. done.
    + done.
    + intros b. unfold keeper_GetBalance. cbn. by rewrite set_balance, number_balance.
    + intros b. destruct (decide (a = b)) as [<-|Hne]; [by left|right]. unfold keeper_GetAccount. cbn. by rewrite auth_get_set, decide_False, auth_get_number.
Qed.

(** The senders of a transaction that [VerifyEthAccount] accepts in a check
    exist in the new state, have no code, and have at least the cost of each of
    their messages; the accounts that were there are as they were, the others
    are new accounts of senders, and balances do not change. *)
Theorem senders_verified ctx l ms ms' : IsCheckTx ctx = true -> VerifyEthAccount ctx l ms = Accept ms' ->
  (forall x, x ∈ l -> exists m a acct, x = MsgEthereumTx m /\ from m = Some a /\ keeper_GetAccount ms' a = Some acct /\ CodeHash acct = emptyCodeHash
     /\ 0 <= eth_Cost (ethtx m) <= keeper_GetBalance ms' a)
  /\ (forall a, keeper_GetBalance ms' a = keeper_GetBalance ms a)
  /\ (forall a, is_Some (keeper_GetAccount ms a) -> keeper_GetAccount ms' a = keeper_GetAccount ms a).
Proof.
  intros Hc. unfold VerifyEthAccount. rewrite Hc. cbn [negb]. clear Hc. revert ms. induction l as [|[m|] l IH]; intros ms; cbn [for_msgs]; [| |done].
  - intros [= <-]. split; [by intros x ?%elem_of_nil|done].
  - destruct (verify_account m ms) as [ms1| |] eqn:Hm; [|done|done]. intros Hl. destruct (IH ms1 Hl) as (L1 & L2 & L3).
    destruct (verify_account_accept _ _ _ Hm) as (a & acct & Hf & Ha & He & Hb & Hbal & Hold). split; [|split].
    + intros x [->|Hx]%elem_of_cons; [|by apply L1]. exists m, a, acct. do 2 (split; [done|]). rewrite L3 by (rewrite Ha; by eexists). rewrite L2. done.
    + intros b. by rewrite L2.
    + intros b Hs. destruct (Hold b) as [[E _]|E]; [rewrite E in Hs; by destruct Hs|]. rewrite L3; [done|]. by rewrite E.
Qed.

(** ** From admission to the end of a transaction *)

Context {L : Type} `{!Evm (multiStore N) Ev L, !EvmLaws (multiStore N) Ev L, !Chain (multiStore N) L}.
Context `{!CollectorLaws (Keeper0 := evm_keeper) (fun ms => collected (native_state ms))}.

End Facts.
