(* ===== verification/Estimate.v ===== *)
(** * Estimating gas

    [EstimateGas] of x/evm/keeper/grpc_query.go with [BinSearch] of
    x/evm/types/utils.go: the least gas limit with which a message runs, found by
    applying it without commit.  The request is given as the message that its
    arguments make, the gas it asks for and the cap of the node; the loading of
    the configuration is not modelled. *)

From stdpp Require Import gmap list.
From S2P Require Import Prelude FeeMarket StateDB StateDBFacts StateDBJournal StateDBSnap StateDBCommit Apply ApplyFacts.
Local Open Scope Z_scope.

(** What a run with some gas gives: whether it failed, with the response if there
    is one, or an error that more gas does not mend *)
Inductive probe (R : Type) : Type := Probe (failed : bool) (rsp : option R) | ProbeError (e : applyError) | ProbePanic.
Arguments Probe {R} failed rsp.
Arguments ProbeError {R} e.
Arguments ProbePanic {R}.

Inductive found : Type := Found (hi : Z) | SearchError (e : applyError) | SearchPanic | OutOfFuel.

Section Search.
Context {R : Type} (executable : Z -> probe R).

Fixpoint BinSearch_loop (fuel : nat) (lo hi : Z) : found :=
  if negb (uint64 (lo + 1) <? hi) then Found hi
  else match fuel with
  | O => OutOfFuel
  | S fuel =>
      let mid := uint64 (hi + lo) / 2 in
      match executable mid with
      | ProbePanic => SearchPanic
      | ProbeError e => SearchError e
      | Probe failed _ => if failed then BinSearch_loop fuel mid hi else BinSearch_loop fuel lo mid
      end
  end.

(** Each round halves the interval: 64 are enough for any. *)
Definition BinSearch (lo hi : Z) : found := BinSearch_loop 64 lo hi.

Definition runs (gas : Z) : Prop := exists rsp, executable gas = Probe false rsp.
Definition fails (gas : Z) : Prop := exists rsp, executable gas = Probe true rsp.

Lemma BinSearch_loop_spec fuel lo hi : 0 <= lo -> lo < hi -> hi <= 2 ^ 63 -> hi - lo <= 2 ^ Z.of_nat fuel ->
  match BinSearch_loop fuel lo hi with
  | Found x => lo < x <= hi /\ (x = hi \/ runs x) /\ (x = lo + 1 \/ fails (x - 1))
  | SearchError e => exists gas, lo < gas < hi /\ executable gas = ProbeError e
  | SearchPanic => exists gas, lo < gas < hi /\ executable gas = ProbePanic
  | OutOfFuel => False
  end.
Proof.
  revert lo hi. induction fuel as [|fuel IH]; intros lo hi H0 Hlt Hhi Hd; cbn [BinSearch_loop]; rewrite (uint64_small (lo + 1)) by lia;
    (destruct (Z.ltb_spec (lo + 1) hi) as [Hm|Hm]; cbn [negb]; [|split; [lia|]; split; [by left|left; lia]]).
  - cbn in Hd. lia.
  - rewrite uint64_small by lia. set (mid := (hi + lo) / 2). rewrite Nat2Z.inj_succ, Z.pow_succ_r in Hd by lia.
    pose proof (Z.div_mod (hi + lo) 2 ltac:(lia)) as Hdm. pose proof (Z.mod_pos_bound (hi + lo) 2 ltac:(lia)) as Hb. fold mid in Hdm.
    destruct (executable mid) as [failed rsp|e|] eqn:He; [|exists mid; split; [lia|done]|exists mid; split; [lia|done]]. destruct failed.
    + specialize (IH mid hi ltac:(lia) ltac:(lia) Hhi ltac:(lia)). destruct (BinSearch_loop fuel mid hi) as [x|e| |]; [|destruct IH as (gas & ? & ?); exists gas; (split; [lia|done])..|done].
      destruct IH as (Hx & Hr & Hf). split; [lia|]. split; [done|]. right. destruct Hf as [->|]; [|done]. replace (mid + 1 - 1) with mid by lia. by eexists.
    + specialize (IH lo mid H0 ltac:(lia) ltac:(lia) ltac:(lia)). destruct (BinSearch_loop fuel lo mid) as [x|e| |]; [|destruct IH as (gas & ? & ?); exists gas; (split; [lia|done])..|done].
      destruct IH as (Hx & Hr & Hf). split; [lia|]. split; [|done]. right. destruct Hr as [->|]; [|done]. by eexists.
Qed.

Lemma BinSearch_loop_stop fuel lo hi : 0 <= lo < 2 ^ 63 -> hi <= lo + 1 -> BinSearch_loop fuel lo hi = Found hi.
Proof. intros Hl Hh. destruct fuel; cbn [BinSearch_loop]; rewrite uint64_small by lia; by destruct (Z.ltb_spec (lo + 1) hi); [lia|]. Qed.

(** Near 2^64 the middle of the interval wraps: a search in which every run fails
    goes round and round. *)
Lemma BinSearch_cycles fuel lo : (forall gas, fails gas) -> 0 <= lo <= 2 ^ 63 -> BinSearch_loop fuel lo (2 ^ 64 - 1) = OutOfFuel.
Proof.
  intros Hall. revert lo. induction fuel as [|fuel IH]; intros lo Hlo; cbn [BinSearch_loop]; rewrite uint64_small by lia;
    (destruct (Z.ltb_spec (lo + 1) (2 ^ 64 - 1)); [|lia]); cbn [negb]; [done|].
  destruct (Hall (uint64 (2 ^ 64 - 1 + lo) / 2)) as [rsp ->]. apply IH. unfold uint64.
  pose proof (Z.mod_pos_bound (2 ^ 64 - 1 + lo) (2 ^ 64) ltac:(lia)). split; [apply Z.div_pos; lia|]. apply Z.div_le_upper_bound; lia.
Qed.
End Search.

(** ** [EstimateGas] *)

Definition TxGas : Z := 21000.

Inductive estimate : Type :=
| Estimated (gas : Z) | Reverted (ret : list Z) | VmFailure (e : vmError) | ExceedsAllowance (gasCap : Z) | GasCapTooLow | EstimateError (e : applyError) | EstimatePanic | Unfinished.

Section Estimate.
Context {MS Ev L : Type} `{!Keeper MS Ev, !Evm MS Ev L}.
Implicit Types (cfg : evmConfig) (msg : message) (ms : MS).

Definition with_gas (gas : Z) msg : message :=
  Message (m_From msg) (m_To msg) (m_Nonce msg) (m_Value msg) gas (m_GasPrice msg) (m_Data msg) (m_AccessList msg).

Definition executable cfg msg ms (gas : Z) : probe (response L) :=
  match ApplyMessageWithConfig cfg (with_gas gas msg) false ms with
  | ApplyPanic => ProbePanic
  | ApplyError ErrIntrinsicGas _ => Probe true None
  | ApplyError e _ => ProbeError e
  | Applied rsp _ _ => Probe (Failed rsp) (Some rsp)
  end.

(** The highest gas: of the arguments, of the block or of the node *)
Definition highest (argsGas maxGas : option Z) (gasCap : Z) : Z :=
  let hi := match argsGas with
            | Some g => if g >=? TxGas then Some g else None
            | None => None
            end in
  let hi := match hi with
            | Some g => g
            | None => match maxGas with Some g => if g >? 0 then uint64 g else gasCap | None => gasCap end
            end in
  if negb (gasCap =? 0) && (hi >? gasCap) then gasCap else hi.

Definition EstimateGas cfg msg ms (argsGas maxGas : option Z) (reqGasCap : Z) : estimate :=
  if reqGasCap <? TxGas then GasCapTooLow
  else
    let gasCap := highest argsGas maxGas reqGasCap in
    match BinSearch (executable cfg msg ms) (TxGas - 1) gasCap with
    | OutOfFuel => Unfinished
    | SearchPanic => EstimatePanic
    | SearchError e => EstimateError e
    | Found hi =>
        if hi =? gasCap then
          match executable cfg msg ms hi with
          | ProbePanic => EstimatePanic
          | ProbeError e => EstimateError e
          | Probe failed result =>
              if failed then
                match result with
                | Some r =>
                    match VmError r with
                    | Some ErrOutOfGas => ExceedsAllowance gasCap
                    | Some ErrExecutionReverted => Reverted (Ret r)
                    | Some e => VmFailure e
                    | None => VmFailure ErrOtherVm
                    end
                | None => ExceedsAllowance gasCap
                end
              else Estimated hi
          end
        else Estimated hi
    end.

Lemma highest_range argsGas maxGas reqGasCap : TxGas <= reqGasCap -> (forall g, maxGas = Some g -> g < 2 ^ 63) -> 0 < highest argsGas maxGas reqGasCap <= reqGasCap.
Proof.
  unfold TxGas. intros Hc Hm. unfold highest. set (hi := match match argsGas with Some g => _ | None => _ end with Some g => _ | None => _ end).
  assert (0 < hi) as Hhi.
  { assert (0 < match maxGas with Some g => if g >? 0 then uint64 g else reqGasCap | None => reqGasCap end) as Hg.
    { destruct maxGas as [g|]; [|lia]. specialize (Hm g eq_refl). destruct (Z.gtb_spec g 0); [rewrite uint64_small; lia|lia]. }
    unfold hi, TxGas. destruct argsGas as [g|]; [|done]. destruct (Z.geb_spec g 21000); [lia|done]. }
  destruct (Z.eqb_spec reqGasCap 0), (Z.gtb_spec hi reqGasCap); cbn; lia.
Qed.

Lemma BinSearch_spec (f : Z -> probe (response L)) cap : 0 < cap <= 2 ^ 63 ->
  match BinSearch f (TxGas - 1) cap with
  | Found x => x <= cap /\ (x = cap \/ runs f x) /\ (x <= TxGas \/ fails f (x - 1))
  | SearchError e => exists gas, TxGas <= gas < cap /\ f gas = ProbeError e
  | SearchPanic => exists gas, TxGas <= gas < cap /\ f gas = ProbePanic
  | OutOfFuel => False
  end.
Proof.
  unfold TxGas. intros Hc. unfold BinSearch. destruct (Z.lt_ge_cases (21000 - 1) cap) as [Hlt|Hge].
  - pose proof (BinSearch_loop_spec f 64 (21000 - 1) cap ltac:(lia) Hlt ltac:(lia) ltac:(change (Z.of_nat 64) with 64; lia)) as H.
    destruct (BinSearch_loop f 64 _ cap) as [x|e| |]; [|destruct H as (gas & ? & ?); exists gas; (split; [lia|done])..|done].
    destruct H as (Hx & Hr & Hf). split; [lia|]. split; [done|]. destruct Hf as [->|]; [left; lia|by right].
  - rewrite BinSearch_loop_stop by lia. split; [lia|]. split; [by left|left; lia].
Qed.

(** C32: an estimate is a gas limit that works and is not too high.  For a cap of
    the node of at least 21000 and at most 2^63, and a block limit below 2^63, the
    search ends.  The gas that [EstimateGas] returns is within the cap and the
    message runs with it; unless it is at most 21000, the gas of any transaction,
    the message fails with one less, so that it is the least one from 21000 on if
    more gas never hurts.  There is an estimate if the message runs with the cap
    and no gas limit between makes it invalid. *)
Theorem estimate_correct cfg msg ms argsGas maxGas reqGasCap :
  TxGas <= reqGasCap <= 2 ^ 63 -> (forall g, maxGas = Some g -> g < 2 ^ 63) ->
  let f := executable cfg msg ms in let cap := highest argsGas maxGas reqGasCap in let r := EstimateGas cfg msg ms argsGas maxGas reqGasCap in
  r <> Unfinished
  /\ (forall gas, r = Estimated gas -> gas <= cap /\ runs f gas /\ (gas <= TxGas \/ fails f (gas - 1))
      /\ ((forall x y, x <= y -> runs f x -> runs f y) -> forall x, TxGas <= x -> runs f x -> gas <= x))
  /\ (runs f cap -> (forall gas, TxGas <= gas < cap -> runs f gas \/ fails f gas) -> exists gas, r = Estimated gas).
Proof.
  intros Hc Hm f cap r. pose proof (highest_range argsGas maxGas reqGasCap ltac:(lia) Hm) as Hr. fold cap in Hr.
  pose proof (BinSearch_spec f cap ltac:(lia)) as Hs. unfold r, EstimateGas. fold cap f. destruct (Z.ltb_spec reqGasCap TxGas); [lia|].
  destruct (BinSearch f (TxGas - 1) cap) as [hi|e| |]; [|split; [done|]; (split; [done|]); destruct Hs as (gas & Hg & He); intros _ Hall;
    destruct (Hall gas Hg) as [[? E]|[? E]]; congruence..|done].
  destruct Hs as (Hx & Hrun & Hf).
  assert (runs f hi -> hi <= cap /\ runs f hi /\ (hi <= TxGas \/ fails f (hi - 1))
      /\ ((forall x y, x <= y -> runs f x -> runs f y) -> forall x, TxGas <= x -> runs f x -> hi <= x)) as Hgood.
  { intros Hh. do 3 (split; [done|]). intros Hmono x Hlow Hxr. destruct Hf as [|[q Hq]]; [lia|]. destruct (Z.le_gt_cases hi x); [done|].
    destruct (Hmono x (hi - 1) ltac:(lia) Hxr) as [q' Hq']. congruence. }
  destruct (Z.eqb_spec hi cap) as [->|Hne].
  - destruct (f cap) as [failed rsp|e|] eqn:He; [|split; [done|]; (split; [done|]); intros [? E]; congruence..]. destruct failed.
    + split; [by destruct rsp as [x|]; [destruct (VmError x) as [[]|]|]|]. split; [|intros [? E]; congruence].
      intros gas. by destruct rsp as [x|]; [destruct (VmError x) as [[]|]|].
    + split; [done|]. split; [|by eauto]. intros gas [= <-]. apply Hgood. by exists rsp.
  - split; [done|]. split; [|by eauto]. intros gas [= <-]. apply Hgood. by destruct Hrun.
Qed.
End Estimate.
