(* ===== verification/ApplySamples.v ===== *)
(** * Transactions on the sample chain

    An interpreter that makes a contract or writes a slot, a bank with a pool of
    fees and a hook, on the sample chain: the hypotheses of the theorems on
    messages, transactions and their admission hold there. *)

From stdpp Require Import gmap sets sorting strings.
From S2P Require Import Prelude FeeMarket StateDB StateDBFacts StateDBJournal StateDBSnap StateDBCommit EvmKeeper StateDBSamples TxData Apply ApplyFacts Ante AnteFacts Estimate.
Local Open Scope Z_scope.

Definition creating_ops : list (op (MS := multiStore sdk) (Ev := Z) (L := Z)) := [op_CreateAccount 11; op_CreateContract 11; op_SetNonce 11 1; op_SetCode 11 (Some [1; 2]); op_AddRefund 100].
Definition calling_ops : list (op (MS := multiStore sdk) (Ev := Z) (L := Z)) := [op_Transfer 7 9 10; op_SetState 9 5 77; op_AddLog 9 55; op_AddRefund 100].

(** Half of the gas is left. *)
Definition interpret (xs : list op) (gas : Z) (s : StateDB (multiStore sdk) Z Z) : option (list Z * Z * option vmError * StateDB (multiStore sdk) Z Z) :=
  if gas <? 0 then None else match exec xs s with None => None | Some s => Some ([], gas / 2, None, s) end.

#[export] Instance sample_evm : Evm (multiStore sdk) Z Z := {
  IntrinsicGas data _ creation _ := Some (if creation then 53 + Z.of_nat (length data) else 4 + 30000 * Z.of_nat (length data));
  ActivePrecompiles _ := [1; 2];
  evm_Create _ _ := interpret creating_ops;
  evm_Call _ _ := interpret calling_ops
}.

Lemma interpret_ops xs gas s ret rest err s' : Forall op_ok xs -> interpret xs gas s = Some (ret, rest, err, s') ->
  0 <= rest <= gas /\ exists xs, Forall op_ok xs /\ exec xs s = Some s'.
Proof.
  intros Hok. unfold interpret. destruct (Z.ltb_spec gas 0); [done|]. destruct (exec xs s) eqn:He; [|done]. intros [= _ <- _ <-].
  split; [split; [apply Z.div_pos; lia|apply Z.div_le_upper_bound; lia]|]. by exists xs.
Qed.

#[export] Instance sample_evm_laws : EvmLaws (multiStore sdk) Z Z.
Proof.
  constructor.
  - intros * H. eapply interpret_ops; [|exact H]. by repeat constructor.
  - intros * H. eapply interpret_ops; [|exact H]. by repeat constructor.
  - intros data al c r g [= <-]. destruct c; lia.
Qed.

(** The bank: fees go to the pool and come from it. *)
#[export] Instance sample_fees : FeeBank sdk := {
  SendCoinsFromAccountToModuleVirtual a x n :=
    if (0 <=? x) && (x <=? default 0 (coins n !! a)) then let n := credit a (- x) n in Some (Sdk (accts n) (coins n) (pool n + x)) else None
}.

Lemma credit_balance a x n b : default 0 (coins (credit a x n) !! b) = default 0 (coins n !! b) + (if decide (a = b) then x else 0).
Proof. cbn. destruct (decide (a = b)) as [<-|]; [by rewrite lookup_insert_eq|rewrite lookup_insert_ne by done; lia]. Qed.

#[export] Instance sample_fee_laws : FeeBankLaws sdk Z pool.
Proof.
  constructor; try done.
  - intros a x n [H1 H2]. cbn in *. destruct (Z.leb_spec 0 x), (Z.leb_spec x (default 0 (coins n !! a))); try lia. by eexists.
  - intros a x n n'. cbn -[credit]. destruct (_ && _); [|done]. intros [= <-]. split; [done|]. split; [|done].
    intros b. pose proof (credit_balance a (- x) n b) as Hc. cbn in Hc |- *. rewrite Hc. destruct (decide (a = b)); lia.
Qed.

(** The hook rejects a message without logs. *)
#[export] Instance sample_chain : Chain (multiStore sdk) Z := {
  LogsBloom l := Z.of_nat (length l);
  SendCoinsFromModuleToAccountVirtual a x ms :=
    let n := native_state ms in
    if (0 <? x) && (x <=? pool n) then let n := credit a x n in Some (with_native (Sdk (accts n) (coins n) (pool n - x)) ms) else None;
  hooks := Some (fun _ r ms => match Logs r with [] => None | l => Some (ms, l) end)
}.

#[export] Instance sample_collector : CollectorLaws (fun ms : multiStore sdk => pool (native_state ms)).
Proof.
  constructor. intros a x ms Hx. cbn -[credit]. destruct (Z.ltb_spec 0 x), (Z.leb_spec x (pool (native_state ms))); try lia.
  eexists. split; [done|]. split; [done|]. pose proof (credit_balance a x (native_state ms) a) as Hc. rewrite decide_True in Hc by done. exact Hc.
Qed.

Definition sample_rules : rules := Rules true true true true true.
Definition sample_config : evmConfig := EvmConfig true true sample_rules 8 0 0 (Some (oneDec / 2)).

(** ** A contract is created *)

Definition creating : message := Message 7 None 3 0 1000 2 [1; 2; 3] [].
Definition created : StateDB (multiStore sdk) Z Z := the_state (match execute sample_config creating 944 (prepared sample_config creating sample_store) with Some (_, _, _, s) => Some s | None => None end).

Lemma created_dirty : sorted_keys (dirties created) = [7; 11].
Proof. vm_compute. reflexivity. Qed.

Lemma created_can_hold a : is_Some (dirties created !! a) -> can_hold (cacheMS (core created)) a.
Proof.
  intros Ha. apply sorted_keys_elem in Ha. rewrite created_dirty in Ha. rewrite can_hold_eq.
  assert (Forall (eth_or_absent (cacheMS (core created))) [7; 11]) as H by (vm_compute; by repeat constructor).
  rewrite Forall_forall in H. by apply H.
Qed.


(** ** A transaction from admission to the end *)

Definition paying_tx : ethTx := EthDynamicFeeTx 1 3 1 4 20 (Some 9) 10 [] [] 0 1 1.
Definition paying : ethMsg := EthMsg (Some 7) paying_tx.
Definition check_context : anteContext := AnteContext true false 5 (Some 1000).
Definition sample_intrinsic (data : list Z) (_ : list (address * list hash)) (_ : bool) (_ : rules) : option Z := Some (4 + Z.of_nat (length data)).

Definition the_store (x : outcome (multiStore sdk)) : multiStore sdk := match x with Accept ms => ms | _ => sample_store end.
Definition charged : outcome (Z * Z * multiStore sdk) := CheckEthGasConsume sample_intrinsic 1 check_context [MsgEthereumTx paying] sample_rules (Some 1) 0 sample_store.
Definition charged_store : multiStore sdk := the_store (match charged with Accept (_, _, ms) => Accept ms | _ => Panic end).


Definition numbered : outcome (multiStore sdk) := CheckEthSenderNonce [MsgEthereumTx paying] charged_store.
Definition numbered_store : multiStore sdk := the_store numbered.

Lemma sample_nonce a : 0 <= keeper_GetNonce charged_store a <= 3.
Proof.
  assert (accts (native_state charged_store) = <[7 := EthAccount 3 (sample_hash [])]> (<[9 := EthAccount 1 (sample_hash sample_code)]> ∅)) as E by (vm_compute; reflexivity).
  unfold keeper_GetNonce. cbn [auth_GetAccount sample_native]. rewrite E. destruct (decide (a = 7)) as [->|H7]; [rewrite lookup_insert_eq; cbn; lia|].
  rewrite lookup_insert_ne by done. destruct (decide (a = 9)) as [->|H9]; [rewrite lookup_insert_eq; cbn; lia|].
  rewrite lookup_insert_ne, lookup_empty by done. lia.
Qed.


(** The sender 7 is there; the sender 12 is new, and its message free. *)
Definition newcomer : ethMsg := EthMsg (Some 12) (EthLegacyTx 0 0 20 (Some 9) 0 [] 0 1 1).
Definition verified_store : multiStore sdk := the_store (VerifyEthAccount check_context [MsgEthereumTx paying; MsgEthereumTx newcomer] sample_store).

Lemma senders_verified_witness : exists acct, keeper_GetAccount verified_store 12 = Some acct /\ CodeHash acct = sample_hash [] /\ keeper_GetBalance verified_store 7 = 100.
Proof.
  destruct (senders_verified pool check_context [MsgEthereumTx paying; MsgEthereumTx newcomer] sample_store verified_store) as (H1 & H2 & _);
    [reflexivity|vm_compute; reflexivity|].
  destruct (H1 (MsgEthereumTx newcomer)) as (m & a & acct & [= <-] & [= <-] & Ha & Hc & _); [by right; left|].
  exists acct. split; [exact Ha|]. split; [exact Hc|exact (H2 7)].
Defined.

Definition paying_message : message := AsMessage paying (Some 1).
Definition sample_context : txContext (multiStore sdk) := TxContext numbered_store None None 7.
Definition paid : applied (multiStore sdk) Z Z := ApplyMessageWithConfig sample_config paying_message true numbered_store.
Definition paid_store : multiStore sdk := match paid with Applied _ ms _ => ms | _ => sample_store end.
Definition paid_response : response Z := match paid with Applied r _ _ => r | _ => Response 0 None [] [] end.
Definition paid_events : list Z := match paid with Applied _ _ evs => evs | _ => [] end.



(** A call with a byte of data, which costs 30000 here. *)
Definition asking : message := Message 7 (Some 9) 3 0 0 2 [1] [].

Lemma estimate_correct_witness : EstimateGas sample_config asking sample_store None (Some 100000) 50000 = Estimated 30004 /\ fails (executable sample_config asking sample_store) 30003.
Proof.
  assert (EstimateGas sample_config asking sample_store None (Some 100000) 50000 = Estimated 30004) as H by (vm_compute; reflexivity). split; [exact H|].
  destruct (estimate_correct sample_config asking sample_store None (Some 100000) 50000) as (_ & H1 & _);
    [vm_compute; split; discriminate|intros g [= <-]; reflexivity|].
  destruct (H1 30004 H) as (_ & _ & [Hle|Hf] & _); [exfalso; apply Hle; vm_compute; reflexivity|exact Hf].
Defined.

(** ** What the code does otherwise than it says *)

(** With no limit in the consensus parameters ([MaxGas] is -1), no gas is
    within the limit of the block. *)
Lemma unlimited_block_rejects :
  BlockGasLimit (AnteContext true false 5 (Some (-1))) = 0
  /\ CheckEthGasConsume sample_intrinsic 1 (AnteContext true false 5 (Some (-1))) [MsgEthereumTx paying] sample_rules (Some 1) 0 sample_store = Reject ErrBlockGasLimit.
Proof. vm_compute. done. Qed.

(** The sum of the gas limits wraps around: two messages of 2^63 gas at price 0
    want no gas. *)
Lemma gas_wanted_wraps :
  let big := MsgEthereumTx (EthMsg (Some 7) (EthLegacyTx 3 0 (2 ^ 63) (Some 9) 0 [] 0 1 1)) in
  match CheckEthGasConsume sample_intrinsic 1 (AnteContext false false 5 (Some 1000)) [big; big] sample_rules None 0 sample_store with
  | Accept (g, _, _) => g = 0
  | _ => False
  end.
Proof. vm_compute. reflexivity. Qed.

(** The nonce of the sender of a creation is counted at admission, as the one of
    any other. *)
Lemma creation_nonce_counted :
  match CheckEthSenderNonce [MsgEthereumTx (EthMsg (Some 7) (EthLegacyTx 3 0 20 None 0 [] 0 1 1))] sample_store with
  | Accept ms => keeper_GetNonce ms 7 = 4
  | _ => False
  end.
Proof. vm_compute. reflexivity. Qed.

(** The refund counter of 100 would give back up to a fifth of the gas used (EIP
    3529); the gas charged is the same as without it. *)
Lemma refund_not_credited :
  GasToRefund 100 528 (quotient_of sample_rules) = 100
  /\ match ApplyMessageWithConfig sample_config creating true sample_store with Applied r _ _ => GasUsed r = 528 | _ => False end.
Proof. vm_compute. done. Qed.

(** An interpreter whose creations revert, and a chain without hooks *)
Definition reverting_evm : Evm (multiStore sdk) Z Z := {|
  IntrinsicGas _ _ _ _ := Some 53;
  ActivePrecompiles _ := [];
  evm_Create _ _ gas s := Some ([], gas, Some ErrExecutionReverted, s);
  evm_Call _ _ gas s := Some ([], gas, Some ErrExecutionReverted, s)
|}.
Definition hookless_chain : Chain (multiStore sdk) Z := {|
  LogsBloom l := Z.of_nat (length l);
  SendCoinsFromModuleToAccountVirtual _ _ ms := Some ms;
  hooks := None
|}.

(** A message that failed is committed: the nonce of the sender of a creation that
    reverts moves on in the store. *)
Lemma failed_message_committed :
  match ApplyMessageWithConfig (H := reverting_evm) sample_config creating true sample_store with
  | Applied r ms _ => Failed r = true /\ keeper_GetNonce sample_store 7 = 3 /\ keeper_GetNonce ms 7 = 4
  | _ => False
  end.
Proof. vm_compute. done. Qed.

(** Without hooks, a transaction that failed persists what was committed. *)
Lemma failed_transaction_persisted :
  match ApplyTransaction (H := reverting_evm) (H0 := hookless_chain) sample_config creating (TxContext sample_store None None 0) with
  | TxOk r ctx => Failed r = true /\ keeper_GetNonce (ctx_store ctx) 7 = 4
  | _ => False
  end.
Proof. vm_compute. done. Qed.
