(* ===== verification/MdBase.v ===== *)
(** * Strings, regular expressions and results for the Markdown parser

    What remarkable (modules 415 and 1001 to 1051 of swagger-ui-bundle.js) uses
    of the language: operations on strings, which are lists of UTF-16 code
    units; regular expressions, by the continuation matchers of ECMAScript;
    [encodeURI] and [decodeURI]; and the results of a computation that can
    throw or run out of fuel. *)

From stdpp Require Import strings.
From S2P Require Import Prelude BufText BufTextFacts Entities MdUtils.
Local Open Scope Z_scope.

(** ** Results *)

Inductive res (A : Type) : Type :=
| Ret (a : A)
| Raise (e : error)
| NoFuel.
Arguments Ret {A} a.
Arguments Raise {A} e.
Arguments NoFuel {A}.

Definition bind {A B} (m : res A) (k : A -> res B) : res B :=
  match m with Ret a => k a | Raise e => Raise e | NoFuel => NoFuel end.

Declare Scope md_scope.
Delimit Scope md_scope with md.
Notation "'let!' x ':=' m 'in' k" := (bind m (fun x => k))
  (at level 200, x pattern, m at level 100, k at level 200, right associativity) : md_scope.
Local Open Scope md_scope.

(** [settles X m Q]: [m] does not run out of fuel, what it returns satisfies [Q],
    and the errors it raises are in [X]. *)
Definition settles {A} (X : error -> Prop) (m : res A) (Q : A -> Prop) : Prop :=
  match m with Ret a => Q a | Raise e => X e | NoFuel => False end.

(** It raises no error but that of [encodeURI]. *)
Notation returns := (settles (fun e => e = URIError)).

(** It raises none. *)
Notation completes := (settles (fun _ => False)).

Lemma returns_bind {X A B} (m : res A) (k : A -> res B) (P : A -> Prop) (Q : B -> Prop) :
  settles X m P -> (forall a, P a -> settles X (k a) Q) -> settles X (bind m k) Q.
Proof. destruct m; cbn; auto. Qed.

Lemma returns_weaken {X A} (m : res A) (P Q : A -> Prop) : settles X m P -> (forall a, P a -> Q a) -> settles X m Q.
Proof. destruct m; cbn; auto. Qed.

Lemma completes_returns {A} (m : res A) (Q : A -> Prop) : completes m Q -> returns m Q.
Proof. by destruct m. Qed.

(** ** Strings *)

Notation str := (list Z).

Definition len (s : str) : Z := Z.of_nat (length s).

(** The result of [charCodeAt] outside of the string: it is equal to no code and
    in no range of codes, and those are the comparisons the parser makes. *)
Definition NaN : Z := -1.

Definition charCodeAt (s : str) (i : Z) : Z := if i <? 0 then NaN else default NaN (s !! Z.to_nat i).

(** [s.slice(a, b)] at positions that are not negative *)
Definition slice (s : str) (a b : Z) : str := take (Z.to_nat (b - a)) (drop (Z.to_nat a) s).
Definition slice_from (s : str) (a : Z) : str := drop (Z.to_nat a) s.

(** A loop that moves [i] up to [max] while [p] holds of the code there. *)
Fixpoint scan_ (n : nat) (p : Z -> bool) (s : str) (i : Z) : Z :=
  match n with
  | O => i
  | S n => if p (charCodeAt s i) then scan_ n p s (i + 1) else i
  end.
Definition scan (p : Z -> bool) (s : str) (i max : Z) : Z := scan_ (Z.to_nat (max - i)) p s i.

Fixpoint is_prefix (p s : str) : bool :=
  match p, s with
  | [], _ => true
  | x :: p, y :: s => (x =? y) && is_prefix p s
  | _ :: _, [] => false
  end.

(** [s.indexOf(p)] of the rest of a string that starts at [i] *)
Fixpoint index_ (p s : str) (i : Z) : Z :=
  if is_prefix p s then i else match s with [] => -1 | _ :: s => index_ p s (i + 1) end.
Definition indexOf (s p : str) (from : Z) : Z := index_ p (slice_from s from) from.

(** [s.split(c)] *)
Fixpoint split (c : Z) (s : str) : list str :=
  match s with
  | [] => [[]]
  | x :: s =>
      if x =? c then [] :: split c s
      else match split c s with w :: ws => (x :: w) :: ws | [] => [[x]] end
  end.

Definition eqs (a b : str) : bool := bool_decide (a = b).

(** The letters of ASCII in lower case, as [toLowerCase] has them. *)
Definition lower (c : Z) : Z := if (65 <=? c) && (c <=? 90) then c + 32 else c.
Definition upper (c : Z) : Z := if (97 <=? c) && (c <=? 122) then c - 32 else c.

(** ** Regular expressions *)

Inductive re : Type :=
| Eps
| Chr (p : Z -> bool)
| Test (t : str -> nat -> bool)
| Seq (a b : re)
| Alt (a b : re)
| Star (greedy : bool) (a : re)
| Grp (n : nat) (a : re).

(** The captures: the last one of a group comes first. *)
Definition caps := list (nat * (nat * nat)).

(** The iterations of a star, [step] being the matcher of its body.  One that
    consumes nothing fails, so [n] is the length of the rest of the string. *)
Fixpoint star {X} (g : bool) (step : nat -> caps -> (nat -> caps -> option X) -> option X) (k : nat -> caps -> option X)
    (n : nat) (i : nat) (c : caps) : option X :=
  let more :=
    match n with
    | O => None
    | S n => step i c (fun i' c' => if (i' <=? i)%nat then None else star g step k n i' c')
    end in
  if g then match more with Some x => Some x | None => k i c end
  else match k i c with Some x => Some x | None => more end.

(** The matcher of an expression at position [i], with the continuation [k] and
    the backtracking that the order of the alternatives prescribes. *)
Fixpoint matcher {X} (r : re) (s : str) (i : nat) (c : caps) (k : nat -> caps -> option X) : option X :=
  match r with
  | Eps => k i c
  | Chr p => match s !! i with Some x => if p x then k (S i) c else None | None => None end
  | Test t => if t s i then k i c else None
  | Seq a b => matcher a s i c (fun i c => matcher b s i c k)
  | Alt a b => match matcher a s i c k with Some x => Some x | None => matcher b s i c k end
  | Grp n a => matcher a s i c (fun i' c' => k i' ((n, (i, i')) :: c'))
  | Star g a => star g (fun i c k => matcher a s i c k) k (length s - i) i c
  end.

Record found : Type := Found { f_start : nat; f_end : nat; f_caps : caps }.

Definition match_at (r : re) (s : str) (i : nat) : option found :=
  matcher r s i [] (fun j c => Some (Found i j c)).

(** [exec] of an expression without an anchor: the first position that matches. *)
Fixpoint search_ (n : nat) (r : re) (s : str) (i : nat) : option found :=
  match match_at r s i with
  | Some f => Some f
  | None => match n with O => None | S n => search_ n r s (S i) end
  end.
Definition search (r : re) (s : str) (i : nat) : option found :=
  if (length s <? i)%nat then None else search_ (length s - i) r s i.

Definition piece (s : str) (i j : nat) : str := take (j - i) (drop i s).
Definition whole (s : str) (f : found) : str := piece s (f_start f) (f_end f).

Fixpoint find_cap (n : nat) (c : caps) : option (nat * nat) :=
  match c with [] => None | (m, p) :: c => if (m =? n)%nat then Some p else find_cap n c end.

(** A group that took no part in the match is undefined: [None]. *)
Definition group (s : str) (f : found) (n : nat) : option str := option_map (fun '(i, j) => piece s i j) (find_cap n (f_caps f)).
Definition group_or_empty (s : str) (f : found) (n : nat) : str := default [] (group s f n).

(** [s.replace(r, f)] with the flag g: [i] is [lastIndex]; an empty match moves it on. *)
Fixpoint replace_ (n : nat) (r : re) (f : found -> str) (s : str) (i : nat) : str :=
  match n with
  | O => drop i s
  | S n =>
      match search r s i with
      | None => drop i s
      | Some m =>
          piece s i (f_start m) ++ f m ++
          (if (f_end m =? f_start m)%nat then piece s (f_end m) (S (f_end m)) ++ replace_ n r f s (S (f_end m))
           else replace_ n r f s (f_end m))
      end
  end.
Definition replace (r : re) (f : found -> str) (s : str) : str := replace_ (S (length s)) r f s 0.

(** Shorthands *)
Definition cls (s : string) (c : Z) : bool := existsb (Z.eqb c) (ascii_units s).
Definition chr (x : Z) : re := Chr (Z.eqb x).
Fixpoint lit_ (s : str) : re := match s with [] => Eps | [x] => chr x | x :: s => Seq (chr x) (lit_ s) end.
Definition lit (s : string) : re := lit_ (ascii_units s).
Definition many (a : re) : re := Star true a.
Definition some_ (a : re) : re := Seq a (Star true a).
Definition opt (a : re) : re := Alt a Eps.
Fixpoint upto (n : nat) (a : re) : re := match n with O => Eps | S n => opt (Seq a (upto n a)) end.
Fixpoint times (n : nat) (a : re) : re := match n with O => Eps | S n => Seq a (times n a) end.
Definition neg (p : Z -> bool) (c : Z) : bool := negb (p c).
Definition space : re := Chr isSpace.
Definition isTerminator (c : Z) : bool := (c =? 10) || (c =? 13) || (c =? 8232) || (c =? 8233).
Definition dot : re := Chr (neg isTerminator).
Definition bos : re := Test (fun _ i => (i =? 0)%nat).
Definition eos : re := Test (fun s i => (i =? length s)%nat).

Notation "a '&.' b" := (Seq a b) (at level 55, right associativity) : md_scope.
Notation "a '|.' b" := (Alt a b) (at level 58, right associativity) : md_scope.
