(* ===== verification/MdUri.v ===== *)
(** * Link destinations of the Markdown parser

    [encodeURI] and [decodeURI] of the language, and modules 418 and 420 of
    swagger-ui-bundle.js with [validateLink] of module 1030. *)

From stdpp Require Import strings.
From S2P Require Import Prelude BufText BufTextFacts Entities MdUtils MdBase.
Local Open Scope Z_scope.
Local Open Scope md_scope.

(** ** [encodeURI] and [decodeURI] *)

Definition uriReserved (c : Z) : bool := cls ";/?:@&=+$,#" c.
Definition uriMark (c : Z) : bool := cls "-_.!~*'()" c.
Definition uriUnescaped (c : Z) : bool := is_alnum c || uriMark c || uriReserved c.

Definition hex_upper (d : Z) : Z := if d <? 10 then 48 + d else 55 + d.
Definition percent (b : Z) : str := [37; hex_upper (b / 16); hex_upper (b mod 16)].

Definition isHigh (c : Z) : bool := (55296 <=? c) && (c <=? 56319).
Definition isLow (c : Z) : bool := (56320 <=? c) && (c <=? 57343).

(** [None] is a URIError. *)
Fixpoint encode_ (s : str) : option str :=
  match s with
  | [] => Some []
  | c :: t =>
      if uriUnescaped c then option_map (cons c) (encode_ t)
      else if isLow c then None
      else if isHigh c then
        match t with
        | d :: t' =>
            if isLow d then
              option_map (app (concat (map percent (utf8 (65536 + (c - 55296) * 1024 + (d - 56320)))))) (encode_ t')
            else None
        | [] => None
        end
      else option_map (app (concat (map percent (utf8 c)))) (encode_ t)
  end.

Definition encodeURI (s : str) : option str := encode_ s.

(** The byte of an escape at the start of the string. *)
Definition escape_at (s : str) : option Z :=
  match s with
  | 37 :: a :: b :: _ =>
      match hex_value a, hex_value b with Some x, Some y => Some (16 * x + y) | _, _ => None end
  | _ => None
  end.

(** The bytes of a character: how many its first byte announces. *)
Definition utf8_length (b : Z) : option nat :=
  if b <? 128 then Some 1%nat
  else if b <? 192 then None
  else if b <? 224 then Some 2%nat
  else if b <? 240 then Some 3%nat
  else if b <? 248 then Some 4%nat
  else None.

Fixpoint escapes (n : nat) (s : str) : option (list Z) :=
  match n with
  | O => Some []
  | S n => match escape_at s, escapes n (drop 3 s) with Some b, Some bs => Some (b :: bs) | _, _ => None end
  end.

Definition utf8_point (bs : list Z) : Z :=
  match bs with
  | [b0; b1] => (b0 - 192) * 64 + (b1 - 128)
  | [b0; b1; b2] => (b0 - 224) * 4096 + (b1 - 128) * 64 + (b2 - 128)
  | [b0; b1; b2; b3] => (b0 - 240) * 262144 + (b1 - 128) * 4096 + (b2 - 128) * 64 + (b3 - 128)
  | b0 :: _ => b0
  | [] => 0
  end.

(** The character that the escapes at the start of [s] stand for, and how many
    units of [s] they take; it must be a scalar value in its shortest form. *)
Definition decode_char (s : str) : option (str * nat) :=
  match escape_at s with
  | None => None
  | Some b =>
      match utf8_length b with
      | None => None
      | Some n =>
          match escapes n s with
          | None => None
          | Some bs =>
              let c := utf8_point bs in
              if (0 <=? c) && (c <? 1114112) && negb (isHigh c || isLow c) && eqs (utf8 c) bs then
                Some (if uriReserved c then take 3 s else utf16 c, (3 * n)%nat)
              else None
          end
      end
  end.

Fixpoint decode_ (s : str) (skip : nat) : option str :=
  match s with
  | [] => Some []
  | c :: t =>
      match skip with
      | S k => decode_ t k
      | O =>
          if c =? 37 then
            match decode_char s with
            | Some (w, n) => option_map (app w) (decode_ t (n - 1))
            | None => None
            end
          else option_map (cons c) (decode_ t 0)
      end
  end.

Definition decodeURI (s : str) : option str := decode_ s 0.

(** ** Module 418 *)

Definition normalizeLink (e : str) : res str :=
  let t := replaceEntities e in
  let t := default t (decodeURI t) in
  match encodeURI t with Some u => Ret u | None => Raise URIError end.

(** ** Module 420 and [validateLink]

    [toLowerCase] and [toUpperCase] map all of Unicode; the tables they use are
    left to the parameters. *)

Section case.
  Context (toLowerCase toUpperCase : str -> str).

(** [/\s+/g] *)
Definition spaces : re := some_ space.

Definition normalizeReference (e : str) : str := toUpperCase (replace spaces (fun _ => [32]) (trim e)).

Definition badProtocols : list str := map ascii_units ["vbscript"; "javascript"; "file"; "data"]%string.

(** [t.split(":")[0]] *)
Definition scheme (t : str) : str := default [] (head (split 58 t)).

Definition validateLink (e : str) : bool :=
  let t := toLowerCase (trim e) in
  let t := replaceEntities t in
  negb (existsb (Z.eqb 58) t) || negb (existsb (eqs (scheme t)) badProtocols).

End case.

(** ** Facts *)

(** A prefix of letters and marks, such as a scheme, is left alone. *)
Definition plain (c : Z) : bool := uriUnescaped c && negb (c =? 37) && negb (c =? 38).

Lemma decode_plain p s : forallb plain p = true -> decode_ (p ++ s) 0 = option_map (app p) (decode_ s 0).
Proof.
  induction p as [|c p IH]; cbn [forallb app]; [by destruct (decode_ s 0)|].
  intros [Hc Hp]%andb_true_iff. unfold plain in Hc. rewrite !andb_true_iff, !negb_true_iff in Hc. destruct Hc as [[_ H37] _].
  cbn [decode_]. rewrite H37, IH by done. by destruct (decode_ s 0).
Qed.

Lemma encode_plain p s : forallb plain p = true -> encode_ (p ++ s) = option_map (app p) (encode_ s).
Proof.
  induction p as [|c p IH]; cbn [forallb app]; [by destruct (encode_ s)|].
  intros [Hc Hp]%andb_true_iff. unfold plain in Hc. rewrite !andb_true_iff in Hc. destruct Hc as [[Hu _] _].
  cbn [encode_]. rewrite Hu, IH by done. by destruct (encode_ s).
Qed.

Lemma entities_plain p s : forallb plain p = true -> replace_entities (p ++ s) 0 = p ++ replace_entities s 0.
Proof.
  induction p as [|c p IH]; cbn [forallb app]; [done|].
  intros [Hc Hp]%andb_true_iff. unfold plain in Hc. rewrite !andb_true_iff, !negb_true_iff in Hc. destruct Hc as [_ H38].
  cbn [replace_entities]. by rewrite H38, IH.
Qed.

Lemma normalizeLink_plain p s u :
  forallb plain p = true -> normalizeLink (p ++ s) = Ret u -> exists u', u = p ++ u'.
Proof.
  intros Hp. unfold normalizeLink, decodeURI, encodeURI. rewrite replaceEntities_all, entities_plain, decode_plain by done.
  destruct (decode_ _ 0) as [t|]; cbn [option_map default id]; rewrite encode_plain by done;
    destruct (encode_ _); cbn; intros [= <-]; eauto.
Qed.

Lemma split_prefix p s : forallb (fun c => negb (c =? 58)) p = true -> scheme (p ++ 58 :: s) = p.
Proof.
  unfold scheme. induction p as [|c p IH]; cbn [forallb app]; [done|].
  intros [Hc Hp]%andb_true_iff. rewrite negb_true_iff in Hc. cbn [split]. rewrite Hc. specialize (IH Hp).
  destruct (split 58 (p ++ 58 :: s)) as [|w ws]; cbn in *; congruence.
Qed.
