(* ===== verification/MdInline.v ===== *)
(** * The inline parser of remarkable

    Modules 153, 235, 417, 419, 1030 to 1048 of swagger-ui-bundle.js: the state
    of the inline parser, its rules, and the parser that runs them.  A rule is a
    function of the state and of the flag for silent mode; it returns whether it
    matched.  Rules call the parser ([skipToken], [tokenize]) and the parser
    calls the rules, so the rules take the parser as an argument, and
    [parser_at] ties the knot with fuel for the depth of the calls. *)

From stdpp Require Import strings.
From S2P Require Import Prelude JsObj BufText Entities MdUtils MdBase MdUri.
Local Open Scope Z_scope.
Local Open Scope md_scope.

(** ** Options, tokens and the environment *)

Record options : Type := Options {
  html : bool;
  xhtmlOut : bool;
  breaks : bool;
  langPrefix : str;
  linkify : bool;
  linkTarget : str;
  typographer : bool;
  quotes : str;
  maxNesting : Z }.

Inductive kind : Type :=
| text (content : str)
| softbreak
| hardbreak
| code (content : str)
| del_open | del_close
| ins_open | ins_close
| mark_open | mark_close
| strong_open | strong_close
| em_open | em_close
| sub (content : str)
| sup (content : str)
| link_open (href : str) (title : option str) | link_close
| image (isrc : str) (title : str) (alt : str)
| footnote_ref (id : Z) (subId : option Z)
| htmltag (content : str)
| abbr_open (title : str) | abbr_close.

Record token : Type := Tok { type : kind; tlevel : Z }.

Record reference : Type := Reference { r_title : str; r_href : str }.

(** An entry of [env.footnotes.list]; a count that is undefined or NaN is [None]. *)
Record footnote : Type := Footnote { fn_tokens : option (list token); fn_label : option str; fn_count : option Z }.
Record footnotes : Type := Footnotes { fn_refs : option (list (str * Z)); fn_list : option (list footnote) }.
Record env : Type := Env {
  references : option (list (str * reference));
  notes : option footnotes;
  abbreviations : option (list (str * str)) }.

Definition no_footnotes : footnotes := Footnotes None None.
Definition notes_of (e : env) : footnotes := default no_footnotes (notes e).
Definition set_notes (f : footnotes) (e : env) : env := Env (references e) (Some f) (abbreviations e).

(** ** The state (module 235) *)

Record state : Type := State {
  pos : Z;
  posMax : Z;
  level : Z;
  pending : str;
  pendingLevel : Z;
  cache : list Z;
  isInLabel : bool;
  linkLevel : Z;
  linkContent : str;
  labelUnmatchedScopes : Z;
  tokens : list token;
  senv : env }.

Definition set_pos x (s : state) : state :=
  State x (posMax s) (level s) (pending s) (pendingLevel s) (cache s) (isInLabel s) (linkLevel s) (linkContent s) (labelUnmatchedScopes s) (tokens s) (senv s).
Definition set_posMax x (s : state) : state :=
  State (pos s) x (level s) (pending s) (pendingLevel s) (cache s) (isInLabel s) (linkLevel s) (linkContent s) (labelUnmatchedScopes s) (tokens s) (senv s).
Definition set_level x (s : state) : state :=
  State (pos s) (posMax s) x (pending s) (pendingLevel s) (cache s) (isInLabel s) (linkLevel s) (linkContent s) (labelUnmatchedScopes s) (tokens s) (senv s).
Definition set_pending x (s : state) : state :=
  State (pos s) (posMax s) (level s) x (pendingLevel s) (cache s) (isInLabel s) (linkLevel s) (linkContent s) (labelUnmatchedScopes s) (tokens s) (senv s).
Definition set_pendingLevel x (s : state) : state :=
  State (pos s) (posMax s) (level s) (pending s) x (cache s) (isInLabel s) (linkLevel s) (linkContent s) (labelUnmatchedScopes s) (tokens s) (senv s).
Definition set_cache x (s : state) : state :=
  State (pos s) (posMax s) (level s) (pending s) (pendingLevel s) x (isInLabel s) (linkLevel s) (linkContent s) (labelUnmatchedScopes s) (tokens s) (senv s).
Definition set_isInLabel x (s : state) : state :=
  State (pos s) (posMax s) (level s) (pending s) (pendingLevel s) (cache s) x (linkLevel s) (linkContent s) (labelUnmatchedScopes s) (tokens s) (senv s).
Definition set_linkLevel x (s : state) : state :=
  State (pos s) (posMax s) (level s) (pending s) (pendingLevel s) (cache s) (isInLabel s) x (linkContent s) (labelUnmatchedScopes s) (tokens s) (senv s).
Definition set_linkContent x (s : state) : state :=
  State (pos s) (posMax s) (level s) (pending s) (pendingLevel s) (cache s) (isInLabel s) (linkLevel s) x (labelUnmatchedScopes s) (tokens s) (senv s).
Definition set_scopes x (s : state) : state :=
  State (pos s) (posMax s) (level s) (pending s) (pendingLevel s) (cache s) (isInLabel s) (linkLevel s) (linkContent s) x (tokens s) (senv s).
Definition set_tokens x (s : state) : state :=
  State (pos s) (posMax s) (level s) (pending s) (pendingLevel s) (cache s) (isInLabel s) (linkLevel s) (linkContent s) (labelUnmatchedScopes s) x (senv s).
Definition set_senv x (s : state) : state :=
  State (pos s) (posMax s) (level s) (pending s) (pendingLevel s) (cache s) (isInLabel s) (linkLevel s) (linkContent s) (labelUnmatchedScopes s) (tokens s) x.

(** The constructor *)
Definition newState (src : str) (e : env) (out : list token) : state :=
  State 0 (len src) 0 [] 0 [] false 0 [] 0 out e.

Definition pushPending (s : state) : state :=
  set_pending [] (set_tokens (tokens s ++ [Tok (text (pending s)) (pendingLevel s)]) s).

Definition flush (s : state) : state := match pending s with [] => s | _ => pushPending s end.

Definition push (t : token) (s : state) : state :=
  let s := flush s in set_pendingLevel (level s) (set_tokens (tokens s ++ [t]) s).

(** [e.push({type: k, level: e.level})], and with [e.level++] and [--e.level] *)
Definition push_leaf (k : kind) (s : state) : state := push (Tok k (level s)) s.
Definition push_open (k : kind) (s : state) : state := push (Tok k (level s)) (set_level (level s + 1) s).
Definition push_close (k : kind) (s : state) : state := push (Tok k (level s - 1)) (set_level (level s - 1) s).

Definition add_pending (w : str) (s : state) : state := set_pending (pending s ++ w) s.

Definition cacheSet (e t : Z) (s : state) : state :=
  let c := cache s ++ replicate (Z.to_nat (e + 1 - len (cache s))) 0 in
  set_cache (<[Z.to_nat e := t]> c) s.

Definition cacheGet (e : Z) (s : state) : Z := if e <? len (cache s) then default 0 (cache s !! Z.to_nat e) else 0.

(** What the rules use of the parser. *)
Record parser : Type := Parser { skipToken : state -> res state; tokenize : state -> res state }.

Inductive inline_rule : Set :=
| R_text | R_newline | R_escape | R_backticks | R_del | R_ins | R_mark | R_emphasis | R_sub | R_sup
| R_links | R_footnote_inline | R_footnote_ref | R_autolink | R_htmltag | R_entity.

(** ** Expressions *)

Definition alpha : re := Chr is_alpha.
Definition alnum : re := Chr is_alnum.

(** [r] of modules 1039 and 1040: an escaped character *)
Definition escaped_char : re :=
  chr 92 &. Grp 1 (Chr (fun c => cls " \!#$%&'()*+,./:;<=>?@[]^_`{|}~-" c || (c =? 34))).

(** [/(^|[^\\])(\\\\)*\s/]: white space that is not escaped *)
Definition unescaped_space : re :=
  Grp 1 (bos |. Chr (neg (Z.eqb 92))) &. many (Grp 2 (chr 92 &. chr 92)) &. space.

(** [a] and [i] of module 1044: a link and an address in angle brackets *)
Definition label_ : re := alnum &. opt (upto 61 (Chr (fun c => is_alnum c || (c =? 45))) &. alnum).
Definition autolink_re : re :=
  chr 60 &. Grp 1 (Chr (fun c => is_alpha c || cls ".-" c) &. upto 24 (Chr (fun c => is_alpha c || cls ".-" c)))
    &. chr 58 &. Grp 2 (many (Chr (fun c => negb (cls "<>" c || (c <=? 32))))) &. chr 62.
Definition email_re : re :=
  chr 60 &. Grp 1 (some_ (Chr (fun c => is_alnum c || cls ".!#$%&'*+/=?^_`{|}~-" c)) &. chr 64 &. label_
    &. many (chr 46 &. label_)) &. chr 62.

(** [HTML_TAG_RE] of module 1047 *)
Definition unquoted : re := some_ (Chr (fun c => negb (cls "'=<>`" c || (c =? 34) || (c <=? 32)))).
Definition single_quoted : re := chr 39 &. many (Chr (neg (Z.eqb 39))) &. chr 39.
Definition double_quoted : re := chr 34 &. many (Chr (neg (Z.eqb 34))) &. chr 34.
Definition attr_value : re := unquoted |. single_quoted |. double_quoted.
Definition attr_name : re := Chr (fun c => is_alpha c || cls "_:" c) &. many (Chr (fun c => is_alnum c || cls ":._-" c)).
Definition attribute : re := some_ space &. attr_name &. opt (many space &. chr 61 &. many space &. attr_value).
Definition open_tag : re := chr 60 &. alpha &. many alnum &. many attribute &. many space &. opt (chr 47) &. chr 62.
Definition close_tag : re := chr 60 &. chr 47 &. alpha &. many alnum &. many space &. chr 62.
Definition comment : re :=
  lit "<!--" &. many (Grp 1 (some_ (Chr (neg (Z.eqb 45))) |. chr 45 &. some_ (Chr (neg (Z.eqb 45))))) &. lit "-->".
Definition processing : re := lit "<?" &. Star false dot &. lit "?>".
Definition declaration : re :=
  lit "<!" &. some_ (Chr (fun c => (65 <=? c) && (c <=? 90))) &. some_ space &. many (Chr (neg (Z.eqb 62))) &. chr 62.
Definition cdata : re :=
  lit "<![CDATA["
    &. many (Grp 2 (some_ (Chr (neg (Z.eqb 93))) |. chr 93 &. Chr (neg (Z.eqb 93)) |. lit "]]" &. Chr (neg (Z.eqb 62))))
    &. lit "]]>".
Definition HTML_TAG_RE : re := open_tag |. close_tag |. comment |. processing |. declaration |. cdata.

(** [u] and [s] of module 1048 *)
Definition is_hex (c : Z) : bool := match hex_value c with Some _ => true | None => false end.
Definition digital_re : re :=
  lit "&#" &. Grp 1 (Chr is_x &. Chr is_hex &. upto 7 (Chr is_hex) |. Chr is_digit &. upto 7 (Chr is_digit)) &. chr 59.
Definition named_re : re := chr 38 &. Grp 1 (alpha &. alnum &. upto 30 alnum) &. chr 59.

(** Module 1045: the schemes of links in angle brackets *)
Definition url_schemas : list str := map ascii_units
  ["coap"; "doi"; "javascript"; "aaa"; "aaas"; "about"; "acap"; "cap"; "cid"; "crid"; "data"; "dav"; "dict";
   "dns"; "file"; "ftp"; "geo"; "go"; "gopher"; "h323"; "http"; "https"; "iax"; "icap"; "im"; "imap";
   "info"; "ipp"; "iris"; "iris.beep"; "iris.xpc"; "iris.xpcs"; "iris.lwz"; "ldap"; "mailto"; "mid";
   "msrp"; "msrps"; "mtqp"; "mupdate"; "news"; "nfs"; "ni"; "nih"; "nntp"; "opaquelocktoken"; "pop";
   "pres"; "rtsp"; "service"; "session"; "shttp"; "sieve"; "sip"; "sips"; "sms"; "snmp"; "soap.beep";
   "soap.beeps"; "tag"; "tel"; "telnet"; "tftp"; "thismessage"; "tn3270"; "tip"; "tv"; "urn"; "vemmi";
   "ws"; "wss"; "xcon"; "xcon-userid"; "xmlrpc.beep"; "xmlrpc.beeps"; "xmpp"; "z39.50r"; "z39.50s";
   "adiumxtra"; "afp"; "afs"; "aim"; "apt"; "attachment"; "aw"; "beshare"; "bitcoin"; "bolo"; "callto";
   "chrome"; "chrome-extension"; "com-eventbrite-attendee"; "content"; "cvs"; "dlna-playsingle";
   "dlna-playcontainer"; "dtn"; "dvb"; "ed2k"; "facetime"; "feed"; "finger"; "fish"; "gg"; "git";
   "gizmoproject"; "gtalk"; "hcp"; "icon"; "ipn"; "irc"; "irc6"; "ircs"; "itms"; "jar"; "jms"; "keyparc";
   "lastfm"; "ldaps"; "magnet"; "maps"; "market"; "message"; "mms"; "ms-help"; "msnim"; "mumble"; "mvn";
   "notes"; "oid"; "palm"; "paparazzi"; "platform"; "proxy"; "psyc"; "query"; "res"; "resource"; "rmi";
   "rsync"; "rtmp"; "secondlife"; "sftp"; "sgn"; "skype"; "smb"; "soldat"; "spotify"; "ssh"; "steam";
   "svn"; "teamspeak"; "things"; "udp"; "unreal"; "ut2004"; "ventrilo"; "view-source"; "webcal"; "wtai";
   "wyciwyg"; "xfire"; "xri"; "ymsgr"]%string.

(** ** The rules *)

Section rules.
  Context (toLowerCase toUpperCase : str -> str) (opts : options) (src : str) (P : parser).

Definition at_ (i : Z) : Z := charCodeAt src i.
Definition space_or_newline (c : Z) : bool := (c =? 32) || (c =? 10).
Definition skip_space (i max : Z) : Z := scan space_or_newline src i max.
Definition too_deep (s : state) : bool := level s >=? maxNesting opts.

(** Module 153: [-1], or the position of the bracket that closes a label *)
Fixpoint label_loop (fuel : nat) (a n : Z) (s : state) : res (bool * Z * state) :=
  match fuel with
  | O => NoFuel
  | S fuel =>
      if pos s <? a then
        let o := at_ (pos s) in
        let n' := if o =? 91 then n + 1 else if o =? 93 then n - 1 else n in
        if (o =? 93) && (n' =? 0) then Ret (true, n', s)
        else let! s := skipToken P s in label_loop fuel a n' s
      else Ret (false, n, s)
  end.

Definition parseLinkLabel (s : state) (t : Z) : res (Z * state) :=
  let a := posMax s in
  let u := pos s in
  if isInLabel s then Ret (-1, s)
  else if negb (labelUnmatchedScopes s =? 0) then Ret (-1, set_scopes (labelUnmatchedScopes s - 1) s)
  else
    let! (r, n, s') := label_loop (S (Z.to_nat (a - t))) a 1 (set_isInLabel true (set_pos (t + 1) s)) in
    let '(i, s') := if r : bool then (pos s', set_scopes 0 s') else (-1, set_scopes (n - 1) s') in
    Ret (i, set_isInLabel (isInLabel s) (set_pos u s')).

(** Module 417 *)
Fixpoint angle_loop (fuel : nat) (t s : Z) : option Z :=
  match fuel with
  | O => None
  | S fuel =>
      if t <? s then
        let n := at_ t in
        if n =? 10 then None
        else if n =? 62 then Some t
        else angle_loop fuel (if (n =? 92) && (t + 1 <? s) then t + 2 else t + 1) s
      else None
  end.

Fixpoint bare_loop (fuel : nat) (i t s : Z) : Z :=
  match fuel with
  | O => t
  | S fuel =>
      let n := at_ t in
      if (t <? s) && negb (n =? 32) && negb ((n >? 8) && (n <? 14)) then
        if (n =? 92) && (t + 1 <? s) then bare_loop fuel i (t + 2) s
        else
          let i := if n =? 40 then i + 1 else i in
          if (n =? 40) && (i >? 1) then t
          else
            let i := if n =? 41 then i - 1 else i in
            if (n =? 41) && (i <? 0) then t else bare_loop fuel i (t + 1) s
      else t
  end.

Definition parseLinkDestination (e : state) (t : Z) : res (bool * state) :=
  let s := posMax e in
  if at_ t =? 60 then
    match angle_loop (Z.to_nat (s - t)) (t + 1) s with
    | None => Ret (false, e)
    | Some t' =>
        let! a := normalizeLink (unescapeMd (slice src (t + 1) t')) in
        if validateLink toLowerCase a then Ret (true, set_linkContent a (set_pos (t' + 1) e)) else Ret (false, e)
    end
  else
    let t' := bare_loop (Z.to_nat (s - t)) 0 t s in
    if t =? t' then Ret (false, e)
    else
      let a := unescapeMd (slice src t t') in
      if validateLink toLowerCase a then Ret (true, set_pos t' (set_linkContent a e)) else Ret (false, e).

(** Module 419 *)
Fixpoint title_loop (fuel : nat) (a t i : Z) : option Z :=
  match fuel with
  | O => None
  | S fuel =>
      if t <? i then
        let n := at_ t in
        if n =? a then Some t else title_loop fuel a (if (n =? 92) && (t + 1 <? i) then t + 2 else t + 1) i
      else None
  end.

Definition parseLinkTitle (e : state) (t : Z) : bool * state :=
  let i := posMax e in
  let a := at_ t in
  if negb (a =? 34) && negb (a =? 39) && negb (a =? 40) then (false, e)
  else
    match title_loop (Z.to_nat (i - t)) (if a =? 40 then 41 else a) (t + 1) i with
    | Some t' => (true, set_linkContent (unescapeMd (slice src (t + 1) t')) (set_pos (t' + 1) e))
    | None => (false, e)
    end.

(** Module 1031 *)
Definition isTerminatorChar (c : Z) : bool :=
  existsb (Z.eqb c) [10; 92; 96; 42; 95; 94; 91; 93; 33; 38; 60; 62; 123; 125; 36; 37; 64; 126; 43; 61; 58].

Definition text_rule (e : state) (t : bool) : res (bool * state) :=
  let n := scan (neg isTerminatorChar) src (pos e) (posMax e) in
  if n =? pos e then Ret (false, e)
  else Ret (true, set_pos n (if t then e else add_pending (slice src (pos e) n) e)).

(** Module 1032; [last_other] is the last position up to [i] that is no space, or [-1] *)
Fixpoint last_other (n : nat) (p : str) (i : Z) : Z :=
  match n with
  | O => -1
  | S n => if i <? 0 then -1 else if charCodeAt p i =? 32 then last_other n p (i - 1) else i
  end.

Definition newline_rule (e : state) (t : bool) : res (bool * state) :=
  if negb (at_ (pos e) =? 10) then Ret (false, e)
  else
    let n := len (pending e) - 1 in
    let e1 :=
      if t then e
      else if (n >=? 0) && (charCodeAt (pending e) n =? 32) then
        if (n >=? 1) && (charCodeAt (pending e) (n - 1) =? 32) then
          let i := last_other (length (pending e)) (pending e) (n - 2) in
          push_leaf hardbreak (if i >=? 0 then set_pending (slice (pending e) 0 (i + 1)) e else e)
        else push_leaf softbreak (set_pending (slice (pending e) 0 n) e)
      else push_leaf softbreak e in
    Ret (true, set_pos (scan (Z.eqb 32) src (pos e + 1) (posMax e)) e1).

(** Module 1033 *)
Definition escapable (c : Z) : bool := cls "\!#$%&'()*+,./:;<=>?@[]^_`{|}~-" c || (c =? 34).

Definition escape_rule (e : state) (t : bool) : res (bool * state) :=
  let o := pos e in
  let i := posMax e in
  if negb (at_ o =? 92) then Ret (false, e)
  else
    let n := at_ (o + 1) in
    if (o + 1 <? i) && (n <? 256) && escapable n then
      Ret (true, set_pos (pos e + 2) (if t then e else add_pending [n] e))
    else if (o + 1 <? i) && (n =? 10) then
      Ret (true, set_pos (scan (Z.eqb 32) src (o + 2) i) (if t then e else push_leaf hardbreak e))
    else Ret (true, set_pos (pos e + 1) (if t then e else add_pending [92] e)).

(** Module 1034: the run of backticks that closes, from [i] to [a] *)
Definition code_spaces : re := some_ (Chr space_or_newline).

Fixpoint backticks_loop (fuel : nat) (a r o : Z) : res (option (Z * Z)) :=
  match fuel with
  | O => NoFuel
  | S fuel =>
      let i := indexOf src [96] a in
      if i =? -1 then Ret None
      else
        let a := scan (Z.eqb 96) src (i + 1) r in
        if a - i =? o then Ret (Some (i, a)) else backticks_loop fuel a r o
  end.

Definition backticks_rule (e : state) (t : bool) : res (bool * state) :=
  let n := pos e in
  if negb (at_ n =? 96) then Ret (false, e)
  else
    let r := posMax e in
    let u := scan (Z.eqb 96) src (n + 1) r in
    let! m := backticks_loop (S (length src)) u r (u - n) in
    match m with
    | Some (i, a) =>
        Ret (true, set_pos a (if t then e else push_leaf (code (trim (replace code_spaces (fun _ => [32]) (slice src u i)))) e))
    | None => Ret (true, set_pos (pos e + (u - n)) (if t then e else add_pending (slice src n u) e))
    end.

(** Modules 1035, 1036 and 1037, which differ in the marker [c], the tokens, and
    in when a run of markers is too long. *)
Fixpoint pair_loop (fuel : nat) (c u o : Z) (e : state) : res (bool * state) :=
  match fuel with
  | O => NoFuel
  | S fuel =>
      if pos e + 1 <? u then
        let i := at_ (pos e - 1) in
        let a := if pos e + 2 <? u then at_ (pos e + 2) else -1 in
        let here := (at_ (pos e) =? c) && (at_ (pos e + 1) =? c) && negb (a =? c) && negb (i =? c) in
        let o := if here then if negb (space_or_newline i) then o - 1 else if negb (space_or_newline a) then o + 1 else o else o in
        if here && (o <=? 0) then Ret (true, e)
        else let! e := skipToken P e in pair_loop fuel c u o e
      else Ret (false, e)
  end.

Definition pair_rule (c : Z) (opn cls_ : kind) (long : Z -> Z -> bool) (e : state) (t : bool) : res (bool * state) :=
  let u := posMax e in
  let s := pos e in
  let i := if s >? 0 then at_ (s - 1) else -1 in
  let a := at_ (s + 2) in
  if negb (at_ s =? c) || t || (s + 4 >=? u) || negb (at_ (s + 1) =? c) || too_deep e
     || (i =? c) || (a =? c) || space_or_newline a
  then Ret (false, e)
  else
    let r := scan (Z.eqb c) src (s + 2) u in
    if long r s then Ret (true, add_pending (slice src s r) (set_pos (pos e + (r - s)) e))
    else
      let! (n, e) := pair_loop (S (Z.to_nat (u - s))) c u 1 (set_pos (s + 2) e) in
      if n : bool then
        let e := push_open opn (set_pos (s + 2) (set_posMax (pos e) e)) in
        let! e := tokenize P e in
        let e := push_close cls_ e in
        Ret (true, set_posMax u (set_pos (posMax e + 2) e))
      else Ret (false, set_pos s e).

Definition del_rule : state -> bool -> res (bool * state) := pair_rule 126 del_open del_close (fun r s => r >? s + 3).
Definition ins_rule : state -> bool -> res (bool * state) := pair_rule 43 ins_open ins_close (fun r s => negb (r =? s + 2)).
Definition mark_rule : state -> bool -> res (bool * state) := pair_rule 61 mark_open mark_close (fun r s => negb (r =? s + 2)).

(** Module 1038 *)
Definition isAlphaNum (c : Z) : bool := is_digit c || (65 <=? c) && (c <=? 90) || (97 <=? c) && (c <=? 122).

(** [can_open], [can_close] and [delims] *)
Definition scanDelims (e : state) (t : Z) : bool * bool * Z :=
  let l := posMax e in
  let c := at_ t in
  let n := if t >? 0 then at_ (t - 1) else -1 in
  let a := scan (Z.eqb c) src t l in
  let i := a - t in
  let u := negb (a >=? l) in
  if i >=? 4 then (false, false, i)
  else
    let o := if a <? l then at_ a else -1 in
    let u := u && negb (space_or_newline o) in
    let s := negb (space_or_newline n) in
    if c =? 95 then (u && negb (isAlphaNum n), s && negb (isAlphaNum o), i) else (u, s, i).

(** The loop that takes a closing run of [u] markers from the stack, whose top
    is [a]: the stack, the last entry taken, and the position. *)
Fixpoint unwind (s : list Z) (a u p : Z) : list Z * Z * Z :=
  if a =? u then (s, a, p)
  else if u <? a then (a - u :: s, a, p)
  else match s with [] => ([], a, p) | a' :: s => unwind s a' (u - a) (p + a) end.

(** The stack is [top] on [s]; [Some n] when a run of [n] closes it. *)
Fixpoint emphasis_loop (fuel : nat) (p c : Z) (top : Z) (s : list Z) (e : state) : res (option Z * state) :=
  match fuel with
  | O => NoFuel
  | S fuel =>
      if pos e <? c then
        if negb (at_ (pos e) =? p) then let! e := skipToken P e in emphasis_loop fuel p c top s e
        else
          let '(can_open, can_close, r) := scanDelims e (pos e) in
          if can_close then
            let '(s', a, q) := unwind s top r (pos e) in
            match s' with
            | [] => Ret (Some a, set_pos q e)
            | top' :: s' => emphasis_loop fuel p c top' s' (set_pos (q + r) e)
            end
          else if can_open then emphasis_loop fuel p c r (top :: s) (set_pos (pos e + r) e)
          else emphasis_loop fuel p c top s (set_pos (pos e + r) e)
      else Ret (None, e)
  end.

Definition strong_of (n : Z) : bool := (n =? 2) || (n =? 3).
Definition em_of (n : Z) : bool := (n =? 1) || (n =? 3).

Definition emphasis_rule (e : state) (t : bool) : res (bool * state) :=
  let c := posMax e in
  let f := pos e in
  let p := at_ f in
  if negb (p =? 95) && negb (p =? 42) || t then Ret (false, e)
  else
    let '(can_open, _, n) := scanDelims e f in
    if negb can_open then Ret (true, add_pending (slice src f (pos e + n)) (set_pos (pos e + n) e))
    else if too_deep e then Ret (false, e)
    else
      let! (i, e) := emphasis_loop (S (Z.to_nat (c - f))) p c n [] (set_pos (f + n) e) in
      match i with
      | Some n =>
          let e := set_pos (f + n) (set_posMax (pos e) e) in
          let e := if strong_of n then push_open strong_open e else e in
          let e := if em_of n then push_open em_open e else e in
          let! e := tokenize P e in
          let e := if em_of n then push_close em_close e else e in
          let e := if strong_of n then push_close strong_close e else e in
          Ret (true, set_posMax c (set_pos (posMax e + n) e))
      | None => Ret (false, set_pos f e)
      end.

(** Modules 1039 and 1040 *)
Fixpoint marker_loop (fuel : nat) (m i : Z) (e : state) : res (bool * state) :=
  match fuel with
  | O => NoFuel
  | S fuel =>
      if pos e <? i then
        if at_ (pos e) =? m then Ret (true, e)
        else let! e := skipToken P e in marker_loop fuel m i e
      else Ret (false, e)
  end.

Definition script_rule (m : Z) (k : str -> kind) (e : state) (t : bool) : res (bool * state) :=
  let i := posMax e in
  let a := pos e in
  if negb (at_ a =? m) || t || (a + 2 >=? i) || too_deep e then Ret (false, e)
  else
    let! (n, e) := marker_loop (S (Z.to_nat (i - a))) m i (set_pos (a + 1) e) in
    if (n : bool) && negb (a + 1 =? pos e) then
      let o := slice src (a + 1) (pos e) in
      match search unescaped_space o 0 with
      | Some _ => Ret (false, set_pos a e)
      | None =>
          let e := set_pos (a + 1) (set_posMax (pos e) e) in
          let e := push_leaf (k (replace escaped_char (fun f => group_or_empty o f 1) o)) e in
          Ret (true, set_posMax i (set_pos (posMax e + 1) e))
      end
    else Ret (false, set_pos a e).

Definition sub_rule : state -> bool -> res (bool * state) := script_rule 126 sub.
Definition sup_rule : state -> bool -> res (bool * state) := script_rule 94 sup.

(** Module 1041: the target of an inline link whose parenthesis opens before [f];
    [Some] of the destination, the title and the end *)
Definition inline_target (e : state) (f m : Z) : res (option (str * str * Z) * state) :=
  let f := skip_space f m in
  if f >=? m then Ret (None, e)
  else
    let v := pos e in
    let! (b, e) := parseLinkDestination e f in
    let '(l, f) := if b : bool then (linkContent e, pos e) else ([], f) in
    let g := f in
    let f := skip_space f m in
    let '(c, f, e) :=
      if (f <? m) && negb (g =? f) then
        let '(b, e) := parseLinkTitle e f in
        if b then (linkContent e, skip_space (pos e) m, e) else ([], f, e)
      else ([], f, e) in
    if (f >=? m) || negb (at_ f =? 41) then Ret (None, set_pos v e) else Ret (Some (l, c, f + 1), e).

(** The target of a reference, with label [n, u) and perhaps a second label from [f] on. *)
Definition reference_target (e : state) (n u f m : Z) : res (option (str * str * Z) * state) :=
  let v := pos e in
  if linkLevel e >? 0 then Ret (None, e)
  else
    let f := skip_space f m in
    let! (s, f, e) :=
      (if (f <? m) && (at_ f =? 91) then
         let g := f + 1 in
         let! (f, e) := parseLinkLabel e f in
         if f >=? 0 then Ret (Some (slice src g f), f + 1, e) else Ret (None, g - 1, e)
       else Ret (None, f, e)) in
    let '(s, f) :=
      match s with
      | Some (x :: s) => (x :: s, f)
      | Some [] => (slice src n u, f)
      | None => (slice src n u, u + 1)
      end in
    match references (senv e) with
    | None => Raise TypeError
    | Some refs =>
        match obj_get refs (normalizeReference toUpperCase s) with
        | None => Ret (None, set_pos v e)
        | Some p => Ret (Some (r_href p, r_title p, f), e)
        end
    end.

Definition links_rule (e : state) (t : bool) : res (bool * state) :=
  let v := pos e in
  let m := posMax e in
  let h := at_ v =? 33 in
  let g := if h then v + 1 else v in
  if negb (at_ g =? 91) then Ret (false, e)
  else if too_deep e then Ret (false, e)
  else
    let n := g + 1 in
    let! (u, e) := parseLinkLabel e g in
    if u <? 0 then Ret (false, e)
    else
      let f := u + 1 in
      let! (target, e) :=
        (if (f <? m) && (at_ f =? 40) then inline_target e (f + 1) m else reference_target e n u f m) in
      match target with
      | None => Ret (false, e)
      | Some (l, c, f) =>
          let! e :=
            (if t then Ret e
             else
               let e := set_posMax u (set_pos n e) in
               if h then Ret (push_leaf (image l c (slice src n u)) e)
               else
                 let e := push_open (link_open l (Some c)) e in
                 let! e := tokenize P (set_linkLevel (linkLevel e + 1) e) in
                 Ret (push_close link_close (set_linkLevel (linkLevel e - 1) e))) in
          Ret (true, set_posMax m (set_pos f e))
      end.

(** Module 1042; [list[i] = x] for an index up to the length *)
Definition list_assign {A} (l : list A) (i : Z) (x : A) : list A :=
  if i <? Z.of_nat (length l) then <[Z.to_nat i := x]> l else l ++ [x].

Definition fn_entries (e : state) : list footnote := default [] (fn_list (notes_of (senv e))).
Definition set_entries (l : list footnote) (e : state) : state :=
  set_senv (set_notes (Footnotes (fn_refs (notes_of (senv e))) (Some l)) (senv e)) e.

Definition footnote_inline_rule (e : state) (t : bool) : res (bool * state) :=
  let u := posMax e in
  let s := pos e in
  if (s + 2 >=? u) || negb (at_ s =? 94) || negb (at_ (s + 1) =? 91) || too_deep e then Ret (false, e)
  else
    let! (o, e) := parseLinkLabel e (s + 1) in
    if o <? 0 then Ret (false, e)
    else
      let! e :=
        (if t then Ret e
         else
           let e := set_entries (fn_entries e) e in
           let i := Z.of_nat (length (fn_entries e)) in
           let e := set_posMax o (set_pos (s + 2) e) in
           let e := push_leaf (footnote_ref i None) e in
           let e := set_linkLevel (linkLevel e + 1) e in
           let a := length (tokens e) in
           let! e := tokenize P e in
           let e := set_entries (list_assign (fn_entries e) i (Footnote (Some (drop a (tokens e))) None None)) e in
           Ret (set_linkLevel (linkLevel e - 1) (set_tokens (take a (tokens e)) e))) in
      Ret (true, set_posMax u (set_pos (o + 1) e)).

(** Module 1043 *)
Definition footnote_ref_rule (e : state) (t : bool) : res (bool * state) :=
  let a := posMax e in
  let u := pos e in
  if u + 3 >? a then Ret (false, e)
  else
    match fn_refs (notes_of (senv e)) with
    | None => Ret (false, e)
    | Some refs =>
        if negb (at_ u =? 91) || negb (at_ (u + 1) =? 94) || too_deep e then Ret (false, e)
        else
          let r := scan (fun c => negb (c =? 32) && negb (c =? 10) && negb (c =? 93)) src (u + 2) a in
          if (r <? a) && space_or_newline (at_ r) || (r =? u + 2) || (r >=? a) then Ret (false, e)
          else
            let r := r + 1 in
            let n := slice src (u + 2) (r - 1) in
            match obj_get refs (58 :: n) with
            | None => Ret (false, e)
            | Some i =>
                let! e :=
                  (if t then Ret e
                   else
                     let l := fn_entries e in
                     let '(o, l, refs) :=
                       if i <? 0 then
                         (Z.of_nat (length l), l ++ [Footnote None (Some n) (Some 0)], obj_set refs (58 :: n) (Z.of_nat (length l)))
                       else (i, l, refs) in
                     match l !! Z.to_nat o with
                     | None => Raise TypeError
                     | Some f =>
                         let l := <[Z.to_nat o := Footnote (fn_tokens f) (fn_label f) (option_map (Z.add 1) (fn_count f))]> l in
                         let e := set_senv (set_notes (Footnotes (Some refs) (Some l)) (senv e)) e in
                         Ret (push_leaf (footnote_ref o (fn_count f)) e)
                     end) in
                Ret (true, set_posMax a (set_pos r e))
            end
    end.

(** Module 1044 *)
Definition push_autolink (c l : str) (e : state) : state :=
  let e := push (Tok (link_open c None) (level e)) e in
  let e := push (Tok (text l) (level e + 1)) e in
  push (Tok link_close (level e)) e.

Definition autolink_rule (e : state) (t : bool) : res (bool * state) :=
  let f := pos e in
  if negb (at_ f =? 60) then Ret (false, e)
  else
    let n := slice_from src f in
    if indexOf n [62] 0 <? 0 then Ret (false, e)
    else
      match match_at autolink_re n 0 with
      | Some u =>
          if negb (existsb (eqs (toLowerCase (group_or_empty n u 1))) url_schemas) then Ret (false, e)
          else
            let l := slice (whole n u) 1 (len (whole n u) - 1) in
            let! c := normalizeLink l in
            if negb (validateLink toLowerCase l) then Ret (false, e)
            else Ret (true, set_pos (pos e + len (whole n u)) (if t then e else push_autolink c l e))
      | None =>
          match match_at email_re n 0 with
          | None => Ret (false, e)
          | Some s =>
              let l := slice (whole n s) 1 (len (whole n s) - 1) in
              let! c := normalizeLink (ascii_units "mailto:" ++ l) in
              if negb (validateLink toLowerCase c) then Ret (false, e)
              else Ret (true, set_pos (pos e + len (whole n s)) (if t then e else push_autolink c l e))
          end
      end.

(** Module 1046 *)
Definition isLetter (c : Z) : bool := let t := js_or 32 c in (t >=? 97) && (t <=? 122).

Definition htmltag_rule (e : state) (t : bool) : res (bool * state) :=
  let a := pos e in
  let n := at_ (a + 1) in
  if negb (html opts) || negb (at_ a =? 60) || (a + 2 >=? posMax e)
     || negb (n =? 33) && negb (n =? 63) && negb (n =? 47) && negb (isLetter n)
  then Ret (false, e)
  else
    match match_at HTML_TAG_RE (slice_from src a) 0 with
    | None => Ret (false, e)
    | Some o =>
        let w := len (whole (slice_from src a) o) in
        Ret (true, set_pos (pos e + w) (if t then e else push_leaf (htmltag (slice src a (a + w))) e))
    end.

(** Module 1048 *)
Definition entity_match (n : str) (r : re) (k : str -> option str) : option (Z * str) :=
  match match_at r n 0 with
  | Some l => option_map (pair (len (whole n l))) (k (group_or_empty n l 1))
  | None => None
  end.

Definition entity_rule (e : state) (t : bool) : res (bool * state) :=
  let c := pos e in
  let n := slice_from src c in
  if negb (at_ c =? 38) then Ret (false, e)
  else
    let hit :=
      if c + 1 <? posMax e then
        if at_ (c + 1) =? 35 then
          entity_match n digital_re (fun g =>
            let n := match g with x :: g' => if is_x x then parseInt16 g' else parseInt10 g | [] => None end in
            Some (if isValidEntityCode n then fromCodePoint n else fromCodePoint (Some 65533)))
        else entity_match n named_re (fun g => obj_get entities g)
      else None in
    match hit with
    | Some (w, p) => Ret (true, set_pos (pos e + w) (if t then e else add_pending p e))
    | None => Ret (true, set_pos (pos e + 1) (if t then e else add_pending [38] e))
    end.

(** ** The parser (module 1030) *)

Definition run_rule (r : inline_rule) : state -> bool -> res (bool * state) :=
  match r with
  | R_text => text_rule
  | R_newline => newline_rule
  | R_escape => escape_rule
  | R_backticks => backticks_rule
  | R_del => del_rule
  | R_ins => ins_rule
  | R_mark => mark_rule
  | R_emphasis => emphasis_rule
  | R_sub => sub_rule
  | R_sup => sup_rule
  | R_links => links_rule
  | R_footnote_inline => footnote_inline_rule
  | R_footnote_ref => footnote_ref_rule
  | R_autolink => autolink_rule
  | R_htmltag => htmltag_rule
  | R_entity => entity_rule
  end.

Fixpoint try_rules (rs : list inline_rule) (e : state) (t : bool) : res (bool * state) :=
  match rs with
  | [] => Ret (false, e)
  | r :: rs => let! (b, e) := run_rule r e t in if b : bool then Ret (true, e) else try_rules rs e t
  end.

Definition skipToken_ (rs : list inline_rule) (e : state) : res state :=
  let i := pos e in
  let n := cacheGet i e in
  if n >? 0 then Ret (set_pos n e)
  else
    let! (b, e) := try_rules rs e true in
    if b : bool then Ret (cacheSet i (pos e) e)
    else let e := set_pos (pos e + 1) e in Ret (cacheSet i (pos e) e).

Fixpoint tokenize_loop (fuel : nat) (rs : list inline_rule) (i : Z) (e : state) : res state :=
  match fuel with
  | O => NoFuel
  | S fuel =>
      if pos e <? i then
        let! (t, e) := try_rules rs e false in
        if t : bool then if pos e >=? i then Ret e else tokenize_loop fuel rs i e
        else tokenize_loop fuel rs i (set_pos (pos e + 1) (add_pending (slice src (pos e) (pos e + 1)) e))
      else Ret e
  end.

Definition tokenize_ (rs : list inline_rule) (e : state) : res state :=
  let! e := tokenize_loop (S (Z.to_nat (posMax e - pos e))) rs (posMax e) e in
  Ret (flush e).

End rules.

Section parser.
  Context (toLowerCase toUpperCase : str -> str) (opts : options) (rs : list inline_rule).

Fixpoint parser_at (src : str) (fuel : nat) : parser :=
  match fuel with
  | O => Parser (fun _ => NoFuel) (fun _ => NoFuel)
  | S fuel =>
      let P := parser_at src fuel in
      Parser (skipToken_ toLowerCase toUpperCase opts src P rs) (tokenize_ toLowerCase toUpperCase opts src P rs)
  end.

(** A call is made on a shorter range, so the length of the source bounds the depth. *)
Definition the_parser (src : str) : parser := parser_at src (S (length src)).

(** [parse]: the tokens and the environment it leaves *)
Definition parse (src : str) (e : env) (out : list token) : res (list token * env) :=
  let! s := tokenize (the_parser src) (newState src e out) in
  Ret (tokens s, senv s).

End parser.

(** ** The presets (modules 1049, 1050 and 1051) *)

Definition default_rules : list inline_rule :=
  [R_text; R_newline; R_escape; R_backticks; R_del; R_emphasis; R_links; R_footnote_ref; R_autolink; R_htmltag; R_entity].
Definition full_rules : list inline_rule :=
  [R_text; R_newline; R_escape; R_backticks; R_del; R_ins; R_mark; R_emphasis; R_sub; R_sup; R_links;
   R_footnote_inline; R_footnote_ref; R_autolink; R_htmltag; R_entity].
Definition commonmark_rules : list inline_rule :=
  [R_text; R_newline; R_escape; R_backticks; R_emphasis; R_links; R_autolink; R_htmltag; R_entity].

Definition default_options : options :=
  Options false false false (ascii_units "language-") false [] false [8220; 8221; 8216; 8217] 20.
