(* ===== verification/MdRender.v ===== *)
(** * The renderer of remarkable

    Modules 1002 and 1003 of swagger-ui-bundle.js: the tokens of the block
    parser and the functions that write tokens as HTML.  The line numbers that
    block tokens carry are left out, since nothing reads them; [highlight] is
    null and [fence_custom] is empty, as in all of the presets. *)

From stdpp Require Import strings.
From S2P Require Import Prelude BufText Entities MdUtils MdBase MdInline.
Local Open Scope Z_scope.
Local Open Scope md_scope.

Notation "'#' s" := (ascii_units s%string) (at level 0, s at level 0) : md_scope.

(** ** Block tokens *)

Inductive align : Set := Left | Right | Center | NoAlign.

Inductive bkind : Type :=
| blockquote_open | blockquote_close
| code_block (content : str)
| fence (params content : str)
| heading_open (hLevel : Z) | heading_close (hLevel : Z)
| hr
| bullet_list_open | bullet_list_close
| ordered_list_open (order : Z) | ordered_list_close
| list_item_open | list_item_close
| paragraph_open (tight : bool) | paragraph_close (tight : bool)
| inline (content : str) (children : list token)
| htmlblock (content : str)
| table_open | table_close | thead_open | thead_close | tbody_open | tbody_close | tr_open | tr_close
| th_open (a : align) | th_close | td_open (a : align) | td_close
| footnote_reference_open (label : str) | footnote_reference_close
| footnote_block_open | footnote_block_close
| footnote_open (id : Z) | footnote_close
| footnote_anchor (id : Z) (subId : Z)
| dl_open | dl_close | dt_open | dt_close | dd_open | dd_close.

Record btoken : Type := BTok { btype : bkind; blevel : Z }.

(** ** The rules *)

Section render.
  Context (numToString : Z -> str) (opts : options).

Definition quote : str := [34].
Definition newline : str := [10].

Definition attr (name : string) (v : str) : str := # name ++ quote ++ v ++ quote.

Definition br : str := if xhtmlOut opts then # "<br />" ++ newline else # "<br>" ++ newline.

Definition footnote_name (id : Z) (subId : option Z) : str :=
  # "fnref" ++ numToString (id + 1)
  ++ match subId with Some n => if n >? 0 then # ":" ++ numToString n else [] | None => [] end.

Definition render_token (k : kind) : str :=
  match k with
  | text c => escapeHtml c
  | softbreak => if breaks opts then br else newline
  | hardbreak => br
  | code c => # "<code>" ++ escapeHtml c ++ # "</code>"
  | del_open => # "<del>" | del_close => # "</del>"
  | ins_open => # "<ins>" | ins_close => # "</ins>"
  | mark_open => # "<mark>" | mark_close => # "</mark>"
  | strong_open => # "<strong>" | strong_close => # "</strong>"
  | em_open => # "<em>" | em_close => # "</em>"
  | sub c => # "<sub>" ++ escapeHtml c ++ # "</sub>"
  | sup c => # "<sup>" ++ escapeHtml c ++ # "</sup>"
  | link_open h t =>
      # "<a" ++ attr " href=" (escapeHtml h)
      ++ match t with Some (x :: t) => attr " title=" (escapeHtml (replaceEntities (x :: t))) | _ => [] end
      ++ match linkTarget opts with [] => [] | t => attr " target=" t end
      ++ # ">"
  | link_close => # "</a>"
  | image s t a =>
      # "<img" ++ attr " src=" (escapeHtml s)
      ++ attr " alt=" (match a with [] => [] | _ => escapeHtml (replaceEntities (unescapeMd a)) end)
      ++ match t with [] => [] | _ => attr " title=" (escapeHtml (replaceEntities t)) end
      ++ (if xhtmlOut opts then # " /" else []) ++ # ">"
  | footnote_ref id subId =>
      let n := numToString (id + 1) in
      # "<sup" ++ attr " class=" (# "footnote-ref") ++ # "><a" ++ attr " href=" (# "#fn" ++ n)
      ++ attr " id=" (footnote_name id subId) ++ # ">[" ++ n ++ # "]</a></sup>"
  | htmltag c => c
  | abbr_open t => # "<abbr" ++ attr " title=" (escapeHtml (replaceEntities t)) ++ # ">"
  | abbr_close => # "</abbr>"
  end.

Definition renderInline (ts : list token) : str := concat (map (fun t => render_token (type t)) ts).

(** [getBreak]: a line break, unless a list item closes after empty tight paragraphs *)
Definition is_tight_open (t : option btoken) : bool := match t with Some (BTok (paragraph_open b) _) => b | _ => false end.
Definition is_tight_close (t : option btoken) : bool := match t with Some (BTok (paragraph_close b) _) => b | _ => false end.
Definition is_empty_inline (t : option btoken) : bool := match t with Some (BTok (inline [] _) _) => true | _ => false end.
Definition is_item_close (t : option btoken) : bool := match t with Some (BTok list_item_close _) => true | _ => false end.

Fixpoint next_token (fuel : nat) (ts : list btoken) (n : nat) : nat :=
  let n := S n in
  match fuel with
  | O => n
  | S fuel =>
      if (length ts - 2 <=? n)%nat then n
      else if is_tight_open (ts !! n) && is_empty_inline (ts !! S n) && is_tight_close (ts !! S (S n))
      then next_token fuel ts (S (S n)) else n
  end.

Definition getBreak (ts : list btoken) (i : nat) : str :=
  if is_item_close (ts !! next_token (length ts) ts i) then [] else newline.

Definition fence_words : re := some_ space.

Definition fence_class (params : str) : str :=
  match params with
  | [] => []
  | _ => attr " class=" (langPrefix opts ++ escapeHtml (replaceEntities (unescapeMd (replace fence_words (fun _ => [32]) params))))
  end.

Definition align_style (a : align) : str :=
  match a with
  | NoAlign => []
  | Left => attr " style=" (# "text-align:left")
  | Right => attr " style=" (# "text-align:right")
  | Center => attr " style=" (# "text-align:center")
  end.

Definition render_btoken (ts : list btoken) (i : nat) (k : bkind) : str :=
  match k with
  | blockquote_open => # "<blockquote>" ++ newline
  | blockquote_close => # "</blockquote>" ++ getBreak ts i
  | code_block c => # "<pre><code>" ++ escapeHtml c ++ # "</code></pre>" ++ getBreak ts i
  | fence p c => # "<pre><code" ++ fence_class p ++ # ">" ++ escapeHtml c ++ # "</code></pre>" ++ getBreak ts i
  | heading_open l => # "<h" ++ numToString l ++ # ">"
  | heading_close l => # "</h" ++ numToString l ++ # ">" ++ newline
  | hr => (if xhtmlOut opts then # "<hr />" else # "<hr>") ++ getBreak ts i
  | bullet_list_open => # "<ul>" ++ newline
  | bullet_list_close => # "</ul>" ++ getBreak ts i
  | list_item_open => # "<li>"
  | list_item_close => # "</li>" ++ newline
  | ordered_list_open n => # "<ol" ++ (if n >? 1 then attr " start=" (numToString n) else []) ++ # ">" ++ newline
  | ordered_list_close => # "</ol>" ++ getBreak ts i
  | paragraph_open tight => if tight then [] else # "<p>"
  | paragraph_close tight =>
      let n := negb (tight && negb (i =? 0)%nat && is_empty_inline (ts !! (i - 1)%nat)) in
      (if tight then [] else # "</p>") ++ (if n then getBreak ts i else [])
  | inline _ children => renderInline children
  | htmlblock c => c
  | table_open => # "<table>" ++ newline | table_close => # "</table>" ++ newline
  | thead_open => # "<thead>" ++ newline | thead_close => # "</thead>" ++ newline
  | tbody_open => # "<tbody>" ++ newline | tbody_close => # "</tbody>" ++ newline
  | tr_open => # "<tr>" | tr_close => # "</tr>" ++ newline
  | th_open a => # "<th" ++ align_style a ++ # ">" | th_close => # "</th>"
  | td_open a => # "<td" ++ align_style a ++ # ">" | td_close => # "</td>"
  | footnote_reference_open _ | footnote_reference_close => []
  | footnote_block_open =>
      # "<hr" ++ attr " class=" (# "footnotes-sep") ++ (if xhtmlOut opts then # " />" else # ">") ++ newline
      ++ # "<section" ++ attr " class=" (# "footnotes") ++ # ">" ++ newline
      ++ # "<ol" ++ attr " class=" (# "footnotes-list") ++ # ">" ++ newline
  | footnote_block_close => # "</ol>" ++ newline ++ # "</section>" ++ newline
  | footnote_open id =>
      # "<li" ++ attr " id=" (# "fn" ++ numToString (id + 1)) ++ attr "  class=" (# "footnote-item") ++ # ">"
  | footnote_close => # "</li>" ++ newline
  | footnote_anchor id subId =>
      # " <a" ++ attr " href=" (# "#" ++ footnote_name id (Some subId)) ++ attr " class=" (# "footnote-backref")
      ++ # ">" ++ [8617] ++ # "</a>"
  | dl_open => # "<dl>" ++ newline | dt_open => # "<dt>" | dd_open => # "<dd>"
  | dl_close => # "</dl>" ++ newline | dt_close => # "</dt>" ++ newline | dd_close => # "</dd>" ++ newline
  end.

(** [render]; a token whose type has no rule is a call of undefined. *)
Definition render_one (ts : list btoken) (i : nat) (t : btoken) : res str :=
  match btype t with
  | footnote_reference_open _ | footnote_reference_close => Raise TypeError
  | k => Ret (render_btoken ts i k)
  end.

Fixpoint render_from (ts rest : list btoken) (i : nat) : res str :=
  match rest with
  | [] => Ret []
  | t :: rest => let! a := render_one ts i t in let! b := render_from ts rest (S i) in Ret (a ++ b)
  end.

Definition render (ts : list btoken) : res str := render_from ts ts 0.

End render.
