(* ===== verification/MdInlineFacts.v ===== *)
(** * The inline parser: progress, levels and nesting

    Every rule that matches moves forward and every rule that does not leaves
    the position alone; what a rule emits is a balanced sequence of tokens.  The
    rules are proved against the contract of the parser they call
    ([parser_ok]), which [parser_at] meets by induction on its fuel. *)

From stdpp Require Import strings relations.
From S2P Require Import Prelude JsObj BufText Entities MdUtils MdBase MdUri MdInline.
Local Open Scope Z_scope.
Local Open Scope md_scope.

(** ** Scanning *)

Lemma scan_bounds n p s i : i <= scan_ n p s i <= i + Z.of_nat n.
Proof. revert i. induction n as [|n IH]; intros i; cbn [scan_]; [lia|]. destruct (p _); [specialize (IH (i + 1))|]; lia. Qed.

Lemma scan_ge p s i max : i <= scan p s i max.
Proof. unfold scan. pose proof (scan_bounds (Z.to_nat (max - i)) p s i). lia. Qed.

Lemma scan_le p s i max : i <= max -> scan p s i max <= max.
Proof. unfold scan. pose proof (scan_bounds (Z.to_nat (max - i)) p s i). lia. Qed.

Lemma scan_gt p s i max : i < max -> p (charCodeAt s i) = true -> i < scan p s i max.
Proof.
  intros Hi Hp. unfold scan. destruct (Z.to_nat (max - i)) as [|n] eqn:E; [lia|]. cbn [scan_]. rewrite Hp.
  pose proof (scan_bounds n p s (i + 1)). lia.
Qed.

Lemma indexOf_char s c i : 0 <= i -> indexOf s [c] i = -1 \/ i <= indexOf s [c] i < len s.
Proof.
  intros Hi. unfold indexOf, slice_from, len.
  assert (forall w i, index_ [c] w i = -1 \/ i <= index_ [c] w i < i + Z.of_nat (length w)) as H.
  { clear. induction w as [|x w IH]; intros i; cbn [index_ is_prefix length]; [lia|]. rewrite andb_true_r.
    destruct (c =? x); [lia|]. destruct (IH (i + 1)); lia. }
  destruct (H (drop (Z.to_nat i) s) i) as [|Hd]; [by left|]. right. rewrite length_drop in Hd. lia.
Qed.

(** ** Regular expressions *)

(** What a matcher accepts, for every continuation. *)
Fixpoint accepts (r : re) (s : str) (i : nat) (c : caps) (j : nat) (d : caps) : Prop :=
  match r with
  | Eps => i = j /\ c = d
  | Chr p => j = S i /\ c = d /\ exists x, s !! i = Some x /\ p x = true
  | Test t => i = j /\ c = d /\ t s i = true
  | Seq a b => exists m e, accepts a s i c m e /\ accepts b s m e j d
  | Alt a b => accepts a s i c j d \/ accepts b s i c j d
  | Grp n a => exists e, accepts a s i c j e /\ d = (n, (i, j)) :: e
  | Star _ a => rtc (fun x y => accepts a s x.1 x.2 y.1 y.2 /\ (x.1 < y.1)%nat) (i, c) (j, d)
  end.

Lemma star_sound {X} g a s (step : nat -> caps -> (nat -> caps -> option X) -> option X) k :
  (forall i c k x, step i c k = Some x -> exists j d, accepts a s i c j d /\ k j d = Some x) ->
  forall n i c x, star g step k n i c = Some x -> exists j d, accepts (Star g a) s i c j d /\ k j d = Some x.
Proof.
  intros Hstep. induction n as [|n IH]; intros i c x; cbn [star].
  - assert (k i c = Some x -> exists j d, accepts (Star g a) s i c j d /\ k j d = Some x) as H.
    { exists i, c. split; [apply rtc_refl|done]. }
    destruct g; [exact H|]. destruct (k i c); [exact H|done].
  - set (more := step _ _ _).
    assert (more = Some x -> exists j d, accepts (Star g a) s i c j d /\ k j d = Some x) as Hm.
    { intros (m & e & Ha & H)%Hstep. destruct (Nat.leb_spec m i); [done|]. apply IH in H as (j & d & H & ?).
      exists j, d. split; [|done]. eapply rtc_l; [|exact H]. done. }
    assert (k i c = Some x -> exists j d, accepts (Star g a) s i c j d /\ k j d = Some x) as Hk.
    { exists i, c. split; [apply rtc_refl|done]. }
    destruct g; [destruct more|destruct (k i c)]; auto.
Qed.

Lemma matcher_sound {X} r s : forall i c (k : nat -> caps -> option X) x,
  matcher r s i c k = Some x -> exists j d, accepts r s i c j d /\ k j d = Some x.
Proof.
  induction r as [|p|t|a IHa b IHb|a IHa b IHb|g a IH|n a IH]; intros i c k x.
  - cbn. eauto.
  - cbn. destruct (s !! i) as [y|] eqn:E; [|done]. destruct (p y) eqn:Ep; [|done]. intros H. exists (S i), c. eauto 10.
  - cbn. destruct (t s i) eqn:E; [|done]. eauto 10.
  - cbn. intros (m & e & Ha & H)%IHa. apply IHb in H as (j & d & Hb & H). eauto 10.
  - cbn. destruct (matcher a s i c k) eqn:E; [intros [= ->]; apply IHa in E as (j & d & ? & ?)|intros (j & d & ? & ?)%IHb]; eauto.
  - apply star_sound. intros. by apply IH.
  - cbn. intros (j & d & Ha & H)%IH. eauto 10.
Qed.

Lemma match_at_sound r s i f : match_at r s i = Some f -> f_start f = i /\ accepts r s i [] (f_end f) (f_caps f).
Proof. intros (j & d & Ha & [= <-])%matcher_sound. done. Qed.

(** Matches stay within the string, and consume what the expression needs. *)
Fixpoint min_length (r : re) : nat :=
  match r with
  | Eps | Test _ | Star _ _ => 0
  | Chr _ => 1
  | Seq a b => min_length a + min_length b
  | Alt a b => Nat.min (min_length a) (min_length b)
  | Grp _ a => min_length a
  end%nat.

Lemma accepts_bounds r s i c j d :
  accepts r s i c j d -> (i <= length s -> j <= length s)%nat /\ (i + min_length r <= j)%nat.
Proof.
  revert i c j d. induction r as [|p|t|a IHa b IHb|a IHa b IHb|g a IH|n a IH]; intros i c j d; cbn [accepts min_length].
  - intros [-> _]. lia.
  - intros (-> & _ & x & H%lookup_lt_Some & _). lia.
  - intros (-> & _). lia.
  - intros (m & e & Ha%IHa & Hb%IHb). lia.
  - intros [H%IHa|H%IHb]; lia.
  - intros H. assert (forall x y, rtc (fun x y : nat * caps => accepts a s x.1 x.2 y.1 y.2 /\ (x.1 < y.1)%nat) x y ->
      (x.1 <= length s -> y.1 <= length s)%nat /\ (x.1 <= y.1)%nat) as HR.
    { intros x y HR. induction HR as [|x y z [H1%IH H2] _ IH']; lia. }
    apply HR in H. cbn in H. lia.
  - intros (e & H%IH & _). lia.
Qed.

Lemma match_at_whole r s f : match_at r s 0 = Some f -> length (whole s f) = f_end f /\ (min_length r <= f_end f)%nat.
Proof.
  intros [H0 [H1 H2]%accepts_bounds]%match_at_sound. unfold whole, piece. rewrite H0, Nat.sub_0_r, drop_0, length_take. lia.
Qed.

(** ** Balanced tokens *)

Definition leaf (k : kind) : bool :=
  match k with
  | text _ | softbreak | hardbreak | code _ | sub _ | sup _ | image _ _ _ | footnote_ref _ _ | htmltag _ => true
  | _ => false
  end.

Definition closes (o c : kind) : bool :=
  match o, c with
  | del_open, del_close | ins_open, ins_close | mark_open, mark_close | strong_open, strong_close
  | em_open, em_close | link_open _ _, link_close | abbr_open _, abbr_close => true
  | _, _ => false
  end.

Inductive balanced : Z -> list token -> Prop :=
| bal_nil l : balanced l []
| bal_leaf l k ts : leaf k = true -> balanced l ts -> balanced l (Tok k l :: ts)
| bal_pair l o c ts ts' :
    closes o c = true -> balanced (l + 1) ts -> balanced l ts' -> balanced l (Tok o l :: ts ++ Tok c l :: ts').

Lemma balanced_app l ts ts' : balanced l ts -> balanced l ts' -> balanced l (ts ++ ts').
Proof.
  induction 1 as [|l k ts Hk H IH|l o c ts1 ts2 Hc H1 _ H2 IH]; intros H'; cbn [app]; [done|constructor; auto|].
  rewrite <- app_assoc. cbn [app]. apply bal_pair; auto.
Qed.

Lemma balanced_leaf l k : leaf k = true -> balanced l [Tok k l].
Proof. intros. constructor; [done|constructor]. Qed.

Lemma balanced_pair l o c ts : closes o c = true -> balanced (l + 1) ts -> balanced l (Tok o l :: ts ++ [Tok c l]).
Proof. intros. apply bal_pair; [done..|constructor]. Qed.

(** ** The contract *)

Definition cache_ok (s : state) : Prop := forall i, 0 <= i -> cacheGet i s > 0 -> i < cacheGet i s.

Lemma cacheGet_set i t s j :
  0 <= i -> 0 <= j -> cacheGet j (cacheSet i t s) = if j =? i then t else cacheGet j s.
Proof.
  intros Hi Hj. unfold cacheGet, cacheSet, len. cbn [cache set_cache]. rewrite length_insert, length_app, length_replicate.
  destruct (Z.eqb_spec j i) as [->|Hne].
  - destruct (Z.ltb_spec i (Z.of_nat (length (cache s) + Z.to_nat (i + 1 - Z.of_nat (length (cache s)))))); [|lia].
    rewrite list_lookup_insert_eq; [done|]. rewrite length_app, length_replicate. lia.
  - rewrite list_lookup_insert_ne by lia. destruct (Z.ltb_spec j (Z.of_nat (length (cache s)))).
    + destruct (Z.ltb_spec j (Z.of_nat (length (cache s) + Z.to_nat (i + 1 - Z.of_nat (length (cache s)))))); [|lia].
      by rewrite lookup_app_l by lia.
    + destruct (Z.ltb_spec j (Z.of_nat (length (cache s) + Z.to_nat (i + 1 - Z.of_nat (length (cache s)))))); [|done].
      rewrite lookup_app_r by lia. by rewrite lookup_replicate_2 by lia.
Qed.

Lemma cache_ok_set i t s : 0 <= i < t -> cache_ok s -> cache_ok (cacheSet i t s).
Proof. intros Hi H j Hj. rewrite cacheGet_set by lia. destruct (Z.eqb_spec j i) as [->|]; [lia|]. by apply H. Qed.

Lemma cache_ok_eq s s' : cache s' = cache s -> cache_ok s -> cache_ok s'.
Proof. unfold cache_ok, cacheGet. by intros ->. Qed.

(** What the parser may emit. *)
Class Allowed (toLowerCase : str -> str) (opts : options) (allowed : kind -> Prop) : Prop := {
  allowed_link h t : h = [] \/ validateLink toLowerCase h = true -> allowed (link_open h t);
  allowed_image h t a : h = [] \/ validateLink toLowerCase h = true -> allowed (image h t a);
  allowed_autolink n u c :
    match_at autolink_re n 0 = Some u ->
    let l := slice (whole n u) 1 (len (whole n u) - 1) in
    validateLink toLowerCase l = true -> normalizeLink l = Ret c -> allowed (link_open c None);
  allowed_html c : html opts = true -> allowed (htmltag c);
  allowed_other k :
    match k with link_open _ _ | image _ _ _ | htmltag _ | abbr_open _ | abbr_close => False | _ => True end -> allowed k }.

Section contract.
  Context (toLowerCase toUpperCase : str -> str) (opts : options) (allowed : kind -> Prop).
  (** Whether no footnote is defined by a block, and the abbreviations. *)
  Context (norefs : bool) (abbrs : option (list (str * str))).
  Context {HA : Allowed toLowerCase opts allowed}.

Definition good (l : Z) (ts : list token) : Prop := balanced l ts /\ Forall (fun t => allowed (type t)) ts.

(** The destinations a link or an image may have. *)
Definition href_ok (h : str) : Prop := (forall t, allowed (link_open h t)) /\ (forall t a, allowed (image h t a)).

Lemma href_ok_valid h : h = [] \/ validateLink toLowerCase h = true -> href_ok h.
Proof. intros H. split; intros; [by apply allowed_link|by apply allowed_image]. Qed.

Definition entry_ok (f : footnote) : Prop := match fn_tokens f with Some ts => exists l, good l ts | None => norefs = false end.

(** The indices of footnotes are negative until the footnote has an entry. *)
Definition refs_ok (f : footnotes) : Prop :=
  forall refs k i, fn_refs f = Some refs -> obj_get refs k = Some i -> i < Z.of_nat (length (default [] (fn_list f))).

Record env_ok (e : env) : Prop := {
  env_refs refs k r : references e = Some refs -> obj_get refs k = Some r -> href_ok (r_href r);
  env_has_refs : references e <> None;
  env_abbrs : abbreviations e = abbrs;
  env_norefs : norefs = true -> fn_refs (notes_of e) = None;
  env_indices : refs_ok (notes_of e);
  env_notes : Forall entry_ok (default [] (fn_list (notes_of e))) }.

Record ok (s : state) : Prop := {
  ok_pos : 0 <= pos s;
  ok_cache : cache_ok s;
  ok_level : pendingLevel s = level s;
  ok_env : env_ok (senv s) }.

(** Skipping leaves all but the position and the notes of the parser alone. *)
Record quiet (s s' : state) : Prop := {
  q_posMax : posMax s' = posMax s;
  q_level : level s' = level s;
  q_pending : pending s' = pending s;
  q_pendingLevel : pendingLevel s' = pendingLevel s;
  q_tokens : tokens s' = tokens s;
  q_env : senv s' = senv s;
  q_cache : cache_ok s' }.

(** Parsing emits good tokens. *)
Record emits (s s' : state) : Prop := {
  e_level : level s' = level s;
  e_pendingLevel : pendingLevel s' = level s;
  e_tokens : exists ts, tokens s' = tokens s ++ ts /\ good (level s) ts;
  e_env : env_ok (senv s');
  e_cache : cache_ok s' }.

Lemma good_nil l : good l [].
Proof. split; constructor. Qed.

Lemma good_app l ts ts' : good l ts -> good l ts' -> good l (ts ++ ts').
Proof. intros [? ?] [? ?]. split; [by apply balanced_app|by apply Forall_app]. Qed.

Lemma good_leaf l k : leaf k = true -> allowed k -> good l [Tok k l].
Proof. intros. split; [by apply balanced_leaf|by repeat constructor]. Qed.

Lemma good_pair l o c ts : closes o c = true -> allowed o -> allowed c -> good (l + 1) ts -> good l (Tok o l :: ts ++ [Tok c l]).
Proof. intros ??? [??]. split; [by apply balanced_pair|]. constructor; [done|]. apply Forall_app. by repeat constructor. Qed.

Lemma quiet_refl s : cache_ok s -> quiet s s.
Proof. by constructor. Qed.

Lemma quiet_trans s s' s'' : quiet s s' -> quiet s' s'' -> quiet s s''.
Proof. intros [] []. constructor; congruence || done. Qed.

Lemma emits_quiet s s' : ok s -> quiet s s' -> emits s s'.
Proof.
  intros [_ _ Hl He] [Hm Hl' Hp Hpl Ht Hse Hc]. constructor; [done|congruence| |by rewrite Hse|done].
  exists []. rewrite app_nil_r. split; [done|apply good_nil].
Qed.

Lemma emits_refl s : ok s -> emits s s.
Proof. intros H. apply emits_quiet; [done|]. apply quiet_refl, H. Qed.

Lemma emits_trans s s' s'' : emits s s' -> emits s' s'' -> emits s s''.
Proof.
  intros [L1 P1 (ts1 & T1 & G1) _ _] [L2 P2 (ts2 & T2 & G2) E2 C2]. rewrite L1 in *. constructor; [congruence..| |done|done].
  exists (ts1 ++ ts2). rewrite T2, T1, app_assoc. split; [done|by apply good_app].
Qed.

Lemma emits_ok s s' : emits s s' -> 0 <= pos s' -> ok s'.
Proof. intros [L P _ E C] ?. constructor; [done..|congruence|done]. Qed.

Lemma quiet_ok s s' : ok s -> quiet s s' -> 0 <= pos s' -> ok s'.
Proof. intros H Hq. by apply (emits_ok s), emits_quiet. Qed.

(** Only what the contract mentions matters. *)
Lemma emits_frame s s1 s' s1' :
  emits s s' ->
  level s1 = level s -> tokens s1 = tokens s ->
  level s1' = level s' -> pendingLevel s1' = pendingLevel s' -> tokens s1' = tokens s' -> senv s1' = senv s' -> cache s1' = cache s' ->
  emits s1 s1'.
Proof.
  intros [L P T E C] H1 H2 H3 H4 H5 H6 H7. constructor; rewrite ?H1, ?H2, ?H3, ?H4, ?H5, ?H6; try done. by apply (cache_ok_eq s').
Qed.

Lemma emits_flush s : ok s -> emits s (flush s).
Proof.
  intros H. unfold flush. destruct (pending s) as [|x p] eqn:E; [by apply emits_refl|]. destruct H as [_ Hc Hl He].
  constructor; [done|exact Hl| |done|by apply (cache_ok_eq s)]. exists [Tok (text (pending s)) (pendingLevel s)]. split; [done|]. rewrite Hl.
  apply good_leaf; [done|]. by apply allowed_other.
Qed.

Lemma pending_flush s : pending (flush s) = [].
Proof. unfold flush. by destruct (pending s) eqn:E. Qed.

Lemma pos_flush s : pos (flush s) = pos s.
Proof. unfold flush. by destruct (pending s). Qed.

Lemma posMax_flush s : posMax (flush s) = posMax s.
Proof. unfold flush. by destruct (pending s). Qed.

Lemma emits_push_leaf k s : ok s -> leaf k = true -> allowed k -> emits s (push_leaf k s).
Proof.
  intros H Hk Ha. pose proof (emits_flush s H) as [L P (ts & T & G) E C].
  constructor; [done|exact L| |done|by apply (cache_ok_eq (flush s))].
  exists (ts ++ [Tok k (level s)]). cbn. rewrite T, app_assoc. split; [done|]. apply good_app; [done|]. by apply good_leaf.
Qed.

Lemma push_facts t s :
  pos (push t s) = pos s /\ posMax (push t s) = posMax s /\ pending (push t s) = [] /\ level (push t s) = level s.
Proof. unfold push. cbn. rewrite pos_flush, posMax_flush, pending_flush. repeat split. unfold flush. by destruct (pending s). Qed.

(** What a pair of tokens encloses, whatever the positions. *)
Lemma emits_nest o c s s' :
  ok s -> closes o c = true -> allowed o -> allowed c ->
  emits (push_open o s) s' -> pending s' = [] -> emits s (push_close c s').
Proof.
  intros H Hc Ho Ha Hs Hp. pose proof (emits_flush s H) as [L P (ts & T & G) E C].
  destruct Hs as [L' P' (ts' & T' & G') E' C'].
  assert (flush (set_level (level s + 1) s) = set_level (level s + 1) (flush s)) as Hf by (unfold flush; by destruct s as [??? []]).
  assert (level (push_open o s) = level s + 1) as Hl by (unfold push_open, push; by rewrite Hf).
  assert (tokens (push_open o s) = tokens s ++ ts ++ [Tok o (level s)]) as Ht.
  { unfold push_open, push. rewrite Hf. cbn. by rewrite T, app_assoc. }
  rewrite Hl in *. rewrite Ht in T'.
  assert (flush (set_level (level s' - 1) s') = set_level (level s' - 1) s') as Hf' by (unfold flush; cbn; by rewrite Hp).
  unfold push_close, push. rewrite Hf'. constructor; cbn; [lia|lia| |done|by apply (cache_ok_eq s')].
  exists (ts ++ Tok o (level s) :: ts' ++ [Tok c (level s)]). replace (level s' - 1) with (level s) by lia.
  rewrite T'. split; [by rewrite <- !app_assoc|]. apply good_app; [done|]. by apply good_pair.
Qed.

Lemma ok_push_open o s : ok s -> ok (push_open o s).
Proof.
  intros H. pose proof (emits_flush s H) as [L P _ E C].
  assert (flush (set_level (level s + 1) s) = set_level (level s + 1) (flush s)) as Hf by (unfold flush; by destruct s as [??? []]).
  unfold push_open, push. rewrite Hf. constructor; cbn; [|by apply (cache_ok_eq (flush s))|done|done].
  rewrite pos_flush. apply H.
Qed.

(** ** The parser as the rules see it *)

Definition room (s : state) : Z := Z.max 0 (posMax s - pos s).

Record parser_ok (n : Z) (P : parser) : Prop := {
  p_skip s : ok s -> pos s < posMax s -> room s < n -> returns (skipToken P s) (fun s' => quiet s s' /\ pos s < pos s');
  p_tok s : ok s -> room s < n ->
    returns (tokenize P s) (fun s' => emits s s' /\ posMax s' = posMax s /\ pending s' = []) }.

(** What a rule does: in silent mode nothing but move. *)
Definition does (t : bool) (s s' : state) : Prop := if t then quiet s s' else emits s s' /\ posMax s' = posMax s.

Definition outcome (t : bool) (s : state) (r : bool * state) : Prop :=
  let '(b, s') := r in does t s s' /\ if b then pos s < pos s' else pos s' = pos s.

Lemma does_quiet t s s' : ok s -> quiet s s' -> does t s s'.
Proof. intros H Hq. destruct t; [done|]. split; [by apply emits_quiet|apply Hq]. Qed.

Lemma does_refl t s : ok s -> does t s s.
Proof. intros H. apply does_quiet; [done|]. apply quiet_refl, H. Qed.

Lemma quiet_set_pos x s s' : quiet s s' -> quiet s (set_pos x s').
Proof. intros []. by constructor. Qed.

Lemma emits_set_pos x s s' : emits s s' -> emits s (set_pos x s').
Proof. intros []. by constructor. Qed.

Lemma does_set_pos x t s s' : does t s s' -> does t s (set_pos x s').
Proof. destruct t; cbn; [apply quiet_set_pos|]. intros [? ?]. split; [by apply emits_set_pos|done]. Qed.

Lemma does_act x (t : bool) s s' :
  ok s -> emits s s' -> posMax s' = posMax s -> does t s (set_pos x (if t then s else s')).
Proof. intros H He Hm. apply does_set_pos. destruct t; [apply quiet_refl, H|done]. Qed.

Lemma emits_add_pending w s : ok s -> emits s (add_pending w s).
Proof. intros H. apply (emits_frame s s s); [by apply emits_refl|done..]. Qed.

Lemma ok_set_pending w s : ok s -> ok (set_pending w s).
Proof. intros []. by constructor. Qed.

Lemma ok_set_pos x s : ok s -> 0 <= x -> ok (set_pos x s).
Proof. intros [] ?. by constructor. Qed.

Lemma outcome_false t s : ok s -> outcome t s (false, s).
Proof. intros H. split; [by apply does_refl|done]. Qed.

Lemma outcome_quiet t s s' : ok s -> quiet s s' -> pos s' = pos s -> outcome t s (false, s').
Proof. intros. split; [by apply does_quiet|done]. Qed.

Section rules.
  Context (src : str) (P : parser) (n : Z) (HP : parser_ok n P).

Lemma quiet_set_isInLabel b s s' : quiet s s' -> quiet s (set_isInLabel b s').
Proof. intros []. by constructor. Qed.

Lemma quiet_set_scopes b s s' : quiet s s' -> quiet s (set_scopes b s').
Proof. intros []. by constructor. Qed.

Lemma quiet_set_linkContent b s s' : quiet s s' -> quiet s (set_linkContent b s').
Proof. intros []. by constructor. Qed.

(** A step of a loop that skips a token and goes on. *)
Lemma skip_step {A} (k : state -> res A) (Q : A -> Prop) s :
  ok s -> pos s < posMax s -> room s < n ->
  (forall s', quiet s s' -> pos s < pos s' -> ok s' -> returns (k s') Q) ->
  returns (bind (skipToken P s) k) Q.
Proof.
  intros H Hp Hr Hk. eapply returns_bind; [by apply (p_skip _ _ HP)|]. intros s' [Hq Hlt]. apply Hk; [done..|].
  apply (quiet_ok s); [done..|]. destruct H. lia.
Qed.

Lemma label_loop_spec fuel a k s :
  ok s -> a = posMax s -> room s < n -> a - pos s < Z.of_nat fuel -> (0 < fuel)%nat ->
  returns (label_loop src P fuel a k s) (fun '(r, _, s') => quiet s s' /\ pos s <= pos s' /\ (r = true -> pos s' < a)).
Proof.
  revert k s. induction fuel as [|fuel IH]; intros k s H -> Hr Hf Hf0; [lia|]. cbn [label_loop].
  destruct (Z.ltb_spec (pos s) (posMax s)); [|cbn; repeat split; [apply H|lia|done]].
  destruct (_ && _); [cbn; repeat split; [apply H|lia|lia]|].
  apply skip_step; [done..|]. intros s' Hq Hlt H'. pose proof (q_posMax _ _ Hq) as Hm. unfold room in *.
  eapply returns_weaken; [apply IH; [done|done|unfold room; lia..]|].
  intros [[r k'] s''] (Hq' & ? & ?). split; [by apply (quiet_trans s s')|]. split; [lia|done].
Qed.

Lemma parseLinkLabel_spec s t :
  ok s -> 0 <= t -> posMax s - t - 1 < n -> 0 < n ->
  returns (parseLinkLabel src P s t) (fun '(i, s') => quiet s s' /\ pos s' = pos s /\ (i = -1 \/ t < i < posMax s)).
Proof.
  intros H Ht Hn Hn0. unfold parseLinkLabel. destruct (isInLabel s).
  { cbn. repeat split; [apply H|by left]. }
  destruct (negb _).
  { cbn. split; [|by split; [|left]]. by apply quiet_set_scopes, quiet_refl, H. }
  set (s0 := set_isInLabel true (set_pos (t + 1) s)).
  assert (ok s0) as H0 by (destruct H; constructor; try done; cbn; lia).
  eapply returns_bind; [apply (label_loop_spec _ _ _ s0); [done|done|unfold room; cbn; lia|cbn; lia|lia]|].
  intros [[r k] s'] (Hq & Hp & Hlt). cbn in Hp, Hlt. assert (quiet s s') as Hq' by (destruct Hq; by constructor).
  destruct r; cbn.
  - split; [by apply quiet_set_isInLabel, quiet_set_pos, quiet_set_scopes|]. split; [done|]. right. specialize (Hlt eq_refl). lia.
  - split; [by apply quiet_set_isInLabel, quiet_set_pos, quiet_set_scopes|]. by split; [|left].
Qed.

Lemma angle_loop_spec fuel t s t' : angle_loop src fuel t s = Some t' -> t <= t' < s.
Proof.
  revert t. induction fuel as [|fuel IH]; intros t; cbn [angle_loop]; [done|]. destruct (Z.ltb_spec t s); [|done].
  destruct (_ =? 10); [done|]. destruct (_ =? 62); [intros [= <-]; lia|]. intros Ht%IH. destruct (_ && _); lia.
Qed.

Lemma bare_loop_spec fuel i t s : t <= bare_loop src fuel i t s.
Proof.
  revert i t. induction fuel as [|fuel IH]; intros i t; cbn [bare_loop]; [lia|].
  destruct ((t <? s) && _ && _); [|lia]. destruct (_ && (t + 1 <? s)); [specialize (IH i (t + 2)); lia|].
  destruct (_ && _); [lia|]. destruct (_ && _); [lia|].
  match goal with |- context [bare_loop src fuel ?j (t + 1) s] => specialize (IH j (t + 1)) end. lia.
Qed.

Lemma title_loop_spec fuel a t i t' : title_loop src fuel a t i = Some t' -> t <= t' < i.
Proof.
  revert t. induction fuel as [|fuel IH]; intros t; cbn [title_loop]; [done|]. destruct (Z.ltb_spec t i); [|done].
  destruct (_ =? a); [intros [= <-]; lia|]. intros Ht%IH. destruct (_ && _); lia.
Qed.

Lemma normalizeLink_returns e : returns (normalizeLink e) (fun c => normalizeLink e = Ret c).
Proof. unfold normalizeLink. by destruct (encodeURI _). Qed.

Lemma parseLinkDestination_spec s t :
  cache_ok s ->
  returns (parseLinkDestination toLowerCase src s t) (fun '(b, s') =>
    quiet s s' /\ if b then t < pos s' /\ validateLink toLowerCase (linkContent s') = true else s' = s).
Proof.
  intros Hc. unfold parseLinkDestination. destruct (_ =? 60).
  - destruct (angle_loop _ _ _ _) as [t'|] eqn:E; [|by cbn; split; [apply quiet_refl|]]. apply angle_loop_spec in E.
    eapply returns_bind; [apply normalizeLink_returns|]. intros a _.
    destruct (validateLink _ a) eqn:Ev; cbn; [|by split; [apply quiet_refl|]].
    split; [by apply quiet_set_linkContent, quiet_set_pos, quiet_refl|]. split; [lia|done].
  - pose proof (bare_loop_spec (Z.to_nat (posMax s - t)) 0 t (posMax s)) as Hb.
    destruct (Z.eqb_spec t (bare_loop src (Z.to_nat (posMax s - t)) 0 t (posMax s))); [by cbn; split; [apply quiet_refl|]|].
    destruct (validateLink _ _) eqn:Ev; cbn; [|by split; [apply quiet_refl|]].
    split; [by apply quiet_set_pos, quiet_set_linkContent, quiet_refl|]. split; [lia|done].
Qed.

Lemma parseLinkTitle_spec s t :
  cache_ok s ->
  let '(b, s') := parseLinkTitle src s t in quiet s s' /\ if b then t < pos s' else s' = s.
Proof.
  intros Hc. unfold parseLinkTitle. destruct (_ && _); [by split; [apply quiet_refl|]|].
  destruct (title_loop _ _ _ _ _) as [t'|] eqn:E; [|by split; [apply quiet_refl|]]. apply title_loop_spec in E.
  split; [by apply quiet_set_linkContent, quiet_set_pos, quiet_refl|]. cbn. lia.
Qed.

(** ** The rules that call no other *)

Definition ready (s : state) : Prop := ok s /\ pos s < posMax s <= pos s + n.

Lemma text_rule_spec t s : ready s -> returns (text_rule src s t) (outcome t s).
Proof.
  intros [H Hp]. unfold text_rule. set (m := scan _ _ _ _). destruct (Z.eqb_spec m (pos s)); [by apply outcome_false|].
  pose proof (scan_ge (neg isTerminatorChar) src (pos s) (posMax s)). split; [|cbn; lia].
  apply does_act; [done|by apply emits_add_pending|done].
Qed.

Lemma emits_break k w s : ok s -> leaf k = true -> allowed k -> emits s (push_leaf k (set_pending w s)).
Proof.
  intros H Hk Ha. apply (emits_frame (set_pending w s) s (push_leaf k (set_pending w s))); [|done..].
  apply emits_push_leaf; [by apply ok_set_pending|done..].
Qed.

Lemma push_leaf_posMax k s : posMax (push_leaf k s) = posMax s.
Proof. apply push_facts. Qed.

Lemma newline_rule_spec t s : ready s -> returns (newline_rule src s t) (outcome t s).
Proof.
  intros [H Hp]. unfold newline_rule. destruct (negb _); [by apply outcome_false|].
  match goal with |- context [set_pos ?x (if t then _ else ?y)] => assert (emits s y /\ posMax y = posMax s) as [He Hm] end.
  { repeat case_match; rewrite push_leaf_posMax; (split; [|done]);
      first [apply emits_break | apply emits_push_leaf]; try done; by apply allowed_other. }
  split; [by apply does_act|]. cbn. pose proof (scan_ge (Z.eqb 32) src (pos s + 1) (posMax s)). lia.
Qed.

Lemma escape_rule_spec t s : ready s -> returns (escape_rule src s t) (outcome t s).
Proof.
  intros [H Hp]. unfold escape_rule. destruct (negb _); [by apply outcome_false|].
  destruct (_ && escapable _); [|destruct (_ && _)]; (split; [apply does_act; [done| |]|cbn]); try done; try lia;
    try by apply emits_add_pending.
  - apply emits_push_leaf; [done..|]. by apply allowed_other.
  - apply push_leaf_posMax.
  - pose proof (scan_ge (Z.eqb 32) src (pos s + 2) (posMax s)). lia.
Qed.

Lemma backticks_loop_spec fuel a r o :
  0 <= a -> len src - a < Z.of_nat fuel -> (0 < fuel)%nat ->
  returns (backticks_loop src fuel a r o) (fun m => match m with Some (i, b) => a <= i < b | None => True end).
Proof.
  revert a. induction fuel as [|fuel IH]; intros a Ha Hf Hf0; [lia|]. cbn [backticks_loop].
  pose proof (indexOf_char src 96 a Ha) as Hi. destruct (Z.eqb_spec (indexOf src [96] a) (-1)); [done|].
  set (i := indexOf src [96] a) in *. pose proof (scan_ge (Z.eqb 96) src (i + 1) r) as Hs. set (b := scan _ _ _ _) in *.
  destruct (_ =? o); [cbn; lia|]. eapply returns_weaken; [apply IH; lia|]. intros [[i' b']|]; lia.
Qed.

Lemma backticks_rule_spec t s : ready s -> returns (backticks_rule src s t) (outcome t s).
Proof.
  intros [H Hp]. pose proof (ok_pos _ H) as Hpos. unfold backticks_rule. destruct (negb _); [by apply outcome_false|].
  pose proof (scan_ge (Z.eqb 96) src (pos s + 1) (posMax s)) as Hu. set (u := scan _ _ _ _) in *.
  eapply returns_bind; [apply backticks_loop_spec; unfold len; lia|]. intros [[i a]|] Hm; (split; [apply does_act; [done| |]|cbn]).
  - apply emits_push_leaf; [done..|]. by apply allowed_other.
  - apply push_leaf_posMax.
  - lia.
  - by apply emits_add_pending.
  - done.
  - lia.
Qed.

Lemma push_again t s : pending s = [] -> push t s = set_pendingLevel (level s) (set_tokens (tokens s ++ [t]) s).
Proof. intros E. unfold push, flush. by rewrite E. Qed.

Lemma emits_push_autolink c l s : ok s -> allowed (link_open c None) -> emits s (push_autolink c l s).
Proof.
  intros H Hc. pose proof (emits_flush s H) as [L Pl (ts & T & G) E C]. unfold push_autolink.
  pose proof (push_facts (Tok (link_open c None) (level s)) s) as (_ & _ & Hp & Hl).
  set (s1 := push _ s) in *. rewrite (push_again _ s1) by done. rewrite push_again by done.
  constructor; cbn; rewrite ?Hl; [done|done| |done|by apply (cache_ok_eq (flush s))].
  rewrite T, <- !app_assoc, L. eexists. split; [done|]. apply good_app; [done|].
  apply (good_pair (level s) (link_open c None) link_close [Tok (text l) (level s + 1)]); [done|done|by apply allowed_other|].
  apply good_leaf; [done|by apply allowed_other].
Qed.

Lemma autolink_pos t s c l w :
  ready s -> allowed (link_open c None) -> 0 < w ->
  outcome t s (true, set_pos (pos s + w) (if t then s else push_autolink c l s)).
Proof.
  intros [H Hp] Hc Hw. split; [|cbn; lia]. apply does_act; [done|by apply emits_push_autolink|].
  unfold push_autolink. etrans; [apply push_facts|]. etrans; [apply push_facts|]. apply push_facts.
Qed.

Lemma autolink_rule_spec t s : ready s -> returns (autolink_rule toLowerCase src s t) (outcome t s).
Proof.
  intros Hr. pose proof Hr as [H Hp]. unfold autolink_rule. destruct (negb _); [by apply outcome_false|].
  destruct (_ <? 0); [by apply outcome_false|]. set (w := slice_from src (pos s)).
  destruct (match_at autolink_re w 0) as [u|] eqn:Eu; [|destruct (match_at email_re w 0) as [u|] eqn:Em; [|by apply outcome_false]].
  - destruct (negb _); [by apply outcome_false|]. eapply returns_bind; [apply normalizeLink_returns|]. intros c Hc.
    destruct (validateLink _ _) eqn:Ev; cbn [negb]; [|by apply outcome_false].
    pose proof (match_at_whole _ _ _ Eu) as [Hl Hm]. apply autolink_pos; [done| |].
    + by apply (allowed_autolink w u).
    + unfold len. cbn in Hm. lia.
  - eapply returns_bind; [apply normalizeLink_returns|]. intros c Hc.
    destruct (validateLink _ _) eqn:Ev; cbn [negb]; [|by apply outcome_false].
    pose proof (match_at_whole _ _ _ Em) as [Hl Hm]. apply autolink_pos; [done| |].
    + apply allowed_link. by right.
    + unfold len. cbn in Hm. lia.
Qed.

Lemma htmltag_rule_spec t s : ready s -> returns (htmltag_rule opts src s t) (outcome t s).
Proof.
  intros [H Hp]. unfold htmltag_rule. destruct (_ || _) eqn:E; [by apply outcome_false|].
  destruct (match_at _ _ _) as [o|] eqn:Eo; [|by apply outcome_false].
  pose proof (match_at_whole _ _ _ Eo) as [Hl Hm]. split; [apply does_act; [done| |by apply push_leaf_posMax]|].
  - apply emits_push_leaf; [done..|]. apply allowed_html. rewrite !orb_false_iff, !negb_false_iff in E. apply E.
  - cbn in Hm |- *. unfold len. lia.
Qed.

Lemma entity_match_pos w r k :
  (0 < min_length r)%nat -> match entity_match w r k with Some (x, _) => 0 < x | None => True end.
Proof.
  intros Hr. unfold entity_match. destruct (match_at r w 0) as [l|] eqn:El; [|done]. destruct (k _); [|done]. cbn.
  pose proof (match_at_whole _ _ _ El) as [Hl Hm]. unfold len. lia.
Qed.

Lemma entity_rule_spec t s : ready s -> returns (entity_rule src s t) (outcome t s).
Proof.
  intros [H Hp]. unfold entity_rule. destruct (negb _); [by apply outcome_false|].
  match goal with |- context [match ?h with Some _ => _ | None => _ end] =>
    assert (match h with Some (w, _) => 0 < w | None => True end) as Hw; [|destruct h as [[w p]|]] end.
  { destruct (_ <? _); [|done]. destruct (_ =? 35); apply entity_match_pos; cbn; lia. }
  all: split; [apply does_act; [done|by apply emits_add_pending|done]|cbn; lia].
Qed.

(** ** The rules that call the parser *)

(** The state in which a rule calls [tokenize]: another range, nothing emitted. *)
Record still (s s' : state) : Prop := {
  s_level : level s' = level s;
  s_pending : pending s' = pending s;
  s_pendingLevel : pendingLevel s' = pendingLevel s;
  s_tokens : tokens s' = tokens s;
  s_env : senv s' = senv s;
  s_cache : cache_ok s' }.

Lemma quiet_still s s' x y : quiet s s' -> still s (set_pos x (set_posMax y s')).
Proof. intros []. by constructor. Qed.

Lemma still_ok s s' : ok s -> still s s' -> 0 <= pos s' -> ok s'.
Proof. intros [] [] ?. constructor; congruence || done. Qed.

Lemma still_emits s s1 s2 : still s s1 -> emits s1 s2 -> emits s s2.
Proof. intros [L _ _ T _ _] H. apply (emits_frame s1 s s2); congruence || done. Qed.

Lemma does_set_range x m s s' : emits s s' -> m = posMax s -> does false s (set_posMax m (set_pos x s')).
Proof. intros [] ->. split; [by constructor|done]. Qed.

(** The pairs around a nested call, when [b] asks for them. *)
Lemma ok_open (b : bool) o s : ok s -> ok (if b then push_open o s else s).
Proof. destruct b; [apply ok_push_open|done]. Qed.

Lemma emits_close (b : bool) o c s s' :
  ok s -> closes o c = true -> allowed o -> allowed c ->
  emits (if b then push_open o s else s) s' -> pending s' = [] ->
  emits s (if b then push_close c s' else s') /\ pending (if b then push_close c s' else s') = [].
Proof. intros. destruct b; [|done]. split; [by apply (emits_nest o)|apply push_facts]. Qed.

Lemma open_range (b : bool) o s : pos (if b then push_open o s else s) = pos s /\ posMax (if b then push_open o s else s) = posMax s.
Proof. destruct b; [|done]. unfold push_open. split; etrans; apply push_facts || done. Qed.

Lemma close_range (b : bool) c s : posMax (if b then push_close c s else s) = posMax s.
Proof. destruct b; [|done]. unfold push_close. etrans; apply push_facts || done. Qed.

Lemma pair_loop_spec fuel c u o s :
  ok s -> u = posMax s -> room s < n -> u - pos s < Z.of_nat fuel -> (0 < fuel)%nat ->
  returns (pair_loop src P fuel c u o s) (fun '(b, s') => quiet s s' /\ pos s <= pos s' /\ (b = true -> pos s' < u)).
Proof.
  revert o s. induction fuel as [|fuel IH]; intros o s H -> Hr Hf Hf0; [lia|]. cbn [pair_loop].
  destruct (Z.ltb_spec (pos s + 1) (posMax s)); [|cbn; split; [apply quiet_refl, H|by split; [lia|]]].
  destruct (_ && _); [cbn; split; [apply quiet_refl, H|by split; [lia|lia]]|].
  apply skip_step; [done|lia|done|]. intros s' Hq Hlt H'. pose proof (q_posMax _ _ Hq) as Hm. unfold room in *.
  eapply returns_weaken; [apply IH; [done|done|unfold room; lia..]|].
  intros [b s''] (Hq' & ? & ?). split; [by apply (quiet_trans s s')|]. split; [lia|done].
Qed.

Lemma pair_rule_spec c o k long t s :
  closes o k = true -> allowed o -> allowed k ->
  ready s -> returns (pair_rule opts src P c o k long s t) (outcome t s).
Proof.
  intros Hc Ho Hk [H Hp]. pose proof (ok_pos _ H) as Hpos. unfold pair_rule. destruct (_ || space_or_newline _) eqn:E; [by apply outcome_false|].
  rewrite !orb_false_iff in E. destruct E as [[[[[[[_ ->] _] _] _] _] _] _].
  set (r := scan _ _ _ _). assert (pos s + 2 <= r) as Hlong by apply scan_ge. destruct (long r (pos s)).
  { split; [|cbn; lia]. split; [|done]. apply (emits_frame s s s); [by apply emits_refl|done..]. }
  set (s0 := set_pos (pos s + 2) s). assert (ok s0) as H0 by (apply ok_set_pos; [done|lia]).
  eapply returns_bind; [apply (pair_loop_spec _ _ _ _ s0); [done|done|unfold room; cbn; lia|cbn; lia|lia]|].
  intros [b e] (Hq & Hpe & Hlt). cbn in Hpe, Hlt. assert (quiet s e) as Hq' by (destruct Hq; by constructor).
  destruct b; [|by apply outcome_quiet; [done|apply quiet_set_pos|]]. specialize (Hlt eq_refl).
  set (s1 := set_pos (pos s + 2) (set_posMax (pos e) e)). pose proof (quiet_still s e (pos s + 2) (pos e) Hq') as Hs. fold s1 in Hs.
  assert (ok s1) as H1 by (apply (still_ok s); [done..|cbn; lia]). pose proof (open_range true o s1) as [Hr1 Hr2].
  eapply returns_bind; [apply (p_tok _ _ HP); [by apply ok_push_open|unfold room; rewrite Hr1, Hr2; cbn; lia]|].
  intros s2 (He & Hm & Hpd). destruct (emits_close true o k s1 s2 H1 Hc Ho Hk He Hpd) as [He' _].
  split; [apply does_set_range; [by apply (still_emits s s1)|done]|].
  cbn [pos set_pos set_posMax]. rewrite (close_range true k s2), Hm. rewrite Hr2. cbn. lia.
Qed.

Lemma scanDelims_delims s p :
  p < posMax s -> let '(_, _, r) := scanDelims src s p in 0 < r <= posMax s - p.
Proof.
  intros Hp. unfold scanDelims. set (c := at_ src p).
  pose proof (scan_gt (Z.eqb c) src p (posMax s) Hp (Z.eqb_refl c)). pose proof (scan_le (Z.eqb c) src p (posMax s)).
  destruct (_ >=? 4); [lia|]. destruct (c =? 95); lia.
Qed.

Lemma unwind_spec s a u p :
  0 < a -> 0 < u -> Forall (Z.lt 0) s ->
  let '(s', a', q) := unwind s a u p in p <= q < p + u /\ 0 < a' /\ Forall (Z.lt 0) s'.
Proof.
  revert a u p. induction s as [|b s IH]; intros a u p Ha Hu Hs; cbn [unwind];
    (destruct (Z.eqb_spec a u); [split; [lia|done]|]; destruct (Z.ltb_spec u a); [split; [lia|split; [done|constructor; [lia|done]]]|]).
  - split; [lia|done].
  - inversion Hs as [|?? Hb Hs']; subst. specialize (IH b (u - a) (p + a) Hb ltac:(lia) Hs').
    destruct (unwind s b (u - a) (p + a)) as [[s' a'] q]. destruct IH as (? & ? & ?). split; [lia|done].
Qed.

Lemma emphasis_loop_spec fuel p c top st s :
  ok s -> c = posMax s -> room s < n -> c - pos s < Z.of_nat fuel -> (0 < fuel)%nat -> 0 < top -> Forall (Z.lt 0) st ->
  returns (emphasis_loop src P fuel p c top st s) (fun '(i, s') =>
    quiet s s' /\ pos s <= pos s' /\ match i with Some m => 0 < m /\ pos s' < c | None => True end).
Proof.
  revert top st s. induction fuel as [|fuel IH]; intros top st s H -> Hr Hf Hf0 Ht Hst; [lia|]. cbn [emphasis_loop].
  destruct (Z.ltb_spec (pos s) (posMax s)) as [Hlt|]; [|cbn; split; [apply quiet_refl, H|by split; [lia|]]].
  pose proof (ok_pos _ H) as Hpos. unfold room in *.
  assert (forall q top' st', pos s < q -> 0 < top' -> Forall (Z.lt 0) st' ->
    returns (emphasis_loop src P fuel p (posMax s) top' st' (set_pos q s)) (fun '(i, s') =>
      quiet s s' /\ pos s <= pos s' /\ match i with Some m => 0 < m /\ pos s' < posMax s | None => True end)) as Hnext.
  { intros q top' st' Hq Ht' Hs'. eapply returns_weaken; [apply IH; [apply ok_set_pos; [done|lia]|done|unfold room; cbn; lia|cbn; lia|lia|done..]|].
    intros [i s'] (Hq' & Hp' & Hi). split; [by destruct Hq'; constructor|]. cbn in Hp'. by split; [lia|]. }
  destruct (negb _).
  { apply skip_step; [done..|]. intros s' Hq Hlt' H'. pose proof (q_posMax _ _ Hq) as Hm.
    eapply returns_weaken; [apply IH; [done|done|unfold room; lia|lia|lia|done..]|].
    intros [i s''] (Hq' & ? & Hi). split; [by apply (quiet_trans s s')|]. by split; [lia|]. }
  pose proof (scanDelims_delims s (pos s) Hlt) as Hd. destruct (scanDelims src s (pos s)) as [[can_open can_close] r].
  destruct can_close.
  - pose proof (unwind_spec st top r (pos s) Ht ltac:(lia) Hst) as Hu. destruct (unwind st top r (pos s)) as [[s' a] q].
    destruct Hu as (Hq & Ha & Hs'). destruct s' as [|top' s'].
    + cbn. split; [apply quiet_set_pos, quiet_refl, H|]. lia.
    + inversion Hs'; subst. apply Hnext; [lia|done..].
  - destruct can_open; apply Hnext; try done; try lia. by constructor.
Qed.

Lemma emphasis_rule_spec t s : ready s -> returns (emphasis_rule opts src P s t) (outcome t s).
Proof.
  intros [H Hp]. pose proof (ok_pos _ H) as Hpos. unfold emphasis_rule. destruct (_ || t) eqn:E; [by apply outcome_false|].
  apply orb_false_iff in E as [_ ->].
  pose proof (scanDelims_delims s (pos s) ltac:(lia)) as Hd. destruct (scanDelims src s (pos s)) as [[can_open can_close] m].
  destruct can_open; cbn [negb].
  2:{ split; [|cbn; lia]. split; [|done]. apply (emits_frame s s s); [by apply emits_refl|done..]. }
  destruct (too_deep _ _); [by apply outcome_false|].
  set (s0 := set_pos (pos s + m) s). assert (ok s0) as H0 by (apply ok_set_pos; [done|lia]).
  eapply returns_bind; [apply (emphasis_loop_spec _ _ _ _ _ s0); [done|done|unfold room; cbn; lia|cbn; lia|lia|lia|constructor]|].
  intros [i e] (Hq & Hpe & Hi). cbn in Hpe. assert (quiet s e) as Hq' by (destruct Hq; by constructor).
  destruct i as [k|]; [|by apply outcome_quiet; [done|apply quiet_set_pos|]]. destruct Hi as [Hk Hlt].
  set (s1 := set_pos (pos s + k) (set_posMax (pos e) e)). pose proof (quiet_still s e (pos s + k) (pos e) Hq') as Hs. fold s1 in Hs.
  assert (ok s1) as H1 by (apply (still_ok s); [done..|cbn; lia]).
  pose proof (open_range (strong_of k) strong_open s1) as [Ha1 Ha2]. pose proof (ok_open (strong_of k) strong_open s1 H1) as H2.
  set (s2 := if strong_of k then _ else s1) in *.
  pose proof (open_range (em_of k) em_open s2) as [Hb1 Hb2]. pose proof (ok_open (em_of k) em_open s2 H2) as H3.
  set (s3 := if em_of k then _ else s2) in *.
  eapply returns_bind; [apply (p_tok _ _ HP); [done|unfold room; rewrite Hb1, Hb2, Ha1, Ha2; cbn; lia]|].
  intros s4 (He & Hm & Hpd).
  destruct (emits_close (em_of k) em_open em_close s2 s4) as [He' Hp']; [done|done|by apply allowed_other..|done|done|].
  set (s5 := if em_of k then _ else s4) in *. pose proof (close_range (em_of k) em_close s4) as Hc5. fold s5 in Hc5.
  destruct (emits_close (strong_of k) strong_open strong_close s1 s5) as [He'' Hp'']; [done|done|by apply allowed_other..|done|done|].
  pose proof (close_range (strong_of k) strong_close s5) as Hc6.
  split; [apply does_set_range; [by apply (still_emits s s1)|done]|]. cbn [pos set_pos set_posMax].
  rewrite Hc6, Hc5, Hm, Hb2, Ha2. cbn. lia.
Qed.

Lemma marker_loop_spec fuel m i s :
  ok s -> i = posMax s -> room s < n -> i - pos s < Z.of_nat fuel -> (0 < fuel)%nat ->
  returns (marker_loop src P fuel m i s) (fun '(b, s') => quiet s s' /\ pos s <= pos s').
Proof.
  revert s. induction fuel as [|fuel IH]; intros s H -> Hr Hf Hf0; [lia|]. cbn [marker_loop].
  destruct (Z.ltb_spec (pos s) (posMax s)); [|cbn; split; [apply quiet_refl, H|lia]].
  destruct (_ =? m); [cbn; split; [apply quiet_refl, H|lia]|].
  apply skip_step; [done..|]. intros s' Hq Hlt H'. pose proof (q_posMax _ _ Hq) as Hm. unfold room in *.
  eapply returns_weaken; [apply IH; [done|done|unfold room; lia..]|].
  intros [b s''] (Hq' & ?). split; [by apply (quiet_trans s s')|lia].
Qed.

Lemma script_rule_spec m (k : str -> kind) t s :
  (forall w, leaf (k w) = true /\ allowed (k w)) -> ready s -> returns (script_rule opts src P m k s t) (outcome t s).
Proof.
  intros Hk [H Hp]. pose proof (ok_pos _ H) as Hpos. unfold script_rule. destruct (_ || _) eqn:E; [by apply outcome_false|].
  rewrite !orb_false_iff in E. destruct E as [[[_ ->] _] _].
  set (s0 := set_pos (pos s + 1) s). assert (ok s0) as H0 by (apply ok_set_pos; [done|lia]).
  eapply returns_bind; [apply (marker_loop_spec _ _ _ s0); [done|done|unfold room; cbn; lia|cbn; lia|lia]|].
  intros [b e] (Hq & Hpe). cbn in Hpe. assert (quiet s e) as Hq' by (destruct Hq; by constructor).
  destruct (_ && _); [|by apply outcome_quiet; [done|apply quiet_set_pos|]].
  destruct (search _ _ _); [by apply outcome_quiet; [done|apply quiet_set_pos|]|].
  set (s1 := set_pos (pos s + 1) (set_posMax (pos e) e)). pose proof (quiet_still s e (pos s + 1) (pos e) Hq') as Hs. fold s1 in Hs.
  assert (ok s1) as H1 by (apply (still_ok s); [done..|cbn; lia]).
  split; [apply does_set_range; [|done]|].
  - apply (still_emits s s1); [done|]. apply emits_push_leaf; [done|apply Hk..].
  - cbn [pos set_pos set_posMax]. rewrite push_leaf_posMax. cbn. lia.
Qed.

Lemma inline_target_spec s f m :
  ok s -> returns (inline_target toLowerCase src s f m) (fun '(o, s') =>
    quiet s s' /\
    match o with Some (l, _, f') => f < f' /\ href_ok l | None => pos s' = pos s end).
Proof.
  intros H. unfold inline_target, skip_space. pose proof (scan_ge space_or_newline src f m) as Hf.
  set (f1 := scan _ _ _ _) in *. destruct (_ >=? m); [cbn; split; [apply quiet_refl, H|done]|].
  eapply returns_bind; [apply parseLinkDestination_spec, H|]. intros [b e] [Hq Hb].
  set (lf := if b then (linkContent e, pos e) else ([], f1)).
  assert (let '(l, f2) := lf in f <= f2 /\ href_ok l) as Hlf.
  { subst lf. destruct b; [destruct Hb|]; (split; [lia|apply href_ok_valid; auto]). }
  destruct lf as [l f2]. destruct Hlf as [Hf2 Hl]. pose proof (scan_ge space_or_newline src f2 m) as Hf3. set (f3 := scan _ _ f2 m) in *.
  pose proof (parseLinkTitle_spec e f3 (q_cache _ _ Hq)) as Ht.
  match goal with |- returns (match ?x with _ => _ end) _ => assert (let '(_, f4, e') := x in quiet s e' /\ f <= f4) as Hx; [|destruct x as [[c f4] e']] end.
  { destruct (_ && _); [|by split; [|lia]]. destruct (parseLinkTitle src e f3) as [b' e']. destruct Ht as [Hq' Hb'].
    destruct b'; (split; [by apply (quiet_trans s e)|]); [|lia].
    pose proof (scan_ge space_or_newline src (pos e') m). lia. }
  destruct Hx as [Hq' Hf4]. destruct (_ || _); cbn; [by split; [apply quiet_set_pos|]|]. split; [done|]. split; [lia|done].
Qed.

Lemma reference_target_spec s a u f :
  ok s -> pos s < f -> posMax s <= pos s + n -> 0 < n -> returns (reference_target toUpperCase src P s a u f (posMax s)) (fun '(o, s') =>
    quiet s s' /\
    match o with Some (l, _, f') => Z.min f (u + 1) <= f' /\ href_ok l | None => pos s' = pos s end).
Proof.
  intros H Hf Hn Hn0. pose proof (ok_pos _ H) as Hpos. unfold reference_target, skip_space. destruct (_ >? 0); [cbn; split; [apply quiet_refl, H|done]|].
  pose proof (scan_ge space_or_newline src f (posMax s)) as Hf1. set (f1 := scan _ _ _ _) in *.
  apply (returns_bind _ _ (fun '(o, f2, e) => quiet s e /\ f <= f2 /\ pos e = pos s)).
  { destruct (_ && _); [|cbn; split; [apply quiet_refl, H|lia]].
    eapply returns_bind; [apply parseLinkLabel_spec; [done|lia..]|]. intros [i e] (Hq & Hp & Hi).
    destruct (Z.geb_spec i 0); cbn; (split; [done|]); lia. }
  intros [[o f2] e] (Hq & Hf2 & Hp).
  match goal with |- returns (match ?x with _ => _ end) _ => assert (let '(_, f3) := x in Z.min f (u + 1) <= f3) as Hx; [|destruct x as [w f3]] end.
  { destruct o as [[|]|]; lia. }
  rewrite (q_env _ _ Hq). destruct (references (senv s)) as [refs|] eqn:Er; [|by destruct (env_has_refs _ (ok_env _ H))].
  destruct (obj_get refs _) as [r|] eqn:Eo; cbn; (split; [by try apply quiet_set_pos|]); [|done].
  split; [done|]. by apply (env_refs _ (ok_env _ H) refs _ r Er Eo).
Qed.

Lemma links_rule_spec t s : ready s -> returns (links_rule toLowerCase toUpperCase opts src P s t) (outcome t s).
Proof.
  intros [H Hp]. pose proof (ok_pos _ H) as Hpos. unfold links_rule. set (g := if at_ src (pos s) =? 33 then pos s + 1 else pos s).
  assert (pos s <= g) as Hg by (subst g; destruct (_ =? 33); lia). destruct (negb _); [by apply outcome_false|].
  destruct (too_deep _ _); [by apply outcome_false|].
  eapply returns_bind; [apply parseLinkLabel_spec; [done|lia..]|]. intros [u e] (Hq & Hpe & Hu).
  destruct (Z.ltb_spec u 0); [by apply outcome_quiet|]. destruct Hu as [|Hu]; [lia|].
  pose proof (q_posMax _ _ Hq) as Hm. assert (ok e) as He by (apply (quiet_ok s); [done..|lia]).
  apply (returns_bind _ _ (fun '(o, e') => quiet s e' /\
    match o with Some (l, _, f') => pos s < f' /\ href_ok l | None => pos e' = pos s end)).
  { destruct (_ && _).
    - eapply returns_weaken; [by apply inline_target_spec|]. intros [o e'] [Hq' Ho]. split; [by apply (quiet_trans s e)|].
      destruct o as [[[l c] f']|]; [split; [lia|apply Ho]|congruence].
    - rewrite <- Hm. eapply returns_weaken; [apply reference_target_spec; [done|lia..]|]. intros [o e'] [Hq' Ho].
      split; [by apply (quiet_trans s e)|]. destruct o as [[[l c] f']|]; [split; [lia|apply Ho]|congruence]. }
  intros [o e'] [Hq' Ho]. destruct o as [[[l c] f']|]; [|by apply outcome_quiet]. destruct Ho as [Hf Hl].
  destruct t.
  { split; [|cbn; lia]. cbn. destruct Hq'. by constructor. }
  set (s1 := set_posMax u (set_pos (g + 1) e')). assert (still s s1) as Hs by (destruct Hq'; by constructor).
  assert (ok s1) as H1 by (apply (still_ok s); [done..|cbn; lia]).
  apply (returns_bind _ _ (fun e2 => emits s e2)); [|intros e2 He2; split; [by apply does_set_range|cbn; lia]].
  destruct (_ =? 33).
  { apply (still_emits s s1); [done|]. apply emits_push_leaf; [done..|]. apply Hl. }
  set (s2 := push_open (link_open l (Some c)) s1).
  assert (pos s2 = pos s1 /\ posMax s2 = posMax s1) as [Hr1 Hr2] by apply (open_range true).
  assert (ok s2) as H2 by by apply ok_push_open.
  eapply returns_bind; [apply (p_tok _ _ HP)|].
  { by destruct H2; constructor. }
  { change (Z.max 0 (posMax s2 - pos s2) < n). rewrite Hr1, Hr2. cbn. lia. }
  intros s3 (He3 & Hm3 & Hp3). cbn. apply (still_emits s s1); [done|].
  apply (emits_nest (link_open l (Some c))); [done|done|apply Hl|by apply allowed_other| |done].
  by apply (emits_frame (set_linkLevel (linkLevel s2 + 1) s2) s2 s3).
Qed.

Lemma env_ok_notes e f :
  env_ok e -> (norefs = true -> fn_refs f = None) -> refs_ok f -> Forall entry_ok (default [] (fn_list f)) -> env_ok (set_notes f e).
Proof. intros [Hr Hn Ha _ _ _] Hno Hi Hf. by constructor. Qed.

Lemma refs_ok_longer f l : refs_ok f -> (length (default [] (fn_list f)) <= length l)%nat -> refs_ok (Footnotes (fn_refs f) (Some l)).
Proof. intros H Hl refs k i Hr Hk. specialize (H refs k i Hr Hk). cbn. lia. Qed.

Lemma list_assign_length {A} (l : list A) i x : (length l <= length (list_assign l i x))%nat.
Proof. unfold list_assign. destruct (_ <? _); rewrite ?length_insert, ?length_app; lia. Qed.

Lemma list_assign_ok {A} (Q : A -> Prop) l i x : Forall Q l -> Q x -> Forall Q (list_assign l i x).
Proof.
  intros Hl Hx. unfold list_assign. destruct (_ <? _); [by apply Forall_insert|]. apply Forall_app. by repeat constructor.
Qed.

Lemma footnote_inline_rule_spec t s : ready s -> returns (footnote_inline_rule opts src P s t) (outcome t s).
Proof.
  intros [H Hp]. pose proof (ok_pos _ H) as Hpos. unfold footnote_inline_rule. destruct (_ || _); [by apply outcome_false|].
  eapply returns_bind; [apply parseLinkLabel_spec; [done|lia..]|]. intros [o e] (Hq & Hpe & Ho).
  destruct (Z.ltb_spec o 0); [by apply outcome_quiet|]. destruct Ho as [|Ho]; [lia|].
  destruct t.
  { split; [|cbn; lia]. destruct Hq. by constructor. }
  apply (returns_bind _ _ (fun e2 => emits s e2)); [|intros e2 He2; split; [by apply does_set_range|cbn; lia]].
  assert (ok e) as He by (apply (quiet_ok s); [done..|lia]).
  set (e1 := set_posMax o (set_pos (pos s + 2) (set_entries (fn_entries e) e))).
  assert (ok e1) as H1.
  { destruct He as [? Hc Hl Henv]. constructor; [cbn; lia|done|done|]. apply env_ok_notes; [done|apply Henv| |apply Henv].
    apply refs_ok_longer; [apply Henv|done]. }
  assert (emits s e1) as Hs1.
  { pose proof (emits_quiet s e H Hq) as []. destruct H1. by constructor. }
  set (e2 := push_leaf _ e1). assert (emits e1 e2) as He2 by (apply emits_push_leaf; [done..|by apply allowed_other]).
  assert (pos e2 = pos e1 /\ posMax e2 = posMax e1) as [Hr1 Hr2] by (split; apply push_facts).
  assert (ok e2) as H2 by (apply (emits_ok e1); [done|rewrite Hr1; cbn; lia]).
  eapply returns_bind; [apply (p_tok _ _ HP)|].
  { by destruct H2; constructor. }
  { change (Z.max 0 (posMax e2 - pos e2) < n). rewrite Hr1, Hr2. cbn. lia. }
  intros e3 (He3 & _ & _). cbn [returns]. apply (emits_trans s e1); [done|]. apply (emits_trans e1 e2); [done|].
  destruct He3 as [L Pl (ts & T & G) E C].
  constructor; [done|done| | |by apply (cache_ok_eq e3)].
  - cbn [tokens set_linkLevel set_tokens set_entries set_senv]. exists []. split; [|apply good_nil]. rewrite app_nil_r.
    rewrite T. by rewrite take_app_length.
  - apply env_ok_notes; [done|apply E|apply refs_ok_longer; [apply E|apply list_assign_length]|].
    cbn [fn_list default]. apply list_assign_ok; [apply E|].
    exists (level e2). rewrite T. by rewrite drop_app_length.
Qed.

Lemma emits_set_senv x s : ok s -> env_ok x -> emits s (set_senv x s) /\ ok (set_senv x s).
Proof.
  intros [] He. split; constructor; try done. exists []. split; [by rewrite app_nil_r|apply good_nil].
Qed.

Lemma footnote_ref_rule_spec t s : ready s -> returns (footnote_ref_rule opts src s t) (outcome t s).
Proof.
  intros [H Hp]. unfold footnote_ref_rule. destruct (_ >? _); [by apply outcome_false|].
  destruct (fn_refs _) as [refs|] eqn:Er; [|by apply outcome_false]. destruct (_ || _); [by apply outcome_false|].
  set (r := scan _ _ _ _). assert (pos s + 2 <= r) as Hr by apply scan_ge. destruct (_ || _); [by apply outcome_false|].
  destruct (obj_get _ _) as [i|] eqn:Ei; [|by apply outcome_false]. destruct t.
  { split; [|cbn; lia]. destruct H. by constructor. }
  apply (returns_bind _ _ (fun e2 => emits s e2)); [|intros e2 He2; split; [by apply does_set_range|cbn; lia]].
  pose proof (ok_env _ H) as [_ _ _ Hno Hi Hn].
  assert (norefs = false) as Hnr by (destruct norefs; [|done]; by rewrite Hno in Er).
  match goal with |- returns (match ?x with _ => _ end) _ =>
    assert (let '(o, l, rf) := x in Forall entry_ok l /\ 0 <= o < Z.of_nat (length l) /\ refs_ok (Footnotes (Some rf) (Some l)))
      as Hx; [|destruct x as [[o l] rf]] end.
  { destruct (Z.ltb_spec i 0).
    - rewrite length_app. split; [apply Forall_app; by repeat constructor|]. split; [cbn; lia|].
      intros rf k j [= <-]. rewrite obj_get_set. cbn. rewrite length_app. cbn.
      destruct (decide _); [intros [= <-]; lia|]. intros Hk. specialize (Hi _ _ _ Er Hk). unfold fn_entries. lia.
    - specialize (Hi _ _ _ Er Ei) as Hlt. split; [done|]. split; [done|]. intros rf k j [= <-] Hk. exact (Hi _ _ _ Er Hk). }
  destruct Hx as (Hl & Ho & Hrf).
  destruct (l !! Z.to_nat o) as [f|] eqn:El; [|apply lookup_ge_None in El; lia]. cbn [returns].
  match goal with |- emits s (push_leaf _ (set_senv ?x s)) => destruct (emits_set_senv x s H) as [He Hok] end.
  { apply env_ok_notes; [apply H|by rewrite Hnr| |].
    - intros rf' k j Hk1 Hk2. cbn. rewrite length_insert. exact (Hrf _ _ _ Hk1 Hk2).
    - apply Forall_insert; [done|]. rewrite Forall_lookup in Hl. exact (Hl _ _ El). }
  eapply emits_trans; [exact He|]. apply emits_push_leaf; [done..|by apply allowed_other].
Qed.

Lemma run_rule_spec r t s : ready s -> returns (run_rule toLowerCase toUpperCase opts src P r s t) (outcome t s).
Proof.
  assert (forall k, match k with link_open _ _ | image _ _ _ | htmltag _ | abbr_open _ | abbr_close => False | _ => True end -> allowed k) as Ha
    by apply allowed_other.
  destruct r; cbn [run_rule]; try (apply pair_rule_spec; [done|by apply Ha..]); try (apply script_rule_spec; intros w; split; [done|by apply Ha]).
  - apply text_rule_spec.
  - apply newline_rule_spec.
  - apply escape_rule_spec.
  - apply backticks_rule_spec.
  - apply emphasis_rule_spec.
  - apply links_rule_spec.
  - apply footnote_inline_rule_spec.
  - apply footnote_ref_rule_spec.
  - apply autolink_rule_spec.
  - apply htmltag_rule_spec.
  - apply entity_rule_spec.
Qed.

(** ** The parser *)

Lemma does_ok t s s' : ok s -> does t s s' -> 0 <= pos s' -> ok s'.
Proof. intros H Hd. destruct t; [by apply (quiet_ok s)|]. destruct Hd. by apply (emits_ok s). Qed.

Lemma does_trans t s s' s'' : does t s s' -> does t s' s'' -> does t s s''.
Proof.
  destruct t; [apply quiet_trans|]. intros [? ?] [? ?]. split; [by apply (emits_trans s s')|congruence].
Qed.

Lemma does_posMax t s s' : does t s s' -> posMax s' = posMax s.
Proof. destruct t; [apply q_posMax|]. by intros []. Qed.

Lemma try_rules_spec rs t s : ready s -> returns (try_rules toLowerCase toUpperCase opts src P rs s t) (outcome t s).
Proof.
  revert s. induction rs as [|r rs IH]; intros s Hr; cbn [try_rules]; pose proof Hr as [H Hp]; [by apply outcome_false|].
  eapply returns_bind; [by apply run_rule_spec|]. intros [b e] [Hd Hb]. destruct b; [done|].
  pose proof (does_posMax _ _ _ Hd) as Hm.
  eapply returns_weaken; [apply IH|].
  - split; [|lia]. apply (does_ok t s); [done..|]. destruct H. lia.
  - intros [b e'] [Hd' Hb']. split; [by apply (does_trans t s e)|]. by rewrite <- Hb.
Qed.

Lemma skipToken_spec rs s :
  ready s -> returns (skipToken_ toLowerCase toUpperCase opts src P rs s) (fun s' => quiet s s' /\ pos s < pos s').
Proof.
  intros Hr. pose proof Hr as [H Hp]. pose proof (ok_pos _ H) as Hpos. unfold skipToken_. destruct (Z.gtb_spec (cacheGet (pos s) s) 0).
  { cbn. split; [apply quiet_set_pos, quiet_refl, H|]. apply (ok_cache _ H); lia. }
  eapply returns_bind; [by apply try_rules_spec|]. intros [b e] [Hd Hb]. cbn in Hd.
  destruct b; cbn in Hb |- *; (split; [|lia]); destruct Hd; (constructor; try done); apply cache_ok_set; try done; cbn; lia.
Qed.

Lemma tokenize_loop_spec fuel rs s :
  ok s -> room s <= n -> room s < Z.of_nat fuel ->
  returns (tokenize_loop toLowerCase toUpperCase opts src P fuel rs (posMax s) s) (fun s' => emits s s' /\ posMax s' = posMax s /\ pos s <= pos s').
Proof.
  revert s. induction fuel as [|fuel IH]; intros s H Hr Hf; unfold room in *; [lia|]. cbn [tokenize_loop].
  pose proof (ok_pos _ H) as Hpos. destruct (Z.ltb_spec (pos s) (posMax s)); [|cbn; split; [by apply emits_refl|lia]].
  assert (forall e, emits s e -> posMax e = posMax s -> pos s < pos e ->
    returns (tokenize_loop toLowerCase toUpperCase opts src P fuel rs (posMax s) e)
      (fun s' => emits s s' /\ posMax s' = posMax s /\ pos s <= pos s')) as Hnext.
  { intros e He Hm Hlt. rewrite <- Hm. eapply returns_weaken; [apply IH; [apply (emits_ok s); [done|lia]|unfold room; lia..]|].
    intros s' (He' & Hm' & Hp'). split; [by apply (emits_trans s e)|]. lia. }
  eapply returns_bind; [apply try_rules_spec; split; [done|lia]|]. intros [b e] [Hd Hb]. destruct Hd as [He Hm]. destruct b.
  - destruct (_ >=? _); [cbn; split; [done|lia]|]. by apply Hnext.
  - apply Hnext; [|done|cbn; lia]. apply emits_set_pos. apply (emits_trans s e); [done|]. apply emits_add_pending.
    apply (emits_ok s); [done|lia].
Qed.

Lemma tokenize_spec rs s :
  ok s -> room s <= n ->
  returns (tokenize_ toLowerCase toUpperCase opts src P rs s) (fun s' => emits s s' /\ posMax s' = posMax s /\ pending s' = []).
Proof.
  intros H Hr. unfold tokenize_. eapply returns_bind; [apply tokenize_loop_spec; [done|done|unfold room; lia]|].
  intros e (He & Hm & Hp). cbn. pose proof (ok_pos _ H) as Hpos. rewrite posMax_flush, pending_flush. split; [|done].
  apply (emits_trans s e); [done|]. apply emits_flush. apply (emits_ok s); [done|lia].
Qed.

End rules.

Lemma parser_at_ok rs src fuel : parser_ok (Z.of_nat fuel) (parser_at toLowerCase toUpperCase opts rs src fuel).
Proof.
  induction fuel as [|fuel IH]; constructor; intros s H; unfold room; try (intros; lia); cbn [parser_at skipToken tokenize].
  - intros Hp Hr. apply (skipToken_spec _ _ (Z.of_nat fuel)); [done|]. split; [done|lia].
  - intros Hr. apply (tokenize_spec _ _ (Z.of_nat fuel)); [done..|unfold room; lia].
Qed.

(** [parse] returns or throws, for every source; what it emits is good. *)
Lemma parse_spec rs src e out :
  env_ok e ->
  returns (parse toLowerCase toUpperCase opts rs src e out) (fun '(ts, e') => env_ok e' /\ exists ts', ts = out ++ ts' /\ good 0 ts').
Proof.
  intros He. unfold parse. eapply returns_bind; [apply (p_tok _ _ (parser_at_ok rs src (S (length src))))|].
  - constructor; [done| |done|done]. intros i Hi. unfold cacheGet, len. cbn [cache newState length Z.of_nat].
    destruct (Z.ltb_spec i (Z.of_nat 0)); lia.
  - unfold room. cbn. unfold len. lia.
  - intros s (Hs & _ & _). destruct Hs as [_ _ Ht Henv _]. by split.
Qed.

End contract.
