(* ===== verification/MdHtml.v ===== *)
(** * The HTML that the renderer writes

    A grammar of HTML fragments whose markup is all of the renderer's own
    making: every element is closed, in the right order, attributes are
    quoted, text and attribute values have no markup characters, and the
    addresses of links and images satisfy a predicate [safe].  Balanced tokens
    without raw HTML are rendered into that grammar. *)

From stdpp Require Import strings.
From S2P Require Import Prelude BufText Entities MdUtils MdBase MdUri MdInline MdInlineFacts MdRender.
Local Open Scope Z_scope.
Local Open Scope md_scope.

(** ** The grammar *)

Definition no_markup (c : Z) : bool := negb ((c =? 34) || (c =? 60) || (c =? 62)).
Definition markup_free (w : str) : bool := forallb no_markup w.

Definition one_of (s : string) (l : list string) : bool := existsb (String.eqb s) l.

Definition elements : list string :=
  ["a"; "abbr"; "blockquote"; "code"; "dd"; "del"; "dl"; "dt"; "em"; "h1"; "h2"; "h3"; "h4"; "h5"; "h6"; "ins"; "li"; "mark";
   "ol"; "p"; "pre"; "section"; "strong"; "sub"; "sup"; "table"; "tbody"; "td"; "th"; "thead"; "tr"; "ul"]%string.
Definition void_elements : list string := ["br"; "hr"; "img"]%string.
Definition url_attributes : list string := [" href="; " src="]%string.
Definition text_attributes : list string :=
  [" title="; " target="; " alt="; " class="; "  class="; " id="; " style="; " start="]%string.

Section grammar.
  Context (safe : str -> Prop).

Inductive attribute_ok : str -> Prop :=
| attr_url name h : one_of name url_attributes = true -> safe h -> attribute_ok (attr name (escapeHtml h))
| attr_local v : markup_free v = true -> attribute_ok (attr " href=" (# "#" ++ v))
| attr_text name v : one_of name text_attributes = true -> markup_free v = true -> attribute_ok (attr name v).

Definition attributes_ok (s : str) : Prop := exists l, Forall attribute_ok l /\ s = concat l.

Inductive fragment : str -> Prop :=
| html_nil : fragment []
| html_text w s : markup_free w = true -> fragment s -> fragment (w ++ s)
| html_void name attrs fin s :
    one_of name void_elements = true -> attributes_ok attrs -> fin = # ">" \/ fin = # " />" -> fragment s ->
    fragment (# "<" ++ # name ++ attrs ++ fin ++ s)
| html_element name attrs body s :
    one_of name elements = true -> attributes_ok attrs -> fragment body -> fragment s ->
    fragment (# "<" ++ # name ++ attrs ++ # ">" ++ body ++ # "</" ++ # name ++ # ">" ++ s).

Lemma html_app s s' : fragment s -> fragment s' -> fragment (s ++ s').
Proof.
  induction 1 as [|w s Hw _ IH|name attrs fin s Hn Ha Hf _ IH|name attrs body s Hn Ha Hb _ Hs IH]; intros H';
    rewrite <- ?app_assoc; [done|by apply html_text; auto|by apply html_void; auto|by apply html_element; auto].
Qed.

Lemma html_leaf w : markup_free w = true -> fragment w.
Proof. intros Hw. rewrite <- (app_nil_r w). by apply html_text; [|constructor]. Qed.

Lemma html_one_void name attrs fin :
  one_of name void_elements = true -> attributes_ok attrs -> fin = # ">" \/ fin = # " />" -> fragment (# "<" ++ # name ++ attrs ++ fin).
Proof. intros. rewrite <- (app_nil_r fin). apply html_void; [done..|constructor]. Qed.

Lemma html_one_element name attrs body :
  one_of name elements = true -> attributes_ok attrs -> fragment body ->
  fragment (# "<" ++ # name ++ attrs ++ # ">" ++ body ++ # "</" ++ # name ++ # ">").
Proof. intros. rewrite <- (app_nil_r (# ">")) at 2. apply html_element; [done..|constructor]. Qed.

Lemma attributes_nil : attributes_ok [].
Proof. exists []. done. Qed.

Lemma attributes_cons a s : attribute_ok a -> attributes_ok s -> attributes_ok (a ++ s).
Proof. intros Ha (l & Hl & ->). exists (a :: l). split; [by constructor|done]. Qed.

Lemma attributes_one a : attribute_ok a -> attributes_ok a.
Proof. intros Ha. rewrite <- (app_nil_r a). apply attributes_cons; [done|apply attributes_nil]. Qed.

End grammar.

Lemma markup_free_app w w' : markup_free (w ++ w') = markup_free w && markup_free w'.
Proof. apply forallb_app. Qed.

Lemma escapeHtml_free w : markup_free (escapeHtml w) = true.
Proof.
  rewrite escapeHtml_all. induction w as [|c w IH]; [done|]. cbn [map concat]. rewrite markup_free_app, IH, andb_true_r.
  unfold html_replacement. destruct (Z.eqb_spec c 38); [done|]. destruct (Z.eqb_spec c 60) as [|H60]; [done|].
  destruct (Z.eqb_spec c 62) as [|H62]; [done|]. destruct (Z.eqb_spec c 34) as [|H34]; [done|]. cbn. unfold no_markup.
  apply Z.eqb_neq in H60, H62, H34. by rewrite H60, H62, H34.
Qed.

#[export] Hint Resolve html_nil html_leaf attributes_nil attributes_one attributes_cons escapeHtml_free : html.

(** ** Inline tokens *)

Section inline.
  Context (numToString : Z -> str) (opts : options) (safe : str -> Prop).
  Context (Hnum : forall z, markup_free (numToString z) = true).
  Context (Htarget : markup_free (linkTarget opts) = true).

(** Tokens that may be rendered. *)
Definition renderable (k : kind) : Prop :=
  match k with
  | link_open h _ => safe h
  | image h _ _ => safe h
  | htmltag _ => False
  | _ => True
  end.

Lemma br_html : fragment safe (br opts).
Proof.
  unfold br. destruct (xhtmlOut opts).
  - apply (html_void safe "br" [] (# " />") newline); [done|auto with html|by right|]. by apply html_leaf.
  - apply (html_void safe "br" [] (# ">") newline); [done|auto with html|by left|]. by apply html_leaf.
Qed.

Lemma footnote_name_free id subId : markup_free (footnote_name numToString id subId) = true.
Proof. unfold footnote_name. rewrite !markup_free_app, Hnum. destruct subId; [destruct (_ >? 0)|]; rewrite ?markup_free_app, ?Hnum; done. Qed.

Lemma title_html t : attributes_ok safe (match t with [] => [] | _ => attr " title=" (escapeHtml (replaceEntities t)) end).
Proof. destruct t; [auto with html|]. apply attributes_one, attr_text; [done|auto with html]. Qed.

Lemma attributes_app s s' : attributes_ok safe s -> attributes_ok safe s' -> attributes_ok safe (s ++ s').
Proof. intros (l & Hl & ->) (l' & Hl' & ->). exists (l ++ l'). split; [by apply Forall_app|by rewrite concat_app]. Qed.

(** The attributes of a link. *)
Lemma link_attributes h t :
  safe h ->
  attributes_ok safe (attr " href=" (escapeHtml h)
      ++ match t with Some (x :: t) => attr " title=" (escapeHtml (replaceEntities (x :: t))) | _ => [] end
      ++ match linkTarget opts with [] => [] | t => attr " target=" t end).
Proof.
  intros Hh. apply attributes_cons; [apply attr_url; [done|done]|]. apply attributes_app.
  - destruct t as [[|x t]|]; auto with html. apply attributes_one, attr_text; [done|auto with html].
  - destruct (linkTarget opts) eqn:E; [auto with html|]. apply attributes_one, attr_text; [done|]. done.
Qed.

Lemma image_html h t a : safe h -> fragment safe (render_token numToString opts (image h t a)).
Proof.
  intros Hh. cbn [render_token].
  change (# "<img") with (# "<" ++ # "img"). rewrite <- app_assoc.
  set (x := attr _ _). set (y := attr " alt=" _). set (z := match t with [] => [] | _ => _ end).
  replace (x ++ y ++ z ++ _) with ((x ++ y ++ z) ++ (if xhtmlOut opts then # " /" else []) ++ # ">") by by rewrite <- !app_assoc.
  apply html_one_void; [done| |destruct (xhtmlOut opts); [by right|by left]].
  apply attributes_cons; [apply attr_url; [done|done]|]. apply attributes_cons; [|apply title_html].
  apply attr_text; [done|]. destruct a; [done|apply escapeHtml_free].
Qed.

Lemma footnote_ref_html id subId : fragment safe (render_token numToString opts (footnote_ref id subId)).
Proof.
  cbn [render_token]. pose proof (Hnum (id + 1)) as Hn. set (n := numToString (id + 1)) in *. clearbody n.
  assert (fragment safe (# "<" ++ # "a" ++ (attr " href=" (# "#" ++ (# "fn" ++ n)) ++ attr " id=" (footnote_name numToString id subId)) ++ # ">"
    ++ (# "[" ++ n ++ # "]") ++ # "</" ++ # "a" ++ # ">")) as Ha.
  { apply html_one_element; [done| |].
    - apply attributes_cons; [apply attr_local; by rewrite markup_free_app, Hn|].
      apply attributes_one, attr_text; [done|apply footnote_name_free].
    - apply html_leaf. by rewrite !markup_free_app, Hn. }
  pose proof (html_one_element safe "sup" (attr " class=" (# "footnote-ref")) _ eq_refl
    ltac:(apply attributes_one, attr_text; [done|done]) Ha) as H.
  rewrite <- ?app_assoc in *. exact H.
Qed.

Lemma leaf_html k : leaf k = true -> renderable k -> fragment safe (render_token numToString opts k).
Proof.
  destruct k; try done; intros _ Hk.
  - apply html_leaf, escapeHtml_free.
  - cbn. destruct (breaks opts); [apply br_html|by apply html_leaf].
  - apply br_html.
  - apply (html_one_element safe "code" []); [done|auto with html..].
  - apply (html_one_element safe "sub" []); [done|auto with html..].
  - apply (html_one_element safe "sup" []); [done|auto with html..].
  - by apply image_html.
  - apply footnote_ref_html.
Qed.

(** The element a pair of tokens stands for. *)
Definition element_of (k : kind) : string :=
  match k with
  | del_open => "del" | ins_open => "ins" | mark_open => "mark" | strong_open => "strong" | em_open => "em"
  | link_open _ _ => "a" | abbr_open _ => "abbr" | _ => ""
  end.

Lemma pair_html o c :
  closes o c = true -> renderable o ->
  one_of (element_of o) elements = true /\
  (exists attrs, attributes_ok safe attrs /\ render_token numToString opts o = # "<" ++ # (element_of o) ++ attrs ++ # ">") /\
  render_token numToString opts c = # "</" ++ # (element_of o) ++ # ">".
Proof.
  intros Hc Ho. destruct o; try done; destruct c; try done; (split; [done|split; [|done]]).
  1-5: exists []; split; [auto with html|done].
  - eexists. split; [by apply link_attributes|]. cbn [render_token element_of]. by rewrite <- !app_assoc.
  - eexists. split; [apply attributes_one, (attr_text safe " title="); [done|apply escapeHtml_free]|]. done.
Qed.

Lemma renderInline_app ts ts' :
  renderInline numToString opts (ts ++ ts') = renderInline numToString opts ts ++ renderInline numToString opts ts'.
Proof. unfold renderInline. by rewrite map_app, concat_app. Qed.

Lemma renderInline_html l ts :
  balanced l ts -> Forall (fun t => renderable (type t)) ts -> fragment safe (renderInline numToString opts ts).
Proof.
  induction 1 as [|l k ts Hk _ IH|l o c ts ts' Hc _ IH _ IH']; intros Ht; [constructor| |].
  - inversion Ht; subst. apply (html_app safe (render_token _ _ k)); [by apply leaf_html|auto].
  - inversion Ht as [|?? Ho Hr]; subst. apply Forall_app in Hr as [Hts Hr]. inversion Hr; subst. cbn in Ho.
    destruct (pair_html o c Hc Ho) as (Hn & (attrs & Ha & Eo) & Ec).
    change (Tok o l :: ts ++ Tok c l :: ts') with ([Tok o l] ++ ts ++ [Tok c l] ++ ts'). rewrite !renderInline_app.
    unfold renderInline at 1 3. cbn [map concat type]. rewrite !app_nil_r, Eo, Ec, <- !app_assoc.
    apply html_element; auto.
Qed.

End inline.

(** ** Block tokens *)

Definition nleaf (k : bkind) : bool :=
  match k with code_block _ | fence _ _ | hr | htmlblock _ | inline _ _ | footnote_anchor _ _ => true | _ => false end.

Definition ncloses (o c : bkind) : bool :=
  match o, c with
  | blockquote_open, blockquote_close | bullet_list_open, bullet_list_close | ordered_list_open _, ordered_list_close
  | list_item_open, list_item_close | table_open, table_close | thead_open, thead_close | tbody_open, tbody_close
  | tr_open, tr_close | th_open _, th_close | td_open _, td_close | footnote_reference_open _, footnote_reference_close
  | footnote_block_open, footnote_block_close | footnote_open _, footnote_close
  | dl_open, dl_close | dt_open, dt_close | dd_open, dd_close => true
  | heading_open l, heading_close l' => l =? l'
  | paragraph_open b, paragraph_close b' => eqb b b'
  | _, _ => false
  end.

(** Nested blocks, whatever their levels. *)
Inductive nested : list btoken -> Prop :=
| n_nil : nested []
| n_leaf k l ts : nleaf k = true -> nested ts -> nested (BTok k l :: ts)
| n_pair o c l l' ts ts' : ncloses o c = true -> nested ts -> nested ts' -> nested (BTok o l :: ts ++ BTok c l' :: ts').

Lemma nested_app ts ts' : nested ts -> nested ts' -> nested (ts ++ ts').
Proof.
  induction 1 as [|k l ts Hk _ IH|o c l l' ts1 ts2 Hc H1 _ _ IH]; intros H'; cbn [app]; [done|apply n_leaf; auto|].
  rewrite <- app_assoc. cbn [app]. apply n_pair; auto.
Qed.

Lemma nested_leaf k l : nleaf k = true -> nested [BTok k l].
Proof. intros. apply n_leaf; [done|constructor]. Qed.

Lemma nested_pair o c l l' ts : ncloses o c = true -> nested ts -> nested (BTok o l :: ts ++ [BTok c l']).
Proof. intros. apply n_pair; [done..|constructor]. Qed.

Section blocks.
  Context (numToString : Z -> str) (opts : options) (safe : str -> Prop).
  Context (Hnum : forall z, markup_free (numToString z) = true).
  Context (Hdigit : forall z, 1 <= z <= 6 -> numToString z = [48 + z]).
  Context (Htarget : markup_free (linkTarget opts) = true) (Hprefix : markup_free (langPrefix opts) = true).

(** Blocks that may be rendered. *)
Definition brenderable (k : bkind) : Prop :=
  match k with
  | htmlblock _ | footnote_reference_open _ | footnote_reference_close => False
  | inline _ ch => exists l, balanced l ch /\ Forall (fun t => renderable safe (type t)) ch
  | heading_open l => 1 <= l <= 6
  | _ => True
  end.

Lemma newline_html : fragment safe newline.
Proof. by apply html_leaf. Qed.

Lemma getBreak_html ts i : fragment safe (getBreak ts i).
Proof. unfold getBreak. destruct (is_item_close _); [constructor|apply newline_html]. Qed.

Lemma pre_html attrs w : attributes_ok safe attrs -> fragment safe (# "<pre><code" ++ attrs ++ # ">" ++ escapeHtml w ++ # "</code></pre>").
Proof.
  intros Ha. pose proof (html_one_element safe "code" attrs (escapeHtml w) eq_refl Ha ltac:(auto with html)) as Hc.
  pose proof (html_one_element safe "pre" [] _ eq_refl (attributes_nil safe) Hc) as H.
  rewrite <- ?app_assoc in *. exact H.
Qed.

Lemma fence_class_html p : attributes_ok safe (fence_class opts p).
Proof.
  unfold fence_class. destruct p; [auto with html|]. apply attributes_one, attr_text; [done|].
  by rewrite markup_free_app, Hprefix, escapeHtml_free.
Qed.

Lemma align_style_html a : attributes_ok safe (align_style a).
Proof. destruct a; cbn [align_style]; auto with html; apply attributes_one, attr_text; done. Qed.

Lemma nleaf_html ts i k : nleaf k = true -> brenderable k -> fragment safe (render_btoken numToString opts ts i k).
Proof.
  destruct k; try done; intros _ Hk; cbn [render_btoken].
  - pose proof (pre_html [] content (attributes_nil safe)) as H. pose proof (html_app _ _ _ H (getBreak_html ts i)) as H'.
    rewrite <- ?app_assoc in H'. exact H'.
  - pose proof (pre_html _ content (fence_class_html params)) as H. pose proof (html_app _ _ _ H (getBreak_html ts i)) as H'.
    rewrite <- ?app_assoc in H'. exact H'.
  - apply html_app; [|apply getBreak_html]. destruct (xhtmlOut opts).
    + apply (html_one_void safe "hr" [] (# " />")); [done|auto with html|by right].
    + apply (html_one_void safe "hr" [] (# ">")); [done|auto with html|by left].
  - destruct Hk as (l & Hb & Hr). by apply (renderInline_html _ _ _ Hnum Htarget l).
  - apply (html_app safe (# " ")); [by apply html_leaf|].
    pose proof (html_one_element safe "a"
      (attr " href=" (# "#" ++ footnote_name numToString id (Some subId)) ++ attr " class=" (# "footnote-backref")) [8617] eq_refl) as H.
    rewrite <- ?app_assoc in H. apply H; [|by apply html_leaf].
    apply attributes_cons; [apply attr_local, footnote_name_free, Hnum|]. by apply attributes_one, attr_text.
Qed.

(** A pair of tokens is an element, with text after its marks. *)
Lemma element_pair name attrs mid after o c body :
  one_of name elements = true -> attributes_ok safe attrs -> fragment safe mid -> fragment safe after -> fragment safe body ->
  o = # "<" ++ # name ++ attrs ++ # ">" ++ mid -> c = # "</" ++ # name ++ # ">" ++ after ->
  fragment safe (o ++ body ++ c).
Proof.
  intros Hn Ha Hm Haf Hb -> ->. pose proof (html_element safe name attrs (mid ++ body) after Hn Ha (html_app _ _ _ Hm Hb) Haf) as H.
  rewrite <- ?app_assoc in *. exact H.
Qed.

Lemma heading_pair ts i j l body :
  1 <= l <= 6 -> fragment safe body ->
  fragment safe (render_btoken numToString opts ts i (heading_open l) ++ body ++ render_btoken numToString opts ts j (heading_close l)).
Proof.
  intros Hl Hb. cbn [render_btoken]. rewrite (Hdigit l Hl).
  assert (l = 1 \/ l = 2 \/ l = 3 \/ l = 4 \/ l = 5 \/ l = 6) as Hc by lia.
  destruct Hc as [->|[->|[->|[->|[->| ->]]]]];
    [apply (element_pair "h1" [] [] newline)|apply (element_pair "h2" [] [] newline)|apply (element_pair "h3" [] [] newline)
    |apply (element_pair "h4" [] [] newline)|apply (element_pair "h5" [] [] newline)|apply (element_pair "h6" [] [] newline)];
    done || auto using newline_html with html.
Qed.

Lemma paragraph_pair ts i j b body :
  fragment safe body ->
  fragment safe (render_btoken numToString opts ts i (paragraph_open b) ++ body ++ render_btoken numToString opts ts j (paragraph_close b)).
Proof.
  intros Hb. cbn [render_btoken]. match goal with |- context [if ?x then getBreak ts j else []] => set (n := x) end.
  assert (fragment safe (if n then getBreak ts j else [])) as Hn by (destruct n; [apply getBreak_html|constructor]).
  destruct b; [by apply (html_app safe body)|]. by apply (element_pair "p" [] [] (if n then getBreak ts j else [])); auto with html.
Qed.

Lemma footnote_block_pair body :
  fragment safe body ->
  fragment safe (render_btoken numToString opts [] 0 footnote_block_open ++ body ++ render_btoken numToString opts [] 0 footnote_block_close).
Proof.
  intros Hb. cbn [render_btoken].
  assert (fragment safe (# "<" ++ # "hr" ++ attr " class=" (# "footnotes-sep") ++ (if xhtmlOut opts then # " />" else # ">") ++ newline)) as H1.
  { apply html_void; [done|by apply attributes_one, attr_text|destruct (xhtmlOut opts); auto|apply newline_html]. }
  set (list := (# "<" ++ # "ol" ++ attr " class=" (# "footnotes-list") ++ # ">" ++ newline) ++ body ++ # "</" ++ # "ol" ++ # ">" ++ newline).
  assert (fragment safe list) as H2.
  { apply (element_pair "ol" (attr " class=" (# "footnotes-list")) newline newline); auto using newline_html. by apply attributes_one, attr_text. }
  assert (fragment safe ((# "<" ++ # "section" ++ attr " class=" (# "footnotes") ++ # ">" ++ newline) ++ list ++ # "</" ++ # "section" ++ # ">" ++ newline)) as H3.
  { apply (element_pair "section" (attr " class=" (# "footnotes")) newline newline); auto using newline_html. by apply attributes_one, attr_text. }
  subst list.
  pose proof (html_app _ _ _ H1 H3) as H. rewrite <- ?app_assoc in *. exact H.
Qed.

Lemma npair_html ts i j o c body :
  ncloses o c = true -> brenderable o -> fragment safe body ->
  fragment safe (render_btoken numToString opts ts i o ++ body ++ render_btoken numToString opts ts j c).
Proof.
  intros Hc Ho Hb.
  destruct o; try done; destruct c; try done; cbn [ncloses] in Hc.
  - apply (element_pair "blockquote" [] newline (getBreak ts j)); auto using newline_html, getBreak_html with html.
  - apply Z.eqb_eq in Hc as <-. by apply heading_pair.
  - apply (element_pair "ul" [] newline (getBreak ts j)); auto using newline_html, getBreak_html with html.
  - cbn [render_btoken]. set (a := if _ >? 1 then _ else _).
    apply (element_pair "ol" a newline (getBreak ts j)); auto using newline_html, getBreak_html.
    subst a. destruct (_ >? 1); [|auto with html]. by apply attributes_one, attr_text.
  - apply (element_pair "li" [] [] newline); auto using newline_html with html.
  - apply eqb_prop in Hc as <-. by apply paragraph_pair.
  - apply (element_pair "table" [] newline newline); auto using newline_html with html.
  - apply (element_pair "thead" [] newline newline); auto using newline_html with html.
  - apply (element_pair "tbody" [] newline newline); auto using newline_html with html.
  - apply (element_pair "tr" [] [] newline); auto using newline_html with html.
  - apply (element_pair "th" (align_style a) [] []); auto using align_style_html with html.
  - apply (element_pair "td" (align_style a) [] []); auto using align_style_html with html.
  - by apply footnote_block_pair.
  - cbn [render_btoken].
    apply (element_pair "li" (attr " id=" (# "fn" ++ numToString (id + 1)) ++ attr "  class=" (# "footnote-item")) [] newline);
      auto using newline_html with html; [|by rewrite <- ?app_assoc].
    apply attributes_cons; [apply attr_text; [done|by rewrite markup_free_app, Hnum]|]. by apply attributes_one, attr_text.
  - apply (element_pair "dl" [] newline newline); auto using newline_html with html.
  - apply (element_pair "dt" [] [] newline); auto using newline_html with html.
  - apply (element_pair "dd" [] [] newline); auto using newline_html with html.
Qed.

(** The renderer, without the errors. *)
Fixpoint rendered (ts rest : list btoken) (i : nat) : str :=
  match rest with [] => [] | t :: rest => render_btoken numToString opts ts i (btype t) ++ rendered ts rest (S i) end.

Lemma rendered_app ts a b i : rendered ts (a ++ b) i = rendered ts a i ++ rendered ts b (i + length a).
Proof.
  revert i. induction a as [|t a IH]; intros i; cbn [app rendered length]; [by rewrite Nat.add_0_r|].
  rewrite IH, <- app_assoc. do 2 f_equal. by rewrite Nat.add_succ_r.
Qed.

Lemma rendered_html ts rest i :
  nested rest -> Forall (fun t => brenderable (btype t)) rest -> fragment safe (rendered ts rest i).
Proof.
  intros H. revert i. induction H as [|k l rest Hk _ IH|o c l l' r1 r2 Hc _ IH1 _ IH2]; intros i Hr; [constructor| |].
  - inversion Hr; subst. cbn [rendered btype]. apply html_app; [by apply nleaf_html|auto].
  - inversion Hr as [|?? Ho Hr']; subst. apply Forall_app in Hr' as [Hr1 Hr']. inversion Hr' as [|?? _ Hr2]; subst.
    cbn [rendered btype]. rewrite rendered_app. cbn [rendered btype]. rewrite !app_assoc.
    apply html_app; [|auto]. rewrite <- app_assoc. by apply npair_html; auto.
Qed.

Lemma render_from_ok ts rest i :
  Forall (fun t => brenderable (btype t)) rest -> render_from numToString opts ts rest i = Ret (rendered ts rest i).
Proof.
  intros H. revert i. induction H as [|t rest Ht _ IH]; intros i; cbn [render_from rendered]; [done|]. rewrite IH.
  unfold render_one. destruct t as [k l]. cbn in *. by destruct k.
Qed.

Lemma render_html ts :
  nested ts -> Forall (fun t => brenderable (btype t)) ts -> returns (render numToString opts ts) (fragment safe).
Proof. intros Hn Hr. unfold render. rewrite render_from_ok by done. by apply rendered_html. Qed.

End blocks.
