(* ===== verification/MdBlock.v ===== *)
(** * The block parser of remarkable

    Modules 1015 to 1029 of swagger-ui-bundle.js: the state of the block parser
    with its table of lines, its rules, and the loop that runs them.  A rule
    takes the first line, the end of the range and the flag for silent mode, in
    which it says whether it would match and changes nothing.  Rules that
    contain blocks call [tokenize] again, one level deeper. *)

From stdpp Require Import strings.
From S2P Require Import Prelude JsObj BufText Entities MdUtils MdBase MdUri MdInline MdRender.
Local Open Scope Z_scope.
Local Open Scope md_scope.

(** ** The state (module 1016) *)

Inductive parent : Set := Root | In_list | In_blockquote | In_footnote | In_deflist.

Record bstate : Type := BState {
  bMarks : list Z;
  eMarks : list Z;
  tShift : list Z;
  blkIndent : Z;
  line : Z;
  lineMax : Z;
  tight : bool;
  parentType : parent;
  ddIndent : Z;
  blk_level : Z;
  btokens : list btoken;
  benv : env }.

Definition set_bMarks x (s : bstate) : bstate :=
  BState x (eMarks s) (tShift s) (blkIndent s) (line s) (lineMax s) (tight s) (parentType s) (ddIndent s) (blk_level s) (btokens s) (benv s).
Definition set_tShift x (s : bstate) : bstate :=
  BState (bMarks s) (eMarks s) x (blkIndent s) (line s) (lineMax s) (tight s) (parentType s) (ddIndent s) (blk_level s) (btokens s) (benv s).
Definition set_blkIndent x (s : bstate) : bstate :=
  BState (bMarks s) (eMarks s) (tShift s) x (line s) (lineMax s) (tight s) (parentType s) (ddIndent s) (blk_level s) (btokens s) (benv s).
Definition set_line x (s : bstate) : bstate :=
  BState (bMarks s) (eMarks s) (tShift s) (blkIndent s) x (lineMax s) (tight s) (parentType s) (ddIndent s) (blk_level s) (btokens s) (benv s).
Definition set_tight x (s : bstate) : bstate :=
  BState (bMarks s) (eMarks s) (tShift s) (blkIndent s) (line s) (lineMax s) x (parentType s) (ddIndent s) (blk_level s) (btokens s) (benv s).
Definition set_parentType x (s : bstate) : bstate :=
  BState (bMarks s) (eMarks s) (tShift s) (blkIndent s) (line s) (lineMax s) (tight s) x (ddIndent s) (blk_level s) (btokens s) (benv s).
Definition set_ddIndent x (s : bstate) : bstate :=
  BState (bMarks s) (eMarks s) (tShift s) (blkIndent s) (line s) (lineMax s) (tight s) (parentType s) x (blk_level s) (btokens s) (benv s).
Definition set_blk_level x (s : bstate) : bstate :=
  BState (bMarks s) (eMarks s) (tShift s) (blkIndent s) (line s) (lineMax s) (tight s) (parentType s) (ddIndent s) x (btokens s) (benv s).
Definition set_btokens x (s : bstate) : bstate :=
  BState (bMarks s) (eMarks s) (tShift s) (blkIndent s) (line s) (lineMax s) (tight s) (parentType s) (ddIndent s) (blk_level s) x (benv s).
Definition set_benv x (s : bstate) : bstate :=
  BState (bMarks s) (eMarks s) (tShift s) (blkIndent s) (line s) (lineMax s) (tight s) (parentType s) (ddIndent s) (blk_level s) (btokens s) x.

(** The lines of the source: where each begins and ends, and how many spaces it
    starts with.  [u] is the start of the line, [c] the spaces counted, and [f]
    is set once a character that is no space was seen. *)
Fixpoint lines_ (s : str) (i u c : Z) (f : bool) : list (Z * Z * Z) :=
  match s with
  | [] => []
  | x :: s' =>
      if negb f && (x =? 32) then lines_ s' (i + 1) u (c + 1) false
      else if (x =? 10) || (match s' with [] => true | _ => false end) then
        let i := if x =? 10 then i else i + 1 in
        (u, i, c) :: lines_ s' (i + 1) (i + 1) 0 false
      else lines_ s' (i + 1) u c true
  end.

Definition newBState (src : str) (e : env) (out : list btoken) : bstate :=
  let ls := lines_ src 0 0 0 false ++ [(len src, len src, 0)] in
  BState (map (fun '(b, _, _) => b) ls) (map (fun '(_, e, _) => e) ls) (map (fun '(_, _, t) => t) ls)
    0 0 (Z.of_nat (length ls) - 1) false Root (-1) 0 out e.

(** Reads and writes of the arrays, which the parser makes within them, except
    for [isEmpty] before the first line: a comparison with undefined is false. *)
Definition get (l : list Z) (i : Z) : Z := if i <? 0 then 0 else default 0 (l !! Z.to_nat i).
Definition put (i x : Z) (l : list Z) : list Z := <[Z.to_nat i := x]> l.

Definition first (e : bstate) (i : Z) : Z := get (bMarks e) i + get (tShift e) i.
Definition last_ (e : bstate) (i : Z) : Z := get (eMarks e) i.

Definition isEmpty (e : bstate) (i : Z) : bool := (0 <=? i) && (i <=? lineMax e) && (first e i >=? last_ e i).

Fixpoint skipEmptyLines_ (n : nat) (e : bstate) (i : Z) : Z :=
  match n with
  | O => i
  | S n => if first e i <? last_ e i then i else skipEmptyLines_ n e (i + 1)
  end.
Definition skipEmptyLines (e : bstate) (i : Z) : Z := skipEmptyLines_ (Z.to_nat (lineMax e - i)) e i.

(** [s.slice(a, b)] where [a] can be negative, and then counts from the end *)
Definition slice_neg (s : str) (a b : Z) : str := slice s (if a <? 0 then Z.max 0 (len s + a) else a) b.

Section rules.
  Context (opts : options) (src : str).

Definition bat (i : Z) : Z := charCodeAt src i.
Definition skipSpaces (i : Z) : Z := scan (Z.eqb 32) src i (len src).
Definition skipChars (i c : Z) : Z := scan (Z.eqb c) src i (len src).

Fixpoint skipCharsBack_ (k : nat) (e t n : Z) : Z :=
  match k with
  | O => e
  | S k => if e >? n then if negb (t =? bat (e - 1)) then e else skipCharsBack_ k (e - 1) t n else e
  end.
Definition skipCharsBack (e t n : Z) : Z := if e <=? n then e else skipCharsBack_ (Z.to_nat (e - n)) e t n.

Fixpoint getLines_ (k : nat) (s : bstate) (l t n : Z) (r : bool) : str :=
  match k with
  | O => []
  | S k =>
      let i := get (bMarks s) l + Z.max 0 (Z.min (get (tShift s) l) n) in
      let a := if (l + 1 <? t) || r then last_ s l + 1 else last_ s l in
      slice_neg src i a ++ getLines_ k s (l + 1) t n r
  end.

Definition getLines (s : bstate) (e t n : Z) (r : bool) : str :=
  if e >=? t then []
  else if e + 1 =? t then
    slice_neg src (get (bMarks s) e + Z.min (get (tShift s) e) n) (if r then last_ s e + 1 else last_ s e)
  else getLines_ (Z.to_nat (t - e)) s e t n r.

Definition bpush (k : bkind) (l : Z) (s : bstate) : bstate := set_btokens (btokens s ++ [BTok k l]) s.
Definition bpush_leaf (k : bkind) (s : bstate) : bstate := bpush k (blk_level s) s.
Definition bpush_open (k : bkind) (s : bstate) : bstate := set_blk_level (blk_level s + 1) (bpush k (blk_level s) s).
Definition bpush_close (k : bkind) (s : bstate) : bstate := set_blk_level (blk_level s - 1) (bpush k (blk_level s - 1) s).
Definition bpush_inline (w : str) (l : Z) (s : bstate) : bstate := bpush (inline w []) l s.

Definition btoo_deep (s : bstate) : bool := blk_level s >=? maxNesting opts.

(** ** Rules without blocks inside *)

(** Module 1017: [r], the line after the block, and [o], the line after its last
    line that is not empty *)
Fixpoint code_loop (k : nat) (e : bstate) (r o n : Z) : Z * Z :=
  match k with
  | O => (r, o)
  | S k =>
      if r <? n then
        if isEmpty e r then code_loop k e (r + 1) o n
        else if get (tShift e) r - blkIndent e >=? 4 then code_loop k e (r + 1) (r + 1) n
        else (r, o)
      else (r, o)
  end.

Definition code_rule (e : bstate) (t n : Z) (silent : bool) : res (bool * bstate) :=
  if get (tShift e) t - blkIndent e <? 4 then Ret (false, e)
  else
    let '(r, o) := code_loop (Z.to_nat (n - t)) e (t + 1) (t + 1) n in
    Ret (true, bpush_leaf (code_block (getLines e t o (4 + blkIndent e) true)) (set_line r e)).

(** Module 1018: the line of the closing fence, or the end, and whether there is one *)
Fixpoint fence_loop (k : nat) (e : bstate) (o i u n : Z) : Z * bool :=
  match k with
  | O => (u, false)
  | S k =>
      let u := u + 1 in
      if u >=? n then (u, false)
      else
        let s := first e u in
        let f := last_ e u in
        if (s <? f) && (get (tShift e) u <? blkIndent e) then (u, false)
        else if (bat s =? o) && negb ((get (tShift e) u - blkIndent e >=? 4) || (skipChars s o - s <? i) || (skipSpaces (skipChars s o) <? f))
        then (u, true)
        else fence_loop k e o i u n
  end.

Definition fences_rule (e : bstate) (t n : Z) (r : bool) : res (bool * bstate) :=
  let c := first e t in
  let f := last_ e t in
  if c + 3 >? f then Ret (false, e)
  else
    let o := bat c in
    if negb (o =? 126) && negb (o =? 96) then Ret (false, e)
    else
      let s := c in
      let c := skipChars c o in
      let i := c - s in
      if i <? 3 then Ret (false, e)
      else
        let a := trim (slice src c f) in
        if existsb (Z.eqb 96) a then Ret (false, e)
        else if r then Ret (true, e)
        else
          let '(u, l) := fence_loop (Z.to_nat (n - t)) e o i t n in
          let i := get (tShift e) t in
          Ret (true, bpush_leaf (fence a (getLines e (t + 1) u i true)) (set_line (if l then u + 1 else u) e)).

(** Module 1020: the number of markers, if the line has nothing but markers and spaces *)
Fixpoint hr_loop (k : nat) (o u i : Z) : option Z :=
  match k with
  | O => Some i
  | S k =>
      let a := bat u in
      if negb (a =? o) && negb (a =? 32) then None else hr_loop k o (u + 1) (if a =? o then i + 1 else i)
  end.

Definition hr_rule (e : bstate) (t n : Z) (r : bool) : res (bool * bstate) :=
  let u := first e t in
  let s := last_ e t in
  if u >? s then Ret (false, e)
  else
    let o := bat u in
    if negb (o =? 42) && negb (o =? 45) && negb (o =? 95) then Ret (false, e)
    else
      match hr_loop (Z.to_nat (s - (u + 1))) o (u + 1) 1 with
      | None => Ret (false, e)
      | Some i =>
          if i <? 3 then Ret (false, e)
          else if r then Ret (true, e)
          else Ret (true, bpush_leaf hr (set_line (t + 1) e))
      end.

(** Module 1023: up to seven number signs *)
Fixpoint hashes (k : nat) (u s i : Z) : Z * Z :=
  match k with
  | O => (u, i)
  | S k => if (bat u =? 35) && (u <? s) && (i <=? 6) then hashes k (u + 1) s (i + 1) else (u, i)
  end.

Definition heading_rule (e : bstate) (t n : Z) (r : bool) : res (bool * bstate) :=
  let u := first e t in
  let s := last_ e t in
  if (u >=? s) || negb (bat u =? 35) then Ret (false, e)
  else
    let '(u, i) := hashes 7 (u + 1) s 1 in
    let o := bat u in
    if (i >? 6) || (u <? s) && negb (o =? 32) then Ret (false, e)
    else if r then Ret (true, e)
    else
      let s := skipCharsBack s 32 u in
      let a := skipCharsBack s 35 u in
      let s := if (a >? u) && (bat (a - 1) =? 32) then a else s in
      let e := bpush_leaf (heading_open i) (set_line (t + 1) e) in
      let e := if u <? s then bpush_inline (trim (slice src u s)) (blk_level e + 1) e else e in
      Ret (true, bpush_leaf (heading_close i) e).

(** Module 1024 *)
Definition lheading_rule (e : bstate) (t n : Z) (silent : bool) : res (bool * bstate) :=
  let a := t + 1 in
  let o := first e a in
  let i := last_ e a in
  let r := bat o in
  if (a >=? n) || (get (tShift e) a <? blkIndent e) || (get (tShift e) a - blkIndent e >? 3) || (o >=? i)
     || negb ((r =? 45) || (r =? 61)) || (skipSpaces (skipChars o r) <? i)
  then Ret (false, e)
  else
    let h := if r =? 61 then 1 else 2 in
    let e := bpush_leaf (heading_open h) (set_line (a + 1) e) in
    let e := bpush_inline (trim (slice src (first e t) (last_ e t))) (blk_level e + 1) e in
    Ret (true, bpush_leaf (heading_close h) e).

(** Modules 1025 and 1026 *)
Definition html_blocks : list str := map ascii_units
  ["article"; "aside"; "button"; "blockquote"; "body"; "canvas"; "caption"; "col"; "colgroup"; "dd"; "div"; "dl"; "dt";
   "embed"; "fieldset"; "figcaption"; "figure"; "footer"; "form"; "h1"; "h2"; "h3"; "h4"; "h5"; "h6"; "header"; "hgroup";
   "hr"; "iframe"; "li"; "map"; "object"; "ol"; "output"; "p"; "pre"; "progress"; "script"; "section"; "style"; "table";
   "tbody"; "td"; "textarea"; "tfoot"; "th"; "tr"; "thead"; "ul"; "video"]%string.

(** [o] and [i] *)
Definition html_open_re : re :=
  chr 60 &. Grp 1 (Chr is_alpha &. upto 14 (Chr is_alpha)) &. Chr (fun c => isSpace c || cls "/>" c).
Definition html_close_re : re :=
  lit "</" &. Grp 1 (Chr is_alpha &. upto 14 (Chr is_alpha)) &. Chr (fun c => isSpace c || (c =? 62)).

Fixpoint nonempty_lines (k : nat) (e : bstate) (l : Z) : Z :=
  match k with
  | O => l
  | S k => if isEmpty e l then l else nonempty_lines k e (l + 1)
  end.

Definition htmlblock_rule (e : bstate) (t n : Z) (a : bool) : res (bool * bstate) :=
  let p := get (tShift e) t in
  let c := first e t in
  let f := last_ e t in
  let u := bat (c + 1) in
  let w := slice src c f in
  if negb (html opts) || (p >? 3) || (c + 2 >=? f) || negb (bat c =? 60) then Ret (false, e)
  else
    let hit :=
      if (u =? 33) || (u =? 63) then true
      else if negb (u =? 47) && negb (isLetter u) then false
      else
        match match_at (if u =? 47 then html_close_re else html_open_re) w 0 with
        | Some s => existsb (eqs (map lower (group_or_empty w s 1))) html_blocks
        | None => false
        end in
    if negb hit then Ret (false, e)
    else if a then Ret (true, e)
    else
      let l := nonempty_lines (Z.to_nat (lineMax e - (t + 1))) e (t + 1) in
      let e := set_line l e in
      Ret (true, bpush_leaf (htmlblock (getLines e t l 0 true)) e).

(** Module 1027: the cells of a row *)
Definition row_text (e : bstate) (t : Z) : str :=
  let n := get (bMarks e) t + blkIndent e in slice src n (last_ e t).

Definition drop_pipes (a : str) : str :=
  let a := match a with 124 :: a' => a' | _ => a end in
  match rev a with 124 :: a' => rev a' | _ => a end.

(** [/^[-:| ]+$/] and [/^:?-+:?$/] *)
Definition ruler_line (a : str) : bool := negb (eqs a []) && forallb (cls "-:| ") a.
Definition ruler_re : re := opt (chr 58) &. some_ (chr 45) &. opt (chr 58) &. eos.
Definition ruler_cell (d : str) : bool := match match_at ruler_re d 0 with Some _ => true | None => false end.

Definition cell_align (d : str) : align :=
  if charCodeAt d (len d - 1) =? 58 then if charCodeAt d 0 =? 58 then Center else Right
  else if charCodeAt d 0 =? 58 then Left else NoAlign.

(** The alignments; [s] counts the cells of a line of [m]. *)
Fixpoint aligns (s m : nat) (c : list str) : option (list align) :=
  match c with
  | [] => Some []
  | x :: c =>
      match trim x with
      | [] => if (s =? 0)%nat || (s =? m - 1)%nat then aligns (S s) m c else None
      | d => if ruler_cell d then option_map (cons (cell_align d)) (aligns (S s) m c) else None
      end
  end.

(** [c <= 2], which converts the array to a number: a lone blank cell is zero. *)
Definition array_le_2 (c : list str) : bool := match c with [x] => eqs (trim x) [] | _ => false end.

Definition strip_cell (c : str) : str :=
  trim (slice c (if charCodeAt c 0 =? 124 then 1 else 0) (if charCodeAt c (len c - 1) =? 124 then len c - 1 else len c)).

(** The cells of a row, the [i]-th of them first; the cells of the header are trimmed only. *)
Fixpoint push_cells (header : bool) (p : list align) (i : nat) (c : list str) (e : bstate) : bstate :=
  match c with
  | [] => e
  | x :: c =>
      let a := default NoAlign (p !! i) in
      let e := bpush_open (if header then th_open a else td_open a) e in
      let e := bpush_inline (if header then trim x else strip_cell x) (blk_level e) e in
      push_cells header p (S i) c (bpush_close (if header then th_close else td_close) e)
  end.

Fixpoint table_rows (k : nat) (p : list align) (l n : Z) (e : bstate) : Z * bstate :=
  match k with
  | O => (l, e)
  | S k =>
      if (l <? n) && negb (get (tShift e) l <? blkIndent e) then
        let a := trim (row_text e l) in
        if existsb (Z.eqb 124) a then
          let e := bpush_open tr_open e in
          let e := push_cells false p 0 (split 124 (drop_pipes a)) e in
          table_rows k p (l + 1) n (bpush_close tr_close e)
        else (l, e)
      else (l, e)
  end.

Definition table_rule (e : bstate) (t n : Z) (o : bool) : res (bool * bstate) :=
  let l := t + 1 in
  let u := first e l in
  let i := bat u in
  let a := row_text e l in
  let c := split 124 a in
  if (t + 2 >? n) || (get (tShift e) l <? blkIndent e) || (u >=? last_ e l)
     || negb (i =? 124) && negb (i =? 45) && negb (i =? 58) || negb (ruler_line a) || array_le_2 c
  then Ret (false, e)
  else
    match aligns 0 (length c) c with
    | None => Ret (false, e)
    | Some p =>
        let a := trim (row_text e t) in
        let c := split 124 (drop_pipes a) in
        if negb (existsb (Z.eqb 124) a) || negb (length p =? length c)%nat then Ret (false, e)
        else if o then Ret (true, e)
        else
          let e := bpush_open tr_open (bpush_open thead_open (bpush_open table_open e)) in
          let e := push_cells true p 0 c e in
          let e := bpush_close thead_close (bpush_close tr_close e) in
          let e := bpush_open tbody_open e in
          let '(l, e) := table_rows (Z.to_nat (n - t)) p (t + 2) n e in
          Ret (true, set_line l (bpush_close table_close (bpush_close tbody_close e)))
    end.

(** ** Rules with blocks inside *)

(** What the rules use of the parser: [ends] says whether a rule of a chain
    would match at a line. *)
Inductive chain : Set := C_all | C_paragraph | C_blockquote | C_list.

Record bparser : Type := BParser {
  btokenize : bstate -> Z -> Z -> res bstate;
  ends : chain -> bstate -> Z -> Z -> res bool }.

Section nested.
  Context (P : bparser).

(** Module 1029 *)
Fixpoint paragraph_loop (k : nat) (e : bstate) (s : Z) : res Z :=
  match k with
  | O => Ret s
  | S k =>
      if isEmpty e s then Ret s
      else if get (tShift e) s - blkIndent e >? 3 then paragraph_loop k e (s + 1)
      else let! o := ends P C_paragraph e s (lineMax e) in if o : bool then Ret s else paragraph_loop k e (s + 1)
  end.

Definition paragraph_rule (e : bstate) (t n : Z) (silent : bool) : res (bool * bstate) :=
  let! s := paragraph_loop (Z.to_nat (lineMax e - (t + 1))) e (t + 1) in
  let r := trim (getLines e t s (blkIndent e) false) in
  let e := set_line s e in
  Ret (true, match r with
             | [] => e
             | _ =>
                 let e := bpush_leaf (paragraph_open false) e in
                 let e := bpush_inline r (blk_level e + 1) e in
                 bpush_leaf (paragraph_close false) e
             end).

(** Module 1019: a line with its marker removed; [i] is whether nothing is left. *)
Definition enter_line (e : bstate) (o v : Z) : bool * bstate :=
  let m := last_ e o in
  let v := v + 1 in
  let v := if bat v =? 32 then v + 1 else v in
  let w := if v <? m then skipSpaces v else v in
  (w >=? m, set_tShift (put o (w - v) (tShift e)) (set_bMarks (put o v (bMarks e)) e)).

(** The lines from [o] on: the marks that were replaced, and the line after the quote *)
Fixpoint quote_loop (k : nat) (e : bstate) (o n : Z) (i : bool) (u a : list Z) : res (bstate * Z * list Z * list Z) :=
  match k with
  | O => Ret (e, o, u, a)
  | S k =>
      let v := first e o in
      if (o <? n) && negb (v >=? last_ e o) then
        let u' := u ++ [get (bMarks e) o] in
        let a' := a ++ [get (tShift e) o] in
        if negb (bat v =? 62) then
          if i then Ret (e, o, u, a)
          else
            let! h := ends P C_blockquote e o n in
            if h : bool then Ret (e, o, u, a)
            else quote_loop k (set_tShift (put o (-1337) (tShift e)) e) (o + 1) n i u' a'
        else
          let '(i, e) := enter_line e o v in
          quote_loop k e (o + 1) n i u' a'
      else Ret (e, o, u, a)
  end.

(** [for (p = 0; ...) l[p + t] = w[p]] *)
Fixpoint put_all (t : Z) (w l : list Z) : list Z :=
  match w with [] => l | x :: w => put_all (t + 1) w (put t x l) end.

Definition blockquote_rule (e : bstate) (t n : Z) (r : bool) : res (bool * bstate) :=
  let v := first e t in
  if (v >? last_ e t) || negb (bat v =? 62) || btoo_deep e then Ret (false, e)
  else if r then Ret (true, e)
  else
    let s := blkIndent e in
    let u := [get (bMarks e) t] in
    let a := [get (tShift e) t] in
    let '(i, e) := enter_line (set_blkIndent 0 e) t v in
    let! (e, o, u, a) := quote_loop (Z.to_nat (n - t)) e (t + 1) n i u a in
    let l := parentType e in
    let e := bpush_open blockquote_open (set_parentType In_blockquote e) in
    let! e := btokenize P e t o in
    let e := set_parentType l (bpush_close blockquote_close e) in
    Ret (true, set_blkIndent s (set_tShift (put_all t a (tShift e)) (set_bMarks (put_all t u (bMarks e)) e))).

(** Module 1021: the position after the marker of a list, or [-1] *)
Definition skipBulletListMarker (e : bstate) (t : Z) : Z :=
  let r := first e t in
  let o := last_ e t in
  let n := bat r in
  if r >=? o then -1
  else if negb (n =? 42) && negb (n =? 45) && negb (n =? 43) then -1
  else if (r + 1 <? o) && negb (bat (r + 1) =? 32) then -1
  else r + 1.

(** The digits from [r] on and the character after them *)
Fixpoint ordered_loop (k : nat) (r o : Z) : Z :=
  match k with
  | O => -1
  | S k =>
      if r >=? o then -1
      else
        let n := bat r in
        if (n >=? 48) && (n <=? 57) then ordered_loop k (r + 1) o
        else if (n =? 41) || (n =? 46) then r + 1 else -1
  end.

(** The first test is false of a position before the source, where the code is NaN. *)
Definition skipOrderedListMarker (e : bstate) (t : Z) : Z :=
  let r := first e t in
  let o := last_ e t in
  if r + 1 >=? o then -1
  else
    let n := bat r in
    if negb (n =? NaN) && ((n <? 48) || (n >? 57)) then -1
    else
      let r := ordered_loop (Z.to_nat (o - r)) (r + 1) o in
      if r <? 0 then -1 else if (r <? o) && negb (bat r =? 32) then -1 else r.

Definition skipMarker (ordered : bool) : bstate -> Z -> Z :=
  if ordered then skipOrderedListMarker else skipBulletListMarker.

(** [Number] of a string of digits *)
Definition decimal (s : str) : Z := fold_left (fun v d => 10 * v + (d - 48)) s 0.

(** The tight flags of the paragraphs of level [o] *)
Definition tighten (t : btoken) : btoken :=
  match btype t with
  | paragraph_open _ => BTok (paragraph_open true) (blevel t)
  | paragraph_close _ => BTok (paragraph_close true) (blevel t)
  | _ => t
  end.

Definition opens_paragraph (o : Z) (t : btoken) : bool :=
  (blevel t =? o) && match btype t with paragraph_open _ => true | _ => false end.

Fixpoint mark_tight (o : Z) (ts : list btoken) : list btoken :=
  match ts with
  | a :: ((b :: c :: ts'') as ts') =>
      if opens_paragraph o a then tighten a :: b :: tighten c :: mark_tight o ts'' else a :: mark_tight o ts'
  | _ => ts
  end.

Definition markTightParagraphs (e : bstate) (t : nat) : bstate :=
  set_btokens (take (t + 2) (btokens e) ++ mark_tight (blk_level e + 2) (drop (t + 2) (btokens e))) e.

(** One item at line [t] whose marker ends at [d]; [y] is [_], that the item
    before ended with an empty line, and [A] that the list is tight so far. *)
Definition list_item (e : bstate) (t n d : Z) (y A : bool) : res (bool * bool * bstate) :=
  let p := skipSpaces d in
  let h := if p >=? last_ e t then 1 else p - d in
  let h := if h >? 4 then 1 else h in
  let h := if h <? 1 then 1 else h in
  let u := d - get (bMarks e) t + h in
  let e := bpush_open list_item_open e in
  let l := blkIndent e in
  let c := tight e in
  let s := get (tShift e) t in
  let f := parentType e in
  let e := set_parentType In_list (set_tight true (set_blkIndent u (set_tShift (put t (p - get (bMarks e) t) (tShift e)) e))) in
  let! e := btokenize P e t n in
  let A := if tight e && negb y then A else false in
  let y := (line e - t >? 1) && isEmpty e (line e - 1) in
  let e := set_parentType f (set_tight c (set_tShift (put t s (tShift e)) (set_blkIndent l e))) in
  Ret (y, A, bpush_close list_item_close e).

Fixpoint list_loop (k : nat) (g : bool) (m : Z) (e : bstate) (t n d : Z) (y A : bool) : res (bool * bstate) :=
  match k with
  | O => NoFuel
  | S k =>
      if negb (t <? n) then Ret (A, e)
      else
        let! (y, A, e) := list_item e t n d y A in
        let a := line e in
        if (a >=? n) || isEmpty e a || (get (tShift e) a <? blkIndent e) then Ret (A, e)
        else
          let! x := ends P C_list e a n in
          if x : bool then Ret (A, e)
          else
            let d := skipMarker g e a in
            if (d <? 0) || negb (m =? bat (d - 1)) then Ret (A, e) else list_loop k g m e a n d y A
  end.

Definition list_rule (e : bstate) (t n : Z) (i : bool) : res (bool * bstate) :=
  let d0 := skipOrderedListMarker e t in
  let g := d0 >=? 0 in
  let d := if g then d0 else skipBulletListMarker e t in
  if (d <? 0) || btoo_deep e then Ret (false, e)
  else
    let m := bat (d - 1) in
    if i then Ret (true, e)
    else
      let b := length (btokens e) in
      let p := first e t in
      let e := bpush_open (if g then ordered_list_open (decimal (slice src p (d - 1))) else bullet_list_open) e in
      let! (A, e) := list_loop (Z.to_nat (n - t)) g m e t n d false true in
      let e := bpush_close (if g then ordered_list_close else bullet_list_close) e in
      Ret (true, if A : bool then markTightParagraphs e b else e).

(** Module 1022 *)
Definition footnote_rule (e : bstate) (t n : Z) (r : bool) : res (bool * bstate) :=
  let l := first e t in
  let c := last_ e t in
  if (l + 4 >? c) || negb (bat l =? 91) || negb (bat (l + 1) =? 94) || btoo_deep e then Ret (false, e)
  else
    let u := scan (fun x => negb (x =? 32) && negb (x =? 93)) src (l + 2) c in
    if (u <? c) && (bat u =? 32) || (u =? l + 2) || (u + 1 >=? c) || negb (bat (u + 1) =? 58) then Ret (false, e)
    else if r then Ret (true, e)
    else
      let u := u + 2 in
      let s := slice src (l + 2) (u - 2) in
      let f := notes_of (benv e) in
      let e := set_benv (set_notes (Footnotes (Some (obj_set (default [] (fn_refs f)) (58 :: s) (-1))) (fn_list f)) (benv e)) e in
      let e := bpush_open (footnote_reference_open s) e in
      let o := get (bMarks e) t in
      let i := get (tShift e) t in
      let a := parentType e in
      let e := set_tShift (put t (skipSpaces u - u) (tShift e)) (set_bMarks (put t u (bMarks e)) e) in
      let e := set_parentType In_footnote (set_blkIndent (blkIndent e + 4) e) in
      let e :=
        if get (tShift e) t <? blkIndent e then
          set_bMarks (put t (get (bMarks e) t - blkIndent e) (bMarks e))
            (set_tShift (put t (get (tShift e) t + blkIndent e) (tShift e)) e)
        else e in
      let! e := btokenize P e t n in
      let e := set_blkIndent (blkIndent e - 4) (set_parentType a e) in
      let e := set_bMarks (put t o (bMarks e)) (set_tShift (put t i (tShift e)) e) in
      Ret (true, bpush_close footnote_reference_close e).

(** Module 1028 *)
Definition skipMarkerDef (e : bstate) (t : Z) : Z :=
  let o := first e t in
  let i := last_ e t in
  let r := bat o in
  if o >=? i then -1
  else if negb (r =? 126) && negb (r =? 58) then -1
  else
    let n := skipSpaces (o + 1) in
    if (o + 1 =? n) || (n >=? i) then -1 else n.

(** A definition at line [a] whose text starts at [i] *)
Definition def_item (e : bstate) (a n i : Z) (g y : bool) : res (bool * bool * bstate) :=
  let e := bpush_open dd_open e in
  let m := tight e in
  let d := ddIndent e in
  let p := blkIndent e in
  let v := get (tShift e) a in
  let h := parentType e in
  let e := set_ddIndent (v + 2) (set_blkIndent (v + 2) e) in
  let e := set_parentType In_deflist (set_tight true (set_tShift (put a (i - get (bMarks e) a) (tShift e)) e)) in
  let! e := btokenize P e a n in
  let y := if tight e && negb g then y else false in
  let g := (line e - a >? 1) && isEmpty e (line e - 1) in
  let e := set_ddIndent d (set_blkIndent p (set_parentType h (set_tight m (set_tShift (put a v (tShift e)) e)))) in
  Ret (g, y, bpush_close dd_close e).

(** The definitions of a term; [true] when a line follows that may be another term *)
Fixpoint def_items (k : nat) (e : bstate) (a n i : Z) (g y : bool) : res (bool * bool * bstate) :=
  match k with
  | O => NoFuel
  | S k =>
      let! (g, y, e) := def_item e a n i g y in
      let f := line e in
      if (f >=? n) || (get (tShift e) f <? blkIndent e) then Ret (false, y, e)
      else
        let i := skipMarkerDef e f in
        if i <? 0 then Ret (true, y, e) else def_items k e f n i g y
  end.

Fixpoint def_terms (k : nat) (e : bstate) (u a n i : Z) : res (bool * bstate) :=
  match k with
  | O => NoFuel
  | S k =>
      let e := bpush_open dt_open e in
      let e := bpush_inline (trim (getLines e u (u + 1) (blkIndent e) false)) (blk_level e + 1) e in
      let e := bpush_close dt_close e in
      let! (more, y, e) := def_items k e a n i false true in
      let u := line e in
      if negb more || isEmpty e u || (get (tShift e) u <? blkIndent e) || (u + 1 >=? n) then Ret (y, e)
      else
        let a := if isEmpty e (u + 1) then u + 2 else u + 1 in
        if (a >=? n) || (get (tShift e) a <? blkIndent e) then Ret (y, e)
        else
          let i := skipMarkerDef e a in
          if i <? 0 then Ret (y, e) else def_terms k e u a n i
  end.

Definition deflist_rule (e : bstate) (t n : Z) (o : bool) : res (bool * bstate) :=
  if o then Ret (negb (ddIndent e <? 0) && (skipMarkerDef e t >=? 0), e)
  else
    let f := if isEmpty e (t + 1) then t + 2 else t + 1 in
    if f >? n then Ret (false, e)
    else
      let i := skipMarkerDef e f in
      if (get (tShift e) f <? blkIndent e) || (i <? 0) || btoo_deep e then Ret (false, e)
      else
        let c := length (btokens e) in
        let e := bpush_open dl_open e in
        let! (y, e) := def_terms (S (Z.to_nat (n - t))) e t f n i in
        let e := bpush_close dl_close e in
        Ret (true, if y : bool then markTightParagraphs e c else e).

(** ** The parser (module 1015) *)

Inductive block_rule : Set :=
| B_code | B_fences | B_blockquote | B_hr | B_list | B_footnote | B_heading | B_lheading | B_htmlblock | B_table | B_deflist
| B_paragraph.

(** The third components of [i]: the chains besides the one of all rules *)
Definition in_chain (c : chain) (r : block_rule) : bool :=
  match c with
  | C_all => true
  | C_paragraph =>
      match r with B_fences | B_blockquote | B_hr | B_list | B_footnote | B_heading | B_htmlblock | B_table | B_deflist => true | _ => false end
  | C_blockquote => match r with B_fences | B_blockquote | B_hr | B_list | B_heading | B_htmlblock => true | _ => false end
  | C_list => match r with B_fences | B_blockquote | B_hr => true | _ => false end
  end.

Definition run_block (r : block_rule) : bstate -> Z -> Z -> bool -> res (bool * bstate) :=
  match r with
  | B_code => code_rule
  | B_fences => fences_rule
  | B_blockquote => blockquote_rule
  | B_hr => hr_rule
  | B_list => list_rule
  | B_footnote => footnote_rule
  | B_heading => heading_rule
  | B_lheading => lheading_rule
  | B_htmlblock => htmlblock_rule
  | B_table => table_rule
  | B_deflist => deflist_rule
  | B_paragraph => paragraph_rule
  end.

Fixpoint try_blocks (rs : list block_rule) (e : bstate) (t n : Z) (silent : bool) : res (bool * bstate) :=
  match rs with
  | [] => Ret (false, e)
  | r :: rs => let! (b, e) := run_block r e t n silent in if b : bool then Ret (true, e) else try_blocks rs e t n silent
  end.

Definition ends_ (rs : list block_rule) (c : chain) (e : bstate) (t n : Z) : res bool :=
  let! (b, _) := try_blocks (List.filter (in_chain c) rs) e t n true in Ret b.

Fixpoint btokenize_loop (k : nat) (rs : list block_rule) (e : bstate) (a n : Z) (u : bool) : res bstate :=
  match k with
  | O => NoFuel
  | S k =>
      if a <? n then
        let a := skipEmptyLines e a in
        let e := set_line a e in
        if (a >=? n) || (get (tShift e) a <? blkIndent e) then Ret e
        else
          let! (_, e) := try_blocks rs e a n false in
          let e := set_tight (negb u) e in
          let u := u || isEmpty e (line e - 1) in
          let a := line e in
          if (a <? n) && isEmpty e a then
            let a := a + 1 in
            if (a <? n) && match parentType e with In_list => true | _ => false end && isEmpty e a then Ret e
            else btokenize_loop k rs (set_line a e) a n true
          else btokenize_loop k rs e a n u
      else Ret e
  end.

Definition btokenize_ (rs : list block_rule) (e : bstate) (t n : Z) : res bstate :=
  btokenize_loop (S (Z.to_nat (n - t))) rs e t n false.

End nested.

End rules.

Section parser.
  Context (opts : options) (rs : list block_rule).

Fixpoint bparser_at (src : str) (fuel : nat) : bparser :=
  match fuel with
  | O => BParser (fun _ _ _ => NoFuel) (fun _ _ _ _ => NoFuel)
  | S fuel =>
      let P := bparser_at src fuel in
      BParser (btokenize_ opts src P rs) (ends_ opts src P rs)
  end.

(** Every block inside another is a level deeper, and [maxNesting] bounds the levels. *)
Definition the_bparser (src : str) : bparser := bparser_at src (S (S (Z.to_nat (maxNesting opts)))).

(** [/\r[\n\u0085]|[\u2424\u2028\u0085]/g] *)
Definition newline_re : re :=
  chr 13 &. Chr (fun c => (c =? 10) || (c =? 133)) |. Chr (fun c => (c =? 9252) || (c =? 8232) || (c =? 133)).

(** The tabs of the rest of the source from [n] on: [a] is the start of the
    line, [c] is where the last tab of the line ended. *)
Fixpoint expand_tabs (s : str) (n a c : Z) : str :=
  match s with
  | [] => []
  | x :: s =>
      if x =? 10 then x :: expand_tabs s (n + 1) (n + 1) 0
      else if x =? 9 then replicate (4 - Z.to_nat ((n - a - c) mod 4)) 32 ++ expand_tabs s (n + 1) a (n - a + 1)
      else x :: expand_tabs s (n + 1) a c
  end.

Definition normalize (e : str) : str :=
  let e := map (fun c => if c =? 160 then 32 else c) e in
  let e := replace newline_re (fun _ => [10]) e in
  if existsb (Z.eqb 9) e then expand_tabs e 0 0 0 else e.

Definition bparse (src : str) (e : env) (out : list btoken) : res (list btoken * env) :=
  match src with
  | [] => Ret (out, e)
  | _ =>
      let src := normalize src in
      let s := newBState src e out in
      let! s := btokenize (the_bparser src) s (line s) (lineMax s) in
      Ret (btokens s, benv s)
  end.

End parser.

(** ** The presets *)

Definition default_blocks : list block_rule :=
  [B_code; B_fences; B_blockquote; B_hr; B_list; B_footnote; B_heading; B_lheading; B_htmlblock; B_table; B_paragraph].
Definition full_blocks : list block_rule :=
  [B_code; B_fences; B_blockquote; B_hr; B_list; B_footnote; B_heading; B_lheading; B_htmlblock; B_table; B_deflist; B_paragraph].
Definition commonmark_blocks : list block_rule :=
  [B_code; B_fences; B_blockquote; B_hr; B_list; B_heading; B_lheading; B_htmlblock; B_paragraph].
