(* ===== verification/MdBlockFacts.v ===== *)
(** * The block parser: progress and nesting

    Every rule that matches moves past the line it started at, leaves the
    table of lines as it found it, and emits balanced tokens; in silent mode a
    rule changes nothing.  The rules are proved against the contract of the
    parser they call ([bparser_ok]), which [bparser_at] meets when its fuel is
    more than the levels that are left. *)

From stdpp Require Import strings.
From S2P Require Import Prelude JsObj BufText Entities MdUtils MdBase MdUri MdInline MdInlineFacts MdRender MdBlock.
Local Open Scope Z_scope.
Local Open Scope md_scope.

(** ** Balanced blocks *)

Definition bleaf (k : bkind) : bool :=
  match k with code_block _ | fence _ _ | hr | htmlblock _ | inline _ _ => true | _ => false end.

Definition bcloses (o c : bkind) : bool :=
  match o, c with
  | blockquote_open, blockquote_close | bullet_list_open, bullet_list_close | ordered_list_open _, ordered_list_close
  | list_item_open, list_item_close | table_open, table_close | thead_open, thead_close | tbody_open, tbody_close
  | tr_open, tr_close | th_open _, th_close | td_open _, td_close | footnote_reference_open _, footnote_reference_close => true
  | heading_open l, heading_close l' => l =? l'
  | _, _ => false
  end.

(** A paragraph is always one inline token between its marks, which agree. *)
Inductive bbalanced : Z -> list btoken -> Prop :=
| bb_nil l : bbalanced l []
| bb_leaf l k ts : bleaf k = true -> bbalanced l ts -> bbalanced l (BTok k l :: ts)
| bb_para l b w ch ts :
    bbalanced l ts ->
    bbalanced l (BTok (paragraph_open b) l :: BTok (inline w ch) (l + 1) :: BTok (paragraph_close b) l :: ts)
| bb_pair l o c ts ts' :
    bcloses o c = true -> bbalanced (l + 1) ts -> bbalanced l ts' -> bbalanced l (BTok o l :: ts ++ BTok c l :: ts').

Lemma bbalanced_app l ts ts' : bbalanced l ts -> bbalanced l ts' -> bbalanced l (ts ++ ts').
Proof.
  induction 1 as [|l k ts Hk H IH|l b w ch ts H IH|l o c ts1 ts2 Hc H1 _ H2 IH]; intros H'; cbn [app];
    [done|apply bb_leaf; auto|apply bb_para; auto|]. rewrite <- app_assoc. cbn [app]. apply bb_pair; auto.
Qed.

(** Marking paragraphs as tight passes over the tokens of a balanced sequence. *)
Lemma mark_tight_other o a ts : opens_paragraph o a = false -> mark_tight o (a :: ts) = a :: mark_tight o ts.
Proof. intros Ha. destruct ts as [|b [|c ts]]; cbn [mark_tight]; [done..|]. by rewrite Ha. Qed.

Lemma mark_tight_app o l ts rest (Q : bkind -> Prop) :
  (forall b, Q (paragraph_open b)) -> (forall b, Q (paragraph_close b)) ->
  bbalanced l ts -> Forall (fun t => Q (btype t)) ts ->
  exists ts', bbalanced l ts' /\ Forall (fun t => Q (btype t)) ts' /\ mark_tight o (ts ++ rest) = ts' ++ mark_tight o rest.
Proof.
  intros Ho Hc H. revert rest. induction H as [l|l k ts Hk _ IH|l b w ch ts _ IH|l op cl ts1 ts2 Hcl _ IH1 _ IH2]; intros rest HQ.
  - exists []. repeat split; constructor.
  - inversion HQ as [|?? Hq Hqs]; subst. destruct (IH rest Hqs) as (ts' & Hb & HQ' & E).
    exists (BTok k l :: ts'). split; [by constructor|]. split; [by constructor|]. cbn [app].
    rewrite mark_tight_other, E; [done|]. unfold opens_paragraph. destruct k; try done; apply andb_false_r.
  - inversion HQ as [|?? Hq1 Hq]; subst. inversion Hq as [|?? Hq2 Hq']; subst. inversion Hq' as [|?? Hq3 Hqs]; subst.
    destruct (IH rest Hqs) as (ts' & Hb & HQ' & E).
    assert (exists b', mark_tight o ((BTok (paragraph_open b) l :: BTok (inline w ch) (l + 1) :: BTok (paragraph_close b) l :: ts) ++ rest) =
      BTok (paragraph_open b') l :: BTok (inline w ch) (l + 1) :: BTok (paragraph_close b') l :: ts' ++ mark_tight o rest) as [b' Eb].
    { cbn [app]. destruct (opens_paragraph o (BTok (paragraph_open b) l)) eqn:Ep.
      - exists true. cbn [mark_tight]. rewrite Ep. cbn. by rewrite E.
      - exists b. rewrite mark_tight_other by done. rewrite mark_tight_other by (unfold opens_paragraph; apply andb_false_r).
        rewrite mark_tight_other by (unfold opens_paragraph; apply andb_false_r). by rewrite E. }
    exists (BTok (paragraph_open b') l :: BTok (inline w ch) (l + 1) :: BTok (paragraph_close b') l :: ts').
    split; [by apply bb_para|]. split; [|exact Eb]. repeat (apply Forall_cons; split); done || apply Ho || apply Hc.
  - inversion HQ as [|?? Hq1 Hq]; subst. apply Forall_app in Hq as [Hqs1 Hq]. inversion Hq as [|?? Hq2 Hqs2]; subst.
    destruct (IH2 rest Hqs2) as (ts2' & Hb2 & HQ2 & E2).
    destruct (IH1 (BTok cl l :: ts2 ++ rest) Hqs1) as (ts1' & Hb1 & HQ1 & E1).
    exists (BTok op l :: ts1' ++ BTok cl l :: ts2'). split; [by apply bb_pair|]. split.
    { constructor; [done|]. apply Forall_app. split; [done|]. by constructor. }
    replace ((BTok op l :: ts1 ++ BTok cl l :: ts2) ++ rest) with (BTok op l :: ts1 ++ BTok cl l :: ts2 ++ rest)
      by (cbn; by rewrite <- app_assoc).
    rewrite mark_tight_other, E1, mark_tight_other, E2.
    + cbn. by rewrite <- app_assoc.
    + unfold opens_paragraph. destruct cl; try apply andb_false_r. by destruct op.
    + unfold opens_paragraph. destruct op; done || apply andb_false_r.
Qed.

(** ** Reads and writes *)

Lemma put_comm i j x y l : 0 <= i -> 0 <= j -> i <> j -> put i x (put j y l) = put j y (put i x l).
Proof. intros. unfold put. apply list_insert_insert_ne. lia. Qed.

Lemma put_put i x y l : put i x (put i y l) = put i x l.
Proof. apply list_insert_insert_eq. Qed.

Lemma put_get i l : 0 <= i -> put i (get l i) l = l.
Proof.
  intros Hi. unfold put, get. destruct (Z.ltb_spec i 0); [lia|]. destruct (l !! Z.to_nat i) as [x|] eqn:E.
  - by apply list_insert_id.
  - cbn. apply list_insert_ge. by apply lookup_ge_None.
Qed.

Lemma put_length i x l : length (put i x l) = length l.
Proof. apply length_insert. Qed.

Lemma get_put i x l : 0 <= i < Z.of_nat (length l) -> get (put i x l) i = x.
Proof. intros Hi. unfold get, put. destruct (Z.ltb_spec i 0); [lia|]. rewrite list_lookup_insert_eq by lia. done. Qed.

Lemma get_put_ne i j x l : 0 <= i -> i <> j -> 0 <= j -> get (put j x l) i = get l i.
Proof. intros. unfold get, put. destruct (Z.ltb_spec i 0); [lia|]. by rewrite list_lookup_insert_ne by lia. Qed.

Lemma put_all_app t u v l : put_all t (u ++ v) l = put_all (t + Z.of_nat (length u)) v (put_all t u l).
Proof.
  revert t l. induction u as [|x u IH]; intros t l; cbn [app put_all length]; [f_equal; lia|]. rewrite IH. f_equal. lia.
Qed.

Lemma put_all_put t u o x l : 0 <= t -> t + Z.of_nat (length u) <= o -> put_all t u (put o x l) = put o x (put_all t u l).
Proof.
  revert t l. induction u as [|y u IH]; intros t l Ht Ho; cbn [put_all length] in *; [done|].
  rewrite put_comm by lia. apply IH; lia.
Qed.

Lemma put_all_get t u o l : 0 <= t -> t + Z.of_nat (length u) <= o -> get (put_all t u l) o = get l o.
Proof.
  revert t l. induction u as [|y u IH]; intros t l Ht Ho; cbn [put_all length] in *; [done|].
  rewrite IH by lia. apply get_put_ne; lia.
Qed.

(** One more line of a quote is entered: restoring still gives the table back. *)
Lemma put_all_snoc t u o x l l0 :
  0 <= t -> t + Z.of_nat (length u) = o -> put_all t u l = l0 -> put_all t (u ++ [get l o]) (put o x l) = l0.
Proof.
  intros Ht Ho <-. rewrite put_all_app, Ho. cbn [put_all]. rewrite put_all_put, put_put by lia.
  rewrite <- (put_all_get t u o l) by lia. apply put_get. lia.
Qed.

Lemma skipEmptyLines_ge e i : i <= skipEmptyLines e i.
Proof.
  unfold skipEmptyLines. generalize (Z.to_nat (lineMax e - i)) as n. intros n. revert i.
  induction n as [|n IH]; intros i; cbn [skipEmptyLines_]; [lia|]. destruct (_ <? _); [lia|]. specialize (IH (i + 1)). lia.
Qed.

Lemma skipEmptyLines_stop e i : i < lineMax e -> first e i < last_ e i -> skipEmptyLines e i = i.
Proof.
  intros Hi Hf. unfold skipEmptyLines. destruct (Z.to_nat (lineMax e - i)) eqn:E; [done|]. cbn [skipEmptyLines_].
  by apply Z.ltb_lt in Hf as ->.
Qed.

Lemma skipEmptyLines_go e i : i < lineMax e -> last_ e i <= first e i -> i < skipEmptyLines e i.
Proof.
  intros Hi Hf. unfold skipEmptyLines. destruct (Z.to_nat (lineMax e - i)) as [|n] eqn:E; [lia|]. cbn [skipEmptyLines_].
  destruct (Z.ltb_spec (first e i) (last_ e i)); [lia|].
  assert (forall n i, i <= skipEmptyLines_ n e i) as Hge.
  { clear. induction n as [|n IH]; intros i; cbn [skipEmptyLines_]; [lia|]. destruct (_ <? _); [lia|]. specialize (IH (i + 1)). lia. }
  specialize (Hge n (i + 1)). lia.
Qed.

(** ** The contract *)

Section contract.
  Context (opts : options) (rs : list block_rule).

Definition has_footnotes : bool := existsb (fun r => match r with B_footnote => true | _ => false end) rs.

Definition ballowed (k : bkind) : Prop :=
  match k with
  | htmlblock _ => html opts = true
  | footnote_reference_open _ | footnote_reference_close => has_footnotes = true
  | inline _ ch => ch = []
  | heading_open l => 1 <= l <= 6
  | footnote_block_open | footnote_block_close | footnote_open _ | footnote_close | footnote_anchor _ _
  | dl_open | dl_close | dt_open | dt_close | dd_open | dd_close => False
  | _ => True
  end.

Definition bgood (l : Z) (ts : list btoken) : Prop := bbalanced l ts /\ Forall (fun t => ballowed (btype t)) ts.

(** Footnotes that are defined have no entry yet. *)
Definition env_step (v v' : env) : Prop :=
  references v' = references v /\ abbreviations v' = abbreviations v /\ fn_list (notes_of v') = fn_list (notes_of v) /\
  (refs_ok (notes_of v) -> refs_ok (notes_of v')) /\ (has_footnotes = false -> v' = v).

Record bkeeps (s s' : bstate) : Prop := {
  k_bMarks : bMarks s' = bMarks s;
  k_eMarks : eMarks s' = eMarks s;
  k_tShift : tShift s' = tShift s;
  k_blkIndent : blkIndent s' = blkIndent s;
  k_lineMax : lineMax s' = lineMax s;
  k_parentType : parentType s' = parentType s;
  k_level : blk_level s' = blk_level s;
  k_tokens : exists ts, btokens s' = btokens s ++ ts /\ bgood (blk_level s) ts;
  k_env : env_step (benv s) (benv s') }.

(** The table has an entry for every line and one for the end. *)
Definition sized (s : bstate) : Prop :=
  0 <= lineMax s /\ Z.of_nat (length (bMarks s)) = lineMax s + 1 /\ Z.of_nat (length (tShift s)) = lineMax s + 1.

Lemma env_step_refl v : env_step v v.
Proof. by repeat split. Qed.

Lemma env_step_trans v v' v'' : env_step v v' -> env_step v' v'' -> env_step v v''.
Proof.
  intros (A1 & B1 & C1 & D1 & E1) (A2 & B2 & C2 & D2 & E2). split; [congruence|]. split; [congruence|]. split; [congruence|].
  split; [auto|]. intros H. rewrite E2, E1; done.
Qed.

Lemma bgood_nil l : bgood l [].
Proof. split; constructor. Qed.

Lemma bgood_app l ts ts' : bgood l ts -> bgood l ts' -> bgood l (ts ++ ts').
Proof. intros [? ?] [? ?]. split; [by apply bbalanced_app|by apply Forall_app]. Qed.

Lemma bgood_leaf l k : bleaf k = true -> ballowed k -> bgood l [BTok k l].
Proof. intros. split; [constructor; [done|constructor]|by repeat constructor]. Qed.

Lemma bgood_pair l o c ts : bcloses o c = true -> ballowed o -> ballowed c -> bgood (l + 1) ts -> bgood l (BTok o l :: ts ++ [BTok c l]).
Proof.
  intros ??? [??]. split; [apply bb_pair; [done..|constructor]|]. constructor; [done|]. apply Forall_app. by repeat constructor.
Qed.

Lemma bgood_para l b w : bgood l [BTok (paragraph_open b) l; BTok (inline w []) (l + 1); BTok (paragraph_close b) l].
Proof. split; [apply bb_para; constructor|by repeat constructor]. Qed.

Lemma bkeeps_refl s : bkeeps s s.
Proof. constructor; try done. exists []. rewrite app_nil_r. split; [done|apply bgood_nil]. Qed.

Lemma bkeeps_trans s s' s'' : bkeeps s s' -> bkeeps s' s'' -> bkeeps s s''.
Proof.
  intros [? ? ? ? ? ? L1 (ts1 & T1 & G1) E1] [? ? ? ? ? ? L2 (ts2 & T2 & G2) E2]. constructor; try congruence.
  - exists (ts1 ++ ts2). rewrite T2, T1, app_assoc. split; [done|]. apply bgood_app; [done|]. congruence.
  - by apply (env_step_trans _ (benv s')).
Qed.

Lemma bkeeps_line x s : bkeeps s (set_line x s).
Proof. destruct (bkeeps_refl s). by constructor. Qed.

Lemma bkeeps_tight x s : bkeeps s (set_tight x s).
Proof. destruct (bkeeps_refl s). by constructor. Qed.

Lemma bkeeps_emit ts s : bgood (blk_level s) ts -> bkeeps s (set_btokens (btokens s ++ ts) s).
Proof. intros H. constructor; try done. eauto. Qed.

Lemma bkeeps_leaf k s : bleaf k = true -> ballowed k -> bkeeps s (bpush_leaf k s).
Proof. intros. apply bkeeps_emit. by apply bgood_leaf. Qed.

(** What a pair of tokens encloses. *)
Lemma bkeeps_nest o c s s' :
  bcloses o c = true -> ballowed o -> ballowed c -> bkeeps (bpush_open o s) s' -> bkeeps s (bpush_close c s').
Proof.
  intros Hc Ho Ha [? ? ? ? ? ? L (ts & T & G) E]. cbn in *. constructor; cbn; try done; [lia|].
  rewrite T, L. replace (blk_level s + 1 - 1) with (blk_level s) by lia. exists (BTok o (blk_level s) :: ts ++ [BTok c (blk_level s)]).
  split; [by rewrite <- !app_assoc|]. by apply bgood_pair.
Qed.

Lemma sized_keeps s s' : bkeeps s s' -> sized s -> sized s'.
Proof. intros [Hb _ Ht _ Hl _ _ _ _]. unfold sized. by rewrite Hb, Ht, Hl. Qed.

(** The levels that are left. *)
Definition depth (s : bstate) : Z := Z.max 0 (maxNesting opts - blk_level s).

(** The first line is empty or has the indentation of the block. *)
Definition enters (s : bstate) (t : Z) : Prop := last_ s t <= first s t \/ blkIndent s <= get (tShift s) t.

Record bparser_ok (m : Z) (P : bparser) : Prop := {
  bp_tok s t n : sized s -> 0 <= t -> n <= lineMax s -> depth s + 2 <= m ->
    completes (btokenize P s t n) (fun s' => bkeeps s s' /\ (t < n -> enters s t -> t < line s'));
  bp_ends c s t n : c <> C_all -> 1 <= m -> completes (ends P c s t n) (fun _ => True) }.

Definition boutcome (silent : bool) (t : Z) (s : bstate) (r : bool * bstate) : Prop :=
  let '(b, s') := r in if b && negb silent then bkeeps s s' /\ t < line s' else s' = s.

(** ** Rules without blocks inside *)

Section rules.
  Context (src : str).

Definition bready (s : bstate) (t n : Z) : Prop := sized s /\ 0 <= t < n /\ n <= lineMax s.

Lemma boutcome_emit t s s' : bkeeps s s' -> t < line s' -> boutcome false t s (true, s').
Proof. done. Qed.

Lemma bkeeps_leaf_at x k s : bleaf k = true -> ballowed k -> bkeeps s (bpush_leaf k (set_line x s)).
Proof. intros. apply (bkeeps_trans _ (set_line x s)); [apply bkeeps_line|by apply bkeeps_leaf]. Qed.

Lemma code_loop_ge k e r o n : r <= fst (code_loop k e r o n).
Proof.
  revert r o. induction k as [|k IH]; intros r o; cbn [code_loop]; [cbn; lia|]. destruct (_ <? _); [|cbn; lia].
  destruct (isEmpty e r); [specialize (IH (r + 1) o); lia|]. destruct (_ >=? 4); [specialize (IH (r + 1) (r + 1)); lia|cbn; lia].
Qed.

Lemma code_rule_spec s t n : completes (code_rule src s t n false) (boutcome false t s).
Proof.
  unfold code_rule. destruct (_ <? 4); [done|]. pose proof (code_loop_ge (Z.to_nat (n - t)) s (t + 1) (t + 1) n) as Hr.
  destruct (code_loop _ _ _ _ _) as [r o]. cbn in Hr. apply boutcome_emit; [by apply bkeeps_leaf_at|cbn; lia].
Qed.

Lemma fence_loop_gt k e o i u n : (0 < k)%nat -> u < fst (fence_loop src k e o i u n).
Proof.
  revert u. induction k as [|k IH]; intros u Hk; [lia|]. cbn [fence_loop]. destruct (_ >=? n); [cbn; lia|].
  destruct (_ && _); [cbn; lia|]. destruct (_ && _); [cbn; lia|]. destruct k as [|k]; [cbn; lia|]. specialize (IH (u + 1)). lia.
Qed.

Lemma fences_rule_spec silent s t n : (silent = false -> t < n) -> completes (fences_rule src s t n silent) (boutcome silent t s).
Proof.
  intros Ht. unfold fences_rule. destruct (_ >? _); [done|]. destruct (_ && _); [done|]. destruct (_ <? 3); [done|].
  destruct (existsb _ _); [done|]. destruct silent; [done|]. specialize (Ht eq_refl).
  pose proof (fence_loop_gt (Z.to_nat (n - t)) s (bat src (first s t)) (skipChars src (first s t) (bat src (first s t)) - first s t) t n
    ltac:(lia)) as Hu.
  destruct (fence_loop _ _ _ _ _ _ _) as [u l]. cbn in Hu. apply boutcome_emit; [by apply bkeeps_leaf_at|]. cbn. destruct l; lia.
Qed.

Lemma hr_rule_spec silent s t n : completes (hr_rule src s t n silent) (boutcome silent t s).
Proof.
  unfold hr_rule. destruct (_ >? _); [done|]. destruct (_ && _); [done|]. destruct (hr_loop _ _ _ _ _); [|done].
  destruct (_ <? 3); [done|]. destruct silent; [done|]. apply boutcome_emit; [by apply bkeeps_leaf_at|cbn; lia].
Qed.

Lemma hashes_bounds k u e i : i <= snd (hashes src k u e i).
Proof.
  revert u i. induction k as [|k IH]; intros u i; cbn [hashes]; [cbn; lia|]. destruct (_ && _); [specialize (IH (u + 1) (i + 1)); lia|cbn; lia].
Qed.

(** A heading: its text, if any, between its marks. *)
Lemma bkeeps_heading x h w (b : bool) s :
  1 <= h <= 6 ->
  let e := bpush_leaf (heading_open h) (set_line x s) in
  let e' := if b then bpush_inline w (blk_level e + 1) e else e in
  bkeeps s (bpush_leaf (heading_close h) e').
Proof.
  intros Hh. cbn zeta. apply (bkeeps_trans _ (set_line x s)); [apply bkeeps_line|].
  assert (bgood (blk_level s + 1) (if b then [BTok (inline w []) (blk_level s + 1)] else [])) as Hi
    by (destruct b; [by apply bgood_leaf|apply bgood_nil]).
  pose proof (bkeeps_emit _ (set_line x s) (bgood_pair _ (heading_open h) (heading_close h) _ (Z.eqb_refl h) Hh Logic.I Hi)) as H.
  destruct b; unfold bpush_leaf, bpush_inline, bpush in *; cbn in *; rewrite <- ?app_assoc; exact H.
Qed.

Lemma heading_rule_spec silent s t n : completes (heading_rule src s t n silent) (boutcome silent t s).
Proof.
  unfold heading_rule. destruct (_ || _); [done|]. pose proof (hashes_bounds 7 (first s t + 1) (last_ s t) 1) as Hi.
  destruct (hashes _ _ _ _ _) as [u i]. cbn in Hi. destruct (_ || _) eqn:E; [done|]. apply orb_false_iff in E as [E _].
  destruct silent; [done|]. cbn zeta. apply boutcome_emit.
  - apply (bkeeps_heading (t + 1) i _ (u <? _)). lia.
  - match goal with |- context [if ?b then _ else _] => destruct b end; cbn; lia.
Qed.

Lemma lheading_rule_spec s t n : completes (lheading_rule src s t n false) (boutcome false t s).
Proof.
  unfold lheading_rule. destruct (_ || _); [done|]. cbn zeta. apply boutcome_emit; [|cbn; lia].
  apply (bkeeps_heading (t + 1 + 1) _ _ true). destruct (_ =? 61); lia.
Qed.

Lemma nonempty_lines_ge k e l : l <= nonempty_lines k e l.
Proof. revert l. induction k as [|k IH]; intros l; cbn [nonempty_lines]; [lia|]. destruct (isEmpty e l); [lia|]. specialize (IH (l + 1)). lia. Qed.

Lemma htmlblock_rule_spec silent s t n : completes (htmlblock_rule opts src s t n silent) (boutcome silent t s).
Proof.
  unfold htmlblock_rule. destruct (_ || _) eqn:E; [done|]. rewrite !orb_false_iff, !negb_false_iff in E.
  destruct (negb _); [done|]. destruct silent; [done|]. apply boutcome_emit; [apply bkeeps_leaf_at; [done|apply E]|]. cbn.
  pose proof (nonempty_lines_ge (Z.to_nat (lineMax s - (t + 1))) s (t + 1)). lia.
Qed.

Lemma push_cells_keeps header p i c s : bkeeps s (push_cells header p i c s).
Proof.
  revert i s. induction c as [|x c IH]; intros i s; cbn [push_cells]; [apply bkeeps_refl|]. cbn zeta.
  eapply bkeeps_trans; [|apply IH].
  apply (bkeeps_nest (if header then th_open (default NoAlign (p !! i)) else td_open (default NoAlign (p !! i)))); [by destruct header..|].
  by apply bkeeps_leaf.
Qed.

Lemma table_rows_spec k p l n s : let '(l', s') := table_rows src k p l n s in bkeeps s s' /\ l <= l'.
Proof.
  revert l s. induction k as [|k IH]; intros l s; cbn [table_rows]; [split; [apply bkeeps_refl|lia]|].
  destruct (_ && _); [|split; [apply bkeeps_refl|lia]]. destruct (existsb _ _); [|split; [apply bkeeps_refl|lia]].
  set (s1 := bpush_close _ _). specialize (IH (l + 1) s1). destruct (table_rows _ _ _ _ _ _) as [l' s']. destruct IH as [Hk Hl].
  split; [|lia]. apply (bkeeps_trans _ s1); [|done]. apply (bkeeps_nest tr_open); [done..|]. apply push_cells_keeps.
Qed.

Lemma table_rule_spec silent s t n : completes (table_rule src s t n silent) (boutcome silent t s).
Proof.
  unfold table_rule. destruct (_ || _); [done|]. destruct (aligns _ _ _) as [p|]; [|done]. destruct (_ || _); [done|].
  destruct silent; [done|]. cbn zeta.
  match goal with |- context [push_cells true p 0 ?c ?e] => set (s3 := e); pose proof (push_cells_keeps true p 0 c s3) as Hc; set (s4 := push_cells true p 0 c s3) in * end.
  set (s5 := bpush_close thead_close (bpush_close tr_close s4)).
  assert (bkeeps (bpush_open table_open s) s5) as H5.
  { apply (bkeeps_nest thead_open); [done..|]. by apply (bkeeps_nest tr_open). }
  pose proof (table_rows_spec (Z.to_nat (n - t)) p (t + 2) n (bpush_open tbody_open s5)) as Hr.
  destruct (table_rows _ _ _ _ _ _) as [l s6]. destruct Hr as [Hr Hl]. apply boutcome_emit; [|cbn; lia].
  assert (bkeeps s (bpush_close table_close (bpush_close tbody_close s6))) as H.
  { apply (bkeeps_nest table_open); [done..|]. apply (bkeeps_trans _ s5); [done|]. by apply (bkeeps_nest tbody_open). }
  eapply bkeeps_trans; [exact H|apply bkeeps_line].
Qed.

(** ** Rules with blocks inside *)

Section nested.
  Context (P : bparser) (m : Z) (HP : bparser_ok m P) (Hm : 1 <= m).

Lemma paragraph_loop_spec k e s : completes (paragraph_loop P k e s) (fun s' => s <= s').
Proof.
  revert s. induction k as [|k IH]; intros s; cbn [paragraph_loop]; [cbn; lia|].
  assert (completes (paragraph_loop P k e (s + 1)) (fun s' => s <= s')) as Hn.
  { eapply returns_weaken; [apply IH|]. cbn. lia. }
  destruct (isEmpty e s); [cbn; lia|]. destruct (_ >? 3); [done|].
  eapply returns_bind; [by apply (bp_ends _ _ HP)|]. intros [] _; [cbn; lia|done].
Qed.

Lemma paragraph_rule_spec s t n : completes (paragraph_rule src P s t n false) (fun r => fst r = true /\ boutcome false t s r).
Proof.
  unfold paragraph_rule. eapply returns_bind; [apply paragraph_loop_spec|]. cbn beta. intros l Hl.
  split; [done|]. destruct (trim _) as [|x r]; cbn zeta; apply boutcome_emit; try (cbn; lia); [apply bkeeps_line|].
  apply (bkeeps_trans _ (set_line l s)); [apply bkeeps_line|].
  pose proof (bkeeps_emit _ (set_line l s) (bgood_para (blk_level s) false (x :: r))) as H.
  unfold bpush_leaf, bpush_inline, bpush in *. cbn in *. rewrite <- !app_assoc. exact H.
Qed.

(** Restoring the marks [u] and [a] of the lines from [t] to [o] gives the table of [s] back. *)
Record entered (s s' : bstate) (t o : Z) (u a : list Z) : Prop := {
  en_bMarks : put_all t u (bMarks s') = bMarks s;
  en_tShift : put_all t a (tShift s') = tShift s;
  en_size : Z.of_nat (length u) = o - t /\ Z.of_nat (length a) = o - t;
  en_lengths : length (bMarks s') = length (bMarks s) /\ length (tShift s') = length (tShift s);
  en_first : 0 <= get (tShift s') t;
  en_rest : set_bMarks (bMarks s) (set_tShift (tShift s) s') = s }.

Lemma enter_line_shape s o v :
  exists i x y, enter_line src s o v = (i, set_tShift (put o x (tShift s)) (set_bMarks (put o y (bMarks s)) s)) /\ 0 <= x.
Proof.
  unfold enter_line. eexists _, _, _. split; [done|]. destruct (_ <? _); [|lia]. unfold skipSpaces.
  match goal with |- context [scan ?p src ?i ?j] => pose proof (scan_ge p src i j) end. lia.
Qed.

Lemma entered_step s s' t o u a x y :
  0 <= t < o -> entered s s' t o u a ->
  entered s (set_tShift (put o x (tShift s')) (set_bMarks (put o y (bMarks s')) s')) t (o + 1) (u ++ [get (bMarks s') o]) (a ++ [get (tShift s') o]).
Proof.
  intros Ht [Hb Hs [Hu Ha] [Hlb Hls] Hf Hr]. constructor; cbn.
  - apply put_all_snoc; [lia..|done].
  - apply put_all_snoc; [lia..|done].
  - rewrite !length_app. cbn. lia.
  - rewrite !put_length. done.
  - rewrite get_put_ne by lia. done.
  - exact Hr.
Qed.

Lemma quote_loop_spec k s s' t o n i u a :
  0 <= t < o -> o <= n -> entered s s' t o u a ->
  completes (quote_loop src P k s' o n i u a) (fun '(s'', o', u', a') => entered s s'' t o' u' a' /\ t < o' <= n).
Proof.
  revert s' o i u a. induction k as [|k IH]; intros s' o i u a Ho Hn He; cbn [quote_loop]; [cbn; split; [done|lia]|].
  destruct (Z.ltb_spec o n); cbn [andb]; [|cbn; split; [done|lia]]. destruct (negb (_ >=? _)); [|cbn; split; [done|lia]].
  destruct (negb _).
  - destruct i; [cbn; split; [done|lia]|]. eapply returns_bind; [by apply (bp_ends _ _ HP)|]. intros [] _; [cbn; split; [done|lia]|].
    apply IH; [lia..|]. pose proof (entered_step s s' t o u a (-1337) (get (bMarks s') o) ltac:(lia) He) as H'.
    rewrite put_get in H' by lia. by destruct s'.
  - destruct (enter_line_shape s' o (first s' o)) as (j & x & y & -> & _). apply IH; [lia..|]. by apply entered_step.
Qed.

Lemma blockquote_rule_spec silent s t n :
  bready s t n -> depth s + 1 <= m -> completes (blockquote_rule opts src P s t n silent) (boutcome silent t s).
Proof.
  intros (Hs & Ht & Hn) Hd. unfold blockquote_rule. destruct (_ || btoo_deep _ _) eqn:E; [done|]. destruct silent; [done|].
  apply orb_false_iff in E as [_ E]. unfold btoo_deep in E.
  set (s0 := set_blkIndent 0 s). destruct (enter_line_shape s0 t (first s t)) as (i & x & y & -> & Hx).
  set (s1 := set_tShift _ _).
  assert (entered s0 s1 t (t + 1) [get (bMarks s) t] [get (tShift s) t]) as H1.
  { destruct Hs as (Hs1 & Hs2 & Hs3). constructor; cbn; rewrite ?put_put, ?put_get, ?put_length by lia; try done; [lia|].
    rewrite get_put by lia. done. }
  eapply returns_bind; [apply (quote_loop_spec _ s0 s1 t); [lia..|done]|]. intros [[[s2 o] u] a] [H2 Ho].
  destruct H2 as [Hb Hsh _ [Hlb Hls] Hf Hr].
  assert (blkIndent s2 = 0 /\ lineMax s2 = lineMax s /\ blk_level s2 = blk_level s /\ btokens s2 = btokens s /\ eMarks s2 = eMarks s
    /\ parentType s2 = parentType s /\ benv s2 = benv s) as (R1 & R2 & R3 & R4 & R5 & R6 & R7).
  { destruct s2. cbn in Hr. injection Hr as ? ? ? ? ? ? ? ? ? ?. subst. done. }
  set (s3 := bpush_open blockquote_open (set_parentType In_blockquote s2)).
  eapply returns_bind; [apply (bp_tok _ _ HP s3 t o)|].
  { destruct Hs as (Hs1 & Hs2 & Hs3). unfold sized. cbn in *. rewrite R2, Hlb, Hls. done. }
  { lia. }
  { cbn. lia. }
  { unfold depth in *. cbn. rewrite R3. lia. }
  intros s4 [H4 Hp]. apply boutcome_emit; [|cbn; apply Hp; [lia|right; cbn; lia]].
  apply bkeeps_nest with (o := blockquote_open) (c := blockquote_close) in H4; [|done..].
  destruct H4 as [K1 K2 K3 K4 K5 K6 K7 (ts & K8 & K9) K10]. cbn in *.
  constructor; cbn in *; rewrite ?K1, ?K3; try done; try congruence. exists ts. rewrite <- R4, <- R3. done.
Qed.

(** The marker of a list ends the line or has a space after it. *)
Definition after_marker (s : bstate) (t d : Z) : Prop := last_ s t <= d \/ bat src d = 32.

Lemma skipBullet_after s t : 0 <= skipBulletListMarker src s t -> after_marker s t (skipBulletListMarker src s t).
Proof.
  unfold skipBulletListMarker, after_marker. destruct (_ >=? _); [lia|]. destruct (_ && _); [lia|].
  destruct (Z.ltb_spec (first s t + 1) (last_ s t)); cbn [andb]; [|by left].
  destruct (Z.eqb_spec (bat src (first s t + 1)) 32); cbn [negb]; [by right|lia].
Qed.

Lemma skipOrdered_after s t : 0 <= skipOrderedListMarker src s t -> after_marker s t (skipOrderedListMarker src s t).
Proof.
  unfold skipOrderedListMarker, after_marker. destruct (_ >=? _); [lia|]. destruct (_ && _); [lia|].
  set (r := ordered_loop _ _ _ _). destruct (_ <? 0); [lia|].
  destruct (Z.ltb_spec r (last_ s t)); cbn [andb]; [|by left].
  destruct (Z.eqb_spec (bat src r) 32); cbn [negb]; [by right|lia].
Qed.

Lemma skipMarker_after g s t : 0 <= skipMarker src g s t -> after_marker s t (skipMarker src g s t).
Proof. destruct g; [apply skipOrdered_after|apply skipBullet_after]. Qed.

Lemma skipSpaces_gt d : bat src d = 32 -> d < skipSpaces src d.
Proof.
  intros H. apply scan_gt; [|by rewrite <- Z.eqb_eq, Z.eqb_sym in H]. unfold bat, charCodeAt in H. unfold len.
  destruct (Z.ltb_spec d 0); [done|]. destruct (src !! Z.to_nat d) eqn:E; [|done]. apply lookup_lt_Some in E. lia.
Qed.

Lemma list_item_spec s t n d y A :
  bready s t n -> depth s + 2 <= m -> after_marker s t d ->
  completes (list_item src P s t n d y A) (fun '(_, _, s') => bkeeps s s' /\ t < line s').
Proof.
  intros (Hs & Ht & Hn) Hd Hafter. pose proof Hs as (Hs1 & Hs2 & Hs3). unfold list_item. set (p := skipSpaces src d). cbn zeta.
  match goal with |- context [set_blkIndent (d - get (bMarks s) t + ?x)] => set (h := x) end.
  match goal with |- context [btokenize P ?e t n] => set (s1 := e) end.
  assert (enters s1 t) as Hen.
  { unfold enters, first, last_. cbn. rewrite get_put by lia.
    assert (d <= p) as Hp by apply scan_ge.
    destruct (Z.geb_spec p (last_ s t)) as [Hl|Hl]; [left; unfold last_ in *; lia|right].
    destruct Hafter as [?|Hsp%skipSpaces_gt]; [lia|]. fold p in Hsp.
    assert (h <= p - d); [|lia]. subst h. destruct (Z.geb_spec p (last_ s t)); [lia|].
    destruct (Z.gtb_spec (p - d) 4); [cbn; lia|]. destruct (Z.ltb_spec (p - d) 1); lia. }
  eapply returns_bind; [apply (bp_tok _ _ HP s1 t n)|].
  { unfold sized. cbn. rewrite put_length. done. }
  { lia. }
  { done. }
  { unfold depth in *. cbn. lia. }
  intros s2 [H2 Hline]. split; [|cbn; apply Hline; [lia|done]].
  destruct H2 as [K1 K2 K3 K4 K5 K6 K7 (ts & K8 & K9) K10]. cbn in *.
  constructor; cbn; try done; [by rewrite K3, put_put, put_get by lia|lia|].
  exists (BTok list_item_open (blk_level s) :: ts ++ [BTok list_item_close (blk_level s)]).
  rewrite K8, K7, <- !app_assoc. replace (blk_level s + 1 - 1) with (blk_level s) by lia. split; [done|]. by apply bgood_pair.
Qed.

Lemma list_loop_spec k g c s t n d y A :
  bready s t n -> depth s + 2 <= m -> after_marker s t d -> n - t <= Z.of_nat k ->
  completes (list_loop src P k g c s t n d y A) (fun '(_, s') => bkeeps s s' /\ t < line s').
Proof.
  revert s t d y A. induction k as [|k IH]; intros s t d y A Hb Hd Hafter Hk; pose proof Hb as (Hs & Ht & Hn); [lia|].
  cbn [list_loop]. destruct (Z.ltb_spec t n); cbn [negb]; [|lia].
  eapply returns_bind; [by apply list_item_spec|]. intros [[y' A'] s'] [Hk' Hl].
  destruct (Z.geb_spec (line s') n) as [|Hlt]; [done|]. cbn [orb]. destruct (_ || _); [done|].
  eapply returns_bind; [by apply (bp_ends _ _ HP)|]. intros [] _; [done|].
  destruct (Z.ltb_spec (skipMarker src g s' (line s')) 0) as [|Hmk]; [done|]. cbn [orb]. destruct (negb _); [done|].
  eapply returns_weaken; [apply IH|].
  - split; [by apply (sized_keeps s)|]. rewrite (k_lineMax _ _ Hk'). lia.
  - unfold depth in *. by rewrite (k_level _ _ Hk').
  - by apply skipMarker_after.
  - lia.
  - intros [A'' s''] [H'' Hl'']. split; [by apply (bkeeps_trans _ s')|lia].
Qed.

(** A list that is tight: all of its tokens but the first two are marked. *)
Lemma mark_tail o l i ts rest (Q : bkind -> Prop) :
  (forall b, Q (paragraph_open b)) -> (forall b, Q (paragraph_close b)) ->
  bbalanced l (i :: ts) -> Forall (fun t => Q (btype t)) (i :: ts) ->
  exists ts', bbalanced l (i :: ts') /\ Forall (fun t => Q (btype t)) (i :: ts') /\ mark_tight o (ts ++ rest) = ts' ++ mark_tight o rest.
Proof.
  intros Hqo Hqc H HQ. inversion HQ as [|?? Hqi Hqs]; subst.
  inversion H as [|? k ? Hk Hts|? b w ch ts2 Hts|? op cl ts1 ts2 Hcl H1 H2]; subst.
  - destruct (mark_tight_app o l ts rest Q) as (ts' & Hb & HQ' & E); [done..|]. exists ts'.
    split; [by apply bb_leaf|]. split; [by constructor|done].
  - inversion Hqs as [|?? Hq2 Hq']; subst. inversion Hq' as [|?? Hq3 Hqs2]; subst.
    destruct (mark_tight_app o l ts2 rest Q) as (ts' & Hb & HQ' & E); [done..|].
    exists (BTok (inline w ch) (l + 1) :: BTok (paragraph_close b) l :: ts').
    split; [by apply bb_para|]. split; [by repeat (constructor; [done|])|]. cbn [app].
    rewrite mark_tight_other by (unfold opens_paragraph; apply andb_false_r).
    rewrite mark_tight_other by (unfold opens_paragraph; apply andb_false_r). by rewrite E.
  - apply Forall_app in Hqs as [Hqs1 Hq]. inversion Hq as [|?? Hq2 Hqs2]; subst.
    destruct (mark_tight_app o l ts2 rest Q) as (ts2' & Hb2 & HQ2 & E2); [done..|].
    destruct (mark_tight_app o (l + 1) ts1 (BTok cl l :: ts2 ++ rest) Q) as (ts1' & Hb1 & HQ1 & E1); [done..|].
    exists (ts1' ++ BTok cl l :: ts2'). split; [by apply bb_pair|]. split.
    { constructor; [done|]. apply Forall_app. split; [done|]. by constructor. }
    rewrite <- app_assoc. cbn [app]. rewrite E1, mark_tight_other, E2; [by rewrite <- app_assoc|].
    unfold opens_paragraph. destruct cl; try apply andb_false_r. by destruct op.
Qed.

Lemma markTight_keeps o c s s' :
  bcloses o c = true -> ballowed o -> ballowed c -> bkeeps (bpush_open o s) s' ->
  bkeeps s (markTightParagraphs (bpush_close c s') (length (btokens s))).
Proof.
  intros Hc Ho Hcl Hk. pose proof Hk as [? ? ? ? ? ? L (ts & T & [Hb Ha]) E]. cbn in *.
  unfold markTightParagraphs. cbn.
  assert (exists ts', bgood (blk_level s + 1) ts' /\
    take (length (btokens s) + 2) ((btokens s ++ [BTok o (blk_level s)] ++ ts) ++ [BTok c (blk_level s)]) ++
    mark_tight (blk_level s + 2) (drop (length (btokens s) + 2) ((btokens s ++ [BTok o (blk_level s)] ++ ts) ++ [BTok c (blk_level s)])) =
    btokens s ++ BTok o (blk_level s) :: ts' ++ [BTok c (blk_level s)]) as (ts' & Hg & Em).
  { rewrite <- !app_assoc, take_app_add, drop_app_add. destruct ts as [|i ts]; cbn [app take drop firstn skipn].
    - exists []. split; [apply bgood_nil|]. by rewrite <- app_assoc.
    - rewrite take_0, drop_0. destruct (mark_tail (blk_level s + 2) (blk_level s + 1) i ts [BTok c (blk_level s)] ballowed) as (ts' & Hb' & Ha' & ->); [done..|].
      exists (i :: ts'). split; [done|]. cbn. by rewrite <- app_assoc. }
  constructor; cbn; try done; [lia|].
  exists (BTok o (blk_level s) :: ts' ++ [BTok c (blk_level s)]). split; [|by apply bgood_pair].
  rewrite <- Em. rewrite T, L. replace (blk_level s + 1 - 1) with (blk_level s) by lia. by rewrite <- !app_assoc.
Qed.

Lemma list_rule_spec silent s t n :
  bready s t n -> depth s + 1 <= m -> completes (list_rule opts src P s t n silent) (boutcome silent t s).
Proof.
  intros (Hs & Ht & Hn) Hd. unfold list_rule. cbn zeta. set (g := _ >=? 0). set (d := if g then _ else _).
  destruct (Z.ltb_spec d 0) as [|Hd0]; [done|]. cbn [orb]. destruct (btoo_deep opts s) eqn:E; [done|]. destruct silent; [done|].
  assert (after_marker s t d) as Hafter.
  { subst d. destruct g; [by apply skipOrdered_after|by apply skipBullet_after]. }
  unfold btoo_deep in E. set (op := if g then ordered_list_open _ else bullet_list_open).
  set (cl := if g then ordered_list_close else bullet_list_close).
  assert (bcloses op cl = true /\ ballowed op /\ ballowed cl) as (H1 & H2 & H3) by (subst op cl; by destruct g).
  eapply returns_bind; [apply (list_loop_spec _ _ _ (bpush_open op s)); [done| |done|lia]|].
  { unfold depth in *. cbn. lia. }
  intros [A s'] [Hk Hl]. apply boutcome_emit; [|by destruct A].
  destruct A; [by apply (markTight_keeps op)|by apply (bkeeps_nest op)].
Qed.

Lemma footnote_rule_spec silent s t n :
  has_footnotes = true ->
  bready s t n -> depth s + 1 <= m -> completes (footnote_rule opts src P s t n silent) (boutcome silent t s).
Proof.
  intros Hfn (Hs & Ht & Hn) Hd. pose proof Hs as (Hs1 & Hs2 & Hs3). unfold footnote_rule.
  destruct (_ || btoo_deep _ _) eqn:E; [done|]. apply orb_false_iff in E as [_ E]. unfold btoo_deep in E.
  set (u0 := scan _ _ _ _). destruct (_ || _); [done|]. destruct silent; [done|]. cbn zeta.
  set (u := u0 + 2). set (lb := slice _ _ _). set (v := set_notes _ _).
  assert (env_step (benv s) v) as Hv.
  { split; [done|]. split; [done|]. split; [done|]. split; [|by rewrite Hfn].
    intros Hr refs k i [= <-]. rewrite obj_get_set. cbn. destruct (decide _); [intros [= <-]; lia|].
    destruct (fn_refs (notes_of (benv s))) as [rf|] eqn:Er; [|done]. apply (Hr rf k i Er). }
  match goal with |- context [btokenize P ?e t n] => set (s1 := e) end.
  assert (blkIndent s1 = blkIndent s + 4 /\ eMarks s1 = eMarks s /\ lineMax s1 = lineMax s /\ blk_level s1 = blk_level s + 1 /\
    btokens s1 = btokens s ++ [BTok (footnote_reference_open lb) (blk_level s)] /\ benv s1 = v /\
    (exists x, tShift s1 = put t x (tShift s) /\ blkIndent s + 4 <= x) /\ (exists x, bMarks s1 = put t x (bMarks s)))
    as (R1 & R2 & R3 & R4 & R5 & R6 & (x & R7 & R8) & (y & R9)).
  { subst s1. cbn. destruct (Z.ltb_spec (get (put t (skipSpaces src u - u) (tShift s)) t) (blkIndent s + 4)) as [Hlt|Hge]; cbn;
      repeat (split; [done|]); rewrite get_put in * by lia.
    - rewrite !put_put. assert (u <= skipSpaces src u) by apply scan_ge. split; eexists; [split; [done|lia]|done].
    - split; eexists; [split; [done|lia]|done]. }
  clearbody s1. eapply returns_bind; [apply (bp_tok _ _ HP s1 t n)|].
  { unfold sized. rewrite R3, R7, R9, !put_length. done. }
  { lia. }
  { by rewrite R3. }
  { unfold depth in *. rewrite R4. lia. }
  intros s2 [H2 Hline]. apply boutcome_emit.
  2:{ cbn. apply Hline; [lia|]. right. rewrite R1, R7, get_put by lia. done. }
  destruct H2 as [K1 K2 K3 K4 K5 K6 K7 (ts & K8 & K9) K10].
  constructor; cbn; rewrite ?K1, ?K3, ?K4, ?K7, ?R7, ?R9, ?put_put, ?put_get by lia; try done; try congruence; try lia.
  - exists (BTok (footnote_reference_open lb) (blk_level s) :: ts ++ [BTok footnote_reference_close (blk_level s)]).
    rewrite K8, R5, R4, <- !app_assoc. replace (blk_level s + 1 - 1) with (blk_level s) by lia. split; [done|].
    apply bgood_pair; [done..|]. by rewrite <- R4.
  - apply (env_step_trans _ v); [done|]. by rewrite <- R6.
Qed.

(** ** The parser *)

Lemma run_block_spec r s t n :
  r <> B_deflist -> In r rs -> bready s t n -> depth s + 1 <= m -> completes (run_block opts src P r s t n false) (boutcome false t s).
Proof.
  intros Hr Hin Hb Hd. destruct r; cbn [run_block]; try done.
  - apply code_rule_spec.
  - apply fences_rule_spec. intros _. apply Hb.
  - by apply blockquote_rule_spec.
  - apply hr_rule_spec.
  - by apply list_rule_spec.
  - apply footnote_rule_spec; [|done..]. unfold has_footnotes. apply existsb_exists. by exists B_footnote.
  - apply heading_rule_spec.
  - apply lheading_rule_spec.
  - apply htmlblock_rule_spec.
  - apply table_rule_spec.
  - eapply returns_weaken; [apply paragraph_rule_spec|]. by intros r [_ ?].
Qed.

Lemma try_blocks_spec l s t n :
  incl l rs -> ~ In B_deflist l -> In B_paragraph l -> bready s t n -> depth s + 1 <= m ->
  completes (try_blocks opts src P l s t n false) (fun '(_, s') => bkeeps s s' /\ t < line s').
Proof.
  intros Hincl Hdef Hpar Hb Hd. induction l as [|r l IH]; [done|]. cbn [try_blocks].
  assert (r <> B_paragraph \/ r = B_paragraph) as [Hne|Heq] by (destruct r; auto).
  - eapply returns_bind; [apply run_block_spec; [|apply Hincl; by left|done|done]|].
    { intros ->. apply Hdef. by left. }
    intros [b s'] Ho. destruct b; [done|]. cbn in Ho. subst s'. destruct Hpar as [|Hpar]; [congruence|].
    apply IH; [|by intros ?; apply Hdef; right|done]. intros x Hx. apply Hincl. by right.
  - subst r. cbn [run_block]. eapply returns_bind; [apply paragraph_rule_spec|]. by intros [b s'] [[= ->] Ho].
Qed.

Lemma btokenize_loop_spec k s a n u :
  ~ In B_deflist rs -> In B_paragraph rs -> sized s -> 0 <= a -> n <= lineMax s -> depth s + 1 <= m ->
  n - a < Z.of_nat k -> (0 < k)%nat ->
  completes (btokenize_loop opts src P k rs s a n u) (fun s' => bkeeps s s' /\ (a < n -> a <= line s' /\ (enters s a -> a < line s'))).
Proof.
  intros Hdef Hpar. revert s a u. induction k as [|k IH]; intros s a u Hs Ha Hn Hd Hk Hk0; [lia|]. cbn [btokenize_loop].
  destruct (Z.ltb_spec a n) as [Hlt|]; [|cbn; split; [apply bkeeps_refl|lia]].
  pose proof (skipEmptyLines_ge s a) as Hge. set (b := skipEmptyLines s a) in *. cbn zeta.
  assert (enters s a -> a < b \/ (a = b /\ blkIndent s <= get (tShift s) b)) as Hen.
  { intros Hen. destruct (Z.ltb_spec (first s a) (last_ s a)).
    - right. assert (b = a) as -> by (apply skipEmptyLines_stop; lia). split; [done|]. destruct Hen; [lia|done].
    - left. apply skipEmptyLines_go; lia. }
  destruct (_ || _) eqn:Estop.
  { cbn. split; [apply bkeeps_line|]. intros _. split; [done|]. intros Hen'%Hen. apply orb_true_iff in Estop.
    cbn in Estop. lia. }
  apply orb_false_iff in Estop as [Hb1 Hb2]. cbn in Hb2.
  eapply returns_bind; [apply try_blocks_spec; [apply incl_refl|done|done| |]|].
  { split; [done|]. cbn. lia. }
  { done. }
  intros [r s'] [Hk' Hl]. set (s1 := set_tight (negb u) s').
  assert (bkeeps s s1) as H1.
  { apply (bkeeps_trans _ (set_line b s)); [apply bkeeps_line|]. apply (bkeeps_trans _ s'); [done|]. apply bkeeps_tight. }
  assert (forall s2 a' u', bkeeps s s2 -> b < line s2 -> a' = line s2 ->
    completes (btokenize_loop opts src P k rs s2 a' n u') (fun s3 => bkeeps s s3 /\ (a < n -> a <= line s3 /\ (enters s a -> a < line s3)))) as Hnext.
  { intros s2 a' u' H2 Hl2 ->. assert (0 < k)%nat by (destruct k; lia).
    assert (b < line s2 -> line s2 < n \/ n <= line s2) as Hcase by lia.
    destruct (Hcase Hl2) as [Hin|Hout].
    - eapply returns_weaken; [apply IH; [by apply (sized_keeps s)|lia|by rewrite (k_lineMax _ _ H2)|
        unfold depth in *; by rewrite (k_level _ _ H2)|lia|done]|].
      intros s3 [H3 Hl3]. split; [by apply (bkeeps_trans _ s2)|]. specialize (Hl3 Hin). lia.
    - destruct k as [|k']; [lia|]. cbn [btokenize_loop]. destruct (Z.ltb_spec (line s2) n); [lia|]. cbn. split; [done|]. lia. }
  change (line s') with (line s1) in Hl.
  destruct (_ && isEmpty s1 _); [|by apply Hnext].
  destruct (_ && isEmpty s1 _).
  - cbn. split; [done|]. cbn in Hl. lia.
  - apply Hnext; [|cbn in *; lia|done]. apply (bkeeps_trans _ s1); [done|apply bkeeps_line].
Qed.

End nested.

(** Rules that a chain asks change nothing and do not call the parser. *)
Lemma run_silent_spec P c r s t n :
  c <> C_all -> in_chain c r = true -> completes (run_block opts src P r s t n true) (fun '(_, s') => s' = s).
Proof.
  intros Hc Hr.
  assert (forall k, completes k (boutcome true t s) -> completes k (fun '(_, s') => s' = s)) as Hw.
  { intros k Hk. eapply returns_weaken; [exact Hk|]. intros [b s']. cbn. by rewrite andb_false_r. }
  destruct r; cbn [run_block]; try (by destruct c).
  - apply Hw. by apply fences_rule_spec.
  - unfold blockquote_rule. by destruct (_ || _).
  - apply Hw, hr_rule_spec.
  - unfold list_rule. cbn zeta. by destruct (_ || _).
  - unfold footnote_rule. destruct (_ || _); [done|]. by destruct (_ || _).
  - apply Hw, heading_rule_spec.
  - apply Hw, htmlblock_rule_spec.
  - apply Hw, table_rule_spec.
Qed.

Lemma ends_spec P c l s t n : c <> C_all -> completes (ends_ opts src P l c s t n) (fun _ => True).
Proof.
  intros Hc. unfold ends_. eapply returns_bind with (P := fun _ => True); [|by intros [b s']].
  assert (forall x, In x (List.filter (in_chain c) l) -> in_chain c x = true) as Hx by (intros x [_ Hx]%filter_In; done).
  revert Hx. generalize (List.filter (in_chain c) l) as l'. induction l' as [|r l' IH]; intros Hx; cbn [try_blocks]; [done|].
  eapply returns_bind; [apply (run_silent_spec P c); [done|apply Hx; by left]|]. intros [b s'] ->. destruct b; [done|].
  apply IH. intros x Hin. apply Hx. by right.
Qed.

Lemma bparser_at_ok fuel :
  ~ In B_deflist rs -> In B_paragraph rs -> bparser_ok (Z.of_nat fuel) (bparser_at opts rs src fuel).
Proof.
  intros Hdef Hpar. induction fuel as [|fuel IH].
  - constructor; [|lia]. intros s t n _ _ _ Hd. unfold depth in Hd. lia.
  - constructor; intros; cbn [bparser_at btokenize ends]; [|by apply ends_spec].
    eapply returns_weaken; [apply (btokenize_loop_spec _ _ IH); try done; unfold depth in *; lia|].
    cbn. intros s' [Hk Hl]. split; [done|]. intros Hlt. by apply Hl.
Qed.

End rules.

(** ** Documents *)

Lemma newBState_sized src v out : sized (newBState src v out).
Proof. unfold sized, newBState. cbn. rewrite !length_map, length_app. cbn. lia. Qed.

(** [bparse] returns for every source, with balanced tokens. *)
Lemma bparse_spec src v out :
  ~ In B_deflist rs -> In B_paragraph rs ->
  completes (bparse opts rs src v out) (fun '(ts, v') => env_step v v' /\ exists ts', ts = out ++ ts' /\ bgood 0 ts').
Proof.
  intros Hdef Hpar. unfold bparse. destruct src as [|x src].
  { cbn. split; [apply env_step_refl|]. exists []. rewrite app_nil_r. split; [done|apply bgood_nil]. }
  set (w := normalize _). cbn zeta.
  eapply returns_bind; [apply (bp_tok _ _ (bparser_at_ok w (S (S (Z.to_nat (maxNesting opts)))) Hdef Hpar))|].
  - apply newBState_sized.
  - done.
  - done.
  - unfold depth. cbn. lia.
  - intros s [[_ _ _ _ _ _ _ Ht He] _]. by split.
Qed.

End contract.
