(* ===== verification/MdCore.v ===== *)
(** * The core of remarkable

    Modules 1001 and 1004 to 1013 of swagger-ui-bundle.js: the chain of rules
    that takes a document to its tokens, and [render], which writes them as
    HTML.  The Autolinker of module 1014 is the parameter [autolinks], the
    links it finds in a text with their addresses. *)

From stdpp Require Import strings sorting.
From S2P Require Import Prelude JsObj BufText Entities MdUtils MdBase MdUri MdInline MdRender MdBlock.
Local Open Scope Z_scope.
Local Open Scope md_scope.

Definition no_env : env := Env None None None.

(** ** Expressions *)

Definition line_start : re :=
  Test (fun s i => match i with O => true | S j => match s !! j with Some c => isTerminator c | None => false end end).
Definition line_end : re :=
  Test (fun s i => (i =? length s)%nat || match s !! i with Some c => isTerminator c | None => false end).

(** [e.replace(r, "$1" + mid + "$2")] *)
Definition between (r : re) (mid : str) (s : str) : str :=
  replace r (fun f => group_or_empty s f 1 ++ mid ++ group_or_empty s f 2) s.

Section core.
  Context (toLowerCase toUpperCase : str -> str) (numToString : Z -> str) (autolinks : str -> list (str * str)).
  Context (opts : options) (inlines : list inline_rule) (blocks : list block_rule).

Notation inline_parser := (the_parser toLowerCase toUpperCase opts inlines).

(** What the rules of the core share: [inlineMode] is a constant of the run. *)
Record core : Type := Core { ctokens : list btoken; cenv : env }.

(** ** Module 1005 *)

Definition block_core (inlineMode : bool) (src : str) (c : core) : res core :=
  if inlineMode then
    Ret (Core (ctokens c ++ [BTok (inline (trim (map (fun x => if x =? 10 then 32 else x) src)) []) 0]) (cenv c))
  else
    let! (ts, e) := bparse opts blocks src (cenv c) (ctokens c) in Ret (Core ts e).

(** ** Modules 1006 and 1007: definitions at the start of paragraphs *)

(** [s] of module 1007: the end of a definition and the environment with it *)
Definition parseReference (e : str) (v : env) : res (option (Z * env)) :=
  if negb (charCodeAt e 0 =? 91) || (indexOf e (# "]:") 0 =? -1) then Ret None
  else
    let l := newState e v [] in
    let! (c, l) := parseLinkLabel e (inline_parser e) l 0 in
    if (c <? 0) || negb (charCodeAt e (c + 1) =? 58) then Ret None
    else
      let p := posMax l in
      let f := skip_space e (c + 2) p in
      let! (b, l) := parseLinkDestination toLowerCase e l f in
      if negb b then Ret None
      else
        let href := linkContent l in
        let h := pos l in
        let f := skip_space e (h + 1) p in
        let '(m, f) :=
          if (f <? p) && negb (h =? f) then
            let '(b, l) := parseLinkTitle e l f in if b then (linkContent l, pos l) else ([], h)
          else ([], h) in
        let f := scan (Z.eqb 32) e f p in
        if (f <? p) && negb (charCodeAt e f =? 10) then Ret None
        else
          let g := normalizeReference toUpperCase (slice e 1 c) in
          match references v with
          | None => Raise TypeError
          | Some refs =>
              let refs := match obj_get refs g with None => obj_set refs g (Reference m href) | Some _ => refs end in
              Ret (Some (f, Env (Some refs) (notes v) (abbreviations v)))
          end.

(** [i] of module 1006 *)
Definition parseAbbr (e : str) (v : env) : res (option (Z * env)) :=
  if negb (charCodeAt e 0 =? 42) || negb (charCodeAt e 1 =? 91) || (indexOf e (# "]:") 0 =? -1) then Ret None
  else
    let! (u, a) := parseLinkLabel e (inline_parser e) (newState e v []) 1 in
    if (u <? 0) || negb (charCodeAt e (u + 1) =? 58) then Ret None
    else
      let s := scan (neg (Z.eqb 10)) e (u + 2) (posMax a) in
      let f := trim (slice e (u + 2) s) in
      match f with
      | [] => Ret None
      | _ =>
          let k := 58 :: slice e 2 u in
          let abbr := default [] (abbreviations v) in
          let abbr := match obj_get abbr k with None => obj_set abbr k f | Some _ => abbr end in
          Ret (Some (s, Env (references v) (notes v) (Some abbr)))
      end.

(** The definitions at the start of a paragraph are taken off. *)
Fixpoint take_definitions (k : nat) (parse1 : str -> env -> res (option (Z * env))) (r : str) (v : env) : res (str * env) :=
  match r with
  | [] => Ret (r, v)
  | _ =>
      match k with
      | O => NoFuel
      | S k =>
          let! o := parse1 r v in
          match o with
          | None => Ret (r, v)
          | Some (o, v) => take_definitions k parse1 (trim (slice_from r o)) v
          end
      end
  end.

(** The loop over the paragraphs; a paragraph with nothing left is tight. *)
Fixpoint definitions_loop (parse1 : str -> env -> res (option (Z * env))) (ts : list btoken) (v : env) : res (list btoken * env) :=
  match ts with
  | BTok (paragraph_open a) l :: BTok (inline r ch) l1 :: BTok (paragraph_close b) l2 :: ts =>
      let! (r, v) := take_definitions (S (length r)) parse1 r v in
      let e := match r with [] => true | _ => false end in
      let! (ts, v) := definitions_loop parse1 ts v in
      Ret (BTok (paragraph_open (e || a)) l :: BTok (inline r ch) l1 :: BTok (paragraph_close (e || b)) l2 :: ts, v)
  | t :: ts => let! (ts, v) := definitions_loop parse1 ts v in Ret (t :: ts, v)
  | [] => Ret ([], v)
  end.

Definition abbr_core (inlineMode : bool) (c : core) : res core :=
  if inlineMode then Ret c
  else let! (ts, v) := definitions_loop parseAbbr (ctokens c) (cenv c) in Ret (Core ts v).

Definition references_core (inlineMode : bool) (c : core) : res core :=
  let v := cenv c in
  let v := Env (Some (default [] (references v))) (notes v) (abbreviations v) in
  if inlineMode then Ret (Core (ctokens c) v)
  else let! (ts, v) := definitions_loop parseReference (ctokens c) v in Ret (Core ts v).

(** ** Module 1008 *)

Fixpoint inline_loop (ts : list btoken) (v : env) : res (list btoken * env) :=
  match ts with
  | [] => Ret ([], v)
  | BTok (inline w ch) l :: ts =>
      let! (ch, v) := parse toLowerCase toUpperCase opts inlines w v ch in
      let! (ts, v) := inline_loop ts v in
      Ret (BTok (inline w ch) l :: ts, v)
  | t :: ts => let! (ts, v) := inline_loop ts v in Ret (t :: ts, v)
  end.

Definition inline_core (c : core) : res core := let! (ts, v) := inline_loop (ctokens c) (cenv c) in Ret (Core ts v).

(** ** Module 1009 *)

(** The filter: [f] is whether a definition is open, [s] its tokens, [l] its label, [p] the definitions *)
Fixpoint split_notes (ts : list btoken) (f : bool) (s : list btoken) (l : str) (p : list (str * list btoken))
    : list btoken * list (str * list btoken) :=
  match ts with
  | [] => ([], p)
  | t :: ts =>
      match btype t with
      | footnote_reference_open label => split_notes ts true [] label p
      | footnote_reference_close => split_notes ts false s l (obj_set p (58 :: l) s)
      | _ =>
          if f then split_notes ts f (s ++ [t]) l p
          else let '(out, p) := split_notes ts f s l p in (t :: out, p)
      end
  end.

Definition closing (ts : list btoken) : list btoken * list btoken :=
  match rev ts with
  | (BTok (paragraph_close _) _ as t) :: r => (rev r, [t])
  | _ => (ts, [])
  end.

Fixpoint anchors (k : nat) (id subId c : Z) : list btoken :=
  match k with O => [] | S k => BTok (footnote_anchor id subId) c :: anchors k id (subId + 1) c end.

(** The notes from the [t]-th on; [u] is what was added last, if anything. *)
Fixpoint notes_loop (a : list footnote) (t : Z) (p : list (str * list btoken)) (u : option (list btoken)) (ts : list btoken)
    : res (list btoken) :=
  match a with
  | [] => Ret ts
  | n :: a =>
      let u :=
        match fn_tokens n with
        | Some tk => Some [BTok (paragraph_open false) 2; BTok (inline [] tk) 3; BTok (paragraph_close false) 2]
        | None => match fn_label n with Some ((_ :: _) as w) => obj_get p (58 :: w) | _ => u end
        end in
      match u with
      | None => Raise TypeError
      | Some w =>
          let '(ts, i) := closing (ts ++ [BTok (footnote_open t) 1] ++ w) in
          let o := match fn_count n with Some x => if x >? 0 then x else 1 | None => 1 end in
          notes_loop a (t + 1) p u (ts ++ anchors (Z.to_nat o) t 0 2 ++ i ++ [BTok footnote_close 1])
      end
  end.

Definition footnote_tail_core (c : core) : res core :=
  match notes (cenv c) with
  | None => Ret c
  | Some f =>
      let '(ts, p) := split_notes (ctokens c) false [] [] [] in
      match fn_list f with
      | None => Ret (Core ts (cenv c))
      | Some a =>
          let! ts := notes_loop a 0 p None (ts ++ [BTok footnote_block_open 0]) in
          Ret (Core (ts ++ [BTok footnote_block_close 0]) (cenv c))
      end
  end.

(** The rules after it change the children of inline tokens only. *)
Definition on_children (f : list token -> list token) (t : btoken) : btoken :=
  match btype t with inline w ch => BTok (inline w (f ch)) (blevel t) | _ => t end.

(** ** Module 1010 *)

Definition abbr_sep : re := Chr (fun c => cls " ()[]'.,!?-" c || (c =? 10) || (c =? 34)).

(** The keys without their colon, the longest first *)
Definition longer (a b : str) : Prop := (length b <= length a)%nat.
#[local] Instance longer_dec : RelDecision longer.
Proof. unfold longer. solve_decision. Defined.

Definition abbr_re (keys : list str) : re :=
  Grp 1 (bos |. abbr_sep)
    &. Grp 2 (match merge_sort longer (map (drop 1) keys) with
              | [] => Eps
              | k :: ks => fold_left (fun r k => Alt r (lit_ k)) ks (lit_ k)
              end)
    &. Grp 3 (eos |. abbr_sep).

(** The loop of [exec]: [i] is [lastIndex] and [l] the end of what was written.
    An empty match, of an empty abbreviation, does not move [lastIndex]. *)
Fixpoint abbr_loop (k : nat) (r : re) (abbr : list (str * str)) (u : str) (c : Z) (i l : nat) : res (list token * nat) :=
  match k with
  | O => NoFuel
  | S k =>
      match search r u i with
      | None => Ret ([], l)
      | Some p =>
          let p1 := group_or_empty u p 1 in
          let p2 := group_or_empty u p 2 in
          let before :=
            if (l <? f_end p)%nat then [Tok (text (piece u l (f_start p + length p1))) c] else [] in
          let l := (f_end p - length (group_or_empty u p 3))%nat in
          let! (ts, l) := abbr_loop k r abbr u c (f_end p) l in
          Ret (before ++ [Tok (abbr_open (default (# "undefined") (obj_get abbr (58 :: p2)))) c; Tok (text p2) (c + 1); Tok abbr_close c] ++ ts, l)
      end
  end.

Definition abbr_text (abbr : list (str * str)) (t : token) : res (list token) :=
  match type t with
  | text u =>
      let! (s, l) := abbr_loop (S (S (length u))) (abbr_re (obj_keys abbr)) abbr u (tlevel t) 0 0 in
      Ret (match s with
           | [] => [t]
           | _ => s ++ (if (l <? length u)%nat then [Tok (text (drop l u)) (tlevel t)] else [])
           end)
  | _ => Ret [t]
  end.

Fixpoint abbr_children (abbr : list (str * str)) (ch : list token) : res (list token) :=
  match ch with
  | [] => Ret []
  | t :: ch => let! a := abbr_text abbr t in let! b := abbr_children abbr ch in Ret (a ++ b)
  end.

Fixpoint abbr_tokens (abbr : list (str * str)) (ts : list btoken) : res (list btoken) :=
  match ts with
  | [] => Ret []
  | BTok (inline w ch) l :: ts =>
      let! ch := abbr_children abbr ch in let! ts := abbr_tokens abbr ts in Ret (BTok (inline w ch) l :: ts)
  | t :: ts => let! ts := abbr_tokens abbr ts in Ret (t :: ts)
  end.

Definition abbr2_core (c : core) : res core :=
  match abbreviations (cenv c) with
  | None => Ret c
  | Some abbr => let! ts := abbr_tokens abbr (ctokens c) in Ret (Core ts (cenv c))
  end.

(** ** Module 1011 *)

Definition scoped_re : re :=
  let ci (c : Z) := Chr (fun x => lower x =? c) in
  chr 40 &. Grp 1 (ci 99 |. ci 116 &. ci 109 |. ci 114 |. ci 112) &. chr 41.

Definition scoped_abbr (t : str) : str :=
  match map lower t with
  | [99] => [169] | [114] => [174] | [112] => [167] | [116; 109] => [8482] | _ => []
  end.

Definition rare_re : re := lit "+-" |. lit ".." |. lit "????" |. lit "!!!!" |. lit ",," |. lit "--".

Definition dash (c : Z) : bool := c =? 45.

Definition replace_text (a : str) : str :=
  let a := if existsb (Z.eqb 40) a then replace scoped_re (fun f => scoped_abbr (group_or_empty a f 1)) a else a in
  match search rare_re a 0 with
  | None => a
  | Some _ =>
      let a := replace (lit "+-") (fun _ => [177]) a in
      let a := replace (chr 46 &. some_ (chr 46)) (fun _ => [8230]) a in
      let a := replace (Grp 1 (Chr (cls "?!")) &. chr 8230) (fun f => group_or_empty a f 1 ++ # "..") a in
      let q := Grp 1 (Chr (cls "?!")) in
      let a := replace (times 4 q &. many q) (fun f => let c := group_or_empty a f 1 in c ++ c ++ c) a in
      let a := replace (chr 44 &. some_ (chr 44)) (fun _ => # ",") a in
      let a := between (Grp 1 (line_start |. Chr (neg dash)) &. lit "---" &. Grp 2 (Chr (neg dash) |. line_end)) [8212] a in
      let a := between (Grp 1 (line_start |. space) &. lit "--" &. Grp 2 (space |. line_end)) [8211] a in
      let w := Chr (fun c => negb (dash c || isSpace c)) in
      between (Grp 1 (line_start |. w) &. lit "--" &. Grp 2 (w |. line_end)) [8211] a
  end.

Definition replace_token (t : token) : token :=
  match type t with text a => Tok (text (replace_text a)) (tlevel t) | _ => t end.

Definition replacements_core (c : core) : res core :=
  if typographer opts then Ret (Core (map (on_children (map replace_token)) (ctokens c)) (cenv c)) else Ret c.

(** ** Module 1012 *)

Record open_quote : Type := OpenQuote { q_token : nat; q_pos : Z; q_single : bool; q_level : Z }.

(** [a]: a character that is neither white space nor a bracket or dash *)
Definition quote_letter (i : str) (t : Z) : bool :=
  negb ((t <? 0) || (t >=? len i)) && negb (cls "-()[]" (charCodeAt i t) || isSpace (charCodeAt i t)).

(** [u]: [n] in place of the character at [t] *)
Definition replaceAt (e : str) (t : Z) (n : str) : str := slice e 0 t ++ n ++ slice_from e (t + 1).

(** The content of the [i]-th token, which is a text *)
Definition edit (ch : list token) (i : nat) (t : Z) (n : str) : list token :=
  match ch !! i with Some (Tok (text w) l) => <[i := Tok (text (replaceAt w t n)) l]> ch | _ => ch end.

Definition quote_mark (k : nat) : str := match quotes opts !! k with Some c => [c] | None => # "undefined" end.

(** The entry of the stack (its top first) that a closing quote matches, and what is below it *)
Fixpoint find_quote (w : list open_quote) (y : bool) (f : Z) : option (open_quote * list open_quote) :=
  match w with
  | [] => None
  | h :: w => if q_level h <? f then None else if eqb (q_single h) y && (q_level h =? f) then Some (h, w) else find_quote w y f
  end.

(** The quotes of the [t]-th token, whose text was [i], from position [l] on *)
Fixpoint quotes_loop (i rest : str) (l : Z) (t : nat) (f : Z) (w : list open_quote) (ch : list token) : list open_quote * list token :=
  match rest with
  | [] => (w, ch)
  | x :: rest =>
      if (x =? 39) || (x =? 34) then
        let y := x =? 39 in
        let p := negb (quote_letter i (l - 1)) in
        let d := negb (quote_letter i (l + 1)) in
        let '(w, ch) :=
          if d || p then
            match (if p then None else find_quote w y f) with
            | Some (h, w) =>
                let ch := edit ch (q_token h) (q_pos h) (quote_mark (if y then 2 else 0)) in
                (w, edit ch t l (quote_mark (if y then 3 else 1)))
            | None =>
                if negb d then (OpenQuote t l y f :: w, ch)
                else if negb p && y then (w, edit ch t l [8217]) else (w, ch)
            end
          else if y then (w, edit ch t l [8217]) else (w, ch) in
        quotes_loop i rest (l + 1) t f w ch
      else quotes_loop i rest (l + 1) t f w ch
  end.

(** The entries of a deeper level are dropped. *)
Fixpoint drop_deeper (w : list open_quote) (f : Z) : list open_quote :=
  match w with [] => [] | h :: w' => if q_level h <=? f then w else drop_deeper w' f end.

Fixpoint quote_tokens (n : nat) (t : nat) (w : list open_quote) (ch : list token) : list token :=
  match n with
  | O => ch
  | S n =>
      match ch !! t with
      | Some (Tok (text i) f) =>
          let '(w, ch) := quotes_loop i i 0 t f (drop_deeper w f) ch in quote_tokens n (S t) w ch
      | _ => quote_tokens n (S t) w ch
      end
  end.

Definition smartquotes_core (c : core) : res core :=
  if typographer opts then
    Ret (Core (map (on_children (fun ch => quote_tokens (length ch) 0 [] ch)) (ctokens c)) (cenv c))
  else Ret c.

(** ** Module 1013 *)

Definition link_re : re := lit "www" |. lit "@" |. lit "://".
Definition ci_a : re := Chr (fun c => lower c =? 97).
Definition a_open_re : re := chr 60 &. ci_a &. Chr (fun c => (c =? 62) || isSpace c).
Definition a_close_re : re := lit "</" &. ci_a &. many space &. chr 62.
Definition matches (r : re) (s : str) : bool := match match_at r s 0 with Some _ => true | None => false end.

(** The tokens of a text with links, [l] being what is left of it *)
Fixpoint link_tokens (v : list (str * str)) (l : str) (d : Z) : list token :=
  match v with
  | [] => match l with [] => [] | _ => [Tok (text l) d] end
  | (w, url) :: v =>
      if validateLink toLowerCase url then
        let p := indexOf l w 0 in
        (if p =? 0 then [] else [Tok (text (if p <? 0 then slice l 0 (len l - 1) else slice l 0 p)) d])
        ++ [Tok (link_open url (Some [])) d; Tok (text w) (d + 1); Tok link_close d]
        ++ link_tokens v (slice_from l (p + len w)) d
      else link_tokens v l d
  end.

(** The position of the token where a link that closes at level [l] opens *)
Fixpoint skip_link (ch : list token) (l : Z) (t : nat) : res nat :=
  match ch !! t with
  | None => Raise TypeError
  | Some k =>
      if (tlevel k =? l) || match type k with link_open _ _ => true | _ => false end then Ret t
      else match t with O => Raise TypeError | S t => skip_link ch l t end
  end.

(** The children up to the [t]-th, backwards; [h] counts the closing tags of raw links *)
Fixpoint linkify_loop (n : nat) (ch : list token) (t : nat) (h : Z) : res (list token) :=
  match n, t with
  | O, _ => Ret ch
  | _, O => Ret ch
  | S n, S t =>
      match ch !! t with
      | None => Raise TypeError
      | Some s =>
          match type s with
          | link_close =>
              match t with
              | O => Raise TypeError
              | S t => let! t := skip_link ch (tlevel s) t in linkify_loop n ch t h
              end
          | htmltag g =>
              let h := if matches a_open_re g && (h >? 0) then h - 1 else h in
              linkify_loop n ch t (if matches a_close_re g then h + 1 else h)
          | text l =>
              if (h <=? 0) && match search link_re l 0 with Some _ => true | None => false end then
                match autolinks l with
                | [] => linkify_loop n ch t h
                | v => linkify_loop n (take t ch ++ link_tokens v l (tlevel s) ++ drop (S t) ch) t h
                end
              else linkify_loop n ch t h
          | _ => linkify_loop n ch t h
          end
      end
  end.

Fixpoint linkify_tokens (ts : list btoken) : res (list btoken) :=
  match ts with
  | [] => Ret []
  | BTok (inline w ch) l :: ts =>
      let! ch := linkify_loop (length ch) ch (length ch) 0 in let! ts := linkify_tokens ts in Ret (BTok (inline w ch) l :: ts)
  | t :: ts => let! ts := linkify_tokens ts in Ret (t :: ts)
  end.

Definition linkify_core (c : core) : res core :=
  if linkify opts then let! ts := linkify_tokens (ctokens c) in Ret (Core ts (cenv c)) else Ret c.

(** ** Modules 1001 and 1004 *)

Inductive core_rule : Set :=
| K_block | K_abbr | K_references | K_inline | K_footnote_tail | K_abbr2 | K_replacements | K_smartquotes | K_linkify.

Definition run_core (inlineMode : bool) (src : str) (r : core_rule) : core -> res core :=
  match r with
  | K_block => block_core inlineMode src
  | K_abbr => abbr_core inlineMode
  | K_references => references_core inlineMode
  | K_inline => inline_core
  | K_footnote_tail => footnote_tail_core
  | K_abbr2 => abbr2_core
  | K_replacements => replacements_core
  | K_smartquotes => smartquotes_core
  | K_linkify => linkify_core
  end.

Fixpoint process (inlineMode : bool) (src : str) (rs : list core_rule) (c : core) : res core :=
  match rs with
  | [] => Ret c
  | r :: rs => let! c := run_core inlineMode src r c in process inlineMode src rs c
  end.

Definition md_parse (rs : list core_rule) (src : str) (e : env) : res (list btoken) :=
  let! c := process false src rs (Core [] e) in Ret (ctokens c).

Definition md_render (rs : list core_rule) (src : str) : res str :=
  let! ts := md_parse rs src no_env in render numToString opts ts.

Definition md_parseInline (rs : list core_rule) (src : str) (e : env) : res (list btoken) :=
  let! c := process true src rs (Core [] e) in Ret (ctokens c).

Definition md_renderInline (rs : list core_rule) (src : str) : res str :=
  let! ts := md_parseInline rs src no_env in render numToString opts ts.

End core.

(** ** The presets *)

Definition default_core : list core_rule :=
  [K_block; K_references; K_inline; K_footnote_tail; K_abbr2; K_replacements; K_smartquotes; K_linkify].
Definition full_core : list core_rule :=
  [K_block; K_abbr; K_references; K_inline; K_footnote_tail; K_abbr2; K_replacements; K_smartquotes; K_linkify].
Definition commonmark_core : list core_rule := [K_block; K_references; K_inline; K_abbr2].

Definition commonmark_options : options :=
  Options true true false (# "language-") false [] false [8220; 8221; 8216; 8217] 20.
