(* ===== verification/MdCoreFacts.v ===== *)
(** * The core of remarkable: every rule keeps the nesting of the tokens *)

From stdpp Require Import strings relations.
From S2P Require Import Prelude JsObj BufText Entities MdUtils MdBase MdUri MdInline MdInlineFacts MdRender MdHtml MdBlock MdBlockFacts MdCore.
Local Open Scope Z_scope.
Local Open Scope md_scope.

(** ** Links in angle brackets *)

(** [toLowerCase] maps the characters of ASCII one by one, whatever follows them. *)
Class LowerCase (toLowerCase : str -> str) : Prop :=
  lower_ascii p s : Forall (fun c => 0 <= c < 128) p -> exists s', toLowerCase (p ++ s) = map lower p ++ s'.

Lemma accepts_upto k p s i c j d :
  accepts (upto k (Chr p)) s i c j d -> (i <= j)%nat /\ forall x, (i <= x < j)%nat -> exists y, s !! x = Some y /\ p y = true.
Proof.
  revert i c. induction k as [|k IH]; intros i c; cbn [upto opt accepts].
  - intros [-> _]. split; [lia|]. intros x Hx. lia.
  - intros [(m & e & (-> & _ & y & Hy & Hp) & H)|[-> _]]; [|split; [lia|intros x Hx; lia]].
    apply IH in H as [Hle Hx]. split; [lia|]. intros x Hlt. destruct (decide (x = i)) as [->|]; [eauto|]. apply Hx. lia.
Qed.

Definition scheme_char (c : Z) : bool := is_alpha c || cls ".-" c.

(** A piece of a string all of whose characters satisfy a predicate. *)
Lemma piece_forall p s i j :
  (forall x, (i <= x < j)%nat -> exists y, s !! x = Some y /\ p y = true) -> forallb p (piece s i j) = true.
Proof.
  intros H. apply forallb_forall. intros y Hy. apply list_elem_of_In, list_elem_of_lookup in Hy as [k Hk]. unfold piece in Hk.
  apply lookup_take_Some in Hk as [Hk Hlt]. rewrite lookup_drop in Hk. destruct (H (i + k)%nat) as (z & Hz & Hp); [lia|]. congruence.
Qed.

(** What an autolink matches: a scheme, a colon and the rest between brackets. *)
Lemma autolink_shape s u :
  match_at autolink_re s 0 = Some u ->
  exists p r, slice (whole s u) 1 (len (whole s u) - 1) = p ++ 58 :: r /\ forallb scheme_char p = true /\ p <> [].
Proof.
  intros [H0 H]%match_at_sound. unfold autolink_re in H. cbn [accepts] in H.
  destruct H as (i1 & c1 & (-> & _ & x0 & Hx0 & Hp0) & j & c2 & (e & (i2 & c3 & (-> & _ & x1 & Hx1 & Hp1) & Hup%accepts_upto) & _) &
    i3 & c4 & (-> & _ & x2 & Hx2 & Hp2) & k & c5 & (e' & Hstar & _) & Hend).
  destruct Hup as [Hle Hup]. apply Z.eqb_eq in Hp2 as <-.
  assert (S j <= k)%nat as Hk.
  { apply (accepts_bounds (many (Chr (fun c => negb (cls "<>" c || (c <=? 32)))))) in Hstar. cbn in Hstar. lia. }
  destruct Hend as (Hend & _ & x3 & Hx3 & _). pose proof (lookup_lt_Some _ _ _ Hx3) as Hlen.
  assert (whole s u = take (S k) s) as Hw. { unfold whole, piece. by rewrite H0, Hend, Nat.sub_0_r, drop_0. }
  assert (len (take (S k) s) = Z.of_nat (S k)) as Hl by (unfold len; rewrite length_take; lia).
  rewrite Hw, Hl. unfold slice. replace (Z.to_nat (Z.of_nat (S k) - 1 - 1)) with (k - 1)%nat by lia.
  change (Z.to_nat 1) with 1%nat. exists (piece s 1 j), (piece s (S j) k). split.
  - unfold piece. cbn [drop]. rewrite skipn_firstn_comm. rewrite take_take.
    replace ((k - 1) `min` (S k - 1))%nat with (k - 1)%nat by lia.
    rewrite <- (take_drop (j - 1) (drop 1 s)) at 1. rewrite take_app.
    rewrite take_take, length_take, length_drop, drop_drop. replace ((k - 1) `min` (j - 1))%nat with (j - 1)%nat by lia.
    f_equal. pose proof (lookup_lt_Some _ _ _ Hx2) as Hj. replace (k - 1 - (j - 1) `min` (length s - 1))%nat with (S (k - S j)) by lia.
    replace (1 + (j - 1))%nat with j by lia. by rewrite (drop_S _ _ _ Hx2).
  - split.
    + apply piece_forall. intros x Hx. destruct (decide (x = 1)%nat) as [->|]; [eauto|]. apply Hup. lia.
    + unfold piece. intros Hn. apply (f_equal length) in Hn. rewrite length_take, length_drop in Hn. cbn in Hn.
      pose proof (lookup_lt_Some _ _ _ Hx1). lia.
Qed.

Lemma trimStart_app x w : trimStart w = w -> w <> [] -> exists x', trimStart (x ++ w) = x' ++ w.
Proof.
  intros Hw Hn. induction x as [|c x IH]; cbn [app trimStart]; [by exists []|]. destruct (isSpace c); [exact IH|]. by exists (c :: x).
Qed.

Lemma trim_prefix w x :
  trimStart w = w -> trimStart (rev w) = rev w -> w <> [] -> exists x', trim (w ++ x) = w ++ x'.
Proof.
  intros H1 H2 Hn. unfold trim. destruct w as [|c w]; [done|]. cbn [app trimStart] in *. destruct (isSpace c) eqn:E.
  { exfalso. assert (forall v, (length (trimStart v) <= length v)%nat) as Hl.
    { induction v as [|y v IH]; cbn [trimStart length]; [lia|]. destruct (isSpace y); cbn [length]; lia. }
    specialize (Hl w). rewrite H1 in Hl. cbn in Hl. lia. }
  change (c :: w ++ x) with ((c :: w) ++ x). rewrite rev_app_distr.
  destruct (trimStart_app (rev x) (rev (c :: w))) as [y ->]; [done| |].
  { intros Hr. apply (f_equal (@length Z)) in Hr. by rewrite length_rev in Hr. }
  rewrite rev_app_distr, rev_involutive. eauto.
Qed.

Lemma scheme_char_ascii c : scheme_char c = true ->
  0 <= c < 128 /\ isSpace c = false /\ plain c = true /\ plain (lower c) = true /\ (lower c =? 58) = false.
Proof.
  intros H. assert (0 <= c < 128) as Hr.
  { unfold scheme_char, is_alpha, cls in H. change (ascii_units ".-") with [46; 45] in H. cbn [existsb] in H. lia. }
  assert (forallb (fun c => negb (scheme_char c) || (negb (isSpace c) && plain c && plain (lower c) && negb (lower c =? 58)))
    (map Z.of_nat (seq 0 128)) = true) as Hall by (vm_compute; reflexivity).
  rewrite forallb_forall in Hall. specialize (Hall c). rewrite H in Hall. cbn [negb orb] in Hall.
  rewrite !andb_true_iff, !negb_true_iff in Hall. destruct Hall as [[[? ?] ?] ?]; [|done].
  apply in_map_iff. exists (Z.to_nat c). split; [lia|]. apply in_seq. lia.
Qed.

Section safe.
  Context (toLowerCase : str -> str) {HL : LowerCase toLowerCase}.

(** The verdict on an address that starts with a scheme depends on the scheme only. *)
Lemma validateLink_scheme p x :
  forallb scheme_char p = true -> p <> [] ->
  validateLink toLowerCase (p ++ 58 :: x) = negb (existsb (eqs (map lower p)) badProtocols).
Proof.
  intros Hp Hn. rewrite forallb_forall in Hp. assert (Forall (fun c => scheme_char c = true) p) as HF by (apply Forall_forall; intros; apply Hp; by apply list_elem_of_In).
  assert (Forall (fun c => 0 <= c < 128) (p ++ [58])) as Ha.
  { apply Forall_app. split; [|by repeat constructor]. eapply Forall_impl; [exact HF|]. intros c ?%scheme_char_ascii. tauto. }
  assert (forallb plain (map lower (p ++ [58])) = true) as Hpl.
  { rewrite map_app, forallb_app. apply andb_true_iff. split; [|done]. apply forallb_forall. intros c (y & <- & Hy)%in_map_iff.
    apply Hp, scheme_char_ascii in Hy. tauto. }
  assert (forallb (fun c => negb (c =? 58)) (map lower p) = true) as H58.
  { apply forallb_forall. intros c (y & <- & Hy)%in_map_iff. apply Hp, scheme_char_ascii in Hy. apply negb_true_iff. tauto. }
  unfold validateLink. destruct (trim_prefix (p ++ [58]) x) as [x' Hx].
  { destruct p as [|c p]; [done|]. cbn. assert (isSpace c = false) as -> by (eapply scheme_char_ascii, Hp; by left). done. }
  { by rewrite rev_app_distr. }
  { by destruct p. }
  rewrite <- app_assoc in Hx. cbn [app] in Hx. rewrite Hx. destruct (lower_ascii (p ++ [58]) x' Ha) as [y ->].
  rewrite replaceEntities_all, entities_plain by done. rewrite map_app, <- app_assoc. cbn [map app lower]. change (lower 58) with 58.
  rewrite split_prefix by done. rewrite existsb_app. cbn [existsb]. by rewrite orb_true_r.
Qed.

Lemma scheme_plain p : forallb scheme_char p = true -> forallb plain (p ++ [58]) = true.
Proof.
  intros Hp. rewrite forallb_app. apply andb_true_iff. split; [|done]. rewrite forallb_forall in *. intros c Hc.
  specialize (Hp c Hc). apply scheme_char_ascii in Hp. tauto.
Qed.

Lemma autolink_valid s u c :
  match_at autolink_re s 0 = Some u ->
  let l := slice (whole s u) 1 (len (whole s u) - 1) in
  validateLink toLowerCase l = true -> normalizeLink l = Ret c -> validateLink toLowerCase c = true.
Proof.
  intros (p & r & -> & Hp & Hn)%autolink_shape. cbn zeta. rewrite validateLink_scheme by done. intros Hv Hc.
  replace (p ++ 58 :: r) with ((p ++ [58]) ++ r) in Hc by by rewrite <- app_assoc.
  apply normalizeLink_plain in Hc as [u' ->]; [|by apply scheme_plain]. rewrite <- app_assoc. cbn [app].
  by rewrite validateLink_scheme.
Qed.

(** The addresses that links and images may have. *)
Definition safe_link (h : str) : Prop := h = [] \/ validateLink toLowerCase h = true.

(** Everything the inline parser may emit: no raw HTML unless the option is set. *)
Definition may_emit (opts : options) (k : kind) : Prop :=
  match k with
  | link_open h _ | image h _ _ => safe_link h
  | htmltag _ => html opts = true
  | _ => True
  end.

#[export] Instance may_emit_allowed opts : Allowed toLowerCase opts (may_emit opts).
Proof.
  constructor; cbn; try done.
  - intros n u c Hu Hv Hc. right. by apply (autolink_valid n u).
  - intros k Hk. by destruct k.
Qed.

End safe.

(** ** Shapes *)

(** Two tokens that differ in the text at most. *)
Inductive same_text : token -> token -> Prop :=
| same_refl t : same_text t t
| same_edit w w' l : same_text (Tok (text w) l) (Tok (text w') l).

Lemma same_text_trans ch ch' ch'' : Forall2 same_text ch ch' -> Forall2 same_text ch' ch'' -> Forall2 same_text ch ch''.
Proof.
  intros H. revert ch''. induction H as [|t t' ch ch' Ht _ IH]; intros ch'' H'; inversion H' as [|? t'' ? ch3 Ht' Hch]; subst; [constructor|].
  constructor; [|auto]. destruct Ht; [done|]. inversion Ht'; subst; constructor.
Qed.

Lemma same_text_refl ch : Forall2 same_text ch ch.
Proof. induction ch; constructor; [constructor|done]. Qed.

Lemma balanced_same l ch ch' : balanced l ch -> Forall2 same_text ch ch' -> balanced l ch'.
Proof.
  intros H. revert ch'. induction H as [|l k ch Hk _ IH|l o c ch1 ch2 Hc _ IH1 _ IH2]; intros ch' HF.
  - inversion HF; subst. constructor.
  - inversion HF as [|? ? ? ? Ht Hch]; subst. inversion Ht; subst; (constructor; [done|auto]).
  - inversion HF as [|? ? ? ? Ht Hch]; subst. apply Forall2_app_inv_l in Hch as (a & b & Ha & Hb & ->).
    inversion Hb as [|? ? ? ? Ht' Hb']; subst. inversion Ht; subst; [|done]. inversion Ht'; subst; [|by destruct o].
    apply bal_pair; auto.
Qed.

(** Two blocks that differ inside of inline tokens at most. *)
Inductive same_block : btoken -> btoken -> Prop :=
| sameb_refl t : same_block t t
| sameb_inline w ch l w' ch' l' : same_block (BTok (inline w ch) l) (BTok (inline w' ch') l').

Lemma nested_same ts ts' : nested ts -> Forall2 same_block ts ts' -> nested ts'.
Proof.
  intros H. revert ts'. induction H as [|k l ts Hk _ IH|o c l l' ts1 ts2 Hc _ IH1 _ IH2]; intros ts' HF.
  - inversion HF; subst. constructor.
  - inversion HF as [|? ? ? ? Ht Hts]; subst. inversion Ht; subst; (apply n_leaf; [done|auto]).
  - inversion HF as [|? ? ? ? Ht Hts]; subst. apply Forall2_app_inv_l in Hts as (a & b & Ha & Hb & ->).
    inversion Hb as [|? ? ? ? Ht' Hb']; subst. inversion Ht; subst; [|done]. inversion Ht'; subst; [|by destruct o].
    apply n_pair; auto.
Qed.

Lemma bbalanced_nested l ts : bbalanced l ts -> nested ts.
Proof.
  induction 1 as [|l k ts Hk _ IH|l b w ch ts _ IH|l o c ts1 ts2 Hc _ IH1 _ IH2]; [constructor| | |].
  - apply n_leaf; [by destruct k|done].
  - apply (n_pair (paragraph_open b) (paragraph_close b) l l [BTok (inline w ch) (l + 1)] ts); [by destruct b|by apply nested_leaf|done].
  - apply n_pair; [by destruct o|done..].
Qed.

(** ** Replacing a text by tokens *)

Lemma closes_leaf o c : closes o c = true -> leaf o = false /\ leaf c = false.
Proof. destruct o; try done; by destruct c. Qed.

Lemma balanced_replace l ch : balanced l ch -> forall a k lv b mid,
  ch = a ++ Tok k lv :: b -> leaf k = true -> balanced lv mid -> balanced l (a ++ mid ++ b).
Proof.
  induction 1 as [l|l k0 ch Hk0 Hch IH|l o c ch1 ch2 Hc H1 IH1 H2 IH2]; intros a k lv b mid E Hk Hm; try destruct (closes_leaf _ _ Hc) as [Hlo Hlc].
  - by destruct a.
  - destruct a as [|x a]; injection E as E1 E2.
    + subst. cbn [app]. by apply balanced_app.
    + subst x. cbn [app]. constructor; [done|]. by apply (IH a k lv).
  - destruct a as [|x a]; injection E as E1 E2; [congruence|]. subst x. cbn [app].
    apply app_eq_app in E2 as (m & [[-> E]|[-> E]]).
    + destruct m as [|y m]; injection E as E3 E4; [congruence|]. subst y b.
      replace (a ++ mid ++ m ++ Tok c l :: ch2) with ((a ++ mid ++ m) ++ Tok c l :: ch2) by by rewrite <- !app_assoc.
      apply bal_pair; [done| |done]. by apply (IH1 a k lv).
    + destruct m as [|y m]; injection E as E3 E4; [congruence|]. subst y. rewrite <- app_assoc. cbn [app].
      apply bal_pair; [done..|]. by apply (IH2 m k lv).
Qed.

(** The mark that closes a link has a token of its level before it. *)
Lemma balanced_opened l ch : balanced l ch -> forall a lv b,
  ch = a ++ Tok link_close lv :: b -> exists j t, a !! j = Some t /\ tlevel t = lv.
Proof.
  induction 1 as [l|l k0 ch Hk0 Hch IH|l o c ch1 ch2 Hc H1 IH1 H2 IH2]; intros a lv b E.
  - by destruct a.
  - destruct a as [|x a]; injection E as E1 E2; [by subst|]. destruct (IH a lv b E2) as (j & t & Hj & Ht). by exists (S j), t.
  - destruct a as [|x a]; injection E as E1 E2; [by subst; destruct c|]. subst x.
    apply app_eq_app in E2 as (m & [[-> E]|[-> E]]).
    + destruct m as [|y m]; injection E as E3 E4.
      * exists 0%nat, (Tok o l). subst. done.
      * subst. destruct (IH1 a lv m eq_refl) as (j & t & Hj & Ht). by exists (S j), t.
    + destruct m as [|y m]; injection E as E3 E4.
      * exists 0%nat, (Tok o l). split; [done|]. subst. done.
      * subst. destruct (IH2 m lv b eq_refl) as (j & t & Hj & Ht). exists (S (length ch1 + S j)), t. split; [|done].
        transitivity ((ch1 ++ Tok c l :: m) !! (length ch1 + S j)%nat); [done|]. rewrite lookup_app_r by lia.
        by replace (length ch1 + S j - length ch1)%nat with (S j) by lia.
Qed.

(** ** The rules of the core *)

Lemma trim_length w : (length (trim w) <= length w)%nat.
Proof.
  assert (forall v, (length (trimStart v) <= length v)%nat) as H.
  { induction v as [|y v IH]; cbn [trimStart length]; [lia|]. destruct (isSpace y); cbn [length]; lia. }
  unfold trim. rewrite length_rev. etrans; [apply H|]. rewrite length_rev. apply H.
Qed.

Section core.
  Context (toLowerCase toUpperCase : str -> str) {HL : LowerCase toLowerCase} (numToString : Z -> str).
  Context (autolinks : str -> list (str * str)).
  Context (opts : options) (inlines : list inline_rule) (blocks : list block_rule).
  Context (Hdef : ~ In B_deflist blocks) (Hpar : In B_paragraph blocks) (Hfoot : has_footnotes blocks = false).

Notation emit := (may_emit toLowerCase opts).
Notation env_fine := (env_ok emit true None).

(** The tokens before inline parsing. *)
Notation raw := (bgood opts blocks).

(** The tokens after it. *)
Definition fine (k : bkind) : Prop :=
  match k with
  | inline _ ch => exists l, good emit l ch
  | htmlblock _ => MdInline.html opts = true
  | heading_open l => 1 <= l <= 6
  | footnote_reference_open _ | footnote_reference_close => False
  | _ => True
  end.

Definition parsed (ts : list btoken) : Prop := nested ts /\ Forall (fun t => fine (btype t)) ts.

(** *** References *)

Lemma newState_ok e v out : env_fine v -> ok emit true None (newState e v out).
Proof.
  intros Hv. constructor; [done| |done|done]. intros i Hi. unfold cacheGet, len. cbn [cache newState length Z.of_nat].
  destruct (Z.ltb_spec i (Z.of_nat 0)); lia.
Qed.

Lemma env_fine_reference v refs g r :
  env_fine v -> references v = Some refs -> href_ok emit (r_href r) ->
  env_fine (Env (Some (match obj_get refs g with None => obj_set refs g r | Some _ => refs end)) (notes v) (abbreviations v)).
Proof.
  intros [H1 H2 H3 H4 H5 H6] Hr Hh. constructor; try done. cbn. intros rf k r' [= <-]. destruct (obj_get refs g); [by apply (H1 refs)|].
  rewrite obj_get_set. destruct (decide _); [by intros [= <-]|]. by apply (H1 refs).
Qed.

Lemma parseReference_spec e v :
  env_fine v ->
  returns (parseReference toLowerCase toUpperCase opts inlines e v)
    (fun o => match o with Some (f, v') => 0 < f /\ env_fine v' | None => True end).
Proof.
  intros Hv. unfold parseReference. destruct (_ || _); [done|].
  eapply returns_bind; [apply (parseLinkLabel_spec _ _ _ _ _ _ (parser_at_ok _ _ _ emit true None _ _ (S (length e))))|].
  { by apply newState_ok. }
  { done. }
  { cbn. unfold len. lia. }
  { lia. }
  intros [c l] (Hq & _ & Hc). destruct (Z.ltb_spec c 0); [done|]. cbn [orb]. destruct (negb _); [done|].
  eapply returns_bind; [apply parseLinkDestination_spec, (q_cache _ _ Hq)|]. intros [b l2] [Hq2 Hb].
  destruct b; [|done]. cbn [negb]. destruct Hb as [Hp Hval]. unfold skip_space in *.
  pose proof (scan_ge space_or_newline e (c + 2) (posMax l)) as Hs1.
  pose proof (scan_ge space_or_newline e (pos l2 + 1) (posMax l)) as Hs2. set (f1 := scan _ _ (pos l2 + 1) _) in *.
  pose proof (parseLinkTitle_spec e l2 f1 (q_cache _ _ Hq2)) as Ht.
  match goal with |- returns (match ?x with _ => _ end) _ => assert (0 < snd x) as Hx; [|destruct x as [m f2]] end.
  { destruct (_ && _); [|cbn; lia]. destruct (parseLinkTitle e l2 f1) as [b' l3]. destruct Ht as [_ Ht]. destruct b'; cbn; lia. }
  cbn in Hx. pose proof (scan_ge (Z.eqb 32) e f2 (posMax l)) as Hs3. destruct (_ && _); [done|].
  destruct (references v) as [refs|] eqn:Er; [|by destruct (env_has_refs _ _ _ _ Hv)]. cbn. split; [lia|].
  apply (env_fine_reference v refs); [done..|]. apply (href_ok_valid toLowerCase opts emit). by right.
Qed.

Lemma take_definitions_spec k parse1 r v :
  (forall r v, env_fine v -> returns (parse1 r v) (fun o => match o with Some (f, v') => 0 < f /\ env_fine v' | None => True end)) ->
  env_fine v -> (length r < k)%nat -> returns (take_definitions k parse1 r v) (fun '(_, v') => env_fine v').
Proof.
  intros Hparse. revert r v. induction k as [|k IH]; intros r v Hv Hk; [lia|]. destruct r as [|x r]; cbn [take_definitions]; [done|].
  eapply returns_bind; [by apply Hparse|]. intros [[f v']|]; [|done]. intros [Hf Hv']. apply IH; [done|].
  pose proof (trim_length (slice_from (x :: r) f)) as Ht. unfold slice_from in *. rewrite length_drop in Ht. cbn [length] in *. lia.
Qed.

Lemma definitions_loop_app parse1 l ts rest v (R : list btoken * env -> Prop) :
  (forall r v, env_fine v -> returns (parse1 r v) (fun o => match o with Some (f, v') => 0 < f /\ env_fine v' | None => True end)) ->
  raw l ts -> env_fine v ->
  (forall v', env_fine v' -> returns (definitions_loop parse1 rest v') R) ->
  returns (definitions_loop parse1 (ts ++ rest) v) (fun '(out, v') => exists ts' rest', out = ts' ++ rest' /\ raw l ts' /\ R (rest', v')).
Proof.
  intros Hparse [Hb Ha]. revert rest v R.
  induction Hb as [l|l k ts Hk _ IH|l b w ch ts _ IH|l o c ts1 ts2 Hc _ IH1 _ IH2]; intros rest v R Hv HR.
  - eapply returns_weaken; [by apply HR|]. intros [out v'] H. exists [], out. split; [done|]. split; [apply bgood_nil|done].
  - inversion Ha as [|?? Hk' Ha']; subst. specialize (IH Ha' rest v R Hv HR). cbn [app].
    assert (definitions_loop parse1 (BTok k l :: ts ++ rest) v =
      let! (ts, v) := definitions_loop parse1 (ts ++ rest) v in Ret (BTok k l :: ts, v)) as -> by by destruct k.
    eapply returns_bind; [exact IH|]. intros [out v'] (ts' & rest' & -> & Hg & Hr). exists (BTok k l :: ts'), rest'.
    split; [done|]. split; [|done]. apply (bgood_app _ _ l [BTok k l]); [by apply bgood_leaf|done].
  - inversion Ha as [|?? _ Ha1]; subst. inversion Ha1 as [|?? Hch Ha2]; subst. inversion Ha2 as [|?? _ Ha3]; subst. cbn in Hch. subst ch.
    cbn [app definitions_loop]. eapply returns_bind; [apply take_definitions_spec; [done|done|lia]|]. intros [r v1] Hv1.
    eapply returns_bind; [apply (IH Ha3 rest v1 R Hv1 HR)|]. intros [out v'] (ts' & rest' & -> & Hg & Hr). cbn [returns].
    set (e := match r with [] => true | _ => false end).
    exists ([BTok (paragraph_open (e || b)) l; BTok (inline r []) (l + 1); BTok (paragraph_close (e || b)) l] ++ ts'), rest'.
    split; [done|]. split; [|done]. apply bgood_app; [apply bgood_para|done].
  - inversion Ha as [|?? Ho Ha1]; subst. apply Forall_app in Ha1 as [Ha1 Ha2]. inversion Ha2 as [|?? Hcl Ha3]; subst.
    rewrite <- app_comm_cons, <- app_assoc. cbn [app].
    assert (forall k tl v, ballowed opts blocks k -> (forall b, k <> paragraph_open b) -> definitions_loop parse1 (BTok k l :: tl) v =
      let! (ts, v) := definitions_loop parse1 tl v in Ret (BTok k l :: ts, v)) as Hstep.
    { intros k tl v0 _ Hne. destruct k; try done. by destruct (Hne tight). }
    rewrite Hstep by (done || (intros b ->; by destruct c)).
    eapply returns_bind.
    { apply (IH1 Ha1 (BTok c l :: ts2 ++ rest) v (fun '(out, v') => exists ts2' rest', out = BTok c l :: ts2' ++ rest' /\ raw l ts2' /\ R (rest', v'))); [done|].
      intros v1 Hv1. rewrite Hstep by (done || (intros b ->; by destruct o)).
      eapply returns_bind; [apply (IH2 Ha3 rest v1 R Hv1 HR)|]. intros [out v'] (ts' & rest' & -> & Hg & Hr).
      exists ts', rest'. done. }
    intros [out v'] (ts1' & out2 & -> & Hg1 & ts2' & rest' & -> & Hg2 & Hr).
    exists (BTok o l :: ts1' ++ BTok c l :: ts2'), rest'. split; [cbn; by rewrite <- app_assoc|]. split; [|done].
    replace (BTok o l :: ts1' ++ BTok c l :: ts2') with ((BTok o l :: ts1' ++ [BTok c l]) ++ ts2') by (cbn; by rewrite <- app_assoc).
    apply bgood_app; [by apply bgood_pair|done].
Qed.

Lemma references_core_spec ts v :
  raw 0 ts -> env_fine (Env (Some (default [] (references v))) (notes v) (abbreviations v)) ->
  returns (references_core toLowerCase toUpperCase opts inlines false (Core ts v)) (fun c => raw 0 (ctokens c) /\ env_fine (cenv c)).
Proof.
  intros Ht Hv. unfold references_core. cbn [ctokens cenv]. eapply returns_bind.
  - rewrite <- (app_nil_r ts). apply (definitions_loop_app _ 0 ts [] _ (fun '(r, v') => r = [] /\ env_fine v')); [|done|done|done].
    intros r v' Hv'. by apply parseReference_spec.
  - intros [out v'] (ts' & rest' & -> & Hg & -> & Hv'). cbn. by rewrite app_nil_r.
Qed.

(** *** Inline parsing *)

Lemma raw_fine l ts : raw l ts -> Forall (fun t => match btype t with inline _ ch => ch = [] | k => fine k end) ts.
Proof.
  intros [_ Ha]. eapply Forall_impl; [exact Ha|]. intros [k lv]. cbn. destruct k; cbn; rewrite ?Hfoot; done.
Qed.

Lemma inline_loop_spec ts v :
  Forall (fun t => match btype t with inline _ ch => ch = [] | k => fine k end) ts -> env_fine v ->
  returns (inline_loop toLowerCase toUpperCase opts inlines ts v)
    (fun '(ts', v') => env_fine v' /\ Forall2 same_block ts ts' /\ Forall (fun t => fine (btype t)) ts').
Proof.
  intros H. revert v. induction H as [|t ts Ht _ IH]; intros v Hv; [by cbn|].
  assert (forall t', fine (btype t') -> same_block t t' -> env_fine v -> forall v1, env_fine v1 ->
    returns (let! (ts, v) := inline_loop toLowerCase toUpperCase opts inlines ts v1 in Ret (t' :: ts, v))
      (fun '(ts', v') => env_fine v' /\ Forall2 same_block (t :: ts) ts' /\ Forall (fun t => fine (btype t)) ts')) as Hnext.
  { intros t' Hf Hs _ v1 Hv1. eapply returns_bind; [by apply IH|]. intros [ts' v'] (Hv' & H2 & HF). cbn. split; [done|]. split; by constructor. }
  destruct t as [k lv]. cbn [btype] in Ht. destruct k; try (apply Hnext; [exact Ht|constructor|done|done]).
  subst. cbn [inline_loop]. eapply returns_bind; [by apply (parse_spec _ _ _ emit true None)|].
  intros [ch v1] (Hv1 & ch' & -> & Hg). apply Hnext; [by exists 0|constructor|done|done].
Qed.

Lemma inline_core_spec ts v :
  raw 0 ts -> env_fine v ->
  returns (inline_core toLowerCase toUpperCase opts inlines (Core ts v)) (fun c => parsed (ctokens c) /\ env_fine (cenv c)).
Proof.
  intros Ht Hv. unfold inline_core. eapply returns_bind; [apply inline_loop_spec; [by apply (raw_fine 0)|done]|].
  intros [ts' v'] (Hv' & Hs & Hf). cbn. split; [|done]. split; [|done]. apply (nested_same ts); [|done].
  apply (bbalanced_nested 0), Ht.
Qed.

(** *** Footnotes *)

Lemma split_notes_none ts s l p : Forall (fun t => fine (btype t)) ts -> split_notes ts false s l p = (ts, p).
Proof.
  induction 1 as [|t ts Ht _ IH]; cbn [split_notes]; [done|]. rewrite IH. by destruct (btype t).
Qed.

Lemma anchors_parsed k id sub c : parsed (anchors k id sub c).
Proof.
  revert sub. induction k as [|k IH]; intros sub; cbn [anchors]; [split; constructor|]. destruct (IH (sub + 1)) as [Hn Hf].
  split; [by apply n_leaf|by constructor].
Qed.

Lemma parsed_app ts ts' : parsed ts -> parsed ts' -> parsed (ts ++ ts').
Proof. intros [? ?] [? ?]. split; [by apply nested_app|by apply Forall_app]. Qed.

Lemma parsed_pair o c l l' ts : ncloses o c = true -> fine o -> fine c -> parsed ts -> parsed (BTok o l :: ts ++ [BTok c l']).
Proof. intros ??? [??]. split; [by apply nested_pair|]. constructor; [done|]. apply Forall_app. by repeat constructor. Qed.

Lemma closing_paragraph ts t w lw l : closing (ts ++ [t] ++ [BTok (paragraph_open false) 2; BTok (inline [] w) lw; BTok (paragraph_close false) l]) =
  (ts ++ [t; BTok (paragraph_open false) 2; BTok (inline [] w) lw], [BTok (paragraph_close false) l]).
Proof.
  unfold closing. rewrite !rev_app_distr. cbn [rev app]. f_equal. by rewrite rev_involutive, <- !app_assoc.
Qed.

Lemma notes_loop_spec a t p u ts :
  Forall (entry_ok emit true) a ->
  returns (notes_loop a t p u ts) (fun out => exists notes, out = ts ++ notes /\ parsed notes).
Proof.
  intros H. revert t u ts. induction H as [|n a Hn _ IH]; intros t u ts; cbn [notes_loop].
  { exists []. rewrite app_nil_r. split; [done|]. split; constructor. }
  unfold entry_ok in Hn. destruct (fn_tokens n) as [tk|]; [|done]. cbn zeta. rewrite closing_paragraph.
  match goal with |- context [anchors ?k t 0 2] => set (an := anchors k t 0 2); pose proof (anchors_parsed k t 0 2) as Han; fold an in Han end.
  eapply returns_weaken; [apply IH|]. intros out (notes & -> & Hp).
  exists ((BTok (footnote_open t) 1 :: (BTok (paragraph_open false) 2 :: ([BTok (inline [] tk) 3] ++ an) ++ [BTok (paragraph_close false) 2])
    ++ [BTok footnote_close 1]) ++ notes).
  split; [by rewrite <- !app_assoc; cbn; rewrite <- ?app_assoc|]. apply parsed_app; [|done].
  apply parsed_pair; [done..|]. apply parsed_pair; [done..|]. apply parsed_app; [|done].
  split; [by apply nested_leaf|]. constructor; [done|constructor].
Qed.

Lemma footnote_tail_core_spec c :
  parsed (ctokens c) -> env_fine (cenv c) ->
  returns (footnote_tail_core c) (fun c' => parsed (ctokens c') /\ env_fine (cenv c')).
Proof.
  intros Hp Hv. unfold footnote_tail_core. pose proof (env_notes _ _ _ _ Hv) as Hn. unfold notes_of in Hn.
  destruct (notes (cenv c)) as [f|]; [|done]. cbn [default id] in Hn. rewrite split_notes_none by apply Hp.
  destruct (fn_list f) as [a|]; [|done]. cbn in Hn.
  eapply returns_bind; [by apply notes_loop_spec|]. intros ts (notes & -> & Hnp). cbn. split; [|done].
  rewrite <- !app_assoc. apply parsed_app; [done|]. by apply parsed_pair.
Qed.

(** *** Changes inside of inline tokens *)

Lemma on_children_parsed f ts :
  (forall l ch, good emit l ch -> good emit l (f ch)) -> parsed ts -> parsed (map (on_children f) ts).
Proof.
  intros Hf [Hn HF]. split.
  - apply (nested_same ts); [done|]. clear -ts. induction ts as [|t ts IH]; constructor; [|done].
    unfold on_children. destruct t as [k l]. destruct k; constructor.
  - apply Forall_fmap. eapply Forall_impl; [exact HF|]. intros [k l]. cbn. unfold on_children. destruct k; try done. cbn.
    intros (lv & Hg). exists lv. by apply Hf.
Qed.

Lemma good_same l ch ch' : good emit l ch -> Forall2 same_text ch ch' -> good emit l ch'.
Proof.
  intros [Hb Ha] Hs. split; [by apply (balanced_same l ch)|]. clear Hb. induction Hs as [|t t' ch ch' Ht _ IH]; [constructor|].
  inversion Ha; subst. constructor; [|auto]. by destruct Ht.
Qed.

Lemma edit_same ch i t n : Forall2 same_text ch (edit ch i t n).
Proof.
  unfold edit. destruct (ch !! i) as [[k l]|] eqn:E; [|apply same_text_refl]. destruct k; try apply same_text_refl.
  revert i E. induction ch as [|x ch IH]; intros i E; [done|]. destruct i as [|i]; cbn in E.
  - injection E as ->. constructor; [constructor|apply same_text_refl].
  - constructor; [constructor|by apply IH].
Qed.

Lemma quotes_loop_same i rest l t f w ch : Forall2 same_text ch (snd (quotes_loop opts i rest l t f w ch)).
Proof.
  revert l w ch. induction rest as [|x rest IH]; intros l w ch; cbn [quotes_loop]; [apply same_text_refl|].
  destruct (_ || _); [|apply IH]. cbn zeta.
  match goal with |- context [let '(_, _) := ?x in _] => assert (Forall2 same_text ch (snd x)) as Hx; [|destruct x as [w' ch']] end.
  { destruct (_ || _); [|destruct (x =? 39); [apply edit_same|apply same_text_refl]].
    match goal with |- context [match ?y with Some _ => _ | None => _ end] => destruct y as [[h w']|] end; [eapply same_text_trans; apply edit_same|].
    destruct (negb _); [apply same_text_refl|]. destruct (_ && _); [apply edit_same|apply same_text_refl]. }
  eapply same_text_trans; [exact Hx|apply IH].
Qed.

Lemma quote_tokens_same n t w ch : Forall2 same_text ch (quote_tokens opts n t w ch).
Proof.
  revert t w ch. induction n as [|n IH]; intros t w ch; cbn [quote_tokens]; [apply same_text_refl|].
  destruct (ch !! t) as [[k l]|]; [|apply IH]. destruct k; try apply IH.
  pose proof (quotes_loop_same content content 0 t l (drop_deeper w l) ch) as Hq.
  destruct (quotes_loop _ _ _ _ _ _ _ _) as [w' ch']. eapply same_text_trans; [exact Hq|apply IH].
Qed.

Lemma replacements_core_spec c :
  parsed (ctokens c) -> env_fine (cenv c) -> returns (replacements_core opts c) (fun c' => parsed (ctokens c') /\ env_fine (cenv c')).
Proof.
  intros Hp Hv. unfold replacements_core. destruct (typographer opts); [|done]. cbn. split; [|done].
  apply on_children_parsed; [|done]. intros l ch Hg. apply (good_same l ch); [done|].
  clear. induction ch as [|[k lv] ch IH]; constructor; [|done]. unfold replace_token. destruct k; constructor.
Qed.

Lemma smartquotes_core_spec c :
  parsed (ctokens c) -> env_fine (cenv c) -> returns (smartquotes_core opts c) (fun c' => parsed (ctokens c') /\ env_fine (cenv c')).
Proof.
  intros Hp Hv. unfold smartquotes_core. destruct (typographer opts); [|done]. cbn. split; [|done].
  apply on_children_parsed; [|done]. intros l ch Hg. apply (good_same l ch); [done|]. apply quote_tokens_same.
Qed.

(** *** Links in the text *)

Lemma link_tokens_good v l d : good emit d (link_tokens toLowerCase v l d).
Proof.
  assert (forall w, good emit d [Tok (text w) d]) as Ht by (intros w; by apply good_leaf).
  revert l. induction v as [|[w url] v IH]; intros l; cbn [link_tokens]; [destruct l; [split; constructor|apply Ht]|].
  destruct (validateLink toLowerCase url) eqn:Ev; [|apply IH]. apply good_app; [destruct (_ =? 0); [split; constructor|apply Ht]|].
  apply (good_app emit d (Tok (link_open url (Some [])) d :: [Tok (text w) (d + 1)] ++ [Tok link_close d])); [|apply IH].
  apply good_pair; [done|by right|done|by apply good_leaf].
Qed.

Lemma skip_link_spec ch lv t :
  (exists j k, (j <= t)%nat /\ ch !! j = Some k /\ tlevel k = lv) -> (t < length ch)%nat ->
  returns (skip_link ch lv t) (fun t' => (t' <= t)%nat).
Proof.
  revert lv. induction t as [|t IH]; intros lv (j & k & Hj & Hk & Hl) Ht; cbn [skip_link].
  - assert (j = 0)%nat as -> by lia. rewrite Hk, Hl, Z.eqb_refl. done.
  - destruct (lookup_lt_is_Some_2 ch (S t) Ht) as [x Hx]. rewrite Hx. destruct (Z.eqb_spec (tlevel x) lv); [cbn; lia|].
    destruct (match type x with link_open _ _ => true | _ => false end); [cbn; lia|].
    cbn [orb]. eapply returns_weaken; [apply IH; [|lia]|cbn; lia]. exists j, k. split; [|done].
    destruct (decide (j = S t)) as [->|]; [congruence|lia].
Qed.

Lemma linkify_loop_spec n ch t h l :
  good emit l ch -> (t <= length ch)%nat -> (t <= n)%nat -> returns (linkify_loop toLowerCase autolinks n ch t h) (good emit l).
Proof.
  revert ch t h. induction n as [|n IH]; intros ch t h Hg Ht Hn; cbn [linkify_loop]; [by destruct t|].
  destruct t as [|t]; [done|]. destruct (lookup_lt_is_Some_2 ch t ltac:(lia)) as [[k lv] Hk]. rewrite Hk.
  pose proof (take_drop_middle ch t _ Hk) as Hsplit.
  assert (forall h', returns (linkify_loop toLowerCase autolinks n ch t h') (good emit l)) as Hnext by (intros; apply IH; [done|lia..]).
  destruct k; cbn [type tlevel]; try apply Hnext.
  - destruct (_ && _); [|apply Hnext]. destruct (autolinks content) as [|x v]; [apply Hnext|]. pose proof (link_tokens_good (x :: v) content lv) as [Hb Ha].
    apply IH; [|rewrite length_app, length_take; lia|lia]. destruct Hg as [Hbal Hall]. split.
    + by apply (balanced_replace l ch Hbal _ (text content) lv).
    + rewrite <- Hsplit in Hall. apply Forall_app in Hall as [H1 H2]. inversion H2; subst. apply Forall_app. split; [done|]. by apply Forall_app.
  - destruct (balanced_opened l ch (proj1 Hg) _ _ _ (eq_sym Hsplit)) as (j & x & Hj & Hx).
    apply lookup_take_Some in Hj as [Hj Hjt]. destruct t as [|t]; [lia|].
    eapply returns_bind; [apply skip_link_spec; [exists j, x; split; [lia|done]|lia]|]. cbn beta. intros t' Ht'. apply IH; [done|lia..].
Qed.

Lemma linkify_core_spec c :
  parsed (ctokens c) -> env_fine (cenv c) -> returns (linkify_core toLowerCase autolinks opts c) (fun c' => parsed (ctokens c') /\ env_fine (cenv c')).
Proof.
  intros [Hn Hf] Hv. unfold linkify_core. destruct (linkify opts); [|done].
  apply (returns_bind _ _ (fun ts' => Forall2 same_block (ctokens c) ts' /\ Forall (fun t => fine (btype t)) ts')).
  - clear Hn. induction Hf as [|[k l] ts Ht _ IH]; [by cbn|].
    assert (forall t', fine (btype t') -> same_block (BTok k l) t' ->
      returns (let! ts := linkify_tokens toLowerCase autolinks ts in Ret (t' :: ts))
        (fun ts' => Forall2 same_block (BTok k l :: ts) ts' /\ Forall (fun t => fine (btype t)) ts')) as Hnext.
    { intros t' Hf' Hs. eapply returns_bind; [exact IH|]. intros ts' [H1 H2]. by split; constructor. }
    destruct k; try (apply Hnext; [exact Ht|constructor]). cbn [linkify_tokens]. destruct Ht as [lv Hg].
    eapply returns_bind; [apply (linkify_loop_spec _ _ _ _ lv); done|]. intros ch Hch. apply Hnext; [by exists lv|constructor].
  - intros ts' [Hs Hf']. cbn. split; [|done]. split; [by apply (nested_same (ctokens c))|done].
Qed.

Lemma abbr2_core_spec c :
  parsed (ctokens c) -> env_fine (cenv c) -> returns (abbr2_core c) (fun c' => parsed (ctokens c') /\ env_fine (cenv c')).
Proof. intros Hp Hv. unfold abbr2_core. by rewrite (env_abbrs _ _ _ _ Hv). Qed.

(** ** The chain *)

Definition late (r : core_rule) : bool :=
  match r with K_footnote_tail | K_abbr2 | K_replacements | K_smartquotes | K_linkify => true | _ => false end.

Notation run := (process toLowerCase toUpperCase autolinks opts inlines blocks).

Lemma process_late mode src rs c :
  forallb late rs = true -> parsed (ctokens c) -> env_fine (cenv c) -> returns (run mode src rs c) (fun c => parsed (ctokens c)).
Proof.
  revert c. induction rs as [|r rs IH]; intros c Hrs Hp Hv; cbn [process]; [done|].
  cbn [forallb] in Hrs. apply andb_true_iff in Hrs as [Hr Hrs].
  apply (returns_bind _ _ (fun c' => parsed (ctokens c') /\ env_fine (cenv c'))); [|intros c' [? ?]; by apply IH].
  destruct r; try done; cbn [run_core].
  - by apply footnote_tail_core_spec.
  - by apply abbr2_core_spec.
  - by apply replacements_core_spec.
  - by apply smartquotes_core_spec.
  - by apply linkify_core_spec.
Qed.

Lemma no_env_fine : env_fine (Env (Some (default [] (references no_env))) (notes no_env) (abbreviations no_env)).
Proof. constructor; cbn; try done. intros refs k r [= <-]. done. Qed.

Lemma block_core_spec mode src :
  returns (block_core opts blocks mode src (Core [] no_env)) (fun c => raw 0 (ctokens c) /\ cenv c = no_env).
Proof.
  unfold block_core. destruct mode; [cbn; split; [by apply bgood_leaf|done]|].
  eapply returns_bind; [by apply completes_returns, bparse_spec|]. intros [ts v] ((_ & _ & _ & _ & Hv) & ts' & -> & Hg). cbn. split; [done|]. by apply Hv.
Qed.

Lemma process_spec mode src tl :
  forallb late tl = true ->
  returns (run mode src ([K_block; K_references; K_inline] ++ tl) (Core [] no_env)) (fun c => parsed (ctokens c)).
Proof.
  intros Htl. cbn [app process]. eapply returns_bind; [apply block_core_spec|]. intros [ts v] [Ht Hv]. cbn in Ht, Hv. subst v.
  apply (returns_bind _ _ (fun c => raw 0 (ctokens c) /\ env_fine (cenv c))).
  { destruct mode; [|by apply references_core_spec, no_env_fine]. cbn. split; [done|apply no_env_fine]. }
  intros [ts1 v1] [Ht1 Hv1]. eapply returns_bind; [by apply inline_core_spec|]. intros c [Hp Hv]. by apply process_late.
Qed.

(** Without raw HTML all of it can be rendered. *)
Lemma parsed_renderable ts :
  MdInline.html opts = false -> parsed ts -> nested ts /\ Forall (fun t => brenderable (safe_link toLowerCase) (btype t)) ts.
Proof.
  intros Hh [Hn Hf]. split; [done|]. eapply Forall_impl; [exact Hf|]. intros [k l]. destruct k; cbn; rewrite ?Hh; try done.
  intros (lv & Hb & Ha). exists lv. split; [done|]. eapply Forall_impl; [exact Ha|]. intros [k' l']. destruct k'; cbn; rewrite ?Hh; done.
Qed.

End core.
