(* ===== verification/MdSpec.v ===== *)
(** * Markdown: theorems

    What the inline parser, the block parser and the renderer of remarkable
    guarantee for every source, and samples of what the code does otherwise
    than one expects. *)

From stdpp Require Import strings.
From S2P Require Import Prelude JsObj BufText Entities MdUtils MdBase MdUri MdInline MdInlineFacts MdRender MdHtml MdBlock MdBlockFacts MdCore MdCoreFacts.
Local Open Scope Z_scope.
Local Open Scope md_scope.

(** ** A small world *)

(** Functions of the language on ASCII, to run samples with. *)
Definition lowerCase (s : str) : str := map lower s.
Definition upperCase (s : str) : str := map upper s.

Fixpoint digits (n : nat) (z : Z) (acc : str) : str :=
  match n with
  | O => acc
  | S n => let acc := 48 + z mod 10 :: acc in if z / 10 =? 0 then acc else digits n (z / 10) acc
  end.
Definition show_number (z : Z) : str := digits 30 (Z.abs z) [].

Definition no_links (s : str) : list (str * str) := [].

#[export] Instance lowerCase_ascii : LowerCase lowerCase.
Proof. intros p s _. exists (map lower s). unfold lowerCase. apply map_app. Qed.

(** How numbers are written: without markup, and digits as themselves. *)
Class Numbers (numToString : Z -> str) : Prop := {
  number_free z : markup_free (numToString z) = true;
  number_digit z : 1 <= z <= 6 -> numToString z = [48 + z] }.

Lemma digits_free n z acc : 0 <= z -> markup_free acc = true -> markup_free (digits n z acc) = true.
Proof.
  revert z acc. induction n as [|n IH]; intros z acc Hz Ha; cbn [digits]; [done|].
  pose proof (Z.mod_pos_bound z 10 ltac:(lia)) as Hm.
  assert (markup_free (48 + z mod 10 :: acc) = true) as H'.
  { cbn [markup_free forallb]. change (forallb no_markup acc) with (markup_free acc). rewrite Ha, andb_true_r. unfold no_markup. lia. }
  destruct (_ =? 0); [done|]. apply IH; [|done]. apply Z.div_pos; lia.
Qed.

#[export] Instance show_number_ok : Numbers show_number.
Proof.
  split.
  - intros z. apply digits_free; [lia|done].
  - intros z Hz. assert (z = 1 \/ z = 2 \/ z = 3 \/ z = 4 \/ z = 5 \/ z = 6) as Hc by lia.
    destruct Hc as [->|[->|[->|[->|[->| ->]]]]]; done.
Qed.

(** ** Theorems *)

(** The token lists of the footnotes of an environment *)
Definition note_tokens (v : env) : list (list token) := omap fn_tokens (default [] (fn_list (notes_of v))).

(** An environment the inline parser works with: it has a table of references,
    the footnotes that have an index are in the list, and what they say is
    balanced. *)
Definition env_wf (v : env) : Prop :=
  references v <> None /\ refs_ok (notes_of v) /\ Forall (fun ts => exists l, balanced l ts) (note_tokens v).

(** What is said of the address of a token, if it is a link or an image *)
Definition address_is (Q : str -> Prop) (k : kind) : Prop :=
  match k with link_open h _ | image h _ _ => Q h | _ => True end.

Section environments.
  Context (allowed : kind -> Prop).

Lemma env_ok_wf v : env_ok allowed false (abbreviations v) v ->
  env_wf v /\ Forall (Forall (fun t => allowed (type t))) (note_tokens v).
Proof.
  intros [_ Hr _ _ Hi Hn]. unfold env_wf, note_tokens. split; [split_and!; [done..|]|]; apply Forall_forall; intros ts (f & Hf & Ht)%list_elem_of_omap;
    rewrite Forall_forall in Hn; pose proof (Hn f Hf) as Hg; unfold entry_ok in Hg; rewrite Ht in Hg; destruct Hg as [l [Hb Ha]]; eauto.
Qed.

Lemma wf_env_ok v : env_wf v -> Forall (Forall (fun t => allowed (type t))) (note_tokens v) ->
  (forall refs k r, references v = Some refs -> obj_get refs k = Some r -> href_ok allowed (r_href r)) ->
  env_ok allowed false (abbreviations v) v.
Proof.
  intros (Hr & Hi & Hb) Ha Hs. constructor; [exact Hs|done..|]. apply Forall_forall. intros f Hf. unfold entry_ok. destruct (fn_tokens f) as [ts|] eqn:Ef; [|done].
  assert (ts ∈ note_tokens v) as Hts by (apply list_elem_of_omap; eauto). rewrite Forall_forall in Hb, Ha.
  destruct (Hb ts Hts) as [l Hl]. exists l. split; [done|]. by apply Ha.
Qed.

End environments.

#[export] Instance any_allowed toLowerCase opts : Allowed toLowerCase opts (fun _ => True).
Proof. by constructor. Qed.

#[export] Instance safe_allowed toLowerCase {HL : LowerCase toLowerCase} opts : Allowed toLowerCase opts (address_is (safe_link toLowerCase)).
Proof.
  destruct (may_emit_allowed toLowerCase opts) as [H1 H2 H3 _ _]. constructor; [exact H1|exact H2|exact H3|done|]. intros k Hk. by destruct k.
Qed.

Section theorems.
  Context (toLowerCase toUpperCase : str -> str) {HL : LowerCase toLowerCase}.
  Context (numToString : Z -> str) {HN : Numbers numToString} (autolinks : str -> list (str * str)).
  Context (opts : options) (inlines : list inline_rule) (blocks : list block_rule).

(** C12: The inline parser ends on every source, with every set of rules and from
    every environment that has a table of references, a list with an entry for
    every footnote that has an index, and balanced tokens in the entries.  It
    throws nothing but the URIError of [encodeURI].  The tokens it adds are
    balanced: every mark that opens is closed by its own kind at its own level,
    and the levels count the nesting.  The environment it leaves is again such
    an environment, with the tokens of the inline footnotes in it. *)
Theorem inline_parse_balanced (src : str) (v : env) (out : list token) :
  env_wf v ->
  match parse toLowerCase toUpperCase opts inlines src v out with
  | Ret (ts, v') => (exists ts', ts = out ++ ts' /\ balanced 0 ts') /\ env_wf v'
  | Raise e => e = URIError
  | NoFuel => False
  end.
Proof.
  intros Hv. assert (env_ok (fun _ => True) false (abbreviations v) v) as Hok.
  { apply wf_env_ok; [done|apply Forall_forall; intros; by apply Forall_forall|done]. }
  pose proof (parse_spec toLowerCase toUpperCase opts (fun _ => True) false _ inlines src v out Hok) as H.
  destruct (parse _ _ _ _ _ _ _) as [[ts v']| |]; [|done..]. destruct H as (He & ts' & -> & Hb & _). split; [by exists ts'|].
  rewrite <- (env_abbrs _ _ _ _ He) in He. by apply env_ok_wf in He as [He _].
Qed.

(** C13: Links and images of the inline parser have no address of the schemes
    that [validateLink] refuses: from an environment with a table of references
    whose addresses are empty or pass that test, with an entry for every
    footnote that has an index, and with balanced tokens in the entries, every
    link and image among the tokens it adds has an address that is empty or
    passes it, also links in angle brackets, whose address is normalized after
    the test, and links and images that take the address of a reference.  So
    have those in the footnotes of the environment it leaves, if those it found
    did. *)
Theorem inline_links_safe (src : str) (v v' : env) (out ts : list token) :
  env_wf v ->
  (forall refs k r, references v = Some refs -> obj_get refs k = Some r -> safe_link toLowerCase (r_href r)) ->
  Forall (Forall (fun t => address_is (safe_link toLowerCase) (type t))) (note_tokens v) ->
  parse toLowerCase toUpperCase opts inlines src v out = Ret (ts, v') ->
  exists ts', ts = out ++ ts' /\ Forall (fun t => address_is (safe_link toLowerCase) (type t)) ts' /\
    Forall (Forall (fun t => address_is (safe_link toLowerCase) (type t))) (note_tokens v').
Proof.
  intros Hv Hr Hn E. assert (env_ok (address_is (safe_link toLowerCase)) false (abbreviations v) v) as Hok.
  { apply wf_env_ok; [done..|]. intros refs k r Hk Hg. by split; intros; apply (Hr refs k). }
  pose proof (parse_spec toLowerCase toUpperCase opts (address_is (safe_link toLowerCase)) false _ inlines src v out Hok) as H.
  rewrite E in H. destruct H as (He & ts' & -> & _ & Ha). exists ts'. split_and!; [done..|].
  rewrite <- (env_abbrs _ _ _ _ He) in He. by apply env_ok_wf in He as [_ He].
Qed.

(** C14: The block parser ends on every source, for every set of rules that has
    paragraphs and no definition lists, and throws nothing; its tokens are
    balanced and their levels count the nesting. *)
Theorem block_parse_balanced (src : str) (v : env) (out : list btoken) :
  ~ In B_deflist blocks -> In B_paragraph blocks ->
  exists ts v', bparse opts blocks src v out = Ret (out ++ ts, v') /\ bbalanced 0 ts.
Proof.
  intros Hd Hp. pose proof (bparse_spec opts blocks src v out Hd Hp) as H.
  destruct (bparse opts blocks src v out) as [[ts v']| |]; [|done..]. destruct H as (_ & ts' & -> & Hb & _). eauto.
Qed.

(** C11: With the option html off, and rules without definition lists and footnote
    blocks, rendering a document ends with a text or the URIError of
    [encodeURI].  The text is a well-formed fragment: elements are closed in the
    right order, attributes are quoted, nothing of the source is markup, and the
    addresses of links and images pass [validateLink].  The rules after inline
    parsing can be any of footnotes, abbreviations, typography and links. *)
Theorem render_wellformed (src : str) (late_rules : list core_rule) :
  MdInline.html opts = false -> markup_free (linkTarget opts) = true -> markup_free (langPrefix opts) = true ->
  ~ In B_deflist blocks -> has_footnotes blocks = false -> In B_paragraph blocks -> forallb late late_rules = true ->
  match md_render toLowerCase toUpperCase numToString autolinks opts inlines blocks
          ([K_block; K_references; K_inline] ++ late_rules) src with
  | Ret out => fragment (safe_link toLowerCase) out
  | Raise e => e = URIError
  | NoFuel => False
  end.
Proof.
  intros Hh Ht Hl Hd Hf Hp Hr.
  cut (returns (md_render toLowerCase toUpperCase numToString autolinks opts inlines blocks
    ([K_block; K_references; K_inline] ++ late_rules) src) (fragment (safe_link toLowerCase))); [by destruct (md_render _ _ _ _ _ _ _ _ _)|].
  unfold md_render, md_parse. eapply returns_bind.
  - eapply returns_bind; [by apply process_spec|]. intros c Hc. exact Hc.
  - intros ts Hts. destruct (parsed_renderable toLowerCase opts ts Hh Hts) as [Hn Hren].
    apply render_html; [apply number_free|apply number_digit|done..].
Qed.

End theorems.

(** ** Witnesses and samples *)

Definition plain_options : options := Options false true true (# "language-") true (# "_blank") true [8220; 8221; 8216; 8217] 20.

Definition sample : str :=
  # "# A *title*" ++ [10; 10] ++ # "- one" ++ [10] ++ # "- <b>two</b> [x](http://y)" ++ [10; 10] ++ # "> quote" ++ [10].

(** A document with a reference, and a footnote that is defined and not used yet *)
Definition noted : env :=
  Env (Some [(# "R", Reference [] (# "http://r/"))]) (Some (Footnotes (Some [(# ":n", -1)]) None)) None.

Lemma noted_wf : env_wf noted.
Proof.
  split_and!; [done| |constructor]. intros refs k i [= <-]. cbn [obj_get]. destruct (decide _); [|done]. intros [= <-]. done.
Qed.

Lemma noted_safe refs k r : references noted = Some refs -> obj_get refs k = Some r -> safe_link lowerCase (r_href r).
Proof. intros [= <-]. cbn [obj_get]. destruct (decide _); [|done]. intros [= <-]. right. vm_compute. reflexivity. Qed.

(** A link to the reference, a use of the footnote, and an inline footnote with a link *)
Definition noting : str := # "*[r]* [^n] ^[see <http://a/b>]".

Definition noting_tokens : list token :=
  [Tok em_open 0; Tok (link_open (# "http://r/") (Some [])) 1; Tok (text (# "r")) 2; Tok link_close 1; Tok em_close 0;
   Tok (text (# " ")) 0; Tok (footnote_ref 0 (Some 0)) 0; Tok (text (# " ")) 0; Tok (footnote_ref 1 None) 0].

Definition noting_env : env :=
  Env (Some [(# "R", Reference [] (# "http://r/"))])
    (Some (Footnotes (Some [(# ":n", 0)])
       (Some [Footnote None (Some (# "n")) (Some 1);
              Footnote (Some [Tok (text (# "see ")) 0; Tok (link_open (# "http://a/b") None) 0;
                              Tok (text (# "http://a/b")) 1; Tok link_close 0]) None None])))
    None.

Lemma noting_parsed : parse lowerCase upperCase plain_options full_rules noting noted [] = Ret (noting_tokens, noting_env).
Proof. vm_compute. reflexivity. Qed.

Lemma inline_parse_balanced_witness : balanced 0 noting_tokens /\ env_wf noting_env.
Proof.
  pose proof (inline_parse_balanced lowerCase upperCase plain_options full_rules noting noted [] noted_wf) as H.
  rewrite noting_parsed in H. destruct H as [(ts' & Ht & Hb) He]. cbn [app] in Ht. rewrite <- Ht in Hb. split; [exact Hb|exact He].
Defined.

Lemma inline_links_safe_witness :
  Forall (fun t => address_is (safe_link lowerCase) (type t)) noting_tokens /\
  Forall (Forall (fun t => address_is (safe_link lowerCase) (type t))) (note_tokens noting_env).
Proof.
  destruct (inline_links_safe lowerCase upperCase plain_options full_rules noting noted noting_env [] noting_tokens
    noted_wf noted_safe (List.Forall_nil _) noting_parsed) as (ts' & Ht & Ha & Hn).
  cbn [app] in Ht. rewrite <- Ht in Ha. split; [exact Ha|exact Hn].
Defined.

(** Without a table of references, a text in brackets throws. *)
Lemma no_references_throw : parse lowerCase upperCase plain_options full_rules (# "[r]") no_env [] = Raise TypeError.
Proof. vm_compute. reflexivity. Qed.

Lemma block_parse_balanced_witness :
  exists ts v', bparse plain_options commonmark_blocks sample no_env [] = Ret ([] ++ ts, v') /\ bbalanced 0 ts.
Proof.
  apply (block_parse_balanced plain_options commonmark_blocks sample no_env []).
  - cbn. intuition discriminate.
  - cbn. tauto.
Defined.

Definition all_late : list core_rule := [K_footnote_tail; K_abbr2; K_replacements; K_smartquotes; K_linkify].

Definition sample_html : str :=
  Eval vm_compute in
    match md_render lowerCase upperCase show_number no_links plain_options default_rules commonmark_blocks
            ([K_block; K_references; K_inline] ++ all_late) sample with Ret out => out | _ => [] end.

Lemma commonmark_no_deflist : ~ In B_deflist commonmark_blocks.
Proof. cbn. intuition discriminate. Qed.

Lemma commonmark_paragraph : In B_paragraph commonmark_blocks.
Proof. cbn. tauto. Qed.

Lemma render_wellformed_witness :
  md_render lowerCase upperCase show_number no_links plain_options default_rules commonmark_blocks
    ([K_block; K_references; K_inline] ++ all_late) sample = Ret sample_html /\ fragment (safe_link lowerCase) sample_html.
Proof.
  pose proof (render_wellformed lowerCase upperCase show_number no_links plain_options default_rules commonmark_blocks sample all_late
    eq_refl eq_refl eq_refl commonmark_no_deflist eq_refl commonmark_paragraph eq_refl) as H.
  assert (md_render lowerCase upperCase show_number no_links plain_options default_rules commonmark_blocks
    ([K_block; K_references; K_inline] ++ all_late) sample = Ret sample_html) as E by (vm_compute; reflexivity).
  rewrite E in H. split; [exact E|exact H].
Defined.

(** *** What the code does not do as expected *)

Definition render_default (s : str) : res str :=
  md_render lowerCase upperCase show_number no_links default_options default_rules default_blocks default_core s.

(** A footnote that is defined inside of another one, and a reference to the
    outer one: the outer definition is lost, and rendering throws. *)
Lemma nested_footnote_throws : render_default (# "[^a]" ++ [10; 10] ++ # "[^a]: [^b]: x") = Raise TypeError.
Proof. vm_compute. reflexivity. Qed.

(** Inside of a quotation in the outer one, the mark that closes the quotation is
    all that remains of it. *)
Lemma nested_footnote_unbalanced : render_default (# "[^a]: > [^b]: x") = Ret (# "</blockquote>" ++ [10]).
Proof. vm_compute. reflexivity. Qed.

(** Half of a surrogate pair in a link throws: [encodeURI] is not guarded as
    [decodeURI] is. *)
Lemma lone_surrogate_throws : render_default (# "<http://" ++ [55296] ++ # ">") = Raise URIError.
Proof. vm_compute. reflexivity. Qed.

(** [validateLink] takes white space off only: a control character in front of
    the scheme hides it. *)
Lemma control_character_passes :
  validateLink lowerCase (# "javascript:x") = false /\ validateLink lowerCase (1 :: # "javascript:x") = true.
Proof. vm_compute. done. Qed.

(** A line that continues a quotation without a marker has an indentation of
    -1337.  Where the line begins 1337 characters after a marker, the rules that
    end a paragraph read that marker, and the line leaves the quotation. *)
Definition lazy_quote (n : nat) : str := # "> " ++ replicate n 97 ++ 10 :: # "b".

Lemma lazy_line_leaves :
  bparse default_options commonmark_blocks (lazy_quote 1333) no_env [] =
    Ret ([BTok blockquote_open 0; BTok (paragraph_open false) 1; BTok (inline (replicate 1333 97 ++ [10; 98]) []) 2;
          BTok (paragraph_close false) 1; BTok blockquote_close 0], no_env) /\
  bparse default_options commonmark_blocks (lazy_quote 1334) no_env [] =
    Ret ([BTok blockquote_open 0; BTok (paragraph_open false) 1; BTok (inline (replicate 1334 97) []) 2;
          BTok (paragraph_close false) 1; BTok blockquote_close 0;
          BTok (paragraph_open false) 0; BTok (inline [98] []) 1; BTok (paragraph_close false) 0], no_env).
Proof. split; vm_compute; reflexivity. Qed.

(** A definition right after a quotation that ends with an empty line is taken
    for a definition of the last term in it, but read with the end of the
    quotation as its bound: nothing is consumed. *)
Definition quoted_term : str := # "> term" ++ [10] ++ # ">" ++ [10] ++ # ": def".

(** The state in which the lines of the quotation are parsed; [ts] are the tokens so far. *)
Definition in_quote (b : bool) (ts : list btoken) : bstate :=
  BState [2; 8; 9; 14] [6; 8; 14; 14] [0; 0; 0; 0] 0 0 3 b In_blockquote (-1) 1 ts no_env.

Lemma quoted_term_state :
  let s := newBState quoted_term no_env [] in
  exists i e o u a, enter_line quoted_term (set_blkIndent 0 s) 0 (first s 0) = (i, e) /\
  quote_loop quoted_term (the_bparser default_options full_blocks quoted_term) 3 e 1 3 i [0] [0] = Ret (o, 2, u, a) /\
  bpush_open blockquote_open (set_parentType In_blockquote o) = in_quote false [BTok blockquote_open 0].
Proof. eexists _, _, _, _, _. split; [vm_compute; reflexivity|]. split; vm_compute; reflexivity. Qed.

Lemma quoted_term_stays f b ts :
  exists ts', try_blocks default_options quoted_term (bparser_at default_options full_blocks quoted_term (S f)) full_blocks (in_quote b ts) 0 2 false
    = Ret (true, in_quote b ts').
Proof. eexists. vm_compute. reflexivity. Qed.

(** However many rounds the loop over these lines is given, it needs more. *)
Lemma deflist_never_ends f k b ts :
  btokenize_loop default_options quoted_term (bparser_at default_options full_blocks quoted_term (S f)) k full_blocks (in_quote b ts) 0 2 false
    = NoFuel.
Proof.
  revert b ts. induction k as [|k IH]; intros b ts; [done|]. cbn [btokenize_loop].
  change (0 <? 2) with true. change (skipEmptyLines (in_quote b ts) 0) with 0. cbn zeta match.
  change (set_line 0 (in_quote b ts)) with (in_quote b ts). change (get (tShift (in_quote b ts)) 0 <? blkIndent (in_quote b ts)) with false.
  cbn [orb Z.geb Z.compare]. destruct (quoted_term_stays f b ts) as [ts' ->]. cbn [bind]. apply (IH true ts').
Qed.
