(* ===== verification/Json.v ===== *)
(** * JSON values

    The values that fast-json-patch (modules 230, 390, 391 and 910 of
    swagger-ui-bundle.js) works on, with what it uses of the language: the
    names of properties in the order of [Object.keys], reading properties, own
    and inherited, and the decimal names of the elements of an array; and its
    own helpers: escaping the components of a path, copying, [hasUndefined], and
    the comparison of the module deep-equal.

    A value is a tree: objects that occur twice in a document are two objects.
    Numbers are integers.  [JUndef] is undefined, which no JSON text denotes but
    the code tests for. *)

From Stdlib Require Import DecimalN Sorting.
From stdpp Require Import strings sorting.
From S2P Require Import Prelude JsObj Entities MdBase.
Local Open Scope Z_scope.

Declare Scope json_scope.
Delimit Scope json_scope with json.
Notation "'#' s" := (ascii_units s%string) (at level 0, s at level 0) : json_scope.
Local Open Scope json_scope.

Inductive json : Type :=
| JUndef
| JNull
| JBool (b : bool)
| JNum (n : Z)
| JStr (s : str)
| JArr (l : list json)
| JObj (o : list (str * json)).

(** Induction with the values inside of arrays and objects *)
Section json_ind.
  Context (P : json -> Prop).
  Context (Hundef : P JUndef) (Hnull : P JNull) (Hbool : forall b, P (JBool b)) (Hnum : forall n, P (JNum n)) (Hstr : forall s, P (JStr s)).
  Context (Harr : forall l, Forall P l -> P (JArr l)) (Hobj : forall o, Forall (fun p => P p.2) o -> P (JObj o)).

Fixpoint json_tree_ind (j : json) : P j :=
  match j with
  | JUndef => Hundef
  | JNull => Hnull
  | JBool b => Hbool b
  | JNum n => Hnum n
  | JStr s => Hstr s
  | JArr l => Harr l ((fix go l := match l return Forall P l with [] => Forall_nil_2 _ | x :: l => Forall_cons_2 _ _ _ (json_tree_ind x) (go l) end) l)
  | JObj o => Hobj o ((fix go o := match o return Forall (fun p => P p.2) o with
      | [] => Forall_nil_2 _ | x :: o => Forall_cons_2 _ _ _ (json_tree_ind x.2) (go o) end) o)
  end.
End json_ind.

(** [typeof x == "object"] of a value that is not null *)
Definition container (j : json) : bool := match j with JArr _ | JObj _ => true | _ => false end.

(** [a === b]: two objects of different trees are not the same. *)
Definition strict_eq (a b : json) : bool :=
  match a, b with
  | JUndef, JUndef | JNull, JNull => true
  | JBool x, JBool y => Bool.eqb x y
  | JNum x, JNum y => x =? y
  | JStr x, JStr y => eqs x y
  | _, _ => false
  end.

Definition truthy (j : json) : bool :=
  match j with
  | JUndef | JNull | JBool false | JNum 0 | JStr [] => false
  | _ => true
  end.

(** ** Decimal names *)

Fixpoint str_of_uint (d : Decimal.uint) : str :=
  match d with
  | Decimal.Nil => []
  | Decimal.D0 d => 48 :: str_of_uint d
  | Decimal.D1 d => 49 :: str_of_uint d
  | Decimal.D2 d => 50 :: str_of_uint d
  | Decimal.D3 d => 51 :: str_of_uint d
  | Decimal.D4 d => 52 :: str_of_uint d
  | Decimal.D5 d => 53 :: str_of_uint d
  | Decimal.D6 d => 54 :: str_of_uint d
  | Decimal.D7 d => 55 :: str_of_uint d
  | Decimal.D8 d => 56 :: str_of_uint d
  | Decimal.D9 d => 57 :: str_of_uint d
  end.

Definition digit_of (c : Z) : option (Decimal.uint -> Decimal.uint) :=
  if c =? 48 then Some Decimal.D0 else if c =? 49 then Some Decimal.D1 else if c =? 50 then Some Decimal.D2
  else if c =? 51 then Some Decimal.D3 else if c =? 52 then Some Decimal.D4 else if c =? 53 then Some Decimal.D5
  else if c =? 54 then Some Decimal.D6 else if c =? 55 then Some Decimal.D7 else if c =? 56 then Some Decimal.D8
  else if c =? 57 then Some Decimal.D9 else None.

Fixpoint uint_of_str (s : str) : option Decimal.uint :=
  match s with
  | [] => Some Decimal.Nil
  | c :: s => f ← digit_of c; d ← uint_of_str s; Some (f d)
  end.

(** ["" + n] of an index *)
Definition decimal (n : N) : str := str_of_uint (N.to_uint n).

(** The name of an element of an array, as the language has it: its index in
    decimal, without zeros in front, below 2^32 - 1. *)
Definition array_index (k : str) : option nat :=
  d ← uint_of_str k;
  let n := N.of_uint d in
  if eqs k (decimal n) && (n <? 4294967295)%N then Some (N.to_nat n) else None.

Definition index_name (i : nat) : str := decimal (N.of_nat i).

(** [isInteger] of a string *)
Definition isInteger (k : str) : bool := match uint_of_str k with Some _ => true | None => false end.

(** The double nearest to an integer that is not negative *)
Definition round_double (n : Z) : Z :=
  if n <? 2 ^ 53 then n
  else
    let e := Z.log2 n - 52 in
    let q := n / 2 ^ e in
    let r := n mod 2 ^ e in
    (if (2 ^ (e - 1) <? r) || ((r =? 2 ^ (e - 1)) && Z.odd q) then q + 1 else q) * 2 ^ e.

(** [~~k] of a string of digits *)
Definition tilde2 (k : str) : Z := i32 (round_double (Z.of_N (match uint_of_str k with Some d => N.of_uint d | None => 0 end))).

(** ** Properties *)

(** The names of [Object.keys]: array indices in their order, then the others in
    the order in which they were first set *)
Fixpoint insert_index (k : str) (i : nat) (l : list (str * nat)) : list (str * nat) :=
  match l with
  | [] => [(k, i)]
  | (k', j) :: r => if (i <=? j)%nat then (k, i) :: l else (k', j) :: insert_index k i r
  end.

Fixpoint index_keys (ks : list str) : list (str * nat) :=
  match ks with
  | [] => []
  | k :: ks => match array_index k with Some i => insert_index k i (index_keys ks) | None => index_keys ks end
  end.

Definition own_keys (o : list (str * json)) : list str :=
  map fst (index_keys (obj_keys o)) ++ List.filter (fun k => match array_index k with Some _ => false | None => true end) (obj_keys o).

(** [_objectKeys] of a value that is neither null nor undefined *)
Definition objectKeys (j : json) : list str :=
  match j with
  | JArr l => map index_name (seq 0 (length l))
  | JObj o => own_keys o
  | JStr s => map index_name (seq 0 (length s))
  | _ => []
  end.

(** The own property of a value with a name *)
Definition own_get (j : json) (k : str) : option json :=
  match j with
  | JObj o => obj_get o k
  | JArr l => if eqs k (# "length") then Some (JNum (Z.of_nat (length l))) else i ← array_index k; l !! i
  | JStr s => if eqs k (# "length") then Some (JNum (Z.of_nat (length s))) else i ← array_index k; c ← s !! i; Some (JStr [c])
  | _ => None
  end.

(** The names that are inherited: none of these properties is undefined. *)
Definition object_names : list str :=
  map ascii_units ["constructor"; "__defineGetter__"; "__defineSetter__"; "hasOwnProperty"; "__lookupGetter__"; "__lookupSetter__";
    "isPrototypeOf"; "propertyIsEnumerable"; "toString"; "valueOf"; "__proto__"; "toLocaleString"]%string.

Definition array_names : list str :=
  map ascii_units ["concat"; "copyWithin"; "entries"; "every"; "fill"; "filter"; "find"; "findIndex"; "forEach"; "includes";
    "indexOf"; "join"; "keys"; "lastIndexOf"; "map"; "pop"; "push"; "reduce"; "reduceRight"; "reverse"; "shift"; "slice"; "some";
    "sort"; "splice"; "unshift"; "values"]%string.

Definition string_names : list str :=
  map ascii_units ["anchor"; "big"; "blink"; "bold"; "charAt"; "charCodeAt"; "codePointAt"; "concat"; "endsWith"; "fixed";
    "fontcolor"; "fontsize"; "includes"; "indexOf"; "italics"; "lastIndexOf"; "link"; "localeCompare"; "match"; "normalize"; "padEnd";
    "padStart"; "repeat"; "replace"; "search"; "slice"; "small"; "split"; "startsWith"; "strike"; "sub"; "substr"; "substring"; "sup";
    "toLocaleLowerCase"; "toLocaleUpperCase"; "toLowerCase"; "toUpperCase"; "trim"]%string.

Definition number_names : list str := map ascii_units ["toExponential"; "toFixed"; "toPrecision"]%string.

Definition inherited (j : json) (k : str) : bool :=
  existsb (eqs k) object_names
  || match j with
     | JArr _ => existsb (eqs k) array_names
     | JStr _ => existsb (eqs k) string_names
     | JNum _ => existsb (eqs k) number_names
     | _ => false
     end.

(** [j[k]]: it throws, is a value of the document, or is inherited. *)
Inductive read : Type :=
| Nothing
| Value (v : json)
| Proto.

Definition get_prop (j : json) (k : str) : read :=
  match j with
  | JUndef | JNull => Nothing
  | _ => match own_get j k with Some v => Value v | None => if inherited j k then Proto else Value JUndef end
  end.

(** ** Helpers of the library *)

(** [escapePathComponent]: replacing every ~ by ~0, then every / by ~1 *)
Definition escapePathComponent (e : str) : str :=
  if existsb (Z.eqb 47) e || existsb (Z.eqb 126) e then
    concat (map (fun c => if c =? 47 then [126; 49] else [c]) (concat (map (fun c => if c =? 126 then [126; 48] else [c]) e)))
  else e.

(** [e.replace(/ab/g, x)] for two units and one *)
Fixpoint replace2 (a b x : Z) (e : str) : str :=
  match e with
  | c :: (d :: e') as r => if (c =? a) && (d =? b) then x :: replace2 a b x e' else c :: replace2 a b x r
  | _ => e
  end.

Definition unescapePathComponent (e : str) : str := replace2 126 48 126 (replace2 126 49 47 e).

(** [JSON.parse(JSON.stringify(e))] of an array or an object: elements that are
    undefined become null, such properties are left out. *)
Fixpoint json_copy (e : json) : json :=
  match e with
  | JUndef => JNull
  | JArr l => JArr (map json_copy l)
  | JObj o =>
      JObj ((fix go o := match o with
                         | [] => []
                         | (_, JUndef) :: o => go o
                         | (k, v) :: o => (k, json_copy v) :: go o
                         end) o)
  | _ => e
  end.

(** [_deepClone] *)
Definition deepClone (e : json) : json := json_copy e.

Fixpoint hasUndefined (t : json) : bool :=
  match t with
  | JUndef => true
  | JArr l => existsb hasUndefined l
  | JObj o => existsb (fun p => hasUndefined p.2) o
  | _ => false
  end.

(** *** Module deep-equal, with the option strict *)

(** [a.sort()]: by code units *)
Fixpoint str_leb (a b : str) : bool :=
  match a, b with
  | [], _ => true
  | _ :: _, [] => false
  | x :: a, y :: b => (x <? y) || ((x =? y) && str_leb a b)
  end.

Fixpoint insert_name (k : str) (l : list str) : list str :=
  match l with [] => [k] | k' :: r => if str_leb k k' then k :: l else k' :: insert_name k r end.
Definition sort_names (l : list str) : list str := foldr insert_name [] l.

(** [e.prototype]: nothing in a document inherits it. *)
Definition prototype (e : json) : json := default JUndef (own_get e (# "prototype")).

(** Where one value is an object and the other is none, the last test fails: the
    result of [typeof] differs. *)
Fixpoint deep_equal (e t : json) : bool :=
  strict_eq e t
  || (truthy e && truthy t && (container e || container t)
      && strict_eq (prototype e) (prototype t)
      && bool_decide (sort_names (objectKeys e) = sort_names (objectKeys t))
      && match e with
         | JArr l => (fix go i l := match l with [] => true | v :: l => deep_equal v (default JUndef (own_get t (index_name i))) && go (S i) l end) O l
         | JObj o => forallb (fun p => deep_equal p.2 (default JUndef (own_get t p.1))) o
         | _ => true
         end
      && Bool.eqb (container e) (container t)).

(** ** Facts *)

Lemma uint_of_str_of_uint d : uint_of_str (str_of_uint d) = Some d.
Proof. induction d; cbn [str_of_uint uint_of_str]; rewrite ?IHd; done. Qed.

Lemma index_value i : N.of_uint (N.to_uint (N.of_nat i)) = N.of_nat i.
Proof. apply DecimalN.Unsigned.of_to. Qed.

Lemma index_name_uint i : uint_of_str (index_name i) = Some (N.to_uint (N.of_nat i)).
Proof. apply uint_of_str_of_uint. Qed.

Lemma isInteger_index i : isInteger (index_name i) = true.
Proof. unfold isInteger. by rewrite index_name_uint. Qed.

Lemma eqs_spec a b : reflect (a = b) (eqs a b).
Proof. unfold eqs. apply bool_decide_reflect. Qed.

Lemma eqs_refl a : eqs a a = true.
Proof. by destruct (eqs_spec a a). Qed.

Lemma array_index_name i : Z.of_nat i < 2 ^ 32 - 1 -> array_index (index_name i) = Some i.
Proof.
  intros H. unfold array_index. rewrite index_name_uint. cbn [mbind option_bind]. rewrite index_value.
  change (decimal (N.of_nat i)) with (index_name i). rewrite eqs_refl. cbn [andb].
  rewrite (proj2 (N.ltb_lt _ _)) by lia. f_equal. lia.
Qed.

Lemma array_index_Some k i : array_index k = Some i -> k = index_name i.
Proof.
  unfold array_index. destruct (uint_of_str k) as [d|]; cbn; [|done].
  destruct (eqs_spec k (decimal (N.of_uint d))) as [->|]; cbn; [|done]. destruct (_ <? _)%N; [|done]. intros [= <-].
  unfold index_name. by rewrite N2Nat.id.
Qed.

Lemma tilde2_index i : Z.of_nat i < 2 ^ 31 -> tilde2 (index_name i) = Z.of_nat i.
Proof.
  intros H. unfold tilde2. rewrite index_name_uint, index_value, nat_N_Z. unfold round_double.
  rewrite (proj2 (Z.ltb_lt _ _)) by lia. apply i32_id. split; lia.
Qed.

(** Digits are neither slashes nor tildes. *)
Lemma str_of_uint_digits d : Forall (fun c => 48 <= c <= 57) (str_of_uint d).
Proof. induction d; cbn; constructor; (lia || done). Qed.

Lemma existsb_absent c s : existsb (Z.eqb c) s = false <-> ~ In c s.
Proof.
  rewrite <- not_true_iff_false, existsb_exists. split; intros H Hc; apply H.
  - exists c. by rewrite Z.eqb_refl.
  - destruct Hc as (x & Hx & ->%Z.eqb_eq). done.
Qed.

Lemma index_name_plain i c : ~ 48 <= c <= 57 -> existsb (Z.eqb c) (index_name i) = false.
Proof.
  intros H. apply existsb_absent. intros Hc. pose proof (str_of_uint_digits (N.to_uint (N.of_nat i))) as Hd.
  rewrite Forall_forall in Hd. apply H, Hd, list_elem_of_In, Hc.
Qed.

Lemma index_name_not i s : isInteger s = false -> eqs (index_name i) s = false.
Proof. intros H. destruct (eqs_spec (index_name i) s) as [<-|]; [|done]. by rewrite isInteger_index in H. Qed.

(** *** Names in order *)

Lemma insert_index_perm k i l : Permutation (map fst (insert_index k i l)) (k :: map fst l).
Proof.
  induction l as [|[k' j] l IH]; cbn; [done|]. destruct (_ <=? _)%nat; [done|]. cbn. rewrite IH. apply perm_swap.
Qed.

Lemma index_keys_perm ks :
  Permutation (map fst (index_keys ks)) (List.filter (fun k => match array_index k with Some _ => true | None => false end) ks).
Proof.
  induction ks as [|k ks IH]; cbn; [done|]. destruct (array_index k) as [i|]; [|done]. by rewrite insert_index_perm, IH.
Qed.

Lemma own_keys_perm o : Permutation (own_keys o) (obj_keys o).
Proof.
  unfold own_keys. rewrite index_keys_perm. induction (obj_keys o) as [|k ks IH]; cbn; [done|].
  destruct (array_index k); cbn; [by constructor|]. rewrite <- Permutation_middle. by constructor.
Qed.

(** *** Escaped components *)

Lemma escape_absent k : existsb (Z.eqb 47) k = false -> existsb (Z.eqb 126) k = false -> escapePathComponent k = k.
Proof. intros H1 H2. unfold escapePathComponent. by rewrite H1, H2. Qed.

(** What becomes of one unit *)
Definition escape_unit (c : Z) : str := if c =? 126 then [126; 48] else if c =? 47 then [126; 49] else [c].

Lemma escape_units k : escapePathComponent k = concat (map escape_unit k).
Proof.
  unfold escapePathComponent. destruct (_ || _) eqn:E.
  - clear E. induction k as [|c k IH]; [done|]. cbn [map concat]. rewrite map_app, concat_app, IH. f_equal. unfold escape_unit.
    destruct (c =? 126) eqn:E1; [done|]. cbn. by destruct (c =? 47).
  - apply orb_false_iff in E as [E1%existsb_absent E2%existsb_absent].
    induction k as [|c k IH]; [done|]. cbn [map concat]. cbn [In] in *. rewrite <- IH by tauto. unfold escape_unit.
    rewrite (proj2 (Z.eqb_neq c 126)), (proj2 (Z.eqb_neq c 47)) by (intros ->; tauto). done.
Qed.

Lemma escape_no_slash k : ~ In 47 (escapePathComponent k).
Proof.
  rewrite escape_units. induction k as [|c k IH]; cbn; [tauto|]. rewrite in_app_iff. intros [H|H]; [|done]. revert H. unfold escape_unit.
  destruct (c =? 126); cbn; [lia|]. destruct (c =? 47) eqn:E; cbn; lia.
Qed.

Lemma replace2_skip a b x c s : c <> a -> replace2 a b x (c :: s) = c :: replace2 a b x s.
Proof. intros H. destruct s as [|d s]; [done|]. cbn [replace2]. by rewrite (proj2 (Z.eqb_neq c a) H). Qed.

Lemma replace2_other a b x c d s : d <> b -> d <> a -> replace2 a b x (c :: d :: s) = c :: d :: replace2 a b x s.
Proof.
  intros H H'. cbn [replace2]. rewrite (proj2 (Z.eqb_neq d b) H), andb_false_r. f_equal. by apply replace2_skip.
Qed.

(** What is left after the first replacement of [unescapePathComponent] *)
Definition half_unit (c : Z) : str := if c =? 126 then [126; 48] else [c].

Lemma unescape_escape k : unescapePathComponent (escapePathComponent k) = k.
Proof.
  unfold unescapePathComponent. rewrite escape_units.
  assert (replace2 126 49 47 (concat (map escape_unit k)) = concat (map half_unit k)) as ->.
  - induction k as [|c k IH]; [done|]. cbn [map concat]. unfold escape_unit at 1, half_unit at 1. destruct (c =? 126) eqn:E1.
    + cbn [app]. rewrite replace2_other by lia. by rewrite IH.
    + destruct (c =? 47) eqn:E2; cbn [app]; [|rewrite replace2_skip by lia; by rewrite IH].
      cbn [replace2]. rewrite IH. apply Z.eqb_eq in E2 as ->. done.
  - induction k as [|c k IH]; [done|]. cbn [map concat]. unfold half_unit at 1. destruct (c =? 126) eqn:E; cbn [app].
    + cbn [replace2]. rewrite IH. apply Z.eqb_eq in E as ->. done.
    + rewrite replace2_skip by lia. by rewrite IH.
Qed.

(** *** Sorted names *)

Lemma str_leb_total a b : str_leb a b = true \/ str_leb b a = true.
Proof.
  revert b. induction a as [|x a IH]; intros [|y b]; cbn; auto. destruct (Z.ltb_spec x y), (Z.ltb_spec y x); cbn; auto.
  rewrite (proj2 (Z.eqb_eq x y)), (proj2 (Z.eqb_eq y x)) by lia. cbn. apply IH.
Qed.

Lemma str_leb_antisym a b : str_leb a b = true -> str_leb b a = true -> a = b.
Proof.
  revert b. induction a as [|x a IH]; intros [|y b]; cbn; try done.
  destruct (Z.ltb_spec x y), (Z.ltb_spec y x), (Z.eqb_spec x y), (Z.eqb_spec y x); cbn; try lia; try done. intros H1 H2. subst. f_equal. by apply IH.
Qed.

Lemma str_leb_trans a b c : str_leb a b = true -> str_leb b c = true -> str_leb a c = true.
Proof.
  revert b c. induction a as [|x a IH]; intros [|y b] [|z c]; cbn; try done.
  destruct (Z.ltb_spec x y), (Z.ltb_spec y z), (Z.ltb_spec x z), (Z.eqb_spec x y), (Z.eqb_spec y z), (Z.eqb_spec x z); cbn; try lia; try done. apply IH.
Qed.

Lemma insert_name_comm a b l : insert_name a (insert_name b l) = insert_name b (insert_name a l).
Proof.
  pose proof (str_leb_total a b) as Ht. pose proof (str_leb_antisym a b) as Ha. induction l as [|c l IH].
  - cbn. destruct (str_leb a b), (str_leb b a); try done; [by rewrite Ha|by destruct Ht].
  - pose proof (str_leb_trans a b c) as H1. pose proof (str_leb_trans b a c) as H2. cbn.
    destruct (str_leb b c) eqn:Eb, (str_leb a c) eqn:Ea; cbn; rewrite ?Eb, ?Ea; try by rewrite IH.
    + destruct (str_leb a b), (str_leb b a); try done; [by rewrite Ha|by destruct Ht].
    + destruct (str_leb a b); [by specialize (H1 eq_refl eq_refl)|done].
    + destruct (str_leb b a); [by specialize (H2 eq_refl eq_refl)|done].
Qed.

Lemma insert_name_perm k l : Permutation (insert_name k l) (k :: l).
Proof. induction l as [|c l IH]; cbn; [done|]. destruct (str_leb k c); [done|]. rewrite IH. apply perm_swap. Qed.

Lemma sort_names_perm l : Permutation (sort_names l) l.
Proof. unfold sort_names. induction l as [|k l IH]; cbn; [done|]. by rewrite insert_name_perm, IH. Qed.

Lemma sort_names_eq l l' : sort_names l = sort_names l' <-> Permutation l l'.
Proof.
  split.
  - intros H. by rewrite <- (sort_names_perm l), H, sort_names_perm.
  - unfold sort_names. induction 1 as [|k l l' _ IH|a b l|l l' l'' _ IH _ IH']; cbn; [done|by rewrite IH|apply insert_name_comm|congruence].
Qed.
