(* ===== verification/JsonPatch.v ===== *)
(** * JSON patches

    Modules 391 and 910 of swagger-ui-bundle.js, fast-json-patch: operations of
    RFC 6902 on a document, with and without validation, and the patch between
    two documents.  The code changes the document where it is; here an
    operation returns the document as it is afterwards.  Documents and the
    values of a patch share no objects.

    What is not JSON any more has no description here and is the outcome
    [Outside]: walking into or reading what a value inherits, setting
    [__proto__], properties of arrays other than elements, holes included, and
    documents that contain themselves. *)

From stdpp Require Import strings.
From S2P Require Import Prelude JsObj Entities MdBase Json.
Local Open Scope Z_scope.
Local Open Scope json_scope.

(** ** Outcomes *)

Inductive code : Set :=
| OPERATION_OP_INVALID
| OPERATION_PATH_INVALID
| OPERATION_FROM_REQUIRED
| OPERATION_VALUE_REQUIRED
| OPERATION_VALUE_CANNOT_CONTAIN_UNDEFINED
| OPERATION_PATH_CANNOT_ADD
| OPERATION_PATH_UNRESOLVABLE
| OPERATION_FROM_UNRESOLVABLE
| OPERATION_PATH_ILLEGAL_ARRAY_INDEX
| OPERATION_VALUE_OUT_OF_BOUNDS
| TEST_OPERATION_FAILED.

Inductive fault : Set :=
| PatchError (c : code)
| TypeFault
| Outside.

Inductive outcome (A : Type) : Type :=
| Done (a : A)
| Fails (f : fault).
Arguments Done {A} a.
Arguments Fails {A} f.

Definition obind {A B} (m : outcome A) (k : A -> outcome B) : outcome B :=
  match m with Done a => k a | Fails f => Fails f end.

Notation "'let?' x ':=' m 'in' k" := (obind m (fun x => k))
  (at level 200, x pattern, m at level 100, k at level 200, right associativity) : json_scope.

(** An operation is an object with strings op and path; from can be missing, and
    so can value, which is undefined then. *)
Record operation := Op { op : str; path : str; from : option str; value : json }.

(** The index that adding to an array reports is left out. *)
Record result := Result { newDocument : json; removed : json; test : option bool }.

(** A value that was read *)
Definition take_read (r : read) : outcome json :=
  match r with Nothing => Fails TypeFault | Value v => Done v | Proto => Fails Outside end.

(** ** The handlers of objects, u

    They are called for every value that is no array.  Setting a property of a
    number, a string or a boolean does nothing. *)

(** [e[t] = v] *)
Definition set_prop (e : json) (t : str) (v : json) : outcome json :=
  match e with
  | JUndef | JNull => Fails TypeFault
  | JObj o => if eqs t (# "__proto__") && negb (bool_decide (t ∈ obj_keys o)) then Fails Outside else Done (JObj (obj_set o t v))
  | _ => Done e
  end.

(** [delete e[t]] *)
Definition delete_prop (e : json) (t : str) : json :=
  match e with JObj o => JObj (obj_delete o t) | _ => e end.

(** What a handler changes and returns: the value it was called for, what it
    removed, the result of a test, and the value of [_get]. *)
Record effect := Effect { changed : json; e_removed : json; e_test : option bool; got : json }.

(** The operations that concern one place; move and copy work on the document *)
Inductive kind : Set := Add | Remove | Replace | Move | Copy | Test | Get.

Definition kinds : list (str * kind) :=
  [(# "add", Add); (# "remove", Remove); (# "replace", Replace); (# "move", Move); (# "copy", Copy); (# "test", Test); (# "_get", Get)].

Definition object_handler (k : kind) (v : json) (e : json) (t : str) : outcome effect :=
  match k with
  | Add => let? e' := set_prop e t v in Done (Effect e' JUndef None JUndef)
  | Remove => let? r := take_read (get_prop e t) in Done (Effect (delete_prop e t) r None JUndef)
  | Replace => let? r := take_read (get_prop e t) in let? e' := set_prop e t v in Done (Effect e' r None JUndef)
  | Test => let? x := take_read (get_prop e t) in Done (Effect e JUndef (Some (deep_equal x v)) JUndef)
  | Get => let? x := take_read (get_prop e t) in Done (Effect e JUndef None x)
  | Move | Copy => Done (Effect e JUndef None JUndef)
  end.

(** ** The handlers of arrays, s *)

Inductive key : Set :=
| Name (s : str)
| Index (i : Z).

(** [l.splice(i, ...)]: where it starts *)
Definition splice_start (i len : Z) : nat := Z.to_nat (if i <? 0 then Z.max (len + i) 0 else Z.min i len).

Definition splice_in (i : Z) (v : json) (l : list json) : list json :=
  let a := splice_start i (Z.of_nat (length l)) in take a l ++ v :: drop a l.

Definition splice_out (i : Z) (l : list json) : json * list json :=
  let a := splice_start i (Z.of_nat (length l)) in (default JUndef (l !! a), take a l ++ drop (S a) l).

(** [l[t]] *)
Definition get_elem (l : list json) (t : key) : read :=
  match t with
  | Name s => get_prop (JArr l) s
  | Index i => Value (if i <? 0 then JUndef else default JUndef (l !! Z.to_nat i))
  end.

(** [l[t] = v] *)
Definition set_elem (l : list json) (t : key) (v : json) : outcome (list json) :=
  match t with
  | Name _ => Fails Outside
  | Index i =>
      if (i <? 0) || (Z.of_nat (length l) <? i) then Fails Outside
      else if i =? Z.of_nat (length l) then Done (l ++ [v]) else Done (<[Z.to_nat i := v]> l)
  end.

Definition array_handler (k : kind) (v : json) (l : list json) (t : key) : outcome effect :=
  match k with
  | Add =>
      match t with
      | Index i => Done (Effect (JArr (splice_in i v l)) JUndef None JUndef)
      | Name _ => Fails Outside
      end
  | Remove =>
      match t with
      | Index i => let '(r, l') := splice_out i l in Done (Effect (JArr l') r None JUndef)
      | Name _ => Fails Outside
      end
  | Replace => let? r := take_read (get_elem l t) in let? l' := set_elem l t v in Done (Effect (JArr l') r None JUndef)
  | Test => let? x := take_read (get_elem l t) in Done (Effect (JArr l) JUndef (Some (deep_equal x v)) JUndef)
  | Get => let? x := take_read (get_elem l t) in Done (Effect (JArr l) JUndef None x)
  | Move | Copy => Done (Effect (JArr l) JUndef None JUndef)
  end.

(** ** The walk along a path *)

Section operation.
  Context (self : json -> operation -> bool -> outcome (result * json)).

(** The first tests of [validator], those without a document *)
Definition valid_shape (e : operation) : outcome unit :=
  if negb (existsb (fun p => eqs (op e) p.1) kinds || existsb (eqs (op e)) object_names) then Fails (PatchError OPERATION_OP_INVALID)
  else if negb (indexOf (path e) [47] 0 =? 0) && (0 <? len (path e)) then Fails (PatchError OPERATION_PATH_INVALID)
  else if (eqs (op e) (# "move") || eqs (op e) (# "copy")) && negb (if from e then true else false) then Fails (PatchError OPERATION_FROM_REQUIRED)
  else if (eqs (op e) (# "add") || eqs (op e) (# "replace") || eqs (op e) (# "test")) && strict_eq (value e) JUndef then
    Fails (PatchError OPERATION_VALUE_REQUIRED)
  else if (eqs (op e) (# "add") || eqs (op e) (# "replace") || eqs (op e) (# "test")) && hasUndefined (value e) then
    Fails (PatchError OPERATION_VALUE_CANNOT_CONTAIN_UNDEFINED)
  else Done tt.

Definition get_op (p : str) : operation := Op (# "_get") p None JUndef.

(** [validate] of the operation that reads [p]: the error it returns *)
Definition validate_get (p : str) (r : json) : outcome (option code) :=
  match self (deepClone r) (get_op p) true with
  | Done _ => Done None
  | Fails (PatchError c) => Done (Some c)
  | Fails f => Fails f
  end.

(** [validator] with a document and the path that exists in it *)
Definition validator (e : operation) (r : json) (o : str) : outcome unit :=
  let? _ := valid_shape e in
  if negb (truthy r) then Done tt
  else if eqs (op e) (# "add") then
    let i := length (split 47 (path e)) in
    let s := length (split 47 o) in
    if negb (i =? s + 1)%nat && negb (i =? s)%nat then Fails (PatchError OPERATION_PATH_CANNOT_ADD) else Done tt
  else if eqs (op e) (# "replace") || eqs (op e) (# "remove") || eqs (op e) (# "_get") then
    if negb (eqs (path e) o) then Fails (PatchError OPERATION_PATH_UNRESOLVABLE) else Done tt
  else if eqs (op e) (# "move") || eqs (op e) (# "copy") then
    let? l := validate_get (default [] (from e)) r in
    match l with
    | Some OPERATION_PATH_UNRESOLVABLE => Fails (PatchError OPERATION_FROM_UNRESOLVABLE)
    | _ => Done tt
    end
  else Done tt.

Fixpoint join_slash (f : list str) : str :=
  match f with [] => [] | [g] => g | g :: f => g ++ 47 :: join_slash f end.

(** Before a component [g] of the path is used: the first one that is missing,
    or the last one, is where the validator is asked.  [before] are the
    components in front of it, [m] is whether it has been asked. *)
Definition ask (n : operation) (e d : json) (before : list str) (g : str) (last m : bool) : outcome bool :=
  if m then Done true
  else
    match get_prop d g with
    | Nothing => Fails TypeFault
    | Value JUndef => let? _ := validator n e (join_slash before) in Done true
    | _ => if last then let? _ := validator n e (path n) in Done true else Done false
    end.

(** The handler of an operation: its name can be inherited, or unknown. *)
Definition handler {A} (n : operation) (f : kind -> outcome A) : outcome A :=
  match obj_get kinds (op n) with
  | Some k => f k
  | None => if existsb (eqs (op n)) object_names then Fails Outside else Fails TypeFault
  end.

(** The index that a component stands for in an array *)
Definition array_key (r : bool) (l : list json) (g : str) : outcome key :=
  if eqs g (# "-") then Done (Index (Z.of_nat (length l)))
  else if isInteger g then Done (Index (tilde2 g))
  else if r then Fails (PatchError OPERATION_PATH_ILLEGAL_ARRAY_INDEX)
  else Done (Name g).

Definition object_key (g : str) : str := if existsb (Z.eqb 126) g then unescapePathComponent g else g.

(** The value where the walk goes on, and how the value it was in is put together
    again *)
Definition enter_array (l : list json) (t : key) : outcome (json * (json -> json)) :=
  let? v := take_read (get_elem l t) in
  Done (v, fun v' => match t with Index i => JArr (if i <? 0 then l else <[Z.to_nat i := v']> l) | Name _ => JArr l end).

Definition enter_object (d : json) (t : str) : outcome (json * (json -> json)) :=
  let? v := take_read (get_prop d t) in
  Done (v, fun v' => match d with JObj o => JObj (if obj_get o t then obj_set o t v' else o) | _ => d end).

Fixpoint walk (r : bool) (n : operation) (e d : json) (before rest : list str) (m : bool) : outcome effect :=
  match rest with
  | [] => match d with JArr _ => Fails TypeFault | _ => handler n (fun k => object_handler k (value n) d (# "undefined")) end
  | g :: rest =>
      let last := match rest with [] => true | _ => false end in
      let? m := (if r then ask n e d before g last m else Done false) in
      match d with
      | JArr l =>
          let? t := array_key r l g in
          if last then
            if r && eqs (op n) (# "add") && match t with Index i => Z.of_nat (length l) <? i | Name _ => false end
            then Fails (PatchError OPERATION_VALUE_OUT_OF_BOUNDS)
            else handler n (fun k => array_handler k (value n) l t)
          else
            let? (v, back) := enter_array l t in
            let? x := walk r n e v (before ++ [g]) rest m in
            Done (Effect (back (changed x)) (e_removed x) (e_test x) (got x))
      | _ =>
          let t := object_key g in
          if last then handler n (fun k => object_handler k (value n) d t)
          else
            let? (v, back) := enter_object d t in
            let? x := walk r n e v (before ++ [g]) rest m in
            Done (Effect (back (changed x)) (e_removed x) (e_test x) (got x))
      end
  end.

(** [getValueByPointer] *)
Definition getValueByPointer (e : json) (t : str) : outcome json :=
  match t with
  | [] => Done e
  | _ => let? (_, v) := self e (get_op t) false in Done v
  end.

(** A missing from leads to the component undefined, as a path without a slash
    does. *)
Definition from_path (n : operation) : str := default (# "undefined") (from n).

(** The handler of move, of the whole document; moving the document into itself
    makes a cycle. *)
Definition move_handler (n : operation) (e : json) : outcome result :=
  let? r := getValueByPointer e (path n) in
  let r := if truthy r then deepClone r else r in
  let? (o, _) := self e (Op (# "remove") (from_path n) None JUndef) false in
  if eqs (from_path n) [] then Fails Outside
  else
    let? (x, _) := self (newDocument o) (Op (# "add") (path n) None (removed o)) false in
    Done (Result (newDocument x) r None).

Definition copy_handler (n : operation) (e : json) : outcome result :=
  let? r := getValueByPointer e (from_path n) in
  let? (x, _) := self e (Op (# "add") (path n) None (deepClone r)) false in
  Done (Result (newDocument x) JUndef None).

(** The path of the document itself *)
Definition at_root (r : bool) (e : json) (n : operation) : outcome (result * json) :=
  match obj_get kinds (op n) with
  | Some Add => Done (Result (value n) JUndef None, JUndef)
  | Some Replace => Done (Result (value n) e None, JUndef)
  | Some Move => let? d := getValueByPointer e (from_path n) in Done (Result d e None, JUndef)
  | Some Copy => let? d := getValueByPointer e (from_path n) in Done (Result d JUndef None, JUndef)
  | Some Test => if deep_equal e (value n) then Done (Result e JUndef (Some true), JUndef) else Fails (PatchError TEST_OPERATION_FAILED)
  | Some Remove => Done (Result JNull e None, JUndef)
  | Some Get => Done (Result e JUndef None, e)
  | None => if r then Fails (PatchError OPERATION_OP_INVALID) else Done (Result e JUndef None, JUndef)
  end.

(** [applyOperation], r being whether to validate: the result, and the value that
    [_get] leaves in the operation *)
Definition applyOperation_ (e : json) (n : operation) (r : bool) : outcome (result * json) :=
  let? _ := (if r then valid_shape n else Done tt) in
  match path n with
  | [] => at_root r e n
  | _ =>
      let f := split 47 (path n) in
      let? x := walk r n e e (take 1 f) (drop 1 f) false in
      match obj_get kinds (op n) with
      | Some Move => let? y := move_handler n e in Done (y, JUndef)
      | Some Copy => let? y := copy_handler n e in Done (y, JUndef)
      | _ =>
          match e_test x with
          | Some false => Fails (PatchError TEST_OPERATION_FAILED)
          | _ => Done (Result (changed x) (e_removed x) (e_test x), got x)
          end
      end
  end.

End operation.

(** The operations that move, copy and the validator start are those of one
    place, which start none. *)
Definition no_operation (e : json) (n : operation) (r : bool) : outcome (result * json) := Fails Outside.
Definition apply_one : json -> operation -> bool -> outcome (result * json) := applyOperation_ no_operation.

Definition applyOperation (e : json) (n : operation) (r mutate : bool) : outcome result :=
  let e := match path n with [] => e | _ => if mutate then e else deepClone e end in
  let? (x, _) := applyOperation_ apply_one e n r in Done x.

Fixpoint apply_all (e : json) (n : list operation) (r : bool) : outcome (list result * json) :=
  match n with
  | [] => Done ([], e)
  | x :: n =>
      let? i := applyOperation e x r true in
      let? (rs, e) := apply_all (newDocument i) n r in
      Done (i :: rs, e)
  end.

(** [applyPatch]: the results, and the new document *)
Definition applyPatch (e : json) (n : list operation) (r mutate : bool) : outcome (list result * json) :=
  apply_all (if mutate then e else deepClone e) n r.

(** [applyReducer] *)
Definition applyReducer (e : json) (n : operation) : outcome json :=
  let? r := applyOperation e n false true in
  match test r with
  | Some false => Fails (PatchError TEST_OPERATION_FAILED)
  | _ => Done (newDocument r)
  end.

(** [validate], with a document or without one: the error it finds *)
Definition clone_operation (n : operation) : operation :=
  Op (op n) (path n) (from n) (match value n with JUndef => JUndef | v => deepClone v end).

Fixpoint first_invalid (e : list operation) : option code :=
  match e with
  | [] => None
  | x :: e => match valid_shape x with Fails (PatchError c) => Some c | _ => first_invalid e end
  end.

Definition validate (e : list operation) (n : json) : outcome (option code) :=
  if truthy n then
    match applyPatch (deepClone n) (map clone_operation e) true true with
    | Done _ => Done None
    | Fails (PatchError c) => Done (Some c)
    | Fails f => Fails f
    end
  else Done (first_invalid e).

(** ** The patch between two documents *)

Definition remove_op (p : str) : operation := Op (# "remove") p None JUndef.
Definition add_op (p : str) (v : json) : operation := Op (# "add") p None v.
Definition replace_op (p : str) (v : json) : operation := Op (# "replace") p None v.

(** The height of a value, which bounds the calls *)
Fixpoint height (j : json) : nat :=
  match j with
  | JArr l => S (foldr (fun v n => Nat.max (height v) n) O l)
  | JObj o => S (foldr (fun p n => Nat.max (height p.2) n) O o)
  | _ => O
  end.

Definition is_array (j : json) : bool := match j with JArr _ => true | _ => false end.
Definition own (j : json) (p : str) : bool := match own_get j p with Some _ => true | None => false end.
Definition prop (j : json) (p : str) : json := default JUndef (own_get j p).

(** A property of the old document is gone. *)
Definition is_gone (e t : json) (p : str) : bool :=
  negb (own t p) || (strict_eq (prop t p) JUndef && negb (strict_eq (prop e p) JUndef) && negb (is_array t)).

(** [_generate]: from e to t, the paths beginning with o *)
Fixpoint generate_ (fuel : nat) (e t : json) (o : str) : list operation :=
  match fuel with
  | O => []
  | S fuel =>
      let old p :=
        let q := o ++ 47 :: escapePathComponent p in
        if is_gone e t p then [remove_op q]
        else if container (prop e p) && container (prop t p) then generate_ fuel (prop e p) (prop t p) q
        else if negb (strict_eq (prop e p) (prop t p)) then [replace_op q (deepClone (prop t p))] else [] in
      let new p :=
        if own e p || strict_eq (prop t p) JUndef then [] else [add_op (o ++ 47 :: escapePathComponent p) (deepClone (prop t p))] in
      let i := objectKeys t in
      let a := objectKeys e in
      concat (map old (rev a))
      ++ (if existsb (is_gone e t) a || negb (length i =? length a)%nat then concat (map new i) else [])
  end.

(** [compare]; of null and undefined it throws. *)
Definition compare (e t : json) : outcome (list operation) :=
  if strict_eq t e then Done []
  else
    match e, t with
    | (JUndef | JNull), _ | _, (JUndef | JNull) => Fails TypeFault
    | _, _ => Done (generate_ (S (height e)) e t [])
    end.

(** [generate]: the patch from the mirror of an observed object to the object, and
    the mirror with the patch applied *)
Definition generate (mirror object : json) : outcome (list operation * json) :=
  let? ns := compare mirror object in
  match ns with
  | [] => Done ([], mirror)
  | _ => let? (_, v) := applyPatch mirror ns false true in Done (ns, v)
  end.
