(* ===== verification/JsonPatchFacts.v ===== *)
(** * JSON patches: facts

    Documents that are JSON ([json_wf]), when two of them are the same up to the
    order of names ([jeq]), what operations do at one place of a document, and
    how the operations of a patch compose along paths. *)

From stdpp Require Import strings sets.
From S2P Require Import Prelude JsObj Entities MdBase Json JsonPatch.
Local Open Scope Z_scope.
Local Open Scope json_scope.

(** ** Documents *)

(** JSON: no value is undefined, the names of an object differ, none is
    [__proto__], and an index fits into 31 bits. *)
Fixpoint json_wf (j : json) : bool :=
  match j with
  | JUndef => false
  | JArr l => forallb json_wf l && (Z.of_nat (length l) <? 2 ^ 31)
  | JObj o => forallb (fun p => json_wf p.2 && negb (eqs p.1 (# "__proto__"))) o && bool_decide (NoDup (obj_keys o))
  | _ => true
  end.

(** Where both documents have an array or an object, they have the same. *)
Fixpoint alike (e t : json) : bool :=
  match e, t with
  | JArr l, JArr l' => (fix go l l' := match l, l' with v :: l, v' :: l' => alike v v' && go l l' | _, _ => true end) l l'
  | JObj o, JObj o' => forallb (fun p => match obj_get o' p.1 with Some v' => alike p.2 v' | None => true end) o
  | JArr _, JObj _ | JObj _, JArr _ => false
  | _, _ => true
  end.

(** What one sees of a value without looking into it *)
Inductive shape : Type :=
| Scalar (v : json)
| Elements (n : nat)
| Properties.

Definition shape_of (j : json) : shape :=
  match j with JArr l => Elements (length l) | JObj _ => Properties | _ => Scalar j end.

Definition child (j : json) (k : str) : option json :=
  match j with
  | JArr l => i ← array_index k; l !! i
  | JObj o => obj_get o k
  | _ => None
  end.

(** What is at the end of a path of names *)
Fixpoint look (j : json) (ks : list str) : option shape :=
  match ks with
  | [] => Some (shape_of j)
  | k :: ks => v ← child j k; look v ks
  end.

(** The same document, up to the order of names *)
Definition jeq (a b : json) : Prop := forall ks, look a ks = look b ks.

#[export] Instance jeq_equivalence : Equivalence jeq.
Proof. split; [done|by intros a b H ks|]. intros a b c H H' ks. by rewrite H. Qed.

Lemma jeq_arr l l' : Forall2 jeq l l' -> jeq (JArr l) (JArr l').
Proof.
  intros H [|k ks]; cbn; [by rewrite (Forall2_length _ _ _ H)|]. destruct (array_index k) as [i|]; cbn; [|done].
  destruct (l !! i) as [v|] eqn:E.
  - destruct (Forall2_lookup_l _ _ _ _ _ H E) as (v' & -> & Hv). apply Hv.
  - by rewrite (proj1 (Forall2_lookup_None _ _ _ H i) E) || (apply Forall2_length in H; rewrite (lookup_ge_None_2 l' i); [done|]; rewrite <- H; by apply lookup_ge_None).
Qed.

Lemma jeq_obj o o' : (forall k, option_Forall2 jeq (obj_get o k) (obj_get o' k)) -> jeq (JObj o) (JObj o').
Proof. intros H [|k ks]; cbn; [done|]. destruct (H k) as [v v' Hv|]; cbn; [apply Hv|done]. Qed.

Lemma jeq_shape a b : jeq a b -> shape_of a = shape_of b.
Proof. intros H. specialize (H []). cbn in H. by injection H. Qed.

Lemma jeq_child a b k : jeq a b -> option_Forall2 jeq (child a k) (child b k).
Proof.
  intros H. pose proof (fun ks => H (k :: ks)) as Hk. cbn [look] in Hk.
  destruct (child a k) as [v|], (child b k) as [v'|]; cbn in Hk; [by constructor| | |constructor]; by specialize (Hk []).
Qed.

Lemma json_copy_wf v : json_wf v = true -> json_copy v = v.
Proof.
  induction v as [| | | | |l IH|o IH] using json_tree_ind; cbn; try done.
  - intros [H _]%andb_true_iff. f_equal. induction IH as [|v l Hv _ IHl]; cbn in *; [done|].
    apply andb_true_iff in H as [H1 H2]. by rewrite Hv, IHl.
  - intros [H _]%andb_true_iff. f_equal. induction IH as [|[k v] o Hv _ IHo]; cbn in *; [done|].
    apply andb_true_iff in H as [[H1 _]%andb_true_iff H2]. rewrite IHo by done. specialize (Hv H1). destruct v; try done; by rewrite Hv.
Qed.

Lemma wf_defined v : json_wf v = true -> strict_eq v JUndef = false.
Proof. by destruct v. Qed.

Lemma wf_elem l i v : json_wf (JArr l) = true -> l !! i = Some v -> json_wf v = true.
Proof.
  cbn. intros [H _]%andb_true_iff E. rewrite forallb_forall in H. apply H, list_elem_of_In. by apply list_elem_of_lookup_2 in E.
Qed.

Lemma wf_length l : json_wf (JArr l) = true -> Z.of_nat (length l) < 2 ^ 31.
Proof. cbn. intros [_ H%Z.ltb_lt]%andb_true_iff. exact H. Qed.

Lemma wf_get o k v : json_wf (JObj o) = true -> obj_get o k = Some v -> json_wf v = true /\ k <> # "__proto__".
Proof.
  cbn [json_wf]. intros [H _]%andb_true_iff E%obj_get_Some. rewrite forallb_forall in H. apply H in E. cbn in E.
  apply andb_true_iff in E as [E1 E2]. split; [done|]. intros ->. by rewrite eqs_refl in E2.
Qed.

Lemma wf_nodup o : json_wf (JObj o) = true -> NoDup (obj_keys o).
Proof. cbn. intros [_ H]%andb_true_iff. by apply bool_decide_eq_true in H. Qed.

Lemma alike_elem l l' i v v' : alike (JArr l) (JArr l') = true -> l !! i = Some v -> l' !! i = Some v' -> alike v v' = true.
Proof.
  revert l' i. induction l as [|x l IH]; intros [|x' l'] [|i] H E E'; try done; apply andb_true_iff in H as [H1 H2].
  - by simplify_eq/=.
  - by apply (IH l' i).
Qed.

Lemma alike_get o o' k v v' : alike (JObj o) (JObj o') = true -> obj_get o k = Some v -> obj_get o' k = Some v' -> alike v v' = true.
Proof. cbn. intros H E%obj_get_Some E'. rewrite forallb_forall in H. apply H in E. cbn in E. by rewrite E' in E. Qed.

(** ** Editing without validation *)

(** The operations that the patch between two documents has *)
Definition edits_place (n : operation) : Prop :=
  (op n = # "add" \/ op n = # "remove" \/ op n = # "replace") /\ exists s, path n = 47 :: s.

Definition edit (d : json) (n : operation) : outcome json :=
  let? x := walk no_operation false n d d [[]] (drop 1 (split 47 (path n))) false in Done (changed x).

Fixpoint edits (d : json) (ns : list operation) : outcome json :=
  match ns with [] => Done d | n :: ns => let? d := edit d n in edits d ns end.

(** Without validation only the name and the value of the operation matter. *)
Lemma walk_irrelevant self self' n n' e e' d b b' rest m m' : op n = op n' -> value n = value n' ->
  walk self false n e d b rest m = walk self' false n' e' d b' rest m'.
Proof.
  intros Ho Hv. revert d b b' m m'. induction rest as [|g rest IH]; intros d b b' m m'; cbn [walk obind]; unfold handler; rewrite <- ?Ho, <- ?Hv; [done|].
  destruct d; try (destruct rest; [done|]; destruct (enter_object _ _) as [[v back]|]; cbn [obind]; [|done]; by rewrite (IH v _ (b' ++ [g]) _ false)).
  destruct (array_key false l g); cbn [obind]; [|done]. destruct rest; [done|].
  destruct (enter_array _ _) as [[v back]|]; cbn [obind]; [|done]. by rewrite (IH v _ (b' ++ [g]) _ false).
Qed.

Lemma walk_test self n e d b rest m x k :
  obj_get kinds (op n) = Some k -> k <> Test -> walk self false n e d b rest m = Done x -> e_test x = None.
Proof.
  intros Hk Ht. revert d b m x.
  assert (forall d t x, handler n (fun k => object_handler k (value n) d t) = Done x -> e_test x = None) as Ho.
  { intros d t x. unfold handler. rewrite Hk. destruct k; cbn [object_handler]; try destruct (take_read _); cbn [obind]; try destruct (set_prop _ _ _); cbn [obind]; intros; by simplify_eq. }
  assert (forall l t x, handler n (fun k => array_handler k (value n) l t) = Done x -> e_test x = None) as Ha.
  { intros l t x. unfold handler. rewrite Hk.
    destruct k; cbn [array_handler]; try destruct (take_read _); cbn [obind]; try destruct (set_elem _ _ _); try destruct t; cbn [obind splice_out];
      intros; by simplify_eq. }
  induction rest as [|g rest IH]; intros d b m x; cbn [walk obind]; [destruct d; [apply Ho..|done|apply Ho]|].
  assert (forall v back, (let? x := walk self false n e v (b ++ [g]) rest false in
    Done (Effect (back (changed x)) (e_removed x) (e_test x) (got x))) = Done x -> e_test x = None) as Hw.
  { intros v back. destruct (walk _ _ _ _ _ _ _ _) eqn:E; cbn; [|done]. intros [= <-]. cbn. by apply IH in E. }
  destruct d; try (destruct rest; [apply Ho|]; destruct (enter_object _ _) as [[v back]|]; [apply Hw|done]).
  destruct (array_key _ _ _); cbn [obind]; [|done]. destruct rest; [apply Ha|]. destruct (enter_array _ _) as [[v back]|]; [apply Hw|done].
Qed.

Lemma edit_operation d n : edits_place n ->
  match applyOperation d n false true with Done r => edit d n = Done (newDocument r) | Fails f => edit d n = Fails f end.
Proof.
  intros [Hk [s Hs]]. unfold applyOperation, applyOperation_, edit. rewrite Hs. cbn [obind].
  change (take 1 (split 47 (47 :: s))) with [@nil Z].
  rewrite (walk_irrelevant no_operation apply_one n n d d d [[]] [[]] _ false false) by done.
  destruct (walk _ _ _ _ _ _ _ _) as [x|] eqn:E; cbn [obind]; [|done].
  destruct Hk as [Hk|[Hk|Hk]]; rewrite Hk; cbn; by rewrite (walk_test _ _ _ _ _ _ _ _ _ (ltac:(by rewrite Hk)) ltac:(done) E).
Qed.

Lemma edits_patch d ns : Forall edits_place ns ->
  match applyPatch d ns false true with Done (_, d') => edits d ns = Done d' | Fails f => edits d ns = Fails f end.
Proof.
  unfold applyPatch. intros H. revert d. induction H as [|n ns Hn _ IH]; intros d; cbn [apply_all edits]; [done|].
  pose proof (edit_operation d n Hn) as He. destruct (applyOperation d n false true) as [r|]; cbn [obind]; rewrite He; cbn [obind]; [|done].
  specialize (IH (newDocument r)). by destruct (apply_all _ _ _) as [[]|].
Qed.

(** ** Operations below a name *)

Definition below (k : str) (n : operation) : operation := Op (op n) (47 :: escapePathComponent k ++ path n) (from n) (value n).

Lemma split_component a s : ~ In 47 a -> split 47 (a ++ 47 :: s) = a :: split 47 s.
Proof.
  induction a as [|c a IH]; intros H; cbn [app split]; [by rewrite Z.eqb_refl|]. cbn in H.
  rewrite (proj2 (Z.eqb_neq c 47)), IH by tauto. done.
Qed.

Lemma split_last a : ~ In 47 a -> split 47 a = [a].
Proof.
  induction a as [|c a IH]; intros H; cbn [split]; [done|]. cbn in H. rewrite (proj2 (Z.eqb_neq c 47)), IH by tauto. done.
Qed.

Lemma split_below k n s : path n = 47 :: s -> drop 1 (split 47 (path (below k n))) = escapePathComponent k :: drop 1 (split 47 (path n)).
Proof.
  intros Hs. cbn [below path]. rewrite Hs. cbn [split]. rewrite Z.eqb_refl. cbn [drop].
  by rewrite split_component by apply escape_no_slash.
Qed.

Lemma split_nonempty c s : split c s <> [].
Proof. destruct s as [|x s]; cbn; [done|]. destruct (x =? c); [done|]. by destruct (split c s). Qed.

Lemma object_key_escape k : object_key (escapePathComponent k) = k.
Proof.
  unfold object_key. destruct (existsb _ _) eqn:E; [apply unescape_escape|]. apply existsb_absent in E. revert E. rewrite escape_units.
  induction k as [|c k IH]; [done|]. cbn [map concat]. rewrite in_app_iff. intros H. rewrite IH by tauto. unfold escape_unit in *.
  destruct (c =? 126); [cbn in H; tauto|]. destruct (c =? 47); [cbn in H; tauto|]. done.
Qed.

(** *** In objects *)

Lemma own_value o k v : obj_get o k = Some v -> take_read (get_prop (JObj o) k) = Done v.
Proof. intros H. unfold get_prop. cbn [own_get]. by rewrite H. Qed.

Lemma set_own o k v : k <> # "__proto__" \/ obj_get o k <> None -> set_prop (JObj o) k v = Done (JObj (obj_set o k v)).
Proof.
  intros H. cbn [set_prop]. destruct (eqs_spec k (# "__proto__")) as [->|]; [|done]. rewrite bool_decide_true; [done|].
  apply list_elem_of_In, obj_get_In. destruct H; done.
Qed.

Lemma edit_below_object o k v n : edits_place n -> obj_get o k = Some v ->
  edit (JObj o) (below k n) = let? v' := edit v n in Done (JObj (obj_set o k v')).
Proof.
  intros [_ [s Hs]] Hv. unfold edit. rewrite (split_below k n s Hs). cbn [walk obind].
  destruct (drop 1 (split 47 (path n))) as [|g rest] eqn:E.
  { rewrite Hs in E. cbn in E. by destruct (split_nonempty 47 s). }
  rewrite object_key_escape. unfold enter_object. rewrite (own_value o k v Hv). cbn [obind].
  rewrite (walk_irrelevant _ no_operation (below k n) n _ v v _ [[]] _ _ false) by done.
  destruct (walk _ _ _ _ _ _ _ _); cbn [obind]; [|done]. by rewrite Hv.
Qed.

Lemma handler_remove {A} p (f : kind -> outcome A) : handler (remove_op p) f = f Remove.
Proof. done. Qed.

Lemma handler_replace {A} p v (f : kind -> outcome A) : handler (replace_op p v) f = f Replace.
Proof. done. Qed.

Lemma handler_add {A} p v (f : kind -> outcome A) : handler (add_op p v) f = f Add.
Proof. done. Qed.

(** An operation at one component *)
Lemma edit_component d n k : path n = 47 :: escapePathComponent k ->
  edit d n = let? x := walk no_operation false n d d [[]] [escapePathComponent k] false in Done (changed x).
Proof. intros H. unfold edit. rewrite H. cbn [split]. rewrite Z.eqb_refl, split_last by apply escape_no_slash. done. Qed.

Lemma edit_remove_object o k v : obj_get o k = Some v -> edit (JObj o) (remove_op (47 :: escapePathComponent k)) = Done (JObj (obj_delete o k)).
Proof.
  intros Hv. rewrite (edit_component _ _ k) by done. cbn [walk obind]. rewrite object_key_escape, handler_remove. cbn [object_handler]. by rewrite (own_value o k v Hv).
Qed.

Lemma edit_replace_object o k v w : obj_get o k = Some v -> edit (JObj o) (replace_op (47 :: escapePathComponent k) w) = Done (JObj (obj_set o k w)).
Proof.
  intros Hv. rewrite (edit_component _ _ k) by done. cbn [walk obind]. rewrite object_key_escape, handler_replace. cbn [object_handler]. rewrite (own_value o k v Hv). cbn [obind].
  rewrite set_own; [done|]. right. by rewrite Hv.
Qed.

Lemma edit_add_object o k w : k <> # "__proto__" -> edit (JObj o) (add_op (47 :: escapePathComponent k) w) = Done (JObj (obj_set o k w)).
Proof.
  intros Hk. rewrite (edit_component _ _ k) by done. cbn [walk obind]. rewrite object_key_escape, handler_add. cbn [object_handler]. rewrite set_own; [done|]. by left.
Qed.

(** *** In arrays *)

Lemma index_key r l i : Z.of_nat i < 2 ^ 31 -> array_key r l (escapePathComponent (index_name i)) = Done (Index (Z.of_nat i)).
Proof.
  intros H. rewrite escape_absent by (apply index_name_plain; lia). unfold array_key.
  rewrite index_name_not by done. by rewrite isInteger_index, tilde2_index.
Qed.

Lemma get_index l i v : l !! i = Some v -> take_read (get_elem l (Index (Z.of_nat i))) = Done v.
Proof. intros H. cbn [get_elem]. rewrite (proj2 (Z.ltb_ge _ _)) by lia. rewrite Nat2Z.id, H. done. Qed.

Lemma splice_start_index i n : (i <= n)%nat -> splice_start (Z.of_nat i) (Z.of_nat n) = i.
Proof. intros H. unfold splice_start. rewrite (proj2 (Z.ltb_ge _ _)) by lia. lia. Qed.

Lemma edit_below_array l i v n : edits_place n -> Z.of_nat i < 2 ^ 31 -> l !! i = Some v ->
  edit (JArr l) (below (index_name i) n) = let? v' := edit v n in Done (JArr (<[i := v']> l)).
Proof.
  intros [_ [s Hs]] Hi Hv. unfold edit. rewrite (split_below _ n s Hs). cbn [walk obind].
  destruct (drop 1 (split 47 (path n))) as [|g rest] eqn:E.
  { rewrite Hs in E. cbn in E. by destruct (split_nonempty 47 s). }
  rewrite index_key by done. cbn [obind]. unfold enter_array. rewrite (get_index l i v Hv). cbn [obind].
  rewrite (walk_irrelevant _ no_operation (below (index_name i) n) n _ v v _ [[]] _ _ false) by done.
  destruct (walk _ _ _ _ _ _ _ _); cbn [obind changed]; [|done]. rewrite (proj2 (Z.ltb_ge _ _)) by lia. by rewrite Nat2Z.id.
Qed.

Lemma edit_remove_array l i v : Z.of_nat i < 2 ^ 31 -> l !! i = Some v ->
  edit (JArr l) (remove_op (47 :: escapePathComponent (index_name i))) = Done (JArr (take i l ++ drop (S i) l)).
Proof.
  intros Hi Hv%lookup_lt_Some. rewrite (edit_component _ _ (index_name i)) by done. cbn [walk obind]. rewrite index_key by done. cbn [obind andb].
  rewrite handler_remove. cbn [array_handler]. unfold splice_out. by rewrite splice_start_index by lia.
Qed.

Lemma edit_replace_array l i v w : Z.of_nat i < 2 ^ 31 -> l !! i = Some v ->
  edit (JArr l) (replace_op (47 :: escapePathComponent (index_name i)) w) = Done (JArr (<[i := w]> l)).
Proof.
  intros Hi Hv. rewrite (edit_component _ _ (index_name i)) by done. cbn [walk obind]. rewrite index_key by done. cbn [obind andb].
  rewrite handler_replace. cbn [array_handler]. rewrite (get_index l i v Hv). cbn [obind set_elem]. apply lookup_lt_Some in Hv.
  rewrite (proj2 (Z.ltb_ge _ 0)), (proj2 (Z.ltb_ge _ _)), (proj2 (Z.eqb_neq _ _)) by lia. cbn [orb obind changed]. by rewrite Nat2Z.id.
Qed.

Lemma edit_add_array l w : Z.of_nat (length l) < 2 ^ 31 ->
  edit (JArr l) (add_op (47 :: escapePathComponent (index_name (length l))) w) = Done (JArr (l ++ [w])).
Proof.
  intros Hl. rewrite (edit_component _ _ (index_name (length l))) by done. cbn [walk obind]. rewrite index_key by done. cbn [obind andb].
  rewrite handler_add. cbn [array_handler obind changed]. unfold splice_in. rewrite splice_start_index by lia. by rewrite take_ge, drop_ge by lia.
Qed.

(** ** Several operations *)

Lemma edits_app d ns ns' : edits d (ns ++ ns') = let? d := edits d ns in edits d ns'.
Proof. revert d. induction ns as [|n ns IH]; intros d; cbn [app edits obind]; [done|]. destruct (edit d n); cbn [obind]; [apply IH|done]. Qed.

Lemma edits_below_object o k v ns d : Forall edits_place ns -> obj_get o k = Some v -> edits v ns = Done d ->
  edits (JObj o) (map (below k) ns) = Done (JObj (obj_set o k d)).
Proof.
  intros H. revert o v. induction H as [|n ns Hn _ IH]; intros o v Hv; cbn [map edits].
  - intros [= <-]. by rewrite obj_set_same.
  - rewrite (edit_below_object o k v n Hn Hv). destruct (edit v n) as [v'|]; cbn [obind]; [|done]. intros E.
    rewrite (IH (obj_set o k v') v') by (done || by rewrite obj_get_set, decide_True). by rewrite obj_set_set.
Qed.

Lemma edits_below_array l i v ns d : Forall edits_place ns -> Z.of_nat i < 2 ^ 31 -> l !! i = Some v -> edits v ns = Done d ->
  edits (JArr l) (map (below (index_name i)) ns) = Done (JArr (<[i := d]> l)).
Proof.
  intros H Hi. revert l v. induction H as [|n ns Hn _ IH]; intros l v Hv; cbn [map edits].
  - intros [= <-]. by rewrite list_insert_id.
  - rewrite (edit_below_array l i v n Hn Hi Hv). destruct (edit v n) as [v'|]; cbn [obind]; [|done]. intros E.
    rewrite (IH (<[i := v']> l) v') by (done || apply list_lookup_insert_eq; by apply lookup_lt_Some in Hv). by rewrite list_insert_insert_eq.
Qed.

(** ** The patch between two documents *)

Definition under (o : str) (n : operation) : operation := Op (op n) (o ++ path n) (from n) (value n).

(** What is generated for a name of the old document, and for one of the new *)
Definition old_ops (fuel : nat) (e t : json) (p : str) : list operation :=
  if is_gone e t p then [remove_op (47 :: escapePathComponent p)]
  else if container (prop e p) && container (prop t p) then map (below p) (generate_ fuel (prop e p) (prop t p) [])
  else if negb (strict_eq (prop e p) (prop t p)) then [replace_op (47 :: escapePathComponent p) (deepClone (prop t p))] else [].

Definition new_ops (e t : json) (p : str) : list operation :=
  if own e p || strict_eq (prop t p) JUndef then [] else [add_op (47 :: escapePathComponent p) (deepClone (prop t p))].

Definition has_changed (e t : json) : bool :=
  existsb (is_gone e t) (objectKeys e) || negb (length (objectKeys t) =? length (objectKeys e))%nat.

Lemma generate_under fuel e t o : generate_ fuel e t o = map (under o) (generate_ fuel e t []).
Proof.
  revert e t o. induction fuel as [|fuel IH]; intros e t o; [done|]. cbn [generate_ app]. rewrite map_app, concat_map, map_map. f_equal.
  - f_equal. apply map_ext. intros p. destruct (is_gone e t p); [done|]. destruct (_ && _); [|by destruct (negb _)].
    rewrite (IH _ _ (o ++ _)), (IH _ _ (47 :: _)), map_map. apply map_ext. intros n. unfold under. cbn [op path from value]. by rewrite app_assoc.
  - destruct (_ || _); [|done]. rewrite concat_map, map_map. f_equal. apply map_ext. intros p. by destruct (_ || _).
Qed.

Lemma generate_local fuel e t :
  generate_ (S fuel) e t [] =
  concat (map (old_ops fuel e t) (rev (objectKeys e))) ++ if has_changed e t then concat (map (new_ops e t) (objectKeys t)) else [].
Proof.
  cbn [generate_ app]. f_equal. f_equal. apply map_ext. intros p. unfold old_ops. destruct (is_gone e t p); [done|].
  destruct (_ && _); [|done]. rewrite generate_under. apply map_ext. done.
Qed.

Ltac place := apply Forall_singleton; split; [auto|by eexists].

Lemma generate_edits fuel e t : Forall edits_place (generate_ fuel e t []).
Proof.
  revert e t. induction fuel as [|fuel IH]; intros e t; [constructor|]. rewrite generate_local. apply Forall_app. split.
  - apply Forall_concat, Forall_map, Forall_true. intros p. unfold old_ops.
    destruct (is_gone e t p); [place|]. destruct (_ && _); [|destruct (negb _); [place|constructor]].
    apply Forall_map. eapply Forall_impl; [apply IH|]. intros n [Hn [s Hs]]. split; [done|]. by eexists.
  - destruct (has_changed e t); [|constructor]. apply Forall_concat, Forall_map, Forall_true. intros p. unfold new_ops.
    destruct (_ || _); [constructor|place].
Qed.

(** In a document without undefined values *)
Lemma is_gone_wf e t p : (forall v, own_get t p = Some v -> json_wf v = true) -> is_gone e t p = negb (own t p).
Proof.
  intros H. unfold is_gone, own, prop. destruct (own_get t p) as [v|] eqn:E; cbn [default orb negb]; [|done]. by rewrite wf_defined by auto.
Qed.

Lemma strict_eq_scalar a b : strict_eq a b = true -> a = b.
Proof.
  destruct a, b; cbn; try done; [by intros ->%eqb_prop|by intros ->%Z.eqb_eq|]. by destruct (eqs_spec s s0) as [->|].
Qed.

(** *** Objects *)

Definition patches (fuel : nat) (v v' : json) : Prop :=
  exists d, edits v (generate_ fuel v v' []) = Done d /\ jeq d v'.

(** Two arrays or two objects *)
Definition same_kind (v v' : json) : bool := container v && container v' && Bool.eqb (is_array v) (is_array v').

Lemma keys_object o k : k ∈ objectKeys (JObj o) <-> obj_get o k <> None.
Proof. cbn [objectKeys]. by rewrite own_keys_perm, obj_get_In, list_elem_of_In. Qed.

Lemma prop_object o k v : obj_get o k = Some v -> prop (JObj o) k = v.
Proof. intros H. unfold prop. cbn [own_get]. by rewrite H. Qed.

Lemma own_object o k : own (JObj o) k = match obj_get o k with Some _ => true | None => false end.
Proof. done. Qed.

Lemma old_object fuel o o' cur p v :
  json_wf (JObj o') = true -> obj_get o p = Some v -> obj_get cur p = Some v ->
  (forall v', obj_get o' p = Some v' -> container v && container v' = true -> patches fuel v v') ->
  exists cur', edits (JObj cur) (old_ops fuel (JObj o) (JObj o') p) = Done (JObj cur') /\
    option_Forall2 jeq (obj_get cur' p) (obj_get o' p) /\ forall k, k <> p -> obj_get cur' k = obj_get cur k.
Proof.
  intros Hw Hv Hc IH. unfold old_ops. rewrite is_gone_wf by (intros v' Hv'; exact (proj1 (wf_get _ _ _ Hw Hv'))).
  rewrite own_object, (prop_object o p v Hv). destruct (obj_get o' p) as [v'|] eqn:Hv'; cbn [negb]; rewrite ?(prop_object o' p _ Hv').
  - destruct (container v && container v') eqn:Hk.
    + destruct (IH v' eq_refl Hk) as (d & Hd & Hj). exists (obj_set cur p d).
      rewrite (edits_below_object cur p v _ d) by (done || apply generate_edits). split; [done|].
      rewrite obj_get_set, decide_True by done. split; [by constructor|]. intros k Hkp. by rewrite obj_get_set, decide_False.
    + destruct (negb (strict_eq v v')) eqn:Hs.
      * exists (obj_set cur p v'). cbn [edits]. rewrite (edit_replace_object cur p v) by done. cbn [obind].
        unfold deepClone. rewrite json_copy_wf by exact (proj1 (wf_get _ _ _ Hw Hv')). split; [done|].
        rewrite obj_get_set, decide_True by done. split; [by constructor|]. intros k Hkp. by rewrite obj_get_set, decide_False.
      * exists cur. apply negb_false_iff, strict_eq_scalar in Hs as ->. split; [done|]. rewrite Hc. split; [by constructor|done].
  - exists (obj_delete cur p). cbn [edits]. rewrite (edit_remove_object cur p v) by done. split; [done|].
    rewrite obj_get_delete, decide_True by done. split; [constructor|]. intros k Hkp. by rewrite obj_get_delete, decide_False.
Qed.

Lemma old_objects fuel o o' ks cur :
  json_wf (JObj o') = true -> NoDup ks -> (forall k, k ∈ ks -> obj_get o k <> None) -> (forall k, k ∈ ks -> obj_get cur k = obj_get o k) ->
  (forall k v v', obj_get o k = Some v -> obj_get o' k = Some v' -> container v && container v' = true -> patches fuel v v') ->
  exists cur', edits (JObj cur) (concat (map (old_ops fuel (JObj o) (JObj o')) ks)) = Done (JObj cur') /\
    forall k, if bool_decide (k ∈ ks) then option_Forall2 jeq (obj_get cur' k) (obj_get o' k) else obj_get cur' k = obj_get cur k.
Proof.
  intros Hw Hn Hin Hcur IHv. revert cur Hcur. induction Hn as [|p ks Hp _ IH]; intros cur Hcur; cbn [map concat].
  - exists cur. split; [done|]. intros k. by rewrite bool_decide_false by apply not_elem_of_nil.
  - destruct (obj_get o p) as [v|] eqn:Hv; [|by destruct (Hin p (list_elem_of_here _ _))].
    destruct (old_object fuel o o' cur p v Hw Hv) as (c1 & E1 & Hj & Ho); [rewrite Hcur; [done|apply list_elem_of_here]|intros v'; by apply IHv|].
    destruct (IH ltac:(intros; apply Hin; by right) c1) as (c2 & E2 & H2).
    { intros k Hk. rewrite Ho by (intros ->; done). apply Hcur. by right. }
    exists c2. rewrite edits_app, E1. cbn [obind]. split; [done|]. intros k. specialize (H2 k). case_bool_decide as Hk.
    + by rewrite bool_decide_true by (by right).
    + destruct (decide (k = p)) as [->|Hkp]; [rewrite bool_decide_true by apply list_elem_of_here; by rewrite H2|].
      rewrite bool_decide_false by set_solver. by rewrite H2, Ho.
Qed.

Lemma new_objects o o' ks cur :
  json_wf (JObj o') = true -> (forall k, k ∈ ks -> obj_get o' k <> None) ->
  exists cur', edits (JObj cur) (concat (map (new_ops (JObj o) (JObj o')) ks)) = Done (JObj cur') /\
    forall k, obj_get cur' k = if bool_decide (k ∈ ks /\ obj_get o k = None) then obj_get o' k else obj_get cur k.
Proof.
  intros Hw. revert cur. induction ks as [|p ks IH]; intros cur Hin; cbn [map concat].
  - exists cur. split; [done|]. intros k. by rewrite bool_decide_false by set_solver.
  - destruct (obj_get o' p) as [v'|] eqn:Hv'; [|by destruct (Hin p (list_elem_of_here _ _))]. destruct (wf_get _ _ _ Hw Hv') as [Hwv Hpp].
    unfold new_ops at 1. rewrite own_object, (prop_object o' p v' Hv'), wf_defined, orb_false_r by done.
    assert (forall k, k ∈ ks -> obj_get o' k <> None) as Hin' by (intros; apply Hin; by right).
    destruct (obj_get o p) as [w|] eqn:Ho; cbn [app].
    + destruct (IH cur Hin') as (c & E & H). exists c. split; [done|]. intros k.
      rewrite H, (bool_decide_ext (k ∈ p :: ks /\ _) (k ∈ ks /\ obj_get o k = None)); [done|]. set_solver.
    + destruct (IH (obj_set cur p v') Hin') as (c & E & H). exists c. cbn [edits]. unfold deepClone. rewrite json_copy_wf by done.
      rewrite edit_add_object by done. split; [done|]. intros k. rewrite H, obj_get_set. destruct (decide (k = p)) as [->|Hkp].
      * rewrite (bool_decide_true (p ∈ p :: ks /\ _)) by set_solver. rewrite Hv'. by case_bool_decide.
      * rewrite (bool_decide_ext (k ∈ p :: ks /\ _) (k ∈ ks /\ obj_get o k = None)); [done|]. set_solver.
Qed.

(** Where nothing is gone and the numbers of names agree, no name is new. *)
Lemma unchanged_keys o o' : json_wf (JObj o) = true -> json_wf (JObj o') = true -> has_changed (JObj o) (JObj o') = false ->
  forall k, obj_get o' k <> None -> obj_get o k <> None.
Proof.
  intros Hw Hw' H. apply orb_false_iff in H as [H1 H2]. apply negb_false_iff, Nat.eqb_eq in H2. cbn [objectKeys] in *.
  rewrite !(Permutation_length (own_keys_perm _)) in H2. intros k Hk. apply obj_get_In. apply obj_get_In in Hk. revert k Hk.
  apply NoDup_length_incl; [apply NoDup_ListNoDup; by apply wf_nodup|lia|]. intros k Hk.
  apply obj_get_In. apply not_true_iff_false in H1. intros E. apply H1, existsb_exists. exists k. split.
  - apply (Permutation_in k (symmetry (own_keys_perm o)) Hk).
  - unfold is_gone. by rewrite own_object, E.
Qed.

Lemma patch_objects fuel o o' :
  json_wf (JObj o) = true -> json_wf (JObj o') = true ->
  (forall k v v', obj_get o k = Some v -> obj_get o' k = Some v' -> container v && container v' = true -> patches fuel v v') ->
  patches (S fuel) (JObj o) (JObj o').
Proof.
  intros Hw Hw' IH. unfold patches. rewrite generate_local. setoid_rewrite edits_app.
  destruct (old_objects fuel o o' (rev (objectKeys (JObj o))) o Hw') as (c1 & -> & H1); [| |done|done|].
  { rewrite <- Permutation_rev. cbn [objectKeys]. rewrite own_keys_perm. by apply wf_nodup. }
  { intros k. rewrite <- Permutation_rev. apply keys_object. }
  cbn [obind].
  assert (forall k, if obj_get o k then option_Forall2 jeq (obj_get c1 k) (obj_get o' k) else obj_get c1 k = None) as Hc.
  { intros k. specialize (H1 k). rewrite (bool_decide_ext (k ∈ rev _) (obj_get o k <> None)) in H1 by (rewrite <- Permutation_rev; apply keys_object).
    destruct (obj_get o k); [by rewrite bool_decide_true in H1|by rewrite bool_decide_false in H1 by tauto]. }
  destruct (has_changed (JObj o) (JObj o')) eqn:E.
  - destruct (new_objects o o' (objectKeys (JObj o')) c1 Hw') as (c2 & -> & H2); [intros k; apply keys_object|]. eexists. split; [done|].
    apply jeq_obj. intros k. rewrite H2. specialize (Hc k).
    destruct (obj_get o k); [rewrite bool_decide_false by (intros []; done); done|]. destruct (obj_get o' k) as [v'|] eqn:E'.
    + rewrite bool_decide_true by (rewrite keys_object, E'; done). by constructor.
    + rewrite bool_decide_false by (rewrite keys_object, E'; tauto). rewrite Hc. constructor.
  - exists (JObj c1). split; [done|]. apply jeq_obj. intros k. specialize (Hc k). pose proof (unchanged_keys o o' Hw Hw' E k) as Hk.
    destruct (obj_get o k); [done|]. rewrite Hc. destruct (obj_get o' k); [|constructor]. by destruct Hk.
Qed.

(** *** Arrays *)

Lemma own_get_index l i : Z.of_nat i < 2 ^ 31 -> own_get (JArr l) (index_name i) = l !! i.
Proof. intros H. cbn [own_get]. rewrite index_name_not, array_index_name by (done || lia). done. Qed.

Lemma prop_index l i v : Z.of_nat i < 2 ^ 31 -> l !! i = Some v -> prop (JArr l) (index_name i) = v.
Proof. intros H Hv. unfold prop. by rewrite own_get_index, Hv. Qed.

Lemma own_index l i : Z.of_nat i < 2 ^ 31 -> own (JArr l) (index_name i) = bool_decide (i < length l)%nat.
Proof.
  intros H. unfold own. rewrite own_get_index by done. destruct (l !! i) eqn:E.
  - apply lookup_lt_Some in E. by rewrite bool_decide_true.
  - apply lookup_ge_None in E. by rewrite bool_decide_false by lia.
Qed.

Lemma old_array fuel l l' i v cur :
  json_wf (JArr l') = true -> Z.of_nat i < 2 ^ 31 -> l !! i = Some v -> cur !! i = Some v ->
  (forall v', l' !! i = Some v' -> container v && container v' = true -> patches fuel v v') ->
  exists cur', edits (JArr cur) (old_ops fuel (JArr l) (JArr l') (index_name i)) = Done (JArr cur') /\
    match l' !! i with Some v' => exists w, jeq w v' /\ cur' = <[i := w]> cur | None => cur' = take i cur ++ drop (S i) cur end.
Proof.
  intros Hw Hi Hv Hc IH. unfold old_ops.
  rewrite is_gone_wf by (intros v' Hv'; rewrite own_get_index in Hv' by done; by apply (wf_elem l' i)).
  unfold own. rewrite own_get_index, (prop_index l i v Hi Hv) by done. destruct (l' !! i) as [v'|] eqn:Hv'; cbn [negb].
  - rewrite (prop_index l' i v' Hi Hv'). destruct (container v && container v') eqn:Hk.
    + destruct (IH v' eq_refl Hk) as (d & Hd & Hj). exists (<[i := d]> cur).
      rewrite (edits_below_array cur i v _ d) by (done || apply generate_edits). eauto.
    + destruct (negb (strict_eq v v')) eqn:Hs.
      * exists (<[i := v']> cur). cbn [edits]. rewrite (edit_replace_array cur i v) by done. cbn [obind].
        unfold deepClone. rewrite json_copy_wf by (by apply (wf_elem l' i)). split; [done|]. by exists v'.
      * exists cur. apply negb_false_iff, strict_eq_scalar in Hs as ->. split; [done|]. exists v'. by rewrite list_insert_id.
  - exists (take i cur ++ drop (S i) cur). cbn [edits]. by rewrite (edit_remove_array cur i v).
Qed.

Lemma old_arrays fuel l l' n tail :
  json_wf (JArr l) = true -> json_wf (JArr l') = true ->
  (forall i v v', l !! i = Some v -> l' !! i = Some v' -> container v && container v' = true -> patches fuel v v') ->
  (n <= length l)%nat -> Forall2 jeq tail (take (length l - n) (drop n l')) ->
  exists cur, edits (JArr (take n l ++ tail)) (concat (map (old_ops fuel (JArr l) (JArr l')) (rev (map index_name (seq 0 n))))) = Done (JArr cur) /\
    Forall2 jeq cur (take (length l) l').
Proof.
  intros Hw Hw' IH. revert tail. induction n as [|n IHn]; intros tail Hn Ht.
  { exists tail. rewrite take_0, drop_0, Nat.sub_0_r in *. done. }
  rewrite seq_S, map_app, rev_app_distr. cbn [map rev app concat Nat.add].
  destruct (lookup_lt_is_Some_2 l n ltac:(lia)) as [v Hv]. pose proof (wf_length l Hw) as Hlen.
  rewrite (take_S_r _ _ v) by done. rewrite <- app_assoc. cbn [app]. rewrite edits_app.
  assert (length (take n l) = n) as Htl by (rewrite length_take; lia).
  destruct (old_array fuel l l' n v (take n l ++ v :: tail) Hw') as (cur & -> & Hc); [lia|done| |by intros v'; apply IH|].
  { rewrite lookup_app_r by lia. by rewrite Htl, Nat.sub_diag. }
  cbn [obind]. destruct (l' !! n) as [v'|] eqn:Hv'.
  - destruct Hc as (w & Hj & ->). rewrite insert_app_r_alt by lia. rewrite Htl, Nat.sub_diag. cbn [insert list_insert].
    apply IHn; [lia|]. rewrite (drop_S l' v' n Hv'). replace (length l - n)%nat with (S (length l - S n)) by lia. by constructor.
  - subst cur. rewrite take_app_length', drop_app_ge by lia. rewrite Htl. replace (S n - n)%nat with 1%nat by lia. cbn [drop].
    rewrite drop_0. apply IHn; [lia|]. apply lookup_ge_None in Hv'. rewrite drop_ge, take_nil in * by lia. done.
Qed.

Lemma new_arrays l l' cur k :
  json_wf (JArr l') = true -> (length l <= length cur)%nat -> (length cur + k = length l')%nat ->
  edits (JArr cur) (concat (map (new_ops (JArr l) (JArr l')) (map index_name (seq (length cur) k)))) = Done (JArr (cur ++ drop (length cur) l')).
Proof.
  intros Hw. revert cur. pose proof (wf_length l' Hw) as Hlen. induction k as [|k IH]; intros cur Hl Hk; cbn [seq map concat].
  { rewrite drop_ge, app_nil_r by lia. done. }
  destruct (lookup_lt_is_Some_2 l' (length cur) ltac:(lia)) as [v' Hv']. pose proof (wf_elem _ _ _ Hw Hv') as Hwv.
  unfold new_ops at 1. rewrite own_index, bool_decide_false, (prop_index l' _ v'), wf_defined by (done || lia). cbn [orb app edits].
  rewrite edit_add_array by lia. cbn [obind]. unfold deepClone. rewrite json_copy_wf by done.
  specialize (IH (cur ++ [v'])). rewrite length_app in IH. cbn [length] in IH. rewrite Nat.add_1_r in IH. rewrite IH by lia.
  by rewrite (drop_S l' v' (length cur) Hv'), <- app_assoc.
Qed.

Lemma no_new_arrays l l' n : Z.of_nat n <= 2 ^ 31 -> (n <= length l)%nat -> concat (map (new_ops (JArr l) (JArr l')) (map index_name (seq 0 n))) = [].
Proof.
  intros Hz Hn. induction n as [|n IH]; [done|]. rewrite seq_S, !map_app, concat_app, IH by lia. cbn [map concat app Nat.add].
  unfold new_ops. rewrite own_index, bool_decide_true by lia. done.
Qed.

Lemma patch_arrays fuel l l' :
  json_wf (JArr l) = true -> json_wf (JArr l') = true ->
  (forall i v v', l !! i = Some v -> l' !! i = Some v' -> container v && container v' = true -> patches fuel v v') ->
  patches (S fuel) (JArr l) (JArr l').
Proof.
  intros Hw Hw' IH. unfold patches. rewrite generate_local. setoid_rewrite edits_app. pose proof (wf_length l Hw). pose proof (wf_length l' Hw').
  destruct (old_arrays fuel l l' (length l) [] Hw Hw' IH) as (cur & Hc & Hj); [lia|by rewrite Nat.sub_diag|].
  rewrite take_ge, app_nil_r in Hc by lia. cbn [objectKeys]. rewrite Hc. cbn [obind].
  pose proof (Forall2_length _ _ _ Hj) as Hlen. rewrite length_take in Hlen. destruct (le_lt_dec (length l') (length l)) as [Hle|Hlt].
  - exists (JArr cur). rewrite no_new_arrays by lia. split; [by destruct (has_changed _ _)|]. apply jeq_arr. by rewrite take_ge in Hj by lia.
  - exists (JArr (cur ++ drop (length cur) l')). assert (has_changed (JArr l) (JArr l') = true) as ->.
    { unfold has_changed. cbn [objectKeys]. rewrite !length_map, !length_seq. apply orb_true_iff. right. apply negb_true_iff, Nat.eqb_neq. lia. }
    replace (length l') with (length l + (length l' - length l))%nat by lia. rewrite seq_app, !map_app, concat_app, no_new_arrays by lia.
    cbn [app Nat.add]. replace (length l) with (length cur) by lia. rewrite new_arrays by (done || lia). split; [done|].
    apply jeq_arr. rewrite <- (take_drop (length l) l') at 2. apply Forall2_app; [done|]. replace (length l) with (length cur) by lia.
    by apply Forall_Forall2_diag, Forall_true.
Qed.

(** *** Both *)

Lemma height_elem l i v : l !! i = Some v -> (height v < height (JArr l))%nat.
Proof.
  cbn. revert i. induction l as [|x l IH]; intros [|i] H; simplify_eq/=; [lia|]. apply IH in H. lia.
Qed.

Lemma height_get o k v : obj_get o k = Some v -> (height v < height (JObj o))%nat.
Proof.
  cbn. induction o as [|[j x] o IH]; cbn; [done|]. destruct (decide (k = j)); [intros [= ->]; lia|]. intros H%IH. lia.
Qed.

Lemma generate_patches fuel e t :
  (height e < fuel)%nat -> json_wf e = true -> json_wf t = true -> alike e t = true -> container e && container t = true -> patches fuel e t.
Proof.
  revert e t. induction fuel as [|fuel IH]; intros e t Hh He Ht Ha Hc; [lia|]. destruct e, t; try done.
  - apply patch_arrays; [done..|]. intros i v v' Hv Hv' Hk. pose proof (height_elem _ _ _ Hv).
    apply IH; [lia|by apply (wf_elem l i)|by apply (wf_elem l0 i)|by apply (alike_elem l l0 i)|done].
  - apply patch_objects; [done..|]. intros k v v' Hv Hv' Hk. pose proof (height_get _ _ _ Hv).
    apply IH; [lia|exact (proj1 (wf_get _ _ _ He Hv))|exact (proj1 (wf_get _ _ _ Ht Hv'))|by apply (alike_get o o0 k)|done].
Qed.

(** *** Equal documents *)

Lemma concat_nil {A B} (f : A -> list B) l : (forall x, x ∈ l -> f x = []) -> concat (map f l) = [].
Proof. induction l as [|x l IH]; intros H; [done|]. cbn. rewrite (H x), IH; [done|set_solver..]. Qed.

Lemma existsb_none {A} (f : A -> bool) l : (forall x, x ∈ l -> f x = false) -> existsb f l = false.
Proof. induction l as [|x l IH]; intros H; [done|]. cbn. rewrite (H x), IH; [done|set_solver..]. Qed.

Lemma keys_own e p : container e = true -> json_wf e = true -> p ∈ objectKeys e ->
  exists v, own_get e p = Some v /\ child e p = Some v.
Proof.
  intros Hc Hw Hp. destruct e; try done.
  - cbn [objectKeys] in Hp. apply list_elem_of_In, in_map_iff in Hp as (i & <- & Hi%in_seq). pose proof (wf_length l Hw).
    destruct (lookup_lt_is_Some_2 l i ltac:(lia)) as [v Hv]. exists v. rewrite own_get_index by lia. split; [done|]. cbn [child]. by rewrite array_index_name by lia.
  - apply keys_object in Hp. cbn [own_get child]. destruct (obj_get o p) as [v|]; [by exists v|done].
Qed.

Lemma child_own e p v : json_wf e = true -> child e p = Some v -> own_get e p = Some v.
Proof.
  intros Hw H. destruct e; try done. cbn [child] in H. destruct (array_index p) as [i|] eqn:E; cbn in H; [|done].
  apply array_index_Some in E as ->. pose proof (lookup_lt_Some _ _ _ H). pose proof (wf_length l Hw). by rewrite own_get_index by lia.
Qed.

Lemma wf_child d k v : json_wf d = true -> child d k = Some v -> json_wf v = true.
Proof.
  intros Hw H. destruct d; try done; cbn [child] in H; [|exact (proj1 (wf_get _ _ _ Hw H))].
  destruct (array_index k) as [i|]; [|done]. by apply (wf_elem l i).
Qed.

Lemma same_keys_length e t : json_wf e = true -> json_wf t = true -> jeq e t -> length (objectKeys t) = length (objectKeys e).
Proof.
  intros He Ht H. pose proof (jeq_shape _ _ H) as Hs. destruct e, t; cbn [shape_of] in Hs; try done; try (injection Hs as Hs; by subst).
  - injection Hs as Hs. cbn [objectKeys]. by rewrite !length_map, !length_seq.
  - cbn [objectKeys]. rewrite !(Permutation_length (own_keys_perm _)). apply Permutation_length, NoDup_Permutation; [by apply wf_nodup..|].
    intros k. rewrite !list_elem_of_In, <- !obj_get_In. pose proof (jeq_child _ _ k H) as Hk. cbn [child] in Hk. by inversion Hk.
Qed.

Lemma generate_same fuel e t : json_wf e = true -> json_wf t = true -> jeq e t -> container e = true -> generate_ fuel e t [] = [].
Proof.
  revert e t. induction fuel as [|fuel IH]; intros e t He Ht H Hc; [done|]. rewrite generate_local.
  assert (forall p, p ∈ objectKeys e -> exists v v', child e p = Some v /\ child t p = Some v' /\ jeq v v' /\ own_get e p = Some v /\ own_get t p = Some v') as Hp.
  { intros p Hp. destruct (keys_own e p Hc He Hp) as (v & Hv & Hcv). pose proof (jeq_child _ _ p H) as Hj. rewrite Hcv in Hj. inversion Hj as [? v' Hjv E1 E2|].
    exists v, v'. by rewrite (child_own t p v' Ht). }
  assert (forall p, p ∈ objectKeys e -> is_gone e t p = false) as Hg.
  { intros p Hin. destruct (Hp p Hin) as (v & v' & _ & Hct & _ & _ & Ho). rewrite is_gone_wf; [by unfold own; rewrite Ho|].
    intros w Hw. rewrite Ho in Hw. injection Hw as <-. by apply (wf_child t p). }
  unfold has_changed. rewrite existsb_none, (same_keys_length e t), Nat.eqb_refl by done. cbn [orb negb]. rewrite app_nil_r. apply concat_nil.
  intros p Hin. rewrite <- Permutation_rev in Hin. unfold old_ops. rewrite Hg by done. destruct (Hp p Hin) as (v & v' & Hce & Hct & Hj & Hoe & Hot).
  unfold prop. rewrite Hoe, Hot. change (default JUndef (Some v)) with v. change (default JUndef (Some v')) with v'.
  pose proof (jeq_shape _ _ Hj) as Hs. destruct (container v && container v') eqn:Hk.
  - apply andb_true_iff in Hk as [Hk _]. by rewrite (IH v v' (wf_child e p v He Hce) (wf_child t p v' Ht Hct) Hj Hk).
  - assert (v = v' /\ container v = false) as [-> Hcs].
    { destruct v, v'; cbn [shape_of container andb] in *; try done; by injection Hs as ->. }
    assert (strict_eq v' v' = true) as -> by (destruct v'; try done; cbn; [by destruct b|apply Z.eqb_refl|apply eqs_refl]). done.
Qed.
