(* ===== verification/JsonPatchRfc.v ===== *)
(** * JSON patches and RFC 6902

    What RFC 6902 says of the operations, on values, and that the validated
    operations of the library do it along paths of plain names. *)

From stdpp Require Import strings sets.
From S2P Require Import Prelude JsObj Entities MdBase Json JsonPatch JsonPatchFacts.
Local Open Scope Z_scope.
Local Open Scope json_scope.

(** ** RFC 6902 *)

(** The value at a place *)
Fixpoint rfc_get (d : json) (ks : list str) : option json :=
  match ks with [] => Some d | k :: ks => v ← child d k; rfc_get v ks end.

(** A value with another one at a place in it *)
Definition put (d : json) (k : str) (v : json) : json :=
  match d with
  | JArr l => match array_index k with Some i => JArr (<[i := v]> l) | None => d end
  | JObj o => JObj (obj_set o k v)
  | _ => d
  end.

(** An edit [f] of what the last name is in *)
Fixpoint rfc_at (f : json -> str -> option json) (d : json) (ks : list str) : option json :=
  match ks with
  | [] => None
  | [k] => f d k
  | k :: ks => v ← child d k; v' ← rfc_at f v ks; Some (put d k v')
  end.

Lemma rfc_at_cons f d k k' ks : rfc_at f d (k :: k' :: ks) = (x ← child d k; y ← rfc_at f x (k' :: ks); Some (put d k y)).
Proof. done. Qed.

Definition rfc_add (v d : json) (k : str) : option json :=
  match d with
  | JObj o => Some (JObj (obj_set o k v))
  | JArr l =>
      if eqs k (# "-") then Some (JArr (l ++ [v]))
      else i ← array_index k; if (i <=? length l)%nat then Some (JArr (take i l ++ v :: drop i l)) else None
  | _ => None
  end.

Definition rfc_remove (d : json) (k : str) : option json :=
  _ ← child d k;
  match d with
  | JObj o => Some (JObj (obj_delete o k))
  | JArr l => i ← array_index k; Some (JArr (take i l ++ drop (S i) l))
  | _ => None
  end.

Definition rfc_replace (v d : json) (k : str) : option json := _ ← child d k; Some (put d k v).

Definition rfc_copy (fs : list str) (d : json) (ks : list str) : option json :=
  x ← rfc_get d fs; rfc_at (rfc_add x) d ks.

Definition rfc_move (fs : list str) (d : json) (ks : list str) : option json :=
  x ← rfc_get d fs; d' ← rfc_at rfc_remove d fs; rfc_at (rfc_add x) d' ks.

(** *** Paths *)

Definition pointer (ks : list str) : str := concat (map (cons 47) ks).

(** Components without escapes, not inherited, and with the digits of an index
    only if they are one *)
Definition plain (k : str) : bool :=
  negb (existsb (Z.eqb 47) k) && negb (existsb (Z.eqb 126) k) && negb (existsb (eqs k) object_names)
  && (negb (isInteger k) || match array_index k with Some i => Z.of_nat i <? 2 ^ 31 | None => false end).

(** The way of a path goes through arrays and objects, as far as it exists. *)
Fixpoint passes (d : json) (ks : list str) : bool :=
  match ks with
  | [] => false
  | [_] => container d
  | k :: ks => container d && match child d k with Some v => passes v ks | None => true end
  end.

Lemma plain_at qs k ks : forallb plain (qs ++ k :: ks) = true -> plain k = true.
Proof. rewrite forallb_app. cbn [forallb]. by intros [_ [H _]%andb_true_iff]%andb_true_iff. Qed.

Lemma split_pointer ks : forallb plain ks = true -> split 47 (pointer ks) = [] :: ks.
Proof.
  unfold pointer. induction ks as [|k ks IH]; [done|]. cbn [forallb map concat app split]. intros [Hk Hks]%andb_true_iff. rewrite Z.eqb_refl. f_equal.
  assert (~ In 47 k) as Hs by (apply existsb_absent; unfold plain in Hk; by destruct (existsb (Z.eqb 47) k)).
  destruct ks as [|k' ks]; [cbn; rewrite app_nil_r; by apply split_last|]. specialize (IH Hks). cbn [map concat app split] in *.
  rewrite Z.eqb_refl in IH. injection IH as IH. rewrite split_component by done. by rewrite IH.
Qed.

Lemma join_pointer ks : join_slash ([] :: ks) = pointer ks.
Proof.
  unfold pointer. destruct ks as [|k ks]; [done|]. revert k. induction ks as [|k' ks IH]; intros k; [cbn; by rewrite app_nil_r|].
  specialize (IH k'). cbn in *. injection IH as IH. by rewrite <- IH.
Qed.

Lemma plain_key k : plain k = true -> object_key k = k.
Proof.
  unfold plain, object_key. intros H. destruct (existsb (Z.eqb 126) k); [|done]. by rewrite andb_false_r in H.
Qed.

Lemma plain_own k : plain k = true -> existsb (eqs k) object_names = false.
Proof. unfold plain. intros H. destruct (existsb (eqs k) object_names); [|done]. by rewrite andb_false_r in H. Qed.

Lemma plain_index k : plain k = true -> isInteger k = true -> exists i, array_index k = Some i /\ Z.of_nat i < 2 ^ 31 /\ k = index_name i.
Proof.
  unfold plain. intros [_ H]%andb_true_iff Hi. rewrite Hi in H. cbn in H. destruct (array_index k) as [i|] eqn:E; [|done].
  apply Z.ltb_lt in H. exists i. split; [done|]. split; [done|]. by apply array_index_Some.
Qed.

(** *** Steps of the walk *)

Lemma child_prop d k v : json_wf d = true -> child d k = Some v -> get_prop d k = Value v.
Proof.
  intros Hw H. destruct d; try done; cbn [child] in H.
  - destruct (array_index k) as [i|] eqn:E; [|done]. cbn in H. apply array_index_Some in E as ->. pose proof (lookup_lt_Some _ _ _ H).
    pose proof (wf_length l Hw). unfold get_prop. by rewrite own_get_index, H by lia.
  - unfold get_prop. cbn [own_get]. by rewrite H.
Qed.

Lemma child_key r l k v : json_wf (JArr l) = true -> child (JArr l) k = Some v ->
  exists i, array_key r l k = Done (Index (Z.of_nat i)) /\ array_index k = Some i /\ l !! i = Some v.
Proof.
  intros Hw H. cbn [child] in H. destruct (array_index k) as [i|] eqn:E; [|done]. cbn in H. exists i. split; [|done].
  apply array_index_Some in E as ->. pose proof (lookup_lt_Some _ _ _ H). pose proof (wf_length l Hw). unfold array_key.
  rewrite index_name_not by done. by rewrite isInteger_index, tilde2_index by lia.
Qed.

Lemma put_same d k v : child d k = Some v -> put d k v = d.
Proof.
  destruct d; try done; cbn [child put]; [|intros H; by rewrite obj_set_same].
  destruct (array_index k) as [i|]; [|done]. cbn. intros H. by rewrite list_insert_id.
Qed.

(** A step to a value that exists asks nothing. *)
Lemma walk_child self r n e d b k rest v : json_wf d = true -> plain k = true -> child d k = Some v -> rest <> [] ->
  walk self r n e d b (k :: rest) false =
  let? x := walk self r n e v (b ++ [k]) rest false in Done (Effect (put d k (changed x)) (e_removed x) (e_test x) (got x)).
Proof.
  intros Hw Hp Hv Hr. pose proof (child_prop d k v Hw Hv) as Hg. pose proof (wf_child d k v Hw Hv) as Hwv. cbn [walk].
  destruct rest as [|g rest]; [done|]. assert ((if r then ask self n e d b k false false else Done false) = Done false) as ->.
  { destruct r; [|done]. unfold ask. rewrite Hg. by destruct v. }
  cbn [obind]. destruct d; try done.
  - destruct (child_key r l k v Hw Hv) as (i & -> & Hi & Hl). cbn [obind]. unfold enter_array. rewrite (get_index l i v Hl). cbn [obind put].
    rewrite Hi. rewrite (proj2 (Z.ltb_ge (Z.of_nat i) 0)) by lia. by rewrite Nat2Z.id.
  - cbn [child] in Hv. rewrite plain_key by done. unfold enter_object. rewrite Hg. cbn [take_read obind put]. by rewrite Hv.
Qed.

(** *** Operations that succeed *)

Definition place_op (kd : kind) (p : str) (v : json) : operation :=
  match kd with Add => add_op p v | Remove => remove_op p | _ => replace_op p v end.

Definition rfc_edit (kd : kind) (v : json) : json -> str -> option json :=
  match kd with Add => rfc_add v | Remove => rfc_remove | _ => rfc_replace v end.

Definition place_kind (kd : kind) : bool := match kd with Add | Remove | Replace => true | _ => false end.

(** What an operation reports as removed *)
Definition rfc_removed (kd : kind) (d : json) (ks : list str) : json :=
  match kd with Add => JUndef | _ => default JUndef (rfc_get d ks) end.

Lemma hasUndefined_wf v : json_wf v = true -> hasUndefined v = false.
Proof.
  induction v as [| | | | |l IH|o IH] using json_tree_ind; try done; cbn; intros [H _]%andb_true_iff.
  - induction IH as [|v l Hv _ IHl]; cbn in *; [done|]. apply andb_true_iff in H as [H1 H2]. by rewrite Hv, IHl.
  - induction IH as [|[k v] o Hv _ IHo]; cbn in *; [done|]. apply andb_true_iff in H as [[H1 _]%andb_true_iff H2]. by rewrite Hv, IHo.
Qed.

Lemma pointer_slash k ks : indexOf (pointer (k :: ks)) [47] 0 = 0.
Proof. done. Qed.

Lemma valid_place kd ks v : place_kind kd = true -> ks <> [] -> json_wf v = true -> valid_shape (place_op kd (pointer ks) v) = Done tt.
Proof.
  intros Hk Hks Hv. destruct ks as [|k ks]; [done|]. unfold valid_shape.
  destruct kd; try done; cbn [place_op add_op remove_op replace_op path op value from]; rewrite pointer_slash; cbn; rewrite ?wf_defined, ?hasUndefined_wf by done; done.
Qed.

Lemma validator_place self kd ks qs v e : place_kind kd = true -> ks <> [] -> json_wf v = true -> container e = true ->
  forallb plain ks = true -> forallb plain qs = true -> (length qs <= length ks)%nat -> (length qs = length ks -> qs = ks) ->
  validator self (place_op kd (pointer ks) v) e (pointer qs) =
  if bool_decide (length qs = length ks) || match kd with Add => bool_decide (S (length qs) = length ks) | _ => false end then Done tt
  else Fails (PatchError (match kd with Add => OPERATION_PATH_CANNOT_ADD | _ => OPERATION_PATH_UNRESOLVABLE end)).
Proof.
  intros Hk Hks Hv He Hp Hq Hle Heq. unfold validator. rewrite valid_place by done. cbn [obind].
  assert (truthy e = true) as -> by (by destruct e). cbn [negb].
  assert (eqs (pointer ks) (pointer qs) = bool_decide (length qs = length ks)) as Hptr.
  { destruct (eqs_spec (pointer ks) (pointer qs)) as [E|E].
    - apply (f_equal (split 47)) in E. rewrite !split_pointer in E by done. injection E as ->. by rewrite bool_decide_true.
    - rewrite bool_decide_false; [done|]. intros H. by rewrite Heq in E. }
  destruct kd; try done; cbn [place_op].
  - change (eqs (op (add_op (pointer ks) v)) (# "add")) with true. cbn [path add_op]. rewrite !split_pointer by done. cbn [length].
    destruct (Nat.eqb_spec (S (length ks)) (S (length qs) + 1)), (Nat.eqb_spec (S (length ks)) (S (length qs))); repeat case_bool_decide; by try lia.
  - change (eqs (op (remove_op (pointer ks))) (# "add")) with false. cbn [path remove_op]. rewrite Hptr. by case_bool_decide.
  - change (eqs (op (replace_op (pointer ks) v)) (# "add")) with false. cbn [path replace_op]. rewrite Hptr. by case_bool_decide.
Qed.

(** At the last component: whether it is there, for what the validator looks at *)
Definition present (d : json) (k : str) : bool := match get_prop d k with Value JUndef => false | _ => true end.

Lemma ask_last self n e d b k : container d = true ->
  ask self n e d b k true false = let? _ := validator self n e (if present d k then path n else join_slash b) in Done true.
Proof.
  intros Hc. assert (get_prop d k <> Nothing) as Hn by (destruct d; try done; unfold get_prop; (destruct (own_get _ _); [done|by destruct (inherited _ _)])).
  unfold ask, present. by destruct (get_prop d k) as [|[]|].
Qed.

Lemma present_object o k : json_wf (JObj o) = true -> plain k = true -> present (JObj o) k = bool_decide (is_Some (obj_get o k)).
Proof.
  intros Hw Hp. unfold present. destruct (obj_get o k) as [v|] eqn:E.
  - rewrite (child_prop (JObj o) k v) by done. rewrite bool_decide_true by done. pose proof (wf_child (JObj o) k v Hw E). by destruct v.
  - unfold get_prop. cbn [own_get]. rewrite E. unfold inherited. by rewrite plain_own.
Qed.

Lemma inherited_index l i : inherited (JArr l) (index_name i) = false.
Proof.
  unfold inherited. apply orb_false_iff. split; apply not_true_iff_false; rewrite existsb_exists; intros (s & Hs & E);
    destruct (eqs_spec (index_name i) s) as [<-|]; try done; pose proof (isInteger_index i) as Hi; 
    repeat (destruct Hs as [Hs|Hs]; [rewrite <- Hs in Hi; done|]); done.
Qed.

Lemma present_index l i : json_wf (JArr l) = true -> Z.of_nat i < 2 ^ 31 -> present (JArr l) (index_name i) = bool_decide (i < length l)%nat.
Proof.
  intros Hw Hi. unfold present, get_prop. rewrite own_get_index by done. destruct (l !! i) as [v|] eqn:E.
  - pose proof (wf_elem l i v Hw E). apply lookup_lt_Some in E. rewrite bool_decide_true by done. by destruct v.
  - apply lookup_ge_None in E. rewrite inherited_index. by rewrite bool_decide_false by lia.
Qed.

Definition is_add (kd : kind) : bool := match kd with Add => true | _ => false end.

Section place.
  Context (self : json -> operation -> bool -> outcome (result * json)) (kd : kind) (v e : json).
  Context (Hkd : place_kind kd = true) (Hv : json_wf v = true) (He : container e = true).
  Notation the_op ks := (place_op kd (pointer ks) v).

Lemma ask_place d ps k : container d = true -> forallb plain (ps ++ [k]) = true ->
  ask self (the_op (ps ++ [k])) e d ([] :: ps) k true false =
  if present d k || is_add kd then Done true else Fails (PatchError OPERATION_PATH_UNRESOLVABLE).
Proof.
  intros Hc Hp. rewrite ask_last by done. assert (path (the_op (ps ++ [k])) = pointer (ps ++ [k])) as -> by (by destruct kd).
  assert (ps ++ [k] <> []) as Hne by (by destruct ps). pose proof Hp as Hps. rewrite forallb_app in Hps. apply andb_true_iff in Hps as [Hps _].
  rewrite join_pointer. destruct (present d k); cbn [orb].
  - rewrite validator_place by done. by rewrite bool_decide_true.
  - assert (length (ps ++ [k]) = S (length ps)) as Hl by (rewrite length_app; cbn; lia).
    rewrite validator_place by (done || lia). rewrite Hl, bool_decide_false, bool_decide_true by lia. by destruct kd.
Qed.

Lemma handler_place {A} p (f : kind -> outcome A) : handler (place_op kd p v) f = f kd.
Proof. by destruct kd. Qed.

(** The handlers do the edit, where there is one. *)
Lemma object_leaf (r : bool) p o b k m o' : json_wf (JObj o) = true -> plain k = true ->
  (if r then ask self (place_op kd p v) e (JObj o) b k true false else Done false) = Done m -> rfc_edit kd v (JObj o) k = Some o' ->
  walk self r (place_op kd p v) e (JObj o) b [k] false = Done (Effect o' (rfc_removed kd (JObj o) [k]) None JUndef).
Proof.
  intros Hw Hp Hm Ho. cbn [walk]. rewrite Hm. cbn [obind]. rewrite plain_key, handler_place by done.
  assert (k <> # "__proto__") as Hk by (intros ->; by apply plain_own in Hp).
  unfold rfc_removed. destruct kd; try done; cbn [rfc_edit] in Ho; unfold rfc_add, rfc_remove, rfc_replace in Ho; cbn [child place_op value] in *; cbn [object_handler add_op replace_op value].
  - injection Ho as <-. rewrite set_own by (by left). done.
  - destruct (obj_get o k) as [x|] eqn:E; cbn [mbind option_bind] in Ho; [|done]. injection Ho as <-. rewrite (own_value o k x E). cbn. by rewrite E.
  - destruct (obj_get o k) as [x|] eqn:E; cbn [mbind option_bind] in Ho; [|done]. injection Ho as <-. rewrite (own_value o k x E). cbn [obind]. rewrite set_own by (by left). cbn. by rewrite E.
Qed.

Lemma array_leaf (r : bool) p l b k m d' : json_wf (JArr l) = true -> plain k = true ->
  (if r then ask self (place_op kd p v) e (JArr l) b k true false else Done false) = Done m -> rfc_edit kd v (JArr l) k = Some d' ->
  walk self r (place_op kd p v) e (JArr l) b [k] false = Done (Effect d' (rfc_removed kd (JArr l) [k]) None JUndef).
Proof.
  intros Hw Hp Hm Ho. cbn [walk]. rewrite Hm. cbn [obind].
  pose proof (wf_length l Hw) as Hlen. unfold rfc_removed. destruct kd; try done; cbn [rfc_edit] in Ho; unfold rfc_add, rfc_remove, rfc_replace in Ho; cbn [place_op].
  - unfold array_key. destruct (eqs_spec k (# "-")) as [->|Hk].
    + injection Ho as <-. cbn [obind]. rewrite Z.ltb_irrefl, andb_false_r, handler_add. cbn [array_handler value add_op].
      unfold splice_in. rewrite splice_start_index by lia. by rewrite take_ge, drop_ge by lia.
    + destruct (array_index k) as [i|] eqn:E; [|done]. cbn in Ho. destruct (Nat.leb_spec i (length l)); [|done]. injection Ho as <-.
      apply array_index_Some in E as ->. rewrite isInteger_index, tilde2_index by lia. cbn [obind].
      rewrite (proj2 (Z.ltb_ge _ _)), andb_false_r, handler_add by lia. cbn [array_handler value add_op].
      unfold splice_in. by rewrite splice_start_index by lia.
  - destruct (child (JArr l) k) as [x|] eqn:E; cbn [mbind option_bind] in Ho; [|done]. destruct (child_key r l k x Hw E) as (i & -> & Hi & Hl). rewrite Hi in Ho.
    injection Ho as <-. cbn [obind]. change (eqs (op (remove_op p)) (# "add")) with false. rewrite andb_false_r, handler_remove.
    cbn [array_handler rfc_get mbind option_bind andb]. rewrite E. unfold splice_out. apply lookup_lt_Some in Hl as Hlt.
    rewrite splice_start_index by lia. cbn. by rewrite Hl.
  - destruct (child (JArr l) k) as [x|] eqn:E; cbn [mbind option_bind] in Ho; [|done]. destruct (child_key r l k x Hw E) as (i & -> & Hi & Hl). cbn [put] in Ho.
    injection Ho as <-. cbn [obind put]. rewrite Hi. change (eqs (op (replace_op p v)) (# "add")) with false. rewrite andb_false_r, handler_replace.
    cbn [array_handler rfc_get mbind option_bind andb]. rewrite E, (get_index l i x Hl). cbn [obind set_elem]. apply lookup_lt_Some in Hl as Hlt.
    rewrite (proj2 (Z.ltb_ge _ 0)), (proj2 (Z.ltb_ge _ _)), (proj2 (Z.eqb_neq _ _)) by lia. cbn. by rewrite Nat2Z.id.
Qed.

Lemma present_child d k x : json_wf d = true -> child d k = Some x -> present d k = true.
Proof. intros Hw H. unfold present. rewrite (child_prop d k x Hw H). apply (wf_child d k x Hw) in H. by destruct x. Qed.

Lemma edit_present d k d' : json_wf d = true -> rfc_edit kd v d k = Some d' -> container d = true /\ present d k || is_add kd = true.
Proof.
  intros Hw H. destruct kd; try done; cbn [rfc_edit] in H.
  - rewrite orb_true_r. by destruct d.
  - unfold rfc_remove in H. destruct (child d k) as [x|] eqn:E; [|done]. rewrite (present_child d k x Hw E). by destruct d.
  - unfold rfc_replace in H. destruct (child d k) as [x|] eqn:E; [|done]. rewrite (present_child d k x Hw E). by destruct d.
Qed.

Lemma walk_done (r : bool) d qs ks d' : json_wf d = true -> forallb plain (qs ++ ks) = true -> rfc_at (rfc_edit kd v) d ks = Some d' ->
  walk self r (the_op (qs ++ ks)) e d ([] :: qs) ks false = Done (Effect d' (rfc_removed kd d ks) None JUndef).
Proof.
  revert d qs d'. induction ks as [|k ks IH]; intros d qs d' Hw Hp H; [done|].
  pose proof (plain_at _ _ _ Hp) as Hk.
  destruct ks as [|k' ks].
  - cbn [rfc_at] in H. destruct (edit_present d k d' Hw H) as [Hc Hpr].
    assert ((if r then ask self (the_op (qs ++ [k])) e d ([] :: qs) k true false else Done false) = Done r) as Hm.
    { destruct r; [|done]. by rewrite ask_place, Hpr. }
    destruct d; try done; [by apply (array_leaf r _ _ _ _ r)|by apply (object_leaf r _ _ _ _ r)].
  - rewrite rfc_at_cons in H.
    destruct (child d k) as [x|] eqn:E; [|done]. cbn [mbind option_bind] in H. destruct (rfc_at _ x _) as [y|] eqn:Ey; [|done]. injection H as <-.
    rewrite (walk_child self r _ e d _ k (k' :: ks) x) by done. assert (qs ++ k :: k' :: ks = (qs ++ [k]) ++ k' :: ks) as Hq by (by rewrite <- app_assoc).
    rewrite Hq in Hp |- *. change (([] :: qs) ++ [k]) with ([] :: qs ++ [k]).
    rewrite (IH x (qs ++ [k]) y) by (done || by apply (wf_child d k)). cbn [obind changed e_removed e_test got]. f_equal. f_equal.
    unfold rfc_removed. cbn [rfc_get]. by rewrite E.
Qed.

(** *** Operations that fail *)

Lemma array_index_digits k i : array_index k = Some i -> isInteger k = true.
Proof. unfold array_index, isInteger. by destruct (uint_of_str k). Qed.

Lemma leaf_fails d qs k : json_wf d = true -> container d = true -> forallb plain (qs ++ [k]) = true -> rfc_edit kd v d k = None ->
  exists c, walk self true (the_op (qs ++ [k])) e d ([] :: qs) [k] false = Fails (PatchError c).
Proof.
  intros Hw Hc Hp H. cbn [walk]. rewrite ask_place by done. destruct (present d k || is_add kd) eqn:Hpr; cbn [obind]; [|by eexists].
  pose proof (plain_at _ _ _ Hp) as Hk.
  destruct d as [| | | | |l|o]; try done.
  - unfold array_key. destruct (eqs_spec k (# "-")) as [->|Hd].
    { destruct kd; try done; by rewrite orb_false_r in Hpr. }
    destruct (isInteger k) eqn:Hi; [|by eexists]. destruct (plain_index k Hk Hi) as (i & Ei & Hlt & ->). cbn [obind andb].
    rewrite tilde2_index by done. destruct kd; try done; cbn [rfc_edit] in H; cbn [place_op].
    + unfold rfc_add in H. rewrite index_name_not, Ei in H by done. cbn in H. destruct (Nat.leb_spec i (length l)); [done|].
      rewrite (proj2 (Z.ltb_lt _ _)) by lia. by eexists.
    + rewrite orb_false_r, present_index in Hpr by done. apply bool_decide_eq_true in Hpr. destruct (lookup_lt_is_Some_2 l i Hpr) as [x Hx].
      unfold rfc_remove in H. cbn [child] in H. rewrite Ei in H. cbn in H. by rewrite Hx in H.
    + rewrite orb_false_r, present_index in Hpr by done. apply bool_decide_eq_true in Hpr. destruct (lookup_lt_is_Some_2 l i Hpr) as [x Hx].
      unfold rfc_replace in H. cbn [child] in H. rewrite Ei in H. cbn in H. by rewrite Hx in H.
  - rewrite present_object in Hpr by done. destruct kd; try done; rewrite orb_false_r in Hpr; apply bool_decide_eq_true in Hpr as [x Hx];
      cbn [rfc_edit] in H; unfold rfc_remove, rfc_replace in H; cbn [child] in H; by rewrite Hx in H.
Qed.

Lemma missing_fails d qs k k' ks : json_wf d = true -> container d = true -> forallb plain (qs ++ k :: k' :: ks) = true -> child d k = None ->
  exists c, walk self true (the_op (qs ++ k :: k' :: ks)) e d ([] :: qs) (k :: k' :: ks) false = Fails (PatchError c).
Proof.
  intros Hw Hc Hp E. cbn [walk]. pose proof Hp as Hps. rewrite forallb_app in Hps. cbn [forallb] in Hps. apply andb_true_iff in Hps as [Hqs [Hk _]%andb_true_iff].
  destruct (present d k) eqn:Hpr.
  - destruct d as [| | | | |l|o]; try done; [|rewrite present_object in Hpr by done; apply bool_decide_eq_true in Hpr as [y Hy]; cbn [child] in E; by rewrite Hy in E].
    assert (ask self (the_op (qs ++ k :: k' :: ks)) e (JArr l) ([] :: qs) k false false = Done false) as ->.
    { unfold ask. unfold present in Hpr. destruct (get_prop (JArr l) k) as [|[]|] eqn:Eg; try done.
      unfold get_prop in Eg. destruct (own_get _ _); [done|by destruct (inherited _ _)]. }
    cbn [obind]. unfold array_key. destruct (eqs_spec k (# "-")) as [->|]; [done|]. destruct (isInteger k) eqn:Hi; [|by eexists].
    destruct (plain_index k Hk Hi) as (i & Ei & Hlt & ->). rewrite present_index in Hpr by done. apply bool_decide_eq_true in Hpr.
    cbn [child] in E. rewrite Ei in E. cbn in E. apply lookup_ge_None in E. lia.
  - unfold ask. unfold present in Hpr. destruct (get_prop d k) as [|[]|]; try done.
    rewrite join_pointer, validator_place; [|done|by destruct qs|done|done|done|done|rewrite length_app; cbn; lia|rewrite length_app; cbn; lia].
    rewrite length_app. cbn [length]. rewrite !bool_decide_false by lia. destruct kd; try done; by eexists.
Qed.

Lemma walk_fails d qs ks : json_wf d = true -> passes d ks = true -> forallb plain (qs ++ ks) = true -> rfc_at (rfc_edit kd v) d ks = None ->
  exists c, walk self true (the_op (qs ++ ks)) e d ([] :: qs) ks false = Fails (PatchError c).
Proof.
  revert d qs. induction ks as [|k ks IH]; intros d qs Hw Hpa Hp H; [done|]. destruct ks as [|k' ks]; [by apply leaf_fails|].
  change (container d && match child d k with Some x => passes x (k' :: ks) | None => true end = true) in Hpa. apply andb_true_iff in Hpa as [Hc Hpa].
  rewrite rfc_at_cons in H.
  destruct (child d k) as [x|] eqn:E; [|by apply missing_fails]. cbn [mbind option_bind] in H. destruct (rfc_at _ x _) eqn:Ey; [done|].
  pose proof (plain_at _ _ _ Hp) as Hk.
  rewrite (walk_child self true _ e d _ k (k' :: ks) x) by done. assert (qs ++ k :: k' :: ks = (qs ++ [k]) ++ k' :: ks) as Hq by (by rewrite <- app_assoc).
  rewrite Hq in Hp |- *. change (([] :: qs) ++ [k]) with ([] :: qs ++ [k]).
  destruct (IH x (qs ++ [k]) (wf_child d k x Hw E) Hpa Hp Ey) as [c ->]. by exists c.
Qed.

End place.

(** *** Reading *)

Lemma validator_get self ks e : ks <> [] -> container e = true -> validator self (get_op (pointer ks)) e (pointer ks) = Done tt.
Proof.
  intros Hk He. destruct ks as [|k ks]; [done|]. unfold validator. assert (truthy e = true) as -> by (by destruct e).
  transitivity (if negb (eqs (pointer (k :: ks)) (pointer (k :: ks))) then Fails (PatchError OPERATION_PATH_UNRESOLVABLE) else Done tt); [done|].
  by rewrite eqs_refl.
Qed.

Lemma child_elem l k x : json_wf (JArr l) = true -> child (JArr l) k = Some x ->
  exists t, (forall r, array_key r l k = Done t) /\ take_read (get_elem l t) = Done x.
Proof.
  intros Hw H. destruct (child_key true l k x Hw H) as (i & _ & Hi & Hl). exists (Index (Z.of_nat i)). split; [|by apply get_index].
  intros r. by destruct (child_key r l k x Hw H) as (j & -> & [= <-]%(eq_trans (eq_sym Hi)) & _).
Qed.

Lemma walk_get self (r : bool) e d qs ks x : container e = true -> json_wf d = true -> forallb plain (qs ++ ks) = true -> ks <> [] -> rfc_get d ks = Some x ->
  walk self r (get_op (pointer (qs ++ ks))) e d ([] :: qs) ks false = Done (Effect d JUndef None x).
Proof.
  intros He. revert d qs. induction ks as [|k ks IH]; intros d qs Hw Hp Hne H; [done|]. cbn [rfc_get] in H.
  destruct (child d k) as [y|] eqn:E; [|done]. cbn [mbind option_bind] in H.
  pose proof (plain_at _ _ _ Hp) as Hk.
  destruct ks as [|k' ks].
  - injection H as <-. cbn [walk]. assert ((if r then ask self (get_op (pointer (qs ++ [k]))) e d ([] :: qs) k true false else Done false) = Done r) as ->.
    { destruct r; [|done]. rewrite ask_last, (present_child d k y) by (done || by destruct d). by rewrite validator_get by (done || by destruct qs). }
    cbn [obind]. destruct d as [| | | | |l|o]; try done.
    + destruct (child_elem l k y Hw E) as (t & -> & Ht). cbn [obind andb].
      change (eqs (op (get_op (pointer (qs ++ [k])))) (# "add")) with false. rewrite andb_false_r. cbn [andb].
      change (handler (get_op (pointer (qs ++ [k]))) ?f) with (f Get). cbn [array_handler]. by rewrite Ht.
    + rewrite plain_key by done. change (handler (get_op (pointer (qs ++ [k]))) ?f) with (f Get). cbn [object_handler]. by rewrite (own_value o k y).
  - rewrite (walk_child self r _ e d _ k (k' :: ks) y) by done. assert (qs ++ k :: k' :: ks = (qs ++ [k]) ++ k' :: ks) as Hq by (by rewrite <- app_assoc).
    rewrite Hq in Hp |- *. change (([] :: qs) ++ [k]) with ([] :: qs ++ [k]).
    rewrite (IH y (qs ++ [k])) by (done || by apply (wf_child d k)). cbn. by rewrite put_same.
Qed.

(** *** Whole operations *)

Lemma pointer_nonempty ks : ks <> [] -> exists s, pointer ks = 47 :: s.
Proof. destruct ks as [|k ks]; [done|]. intros _. by eexists. Qed.

Lemma match_path {A} (p : str) (a b : A) s : p = 47 :: s -> match p with [] => a | _ :: _ => b end = b.
Proof. by intros ->. Qed.

Lemma apply_get self (r : bool) d ks x : container d = true -> json_wf d = true -> forallb plain ks = true -> ks <> [] -> rfc_get d ks = Some x ->
  applyOperation_ self d (get_op (pointer ks)) r = Done (Result d JUndef None, x).
Proof.
  intros Hc Hw Hp Hne H. destruct (pointer_nonempty ks Hne) as [s Hs]. unfold applyOperation_.
  assert ((if r then valid_shape (get_op (pointer ks)) else Done tt) = Done tt) as -> by (destruct r; [rewrite Hs|]; done).
  cbn [obind]. change (path (get_op (pointer ks))) with (pointer ks). rewrite (match_path _ _ _ s Hs), split_pointer by done. cbn [take drop]. rewrite take_0, drop_0.
  pose proof (walk_get self r d d [] ks x Hc Hw Hp Hne H) as Hg. cbn [app] in Hg. by rewrite Hg.
Qed.

Lemma apply_place self kd v (r : bool) d ks : place_kind kd = true -> json_wf v = true -> container d = true -> forallb plain ks = true -> ks <> [] ->
  applyOperation_ self d (place_op kd (pointer ks) v) r =
  let? x := walk self r (place_op kd (pointer ks) v) d d [[]] ks false in
  match e_test x with Some false => Fails (PatchError TEST_OPERATION_FAILED) | _ => Done (Result (changed x) (e_removed x) (e_test x), got x) end.
Proof.
  intros Hk Hv Hc Hp Hne. destruct (pointer_nonempty ks Hne) as [s Hs]. unfold applyOperation_.
  assert ((if r then valid_shape (place_op kd (pointer ks) v) else Done tt) = Done tt) as -> by (destruct r; [by apply valid_place|done]).
  assert (path (place_op kd (pointer ks) v) = pointer ks) as -> by (by destruct kd). cbn [obind].
  rewrite (match_path _ _ _ s Hs), split_pointer by done. cbn [take drop]. rewrite take_0, drop_0. by destruct kd.
Qed.

Lemma apply_place_done self kd v (r : bool) d ks d' : place_kind kd = true -> json_wf v = true -> container d = true -> json_wf d = true ->
  forallb plain ks = true -> ks <> [] -> rfc_at (rfc_edit kd v) d ks = Some d' ->
  applyOperation_ self d (place_op kd (pointer ks) v) r = Done (Result d' (rfc_removed kd d ks) None, JUndef).
Proof.
  intros Hk Hv Hc Hw Hp Hne H. rewrite apply_place by done.
  pose proof (walk_done self kd v d Hk Hv Hc r d [] ks d' Hw Hp H) as Hd. cbn [app] in Hd. by rewrite Hd.
Qed.

(** Where the value can be put *)
Definition place (p : json) (k : str) : bool :=
  match p with JObj _ => true | JArr _ => eqs k (# "-") || isInteger k | _ => false end.

Fixpoint placed (d : json) (ks : list str) : bool :=
  match ks with
  | [] => false
  | [k] => place d k
  | k :: ks => match child d k with Some v => placed v ks | None => false end
  end.

Lemma add_placed x d ks d' : rfc_at (rfc_add x) d ks = Some d' -> placed d ks = true.
Proof.
  revert d d'. induction ks as [|k ks IH]; intros d d' H; [done|]. destruct ks as [|k' ks].
  - cbn [rfc_at] in H. unfold rfc_add in H. destruct d; try done. cbn [placed place]. destruct (eqs k (# "-")); [done|].
    destruct (array_index k) as [i|] eqn:E; cbn [mbind option_bind] in H; [|done]. by rewrite (array_index_digits k i E).
  - rewrite rfc_at_cons in H. change (match child d k with Some v => placed v (k' :: ks) | None => false end = true).
    destruct (child d k) as [y|]; [|done]. cbn [mbind option_bind] in H. destruct (rfc_at _ y _) eqn:E; [|done]. by apply (IH y j).
Qed.

(** move and copy change nothing themselves. *)
Definition pair_op (copy : bool) (ks fs : list str) : operation :=
  Op (if copy then # "copy" else # "move") (pointer ks) (Some (pointer fs)) JUndef.

Lemma validator_pair copy ks fs d x o : ks <> [] -> fs <> [] -> forallb plain fs = true -> container d = true -> json_wf d = true -> rfc_get d fs = Some x ->
  validator apply_one (pair_op copy ks fs) d o = Done tt.
Proof.
  intros Hks Hfs Hp Hc Hw H. destruct (pointer_nonempty ks Hks) as [s Hs]. unfold validator.
  assert (valid_shape (pair_op copy ks fs) = Done tt) as -> by (unfold pair_op; rewrite Hs; by destruct copy).
  assert (truthy d = true) as -> by (by destruct d).
  assert (validate_get apply_one (pointer fs) d = Done None) as Hv.
  { unfold validate_get, deepClone. rewrite json_copy_wf by done. unfold apply_one. by rewrite (apply_get _ true d fs x). }
  destruct copy; cbn [pair_op from default]; transitivity (let? l := validate_get apply_one (pointer fs) d in
    match l with Some OPERATION_PATH_UNRESOLVABLE => Fails (PatchError OPERATION_FROM_UNRESOLVABLE) | _ => Done tt end); try done; by rewrite Hv.
Qed.

Lemma array_key_plain r l k : plain k = true -> eqs k (# "-") || isInteger k = true -> exists i, array_key r l k = Done (Index i).
Proof. intros Hp H. unfold array_key. destruct (eqs k (# "-")); [by eexists|]. cbn in H. rewrite H. by eexists. Qed.

Lemma walk_pair copy ks fs e d qs us x : container e = true -> json_wf e = true -> ks <> [] -> fs <> [] -> forallb plain fs = true -> rfc_get e fs = Some x ->
  json_wf d = true -> forallb plain us = true -> placed d us = true ->
  exists y, walk apply_one true (pair_op copy ks fs) e d qs us false = Done y.
Proof.
  intros He Hwe Hks Hfs Hp Hx. revert d qs. induction us as [|k us IH]; intros d qs Hw Hu Hpl; [done|]. cbn [forallb] in Hu. apply andb_true_iff in Hu as [Hk Hu].
  destruct us as [|k' us].
  - cbn [placed] in Hpl. assert (container d = true) as Hc by (by destruct d). cbn [walk]. rewrite ask_last by done.
    rewrite (validator_pair copy ks fs e x) by done. cbn [obind]. destruct d as [| | | | |l|o]; try done.
    + destruct (array_key_plain true l k Hk Hpl) as [i ->]. cbn [obind]. destruct copy; by eexists.
    + destruct copy; by eexists.
  - change (match child d k with Some v => placed v (k' :: us) | None => false end = true) in Hpl. destruct (child d k) as [v|] eqn:E; [|done].
    rewrite (walk_child apply_one true _ e d _ k (k' :: us) v) by done.
    destruct (IH v (qs ++ [k]) (wf_child d k v Hw E) Hu Hpl) as [y ->]. by eexists.
Qed.

Lemma forallb_Forall {A} (f : A -> bool) l : forallb f l = true <-> Forall (fun x => f x = true) l.
Proof. rewrite forallb_forall, Forall_forall. by setoid_rewrite list_elem_of_In. Qed.

Lemma wf_put d k v x : json_wf d = true -> json_wf x = true -> child d k = Some v -> json_wf (put d k x) = true.
Proof.
  intros Hw Hx H. destruct d; try done; cbn [child put] in *.
  - destruct (array_index k) as [i|]; [|done]. cbn [json_wf] in *. rewrite length_insert. apply andb_true_iff in Hw as [H1 ->]. rewrite andb_true_r.
    apply forallb_Forall, Forall_insert; [by apply forallb_Forall|done].
  - pose proof (wf_nodup o Hw) as Hn. destruct (wf_get o k v Hw H) as [_ Hk]. cbn [json_wf] in *. apply andb_true_iff in Hw as [H1 _]. apply andb_true_iff. split.
    + rewrite forallb_forall in H1 |- *. intros [j y] Hj. assert (obj_wf (obj_set o k x)) as Hs by (by apply obj_set_wf).
      apply (obj_get_elem _ _ _ Hs) in Hj. rewrite obj_get_set in Hj. destruct (decide (j = k)) as [->|].
      * injection Hj as ->. cbn [fst snd]. rewrite Hx. by destruct (eqs_spec k (# "__proto__")).
      * apply H1. by apply obj_get_Some.
    + apply bool_decide_eq_true. by apply obj_set_wf.
Qed.

Lemma wf_remove d k d' : json_wf d = true -> rfc_remove d k = Some d' -> json_wf d' = true.
Proof.
  unfold rfc_remove. intros Hw. destruct (child d k) as [v|]; [|done]. cbn [mbind option_bind]. destruct d; try done.
  - destruct (array_index k) as [i|]; [|done]. intros [= <-]. cbn [json_wf] in *. apply andb_true_iff in Hw as [H1 H2]. apply andb_true_iff. split.
    + rewrite forallb_Forall in H1 |- *. apply Forall_app. split; [by apply Forall_take|by apply Forall_drop].
    + apply Z.ltb_lt in H2. apply Z.ltb_lt. rewrite length_app, length_take, length_drop. lia.
  - intros [= <-]. pose proof (wf_nodup o Hw) as Hn. cbn [json_wf] in *. apply andb_true_iff in Hw as [H1 _]. apply andb_true_iff. split.
    + rewrite forallb_forall in H1 |- *. intros [j y] Hj. apply H1. assert (obj_wf (obj_delete o k)) as Hs by (by apply obj_delete_wf).
      apply (obj_get_elem _ _ _ Hs) in Hj. rewrite obj_get_delete in Hj. destruct (decide (j = k)); [done|]. by apply obj_get_Some.
    + apply bool_decide_eq_true. by apply obj_delete_wf.
Qed.

Lemma wf_remove_at d ks d' : json_wf d = true -> rfc_at rfc_remove d ks = Some d' -> json_wf d' = true.
Proof.
  revert d d'. induction ks as [|k ks IH]; intros d d' Hw H; [done|]. destruct ks as [|k' ks]; [by apply (wf_remove d k)|].
  rewrite rfc_at_cons in H. destruct (child d k) as [x|] eqn:E; cbn [mbind option_bind] in H; [|done].
  destruct (rfc_at _ x _) as [y|] eqn:Ey; cbn [mbind option_bind] in H; [|done]. injection H as <-.
  apply (wf_put d k x); [done| |done]. by apply (IH x); [apply (wf_child d k)|].
Qed.

Lemma wf_rfc_get d ks x : json_wf d = true -> rfc_get d ks = Some x -> json_wf x = true.
Proof.
  revert d. induction ks as [|k ks IH]; intros d Hw H; [by injection H as <-|]. cbn [rfc_get] in H. destruct (child d k) as [y|] eqn:E; [|done].
  apply (IH y); [by apply (wf_child d k)|done].
Qed.

Lemma placed_container d ks : placed d ks = true -> container d = true /\ ks <> [].
Proof.
  destruct ks as [|k [|k' ks]]; [done|by destruct d|]. change (match child d k with Some v => placed v (k' :: ks) | None => false end = true -> container d = true /\ k :: k' :: ks <> []).
  by destruct d.
Qed.

Lemma passes_container d ks : passes d ks = true -> container d = true /\ ks <> [].
Proof. destruct ks as [|k [|k' ks]]; [done|by destruct d|]. cbn [passes]. by destruct d. Qed.

Lemma apply_here d n r s : path n = 47 :: s -> applyOperation d n r true = let? (x, _) := applyOperation_ apply_one d n r in Done x.
Proof. intros Hs. unfold applyOperation. by rewrite Hs. Qed.

Lemma pointer_get d ks x : container d = true -> json_wf d = true -> forallb plain ks = true -> ks <> [] -> rfc_get d ks = Some x ->
  getValueByPointer apply_one d (pointer ks) = Done x.
Proof.
  intros Hc Hw Hp Hne H. unfold getValueByPointer. destruct (pointer_nonempty ks Hne) as [s Hs]. rewrite (match_path _ _ _ s Hs).
  unfold apply_one. by rewrite (apply_get _ false d ks x).
Qed.

Lemma apply_copy d ks fs d' : json_wf d = true -> forallb plain ks = true -> forallb plain fs = true -> fs <> [] -> rfc_copy fs d ks = Some d' ->
  applyOperation d (pair_op true ks fs) true true = Done (Result d' JUndef None).
Proof.
  intros Hw Hp Hpf Hfs H. unfold rfc_copy in H. destruct (rfc_get d fs) as [x|] eqn:Hx; cbn [mbind option_bind] in H; [|done].
  pose proof (add_placed x d ks d' H) as Hpl. destruct (placed_container d ks Hpl) as [Hc Hks]. destruct (pointer_nonempty ks Hks) as [s Hs].
  pose proof (wf_rfc_get d fs x Hw Hx) as Hwx. rewrite (apply_here d (pair_op true ks fs) _ s Hs). unfold applyOperation_.
  assert (valid_shape (pair_op true ks fs) = Done tt) as -> by (unfold pair_op; by rewrite Hs). change (path (pair_op true ks fs)) with (pointer ks).
  cbn [obind]. rewrite (match_path _ _ _ s Hs), split_pointer by done. cbn [take drop]. rewrite take_0, drop_0.
  destruct (walk_pair true ks fs d d [[]] ks x) as [y ->]; [done..|]. change (obj_get kinds (op (pair_op true ks fs))) with (Some Copy). cbn [obind].
  unfold copy_handler. change (from_path (pair_op true ks fs)) with (pointer fs). rewrite (pointer_get d fs x) by done. cbn [obind].
  unfold deepClone. rewrite json_copy_wf by done. change (Op (# "add") (path (pair_op true ks fs)) None x) with (place_op Add (pointer ks) x).
  unfold apply_one. by rewrite (apply_place_done _ Add x false d ks d').
Qed.

(** Reading a place of a value, also where nothing is *)
Lemma walk_read self e d qs us p : json_wf d = true -> forallb plain us = true -> placed d us = true ->
  exists y, walk self false (get_op p) e d qs us false = Done y /\ e_test y = None.
Proof.
  revert d qs. induction us as [|k us IH]; intros d qs Hw Hu Hpl; [done|]. cbn [forallb] in Hu. apply andb_true_iff in Hu as [Hk Hu].
  destruct us as [|k' us].
  - cbn [placed] in Hpl. cbn [walk obind]. destruct d as [| | | | |l|o]; try done.
    + destruct (array_key_plain false l k Hk Hpl) as [i ->]. cbn [obind andb]. change (handler (get_op p) ?f) with (f Get). by eexists.
    + rewrite plain_key by done. change (handler (get_op p) ?f) with (f Get). cbn [object_handler]. unfold get_prop. cbn [own_get].
      destruct (obj_get o k); [by eexists|]. unfold inherited. rewrite plain_own by done. by eexists.
  - change (match child d k with Some v => placed v (k' :: us) | None => false end = true) in Hpl. destruct (child d k) as [v|] eqn:E; [|done].
    rewrite (walk_child self false _ e d _ k (k' :: us) v) by done.
    destruct (IH v (qs ++ [k]) (wf_child d k v Hw E) Hu Hpl) as (y & -> & Hy). by eexists.
Qed.

Lemma apply_move d ks fs d' : json_wf d = true -> forallb plain ks = true -> forallb plain fs = true -> fs <> [] -> placed d ks = true -> rfc_move fs d ks = Some d' ->
  exists r, applyOperation d (pair_op false ks fs) true true = Done (Result d' r None).
Proof.
  intros Hw Hp Hpf Hfs Hpl H. unfold rfc_move in H. destruct (rfc_get d fs) as [x|] eqn:Hx; cbn [mbind option_bind] in H; [|done].
  destruct (rfc_at rfc_remove d fs) as [d1|] eqn:Hd1; cbn [mbind option_bind] in H; [|done].
  destruct (placed_container d ks Hpl) as [Hc Hks]. destruct (pointer_nonempty ks Hks) as [s Hs]. destruct (pointer_nonempty fs Hfs) as [s' Hs'].
  pose proof (wf_rfc_get d fs x Hw Hx) as Hwx. pose proof (wf_remove_at d fs d1 Hw Hd1) as Hw1.
  destruct (placed_container d1 ks (add_placed x d1 ks d' H)) as [Hc1 _]. rewrite (apply_here d (pair_op false ks fs) _ s Hs). unfold applyOperation_.
  assert (valid_shape (pair_op false ks fs) = Done tt) as -> by (unfold pair_op; by rewrite Hs). change (path (pair_op false ks fs)) with (pointer ks).
  cbn [obind]. rewrite (match_path _ _ _ s Hs), split_pointer by done. cbn [take drop]. rewrite take_0, drop_0.
  destruct (walk_pair false ks fs d d [[]] ks x) as [y ->]; [done..|]. change (obj_get kinds (op (pair_op false ks fs))) with (Some Move). cbn [obind].
  unfold move_handler. change (from_path (pair_op false ks fs)) with (pointer fs). change (path (pair_op false ks fs)) with (pointer ks).
  assert (exists g, getValueByPointer apply_one d (pointer ks) = Done g) as [g ->].
  { unfold getValueByPointer. rewrite (match_path _ _ _ s Hs). unfold apply_one, applyOperation_. cbn [obind]. change (path (get_op (pointer ks))) with (pointer ks).
    rewrite (match_path _ _ _ s Hs), split_pointer by done. cbn [take drop]. rewrite take_0, drop_0.
    destruct (walk_read no_operation d d [[]] ks (pointer ks)) as (z & -> & Hz); [done..|]. change (obj_get kinds (op (get_op (pointer ks)))) with (Some Get).
    cbn [obind]. rewrite Hz. by eexists. }
  cbn [obind]. change (Op (# "remove") (pointer fs) None JUndef) with (place_op Remove (pointer fs) JNull).
  unfold apply_one at 1. rewrite (apply_place_done _ Remove JNull false d fs d1) by done. cbn [obind newDocument removed rfc_removed]. rewrite Hx. cbn [default].
  assert (eqs (pointer fs) [] = false) as -> by (by rewrite Hs').
  change (Op (# "add") (pointer ks) None x) with (place_op Add (pointer ks) x).
  unfold apply_one. rewrite (apply_place_done _ Add x false d1 ks d') by done. by eexists.
Qed.
