(* ===== verification/JsonPatchSpec.v ===== *)
(** * JSON patches: theorems

    The patch between two documents leads from one to the other; operations that
    are validated do what RFC 6902 says of them; and the comparison that the
    operation test makes.  The samples at the end show where the code does
    otherwise. *)

From stdpp Require Import strings sets.
From S2P Require Import Prelude JsObj Entities MdBase Json JsonPatch JsonPatchFacts JsonPatchRfc.
Local Open Scope Z_scope.
Local Open Scope json_scope.

(** ** The patch between two documents *)

(** C15: For two JSON documents (no undefined value, no name twice in an object,
    none of them __proto__, arrays shorter than 2^31) that are arrays or
    objects, and of which none has an array where the other has an object,
    [compare] gives a patch, and applying it to the first gives the second, up
    to the order of names.  The patch between equal documents is empty.  The
    mirror of an observed object is brought up to date by it. *)
Theorem patch_roundtrip (e t : json) :
  json_wf e = true -> json_wf t = true -> alike e t = true -> container e = true -> container t = true ->
  exists ns rs d, compare e t = Done ns /\ applyPatch e ns false true = Done (rs, d) /\ jeq d t /\ (jeq e t -> ns = []) /\ generate e t = Done (ns, d).
Proof.
  intros He Ht Ha Hc Hc'. destruct (generate_patches (S (height e)) e t) as (d & Hd & Hj); [lia|done..|by rewrite Hc, Hc'|].
  pose proof (edits_patch e (generate_ (S (height e)) e t []) (generate_edits _ _ _)) as Hp. rewrite Hd in Hp.
  destruct (applyPatch _ _ _ _) as [[rs d']|] eqn:E; [|done]. injection Hp as <-.
  exists (generate_ (S (height e)) e t []), rs, d. assert (compare e t = Done (generate_ (S (height e)) e t [])) as Hcmp by (by destruct e, t).
  repeat (split; [done|]). split; [intros H; by apply generate_same|]. unfold generate. rewrite Hcmp. cbn [obind].
  destruct (generate_ _ _ _ _) eqn:Eg; [by injection Hd as <-|]. by rewrite E.
Qed.

(** ** RFC 6902 *)

(** C16: On a JSON document (no undefined value, no name twice in an object,
    none of them __proto__, arrays shorter than 2^31) and along paths of plain
    names (without slash and tilde, not a name of Object.prototype, and numbers
    only as array indices below 2^31), validated operations are those of RFC
    6902.  Where the path is not empty and every prefix of it that leads to a
    value, other than the whole path, leads to an array or an object ([passes]),
    add, remove and replace with a JSON value give the document that it
    prescribes, or a JsonPatchError where it prescribes an error. copy and move
    from a path that is not empty give the document that it prescribes, where it
    does; for move, the path it moves to must be in place before the value is
    taken away ([placed]). *)
Theorem validated_rfc (d : json) (ks : list str) :
  json_wf d = true -> forallb plain ks = true ->
  (forall kd v, place_kind kd = true -> json_wf v = true -> passes d ks = true ->
    match rfc_at (rfc_edit kd v) d ks with
    | Some d' => applyOperation d (place_op kd (pointer ks) v) true true = Done (Result d' (rfc_removed kd d ks) None)
    | None => exists c, applyOperation d (place_op kd (pointer ks) v) true true = Fails (PatchError c)
    end) /\
  (forall fs d', forallb plain fs = true -> fs <> [] -> rfc_copy fs d ks = Some d' ->
    applyOperation d (pair_op true ks fs) true true = Done (Result d' JUndef None)) /\
  (forall fs d', forallb plain fs = true -> fs <> [] -> placed d ks = true -> rfc_move fs d ks = Some d' ->
    exists r, applyOperation d (pair_op false ks fs) true true = Done (Result d' r None)).
Proof.
  intros Hw Hp. split; [|split].
  - intros kd v Hk Hv Hpa. apply passes_container in Hpa as Hc. destruct Hc as [Hc Hne]. destruct (pointer_nonempty ks Hne) as [s Hs].
    rewrite (apply_here d (place_op kd (pointer ks) v) true s) by (by destruct kd).
    destruct (rfc_at (rfc_edit kd v) d ks) as [d'|] eqn:E.
    + by rewrite (apply_place_done apply_one kd v true d ks d').
    + rewrite apply_place by done. destruct (walk_fails apply_one kd v d Hk Hv Hc d [] ks Hw Hpa Hp E) as [c Hf]. cbn [app] in Hf.
      rewrite Hf. by exists c.
  - intros fs d' Hpf Hfs H. by apply apply_copy.
  - intros fs d' Hpf Hfs Hpl H. by apply apply_move.
Qed.

(** ** The comparison of the operation test *)

Fixpoint no_prototype (j : json) : bool :=
  match j with
  | JArr l => forallb no_prototype l
  | JObj o => forallb (fun p => no_prototype p.2 && negb (eqs p.1 (# "prototype"))) o
  | _ => true
  end.

Lemma no_prototype_get o : no_prototype (JObj o) = true -> prototype (JObj o) = JUndef.
Proof.
  intros H. unfold prototype. cbn [own_get]. destruct (obj_get o (# "prototype")) as [v|] eqn:E; [|done]. apply obj_get_Some in E.
  cbn [no_prototype] in H. rewrite forallb_forall in H. apply H in E. cbn [fst snd] in E. by rewrite eqs_refl, andb_false_r in E.
Qed.

Lemma deep_equal_scalar e t : container e = false -> deep_equal e t = true <-> jeq e t.
Proof.
  intros Hc. assert (deep_equal e t = strict_eq e t) as ->.
  { destruct e; try done; cbn [deep_equal]; destruct (strict_eq _ t); cbn [orb]; try done; destruct (container t); cbn; by rewrite ?andb_false_r. }
  split; [intros ->%strict_eq_scalar; done|]. intros H%jeq_shape.
  destruct e, t; cbn in *; try done; injection H as H; subst; [by destruct b0|apply Z.eqb_refl|apply eqs_refl].
Qed.

Lemma deep_equal_mixed e t : container e = true -> container t = false -> deep_equal e t = true <-> jeq e t.
Proof.
  intros He Ht. split; [|intros H%jeq_shape; by destruct e, t].
  assert (strict_eq e t = false) as Hs by (by destruct e, t). destruct e; try done; cbn [deep_equal]; rewrite Hs, Ht; cbn [orb container Bool.eqb]; by rewrite andb_false_r.
Qed.

(** The loop over the elements of an array *)
Lemma elements_equal t i l :
  (fix go i l := match l with [] => true | v :: l => deep_equal v (default JUndef (own_get t (index_name i))) && go (S i) l end) i l = true <->
  forall j v, l !! j = Some v -> deep_equal v (default JUndef (own_get t (index_name (i + j)))) = true.
Proof.
  revert i. induction l as [|x l IH]; intros i; [by split|]. rewrite andb_true_iff, IH. split.
  - intros [H1 H2] [|j] v Hj; cbn in Hj; [injection Hj as <-; by rewrite Nat.add_0_r|]. rewrite <- Nat.add_succ_comm. by apply H2.
  - intros H. split; [specialize (H 0%nat x eq_refl); by rewrite Nat.add_0_r in H|]. intros j v Hj. rewrite Nat.add_succ_comm. by apply (H (S j)).
Qed.

Lemma array_keys_equal l l' : sort_names (objectKeys (JArr l)) = sort_names (objectKeys (JArr l')) <-> length l = length l'.
Proof.
  rewrite sort_names_eq. cbn [objectKeys]. split; [|by intros ->]. intros H%Permutation_length. by rewrite !length_map, !length_seq in H.
Qed.

Lemma jeq_arrays l l' : json_wf (JArr l) = true -> json_wf (JArr l') = true ->
  jeq (JArr l) (JArr l') <-> length l = length l' /\ forall j v v', l !! j = Some v -> l' !! j = Some v' -> jeq v v'.
Proof.
  intros Hw Hw'. split.
  - intros H. pose proof (jeq_shape _ _ H) as Hl. injection Hl as Hl. split; [done|]. intros j v v' Hj Hj'.
    pose proof (jeq_child _ _ (index_name j) H) as Hc. cbn [child] in Hc. pose proof (lookup_lt_Some _ _ _ Hj). pose proof (wf_length l Hw).
    rewrite array_index_name in Hc by lia. cbn [mbind option_bind] in Hc. rewrite Hj, Hj' in Hc. by inversion Hc.
  - intros [Hl H]. apply jeq_arr, Forall2_same_length_lookup. split; [done|]. intros j v v'. by apply H.
Qed.

(** What the theorem says of the values inside *)
Definition equal_inside (v : json) : Prop := forall t, json_wf v = true -> json_wf t = true -> alike v t = true ->
  no_prototype v = true -> no_prototype t = true -> deep_equal v t = true <-> jeq v t.

Lemma deep_equal_array l l' : json_wf (JArr l) = true -> json_wf (JArr l') = true -> Forall equal_inside l ->
  alike (JArr l) (JArr l') = true -> no_prototype (JArr l) = true -> no_prototype (JArr l') = true ->
  deep_equal (JArr l) (JArr l') = true <-> jeq (JArr l) (JArr l').
Proof.
  intros Hw Hw' IH Ha Hn Hn'. rewrite jeq_arrays by done. cbn [deep_equal]. rewrite orb_false_l, !andb_true_iff, bool_decide_eq_true, array_keys_equal, elements_equal.
  assert (length l = length l' -> forall j v, l !! j = Some v -> exists v', l' !! j = Some v' /\
    default JUndef (own_get (JArr l') (index_name (0 + j))) = v' /\ (deep_equal v v' = true <-> jeq v v')) as Hval.
  { intros Hl j v Hj. pose proof (lookup_lt_Some _ _ _ Hj) as Hlt. pose proof (wf_length l Hw). destruct (lookup_lt_is_Some_2 l' j ltac:(lia)) as [v' Hj'].
    exists v'. split; [done|]. split; [cbn [Nat.add]; by rewrite own_get_index, Hj' by lia|]. rewrite Forall_forall in IH.
    cbn [no_prototype] in *. rewrite forallb_forall in Hn, Hn'. apply IH; [by eapply list_elem_of_lookup_2|by apply (wf_elem l j)|by apply (wf_elem l' j)|by apply (alike_elem l l' j)| |].
    - by eapply Hn, list_elem_of_In, list_elem_of_lookup_2.
    - by eapply Hn', list_elem_of_In, list_elem_of_lookup_2. }
  split.
  - intros [[[_ Hl] H] _]. split; [done|]. intros j v v' Hj Hj'. destruct (Hval Hl j v Hj) as (w & Hw1 & Hd & Hiff). rewrite Hj' in Hw1. injection Hw1 as <-.
    specialize (H j v Hj). rewrite Hd in H. by apply Hiff.
  - intros [Hl H]. split; [|done]. split; [split; [done|done]|]. intros j v Hj. destruct (Hval Hl j v Hj) as (w & Hw1 & -> & Hiff). apply Hiff. by apply (H j).
Qed.

Lemma object_keys_equal o o' : json_wf (JObj o) = true -> json_wf (JObj o') = true ->
  sort_names (objectKeys (JObj o)) = sort_names (objectKeys (JObj o')) <-> forall k, obj_get o k = None <-> obj_get o' k = None.
Proof.
  intros Hw Hw'. rewrite sort_names_eq. cbn [objectKeys]. rewrite !own_keys_perm. split.
  - intros H k. assert (obj_get o k <> None <-> obj_get o' k <> None) as Hk by (rewrite !obj_get_In; by split; apply Permutation_in).
    destruct (obj_get o k), (obj_get o' k); naive_solver.
  - intros H. apply NoDup_Permutation; [by apply wf_nodup..|]. intros k. rewrite !list_elem_of_In, <- !obj_get_In. by rewrite H.
Qed.

Lemma deep_equal_object o o' : json_wf (JObj o) = true -> json_wf (JObj o') = true -> Forall (fun p => equal_inside p.2) o ->
  alike (JObj o) (JObj o') = true -> no_prototype (JObj o) = true -> no_prototype (JObj o') = true ->
  deep_equal (JObj o) (JObj o') = true <-> jeq (JObj o) (JObj o').
Proof.
  intros Hw Hw' IH Ha Hn Hn'. cbn [deep_equal]. rewrite orb_false_l, !andb_true_iff, bool_decide_eq_true, object_keys_equal by done.
  rewrite !no_prototype_get by done. rewrite forallb_forall.
  assert (forall k v v', obj_get o k = Some v -> obj_get o' k = Some v' -> deep_equal v v' = true <-> jeq v v') as Hval.
  { intros k v v' Hk Hk'. rewrite Forall_forall in IH. pose proof (obj_get_Some o k v Hk) as Hin. pose proof (obj_get_Some o' k v' Hk') as Hin'.
    cbn [no_prototype] in *. rewrite forallb_forall in Hn, Hn'. apply Hn in Hin as Hp. apply Hn' in Hin' as Hp'. cbn [fst snd] in *.
    apply andb_true_iff in Hp as [Hp _]. apply andb_true_iff in Hp' as [Hp' _]. apply list_elem_of_In in Hin.
    apply (IH (k, v) Hin); [exact (proj1 (wf_get _ _ _ Hw Hk))|exact (proj1 (wf_get _ _ _ Hw' Hk'))|by apply (alike_get o o' k)|done..]. }
  split.
  - intros [[[_ Hks] H] _]. apply jeq_obj. intros k. specialize (Hks k). destruct (obj_get o k) as [v|] eqn:E, (obj_get o' k) as [v'|] eqn:E'.
    + constructor. apply (Hval k); [done..|]. specialize (H (k, v) (obj_get_Some _ _ _ E)). cbn [fst snd own_get] in H. by rewrite E' in H.
    + by destruct (proj2 Hks eq_refl).
    + by destruct (proj1 Hks eq_refl).
    + constructor.
  - intros H. split; [|done]. split; [split; [done|]|].
    + intros k. pose proof (jeq_child _ _ k H) as Hk. cbn [child] in Hk. by inversion Hk.
    + intros [k v] Hin. cbn [fst snd own_get]. pose proof (obj_get_elem o k v (wf_nodup o Hw) Hin) as Hk. pose proof (jeq_child _ _ k H) as Hc.
      cbn [child] in Hc. rewrite Hk in Hc. inversion Hc as [? v' Hj E1 E2|]. cbn [default]. by apply (Hval k).
Qed.

(** The comparison that test makes is equality up to the order of names, of
    documents without the name prototype that have no array where the other has
    an object. *)
Theorem deep_equal_correct (e t : json) :
  json_wf e = true -> json_wf t = true -> alike e t = true -> no_prototype e = true -> no_prototype t = true ->
  deep_equal e t = true <-> jeq e t.
Proof.
  revert t. induction e as [| | | | |l IH|o IH] using json_tree_ind; intros t He Ht Ha Hn Hn'; try by apply deep_equal_scalar.
  - destruct (container t) eqn:Hc; [|by apply deep_equal_mixed]. destruct t; try done. by apply deep_equal_array.
  - destruct (container t) eqn:Hc; [|by apply deep_equal_mixed]. destruct t; try done. by apply deep_equal_object.
Qed.

(** ** Witnesses and samples *)

Definition old_doc : json := JObj [(# "a", JArr [JNum 1; JNum 2; JObj [(# "x/~y", JStr (# "q"))]]); (# "b", JNull); (# "10", JBool true)].
Definition new_doc : json := JObj [(# "10", JBool false); (# "c", JStr []); (# "a", JArr [JNum 5; JNum 2; JObj [(# "x/~y", JStr (# "r"))]; JNum 4])].

Lemma patch_roundtrip_witness :
  exists ns rs d, compare old_doc new_doc = Done ns /\ applyPatch old_doc ns false true = Done (rs, d) /\ jeq d new_doc /\ length ns = 6%nat.
Proof.
  destruct (patch_roundtrip old_doc new_doc ltac:(vm_compute; reflexivity) ltac:(vm_compute; reflexivity) ltac:(vm_compute; reflexivity) eq_refl eq_refl)
    as (ns & rs & d & H1 & H2 & H3 & _).
  exists ns, rs, d. repeat (split; [assumption|]). vm_compute in H1. injection H1 as <-. reflexivity.
Defined.

Lemma validated_rfc_witness :
  applyOperation old_doc (place_op Add (pointer [# "a"; # "1"]) JNull) true true =
    Done (Result (JObj [(# "a", JArr [JNum 1; JNull; JNum 2; JObj [(# "x/~y", JStr (# "q"))]]); (# "b", JNull); (# "10", JBool true)]) JUndef None) /\
  exists r, applyOperation old_doc (pair_op false [# "a"; # "1"] [# "b"]) true true =
    Done (Result (JObj [(# "a", JArr [JNum 1; JNull; JNum 2; JObj [(# "x/~y", JStr (# "q"))]]); (# "10", JBool true)]) r None).
Proof.
  destruct (validated_rfc old_doc [# "a"; # "1"] ltac:(vm_compute; reflexivity) ltac:(vm_compute; reflexivity)) as (H1 & _ & H3). split.
  - exact (H1 Add JNull eq_refl eq_refl ltac:(vm_compute; reflexivity)).
  - refine (H3 [# "b"] _ ltac:(vm_compute; reflexivity) _ ltac:(vm_compute; reflexivity) _); [discriminate|]. vm_compute. reflexivity.
Defined.

Lemma deep_equal_correct_witness :
  deep_equal (JObj [(# "a", JNum 1); (# "b", JArr [JNull])]) (JObj [(# "b", JArr [JNull]); (# "a", JNum 1)]) = true /\
  jeq (JObj [(# "a", JNum 1); (# "b", JArr [JNull])]) (JObj [(# "b", JArr [JNull]); (# "a", JNum 1)]).
Proof.
  assert (deep_equal (JObj [(# "a", JNum 1); (# "b", JArr [JNull])]) (JObj [(# "b", JArr [JNull]); (# "a", JNum 1)]) = true) as E by (vm_compute; reflexivity).
  split; [exact E|]. revert E. apply deep_equal_correct; vm_compute; reflexivity.
Defined.

(** *** Where the code does otherwise *)

(** An array and an object at the same place are compared by their names. *)
Lemma array_object_no_patch : compare (JObj [(# "a", JArr [])]) (JObj [(# "a", JObj [])]) = Done [].
Proof. vm_compute. reflexivity. Qed.

Lemma array_object_tested : deep_equal (JArr [JNum 1]) (JObj [(# "0", JNum 1)]) = true.
Proof. vm_compute. reflexivity. Qed.

(** The validator looks for a component before its escapes are replaced. *)
Lemma escape_not_validated :
  applyOperation (JObj [(# "a/b", JNum 9)]) (remove_op (# "/a~1b")) true true = Fails (PatchError OPERATION_PATH_UNRESOLVABLE) /\
  applyOperation (JObj [(# "a/b", JNum 9)]) (remove_op (# "/a~1b")) false true = Done (Result (JObj []) (JNum 9) None).
Proof. vm_compute. done. Qed.

(** An index is taken modulo 2^32. *)
Lemma index_wraps : applyOperation (JArr [JNum 1; JNum 2]) (add_op (# "/4294967297") (JNum 9)) true true = Done (Result (JArr [JNum 1; JNum 9; JNum 2]) JUndef None).
Proof. vm_compute. reflexivity. Qed.

(** Adding to a number does nothing, adding to null throws a TypeError, and so
    does a test below a name that is missing. *)
Lemma add_to_scalar :
  applyOperation (JObj [(# "a", JNum 9)]) (add_op (# "/a/x") (JNum 1)) true true = Done (Result (JObj [(# "a", JNum 9)]) JUndef None) /\
  applyOperation (JObj [(# "a", JNull)]) (add_op (# "/a/x") (JNum 1)) true true = Fails TypeFault /\
  applyOperation (JObj [(# "a", JNull)]) (Op (# "test") (# "/b/x") None (JNum 1)) true true = Fails TypeFault.
Proof. vm_compute. done. Qed.

(** Objects with the name prototype are not equal to themselves. *)
Lemma prototype_differs :
  applyOperation (JObj [(# "prototype", JObj [])]) (Op (# "test") [] None (JObj [(# "prototype", JObj [])])) true true = Fails (PatchError TEST_OPERATION_FAILED).
Proof. vm_compute. reflexivity. Qed.

(** The place that a value is moved to is not validated; and the path is followed
    once in the document before the value is removed. *)
Lemma move_not_validated :
  applyOperation (JArr [JNum 1; JNum 2]) (pair_op false [# "7"] [# "0"]) true true = Done (Result (JArr [JNum 2; JNum 1]) JUndef None) /\
  rfc_move [# "0"] (JArr [JNum 1; JNum 2]) [# "7"] = None /\
  applyOperation (JArr [JNum 1; JArr []; JObj []]) (pair_op false [# "1"; # "b"] [# "0"]) true true = Fails (PatchError OPERATION_PATH_ILLEGAL_ARRAY_INDEX) /\
  rfc_move [# "0"] (JArr [JNum 1; JArr []; JObj []]) [# "1"; # "b"] = Some (JArr [JArr []; JObj [(# "b", JNum 1)]]).
Proof. vm_compute. done. Qed.

(** A name of an operation can be inherited, and so can a component of a path: the
    validator accepts both, and the operation leaves the document. *)
Lemma inherited_accepted :
  valid_shape (Op (# "toString") (# "/a") None JUndef) = Done tt /\
  applyOperation (JObj [(# "a", JNum 1)]) (Op (# "toString") (# "/a") None JUndef) true true = Fails Outside /\
  applyOperation (JObj [(# "a", JNum 1)]) (add_op (# "/__proto__/x") (JNum 1)) true true = Fails Outside.
Proof. vm_compute. done. Qed.

(** A from that is no pointer passes: the error of its validation is dropped, and
    the property named undefined is moved. *)
Lemma from_not_validated :
  applyOperation (JObj [(# "undefined", JNum 1)]) (Op (# "move") (# "/b") (Some (# "x")) JUndef) true true = Done (Result (JObj [(# "b", JNum 1)]) JUndef None).
Proof. vm_compute. reflexivity. Qed.
