(* ===== verification/Redux.v ===== *)
(** * Redux

    Modules 271, 275 and 560 to 562 of swagger-ui-bundle.js: the store of
    [createStore], [combineReducers], [bindActionCreators], [applyMiddleware] and
    [compose].

    The arrays of listeners are shared: [dispatch] iterates over an array that
    [subscribe] can copy but must not change.  They are kept in a heap and named
    by reference.  Reducers and listeners are other code: programs that call the
    store in any way, also while it dispatches, keep a memory of their own, and
    throw or catch. *)

From stdpp Require Import strings.
From S2P Require Import Prelude JsObj Entities MdBase.
Local Open Scope nat_scope.

(** The names of functions that other code passes to the store *)
Notation fid := nat.

Section types.
  Context (State Body World : Type).

(** An action: whether it is a plain object, its type if it has one, the rest *)
Record action := Action { isPlain : bool; type : option str; body : option Body }.

(** What a program can do to the store, and to its memory.  A function that is
    passed can also be something else, [None]. *)
Inductive call :=
| Dispatch (a : action)
| Subscribe (f : option fid)
| Unsubscribe (handle : nat)
| GetState
| ReplaceReducer (f : option fid)
| Load
| Save (w : World).

Inductive answer :=
| Unit
| TheAction (a : action)
| Handle (h : nat)
| TheState (s : State)
| TheWorld (w : World).

Inductive prog (R : Type) :=
| Return (r : R)
| Raise_ (e : error)
| Do (c : call) (k : js answer -> prog R).

(** The store: its reducer and state, the arrays of listeners, currentListeners
    and nextListeners, isDispatching; for each subscription the listener and
    whether it is still subscribed; the memory of the programs *)
Record store := Store {
  currentReducer : fid;
  currentState : State;
  heap : list (list fid);
  currentListeners : nat;
  nextListeners : nat;
  isDispatching : bool;
  subscriptions : list (fid * bool);
  world : World
}.

(** A listener that was called, with the calls below it *)
Inductive event :=
| Called (f : fid) (below : list event).
End types.

Arguments Action {Body}.
Arguments isPlain {Body}.
Arguments type {Body}.
Arguments body {Body}.
Arguments Dispatch {Body World}.
Arguments Subscribe {Body World}.
Arguments Unsubscribe {Body World}.
Arguments GetState {Body World}.
Arguments ReplaceReducer {Body World}.
Arguments Load {Body World}.
Arguments Save {Body World}.
Arguments Unit {State Body World}.
Arguments TheAction {State Body World}.
Arguments Handle {State Body World}.
Arguments TheState {State Body World}.
Arguments TheWorld {State Body World}.
Arguments Return {State Body World R}.
Arguments Raise_ {State Body World R}.
Arguments Do {State Body World R}.
Arguments Store {State World}.
Arguments currentReducer {State World}.
Arguments currentState {State World}.
Arguments heap {State World}.
Arguments currentListeners {State World}.
Arguments nextListeners {State World}.
Arguments isDispatching {State World}.
Arguments subscriptions {State World}.
Arguments world {State World}.

(** ** The store *)

Section createStore.
  Context {State Body World : Type}.
  Notation store := (store State World).
  Notation prog := (prog State Body World).
  Notation answer := (answer State Body World).
  Notation action := (action Body).
  Implicit Types (s : store) (a : action).

  (** What the functions of other code do *)
  Context (reducer : fid -> State -> action -> prog State) (listener : fid -> prog unit).

Definition INIT : action := Action true (Some (ascii_units "@@redux/INIT")) None.

Definition set_lists (h : list (list fid)) (c n : nat) s : store :=
  Store (currentReducer s) (currentState s) h c n (isDispatching s) (subscriptions s) (world s).
Definition set_busy (b : bool) s : store :=
  Store (currentReducer s) (currentState s) (heap s) (currentListeners s) (nextListeners s) b (subscriptions s) (world s).
Definition set_state (x : State) s : store :=
  Store (currentReducer s) x (heap s) (currentListeners s) (nextListeners s) (isDispatching s) (subscriptions s) (world s).
Definition set_reducer (f : fid) s : store :=
  Store f (currentState s) (heap s) (currentListeners s) (nextListeners s) (isDispatching s) (subscriptions s) (world s).
Definition set_subscriptions (l : list (fid * bool)) s : store :=
  Store (currentReducer s) (currentState s) (heap s) (currentListeners s) (nextListeners s) (isDispatching s) l (world s).
Definition set_world (w : World) s : store :=
  Store (currentReducer s) (currentState s) (heap s) (currentListeners s) (nextListeners s) (isDispatching s) (subscriptions s) w.

(** The array of a reference *)
Definition array s (r : nat) : list fid := default [] (heap s !! r).

(** [d]: f === c && (f = c.slice()) *)
Definition ensureCanMutateNextListeners s : store :=
  if nextListeners s =? currentListeners s
  then set_lists (heap s ++ [array s (currentListeners s)]) (currentListeners s) (length (heap s)) s
  else s.

Definition update_next (g : list fid -> list fid) s : store :=
  set_lists (<[nextListeners s := g (array s (nextListeners s))]> (heap s)) (currentListeners s) (nextListeners s) s.

Definition subscribe (f : option fid) s : js answer * store :=
  match f with
  | None => (Throw Error_, s)
  | Some f =>
      let s := update_next (fun l => l ++ [f]) (ensureCanMutateNextListeners s) in
      (Ok (Handle (length (subscriptions s))), set_subscriptions (subscriptions s ++ [(f, true)]) s)
  end.

(** [l.splice(l.indexOf(f), 1)]: a function that is not there has index -1, which
    is that of the last element. *)
Fixpoint index_of (f : fid) (l : list fid) : option nat :=
  match l with
  | [] => None
  | x :: l => if x =? f then Some 0 else option_map S (index_of f l)
  end.

Definition splice_listener (f : fid) (l : list fid) : list fid :=
  let n := match index_of f l with Some n => n | None => length l - 1 end in
  take n l ++ drop (S n) l.

(** The function that [subscribe] returns *)
Definition unsubscribe (h : nat) s : store :=
  match subscriptions s !! h with
  | Some (f, true) =>
      let s := set_subscriptions (<[h := (f, false)]> (subscriptions s)) s in
      update_next (splice_listener f) (ensureCanMutateNextListeners s)
  | _ => s
  end.

(** Runs of programs.  The fuel bounds the depth of calls, and the turns of a
    loop; a run ends with a value or an error, the store, and the listeners that
    were called. *)
Definition run_type : Type := forall R, prog R -> store -> option (js R * store * list event).

(** The loop over the listeners: its bound is read in each turn. *)
Fixpoint notify (rec : run_type) (fuel : nat) (t n : nat) s : option (js unit * store * list event) :=
  match fuel with
  | O => None
  | S fuel =>
      match array s t !! n with
      | None => Some (Ok tt, s, [])
      | Some o =>
          match rec unit (listener o) s with
          | None => None
          | Some (Throw e, s, tr) => Some (Throw e, s, [Called o tr])
          | Some (Ok _, s, tr) =>
              match notify rec fuel t (S n) s with
              | None => None
              | Some (r, s, tr') => Some (r, s, Called o tr :: tr')
              end
          end
      end
  end.

Definition dispatch (rec : run_type) (fuel : nat) a s : option (js answer * store * list event) :=
  if negb (isPlain a) then Some (Throw Error_, s, [])
  else if match type a with None => true | Some _ => false end then Some (Throw Error_, s, [])
  else if isDispatching s then Some (Throw Error_, s, [])
  else
    match rec State (reducer (currentReducer s) (currentState s) a) (set_busy true s) with
    | None => None
    | Some (Throw e, s, tr) => Some (Throw e, set_busy false s, tr)
    | Some (Ok x, s, tr) =>
        let s := set_busy false (set_state x s) in
        let s := set_lists (heap s) (nextListeners s) (nextListeners s) s in
        match notify rec fuel (currentListeners s) 0 s with
        | None => None
        | Some (Throw e, s, tr') => Some (Throw e, s, tr ++ tr')
        | Some (Ok _, s, tr') => Some (Ok (TheAction a), s, tr ++ tr')
        end
    end.

Definition exec (rec : run_type) (fuel : nat) (c : call Body World) s : option (js answer * store * list event) :=
  match c with
  | Dispatch a => dispatch rec fuel a s
  | Subscribe f => let '(r, s) := subscribe f s in Some (r, s, [])
  | Unsubscribe h => Some (Ok Unit, unsubscribe h s, [])
  | GetState => Some (Ok (TheState (currentState s)), s, [])
  | ReplaceReducer None => Some (Throw Error_, s, [])
  | ReplaceReducer (Some f) =>
      match dispatch rec fuel INIT (set_reducer f s) with
      | None => None
      | Some (Throw e, s, tr) => Some (Throw e, s, tr)
      | Some (Ok _, s, tr) => Some (Ok Unit, s, tr)
      end
  | Load => Some (Ok (TheWorld (world s)), s, [])
  | Save w => Some (Ok Unit, set_world w s, [])
  end.

Fixpoint run_prog (ex : call Body World -> store -> option (js answer * store * list event)) {R} (p : prog R) s : option (js R * store * list event) :=
  match p with
  | Return r => Some (Ok r, s, [])
  | Raise_ e => Some (Throw e, s, [])
  | Do c k =>
      match ex c s with
      | None => None
      | Some (x, s, tr) =>
          match run_prog ex (k x) s with
          | None => None
          | Some (r, s, tr') => Some (r, s, tr ++ tr')
          end
      end
  end.

Fixpoint run (fuel : nat) : run_type :=
  match fuel with
  | O => fun _ _ _ => None
  | S fuel => fun R p s => run_prog (exec (run fuel) fuel) p s
  end.

(** [createStore] with a reducer and a state, and without an enhancer, which would
    be called instead *)
Definition createStore (fuel : nat) (t : option fid) (n : State) (w : World) : option (js store * list event) :=
  match t with
  | None => Some (Throw Error_, [])
  | Some t =>
      match dispatch (run fuel) fuel INIT (Store t n [[]] 0 0 false [] w) with
      | None => None
      | Some (Throw e, _, tr) => Some (Throw e, tr)
      | Some (Ok _, s, tr) => Some (Ok s, tr)
      end
  end.
End createStore.

(** ** Combined reducers *)

Section combineReducers.
  Context {V Body : Type}.

  (** undefined and the test for it; [===], which NaN does not have with itself;
      what objects inherit under a name; and the action with a type that no reducer
      knows *)
  Context (undefined : V) (isUndefined : V -> bool) (same : V -> V -> bool) (inherits : str -> V) (PROBE : action Body).
  Notation reducer := (V -> action Body -> js V).

(** The state that a combined reducer gets *)
Inductive reducerState : Type := Absent | Null | Members (e : list (str * V)).

(** [e[l]] *)
Definition member (e : list (str * V)) (l : str) : V := default (inherits l) (obj_get e l).

(** The members of the argument that are functions.  The one with the name
    __proto__ becomes the prototype of the object they are put in, and is not one
    of its names. *)
Fixpoint finalReducers (e : list (str * option reducer)) : list (str * reducer) :=
  match e with
  | [] => []
  | (a, Some f) :: e => if eqs a (ascii_units "__proto__") then finalReducers e else (a, f) :: finalReducers e
  | (_, None) :: e => finalReducers e
  end.

(** The function that probes the reducers: the error it ends with *)
Fixpoint assertReducerShape (e : list (str * reducer)) : option error :=
  match e with
  | [] => None
  | (t, n) :: e =>
      match n undefined INIT with
      | Throw x => Some x
      | Ok o =>
          if isUndefined o then Some Error_
          else
            match n undefined PROBE with
            | Throw x => Some x
            | Ok o => if isUndefined o then Some Error_ else assertReducerShape e
            end
      end
  end.

(** The loop: whether a member has changed, and the new members; [None] is null,
    which has none *)
Fixpoint combination_loop (rs : list (str * reducer)) (e : option (list (str * V))) (t : action Body) (r : bool) (i : list (str * V)) : js (bool * list (str * V)) :=
  match rs with
  | [] => Ok (r, i)
  | (l, c) :: rs =>
      match e with
      | None => Throw TypeError
      | Some m =>
          match c (member m l) t with
          | Throw x => Throw x
          | Ok p =>
              if isUndefined p then Throw Error_
              else combination_loop rs e t (r || negb (same p (member m l))) (obj_set i l p)
          end
      end
  end.

(** The reducer that [combineReducers] returns, on a state, which is {} if it is
    undefined: a new object, or [None] for the state itself *)
Definition combination (rs : list (str * option reducer)) (e : reducerState) (t : action Body) : js (option (list (str * V))) :=
  let rs := finalReducers rs in
  let e := match e with Absent => Some [] | Null => None | Members m => Some m end in
  match assertReducerShape rs with
  | Some x => Throw x
  | None =>
      match combination_loop rs e t false [] with
      | Throw x => Throw x
      | Ok (r, i) => Ok (if r then Some i else None)
      end
  end.
End combineReducers.
Arguments reducerState : clear implicits.
Arguments Absent {V}.
Arguments Null {V}.
Arguments Members {V} e.

(** ** Functions around dispatch *)

Section middleware.
  Context {A R : Type}.

(** [compose] of functions of one argument *)
Definition compose {X : Type} (t : list (X -> X)) : X -> X :=
  match t with
  | [] => fun x => x
  | [f] => f
  | f :: t => fold_left (fun e t x => e (t x)) t f
  end.

(** [applyMiddleware]: the dispatch of the store it makes.  What the middleware
    gets as dispatch calls the whole chain again; the fuel bounds how often. *)
Fixpoint applyMiddleware (fuel : nat) (t : list ((A -> option R) -> (A -> option R) -> A -> option R)) (dispatch : A -> option R) : A -> option R :=
  match fuel with
  | O => fun _ => None
  | S fuel => compose (map (fun e => e (applyMiddleware fuel t dispatch)) t) dispatch
  end.

(** [bindActionCreators] of a function, and of an object with functions *)
Definition bindActionCreator {Args} (e : Args -> A) (t : A -> option R) : Args -> option R := fun args => t (e args).

Fixpoint bindActionCreators {Args} (e : list (str * option (Args -> A))) (t : A -> option R) : list (str * (Args -> option R)) :=
  match e with
  | [] => []
  | (a, Some u) :: e => (a, bindActionCreator u t) :: bindActionCreators e t
  | (_, None) :: e => bindActionCreators e t
  end.
End middleware.
