(* ===== verification/ReduxFacts.v ===== *)
(** * Redux: theorems

    The store with its shared arrays refines one with a list of listeners, of
    which a dispatch takes a copy; dispatching ends where the programs dispatch
    nothing themselves; and what combined reducers compute. *)

From stdpp Require Import strings.
From S2P Require Import Prelude JsObj Entities MdBase Redux.
Local Open Scope nat_scope.
Local Notation "'#' s" := (ascii_units s%string) (at level 0, s at level 0).

(** ** A store with a list of listeners *)

Section spec.
  Context {State Body World : Type}.
  Notation store := (store State World).
  Notation prog := (prog State Body World).
  Notation answer := (answer State Body World).
  Notation action := (action Body).
  Context (reducer : fid -> State -> action -> prog State) (listener : fid -> prog unit).

Record spec := Spec {
  s_reducer : fid;
  s_state : State;
  s_listeners : list fid;
  s_busy : bool;
  s_subs : list (fid * bool);
  s_world : World
}.
Implicit Types (a : spec) (s : store).

(** Removing the first subscription of a function *)
Fixpoint remove_first (f : fid) (l : list fid) : list fid :=
  match l with [] => [] | x :: l => if x =? f then l else x :: remove_first f l end.

Definition spec_subscribe (f : option fid) a : js answer * spec :=
  match f with
  | None => (Throw Error_, a)
  | Some f => (Ok (Handle (length (s_subs a))),
      Spec (s_reducer a) (s_state a) (s_listeners a ++ [f]) (s_busy a) (s_subs a ++ [(f, true)]) (s_world a))
  end.

Definition spec_unsubscribe (h : nat) a : spec :=
  match s_subs a !! h with
  | Some (f, true) => Spec (s_reducer a) (s_state a) (remove_first f (s_listeners a)) (s_busy a) (<[h := (f, false)]> (s_subs a)) (s_world a)
  | _ => a
  end.

Definition spec_type : Type := forall R, prog R -> spec -> option (js R * spec * list event).

(** The listeners of a copy are called in their order, whatever they do. *)
Fixpoint spec_notify (rec : spec_type) (fuel : nat) (l : list fid) a : option (js unit * spec * list event) :=
  match fuel with
  | O => None
  | S fuel =>
      match l with
      | [] => Some (Ok tt, a, [])
      | o :: l =>
          match rec unit (listener o) a with
          | None => None
          | Some (Throw e, a, tr) => Some (Throw e, a, [Called o tr])
          | Some (Ok _, a, tr) =>
              match spec_notify rec fuel l a with
              | None => None
              | Some (r, a, tr') => Some (r, a, Called o tr :: tr')
              end
          end
      end
  end.

Definition with_busy (b : bool) a : spec := Spec (s_reducer a) (s_state a) (s_listeners a) b (s_subs a) (s_world a).
Definition with_state (x : State) a : spec := Spec (s_reducer a) x (s_listeners a) (s_busy a) (s_subs a) (s_world a).
Definition with_reducer (f : fid) a : spec := Spec f (s_state a) (s_listeners a) (s_busy a) (s_subs a) (s_world a).
Definition with_world (w : World) a : spec := Spec (s_reducer a) (s_state a) (s_listeners a) (s_busy a) (s_subs a) w.

Definition spec_dispatch (rec : spec_type) (fuel : nat) (x : action) a : option (js answer * spec * list event) :=
  if negb (isPlain x) || (if type x then false else true) || s_busy a then Some (Throw Error_, a, [])
  else
    match rec State (reducer (s_reducer a) (s_state a) x) (with_busy true a) with
    | None => None
    | Some (Throw e, a, tr) => Some (Throw e, with_busy false a, tr)
    | Some (Ok y, a, tr) =>
        match spec_notify rec fuel (s_listeners a) (with_busy false (with_state y a)) with
        | None => None
        | Some (Throw e, a, tr') => Some (Throw e, a, tr ++ tr')
        | Some (Ok _, a, tr') => Some (Ok (TheAction x), a, tr ++ tr')
        end
    end.

Definition spec_exec (rec : spec_type) (fuel : nat) (c : call Body World) a : option (js answer * spec * list event) :=
  match c with
  | Dispatch x => spec_dispatch rec fuel x a
  | Subscribe f => let '(r, a) := spec_subscribe f a in Some (r, a, [])
  | Unsubscribe h => Some (Ok Unit, spec_unsubscribe h a, [])
  | GetState => Some (Ok (TheState (s_state a)), a, [])
  | ReplaceReducer None => Some (Throw Error_, a, [])
  | ReplaceReducer (Some f) =>
      match spec_dispatch rec fuel INIT (with_reducer f a) with
      | None => None
      | Some (Throw e, a, tr) => Some (Throw e, a, tr)
      | Some (Ok _, a, tr) => Some (Ok Unit, a, tr)
      end
  | Load => Some (Ok (TheWorld (s_world a)), a, [])
  | Save w => Some (Ok Unit, with_world w a, [])
  end.

Fixpoint spec_prog (ex : call Body World -> spec -> option (js answer * spec * list event)) {R} (p : prog R) a : option (js R * spec * list event) :=
  match p with
  | Return r => Some (Ok r, a, [])
  | Raise_ e => Some (Throw e, a, [])
  | Do c k =>
      match ex c a with
      | None => None
      | Some (x, a, tr) =>
          match spec_prog ex (k x) a with
          | None => None
          | Some (r, a, tr') => Some (r, a, tr ++ tr')
          end
      end
  end.

Fixpoint spec_run (fuel : nat) : spec_type :=
  match fuel with
  | O => fun _ _ _ => None
  | S fuel => fun R p a => spec_prog (spec_exec (spec_run fuel) fuel) p a
  end.

(** ** The relation *)

Definition live (f : fid) (l : list (fid * bool)) : nat := length (List.filter (fun p => (p.1 =? f) && p.2) l).

Definition occurrences (f : fid) (l : list fid) : nat := length (List.filter (Nat.eqb f) l).

(** The store stands for [a]: the next listeners are its listeners, and a function
    is there as often as it is subscribed. *)
Record models s a : Prop := Models {
  m_reducer : currentReducer s = s_reducer a;
  m_state : currentState s = s_state a;
  m_busy : isDispatching s = s_busy a;
  m_subs : subscriptions s = s_subs a;
  m_world : world s = s_world a;
  m_listeners : array s (nextListeners s) = s_listeners a;
  m_current : currentListeners s < length (heap s);
  m_next : nextListeners s < length (heap s);
  m_count f : occurrences f (s_listeners a) = live f (s_subs a)
}.

(** An array that is not changed any more: it is not the next one, or that one is
    copied first. *)
Definition frozen s (t : nat) : Prop := t < length (heap s) /\ (t = nextListeners s -> nextListeners s = currentListeners s).

Definition keeps s s' : Prop := forall t, frozen s t -> frozen s' t /\ array s' t = array s t.

#[local] Instance keeps_preorder : PreOrder keeps.
Proof. split; [done|]. intros s s' s'' H H' t Ht. destruct (H t Ht) as [Hf E]. destruct (H' t Hf) as [Hf' E']. split; [done|congruence]. Qed.

Definition agree {X} (s : store) (o : option (X * store * list event)) (o' : option (X * spec * list event)) : Prop :=
  match o, o' with
  | Some (x, s', tr), Some (x', a', tr') => x = x' /\ tr = tr' /\ models s' a' /\ keeps s s'
  | None, None => True
  | _, _ => False
  end.

(** Changing the next listeners *)
Lemma array_set_lists h c n s r : array (set_lists h c n s) r = default [] (h !! r).
Proof. done. Qed.

Lemma ensure_spec s : nextListeners s < length (heap s) -> currentListeners s < length (heap s) ->
  let s' := ensureCanMutateNextListeners s in
  array s' (nextListeners s') = array s (nextListeners s) /\ keeps s s' /\
  currentListeners s' < length (heap s') /\ nextListeners s' < length (heap s') /\ nextListeners s' <> currentListeners s'.
Proof.
  intros Hn Hc. unfold ensureCanMutateNextListeners. destruct (Nat.eqb_spec (nextListeners s) (currentListeners s)) as [E|E]; [|done].
  cbn [nextListeners currentListeners heap set_lists]. rewrite array_set_lists, length_app. cbn [length]. split; [|split; [|lia]].
  - rewrite lookup_app_r, Nat.sub_diag by lia. cbn. by rewrite E.
  - intros t [Ht _]. split; [split; cbn; rewrite ?length_app; cbn; lia|]. rewrite array_set_lists, lookup_app_l by done. done.
Qed.

Lemma mutate_next g s : nextListeners s < length (heap s) -> currentListeners s < length (heap s) ->
  let s' := update_next g (ensureCanMutateNextListeners s) in
  array s' (nextListeners s') = g (array s (nextListeners s)) /\ keeps s s' /\
  currentListeners s' < length (heap s') /\ nextListeners s' < length (heap s').
Proof.
  intros Hn Hc. destruct (ensure_spec s Hn Hc) as (Ha & Hk & Hc' & Hn' & Hne). rewrite <- Ha. revert Hk Hc' Hn' Hne.
  generalize (ensureCanMutateNextListeners s). intros x Hk Hc' Hn' Hne. unfold update_next. cbn [nextListeners currentListeners heap set_lists].
  rewrite array_set_lists, list_lookup_insert_eq, length_insert by done. split; [done|]. split; [|done]. etrans; [exact Hk|].
  intros t [Ht Hf]. split; [split; cbn; rewrite ?length_insert; tauto|].
  rewrite array_set_lists, list_lookup_insert_ne by (intros <-; tauto). done.
Qed.

(** Occurrences *)

Lemma occurrences_app f l l' : occurrences f (l ++ l') = occurrences f l + occurrences f l'.
Proof. unfold occurrences. by rewrite List.filter_app, length_app. Qed.

Lemma live_subs_app f l l' : live f (l ++ l') = live f l + live f l'.
Proof. unfold live. by rewrite List.filter_app, length_app. Qed.

Lemma live_positive f h l : l !! h = Some (f, true) -> 0 < live f l.
Proof.
  intros H. rewrite <- (take_drop_middle l h _ H), live_subs_app. unfold live at 2. cbn. rewrite Nat.eqb_refl. cbn. lia.
Qed.

Lemma live_off f g h l : l !! h = Some (f, true) -> live g (<[h := (f, false)]> l) = live g l - (if f =? g then 1 else 0).
Proof.
  intros H. pose proof (lookup_lt_Some _ _ _ H). rewrite insert_take_drop by done. rewrite <- (take_drop_middle l h _ H) at 3. rewrite !live_subs_app.
  unfold live at 2 4. cbn. rewrite andb_false_r, andb_true_r. destruct (f =? g); cbn; lia.
Qed.

Lemma occurrences_remove f g l : 0 < occurrences f l -> occurrences g (remove_first f l) = occurrences g l - (if f =? g then 1 else 0).
Proof.
  unfold occurrences. induction l as [|x l IH]; cbn; [lia|]. rewrite (Nat.eqb_sym f x). destruct (Nat.eqb_spec x f) as [->|Hx]; cbn.
  - intros _. rewrite (Nat.eqb_sym g f). destruct (f =? g); cbn; lia.
  - intros H. destruct (Nat.eqb_spec g x) as [->|]; cbn; [|by apply IH]. rewrite IH by done. rewrite (proj2 (Nat.eqb_neq f x)) by done. lia.
Qed.

(** The function is found, so that it is what is removed. *)
Lemma splice_first f l : 0 < occurrences f l -> splice_listener f l = remove_first f l.
Proof.
  assert (0 < occurrences f l -> exists n, index_of f l = Some n /\ take n l ++ drop (S n) l = remove_first f l) as H.
  { unfold occurrences. induction l as [|x l IH]; cbn; [lia|]. rewrite (Nat.eqb_sym f x). destruct (Nat.eqb_spec x f) as [->|Hx]; cbn.
    - intros _. exists 0. by rewrite drop_0.
    - intros (n & -> & E)%IH. exists (S n). split; [done|]. cbn. by rewrite <- E. }
  intros (n & Hn & E)%H. unfold splice_listener. by rewrite Hn.
Qed.

(** ** Each operation *)

Lemma subscribe_models f s a : models s a ->
  let '(r, s') := subscribe f s in let '(r', a') := spec_subscribe f a in r = r' /\ models s' a' /\ keeps s s'.
Proof.
  intros H. destruct f as [f|]; [|done]. cbn [subscribe spec_subscribe]. destruct H.
  destruct (mutate_next (fun l => l ++ [f]) s m_next0 m_current0) as (Ha & Hk & Hc & Hn).
  assert (subscriptions (update_next (fun l => l ++ [f]) (ensureCanMutateNextListeners s)) = s_subs a) as Hs.
  { unfold ensureCanMutateNextListeners. by destruct (_ =? _). }
  rewrite Hs. split; [done|]. split; [|done]. split; cbn [s_reducer s_state s_listeners s_busy s_subs s_world]; try done.
  all: try (unfold ensureCanMutateNextListeners; by destruct (_ =? _)).
  - etrans; [exact Ha|]. by rewrite m_listeners0.
  - intros g. rewrite occurrences_app, live_subs_app, m_count0. unfold occurrences, live. cbn [List.filter fst snd]. rewrite andb_true_r, (Nat.eqb_sym g f). by destruct (f =? g).
Qed.

Lemma unsubscribe_models h s a : models s a -> models (unsubscribe h s) (spec_unsubscribe h a) /\ keeps s (unsubscribe h s).
Proof.
  intros H. unfold unsubscribe, spec_unsubscribe. destruct H. rewrite m_subs0. destruct (s_subs a !! h) as [[f []]|] eqn:E; [|done..].
  set (s1 := set_subscriptions _ s). destruct (mutate_next (splice_listener f) s1 m_next0 m_current0) as (Ha & Hk & Hc & Hn).
  assert (0 < occurrences f (s_listeners a)) as Hf by (rewrite m_count0; by apply (live_positive f h)).
  split; [|exact Hk]. split; cbn [s_reducer s_state s_listeners s_busy s_subs s_world]; try done.
  all: try (unfold ensureCanMutateNextListeners; by destruct (_ =? _)).
  - etrans; [exact Ha|]. change (array s1 (nextListeners s1)) with (array s (nextListeners s)). rewrite m_listeners0. by apply splice_first.
  - intros g. rewrite occurrences_remove, (live_off f g h), m_count0 by done. done.
Qed.

Definition runs_agree (rec : run_type) (rec' : spec_type) : Prop :=
  forall R (p : prog R) s a, models s a -> agree s (rec R p s) (rec' R p a).

Lemma agree_later {X} s s' (o : option (X * store * list event)) o' : keeps s s' -> agree s' o o' -> agree s o o'.
Proof.
  intros Hk. destruct o as [[[x s1] tr]|], o' as [[[x' a1] tr']|]; cbn; try done. intros (-> & -> & Hm & Hk'). repeat (split; [done|]). by etrans.
Qed.

Lemma notify_agree rec rec' : runs_agree rec rec' -> forall fuel t n s a, frozen s t -> models s a ->
  agree s (notify listener rec fuel t n s) (spec_notify rec' fuel (drop n (array s t)) a).
Proof.
  intros Hrec. induction fuel as [|fuel IH]; intros t n s a Hf Hm; [done|]. cbn [notify spec_notify].
  destruct (array s t !! n) as [o|] eqn:E; [|by rewrite drop_ge by (by apply lookup_ge_None)].
  rewrite (drop_S _ o n E). pose proof (Hrec unit (listener o) s a Hm) as Hr.
  destruct (rec unit (listener o) s) as [[[[u|e] s1] tr]|], (rec' unit (listener o) a) as [[[[u'|e'] a1] tr']|]; cbn in Hr; try done;
    destruct Hr as ([= ->] & -> & Hm1 & Hk1); [|done].
  destruct (Hk1 t Hf) as [Hf1 Ea]. specialize (IH t (S n) s1 a1 Hf1 Hm1). rewrite Ea in IH.
  destruct (notify listener rec fuel t (S n) s1) as [[[x s2] tr2]|], (spec_notify rec' fuel _ a1) as [[[x' a2] tr2']|]; cbn in IH |- *; try done.
  destruct IH as (-> & -> & Hm2 & Hk2). repeat (split; [done|]). by etrans.
Qed.

Lemma models_busy b s a : models s a -> models (set_busy b s) (with_busy b a) /\ keeps s (set_busy b s).
Proof. intros []. split; [by split|done]. Qed.

Lemma models_reducer f s a : models s a -> models (set_reducer f s) (with_reducer f a) /\ keeps s (set_reducer f s).
Proof. intros []. split; [by split|done]. Qed.

(** The state that is set, and the listeners that are published *)
Lemma models_publish x s a : models s a ->
  let s1 := set_busy false (set_state x s) in let s2 := set_lists (heap s1) (nextListeners s1) (nextListeners s1) s1 in
  models s2 (with_busy false (with_state x a)) /\ keeps s s2 /\ frozen s2 (currentListeners s2) /\ array s2 (currentListeners s2) = s_listeners a.
Proof. intros []. cbn. split; [by split|]. split; [|by split]. intros t [Ht Hf]. by split. Qed.

Lemma dispatch_agree rec rec' fuel x s a : runs_agree rec rec' -> models s a ->
  agree s (dispatch reducer listener rec fuel x s) (spec_dispatch rec' fuel x a).
Proof.
  intros Hrec Hm. unfold dispatch, spec_dispatch. destruct (isPlain x); cbn [negb orb]; [|done]. destruct (type x); cbn [orb]; [|done].
  rewrite <- (m_busy s a Hm). destruct (isDispatching s); [done|]. destruct (models_busy true s a Hm) as [Hm0 Hk0].
  rewrite <- (m_reducer s a Hm), <- (m_state s a Hm). pose proof (Hrec State (reducer (currentReducer s) (currentState s) x) _ _ Hm0) as Hr.
  destruct (rec State _ _) as [[[[y|e] s1] tr]|], (rec' State _ _) as [[[[y'|e'] a1] tr']|]; cbn in Hr; try done; destruct Hr as ([= ->] & -> & Hm1 & Hk1).
  - destruct (models_publish y' s1 a1 Hm1) as (Hm2 & Hk2 & Hf & Ea). pose proof (notify_agree rec rec' Hrec fuel _ 0 _ _ Hf Hm2) as Hn.
    rewrite Ea, drop_0 in Hn. apply (agree_later s) in Hn; [|etrans; [exact Hk0|by etrans]].
    destruct (notify _ _ _ _ _ _) as [[[[u|e] s3] tr3]|], (spec_notify _ _ _ _) as [[[[u'|e'] a3] tr3']|]; cbn in Hn |- *; try done;
      by destruct Hn as ([= ?] & -> & Hm3 & Hk3); subst.
  - destruct (models_busy false s1 a1 Hm1) as [Hm2 Hk2]. repeat (split; [done|]). etrans; [exact Hk0|by etrans].
Qed.

Lemma exec_agree rec rec' fuel c s a : runs_agree rec rec' -> models s a ->
  agree s (exec reducer listener rec fuel c s) (spec_exec rec' fuel c a).
Proof.
  intros Hrec Hm. destruct c as [x|f|h| |[f|]| |w]; cbn [exec spec_exec].
  - by apply dispatch_agree.
  - pose proof (subscribe_models f s a Hm) as H. destruct (subscribe f s), (spec_subscribe f a). by destruct H as (-> & ? & ?).
  - by pose proof (unsubscribe_models h s a Hm).
  - split; [by rewrite (m_state s a Hm)|done].
  - destruct (models_reducer f s a Hm) as [Hm1 Hk1]. pose proof (dispatch_agree rec rec' fuel INIT _ _ Hrec Hm1) as H. apply (agree_later s) in H; [|done].
    destruct (dispatch _ _ _ _ _ _) as [[[[u|e] s3] tr3]|], (spec_dispatch _ _ _ _) as [[[[u'|e'] a3] tr3']|]; cbn in H |- *; try done;
      by destruct H as ([= ?] & -> & Hm3 & Hk3); subst.
  - done.
  - split; [by rewrite (m_world s a Hm)|done].
  - split; [done|]. split; [done|]. destruct Hm. split; [by split|done].
Qed.

Lemma prog_agree ex ex' : (forall c s a, models s a -> agree s (ex c s) (ex' c a)) ->
  forall R (p : prog R) s a, models s a -> agree s (run_prog ex p s) (spec_prog ex' p a).
Proof.
  intros Hex R p. induction p as [r|e|c k IH]; intros s a Hm; cbn [run_prog spec_prog]; [done..|].
  pose proof (Hex c s a Hm) as H. destruct (ex c s) as [[[x s1] tr]|], (ex' c a) as [[[x' a1] tr']|]; cbn in H; try done. destruct H as (-> & -> & Hm1 & Hk1).
  specialize (IH x' s1 a1 Hm1). destruct (run_prog ex (k x') s1) as [[[y s2] tr2]|], (spec_prog ex' (k x') a1) as [[[y' a2] tr2']|]; cbn in IH |- *; try done.
  destruct IH as (-> & -> & Hm2 & Hk2). repeat (split; [done|]). by etrans.
Qed.

Lemma run_agree fuel : runs_agree (run reducer listener fuel) (spec_run fuel).
Proof.
  induction fuel as [|fuel IH]; intros R p s a Hm; [done|]. cbn [run spec_run]. apply prog_agree; [|done]. intros c s' a' Hm'. by apply exec_agree.
Qed.

(** A new store *)
Lemma models_new t n w : models (Store t n [[]] 0 0 false [] w) (Spec t n [] false [] w).
Proof. split; cbn; try done; lia. Qed.

(** C17: A store refines one with a list of listeners, of which each dispatch takes
    a copy: from [createStore] on, every program, with any reducers and
    listeners, which may call the store while it dispatches, ends in the same
    way, with the same results, states and calls of listeners in the same
    order.  No call changes an array that a dispatch iterates over, and
    unsubscribing never removes another function. *)
Theorem store_refines (fuel fuel' : nat) (t : fid) (n : State) (w : World) R (p : prog R) :
  match createStore reducer listener fuel (Some t) n w, spec_dispatch (spec_run fuel) fuel INIT (Spec t n [] false [] w) with
  | Some (Ok s, tr), Some (Ok _, a, tr') => tr = tr' /\ models s a /\ agree s (run reducer listener fuel' R p s) (spec_run fuel' R p a)
  | Some (Throw e, tr), Some (Throw e', _, tr') => e = e' /\ tr = tr'
  | None, None => True
  | _, _ => False
  end.
Proof.
  cbn [createStore]. pose proof (dispatch_agree _ _ fuel INIT _ _ (run_agree fuel) (models_new t n w)) as H.
  destruct (dispatch _ _ _ _ _ _) as [[[[u|e] s] tr]|], (spec_dispatch _ _ _ _) as [[[[u'|e'] a] tr']|]; cbn in H; try done; destruct H as ([= ?] & -> & Hm & _); [|done].
  split; [done|]. split; [done|]. by apply run_agree.
Qed.

(** ** Dispatching ends *)

(** Programs that dispatch nothing *)
Definition quiet_call (c : call Body World) : bool := match c with Dispatch _ | ReplaceReducer _ => false | _ => true end.

Fixpoint quiet {R} (p : prog R) : Prop :=
  match p with Do c k => quiet_call c = true /\ forall x, quiet (k x) | _ => True end.

Definition callee (x : event) : fid := match x with Called f _ => f end.

(** What a quiet program leaves *)
Record undisturbed s s' : Prop := Undisturbed {
  u_busy : isDispatching s' = isDispatching s;
  u_state : currentState s' = currentState s;
  u_keeps : keeps s s'
}.

Lemma quiet_exec c s a : quiet_call c = true -> models s a ->
  exists x s' a', (forall rec fuel, exec reducer listener rec fuel c s = Some (x, s', [])) /\ models s' a' /\ undisturbed s s'.
Proof.
  intros Hq Hm. destruct c as [x|f|h| |f| |w]; try done; cbn [exec].
  - pose proof (subscribe_models f s a Hm) as H. destruct (subscribe f s) as [r s'] eqn:E, (spec_subscribe f a) as [r' a']. destruct H as (_ & Hm' & Hk).
    exists r, s', a'. split; [done|]. split; [done|]. destruct f as [f|]; [|by injection E as <- <-]. cbn [subscribe] in E. injection E as <- <-.
    split; [| |done]; unfold ensureCanMutateNextListeners; by destruct (_ =? _).
  - destruct (unsubscribe_models h s a Hm) as [Hm' Hk]. eexists _, _, _. split; [done|]. split; [exact Hm'|]. split; [| |done]; unfold unsubscribe;
      destruct (subscriptions s !! h) as [[f []]|]; try done; unfold ensureCanMutateNextListeners; by destruct (_ =? _).
  - eexists _, s, a. by split.
  - eexists _, s, a. by split.
  - eexists _, (set_world w s), (with_world w a). split; [done|]. destruct Hm. split; [by split|by split].
Qed.

Lemma quiet_run {R} (p : prog R) s a : quiet p -> models s a ->
  exists r s' a', (forall fuel, run reducer listener (S fuel) R p s = Some (r, s', [])) /\ models s' a' /\ undisturbed s s'.
Proof.
  revert s a. induction p as [r|e|c k IH]; intros s a Hq Hm.
  - exists (Ok r), s, a. by split.
  - exists (Throw e), s, a. by split.
  - destruct Hq as [Hc Hk]. destruct (quiet_exec c s a Hc Hm) as (x & s1 & a1 & E1 & Hm1 & [B1 S1 K1]).
    destruct (IH x s1 a1 (Hk x) Hm1) as (r & s2 & a2 & E2 & Hm2 & [B2 S2 K2]). exists r, s2, a2. split; [|split; [done|split; [congruence|congruence|by etrans]]].
    intros fuel. cbn [run run_prog]. rewrite E1. specialize (E2 fuel). cbn [run] in E2. by rewrite E2.
Qed.

(** A listener that dispatches nothing runs from [s] to [s']. *)
Definition runs_to (f : fid) (s : store) (r : js unit) (s' : store) : Prop := forall fuel, run reducer listener (S fuel) unit (listener f) s = Some (r, s', []).

(** Listeners run one after the other, until one throws: how they end, and which
    ones were called. *)
Inductive in_turn : list fid -> store -> js unit -> store -> list fid -> Prop :=
| turn_end s : in_turn [] s (Ok tt) s []
| turn_next f l s u s1 r s' fs : runs_to f s (Ok u) s1 -> in_turn l s1 r s' fs -> in_turn (f :: l) s r s' (f :: fs)
| turn_throw f l s e s1 : runs_to f s (Throw e) s1 -> in_turn (f :: l) s (Throw e) s1 [f].

Lemma quiet_notify t : (forall f, quiet (listener f)) -> forall l n s a, drop n (array s t) = l -> models s a -> frozen s t ->
  exists r s' tr, (forall fuel fuel', length l < fuel -> notify listener (run reducer listener (S fuel')) fuel t n s = Some (r, s', tr))
    /\ in_turn l s r s' (map callee tr) /\ undisturbed s s'.
Proof.
  intros Hl l. induction l as [|o l IH]; intros n s a Hd Hm Hf.
  - exists (Ok tt), s, []. split; [|split; [constructor|done]]. intros [|fuel] fuel' Hn; [lia|]. cbn [notify].
    assert (array s t !! n = None) as ->; [|done]. apply lookup_ge_None. apply (f_equal length) in Hd. rewrite length_drop in Hd. cbn in Hd. lia.
  - assert (array s t !! n = Some o) as E by (by rewrite <- (Nat.add_0_r n), <- lookup_drop, Hd).
    destruct (quiet_run (listener o) s a (Hl o) Hm) as (r & s1 & a1 & E1 & Hm1 & H1). destruct r as [u|e].
    + destruct H1 as [B1 S1 K1]. destruct (K1 t Hf) as [Hf1 Ea]. rewrite (drop_S _ o n E) in Hd. injection Hd as Hd.
      destruct (IH (S n) s1 a1) as (r & s2 & tr & E2 & Ht & [B2 S2 K2]); [by rewrite Ea|done|done|]. exists r, s2, (Called o [] :: tr).
      split; [|split; [by eapply turn_next|split; [congruence|congruence|by etrans]]].
      intros [|fuel] fuel' Hn; cbn in Hn; [lia|]. cbn [notify]. rewrite E, E1. by rewrite E2 by lia.
    + exists (Throw e), s1, [Called o []]. split; [|split; [by apply turn_throw|done]].
      intros [|fuel] fuel' Hn; [cbn in Hn; lia|]. cbn [notify]. by rewrite E, E1.
Qed.

(** The store with the state that a reducer returned, when its listeners are called *)
Definition published (v : State) s : store :=
  Store (currentReducer s) v (heap s) (nextListeners s) (nextListeners s) false (subscriptions s) (world s).

(** C18: What [dispatch] does, where reducers and listeners dispatch nothing
    themselves, in a store that stands for an abstract one ([models]: a function
    is among its listeners as often as it is subscribed).  For an action that is
    not a plain object or has no type, and while a reducer runs, it throws and
    changes nothing.  Otherwise it runs the reducer, on a store that says it is
    dispatching, and ends, with enough fuel.  If the reducer throws, it throws
    the same and the state is as before.  If the reducer returns, that is the
    new state, and the listeners that are subscribed then run, once for each
    subscription and in their order, whatever they subscribe or unsubscribe,
    until one throws: [dispatch] throws that, or returns the action.  In each
    case the store is not dispatching any more. *)
Theorem dispatch_returns (x : action) s a :
  models s a -> (forall f v b, quiet (reducer f v b)) -> (forall f, quiet (listener f)) ->
  (isPlain x = false \/ type x = None \/ isDispatching s = true ->
    forall rec fuel, dispatch reducer listener rec fuel x s = Some (Throw Error_, s, [])) /\
  (isPlain x = true -> type x <> None -> isDispatching s = false ->
    exists r s1, (forall fuel, run reducer listener (S fuel) State (reducer (currentReducer s) (currentState s) x) (set_busy true s) = Some (r, s1, [])) /\
    match r with
    | Throw e => currentState s1 = currentState s /\
        forall fuel, 0 < fuel -> dispatch reducer listener (run reducer listener fuel) fuel x s = Some (Throw e, set_busy false s1, [])
    | Ok v => exists r' s' tr, in_turn (array s1 (nextListeners s1)) (published v s1) r' s' (map callee tr) /\
        isDispatching s' = false /\ currentState s' = v /\
        forall fuel, S (length (array s1 (nextListeners s1))) < fuel ->
          dispatch reducer listener (run reducer listener fuel) fuel x s =
            Some (match r' with Ok _ => Ok (TheAction x) | Throw e => Throw e end, s', tr)
    end).
Proof.
  intros Hm Hr Hl. split.
  - intros H rec fuel. unfold dispatch. destruct (isPlain x) eqn:Hp; [|done]. cbn [negb]. destruct (type x) eqn:Ht; [|done]. destruct H as [H|[H| ->]]; [|done|done].
    congruence.
  - intros Hp Ht Hb. destruct (models_busy true s a Hm) as [Hm0 _].
    destruct (quiet_run _ _ _ (Hr (currentReducer s) (currentState s) x) Hm0) as (r & s1 & a1 & E1 & Hm1 & [B1 S1 _]). exists r, s1. split; [done|].
    assert (forall rec fuel, dispatch reducer listener rec fuel x s =
      match rec State (reducer (currentReducer s) (currentState s) x) (set_busy true s) with
      | None => None
      | Some (Throw e, s, tr) => Some (Throw e, set_busy false s, tr)
      | Some (Ok v, s, tr) =>
          match notify listener rec fuel (nextListeners s) 0 (published v s) with
          | None => None
          | Some (Throw e, s, tr') => Some (Throw e, s, tr ++ tr')
          | Some (Ok _, s, tr') => Some (Ok (TheAction x), s, tr ++ tr')
          end
      end) as Hd by (intros; unfold dispatch; rewrite Hp, Hb; cbn [negb]; by destruct (type x)).
    destruct r as [v|e]; [|split; [done|]; intros [|fuel] Hfuel; [lia|]; by rewrite Hd, E1].
    destruct (models_publish v s1 a1 Hm1) as (Hm2 & _ & Hf & Ea). change (set_lists _ _ _ _) with (published v s1) in Hm2, Hf, Ea.
    destruct (quiet_notify (nextListeners s1) Hl (array s1 (nextListeners s1)) 0 (published v s1) _ eq_refl Hm2 Hf) as (r' & s' & tr & E2 & Htn & [B2 S2 _]).
    exists r', s', tr. split; [done|]. split; [done|]. split; [done|]. intros [|fuel] Hfuel; [lia|]. rewrite Hd, E1, E2 by lia. by destruct r'.
Qed.
End spec.

(** ** Combined reducers *)

Section combine.
  Context {V Body : Type} (undefined : V) (isUndefined : V -> bool) (same : V -> V -> bool) (inherits : str -> V) (PROBE : action Body).
  Notation reducer := (V -> action Body -> js V).
  Notation member := (member inherits).

(** The functions among the members, but for the one named __proto__ *)
Definition functions (es : list (str * option reducer)) : list (str * reducer) :=
  omap (fun p => match p.2 with Some f => if eqs p.1 (# "__proto__") then None else Some (p.1, f) | None => None end) es.

Lemma finalReducers_functions es : finalReducers es = functions es.
Proof. induction es as [|[a [f|]] es IH]; cbn; [done| |done]. rewrite IH. by destruct (eqs a _). Qed.

(** A reducer returns a value for a member, and keeps it; or it fails. *)
Definition gives (v0 : V) (t : action Body) (f : reducer) (v : V) : Prop := f v0 t = Ok v /\ isUndefined v = false.
Definition fails (v0 : V) (t : action Body) (f : reducer) (x : error) : Prop := f v0 t = Throw x \/ exists v, f v0 t = Ok v /\ isUndefined v = true /\ x = Error_.

(** A reducer has a value for an undefined member, whatever the action is; or it
    fails one of the probes. *)
Definition initializes (f : reducer) : Prop := (exists v, gives undefined INIT f v) /\ (exists v, gives undefined PROBE f v).
Definition fails_probe (f : reducer) (x : error) : Prop := fails undefined INIT f x \/ (exists v, gives undefined INIT f v) /\ fails undefined PROBE f x.

(** The first reducer that fails, after those that do not *)
Definition first_failing (ok : str * reducer -> Prop) (bad : str * reducer -> error -> Prop) (rs : list (str * reducer)) (x : error) : Prop :=
  exists pre p post, rs = pre ++ p :: post /\ Forall ok pre /\ bad p x.

Lemma first_failing_cons ok bad p rs x : ok p -> first_failing ok bad rs x -> first_failing ok bad (p :: rs) x.
Proof. intros Hp (pre & q & post & -> & HF & Hb). exists (p :: pre), q, post. by repeat constructor. Qed.

Lemma assertReducerShape_spec rs :
  match assertReducerShape undefined isUndefined PROBE rs with
  | None => Forall (fun p => initializes p.2) rs
  | Some x => first_failing (fun p => initializes p.2) (fun p => fails_probe p.2) rs x
  end.
Proof.
  induction rs as [|[l f] rs IH]; cbn [assertReducerShape]; [done|].
  assert (forall x, fails_probe f x -> first_failing (fun p => initializes p.2) (fun p => fails_probe p.2) ((l, f) :: rs) x) as Hhd by (intros x Hx; by exists [], (l, f), rs).
  destruct (f undefined INIT) as [v|x] eqn:E1; [|by apply Hhd; left; left]. destruct (isUndefined v) eqn:U1; [apply Hhd; left; right; by exists v|].
  assert (exists v, gives undefined INIT f v) as G1 by (by exists v).
  destruct (f undefined PROBE) as [w|x] eqn:E2; [|by apply Hhd; right; split; [|left]]. destruct (isUndefined w) eqn:U2; [apply Hhd; right; split; [done|]; right; by exists w|].
  assert (initializes f) as Hi by (split; [done|by exists w]).
  destruct (assertReducerShape _ _ _ rs); [by apply first_failing_cons|by constructor].
Qed.

Definition unchanged (e : list (str * V)) (t : action Body) (p : str * reducer) : Prop := exists v, gives (member e p.1) t p.2 v /\ same v (member e p.1) = true.

Lemma combination_loop_spec rs e t r i : NoDup (map fst rs) -> (forall k, k ∈ map fst rs -> obj_get i k = None) ->
  match combination_loop isUndefined same inherits rs (Some e) t r i with
  | Ok (r', i') =>
      obj_keys i' = obj_keys i ++ map fst rs /\
      Forall (fun p => exists v, gives (member e p.1) t p.2 v /\ obj_get i' p.1 = Some v) rs /\
      (forall k, k ∉ map fst rs -> obj_get i' k = obj_get i k) /\
      (r' = false <-> r = false /\ Forall (unchanged e t) rs)
  | Throw x => first_failing (fun p => exists v, gives (member e p.1) t p.2 v) (fun p => fails (member e p.1) t p.2) rs x
  end.
Proof.
  revert r i. induction rs as [|[l c] rs IH]; intros r i Hn Hi; cbn [combination_loop map fst].
  { rewrite app_nil_r. repeat split; try done; try constructor. tauto. }
  apply NoDup_cons in Hn as [Hl Hn]. destruct (c (member e l) t) as [p|x] eqn:Ec; [|by exists [], (l, c), rs; repeat split; [|left]].
  destruct (isUndefined p) eqn:Up; [exists [], (l, c), rs; split; [done|]; split; [done|]; right; by exists p|].
  assert (forall k, k ∈ map fst rs -> obj_get (obj_set i l p) k = None) as Hi'.
  { intros k Hk. rewrite obj_get_set, decide_False by (intros ->; done). apply Hi. by right. }
  assert (gives (member e l) t c p) as Hg by done.
  specialize (IH (r || negb (same p (member e l))) (obj_set i l p) Hn Hi').
  destruct (combination_loop _ _ _ rs _ _ _ _) as [[r' i']|x]; [|by apply first_failing_cons; [exists p|]].
  destruct IH as (Hk & Hf & Ho & Hr). split; [|split; [|split]].
  - rewrite Hk, obj_keys_set, (Hi l) by (by left). by rewrite <- app_assoc.
  - constructor; [|done]. exists p. split; [done|]. cbn [fst]. rewrite Ho by done. by rewrite obj_get_set, decide_True.
  - intros k Hk'. apply not_elem_of_cons in Hk' as [Hkl Hk']. by rewrite Ho, obj_get_set, decide_False.
  - rewrite Hr, orb_false_iff, negb_false_iff, Forall_cons. split.
    + intros [[-> Hs] HF]. split; [done|]. split; [|done]. by exists p.
    + intros [-> [(v & [Ev _] & Hs) HF]]. cbn [fst snd] in Ev, Hs. rewrite Ec in Ev. by injection Ev as <-.
Qed.

(** C23: What a combined reducer does, for reducers with different names; the one
    named __proto__ and the members that are not functions are left out.  If one
    of them throws or returns undefined when it is probed with an undefined member,
    for the action INIT or for one it does not know, it throws for every state and
    action what the first such reducer threw, or an Error.  Otherwise, for null it
    throws a TypeError, if there are reducers at all.  Otherwise it gives each
    reducer its member of the state: if one throws or returns undefined, it throws
    what the first such one threw, or an Error; if each returns a value that is
    [===] to its member, it returns the state itself (or {}); and else an object
    with just the members that they returned. *)
Theorem combine_correct (es : list (str * option reducer)) (st : reducerState V) (t : action Body) :
  let rs := functions es in
  let e := match st with Members m => m | _ => [] end in
  NoDup (map fst rs) ->
  match combination undefined isUndefined same inherits PROBE es st t with
  | Throw x =>
      first_failing (fun p => initializes p.2) (fun p => fails_probe p.2) rs x \/
      Forall (fun p => initializes p.2) rs /\
      match st with
      | Null => rs <> [] /\ x = TypeError
      | _ => first_failing (fun p => exists v, gives (member e p.1) t p.2 v) (fun p => fails (member e p.1) t p.2) rs x
      end
  | Ok None => Forall (fun p => initializes p.2) rs /\ match st with Null => rs = [] | _ => Forall (unchanged e t) rs end
  | Ok (Some i) => Forall (fun p => initializes p.2) rs /\ st <> Null /\ obj_keys i = map fst rs /\
      Forall (fun p => exists v, gives (member e p.1) t p.2 v /\ obj_get i p.1 = Some v) rs /\ ~ Forall (unchanged e t) rs
  end.
Proof.
  intros rs e Hn. unfold combination. rewrite finalReducers_functions. fold rs. pose proof (assertReducerShape_spec rs) as Hp.
  destruct (assertReducerShape undefined isUndefined PROBE rs) as [x|]; [by left|].
  assert (st = Null \/ st <> Null /\ match st with Absent => Some [] | Null => None | Members m => Some m end = Some e) as [->|[Hst He]] by (destruct st; auto).
  - destruct rs as [|[l c] rs']; [done|]. right. by split.
  - rewrite He. pose proof (combination_loop_spec rs e t false [] Hn ltac:(done)) as H.
    destruct (combination_loop _ _ _ _ _ _ _ _) as [[[] i]|x]; [|by destruct H as (_ & _ & _ & Hr); split; [done|]; destruct st; [apply Hr|done|apply Hr]|].
    + destruct H as (Hk & Hf & _ & Hr). do 4 (split; [done|]). intros HF. by pose proof (proj2 Hr (conj eq_refl HF)).
    + right. split; [done|]. by destruct st.
Qed.
End combine.

(** The functions of a composition are applied from the last to the first. *)
Lemma compose_foldr {X} (fs : list (X -> X)) x : compose fs x = foldr (fun f x => f x) x fs.
Proof.
  assert (forall fs (f : X -> X), fold_left (fun e t x => e (t x)) fs f x = f (foldr (fun f x => f x) x fs)) as H.
  { clear. intros fs. induction fs as [|g fs IH]; intros f; cbn; [done|]. by rewrite IH. }
  destruct fs as [|f [|g fs]]; [done..|]. apply (H (g :: fs)).
Qed.

(** ** Witnesses and samples *)

(** A counter: the reducer adds the body of an action, and drops the last
    subscription if it is 7. *)
Definition count_reducer (f : fid) (v : Z) (x : action Z) : prog Z Z nat Z :=
  match body x with
  | Some 7%Z => Do (Unsubscribe 1) (fun _ => Return v)
  | Some z => Return (v + z)%Z
  | None => Return v
  end.

(** Listener 0 subscribes listener 2, listener 1 ends its own subscription, and
    listener 3 dispatches. *)
Definition count_listener (f : fid) : prog Z Z nat unit :=
  match f with
  | 0 => Do (Subscribe (Some 2)) (fun _ => Return tt)
  | 1 => Do (Unsubscribe 1) (fun _ => Return tt)
  | 3 => Do GetState (fun x => match x with Ok (TheState 1%Z) => Do (Dispatch (Action true (Some []) (Some 5%Z))) (fun _ => Return tt) | _ => Return tt end)
  | _ => Return tt
  end.

Definition add_action (z : Z) : action Z := Action true (Some []) (Some z).

(** A store with listeners 0 and 1 *)
Definition count_store : store Z nat := Store 0 0%Z [[]; [0; 1]] 0 1 false [(0, true); (1, true)] 0.
Definition count_spec : spec := Spec 0 0%Z [0; 1] false [(0, true); (1, true)] 0.

Lemma count_models : models count_store count_spec.
Proof.
  split; try reflexivity; cbn; try lia. intros f. unfold occurrences, live. destruct f as [|[|f]]; reflexivity.
Qed.

Definition quiet_listener (f : fid) : prog Z Z nat unit := match f with 3 => Return tt | _ => count_listener f end.

Lemma count_reducer_quiet f v b : quiet (count_reducer f v b).
Proof. unfold count_reducer. destruct (body b) as [z|]; [|exact I]. destruct z as [|[[[]| |]| |]|]; cbn; auto. Qed.

Lemma quiet_listener_quiet f : quiet (quiet_listener f).
Proof. destruct f as [|[|[|[|f]]]]; cbn; auto. Qed.

Lemma dispatch_returns_witness :
  exists s' tr, isDispatching s' = false /\ currentState s' = 3%Z /\
    forall fuel, 3 < fuel -> dispatch count_reducer quiet_listener (run count_reducer quiet_listener fuel) fuel (add_action 3) count_store = Some (Ok (TheAction (add_action 3)), s', tr).
Proof.
  destruct (dispatch_returns count_reducer quiet_listener (add_action 3) count_store count_spec count_models count_reducer_quiet quiet_listener_quiet) as [_ H].
  destruct (H eq_refl ltac:(discriminate) eq_refl) as (r & s1 & E1 & Hr). specialize (E1 0). vm_compute in E1. injection E1 as <- <-.
  destruct Hr as (r' & s' & tr & _ & Hb & Hs & E). exists s', tr. split; [exact Hb|]. split; [exact Hs|]. intros fuel Hf. rewrite (E fuel Hf).
  specialize (E 9 ltac:(cbn; lia)). vm_compute in E. destruct r' as [u|e]; [reflexivity|discriminate E].
Defined.

(** Both listeners are called though one ends its subscription, and the new one is
    not: it is called the next time. *)
Lemma snapshot_sample :
  match dispatch count_reducer count_listener (run count_reducer count_listener 9) 9 (add_action 3) count_store with
  | Some (Ok _, s', tr) => currentState s' = 3%Z /\ map callee tr = [0; 1] /\ array s' (nextListeners s') = [0; 2]
  | _ => False
  end.
Proof. vm_compute. done. Qed.

(** A function that is subscribed twice: ending the second subscription removes the
    first. *)
Lemma unsubscribe_first :
  let s := snd (subscribe (Body := Z) (Some 8) (snd (subscribe (Body := Z) (Some 9) (snd (subscribe (Body := Z) (Some 8) (Store 0 0%Z [[]] 0 0 false [] 0)))))) in
  array (unsubscribe 2 s) (nextListeners (unsubscribe 2 s)) = [9; 8].
Proof. vm_compute. reflexivity. Qed.

(** Two reducers: one keeps a value, and begins with 1 *)
Definition keep (v : Z) (t : action Z) : js Z := Ok (if (v =? 0)%Z then 1%Z else v).
Definition count_two (v : Z) (t : action Z) : js Z := Ok (v + 2)%Z.

Notation sample_combination inherits es st t := (combination 0%Z (Z.eqb 0) Z.eqb inherits (add_action 0) es st t) (only parsing).

Lemma combine_correct_witness :
  sample_combination (fun _ => 0%Z) [(# "a", Some keep); (# "b", Some count_two); (# "c", None)] (Members [(# "a", 4%Z); (# "b", 1%Z); (# "d", 9%Z)]) (add_action 1) =
    Ok (Some [(# "a", 4%Z); (# "b", 3%Z)]) /\
  ~ Forall (unchanged (Z.eqb 0) Z.eqb (fun _ => 0%Z) [(# "a", 4%Z); (# "b", 1%Z); (# "d", 9%Z)] (add_action 1)) [(# "a", keep); (# "b", count_two)].
Proof.
  pose proof (combine_correct 0%Z (Z.eqb 0) Z.eqb (fun _ => 0%Z) (add_action 0) [(# "a", Some keep); (# "b", Some count_two); (# "c", None)]
    (Members [(# "a", 4%Z); (# "b", 1%Z); (# "d", 9%Z)]) (add_action 1)) as H. cbv zeta in H.
  assert (sample_combination (fun _ => 0%Z) [(# "a", Some keep); (# "b", Some count_two); (# "c", None)]
    (Members [(# "a", 4%Z); (# "b", 1%Z); (# "d", 9%Z)]) (add_action 1) = Ok (Some [(# "a", 4%Z); (# "b", 3%Z)])) as E by (vm_compute; reflexivity).
  rewrite E in H. split; [exact E|]. refine (proj2 (proj2 (proj2 (proj2 (H _))))). apply (bool_decide_unpack _). vm_compute. exact I.
Defined.

(** A reducer whose name is inherited gets what the state inherits instead of
    undefined.  If it keeps that, the state never gets the member. *)
Lemma inherited_member :
  sample_combination (fun k => if eqs k (# "toString") then 77%Z else 0%Z) [(# "toString", Some keep)] Absent INIT = Ok None.
Proof. vm_compute. reflexivity. Qed.

(** A reducer for the name __proto__ is forgotten. *)
Lemma proto_forgotten : sample_combination (fun _ => 0%Z) [(# "__proto__", Some count_two)] (Members [(# "a", 4%Z)]) (add_action 1) = Ok None.
Proof. vm_compute. reflexivity. Qed.

(** A member that is not [===] to itself, as NaN is not, makes the state new at
    every action. *)
Lemma nan_is_new :
  combination 0%Z (Z.eqb 0) (fun v w => (v =? w)%Z && negb (v =? 13)%Z) (fun _ => 0%Z) (add_action 0) [(# "a", Some keep)] (Members [(# "a", 13%Z)]) (add_action 1)
  = Ok (Some [(# "a", 13%Z)]).
Proof. vm_compute. reflexivity. Qed.
