(* ===== verification/Promise.v ===== *)
(** * Promises of core-js

    The bundle of the documentation viewer carries the core-js polyfill of
    [Promise] (client/docs/swagger-ui/swagger-ui-bundle.js).  This file holds
    the machine of it: the hidden fields of a promise, the resolving functions
    [R] and [N] with their [_d] guard, [then], the microtask that runs the
    reactions of a promise ([T]), [Promise.resolve], [reject], [all] and
    [race], and the check for unhandled rejections ([M], [I], [j]).

    Every call that the polyfill makes goes through [invoke], which records who
    makes it, what is called and with which arguments, and calls it.

    The functions of the page are arbitrary: whenever one of them is called
    the machine stops with a frame on its stack, and the labels of [step] are
    what the page does next (a call into the polyfill, a return, a throw) and
    what the host does next (run a microtask, go on with a loop, run a task).
    A run is a list of labels, so a statement about all runs covers every
    behaviour of the page, re-entrant calls included.  The labels do not ask
    whether the page may know the function it calls, so the machine has more
    runs than a page has.  Reading the property [then] of an object or a function
    of the page gives a value or throws; a getter of it that calls into the
    polyfill, and a promise whose own [then] the page has replaced, are not
    modelled, nor are domains of Node, subclasses and iterators of the page.

    The life of one promise is then described on its own ([view], [life]): the
    right to settle it is a token, which its own resolving functions hold
    first, then a microtask that will call a foreign [then], then the pair of
    resolving functions this microtask makes.  [step_lives] shows that a step
    of the machine is, for every promise, a sequence of steps of that life. *)

From stdpp Require Import base list numbers option relations.
From Stdlib Require Import Lia.

(** ** Data *)

Notation pid := nat (only parsing).

(** What a resolving function is bound to: the promise itself, or an object
    [{_w, _d}] made for one call of a foreign [then]. *)
Inductive target :=
| Self (p : pid)
| Wrap (w : nat).

Inductive fn :=
| User (f : nat)
| ResolveF (t : target)
| RejectF (t : target)
| AllF (a u : nat).

(** Reading the property [then] of an object of the page. *)
Inductive thenable :=
| NoThen
| ThenIs (g : fn)
| ThenThrows (e : nat).

Inductive value :=
| Undefined
| Data (n : nat)
| Prom (p : pid)
| Fun (g : fn) (k : thenable)
| Obj (k : thenable)
| Arr (l : list value)
| SelfResolution
| ChainCycle.

(** A reaction is the capability [then] makes, with the two handlers.  Its
    promise is fresh, so it identifies the reaction. *)
Record reaction := Reaction {
  promise_ : pid;
  ok : option fn;
  fail : option fn
}.

Record promise := Promise {
  _c : list reaction;
  _a : option (list reaction);
  _s : nat;
  _d : bool;
  _v : value;
  _h : nat;
  _n : bool
}.

Inductive method :=
| ThenOf (q : pid)
| Method (g : fn).

Inductive job :=
| Reactions (p : pid) (t : bool)
| CallThen (p : pid) (m : method).

Inductive task :=
| Unhandled (p : pid)
| Handled (p : pid).

(** The frames of the calls in progress: the loop of a microtask with the
    index of the next reaction, and the places where a function of the page is
    called. *)
Inductive frame :=
| FLoop (p : pid) (i : nat) (r : value) (o t : bool)
| FHandler (x : reaction)
| FSync (x : reaction)
| FThen (w : nat)
| FExec (p : pid)
| FReport (p : pid)
| FNotice.

(** Who makes a call: a reaction of a promise, when its turn comes; a reaction
    that has the result of its handler; the microtask that calls a foreign
    [then]; and the task that reports a rejection. *)
Inductive caller :=
| Reacts (p : pid) (x : reaction)
| Completes (x : reaction)
| CallsThen (w : nat)
| Reports (p : pid).

Inductive event :=
| Registered (p : pid) (x : reaction)
| Called (c : caller) (m : method) (args : list value)
| ReportedUnhandled (p : pid) (v : value)
| ReportedHandled (p : pid) (v : value).

(** The locals of one call of [Promise.all]. *)
Record all_locals := AllLocals {
  a_promise : pid;
  a_values : list value;
  a_left : nat;
  a_called : list bool
}.

Record state := State {
  promises : list promise;
  wraps : list (pid * bool);
  alls : list all_locals;
  jobs : list job;
  tasks : list task;
  stack : list frame;
  trace : list event
}.

Definition init_state : state := State [] [] [] [] [] [] [].

(** ** Updates *)

Definition set_promises (l : list promise) (s : state) : state :=
  State l (wraps s) (alls s) (jobs s) (tasks s) (stack s) (trace s).

Definition upd (p : pid) (f : promise -> promise) (s : state) : state :=
  set_promises (alter f p (promises s)) s.

Definition set_wraps (l : list (pid * bool)) (s : state) : state :=
  State (promises s) l (alls s) (jobs s) (tasks s) (stack s) (trace s).

Definition set_alls (l : list all_locals) (s : state) : state :=
  State (promises s) (wraps s) l (jobs s) (tasks s) (stack s) (trace s).

Definition set_jobs (l : list job) (s : state) : state :=
  State (promises s) (wraps s) (alls s) l (tasks s) (stack s) (trace s).

Definition set_tasks (l : list task) (s : state) : state :=
  State (promises s) (wraps s) (alls s) (jobs s) l (stack s) (trace s).

Definition set_stack (l : list frame) (s : state) : state :=
  State (promises s) (wraps s) (alls s) (jobs s) (tasks s) l (trace s).

Definition emit (e : event) (s : state) : state :=
  State (promises s) (wraps s) (alls s) (jobs s) (tasks s) (stack s)
    (trace s ++ [e]).

Definition push_frame (f : frame) (s : state) : state :=
  set_stack (f :: stack s) s.

Definition y (j : job) (s : state) : state := set_jobs (jobs s ++ [j]) s.

Definition g_set (k : task) (s : state) : state := set_tasks (tasks s ++ [k]) s.

(** ** The resolving functions *)

Definition fresh_promise : promise := Promise [] None 0 false Undefined 0 false.

Definition new_promise (s : state) : pid * state :=
  (length (promises s), set_promises (promises s ++ [fresh_promise]) s).

Definition new_wrap (p : pid) (s : state) : nat * state :=
  (length (wraps s), set_wraps (wraps s ++ [(p, false)]) s).

Definition with_n (b : bool) (e : promise) : promise :=
  Promise (_c e) (_a e) (_s e) (_d e) (_v e) (_h e) b.

Definition with_d (e : promise) : promise :=
  Promise (_c e) (_a e) (_s e) true (_v e) (_h e) (_n e).

Definition with_h (h : nat) (e : promise) : promise :=
  Promise (_c e) (_a e) (_s e) (_d e) (_v e) h (_n e).

Definition without_a (e : promise) : promise :=
  Promise (_c e) None (_s e) (_d e) (_v e) (_h e) (_n e).

Definition fulfilled (v : value) (e : promise) : promise :=
  Promise (_c e) (_a e) 1 (_d e) v (_h e) (_n e).

Definition rejected (v : value) (e : promise) : promise :=
  Promise (_c e) (Some (default (_c e) (_a e))) 2 (_d e) v (_h e) (_n e).

(** The result of [P]: not a thenable, the exception of the getter, or the
    method found. *)
Inductive then_of :=
| NotThenable
| Throws (v : value)
| Callable (m : method).

Definition P (v : value) : then_of :=
  match v with
  | Prom q => Callable (ThenOf q)
  | Fun _ (ThenIs g) | Obj (ThenIs g) => Callable (Method g)
  | Fun _ (ThenThrows e) | Obj (ThenThrows e) => Throws (Data e)
  | _ => NotThenable
  end.

Definition is_promise (p : pid) (v : value) : bool :=
  match v with Prom q => Nat.eqb p q | _ => false end.

Definition T (p : pid) (t : bool) (s : state) : state :=
  match promises s !! p with
  | Some e => if _n e then s else y (Reactions p t) (upd p (with_n true) s)
  | None => s
  end.

(** The guard both resolving functions start with: nothing when [_d] is set,
    else [_d] is set and the promise behind the target returned. *)
Definition claim (t : target) (s : state) : option (pid * state) :=
  match t with
  | Self p =>
      match promises s !! p with
      | Some e => if _d e then None else Some (p, upd p with_d s)
      | None => None
      end
  | Wrap w =>
      match wraps s !! w with
      | Some (p, false) => Some (p, set_wraps (<[w := (p, true)]> (wraps s)) s)
      | _ => None
      end
  end.

Definition N (t : target) (v : value) (s : state) : state :=
  match claim t s with
  | Some (p, s1) => T p true (upd p (rejected v) s1)
  | None => s
  end.

Definition reject_anew (p : pid) (v : value) (s : state) : state :=
  let '(w, s1) := new_wrap p s in N (Wrap w) v s1.

Definition R (t : target) (v : value) (s : state) : state :=
  match claim t s with
  | None => s
  | Some (p, s1) =>
      if is_promise p v then reject_anew p SelfResolution s1
      else match P v with
           | Throws x => reject_anew p x s1
           | Callable m => y (CallThen p m) s1
           | NotThenable => T p false (upd p (fulfilled v) s1)
           end
  end.

(** ** [then], calls and combinators *)

Definition add_reaction (x : reaction) (e : promise) : promise :=
  Promise (_c e ++ [x]) ((fun l => l ++ [x]) <$> _a e)
    (_s e) (_d e) (_v e) (_h e) (_n e).

Definition then_ (p : pid) (f g : option fn) (s : state) : option (pid * state) :=
  match promises s !! p with
  | None => None
  | Some e =>
      let '(q, s1) := new_promise s in
      let x := Reaction q f g in
      let s2 := emit (Registered p x) (upd p (add_reaction x) s1) in
      Some (q, if Nat.eqb (_s e) 0 then s2 else T p false s2)
  end.

Definition all_called (a u : nat) (v : value) (s : state) : state :=
  match alls s !! a with
  | Some l =>
      match a_called l !! u with
      | Some false =>
          let vs := <[u := v]> (a_values l) in
          let n := a_left l - 1 in
          let s1 := set_alls (<[a := AllLocals (a_promise l) vs n
                                  (<[u := true]> (a_called l))]> (alls s)) s in
          if Nat.eqb n 0 then R (Self (a_promise l)) (Arr vs) s1 else s1
      | _ => s
      end
  | None => s
  end.

(** A call of a function of the polyfill; it returns [undefined]. *)
Definition apply_fn (g : fn) (v : value) (s : state) : state :=
  match g with
  | User _ => s
  | ResolveF t => R t v s
  | RejectF t => N t v s
  | AllF a u => all_called a u v s
  end.

(** An argument that is a function *)
Definition fn_arg (args : list value) (i : nat) : option fn :=
  match args !! i with Some (Fun g _) => Some g | _ => None end.

(** A call by [c] of [m] with [args]; [fr] is the frame to leave when it is a
    function of the page. *)
Definition invoke (c : caller) (m : method) (args : list value) (fr : frame) (s : state) : state :=
  let s1 := emit (Called c m args) s in
  match m with
  | ThenOf q =>
      match then_ q (fn_arg args 0) (fn_arg args 1) s1 with Some (_, s2) => s2 | None => s1 end
  | Method (User f) => push_frame fr s1
  | Method g => apply_fn g (default Undefined (head args)) s1
  end.

(** The resolving functions as arguments *)
Definition resolvers (t : target) : list value := [Fun (ResolveF t) NoThen; Fun (RejectF t) NoThen].

Definition promise_resolve (v : value) (s : state) : pid * state :=
  match v with
  | Prom p => (p, s)
  | _ => let '(q, s1) := new_promise s in (q, R (Self q) v s1)
  end.

Definition promise_reject (v : value) (s : state) : pid * state :=
  let '(q, s1) := new_promise s in (q, N (Self q) v s1).

Definition do_then (p : pid) (f g : option fn) (s : state) : state :=
  match then_ p f g s with Some (_, s1) => s1 | None => s end.

Definition all_enter (a : nat) (s : state) : state :=
  match alls s !! a with
  | Some l => set_alls (<[a := AllLocals (a_promise l) (a_values l ++ [Undefined])
                                 (S (a_left l)) (a_called l ++ [false])]> (alls s)) s
  | None => s
  end.

Fixpoint all_each (a : nat) (q : pid) (u : nat) (vs : list value) (s : state) : state :=
  match vs with
  | [] => s
  | v :: vs' =>
      let '(p, s1) := promise_resolve v (all_enter a s) in
      all_each a q (S u) vs'
        (do_then p (Some (AllF a u)) (Some (RejectF (Self q))) s1)
  end.

Definition all_leave (a : nat) (s : state) : state :=
  match alls s !! a with
  | Some l =>
      let n := a_left l - 1 in
      let s1 := set_alls (<[a := AllLocals (a_promise l) (a_values l) n
                              (a_called l)]> (alls s)) s in
      if Nat.eqb n 0 then R (Self (a_promise l)) (Arr (a_values l)) s1 else s1
  | None => s
  end.

Definition all (vs : list value) (s : state) : pid * state :=
  let '(q, s1) := new_promise s in
  let a := length (alls s1) in
  (q, all_leave a (all_each a q 0 vs (set_alls (alls s1 ++ [AllLocals q [] 1 []]) s1))).

Fixpoint race_each (q : pid) (vs : list value) (s : state) : state :=
  match vs with
  | [] => s
  | v :: vs' =>
      let '(p, s1) := promise_resolve v s in
      race_each q vs' (do_then p (Some (ResolveF (Self q))) (Some (RejectF (Self q))) s1)
  end.

Definition race (vs : list value) (s : state) : pid * state :=
  let '(q, s1) := new_promise s in (q, race_each q vs s1).

(** ** The microtask of the reactions *)

(** What a reaction does with the result of its handler, or with the value of the
    promise if it has no handler for it. *)
Definition settle_derived (c : caller) (x : reaction) (n : value) (s : state) : state :=
  let q := promise_ x in
  if is_promise q n then invoke c (Method (RejectF (Self q))) [ChainCycle] (FSync x) s
  else match P n with
       | Throws v => invoke c (Method (RejectF (Self q))) [v] (FSync x) s
       | Callable m => invoke c m (resolvers (Self q)) (FSync x) s
       | NotThenable => invoke c (Method (ResolveF (Self q))) [n] (FSync x) s
       end.

(** The call of the handler.  A function of the polyfill returns [undefined] at
    once. *)
Definition call_handler (c : caller) (g : fn) (r : value) (x : reaction) (s : state) : state :=
  let s1 := invoke c (Method g) [r] (FHandler x) s in
  match g with
  | User _ => s1
  | _ => settle_derived (Completes x) x Undefined s1
  end.

Definition note_handled (p : pid) (s : state) : state :=
  match promises s !! p with
  | Some e => upd p (with_h 1) (if Nat.eqb (_h e) 2 then g_set (Handled p) s else s)
  | None => s
  end.

Definition run_reaction (p : pid) (o : bool) (r : value) (x : reaction) (s : state) : state :=
  match o, ok x, fail x with
  | true, None, _ => settle_derived (Reacts p x) x r s
  | true, Some g, _ => call_handler (Reacts p x) g r x s
  | false, _, Some g => call_handler (Reacts p x) g r x (note_handled p s)
  | false, _, None => invoke (Reacts p x) (Method (RejectF (Self (promise_ x)))) [r] (FSync x) s
  end.

Definition clear_reactions (e : promise) : promise :=
  Promise [] (_a e) (_s e) (_d e) (_v e) (_h e) false.

Definition end_reactions (p : pid) (t : bool) (s : state) : state :=
  match promises s !! p with
  | Some e =>
      let s1 := upd p clear_reactions s in
      if t && Nat.eqb (_h e) 0 then g_set (Unhandled p) s1 else s1
  | None => s
  end.

Definition next (s : state) : option state :=
  match stack s with
  | FLoop p i r o t :: fs =>
      match promises s !! p with
      | Some e =>
          Some match _c e !! i with
               | Some x => run_reaction p o r x (set_stack (FLoop p (S i) r o t :: fs) s)
               | None => end_reactions p t (set_stack fs s)
               end
      | None => None
      end
  | _ => None
  end.

Definition run_job (s : state) : option state :=
  match stack s, jobs s with
  | [], Reactions p t :: js =>
      match promises s !! p with
      | Some e => Some (push_frame (FLoop p 0 (_v e) (Nat.eqb (_s e) 1) t) (set_jobs js s))
      | None => None
      end
  | [], CallThen p m :: js =>
      let '(w, s1) := new_wrap p (set_jobs js s) in
      Some (invoke (CallsThen w) m (resolvers (Wrap w)) (FThen w) s1)
  | _, _ => None
  end.

(** ** The tasks of unhandled rejections *)

Definition I (e : promise) : bool :=
  negb (Nat.eqb (_h e) 1) && Nat.eqb (length (default (_c e) (_a e))) 0.

(** The end of a report: the handler of the page may have handled the rejection. *)
Definition end_report (p : pid) (s : state) : state :=
  match promises s !! p with
  | Some e => upd p without_a (upd p (with_h (if I e then 2 else 1)) s)
  | None => s
  end.

(** A report to [h], the handler of the page for it, if it has one; it gets an
    object with the promise and the reason. *)
Definition report (h : option nat) (fr : frame) (p : pid) (v : value) (s : state) : state :=
  match h with Some f => invoke (Reports p) (Method (User f)) [Prom p; v] fr s | None => s end.

Definition run_task (h : option nat) (s : state) : option state :=
  match stack s, tasks s with
  | [], Unhandled p :: ks =>
      match promises s !! p with
      | Some e =>
          let s1 := set_tasks ks s in
          Some (if I e
                then let s2 := report h (FReport p) p (_v e) (emit (ReportedUnhandled p (_v e)) s1) in
                     match h with Some _ => s2 | None => end_report p s2 end
                else upd p without_a s1)
      | None => None
      end
  | [], Handled p :: ks =>
      match promises s !! p with
      | Some e => Some (report h FNotice p (_v e) (emit (ReportedHandled p (_v e)) (set_tasks ks s)))
      | None => None
      end
  | _, _ => None
  end.

(** ** The machine *)

Inductive label :=
| LNew
| LThen (p : pid) (f g : option fn)
| LCall (g : fn) (v : value)
| LResolve (v : value)
| LReject (v : value)
| LAll (vs : list value)
| LRace (vs : list value)
| LReturn (v : value)
| LThrow (v : value)
| LJob
| LNext
| LTask (h : option nat).

(** The page runs unless the loop of a microtask is on top of the stack. *)
Definition page_runs (s : state) : bool :=
  match stack s with FLoop _ _ _ _ _ :: _ => false | _ => true end.

Definition returns (v : value) (s : state) : option state :=
  match stack s with
  | FHandler x :: fs => Some (settle_derived (Completes x) x v (set_stack fs s))
  | FReport p :: fs => Some (end_report p (set_stack fs s))
  | FSync _ :: fs | FThen _ :: fs | FExec _ :: fs | FNotice :: fs => Some (set_stack fs s)
  | _ => None
  end.

Definition throws (v : value) (s : state) : option state :=
  match stack s with
  | FHandler x :: fs | FSync x :: fs =>
      Some (invoke (Completes x) (Method (RejectF (Self (promise_ x)))) [v] (FSync x) (set_stack fs s))
  | FReport p :: fs => Some (end_report p (set_stack fs s))
  | FNotice :: fs => Some (set_stack fs s)
  | FThen w :: fs => Some (N (Wrap w) v (set_stack fs s))
  | FExec p :: fs => Some (N (Self p) v (set_stack fs s))
  | _ => None
  end.

Definition page_call (l : label) (s : state) : option state :=
  match l with
  | LNew => let '(p, s1) := new_promise s in Some (push_frame (FExec p) s1)
  | LThen p f g => snd <$> then_ p f g s
  | LCall g v => Some (apply_fn g v s)
  | LResolve v => Some (snd (promise_resolve v s))
  | LReject v => Some (snd (promise_reject v s))
  | LAll vs => Some (snd (all vs s))
  | LRace vs => Some (snd (race vs s))
  | LReturn v => returns v s
  | LThrow v => throws v s
  | _ => None
  end.

Definition step (l : label) (s : state) : option state :=
  match l with
  | LJob => run_job s
  | LNext => next s
  | LTask h => run_task h s
  | _ => if page_runs s then page_call l s else None
  end.

Fixpoint run (ls : list label) (s : state) : option state :=
  match ls with
  | [] => Some s
  | l :: ls' => step l s ≫= run ls'
  end.

(** ** The life of one promise *)

(** All the machine holds about one promise: its fields, the unused pairs of
    resolving functions of foreign [then]s, the microtasks that will call a
    foreign [then] for it, the microtasks that will run its reactions, the
    loops that run them, the reactions registered, and the calls they have made
    when their turn came. *)
Record view := View {
  v_p : option promise;
  v_w : nat;
  v_j : nat;
  v_r : nat;
  v_l : list (nat * value * bool);
  v_reg : list reaction;
  v_ran : list (reaction * method * list value)
}.

Definition open_wrap (p : pid) (x : pid * bool) : option unit :=
  if Nat.eqb (fst x) p && negb (snd x) then Some tt else None.

Definition then_job (p : pid) (j : job) : option unit :=
  match j with CallThen q _ => if Nat.eqb q p then Some tt else None | _ => None end.

Definition reactions_job (p : pid) (j : job) : option unit :=
  match j with Reactions q _ => if Nat.eqb q p then Some tt else None | _ => None end.

Definition loop_of (p : pid) (f : frame) : option (nat * value * bool) :=
  match f with
  | FLoop q i r o _ => if Nat.eqb q p then Some (i, r, o) else None
  | _ => None
  end.

Definition registered_on (p : pid) (e : event) : option reaction :=
  match e with Registered q x => if Nat.eqb q p then Some x else None | _ => None end.

Definition ran_on (p : pid) (e : event) : option (reaction * method * list value) :=
  match e with
  | Called (Reacts q x) m args => if Nat.eqb q p then Some (x, m, args) else None
  | _ => None
  end.

(** The call a reaction has to make for the value of a promise that is fulfilled or
    rejected: of its handler, or else of the resolving function of its own
    promise *)
Definition due (o : bool) (r : value) (x : reaction) : method * list value :=
  (Method (if o then default (ResolveF (Self (promise_ x))) (ok x)
           else default (RejectF (Self (promise_ x))) (fail x)), [r]).

Definition view_of (p : pid) (s : state) : view :=
  View (promises s !! p)
    (length (omap (open_wrap p) (wraps s)))
    (length (omap (then_job p) (jobs s)))
    (length (omap (reactions_job p) (jobs s)))
    (omap (loop_of p) (stack s))
    (omap (registered_on p) (trace s))
    (omap (ran_on p) (trace s)).

Definition on_p (f : promise -> promise) (V : view) : view :=
  View (f <$> v_p V) (v_w V) (v_j V) (v_r V) (v_l V) (v_reg V) (v_ran V).

Definition notify (V : view) : view :=
  match v_p V with
  | Some e =>
      if _n e then V
      else View (Some (with_n true e)) (v_w V) (v_j V) (S (v_r V)) (v_l V) (v_reg V) (v_ran V)
  | None => V
  end.

(** Taking the right to settle from where it is. *)
Inductive take_token : view -> view -> Prop :=
| take_self e w j r l g n :
    _d e = false ->
    take_token (View (Some e) w j r l g n) (View (Some (with_d e)) w j r l g n)
| take_wrap p w j r l g n :
    take_token (View p (S w) j r l g n) (View p w j r l g n)
| take_job p w j r l g n :
    take_token (View p w (S j) r l g n) (View p w j r l g n).

(** Using it: hand it on, or settle the promise. *)
Inductive use_token : view -> view -> Prop :=
| use_wrap p w j r l g n :
    use_token (View p w j r l g n) (View p (S w) j r l g n)
| use_job p w j r l g n :
    use_token (View p w j r l g n) (View p w (S j) r l g n)
| use_fulfil v V : P v = NotThenable -> use_token V (notify (on_p (fulfilled v) V))
| use_reject v V : use_token V (notify (on_p (rejected v) V)).

Inductive life : view -> view -> Prop :=
| life_create w j r l g n :
    life (View None w j r l g n) (View (Some fresh_promise) w j r l g n)
| life_token V M V' : take_token V M -> use_token M V' -> life V V'
| life_register e x w j r l g n :
    life (View (Some e) w j r l g n)
      (let V := View (Some (add_reaction x e)) w j r l (g ++ [x]) n in
       if Nat.eqb (_s e) 0 then V else notify V)
| life_start e w j r l g n :
    life (View (Some e) w j (S r) l g n)
      (View (Some e) w j r ((0, _v e, Nat.eqb (_s e) 1) :: l) g n)
| life_ran e x i rv o m args w j r l g n :
    _c e !! i = Some x -> ((o = true -> P rv = NotThenable) -> (m, args) = due o rv x) ->
    life (View (Some e) w j r ((i, rv, o) :: l) g n)
      (View (Some e) w j r ((S i, rv, o) :: l) g (n ++ [(x, m, args)]))
| life_end e i rv o w j r l g n :
    _c e !! i = None ->
    life (View (Some e) w j r ((i, rv, o) :: l) g n)
      (View (Some (clear_reactions e)) w j r l g n)
| life_h h V : life V (on_p (with_h h) V)
| life_a V : life V (on_p without_a V).

Definition b2n (b : bool) : nat := if b then 1 else 0.

Definition index_of (l : list (nat * value * bool)) : nat :=
  match l with (i, _, _) :: _ => i | [] => 0 end.

(** What holds of a promise at every moment: exactly one right to settle it
    is left or it is settled; it is scheduled at most once, only when settled,
    and a settled promise with reactions is scheduled; the reactions registered
    are those that made their calls, in their order, and then those left to run;
    it is not fulfilled with a thenable, and the calls were those due. *)
Record promise_ok (e : promise) (V : view) : Prop := PromiseOk {
  po_token : b2n (negb (_d e)) + v_w V + v_j V + b2n (negb (Nat.eqb (_s e) 0)) = 1;
  po_scheduled : v_r V + length (v_l V) = b2n (_n e);
  po_settled : _n e = true -> _s e <> 0;
  po_idle : _s e <> 0 -> _n e = false -> _c e = [];
  po_loops : Forall (fun x => x.1.1 <= length (_c e) /\
                              x.1.2 = _v e /\ x.2 = Nat.eqb (_s e) 1) (v_l V);
  po_order : v_reg V = map (fun x => x.1.1) (v_ran V) ++ drop (index_of (v_l V)) (_c e);
  po_plain : _s e = 1 -> P (_v e) = NotThenable;
  po_values : Forall (fun x => _s e <> 0 /\ (x.1.2, x.2) = due (Nat.eqb (_s e) 1) (_v e) x.1.1) (v_ran V)
}.

Definition view_ok (V : view) : Prop :=
  match v_p V with
  | Some e => promise_ok e V
  | None => V = View None 0 0 0 [] [] []
  end.

(** *** The invariant of a life *)

Lemma notify_ok e V :
  v_p V = Some e -> _s e <> 0 ->
  (_n e = false -> promise_ok (with_n true e)
     (View (Some (with_n true e)) (v_w V) (v_j V) (S (v_r V)) (v_l V) (v_reg V) (v_ran V))) ->
  (_n e = true -> promise_ok e V) ->
  view_ok (notify V).
Proof.
  intros Hp Hs H0 H1. unfold notify. rewrite Hp. destruct (_n e) eqn:En.
  - unfold view_ok. rewrite Hp. auto.
  - exact (H0 eq_refl).
Qed.

(** A view whose right to settle has been taken. *)
Record taken (e : promise) (V : view) : Prop := Taken {
  ta_d : _d e = true;
  ta_w : v_w V = 0;
  ta_j : v_j V = 0;
  ta_s : _s e = 0;
  ta_n : _n e = false;
  ta_r : v_r V = 0;
  ta_l : v_l V = [];
  ta_reg : v_reg V = _c e;
  ta_ran : v_ran V = []
}.

Lemma pending_view e V :
  promise_ok e V -> _s e = 0 ->
  _n e = false /\ v_r V = 0 /\ v_l V = [] /\ v_reg V = _c e /\ v_ran V = [].
Proof.
  intros [Ht Hn Hs _ _ Ho _ Hv] Hz. destruct (_n e) eqn:En; [by destruct (Hs eq_refl)|].
  assert (v_ran V = []) as Hran.
  { destruct (v_ran V); [done|]. apply Forall_cons in Hv. by destruct Hv as [[? _] _]. }
  assert (v_l V = []) as Hl by (destruct (v_l V); simpl in *; [done|lia]).
  rewrite Hran, Hl in Ho. rewrite Hl in Hn. simpl in *. split_and!; auto; lia.
Qed.

Lemma take_taken V M :
  view_ok V -> take_token V M -> exists e, v_p M = Some e /\ taken e M.
Proof.
  intros HV HM. destruct HM as [e w j r l g n Hd|[e|] w j r l g n|[e|] w j r l g n];
    unfold view_ok in HV; simpl in HV; try discriminate HV.
  all: assert (_s e = 0) as Hz by
    (pose proof (po_token _ _ HV) as Ht; simpl in Ht;
     destruct (_s e); [done|]; simpl in Ht; try rewrite Hd in Ht; simpl in Ht; lia).
  all: destruct (pending_view _ _ HV Hz) as (?&?&?&?&?); simpl in *.
  all: pose proof (po_token _ _ HV) as Ht; simpl in Ht; rewrite Hz in Ht; simpl in Ht.
  all: eexists; split; [reflexivity|].
  all: split; simpl; auto; try rewrite Hd in Ht; simpl in Ht; try lia.
  all: destruct (_d e); simpl in *; [done|lia].
Qed.

Lemma settled_ok f e V (b : bool) v :
  taken e V -> v_p V = Some e ->
  (f e = fulfilled v e /\ P v = NotThenable \/ f e = rejected v e) ->
  view_ok (notify (on_p f V)).
Proof.
  intros [Hd Hw Hj Hs Hn Hr Hl Hg Hx] Hp Hf.
  apply (notify_ok (f e)); [by unfold on_p; simpl; rewrite Hp|by destruct Hf as [[-> _] | ->]| |];
    destruct Hf as [[-> HP] | ->]; simpl; rewrite ?Hn; try done; intros _;
    split; simpl; rewrite ?Hd, ?Hw, ?Hj, ?Hr, ?Hl, ?Hg, ?Hx; simpl; auto; done.
Qed.

Lemma use_ok M V' e :
  v_p M = Some e -> taken e M -> use_token M V' -> view_ok V'.
Proof.
  intros Hp Ht HU. destruct HU as [p w j r l g n|p w j r l g n|v V HP|v V]; simpl in Hp.
  1,2: subst p; destruct Ht as [Hd Hw Hj Hs Hn Hr Hl Hg Hx]; simpl in *; subst;
    unfold view_ok; simpl; split; simpl; rewrite ?Hd, ?Hs, ?Hn; simpl; auto; done.
  - apply (settled_ok _ e V true v); auto.
  - apply (settled_ok _ e V true v); auto.
Qed.

Lemma register_ok e x w j r l g n :
  promise_ok e (View (Some e) w j r l g n) ->
  view_ok (let V := View (Some (add_reaction x e)) w j r l (g ++ [x]) n in
           if Nat.eqb (_s e) 0 then V else notify V).
Proof.
  intros [Ht Hn Hs Hi Hl Ho Hpl Hv]. simpl in *.
  assert (index_of l <= length (_c e)) as Hle.
  { destruct l as [|[[i rv] o] l]; simpl; [lia|]. apply Forall_cons in Hl. apply Hl. }
  assert (g ++ [x] = map (fun y => y.1.1) n ++ drop (index_of l) (_c e ++ [x])) as Ho'.
  { by rewrite drop_app_le, app_assoc, Ho. }
  assert (Forall (fun y => y.1.1 <= length (_c e ++ [x]) /\
            y.1.2 = _v e /\ y.2 = Nat.eqb (_s e) 1) l) as Hl'.
  { eapply Forall_impl; [exact Hl|]. intros y [? ?]. rewrite length_app. split; [lia|done]. }
  destruct (Nat.eqb_spec (_s e) 0) as [Hz|Hz].
  - unfold view_ok. simpl. split; simpl; auto; try done.
    rewrite Hz. exact Ht.
  - pose proof (proj2 (Nat.eqb_neq _ _) Hz) as Hz'.
    apply (notify_ok (add_reaction x e)); [done|done|..]; simpl; intros En;
      split; simpl; rewrite ?En, ?Hz' in *; simpl in *; auto; try done; lia.
Qed.

Lemma life_ok V V' : view_ok V -> life V V' -> view_ok V'.
Proof.
  intros HV HL. destruct HL as
    [w j r l g n|V M V' HT HU|e x w j r l g n|e w j r l g n|e x i rv o m args w j r l g n Hx Hm
    |e i rv o w j r l g n Hx|h V|V].
  - injection HV as -> -> -> -> -> ->. unfold view_ok. simpl. by split.
  - destruct (take_taken _ _ HV HT) as (e & Hp & Ht). eauto using use_ok.
  - by apply register_ok.
  - destruct HV as [Ht Hn Hs Hi Hl Ho Hpl Hv]. simpl in *. unfold view_ok. simpl.
    assert (l = []) as -> by
      (destruct l; [done|]; simpl in Hn; destruct (_n e); simpl in Hn; lia).
    simpl in Hn. split; simpl; auto; [lia|].
    apply Forall_singleton. simpl. split_and!; [lia|done|done].
  - destruct HV as [Ht Hn Hs Hi Hl Ho Hpl Hv]. simpl in *. unfold view_ok. simpl.
    apply Forall_cons in Hl as [(Hle & Hrv & Hoo) Hl]. simpl in *.
    assert (_s e <> 0) by (destruct (_n e); [auto|simpl in Hn; lia]).
    split; simpl; auto.
    + constructor; [|done]. simpl. split; [|done]. by apply lookup_lt_Some in Hx.
    + rewrite Ho, (drop_S _ _ _ Hx), map_app. simpl. by rewrite <- app_assoc.
    + apply Forall_app. split; [done|]. apply Forall_singleton. simpl. split; [done|]. rewrite Hm; [congruence|].
      intros ->. rewrite Hrv. apply Hpl. by apply Nat.eqb_eq.
  - destruct HV as [Ht Hn Hs Hi Hl Ho Hpl Hv]. simpl in *. unfold view_ok. simpl.
    apply lookup_ge_None in Hx.
    destruct (_n e); simpl in Hn; [|lia]. specialize (Hs eq_refl).
    assert (r = 0 /\ l = []) as [-> ->] by (destruct l; simpl in *; [split; [lia|done]|lia]).
    split; simpl; auto; try done. by rewrite Ho, drop_ge.
  - destruct V as [[e|] w j r l g n]; simpl in *; [|by rewrite HV].
    destruct HV. by split.
  - destruct V as [[e|] w j r l g n]; simpl in *; [|by rewrite HV].
    destruct HV. by split.
Qed.

(** A life never changes a settled promise, nor forgets it. *)
Lemma notify_fields V e :
  v_p V = Some e ->
  exists e', v_p (notify V) = Some e' /\ _s e' = _s e /\ _v e' = _v e.
Proof.
  intros Hp. unfold notify. rewrite Hp. destruct (_n e); [by exists e|].
  by eexists; split.
Qed.

Lemma life_settled V V' e :
  view_ok V -> life V V' -> v_p V = Some e -> _s e <> 0 ->
  exists e', v_p V' = Some e' /\ _s e' = _s e /\ _v e' = _v e.
Proof.
  intros HV HL Hp Hs. destruct HL as
    [w j r l g n|V M V' HT HU|e1 x w j r l g n|e1 w j r l g n|e1 x i rv o m args w j r l g n Hx Hm
    |e1 i rv o w j r l g n Hx|h V|V]; simpl in Hp; try (injection Hp as ->).
  - discriminate Hp.
  - destruct (take_taken _ _ HV HT) as (e' & Hp' & Ht). exfalso. apply Hs.
    destruct HT; simpl in *; simplify_eq; apply Ht.
  - destruct (Nat.eqb_spec (_s e) 0); [done|]. cbn zeta.
    destruct (notify_fields (View (Some (add_reaction x e)) w j r l (g ++ [x]) n)
                (add_reaction x e) eq_refl) as (e' & ? & ? & ?). by exists e'.
  - by exists e.
  - by exists e.
  - by eexists.
  - unfold on_p. simpl. rewrite Hp. by eexists.
  - unfold on_p. simpl. rewrite Hp. by eexists.
Qed.

(** *** The machine lives *)

Definition lives (s s' : state) : Prop := forall p, rtc life (view_of p s) (view_of p s').

Lemma lives_refl s : lives s s.
Proof. intros p. reflexivity. Qed.

Lemma lives_trans s1 s2 s3 : lives s1 s2 -> lives s2 s3 -> lives s1 s3.
Proof. intros H1 H2 p. by transitivity (view_of p s2). Qed.

Lemma lives_same s s' : (forall p, view_of p s' = view_of p s) -> lives s s'.
Proof. intros H p. by rewrite H. Qed.

(** A step that touches one promise. *)
Lemma lives_one p s s' :
  rtc life (view_of p s) (view_of p s') ->
  (forall q, q <> p -> view_of q s' = view_of q s) -> lives s s'.
Proof. intros Hp Hq q. destruct (decide (q = p)) as [->|Hn]; [done|]. by rewrite Hq. Qed.

Lemma view_upd p f s : view_of p (upd p f s) = on_p f (view_of p s).
Proof. unfold view_of, on_p. simpl. by rewrite list_lookup_alter_eq. Qed.

Lemma view_upd_ne p q f s : q <> p -> view_of q (upd p f s) = view_of q s.
Proof. intros H. unfold view_of. simpl. by rewrite list_lookup_alter_ne. Qed.

Lemma view_T p t s : view_of p (T p t s) = notify (view_of p s).
Proof.
  unfold T, notify. simpl. destruct (promises s !! p) as [e|] eqn:Ep; [|done].
  destruct (_n e); [done|]. unfold view_of. simpl.
  rewrite list_lookup_alter_eq, !omap_app, !length_app. simpl. rewrite Nat.eqb_refl.
  rewrite Ep. simpl. f_equal; lia.
Qed.

Lemma view_T_ne p q t s : q <> p -> view_of q (T p t s) = view_of q s.
Proof.
  intros H. unfold T. destruct (promises s !! p) as [e|]; [|done].
  destruct (_n e); [done|]. unfold view_of. simpl.
  rewrite list_lookup_alter_ne by done. rewrite !omap_app, !length_app. simpl.
  rewrite (proj2 (Nat.eqb_neq p q)) by auto. simpl. f_equal; lia.
Qed.

Lemma view_then_job p m s :
  view_of p (y (CallThen p m) s) =
  let V := view_of p s in
  View (v_p V) (v_w V) (S (v_j V)) (v_r V) (v_l V) (v_reg V) (v_ran V).
Proof.
  unfold view_of. simpl. rewrite !omap_app, !length_app. simpl. rewrite Nat.eqb_refl.
  simpl. f_equal; lia.
Qed.

Lemma view_then_job_ne p q m s : q <> p -> view_of q (y (CallThen p m) s) = view_of q s.
Proof.
  intros H. unfold view_of. simpl. rewrite !omap_app, !length_app. simpl.
  rewrite (proj2 (Nat.eqb_neq p q)) by auto. simpl. f_equal; lia.
Qed.

Lemma open_wrap_open p q : open_wrap q (p, false) = if Nat.eqb p q then Some tt else None.
Proof. unfold open_wrap. simpl. by rewrite andb_true_r. Qed.

Lemma open_wrap_done p q : open_wrap q (p, true) = None.
Proof. unfold open_wrap. simpl. by rewrite andb_false_r. Qed.

Lemma view_wrap p s :
  view_of p (snd (new_wrap p s)) =
  let V := view_of p s in
  View (v_p V) (S (v_w V)) (v_j V) (v_r V) (v_l V) (v_reg V) (v_ran V).
Proof.
  unfold view_of. simpl. rewrite omap_app, length_app. simpl.
  rewrite open_wrap_open, Nat.eqb_refl. simpl. f_equal; lia.
Qed.

Lemma view_wrap_ne p q s : q <> p -> view_of q (snd (new_wrap p s)) = view_of q s.
Proof.
  intros H. unfold view_of. simpl. rewrite omap_app, length_app. simpl.
  rewrite open_wrap_open, (proj2 (Nat.eqb_neq p q)) by auto. simpl. f_equal; lia.
Qed.

Lemma open_wrap_used p q w l :
  l !! w = Some (p, false) ->
  length (omap (open_wrap q) l) =
  (if Nat.eqb p q then 1 else 0) + length (omap (open_wrap q) (<[w := (p, true)]> l)).
Proof.
  intros Hw. rewrite <- (take_drop_middle l w _ Hw) at 1.
  rewrite insert_take_drop by (by apply lookup_lt_Some in Hw).
  rewrite !omap_app, !length_app. simpl. rewrite open_wrap_open, open_wrap_done. destruct (Nat.eqb p q); simpl; lia.
Qed.

Lemma claim_view t s p s1 :
  claim t s = Some (p, s1) ->
  take_token (view_of p s) (view_of p s1) /\
  forall q, q <> p -> view_of q s1 = view_of q s.
Proof.
  intros H. destruct t as [p0|w]; simpl in H.
  - destruct (promises s !! p0) as [e|] eqn:Ep; [|done].
    destruct (_d e) eqn:Ed; [done|]. simplify_eq. split.
    + rewrite view_upd. unfold on_p. simpl. unfold view_of. rewrite Ep. by constructor.
    + intros q Hq. by apply view_upd_ne.
  - destruct (wraps s !! w) as [[p0 []]|] eqn:Ew; [done| |done]. simplify_eq.
    pose proof (fun q => open_wrap_used p q w _ Ew) as Hu. split.
    + specialize (Hu p). rewrite Nat.eqb_refl in Hu.
      unfold view_of. rewrite Hu. simpl. constructor.
    + intros q Hq. specialize (Hu q). rewrite (proj2 (Nat.eqb_neq p q)) in Hu by auto.
      unfold view_of. simpl. by rewrite Hu.
Qed.

(** Using a right that [claim] took: the promise moves by one step of its
    life, the others do not. *)
Lemma lives_token t s p s1 s2 :
  claim t s = Some (p, s1) ->
  use_token (view_of p s1) (view_of p s2) ->
  (forall q, q <> p -> view_of q s2 = view_of q s1) ->
  lives s s2.
Proof.
  intros Hc Hu Hq. destruct (claim_view _ _ _ _ Hc) as [Ht Hr].
  apply (lives_one p).
  - apply rtc_once. by apply (life_token _ (view_of p s1)).
  - intros q Hn. by rewrite Hq, Hr.
Qed.

Lemma N_lives t v s : lives s (N t v s).
Proof.
  unfold N. destruct (claim t s) as [[p s1]|] eqn:Ec; [|apply lives_refl].
  apply (lives_token _ _ _ _ _ Ec).
  - rewrite view_T, view_upd. constructor.
  - intros q Hq. by rewrite view_T_ne, view_upd_ne.
Qed.

Lemma reject_anew_lives t s p s1 v :
  claim t s = Some (p, s1) -> lives s (reject_anew p v s1).
Proof.
  intros Hc. unfold reject_anew. destruct (new_wrap p s1) as [w s2] eqn:Ew.
  apply (lives_trans _ s2); [|apply N_lives].
  change s2 with (snd (w, s2)). rewrite <- Ew.
  apply (lives_token _ _ _ _ _ Hc).
  - rewrite view_wrap. constructor.
  - intros q Hq. by apply view_wrap_ne.
Qed.

Lemma R_lives t v s : lives s (R t v s).
Proof.
  unfold R. destruct (claim t s) as [[p s1]|] eqn:Ec; [|apply lives_refl].
  destruct (is_promise p v); [by eapply reject_anew_lives|].
  destruct (P v) as [|x|m] eqn:EP; [|by eapply reject_anew_lives|].
  - apply (lives_token _ _ _ _ _ Ec).
    + rewrite view_T, view_upd. by constructor.
    + intros q Hq. by rewrite view_T_ne, view_upd_ne.
  - apply (lives_token _ _ _ _ _ Ec).
    + rewrite view_then_job. constructor.
    + intros q Hq. by apply view_then_job_ne.
Qed.

Lemma new_lives s : lives s (snd (new_promise s)).
Proof.
  apply (lives_one (length (promises s))).
  - apply rtc_once. unfold view_of. simpl.
    rewrite lookup_ge_None_2 by done. rewrite list_lookup_middle by done. constructor.
  - intros q Hq. unfold view_of. simpl. f_equal.
    destruct (decide (q < length (promises s))) as [Hl|Hl].
    + by rewrite lookup_app_l.
    + rewrite !lookup_ge_None_2; [done|lia|rewrite length_app; simpl; lia].
Qed.

Lemma then_lives p f g s q s' : then_ p f g s = Some (q, s') -> lives s s'.
Proof.
  unfold then_. destruct (promises s !! p) as [e|] eqn:Ep; [|done].
  destruct (new_promise s) as [q0 s1] eqn:En. intros [= <- <-].
  apply (lives_trans _ s1); [change s1 with (snd (q0, s1)); rewrite <- En; apply new_lives|].
  assert (promises s1 !! p = Some e) as Ep1.
  { injection En as _ <-. simpl. by apply lookup_app_l_Some. }
  apply (lives_one p).
  - apply rtc_once.
    pose proof (life_register e (Reaction q0 f g)) as HL.
    unfold view_of at 1. rewrite Ep1.
    assert (view_of p (emit (Registered p (Reaction q0 f g))
              (upd p (add_reaction (Reaction q0 f g)) s1)) =
            View (Some (add_reaction (Reaction q0 f g) e)) (v_w (view_of p s1))
              (v_j (view_of p s1)) (v_r (view_of p s1)) (v_l (view_of p s1))
              (v_reg (view_of p s1) ++ [Reaction q0 f g]) (v_ran (view_of p s1))) as HV.
    { unfold view_of. simpl. rewrite list_lookup_alter_eq, Ep1, !omap_app. simpl.
      by rewrite Nat.eqb_refl, app_nil_r. }
    cbv zeta in HL. destruct (Nat.eqb (_s e) 0); [rewrite HV|rewrite view_T, HV]; apply HL.
  - intros r Hr. destruct (Nat.eqb (_s e) 0); [|rewrite view_T_ne by done];
      unfold view_of; simpl; rewrite list_lookup_alter_ne, !omap_app by done; simpl;
      rewrite (proj2 (Nat.eqb_neq p r)) by auto; by rewrite !app_nil_r.
Qed.

(** A change of the parts of the state no view looks at. *)
Ltac same_view :=
  apply lives_same; intros ?; unfold view_of; simpl;
  rewrite ?omap_app; simpl; rewrite ?app_nil_r; done.

Lemma upd_lives f p s :
  (forall V, life V (on_p f V)) -> lives s (upd p f s).
Proof.
  intros HL. apply (lives_one p).
  - rewrite view_upd. apply rtc_once, HL.
  - intros q Hq. by apply view_upd_ne.
Qed.

Lemma do_then_lives p f g s : lives s (do_then p f g s).
Proof.
  unfold do_then. destruct (then_ p f g s) as [[q s1]|] eqn:E;
    [by eapply then_lives|apply lives_refl].
Qed.

Lemma set_alls_lives l s : lives s (set_alls l s).
Proof. same_view. Qed.

Lemma all_called_lives a u v s : lives s (all_called a u v s).
Proof.
  unfold all_called. destruct (alls s !! a) as [l|]; [|apply lives_refl].
  destruct (a_called l !! u) as [[]|]; [apply lives_refl| |apply lives_refl].
  cbv zeta. destruct (Nat.eqb (a_left l - 1) 0);
    eauto using lives_trans, set_alls_lives, R_lives.
Qed.

Lemma apply_lives g v s : lives s (apply_fn g v s).
Proof.
  destruct g; simpl;
    eauto using lives_refl, R_lives, N_lives, all_called_lives.
Qed.

Definition page_frame (f : frame) : bool :=
  match f with FLoop _ _ _ _ _ => false | _ => true end.

Lemma push_lives f s : page_frame f = true -> lives s (push_frame f s).
Proof. intros Hf. destruct f; [done|same_view..]. Qed.

Lemma pop_lives f fs s : stack s = f :: fs -> page_frame f = true -> lives s (set_stack fs s).
Proof.
  intros Hs Hf. apply lives_same. intros q. unfold view_of. simpl. rewrite Hs.
  by destruct f.
Qed.

(** After a call was recorded, it lives. *)
Lemma invoke_recorded c m args fr s :
  page_frame fr = true -> lives (emit (Called c m args) s) (invoke c m args fr s).
Proof.
  intros Hf. destruct m as [q|[f|t|t|a u]]; cbn [invoke]; [apply do_then_lives|by apply push_lives|..]; apply (apply_lives _ _ (emit _ s)).
Qed.

Definition is_turn (c : caller) : bool := match c with Reacts _ _ => true | _ => false end.

Lemma record_lives c m args s : is_turn c = false -> lives s (emit (Called c m args) s).
Proof. intros Hc. destruct c; [done|same_view..]. Qed.

Lemma invoke_lives c m args fr s : page_frame fr = true -> is_turn c = false -> lives s (invoke c m args fr s).
Proof. intros Hf Hc. eapply lives_trans; [by apply record_lives|by apply invoke_recorded]. Qed.

Lemma promise_resolve_lives v s : lives s (snd (promise_resolve v s)).
Proof.
  destruct v; simpl; try apply lives_refl;
    (eapply lives_trans; [apply new_lives|apply R_lives]).
Qed.

Lemma promise_reject_lives v s : lives s (snd (promise_reject v s)).
Proof. simpl. eapply lives_trans; [apply new_lives|apply N_lives]. Qed.

Lemma all_enter_lives a s : lives s (all_enter a s).
Proof. unfold all_enter. destruct (alls s !! a); [same_view|apply lives_refl]. Qed.

Lemma all_each_lives a q u vs s : lives s (all_each a q u vs s).
Proof.
  revert u s. induction vs as [|v vs IH]; intros u s; simpl; [apply lives_refl|].
  pose proof (promise_resolve_lives v (all_enter a s)) as Hr.
  destruct (promise_resolve v (all_enter a s)) as [p s1].
  eapply lives_trans; [apply all_enter_lives|]. eapply lives_trans; [exact Hr|].
  eapply lives_trans; [apply do_then_lives|apply IH].
Qed.

Lemma all_lives vs s : lives s (snd (all vs s)).
Proof.
  simpl. eapply lives_trans; [apply new_lives|]. simpl.
  eapply lives_trans; [apply set_alls_lives|].
  eapply lives_trans; [apply all_each_lives|].
  unfold all_leave. case_match; [|apply lives_refl]. cbv zeta.
  case_match; eauto using lives_trans, set_alls_lives, R_lives.
Qed.

Lemma race_lives vs s : lives s (snd (race vs s)).
Proof.
  simpl. eapply lives_trans; [apply new_lives|]. simpl.
  generalize (length (promises s)) as q. intros q.
  generalize (set_promises (promises s ++ [fresh_promise]) s) as s1.
  induction vs as [|v vs IH]; intros s1; simpl; [apply lives_refl|].
  pose proof (promise_resolve_lives v s1) as Hr.
  destruct (promise_resolve v s1) as [p s2].
  eapply lives_trans; [exact Hr|]. eapply lives_trans; [apply do_then_lives|apply IH].
Qed.

(** What a reaction does begins with a call. *)
Lemma settle_derived_recorded c x n s :
  exists m args, lives (emit (Called c m args) s) (settle_derived c x n s) /\
    (P n = NotThenable -> (m, args) = (Method (ResolveF (Self (promise_ x))), [n])).
Proof.
  unfold settle_derived. destruct (is_promise (promise_ x) n) eqn:Ei.
  - do 2 eexists. split; [by apply invoke_recorded|]. destruct n; done.
  - destruct (P n) eqn:EP; (do 2 eexists; split; [by apply invoke_recorded|done]).
Qed.

Lemma settle_derived_lives x n s : lives s (settle_derived (Completes x) x n s).
Proof.
  destruct (settle_derived_recorded (Completes x) x n s) as (m & args & H & _). eapply lives_trans; [|exact H]. by apply record_lives.
Qed.

Lemma call_handler_recorded c g r x s : lives (emit (Called c (Method g) [r]) s) (call_handler c g r x s).
Proof.
  unfold call_handler. cbv zeta. pose proof (invoke_recorded c (Method g) [r] (FHandler x) s eq_refl) as H.
  destruct g; [exact H|..]; (eapply lives_trans; [exact H|apply settle_derived_lives]).
Qed.

Lemma note_handled_lives p s : lives s (note_handled p s).
Proof.
  unfold note_handled. destruct (promises s !! p) as [e|]; [|apply lives_refl].
  eapply lives_trans; [|apply upd_lives, life_h].
  destruct (Nat.eqb (_h e) 2); [same_view|apply lives_refl].
Qed.

Lemma run_reaction_recorded p o r x s :
  exists m args, lives (emit (Called (Reacts p x) m args) s) (run_reaction p o r x s) /\
    ((o = true -> P r = NotThenable) -> (m, args) = due o r x).
Proof.
  unfold run_reaction, due. destruct o.
  - destruct (ok x) as [g|]; [by do 2 eexists; split; [apply call_handler_recorded|]|].
    destruct (settle_derived_recorded (Reacts p x) x r s) as (m & args & H & He). exists m, args. split; [done|]. intros Hp. by apply He, Hp.
  - destruct (ok x), (fail x) as [g|]; (do 2 eexists; split; [|done]);
      first [by apply invoke_recorded|eapply lives_trans; [|apply call_handler_recorded]];
      (eapply lives_trans; [apply (note_handled_lives p)|]); unfold note_handled; simpl; destruct (promises s !! p) as [e|]; [|apply lives_refl|..];
      try apply lives_refl; destruct (Nat.eqb (_h e) 2); apply lives_refl.
Qed.

Lemma next_lives s s' : next s = Some s' -> lives s s'.
Proof.
  unfold next. destruct (stack s) as [|[p i r o t|x|x|w|p|p|] fs] eqn:Es; try done.
  destruct (promises s !! p) as [e|] eqn:Ep; [|done]. intros [= <-].
  destruct (_c e !! i) as [x|] eqn:Ex.
  - destruct (run_reaction_recorded p o r x (set_stack (FLoop p (S i) r o t :: fs) s)) as (m & args & Hl & Hd).
    eapply lives_trans; [|exact Hl]. apply (lives_one p).
    + apply rtc_once. unfold view_of. simpl. rewrite Es, Ep, !omap_app. simpl.
      rewrite Nat.eqb_refl, app_nil_r. by apply life_ran.
    + intros q Hq. unfold view_of. simpl. rewrite Es, !omap_app. simpl.
      rewrite (proj2 (Nat.eqb_neq p q)) by auto. by rewrite !app_nil_r.
  - unfold end_reactions. simpl. rewrite Ep.
    apply (lives_trans _ (upd p clear_reactions (set_stack fs s)));
      [|destruct (t && Nat.eqb (_h e) 0); [same_view|apply lives_refl]].
    apply (lives_one p).
    + apply rtc_once. rewrite view_upd. unfold view_of, on_p. simpl. rewrite Es, Ep. simpl.
      rewrite Nat.eqb_refl. by apply life_end.
    + intros q Hq. rewrite view_upd_ne by done. unfold view_of. simpl. rewrite Es. simpl.
      by rewrite (proj2 (Nat.eqb_neq p q)) by auto.
Qed.

Lemma run_job_lives s s' : run_job s = Some s' -> lives s s'.
Proof.
  unfold run_job. destruct (stack s) as [|f fs] eqn:Es; [|done].
  destruct (jobs s) as [|[p t|p m] js] eqn:Ej; [done|..].
  - destruct (promises s !! p) as [e|] eqn:Ep; [|done]. intros [= <-].
    apply (lives_one p).
    + apply rtc_once. unfold view_of. simpl. rewrite Es, Ep, Ej. simpl.
      rewrite Nat.eqb_refl. apply life_start.
    + intros q Hq. unfold view_of. simpl. rewrite Es, Ej. simpl.
      by rewrite (proj2 (Nat.eqb_neq p q)) by auto.
  - destruct (new_wrap p (set_jobs js s)) as [w s1] eqn:Ew. intros [= <-].
    eapply lives_trans; [|by apply invoke_lives].
    change s1 with (snd (w, s1)). rewrite <- Ew. apply (lives_one p).
    + apply rtc_once. rewrite view_wrap. eapply life_token, use_wrap.
      unfold view_of. simpl. rewrite Ej. simpl. rewrite Nat.eqb_refl. apply take_job.
    + intros q Hq. rewrite view_wrap_ne by done. unfold view_of. simpl. rewrite Ej. simpl.
      by rewrite (proj2 (Nat.eqb_neq p q)) by auto.
Qed.

Lemma end_report_lives p s : lives s (end_report p s).
Proof.
  unfold end_report. destruct (promises s !! p) as [e|]; [|apply lives_refl].
  eapply lives_trans; [apply upd_lives, life_h|apply upd_lives, life_a].
Qed.

Lemma report_lives h fr p v s : page_frame fr = true -> lives s (report h fr p v s).
Proof. intros Hf. destruct h; [by apply invoke_lives|apply lives_refl]. Qed.

Lemma run_task_lives h s s' : run_task h s = Some s' -> lives s s'.
Proof.
  unfold run_task. destruct (stack s) as [|f fs]; [|done].
  destruct (tasks s) as [|[p|p] ks]; [done|..];
    (destruct (promises s !! p) as [e|] eqn:Ep; [|done]); intros [= <-].
  - destruct (I e); [|eapply lives_trans; [|apply upd_lives, life_a]; same_view].
    apply (lives_trans _ (emit (ReportedUnhandled p (_v e)) (set_tasks ks s))); [same_view|].
    destruct h; [by apply report_lives|apply end_report_lives].
  - eapply lives_trans; [|by apply report_lives]. same_view.
Qed.

Lemma returns_lives v s s' : returns v s = Some s' -> lives s s'.
Proof.
  unfold returns. destruct (stack s) as [|[p i r o t|x|x|w|p|p|] fs] eqn:Es; try done;
    intros [= <-]; eauto using lives_trans, pop_lives, settle_derived_lives, end_report_lives.
Qed.

Lemma throws_lives v s s' : throws v s = Some s' -> lives s s'.
Proof.
  unfold throws. destruct (stack s) as [|[p i r o t|x|x|w|p|p|] fs] eqn:Es; try done; intros [= <-].
  all: eapply lives_trans; [by eapply pop_lives|].
  all: first [apply N_lives|apply end_report_lives|apply lives_refl|by apply (invoke_lives (Completes x) (Method (RejectF (Self (promise_ x)))) [v] (FSync x))].
Qed.

Lemma page_call_lives l s s' : page_call l s = Some s' -> lives s s'.
Proof.
  destruct l; simpl; try done; try (intros [= <-]).
  - eapply lives_trans; [apply new_lives|]. same_view.
  - destruct (then_ p f g s) as [[q s1]|] eqn:E; simpl; [|done]. intros [= <-].
    by eapply then_lives.
  - apply apply_lives.
  - apply promise_resolve_lives.
  - apply promise_reject_lives.
  - apply all_lives.
  - apply race_lives.
  - apply returns_lives.
  - apply throws_lives.
Qed.

(** Every step of the machine is, for every promise, steps of its life. *)
Lemma step_lives l s s' : step l s = Some s' -> lives s s'.
Proof.
  intros H. destruct l; cbn [step] in H; try (destruct (page_runs s); [|done]);
    eauto using page_call_lives, run_job_lives, next_lives, run_task_lives.
Qed.

Lemma run_lives ls s s' : run ls s = Some s' -> lives s s'.
Proof.
  revert s. induction ls as [|l ls IH]; intros s; simpl.
  - intros [= <-]. apply lives_refl.
  - destruct (step l s) as [s1|] eqn:E; simpl; [|done]. intros H.
    eapply lives_trans; [by eapply step_lives|auto].
Qed.

(** ** Properties *)

Definition reachable (s : state) : Prop := exists ls, run ls init_state = Some s.

Lemma lives_ok s s' p : lives s s' -> view_ok (view_of p s) -> view_ok (view_of p s').
Proof. intros HL. induction (HL p); eauto using life_ok. Qed.

Lemma reachable_ok s p : reachable s -> view_ok (view_of p s).
Proof.
  intros [ls H]. eapply lives_ok; [by eapply run_lives|]. done.
Qed.

Lemma life_settled_rtc V V' e :
  rtc life V V' -> view_ok V -> v_p V = Some e -> _s e <> 0 ->
  exists e', v_p V' = Some e' /\ _s e' = _s e /\ _v e' = _v e.
Proof.
  intros HL. revert e. induction HL as [V|V V1 V' H1 HL IH]; intros e HV Hp Hs; [by exists e|].
  destruct (life_settled _ _ _ HV H1 Hp Hs) as (e1 & Hp1 & Hs1 & Hv1).
  destruct (IH e1) as (e' & ? & ? & ?); [by eapply life_ok|done|congruence|].
  exists e'. split_and!; congruence.
Qed.

(** The resolving functions of [p] that are still open: its own, those made
    for a foreign [then], and those a microtask is about to make. *)
Definition open_resolvers (p : pid) (e : promise) (s : state) : nat :=
  b2n (negb (_d e)) + length (omap (open_wrap p) (wraps s)) +
  length (omap (then_job p) (jobs s)).

(** C19: whatever the page does, a promise settles at most once.  At every
    moment it is settled and no resolving function of it is open, or it is
    pending and exactly one is; and once settled it keeps its state and its
    value through every later call, microtask and task. *)
Theorem promise_settles_once s p e ls s' :
  reachable s -> promises s !! p = Some e -> run ls s = Some s' ->
  open_resolvers p e s = (if Nat.eqb (_s e) 0 then 1 else 0) /\
  (_s e <> 0 ->
   exists e', promises s' !! p = Some e' /\ _s e' = _s e /\ _v e' = _v e).
Proof.
  intros Hr Hp Hrun. pose proof (reachable_ok s p Hr) as Hok. split.
  - unfold view_ok in Hok. simpl in Hok. rewrite Hp in Hok.
    pose proof (po_token _ _ Hok) as Ht. unfold open_resolvers. simpl in Ht.
    destruct (Nat.eqb (_s e) 0); simpl in *; lia.
  - intros Hs. exact (life_settled_rtc _ _ e (run_lives _ _ _ Hrun p) Hok Hp Hs).
Qed.

(** The reactions registered on [p], and those run with their argument, in
    the order of the trace. *)
Definition registered (p : pid) (s : state) : list reaction :=
  omap (registered_on p) (trace s).

Definition ran (p : pid) (s : state) : list (reaction * method * list value) :=
  omap (ran_on p) (trace s).


(** *** Runs *)

Definition state_after (ls : list label) : state := default init_state (run ls init_state).

Lemma state_after_reachable ls :
  (if run ls init_state then true else false) = true -> reachable (state_after ls).
Proof.
  unfold state_after. intros H. exists ls. by destruct (run ls init_state).
Qed.

(** A promise resolved with a foreign thenable, whose [then] resolves, rejects
    and throws: only the first counts. *)
Definition adopting : list label :=
  [LNew; LCall (ResolveF (Self 0)) (Obj (ThenIs (User 3))); LReturn Undefined;
   LThen 0 (Some (User 7)) None; LJob; LCall (ResolveF (Wrap 0)) (Data 1)].

Definition misbehaving : list label :=
  [LCall (RejectF (Wrap 0)) (Data 2); LThrow (Data 3); LCall (RejectF (Self 0)) (Data 4);
   LJob; LNext; LThrow (Data 5); LNext].

Lemma promise_settles_once_witness :
  exists e e', promises (state_after adopting) !! 0 = Some e /\ _s e = 1 /\
    promises (state_after (adopting ++ misbehaving)) !! 0 = Some e' /\
    _s e' = 1 /\ _v e' = Data 1.
Proof.
  destruct (promise_settles_once (state_after adopting) 0
              (Promise [Reaction 1 (Some (User 7)) None] None 1 true (Data 1) 0 true)
              misbehaving (state_after (adopting ++ misbehaving)))
    as [_ (e' & He & Hs & Hv)];
    [apply state_after_reachable; vm_compute; reflexivity|vm_compute; reflexivity
    |vm_compute; reflexivity|discriminate|].
  eexists. exists e'. split; [vm_compute; reflexivity|].
  split; [reflexivity|]. split; [exact He|]. split; [exact Hs|exact Hv].
Defined.

(** Two reactions, the first of which registers a third while it runs. *)
Definition registering : list label :=
  [LNew; LThen 0 (Some (User 1)) None; LThen 0 None (Some (User 2));
   LCall (ResolveF (Self 0)) (Data 9); LReturn Undefined;
   LJob; LNext; LThen 0 (Some (User 3)) None; LReturn (Prom 2); LNext; LNext;
   LReturn (Data 8); LNext;
   LJob; LNext; LNext; LJob; LNext; LJob; LNext; LJob; LNext].


(** A rejection is reported to the page, whose handler catches it: it counts as
    handled. *)
Definition catching : list label :=
  [LReject (Data 6); LJob; LNext; LTask (Some 4); LThen 0 None (Some (User 5)); LReturn Undefined].

Lemma report_handled : _h <$> promises (state_after catching) !! 0 = Some 1 /\
  _h <$> promises (state_after [LReject (Data 6); LJob; LNext; LTask None]) !! 0 = Some 2.
Proof. vm_compute. done. Qed.
